(* ===== verification/_CoqProject ===== *)
-Q . S2P
Prelude.v
Bytes.v
Struct.v
Unicode.v
Canonical.v
Transformers.v
Masking.v
Sql.v
Sensitivity.v
Config.v
Columns.v
Adapter.v
Pipeline.v
Registry.v
Gateway.v
Budget.v
Domain.v
Decimal.v
ResultFrame.v
ResultEncoder.v
Startup.v
Scram.v
Transport.v
Receiver.v
Delivery.v
WorkerProtocol.v
SessionState.v
WorkerJob.v
Worker.v
AdminWork.v
Json.v
Datasource.v
Destination.v
CatalogFormat.v
CatalogLaws.v
CatalogDisk.v
CatalogStore.v
CatalogNames.v
CatalogRuns.v
CatalogCrash.v
CatalogRotation.v
DatasourceRegistry.v
DatasourceDrain.v
DatasourceShutdown.v
ConfigFile.v
AdminService.v
AdminSteps.v
AdminCalm.v
Administration.v
Candidate.v
ServiceRegistry.v
CatalogApi.v
DatasourceService.v
ServiceLaws.v
Mutations.v
MutationLaws.v
