(* ===== verification/Prelude.v ===== *)
(** * maskgw: a verification library for the AI Data Masking Gateway

    The program under [src/src/maskgw] stands between an AI client and a
    PostgreSQL database.  A query text comes in; it is validated, run in a
    read-only transaction, every value of a column covered by a rule is
    transformed, and only the masked result goes out.  This library translates
    the parts of the program that decide something into executable Rocq
    definitions and proves what each of them promises.

    ** The parts and how they interact

    A query goes through [Gateway.query] (gateway/service.py).  It borrows the
    published runtime from [Registry] (runtime/registry.py), opens the
    runtime's adapter ([Adapter.connect], db/postgres.py), which validates the
    text ([Sql], sql/validator.py), analyses which rule covers each position
    ([Sensitivity], sql/sensitivity.py), executes, resolves the origin of each
    column ([Columns], db/provenance.py and db/columns.py) and reads the rows
    in batches through the masking engine ([Masking], masking/engine.py, over
    [Transformers] and [Canonical]).  The policy the engine runs is compiled
    from the configuration file's model ([Config], config/).  Whatever happens,
    one audit entry is written and the runtime is released.

    The PostgreSQL front end of the gateway authenticates a client ([Startup]
    and [Scram], pgwire/framing.py and pgwire/scram.py), and carries the masked
    result from the worker process that ran the query to the client as a
    private frame ([ResultEncoder] writes it, [ResultFrame] validates it,
    [Receiver] owns it while it is received and sent, over the bounded
    channels of [Transport]; [Delivery] puts them together).  The memory and
    the sessions this takes are credits of one ledger ([Budget],
    runtime/budget.py).

    The worker process holds one session of one datasource.  It speaks the
    packets of [WorkerProtocol] with its supervisor; its loop ([Worker],
    runtime/worker_process.py) reads one query at a time, compares the
    session's state with its baseline ([SessionState]), runs the job
    ([WorkerJob], over [Adapter] and [ResultEncoder]) and answers with the
    frame or one error.  The operations of the administration interface run
    on a queue of a fixed number of workers ([AdminWork]).

    The datasources and their secrets are kept in one encrypted document
    ([Datasource] and [CatalogFormat] over [Json], datasource/models.py,
    crypto.py and store.py), whose revision a separate anchor file confirms.
    Each change goes through a journal, a backup, the document and the anchor
    ([CatalogDisk]); opening the store finishes or drops what a crash left
    ([CatalogStore]).  A datasource's host is confined to the addresses its
    policy admits ([Destination], datasource/destination.py).

    What is served at run time is a registry of generations, one for each
    published datasource ([DatasourceRegistry], runtime/datasources.py), whose
    sessions, candidates and shutdown are the steps of [DatasourceDrain].  The
    coordinator ([DatasourceService], runtime/datasource_service.py) keeps
    catalog and registry together: each write prepares a candidate
    ([Candidate], runtime/candidate.py), changes the catalog through the
    interface [CatalogApi], which [CatalogStore] implements, publishes or
    withdraws, and seals a view of both for the readers.  Whether a memory
    domain can hold what the ledger promises is decided by [Domain]
    (runtime/domain.py).

    The administration edits the configuration file of the gateway.  A route
    turns a request into an edit of the document ([Mutations],
    admin/http/mutations.py); the service ([AdminService], admin/service.py)
    checks the revision, validates, connects a candidate, writes the file
    ([ConfigFile], config/filesystem.py) and publishes the new runtime to
    [Registry], while other programs may edit the file and queries run.

    ** Files

    - [Prelude]: results ([res]: a return or an exception), the state and error
      monad [st] with its calculus of weakest preconditions ([wp], [wpe]),
      strings as lists of code points, [str] of an integer, generic lemmas.
    - [Bytes], [Struct], [Unicode], [Decimal]: what the source uses of
      Python's bytes, [struct] formats, [base64], [casefold], [strip], UTF-8
      and decimal text.
    - [Canonical]: masking/canonical.py.  [Transformers]: masking/transformers/
      and secretsource.py.  [Masking]: masking/rules.py, descriptor.py,
      matcher.py, engine.py.
    - [Sql]: sql/policy.py, parser.py, validator.py.  [Sensitivity]:
      sql/sensitivity.py.
    - [Config]: config/models.py, ids.py, loader.py, gateway.py.
    - [Columns]: db/columns.py, db/provenance.py.  [Adapter]: db/postgres.py,
      result.py, sanitize.py, execution_error.py, capabilities.py.
      [Pipeline]: no code of its own, the theorems on the whole adapter.
    - [Registry]: runtime/registry.py.  [Gateway]: gateway/service.py,
      gateway/models.py, the query entry of audit/models.py.
    - [Budget]: runtime/budget.py.
    - [ResultFrame]: pgwire/result_frame.py.  [ResultEncoder]:
      pgwire/result_encoder.py.
    - [Startup]: pgwire/framing.py, pgwire/errors.py.  [Scram]:
      pgwire/scram.py and the verifiers of pgwire/credential.py.
    - [Transport]: pgwire/transport.py.  [Receiver]: pgwire/result_receiver.py.
      [Delivery]: no code of its own, the theorem on a result from the encoder
      to the client.
    - [WorkerProtocol]: runtime/worker_protocol.py.  [SessionState]:
      db/session_state.py.  [WorkerJob]: runtime/worker_job.py.  [Worker]: the
      loop of runtime/worker_process.py.  [AdminWork]: runtime/admin_work.py.
    - [Json]: what the source uses of [json.loads] and [json.dumps], with the
      proof that reading what was printed gives it back.  [Datasource]:
      datasource/models.py and crypto.py.  [Destination]:
      datasource/destination.py.  [CatalogFormat]: the documents of
      datasource/store.py; [CatalogLaws]: their theorems, with a concrete
      catalog.
    - [CatalogDisk]: how datasource/store.py writes, on a disk that may fail,
      die or lose its power at every call.  [CatalogStore]: the class
      [CatalogStore], recovery and rotation.  [CatalogNames]: runs tell disks
      apart only by what their names hold.  [CatalogRuns]: the logic of
      those runs and what each writing routine does.  [CatalogCrash],
      [CatalogRotation]: no code of their own, the theorems on a commit, on
      opening and on a rotation of the master key.
    - [DatasourceRegistry]: runtime/datasources.py, its critical sections.
      [DatasourceDrain]: what runs between them (sessions, reservations,
      disposals, the shutdown), as steps, with the invariant of every state
      reached.  [DatasourceShutdown]: the theorems on both.
    - [Candidate]: runtime/candidate.py.  [CatalogApi]: the catalog as its
      coordinator sees it, a class of operations and its laws, with
      [CatalogStore] as the instance.  [DatasourceService]:
      runtime/datasource_service.py.  [ServiceRegistry]: what publication,
      withdrawal and status do to what is served.  [ServiceLaws]: the
      theorems on the coordinator.
    - [Domain]: runtime/domain.py.
    - [ConfigFile]: config/filesystem.py.  [AdminService]: admin/service.py,
      document.py and errors.py.  [AdminSteps], [AdminCalm]: what an
      operation does to the world when anything fails, and when nothing does.
      [Administration]: the theorems on the service.
    - [Mutations]: admin/http/mutations.py and the ids it draws (config/ids.py).
      [MutationLaws]: their theorems.

    A Python object with methods is a Record, a method that changes it a
    function to a result and the new record, an exception the [Err] of the
    file's error type, whose constructors are the source's categories.
    Definitions keep the source's names; a leading underscore is dropped.

    ** Library code

    What the source calls and does not define is an interface: [PyLib]
    (hashlib, hmac, re, secrets) with the documented behaviour the proofs use
    in [PyLibLaws], and an instance of both for the witnesses; [Visitor]
    (pglast's parser and tree walk, with the node classes the source reads);
    [Server] (psycopg and the server), whose operations are indexed by the
    moment of the call, so that nothing is assumed about two answers being
    alike; [WorkerConnection] (a connection's local status, and the rows of
    the session's probe), likewise; [PyFloat] (the text of a float);
    [DatasourceLib] (AES-GCM, HKDF, random bytes, the parsing of addresses and
    timestamps, pydantic's policy model), with the laws of the cipher in
    [DatasourceLibLaws]; [AddressLib] (the [ipaddress] module).  The
    reading and writing of YAML, pydantic's conversion of a document and its
    equality, the clock and [psycopg]'s connection strings are arguments, and
    so are the resolver and the verifier of a candidate, indexed by the
    moment.  The coordinator's other threads are a function from a moment and
    a state to a state, of which only [ServiceLaws.quiet] is assumed: they do
    not write the catalog, they publish and withdraw nothing, and they may
    block or close the coordinator.  A channel's socket and its TLS object
    are scripts of answers, one for each call.  A deadline's clock is a
    function from the count of readings to a reading, which may be refused;
    readings are integers where Python's are floats.  The deadline a packet
    carries is the IEEE double of its eight bytes ([spec_float]), and its
    check is done in that arithmetic; how a worker's clock turns a double into
    the integers of the deadlines is an argument.

    ** What the theorems show

    - The whole query: nothing of a column an effective rule covers leaves
      unmasked, by origin ([known_origin_masked]) or, where the positions of
      the text are those of the result, by analysis
      ([gateway_query_protects]; [expression_beside_star] is a query where they
      are not); one audit entry whatever happens
      ([query_audited_once]); the session is read-only, verified and closed
      on failure ([connect_verified]); an error of the driver is answered with
      a fixed message or a category that its SQLSTATE alone decides
      ([run_errors_sanitized]); batching does not change the result
      ([read_masked_batches]); what is read fits the wire
      ([typed_result_wire_ready]).
    - Delivery: what the client is sent is the frame received and validated,
      and nothing else ([delivered_exactly]), the payload holds a credit of
      the ledger while it is anywhere in memory ([payload_pins_credit]), and
      with a channel that answers it arrives ([masked_result_delivered]).
      The channels transfer exactly, within their limits, and end.
    - The worker: a packet is read exactly when it was written by the encoder
      of a valid message ([wire_grammar]); deadlines are finite and within
      their bound ([deadline_after_now]); the outcome of a job carries a frame
      only when every check passed ([run_job_sound]); the loop's dialogue is a
      sequence of queries in order, each with exactly one answer
      ([worker_dialogue]).
    - The datasources at run time: the catalog and the registry agree in every
      state of the coordinator, and the sealed view with them unless a write
      was interrupted before it had exchanged the view
      ([catalog_and_runtime_agree]; [old_view_stays] are such runs); a write that returns has done what it
      says ([writes_answer_truly]), a datasource whose removal or disabling
      returns, or may have been saved, is no longer served
      ([withdrawal_certain]), and the tests of candidates change nothing
      ([tests_draft], [tests_datasource]).  A generation closes once, when
      nobody uses it ([generation_closes_once]); a session keeps the one it
      captured ([captured_generation]); datasources do not disturb each other
      ([datasources_isolated]); the limits hold ([limits_hold]); the shutdown
      ends ([shutdown_completes]).  A verdict of readiness is a promise about
      every run of the ledger ([ready_domain_holds_ledger]), and with the
      profiles the source has reviewed none is given ([no_domain_is_ready]).
    - The configuration: an operation is all or nothing
      ([apply_all_or_nothing]); the file, the published runtime and the
      reference digest agree ([administration_invariant]); of two operations
      on one revision the second is refused, whatever came between them
      ([no_lost_update]); one that
      meets no failure is carried out ([apply_succeeds]).  The routes edit
      one item by its identity ([edits_refine_document]) and never open a
      function ([no_route_opens_functions]); adoption changes no decision
      ([adoption_keeps_decisions]).
    - The queue of operations: it accounts for every ticket
      ([admin_queue_accounts]), a frozen queue starts no job
      ([frozen_never_executes]), draining ends ([drain_terminates]) and its
      answer is true ([drain_complete]).  [dispatch_during_containment] is a
      run in which a ticket is dispatched while a containment is still going
      on, which the comments of the source exclude.
    - The datasource store: a document is read back as it was written, under
      its key and no other ([catalog_roundtrip]); what is accepted is
      authentic, to the byte, and well formed
      ([catalog_accepted_authentic], [catalog_accepted_wellformed]); an
      envelope opens only for its own record and revision
      ([secret_roundtrip]).  A commit that returns has replaced the catalog
      ([commit_succeeds]); one that is interrupted, fails or dies at any call
      has left the old catalog or the new one, whatever a power loss keeps,
      or with the process dying again and again without one, and opening
      the store finds it ([commit_crash_safe]); the same of a
      rotation of the master key, where the recovery finds which key opens
      the store ([rotation_crash_safe]); nothing that the key and the anchor
      do not confirm is ever opened, nor a store put back to an earlier
      revision than the anchor's, save the first when a failing call hides the
      anchor ([open_authentic]).  [recovery_not_durable] and
      [interrupted_commit_is_lost] are runs outside those theorems in which
      the code loses a catalog, and [hidden_anchor_is_rewound] is the
      exception of the last.
    - Decisions: the engine's order of decision, aliases never unmasking,
      exactness cell by cell, determinism of the transformers, soundness of
      the analysis at each position and through subqueries, the validator's
      acceptance, denial over permission, compilation of the policy and
      unambiguity of adopted ids, the resolver as a refinement of the catalog.
    - Lifecycle: no adapter is closed in use or twice, none is lost
      ([registry_lifecycle]), serving goes on through swaps, shutdown closes
      everything.
    - Memory: the ledger's totals are the sums of its slots and within its
      limits in every reachable state ([budget_conserved]), a stale token does
      nothing, a release gives back once, a failed publication stops the
      ledger.
    - The wire: the parser of frames accepts exactly the printer's image
      ([frame_grammar]), the encoder's two passes agree and its frame is what
      the parser reads back ([encode_result_exact],
      [encoded_frame_validates]), no step after the deadline, chunks
      reassemble; the startup message's grammar; the SCRAM exchange accepts
      exactly a proof of the stored key, once, and treats an unknown user as a
      known one.

    ** Bounds and fuel

    [analyze_select] recurses with the source's own bound, [MAX_DEPTH], which
    refuses deeper queries as the code does.  [read_batches] has a fuel of one
    more than the pending rows; each turn takes at least one row, and
    [read_batches_finishes] proves the fuel is never used up.  The writer's
    text blocks and the parser's cells are counted by the bytes they consume.
    [dec_digits] has the number's binary digits, which [dec_fuel_enough] shows
    to be sufficient.  Integers of the wire have their width through [struct];
    Python's own integers are unbounded, as [Z] is.  The channels' loops turn
    at most [patience] times, and end in [Waiting] when the environment kept
    them longer; [transport_terminates] bounds the patience that is enough.
    [clear_loop] has a fuel computed from the source's own bound on the chain
    of errors.  The fuel of [Worker.loop] counts packets: a worker that is
    given more goes on, and [None] says that it was not over.  [AdminWork] has
    no fuel: its runs are a step relation, and [work] decreases with every
    move of a worker.  [DatasourceDrain] has none either; [measure] decreases
    with every step that ends something.

    ** Not modelled

    The inside of sockets, of the TLS library, of pipes and processes; the
    owners, modes and links of files (the disk of the datasource store keeps
    names, contents and what a power loss may undo; a rename is atomic, an
    [fsync] of a directory makes its names last, and one of a file its
    content; a temporary name is new; the lock files are calls that may
    fail; the configuration file's lock and the cleaning of its orphaned
    temporary files are left out); [sys.set_int_max_str_digits]; [MemoryError],
    save where a handler names it (an announced type, a worker's probe of its
    session, a frame), and the clearing of tracebacks.  Locks are modelled by making each critical
    section one operation; where code runs between two critical sections, a
    step relation or a schedule of moments interleaves the others.  The
    coordinator can be interrupted at the calls it makes of its collaborators,
    when the body of a write has returned and when it exchanges the view, and
    not between two other statements of its own.

    Whole parts are left out, as their logic is that of a system they wrap:
    the HTTP routes, middleware and user interface of the administration (a
    web framework), the listener, its TLS context and channel binding, the
    resolution of names in a child process, the verification of a candidate in
    another, the guard of a worker (system calls), the MCP server and the
    start of the processes.  The parent's end of a worker
    (runtime/worker_session.py), the snapshots a generation carries for its
    workers (runtime/snapshot.py), the decision on a bounded DNS answer
    (pgwire/bind_resolution.py) and the administrative audit entries would be
    the next parts to model. *)

From stdpp Require Export base option list sorting gmap strings.
From Stdlib Require Export ZArith Lia.
From Stdlib Require Import Ascii.

#[export] Set Default Goal Selector "!".

(** ** Results: the Python code's [return] and [raise] *)

(** [Ok a] is a normal return, [Err e] an exception [e] that leaves the
    function.  The [MRet]/[MBind] instances give stdpp's [x ← m; k]. *)
Inductive res (E A : Type) : Type :=
| Ok (a : A)
| Err (e : E).
Arguments Ok {E A} a.
Arguments Err {E A} e.

#[export] Instance res_ret {E} : MRet (res E) := fun A a => Ok a.
#[export] Instance res_bind {E} : MBind (res E) := fun A B f m =>
  match m with Ok a => f a | Err e => Err e end.
#[export] Instance res_fmap {E} : FMap (res E) := fun A B f m =>
  match m with Ok a => Ok (f a) | Err e => Err e end.

#[export] Instance res_eq_dec {E A} `{EqDecision E, EqDecision A} : EqDecision (res E A).
Proof. solve_decision. Defined.

(** [raise e] when the test holds, as in [if test: raise e]. *)
Definition refuse_if {E} (test : bool) (e : E) : res E unit :=
  if test then Err e else Ok tt.

Definition is_ok {E A} (m : res E A) : bool :=
  match m with Ok _ => true | Err _ => false end.

(** A Python list comprehension whose body may raise: the first error, in
    list order, leaves the comprehension. *)
Fixpoint mapM_res {E A B} (f : A -> res E B) (l : list A) : res E (list B) :=
  match l with
  | [] => Ok []
  | x :: l => y ← f x; ys ← mapM_res f l; Ok (y :: ys)
  end.

Lemma bind_Ok {E A B} (m : res E A) (f : A -> res E B) b :
  (m ≫= f) = Ok b <-> exists a, m = Ok a /\ f a = Ok b.
Proof.
  destruct m as [a|e]; simpl; split.
  - intros H; exists a; auto.
  - intros (a' & [= <-] & H); auto.
  - discriminate.
  - intros (a' & H & _); discriminate.
Qed.

Section res_lemmas.
Context {E A B : Type}.
Implicit Types (f g : A -> res E B) (l : list A) (k : list B).

Lemma refuse_if_Ok (b : bool) (e : E) u : refuse_if b e = Ok u <-> b = false.
Proof. destruct u, b; simpl; split; congruence. Qed.

Lemma mapM_res_length f l k : mapM_res f l = Ok k -> length k = length l.
Proof.
  revert k; induction l as [|x l IH]; intros k; simpl.
  - intros [= <-]; reflexivity.
  - destruct (f x); simpl; [|discriminate].
    destruct (mapM_res f l) eqn:Hl; simpl; [|discriminate].
    intros [= <-]; simpl; f_equal; apply IH; reflexivity.
Qed.

Lemma mapM_res_Forall2 f l k :
  mapM_res f l = Ok k <-> Forall2 (fun x y => f x = Ok y) l k.
Proof.
  revert k; induction l as [|x l IH]; intros k; simpl.
  - split; [intros [= <-]; constructor | inversion 1; reflexivity].
  - split.
    + rewrite bind_Ok; intros (y & Hy & H).
      destruct (mapM_res f l) as [ys|] eqn:Hl; simpl in H; [|discriminate].
      injection H as <-; constructor; [exact Hy|]; apply IH; reflexivity.
    + inversion 1 as [|? y ? ys Hy Hys]; subst.
      apply IH in Hys; rewrite Hy, Hys; reflexivity.
Qed.

Lemma mapM_res_ext (f g : A -> res E B) l :
  (forall x, x ∈ l -> f x = g x) -> mapM_res f l = mapM_res g l.
Proof.
  induction l as [|x l IH]; intros H; simpl; [reflexivity|].
  rewrite (H x) by set_solver; destruct (g x); simpl; [|reflexivity].
  rewrite IH by set_solver; reflexivity.
Qed.
End res_lemmas.

(** Take an [Ok] computation apart into the values of its steps. *)
Ltac inv_ok :=
  repeat match goal with
  | H : Ok _ = Ok _ |- _ => injection H as H; try subst
  | H : Err _ = Err _ |- _ => injection H as H; try subst
  | H : Ok _ = Err _ |- _ => discriminate H
  | H : Err _ = Ok _ |- _ => discriminate H
  | H : (_ ≫= _) = Ok _ |- _ =>
      apply bind_Ok in H; let x := fresh "x" in destruct H as (x & ? & H)
  | H : refuse_if _ _ = Ok _ |- _ => apply refuse_if_Ok in H
  end.

(** Split on the discriminee of the first [match] or [if] of the goal. *)
Ltac case_goal :=
  match goal with
  | |- context [match ?x with _ => _ end] =>
      lazymatch x with
      | context [match _ with _ => _ end] => fail
      | _ => destruct x eqn:?
      end
  end.

(** ** Python text *)

(** A [str] is its sequence of code points. *)
Abbreviation pystr := (list Z).

(** The [str] of an ASCII literal of the source. *)
Definition py (s : string) : pystr :=
  map (fun a => Z.of_N (N_of_ascii a)) (String.list_ascii_of_string s).

(** [s.startswith(p)]. *)
Fixpoint startswith (p s : pystr) : bool :=
  match p, s with
  | [], _ => true
  | _ :: _, [] => false
  | a :: p, b :: s => (a =? b)%Z && startswith p s
  end.

(** [needle in haystack]. *)
Fixpoint contains (needle haystack : pystr) : bool :=
  startswith needle haystack ||
  match haystack with
  | [] => false
  | _ :: rest => contains needle rest
  end.

Lemma startswith_spec p s : startswith p s = true <-> exists t, s = p ++ t.
Proof.
  revert s; induction p as [|a p IH]; intros s; simpl.
  - split; [intros _; exists s|]; auto.
  - destruct s as [|b s]; [split; [discriminate | intros [t [=]]]|].
    rewrite andb_true_iff, Z.eqb_eq, IH; split.
    + intros (-> & t & ->); exists t; reflexivity.
    + intros [t [= -> ->]]; split; [|exists t]; reflexivity.
Qed.

Lemma contains_spec n h : contains n h = true <-> exists u t, h = u ++ n ++ t.
Proof.
  induction h as [|c h IH]; simpl; rewrite orb_true_iff, startswith_spec.
  - split.
    + intros [[t H]|[=]]. exists [], t. exact H.
    + intros (u & t & H); left; exists t.
      symmetry in H; apply app_nil in H as [_ H]; congruence.
  - rewrite IH; split.
    + intros [[t H]|(u & t & ->)]; [exists [], t; exact H|].
      exists (c :: u), t; reflexivity.
    + intros ([|c' u] & t & H); [left; exists t; exact H|].
      injection H as -> ->; right; exists u, t; reflexivity.
Qed.

(** Membership of a name in a [frozenset] or tuple of names. *)
Definition name_in (x : pystr) (l : list pystr) : bool := bool_decide (x ∈ l).

(** [str] comparison is lexicographic on code points. *)
Fixpoint pystr_leb (a b : pystr) : bool :=
  match a, b with
  | [], _ => true
  | _ :: _, [] => false
  | x :: a, y :: b => (x <? y)%Z || ((x =? y)%Z && pystr_leb a b)
  end.

Definition pystr_le (a b : pystr) : Prop := pystr_leb a b = true.

#[export] Instance pystr_le_dec : RelDecision pystr_le.
Proof. intros a b; unfold pystr_le; apply _. Defined.

#[export] Instance pystr_le_total : Total pystr_le.
Proof.
  intros a; unfold pystr_le; induction a as [|x a IH]; intros [|y b]; simpl; auto.
  destruct (Z.lt_total x y) as [H|[->|H]].
  - left; apply Z.ltb_lt in H; rewrite H; reflexivity.
  - rewrite Z.ltb_irrefl, Z.eqb_refl; simpl; apply IH.
  - right; apply Z.ltb_lt in H; rewrite H; reflexivity.
Qed.

#[export] Instance pystr_le_trans : Transitive pystr_le.
Proof.
  intros a; unfold pystr_le; induction a as [|x a IH]; intros [|y b] [|z c]; simpl; auto;
    try discriminate.
  rewrite !orb_true_iff, !andb_true_iff, !Z.ltb_lt, !Z.eqb_eq.
  intros [H1|[-> H1]] [H2|[-> H2]]; [left; lia|auto|auto|].
  right; split; [reflexivity | eapply IH; eassumption].
Qed.

Lemma pystr_le_antisym a b : pystr_le a b -> pystr_le b a -> a = b.
Proof.
  unfold pystr_le; revert b; induction a as [|x a IH]; intros [|y b]; simpl; auto;
    try discriminate.
  rewrite !orb_true_iff, !andb_true_iff, !Z.ltb_lt, !Z.eqb_eq.
  intros [H1|[-> H1]] [H2|[H2 H3]]; [lia|lia|lia|].
  f_equal; apply IH; assumption.
Qed.

(** [sorted(names)]. *)
Definition py_sorted (l : list pystr) : list pystr := merge_sort pystr_le l.

(** [str(n)] of a non-negative integer, most significant digit first.  The
    fuel is the number of binary digits, never fewer than the decimal ones. *)
Fixpoint dec_digits (fuel : nat) (n : Z) : pystr :=
  match fuel with
  | O => []
  | S fuel =>
      if (n <? 10)%Z then [(48 + n)%Z]
      else dec_digits fuel (n / 10)%Z ++ [(48 + n mod 10)%Z]
  end.

Definition dec_fuel (n : Z) : nat := S (Z.to_nat (Z.log2 n)).

(** [str(n)]. *)
Definition str_int (n : Z) : pystr :=
  if (n <? 0)%Z then 45%Z :: dec_digits (dec_fuel (- n)) (- n)
  else dec_digits (dec_fuel n) n.

(** ** Stateful code that may raise

    A method of an object: it takes the object's state and leaves a state
    behind, also when it raises. *)
Definition st (S E A : Type) : Type := S -> res E A * S.

#[export] Instance st_ret {S E} : MRet (st S E) := fun A a s => (Ok a, s).
#[export] Instance st_bind {S E} : MBind (st S E) := fun A B f m s =>
  match m s with
  | (Ok a, s) => f a s
  | (Err e, s) => (Err e, s)
  end.

Definition get_st {S E} : st S E S := fun s => (Ok s, s).
Definition put_st {S E} (s : S) : st S E unit := fun _ => (Ok tt, s).
Definition raise_st {S E A} (e : E) : st S E A := fun s => (Err e, s).
Definition lift_res {S E A} (m : res E A) : st S E A := fun s => (m, s).
Definition guard_st {S E} (refused : bool) (e : E) : st S E unit :=
  if refused then raise_st e else mret tt.

(** A loop over a list that collects its results, and one that does not. *)
Fixpoint mapM_st {S E A B} (f : A -> st S E B) (l : list A) : st S E (list B) :=
  match l with
  | [] => mret []
  | x :: l => y ← f x; ys ← mapM_st f l; mret (y :: ys)
  end.

Fixpoint iterM_st {S E A} (f : A -> st S E unit) (l : list A) : st S E unit :=
  match l with
  | [] => mret tt
  | x :: l => f x;; iterM_st f l
  end.

Lemma st_bind_Ok {S E A B} (m : st S E A) (f : A -> st S E B) s b s' :
  (m ≫= f) s = (Ok b, s') <-> exists a s1, m s = (Ok a, s1) /\ f a s1 = (Ok b, s').
Proof.
  unfold mbind, st_bind. destruct (m s) as [[a|e] s1] eqn:Hm; split.
  - intros H; exists a, s1; auto.
  - intros (a' & s2 & [= <- <-] & H); exact H.
  - intros [=].
  - intros (a' & s2 & [=] & _).
Qed.

Lemma st_bind_run {S E A B} (m : st S E A) (f : A -> st S E B) s a s1 :
  m s = (Ok a, s1) -> (m ≫= f) s = f a s1.
Proof. intros H. unfold mbind, st_bind. rewrite H. reflexivity. Qed.

Lemma st_bind_assoc {S E A B C} (m : st S E A) (f : A -> st S E B) (g : B -> st S E C) s :
  ((m ≫= f) ≫= g) s = (m ≫= (fun a => f a ≫= g)) s.
Proof. unfold mbind, st_bind. destruct (m s) as [[a|e] s1]; reflexivity. Qed.

Lemma mapM_st_length {S E A B} (f : A -> st S E B) l s k s' :
  mapM_st f l s = (Ok k, s') -> length k = length l.
Proof.
  revert s k s'; induction l as [|x l IH]; intros s k s'; cbn [mapM_st].
  - intros [= <- _]; reflexivity.
  - rewrite st_bind_Ok; intros (y & s1 & _ & H).
    apply st_bind_Ok in H as (ys & s2 & Hys & [= <- <-]).
    simpl; f_equal; eapply IH; eassumption.
Qed.

Lemma st_bind_ext {S E A B} (m m' : st S E A) (f g : A -> st S E B) s :
  m s = m' s -> (forall a s', f a s' = g a s') -> (m ≫= f) s = (m' ≫= g) s.
Proof. intros Hm Hf. unfold mbind, st_bind. rewrite Hm. destruct (m' s) as [[a|e] s1]; auto. Qed.

Lemma mapM_st_ext {S E A B} (f g : A -> st S E B) l s :
  (forall x s', f x s' = g x s') -> mapM_st f l s = mapM_st g l s.
Proof.
  intros H. revert s; induction l as [|x l IH]; intros s; cbn [mapM_st]; [reflexivity|].
  apply st_bind_ext; [apply H|]. intros y s'. apply st_bind_ext; [apply IH|]. reflexivity.
Qed.

Lemma mapM_st_map {S E A B C} (f : B -> st S E C) (h : A -> B) l s :
  mapM_st f (map h l) s = mapM_st (fun x => f (h x)) l s.
Proof.
  revert s; induction l as [|x l IH]; intros s; cbn [mapM_st map]; [reflexivity|].
  apply st_bind_ext; [reflexivity|]. intros y s'. apply st_bind_ext; [apply IH|]. reflexivity.
Qed.

Lemma mapM_st_app {S E A B} (f : A -> st S E B) l k s :
  mapM_st f (l ++ k) s = (x ← mapM_st f l; y ← mapM_st f k; mret (x ++ y)) s.
Proof.
  revert s; induction l as [|a l IH]; intros s; cbn [mapM_st app].
  - unfold mbind, st_bind, mret, st_ret. destruct (mapM_st f k s) as [[y|e] s1]; reflexivity.
  - unfold mbind, st_bind, mret, st_ret in *. destruct (f a s) as [[b|e] s1]; [|reflexivity].
    rewrite IH. destruct (mapM_st f l s1) as [[x|e] s2]; [|reflexivity].
    destruct (mapM_st f k s2) as [[y|e] s3]; reflexivity.
Qed.

(** Each result of a successful loop comes from a successful call. *)
Lemma mapM_st_lookup {S E A B} (f : A -> st S E B) l s k s' i x :
  mapM_st f l s = (Ok k, s') -> l !! i = Some x ->
  exists y s1 s2, k !! i = Some y /\ f x s1 = (Ok y, s2).
Proof.
  revert s k s' i; induction l as [|z l IH]; intros s k s' i H Hi; [discriminate|].
  cbn [mapM_st] in H. apply st_bind_Ok in H as (y & s1 & Hy & H).
  apply st_bind_Ok in H as (ys & s2 & Hys & [= <- <-]).
  destruct i as [|i]; simpl in Hi.
  - injection Hi as <-. exists y, s, s1. auto.
  - destruct (IH _ _ _ _ Hys Hi) as (y' & s3 & s4 & ? & ?). exists y', s3, s4. auto.
Qed.

Lemma guard_st_Ok {S E} (b : bool) (e : E) (s : S) u s' :
  guard_st b e s = (Ok u, s') <-> b = false /\ s' = s.
Proof. destruct u, b; unfold guard_st; cbn; split; [discriminate|intros []; discriminate| |];
  [intros [= <-]; auto | intros [_ ->]; reflexivity]. Qed.

(** [list.remove]: the first occurrence. *)
Fixpoint remove_first (x : nat) (l : list nat) : list nat :=
  match l with
  | [] => []
  | y :: l => if Nat.eqb y x then l else y :: remove_first x l
  end.

Lemma elem_of_remove_first x y l : NoDup l -> y ∈ remove_first x l <-> y ∈ l /\ y <> x.
Proof.
  induction l as [|z l IH]; intros Hnd; [set_solver|]. cbn [remove_first].
  apply NoDup_cons in Hnd as [Hn Hnd]. destruct (Nat.eqb_spec z x) as [->|N].
  - rewrite elem_of_cons. split; [intros H; split; [auto|congruence]|]. intros [[->|H] Hy]; congruence.
  - rewrite !elem_of_cons, (IH Hnd). split; [intros [->|[H1 H2]]; auto|]. intros [[->|H] Hy]; auto.
Qed.

Lemma NoDup_remove_first x l : NoDup l -> NoDup (remove_first x l).
Proof.
  induction l as [|z l IH]; intros Hnd; [constructor|]. cbn [remove_first].
  apply NoDup_cons in Hnd as [Hn Hnd]. destruct (Nat.eqb_spec z x); [assumption|].
  apply NoDup_cons. split; [|auto]. rewrite elem_of_remove_first by assumption. tauto.
Qed.

Lemma length_remove_first x l : length (remove_first x l) <= length l.
Proof. induction l as [|z l IH]; cbn; [lia|]. destruct (Nat.eqb z x); cbn; lia. Qed.

Lemma zip_map_l {A B C} (h : A -> C) (l : list A) (k : list B) :
  zip (map h l) k = map (fun ab => (h ab.1, ab.2)) (zip l k).
Proof. revert k; induction l as [|x l IH]; intros [|y k]; simpl; [..|rewrite IH]; reflexivity. Qed.

Lemma zip_lookup {A B} (l : list A) (k : list B) i a b :
  l !! i = Some a -> k !! i = Some b -> zip l k !! i = Some (a, b).
Proof. intros Ha Hb. rewrite lookup_zip_with, Ha; simpl. rewrite Hb; reflexivity. Qed.

(** Run the primitive steps of a stateful computation. *)
Ltac run_st :=
  unfold mbind, st_bind, mret, st_ret, get_st, put_st, raise_st, lift_res, guard_st;
  cbn beta iota.

(** ** Reasoning about stateful code

    [wp E m Q s]: run from [s], [m] returns a value and a state that satisfy
    [Q], or raises and leaves a state that satisfies [E]. *)
Definition wp {S X A} (E : S -> Prop) (m : st S X A) (Q : A -> S -> Prop) (s : S) : Prop :=
  match m s with
  | (Ok a, s') => Q a s'
  | (Err _, s') => E s'
  end.

Section wp.
Context {S X : Type} (E : S -> Prop).

Lemma wp_ret {A} (a : A) (Q : A -> S -> Prop) s : Q a s -> wp E (mret a : st S X A) Q s.
Proof. exact id. Qed.

Lemma wp_bind {A B} (m : st S X A) (f : A -> st S X B) Q s :
  wp E m (fun a => wp E (f a) Q) s -> wp E (m ≫= f) Q s.
Proof. unfold wp, mbind, st_bind. destruct (m s) as [[a|e] s1]; auto. Qed.

Lemma wp_mono {A} (m : st S X A) (P Q : A -> S -> Prop) s :
  (forall a s', P a s' -> Q a s') -> wp E m P s -> wp E m Q s.
Proof. unfold wp. intros H. destruct (m s) as [[a|e] s1]; auto. Qed.

Lemma wp_get (Q : S -> S -> Prop) s : Q s s -> wp E (get_st : st S X S) Q s.
Proof. exact id. Qed.

Lemma wp_guard (b : bool) (e : X) (Q : unit -> S -> Prop) s :
  E s -> (b = false -> Q tt s) -> wp E (guard_st b e) Q s.
Proof. unfold wp, guard_st. destruct b; cbn; auto. Qed.

Lemma wp_lift {A} (m : res X A) (Q : A -> S -> Prop) s :
  E s -> (forall a, m = Ok a -> Q a s) -> wp E (lift_res m) Q s.
Proof. unfold wp, lift_res. destruct m; auto. Qed.

Lemma wp_raise {A} (e : X) (Q : A -> S -> Prop) s : E s -> wp E (raise_st e : st S X A) Q s.
Proof. exact id. Qed.

(** A computation that exits or returns in [E] leaves [E]. *)
Lemma wp_exit {A} (m : st S X A) s : wp E m (fun _ => E) s -> E (m s).2.
Proof. unfold wp. destruct (m s) as [[a|e] s1]; auto. Qed.
End wp.

(** The same with the error in the exit condition: [wpe E m Q s] also says
    which error leaves, and when. *)
Definition wpe {S X A} (E : X -> Prop) (m : st S X A) (Q : A -> S -> Prop) (s : S) : Prop :=
  match m s with
  | (Ok a, s') => Q a s'
  | (Err e, _) => E e
  end.

Section wpe.
Context {S X : Type} (E : X -> Prop).

Lemma wpe_ret {A} (a : A) (Q : A -> S -> Prop) s : Q a s -> wpe E (mret a : st S X A) Q s.
Proof. exact id. Qed.

Lemma wpe_bind {A B} (m : st S X A) (f : A -> st S X B) Q s :
  wpe E m (fun a => wpe E (f a) Q) s -> wpe E (m ≫= f) Q s.
Proof. unfold wpe, mbind, st_bind. destruct (m s) as [[a|e] s1]; auto. Qed.

Lemma wpe_mono {A} (E' : X -> Prop) (m : st S X A) (P Q : A -> S -> Prop) s :
  (forall e, E' e -> E e) -> (forall a s', P a s' -> Q a s') -> wpe E' m P s -> wpe E m Q s.
Proof. unfold wpe. intros He H. destruct (m s) as [[a|e] s1]; auto. Qed.

Lemma wpe_get (Q : S -> S -> Prop) s : Q s s -> wpe E (get_st : st S X S) Q s.
Proof. exact id. Qed.

Lemma wpe_guard (b : bool) (e : X) (Q : unit -> S -> Prop) s :
  (b = true -> E e) -> (b = false -> Q tt s) -> wpe E (guard_st b e) Q s.
Proof. unfold wpe, guard_st. destruct b; cbn; auto. Qed.

Lemma wpe_raise {A} (e : X) (Q : A -> S -> Prop) s : E e -> wpe E (raise_st e : st S X A) Q s.
Proof. exact id. Qed.
End wpe.

(** The same with one postcondition for both endings: [runs m Q s] says that
    whatever [m] ends with from [s], a value or an error, satisfies [Q] with
    the state it leaves. *)
Definition runs {S X A} (m : st S X A) (Q : res X A -> S -> Prop) (s : S) : Prop :=
  Q (m s).1 (m s).2.

Section runs.
Context {S X : Type}.

Lemma runs_ret {A} (a : A) (Q : res X A -> S -> Prop) s : Q (Ok a) s -> runs (mret a) Q s.
Proof. exact id. Qed.

Lemma runs_raise {A} (e : X) (Q : res X A -> S -> Prop) s : Q (Err e) s -> runs (raise_st e) Q s.
Proof. exact id. Qed.

Lemma runs_get (Q : res X S -> S -> Prop) s : Q (Ok s) s -> runs get_st Q s.
Proof. exact id. Qed.

Lemma runs_bind {A B} (m : st S X A) (f : A -> st S X B) (Q : res X B -> S -> Prop) s :
  runs m (fun r s1 => match r with Ok a => runs (f a) Q s1 | Err e => Q (Err e) s1 end) s ->
  runs (m ≫= f) Q s.
Proof. unfold runs, mbind, st_bind. destruct (m s) as [[a|e] s1]; auto. Qed.

Lemma runs_guard (b : bool) (e : X) (Q : res X unit -> S -> Prop) s :
  (b = true -> Q (Err e) s) -> (b = false -> Q (Ok tt) s) -> runs (guard_st b e) Q s.
Proof. unfold runs, guard_st. destruct b; cbn; auto. Qed.

Lemma runs_mono {A} (m : st S X A) (P Q : res X A -> S -> Prop) s :
  runs m P s -> (forall r s1, P r s1 -> Q r s1) -> runs m Q s.
Proof. unfold runs. auto. Qed.

Lemma runs_eq {A} (m : st S X A) (Q : res X A -> S -> Prop) s r s1 :
  runs m Q s -> m s = (r, s1) -> Q r s1.
Proof. unfold runs. intros H E. rewrite E in H. exact H. Qed.
End runs.
