(* ===== verification/Bytes.v ===== *)
(** * Bytes: Python [bytes], the [struct] formats and base64

    The standard-library byte operations the source uses: big-endian
    [struct.pack]/[unpack] at the widths of the wire formats, slices, search
    and [base64.b64encode]/[b64decode(validate=True)].  Every component that
    builds or reads a wire message requires this file. *)

From S2P Require Import Prelude.
From Stdlib.Strings Require Byte.

Local Open Scope Z_scope.

(** ** A byte and its value *)

Abbreviation byte := Byte.byte.

Definition b2z (b : byte) : Z := Z.of_N (Byte.to_N b).

(** The byte of the low 8 bits. *)
Definition z2b (z : Z) : byte :=
  match Byte.of_N (Z.to_N (z mod 256)) with Some b => b | None => Byte.x00 end.

#[export] Instance byte_eq_dec : EqDecision byte := Byte.byte_eq_dec.

Lemma b2z_range b : 0 <= b2z b < 256.
Proof. unfold b2z. pose proof (Byte.to_N_bounded b). lia. Qed.

Lemma z2b_b2z b : z2b (b2z b) = b.
Proof.
  unfold z2b. rewrite Z.mod_small by apply b2z_range.
  unfold b2z. rewrite N2Z.id, Byte.of_to_N. reflexivity.
Qed.

Lemma b2z_z2b z : b2z (z2b z) = z mod 256.
Proof.
  unfold z2b, b2z. pose proof (Z.mod_pos_bound z 256 ltac:(lia)).
  destruct (Byte.of_N _) as [b|] eqn:Hb.
  - apply Byte.to_of_N in Hb. rewrite Hb. lia.
  - apply Byte.of_N_None_iff in Hb. lia.
Qed.

Lemma b2z_z2b_small z : 0 <= z < 256 -> b2z (z2b z) = z.
Proof. intros. rewrite b2z_z2b. apply Z.mod_small. lia. Qed.

Lemma b2z_inj a b : b2z a = b2z b -> a = b.
Proof. intros H. rewrite <- (z2b_b2z a), H. apply z2b_b2z. Qed.

(** The bytes of an ASCII literal, [b"..."]. *)
Definition ascii_lit (s : string) : list byte := map z2b (py s).

(** [text.encode("ascii")] of a text already known to be ASCII. *)
Definition ascii_encode (s : pystr) : list byte := map z2b s.

Definition is_ascii (s : pystr) : bool := forallb (fun c => (0 <=? c) && (c <? 128)) s.

Definition bytes_is_ascii (bs : list byte) : bool := forallb (fun b => b2z b <? 128) bs.

Lemma ascii_encode_app s t : ascii_encode (s ++ t) = ascii_encode s ++ ascii_encode t.
Proof. apply map_app. Qed.

(** ** Big-endian integers, [struct] formats [!B !H !I !Q] and [!h !i] *)

Fixpoint pack_be (width : nat) (z : Z) : list byte :=
  match width with
  | O => []
  | S w => pack_be w (z / 256) ++ [z2b z]
  end.

Fixpoint unpack_be_acc (acc : Z) (bs : list byte) : Z :=
  match bs with
  | [] => acc
  | b :: bs => unpack_be_acc (acc * 256 + b2z b) bs
  end.

Definition unpack_be (bs : list byte) : Z := unpack_be_acc 0 bs.

(** A signed field: two's complement at [8 * width] bits. *)
Definition sign_of (width : nat) (u : Z) : Z :=
  if u <? 2 ^ (8 * Z.of_nat width - 1) then u else u - 2 ^ (8 * Z.of_nat width).

Definition unpack_be_signed (width : nat) (bs : list byte) : Z :=
  sign_of width (unpack_be bs).

Lemma length_pack_be w z : length (pack_be w z) = w.
Proof. revert z; induction w; intros z; simpl; [reflexivity|]. rewrite length_app, IHw. simpl. lia. Qed.

Lemma unpack_be_acc_app acc a b :
  unpack_be_acc acc (a ++ b) = unpack_be_acc (unpack_be_acc acc a) b.
Proof. revert acc; induction a as [|x a IH]; intros acc; simpl; auto. Qed.

Lemma unpack_be_snoc bs b : unpack_be (bs ++ [b]) = unpack_be bs * 256 + b2z b.
Proof. unfold unpack_be. rewrite unpack_be_acc_app. reflexivity. Qed.

Lemma unpack_be_range bs : 0 <= unpack_be bs < 256 ^ Z.of_nat (length bs).
Proof.
  induction bs as [|b bs IH] using rev_ind; [unfold unpack_be; simpl; lia|].
  rewrite unpack_be_snoc, length_app, Nat2Z.inj_add, Z.pow_add_r by lia.
  change (256 ^ Z.of_nat (length [b])) with 256.
  pose proof (b2z_range b). nia.
Qed.

Lemma unpack_pack_be w z : unpack_be (pack_be w z) = z mod 256 ^ Z.of_nat w.
Proof.
  revert z; induction w as [|w IH]; intros z.
  - change (unpack_be (pack_be 0 z)) with 0. rewrite Z.mod_1_r. reflexivity.
  - cbn [pack_be]. rewrite unpack_be_snoc, IH, b2z_z2b.
    rewrite Nat2Z.inj_succ, Z.pow_succ_r by lia.
    rewrite (Z.rem_mul_r z 256 (256 ^ Z.of_nat w)) by lia. lia.
Qed.

Lemma unpack_pack_be_small w z : 0 <= z < 256 ^ Z.of_nat w -> unpack_be (pack_be w z) = z.
Proof. intros. rewrite unpack_pack_be. apply Z.mod_small. lia. Qed.

Lemma pack_unpack_be bs : pack_be (length bs) (unpack_be bs) = bs.
Proof.
  induction bs as [|b bs IH] using rev_ind; [reflexivity|].
  rewrite length_app, Nat.add_comm. cbn [length Nat.add pack_be].
  pose proof (b2z_range b).
  rewrite unpack_be_snoc, Z.div_add_l, (Z.div_small (b2z b)), Z.add_0_r, IH by lia.
  f_equal. f_equal. apply b2z_inj. rewrite b2z_z2b, Z.add_comm, Z.mod_add by lia.
  apply Z.mod_small. lia.
Qed.

Lemma sign_of_mod w z :
  - 2 ^ (8 * Z.of_nat (S w) - 1) <= z < 2 ^ (8 * Z.of_nat (S w) - 1) ->
  sign_of (S w) (z mod 256 ^ Z.of_nat (S w)) = z.
Proof.
  set (n := 8 * Z.of_nat (S w)). intros Hz.
  assert (Hp : 256 ^ Z.of_nat (S w) = 2 ^ n).
  { change 256 with (2 ^ 8). rewrite <- Z.pow_mul_r by lia. reflexivity. }
  assert (Hd : 2 ^ n = 2 * 2 ^ (n - 1)).
  { rewrite <- Z.pow_succ_r by lia. f_equal. lia. }
  unfold sign_of. fold n. rewrite Hp.
  destruct (Z.ltb_spec z 0).
  - rewrite <- (Z.mod_add z 1), Z.mod_small by lia.
    destruct (Z.ltb_spec (z + 1 * 2 ^ n) (2 ^ (n - 1))); lia.
  - rewrite Z.mod_small by lia.
    destruct (Z.ltb_spec z (2 ^ (n - 1))); lia.
Qed.

Lemma unpack_pack_be_signed w z :
  - 2 ^ (8 * Z.of_nat (S w) - 1) <= z < 2 ^ (8 * Z.of_nat (S w) - 1) ->
  unpack_be_signed (S w) (pack_be (S w) z) = z.
Proof. intros. unfold unpack_be_signed. rewrite unpack_pack_be. apply sign_of_mod. lia. Qed.

(** ** Slices and search *)

(** [raw[start:stop]] for [0 <= start]. *)
Definition slice (start stop : Z) (bs : list byte) : list byte :=
  take (Z.to_nat (stop - start)) (drop (Z.to_nat start) bs).

(** [raw[i]] for an index in range. *)
Definition byte_at (bs : list byte) (i : Z) : Z :=
  match bs !! Z.to_nat i with Some b => b2z b | None => -1 end.

Definition blen (bs : list byte) : Z := Z.of_nat (length bs).

(** [raw.find(b"\0", start, stop)], [None] for Python's [-1]. *)
Fixpoint find_zero (at_ : Z) (bs : list byte) : option Z :=
  match bs with
  | [] => None
  | b :: bs => if b2z b =? 0 then Some at_ else find_zero (at_ + 1) bs
  end.

Definition find_zero_in (bs : list byte) (start stop : Z) : option Z :=
  find_zero start (slice start stop bs).

Lemma slice_app pre piece post start stop :
  start = blen pre -> stop = blen pre + blen piece ->
  slice start stop (pre ++ piece ++ post) = piece.
Proof.
  unfold slice, blen. intros -> ->.
  replace (Z.to_nat (Z.of_nat (length pre))) with (length pre) by lia.
  replace (Z.to_nat (Z.of_nat (length pre) + Z.of_nat (length piece) - Z.of_nat (length pre)))
    with (length piece) by lia.
  rewrite drop_app_length, take_app_length. reflexivity.
Qed.

Lemma byte_at_app pre b post i : i = blen pre -> byte_at (pre ++ b :: post) i = b2z b.
Proof.
  unfold byte_at, blen. intros ->.
  replace (Z.to_nat (Z.of_nat (length pre))) with (length pre) by lia.
  rewrite list_lookup_middle by reflexivity. reflexivity.
Qed.

Lemma find_zero_none i bs : (forall b, b ∈ bs -> b2z b <> 0) -> find_zero i bs = None.
Proof.
  revert i; induction bs as [|b bs IH]; intros i H; simpl; [reflexivity|].
  destruct (Z.eqb_spec (b2z b) 0) as [E|_]; [|apply IH; set_solver].
  exfalso; apply (H b); [set_solver | exact E].
Qed.

Lemma find_zero_app i bs b rest :
  (forall x, x ∈ bs -> b2z x <> 0) -> b2z b = 0 ->
  find_zero i (bs ++ b :: rest) = Some (i + blen bs).
Proof.
  unfold blen. revert i; induction bs as [|x bs IH]; intros i H Hb; cbn [app find_zero].
  - rewrite Hb; simpl; f_equal; lia.
  - destruct (Z.eqb_spec (b2z x) 0) as [E|_].
    + exfalso; apply (H x); [set_solver | exact E].
    + rewrite IH by set_solver. f_equal. simpl length. lia.
Qed.

Lemma blen_app a b : blen (a ++ b) = blen a + blen b.
Proof. unfold blen. rewrite length_app. lia. Qed.

Lemma blen_nonneg a : 0 <= blen a.
Proof. unfold blen. lia. Qed.

Lemma blen_pack_be w z : blen (pack_be w z) = Z.of_nat w.
Proof. unfold blen. rewrite length_pack_be. reflexivity. Qed.

Create Rewrite HintDb bytes.
#[export] Hint Rewrite blen_app blen_pack_be length_pack_be : bytes.

(** [buffer[o : o + len(bs)] = bs], and [pack_into] at [o]. *)
Definition write_at (o : Z) (bs : list byte) (buf : list byte) : list byte :=
  take (Z.to_nat o) buf ++ bs ++ drop (Z.to_nat o + length bs) buf.

Lemma write_at_app pre old post bs :
  length old = length bs -> write_at (blen pre) bs (pre ++ old ++ post) = pre ++ bs ++ post.
Proof.
  intros L. unfold write_at, blen. rewrite Nat2Z.id, take_app_length. f_equal. f_equal.
  rewrite <- L, app_assoc, <- length_app. apply drop_app_length.
Qed.


(** ** Positions in a byte string *)

Lemma blen_slice bs start stop :
  0 <= start <= stop -> stop <= blen bs -> blen (slice start stop bs) = stop - start.
Proof. unfold blen, slice. intros. rewrite length_take, length_drop. lia. Qed.

Lemma slice_split a b c bs :
  0 <= a <= b -> b <= c -> slice a c bs = slice a b bs ++ slice b c bs.
Proof.
  unfold slice. intros.
  replace (Z.to_nat b) with (Z.to_nat a + Z.to_nat (b - a))%nat by lia.
  rewrite <- drop_drop. set (l := drop (Z.to_nat a) bs).
  replace (Z.to_nat (c - a)) with (Z.to_nat (b - a) + Z.to_nat (c - b))%nat by lia.
  rewrite <- (take_drop (Z.to_nat (b - a)) (take _ l)), take_take, skipn_firstn_comm.
  f_equal; f_equal; lia.
Qed.

Lemma slice_empty a bs : slice a a bs = [].
Proof. unfold slice. rewrite Z.sub_diag. reflexivity. Qed.

Lemma slice_all bs : slice 0 (blen bs) bs = bs.
Proof. unfold slice, blen. rewrite Z.sub_0_r, Nat2Z.id, drop_0. apply take_ge. lia. Qed.

Lemma byte_at_slice bs i : 0 <= i < blen bs -> slice i (i + 1) bs = [z2b (byte_at bs i)].
Proof.
  unfold slice, byte_at, blen. intros Hi.
  destruct (lookup_lt_is_Some_2 bs (Z.to_nat i)) as [b Hb]; [lia|]. rewrite Hb, z2b_b2z.
  replace (Z.to_nat (i + 1 - i)) with 1%nat by lia.
  rewrite (drop_S _ _ _ Hb). reflexivity.
Qed.

Lemma pack_be_period w z k : pack_be w (z + k * 256 ^ Z.of_nat w) = pack_be w z.
Proof.
  revert z; induction w as [|w IH]; intros z; cbn [pack_be]; [reflexivity|].
  rewrite Nat2Z.inj_succ, Z.pow_succ_r by lia.
  replace (z + k * (256 * 256 ^ Z.of_nat w)) with (z + k * 256 ^ Z.of_nat w * 256) by lia.
  rewrite Z.div_add, IH by lia. f_equal. f_equal.
  apply b2z_inj. rewrite !b2z_z2b, Z.mod_add by lia. reflexivity.
Qed.

Lemma pack_unpack_be_signed w bs :
  length bs = w -> pack_be w (unpack_be_signed w bs) = bs.
Proof.
  intros <-. unfold unpack_be_signed, sign_of. set (w := length bs).
  destruct (_ <? _); [apply pack_unpack_be|].
  replace (2 ^ (8 * Z.of_nat w)) with (256 ^ Z.of_nat w)
    by (change 256 with (2 ^ 8); rewrite <- Z.pow_mul_r by lia; reflexivity).
  replace (unpack_be bs - 256 ^ Z.of_nat w) with (unpack_be bs + (-1) * 256 ^ Z.of_nat w) by lia.
  rewrite pack_be_period. apply pack_unpack_be.
Qed.

(** [placed raw o bs]: the bytes [bs] stand in [raw] at offset [o]. *)
Definition placed (raw : list byte) (o : Z) (bs : list byte) : Prop :=
  0 <= o /\ o + blen bs <= blen raw /\ slice o (o + blen bs) raw = bs.

Section placed.
Context (raw : list byte).

Lemma placed_slice a b : 0 <= a <= b -> b <= blen raw -> placed raw a (slice a b raw).
Proof.
  intros H Hb. unfold placed. rewrite blen_slice by lia.
  replace (a + (b - a)) with b by lia. split; [lia|split; [lia|reflexivity]].
Qed.

Lemma placed_app o a b : placed raw o (a ++ b) <-> placed raw o a /\ placed raw (o + blen a) b.
Proof.
  unfold placed. rewrite blen_app. pose proof (blen_nonneg a). pose proof (blen_nonneg b). split.
  - intros (H1 & H2 & H3). rewrite (slice_split o (o + blen a)) in H3 by lia.
    apply app_inj_1 in H3 as [H3 H4].
    + rewrite <- Z.add_assoc. rewrite H3, Z.add_assoc. rewrite Z.add_assoc in H4.
      repeat split; try lia; assumption.
    + apply Nat2Z.inj. change (blen (slice o (o + blen a) raw) = blen a).
      rewrite blen_slice by lia. lia.
  - intros ((H1 & H2 & H3) & H4 & H5 & H6). split; [lia|]. split; [lia|].
    rewrite (slice_split o (o + blen a)) by lia. rewrite H3. f_equal.
    rewrite Z.add_assoc. exact H6.
Qed.

Lemma placed_nil o : 0 <= o <= blen raw -> placed raw o [].
Proof.
  intros. unfold placed. change (blen []) with 0. rewrite Z.add_0_r, slice_empty.
  split; [lia|split; [lia|reflexivity]].
Qed.

Lemma placed_get o stop bs : placed raw o bs -> stop = o + blen bs -> slice o stop raw = bs.
Proof. intros (_ & _ & H) ->. exact H. Qed.

Lemma placed_range o bs : placed raw o bs -> 0 <= o /\ 0 <= blen bs /\ o + blen bs <= blen raw.
Proof. intros (? & ? & _). pose proof (blen_nonneg bs). lia. Qed.

Lemma placed_byte o b bs : placed raw o (b :: bs) -> byte_at raw o = b2z b.
Proof.
  change (b :: bs) with ([b] ++ bs). rewrite placed_app. intros [[H1 [H2 H3]] _].
  change (blen [b]) with 1 in *. rewrite byte_at_slice in H3 by lia. injection H3 as H3.
  rewrite <- H3. unfold byte_at. destruct (lookup_lt_is_Some_2 raw (Z.to_nat o)) as [c Hc];
    [unfold blen in H2; lia|]. rewrite Hc, z2b_b2z. reflexivity.
Qed.

Lemma placed_pack o w z :
  0 <= o -> o + Z.of_nat w <= blen raw -> unpack_be (slice o (o + Z.of_nat w) raw) = z ->
  placed raw o (pack_be w z).
Proof.
  intros H0 H1 <-. set (bs := slice _ _ _).
  assert (Hl : blen bs = Z.of_nat w) by (unfold bs; rewrite blen_slice by lia; lia).
  replace w with (length bs) by (unfold blen in Hl; lia). rewrite pack_unpack_be.
  apply placed_slice; lia.
Qed.

Lemma placed_pack_signed o w z :
  0 <= o -> o + Z.of_nat w <= blen raw -> unpack_be_signed w (slice o (o + Z.of_nat w) raw) = z ->
  placed raw o (pack_be w z).
Proof.
  intros H0 H1 <-. rewrite pack_unpack_be_signed; [apply placed_slice; lia|].
  apply Nat2Z.inj. change (blen (slice o (o + Z.of_nat w) raw) = Z.of_nat w).
  rewrite blen_slice by lia. lia.
Qed.

Lemma placed_all bs : placed raw 0 bs -> blen bs = blen raw -> raw = bs.
Proof. intros (_ & _ & H) E. rewrite Z.add_0_l, E, slice_all in H. exact H. Qed.

Lemma placed_self : placed raw 0 raw.
Proof.
  unfold placed. rewrite Z.add_0_l, slice_all. pose proof (blen_nonneg raw).
  split; [lia|split; [lia|reflexivity]].
Qed.
End placed.

(** [raw.find] looks for the first NUL: what it passed has none. *)
Lemma find_zero_Some i bs j :
  find_zero i bs = Some j ->
  exists pre rest, bs = pre ++ z2b 0 :: rest /\ j = i + blen pre /\
    forall b, b ∈ pre -> b2z b <> 0.
Proof.
  revert i; induction bs as [|b bs IH]; intros i; cbn [find_zero]; [discriminate|].
  destruct (Z.eqb_spec (b2z b) 0) as [E|E].
  - intros [= <-]. exists [], bs. rewrite <- E, z2b_b2z. split; [reflexivity|].
    split; [change (blen []) with 0; lia|]. intros ? H. inversion H.
  - intros H. destruct (IH _ H) as (pre & rest & -> & -> & Hp). exists (b :: pre), rest.
    split; [reflexivity|]. split; [unfold blen; simpl length; lia|].
    intros c Hc. apply elem_of_cons in Hc as [->|Hc]; auto.
Qed.

(** ** Base64 *)

(** The standard alphabet, by 6-bit value and back. *)
Definition b64_char (v : Z) : Z :=
  if v <? 26 then 65 + v
  else if v <? 52 then 71 + v
  else if v <? 62 then v - 4
  else if v =? 62 then 43 else 47.

Definition b64_value (c : Z) : option Z :=
  if (65 <=? c) && (c <=? 90) then Some (c - 65)
  else if (97 <=? c) && (c <=? 122) then Some (c - 71)
  else if (48 <=? c) && (c <=? 57) then Some (c + 4)
  else if c =? 43 then Some 62
  else if c =? 47 then Some 63
  else None.

(** [base64.b64encode(data).decode("ascii")]. *)
Fixpoint b64encode (bs : list byte) : pystr :=
  match bs with
  | [] => []
  | a :: [] =>
      let x := b2z a in
      [b64_char (x / 4); b64_char (x mod 4 * 16); 61; 61]
  | a :: b :: [] =>
      let x := b2z a in let y := b2z b in
      [b64_char (x / 4); b64_char (x mod 4 * 16 + y / 16); b64_char (y mod 16 * 4); 61]
  | a :: b :: c :: rest =>
      let x := b2z a in let y := b2z b in let z := b2z c in
      b64_char (x / 4) :: b64_char (x mod 4 * 16 + y / 16)
        :: b64_char (y mod 16 * 4 + z / 64) :: b64_char (z mod 64) :: b64encode rest
  end.

(** The groups of four 6-bit values; [pads] is the number of [=] read after
    them.  Bits left over in an incomplete last group are ignored. *)
Fixpoint b64_groups (pads : nat) (vs : list Z) : option (list byte) :=
  match vs with
  | [] => Some []
  | [_] => None
  | [x; y] => if (2 <=? pads)%nat then Some [z2b (x * 4 + y / 16)] else None
  | [x; y; z] =>
      if (1 <=? pads)%nat
      then Some [z2b (x * 4 + y / 16); z2b (y mod 16 * 16 + z / 4)] else None
  | x :: y :: z :: w :: rest =>
      out ← b64_groups pads rest;
      Some (z2b (x * 4 + y / 16) :: z2b (y mod 16 * 16 + z / 4) :: z2b (z mod 4 * 64 + w) :: out)
  end.

(** The final [=] signs of a text, at most [limit] of them, from its reverse. *)
Fixpoint b64_pads (limit : nat) (rs : pystr) : nat * pystr :=
  match limit, rs with
  | S limit, c :: rs' =>
      if c =? 61 then let '(n, body) := b64_pads limit rs' in (S n, body) else (O, rs)
  | _, _ => (O, rs)
  end.

(** [base64.b64decode(text, validate=True)] of Python 3.11: the alphabet and
    then at most two [=], or an error; an incomplete last group needs its
    padding. *)
Definition b64decode (s : pystr) : option (list byte) :=
  let '(pads, rbody) := b64_pads 2 (rev s) in
  vs ← mapM b64_value (rev rbody); b64_groups pads vs.

Lemma b64_value_char v : 0 <= v < 64 -> b64_value (b64_char v) = Some v.
Proof.
  intros Hv. unfold b64_char.
  destruct (Z.ltb_spec v 26); [|destruct (Z.ltb_spec v 52); [|destruct (Z.ltb_spec v 62);
    [|destruct (Z.eqb_spec v 62)]]]; unfold b64_value;
  repeat match goal with
  | |- context [(?a <=? ?b) && (?c <=? ?d)] =>
      destruct (Z.leb_spec a b); destruct (Z.leb_spec c d); cbn [andb]; try lia
  | |- context [?a =? ?b] => destruct (Z.eqb_spec a b); try lia
  end; f_equal; lia.
Qed.

Lemma b64_char_range v : 0 <= v < 64 -> 43 <= b64_char v <= 122 /\ b64_char v <> 61.
Proof.
  intros Hv. unfold b64_char.
  repeat (case_match; [lia|]). lia.
Qed.

Lemma rev_replicate {A} n (x : A) : rev (replicate n x) = replicate n x.
Proof. induction n as [|n IH]; [reflexivity|]. cbn [replicate rev]. rewrite IH. symmetry. apply replicate_S_end. Qed.

(** Bytes by groups of three. *)
Lemma triple_ind (P : list byte -> Prop) :
  P [] -> (forall a, P [a]) -> (forall a b, P [a; b]) ->
  (forall a b c rest, P rest -> P (a :: b :: c :: rest)) -> forall bs, P bs.
Proof.
  intros H0 H1 H2 H3. fix IH 1. intros [|a [|b [|c rest]]]; [exact H0|apply H1|apply H2|apply H3, IH].
Qed.

(** The encoder's text: the six-bit values of the bytes, and the padding that
    completes the last four. *)
Lemma b64encode_values bs : exists vs n, b64encode bs = map b64_char vs ++ replicate n 61 /\
  Forall (fun v => 0 <= v < 64) vs /\ (n <= 2)%nat /\ b64_groups n vs = Some bs /\
  ((length vs + n) mod 4 = 0)%nat /\ (bs <> [] -> vs <> []).
Proof.
  assert (R : forall b, 0 <= b2z b < 256) by apply b2z_range.
  assert (Q : forall b, 0 <= b2z b / 4 < 64 /\ 0 <= b2z b / 16 < 16 /\ 0 <= b2z b / 64 < 4 /\
                        0 <= b2z b mod 4 < 4 /\ 0 <= b2z b mod 16 < 16 /\ 0 <= b2z b mod 64 < 64).
  { intros b. specialize (R b).
    repeat split; try (apply Z.div_pos; lia); try (apply Z.div_lt_upper_bound; lia); apply Z.mod_pos_bound; lia. }
  assert (E : forall b v, v = b2z b -> z2b v = b) by (intros b v ->; apply z2b_b2z).
  induction bs as [|a|a b|a b c rest IH] using triple_ind; cbn [b64encode]; cbv zeta.
  - exists [], O. repeat split; [constructor|lia|congruence].
  - specialize (Q a). exists [b2z a / 4; b2z a mod 4 * 16], 2%nat. split; [reflexivity|].
    split; [repeat constructor; lia|]. split; [lia|]. split; [|split; [reflexivity|discriminate]].
    cbn. do 2 f_equal. apply E. pose proof (Z.div_mod (b2z a) 4 ltac:(lia)).
    rewrite (Z.div_mul (b2z a mod 4) 16) by lia. lia.
  - pose proof (Q a) as Qa. pose proof (Q b) as Qb.
    exists [b2z a / 4; b2z a mod 4 * 16 + b2z b / 16; b2z b mod 16 * 4], 1%nat. split; [reflexivity|].
    split; [repeat constructor; lia|]. split; [lia|]. split; [|split; [reflexivity|discriminate]].
    cbn [b64_groups Nat.leb]. do 2 f_equal; [|f_equal]; apply E.
    + pose proof (Z.div_mod (b2z a) 4 ltac:(lia)). rewrite Z.div_add_l by lia. rewrite (Z.div_small (b2z b / 16)) by lia. lia.
    + pose proof (Z.div_mod (b2z b) 16 ltac:(lia)). rewrite (Z.div_mul (b2z b mod 16) 4) by lia.
      rewrite (Z.add_comm (b2z a mod 4 * 16)), Z.mod_add, Z.mod_small by lia. lia.
  - pose proof (Q a) as Qa. pose proof (Q b) as Qb. pose proof (Q c) as Qc. destruct IH as (vs & n & -> & V & N & G & M & _).
    eexists (_ :: _ :: _ :: _ :: vs), n. split; [reflexivity|].
    split; [repeat (constructor; [lia|]); exact V|]. split; [exact N|].
    split; [|split; [cbn [length]; replace (S (S (S (S (length vs)))) + n)%nat with ((length vs + n) + 1 * 4)%nat by lia;
      rewrite Nat.Div0.mod_add; exact M|discriminate]].
    cbn [b64_groups]. rewrite G. cbn [mbind option_bind]. do 2 f_equal; [|f_equal; [|f_equal]]; apply E.
    + pose proof (Z.div_mod (b2z a) 4 ltac:(lia)). rewrite Z.div_add_l by lia. rewrite (Z.div_small (b2z b / 16)) by lia. lia.
    + pose proof (Z.div_mod (b2z b) 16 ltac:(lia)).
      rewrite (Z.add_comm (b2z a mod 4 * 16)), Z.mod_add, (Z.mod_small (b2z b / 16)) by lia.
      rewrite Z.div_add_l by lia. rewrite (Z.div_small (b2z c / 64)) by lia. lia.
    + pose proof (Z.div_mod (b2z c) 64 ltac:(lia)).
      rewrite (Z.add_comm (b2z b mod 16 * 4)), Z.mod_add, (Z.mod_small (b2z c / 64)) by lia. lia.
Qed.
