(* ===== verification/Struct.v ===== *)
(** * Struct: Python's [struct] module, for the formats the source declares

    A network format ([!4sBBHI]) is a list of fields; its values are the tuple
    [pack] takes and [unpack_from] returns.  The fields the source uses are
    unsigned integers of a width in bytes, raw bytes ([16s]), and doubles ([d]),
    which are carried as their 64 bits: a Python [float] is an IEEE binary64
    and [struct] writes its bits.  [fits] says when [pack] loses nothing;
    outside it [struct.pack] raises (an integer) or pads and cuts (raw bytes),
    and the source packs only what it has checked. *)

From S2P Require Import Prelude.
From S2P Require Import Bytes.

Local Open Scope Z_scope.

Inductive field := Uint (width : nat) | Raw (count : nat).

(** [B], [H], [I], [Q] and [d]. *)
Abbreviation U1 := (Uint 1).
Abbreviation U2 := (Uint 2).
Abbreviation U4 := (Uint 4).
Abbreviation U8 := (Uint 8).
Abbreviation Double := (Uint 8).

Definition field_size (f : field) : Z :=
  match f with Uint w => Z.of_nat w | Raw n => Z.of_nat n end.

(** [Struct(fmt).size]. *)
Fixpoint size (fmt : list field) : Z :=
  match fmt with [] => 0 | f :: fmt => field_size f + size fmt end.

Definition field_value (f : field) : Type :=
  match f with Uint _ => Z | Raw _ => list byte end.

Fixpoint values (fmt : list field) : Type :=
  match fmt with [] => unit | f :: fmt => field_value f * values fmt end%type.

Definition pack_field (f : field) : field_value f -> list byte :=
  match f with
  | Uint w => fun v => pack_be w v
  | Raw n => fun v => take n (v ++ replicate n (z2b 0))
  end.

Definition unpack_field (f : field) (bs : list byte) : field_value f :=
  match f with Uint _ => unpack_be bs | Raw _ => bs end.

Definition field_fits (f : field) : field_value f -> Prop :=
  match f with
  | Uint w => fun v => 0 <= v < 256 ^ Z.of_nat w
  | Raw n => fun v => length v = n
  end.

(** [Struct(fmt).pack]. *)
Fixpoint pack (fmt : list field) : values fmt -> list byte :=
  match fmt with
  | [] => fun _ => []
  | f :: fmt => fun vs => pack_field f vs.1 ++ pack fmt vs.2
  end.

(** [Struct(fmt).unpack_from(data, offset)], for a buffer long enough. *)
Fixpoint unpack_from (fmt : list field) (data : list byte) (offset : Z) : values fmt :=
  match fmt with
  | [] => tt
  | f :: fmt => (unpack_field f (slice offset (offset + field_size f) data),
                 unpack_from fmt data (offset + field_size f))
  end.

Fixpoint fits (fmt : list field) : values fmt -> Prop :=
  match fmt with
  | [] => fun _ => True
  | f :: fmt => fun vs => field_fits f vs.1 /\ fits fmt vs.2
  end.

Lemma field_size_nonneg f : 0 <= field_size f.
Proof. destruct f; simpl; lia. Qed.

Lemma size_nonneg fmt : 0 <= size fmt.
Proof. induction fmt as [|f fmt IH]; simpl; [lia|]. pose proof (field_size_nonneg f). lia. Qed.

Lemma blen_pack_field f v : blen (pack_field f v) = field_size f.
Proof.
  destruct f; simpl; [apply blen_pack_be|]. unfold blen. f_equal.
  apply length_take_le. rewrite length_app, length_replicate. lia.
Qed.

Lemma blen_pack fmt vs : blen (pack fmt vs) = size fmt.
Proof.
  induction fmt as [|f fmt IH]; simpl; [reflexivity|].
  rewrite blen_app, blen_pack_field, IH. reflexivity.
Qed.

#[export] Hint Rewrite blen_pack : bytes.

Lemma pack_raw n bs : length bs = n -> take n (bs ++ replicate n (z2b 0)) = bs.
Proof. intros <-. apply take_app_length. Qed.

(** What [pack] wrote is read back, wherever it stands. *)
Lemma unpack_pack fmt vs pre post o :
  fits fmt vs -> o = blen pre -> unpack_from fmt (pre ++ pack fmt vs ++ post) o = vs.
Proof.
  revert pre o; induction fmt as [|f fmt IH]; intros pre o; [destruct vs; reflexivity|].
  destruct vs as [v vs]. cbn [fits fst snd]. intros [Hv Hs] ->. cbn [unpack_from pack fst snd].
  rewrite <- app_assoc. f_equal.
  - rewrite (slice_app _ (pack_field f v)) by (rewrite ?blen_pack_field; reflexivity).
    destruct f; cbn [unpack_field pack_field field_fits] in *; [apply unpack_pack_be_small, Hv|].
    apply pack_raw, Hv.
  - rewrite (app_assoc pre). apply IH; [exact Hs|]. rewrite blen_app, blen_pack_field. reflexivity.
Qed.

(** What is read is what would be written there, and it fits. *)
Lemma pack_unpack fmt data o :
  0 <= o -> o + size fmt <= blen data ->
  placed data o (pack fmt (unpack_from fmt data o)) /\ fits fmt (unpack_from fmt data o).
Proof.
  revert o; induction fmt as [|f fmt IH]; intros o H0 H1; cbn [size] in H1.
  { split; [apply placed_nil; lia|exact I]. }
  pose proof (size_nonneg fmt). pose proof (field_size_nonneg f).
  destruct (IH (o + field_size f)) as [P F]; [lia|lia|].
  assert (L : blen (slice o (o + field_size f) data) = field_size f) by (rewrite blen_slice; lia).
  cbn [unpack_from pack fst snd fits]. rewrite placed_app, blen_pack_field.
  destruct f as [w|n]; cbn [field_size unpack_field field_fits pack_field] in *.
  - split; [split; [apply placed_pack; [lia|lia|reflexivity]|exact P]|split; [|exact F]].
    pose proof (unpack_be_range (slice o (o + Z.of_nat w) data)) as R.
    fold (blen (slice o (o + Z.of_nat w) data)) in R. rewrite L in R. exact R.
  - assert (E : length (slice o (o + Z.of_nat n) data) = n) by (unfold blen in L; lia).
    split; [split; [rewrite (pack_raw n) by exact E|exact P]|split; [exact E|exact F]].
    apply placed_slice; lia.
Qed.

(** A buffer that is nothing but one structure. *)
Lemma unpack_all fmt data vs :
  blen data = size fmt -> unpack_from fmt data 0 = vs -> data = pack fmt vs.
Proof.
  intros L <-. destruct (pack_unpack fmt data 0) as [P _]; [lia|lia|].
  apply placed_all in P; [exact P|]. rewrite blen_pack, L. reflexivity.
Qed.

(** The same at the front, at the back, and alone. *)
Lemma unpack_pack_head fmt vs post : fits fmt vs -> unpack_from fmt (pack fmt vs ++ post) 0 = vs.
Proof. intros F. apply (unpack_pack fmt vs [] post); [exact F|reflexivity]. Qed.

Lemma unpack_pack_tail fmt vs pre o :
  fits fmt vs -> o = blen pre -> unpack_from fmt (pre ++ pack fmt vs) o = vs.
Proof. intros F O. rewrite <- (app_nil_r (pack fmt vs)). apply unpack_pack; assumption. Qed.

Lemma unpack_pack_only fmt vs : fits fmt vs -> unpack_from fmt (pack fmt vs) 0 = vs.
Proof. intros F. rewrite <- (app_nil_r (pack fmt vs)). apply unpack_pack_head, F. Qed.
