(* ===== verification/Unicode.v ===== *)
(** * Unicode: [str.casefold], [str.strip] and UTF-8

    The standard-library text operations the source uses.  [casefold] is the
    full case folding of Unicode 14.0, the version of Python 3.11: runs of
    code points moved by a constant, and the code points with a
    several-character folding.  UTF-8 is the strict codec: its decoder is a
    state machine fed one byte at a time, so that an incremental decoder fed
    block by block is the same machine. *)

From S2P Require Import Prelude.
From S2P Require Import Bytes.

Local Open Scope Z_scope.

(** ** Case folding *)

(** Runs [(first, last, step, delta)]: a code point [c] of the run folds to
    [c + delta]. *)
Definition fold_runs : list (Z * Z * Z * Z) :=
  [
    (65, 90, 1, 32); (181, 181, 1, 775); (192, 214, 1, 32); (216, 222, 1, 32);
    (256, 302, 2, 1); (306, 310, 2, 1); (313, 327, 2, 1); (330, 374, 2, 1);
    (376, 376, 1, (-121)); (377, 381, 2, 1); (383, 383, 1, (-268)); (385, 385, 1, 210);
    (386, 388, 2, 1); (390, 390, 1, 206); (391, 391, 1, 1); (393, 394, 1, 205);
    (395, 395, 1, 1); (398, 398, 1, 79); (399, 399, 1, 202); (400, 400, 1, 203);
    (401, 401, 1, 1); (403, 403, 1, 205); (404, 404, 1, 207); (406, 406, 1, 211);
    (407, 407, 1, 209); (408, 408, 1, 1); (412, 412, 1, 211); (413, 413, 1, 213);
    (415, 415, 1, 214); (416, 420, 2, 1); (422, 422, 1, 218); (423, 423, 1, 1);
    (425, 425, 1, 218); (428, 428, 1, 1); (430, 430, 1, 218); (431, 431, 1, 1);
    (433, 434, 1, 217); (435, 437, 2, 1); (439, 439, 1, 219); (440, 440, 1, 1);
    (444, 444, 1, 1); (452, 452, 1, 2); (453, 453, 1, 1); (455, 455, 1, 2);
    (456, 456, 1, 1); (458, 458, 1, 2); (459, 475, 2, 1); (478, 494, 2, 1);
    (497, 497, 1, 2); (498, 500, 2, 1); (502, 502, 1, (-97)); (503, 503, 1, (-56));
    (504, 542, 2, 1); (544, 544, 1, (-130)); (546, 562, 2, 1); (570, 570, 1, 10795);
    (571, 571, 1, 1); (573, 573, 1, (-163)); (574, 574, 1, 10792); (577, 577, 1, 1);
    (579, 579, 1, (-195)); (580, 580, 1, 69); (581, 581, 1, 71); (582, 590, 2, 1);
    (837, 837, 1, 116); (880, 882, 2, 1); (886, 886, 1, 1); (895, 895, 1, 116);
    (902, 902, 1, 38); (904, 906, 1, 37); (908, 908, 1, 64); (910, 911, 1, 63);
    (913, 929, 1, 32); (931, 939, 1, 32); (962, 962, 1, 1); (975, 975, 1, 8);
    (976, 976, 1, (-30)); (977, 977, 1, (-25)); (981, 981, 1, (-15));
    (982, 982, 1, (-22)); (984, 1006, 2, 1); (1008, 1008, 1, (-54));
    (1009, 1009, 1, (-48)); (1012, 1012, 1, (-60)); (1013, 1013, 1, (-64));
    (1015, 1015, 1, 1); (1017, 1017, 1, (-7)); (1018, 1018, 1, 1);
    (1021, 1023, 1, (-130)); (1024, 1039, 1, 80); (1040, 1071, 1, 32);
    (1120, 1152, 2, 1); (1162, 1214, 2, 1); (1216, 1216, 1, 15); (1217, 1229, 2, 1);
    (1232, 1326, 2, 1); (1329, 1366, 1, 48); (4256, 4293, 1, 7264);
    (4295, 4295, 1, 7264); (4301, 4301, 1, 7264); (5112, 5117, 1, (-8));
    (7296, 7296, 1, (-6222)); (7297, 7297, 1, (-6221)); (7298, 7298, 1, (-6212));
    (7299, 7300, 1, (-6210)); (7301, 7301, 1, (-6211)); (7302, 7302, 1, (-6204));
    (7303, 7303, 1, (-6180)); (7304, 7304, 1, 35267); (7312, 7354, 1, (-3008));
    (7357, 7359, 1, (-3008)); (7680, 7828, 2, 1); (7835, 7835, 1, (-58));
    (7840, 7934, 2, 1); (7944, 7951, 1, (-8)); (7960, 7965, 1, (-8));
    (7976, 7983, 1, (-8)); (7992, 7999, 1, (-8)); (8008, 8013, 1, (-8));
    (8025, 8031, 2, (-8)); (8040, 8047, 1, (-8)); (8120, 8121, 1, (-8));
    (8122, 8123, 1, (-74)); (8126, 8126, 1, (-7173)); (8136, 8139, 1, (-86));
    (8152, 8153, 1, (-8)); (8154, 8155, 1, (-100)); (8168, 8169, 1, (-8));
    (8170, 8171, 1, (-112)); (8172, 8172, 1, (-7)); (8184, 8185, 1, (-128));
    (8186, 8187, 1, (-126)); (8486, 8486, 1, (-7517)); (8490, 8490, 1, (-8383));
    (8491, 8491, 1, (-8262)); (8498, 8498, 1, 28); (8544, 8559, 1, 16);
    (8579, 8579, 1, 1); (9398, 9423, 1, 26); (11264, 11311, 1, 48);
    (11360, 11360, 1, 1); (11362, 11362, 1, (-10743)); (11363, 11363, 1, (-3814));
    (11364, 11364, 1, (-10727)); (11367, 11371, 2, 1); (11373, 11373, 1, (-10780));
    (11374, 11374, 1, (-10749)); (11375, 11375, 1, (-10783));
    (11376, 11376, 1, (-10782)); (11378, 11378, 1, 1); (11381, 11381, 1, 1);
    (11390, 11391, 1, (-10815)); (11392, 11490, 2, 1); (11499, 11501, 2, 1);
    (11506, 11506, 1, 1); (42560, 42604, 2, 1); (42624, 42650, 2, 1);
    (42786, 42798, 2, 1); (42802, 42862, 2, 1); (42873, 42875, 2, 1);
    (42877, 42877, 1, (-35332)); (42878, 42886, 2, 1); (42891, 42891, 1, 1);
    (42893, 42893, 1, (-42280)); (42896, 42898, 2, 1); (42902, 42920, 2, 1);
    (42922, 42922, 1, (-42308)); (42923, 42923, 1, (-42319));
    (42924, 42924, 1, (-42315)); (42925, 42925, 1, (-42305));
    (42926, 42926, 1, (-42308)); (42928, 42928, 1, (-42258));
    (42929, 42929, 1, (-42282)); (42930, 42930, 1, (-42261)); (42931, 42931, 1, 928);
    (42932, 42946, 2, 1); (42948, 42948, 1, (-48)); (42949, 42949, 1, (-42307));
    (42950, 42950, 1, (-35384)); (42951, 42953, 2, 1); (42960, 42960, 1, 1);
    (42966, 42968, 2, 1); (42997, 42997, 1, 1); (43888, 43967, 1, (-38864));
    (65313, 65338, 1, 32); (66560, 66599, 1, 40); (66736, 66771, 1, 40);
    (66928, 66938, 1, 39); (66940, 66954, 1, 39); (66956, 66962, 1, 39);
    (66964, 66965, 1, 39); (68736, 68786, 1, 64); (71840, 71871, 1, 32);
    (93760, 93791, 1, 32); (125184, 125217, 1, 34)
  ].

(** Code points whose folding has several characters. *)
Definition fold_multi : list (Z * list Z) :=
  [
    (223, [115; 115]); (304, [105; 775]); (329, [700; 110]); (496, [106; 780]);
    (912, [953; 776; 769]); (944, [965; 776; 769]); (1415, [1381; 1410]);
    (7830, [104; 817]); (7831, [116; 776]); (7832, [119; 778]); (7833, [121; 778]);
    (7834, [97; 702]); (7838, [115; 115]); (8016, [965; 787]); (8018, [965; 787; 768]);
    (8020, [965; 787; 769]); (8022, [965; 787; 834]); (8064, [7936; 953]);
    (8065, [7937; 953]); (8066, [7938; 953]); (8067, [7939; 953]); (8068, [7940; 953]);
    (8069, [7941; 953]); (8070, [7942; 953]); (8071, [7943; 953]); (8072, [7936; 953]);
    (8073, [7937; 953]); (8074, [7938; 953]); (8075, [7939; 953]); (8076, [7940; 953]);
    (8077, [7941; 953]); (8078, [7942; 953]); (8079, [7943; 953]); (8080, [7968; 953]);
    (8081, [7969; 953]); (8082, [7970; 953]); (8083, [7971; 953]); (8084, [7972; 953]);
    (8085, [7973; 953]); (8086, [7974; 953]); (8087, [7975; 953]); (8088, [7968; 953]);
    (8089, [7969; 953]); (8090, [7970; 953]); (8091, [7971; 953]); (8092, [7972; 953]);
    (8093, [7973; 953]); (8094, [7974; 953]); (8095, [7975; 953]); (8096, [8032; 953]);
    (8097, [8033; 953]); (8098, [8034; 953]); (8099, [8035; 953]); (8100, [8036; 953]);
    (8101, [8037; 953]); (8102, [8038; 953]); (8103, [8039; 953]); (8104, [8032; 953]);
    (8105, [8033; 953]); (8106, [8034; 953]); (8107, [8035; 953]); (8108, [8036; 953]);
    (8109, [8037; 953]); (8110, [8038; 953]); (8111, [8039; 953]); (8114, [8048; 953]);
    (8115, [945; 953]); (8116, [940; 953]); (8118, [945; 834]); (8119, [945; 834; 953]);
    (8124, [945; 953]); (8130, [8052; 953]); (8131, [951; 953]); (8132, [942; 953]);
    (8134, [951; 834]); (8135, [951; 834; 953]); (8140, [951; 953]);
    (8146, [953; 776; 768]); (8147, [953; 776; 769]); (8150, [953; 834]);
    (8151, [953; 776; 834]); (8162, [965; 776; 768]); (8163, [965; 776; 769]);
    (8164, [961; 787]); (8166, [965; 834]); (8167, [965; 776; 834]);
    (8178, [8060; 953]); (8179, [969; 953]); (8180, [974; 953]); (8182, [969; 834]);
    (8183, [969; 834; 953]); (8188, [969; 953]); (64256, [102; 102]);
    (64257, [102; 105]); (64258, [102; 108]); (64259, [102; 102; 105]);
    (64260, [102; 102; 108]); (64261, [115; 116]); (64262, [115; 116]);
    (64275, [1396; 1398]); (64276, [1396; 1381]); (64277, [1396; 1387]);
    (64278, [1406; 1398]); (64279, [1396; 1389])
  ].

Fixpoint lookup_run (c : Z) (runs : list (Z * Z * Z * Z)) : option Z :=
  match runs with
  | [] => None
  | (first, last, step, delta) :: runs =>
      if (first <=? c) && (c <=? last) && ((c - first) mod step =? 0) then Some (c + delta)
      else lookup_run c runs
  end.

Fixpoint lookup_multi (c : Z) (l : list (Z * list Z)) : option (list Z) :=
  match l with
  | [] => None
  | (d, f) :: l => if c =? d then Some f else lookup_multi c l
  end.

Definition casefold_char (c : Z) : pystr :=
  match lookup_multi c fold_multi with
  | Some f => f
  | None => match lookup_run c fold_runs with Some d => [d] | None => [c] end
  end.

(** [s.casefold()]: the folding of each code point, in order. *)
Definition casefold (s : pystr) : pystr := s ≫= casefold_char.

Lemma casefold_app s t : casefold (s ++ t) = casefold s ++ casefold t.
Proof. apply bind_app. Qed.

Lemma casefold_contains n h : contains n h = true -> contains (casefold n) (casefold h) = true.
Proof.
  rewrite !contains_spec; intros (u & t & ->).
  exists (casefold u), (casefold t). rewrite !casefold_app. reflexivity.
Qed.

(** ** White space *)

(** [str.isspace] of one code point, the characters [str.strip] removes. *)
Definition py_space (c : Z) : bool :=
  ((9 <=? c) && (c <=? 13)) || ((28 <=? c) && (c <=? 32)) ||
  bool_decide (c ∈ [133; 160; 5760; 8232; 8233; 8239; 8287; 12288]) ||
  ((8192 <=? c) && (c <=? 8202)).

Fixpoint lstrip (s : pystr) : pystr :=
  match s with
  | [] => []
  | c :: r => if py_space c then lstrip r else s
  end.

(** [s.strip()]. *)
Definition strip (s : pystr) : pystr := rev (lstrip (rev (lstrip s))).

Lemma lstrip_suffix s : exists u, s = u ++ lstrip s.
Proof.
  induction s as [|c s [u IH]]; simpl; [exists []; reflexivity|].
  destruct (py_space c); [exists (c :: u); simpl; congruence | exists []; reflexivity].
Qed.

(** ** UTF-8 *)

(** [chr(c).encode("utf-8")], [None] for a surrogate or a value outside the
    code space. *)
Definition utf8_char (c : Z) : option (list byte) :=
  if c <? 0 then None
  else if c <? 128 then Some [z2b c]
  else if c <? 2048 then Some [z2b (192 + c / 64); z2b (128 + c mod 64)]
  else if c <? 65536 then
    if (55296 <=? c) && (c <=? 57343) then None
    else Some [z2b (224 + c / 4096); z2b (128 + c / 64 mod 64); z2b (128 + c mod 64)]
  else if c <? 1114112 then
    Some [z2b (240 + c / 262144); z2b (128 + c / 4096 mod 64);
          z2b (128 + c / 64 mod 64); z2b (128 + c mod 64)]
  else None.

(** [s.encode("utf-8", errors="strict")], [None] for [UnicodeEncodeError]. *)
Fixpoint utf8_encode (s : pystr) : option (list byte) :=
  match s with
  | [] => Some []
  | c :: s => b ← utf8_char c; bs ← utf8_encode s; Some (b ++ bs)
  end.

(** The decoder's state: how many continuation bytes are still due, the range
    the next one must lie in, and the bits read so far. *)
Record utf8_state := Utf8 { due : nat; low : Z; high : Z; acc : Z }.

Definition utf8_start : utf8_state := Utf8 0 0 0 0.

Definition utf8_step (st : utf8_state) (b : Z) : option (utf8_state * pystr) :=
  match due st with
  | O =>
      if b <? 128 then Some (utf8_start, [b])
      else if b <? 194 then None
      else if b <? 224 then Some (Utf8 1 128 191 (b - 192), [])
      else if b <? 240 then
        Some (Utf8 2 (if b =? 224 then 160 else 128) (if b =? 237 then 159 else 191) (b - 224), [])
      else if b <? 245 then
        Some (Utf8 3 (if b =? 240 then 144 else 128) (if b =? 244 then 143 else 191) (b - 240), [])
      else None
  | S k =>
      if (low st <=? b) && (b <=? high st) then
        let a := acc st * 64 + (b - 128) in
        match k with
        | O => Some (utf8_start, [a])
        | S _ => Some (Utf8 k 128 191 a, [])
        end
      else None
  end.

(** One [decode] call of an incremental decoder: the new state and the text. *)
Fixpoint utf8_feed (st : utf8_state) (bs : list byte) : option (utf8_state * pystr) :=
  match bs with
  | [] => Some (st, [])
  | b :: bs =>
      match utf8_step st (b2z b) with
      | None => None
      | Some (st, out) =>
          match utf8_feed st bs with
          | None => None
          | Some (st, rest) => Some (st, out ++ rest)
          end
      end
  end.

(** [bs.decode("utf-8", errors="strict")], [None] for [UnicodeDecodeError]. *)
Definition utf8_decode (bs : list byte) : option pystr :=
  match utf8_feed utf8_start bs with
  | Some (st, s) => if (due st =? 0)%nat then Some s else None
  | None => None
  end.

Lemma utf8_feed_app st a b :
  utf8_feed st (a ++ b) =
  match utf8_feed st a with
  | None => None
  | Some (st, s) =>
      match utf8_feed st b with
      | None => None
      | Some (st, t) => Some (st, s ++ t)
      end
  end.
Proof.
  revert st; induction a as [|x a IH]; intros st; cbn [app utf8_feed].
  - destruct (utf8_feed st b) as [[? ?]|]; reflexivity.
  - destruct (utf8_step st (b2z x)) as [[st1 o]|]; [|reflexivity].
    rewrite IH. destruct (utf8_feed st1 a) as [[st2 s]|]; [|reflexivity].
    destruct (utf8_feed st2 b) as [[st3 t]|]; [|reflexivity].
    rewrite app_assoc. reflexivity.
Qed.

(** Decide the comparisons of one decoder step on known ranges. *)
Ltac utf8_cases :=
  repeat match goal with
  | |- context [if (?a <? ?b) then _ else _] => destruct (Z.ltb_spec a b); try lia
  | |- context [if (?a =? ?b) then _ else _] => destruct (Z.eqb_spec a b); try lia
  | |- context [(?a <=? ?b) && (?c <=? ?d)] =>
      destruct (Z.leb_spec a b); destruct (Z.leb_spec c d); try lia; cbn [andb]
  end.

Lemma utf8_char_range c bs : utf8_char c = Some bs -> 0 <= c < 1114112.
Proof. unfold utf8_char. utf8_cases; intros; (discriminate || lia). Qed.

Lemma utf8_feed_cons st b bs :
  utf8_feed st (b :: bs) =
  match utf8_step st (b2z b) with
  | None => None
  | Some (st, out) =>
      match utf8_feed st bs with
      | None => None
      | Some (st, rest) => Some (st, out ++ rest)
      end
  end.
Proof. reflexivity. Qed.

(** A continuation byte in range advances the decoder. *)
Lemma utf8_feed_cont k lo hi a z bs :
  0 <= z < 64 -> lo <= 128 + z <= hi ->
  utf8_feed (Utf8 (S k) lo hi a) (z2b (128 + z) :: bs) =
  match k with
  | O => match utf8_feed utf8_start bs with
         | Some (st, rest) => Some (st, (a * 64 + z) :: rest)
         | None => None
         end
  | S _ => utf8_feed (Utf8 k 128 191 (a * 64 + z)) bs
  end.
Proof.
  intros Hz Hr. cbn [utf8_feed]. rewrite b2z_z2b_small by lia.
  unfold utf8_step. cbn [due low high acc]. utf8_cases.
  replace (128 + z - 128) with z by lia.
  destruct k; cbn [utf8_feed]; [reflexivity|].
  destruct (utf8_feed _ bs) as [[? ?]|]; reflexivity.
Qed.

(** Feeding the encoding of a character emits it and returns to the start. *)
Lemma utf8_feed_char c bs :
  utf8_char c = Some bs -> utf8_feed utf8_start bs = Some (utf8_start, [c]).
Proof.
  intros H. pose proof (utf8_char_range _ _ H) as Hc. revert H. unfold utf8_char.
  pose proof (Z.div_mod c 64 ltac:(lia)) as D1.
  pose proof (Z.div_mod (c / 64) 64 ltac:(lia)) as D2.
  pose proof (Z.div_mod (c / 4096) 64 ltac:(lia)) as D3.
  pose proof (Z.mod_pos_bound c 64 ltac:(lia)).
  pose proof (Z.mod_pos_bound (c / 64) 64 ltac:(lia)).
  pose proof (Z.mod_pos_bound (c / 4096) 64 ltac:(lia)).
  rewrite Z.div_div in D2 by lia. rewrite Z.div_div in D3 by lia.
  change (64 * 64) with 4096 in D2. change (4096 * 64) with 262144 in D3.
  utf8_cases; intros [= <-]; rewrite utf8_feed_cons, b2z_z2b_small by lia;
    unfold utf8_step at 1; cbn [due utf8_start]; utf8_cases;
    repeat (rewrite utf8_feed_cont by lia); cbn [utf8_feed app];
    (do 3 f_equal; lia).
Qed.

Lemma utf8_feed_encode s bs :
  utf8_encode s = Some bs -> utf8_feed utf8_start bs = Some (utf8_start, s).
Proof.
  revert bs; induction s as [|c s IH]; intros bs; cbn [utf8_encode].
  - intros [= <-]. reflexivity.
  - destruct (utf8_char c) as [b|] eqn:Hc; [|discriminate].
    destruct (utf8_encode s) as [r|] eqn:Hs; [|discriminate].
    intros [= <-]. rewrite utf8_feed_app, (utf8_feed_char c b Hc), (IH r eq_refl). reflexivity.
Qed.

(** Decoding what the strict encoder wrote gives the text back. *)
Lemma utf8_decode_encode s bs : utf8_encode s = Some bs -> utf8_decode bs = Some s.
Proof. intros H. unfold utf8_decode. rewrite (utf8_feed_encode s bs H). reflexivity. Qed.
