(* ===== verification/Canonical.v ===== *)
(** * Canonical: database values and their deterministic text

    Models [masking/canonical.py]: the Python values a driver hands to the
    Masking Engine and [canonicalize], which gives each supported type one
    deterministic text and refuses every other type. *)

From S2P Require Import Prelude.
From S2P Require Import Bytes.

Local Open Scope Z_scope.
#[local] Set Warnings "-register-all".

(** ** Values

    One constructor per type [canonicalize] tests for.  A [float] is carried
    by its [repr], the round-trip text [canonicalize] and [json] both print; a
    [Decimal] and a [UUID] by their [str], dates and times by their
    [isoformat]: standard-library printers that the code only calls.  A
    [dict] is its items in insertion order, with text keys, as the JSON of
    PostgreSQL has.  Any other type is [VOther] with its name. *)
Inductive pyval : Type :=
| VNone
| VStr (s : pystr)
| VBool (b : bool)
| VInt (n : Z)
| VFloat (repr : pystr)
| VDecimal (text : pystr)
| VBytes (data : list byte)
| VByteArray (data : list byte)
| VMemoryView (data : list byte)
| VDateTime (iso : pystr)
| VDate (iso : pystr)
| VTime (iso : pystr)
| VUuid (text : pystr)
| VList (items : list pyval)
| VTuple (items : list pyval)
| VDict (items : list (pystr * pyval))
| VOther (type_name : pystr).

(** [TransformerError]: the unsupported type's name, or the fixed message of a
    JSON structure that has no canonical form.  Never a value. *)
Inductive canonical_error :=
| UnsupportedType (type_name : pystr)
| NotCanonicalizable.

#[export] Instance canonical_error_eq_dec : EqDecision canonical_error.
Proof. solve_decision. Defined.

(** [type(value).__name__]. *)
Definition type_name (v : pyval) : pystr :=
  match v with
  | VNone => py "NoneType" | VStr _ => py "str" | VBool _ => py "bool"
  | VInt _ => py "int" | VFloat _ => py "float" | VDecimal _ => py "Decimal"
  | VBytes _ => py "bytes" | VByteArray _ => py "bytearray"
  | VMemoryView _ => py "memoryview" | VDateTime _ => py "datetime"
  | VDate _ => py "date" | VTime _ => py "time" | VUuid _ => py "UUID"
  | VList _ => py "list" | VTuple _ => py "tuple" | VDict _ => py "dict"
  | VOther n => n
  end.

Definition unsupported (v : pyval) : canonical_error := UnsupportedType (type_name v).

Definition binary (data : list byte) : pystr := b64encode data.

Lemma null_or_value (v : pyval) : v = VNone \/ v <> VNone.
Proof. destruct v; auto; right; discriminate. Qed.

(** ** The JSON printer: [json.dumps] with sorted keys, no blanks and
    [ensure_ascii=False] *)

Definition hex_digit (n : Z) : Z := if n <? 10 then 48 + n else 87 + n.

Definition json_escape (c : Z) : pystr :=
  if c =? 34 then [92; 34]
  else if c =? 92 then [92; 92]
  else if c =? 10 then [92; 110]
  else if c =? 13 then [92; 114]
  else if c =? 9 then [92; 116]
  else if c =? 12 then [92; 102]
  else if c =? 8 then [92; 98]
  else if c <? 32 then [92; 117; 48; 48; hex_digit (c / 16); hex_digit (c mod 16)]
  else [c].

Definition json_string (s : pystr) : pystr := 34 :: (s ≫= json_escape) ++ [34].

(** [",".join(parts)]. *)
Fixpoint join_comma (parts : list pystr) : pystr :=
  match parts with
  | [] => []
  | [p] => p
  | p :: rest => p ++ 44 :: join_comma rest
  end.

(** A float [allow_nan=False] refuses. *)
Definition not_finite (repr : pystr) : bool :=
  bool_decide (repr ∈ [py "nan"; py "inf"; py "-inf"]).

Definition key_le {A} (x y : pystr * A) : Prop := pystr_le x.1 y.1.

#[export] Instance key_le_dec {A} : RelDecision (@key_le A).
Proof. intros x y; unfold key_le; apply _. Defined.

(** The table of scalar types: one text per type, in the order of the tests.
    [canonicalize] adds the two container types. *)
Definition canonical_scalar (v : pyval) : res canonical_error pystr :=
  match v with
  | VStr s => Ok s
  | VBool b => Ok (if b then py "true" else py "false")
  | VInt n => Ok (str_int n)
  | VFloat repr => Ok repr
  | VDecimal text => Ok text
  | VBytes data | VByteArray data | VMemoryView data => Ok (binary data)
  | VDateTime iso | VDate iso | VTime iso => Ok iso
  | VUuid text => Ok text
  | _ => Err (unsupported v)
  end.

(** One [key: value] member, from the member's printed value. *)
Definition json_member (kv : pystr * res canonical_error pystr) : res canonical_error pystr :=
  t ← kv.2; Ok (json_string kv.1 ++ 58 :: t).

(** [json.dumps]: a scalar [json] does not know goes through the same table,
    [_json_default], and its text is printed as a string. *)
Fixpoint json_dumps (v : pyval) : res canonical_error pystr :=
  match v with
  | VNone => Ok (py "null")
  | VStr s => Ok (json_string s)
  | VBool b => Ok (if b then py "true" else py "false")
  | VInt n => Ok (str_int n)
  | VFloat repr => if not_finite repr then Err NotCanonicalizable else Ok repr
  | VList l | VTuple l =>
      parts ← mapM_res id (map json_dumps l);
      Ok (91 :: join_comma parts ++ [93])
  | VDict items =>
      parts ← mapM_res json_member
                (merge_sort key_le (map (fun kv => (kv.1, json_dumps kv.2)) items));
      Ok (123 :: join_comma parts ++ [125])
  | _ => t ← canonical_scalar v; Ok (json_string t)
  end.

Definition canonicalize (v : pyval) : res canonical_error pystr :=
  match v with
  | VDict _ | VList _ => json_dumps v
  | _ => canonical_scalar v
  end.

(** ** Induction over nested values *)

Section pyval_ind.
Context (P : pyval -> Prop).
Context (Hscalar : forall v,
  (match v with VList _ | VTuple _ | VDict _ => False | _ => True end) -> P v).
Context (Hlist : forall l, Forall P l -> P (VList l)).
Context (Htuple : forall l, Forall P l -> P (VTuple l)).
Context (Hdict : forall l, Forall (fun kv => P kv.2) l -> P (VDict l)).

Fixpoint pyval_nested_ind (v : pyval) : P v :=
  let all := fix all (l : list pyval) : Forall P l :=
    match l with
    | [] => List.Forall_nil P
    | x :: l => @List.Forall_cons _ P x l (pyval_nested_ind x) (all l)
    end in
  let allkv := fix allkv (l : list (pystr * pyval)) : Forall (fun kv => P kv.2) l :=
    match l with
    | [] => List.Forall_nil (fun kv => P kv.2)
    | x :: l => @List.Forall_cons _ (fun kv => P kv.2) x l (pyval_nested_ind x.2) (allkv l)
    end in
  match v with
  | VList l => Hlist l (all l)
  | VTuple l => Htuple l (all l)
  | VDict l => Hdict l (allkv l)
  | v => Hscalar v ltac:(exact I)
  end.
End pyval_ind.

(** ** Insertion order does not reach the text *)

(** Two values that differ only in the insertion order of their dicts, at any
    depth.  A Python dict has one entry per key. *)
Inductive same_json : pyval -> pyval -> Prop :=
| same_refl v : same_json v v
| same_list l k : Forall2 same_json l k -> same_json (VList l) (VList k)
| same_tuple l k : Forall2 same_json l k -> same_json (VTuple l) (VTuple k)
| same_dict items perm items' :
    NoDup items.*1 ->
    perm ≡ₚ items ->
    Forall2 (fun a b => a.1 = b.1 /\ same_json a.2 b.2) perm items' ->
    same_json (VDict items) (VDict items').

#[export] Instance key_le_total {A} : Total (@key_le A).
Proof. intros x y. unfold key_le. apply pystr_le_total. Qed.

#[export] Instance key_le_trans {A} : Transitive (@key_le A).
Proof. intros x y z. unfold key_le. apply pystr_le_trans. Qed.

(** Sorting by distinct keys forgets the order it was given. *)
Lemma sort_keys_perm {A} (l k : list (pystr * A)) :
  NoDup l.*1 -> l ≡ₚ k -> merge_sort key_le l = merge_sort key_le k.
Proof.
  intros Hnd Hp.
  assert (Hlk : merge_sort key_le l ≡ₚ merge_sort key_le k).
  { rewrite !merge_sort_Permutation. exact Hp. }
  apply (StronglySorted_unique_strong key_le).
  - intros [x a] [y b] Hx Hy Hxy Hyx. unfold key_le in *. simpl in *.
    pose proof (pystr_le_antisym _ _ Hxy Hyx) as ->.
    rewrite <- Hlk in Hy. rewrite merge_sort_Permutation in Hx, Hy.
    f_equal. apply list_elem_of_lookup in Hx as [i Hi]. apply list_elem_of_lookup in Hy as [j Hj].
    assert (i = j) as <-.
    { eapply (NoDup_lookup l.*1 i j y Hnd); rewrite list_lookup_fmap, ?Hi, ?Hj; reflexivity. }
    congruence.
  - apply StronglySorted_merge_sort; apply _.
  - apply StronglySorted_merge_sort; apply _.
  - exact Hlk.
Qed.

Lemma json_dumps_same v w : same_json v w -> json_dumps v = json_dumps w.
Proof.
  revert w; induction v as [v Hv|l IH|l IH|items IH] using pyval_nested_ind; intros w H.
  - inversion H; subst; simpl in Hv; try contradiction. reflexivity.
  - inversion H as [|? k Hk| |]; subst; [reflexivity|]. simpl.
    replace (map json_dumps k) with (map json_dumps l); [reflexivity|].
    clear H. induction Hk; inversion IH; subst; simpl; f_equal; auto.
  - inversion H as [| |? k Hk|]; subst; [reflexivity|]. simpl.
    replace (map json_dumps k) with (map json_dumps l); [reflexivity|].
    clear H. induction Hk; inversion IH; subst; simpl; f_equal; auto.
  - inversion H as [| | |? perm items' Hnd Hp Hf]; subst; [reflexivity|]. simpl.
    set (g := fun kv : pystr * pyval => (kv.1, json_dumps kv.2)).
    assert (Hg : map g perm = map g items').
    { rewrite <- Hp in IH. clear - Hf IH.
      induction Hf as [|[x a] [y b] perm items' [E S] Hf IHf]; [reflexivity|].
      inversion IH; subst. simpl in *. subst. unfold g at 1 3. simpl.
      f_equal; [f_equal; auto | auto]. }
    rewrite <- Hg. f_equal.
    rewrite (sort_keys_perm (map g items) (map g perm)); [reflexivity| |].
    + rewrite <- list_fmap_compose. exact Hnd.
    + rewrite Hp. reflexivity.
Qed.

(** The text of a value does not depend on the order its dicts were filled. *)
Lemma canonicalize_same v w : same_json v w -> canonicalize v = canonicalize w.
Proof.
  intros H. pose proof (json_dumps_same v w H) as J.
  inversion H; subst; [reflexivity|exact J|reflexivity|exact J].
Qed.
