(* ===== verification/Transformers.v ===== *)
(** * Transformers: the value transformations and their registry

    Models [masking/transformers/]: the six transformer classes, their
    builders with the parameter checks of [params.py], and the registry.
    [hashlib], [hmac], [re] and [secrets] are library code the source only
    calls: they are the operations of [PyLib], whose documented behaviour is
    [PyLibLaws]. *)

From S2P Require Import Prelude.
From S2P Require Import Bytes.
From S2P Require Import Unicode.
From S2P Require Import Canonical.

Local Open Scope Z_scope.

(** ** The libraries the transformers call *)

Inductive hash_algorithm := MD5 | SHA256 | SHA512.

#[export] Instance hash_algorithm_eq_dec : EqDecision hash_algorithm.
Proof. solve_decision. Defined.

(** [hashlib], [hmac.new(key, data, sha256).digest()], [re.compile] (whether a
    pattern compiles), [pattern.subn] ([None] for [re.error] or [IndexError])
    and [secrets.choice], which draws from the system's entropy: the n-th draw
    below a bound. *)
Class PyLib := {
  digest : hash_algorithm -> list byte -> list byte;
  hmac_digest : list byte -> list byte -> list byte;
  re_compiles : pystr -> bool;
  re_subn : pystr -> pystr -> pystr -> option (pystr * Z);
  randbelow : nat -> Z -> Z;
}.

Definition digest_size (a : hash_algorithm) : nat :=
  match a with MD5 => 16 | SHA256 => 32 | SHA512 => 64 end.

(** The documented sizes of the digests and range of a random draw. *)
Class PyLibLaws (L : PyLib) : Prop := {
  digest_length a data : length (digest a data) = digest_size a;
  hmac_length key data : length (hmac_digest key data) = 32%nat;
  randbelow_range n bound : 0 < bound -> 0 <= randbelow n bound < bound;
}.

(** ** Configuration errors *)

(** One constructor per [raise ConfigError], with what its message cites. *)
Inductive config_error :=
| SecretParams (transformer : pystr) (names : list pystr)
| UnknownParams (transformer : pystr) (names allowed : list pystr)
| MissingParams (transformer : pystr) (names : list pystr)
| NotAnInteger (transformer name : pystr)
| BelowMinimum (transformer name : pystr) (minimum : Z)
| NotAString (transformer name : pystr)
| NotABoolean (transformer name : pystr)
| TakesNoParams (transformer : pystr)
| UnknownAlgorithm (algorithm : pystr)
| EmptyHmacKey
| MissingHmacKey
| ShortHmacKey
| HmacKeyNotEncodable
| InvalidPattern
| InvalidReplacement
| InvalidStrategy (raw : pystr)
| AmbiguousLength
| LengthRequired
| EmptyTransformerName
| AlreadyRegistered (name : pystr)
| UnknownTransformer (name : pystr) (available : list pystr).

(** A configuration mapping: parameter name to value. *)
Abbreviation config := (gmap pystr pyval).

Definition config_names (c : config) : list pystr := (map_to_list c).*1.

(** [SecretProvider.get]. *)
Abbreviation secret_provider := (pystr -> option pystr).

(** [_normalize]: an empty or blank secret is an absent one. *)
Definition normalize_secret (value : option pystr) : option pystr :=
  match value with
  | None => None
  | Some v => match strip v with [] => None | s => Some s end
  end.

(** [MappingSecretProvider]. *)
Definition mapping_secrets (values : gmap pystr pystr) : secret_provider :=
  fun name => normalize_secret (values !! name).

(** ** Parameter checks, [params.py] *)

Definition FORBIDDEN_PARAMS : list pystr :=
  map py ["key"; "keys"; "hmac_key"; "secret"; "secret_key"; "password"; "passwd";
          "token"; "salt"; "pepper"; "credential"; "credentials"].

Definition forbidden_param (name : pystr) : bool := name_in (casefold name) FORBIDDEN_PARAMS.

Definition reject_secret_params (c : config) (transformer : pystr) : res config_error unit :=
  match py_sorted (filter (fun n => forbidden_param n = true) (config_names c)) with
  | [] => Ok tt
  | found => Err (SecretParams transformer found)
  end.

Definition require_params (c : config) (transformer : pystr) (required optional : list pystr)
    : res config_error config :=
  reject_secret_params c transformer;;
  let allowed := required ++ optional in
  match py_sorted (filter (fun n => name_in n allowed = false) (config_names c)) with
  | [] =>
      match py_sorted (filter (fun n => c !! n = None) required) with
      | [] => Ok c
      | missing => Err (MissingParams transformer missing)
      end
  | unknown => Err (UnknownParams transformer unknown (py_sorted allowed))
  end.

(** [params[name]] of a parameter the checks made present. *)
Definition param (c : config) (name : pystr) : pyval := default VNone (c !! name).

Definition require_int (c : config) (name transformer : pystr) (minimum : Z) : res config_error Z :=
  match param c name with
  | VInt v => refuse_if (v <? minimum) (BelowMinimum transformer name minimum);; Ok v
  | _ => Err (NotAnInteger transformer name)
  end.

(** ** The transformers *)

Inductive random_strategy := Alphanumeric | Digits.

(** The transformer objects, each with the configuration it was built from. *)
Inductive transformer :=
| THash (algorithm : hash_algorithm)
| THmac (key : list byte)
| TRegex (pattern replacement : pystr)
| TRandom (strategy : random_strategy) (preserve_length : bool) (length : option Z)
| TFixed (value : pystr)
| TTruncate (length : Z).

(** The marker a transformer returns instead of a value it cannot transform. *)
Definition REDACTED : pystr := py "[REDACTED]".

(** What [apply] may raise: a [TransformerError] of [canonicalize], the
    [UnicodeEncodeError] of a text with a lone surrogate, the [ConfigError] of
    an undefined length. *)
Inductive transform_error :=
| Canonical (e : canonical_error)
| NotEncodable
| UndefinedLength.

(** [bytes.hex()], the text of [hexdigest()]. *)
Definition hexdigest (bs : list byte) : pystr :=
  bs ≫= fun b => [hex_digit (b2z b / 16); hex_digit (b2z b mod 16)].

Definition ascii_letters : pystr := py "abcdefghijklmnopqrstuvwxyzABCDEFGHIJKLMNOPQRSTUVWXYZ".
Definition digits : pystr := py "0123456789".

Definition alphabet (s : random_strategy) : pystr :=
  match s with Alphanumeric => ascii_letters ++ digits | Digits => digits end.

(** [_ALGORITHMS], the hash names. *)
Definition algorithm_of (name : pystr) : option hash_algorithm :=
  if bool_decide (name = py "md5") then Some MD5
  else if bool_decide (name = py "sha256") then Some SHA256
  else if bool_decide (name = py "sha512") then Some SHA512
  else None.

Definition encode_text (s : pystr) : res transform_error (list byte) :=
  match utf8_encode s with Some bs => Ok bs | None => Err NotEncodable end.

Section transformers.
Context {L : PyLib}.

(** [secrets.choice(alphabet)]; the state counts the draws made. *)
Definition choice (letters : pystr) : st nat transform_error Z := fun n =>
  (Ok (nth (Z.to_nat (randbelow n (Z.of_nat (length letters)))) letters 0), S n).

(** ["".join(choice(alphabet) for _ in range(size))]. *)
Fixpoint random_text (letters : pystr) (size : nat) : st nat transform_error pystr :=
  match size with
  | O => mret []
  | S size => c ← choice letters; rest ← random_text letters size; mret (c :: rest)
  end.

(** [transform(value)], on a non-null text. *)
Definition transform (t : transformer) (value : pystr) : st nat transform_error pystr :=
  match t with
  | THash a => bs ← lift_res (encode_text value); mret (hexdigest (digest a bs))
  | THmac key => bs ← lift_res (encode_text value); mret (hexdigest (hmac_digest key bs))
  | TRegex pattern replacement =>
      match re_subn pattern replacement value with
      | None => mret REDACTED
      | Some (result, count) => mret (if count =? 0 then REDACTED else result)
      end
  | TRandom strategy preserve len =>
      match (if preserve then Some (Z.of_nat (length value)) else len) with
      | None => raise_st UndefinedLength
      | Some size => random_text (alphabet strategy) (Z.to_nat size)
      end
  | TFixed v => mret v
  | TTruncate len => mret (take (Z.to_nat len) value)
  end.

Definition lift_canonical {A} (m : res canonical_error A) : res transform_error A :=
  match m with Ok a => Ok a | Err e => Err (Canonical e) end.

(** [apply(value)]: NULL stays NULL; anything else becomes text first. *)
Definition apply (t : transformer) (value : pyval) : st nat transform_error pyval :=
  match value with
  | VNone => mret VNone
  | _ => text ← lift_res (lift_canonical (canonicalize value));
         out ← transform t text; mret (VStr out)
  end.

(** [deterministic], the class attribute. *)
Definition deterministic (t : transformer) : bool :=
  match t with TRandom _ _ _ => false | _ => true end.

(** ** The builders *)

Abbreviation builder := (config -> secret_provider -> res config_error transformer).

Definition build_hash (algorithm : pystr) : builder := fun c _ =>
  reject_secret_params c algorithm;;
  refuse_if (bool_decide (c <> ∅)) (TakesNoParams algorithm);;
  match algorithm_of algorithm with
  | Some a => Ok (THash a)
  | None => Err (UnknownAlgorithm algorithm)
  end.

Definition HMAC_KEY_ENV : pystr := py "MASKGW_HMAC_KEY".
Definition HMAC_KEY_MIN_LENGTH : Z := 32.

Definition build_hmac_sha256 : builder := fun c secrets =>
  reject_secret_params c (py "hmac_sha256");;
  refuse_if (bool_decide (c <> ∅)) (TakesNoParams (py "hmac_sha256"));;
  match secrets HMAC_KEY_ENV with
  | None => Err MissingHmacKey
  | Some key =>
      refuse_if (Z.of_nat (length key) <? HMAC_KEY_MIN_LENGTH) ShortHmacKey;;
      match utf8_encode key with
      | None => Err HmacKeyNotEncodable
      | Some [] => Err EmptyHmacKey
      | Some bs => Ok (THmac bs)
      end
  end.

Definition build_regex : builder := fun c _ =>
  params ← require_params c (py "regex") (map py ["pattern"; "replacement"]) [];
  match param params (py "pattern") with
  | VStr raw_pattern =>
      match param params (py "replacement") with
      | VStr replacement =>
          refuse_if (negb (re_compiles raw_pattern)) InvalidPattern;;
          match re_subn raw_pattern replacement [] with
          | None => Err InvalidReplacement
          | Some _ => Ok (TRegex raw_pattern replacement)
          end
      | _ => Err (NotAString (py "regex") (py "replacement"))
      end
  | _ => Err (NotAString (py "regex") (py "pattern"))
  end.

(** [RandomStrategy(raw)]. *)
Definition strategy_of (raw : pystr) : option random_strategy :=
  if bool_decide (raw = py "alphanumeric") then Some Alphanumeric
  else if bool_decide (raw = py "digits") then Some Digits
  else None.

Definition build_random : builder := fun c _ =>
  params ← require_params c (py "random") [py "strategy"] (map py ["preserve_length"; "length"]);
  match param params (py "strategy") with
  | VStr raw =>
      match strategy_of raw with
      | None => Err (InvalidStrategy raw)
      | Some strategy =>
          match default (VBool true) (params !! py "preserve_length") with
          | VBool preserve =>
              let has_length := bool_decide (is_Some (params !! py "length")) in
              refuse_if (preserve && has_length) AmbiguousLength;;
              refuse_if (negb preserve && negb has_length) LengthRequired;;
              len ← (if has_length
                     then n ← require_int params (py "length") (py "random") 0; Ok (Some n)
                     else Ok None);
              Ok (TRandom strategy preserve len)
          | _ => Err (NotABoolean (py "random") (py "preserve_length"))
          end
      end
  | _ => Err (NotAString (py "random") (py "strategy"))
  end.

Definition build_fixed : builder := fun c _ =>
  params ← require_params c (py "fixed") [py "value"] [];
  match param params (py "value") with
  | VStr v => Ok (TFixed v)
  | _ => Err (NotAString (py "fixed") (py "value"))
  end.

(** The constructor's own check of the sign repeats the builder's. *)
Definition build_truncate : builder := fun c _ =>
  params ← require_params c (py "truncate") [py "length"] [];
  len ← require_int params (py "length") (py "truncate") 0;
  refuse_if (len <? 0) (BelowMinimum (py "truncate") (py "length") 0);;
  Ok (TTruncate len).
End transformers.

Abbreviation builder := (config -> secret_provider -> res config_error transformer).

(** ** The registry *)

Record TransformerSpec := {
  spec_name : pystr;
  required_parameters : list pystr;
  optional_parameters : list pystr;
}.

Record TransformerRegistry := {
  builders : gmap pystr builder;
  specs_of : gmap pystr TransformerSpec;
}.

Definition empty_registry : TransformerRegistry := {| builders := ∅; specs_of := ∅ |}.

Definition register (name : pystr) (b : builder) (required optional : list pystr) (replace : bool)
    (r : TransformerRegistry) : res config_error TransformerRegistry :=
  refuse_if (bool_decide (name = [])) EmptyTransformerName;;
  refuse_if (bool_decide (is_Some (builders r !! name)) && negb replace) (AlreadyRegistered name);;
  Ok {| builders := <[name := b]> (builders r);
        specs_of := <[name := {| spec_name := name; required_parameters := required;
                                 optional_parameters := optional |}]> (specs_of r) |}.

Definition available (r : TransformerRegistry) : list pystr :=
  py_sorted (map_to_list (builders r)).*1.

(** [specs()]: the catalog, in the order of [available]. *)
Definition specs (r : TransformerRegistry) : list TransformerSpec :=
  omap (fun name => specs_of r !! name) (available r).

(** [build(name, config, secrets)]; an absent or empty mapping is [{}]. *)
Definition build (r : TransformerRegistry) (name : pystr) (c : option config)
    (secrets : secret_provider) : res config_error transformer :=
  match builders r !! name with
  | None => Err (UnknownTransformer name (available r))
  | Some b => b (default ∅ c) secrets
  end.

Definition build_default_registry {L : PyLib} : res config_error TransformerRegistry :=
  r ← register (py "md5") (build_hash (py "md5")) [] [] false empty_registry;
  r ← register (py "sha256") (build_hash (py "sha256")) [] [] false r;
  r ← register (py "sha512") (build_hash (py "sha512")) [] [] false r;
  r ← register (py "hmac_sha256") build_hmac_sha256 [] [] false r;
  r ← register (py "regex") build_regex (map py ["pattern"; "replacement"]) [] false r;
  r ← register (py "random") build_random [py "strategy"]
        (map py ["preserve_length"; "length"]) false r;
  r ← register (py "fixed") build_fixed [py "value"] [] false r;
  register (py "truncate") build_truncate [py "length"] [] false r.

(** ** Parameter checks: what a successful build says of its configuration *)

Lemma config_names_spec (c : config) n : n ∈ config_names c <-> is_Some (c !! n).
Proof.
  unfold config_names. rewrite list_elem_of_fmap. split.
  - intros ([k v] & -> & H). apply elem_of_map_to_list in H. exists v. exact H.
  - intros [v H]. exists (n, v). split; [reflexivity|]. apply elem_of_map_to_list. exact H.
Qed.

Lemma py_sorted_nil l : py_sorted l = [] <-> l = [].
Proof.
  unfold py_sorted. pose proof (merge_sort_Permutation pystr_le l) as P. split; intros H.
  - rewrite H in P. apply Permutation_nil_l in P. congruence.
  - subst. reflexivity.
Qed.

Lemma filter_nil_iff {A} (P : A -> Prop) `{forall x, Decision (P x)} (l : list A) :
  filter P l = [] <-> forall x, x ∈ l -> ~ P x.
Proof.
  split.
  - intros H0 x Hx HP. assert (Hf : x ∈ filter P l) by (apply list_elem_of_filter; auto).
    rewrite H0 in Hf. inversion Hf.
  - intros H0. destruct (filter P l) as [|x k] eqn:E; [reflexivity|].
    exfalso. assert (Hx : x ∈ filter P l) by (rewrite E; left).
    apply list_elem_of_filter in Hx as [HP Hx]. exact (H0 x Hx HP).
Qed.

Lemma reject_secret_params_Ok c t u :
  reject_secret_params c t = Ok u <-> forall n, is_Some (c !! n) -> forbidden_param n = false.
Proof.
  unfold reject_secret_params. destruct u.
  destruct (py_sorted _) as [|x k] eqn:E.
  - rewrite py_sorted_nil, filter_nil_iff in E. split; [|reflexivity]. intros _ n Hn.
    destruct (forbidden_param n) eqn:F; [|reflexivity].
    exfalso. exact (E n (proj2 (config_names_spec c n) Hn) F).
  - split; [discriminate|]. intros H. exfalso.
    assert (N : py_sorted (filter (fun n => forbidden_param n = true) (config_names c)) = []);
      [|congruence].
    apply py_sorted_nil, filter_nil_iff. intros n Hn.
    apply config_names_spec, H in Hn. congruence.
Qed.

(** [require_params] accepts a mapping exactly when no name is a secret's, all
    names are declared and every required name is present. *)
Lemma require_params_Ok c t required optional p :
  require_params c t required optional = Ok p <->
  p = c /\
  (forall n, is_Some (c !! n) -> forbidden_param n = false /\ n ∈ required ++ optional) /\
  (forall n, n ∈ required -> is_Some (c !! n)).
Proof.
  unfold require_params. rewrite bind_Ok. setoid_rewrite reject_secret_params_Ok. split.
  - intros ([] & Hs & H).
    destruct (py_sorted (filter (fun n => name_in n _ = false) _)) eqn:E1; [|discriminate].
    destruct (py_sorted (filter (fun n => c !! n = None) _)) eqn:E2; [|discriminate].
    injection H as <-.
    pose proof (proj1 (py_sorted_nil _) E1) as N1. pose proof (proj1 (py_sorted_nil _) E2) as N2.
    rewrite filter_nil_iff in N1, N2. repeat split; auto.
    + specialize (N1 n (proj2 (config_names_spec c n) H)).
      unfold name_in in N1. destruct (bool_decide_reflect (n ∈ required ++ optional)); congruence.
    + intros n Hn. specialize (N2 n Hn). destruct (c !! n); [eauto | congruence].
  - intros (-> & H1 & H2). exists tt. split; [intros n Hn; apply H1; exact Hn|].
    rewrite (proj2 (py_sorted_nil _)), (proj2 (py_sorted_nil _)); [reflexivity| |].
    + apply filter_nil_iff. intros n Hn. destruct (H2 n Hn) as [v ->]. discriminate.
    + apply filter_nil_iff. intros n Hn. apply config_names_spec, H1 in Hn as [_ Hn].
      unfold name_in. rewrite bool_decide_eq_true_2 by exact Hn. discriminate.
Qed.

(** What the catalog promises of a configuration a builder accepts. *)
Definition declared (spec : TransformerSpec) (c : config) : Prop :=
  (forall n, is_Some (c !! n) ->
     forbidden_param n = false /\ n ∈ required_parameters spec ++ optional_parameters spec) /\
  (forall n, n ∈ required_parameters spec -> is_Some (c !! n)).

Section builder_lemmas.
Context {L : PyLib}.

Lemma build_hash_declared a c secrets t name :
  build_hash a c secrets = Ok t -> declared {| spec_name := name; required_parameters := [];
                                                optional_parameters := [] |} c.
Proof.
  unfold build_hash. intros H. inv_ok.
  apply bool_decide_eq_false in H1. split; simpl; [|set_solver].
  intros n [v Hn]. exfalso. apply H1. intros ->. rewrite lookup_empty in Hn. discriminate.
Qed.

Lemma build_hmac_declared c secrets t name :
  build_hmac_sha256 c secrets = Ok t ->
  declared {| spec_name := name; required_parameters := []; optional_parameters := [] |} c.
Proof.
  unfold build_hmac_sha256. intros H. inv_ok.
  apply bool_decide_eq_false in H1. split; simpl; [|set_solver].
  intros n [v Hn]. exfalso. apply H1. intros ->. rewrite lookup_empty in Hn. discriminate.
Qed.

Lemma require_params_declared c t required optional p name :
  require_params c t required optional = Ok p ->
  declared {| spec_name := name; required_parameters := required;
              optional_parameters := optional |} c.
Proof. rewrite require_params_Ok. intros (_ & H1 & H2). split; [exact H1 | exact H2]. Qed.

Lemma build_regex_declared c secrets t name :
  build_regex c secrets = Ok t ->
  declared {| spec_name := name; required_parameters := map py ["pattern"; "replacement"];
              optional_parameters := [] |} c.
Proof. unfold build_regex. intros H. apply bind_Ok in H as (p & H & _).
  eapply require_params_declared; exact H. Qed.

Lemma build_random_declared c secrets t name :
  build_random c secrets = Ok t ->
  declared {| spec_name := name; required_parameters := [py "strategy"];
              optional_parameters := map py ["preserve_length"; "length"] |} c.
Proof. unfold build_random. intros H. apply bind_Ok in H as (p & H & _).
  eapply require_params_declared; exact H. Qed.

Lemma build_fixed_declared c secrets t name :
  build_fixed c secrets = Ok t ->
  declared {| spec_name := name; required_parameters := [py "value"];
              optional_parameters := [] |} c.
Proof. unfold build_fixed. intros H. apply bind_Ok in H as (p & H & _).
  eapply require_params_declared; exact H. Qed.

Lemma build_truncate_declared c secrets t name :
  build_truncate c secrets = Ok t ->
  declared {| spec_name := name; required_parameters := [py "length"];
              optional_parameters := [] |} c.
Proof. unfold build_truncate. intros H. apply bind_Ok in H as (p & H & _).
  eapply require_params_declared; exact H. Qed.
End builder_lemmas.

#[export] Hint Resolve build_hash_declared build_hmac_declared build_regex_declared
  build_random_declared build_fixed_declared build_truncate_declared : core.

(** ** The default catalog *)

Section catalog.
Context {L : PyLib}.

(** The registry the sequence of [register] calls leaves behind. *)
Definition default_entries : list (pystr * (builder * list pystr * list pystr)) :=
  [ (py "truncate", (build_truncate, [py "length"], []));
    (py "fixed", (build_fixed, [py "value"], []));
    (py "random", (build_random, [py "strategy"], map py ["preserve_length"; "length"]));
    (py "regex", (build_regex, map py ["pattern"; "replacement"], []));
    (py "hmac_sha256", (build_hmac_sha256, [], []));
    (py "sha512", (build_hash (py "sha512"), [], []));
    (py "sha256", (build_hash (py "sha256"), [], []));
    (py "md5", (build_hash (py "md5"), [], [])) ].

Definition entry_spec (e : pystr * (builder * list pystr * list pystr)) : TransformerSpec :=
  {| spec_name := e.1; required_parameters := e.2.1.2; optional_parameters := e.2.2 |}.

Definition default_registry : TransformerRegistry :=
  {| builders := foldr (fun e m => <[e.1 := e.2.1.1]> m) ∅ default_entries;
     specs_of := foldr (fun e m => <[e.1 := entry_spec e]> m) ∅ default_entries |}.

Lemma register_fresh name b required optional r :
  name <> [] -> builders r !! name = None ->
  register name b required optional false r =
  Ok {| builders := <[name := b]> (builders r);
        specs_of := <[name := {| spec_name := name; required_parameters := required;
                                 optional_parameters := optional |}]> (specs_of r) |}.
Proof.
  intros Hn Hf. unfold register. rewrite (bool_decide_eq_false_2 (name = [])) by exact Hn.
  rewrite Hf, (bool_decide_eq_false_2 (is_Some None)) by (intros [? [=]]). reflexivity.
Qed.

Lemma build_default_registry_eq : build_default_registry = Ok default_registry.
Proof.
  unfold build_default_registry.
  repeat (rewrite register_fresh;
    [ cbn [mbind res_bind builders specs_of empty_registry]
    | vm_compute; discriminate
    | cbn [builders empty_registry]; rewrite ?lookup_insert_ne
        by (apply (bool_decide_eq_false_1 (_ = _)); vm_compute; reflexivity);
      apply lookup_empty ]).
  reflexivity.
Qed.

Lemma available_default :
  available default_registry =
  map py ["fixed"; "hmac_sha256"; "md5"; "random"; "regex"; "sha256"; "sha512"; "truncate"].
Proof. vm_compute. reflexivity. Qed.

(** Every entry's builder accepts only what its declaration lists. *)
Lemma default_entries_declared e c secrets t :
  e ∈ default_entries -> e.2.1.1 c secrets = Ok t -> declared (entry_spec e) c.
Proof.
  unfold default_entries, entry_spec. rewrite !elem_of_cons, elem_of_nil.
  intros H. repeat (destruct H as [->|H]; [simpl; eauto|]). contradiction.
Qed.

Lemma lookup_entries {A} (f : pystr * (builder * list pystr * list pystr) -> A) es name x :
  foldr (fun e (m : gmap pystr A) => <[e.1 := f e]> m) ∅ es !! name = Some x ->
  exists pre e post, es = pre ++ e :: post /\ e.1 = name /\ x = f e /\
    Forall (fun e' => e'.1 <> name) pre.
Proof.
  induction es as [|e es IH]; simpl; [rewrite lookup_empty; discriminate|].
  rewrite lookup_insert. case_decide as E.
  - intros [= <-]. exists [], e, es. auto.
  - intros H. destruct (IH H) as (pre & e' & post & -> & E' & Hx & Hp).
    exists (e :: pre), e', post. repeat split; auto.
Qed.

Lemma lookup_entries_miss {A} (f : pystr * (builder * list pystr * list pystr) -> A) pre e post :
  Forall (fun e' => e'.1 <> e.1) pre ->
  foldr (fun e (m : gmap pystr A) => <[e.1 := f e]> m) ∅ (pre ++ e :: post) !! e.1 = Some (f e).
Proof.
  induction 1 as [|e' pre Hne _ IH]; simpl; [apply lookup_insert_eq|].
  rewrite lookup_insert_ne by exact Hne. exact IH.
Qed.
End catalog.

(** ** Outputs *)

Definition hex_char (c : Z) : Prop := 48 <= c <= 57 \/ 97 <= c <= 102.

Lemma hexdigest_length bs : length (hexdigest bs) = (2 * length bs)%nat.
Proof. unfold hexdigest. induction bs as [|b bs IH]; [reflexivity|]. cbn in *. lia. Qed.

Lemma hex_digit_char n : 0 <= n < 16 -> hex_char (hex_digit n).
Proof. intros. unfold hex_char, hex_digit. destruct (Z.ltb_spec n 10); lia. Qed.

Lemma hexdigest_chars bs : Forall hex_char (hexdigest bs).
Proof.
  unfold hexdigest. induction bs as [|b bs IH]; cbn; [constructor|].
  pose proof (b2z_range b).
  constructor; [apply hex_digit_char; Z.to_euclidean_division_equations; lia|].
  constructor; [apply hex_digit_char; Z.to_euclidean_division_equations; lia|]. exact IH.
Qed.

(** The promise of each transformer about its text. *)
Definition output_of (L : PyLib) (t : transformer) (text out : pystr) : Prop :=
  match t with
  | THash a => length out = (2 * digest_size a)%nat /\ Forall hex_char out
  | THmac _ => length out = 64%nat /\ Forall hex_char out
  | TFixed v => out = v
  | TTruncate n => exists rest, text = out ++ rest /\ Z.of_nat (length out) <= Z.max 0 n
  | TRegex p r =>
      match re_subn p r text with
      | Some (s, count) => if count =? 0 then out = REDACTED else out = s
      | None => out = REDACTED
      end
  | TRandom s preserve n =>
      length out = (if preserve then length text else Z.to_nat (default 0 n)) /\
      Forall (fun c => c ∈ alphabet s) out
  end.

Section outputs.
Context {L : PyLib} `{!PyLibLaws L}.

Lemma random_text_spec letters size n out n' :
  letters <> [] -> random_text letters size n = (Ok out, n') ->
  length out = size /\ Forall (fun c => c ∈ letters) out /\ n' = (n + size)%nat.
Proof.
  intros Hne. revert n out n'. induction size as [|size IH]; intros n out n'; cbn [random_text].
  - intros [= <- <-]. auto.
  - intros H. apply st_bind_Ok in H as (c & n1 & [= <- <-] & H).
    apply st_bind_Ok in H as (rest & n2 & Hr & [= <- <-]).
    apply IH in Hr as (Hl & Hf & ->). repeat split; [simpl; congruence| |lia].
    constructor; [|exact Hf].
    assert (Hb : 0 <= randbelow n (Z.of_nat (length letters)) < Z.of_nat (length letters)).
    { apply randbelow_range. destruct letters; [congruence | simpl; lia]. }
    rewrite list_elem_of_In. apply nth_In. lia.
Qed.

Lemma transform_output t text n out n' :
  transform t text n = (Ok out, n') -> output_of L t text out.
Proof.
  destruct t as [a|key|p r|s preserve len|v|len]; cbn [transform output_of].
  - intros H. apply st_bind_Ok in H as (bs & n1 & _ & [= <- _]).
    rewrite hexdigest_length, digest_length. split; [reflexivity | apply hexdigest_chars].
  - intros H. apply st_bind_Ok in H as (bs & n1 & _ & [= <- _]).
    rewrite hexdigest_length, hmac_length. split; [reflexivity | apply hexdigest_chars].
  - destruct (re_subn p r text) as [[s count]|]; [|intros [= <- _]; reflexivity].
    destruct (count =? 0); intros [= <- _]; reflexivity.
  - assert (Ha : alphabet s <> []) by (destruct s; discriminate).
    destruct preserve; [|destruct len as [len|]; [|discriminate]]; intros H;
      apply random_text_spec in H as (Hl & Hf & _); auto.
    rewrite Nat2Z.id in Hl. auto.
  - intros [= <- _]. reflexivity.
  - intros [= <- _]. exists (drop (Z.to_nat len) text). rewrite take_drop.
    split; [reflexivity|]. rewrite length_take. lia.
Qed.

(** A deterministic transformer draws no entropy and ignores how much was
    drawn before. *)
Lemma transform_deterministic t text :
  deterministic t = true -> exists r, forall n, transform t text n = (r, n).
Proof.
  destruct t as [a|key|p r|s preserve len|v|len]; intros H; try discriminate;
    cbn [transform].
  - destruct (encode_text text) as [bs|e] eqn:E;
      [exists (Ok (hexdigest (digest a bs))) | exists (Err e)];
      intros n; reflexivity.
  - destruct (encode_text text) as [bs|e] eqn:E;
      [exists (Ok (hexdigest (hmac_digest key bs))) | exists (Err e)];
      intros n; reflexivity.
  - destruct (re_subn p r text) as [[s count]|]; eexists; intros n; reflexivity.
  - eexists; intros n; reflexivity.
  - eexists; intros n; reflexivity.
Qed.

Lemma apply_null t n : apply t VNone n = (Ok VNone, n).
Proof. reflexivity. Qed.

Lemma apply_nonnull t v n : v <> VNone ->
  apply t v n =
  (text ← lift_res (lift_canonical (canonicalize v));
   out ← transform t text; mret (VStr out)) n.
Proof. destruct v; try reflexivity. congruence. Qed.

(** A value that leaves a transformer is text of the promised form. *)
Lemma apply_output t v n w n' :
  v <> VNone -> apply t v n = (Ok w, n') ->
  exists text out, canonicalize v = Ok text /\ w = VStr out /\ output_of L t text out.
Proof.
  intros Hv. rewrite apply_nonnull by exact Hv. intros H.
  apply st_bind_Ok in H as (text & n1 & Hc & H).
  apply st_bind_Ok in H as (out & n2 & Ht & [= <- <-]).
  unfold lift_res, lift_canonical in Hc. destruct (canonicalize v) as [s|]; [|discriminate].
  injection Hc as <- <-. exists s, out. split; [reflexivity|]. split; [reflexivity|].
  eapply transform_output. exact Ht.
Qed.
End outputs.

Section catalog_properties.
Context {L : PyLib}.

Lemma build_default_declared name c secrets t :
  build default_registry name (Some c) secrets = Ok t ->
  exists e, e ∈ default_entries /\ e.1 = name /\ declared (entry_spec e) c /\
    specs_of default_registry !! name = Some (entry_spec e).
Proof.
  unfold build. destruct (builders default_registry !! name) as [b|] eqn:B; [|discriminate].
  cbn [default]. intros H.
  destruct (lookup_entries _ _ _ _ B) as (pre & e & post & E & <- & -> & Hp).
  assert (He : e ∈ default_entries) by (rewrite E; set_solver).
  exists e. split; [exact He|]. split; [reflexivity|].
  split; [eapply default_entries_declared; eassumption|].
  unfold default_registry; cbn [specs_of]. rewrite E. apply lookup_entries_miss. exact Hp.
Qed.

Lemma specs_default : map spec_name (specs default_registry) = available default_registry.
Proof. vm_compute. reflexivity. Qed.
End catalog_properties.

(** ** Properties *)

(** The default catalog registers exactly the eight documented
    transformers, publishes one specification per transformer in sorted order,
    and the published specification is the contract its builder enforces: a
    configuration that builds a transformer has all required parameters, no
    undeclared one, and none whose name is that of a secret. *)
Theorem default_catalog {L : PyLib} :
  exists r, build_default_registry = Ok r /\
    available r = map py ["fixed"; "hmac_sha256"; "md5"; "random"; "regex"; "sha256"; "sha512";
                          "truncate"] /\
    map spec_name (specs r) = available r /\
    forall name c secrets t, build r name (Some c) secrets = Ok t ->
      exists spec, specs_of r !! name = Some spec /\ spec_name spec = name /\ declared spec c.
Proof.
  exists default_registry. split; [apply build_default_registry_eq|].
  split; [apply available_default|]. split; [apply specs_default|].
  intros name c secrets t H. destruct (build_default_declared _ _ _ _ H) as (e & _ & <- & D & S).
  exists (entry_spec e). auto.
Qed.

(** Masking by a deterministic transformer is a function of the value
    alone: it draws no entropy, ignores what was drawn before, and gives two
    JSON values that differ only in the insertion order of their dicts, at any
    depth, the same pseudonym or the same error. *)
Theorem apply_deterministic {L : PyLib} t v w :
  deterministic t = true -> same_json v w ->
  exists r, forall n m, apply t v n = (r, n) /\ apply t w m = (r, m).
Proof.
  intros Hd Hs. pose proof (canonicalize_same v w Hs) as Hc.
  assert (N : v = VNone <-> w = VNone) by (inversion Hs; subst; split; congruence).
  destruct (null_or_value v) as [->|Hv].
  { rewrite (proj1 N eq_refl). exists (Ok VNone). auto. }
  assert (Hw : w <> VNone) by tauto.
  destruct (canonicalize v) as [text|e] eqn:E.
  - destruct (transform_deterministic t text Hd) as [r Hr].
    exists (match r with Ok out => Ok (VStr out) | Err e => Err e end). intros n m.
    rewrite !apply_nonnull by assumption. rewrite <- Hc, E.
    unfold mbind, st_bind, lift_res, lift_canonical. rewrite !Hr. destruct r; auto.
  - exists (Err (Canonical e)). intros n m. rewrite !apply_nonnull by assumption.
    rewrite <- Hc, E. auto.
Qed.

(** ** A concrete library *)

(** Toy digests of the documented sizes: the data, padded or cut. *)
Definition sample_digest (size : nat) (data : list byte) : list byte :=
  take size (data ++ replicate size Byte.x00).

Definition sample_lib : PyLib :=
  {| digest a data := sample_digest (digest_size a) data;
     hmac_digest key data := sample_digest 32 (key ++ data);
     re_compiles _ := true;
     re_subn p r s := Some (if bool_decide (s = p) then (r, 1) else (s, 0));
     randbelow n bound := Z.of_nat n mod bound |}.

#[export] Instance sample_laws : PyLibLaws sample_lib.
Proof.
  assert (H : forall size data, length (sample_digest size data) = size).
  { intros. unfold sample_digest. rewrite length_take, length_app, length_replicate. lia. }
  split; intros; [apply H | apply H | apply Z.mod_pos_bound; assumption].
Qed.

Lemma apply_deterministic_witness :
  exists r, @apply sample_lib (THash SHA256) (VDict [(py "b", VInt 1); (py "a", VNone)]) 0%nat = (r, 0%nat)
         /\ @apply sample_lib (THash SHA256) (VDict [(py "a", VNone); (py "b", VInt 1)]) 7%nat = (r, 7%nat).
Proof.
  destruct (@apply_deterministic sample_lib (THash SHA256)
              (VDict [(py "b", VInt 1); (py "a", VNone)]) (VDict [(py "a", VNone); (py "b", VInt 1)])
              eq_refl) as [r H].
  - apply (same_dict _ [(py "a", VNone); (py "b", VInt 1)]).
    + apply (bool_decide_eq_true_1 (NoDup _)). vm_compute. reflexivity.
    + apply Permutation_swap.
    + repeat constructor.
  - exists r. exact (H 0%nat 7%nat).
Defined.
