(* ===== verification/Masking.v ===== *)
(** * Masking: column descriptors, rules, matchers and the Masking Engine

    Models [masking/rules.py], [descriptor.py], [matcher.py] and [engine.py].
    The engine decides each column once (derived rule, then exception by the
    authoritative name, then first matching rule, then allow) and applies the
    rule's transformer to the column's values. *)

From S2P Require Import Prelude.
From S2P Require Import Bytes.
From S2P Require Import Unicode.
From S2P Require Import Canonical.
From S2P Require Import Transformers.

Local Open Scope Z_scope.

(** ** Rules and policy, [rules.py] *)

Inductive MatchMode := CONTAINS | EXACT.

Record MatchSpec := {
  pattern : pystr;
  mode : MatchMode;
  case_sensitive : bool;
}.

(** [MatchSpec.matches]: [None] never matches. *)
Definition matches (spec : MatchSpec) (name : option pystr) : bool :=
  match name with
  | None => false
  | Some name =>
      let needle := if case_sensitive spec then pattern spec else casefold (pattern spec) in
      let haystack := if case_sensitive spec then name else casefold name in
      match mode spec with
      | EXACT => bool_decide (haystack = needle)
      | CONTAINS => contains needle haystack
      end
  end.

Record MaskingRule := {
  rule_spec : MatchSpec;
  rule_transformer : transformer;
  rule_transformer_name : pystr;
  rule_index : Z;
}.

Record MaskingException := {
  exception_spec : MatchSpec;
  exception_index : Z;
}.

Record MaskingPolicy := {
  exceptions : list MaskingException;
  rules : list MaskingRule;
}.

(** ** Column descriptors, [descriptor.py] *)

Inductive ProvenanceKind := DIRECT | VIEW | DERIVED | UNKNOWN.

Record ColumnDescriptor := {
  output_name : pystr;
  origin_name : option pystr;
  origin_schema : option pystr;
  origin_table : option pystr;
  provenance_kind : ProvenanceKind;
  derived_rule_index : option Z;
}.

(** [names]: what the matching reads, without duplicates and without None. *)
Definition names (c : ColumnDescriptor) : list pystr :=
  match origin_name c with
  | None => [output_name c]
  | Some o => if bool_decide (o = output_name c) then [output_name c] else [output_name c; o]
  end.

(** [part for part in parts if part]: absent and empty parts are skipped. *)
Definition present_parts (parts : list (option pystr)) : list pystr :=
  filter (fun p => p <> []) (omap id parts).

Fixpoint join_dot (parts : list pystr) : pystr :=
  match parts with
  | [] => []
  | [p] => p
  | p :: rest => p ++ 46 :: join_dot rest
  end.

Definition qualified_origin (c : ColumnDescriptor) : option pystr :=
  match origin_name c with
  | None => None
  | Some _ => Some (join_dot (present_parts [origin_schema c; origin_table c; origin_name c]))
  end.

(** [column.origin_name or column.output_name]: an empty origin counts as none. *)
Definition authoritative (c : ColumnDescriptor) : pystr :=
  match origin_name c with
  | None | Some [] => output_name c
  | Some o => o
  end.

(** ** Matchers, [matcher.py] *)

Definition spec_matches_column (spec : MatchSpec) (c : ColumnDescriptor) : bool :=
  existsb (fun name => matches spec (Some name)) (names c).

(** [ExceptionMatcher.find] and [find_by_name]. *)
Definition exception_find (es : list MaskingException) (c : ColumnDescriptor)
    : option MaskingException :=
  List.find (fun e => spec_matches_column (exception_spec e) c) es.

Definition find_by_name (es : list MaskingException) (name : pystr) : option MaskingException :=
  List.find (fun e => matches (exception_spec e) (Some name)) es.

(** [RuleMatcher.find]: the first rule of the file wins. *)
Definition rule_find (rs : list MaskingRule) (c : ColumnDescriptor) : option MaskingRule :=
  List.find (fun r => spec_matches_column (rule_spec r) c) rs.

(** ** The engine, [engine.py] *)

Inductive Action := EXCEPTION | MASK | ALLOW.

#[export] Instance Action_eq_dec : EqDecision Action.
Proof. solve_decision. Defined.

Record Decision_ := {
  action : Action;
  decided_output : pystr;
  decided_origin : option pystr;
  decided_rule : option Z;
  transformer_name : option pystr;
}.

(** [_derived_rule]: the rule the AST analysis proved for this position. *)
Definition derived_rule (p : MaskingPolicy) (c : ColumnDescriptor) : option MaskingRule :=
  match derived_rule_index c with
  | None => None
  | Some i =>
      if negb ((0 <=? i) && (i <? Z.of_nat (length (rules p)))) then None
      else rules p !! Z.to_nat i
  end.

Definition decision_of (c : ColumnDescriptor) (a : Action) (index : option Z)
    (tname : option pystr) : Decision_ :=
  {| action := a; decided_output := output_name c; decided_origin := origin_name c;
     decided_rule := index; transformer_name := tname |}.

(** [_resolve]: the column's outcome and the transformer, if any. *)
Definition resolve (p : MaskingPolicy) (c : ColumnDescriptor) : Decision_ * option transformer :=
  match derived_rule p c with
  | Some r =>
      (decision_of c MASK (Some (rule_index r)) (Some (rule_transformer_name r)),
       Some (rule_transformer r))
  | None =>
      match find_by_name (exceptions p) (authoritative c) with
      | Some e => (decision_of c EXCEPTION (Some (exception_index e)) None, None)
      | None =>
          match rule_find (rules p) c with
          | Some r =>
              (decision_of c MASK (Some (rule_index r)) (Some (rule_transformer_name r)),
               Some (rule_transformer r))
          | None => (decision_of c ALLOW None None, None)
          end
      end
  end.

Definition decide_column (p : MaskingPolicy) (c : ColumnDescriptor) : Decision_ := (resolve p c).1.

(** [ValueError] of [_check_arity], by its two counts, or the transformer's error. *)
Inductive engine_error :=
| Arity (values columns : nat)
| TransformFailed (e : transform_error).

Section engine.
Context {L : PyLib}.

Definition lift_transform {A} (m : st nat transform_error A) : st nat engine_error A := fun n =>
  match m n with
  | (Ok a, n) => (Ok a, n)
  | (Err e, n) => (Err (TransformFailed e), n)
  end.

Definition mask_value (p : MaskingPolicy) (c : ColumnDescriptor) (v : pyval)
    : st nat engine_error pyval :=
  match v with
  | VNone => mret VNone
  | _ =>
      match (resolve p c).2 with
      | None => mret v
      | Some t => lift_transform (apply t v)
      end
  end.

Definition check_arity (columns : list ColumnDescriptor) (row : list pyval)
    : st nat engine_error unit :=
  guard_st (negb (length columns =? length row)%nat) (Arity (length row) (length columns)).

Definition mask_row (p : MaskingPolicy) (columns : list ColumnDescriptor) (row : list pyval)
    : st nat engine_error (list pyval) :=
  check_arity columns row;;
  mapM_st (fun cv => mask_value p cv.1 cv.2) (zip columns row).

(** One cell of [mask_rows], from the transformer resolved for its column. *)
Definition mask_cell (t : option transformer) (v : pyval) : st nat engine_error pyval :=
  match v, t with
  | VNone, _ | _, None => mret v
  | _, Some t => lift_transform (apply t v)
  end.

(** [mask_rows]: the matching is resolved once for all rows. *)
Definition mask_rows (p : MaskingPolicy) (columns : list ColumnDescriptor)
    (rows : list (list pyval)) : st nat engine_error (list (list pyval)) :=
  let transformers := map (fun c => (resolve p c).2) columns in
  mapM_st (fun row =>
    check_arity columns row;;
    mapM_st (fun tv => mask_cell tv.1 tv.2) (zip transformers row)) rows.
End engine.

(** ** Matching lemmas *)

Lemma names_spec c n : n ∈ names c <-> n = output_name c \/ origin_name c = Some n.
Proof.
  unfold names. destruct (origin_name c) as [o|].
  - case_bool_decide as E; set_solver.
  - set_solver.
Qed.

Lemma spec_matches_column_spec s c :
  spec_matches_column s c = true <->
  matches s (Some (output_name c)) = true \/
  (exists o, origin_name c = Some o /\ matches s (Some o) = true).
Proof.
  unfold spec_matches_column. rewrite existsb_exists. split.
  - intros (n & Hn & H). rewrite <- list_elem_of_In, names_spec in Hn.
    destruct Hn as [->|Hn]; eauto.
  - intros [H|(o & Ho & H)]; [exists (output_name c) | exists o]; split; auto;
      rewrite <- list_elem_of_In, names_spec; auto.
Qed.

Lemma find_none_iff {A} (f : A -> bool) l :
  List.find f l = None <-> forall x, x ∈ l -> f x = false.
Proof.
  split.
  - intros H x Hx. rewrite list_elem_of_In in Hx. exact (List.find_none f l H x Hx).
  - intros H. destruct (List.find f l) as [x|] eqn:E; [|reflexivity].
    apply List.find_some in E as [Hx Hf]. rewrite <- list_elem_of_In in Hx.
    rewrite (H x Hx) in Hf. discriminate.
Qed.

(** [find] returns the first element that passes. *)
Lemma find_some_iff {A} (f : A -> bool) l x :
  List.find f l = Some x <->
  exists pre post, l = pre ++ x :: post /\ f x = true /\ forall y, y ∈ pre -> f y = false.
Proof.
  split.
  - induction l as [|y l IH]; simpl; [discriminate|].
    destruct (f y) eqn:E.
    + intros [= <-]. exists [], l. repeat split; auto. intros z Hz. inversion Hz.
    + intros H. destruct (IH H) as (pre & post & -> & Hx & Hp).
      exists (y :: pre), post. repeat split; auto. set_solver.
  - intros (pre & post & -> & Hx & Hp). induction pre as [|y pre IH]; simpl.
    + rewrite Hx. reflexivity.
    + rewrite (Hp y) by set_solver. apply IH. set_solver.
Qed.

Lemma derived_rule_lookup p c r :
  derived_rule p c = Some r ->
  exists i, derived_rule_index c = Some i /\ 0 <= i < Z.of_nat (length (rules p)) /\
    rules p !! Z.to_nat i = Some r.
Proof.
  unfold derived_rule. destruct (derived_rule_index c) as [i|]; [|discriminate].
  destruct (Z.leb_spec 0 i), (Z.ltb_spec i (Z.of_nat (length (rules p)))); simpl;
    try discriminate. intros H1. exists i. repeat split; auto; lia.
Qed.

(** The four outcomes of a column, as one case analysis. *)
Inductive outcome (p : MaskingPolicy) (c : ColumnDescriptor)
  : Decision_ * option transformer -> Prop :=
| by_derivation r : derived_rule p c = Some r ->
    outcome p c (decision_of c MASK (Some (rule_index r)) (Some (rule_transformer_name r)),
                 Some (rule_transformer r))
| by_exception e : derived_rule p c = None ->
    find_by_name (exceptions p) (authoritative c) = Some e ->
    outcome p c (decision_of c EXCEPTION (Some (exception_index e)) None, None)
| by_rule r : derived_rule p c = None ->
    find_by_name (exceptions p) (authoritative c) = None ->
    rule_find (rules p) c = Some r ->
    outcome p c (decision_of c MASK (Some (rule_index r)) (Some (rule_transformer_name r)),
                 Some (rule_transformer r))
| by_default : derived_rule p c = None ->
    find_by_name (exceptions p) (authoritative c) = None ->
    rule_find (rules p) c = None ->
    outcome p c (decision_of c ALLOW None None, None).

Lemma resolve_outcome p c : outcome p c (resolve p c).
Proof.
  unfold resolve. destruct (derived_rule p c) eqn:D; [constructor; assumption|].
  destruct (find_by_name _ _) eqn:F; [constructor; assumption|].
  destruct (rule_find _ _) eqn:R; constructor; assumption.
Qed.

(** A transformer is resolved exactly for the columns decided [MASK]. *)
Lemma resolve_mask_iff p c :
  action (decide_column p c) = MASK <-> is_Some (resolve p c).2.
Proof.
  unfold decide_column. destruct (resolve_outcome p c); simpl; split;
    try discriminate; eauto; intros [? [=]].
Qed.

(** The transformer resolved belongs to a rule of the policy. *)
Lemma resolve_transformer p c t :
  (resolve p c).2 = Some t ->
  exists r, r ∈ rules p /\ rule_transformer r = t /\
    decided_rule (decide_column p c) = Some (rule_index r).
Proof.
  unfold decide_column. destruct (resolve_outcome p c) as [r Hr| |r _ _ Hr|]; simpl;
    try discriminate; intros [= <-]; exists r; split; auto.
  - destruct (derived_rule_lookup _ _ _ Hr) as (i & _ & _ & Hi).
    eapply list_elem_of_lookup_2; exact Hi.
  - apply List.find_some in Hr as [Hr _]. apply list_elem_of_In. exact Hr.
Qed.

(** ** The engine's cells *)

Section engine_lemmas.
Context {L : PyLib}.

Lemma mask_value_cell p c v n : mask_value p c v n = mask_cell (resolve p c).2 v n.
Proof. destruct v; reflexivity. Qed.

Lemma lift_transform_Ok {A} (m : st nat transform_error A) n a n' :
  lift_transform m n = (Ok a, n') <-> m n = (Ok a, n').
Proof.
  unfold lift_transform. destruct (m n) as [[b|e] n1]; split; intros [=]; congruence.
Qed.

(** What the engine owes a cell [v] of column [c]: NULL stays NULL, a column
    not decided MASK keeps its value, and a masked value is text of the form
    its rule's transformer promises. *)
Definition cell_ok (p : MaskingPolicy) (c : ColumnDescriptor) (v w : pyval) : Prop :=
  match v with
  | VNone => w = VNone
  | _ =>
      if decide (action (decide_column p c) = MASK) then
        exists r text out,
          r ∈ rules p /\ decided_rule (decide_column p c) = Some (rule_index r) /\
          canonicalize v = Ok text /\ w = VStr out /\
          output_of L (rule_transformer r) text out
      else w = v
  end.

Lemma mask_value_ok `{!PyLibLaws L} p c v n w n' :
  mask_value p c v n = (Ok w, n') -> cell_ok p c v w.
Proof.
  intros H. destruct (null_or_value v) as [->|Hv].
  { injection H as <- _. reflexivity. }
  assert (Hcell : cell_ok p c v w <->
    if decide (action (decide_column p c) = MASK) then
      exists r text out,
        r ∈ rules p /\ decided_rule (decide_column p c) = Some (rule_index r) /\
        canonicalize v = Ok text /\ w = VStr out /\ output_of L (rule_transformer r) text out
    else w = v) by (destruct v; try congruence; reflexivity).
  assert (Hm : mask_value p c v n =
    match (resolve p c).2 with None => (Ok v, n) | Some t => lift_transform (apply t v) n end)
    by (destruct v; try congruence; simpl; destruct (resolve p c).2; reflexivity).
  rewrite Hcell. rewrite Hm in H. case_decide as D.
  - apply resolve_mask_iff in D as [t Ht]. rewrite Ht in H.
    destruct (resolve_transformer _ _ _ Ht) as (r & Hr & <- & Hi).
    apply lift_transform_Ok, apply_output in H as (text & out & ? & ? & ?); [|exact Hv].
    exists r, text, out. auto.
  - rewrite resolve_mask_iff in D. destruct (resolve p c).2 as [t|]; [|congruence].
    exfalso. apply D. eauto.
Qed.

Lemma check_arity_Ok cols row n u n' :
  check_arity cols row n = (Ok u, n') <-> length row = length cols /\ n' = n.
Proof.
  unfold check_arity. rewrite guard_st_Ok, negb_false_iff, Nat.eqb_eq. split; intros []; auto.
Qed.

Lemma mask_row_ok `{!PyLibLaws L} p cols row n out n' :
  mask_row p cols row n = (Ok out, n') ->
  length row = length cols /\ length out = length cols /\
  forall j c v, cols !! j = Some c -> row !! j = Some v ->
    exists w, out !! j = Some w /\ cell_ok p c v w.
Proof.
  unfold mask_row. intros H. apply st_bind_Ok in H as ([] & n1 & Ha & H).
  apply check_arity_Ok in Ha as [Hl ->]. split; [exact Hl|]. split.
  - apply mapM_st_length in H. rewrite H, length_zip_with. lia.
  - intros j c v Hc Hv. pose proof (zip_lookup _ _ _ _ _ Hc Hv) as Hz.
    destruct (mapM_st_lookup _ _ _ _ _ _ _ H Hz) as (w & n2 & n3 & Hw & Hf).
    exists w. split; [exact Hw|]. eapply mask_value_ok. exact Hf.
Qed.

Lemma mask_rows_as_rows p cols rows n :
  mask_rows p cols rows n = mapM_st (mask_row p cols) rows n.
Proof.
  unfold mask_rows, mask_row. apply mapM_st_ext. intros row s.
  apply st_bind_ext; [reflexivity|]. intros _ s'.
  rewrite zip_map_l, mapM_st_map. apply mapM_st_ext. intros [c v] s''. simpl.
  symmetry. apply mask_value_cell.
Qed.
End engine_lemmas.

(** A column as the client may rename it. *)
Definition with_alias (c : ColumnDescriptor) (alias : pystr) : ColumnDescriptor :=
  {| output_name := alias; origin_name := origin_name c; origin_schema := origin_schema c;
     origin_table := origin_table c; provenance_kind := provenance_kind c;
     derived_rule_index := derived_rule_index c |}.

(** The alias can only add matching rules. *)
Lemma rule_find_alias rs c o alias :
  origin_name c = Some o -> rule_find rs (with_alias c alias) = None ->
  rule_find rs (with_alias c o) = None.
Proof.
  intros Ho. unfold rule_find. rewrite !find_none_iff. intros H r Hr. specialize (H r Hr).
  apply not_true_iff_false in H. apply not_true_iff_false. intros M. apply H.
  rewrite spec_matches_column_spec in *. simpl in *.
  destruct M as [M|M]; [right; exists o; auto | right; exact M].
Qed.

(** ** Properties *)

(** [mask_rows], which resolves the matching once per result set, returns
    exactly what masking the rows one by one returns, and stops at the same
    error with the same entropy drawn. *)
Theorem mask_rows_equiv {L : PyLib} p cols rows n :
  mask_rows p cols rows n = mapM_st (mask_row p cols) rows n.
Proof. apply mask_rows_as_rows. Qed.

(** A result set that leaves [mask_rows] has the shape that entered it,
    cell by cell: NULL stays NULL, a column the policy does not mask keeps its
    value, and every other value is text of the form promised by the
    transformer of the rule the column was decided with. *)
Theorem mask_rows_cells {L : PyLib} `{!PyLibLaws L} p cols rows n out n' :
  mask_rows p cols rows n = (Ok out, n') ->
  length out = length rows /\
  forall i row, rows !! i = Some row ->
    exists orow, out !! i = Some orow /\ length row = length cols /\ length orow = length cols /\
      forall j c v, cols !! j = Some c -> row !! j = Some v ->
        exists w, orow !! j = Some w /\ cell_ok p c v w.
Proof.
  rewrite mask_rows_as_rows. intros H. split; [eapply mapM_st_length; exact H|].
  intros i row Hi. destruct (mapM_st_lookup _ _ _ _ _ _ _ H Hi) as (orow & n1 & n2 & Ho & Hr).
  exists orow. split; [exact Ho|]. eapply mask_row_ok. exact Hr.
Qed.

(** The alias the client chooses can add protection and never remove it:
    whether a column with a known origin is an exception does not depend on
    its output name, and a column masked under its own name is masked under
    every alias. *)
Theorem alias_never_unmasks p c o alias :
  origin_name c = Some o -> o <> [] ->
  (action (decide_column p (with_alias c alias)) = EXCEPTION <->
   action (decide_column p (with_alias c o)) = EXCEPTION) /\
  (action (decide_column p (with_alias c o)) = MASK ->
   action (decide_column p (with_alias c alias)) = MASK).
Proof.
  intros Ho Hne. unfold decide_column, resolve.
  assert (D : derived_rule p (with_alias c alias) = derived_rule p (with_alias c o)) by reflexivity.
  assert (A : authoritative (with_alias c alias) = authoritative (with_alias c o)).
  { unfold authoritative. simpl. rewrite Ho. destruct o; [congruence | reflexivity]. }
  rewrite D, A. destruct (derived_rule p (with_alias c o)); [simpl; tauto|].
  destruct (find_by_name _ _); [simpl; tauto|].
  destruct (rule_find (rules p) (with_alias c alias)) eqn:R.
  - simpl. destruct (rule_find (rules p) (with_alias c o)); simpl; split; auto; split; discriminate.
  - rewrite (rule_find_alias _ _ _ _ Ho R). simpl. tauto.
Qed.

(** A column is left in clear by default exactly when no rule was derived
    for its position, no exception matches its authoritative name and no rule
    matches its output or origin name; and the rule used otherwise is the
    derived one or the first of the file that matches. *)
Theorem decision_pipeline p c :
  (action (decide_column p c) = ALLOW <->
     derived_rule p c = None /\
     (forall e, e ∈ exceptions p -> matches (exception_spec e) (Some (authoritative c)) = false) /\
     (forall r, r ∈ rules p -> spec_matches_column (rule_spec r) c = false)) /\
  (forall t, (resolve p c).2 = Some t ->
     exists r, rule_transformer r = t /\
       decided_rule (decide_column p c) = Some (rule_index r) /\
       (derived_rule p c = Some r \/
        derived_rule p c = None /\
        exists pre post, rules p = pre ++ r :: post /\ spec_matches_column (rule_spec r) c = true /\
          forall r', r' ∈ pre -> spec_matches_column (rule_spec r') c = false)).
Proof.
  unfold decide_column. split.
  - destruct (resolve_outcome p c) as [r D|e D F|r D F R|D F R]; simpl.
    + split; [discriminate|]. intros (D' & _). congruence.
    + split; [discriminate|]. intros (_ & H & _).
      assert (N : find_by_name (exceptions p) (authoritative c) = None)
        by (apply find_none_iff; exact H). congruence.
    + split; [discriminate|]. intros (_ & _ & H).
      assert (N : rule_find (rules p) c = None) by (apply find_none_iff; exact H). congruence.
    + split; [|reflexivity]. intros _. repeat split; auto; apply find_none_iff; assumption.
  - intros t. destruct (resolve_outcome p c) as [r D|e D F|r D F R|D F R]; simpl;
      try discriminate; intros [= <-]; exists r; split; auto; split; auto.
    right. split; [exact D|]. exact (proj1 (find_some_iff _ _ _) R).
Qed.

(** ** Witnesses *)

Definition sample_spec (m : MatchMode) (pat : string) : MatchSpec :=
  {| pattern := py pat; mode := m; case_sensitive := false |}.

Definition sample_column (out : string) (origin : option string) : ColumnDescriptor :=
  {| output_name := py out; origin_name := py <$> origin; origin_schema := None;
     origin_table := None; provenance_kind := match origin with Some _ => DIRECT | None => UNKNOWN end;
     derived_rule_index := None |}.

(** Rule [email -> truncate 2], exception [email_id]. *)
Definition sample_masking : MaskingPolicy :=
  {| exceptions := [{| exception_spec := sample_spec EXACT "email_id"; exception_index := 0 |}];
     rules := [{| rule_spec := sample_spec CONTAINS "EMail"; rule_transformer := TTruncate 2;
                  rule_transformer_name := py "truncate"; rule_index := 0 |}] |}.

Lemma mask_rows_cells_witness : exists out,
  @mask_rows sample_lib sample_masking
    [sample_column "x" (Some "email"); sample_column "email_id" (Some "email_id")]
    [[VStr (py "ana@b"); VInt 7]; [VNone; VInt 8]] 0%nat = (Ok out, 0%nat) /\ length out = 2%nat.
Proof.
  eexists. split; [vm_compute; reflexivity|].
  exact (proj1 (@mask_rows_cells sample_lib _ sample_masking
    [sample_column "x" (Some "email"); sample_column "email_id" (Some "email_id")]
    [[VStr (py "ana@b"); VInt 7]; [VNone; VInt 8]] 0%nat _ 0%nat ltac:(vm_compute; reflexivity))).
Defined.

Lemma alias_never_unmasks_witness :
  action (decide_column sample_masking (with_alias (sample_column "a" (Some "email")) (py "id"))) = MASK.
Proof.
  refine (proj2 (alias_never_unmasks sample_masking (sample_column "a" (Some "email")) (py "email")
    (py "id") _ _) _); [reflexivity | discriminate | vm_compute; reflexivity].
Defined.
