(* ===== verification/Sql.v ===== *)
(** * Sql: the AST, the function policy and the SELECT validator

    Models [sql/policy.py], [sql/parser.py] and [sql/validator.py].  The AST
    is the part of pglast's node classes the source reads; pglast's parser and
    the order in which its [Visitor] walks a tree are parameters: the source
    relies on every node being visited, unless a node's ancestor was skipped. *)

From S2P Require Import Prelude.
From S2P Require Import Unicode.

Local Open Scope Z_scope.
#[local] Set Warnings "-register-all".

(** ** Function and relation policy, [policy.py] *)

Definition DENIED_RELATIONS : list pystr :=
  map py ["pg_statistic"; "pg_stats"; "pg_stats_ext"; "pg_stats_ext_exprs";
          "pg_statistic_ext"; "pg_statistic_ext_data"].

Definition PG_PREFIX : pystr := py "pg_".

Definition DEFAULT_ALLOWED_PG_FUNCTIONS : list pystr :=
  map py ["pg_typeof"; "pg_size_pretty"; "pg_column_size"].

Definition DEFAULT_DENIED_PREFIXES : list pystr :=
  map py ["dblink"; "lo_"; "query_to_xml"; "table_to_xml"; "cursor_to_xml";
          "schema_to_xml"; "database_to_xml"].

Definition DEFAULT_DENIED_FUNCTIONS : list pystr :=
  map py ["set_config"; "setseed"; "lo_import"; "lo_export"].

Definition canonical_function_name (name : pystr) : pystr := casefold (strip name).

(** [_normalize]: blank names are dropped. *)
Definition normalize_names (names : list pystr) : list pystr :=
  map canonical_function_name (filter (fun n => strip n <> []) names).

Record SqlPolicy := {
  allowed_pg_functions : list pystr;
  denied_functions : list pystr;
  denied_prefixes : list pystr;
  denied_relations : list pystr;
}.

Definition DEFAULT_SQL_POLICY : SqlPolicy :=
  {| allowed_pg_functions := DEFAULT_ALLOWED_PG_FUNCTIONS;
     denied_functions := DEFAULT_DENIED_FUNCTIONS;
     denied_prefixes := DEFAULT_DENIED_PREFIXES;
     denied_relations := DENIED_RELATIONS |}.

(** [SqlPolicy.build]: the default policy extended by the configuration. *)
Definition build_sql_policy (extra_allowed extra_denied : list pystr) : SqlPolicy :=
  {| allowed_pg_functions := DEFAULT_ALLOWED_PG_FUNCTIONS ++ normalize_names extra_allowed;
     denied_functions := DEFAULT_DENIED_FUNCTIONS ++ normalize_names extra_denied;
     denied_prefixes := DEFAULT_DENIED_PREFIXES;
     denied_relations := DENIED_RELATIONS |}.

Definition allows (p : SqlPolicy) (function_name : pystr) : bool :=
  let name := casefold function_name in
  if name_in name (denied_functions p) then false
  else if existsb (fun prefix => startswith prefix name) (denied_prefixes p) then false
  else if startswith PG_PREFIX name then name_in name (allowed_pg_functions p)
  else true.

Definition allows_relation (p : SqlPolicy) (relation_name : pystr) : bool :=
  negb (name_in (casefold relation_name) (denied_relations p)).

(** ** The AST *)

Inductive set_operation := SETOP_NONE | SETOP_UNION | SETOP_INTERSECT | SETOP_EXCEPT.

(** The node classes the source tests for, with the attributes it reads and
    the remaining child nodes; every other class is [OtherNode] with its name,
    its [sval] if it has one, and its children. *)
Inductive node : Type :=
| RawStmt (stmt : node)
| SelectStmt (targetList : list node) (op : set_operation) (larg rarg : option node)
    (clauses : list node)
| IntoClause (children : list node)
| LockingClause (children : list node)
| FuncCall (funcname args : list node)
| RangeVar (relname alias : option pystr)
| ColumnRef (fields : list node)
| A_Star
| StringNode (sval : pystr)
| ResTarget (name : option pystr) (val : option node) (indirection : list node)
| CommonTableExpr (ctename : option pystr) (ctequery : option node) (clauses : list node)
| RangeSubselect (alias : option pystr) (subquery : option node) (clauses : list node)
| OtherNode (class_name : pystr) (sval : option pystr) (children : list node).

(** The child nodes a visitor can descend into. *)
Definition children (n : node) : list node :=
  match n with
  | RawStmt s => [s]
  | SelectStmt targets _ l r clauses =>
      targets ++ option_list l ++ option_list r ++ clauses
  | IntoClause l | LockingClause l => l
  | FuncCall f args => f ++ args
  | RangeVar _ _ | A_Star | StringNode _ => []
  | ColumnRef fields => fields
  | ResTarget _ v ind => option_list v ++ ind
  | CommonTableExpr _ q clauses => option_list q ++ clauses
  | RangeSubselect _ q clauses => option_list q ++ clauses
  | OtherNode _ _ l => l
  end.

Definition is_select (n : node) : bool :=
  match n with SelectStmt _ _ _ _ _ => true | _ => false end.

(** ** Visitors *)

(** The nodes a visitor reaches from [root] when its [visit] answers [Skip] on
    the nodes of [skip]: the root, and the children of a reached node that was
    not skipped. *)
Inductive visited (skip : node -> bool) (root : node) : node -> Prop :=
| visited_root : visited skip root root
| visited_child n c : visited skip root n -> skip n = false -> c ∈ children n ->
    visited skip root c.

(** pglast's [Visitor]: an order in which exactly those nodes are visited. *)
Class Visitor := {
  walk : (node -> bool) -> node -> list node;
  walk_visits skip root n : n ∈ walk skip root <-> visited skip root n;
}.

Definition never_skip (n : node) : bool := false.

(** ** The validator, [validator.py] *)

Inductive rejection :=
| NO_STATEMENT | MULTIPLE_STATEMENTS
| NOT_A_SELECT | NESTED_STATEMENT | WRITES_A_RELATION | LOCKS_ROWS
| FORBIDDEN_FUNCTION | FORBIDDEN_RELATION
| AMBIGUOUS_SENSITIVE_EXPRESSION | WHOLE_ROW_SERIALIZATION.

Inductive query_error := InvalidQuery | QueryRejected (reason : rejection).

Definition endswith (suffix s : pystr) : bool := startswith (rev suffix) (rev s).

(** [type(node).__name__.endswith("Stmt")]. *)
Definition is_statement (n : node) : bool :=
  match n with
  | RawStmt _ | SelectStmt _ _ _ _ _ => true
  | OtherNode name _ _ => endswith (py "Stmt") name
  | _ => false
  end.

(** [isinstance(node, _ALLOWED_STATEMENTS)]. *)
Definition allowed_statement (n : node) : bool :=
  match n with RawStmt _ | SelectStmt _ _ _ _ _ => true | _ => false end.

(** [getattr(node, "sval", None)] when it is a [str]. *)
Definition sval_of (n : node) : option pystr :=
  match n with
  | StringNode s => Some s
  | OtherNode _ sval _ => sval
  | _ => None
  end.

Definition function_name (funcname : list node) : option pystr :=
  match last funcname with
  | None => None
  | Some n => sval_of n
  end.

(** One [visit] of [_Inspector] on a node, when no reason was found before. *)
Definition inspect_node (p : SqlPolicy) (n : node) : option rejection :=
  if is_statement n && negb (allowed_statement n) then Some NESTED_STATEMENT
  else match n with
  | IntoClause _ => Some WRITES_A_RELATION
  | LockingClause _ => Some LOCKS_ROWS
  | FuncCall funcname _ =>
      match function_name funcname with
      | None => None
      | Some name => if allows p name then None else Some FORBIDDEN_FUNCTION
      end
  | RangeVar (Some relname) _ =>
      if allows_relation p relname then None else Some FORBIDDEN_RELATION
  | _ => None
  end.

(** The first violation, in the order of the visit. *)
Fixpoint first_reason (p : SqlPolicy) (ns : list node) : option rejection :=
  match ns with
  | [] => None
  | n :: ns => match inspect_node p n with Some r => Some r | None => first_reason p ns end
  end.

Section validator.
Context {V : Visitor}.
(** pglast's [parse_sql]: the statements of a text, [None] when it raises. *)
Context (parse_sql : pystr -> option (list node)).

Definition parse_statements (sql : pystr) : res query_error (list node) :=
  match parse_sql sql with
  | None => Err InvalidQuery
  | Some stmts => Ok (map RawStmt stmts)
  end.

Definition parse_single_statement (sql : pystr) : res query_error node :=
  statements ← parse_statements sql;
  match statements with
  | [] => Err (QueryRejected NO_STATEMENT)
  | [s] => Ok s
  | _ => Err (QueryRejected MULTIPLE_STATEMENTS)
  end.

(** [statement.stmt]. *)
Definition raw_stmt (statement : node) : option node :=
  match statement with RawStmt s => Some s | _ => None end.

Definition stmt_is_select (statement : node) : bool :=
  match raw_stmt statement with Some s => is_select s | None => false end.

Definition validate_select (p : SqlPolicy) (sql : pystr) : res query_error node :=
  statement ← parse_single_statement sql;
  refuse_if (negb (stmt_is_select statement)) (QueryRejected NOT_A_SELECT);;
  match first_reason p (walk never_skip statement) with
  | Some reason => Err (QueryRejected reason)
  | None => Ok statement
  end.
End validator.

(** ** A concrete visitor

    Depth first, parents before children; any order of the same nodes is a
    [Visitor]. *)

Section preorder.
Fixpoint preorder (skip : node -> bool) (n : node) : list node :=
  n :: (if skip n then [] else
    let go := fix go (l : list node) : list node :=
      match l with [] => [] | x :: l => preorder skip x ++ go l end in
    let opt := fun o => match o with None => [] | Some x => preorder skip x end in
    match n with
    | RawStmt s => preorder skip s
    | SelectStmt targets _ l r clauses => go targets ++ opt l ++ opt r ++ go clauses
    | IntoClause l | LockingClause l => go l
    | FuncCall f args => go f ++ go args
    | RangeVar _ _ | A_Star | StringNode _ => []
    | ColumnRef fields => go fields
    | ResTarget _ v ind => opt v ++ go ind
    | CommonTableExpr _ q clauses => opt q ++ go clauses
    | RangeSubselect _ q clauses => opt q ++ go clauses
    | OtherNode _ _ l => go l
    end).
End preorder.

Section node_ind.
Context (P : node -> Prop) (Hstep : forall n, Forall P (children n) -> P n).

(** Induction on a tree through its children. *)
Fixpoint node_children_ind (n : node) : P n :=
  let all := fix all (l : list node) : Forall P l :=
    match l with
    | [] => List.Forall_nil P
    | x :: l => List.Forall_cons P x l (node_children_ind x) (all l)
    end in
  let opt := fun (o : option node) =>
    match o return Forall P (option_list o) with
    | None => List.Forall_nil P
    | Some x => List.Forall_cons P x [] (node_children_ind x) (List.Forall_nil P)
    end in
  let app2 := fun (a b : list node) (Ha : Forall P a) (Hb : Forall P b) =>
    proj2 (Forall_app P a b) (conj Ha Hb) in
  Hstep n
    match n return Forall P (children n) with
    | RawStmt s => List.Forall_cons P s [] (node_children_ind s) (List.Forall_nil P)
    | SelectStmt t _ l r c => app2 _ _ (all t) (app2 _ _ (opt l) (app2 _ _ (opt r) (all c)))
    | IntoClause l => all l
    | LockingClause l => all l
    | FuncCall f args => app2 _ _ (all f) (all args)
    | RangeVar _ _ => List.Forall_nil P
    | ColumnRef f => all f
    | A_Star => List.Forall_nil P
    | StringNode _ => List.Forall_nil P
    | ResTarget _ v i => app2 _ _ (opt v) (all i)
    | CommonTableExpr _ q c => app2 _ _ (opt q) (all c)
    | RangeSubselect _ q c => app2 _ _ (opt q) (all c)
    | OtherNode _ _ l => all l
    end.
End node_ind.

Lemma preorder_unfold skip n :
  preorder skip n = n :: (if skip n then [] else children n ≫= preorder skip).
Proof.
  assert (G : forall l, (fix go (l : list node) : list node :=
    match l with [] => [] | x :: l => preorder skip x ++ go l end) l = l ≫= preorder skip).
  { induction l as [|x l IH]; [reflexivity|]. rewrite IH. reflexivity. }
  destruct n; cbn -[mbind list_bind]; destruct (skip _); try reflexivity;
    rewrite ?G; cbn [children]; rewrite ?bind_app; cbn -[mbind];
    repeat match goal with |- context [option_list ?o] => is_var o; destruct o end;
    cbn; rewrite ?app_nil_r; reflexivity.
Qed.

Lemma visited_trans skip a b c : visited skip a b -> visited skip b c -> visited skip a c.
Proof. intros Hab Hbc. induction Hbc; [exact Hab|]. eapply visited_child; eassumption. Qed.

Lemma preorder_visits skip root n : n ∈ preorder skip root <-> visited skip root n.
Proof.
  split.
  - revert n. induction root as [root IH] using node_children_ind. intros n.
    rewrite preorder_unfold, elem_of_cons. intros [->|H]; [constructor|].
    destruct (skip root) eqn:S; [set_solver|].
    apply list_elem_of_bind in H as (c & Hn & Hc).
    rewrite Forall_forall in IH. specialize (IH c Hc n Hn).
    eapply visited_trans; [|exact IH]. eapply visited_child; [constructor|exact S|exact Hc].
  - intros H. induction H as [|m c Hm IHm S Hc].
    + rewrite preorder_unfold. left.
    + clear Hm. revert IHm. induction root as [root IH] using node_children_ind.
      rewrite preorder_unfold, !elem_of_cons. intros [->|Hm].
      * right. rewrite S. apply list_elem_of_bind. exists c. split; [|exact Hc].
        rewrite preorder_unfold. left.
      * destruct (skip root); [set_solver|]. right.
        apply list_elem_of_bind in Hm as (d & Hm & Hd). apply list_elem_of_bind.
        exists d. split; [|exact Hd]. rewrite Forall_forall in IH. exact (IH d Hd Hm).
Qed.

Definition preorder_visitor : Visitor :=
  {| walk := preorder; walk_visits := preorder_visits |}.

(** ** Validator lemmas *)

(** What the policy demands of one node of the tree. *)
Definition node_allowed (p : SqlPolicy) (n : node) : Prop :=
  (is_statement n = true -> allowed_statement n = true) /\
  (forall l, n <> IntoClause l) /\ (forall l, n <> LockingClause l) /\
  (forall f args name, n = FuncCall f args -> function_name f = Some name -> allows p name = true) /\
  (forall r a, n = RangeVar (Some r) a -> allows_relation p r = true).

Lemma inspect_node_allowed p n : inspect_node p n = None <-> node_allowed p n.
Proof.
  unfold inspect_node, node_allowed. split.
  - destruct (is_statement n && negb (allowed_statement n)) eqn:S; [discriminate|].
    intros H. repeat split.
    + intros I. rewrite I in S. destruct (allowed_statement n); [reflexivity | discriminate].
    + intros l ->. discriminate.
    + intros l ->. discriminate.
    + intros f args name -> F. rewrite F in H. destruct (allows p name); congruence.
    + intros r a ->. destruct (allows_relation p r); congruence.
  - intros (S & I & Lk & F & R).
    replace (is_statement n && negb (allowed_statement n)) with false
      by (destruct (is_statement n); [rewrite S by reflexivity|]; reflexivity).
    destruct n as [| |l|l|f args|r a| | | | | | |]; try reflexivity.
    + exfalso. eapply I. reflexivity.
    + exfalso. eapply Lk. reflexivity.
    + destruct (function_name f) as [name|] eqn:E; [|reflexivity].
      rewrite (F f args name eq_refl E). reflexivity.
    + destruct r as [r|]; [|reflexivity]. rewrite (R r a eq_refl). reflexivity.
Qed.

Lemma first_reason_none p ns : first_reason p ns = None <-> forall n, n ∈ ns -> node_allowed p n.
Proof.
  induction ns as [|m ns IH]; cbn [first_reason].
  - split; [intros _ n Hn; inversion Hn | reflexivity].
  - destruct (inspect_node p m) eqn:I.
    + split; [discriminate|]. intros H. exfalso.
      assert (inspect_node p m = None) by (apply inspect_node_allowed, H; left). congruence.
    + apply inspect_node_allowed in I. rewrite IH. split.
      * intros H n Hn. apply elem_of_cons in Hn as [->|Hn]; auto.
      * intros H n Hn. apply H. right. exact Hn.
Qed.

Lemma first_reason_cause p ns r :
  first_reason p ns = Some r -> exists n, n ∈ ns /\ inspect_node p n = Some r.
Proof.
  induction ns as [|m ns IH]; cbn [first_reason]; [discriminate|].
  destruct (inspect_node p m) eqn:I.
  - intros [= <-]. exists m. split; [left|exact I].
  - intros H. destruct (IH H) as (n & Hn & Hi). exists n. split; [right; exact Hn|exact Hi].
Qed.

(** The two denial lists of a policy built from the configuration. *)
Lemma normalize_names_spec names n :
  n ∈ normalize_names names <-> exists m, m ∈ names /\ strip m <> [] /\ n = canonical_function_name m.
Proof.
  unfold normalize_names. rewrite list_elem_of_fmap. split.
  - intros (m & -> & Hm). apply list_elem_of_filter in Hm as [Hs Hm]. eauto.
  - intros (m & Hm & Hs & ->). exists m. rewrite list_elem_of_filter. auto.
Qed.

Lemma name_in_true x l : name_in x l = true <-> x ∈ l.
Proof. unfold name_in. apply bool_decide_eq_true. Qed.

(** ** Properties *)

(** The validator accepts a text exactly when the parser gives one
    statement, its root is a [SelectStmt] and no node of the whole tree is
    another statement, an INTO or locking clause, a call of a function the
    policy refuses or a relation the policy refuses; the order in which the
    visitor walks the tree plays no part. *)
Theorem validate_select_accepts {V : Visitor} parse_sql p sql s :
  validate_select parse_sql p sql = Ok s <->
  exists stmt, parse_sql sql = Some [stmt] /\ s = RawStmt stmt /\ is_select stmt = true /\
    forall n, visited never_skip (RawStmt stmt) n -> node_allowed p n.
Proof.
  unfold validate_select, parse_single_statement, parse_statements. split.
  - intros H. apply bind_Ok in H as (s' & H1 & H).
    destruct (parse_sql sql) as [[|stmt [|? ?]]|]; cbn in H1; try discriminate.
    injection H1 as <-. apply bind_Ok in H as (u & H2 & H).
    apply refuse_if_Ok, negb_false_iff in H2.
    destruct (first_reason p _) eqn:F; [discriminate|]. injection H as <-.
    exists stmt. do 3 (split; [auto|]). intros n Hn. rewrite first_reason_none in F.
    apply F, walk_visits, Hn.
  - intros (stmt & -> & -> & Hs & Hn). cbn. unfold stmt_is_select. cbn. rewrite Hs. cbn.
    replace (first_reason p (walk never_skip (RawStmt stmt))) with (@None rejection);
      [reflexivity|].
    symmetry. apply first_reason_none. intros n Hv. apply Hn, walk_visits, Hv.
Qed.

(** In every policy built from a configuration denial wins: a function
    named in [denied_functions], in any spelling the parser folds to the same
    name, is refused even when the configuration also allows it; and a [pg_]
    function is refused unless it is in the allowed list. *)
Theorem denial_wins extra_allowed extra_denied d name :
  let p := build_sql_policy extra_allowed extra_denied in
  (d ∈ extra_denied -> strip d <> [] -> casefold name = canonical_function_name d ->
     allows p name = false) /\
  (startswith PG_PREFIX (casefold name) = true ->
     casefold name ∉ DEFAULT_ALLOWED_PG_FUNCTIONS ->
     (forall a, a ∈ extra_allowed -> casefold name <> canonical_function_name a) ->
     allows p name = false).
Proof.
  intros p. subst p. unfold allows. split.
  - intros Hd Hs ->. rewrite (proj2 (name_in_true _ _)); [reflexivity|].
    cbn [denied_functions build_sql_policy]. apply elem_of_app. right. apply normalize_names_spec. eauto.
  - intros Hp Hdef Hno. destruct (name_in (casefold name) _); [reflexivity|].
    destruct (existsb _ _); [reflexivity|]. rewrite Hp. cbn [negb]. apply not_true_iff_false.
    rewrite name_in_true. cbn [allowed_pg_functions build_sql_policy]. rewrite elem_of_app, normalize_names_spec.
    intros [H|(m & Hm & _ & E)]; [exact (Hdef H) | exact (Hno m Hm E)].
Qed.
