(* ===== verification/Sensitivity.v ===== *)
(** * Sensitivity: which rule covers each position of a query

    Models [sql/sensitivity.py]: for every position of the result set, the
    column names its expression references in all branches of a UNION, the
    rule that covers them, and the names CTEs and subqueries export.  The
    recursion through inner selects is bounded by [MAX_DEPTH], as in the
    source. *)

From S2P Require Import Prelude.
From S2P Require Import Unicode.
From S2P Require Import Transformers.
From S2P Require Import Masking.
From S2P Require Import Sql.

Local Open Scope Z_scope.

(** Sensitivity per position: a rule index or None. *)
Abbreviation sensitivity := (list (option Z)).

Definition MAX_DEPTH : nat := 16.

(** ** The parts of a select *)

Definition target_list (select : node) : list node :=
  match select with SelectStmt targets _ _ _ _ => targets | _ => [] end.

(** [_branches]: the sides of a set operation, flattened. *)
Fixpoint branches (select : node) : list node :=
  match select with
  | SelectStmt _ SETOP_NONE _ _ _ => [select]
  | SelectStmt _ _ l r _ =>
      (match l with
       | Some x => match x with SelectStmt _ _ _ _ _ => branches x | _ => [] end
       | None => []
       end) ++
      (match r with
       | Some x => match x with SelectStmt _ _ _ _ _ => branches x | _ => [] end
       | None => []
       end)
  | _ => [select]
  end.

(** The inner select of a CTE or of a subquery of the FROM. *)
Definition inner_select (n : node) : option node :=
  let inner := match n with
    | CommonTableExpr _ q _ => q
    | RangeSubselect _ q _ => q
    | _ => None
    end in
  match inner with
  | Some s => if is_select s then Some s else None
  | None => None
  end.

Definition has_inner_select (n : node) : bool :=
  match inner_select n with Some _ => true | None => false end.

(** One [ColumnRef] as its tuple of field names. *)
Definition field_names (fields : list node) : list pystr :=
  map (fun f => match f with A_Star => py "*" | _ => default [] (sval_of f) end) fields.

Definition column_ref (n : node) : option (list pystr) :=
  match n with ColumnRef fields => Some (field_names fields) | _ => None end.

(** The last [sval] of a [ColumnRef] with fields. *)
Definition column_ref_name (n : node) : option pystr :=
  match n with
  | ColumnRef fields => match last fields with Some f => sval_of f | None => None end
  | _ => None
  end.

(** [target.name] if it is set and not empty, else the referenced column. *)
Definition target_output_name (t : node) : option pystr :=
  match t with
  | ResTarget (Some (c :: n)) _ _ => Some (c :: n)
  | ResTarget _ (Some v) _ => column_ref_name v
  | _ => None
  end.

(** [_output_names]: the first branch of a UNION names the columns. *)
Definition output_names (select : node) : list (option pystr) :=
  match branches select with
  | [] => []
  | b :: _ => map target_output_name (target_list b)
  end.

(** [_rule_for]: exceptions before rules, then the exported names. *)
Definition rule_for (name : pystr) (p : MaskingPolicy) (exported : gmap pystr Z) : option Z :=
  if existsb (fun e => matches (exception_spec e) (Some name)) (exceptions p) then None
  else match List.find (fun r => matches (rule_spec r) (Some name)) (rules p) with
  | Some r => Some (rule_index r)
  | None => exported !! casefold name
  end.

Section analysis.
Context {V : Visitor}.

(** [_RelationCollector]: the names and aliases of every relation. *)
Definition relation_names (select : node) : list pystr :=
  walk never_skip select ≫= fun n =>
    match n with
    | RangeVar relname alias =>
        map casefold (filter (fun x => x <> []) (option_list relname ++ option_list alias))
    | _ => []
    end.

(** [_referenced_names]: the loop over the collected references. *)
Fixpoint names_of_refs (refs : list (list pystr)) (relations : list pystr)
    : res rejection (list pystr) :=
  match refs with
  | [] => Ok []
  | fields :: refs =>
      match last fields with
      | None => names_of_refs refs relations
      | Some field =>
          if bool_decide (field = py "*") then names_of_refs refs relations
          else if (length fields =? 1)%nat && name_in (casefold field) relations
          then Err WHOLE_ROW_SERIALIZATION
          else rest ← names_of_refs refs relations; Ok (field :: rest)
      end
  end.

Definition referenced_names (target : node) (relations : list pystr)
    : res rejection (list pystr) :=
  names_of_refs (omap column_ref (walk never_skip target)) relations.

(** One turn of [_position_rule]'s loop: the rules of a branch's target. *)
Definition rules_in_branch (b : node) (index : nat) (p : MaskingPolicy)
    (relations : list pystr) (exported : gmap pystr Z) : res rejection (list Z) :=
  match target_list b !! index with
  | None => Ok []
  | Some t => (fun ns : list pystr => omap (fun n => rule_for n p exported) ns)
                <$> referenced_names t relations
  end.

(** [_position_rule]: the loop over the branches, then the decision. *)
Fixpoint rules_found (bs : list node) (index : nat) (p : MaskingPolicy) (relations : list pystr)
    (exported : gmap pystr Z) : res rejection (list Z) :=
  match bs with
  | [] => Ok []
  | b :: bs =>
      here ← rules_in_branch b index p relations exported;
      rest ← rules_found bs index p relations exported;
      Ok (here ++ rest)
  end.

Definition position_rule (bs : list node) (index : nat) (p : MaskingPolicy)
    (relations : list pystr) (exported : gmap pystr Z) : res rejection (option Z) :=
  found ← rules_found bs index p relations exported;
  match remove_dups found with
  | [] => Ok None
  | [r] => Ok (Some r)
  | _ => Err AMBIGUOUS_SENSITIVE_EXPRESSION
  end.

(** [exported.setdefault(name.casefold(), rule)] along one inner select. *)
Fixpoint export (names : list (option pystr)) (rules : sensitivity) (exported : gmap pystr Z)
    : gmap pystr Z :=
  match names, rules with
  | n :: names, r :: rules =>
      let exported := match n, r with
        | Some (c :: n), Some rule =>
            match exported !! casefold (c :: n) with
            | Some _ => exported
            | None => <[casefold (c :: n) := rule]> exported
            end
        | _, _ => exported
        end in
      export names rules exported
  | _, _ => exported
  end.

(** The widths of the branches, when they agree. *)
Definition common_width (bs : list node) : option nat :=
  match remove_dups (map (fun b => length (target_list b)) bs) with
  | [w] => Some w
  | _ => None
  end.

(** [_exported_rules]: the loop over the collected inner selects. *)
Fixpoint export_inner (analyze : node -> res rejection (option sensitivity))
    (inner : list node) (exported : gmap pystr Z) : res rejection (gmap pystr Z) :=
  match inner with
  | [] => Ok exported
  | s :: inner =>
      rules ← analyze s;
      export_inner analyze inner
        (match rules with
         | None => exported
         | Some rules => export (output_names s) rules exported
         end)
  end.

(** [_analyze_select].  [fuel] is [MAX_DEPTH + 1] less the depth: the
    analysis gives up, without rejecting, exactly when the source's
    [depth > MAX_DEPTH]. *)
Fixpoint analyze_select (fuel : nat) (p : MaskingPolicy) (select : node)
    : res rejection (option sensitivity) :=
  match fuel with
  | O => Ok None
  | S fuel =>
      let bs := branches select in
      match common_width bs with
      | None | Some O => Ok None
      | Some width =>
          let relations := relation_names select in
          exported ← export_inner (analyze_select fuel p)
                       (omap inner_select (walk has_inner_select select)) ∅;
          rules ← mapM_res (fun index => position_rule bs index p relations exported)
                    (seq 0 width);
          Ok (Some rules)
      end
  end.

(** [analyze_sensitivity]. *)
Definition analyze_sensitivity (statement : node) (p : MaskingPolicy)
    : res rejection (option sensitivity) :=
  match raw_stmt statement with
  | Some s => if is_select s then analyze_select (S MAX_DEPTH) p s else Ok None
  | None => Ok None
  end.
End analysis.

(** ** Lemmas *)

Lemma remove_dups_single (l : list nat) w :
  remove_dups l = [w] -> forall x, x ∈ l -> x = w.
Proof.
  intros H x Hx. apply elem_of_remove_dups in Hx. rewrite H in Hx.
  apply list_elem_of_singleton in Hx. exact Hx.
Qed.

Section sensitivity_lemmas.
Context {V : Visitor}.
Implicit Types (p : MaskingPolicy) (exported : gmap pystr Z).

Lemma names_of_refs_Ok refs relations names :
  names_of_refs refs relations = Ok names ->
  forall fields n, fields ∈ refs -> last fields = Some n -> n <> py "*" ->
    n ∈ names /\ ~ (length fields = 1%nat /\ casefold n ∈ relations).
Proof.
  revert names; induction refs as [|fs refs IH]; cbn [names_of_refs]; intros names H.
  - intros ? ? Hf. inversion Hf.
  - intros fields n Hf Hl Hn. apply elem_of_cons in Hf as [->|Hf].
    + rewrite Hl in H. rewrite bool_decide_eq_false_2 in H by exact Hn.
      destruct ((length fs =? 1)%nat && name_in (casefold n) relations) eqn:W; [discriminate|].
      apply bind_Ok in H as (rest & _ & [= <-]). split; [left|].
      intros [W1 W2]. rewrite W1 in W. unfold name_in in W.
      rewrite bool_decide_eq_true_2 in W by exact W2. discriminate.
    + destruct (last fs) as [field|]; [|eapply IH; eassumption].
      case_bool_decide; [eapply IH; eassumption|].
      destruct (_ && _); [discriminate|].
      apply bind_Ok in H as (rest & Hr & [= <-]).
      destruct (IH rest Hr fields n Hf Hl Hn). split; [right|]; assumption.
Qed.

Lemma referenced_names_Ok t relations names :
  referenced_names t relations = Ok names ->
  forall fields n, visited never_skip t (ColumnRef fields) ->
    last (field_names fields) = Some n -> n <> py "*" ->
    n ∈ names /\ ~ (length fields = 1%nat /\ casefold n ∈ relations).
Proof.
  unfold referenced_names. intros H fields n Hv Hl Hn.
  destruct (names_of_refs_Ok _ _ _ H (field_names fields) n) as [H1 H2]; auto.
  - apply list_elem_of_omap. exists (ColumnRef fields). rewrite walk_visits. auto.
  - split; [exact H1|]. unfold field_names in H2. rewrite length_map in H2. exact H2.
Qed.

(** What a position's rule says of every reference at that position. *)
Lemma position_rule_Ok bs i p relations exported o :
  position_rule bs i p relations exported = Ok o ->
  forall b t fields n, b ∈ bs -> target_list b !! i = Some t ->
    visited never_skip t (ColumnRef fields) -> last (field_names fields) = Some n ->
    n <> py "*" ->
    ~ (length fields = 1%nat /\ casefold n ∈ relations) /\
    (forall r, rule_for n p exported = Some r -> o = Some r).
Proof.
  unfold position_rule. intros H b t fields n Hb Ht Hv Hl Hn.
  apply bind_Ok in H as (found & Hf & Ho).
  assert (A : ~ (length fields = 1%nat /\ casefold n ∈ relations) /\
              (forall r, rule_for n p exported = Some r -> r ∈ found)).
  { clear Ho o. revert found Hf Hb. induction bs as [|c bs IH]; intros found Hf Hb;
      [inversion Hb|]. cbn [rules_found] in Hf.
    apply bind_Ok in Hf as (here & Hh & Hf). apply bind_Ok in Hf as (rest & Hr & [= <-]).
    apply elem_of_cons in Hb as [<-|Hb].
    - unfold rules_in_branch in Hh. rewrite Ht in Hh.
      destruct (referenced_names t relations) as [names|] eqn:R; [|discriminate].
      injection Hh as <-.
      destruct (referenced_names_Ok _ _ _ R fields n Hv Hl Hn) as [Hin Hw].
      split; [exact Hw|]. intros r Hrule. apply elem_of_app. left.
      apply list_elem_of_omap. exists n. auto.
    - destruct (IH rest Hr Hb) as [Hw Hrule]. split; [exact Hw|].
      intros r Hr'. apply elem_of_app. right. auto. }
  destruct A as [Hw Hin]. split; [exact Hw|]. intros r Hr. specialize (Hin r Hr).
  apply elem_of_remove_dups in Hin.
  destruct (remove_dups found) as [|x [|? ?]]; [inversion Hin| |discriminate].
  apply list_elem_of_singleton in Hin as ->. congruence.
Qed.

(** The shape of a mapped select: equal widths and one rule per position. *)
Lemma analyze_select_Ok fuel p s l :
  analyze_select (S fuel) p s = Ok (Some l) ->
  (forall b, b ∈ branches s -> length (target_list b) = length l) /\
  exists exported,
    export_inner (analyze_select fuel p) (omap inner_select (walk has_inner_select s)) ∅
      = Ok exported /\
    forall i, (i < length l)%nat -> exists o, l !! i = Some o /\
      position_rule (branches s) i p (relation_names s) exported = Ok o.
Proof.
  cbn [analyze_select]. destruct (common_width (branches s)) as [[|w]|] eqn:W; try discriminate.
  intros H. apply bind_Ok in H as (exported & He & H). apply bind_Ok in H as (rules & Hr & [= <-]).
  pose proof (mapM_res_length _ _ _ Hr) as Hlen. rewrite length_seq in Hlen. split.
  - intros b Hb. unfold common_width in W.
    destruct (remove_dups _) as [|w' [|? ?]] eqn:D; try discriminate. injection W as ->.
    rewrite Hlen. eapply remove_dups_single; [exact D|].
    apply list_elem_of_fmap. exists b. auto.
  - exists exported. split; [exact He|]. intros i Hi. apply mapM_res_Forall2 in Hr.
    destruct (rules !! i) as [o|] eqn:Ho.
    + exists o. split; [reflexivity|].
      destruct (Forall2_lookup_r _ _ _ _ _ Hr Ho) as (x & Hx & Hp).
      apply lookup_seq in Hx as [-> _]. exact Hp.
    + apply lookup_ge_None in Ho. lia.
Qed.

Lemma rule_for_direct p exported n r :
  (forall e, e ∈ exceptions p -> matches (exception_spec e) (Some n) = false) ->
  List.find (fun r => matches (rule_spec r) (Some n)) (rules p) = Some r ->
  rule_for n p exported = Some (rule_index r).
Proof.
  intros He Hr. unfold rule_for. rewrite Hr.
  replace (existsb _ _) with false; [reflexivity|]. symmetry. apply not_true_iff_false.
  rewrite existsb_exists. intros (e & Hin & M). rewrite <- list_elem_of_In in Hin.
  rewrite He in M by exact Hin. discriminate.
Qed.

(** Exported names are never forgotten. *)
Lemma export_mono names rules exported k :
  is_Some (exported !! k) -> is_Some (export names rules exported !! k).
Proof.
  revert rules exported. induction names as [|n names IH]; intros [|r rules] exported H;
    cbn [export]; auto.
  apply IH. destruct n as [[|c n]|]; auto. destruct r as [r|]; auto.
  destruct (exported !! casefold (c :: n)) eqn:E; [exact H|].
  rewrite lookup_insert. case_decide; eauto.
Qed.

Lemma export_covers names rules exported j d r :
  names !! j = Some (Some d) -> d <> [] -> rules !! j = Some (Some r) ->
  is_Some (export names rules exported !! casefold d).
Proof.
  revert rules exported j. induction names as [|n names IH]; intros [|r' rules] exported [|j];
    try discriminate; cbn [export lookup list_lookup].
  - intros [= ->] Hd [= ->]. apply export_mono. destruct d as [|c d]; [congruence|].
    destruct (exported !! casefold (c :: d)) eqn:E; [eauto|].
    rewrite lookup_insert_eq. eauto.
  - intros Hn Hd Hr. eapply IH; eassumption.
Qed.

Lemma export_inner_mono analyze inner exported out k :
  export_inner analyze inner exported = Ok out -> is_Some (exported !! k) -> is_Some (out !! k).
Proof.
  revert exported. induction inner as [|s inner IH]; intros exported; cbn [export_inner].
  - intros [= <-]. auto.
  - intros H Hk. apply bind_Ok in H as (rules & _ & H). eapply IH; [exact H|].
    destruct rules; [apply export_mono|]; exact Hk.
Qed.

Lemma export_inner_covers analyze inner exported out s rules j d r :
  export_inner analyze inner exported = Ok out ->
  s ∈ inner -> analyze s = Ok (Some rules) ->
  output_names s !! j = Some (Some d) -> d <> [] -> rules !! j = Some (Some r) ->
  is_Some (out !! casefold d).
Proof.
  revert exported. induction inner as [|s' inner IH]; intros exported H Hs Ha Hn Hd Hr;
    [inversion Hs|]. cbn [export_inner] in H. apply bind_Ok in H as (rules' & Hr' & H).
  apply elem_of_cons in Hs as [<-|Hs]; [|eapply IH; eassumption].
  rewrite Ha in Hr'. injection Hr' as <-.
  eapply export_inner_mono; [exact H|]. eapply export_covers; eassumption.
Qed.
End sensitivity_lemmas.

(** Every relation of the query is among the names a single field is tested
    against. *)
Lemma relation_names_spec {V : Visitor} s x :
  x ∈ relation_names s <->
  exists relname alias m, visited never_skip s (RangeVar relname alias) /\ m <> [] /\
    (relname = Some m \/ alias = Some m) /\ x = casefold m.
Proof.
  unfold relation_names. rewrite list_elem_of_bind. split.
  - intros (n & Hx & Hn). apply walk_visits in Hn. destruct n; try (inversion Hx; fail).
    apply list_elem_of_fmap in Hx as (m & -> & Hm).
    apply list_elem_of_filter in Hm as [Hne Hm].
    exists relname, alias, m. split; [exact Hn|]. split; [exact Hne|]. split; [|reflexivity].
    apply elem_of_app in Hm as [Hm|Hm];
      [destruct relname as [y|]; cbn in Hm | destruct alias as [y|]; cbn in Hm];
      try (inversion Hm; fail); apply list_elem_of_singleton in Hm as ->; auto.
  - intros (relname & alias & m & Hv & Hne & Hm & ->).
    exists (RangeVar relname alias). split; [|apply walk_visits; exact Hv].
    apply list_elem_of_fmap. exists m. split; [reflexivity|]. apply list_elem_of_filter.
    split; [exact Hne|]. apply elem_of_app. destruct Hm as [-> | ->]; [left|right]; left.
Qed.

Lemma rule_for_exported p exported n :
  (forall e, e ∈ exceptions p -> matches (exception_spec e) (Some n) = false) ->
  is_Some (exported !! casefold n) -> is_Some (rule_for n p exported).
Proof.
  intros He Hx. unfold rule_for. replace (existsb _ _) with false.
  - destruct (List.find _ _); eauto.
  - symmetry. apply not_true_iff_false. rewrite existsb_exists. intros (e & Hin & M).
    rewrite <- list_elem_of_In in Hin. rewrite He in M by exact Hin. discriminate.
Qed.

(** A reference of the query: the [i]-th target of some branch contains, at
    any depth, a [ColumnRef] whose last field is the name [n]. *)
Definition references (s : node) (i : nat) (fields : list node) (n : pystr) : Prop :=
  exists b t, b ∈ branches s /\ target_list b !! i = Some t /\
    visited never_skip t (ColumnRef fields) /\ last (field_names fields) = Some n /\ n <> py "*".

(** No exception of the policy names the column. *)
Definition not_excepted (p : MaskingPolicy) (n : pystr) : Prop :=
  forall e, e ∈ exceptions p -> matches (exception_spec e) (Some n) = false.

Lemma remove_dups_const (l : list nat) w :
  l <> [] -> (forall x, x ∈ l -> x = w) -> remove_dups l = [w].
Proof.
  intros Hne H. assert (Hw : w ∈ l).
  { destruct l as [|x l]; [congruence|]. rewrite <- (H x) by left. left. }
  pose proof (NoDup_remove_dups l) as Hnd. rewrite <- elem_of_remove_dups in Hw.
  assert (H' : forall x, x ∈ remove_dups l -> x = w)
    by (intros x Hx; apply H, elem_of_remove_dups, Hx).
  destruct (remove_dups l) as [|x [|y k]]; [inversion Hw|rewrite (H' x) by left; reflexivity|].
  exfalso. apply NoDup_cons in Hnd as [Hn _]. apply Hn.
  rewrite (H' x), (H' y) by set_solver. left.
Qed.

(** The analysis maps every query whose branches agree on a width. *)
Lemma analyze_defined {V : Visitor} s p w b o :
  is_select s = true -> b ∈ branches s ->
  (forall b, b ∈ branches s -> length (target_list b) = w) -> (0 < w)%nat ->
  analyze_sensitivity (RawStmt s) p = Ok o -> exists l, o = Some l /\ length l = w.
Proof.
  intros Hs Hb Hw Hpos. unfold analyze_sensitivity. cbn [raw_stmt]. rewrite Hs.
  cbn [analyze_select]. assert (C : common_width (branches s) = Some w).
  { unfold common_width. rewrite (remove_dups_const _ w); [reflexivity| |].
    - destruct (branches s); [inversion Hb|discriminate].
    - intros x (b' & -> & Hb')%list_elem_of_fmap. auto. }
  rewrite C. destruct w as [|w]; [lia|]. intros H. inv_ok.
  eexists. split; [reflexivity|]. apply mapM_res_length in H1. rewrite H1, length_seq. reflexivity.
Qed.

(** ** Properties *)

(** C38: when the analysis maps a query, no expression of it can hide a
    sensitive column: all branches have the mapped width, a reference that
    names a whole row of a relation of the query never gets through, and a
    name that a rule covers and no exception releases, referenced anywhere in
    any branch's expression for position [i] (inside functions, casts and
    nested subselects), makes that rule the one of position [i]. *)
Theorem sensitivity_sound {V : Visitor} s p l :
  analyze_sensitivity (RawStmt s) p = Ok (Some l) ->
  (forall b, b ∈ branches s -> length (target_list b) = length l) /\
  forall i fields n, references s i fields n ->
    (forall relname alias m, visited never_skip s (RangeVar relname alias) ->
       relname = Some m \/ alias = Some m -> length fields = 1%nat -> m <> [] ->
       casefold n <> casefold m) /\
    (forall r, not_excepted p n ->
       List.find (fun r => matches (rule_spec r) (Some n)) (rules p) = Some r ->
       l !! i = Some (Some (rule_index r))).
Proof.
  unfold analyze_sensitivity; cbn [raw_stmt]. destruct (is_select s); [|discriminate].
  intros H. apply analyze_select_Ok in H as [Hw (exported & _ & Hr)].
  split; [exact Hw|]. intros i fields n (b & t & Hb & Ht & Hv & Hl & Hn).
  pose proof (lookup_lt_Some _ _ _ Ht) as Hi. rewrite (Hw b Hb) in Hi.
  destruct (Hr i Hi) as (o & Ho & Hp).
  destruct (position_rule_Ok _ _ _ _ _ _ Hp b t fields n Hb Ht Hv Hl Hn) as [Hrow Hrule].
  split.
  - intros relname alias m Hrel Hm Hlen Hne E. apply Hrow. split; [exact Hlen|].
    apply relation_names_spec. exists relname, alias, m. auto.
  - intros r He Hf. rewrite Ho. f_equal. apply Hrule. apply rule_for_direct; assumption.
Qed.

(** Sensitivity survives renaming: when a CTE or a subquery of the FROM
    exports the name [d] for a position of its own that a rule covers, every
    position of the outer query that references [d], under any spelling with
    the same case folding, is covered by a rule too, unless an exception
    releases the name. *)
Theorem sensitivity_through_inner {V : Visitor} s p l q inner l' j d r' i fields n :
  analyze_sensitivity (RawStmt s) p = Ok (Some l) ->
  visited has_inner_select s q -> inner_select q = Some inner ->
  analyze_select MAX_DEPTH p inner = Ok (Some l') ->
  output_names inner !! j = Some (Some d) -> d <> [] -> l' !! j = Some (Some r') ->
  references s i fields n -> casefold n = casefold d -> not_excepted p n ->
  exists r, l !! i = Some (Some r).
Proof.
  unfold analyze_sensitivity; cbn [raw_stmt]. destruct (is_select s); [|discriminate].
  intros H Hq Hinner Ha Hd Hne Hr' (b & t & Hb & Ht & Hv & Hl & Hn) E He.
  apply analyze_select_Ok in H as [Hw (exported & Hx & Hr)].
  pose proof (lookup_lt_Some _ _ _ Ht) as Hi. rewrite (Hw b Hb) in Hi.
  destruct (Hr i Hi) as (o & Ho & Hp).
  assert (Hin : inner ∈ omap inner_select (walk has_inner_select s)).
  { apply list_elem_of_omap. exists q. rewrite walk_visits. auto. }
  pose proof (export_inner_covers _ _ _ _ _ _ _ _ _ Hx Hin Ha Hd Hne Hr') as Hc.
  rewrite <- E in Hc. destruct (rule_for_exported p exported n He Hc) as [r Hrf].
  exists r. rewrite Ho. f_equal.
  exact (proj2 (position_rule_Ok _ _ _ _ _ _ Hp b t fields n Hb Ht Hv Hl Hn) r Hrf).
Qed.

(** ** Witnesses *)

Definition sample_ref (n : string) : node := ColumnRef [StringNode (py n)].
Definition sample_rule (pat : string) (i : Z) : MaskingRule :=
  {| rule_spec := {| pattern := py pat; mode := CONTAINS; case_sensitive := false |};
     rule_transformer := TFixed (py "x"); rule_transformer_name := py "fixed"; rule_index := i |}.
Definition sample_policy : MaskingPolicy :=
  {| exceptions := []; rules := [sample_rule "mail" 0] |}.

(** [SELECT upper(e_mail) AS x FROM customers]. *)
Definition sample_inner : node :=
  SelectStmt [ResTarget (Some (py "x"))
                (Some (FuncCall [StringNode (py "upper")] [sample_ref "e_mail"])) []]
    SETOP_NONE None None [RangeVar (Some (py "customers")) None].

(** [SELECT X FROM (...) AS q]. *)
Definition sample_outer : node :=
  SelectStmt [ResTarget None (Some (sample_ref "X")) []] SETOP_NONE None None
    [RangeSubselect (Some (py "q")) (Some sample_inner) []].

Lemma sensitivity_sound_witness : exists l,
  @analyze_sensitivity preorder_visitor (RawStmt sample_inner) sample_policy = Ok (Some l) /\
  l !! 0%nat = Some (Some 0).
Proof.
  exists [Some 0]. split; [vm_compute; reflexivity|].
  assert (H : @analyze_sensitivity preorder_visitor (RawStmt sample_inner) sample_policy
              = Ok (Some [Some 0])) by (vm_compute; reflexivity).
  apply (proj2 (proj2 (@sensitivity_sound preorder_visitor _ _ _ H) 0%nat
                  [StringNode (py "e_mail")] (py "e_mail")
                  ltac:(exists sample_inner; eexists; split; [left|];
                        split; [reflexivity|]; split;
                        [eapply visited_child; [eapply visited_child; [constructor|reflexivity|]
                          |reflexivity|]; [left|right; left]
                        |split; [reflexivity|vm_compute; discriminate]]))
           (sample_rule "mail" 0)); [intros e He; inversion He|vm_compute; reflexivity].
Defined.

Lemma sensitivity_through_inner_witness : exists l r,
  @analyze_sensitivity preorder_visitor (RawStmt sample_outer) sample_policy = Ok (Some l) /\
  l !! 0%nat = Some (Some r).
Proof.
  assert (H : @analyze_sensitivity preorder_visitor (RawStmt sample_outer) sample_policy
              = Ok (Some [Some 0])) by (vm_compute; reflexivity).
  exists [Some 0].
  destruct (@sensitivity_through_inner preorder_visitor sample_outer sample_policy [Some 0]
              (RangeSubselect (Some (py "q")) (Some sample_inner) []) sample_inner [Some 0]
              0%nat (py "x") 0 0%nat [StringNode (py "X")] (py "X") H) as [r Hr];
    [ eapply visited_child; [constructor|reflexivity|right; left]
    | reflexivity | vm_compute; reflexivity | reflexivity | discriminate | reflexivity
    | exists sample_outer; eexists; split; [left|]; split; [reflexivity|]; split;
        [eapply visited_child; [constructor|reflexivity|left]
        |split; [reflexivity|vm_compute; discriminate]]
    | vm_compute; reflexivity
    | intros e He; inversion He | ].
  exists r. split; [exact H|exact Hr].
Defined.
