(* ===== verification/Config.v ===== *)
(** * Config: the configuration file's model and its compilation

    Models [config/models.py], the validated contents of [masking.yaml];
    [config/ids.py], the shape of administrative ids; [config/loader.py]'s
    [compile_policy] and [config/gateway.py], which compile it into the policy
    and the limits the gateway runs with.  Pydantic's conversion of the YAML
    values to the declared field types is the library's; the constraints the
    models declare and the model's own validator are modelled. *)

From S2P Require Import Prelude.
From S2P Require Import Unicode.
From S2P Require Import Canonical.
From S2P Require Import Transformers.
From S2P Require Import Masking.
From S2P Require Import Sql.

Local Open Scope Z_scope.

(** ** Administrative ids, [ids.py] *)

Definition RULE_ID_PREFIX : pystr := py "rul_".
Definition EXCEPTION_ID_PREFIX : pystr := py "exc_".
Definition ID_HEX_LENGTH : nat := 32.

(** [[0-9a-f]]. *)
Definition is_hex (c : Z) : bool := (48 <=? c) && (c <=? 57) || (97 <=? c) && (c <=? 102).

(** [^prefix[0-9a-f]{32}$]. *)
Definition id_matches (prefix id : pystr) : bool :=
  startswith prefix id &&
  (length id =? length prefix + ID_HEX_LENGTH)%nat &&
  forallb is_hex (drop (length prefix) id).

(** [secrets.token_hex(16)], from sixteen random bytes. *)
Definition new_id (prefix : pystr) (token : list Byte.byte) : pystr := prefix ++ hexdigest token.

(** ** The models, [models.py] *)

Record MatchConfig := {
  cfg_match : pystr;
  cfg_mode : MatchMode;
  cfg_case_sensitive : bool;
}.

Record ExceptionConfig := {
  exc_match : MatchConfig;
  exc_id : option pystr;
}.

Record RuleConfig := {
  rule_match : MatchConfig;
  rule_build : pystr;
  rule_params : config;
  rule_id : option pystr;
}.

Record DatabaseConfig := {
  cfg_statement_timeout_ms : Z;
  cfg_max_rows : Z;
}.

Record SqlConfig := {
  cfg_allowed_pg_functions : list pystr;
  cfg_denied_functions : list pystr;
}.

Record MaskingFileConfig := {
  revision : Z;
  masking : list RuleConfig;
  file_exceptions : list ExceptionConfig;
  database : DatabaseConfig;
  sql : SqlConfig;
}.

Definition MIN_STATEMENT_TIMEOUT_MS : Z := 100.
Definition MAX_STATEMENT_TIMEOUT_MS : Z := 600000.
Definition MIN_MAX_ROWS : Z := 1.
Definition MAX_MAX_ROWS : Z := 1000000.
Definition UNADOPTED_REVISION : Z := 0.

Inductive validation_error :=
| InvalidField
| MissingIds (locations : list pystr)
| RepeatedIds.

(** [min_length=1]. *)
Definition nonempty (s : pystr) : bool := bool_decide (s <> []).

(** [id: str | None = Field(pattern=...)]. *)
Definition id_field (prefix : pystr) (id : option pystr) : bool :=
  match id with None => true | Some i => id_matches prefix i end.

Definition rule_fields (r : RuleConfig) : bool :=
  nonempty (cfg_match (rule_match r)) && nonempty (rule_build r) &&
  id_field RULE_ID_PREFIX (rule_id r).

Definition exception_fields (e : ExceptionConfig) : bool :=
  nonempty (cfg_match (exc_match e)) && id_field EXCEPTION_ID_PREFIX (exc_id e).

Definition database_fields (d : DatabaseConfig) : bool :=
  (MIN_STATEMENT_TIMEOUT_MS <=? cfg_statement_timeout_ms d) &&
  (cfg_statement_timeout_ms d <=? MAX_STATEMENT_TIMEOUT_MS) &&
  (MIN_MAX_ROWS <=? cfg_max_rows d) && (cfg_max_rows d <=? MAX_MAX_ROWS).

(** The constraints of every [Field] of the file. *)
Definition file_fields (c : MaskingFileConfig) : bool :=
  (0 <=? revision c) && forallb rule_fields (masking c) &&
  forallb exception_fields (file_exceptions c) && database_fields (database c).

(** [f"{name}[{index}]"] of the items without an id. *)
Definition missing_ids (name : pystr) (ids : list (option pystr)) : list pystr :=
  omap (fun '(i, id) => match id with
    | None => Some (name ++ py "[" ++ str_int (Z.of_nat i) ++ py "]")
    | Some _ => None
    end) (imap pair ids).

(** [len(set(ids)) != len(ids)], on the ids present. *)
Definition repeated (ids : list (option pystr)) : bool :=
  negb (bool_decide (NoDup (omap id ids))).

Definition adopted_requires_ids (c : MaskingFileConfig)
    : res validation_error MaskingFileConfig :=
  if revision c =? UNADOPTED_REVISION then Ok c
  else
    let rules := map rule_id (masking c) in
    let excs := map exc_id (file_exceptions c) in
    match missing_ids (py "masking") rules ++ missing_ids (py "exceptions") excs with
    | [] =>
        refuse_if (repeated rules || repeated excs) RepeatedIds;; Ok c
    | missing => Err (MissingIds missing)
    end.

(** [MaskingFileConfig.model_validate]: the fields, then the validator. *)
Definition model_validate (c : MaskingFileConfig) : res validation_error MaskingFileConfig :=
  refuse_if (negb (file_fields c)) InvalidField;; adopted_requires_ids c.

(** ** Compilation, [loader.py] *)

Inductive load_error :=
| Invalid (e : validation_error)
| RuleFailed (index : nat) (match_pattern : pystr) (cause : config_error).

(** [_spec]. *)
Definition spec_of (m : MatchConfig) : MatchSpec :=
  {| pattern := cfg_match m; mode := cfg_mode m; case_sensitive := cfg_case_sensitive m |}.

Definition compile_exception (ie : nat * ExceptionConfig) : MaskingException :=
  {| exception_spec := spec_of (exc_match ie.2); exception_index := Z.of_nat ie.1 |}.

(** One turn of [compile_policy]'s loop over the rules. *)
Definition compile_rule (registry : TransformerRegistry) (secrets : secret_provider)
    (ir : nat * RuleConfig) : res load_error MaskingRule :=
  match build registry (rule_build ir.2) (Some (rule_params ir.2)) secrets with
  | Err cause => Err (RuleFailed ir.1 (cfg_match (rule_match ir.2)) cause)
  | Ok t => Ok {| rule_spec := spec_of (rule_match ir.2); rule_transformer := t;
                  rule_transformer_name := rule_build ir.2; rule_index := Z.of_nat ir.1 |}
  end.

Definition compile_policy (registry : TransformerRegistry) (secrets : secret_provider)
    (parsed : MaskingFileConfig) : res load_error MaskingPolicy :=
  rs ← mapM_res (compile_rule registry secrets) (imap pair (masking parsed));
  Ok {| exceptions := map compile_exception (imap pair (file_exceptions parsed)); rules := rs |}.

(** ** The gateway's configuration, [gateway.py] *)

Record DatabaseSettings := {
  statement_timeout_ms : Z;
  max_rows : Z;
}.

Record GatewayConfig := {
  gateway_masking : MaskingPolicy;
  gateway_database : DatabaseSettings;
  gateway_sql : SqlPolicy;
}.

Definition build_gateway_config (parsed : MaskingFileConfig) (policy : MaskingPolicy)
    : GatewayConfig :=
  {| gateway_masking := policy;
     gateway_database := {| statement_timeout_ms := cfg_statement_timeout_ms (database parsed);
                            max_rows := cfg_max_rows (database parsed) |};
     gateway_sql := build_sql_policy (cfg_allowed_pg_functions (sql parsed))
                      (cfg_denied_functions (sql parsed)) |}.

Definition validate_file_config (raw : MaskingFileConfig) : res load_error MaskingFileConfig :=
  match model_validate raw with Ok c => Ok c | Err e => Err (Invalid e) end.

(** [parse_gateway_config], after pydantic's conversion of the raw structure. *)
Definition parse_gateway_config (registry : TransformerRegistry) (secrets : secret_provider)
    (raw : MaskingFileConfig) : res load_error GatewayConfig :=
  parsed ← validate_file_config raw;
  policy ← compile_policy registry secrets parsed;
  Ok (build_gateway_config parsed policy).

(** ** Lemmas *)

(** A policy whose rule indexes are their positions. *)
Definition policy_wf (p : MaskingPolicy) : Prop :=
  forall i r, rules p !! i = Some r -> rule_index r = Z.of_nat i.

Lemma compile_rule_Ok registry secrets i item r :
  compile_rule registry secrets (i, item) = Ok r ->
  rule_index r = Z.of_nat i /\ rule_spec r = spec_of (rule_match item) /\
  rule_transformer_name r = rule_build item /\
  build registry (rule_build item) (Some (rule_params item)) secrets = Ok (rule_transformer r).
Proof.
  unfold compile_rule. cbn [fst snd]. destruct (build _ _ _ _) as [t|] eqn:B; [|discriminate].
  intros [= <-]. cbn. auto.
Qed.

Lemma compile_policy_wf registry secrets parsed p :
  compile_policy registry secrets parsed = Ok p -> policy_wf p.
Proof.
  intros H. apply bind_Ok in H as (rs & Hrs & [= <-]). intros i r Hi. cbn in Hi.
  apply mapM_res_Forall2 in Hrs. destruct (Forall2_lookup_r _ _ _ _ _ Hrs Hi) as ([j item] & Hj & Hc).
  rewrite list_lookup_imap in Hj. destruct (masking parsed !! i); [|discriminate].
  injection Hj as <- <-. apply compile_rule_Ok in Hc as [-> _]. reflexivity.
Qed.

Lemma derived_rule_wf p c i r :
  policy_wf p -> rules p !! i = Some r -> derived_rule_index c = Some (rule_index r) ->
  derived_rule p c = Some r.
Proof.
  intros Hw Hr Hd. unfold derived_rule. rewrite Hd, (Hw i r Hr), Nat2Z.id.
  pose proof (lookup_lt_Some _ _ _ Hr) as Hlt.
  rewrite (proj2 (Z.leb_le _ _)), (proj2 (Z.ltb_lt _ _)) by lia. exact Hr.
Qed.

(** The first error of a comprehension, with the successes before it. *)
Lemma mapM_res_Err {E A B} (f : A -> res E B) l e :
  mapM_res f l = Err e <->
  exists i x, l !! i = Some x /\ f x = Err e /\
    forall j y, (j < i)%nat -> l !! j = Some y -> is_ok (f y) = true.
Proof.
  split.
  - induction l as [|x l IH]; cbn [mapM_res]; [discriminate|].
    destruct (f x) as [b|e'] eqn:F; cbn [mbind res_bind].
    + destruct (mapM_res f l) eqn:M; cbn; [discriminate|]. intros [= ->].
      destruct (IH eq_refl) as (i & y & Hi & Hy & Hb). exists (S i), y. split; [exact Hi|].
      split; [exact Hy|]. intros [|j] z Hj Hz.
      * injection Hz as <-. rewrite F. reflexivity.
      * apply (Hb j); [lia|exact Hz].
    + intros [= ->]. exists 0%nat, x. repeat split; auto. intros; lia.
  - intros (i & x & Hi & Hx & Hb). revert i Hi Hb. induction l as [|y l IH]; intros i Hi Hb;
      [discriminate|]. destruct i as [|i]; cbn [mapM_res].
    + injection Hi as ->. rewrite Hx. reflexivity.
    + specialize (Hb 0%nat y) as H0. destruct (f y) eqn:F;
        [|discriminate H0; [lia|reflexivity]]. cbn [mbind res_bind].
      rewrite (IH i Hi); [reflexivity|]. intros j z Hj. apply (Hb (S j)). lia.
Qed.

Lemma missing_ids_nil name ids :
  missing_ids name ids = [] <-> Forall (fun i => is_Some i) ids.
Proof.
  unfold missing_ids. rewrite Forall_lookup. split.
  - intros H i o Ho. destruct o as [id|]; [eauto|]. exfalso.
    assert (Hin : name ++ py "[" ++ str_int (Z.of_nat i) ++ py "]" ∈ ([] : list pystr)).
    { rewrite <- H. apply list_elem_of_omap. exists (i, None). split; [|reflexivity].
      apply list_elem_of_lookup. exists i. rewrite list_lookup_imap, Ho. reflexivity. }
    inversion Hin.
  - intros H. destruct (omap _ _) as [|s l] eqn:E; [reflexivity|].
    assert (Hin : s ∈ s :: l) by left. rewrite <- E in Hin.
    apply list_elem_of_omap in Hin as ([i o] & Hin & Hs).
    apply list_elem_of_lookup in Hin as [j Hj]. rewrite list_lookup_imap in Hj.
    destruct (ids !! j) eqn:Hid; [|discriminate]. injection Hj as -> ->.
    destruct (H _ _ Hid) as [x ->]. discriminate.
Qed.

(** Ids without repetition among items that all have one. *)
Lemma repeated_false {A} (f : A -> option pystr) (l : list A) :
  repeated (map f l) = false ->
  forall i j x y id, l !! i = Some x -> l !! j = Some y ->
    f x = Some id -> f y = Some id -> i = j.
Proof.
  unfold repeated. rewrite negb_false_iff, bool_decide_eq_true.
  induction l as [|a l IH]; intros Hnd i j x y k Hi Hj Hx Hy; [discriminate|].
  assert (Hin : forall n z, l !! n = Some z -> f z = Some k ->
                k ∈ omap (fun o : option pystr => o) (map f l)).
  { intros n z Hz Hf. apply list_elem_of_omap. exists (Some k). split; [|reflexivity].
    apply list_elem_of_fmap. exists z. split; [auto|]. eapply list_elem_of_lookup_2; exact Hz. }
  cbn in Hnd. destruct i as [|i], j as [|j]; [reflexivity|..].
  - injection Hi as ->. rewrite Hx in Hnd. apply NoDup_cons in Hnd as [Hn _].
    exfalso. apply Hn. eapply Hin; [exact Hj|exact Hy].
  - injection Hj as ->. rewrite Hy in Hnd. apply NoDup_cons in Hnd as [Hn _].
    exfalso. apply Hn. eapply Hin; [exact Hi|exact Hx].
  - f_equal. destruct (f a); [apply NoDup_cons in Hnd as [_ Hnd]|];
      eapply IH; eassumption.
Qed.

(** ** Properties *)

(** Compilation keeps the file's order and numbering: a compiled policy has
    one rule and one exception per item of the file, at the item's position and
    carrying that position as its index, with the item's pattern and the
    transformer its name and parameters build; and compilation fails exactly
    at the first rule whose transformer cannot be built, naming that rule. *)
Theorem compile_policy_spec registry secrets parsed :
  match compile_policy registry secrets parsed with
  | Ok p =>
      length (rules p) = length (masking parsed) /\
      length (exceptions p) = length (file_exceptions parsed) /\
      (forall i item, masking parsed !! i = Some item ->
         exists r, rules p !! i = Some r /\ rule_index r = Z.of_nat i /\
           rule_spec r = spec_of (rule_match item) /\
           build registry (rule_build item) (Some (rule_params item)) secrets
             = Ok (rule_transformer r)) /\
      (forall i item, file_exceptions parsed !! i = Some item ->
         exceptions p !! i = Some {| exception_spec := spec_of (exc_match item);
                                     exception_index := Z.of_nat i |})
  | Err e =>
      exists i item cause, masking parsed !! i = Some item /\
        e = RuleFailed i (cfg_match (rule_match item)) cause /\
        build registry (rule_build item) (Some (rule_params item)) secrets = Err cause /\
        forall j item', (j < i)%nat -> masking parsed !! j = Some item' ->
          is_ok (build registry (rule_build item') (Some (rule_params item')) secrets) = true
  end.
Proof.
  unfold compile_policy.
  destruct (mapM_res (compile_rule registry secrets) _) as [rs|e] eqn:M; cbn [mbind res_bind].
  - pose proof (mapM_res_length _ _ _ M) as Hl. rewrite length_imap in Hl.
    apply mapM_res_Forall2 in M. cbn [rules exceptions].
    split; [exact Hl|]. split; [rewrite length_map, length_imap; reflexivity|]. split.
    + intros i item Hi. assert (Hx : imap pair (masking parsed) !! i = Some (i, item))
        by (rewrite list_lookup_imap, Hi; reflexivity).
      destruct (Forall2_lookup_l _ _ _ _ _ M Hx) as (r & Hr & Hc).
      apply compile_rule_Ok in Hc as (? & ? & _ & ?). exists r. auto.
    + intros i item Hi. change (map ?f ?l) with (f <$> l).
      rewrite list_lookup_fmap, list_lookup_imap, Hi. reflexivity.
  - apply mapM_res_Err in M as (i & [j item] & Hi & He & Hb).
    rewrite list_lookup_imap in Hi. destruct (masking parsed !! i) as [item'|] eqn:Hm;
      [|discriminate]. injection Hi as <- ->. unfold compile_rule in He. cbn [fst snd] in He.
    destruct (build _ _ _ _) as [|cause] eqn:B; [discriminate|]. injection He as <-.
    exists i, item, cause. repeat split; auto. intros k item' Hk Hitem.
    specialize (Hb k (k, item') Hk). rewrite list_lookup_imap, Hitem in Hb.
    specialize (Hb eq_refl). unfold compile_rule in Hb. cbn [fst snd] in Hb.
    destruct (build registry (rule_build item') _ _); [reflexivity|discriminate].
Qed.

(** In an adopted configuration an administrative id names one item: every
    rule and every exception has an id, no two rules and no two exceptions
    share one, and no rule shares one with an exception; and the limits of the
    session lie in the documented ranges. *)
Theorem adopted_ids_unambiguous raw c :
  model_validate raw = Ok c -> revision c <> UNADOPTED_REVISION ->
  c = raw /\
  (forall r, r ∈ masking c -> exists k, rule_id r = Some k /\
     forall e, e ∈ file_exceptions c -> exc_id e <> Some k) /\
  (forall e, e ∈ file_exceptions c -> is_Some (exc_id e)) /\
  (forall i j r s k, masking c !! i = Some r -> masking c !! j = Some s ->
     rule_id r = Some k -> rule_id s = Some k -> i = j) /\
  (forall i j e f k, file_exceptions c !! i = Some e -> file_exceptions c !! j = Some f ->
     exc_id e = Some k -> exc_id f = Some k -> i = j) /\
  100 <= cfg_statement_timeout_ms (database c) <= 600000 /\
  1 <= cfg_max_rows (database c) <= 1000000.
Proof.
  unfold model_validate, adopted_requires_ids. intros H Hrev.
  apply bind_Ok in H as ([] & Hf & H). apply refuse_if_Ok, negb_false_iff in Hf.
  assert (E : c = raw).
  { destruct (revision raw =? _); [congruence|]. destruct (_ ++ _); [|discriminate].
    apply bind_Ok in H as (? & _ & [= <-]). reflexivity. }
  subst c. rewrite (proj2 (Z.eqb_neq _ _) Hrev) in H.
  destruct (missing_ids _ _ ++ _) eqn:M; [|discriminate].
  apply app_nil in M as [M1 M2]. rewrite missing_ids_nil, Forall_map, Forall_forall in M1.
  rewrite missing_ids_nil, Forall_map, Forall_forall in M2.
  apply bind_Ok in H as ([] & Hr & _). apply refuse_if_Ok, orb_false_iff in Hr as [R1 R2].
  unfold file_fields, database_fields in Hf. rewrite !andb_true_iff, !forallb_forall in Hf.
  destruct Hf as (((_ & F1) & F2) & ((D1 & D2) & D3) & D4). rewrite !Z.leb_le in *.
  split; [reflexivity|]. split; [|split; [|split; [|split; [|split]]]].
  - intros r Hin. destruct (M1 r Hin) as [k Hk]. exists k. split; [exact Hk|]. intros e He Hek.
    rewrite list_elem_of_In in Hin. rewrite list_elem_of_In in He. specialize (F1 r Hin). specialize (F2 e He).
    unfold rule_fields, exception_fields, id_field in F1, F2. rewrite Hk in F1. rewrite Hek in F2.
    rewrite !andb_true_iff in F1. rewrite !andb_true_iff in F2. destruct F1 as [_ F1], F2 as [_ F2].
    unfold id_matches in F1, F2. rewrite !andb_true_iff, startswith_spec in F1.
    rewrite !andb_true_iff, startswith_spec in F2.
    destruct F1 as [[[t1 E1] _] _], F2 as [[[t2 E2] _] _]. rewrite E1 in E2. discriminate E2.
  - exact M2.
  - eapply repeated_false. exact R1.
  - eapply repeated_false. exact R2.
  - unfold MIN_STATEMENT_TIMEOUT_MS, MAX_STATEMENT_TIMEOUT_MS in *. lia.
  - unfold MIN_MAX_ROWS, MAX_MAX_ROWS in *. lia.
Qed.

(** ** Witnesses *)

Definition sample_id (prefix : string) (digit : string) : pystr :=
  py prefix ++ concat (replicate 32 (py digit)).

Definition sample_file : MaskingFileConfig :=
  {| revision := 3;
     masking := [{| rule_match := {| cfg_match := py "mail"; cfg_mode := CONTAINS;
                                     cfg_case_sensitive := false |};
                    rule_build := py "fixed"; rule_params := {[ py "value" := VStr (py "x") ]};
                    rule_id := Some (sample_id "rul_" "a") |}];
     file_exceptions := [{| exc_match := {| cfg_match := py "mail_id"; cfg_mode := EXACT;
                                            cfg_case_sensitive := false |};
                            exc_id := Some (sample_id "exc_" "0") |}];
     database := {| cfg_statement_timeout_ms := 30000; cfg_max_rows := 1000 |};
     sql := {| cfg_allowed_pg_functions := []; cfg_denied_functions := [] |} |}.

Lemma adopted_ids_unambiguous_witness :
  model_validate sample_file = Ok sample_file /\
  exists k, rule_id <$> (masking sample_file !! 0%nat) = Some (Some k).
Proof.
  assert (H : model_validate sample_file = Ok sample_file).
  { unfold model_validate, adopted_requires_ids.
    replace (file_fields sample_file) with true by (vm_compute; reflexivity).
    replace (repeated (map rule_id (masking sample_file)) || _) with false
      by (vm_compute; reflexivity). reflexivity. }
  split; [exact H|].
  destruct (proj1 (proj2 (adopted_ids_unambiguous _ _ H ltac:(discriminate)))
              (List.hd (List.hd (Build_RuleConfig (Build_MatchConfig [] EXACT true) [] ∅ None)
                          (masking sample_file)) (masking sample_file)) ltac:(left)) as (k & Hk & _).
  exists k. rewrite <- Hk. reflexivity.
Defined.
