(* ===== verification/Columns.v ===== *)
(** * Columns: provenance and column descriptors of a result set

    Models [db/columns.py] and [db/provenance.py]: the resolver that turns the
    [(table oid, column number)] pairs PostgreSQL attaches to a result into
    origins, with its per-connection cache, and the descriptors the masking
    engine reads.  The catalog query is the server's: its answer, a list of
    rows or an error, is an argument. *)

From S2P Require Import Prelude.
From S2P Require Import Masking.

Local Open Scope Z_scope.

(** ** Origins, [columns.py] *)

Record ColumnOrigin := {
  kind : ProvenanceKind;
  origin_column : option pystr;
  schema : option pystr;
  table : option pystr;
}.

Definition DERIVED_ORIGIN : ColumnOrigin :=
  {| kind := DERIVED; origin_column := None; schema := None; table := None |}.

Definition UNKNOWN_ORIGIN : ColumnOrigin :=
  {| kind := UNKNOWN; origin_column := None; schema := None; table := None |}.

Inductive columns_error :=
| NoResultSet
| Misaligned (origins columns : nat).

(** The descriptor of one column, from the three sequences zipped together. *)
Definition descriptor (name : pystr) (o : ColumnOrigin) (rule : option Z) : ColumnDescriptor :=
  {| output_name := name; origin_name := origin_column o; origin_schema := schema o;
     origin_table := table o; provenance_kind := kind o; derived_rule_index := rule |}.

(** [describe_columns]; [description] is given by its column names. *)
Definition describe_columns (description : option (list pystr))
    (origins : option (list ColumnOrigin)) (sensitivity : option (list (option Z)))
    : res columns_error (list ColumnDescriptor) :=
  match description with
  | None => Err NoResultSet
  | Some description =>
      let derived := match sensitivity with
        | Some s => if (length s =? length description)%nat then s
                    else replicate (length description) None
        | None => replicate (length description) None
        end in
      let resolved := match origins with
        | None => replicate (length description) UNKNOWN_ORIGIN
        | Some o => o
        end in
      refuse_if (negb (length resolved =? length description)%nat)
        (Misaligned (length resolved) (length description));;
      Ok (zip_with (fun no r => descriptor no.1 no.2 r) (zip description resolved) derived)
  end.

(** ** The resolver, [provenance.py] *)

(** [(oid, attnum)]. *)
Abbreviation provenance_key := (Z * Z)%type.

Definition VIEW_RELKINDS : list pystr := map py ["v"; "m"].

(** One row of the catalog query. *)
Record catalog_row := {
  row_key : provenance_key;
  row_schema : pystr;
  row_relation : pystr;
  row_column : pystr;
  row_relkind : pystr;
}.

(** [_has_origin]. *)
Definition has_origin (key : provenance_key) : bool := negb (key.1 =? 0) && negb (key.2 =? 0).

(** [provenance_keys]: [None] without a result or without its metadata. *)
Definition provenance_keys (pgresult : option (nat -> provenance_key))
    (description : option (list pystr)) : option (list provenance_key) :=
  match pgresult, description with
  | Some cell, Some d => Some (map cell (seq 0 (length d)))
  | _, _ => None
  end.

Definition origin_of_row (r : catalog_row) : ColumnOrigin :=
  {| kind := if name_in (row_relkind r) VIEW_RELKINDS then VIEW else DIRECT;
     origin_column := Some (row_column r); schema := Some (row_schema r);
     table := Some (row_relation r) |}.

(** The order of Python's tuples. *)
Definition key_lex (a b : provenance_key) : Prop := a.1 < b.1 \/ a.1 = b.1 /\ a.2 <= b.2.

#[export] Instance key_lex_dec : RelDecision key_lex.
Proof. intros a b. unfold key_lex. apply _. Defined.

(** The state of a [ProvenanceResolver]. *)
Abbreviation origin_cache := (gmap provenance_key ColumnOrigin).

(** [sorted({key for key in keys if ...})]. *)
Definition missing_keys (cache : origin_cache) (keys : list provenance_key)
    : list provenance_key :=
  merge_sort key_lex
    (remove_dups (filter (fun k => has_origin k = true /\ cache !! k = None) keys)).

(** [_load], when the catalog answered [rows]. *)
Definition store_rows (rows : list catalog_row) (cache : origin_cache) : origin_cache :=
  foldl (fun c r => <[row_key r := origin_of_row r]> c) cache rows.

Definition store_absent (keys : list provenance_key) (cache : origin_cache) : origin_cache :=
  foldl (fun c k => match c !! k with Some _ => c | None => <[k := UNKNOWN_ORIGIN]> c end)
    cache keys.

(** [_origin_of]. *)
Definition origin_of (cache : origin_cache) (key : provenance_key) : ColumnOrigin :=
  if has_origin key then default UNKNOWN_ORIGIN (cache !! key) else DERIVED_ORIGIN.

(** The catalog's answer to a query for some keys; [None] when it raises. *)
Abbreviation catalog := (list provenance_key -> option (list catalog_row)).

Inductive resolve_error := CatalogUnavailable.

Definition load (answer : catalog) (keys : list provenance_key) : st origin_cache resolve_error unit :=
  match answer keys with
  | None => raise_st CatalogUnavailable
  | Some rows => cache ← get_st; put_st (store_absent keys (store_rows rows cache))
  end.

Definition resolve_origins (answer : catalog) (keys : list provenance_key)
    : st origin_cache resolve_error (list ColumnOrigin) :=
  cache ← get_st;
  (match missing_keys cache keys with
   | [] => mret tt
   | missing => load answer missing
   end);;
  cache ← get_st; mret (map (origin_of cache) keys).

(** ** Descriptor lemmas *)

Lemma describe_columns_Ok names origins s cs :
  describe_columns (Some names) origins s = Ok cs ->
  length cs = length names /\
  forall i n, names !! i = Some n -> exists c, cs !! i = Some c /\
    output_name c = n /\
    (forall os, origins = Some os -> exists o, os !! i = Some o /\
       origin_name c = origin_column o /\ provenance_kind c = kind o) /\
    (forall l o, s = Some l -> length l = length names -> l !! i = Some o ->
       derived_rule_index c = o).
Proof.
  unfold describe_columns. intros H. apply bind_Ok in H as ([] & Hr & [= <-]).
  apply refuse_if_Ok, negb_false_iff, Nat.eqb_eq in Hr.
  set (resolved := match origins with None => _ | Some o => o end) in *.
  set (derived := match s with Some _ => _ | None => _ end).
  assert (Hd : length derived = length names).
  { subst derived. destruct s as [l|]; [|apply length_replicate].
    destruct (Nat.eqb_spec (length l) (length names)); [assumption|apply length_replicate]. }
  split; [rewrite length_zip_with, length_zip_with; lia|]. intros i n Hn.
  pose proof (lookup_lt_Some _ _ _ Hn) as Hi.
  destruct (lookup_lt_is_Some_2 resolved i) as [o Ho]; [lia|].
  destruct (lookup_lt_is_Some_2 derived i) as [r Hr']; [lia|].
  exists (descriptor n o r). split.
  { rewrite lookup_zip_with, (zip_lookup _ _ _ _ _ Hn Ho). cbn. rewrite Hr'. reflexivity. }
  split; [reflexivity|]. split.
  - intros os ->. exists o. auto.
  - intros l o' -> Hl Ho'. subst derived. rewrite (proj2 (Nat.eqb_eq _ _) Hl) in Hr'. cbn. congruence.
Qed.

(** ** Cache lemmas *)

Lemma elem_of_missing cache keys k :
  k ∈ missing_keys cache keys <-> k ∈ keys /\ has_origin k = true /\ cache !! k = None.
Proof.
  unfold missing_keys. rewrite (merge_sort_Permutation key_lex), elem_of_remove_dups.
  rewrite list_elem_of_filter. tauto.
Qed.

Lemma missing_keys_nil cache keys :
  missing_keys cache keys = [] <->
  forall k, k ∈ keys -> has_origin k = true -> is_Some (cache !! k).
Proof.
  split.
  - intros E k Hk Ho. destruct (cache !! k) eqn:C; [eauto|].
    assert (H : k ∈ missing_keys cache keys) by (apply elem_of_missing; auto).
    rewrite E in H. inversion H.
  - intros H. destruct (missing_keys cache keys) as [|k l] eqn:E; [reflexivity|].
    assert (Hk : k ∈ missing_keys cache keys) by (rewrite E; left).
    apply elem_of_missing in Hk as (Hk & Ho & Hc). destruct (H k Hk Ho). congruence.
Qed.

Lemma store_rows_other rows cache k :
  (forall r, r ∈ rows -> row_key r <> k) -> store_rows rows cache !! k = cache !! k.
Proof.
  unfold store_rows. revert cache. induction rows as [|r rows IH]; intros cache H; [reflexivity|].
  cbn [foldl]. rewrite IH by (intros; apply H; right; assumption).
  apply lookup_insert_ne. apply H. left.
Qed.

Lemma store_absent_lookup keys cache k :
  store_absent keys cache !! k =
  match cache !! k with
  | Some o => Some o
  | None => if decide (k ∈ keys) then Some UNKNOWN_ORIGIN else None
  end.
Proof.
  unfold store_absent. revert cache. induction keys as [|x keys IH]; intros cache; cbn [foldl].
  - destruct (cache !! k); [reflexivity|]. case_decide as D; [inversion D|reflexivity].
  - rewrite IH. destruct (cache !! x) eqn:X.
    + destruct (cache !! k) eqn:K; [reflexivity|].
      destruct (decide (k ∈ keys)), (decide (k ∈ x :: keys)) as [D|D]; auto.
      * exfalso. apply D. right. assumption.
      * apply elem_of_cons in D as [->|D]; [congruence|contradiction].
    + rewrite lookup_insert. destruct (decide (x = k)) as [->|E].
      * rewrite X, decide_True by left. reflexivity.
      * destruct (cache !! k) eqn:K; [reflexivity|].
        destruct (decide (k ∈ keys)), (decide (k ∈ x :: keys)) as [D|D]; auto.
        -- exfalso. apply D. right. assumption.
        -- apply elem_of_cons in D as [->|D]; [congruence|contradiction].
Qed.

(** ** A stable catalog *)

(** What the catalog says of each column, while its contents do not change:
    an answer lists the rows of exactly the asked columns that exist. *)
Section stable_catalog.
Context (truth : provenance_key -> option catalog_row).
Context (truth_key : forall k r, truth k = Some r -> row_key r = k).

Definition origin_spec (key : provenance_key) : ColumnOrigin :=
  if has_origin key then
    match truth key with Some r => origin_of_row r | None => UNKNOWN_ORIGIN end
  else DERIVED_ORIGIN.

Definition answers (answer : catalog) : Prop :=
  forall keys rows, answer keys = Some rows ->
    forall r, r ∈ rows <-> row_key r ∈ keys /\ truth (row_key r) = Some r.

(** Every entry was learnt from the catalog. *)
Definition cache_ok (cache : origin_cache) : Prop :=
  forall k o, cache !! k = Some o -> has_origin k = true -> o = origin_spec k.

Lemma store_rows_truth rows cache k r :
  r ∈ rows -> row_key r = k -> (forall r', r' ∈ rows -> truth (row_key r') = Some r') ->
  store_rows rows cache !! k = Some (origin_of_row r).
Proof.
  unfold store_rows. revert cache. induction rows as [|x rows IH]; intros cache Hr Hk Ht;
    [inversion Hr|]. cbn [foldl].
  destruct (decide (k ∈ row_key <$> rows)) as [(y & Ek & Hy)%list_elem_of_fmap|N].
  - assert (y = r) as -> by (pose proof (Ht y ltac:(right; exact Hy));
      pose proof (Ht r Hr); congruence).
    apply IH; [exact Hy|exact Hk|]. intros. apply Ht. right. assumption.
  - fold (store_rows rows (<[row_key x := origin_of_row x]> cache)).
    rewrite store_rows_other
      by (intros y Hy Ey; apply N, list_elem_of_fmap; exists y; auto).
    apply elem_of_cons in Hr as [->|Hr];
      [|exfalso; apply N, list_elem_of_fmap; exists r; auto].
    rewrite Hk. apply lookup_insert_eq.
Qed.

Lemma load_lookup answer keys rows cache k :
  answers answer -> answer keys = Some rows ->
  store_absent keys (store_rows rows cache) !! k =
  if decide (k ∈ keys) then
    match truth k with
    | Some r => Some (origin_of_row r)
    | None => match cache !! k with Some o => Some o | None => Some UNKNOWN_ORIGIN end
    end
  else cache !! k.
Proof.
  intros Ha He. specialize (Ha _ _ He). rewrite store_absent_lookup. case_decide as D.
  - destruct (truth k) as [r|] eqn:T.
    + rewrite (store_rows_truth rows cache k r); [reflexivity| |eauto|].
      * apply Ha. rewrite (truth_key _ _ T). auto.
      * intros r' Hr'. apply Ha, Hr'.
    + rewrite store_rows_other; [reflexivity|]. intros r Hr E. apply Ha in Hr as [_ Hr]. congruence.
  - rewrite store_rows_other; [destruct (cache !! k); reflexivity|].
    intros r Hr <-. apply D. apply Ha, Hr.
Qed.

Lemma load_spec answer cache missing rows k :
  answers answer -> cache_ok cache -> answer missing = Some rows ->
  (forall k, k ∈ missing -> has_origin k = true /\ cache !! k = None) ->
  store_absent missing (store_rows rows cache) !! k =
  if decide (k ∈ missing) then Some (origin_spec k) else cache !! k.
Proof.
  intros Ha _ He Hm. rewrite (load_lookup _ _ _ _ _ Ha He). case_decide as D; [|reflexivity].
  destruct (Hm k D) as [Ho Hc]. unfold origin_spec. rewrite Ho, Hc.
  destruct (truth k); reflexivity.
Qed.
End stable_catalog.

Lemma resolve_origins_spec truth answer cache keys
    (truth_key : forall k r, truth k = Some r -> row_key r = k) :
  answers truth answer -> cache_ok truth cache ->
  match resolve_origins answer keys cache with
  | (Ok origins, cache') =>
      origins = map (origin_spec truth) keys /\ cache_ok truth cache' /\
      (forall k, k ∈ keys -> has_origin k = true -> is_Some (cache' !! k)) /\
      (forall k o, cache !! k = Some o -> cache' !! k = Some o)
  | (Err e, cache') =>
      cache' = cache /\ missing_keys cache keys <> [] /\
      answer (missing_keys cache keys) = None
  end.
Proof.
  intros Ha Hc. unfold resolve_origins. run_st.
  assert (Horigins : forall c, cache_ok truth c ->
    (forall k, k ∈ keys -> has_origin k = true -> is_Some (c !! k)) ->
    map (origin_of c) keys = map (origin_spec truth) keys).
  { intros c Hok Hall. apply map_ext_in. intros k Hk. rewrite <- list_elem_of_In in Hk.
    unfold origin_of. destruct (has_origin k) eqn:O; [|unfold origin_spec; rewrite O; reflexivity].
    destruct (Hall k Hk O) as [o Ho]. rewrite Ho. exact (Hok k o Ho O). }
  destruct (missing_keys cache keys) as [|m ms] eqn:M; cbn beta iota.
  - pose proof (proj1 (missing_keys_nil _ _) M) as Hall.
    split; [apply Horigins; assumption|]. auto.
  - unfold load. destruct (answer (m :: ms)) as [rows|] eqn:A; run_st.
    + assert (Hm : forall k, k ∈ m :: ms -> has_origin k = true /\ cache !! k = None).
      { intros k Hk. rewrite <- M in Hk. apply elem_of_missing in Hk. tauto. }
      pose proof (fun k => load_spec truth truth_key _ _ _ _ k Ha Hc A Hm) as L.
      set (c := store_absent (m :: ms) (store_rows rows cache)) in *.
      assert (Hok : cache_ok truth c).
      { intros k o. rewrite L. case_decide; [intros [= <-]; auto|apply Hc]. }
      assert (Hall : forall k, k ∈ keys -> has_origin k = true -> is_Some (c !! k)).
      { intros k Hk Ho. rewrite L. case_decide as D; [eauto|].
        destruct (cache !! k) eqn:C; [eauto|]. exfalso. apply D. rewrite <- M.
        apply elem_of_missing. auto. }
      split; [apply Horigins; assumption|]. split; [exact Hok|]. split; [exact Hall|].
      intros k o Hk. rewrite L. case_decide as D; [|exact Hk].
      destruct (Hm k D). congruence.
    + repeat split; auto; congruence.
Qed.

(** ** Properties *)

(** C36: the resolver's cache is invisible and it fails closed: on a connection
    whose cache was filled from the catalog, resolving the columns of a result
    set gives each column the origin the catalog states for it, the same
    whatever the cache held before, and keeps the cache truthful; it raises only when some
    column with an origin is not cached and the catalog query for exactly the
    uncached columns fails, and then the cache is left as it was. *)
Theorem resolver_refines_catalog truth answer cache keys
    (truth_key : forall k r, truth k = Some r -> row_key r = k) :
  answers truth answer -> cache_ok truth cache ->
  match resolve_origins answer keys cache with
  | (Ok origins, cache') =>
      origins = map (origin_spec truth) keys /\ cache_ok truth cache' /\
      (forall k o, cache !! k = Some o -> cache' !! k = Some o) /\
      (forall answer2 cache2 origins2 cache2', answers truth answer2 -> cache_ok truth cache2 ->
         resolve_origins answer2 keys cache2 = (Ok origins2, cache2') -> origins2 = origins)
  | (Err e, cache') =>
      cache' = cache /\ missing_keys cache keys <> [] /\
      answer (missing_keys cache keys) = None
  end.
Proof.
  intros Ha Hc. pose proof (resolve_origins_spec truth answer cache keys truth_key Ha Hc) as H.
  destruct (resolve_origins answer keys cache) as [[origins|e] cache']; [|exact H].
  destruct H as (-> & Hok & _ & Hext). split; [reflexivity|]. split; [exact Hok|].
  split; [exact Hext|]. intros answer2 cache2 origins2 cache2' Ha2 Hc2 E.
  pose proof (resolve_origins_spec truth answer2 cache2 keys truth_key Ha2 Hc2) as H2.
  rewrite E in H2. apply H2.
Qed.

(** ** Witness *)

Definition sample_row : catalog_row :=
  {| row_key := (16384, 2); row_schema := py "public"; row_relation := py "customers";
     row_column := py "cpf"; row_relkind := py "r" |}.

Definition sample_truth (k : provenance_key) : option catalog_row :=
  if bool_decide (k = (16384, 2)) then Some sample_row else None.

Definition sample_catalog : catalog := fun keys => Some (omap sample_truth keys).

Lemma sample_catalog_answers : answers sample_truth sample_catalog.
Proof.
  intros keys rows [= <-] r. rewrite list_elem_of_omap.
  assert (K : forall k r, sample_truth k = Some r -> row_key r = k).
  { intros k r'. unfold sample_truth. case_bool_decide; [|discriminate]. intros [= <-]. auto. }
  split.
  - intros (k & Hk & Hr). rewrite (K _ _ Hr). auto.
  - intros (Hk & Hr). eauto.
Qed.

Lemma resolver_refines_catalog_witness : exists origins cache',
  resolve_origins sample_catalog [(16384, 2); (0, 0); (16384, 2)] ∅ = (Ok origins, cache') /\
  origins = map (origin_spec sample_truth) [(16384, 2); (0, 0); (16384, 2)].
Proof.
  assert (K : forall k r, sample_truth k = Some r -> row_key r = k).
  { intros k r'. unfold sample_truth. case_bool_decide; [|discriminate]. intros [= <-]. auto. }
  assert (C : cache_ok sample_truth ∅).
  { intros k o H. rewrite lookup_empty in H. discriminate. }
  pose proof (resolver_refines_catalog sample_truth sample_catalog ∅
                [(16384, 2); (0, 0); (16384, 2)] K sample_catalog_answers C) as H.
  destruct (resolve_origins sample_catalog [(16384, 2); (0, 0); (16384, 2)] ∅)
    as [[origins|e] cache'] eqn:E.
  - exists origins, cache'. split; [reflexivity|exact (proj1 H)].
  - exfalso. destruct H as (_ & _ & H). discriminate H.
Defined.
