(* ===== verification/Adapter.v ===== *)
(** * Adapter: from a validated query to masked rows

    Models [db/postgres.py]: opening and checking a session, the execution
    body shared by the plain and the typed API, the batched reading that masks
    before anything leaves; [db/result.py], [db/sanitize.py],
    [db/execution_error.py] and [db/capabilities.py].  The PostgreSQL server
    and psycopg are the operations of [Server], each indexed by the moment of
    the call: two calls may be answered differently. *)

From S2P Require Import Prelude.
From S2P Require Import Canonical.
From S2P Require Import Transformers.
From S2P Require Import Masking.
From S2P Require Import Sql.
From S2P Require Import Sensitivity.
From S2P Require Import Config.
From S2P Require Import Columns.

Local Open Scope Z_scope.

(** ** Errors of the driver, [sanitize.py] and [execution_error.py] *)

(** A [psycopg.Error]: its [sqlstate], or an attribute that raises. *)
Inductive sqlstate_read := SqlState (s : option pystr) | SqlStateRaises.

Definition sqlstate (e : sqlstate_read) : option pystr :=
  match e with SqlState s => s | SqlStateRaises => None end.

Definition QUERY_CANCELED_SQLSTATE : pystr := py "57014".
Definition TIMEOUT_MESSAGE : pystr := py "a consulta excedeu o tempo maximo de execucao".
Definition GENERIC_MESSAGE : pystr := py "erro ao consultar o banco de dados".

Definition MESSAGE_BY_CLASS : list (pystr * pystr) :=
  [ (py "08", py "falha de comunicacao com o banco de dados");
    (py "0A", py "recurso nao suportado pelo banco de dados");
    (py "22", py "erro de dados na consulta");
    (py "23", py "violacao de restricao de integridade");
    (py "25", py "estado de transacao invalido");
    (py "28", py "falha de autenticacao no banco de dados");
    (py "40", py "transacao revertida pelo banco de dados");
    (py "42", py "consulta invalida ou nao permitida");
    (py "53", py "recursos insuficientes no banco de dados");
    (py "54", py "limite do banco de dados excedido");
    (py "57", py "operacao interrompida pelo banco de dados");
    (py "58", py "falha de sistema no banco de dados") ].

(** A dict of the source, by its items: the value of a key. *)
Fixpoint dict_get {A} (d : list (pystr * A)) (k : pystr) : option A :=
  match d with
  | [] => None
  | (k', v) :: d => if bool_decide (k' = k) then Some v else dict_get d k
  end.

(** [classify]. *)
Definition sqlstate_class (e : sqlstate_read) : pystr :=
  match sqlstate e with
  | Some s => if (2 <=? length s)%nat then take 2 s else []
  | None => []
  end.

Inductive ExecutionFailure := QUERY | TIMEOUT | RESOURCE | CONNECTION | INTERNAL.

Inductive capability :=
| SessionLimit (name : pystr) | CatalogUnreadable | OriginUnresolved | UnexpectedProbe | CatalogLost.

Inductive db_error :=
| ConnectionNotOpen
| ColumnsFailed (e : columns_error)
| ResultTypeError | ResultIntegrityError
| QueryTimeout
| Sanitized (message : pystr)
| Typed (category : ExecutionFailure)
| Capability (why : capability)
| NotValidated (e : query_error)
| EngineFailed (e : engine_error)
| OutOfMemory
| ResultShape.

Definition sanitize_error (e : sqlstate_read) : db_error :=
  if bool_decide (sqlstate e = Some QUERY_CANCELED_SQLSTATE) then QueryTimeout
  else Sanitized (default GENERIC_MESSAGE (dict_get MESSAGE_BY_CLASS (sqlstate_class e))).

Definition QUERY_CLASSES : list pystr := map py ["0A"; "21"; "22"; "23"; "40"; "42"; "54"].

(** [_STATE_CHARS]. *)
Definition state_char (c : Z) : bool := (65 <=? c) && (c <=? 90) || (48 <=? c) && (c <=? 57).

Definition classify_typed_error (e : sqlstate_read) : db_error :=
  match e with
  | SqlStateRaises => Typed INTERNAL
  | SqlState None => Typed CONNECTION
  | SqlState (Some state) =>
      if negb (length state =? 5)%nat || negb (forallb state_char state) then Typed INTERNAL
      else if bool_decide (state = QUERY_CANCELED_SQLSTATE) then Typed TIMEOUT
      else if bool_decide (state = py "25006") || name_in (take 2 state) QUERY_CLASSES
      then Typed QUERY
      else if bool_decide (take 2 state = py "53") then Typed RESOURCE
      else if bool_decide (take 2 state = py "08") then Typed CONNECTION
      else Typed INTERNAL
  end.

(** [continuation_candidate] of a typed failure. *)
Definition continuation_candidate (f : ExecutionFailure) : bool :=
  match f with QUERY | TIMEOUT => true | _ => false end.

(** ** Results, [result.py] *)

Definition WIRE_TYPE_SIZES : list (Z * Z) :=
  [(16, 1); (21, 2); (23, 4); (20, 8); (19, 64); (25, -1); (1042, -1); (1043, -1)].
Definition MAX_WIRE_COLUMNS : Z := 1664.
Definition WIRE_TEXT_OID : Z := 25.

Definition wire_type (oid : Z) : bool := existsb (fun kv => kv.1 =? oid) WIRE_TYPE_SIZES.

Record MaskedResult := {
  columns : list ColumnDescriptor;
  decisions : list Decision_;
  rows : list (list pyval);
  truncated : bool;
}.

(** [MaskedResult.__post_init__]. *)
Definition masked_result (m : MaskedResult) : res db_error MaskedResult :=
  refuse_if (negb (length (columns m) =? length (decisions m))%nat) ResultShape;;
  refuse_if (existsb (fun row => negb (length row =? length (columns m))%nat) (rows m)) ResultShape;;
  Ok m.

Record TypedMaskedResult := {
  masked : MaskedResult;
  type_oids : list Z;
}.

Definition typed_column (x : ColumnDescriptor * Decision_ * Z) : bool :=
  bool_decide (decided_output x.1.2 = output_name x.1.1) && wire_type x.2 &&
  negb (bool_decide (action x.1.2 = MASK) && negb (x.2 =? WIRE_TEXT_OID)).

(** [TypedMaskedResult.__post_init__], past its checks of Python types. *)
Definition typed_masked_result (t : TypedMaskedResult) : res db_error TypedMaskedResult :=
  let item := masked t in
  let width := length (columns item) in
  refuse_if (negb ((1 <=? Z.of_nat width) && (Z.of_nat width <=? MAX_WIRE_COLUMNS))
             || negb (length (decisions item) =? width)%nat
             || negb (length (type_oids t) =? width)%nat) ResultIntegrityError;;
  refuse_if (negb (forallb typed_column
                     (zip (zip (columns item) (decisions item)) (type_oids t))))
    ResultIntegrityError;;
  refuse_if (existsb (fun row => negb (length row =? width)%nat) (rows item)) ResultIntegrityError;;
  Ok t.

(** ** The server *)

(** What reading [column.type_code] gives: a value, which is a type's oid if
    it is an [int], or an exception. *)
Inductive type_code_read := TypeCode (oid : option Z) | NoTypeCode | TypeCodeMemory | TypeCodeFails.

(** An executed cursor: its description, its low-level metadata, and the rows
    still to fetch, of which one may fail to load. *)
Record cursor := {
  description : option (list (pystr * type_code_read));
  pgresult : option (nat -> provenance_key);
  pending : list (res sqlstate_read (list pyval));
}.

Class Server := {
  server_connect : nat -> pystr -> res sqlstate_read nat;
  server_closed : nat -> nat -> bool;
  server_settings : nat -> res sqlstate_read (list (pystr * pystr));
  server_probe : nat -> res sqlstate_read (option provenance_key);
  server_catalog : nat -> catalog;
  server_execute : nat -> pystr -> option (list pyval) -> res sqlstate_read cursor;
  server_idle : nat -> res sqlstate_read bool;
  server_rollback : nat -> res sqlstate_read unit;
}.

(** ** The adapter's state *)

(** What an adapter was built with. *)
Record adapter_config := {
  policy : MaskingPolicy;
  settings : DatabaseSettings;
  sql_policy : SqlPolicy;
  batch_size : Z;
  verify_capabilities : bool;
  conninfo_options : option pystr;
}.

(** [PostgresAdapter.__init__]: [ValueError] below one row per batch. *)
Definition valid_batch_size (n : Z) : bool := negb (n <? 1).

(** The connection, the resolver's cache, the moment of the next call to the
    server and the entropy drawn so far. *)
Record adapter := {
  connection : option nat;
  provenance : option origin_cache;
  now : nat;
  drawn : nat;
}.

(** A [psycopg.Error] on its way to a handler, or an error that leaves the
    adapter; [Unfinished] is no exception of the source: it marks a reading
    loop cut by its fuel. *)
Inductive exn :=
| PgError (e : sqlstate_read)
| Raised (e : db_error)
| Unfinished.

Definition tick (a : adapter) : adapter :=
  {| connection := connection a; provenance := provenance a; now := S (now a); drawn := drawn a |}.

Definition set_provenance (cache : origin_cache) (a : adapter) : adapter :=
  {| connection := connection a; provenance := Some cache; now := now a; drawn := drawn a |}.

Definition set_drawn (n : nat) (a : adapter) : adapter :=
  {| connection := connection a; provenance := provenance a; now := now a; drawn := n |}.

(** [close]; a [psycopg.Error] while closing is suppressed. *)
Definition close (a : adapter) : adapter :=
  {| connection := None; provenance := None; now := now a; drawn := drawn a |}.

Section adapter.
Context {L : PyLib} {V : Visitor} {S : Server}.
Context (parse_sql : pystr -> option (list node)) (cfg : adapter_config).

(** One call to the server, which may raise. *)
Definition ask {A} (q : nat -> res sqlstate_read A) : st adapter exn A := fun a =>
  (match q (now a) with Ok x => Ok x | Err e => Err (PgError e) end, tick a).

Definition closed : st adapter exn bool := fun a =>
  match connection a with
  | None => (Ok true, a)
  | Some c => (Ok (server_closed c (now a)), tick a)
  end.

(** [_require_connection]. *)
Definition require_connection : st adapter exn unit :=
  c ← closed; guard_st c (Raised ConnectionNotOpen).

(** ** Opening a session *)

(** [_session_conninfo]: the options the connection is opened with. *)
Definition session_options : pystr :=
  let ours := py "-c default_transaction_read_only=on -c statement_timeout="
              ++ str_int (statement_timeout_ms (settings cfg)) in
  match conninfo_options cfg with
  | Some (c :: existing) => (c :: existing) ++ py " " ++ ours
  | _ => ours
  end.

Definition open_connection : st adapter exn unit := fun a =>
  match server_connect (now a) session_options with
  | Ok c => (Ok tt, {| connection := Some c; provenance := Some ∅;
                       now := Datatypes.S (now a); drawn := drawn a |})
  | Err e => (Err (Raised (sanitize_error e)),
              {| connection := None; provenance := None;
                 now := Datatypes.S (now a); drawn := drawn a |})
  end.

(** [except psycopg.Error: settings = {}]. *)
Definition or_else {A} (m : st adapter exn A) (d : A) : st adapter exn A := fun a =>
  match m a with
  | (Err (PgError _), a) => (Ok d, a)
  | r => r
  end.

(** [dict(rows)]: the last row of a key wins. *)
Definition setting (rows : list (pystr * pystr)) (name : pystr) : option pystr :=
  dict_get (rev rows) name.

Definition expected_settings : list (pystr * pystr) :=
  [ (py "default_transaction_read_only", py "on");
    (py "statement_timeout", str_int (statement_timeout_ms (settings cfg))) ].

Definition verify_session : st adapter exn unit :=
  require_connection;;
  actual ← or_else (ask server_settings) [];
  iterM_st (fun nw => guard_st (negb (bool_decide (setting actual nw.1 = Some nw.2)))
                        (Raised (Capability (SessionLimit nw.1)))) expected_settings.

(** The probe's origin must be the probe column itself. *)
Definition probe_verdict (origins : list ColumnOrigin) : res exn unit :=
  match origins with
  | o :: _ =>
      match kind o, origin_column o with
      | UNKNOWN, _ | _, None => Err (Raised (Capability OriginUnresolved))
      | _, Some name =>
          refuse_if (negb (bool_decide
            ((schema o, table o, Some name) =
             (Some (py "pg_catalog"), Some (py "pg_class"), Some (py "relname")))))
            (Raised (Capability UnexpectedProbe))
      end
  | [] => Err (Raised (Capability OriginUnresolved))
  end.

Definition resolve_probe (key : provenance_key) : st adapter exn unit := fun a =>
  (match (resolve_origins (server_catalog (now a)) [key] ∅).1 with
   | Err CatalogUnavailable => Err (Raised (Capability CatalogLost))
   | Ok origins => probe_verdict origins
   end, tick a).

(** [check_provenance_capability], through a resolver of its own. *)
Definition check_provenance_capability : st adapter exn unit :=
  key ← or_else (ask server_probe) None;
  match key with
  | None => raise_st (Raised (Capability CatalogUnreadable))
  | Some key => resolve_probe key
  end.

(** [except CapabilityError: self.close(); raise]. *)
Definition closing_on_capability (m : st adapter exn unit) : st adapter exn unit := fun a =>
  match m a with
  | (Err (Raised (Capability why)), a) => (Err (Raised (Capability why)), close a)
  | r => r
  end.

Definition connect : st adapter exn unit :=
  c ← closed;
  if negb c then mret tt
  else
    open_connection;;
    closing_on_capability
      (verify_session;;
       if verify_capabilities cfg then check_provenance_capability else mret tt).

(** ** Executing *)

(** [_describe]: provenance first, before any row is read. *)
Definition describe (c : cursor) (sensitivity : option (list (option Z)))
    : st adapter exn (list ColumnDescriptor) := fun a =>
  let names := (fun d => map fst d) <$> description c in
  let finish origins a :=
    (match describe_columns names origins sensitivity with
     | Ok cs => Ok cs
     | Err e => Err (Raised (ColumnsFailed e))
     end, a) in
  match provenance_keys (pgresult c) names, provenance a with
  | Some keys, Some cache =>
      match resolve_origins (server_catalog (now a)) keys cache with
      | (Ok origins, cache) => finish (Some origins) (tick (set_provenance cache a))
      | (Err CatalogUnavailable, cache) =>
          (Err (Raised (Capability CatalogLost)), tick (set_provenance cache a))
      end
  | _, _ => finish None a
  end.

(** The engine's work, drawing from the adapter's entropy. *)
Definition engine {A} (m : st nat engine_error A) : st adapter exn A := fun a =>
  match m (drawn a) with
  | (Ok x, n) => (Ok x, set_drawn n a)
  | (Err e, n) => (Err (Raised (EngineFailed e)), set_drawn n a)
  end.

Definition mask (cs : list ColumnDescriptor) (batch : list (list pyval))
    : st adapter exn (list (list pyval)) := engine (mask_rows (policy cfg) cs batch).

(** [fetchmany(n)]: the first [n] rows; one that fails to load raises. *)
Definition fetchmany (n : nat) (pending : list (res sqlstate_read (list pyval)))
    : st adapter exn (list (list pyval)) := fun a =>
  (match mapM_res id (take n pending) with Ok rows => Ok rows | Err e => Err (PgError e) end, a).

(** The loop of [_read_masked].  Each turn consumes a row, so a fuel greater
    than the number of pending rows is never exhausted. *)
Fixpoint read_batches (fuel : nat) (cs : list ColumnDescriptor)
    (pending : list (res sqlstate_read (list pyval))) (masked : list (list pyval))
    : st adapter exn (list (list pyval) * bool) :=
  match fuel with
  | O => raise_st Unfinished
  | Datatypes.S fuel =>
      let limit := max_rows (settings cfg) in
      let len (l : list (list pyval)) := Z.of_nat (length l) in
      let wanted := Z.to_nat (Z.min (batch_size cfg) (limit - len masked + 1)) in
      batch ← fetchmany wanted pending;
      match batch with
      | [] => mret (masked, false)
      | _ =>
          if limit <? len masked + len batch then
            out ← mask cs (take (Z.to_nat (limit - len masked)) batch);
            mret (masked ++ out, true)
          else
            out ← mask cs batch;
            read_batches fuel cs (drop wanted pending) (masked ++ out)
      end
  end.

Definition read_masked (c : cursor) (cs : list ColumnDescriptor)
    : st adapter exn (list (list pyval) * bool) :=
  read_batches (Datatypes.S (length (pending c))) cs (pending c) [].

(** One turn of [_typed_oids]'s loop. *)
Definition typed_oid (column : pystr * type_code_read) (d : Decision_) : res db_error Z :=
  match action d with
  | MASK => Ok WIRE_TEXT_OID
  | _ =>
      match column.2 with
      | TypeCodeMemory => Err OutOfMemory
      | TypeCodeFails => Err ResultIntegrityError
      | NoTypeCode | TypeCode None => Err ResultTypeError
      | TypeCode (Some oid) => refuse_if (negb (wire_type oid)) ResultTypeError;; Ok oid
      end
  end.

Definition typed_oids (c : cursor) (ds : list Decision_) : res db_error (list Z) :=
  match description c with
  | None => Err ResultTypeError
  | Some d =>
      refuse_if (negb ((1 <=? Z.of_nat (length d)) && (Z.of_nat (length d) <=? MAX_WIRE_COLUMNS)))
        ResultTypeError;;
      refuse_if (negb (length d =? length ds)%nat) ResultIntegrityError;;
      mapM_res (fun cd => typed_oid cd.1 cd.2) (zip d ds)
  end.

Definition raises {A} (m : res db_error A) : st adapter exn A :=
  lift_res (match m with Ok x => Ok x | Err e => Err (Raised e) end).

(** The body of [_run]'s [with]. *)
Definition run_body (query : pystr) (params : option (list pyval))
    (sensitivity : option (list (option Z))) (typed : bool)
    : st adapter exn (MaskedResult * list Z) :=
  c ← ask (fun n => server_execute n query params);
  cs ← describe c sensitivity;
  let ds := map (decide_column (policy cfg)) cs in
  oids ← raises (if typed then typed_oids c ds else Ok []);
  out ← read_masked c cs;
  mret ({| columns := cs; decisions := ds; rows := out.1; truncated := out.2 |}, oids).

(** [_settle]: never left in a transaction; an unusable connection is closed. *)
Definition settle (a : adapter) : adapter :=
  match connection a with
  | None => a
  | Some c =>
      if server_closed c (now a) then tick a
      else match server_idle (Datatypes.S (now a)) with
      | Err _ => close (tick (tick a))
      | Ok true => tick (tick a)
      | Ok false =>
          match server_rollback (Datatypes.S (Datatypes.S (now a))) with
          | Ok _ => tick (tick (tick a))
          | Err _ => close (tick (tick (tick a)))
          end
      end
  end.

(** [_run]'s [try]: the session is settled on every exit, and a driver error
    is replaced by a sanitized one. *)
Definition settled (typed : bool) (body : st adapter exn (MaskedResult * list Z))
    : st adapter exn (MaskedResult * list Z) := fun a =>
  let (r, a) := body a in
  (match r with
   | Ok (m, oids) => match masked_result m with Ok m => Ok (m, oids) | Err e => Err (Raised e) end
   | Err (PgError e) => Err (Raised (if typed then classify_typed_error e else sanitize_error e))
   | Err e => Err e
   end, settle a).

Definition run (query : pystr) (params : option (list pyval)) (sensitivity : option (list (option Z)))
    (typed : bool) : st adapter exn (MaskedResult * list Z) :=
  require_connection;; settled typed (run_body query params sensitivity typed).

(** [execute]: not validated. *)
Definition execute (query : pystr) (params : option (list pyval)) (sensitivity : option (list (option Z)))
    : st adapter exn MaskedResult :=
  r ← run query params sensitivity false; mret r.1.

Definition validated_sensitivity (sql : pystr) : res db_error (option (list (option Z))) :=
  match validate_select parse_sql (sql_policy cfg) sql with
  | Err e => Err (NotValidated e)
  | Ok statement =>
      match analyze_sensitivity statement (policy cfg) with
      | Err reason => Err (NotValidated (QueryRejected reason))
      | Ok s => Ok s
      end
  end.

Definition execute_validated (sql : pystr) : st adapter exn MaskedResult :=
  s ← raises (validated_sensitivity sql); execute sql None s.

Definition execute_typed_validated (sql : pystr) : st adapter exn TypedMaskedResult :=
  s ← raises (validated_sensitivity sql);
  r ← run sql None s true;
  raises (typed_masked_result {| masked := r.1; type_oids := r.2 |}).
End adapter.

(** ** Reading lemmas *)

Section adapter_lemmas.
Context {L : PyLib} {V : Visitor} {S : Server}.
Context (parse_sql : pystr -> option (list node)) (cfg : adapter_config).

Abbreviation limit := (max_rows (settings cfg)).

Lemma mask_run cs batch a :
  mask cfg cs batch a =
  match mask_rows (policy cfg) cs batch (drawn a) with
  | (Ok x, n) => (Ok x, set_drawn n a)
  | (Err e, n) => (Err (Raised (EngineFailed e)), set_drawn n a)
  end.
Proof. reflexivity. Qed.

Lemma mask_nil cs a : mask cfg cs [] a = (Ok [], set_drawn (drawn a) a).
Proof. reflexivity. Qed.

Lemma set_drawn_same a : set_drawn (drawn a) a = a.
Proof. destruct a; reflexivity. Qed.

(** Masking a prefix and then the rest is masking the whole. *)
Lemma mask_app cs l k a :
  mask cfg cs (l ++ k) a = (x ← mask cfg cs l; y ← mask cfg cs k; mret (x ++ y)) a.
Proof.
  unfold mbind, st_bind, mret, st_ret. rewrite !mask_run. unfold mask_rows. rewrite mapM_st_app.
  unfold mbind, st_bind, mret, st_ret.
  destruct (mapM_st _ l (drawn a)) as [[x|e] n]; [|reflexivity]. rewrite mask_run. cbn [drawn set_drawn].
  unfold mask_rows. destruct (mapM_st _ k n) as [[y|e] n']; reflexivity.
Qed.

Lemma mask_length cs l a out a' : mask cfg cs l a = (Ok out, a') -> length out = length l.
Proof.
  rewrite mask_run. destruct (mask_rows _ _ _ _) as [[x|e] n] eqn:M; intros [= <- _].
  eapply mapM_st_length. exact M.
Qed.

Lemma mask_frame cs l a r a' :
  mask cfg cs l a = (r, a') ->
  connection a' = connection a /\ provenance a' = provenance a /\ now a' = now a.
Proof. rewrite mask_run. destruct (mask_rows _ _ _ _) as [[x|e] n]; intros [= <- <-]; auto. Qed.

Lemma fetchmany_Ok n pend a rows a' :
  fetchmany n pend a = (Ok rows, a') <-> a' = a /\ map Ok rows = take n pend.
Proof.
  unfold fetchmany. destruct (mapM_res id (take n pend)) as [rs|e] eqn:M.
  - apply mapM_res_Forall2 in M. assert (E : map Ok rs = take n pend).
    { clear - M. induction M as [|x y l k H _ IH]; [reflexivity|]. cbn. rewrite IH, <- H. reflexivity. }
    split; [intros [= <- <-]; auto|]. intros [-> E']. rewrite <- E in E'.
    f_equal. f_equal. clear - E'. revert rows E'.
    induction rs as [|r rs IH]; intros [|x rows]; cbn; try discriminate; [reflexivity|].
    intros [= -> E]. f_equal. apply IH. exact E.
  - split; [discriminate|]. intros [_ E]. exfalso. rewrite <- E in M. clear - M.
    induction rows as [|r rows IH]; cbn in M; [discriminate|].
    destruct (mapM_res id (map Ok rows)) eqn:M'; [discriminate|]. apply IH. exact M.
Qed.

(** What a completed reading returns: the mask of a prefix of the rows, cut at
    the limit, and whether rows were left. *)
Lemma read_batches_Ok fuel cs pend masked a out tr a' :
  1 <= batch_size cfg -> Z.of_nat (length masked) <= limit ->
  read_batches cfg fuel cs pend masked a = (Ok (out, tr), a') ->
  exists raw rest body, pend = map Ok raw ++ rest /\ mask cfg cs raw a = (Ok body, a') /\
    out = masked ++ body /\ Z.of_nat (length out) <= limit /\
    (if tr then rest <> [] /\ Z.of_nat (length out) = limit else rest = []).
Proof.
  intros Hb. revert pend masked a. induction fuel as [|fuel IH]; intros pend masked a Hm;
    [discriminate|]. cbn [read_batches]. cbv zeta.
  set (wanted := Z.to_nat (Z.min _ _)).
  assert (Hwd : wanted = Z.to_nat (Z.min (batch_size cfg) (limit - Z.of_nat (length masked) + 1)))
    by reflexivity.
  clearbody wanted. intros H.
  apply st_bind_Ok in H as (batch & a1 & Hf & H). apply fetchmany_Ok in Hf as [-> Hf].
  assert (Hw : (1 <= wanted)%nat) by lia.
  assert (Hlen : (length batch <= wanted)%nat).
  { pose proof (f_equal length Hf) as E. rewrite length_map, length_take in E. lia. }
  destruct batch as [|b batch].
  - injection H as <- <- <-. exists [], [], [].
    destruct pend as [|x pend]; [|destruct wanted; [lia|discriminate]].
    split; [reflexivity|]. split; [rewrite mask_nil, set_drawn_same; reflexivity|].
    rewrite app_nil_r. auto.
  - set (bs := b :: batch) in *.
    destruct (Z.ltb_spec limit (Z.of_nat (length masked) + Z.of_nat (length bs))) as [Hlt|Hge].
    + apply st_bind_Ok in H as (o & a2 & Ho & [= <- <- <-]).
      remember (Z.to_nat (limit - Z.of_nat (length masked))) as n eqn:Hn.
      exists (take n bs), (map Ok (drop n bs) ++ drop wanted pend), o.
      pose proof (mask_length _ _ _ _ _ Ho) as Hl. rewrite length_take in Hl.
      split; [|split; [exact Ho|split; [reflexivity|split]]].
      * rewrite app_assoc, <- map_app, take_drop, Hf, take_drop. reflexivity.
      * rewrite length_app. lia.
      * split; [|rewrite length_app; lia]. intros E. apply app_nil in E as [E _].
        apply (f_equal length) in E. rewrite length_map, length_drop in E. cbn [length] in E. lia.
    + apply st_bind_Ok in H as (o & a2 & Ho & H).
      pose proof (mask_length _ _ _ _ _ Ho) as Hl.
      apply IH in H as (raw & rest & body & Hp & Hmask & -> & Hlim & Htr);
        [|rewrite length_app; lia].
      exists (bs ++ raw), rest, (o ++ body).
      split; [rewrite map_app, Hf, <- app_assoc, <- Hp, take_drop; reflexivity|].
      split; [|rewrite app_assoc; auto].
      rewrite mask_app. unfold mbind, st_bind. rewrite Ho, Hmask. reflexivity.
Qed.

(** When every row loads, reading is masking the first [max_rows] rows. *)
Lemma read_batches_eq fuel cs raw masked a :
  1 <= batch_size cfg -> Z.of_nat (length masked) <= limit -> (length raw < fuel)%nat ->
  read_batches cfg fuel cs (map Ok raw) masked a =
  (out ← mask cfg cs (take (Z.to_nat (limit - Z.of_nat (length masked))) raw);
   mret (masked ++ out, limit - Z.of_nat (length masked) <? Z.of_nat (length raw))) a.
Proof.
  intros Hb. revert raw masked a. induction fuel as [|fuel IH]; intros raw masked a Hm Hfuel; [lia|].
  cbn [read_batches]. cbv zeta. set (wanted := Z.to_nat (Z.min _ _)).
  assert (Hwd : wanted = Z.to_nat (Z.min (batch_size cfg) (limit - Z.of_nat (length masked) + 1)))
    by reflexivity.
  clearbody wanted.
  assert (Hw : (1 <= wanted)%nat) by lia.
  remember (limit - Z.of_nat (length masked)) as left eqn:Hleft.
  rewrite (st_bind_run _ _ a (take wanted raw) a)
    by (apply fetchmany_Ok; split; [reflexivity|]; change (map ?f ?l) with (f <$> l);
        apply fmap_take).
  destruct raw as [|r raw].
  { rewrite !take_nil. run_st. rewrite mask_nil, set_drawn_same, app_nil_r.
    f_equal. f_equal. f_equal. symmetry. apply Z.ltb_ge. cbn. lia. }
  destruct (take wanted (r :: raw)) as [|b batch] eqn:T; [destruct wanted; [lia|discriminate]|].
  set (bs := b :: batch) in *.
  assert (Hlen : length bs = (wanted `min` Datatypes.S (length raw))%nat)
    by (rewrite <- T, length_take; reflexivity).
  destruct (Z.ltb_spec limit (Z.of_nat (length masked) + Z.of_nat (length bs))) as [Hlt|Hge].
  - rewrite <- T, take_take.
    replace (Z.to_nat left `min` wanted)%nat with (Z.to_nat left) by lia.
    apply st_bind_ext; [reflexivity|]. intros o s. f_equal. f_equal. f_equal. symmetry.
    apply Z.ltb_lt. cbn [length]. lia.
  - assert (Hdrop : drop wanted (map (Ok (E := sqlstate_read)) (r :: raw))
                    = map Ok (drop wanted (r :: raw))) by (symmetry; apply fmap_drop).
    rewrite Hdrop. assert (Hs : r :: raw = bs ++ drop wanted (r :: raw))
      by (rewrite <- T; symmetry; apply take_drop).
    remember (drop wanted (r :: raw)) as rest eqn:Hrest. clear Hrest Hdrop T Hlen. rewrite Hs.
    rewrite Hs in Hfuel. rewrite length_app in *. clear Hs.
    rewrite take_app_ge by lia. unfold mbind, st_bind, mret, st_ret. rewrite mask_app.
    unfold mbind, st_bind, mret, st_ret.
    destruct (mask cfg cs bs a) as [[o|e] a2] eqn:M; cbn beta iota; [|reflexivity].
    pose proof (mask_length _ _ _ _ _ M) as Hl. subst bs. cbn [length] in *.
    rewrite IH by (rewrite ?length_app; lia).
    rewrite length_app. unfold mbind, st_bind, mret, st_ret.
    replace (limit - Z.of_nat (length masked + length o))
      with (left - Z.of_nat (length (b :: batch))) by (cbn [length]; lia).
    replace (Z.to_nat (left - Z.of_nat (length (b :: batch))))
      with (Z.to_nat left - length (b :: batch))%nat by (cbn [length]; lia).
    destruct (mask cfg cs _ a2) as [[o'|e] a3]; cbn beta iota; [|reflexivity].
    rewrite app_assoc. do 3 f_equal.
    match goal with |- (?x <? ?y) = (?z <? ?w) =>
      destruct (Z.ltb_spec z w); [apply Z.ltb_lt|apply Z.ltb_ge] end; cbn [length] in *; lia.
Qed.

(** The fuel of [read_masked] is enough: the loop is never cut. *)
Lemma read_batches_finishes fuel cs pend masked a a' :
  1 <= batch_size cfg -> Z.of_nat (length masked) <= limit -> (length pend < fuel)%nat ->
  read_batches cfg fuel cs pend masked a <> (Err Unfinished, a').
Proof.
  intros Hb. revert pend masked a. induction fuel as [|fuel IH]; intros pend masked a Hm Hfuel; [lia|].
  cbn [read_batches]. cbv zeta. set (wanted := Z.to_nat (Z.min _ _)).
  assert (Hw : (1 <= wanted)%nat) by (unfold wanted; lia). clearbody wanted.
  unfold mbind, st_bind. unfold fetchmany at 1.
  destruct (mapM_res id (take wanted pend)) as [batch|e] eqn:F; [|discriminate].
  destruct batch as [|b batch]; [discriminate|]. apply mapM_res_length in F.
  rewrite length_take in F. cbn [length] in F.
  destruct (Z.ltb_spec limit (Z.of_nat (length masked) + Z.of_nat (length (b :: batch)))) as [Hlt|Hge].
  - rewrite mask_run. destruct (mask_rows _ _ _ _) as [[x|e] n]; discriminate.
  - destruct (mask cfg cs (b :: batch) a) as [[o|e] a2] eqn:M.
    + pose proof (mask_length _ _ _ _ _ M) as Hl. cbn [length] in *.
      apply IH; rewrite ?length_app, ?length_drop; lia.
    + rewrite mask_run in M. destruct (mask_rows _ _ _ _) as [[x|e'] n]; congruence.
Qed.

Lemma mask_row_widths cs row n out n' :
  mask_row (policy cfg) cs row n = (Ok out, n') -> length out = length cs.
Proof.
  unfold mask_row. intros H. apply st_bind_Ok in H as ([] & n1 & Ha & H).
  apply check_arity_Ok in Ha as [Hl ->]. apply mapM_st_length in H.
  rewrite H, length_zip_with. lia.
Qed.

Lemma mask_widths cs raw a out a' :
  mask cfg cs raw a = (Ok out, a') -> forall row, row ∈ out -> length row = length cs.
Proof.
  rewrite mask_run. destruct (mask_rows _ _ _ _) as [[x|e] n] eqn:M; intros [= <- _] row Hrow.
  rewrite mask_rows_as_rows in M. apply list_elem_of_lookup in Hrow as [i Hi].
  pose proof (mapM_st_length _ _ _ _ _ M) as Hl. pose proof (lookup_lt_Some _ _ _ Hi) as Hlt.
  destruct (lookup_lt_is_Some_2 raw i) as [r Hr]; [lia|].
  destruct (mapM_st_lookup _ _ _ _ _ _ _ M Hr) as (y & s1 & s2 & Hy & Hf).
  rewrite Hi in Hy. injection Hy as <-. eapply mask_row_widths. exact Hf.
Qed.

(** The steps of a completed body. *)
Lemma run_body_Ok query params s typed a m oids a' :
  1 <= batch_size cfg -> 0 <= limit ->
  run_body cfg query params s typed a = (Ok (m, oids), a') ->
  exists t c a1 a2 raw, server_execute t query params = Ok c /\
    describe c s a1 = (Ok (columns m), a2) /\ provenance a1 = provenance a /\
    decisions m = map (decide_column (policy cfg)) (columns m) /\
    (if typed then typed_oids c (decisions m) = Ok oids else oids = []) /\
    mask cfg (columns m) raw a2 = (Ok (rows m), a') /\
    Z.of_nat (length (rows m)) <= limit.
Proof.
  intros Hb Hlim. unfold run_body. intros H.
  apply st_bind_Ok in H as (c & a1 & Hc & H). apply st_bind_Ok in H as (cs & a2 & Hd & H).
  cbv zeta in H. apply st_bind_Ok in H as (oids' & a3 & Ho & H).
  apply st_bind_Ok in H as ([out tr] & a4 & Hr & [= <- <- <-]). cbn [columns decisions rows].
  unfold ask in Hc. destruct (server_execute (now a) query params) as [c'|] eqn:X; [|discriminate].
  injection Hc as -> <-. unfold raises, lift_res in Ho.
  assert (a3 = a2 /\ (if typed then typed_oids c (map (decide_column (policy cfg)) cs) = Ok oids'
                      else oids' = [])) as [-> Ho'].
  { destruct typed; [destruct (typed_oids c _); [|discriminate]|]; injection Ho as <- <-; auto. }
  unfold read_masked in Hr. apply read_batches_Ok in Hr as (raw & rest & body & _ & Hm & -> & Hl & _);
    [|exact Hb|exact Hlim].
  exists (now a), c, (tick a), a2, raw. repeat split; auto.
Qed.

Lemma masked_result_id m m' : masked_result m = Ok m' -> m' = m.
Proof. unfold masked_result. intros H. inv_ok. congruence. Qed.

Lemma run_Ok query params s typed a m oids a' :
  run cfg query params s typed a = (Ok (m, oids), a') ->
  exists a1 a2, connection a1 = connection a /\ provenance a1 = provenance a /\
    run_body cfg query params s typed a1 = (Ok (m, oids), a2) /\ a' = settle a2.
Proof.
  unfold run. intros H. apply st_bind_Ok in H as ([] & a1 & Hc & H).
  assert (connection a1 = connection a /\ provenance a1 = provenance a) as [Hcon Hprov].
  { unfold require_connection in Hc. apply st_bind_Ok in Hc as (b & a0 & Hc & Hg).
    apply guard_st_Ok in Hg as [_ ->]. unfold closed in Hc.
    destruct (connection a) eqn:E; injection Hc as _ <-; cbn; auto. }
  exists a1. unfold settled in H.
  destruct (run_body cfg query params s typed a1) as [[[m' oids']|e] a2] eqn:B.
  - destruct (masked_result m') eqn:M; [|discriminate]. apply masked_result_id in M as ->.
    injection H as -> -> <-. exists a2. auto.
  - destruct e; discriminate.
Qed.

(** A returned result has the declared shape. *)
Lemma run_body_shape query params s typed a m oids a' :
  1 <= batch_size cfg -> 0 <= limit ->
  run_body cfg query params s typed a = (Ok (m, oids), a') -> masked_result m = Ok m.
Proof.
  intros Hb Hl H. apply run_body_Ok in H as (t & c & a1 & a2 & raw & _ & _ & _ & Hd & _ & Hm & _);
    [|assumption..].
  unfold masked_result. rewrite Hd, length_map, Nat.eqb_refl. cbn [negb refuse_if mbind res_bind].
  replace (existsb _ _) with false; [reflexivity|]. symmetry. apply not_true_iff_false.
  rewrite existsb_exists. intros (row & Hrow & Hne). rewrite <- list_elem_of_In in Hrow.
  rewrite (mask_widths _ _ _ _ _ Hm row Hrow), Nat.eqb_refl in Hne. discriminate.
Qed.

Lemma settle_frame a :
  (connection (settle a) = connection a /\ provenance (settle a) = provenance a) \/
  (connection (settle a) = None /\ provenance (settle a) = None).
Proof.
  unfold settle. destruct (connection a) eqn:C; [|rewrite C; auto].
  destruct (server_closed _ _); [cbn; rewrite C; auto|].
  destruct (server_idle _) as [[|]|]; [cbn; rewrite C; auto| |cbn; auto].
  destruct (server_rollback _); cbn; rewrite ?C; auto.
Qed.

(** The rows of a result, against the transformer of a masked column. *)
Lemma masked_cells `{!PyLibLaws L} cs raw a out a' i c row v :
  policy_wf (policy cfg) -> mask cfg cs raw a = (Ok out, a') ->
  cs !! i = Some c -> action (decide_column (policy cfg) c) = MASK ->
  row ∈ out -> row !! i = Some v ->
  v = VNone \/ exists r text o, r ∈ rules (policy cfg) /\
    decided_rule (decide_column (policy cfg) c) = Some (rule_index r) /\
    v = VStr o /\ output_of L (rule_transformer r) text o.
Proof.
  intros Hw Hm Hc Ha Hrow Hv. rewrite mask_run in Hm.
  destruct (mask_rows _ _ _ _) as [[x|e] n] eqn:M; [|discriminate Hm].
  injection Hm as -> _.
  rewrite mask_rows_as_rows in M. apply list_elem_of_lookup in Hrow as [k Hk].
  pose proof (mapM_st_length _ _ _ _ _ M) as Hl. pose proof (lookup_lt_Some _ _ _ Hk) as Hlt.
  destruct (lookup_lt_is_Some_2 raw k) as [r0 Hr0]; [lia|].
  destruct (mapM_st_lookup _ _ _ _ _ _ _ M Hr0) as (y & s1 & s2 & Hy & Hf).
  rewrite Hk in Hy. injection Hy as <-.
  apply mask_row_ok in Hf as (Hl1 & _ & Hcells).
  destruct (lookup_lt_is_Some_2 r0 i) as [v0 Hv0]; [rewrite Hl1; eapply lookup_lt_Some; exact Hc|].
  destruct (Hcells i c v0 Hc Hv0) as (w & Hw' & Hok). rewrite Hv in Hw'. injection Hw' as <-.
  unfold cell_ok in Hok. rewrite decide_True in Hok by exact Ha.
  destruct (null_or_value v0) as [->|Hv0n]; [left; exact Hok|right].
  assert (Hex : exists r text o, r ∈ rules (policy cfg) /\
    decided_rule (decide_column (policy cfg) c) = Some (rule_index r) /\
    canonicalize v0 = Ok text /\ v = VStr o /\ output_of L (rule_transformer r) text o)
    by (destruct v0; [congruence|exact Hok..]).
  destruct Hex as (r & text & o & Hr & Hd & _ & E & Ho). exists r, text, o. auto.
Qed.
End adapter_lemmas.
