(* ===== verification/Pipeline.v ===== *)
(** * Pipeline: the guarantees of the whole adapter

    The theorems that combine the validator, the analysis, the provenance and
    the engine along [execute_validated], [execute_typed_validated] and
    [connect] of [db/postgres.py]. *)

From S2P Require Import Prelude.
From S2P Require Import Unicode.
From S2P Require Import Canonical.
From S2P Require Import Transformers.
From S2P Require Import Masking.
From S2P Require Import Sql.
From S2P Require Import Sensitivity.
From S2P Require Import Config.
From S2P Require Import Columns.
From S2P Require Import Adapter.

Local Open Scope Z_scope.

(** What the loaded configuration guarantees of an adapter. *)
Record config_wf (cfg : adapter_config) : Prop := {
  wf_policy : policy_wf (policy cfg);
  wf_batch : 1 <= batch_size cfg;
  wf_rows : 0 <= max_rows (settings cfg);
}.

(** A column decided MASK by a given rule, and what its cells may hold. *)
Definition protected_by (L : PyLib) (cfg : adapter_config) (m : MaskedResult) (i : nat)
    (r : MaskingRule) : Prop :=
  exists d, decisions m !! i = Some d /\ action d = MASK /\ decided_rule d = Some (rule_index r) /\
    forall row v, row ∈ rows m -> row !! i = Some v ->
      v = VNone \/ exists text o, v = VStr o /\ output_of L (rule_transformer r) text o.

Section pipeline.
Context {L : PyLib} `{!PyLibLaws L} {V : Visitor} {Srv : Server}.
Context (parse_sql : pystr -> option (list node)) (cfg : adapter_config) (wf : config_wf cfg).

Lemma describe_Ok c s a cs a' :
  describe c s a = (Ok cs, a') ->
  exists d origins, description c = Some d /\
    describe_columns (Some (map fst d)) origins s = Ok cs /\
    (forall cell cache, pgresult c = Some cell -> provenance a = Some cache ->
       exists t os cache', origins = Some os /\
         resolve_origins (server_catalog t) (map cell (seq 0 (length d))) cache = (Ok os, cache') /\
         provenance a' = Some cache').
Proof.
  unfold describe. destruct (description c) as [d|]; cbn [fmap option_fmap option_map].
  - unfold provenance_keys. rewrite length_map. destruct (pgresult c) as [cell|].
    + destruct (provenance a) as [cache|].
      * destruct (resolve_origins _ _ cache) as [[os|[]] cache'] eqn:R; [|discriminate].
        destruct (describe_columns _ _ _) eqn:D; [|discriminate]. intros [= <- <-].
        exists d, (Some os). split; [reflexivity|]. split; [exact D|].
        intros cell' cache0 [= <-] [= <-]. exists (now a), os, cache'. auto.
      * destruct (describe_columns _ _ _) eqn:D; [|discriminate]. intros [= <- <-].
        exists d, None. split; [reflexivity|]. split; [exact D|]. discriminate.
    + destruct (describe_columns _ _ _) eqn:D; [|discriminate]. intros [= <- <-].
      exists d, None. split; [reflexivity|]. split; [exact D|]. discriminate.
  - unfold provenance_keys. destruct (pgresult c); cbn; discriminate.
Qed.

Lemma execute_validated_Ok sql a m a' :
  execute_validated parse_sql cfg sql a = (Ok m, a') ->
  exists s oids, validated_sensitivity parse_sql cfg sql = Ok s /\
    run cfg sql None s false a = (Ok (m, oids), a').
Proof.
  unfold execute_validated, execute. intros H. apply st_bind_Ok in H as (s & a1 & Hs & H).
  apply st_bind_Ok in H as ([m' oids] & a2 & Hr & [= <- <-]).
  unfold raises, lift_res in Hs. destruct (validated_sensitivity _ _ _) eqn:E; [|discriminate].
  injection Hs as -> ->. exists s, oids. auto.
Qed.

Lemma validated_sensitivity_Ok sql s :
  validated_sensitivity parse_sql cfg sql = Ok s ->
  exists stmt, parse_sql sql = Some [stmt] /\ is_select stmt = true /\
    (forall n, visited never_skip (RawStmt stmt) n -> node_allowed (sql_policy cfg) n) /\
    analyze_sensitivity (RawStmt stmt) (policy cfg) = Ok s.
Proof.
  unfold validated_sensitivity. destruct (validate_select _ _ _) as [st|] eqn:E; [|discriminate].
  destruct (analyze_sensitivity st (policy cfg)) eqn:A; [|discriminate]. intros [= ->].
  unfold validate_select, parse_single_statement, parse_statements in E.
  apply bind_Ok in E as (s' & H1 & E).
  destruct (parse_sql sql) as [[|stmt [|? ?]]|]; cbn in H1; try discriminate.
  injection H1 as <-. apply bind_Ok in E as (u & H2 & E). apply refuse_if_Ok, negb_false_iff in H2.
  destruct (first_reason _ _) eqn:F; [discriminate|]. injection E as <-.
  exists stmt. do 2 (split; [auto|]). split; [|assumption]. intros n Hn. rewrite first_reason_none in F.
  apply F, walk_visits, Hn.
Qed.

(** A rule at a position of a well-formed policy is the one its index names. *)
Lemma rule_of_index r r' :
  r ∈ rules (policy cfg) -> r' ∈ rules (policy cfg) -> rule_index r = rule_index r' -> r = r'.
Proof.
  intros Hr Hr' E. apply list_elem_of_lookup in Hr as [i Hi]. apply list_elem_of_lookup in Hr' as [j Hj].
  rewrite (wf_policy _ wf i r Hi), (wf_policy _ wf j r' Hj) in E.
  apply Nat2Z.inj in E as ->. congruence.
Qed.

(** From the decision of a column to the content of its cells. *)
Lemma decided_protected s a m oids a' query typed i c r :
  run_body cfg query None s typed a = (Ok (m, oids), a') ->
  columns m !! i = Some c -> r ∈ rules (policy cfg) ->
  action (decide_column (policy cfg) c) = MASK ->
  decided_rule (decide_column (policy cfg) c) = Some (rule_index r) ->
  protected_by L cfg m i r.
Proof.
  intros H Hc Hr Ha Hd.
  apply run_body_Ok in H as (t & cur & a1 & a2 & raw & _ & _ & _ & Hds & _ & Hm & _);
    [|apply wf..].
  exists (decide_column (policy cfg) c). split.
  { rewrite Hds. change (map ?f ?l) with (f <$> l). rewrite list_lookup_fmap, Hc. reflexivity. }
  split; [exact Ha|]. split; [exact Hd|]. intros row v Hrow Hv.
  destruct (masked_cells cfg _ _ _ _ _ i c row v (wf_policy _ wf) Hm Hc Ha Hrow Hv)
    as [->|(r' & text & o & Hr' & Hd' & -> & Ho)]; [auto|right].
  assert (r' = r) as -> by (apply rule_of_index; [assumption..|congruence]).
  exists text, o. auto.
Qed.

(** A position the analysis maps to a rule is masked by it. *)
Lemma derived_protected sql s a m oids a' typed l i r :
  run_body cfg sql None s typed a = (Ok (m, oids), a') -> s = Some l ->
  length l = length (columns m) -> l !! i = Some (Some (rule_index r)) ->
  r ∈ rules (policy cfg) -> protected_by L cfg m i r.
Proof.
  intros H -> Hl Hi Hr. pose proof H as H0.
  apply run_body_Ok in H as (t & cur & a1 & a2 & raw & _ & Hd & _ & _ & _ & _ & _); [|apply wf..].
  apply describe_Ok in Hd as (d & origins & _ & Hd & _).
  destruct (describe_columns_Ok _ _ _ _ Hd) as [Hlen Hcol].
  pose proof (lookup_lt_Some _ _ _ Hi) as Hlt.
  destruct (lookup_lt_is_Some_2 (map fst d) i) as [n Hn]; [lia|].
  destruct (Hcol i n Hn) as (c & Hc & _ & _ & Hder).
  specialize (Hder l _ eq_refl ltac:(lia) Hi).
  apply list_elem_of_lookup in Hr as [k Hk].
  assert (Hrule : derived_rule (policy cfg) c = Some r)
    by (eapply derived_rule_wf; [apply wf|exact Hk|exact Hder]).
  eapply decided_protected; [exact H0|exact Hc|eapply list_elem_of_lookup_2; exact Hk|..];
    unfold decide_column, resolve; rewrite Hrule; reflexivity.
Qed.

(** A column whose origin a rule covers is masked, whatever its alias. *)
Lemma origin_protected s a m oids a' query typed i c o :
  run_body cfg query None s typed a = (Ok (m, oids), a') ->
  columns m !! i = Some c -> origin_name c = Some o -> o <> [] ->
  not_excepted (policy cfg) o ->
  (exists r, r ∈ rules (policy cfg) /\ matches (rule_spec r) (Some o) = true) ->
  exists r, r ∈ rules (policy cfg) /\ protected_by L cfg m i r.
Proof.
  intros H Hc Ho Hne Hex (r0 & Hr0 & Hm0).
  assert (Ha : action (decide_column (policy cfg) c) = MASK).
  { unfold decide_column. destruct (resolve_outcome (policy cfg) c) as [r D|e D F|r D F R|D F R];
      try reflexivity; exfalso.
    - unfold find_by_name in F. apply List.find_some in F as [He M]. rewrite <- list_elem_of_In in He.
      assert (A : authoritative c = o) by (unfold authoritative; rewrite Ho; destruct o; congruence).
      rewrite A in M. rewrite (Hex e He) in M. discriminate.
    - unfold rule_find in R. rewrite find_none_iff in R. specialize (R r0 Hr0).
      apply not_true_iff_false in R. apply R, spec_matches_column_spec. right. exists o. auto. }
  pose proof (proj1 (resolve_mask_iff _ _) Ha) as [t Ht].
  destruct (resolve_transformer _ _ _ Ht) as (r & Hr & _ & Hd).
  exists r. split; [exact Hr|]. eapply decided_protected; eassumption.
Qed.
End pipeline.

(** When [execute_validated] returns, every position whose expression
    references a covered name is masked by the rule that covers it. *)
Lemma execute_validated_protects {L : PyLib} `{!PyLibLaws L} {V : Visitor} {Srv : Server}
    parse_sql cfg sql a m a' :
  config_wf cfg -> execute_validated parse_sql cfg sql a = (Ok m, a') ->
  exists stmt, parse_sql sql = Some [stmt] /\ is_select stmt = true /\
    (forall n, visited never_skip (RawStmt stmt) n -> node_allowed (sql_policy cfg) n) /\
    Z.of_nat (length (rows m)) <= max_rows (settings cfg) /\
    forall i fields n r, references stmt i fields n -> not_excepted (policy cfg) n ->
      List.find (fun r => matches (rule_spec r) (Some n)) (rules (policy cfg)) = Some r ->
      (forall b, b ∈ branches stmt -> length (target_list b) = length (columns m)) ->
      protected_by L cfg m i r.
Proof.
  intros wf H. apply execute_validated_Ok in H as (s & oids & Hs & H).
  destruct (validated_sensitivity_Ok _ _ _ _ Hs) as (stmt & Hp & Hsel & Hall & Ha).
  apply run_Ok in H as (a1 & a2 & _ & _ & H & _).
  exists stmt. split; [exact Hp|]. split; [exact Hsel|]. split; [exact Hall|]. split.
  { apply run_body_Ok in H; [|apply wf..]. destruct H as (? & ? & ? & ? & ? & _ & _ & _ & _ & _ & _ & H).
    exact H. }
  intros i fields n r Href Hex Hf Hw. pose proof Href as (b & t & Hb & Ht & _).
  pose proof (lookup_lt_Some _ _ _ Ht) as Hi.
  destruct (analyze_defined stmt (policy cfg) (length (columns m)) b s) as (l & -> & Hl); auto.
  { rewrite <- (Hw b Hb). lia. }
  eapply derived_protected; [exact wf|exact H|reflexivity|exact Hl| |].
  - unfold analyze_sensitivity in Ha. cbn [raw_stmt] in Ha. rewrite Hsel in Ha.
    apply analyze_select_Ok in Ha as [_ (exported & _ & Hr)].
    rewrite (Hw b Hb), <- Hl in Hi. destruct (Hr i Hi) as (o & Ho & Hpos).
    destruct Href as (b' & t' & Hb' & Ht' & Hv & Hlast & Hn).
    rewrite Ho. f_equal.
    eapply (proj2 (position_rule_Ok _ _ _ _ _ _ Hpos b' t' fields n Hb' Ht' Hv Hlast Hn)).
    apply rule_for_direct; [exact Hex|exact Hf].
  - apply List.find_some in Hf as [Hf _]. apply list_elem_of_In. exact Hf.
Qed.

Lemma execute_validated_shape {L : PyLib} {V : Visitor} {Srv : Server} parse_sql cfg :
  config_wf cfg -> forall sql a m a', execute_validated parse_sql cfg sql a = (Ok m, a') ->
  length (columns m) = length (decisions m) /\
  forall row, row ∈ rows m -> length row = length (columns m).
Proof.
  intros wf sql a m a' H. apply execute_validated_Ok in H as (s & oids & _ & H).
  apply run_Ok in H as (a1 & a2 & _ & _ & H & _).
  apply run_body_Ok in H as (t & c & a3 & a4 & raw & _ & _ & _ & Hd & _ & Hm & _); [|apply wf..].
  split; [rewrite Hd, length_map; reflexivity|]. exact (mask_widths _ _ _ _ _ _ Hm).
Qed.

(** ** Properties *)

(** C2: no alias hides a sensitive column of a table: when [execute_validated]
    returns on an open session, every column of the result that PostgreSQL
    traces to a column of a relation the catalog knows, and whose real name a
    rule covers and no exception releases, is masked whatever the query calls
    it; losing the catalog makes the query fail instead. *)
Theorem known_origin_masked {L : PyLib} `{!PyLibLaws L} {V : Visitor} {Srv : Server}
    parse_sql cfg sql a m a' truth cache :
  config_wf cfg ->
  (forall k r, truth k = Some r -> row_key r = k) ->
  (forall t, answers truth (server_catalog t)) ->
  provenance a = Some cache -> cache_ok truth cache ->
  execute_validated parse_sql cfg sql a = (Ok m, a') ->
  exists t c d, server_execute t sql None = Ok c /\ description c = Some d /\
    length (columns m) = length d /\
    forall cell i row, pgresult c = Some cell -> (i < length d)%nat ->
      has_origin (cell i) = true -> truth (cell i) = Some row -> row_column row <> [] ->
      not_excepted (policy cfg) (row_column row) ->
      (exists r, r ∈ rules (policy cfg) /\ matches (rule_spec r) (Some (row_column row)) = true) ->
      exists r, r ∈ rules (policy cfg) /\ protected_by L cfg m i r.
Proof.
  intros wf Hkey Hans Hprov Hcache H. apply execute_validated_Ok in H as (s & oids & _ & H).
  apply run_Ok in H as (a1 & a2 & _ & Hp1 & H & _). pose proof H as H0.
  apply run_body_Ok in H as (t & c & a3 & a4 & raw & Hexec & Hd & Hp3 & _); [|apply wf..].
  apply describe_Ok in Hd as (d & origins & Hdesc & Hd & Horig).
  destruct (describe_columns_Ok _ _ _ _ Hd) as [Hlen Hcol]. rewrite length_map in Hlen.
  exists t, c, d. repeat split; auto. intros cell i row Hcell Hi Ho Ht Hne Hex Hr.
  destruct (Horig cell cache Hcell ltac:(congruence)) as (t' & os & cache' & -> & Hres & _).
  pose proof (resolve_origins_spec truth (server_catalog t') cache
                (map cell (seq 0 (length d))) Hkey (Hans t') Hcache) as Hspec.
  rewrite Hres in Hspec. destruct Hspec as (-> & _).
  destruct (lookup_lt_is_Some_2 (map fst d) i) as [n Hn]; [rewrite length_map; exact Hi|].
  destruct (Hcol i n Hn) as (col & Hc & _ & Hor & _).
  destruct (Hor _ eq_refl) as (o & Hoi & Hname & _).
  assert (E : o = origin_spec truth (cell i)).
  { change (map ?f ?l) with (f <$> l) in Hoi. rewrite !list_lookup_fmap, lookup_seq_lt in Hoi by exact Hi.
    injection Hoi as <-. reflexivity. }
  unfold origin_spec in E. rewrite Ho, Ht in E. subst o. cbn in Hname.
  eapply origin_protected; eassumption.
Qed.

(** ** Sessions *)

Section sessions.
Context {L : PyLib} {V : Visitor} {Srv : Server}.
Context (cfg : adapter_config).

Lemma ask_Ok {A} (q : nat -> res sqlstate_read A) a x a' :
  ask q a = (Ok x, a') -> q (now a) = Ok x /\ a' = tick a.
Proof. unfold ask. destruct (q (now a)); intros [= <- <-]; auto. Qed.

Lemma or_else_raised {A} (m : st adapter exn A) d a e a' :
  or_else m d a = (Err (PgError e), a') -> False.
Proof. unfold or_else. destruct (m a) as [[x|[e0|e0|]] a1]; intros [=]. Qed.

(** The last of the expected settings that fails is the one reported. *)
Lemma iter_guards_Ok {A} (test : A -> bool) (e : A -> exn) l (a : adapter) u a' :
  iterM_st (fun x => guard_st (negb (test x)) (e x)) l a = (Ok u, a') ->
  a' = a /\ forall x, x ∈ l -> test x = true.
Proof.
  revert a. induction l as [|x l IH]; intros a; cbn [iterM_st].
  - intros [= _ <-]. split; [reflexivity|]. intros ? Hx. inversion Hx.
  - intros H. apply st_bind_Ok in H as ([] & a1 & Hg & H). apply guard_st_Ok in Hg as [Hg ->].
    apply negb_false_iff in Hg. destruct (IH _ H) as [-> Hl]. split; [reflexivity|].
    intros y [->|Hy]%elem_of_cons; auto.
Qed.

Lemma iter_guards_Err {A} (test : A -> bool) (e : A -> exn) l (a : adapter) err a' :
  iterM_st (fun x => guard_st (negb (test x)) (e x)) l a = (Err err, a') ->
  a' = a /\ exists x, x ∈ l /\ err = e x.
Proof.
  revert a. induction l as [|x l IH]; intros a; cbn [iterM_st]; [discriminate|].
  unfold mbind, st_bind, guard_st. destruct (test x); cbn [negb].
  - intros H. destruct (IH _ H) as (-> & y & Hy & ->). split; [reflexivity|]. exists y.
    split; [right; exact Hy|reflexivity].
  - intros [= <- <-]. split; [reflexivity|]. exists x. split; [left|reflexivity].
Qed.

Lemma closed_frame a b a' :
  closed a = (Ok b, a') -> connection a' = connection a /\ provenance a' = provenance a.
Proof. unfold closed. destruct (connection a) eqn:E; intros [= _ <-]; cbn; auto. Qed.

Lemma require_connection_cases a r a' :
  require_connection a = (r, a') ->
  connection a' = connection a /\ provenance a' = provenance a /\
  (r = Ok tt \/ r = Err (Raised ConnectionNotOpen)).
Proof.
  unfold require_connection, mbind, st_bind. destruct (closed a) as [[b|e] a1] eqn:C.
  - destruct (closed_frame _ _ _ C) as [H1 H2]. destruct b; cbn; intros [= <- <-]; auto.
  - unfold closed in C. destruct (connection a); discriminate.
Qed.

Lemma or_else_frame {A} (q : nat -> res sqlstate_read A) d a r a' :
  or_else (ask q) d a = (r, a') -> exists x, r = Ok x /\ a' = tick a /\ (q (now a) = Ok x \/ x = d).
Proof.
  unfold or_else, ask. destruct (q (now a)) as [x|e]; intros [= <- <-]; eauto.
Qed.

Lemma verify_session_cases a r a' :
  verify_session cfg a = (r, a') ->
  connection a' = connection a /\ provenance a' = provenance a /\
  match r with
  | Ok _ => exists t l, (server_settings t = Ok l \/ l = []) /\
      forall nw, nw ∈ expected_settings cfg -> setting l nw.1 = Some nw.2
  | Err e => e = Raised ConnectionNotOpen \/ exists n, e = Raised (Capability (SessionLimit n))
  end.
Proof.
  unfold verify_session, mbind, st_bind. destruct (require_connection a) as [r1 a1] eqn:R.
  destruct (require_connection_cases _ _ _ R) as (C1 & P1 & [-> | ->]);
    [|intros [= <- <-]; auto].
  destruct (or_else (ask server_settings) [] a1) as [r2 a2] eqn:O.
  apply or_else_frame in O as (l & -> & -> & Hl).
  destruct (iterM_st _ _ _) as [[u|e] a3] eqn:I; intros [= <- <-].
  - apply iter_guards_Ok in I as [-> Hall]. cbn. repeat split; auto. exists (now a1), l.
    split; [exact Hl|]. intros nw Hnw. specialize (Hall nw Hnw).
    apply bool_decide_eq_true in Hall. exact Hall.
  - apply iter_guards_Err in I as (-> & x & _ & ->). cbn. eauto.
Qed.

Lemma capability_check_cases a r a' :
  check_provenance_capability a = (r, a') ->
  connection a' = connection a /\ provenance a' = provenance a /\
  match r with Ok _ => True | Err e => exists w, e = Raised (Capability w) end.
Proof.
  unfold check_provenance_capability, mbind, st_bind.
  destruct (or_else (ask server_probe) None a) as [r1 a1] eqn:O.
  apply or_else_frame in O as ([key|] & -> & -> & _); [|intros [= <- <-]; eauto].
  unfold resolve_probe. intros [= <- <-]. cbn. repeat split; auto.
  destruct (resolve_origins _ _ _) as [[os|[]] c]; cbn [fst]; [|eauto].
  unfold probe_verdict. destruct os as [|o os]; [eauto|].
  destruct (kind o), (origin_column o); eauto; destruct (bool_decide _); cbn; eauto.
Qed.

(** What [close] on a capability failure leaves. *)
Lemma closing_cases (m : st adapter exn unit) a r a' :
  closing_on_capability m a = (r, a') ->
  exists a1, m a = (r, a1) /\
    ((exists w, r = Err (Raised (Capability w))) /\ a' = close a1 \/
     ~ (exists w, r = Err (Raised (Capability w))) /\ a' = a1).
Proof.
  unfold closing_on_capability. destruct (m a) as [r1 a1]. intros H. exists a1.
  destruct r1 as [u|[e|e|]]; [..|destruct e|]; injection H as <- <-; split; auto;
    try (left; split; [eexists; reflexivity|reflexivity]);
    right; split; auto; intros (w & [=]).
Qed.
End sessions.

(** ** Errors of the body *)

(** The message for a class is one of the fixed ones. *)
Lemma fixed_message k : default GENERIC_MESSAGE (dict_get MESSAGE_BY_CLASS k) ∈ GENERIC_MESSAGE :: map snd MESSAGE_BY_CLASS.
Proof.
  destruct (dict_get MESSAGE_BY_CLASS k) as [msg|] eqn:D; cbn [default]; [right|left].
  revert D. generalize MESSAGE_BY_CLASS as d. induction d as [|[k' v] d IH]; cbn; [discriminate|].
  destruct (bool_decide _); [intros [= ->]; left|intros D; right; auto].
Qed.

(** A sanitized error is the timeout or a message. *)
Lemma sanitize_cases e : sanitize_error e = QueryTimeout \/ exists msg, sanitize_error e = Sanitized msg.
Proof. unfold sanitize_error. destruct (bool_decide _); eauto. Qed.

(** The errors of the gateway's own that an execution may raise once it is
    connected: of the columns, of a catalog it can no longer read, of the
    engine; and of the announced types, when it is typed. *)
Definition own_error (typed : bool) (d : db_error) : bool :=
  match d with
  | ColumnsFailed _ | Capability CatalogLost | EngineFailed _ => true
  | ResultTypeError | ResultIntegrityError | OutOfMemory => typed
  | _ => false
  end.

(** The exceptions the body of [_run] may end with. *)
Definition body_error (typed : bool) (x : exn) : bool :=
  match x with PgError _ => true | Raised d => own_error typed d | Unfinished => false end.

Section body_errors.
Context {L : PyLib} {Srv : Server}.
Context (cfg : adapter_config).

Lemma typed_oids_errors c ds e : typed_oids c ds = Err e -> body_error true (Raised e) = true.
Proof.
  unfold typed_oids. destruct (description c) as [d|]; [|intros [= <-]; reflexivity].
  unfold refuse_if. destruct (negb (_ && _)); cbn; [intros [= <-]; reflexivity|].
  destruct (negb _); cbn; [intros [= <-]; reflexivity|].
  intros (i & [col dec] & _ & T & _)%mapM_res_Err. cbn [fst snd] in T. unfold typed_oid in T.
  destruct (action dec); try discriminate T; destruct col.2 as [[o|]| | |];
    try (injection T as <-; reflexivity);
    unfold refuse_if in T; destruct (negb _); cbn in T; inversion T; reflexivity.
Qed.

Lemma describe_errors c s a x a' : describe c s a = (Err x, a') -> forall typed, body_error typed x = true.
Proof.
  unfold describe. destruct (provenance_keys _ _) as [ks|]; [destruct (provenance a) as [cache|]|];
    try (destruct (describe_columns _ _ _); intros [= <- _] ?; reflexivity).
  destruct (resolve_origins _ _ _) as [[os|[]] cache']; [|intros [= <- _] ?; reflexivity].
  destruct (describe_columns _ _ _); intros [= <- _] ?; reflexivity.
Qed.

Lemma read_batches_errors fuel cs pend done a x a' :
  read_batches cfg fuel cs pend done a = (Err x, a') -> x = Unfinished \/ forall typed, body_error typed x = true.
Proof.
  revert a done pend. induction fuel as [|fuel IH]; intros a done pend; cbn [read_batches];
    [intros [= <- _]; auto|]. cbv zeta. unfold mbind, st_bind. unfold fetchmany at 1.
  destruct (mapM_res id _) as [[|b batch]|q]; [discriminate| |intros [= <- _]; auto].
  destruct (_ <? _); rewrite mask_run; destruct (mask_rows _ _ _ _) as [[w|q] n];
    try discriminate; try (intros [= <- _]; auto). apply IH.
Qed.

Lemma run_body_errors query params s typed a x a' :
  1 <= batch_size cfg -> 0 <= max_rows (settings cfg) ->
  run_body cfg query params s typed a = (Err x, a') -> body_error typed x = true.
Proof.
  intros Hb Hl. unfold run_body, mbind, st_bind. unfold ask at 1.
  destruct (server_execute (now a) query params) as [c|q]; [|intros [= <- _]; reflexivity].
  destruct (describe c s (tick a)) as [[cs|y] a3] eqn:D;
    [|intros [= <- _]; eapply describe_errors; exact D].
  unfold raises, lift_res.
  destruct (if typed then typed_oids c _ else Ok []) as [os|y] eqn:T.
  2: { intros [= <- _]. destruct typed; [|discriminate]. eapply typed_oids_errors. exact T. }
  cbn beta iota. destruct (read_masked cfg c cs a3) as [[[out tr]|y] a4] eqn:Rm; [discriminate|].
  intros [= <- _]. destruct (read_batches_errors _ _ _ _ _ _ _ Rm) as [->|E]; [|exact (E typed)].
  exfalso. exact (read_batches_finishes cfg _ cs (pending c) [] a3 a4 Hb Hl
                    (Nat.lt_succ_diag_r _) Rm).
Qed.

Lemma classify_typed_cases e : exists f, classify_typed_error e = Typed f.
Proof.
  unfold classify_typed_error. destruct e as [[s|]|]; eauto.
  repeat (match goal with |- context [if ?b then _ else _] => destruct b end); eauto.
Qed.
End body_errors.

(** a session is opened verified or not at all: starting without a
    connection, [connect] returns only when the server itself answered that
    the session is read-only and has the configured statement timeout, with an
    empty provenance cache; a missing limit or a failed provenance probe
    leaves no connection behind; and no driver error leaves it. *)
Theorem connect_verified {Srv : Server} cfg a r a' :
  connection a = None -> connect cfg a = (r, a') ->
  match r with
  | Ok _ => is_Some (connection a') /\ provenance a' = Some ∅ /\
      exists t l, server_settings t = Ok l /\
        setting l (py "default_transaction_read_only") = Some (py "on") /\
        setting l (py "statement_timeout") =
          Some (str_int (statement_timeout_ms (settings cfg)))
  | Err (Raised (Capability _)) => connection a' = None
  | Err (Raised e) => e = ConnectionNotOpen \/
      connection a' = None /\ exists s, e = sanitize_error s
  | Err _ => False
  end.
Proof.
  intros Hn. unfold connect, mbind, st_bind. unfold closed at 1. rewrite Hn.
  cbn [negb]. unfold open_connection at 1. destruct (server_connect (now a) _) as [c|e].
  2: { intros [= <- <-]. destruct (sanitize_cases e) as [E|(msg & E)]; rewrite E; right;
       (split; [reflexivity|]); exists e; congruence. }
  intros H. apply closing_cases in H as (a1 & H & Hcase).
  destruct (verify_session cfg _) as [r1 a2] eqn:Hv.
  destruct (verify_session_cases _ _ _ _ Hv) as (C & P & Hr). cbn [connection provenance] in C, P.
  destruct r1 as [u|e1].
  - assert (Hcap : connection a1 = connection a2 /\ provenance a1 = provenance a2 /\
      match r with Ok _ => True | Err e => exists w, e = Raised (Capability w) end).
    { destruct (verify_capabilities cfg).
      - destruct (capability_check_cases _ _ _ H) as (? & ? & ?). auto.
      - injection H as <- <-. auto. }
    destruct Hcap as (C1 & P1 & Hcap). destruct r as [v|e].
    + destruct Hcase as [[(w & [=]) _]|[_ ->]]. rewrite C1, P1, C, P.
      split; [eauto|]. split; [reflexivity|]. destruct Hr as (t & l & Hl & Hall).
      assert (H1 := Hall (py "default_transaction_read_only", py "on") ltac:(left)).
      assert (H2 := Hall (py "statement_timeout", _) ltac:(right; left)).
      exists t, l. repeat split; auto. destruct Hl as [Hl| ->]; [exact Hl|discriminate].
    + destruct Hcap as (w & ->). destruct Hcase as [[_ ->]|[N _]]; [reflexivity|].
      exfalso. eauto.
  - injection H as <- <-. destruct Hr as [->|(n & ->)].
    + left. reflexivity.
    + destruct Hcase as [[_ ->]|[N _]]; [reflexivity|]. exfalso. eauto.
Qed.

(** The batches are invisible: when every row loads, reading a cursor with
    any batch size returns exactly the first [max_rows] rows, masked as one
    set in the same order with the same entropy, and reports [truncated]
    exactly when the cursor held more; the extra row read to find that out is
    never masked. *)
Theorem read_masked_batches {L : PyLib} cfg c cs raw a :
  1 <= batch_size cfg -> 0 <= max_rows (settings cfg) -> pending c = map Ok raw ->
  read_masked cfg c cs a =
  (out ← engine (mask_rows (policy cfg) cs (take (Z.to_nat (max_rows (settings cfg))) raw));
   mret (out, max_rows (settings cfg) <? Z.of_nat (length raw))) a.
Proof.
  intros Hb Hl Hp. unfold read_masked. rewrite Hp.
  rewrite read_batches_eq; [|assumption|exact Hl|rewrite length_map; lia].
  cbn [length]. rewrite Z.sub_0_r. reflexivity.
Qed.

(** The connected body of an execution ended with an error of the driver. *)
Definition driver_error {L : PyLib} {Srv : Server} cfg query params s typed a (q : sqlstate_read) : Prop :=
  exists a1 a2, require_connection a = (Ok tt, a1) /\ run_body cfg query params s typed a1 = (Err (PgError q), a2).

(** C37: the adapter never lets the driver's exception out and never hangs in its
    loop: whatever the server answers, an execution that raises raises an error
    of the gateway's own. It was not connected; or the driver raised, and its
    SQLSTATE alone decides what is raised instead: a typed execution's category,
    the timeout for a cancelled query, or the message for its class, which is
    one of the fixed ones; or nothing of the driver's reached the end of the
    execution, and the error is that of the columns, of a catalog that could not
    be read, of the engine or, in a typed execution, of the announced types
    (their texts are not modelled). The reading loop is never cut by its
    bound, and a result whose shape disagrees with its columns is never built. *)
Theorem run_errors_sanitized {L : PyLib} {Srv : Server} cfg query params s typed a e a' :
  1 <= batch_size cfg -> 0 <= max_rows (settings cfg) ->
  run cfg query params s typed a = (Err e, a') ->
  exists d, e = Raised d /\ d <> ResultShape /\
    (forall msg, d = Sanitized msg -> msg ∈ GENERIC_MESSAGE :: map snd MESSAGE_BY_CLASS) /\
    match d with
    | ConnectionNotOpen => (require_connection a).1 = Err (Raised ConnectionNotOpen)
    | Typed f => typed = true /\ exists q, driver_error cfg query params s typed a q /\ classify_typed_error q = Typed f
    | QueryTimeout => typed = false /\ exists q, driver_error cfg query params s typed a q /\ sqlstate q = Some QUERY_CANCELED_SQLSTATE
    | Sanitized msg => typed = false /\ exists q, driver_error cfg query params s typed a q /\ sqlstate q <> Some QUERY_CANCELED_SQLSTATE /\
        msg = default GENERIC_MESSAGE (dict_get MESSAGE_BY_CLASS (sqlstate_class q))
    | _ => own_error typed d = true /\ forall q, ~ driver_error cfg query params s typed a q
    end.
Proof.
  intros Hb Hl. unfold run, mbind, st_bind.
  destruct (require_connection a) as [r1 a1] eqn:R.
  destruct (require_connection_cases _ _ _ R) as (_ & _ & [-> | ->]).
  2: { intros [= <- _]. exists ConnectionNotOpen. repeat split; discriminate. }
  unfold settled. destruct (run_body cfg query params s typed a1) as [[[m oids]|x] a2] eqn:B.
  { rewrite (run_body_shape _ _ _ _ _ _ _ _ _ Hb Hl B). discriminate. }
  pose proof (run_body_errors _ _ _ _ _ _ _ _ Hb Hl B) as Hx.
  destruct x as [q|d|]; [| |discriminate].
  - assert (Dr : driver_error cfg query params s typed a q) by (exists a1, a2; auto).
    intros [= <- _]. destruct typed.
    + destruct (classify_typed_cases q) as [f E]. rewrite E. exists (Typed f). repeat split; try discriminate. eauto.
    + unfold sanitize_error. case_bool_decide as Tm; [exists QueryTimeout|eexists (Sanitized _)]; (split; [reflexivity|]);
        (split; [discriminate|]); (split; [intros msg [= <-]|]); eauto 10. apply fixed_message.
  - intros [= <- _]. exists d. cbn [body_error] in Hx. split; [reflexivity|].
    assert (Nd : forall q, ~ driver_error cfg query params s typed a q)
      by (intros q (b1 & b2 & R' & X); rewrite R in R'; injection R' as <-; rewrite B in X; discriminate).
    destruct d; try discriminate Hx; (split; [discriminate|]); (split; [discriminate|]); auto.
Qed.

Lemma typed_oid_Ok col d oid :
  typed_oid col d = Ok oid -> wire_type oid = true /\ (action d = MASK -> oid = 25).
Proof.
  unfold typed_oid. destruct (action d); try (intros [= <-]; split; [reflexivity|auto]);
    destruct col.2 as [[o|]| | |]; try discriminate; intros ([] & Hw & [= <-])%bind_Ok;
    apply refuse_if_Ok, negb_false_iff in Hw; split; [exact Hw|discriminate|exact Hw|discriminate].
Qed.

(** The announced types, one per column of a description of legal width. *)
Lemma typed_oids_Ok c ds oids d :
  description c = Some d -> typed_oids c ds = Ok oids ->
  (1 <=? Z.of_nat (length d)) && (Z.of_nat (length d) <=? MAX_WIRE_COLUMNS) = true /\
  length ds = length d /\ length oids = length d /\
  forall i dec, ds !! i = Some dec ->
    exists oid, oids !! i = Some oid /\ wire_type oid = true /\ (action dec = MASK -> oid = 25).
Proof.
  intros Hd. unfold typed_oids. rewrite Hd. intros ([] & Hr1 & Ho)%bind_Ok.
  apply refuse_if_Ok, negb_false_iff in Hr1.
  apply bind_Ok in Ho as ([] & Hr2 & Ho). apply refuse_if_Ok, negb_false_iff, Nat.eqb_eq in Hr2.
  pose proof (mapM_res_length _ _ _ Ho) as Hlo. rewrite length_zip_with in Hlo.
  apply mapM_res_Forall2 in Ho. repeat split; [exact Hr1|lia..|].
  intros i dec Hi. destruct (lookup_lt_is_Some_2 d i) as [col Hcol];
    [rewrite Hr2; eapply lookup_lt_Some; exact Hi|].
  destruct (Forall2_lookup_l _ _ _ _ _ Ho (zip_lookup _ _ _ _ _ Hcol Hi)) as (oid & Hoid & Ht).
  exists oid. split; [exact Hoid|]. exact (typed_oid_Ok _ _ _ Ht).
Qed.

(** The typed API announces what it delivers: a typed execution that
    returns satisfies every check of the wire result, so building it never
    fails; it announces one supported type per column, and a masked column
    always as text, never as its source type. *)
Theorem typed_result_wire_ready {L : PyLib} {Srv : Server} cfg query params s a m oids a' :
  1 <= batch_size cfg -> 0 <= max_rows (settings cfg) ->
  run cfg query params s true a = (Ok (m, oids), a') ->
  typed_masked_result {| masked := m; type_oids := oids |} = Ok {| masked := m; type_oids := oids |} /\
  forall i d, decisions m !! i = Some d ->
    exists oid, oids !! i = Some oid /\ wire_type oid = true /\ (action d = MASK -> oid = 25).
Proof.
  intros Hb Hl H. apply run_Ok in H as (a1 & a2 & _ & _ & H & _).
  pose proof (run_body_shape _ _ _ _ _ _ _ _ _ Hb Hl H) as Hshape.
  apply run_body_Ok in H as (t & c & a3 & a4 & raw & _ & Hd & _ & Hds & Ho & _); [|assumption..].
  apply describe_Ok in Hd as (d & origins & Hdesc & Hd & _).
  destruct (describe_columns_Ok _ _ _ _ Hd) as [Hlen _]. rewrite length_map in Hlen.
  destruct (typed_oids_Ok _ _ _ _ Hdesc Ho) as (Hr1 & Hld & Hlo & Hoid).
  split; [|exact Hoid]. unfold typed_masked_result. cbn [masked type_oids].
  rewrite Hlen, Hr1, Hld, Hlo, Nat.eqb_refl. cbn [negb orb refuse_if mbind res_bind].
  replace (forallb typed_column _) with true.
  2: { symmetry. apply forallb_forall. intros [[col dec] oid] Hin.
       rewrite <- list_elem_of_In in Hin. apply list_elem_of_lookup in Hin as [i Hi].
       apply lookup_zip_with_Some in Hi as ([col' dec'] & oid' & [= <- <- <-] & Hi & Hio).
       apply lookup_zip_with_Some in Hi as (? & ? & [= <- <-] & Hic & Hid).
       destruct (Hoid i dec Hid) as (o & Ho' & Hw & Hmask). rewrite Hio in Ho'. injection Ho' as <-.
       unfold typed_column. cbn [fst snd]. rewrite Hds in Hid.
       change (map ?f ?l) with (f <$> l) in Hid. rewrite list_lookup_fmap, Hic in Hid.
       injection Hid as <-. rewrite bool_decide_eq_true_2, Hw; cbn [andb].
       - case_bool_decide as M; [rewrite (Hmask M)|]; reflexivity.
       - unfold decide_column. destruct (resolve_outcome (policy cfg) col); reflexivity. }
  cbn [negb refuse_if mbind res_bind]. unfold masked_result in Hshape.
  apply bind_Ok in Hshape as ([] & _ & Hshape). apply bind_Ok in Hshape as ([] & Hrows & _).
  apply refuse_if_Ok in Hrows. rewrite Hlen in Hrows. rewrite Hrows. reflexivity.
Qed.

(** ** Witnesses *)

(** A server with one table and a query over it. *)
Definition sample_cursor : cursor :=
  {| description := Some [(py "x", TypeCode (Some 25))];
     pgresult := Some (fun _ => (16384, 2));
     pending := map Ok [[VStr (py "ana@example.com")]; [VNone]] |}.

Definition probe_row : catalog_row :=
  {| row_key := (1259, 2); row_schema := py "pg_catalog"; row_relation := py "pg_class";
     row_column := py "relname"; row_relkind := py "r" |}.

Definition mail_row : catalog_row :=
  {| row_key := (16384, 2); row_schema := py "public"; row_relation := py "customers";
     row_column := py "e_mail"; row_relkind := py "r" |}.

Definition pipeline_truth (k : provenance_key) : option catalog_row :=
  if bool_decide (k = (1259, 2)) then Some probe_row
  else if bool_decide (k = (16384, 2)) then Some mail_row else None.

Definition sample_server : Server :=
  {| server_connect _ _ := Ok 0%nat;
     server_closed _ _ := false;
     server_settings _ := Ok [(py "statement_timeout", py "30000");
                              (py "default_transaction_read_only", py "on")];
     server_probe _ := Ok (Some (1259, 2));
     server_catalog _ keys := Some (omap pipeline_truth keys);
     server_execute _ _ _ := Ok sample_cursor;
     server_idle _ := Ok true;
     server_rollback _ := Ok tt |}.

Definition sample_config : adapter_config :=
  {| policy := sample_policy;
     settings := {| statement_timeout_ms := 30000; max_rows := 10 |};
     sql_policy := DEFAULT_SQL_POLICY; batch_size := 1; verify_capabilities := true;
     conninfo_options := None |}.

Definition closed_adapter : adapter :=
  {| connection := None; provenance := None; now := 0; drawn := 0 |}.
Definition open_adapter : adapter :=
  {| connection := Some 0%nat; provenance := Some ∅; now := 0; drawn := 0 |}.

Definition sample_parse (_ : pystr) : option (list node) := Some [sample_inner].

Lemma sample_config_wf : config_wf sample_config.
Proof.
  split; [|cbn; lia|cbn; lia]. intros [|[|i]] r H; [injection H as <-; reflexivity|discriminate..].
Qed.

Lemma pipeline_truth_key k r : pipeline_truth k = Some r -> row_key r = k.
Proof.
  unfold pipeline_truth. repeat case_bool_decide; intros [= <-]; auto.
Qed.

Lemma sample_server_answers t : answers pipeline_truth (@server_catalog sample_server t).
Proof.
  intros keys rows [= <-] r. rewrite list_elem_of_omap. split.
  - intros (k & Hk & Hr). rewrite (pipeline_truth_key _ _ Hr). auto.
  - intros (Hk & Hr). eauto.
Qed.

(** The run of [SELECT upper(e_mail) AS x FROM customers]. *)
Definition sample_run :=
  @execute_validated sample_lib preorder_visitor sample_server sample_parse sample_config []
    open_adapter.

Lemma known_origin_masked_witness : exists m a',
  sample_run = (Ok m, a') /\ exists t c, @server_execute sample_server t [] None = Ok c.
Proof.
  destruct sample_run as [[m|e] a'] eqn:E; [|vm_compute in E; discriminate].
  exists m, a'. split; [reflexivity|].
  destruct (@known_origin_masked sample_lib _ preorder_visitor sample_server sample_parse
              sample_config [] open_adapter m a' pipeline_truth ∅ sample_config_wf
              pipeline_truth_key sample_server_answers eq_refl
              ltac:(intros k o H; rewrite lookup_empty in H; discriminate) E)
    as (t & c & d & H & _).
  exists t, c. exact H.
Defined.

Lemma connect_verified_witness : exists a',
  @connect sample_server sample_config closed_adapter = (Ok tt, a') /\ is_Some (connection a').
Proof.
  destruct (@connect sample_server sample_config closed_adapter) as [[[]|e] a'] eqn:E;
    [|vm_compute in E; discriminate].
  exists a'. split; [reflexivity|].
  exact (proj1 (@connect_verified sample_server sample_config closed_adapter (Ok tt) a' eq_refl E)).
Defined.

Lemma read_masked_batches_witness :
  @read_masked sample_lib sample_config sample_cursor [sample_column "x" None] open_adapter =
  (out ← engine (@mask_rows sample_lib sample_policy [sample_column "x" None]
                   [[VStr (py "ana@example.com")]; [VNone]]);
   mret (out, false)) open_adapter.
Proof.
  exact (@read_masked_batches sample_lib sample_config sample_cursor [sample_column "x" None]
           [[VStr (py "ana@example.com")]; [VNone]] open_adapter
           ltac:(cbn; lia) ltac:(cbn; lia) eq_refl).
Defined.

Lemma run_errors_sanitized_witness : exists d,
  fst (@run sample_lib sample_server sample_config [] None None false closed_adapter)
    = Err (Raised d) /\ d <> ResultShape.
Proof.
  destruct (@run sample_lib sample_server sample_config [] None None false closed_adapter)
    as [[r|e] a'] eqn:E; [vm_compute in E; discriminate|].
  destruct (@run_errors_sanitized sample_lib sample_server sample_config [] None None false
              closed_adapter e a' ltac:(cbn; lia) ltac:(cbn; lia) E) as (d & -> & H & _).
  exists d. auto.
Defined.

Lemma typed_result_wire_ready_witness : exists m oids a',
  @run sample_lib sample_server sample_config [] None (Some [Some 0]) true open_adapter
    = (Ok (m, oids), a') /\
  is_ok (typed_masked_result {| masked := m; type_oids := oids |}) = true.
Proof.
  destruct (@run sample_lib sample_server sample_config [] None (Some [Some 0]) true open_adapter)
    as [[[m oids]|e] a'] eqn:E; [|vm_compute in E; discriminate].
  exists m, oids, a'. split; [reflexivity|].
  rewrite (proj1 (@typed_result_wire_ready sample_lib sample_server sample_config [] None
                    (Some [Some 0]) open_adapter m oids a' ltac:(cbn; lia) ltac:(cbn; lia) E)).
  reflexivity.
Defined.
