(* ===== verification/Registry.v ===== *)
(** * Registry: the published runtime and the retired ones

    Models [runtime/registry.py]: the reference count and the marks of a
    runtime, and the registry's operations, each of which is one critical
    section under the registry's lock.  Closing an adapter happens outside the
    lock: the operations return or record which adapters are to be closed, and
    the step relation lets any other operation happen before the closing. *)

From S2P Require Import Prelude.

(** ** State *)

(** The lifecycle state of a [Runtime]; its contents never change. *)
Record runtime := {
  refcount : nat;
  retired : bool;
  closed : bool;
}.

(** Runtimes are named by a number.  [acquired_total] counts acquisitions. *)
Record registry := {
  runtimes : gmap nat runtime;
  current : nat;
  retired_list : list nat;
  max_retired : nat;
  acquired_total : nat;
}.

Definition MAX_RETIRED_RUNTIMES : nat := 1.

Inductive registry_error :=
| RetiredRuntimeInUse
| PublishedRuntimeClosed
| ReleaseWithoutAcquire
| SwapToSameRuntime.

Definition fresh_runtime : runtime := {| refcount := 0; retired := false; closed := false |}.

(** [RuntimeRegistry.__init__]. *)
Definition new_registry (initial max : nat) : registry :=
  {| runtimes := {[ initial := fresh_runtime ]}; current := initial; retired_list := [];
     max_retired := max; acquired_total := 0 |}.

Definition runtime_of (g : registry) (r : nat) : runtime :=
  default fresh_runtime (runtimes g !! r).

Definition set_runtime (r : nat) (x : runtime) (g : registry) : registry :=
  {| runtimes := <[r := x]> (runtimes g); current := current g; retired_list := retired_list g;
     max_retired := max_retired g; acquired_total := acquired_total g |}.

Definition set_retired_list (l : list nat) (g : registry) : registry :=
  {| runtimes := runtimes g; current := current g; retired_list := l;
     max_retired := max_retired g; acquired_total := acquired_total g |}.

Definition set_current (c : nat) (g : registry) : registry :=
  {| runtimes := runtimes g; current := c; retired_list := retired_list g;
     max_retired := max_retired g; acquired_total := acquired_total g |}.

Definition count_acquisition (g : registry) : registry :=
  {| runtimes := runtimes g; current := current g; retired_list := retired_list g;
     max_retired := max_retired g; acquired_total := S (acquired_total g) |}.

(** ** Operations *)

Abbreviation reg A := (st registry registry_error A).

Definition retired_in_use (g : registry) : nat := length (retired_list g).

Definition check_can_swap : reg unit := fun g =>
  if max_retired g <=? length (retired_list g) then (Err RetiredRuntimeInUse, g) else (Ok tt, g).

Definition acquire : reg nat := fun g =>
  let r := current g in
  let x := runtime_of g r in
  if retired x || closed x then (Err PublishedRuntimeClosed, g)
  else (Ok r, count_acquisition
          (set_runtime r {| refcount := S (refcount x); retired := retired x;
                            closed := closed x |} g)).

(** [_take_closable_locked]: decides the closing and marks it, at once. *)
Definition take_closable (r : nat) : reg (option nat) := fun g =>
  let x := runtime_of g r in
  if negb (retired x) then (Ok None, g)
  else if 0 <? refcount x then (Ok None, g)
  else if closed x then (Ok None, g)
  else (Ok (Some r),
        set_retired_list (remove_first r (retired_list g))
          (set_runtime r {| refcount := refcount x; retired := retired x; closed := true |} g)).

(** [_release_locked]; [release] closes what it returns, outside the lock. *)
Definition release (r : nat) : reg (option nat) := fun g =>
  let x := runtime_of g r in
  match refcount x with
  | O => (Err ReleaseWithoutAcquire, g)
  | S n => take_closable r (set_runtime r {| refcount := n; retired := retired x;
                                             closed := closed x |} g)
  end.

(** [swap]: retire and publish in one critical section. *)
Definition swap (new : nat) : reg (option nat) :=
  check_can_swap;;
  g ← get_st;
  let old := current g in
  guard_st (Nat.eqb old new) SwapToSameRuntime;;
  let x := runtime_of g old in
  put_st (set_current new
            (set_retired_list (retired_list g ++ [old])
               (set_runtime old {| refcount := refcount x; retired := true;
                                   closed := closed x |} g)));;
  take_closable old.

(** The loop of [close_all] over the pending runtimes. *)
Fixpoint mark_closed (pending : list nat) (g : registry) : list nat * registry :=
  match pending with
  | [] => ([], g)
  | r :: pending =>
      let x := runtime_of g r in
      if closed x then mark_closed pending g
      else
        let (closing, g) := mark_closed pending
          (set_runtime r {| refcount := refcount x; retired := retired x; closed := true |} g) in
        (r :: closing, g)
  end.

(** [close_all]: what it returns is then closed, outside the lock. *)
Definition close_all (g : registry) : list nat * registry :=
  mark_closed (retired_list g ++ [current g]) (set_retired_list [] g).

(** ** Interleaving *)

(** The system around the registry: the references queries hold, the adapters
    whose closing was decided and is still to happen, those closed, and
    whether the shutdown ran. *)
Record system := {
  reg_state : registry;
  held : list nat;
  to_close : list nat;
  adapters_closed : list nat;
  shut : bool;
}.

Definition initial_system (initial max : nat) : system :=
  {| reg_state := new_registry initial max; held := []; to_close := []; adapters_closed := [];
     shut := false |}.

(** Each critical section is a step; so is closing one adapter.  A swap
    publishes a runtime the administrator has just built. *)
Inductive step : system -> system -> Prop :=
| step_acquire s r g :
    acquire (reg_state s) = (Ok r, g) ->
    step s {| reg_state := g; held := r :: held s; to_close := to_close s;
              adapters_closed := adapters_closed s; shut := shut s |}
| step_release s r c g :
    r ∈ held s -> release r (reg_state s) = (Ok c, g) ->
    step s {| reg_state := g; held := remove_first r (held s);
              to_close := option_list c ++ to_close s;
              adapters_closed := adapters_closed s; shut := shut s |}
| step_swap s new c g :
    runtimes (reg_state s) !! new = None ->
    swap new (set_runtime new fresh_runtime (reg_state s)) = (Ok c, g) ->
    step s {| reg_state := g; held := held s; to_close := option_list c ++ to_close s;
              adapters_closed := adapters_closed s; shut := shut s |}
| step_close_all s l g :
    close_all (reg_state s) = (l, g) ->
    step s {| reg_state := g; held := held s; to_close := l ++ to_close s;
              adapters_closed := adapters_closed s; shut := true |}
| step_close s r pre post :
    to_close s = pre ++ r :: post ->
    step s {| reg_state := reg_state s; held := held s; to_close := pre ++ post;
              adapters_closed := r :: adapters_closed s; shut := shut s |}.

Inductive reachable (initial max : nat) : system -> Prop :=
| reach_start : reachable initial max (initial_system initial max)
| reach_step s s' : reachable initial max s -> step s s' -> reachable initial max s'.

(** ** The invariant *)

(** How often a runtime occurs in a list. *)
Definition occurrences (r : nat) (l : list nat) : nat := length (filter (fun x => x = r) l).
Arguments occurrences : simpl never.

(** What the steps maintain: the counts are the references held; a runtime is
    marked closed exactly when its closing was decided, once; the retired list
    holds, once each, the retired runtimes still open, within its bound; one
    runtime is published; and, until the shutdown, the retired runtimes of the
    list are in use ([except] one about to be decided) and no runtime in use is
    closed. *)
Record invariant_but (except : option nat) (s : system) : Prop := {
  inv_count r : refcount (runtime_of (reg_state s) r) = occurrences r (held s);
  inv_once r : occurrences r (to_close s ++ adapters_closed s) =
                 if closed (runtime_of (reg_state s) r) then 1 else 0;
  inv_list r : r ∈ retired_list (reg_state s) -> retired (runtime_of (reg_state s) r) = true;
  inv_open r : shut s = false -> r ∈ retired_list (reg_state s) ->
                 closed (runtime_of (reg_state s) r) = false;
  inv_retired r : retired (runtime_of (reg_state s) r) = true ->
                 closed (runtime_of (reg_state s) r) = false -> r ∈ retired_list (reg_state s);
  inv_nodup : NoDup (retired_list (reg_state s));
  inv_current : retired (runtime_of (reg_state s) (current (reg_state s))) = false;
  inv_known : is_Some (runtimes (reg_state s) !! current (reg_state s));
  inv_published r : is_Some (runtimes (reg_state s) !! r) ->
                 retired (runtime_of (reg_state s) r) = false -> r = current (reg_state s);
  inv_bound : length (retired_list (reg_state s)) <= max_retired (reg_state s);
  inv_busy r : shut s = false -> r ∈ retired_list (reg_state s) -> except <> Some r ->
                 0 < refcount (runtime_of (reg_state s) r);
  inv_use r : shut s = false -> closed (runtime_of (reg_state s) r) = true ->
                 refcount (runtime_of (reg_state s) r) = 0 /\
                 retired (runtime_of (reg_state s) r) = true;
}.

Abbreviation invariant := (invariant_but None).

(** ** Lemmas *)

Lemma runtime_of_set r x g r' :
  runtime_of (set_runtime r x g) r' = if decide (r = r') then x else runtime_of g r'.
Proof.
  unfold runtime_of, set_runtime; cbn [runtimes]. rewrite lookup_insert.
  destruct (decide (r = r')); reflexivity.
Qed.

Lemma runtime_of_list l g r : runtime_of (set_retired_list l g) r = runtime_of g r.
Proof. reflexivity. Qed.
Lemma runtime_of_current c g r : runtime_of (set_current c g) r = runtime_of g r.
Proof. reflexivity. Qed.
Lemma runtime_of_count g r : runtime_of (count_acquisition g) r = runtime_of g r.
Proof. reflexivity. Qed.

Create Rewrite HintDb registry.
#[export] Hint Rewrite runtime_of_set runtime_of_list runtime_of_current runtime_of_count : registry.

Lemma occurrences_cons r x l :
  occurrences r (x :: l) = (if decide (x = r) then 1 else 0) + occurrences r l.
Proof. unfold occurrences. rewrite filter_cons. destruct (decide (x = r)); reflexivity. Qed.

Lemma occurrences_app r l k : occurrences r (l ++ k) = occurrences r l + occurrences r k.
Proof. unfold occurrences. rewrite filter_app, length_app. reflexivity. Qed.

Lemma occurrences_elem r l : r ∈ l <-> 0 < occurrences r l.
Proof.
  induction l as [|x l IH]; [split; [intros H; inversion H|unfold occurrences; cbn; lia]|].
  rewrite elem_of_cons, occurrences_cons, IH. destruct (decide (x = r)); lia.
Qed.

Lemma occurrences_remove r x l :
  x ∈ l -> occurrences r l = (if decide (x = r) then 1 else 0) + occurrences r (remove_first x l).
Proof.
  induction l as [|y l IH]; intros H; [inversion H|]. cbn [remove_first].
  destruct (Nat.eqb_spec y x) as [->|N]; [apply occurrences_cons|].
  apply elem_of_cons in H as [->|H]; [congruence|]. rewrite !occurrences_cons, (IH H). lia.
Qed.

(** What [take_closable] decides. *)
Lemma take_closable_cases r g c g' :
  take_closable r g = (Ok c, g') ->
  let x := runtime_of g r in
  (c = None /\ g' = g /\ (retired x = true -> closed x = false -> 0 < refcount x)) \/
  (c = Some r /\ retired x = true /\ refcount x = 0 /\ closed x = false /\
   g' = set_retired_list (remove_first r (retired_list g))
          (set_runtime r {| refcount := 0; retired := true; closed := true |} g)).
Proof.
  unfold take_closable. cbv zeta. destruct (retired (runtime_of g r)) eqn:R; cbn [negb].
  2: { intros [= <- <-]. left. repeat split; auto. discriminate. }
  destruct (Nat.ltb_spec 0 (refcount (runtime_of g r))) as [H|H].
  { intros [= <- <-]. left. auto. }
  destruct (closed (runtime_of g r)) eqn:C; intros [= <- <-].
  - left. repeat split; auto. discriminate.
  - right. assert (E : refcount (runtime_of g r) = 0) by lia. rewrite E. auto.
Qed.

(** Split every question on the runtime that a step changed. *)
Ltac by_runtime :=
  autorewrite with registry in *;
  repeat match goal with
  | H : context [decide (?x = ?y)] |- _ => destruct (decide (x = y)); subst
  | |- context [decide (?x = ?y)] => destruct (decide (x = y)); subst
  end;
  cbn [refcount retired closed fresh_runtime] in *.

(** The closing decision restores the invariant. *)
Lemma take_closable_invariant r s c g :
  invariant_but (Some r) s -> take_closable r (reg_state s) = (Ok c, g) ->
  invariant {| reg_state := g; held := held s; to_close := option_list c ++ to_close s;
               adapters_closed := adapters_closed s; shut := shut s |}.
Proof.
  intros I H. apply take_closable_cases in H as [(-> & -> & Hbusy)|(-> & Hr & Hc & Hcl & ->)].
  - destruct I. split; cbn; auto. intros x Hs Hx _.
    destruct (decide (x = r)) as [->|N]; [|apply inv_busy0; congruence]. auto.
  - change (option_list (Some r) ++ to_close s) with (r :: to_close s). destruct I.
    split; cbn [app reg_state held to_close adapters_closed shut
      retired_list set_retired_list set_runtime current max_retired runtimes].
    + intros x. by_runtime; [|apply inv_count0]. rewrite <- inv_count0. auto.
    + intros x. rewrite occurrences_cons. by_runtime; [|apply inv_once0].
      rewrite inv_once0, Hcl. reflexivity.
    + intros x Hx. apply elem_of_remove_first in Hx as [Hx _]; [|assumption]. by_runtime; auto.
    + intros x Hs Hx. apply elem_of_remove_first in Hx as [Hx N]; [|assumption].
      by_runtime; [congruence|auto].
    + intros x Hx Hxc. by_runtime; [discriminate|]. apply elem_of_remove_first; auto.
    + apply NoDup_remove_first. assumption.
    + by_runtime; [congruence|assumption].
    + rewrite lookup_insert. destruct (decide _); eauto.
    + intros x Hx. rewrite lookup_insert in Hx. by_runtime; [discriminate|auto].
    + pose proof (length_remove_first r (retired_list (reg_state s))). lia.
    + intros x Hs Hx _. apply elem_of_remove_first in Hx as [Hx N]; [|assumption].
      by_runtime; [congruence|]. apply inv_busy0; congruence.
    + intros x Hs Hx. by_runtime; auto.
Qed.

Lemma acquire_cases g r g' :
  acquire g = (Ok r, g') ->
  r = current g /\ retired (runtime_of g r) = false /\ closed (runtime_of g r) = false /\
  g' = count_acquisition (set_runtime r {| refcount := S (refcount (runtime_of g r));
                                           retired := false; closed := false |} g).
Proof.
  unfold acquire. cbv zeta. destruct (retired (runtime_of g (current g))) eqn:R; [discriminate|].
  destruct (closed (runtime_of g (current g))) eqn:C; [discriminate|].
  intros [= <- <-]. auto.
Qed.

Lemma acquire_invariant s r g :
  invariant s -> acquire (reg_state s) = (Ok r, g) ->
  invariant {| reg_state := g; held := r :: held s; to_close := to_close s;
               adapters_closed := adapters_closed s; shut := shut s |}.
Proof.
  intros I (-> & R & C & ->)%acquire_cases. destruct I.
  split; cbn [reg_state held to_close adapters_closed shut retired_list count_acquisition
    set_runtime current max_retired runtimes]; auto.
  - intros x. rewrite occurrences_cons. by_runtime; rewrite <- inv_count0; reflexivity.
  - intros x. by_runtime; [|apply inv_once0]. rewrite inv_once0, C. reflexivity.
  - intros x Hx. by_runtime; [|auto]. apply inv_list0 in Hx. congruence.
  - intros x Hs Hx. by_runtime; auto.
  - intros x Hx Hxc. by_runtime; [discriminate|auto].
  - by_runtime; [reflexivity|assumption].
  - rewrite lookup_insert. destruct (decide _); eauto.
  - intros x Hx. rewrite lookup_insert in Hx. by_runtime; auto.
  - intros x Hs Hx _. by_runtime; [lia|]. apply inv_busy0; congruence.
  - intros x Hs Hx. by_runtime; [discriminate|auto].
Qed.

Lemma release_invariant s r c g :
  invariant s -> r ∈ held s -> release r (reg_state s) = (Ok c, g) ->
  invariant {| reg_state := g; held := remove_first r (held s);
               to_close := option_list c ++ to_close s;
               adapters_closed := adapters_closed s; shut := shut s |}.
Proof.
  intros I Hr. unfold release. cbv zeta.
  destruct (refcount (runtime_of (reg_state s) r)) as [|n] eqn:C; [discriminate|].
  set (g0 := set_runtime r _ _). intros H.
  apply (take_closable_invariant r
    {| reg_state := g0; held := remove_first r (held s); to_close := to_close s;
       adapters_closed := adapters_closed s; shut := shut s |} c g); [|exact H].
  clear H. subst g0. destruct I.
  split; cbn [reg_state held to_close adapters_closed shut retired_list set_runtime current
    max_retired runtimes]; auto.
  - intros x. pose proof (occurrences_remove x r (held s) Hr) as E. rewrite <- inv_count0 in E.
    by_runtime; lia.
  - intros x. by_runtime; apply inv_once0.
  - intros x Hx. by_runtime; auto.
  - intros x Hs Hx. by_runtime; auto.
  - intros x Hx Hxc. by_runtime; auto.
  - by_runtime; assumption.
  - rewrite lookup_insert. destruct (decide _); eauto.
  - intros x Hx. rewrite lookup_insert in Hx. by_runtime; auto.
    intros Hret. apply inv_published0; [|exact Hret].
    destruct (runtimes (reg_state s) !! x) eqn:E; [eauto|].
    unfold runtime_of in C. rewrite E in C. discriminate.
  - intros x Hs Hx N. by_runtime; [congruence|]. apply inv_busy0; congruence.
  - intros x Hs Hx. by_runtime; [|auto]. destruct (inv_use0 x Hs Hx). lia.
Qed.

Lemma swap_invariant s new c g :
  invariant s -> runtimes (reg_state s) !! new = None ->
  swap new (set_runtime new fresh_runtime (reg_state s)) = (Ok c, g) ->
  invariant {| reg_state := g; held := held s; to_close := option_list c ++ to_close s;
               adapters_closed := adapters_closed s; shut := shut s |}.
Proof.
  intros I Hnew. unfold swap, check_can_swap. run_st. cbn [max_retired retired_list set_runtime].
  destruct (Nat.leb_spec (max_retired (reg_state s)) (length (retired_list (reg_state s)))) as [|Hb];
    [discriminate|].
  set (old := current _). assert (Hold : old = current (reg_state s)) by reflexivity. clearbody old.
  destruct (Nat.eqb_spec old new) as [|N]; [discriminate|]. cbn beta iota.
  set (g0 := set_current new _). intros H.
  apply (take_closable_invariant old
    {| reg_state := g0; held := held s; to_close := to_close s;
       adapters_closed := adapters_closed s; shut := shut s |} c g); [|exact H].
  clear H. subst g0.
  assert (Hfresh : runtime_of (reg_state s) new = fresh_runtime)
    by (unfold runtime_of; rewrite Hnew; reflexivity).
  assert (Hin : forall x, x ∈ retired_list (reg_state s) ++ [old] <->
                          x ∈ retired_list (reg_state s) \/ x = old)
    by (intros x; rewrite elem_of_app, list_elem_of_singleton; reflexivity).
  destruct I. assert (Hret : forall x, x ∈ retired_list (reg_state s) -> x <> old /\ x <> new).
  { intros x Hx. apply inv_list0 in Hx. split; intros ->; [congruence|].
    rewrite Hfresh in Hx. discriminate. }
  split; cbn [reg_state held to_close adapters_closed shut retired_list set_current
    set_retired_list set_runtime current max_retired runtimes].
  - intros x. by_runtime; rewrite <- inv_count0, ?Hfresh; reflexivity.
  - intros x. by_runtime; rewrite inv_once0, ?Hfresh; reflexivity.
  - intros x [Hx| ->]%Hin; [pose proof (Hret x Hx) as [? ?]|]; by_runtime; try congruence; auto.
  - intros x Hs [Hx| ->]%Hin; [pose proof (Hret x Hx) as [? ?]|]; by_runtime; try congruence; auto.
    destruct (closed (runtime_of (reg_state s) (current (reg_state s)))) eqn:C; [|reflexivity].
    destruct (inv_use0 _ Hs C). congruence.
  - intros x Hx Hxc. apply Hin. by_runtime; try discriminate; auto.
  - apply NoDup_app. split; [assumption|]. split; [|apply NoDup_singleton].
    intros x Hx Hx'%list_elem_of_singleton. destruct (Hret x Hx). congruence.
  - by_runtime; first [congruence | reflexivity].
  - rewrite !lookup_insert. repeat destruct (decide _); eauto. congruence.
  - intros x. rewrite !lookup_insert. by_runtime; try discriminate; auto.
    intros Hx Hxr. destruct n. symmetry. auto.
  - rewrite length_app. cbn. lia.
  - intros x Hs [Hx| ->]%Hin Hne; [pose proof (Hret x Hx) as [? ?]|congruence].
    by_runtime; try congruence. apply inv_busy0; congruence.
  - intros x Hs Hx. by_runtime; try discriminate; auto. destruct (inv_use0 _ Hs Hx). congruence.
Qed.

(** ** Closing everything *)

Definition close_mark (x : runtime) : runtime :=
  {| refcount := refcount x; retired := retired x; closed := true |}.

Lemma close_mark_closed x : closed x = true -> close_mark x = x.
Proof. destruct x as [n r c]. cbn. intros ->. reflexivity. Qed.

Lemma mark_closed_frame pending g l g' :
  mark_closed pending g = (l, g') ->
  current g' = current g /\ retired_list g' = retired_list g /\ max_retired g' = max_retired g.
Proof.
  revert g l g'. induction pending as [|p pending IH]; intros g l g'; cbn [mark_closed]; cbv zeta.
  - intros [= _ <-]. auto.
  - destruct (closed (runtime_of g p)); [apply IH|].
    destruct (mark_closed pending _) as [l1 g1] eqn:M. intros [= _ <-]. apply IH in M. exact M.
Qed.

Lemma mark_closed_runtime pending g l g' r :
  mark_closed pending g = (l, g') ->
  runtime_of g' r = if decide (r ∈ pending) then close_mark (runtime_of g r) else runtime_of g r.
Proof.
  revert g l g'. induction pending as [|p pending IH]; intros g l g'; cbn [mark_closed]; cbv zeta.
  - intros [= _ <-]. rewrite decide_False by (intros H; inversion H). reflexivity.
  - destruct (closed (runtime_of g p)) eqn:C.
    + intros M. rewrite (IH _ _ _ M).
      destruct (decide (r ∈ pending)), (decide (r ∈ p :: pending)) as [D|D]; auto.
      * destruct D. right. assumption.
      * apply elem_of_cons in D as [->|D]; [|contradiction]. symmetry. apply close_mark_closed, C.
    + destruct (mark_closed pending _) as [l1 g1] eqn:M. intros [= _ <-]. rewrite (IH _ _ _ M).
      rewrite runtime_of_set.
      destruct (decide (r ∈ pending)), (decide (r ∈ p :: pending)) as [D|D], (decide (p = r)) as [E|E];
        subst; auto; try (destruct D; set_solver); try set_solver.
Qed.

Lemma mark_closed_list pending g l g' :
  NoDup pending -> mark_closed pending g = (l, g') ->
  l = filter (fun r => closed (runtime_of g r) = false) pending.
Proof.
  revert g l g'. induction pending as [|p pending IH]; intros g l g' Hnd; cbn [mark_closed]; cbv zeta.
  - intros [= <- _]. reflexivity.
  - apply NoDup_cons in Hnd as [Hp Hnd]. rewrite filter_cons.
    destruct (closed (runtime_of g p)) eqn:C.
    + intros M. rewrite decide_False by discriminate. eapply IH; eassumption.
    + destruct (mark_closed pending _) as [l1 g1] eqn:M. intros [= <- _].
      rewrite decide_True by reflexivity. f_equal. rewrite (IH _ _ _ Hnd M).
      clear - Hp. induction pending as [|x pending IH]; [reflexivity|].
      rewrite !filter_cons, runtime_of_set, (decide_False (P := p = x)) by set_solver.
      destruct (decide _); rewrite IH by set_solver; reflexivity.
Qed.

Lemma mark_closed_known pending g l g' r :
  mark_closed pending g = (l, g') -> is_Some (runtimes g' !! r) ->
  is_Some (runtimes g !! r) \/ r ∈ pending.
Proof.
  revert g l g'. induction pending as [|p pending IH]; intros g l g'; cbn [mark_closed]; cbv zeta.
  - intros [= _ <-]. auto.
  - destruct (closed (runtime_of g p)).
    + intros M Hr. destruct (IH _ _ _ M Hr); [auto|right; right; assumption].
    + destruct (mark_closed pending _) as [l1 g1] eqn:M. intros [= _ <-] Hr.
      destruct (IH _ _ _ M Hr) as [H|H]; [|right; right; exact H].
      cbn [set_runtime runtimes] in H. rewrite lookup_insert in H.
      destruct (decide (p = r)) as [->|]; [right; left|auto].
Qed.

Lemma occurrences_filter_nodup (P : nat -> Prop) `{forall x, Decision (P x)} l r :
  NoDup l ->
  occurrences r (filter P l) = if decide (r ∈ l) then (if decide (P r) then 1 else 0) else 0.
Proof.
  induction l as [|x l IH]; intros Hnd; [rewrite decide_False by (intros E; inversion E); reflexivity|].
  apply NoDup_cons in Hnd as [Hx Hnd]. rewrite filter_cons.
  destruct (decide (x = r)) as [->|N].
  - rewrite (decide_True (P := r ∈ r :: l)) by left.
    specialize (IH Hnd). rewrite decide_False in IH by exact Hx.
    destruct (decide (P r)); [rewrite occurrences_cons, decide_True by reflexivity|]; lia.
  - assert (E : (if decide (P x) then x :: filter P l else filter P l) = filter P l \/
                occurrences r (if decide (P x) then x :: filter P l else filter P l)
                = occurrences r (filter P l))
      by (destruct (decide (P x)); [right; rewrite occurrences_cons, decide_False by exact N|left];
          reflexivity).
    destruct E as [E|E]; rewrite E, (IH Hnd);
      destruct (decide (r ∈ l)), (decide (r ∈ x :: l)) as [D|D]; auto;
      try (destruct D; right; assumption); apply elem_of_cons in D as [D|D]; congruence.
Qed.

Lemma close_all_invariant s l g :
  invariant s -> close_all (reg_state s) = (l, g) ->
  invariant {| reg_state := g; held := held s; to_close := l ++ to_close s;
               adapters_closed := adapters_closed s; shut := true |}.
Proof.
  intros I H. unfold close_all in H. destruct I.
  set (pending := retired_list (reg_state s) ++ [current (reg_state s)]) in H.
  assert (Hin : forall x, x ∈ pending <-> x ∈ retired_list (reg_state s) \/ x = current (reg_state s))
    by (intros x; unfold pending; rewrite elem_of_app, list_elem_of_singleton; reflexivity).
  assert (Hnd : NoDup pending).
  { apply NoDup_app. split; [assumption|]. split; [|apply NoDup_singleton].
    intros x Hx ->%list_elem_of_singleton. apply inv_list0 in Hx. congruence. }
  assert (Hl : l = filter (fun r => closed (runtime_of (reg_state s) r) = false) pending)
    by exact (mark_closed_list _ _ _ _ Hnd H).
  destruct (mark_closed_frame _ _ _ _ H) as (Hc & Hrl & Hmax).
  assert (Hr : forall r, runtime_of g r = if decide (r ∈ pending)
      then close_mark (runtime_of (reg_state s) r) else runtime_of (reg_state s) r)
    by (intros r; exact (mark_closed_runtime _ _ _ _ r H)).
  pose proof (fun r => mark_closed_known _ _ _ _ r H) as Hk. clear H.
  assert (Hopen : forall r, r ∉ pending -> retired (runtime_of (reg_state s) r) = true ->
                  closed (runtime_of (reg_state s) r) = true).
  { intros r Hn Hret. destruct (closed _) eqn:C; [reflexivity|]. destruct Hn. apply Hin. auto. }
  cbn [current retired_list max_retired set_retired_list runtimes]
    in Hc, Hrl, Hmax, Hk.
  split; cbn [reg_state held to_close adapters_closed shut]; rewrite ?Hc, ?Hrl, ?Hmax;
    try discriminate.
  - intros r. rewrite Hr, <- inv_count0. destruct (decide _); reflexivity.
  - intros r. rewrite <- app_assoc, occurrences_app, inv_once0, Hr, Hl.
    rewrite occurrences_filter_nodup by exact Hnd.
    destruct (decide (r ∈ pending)); [|reflexivity].
    destruct (closed (runtime_of (reg_state s) r)); reflexivity.
  - intros r Hx. inversion Hx.
  - intros r Hret Hcl. rewrite Hr in Hret, Hcl. destruct (decide (r ∈ pending)) as [D|D];
      [discriminate|]. rewrite (Hopen r D Hret) in Hcl. discriminate.
  - constructor.
  - rewrite Hr. destruct (decide _); exact inv_current0.
  - destruct (runtimes g !! current (reg_state s)) eqn:E; [eauto|]. exfalso.
    specialize (Hr (current (reg_state s))). rewrite decide_True in Hr by (apply Hin; auto).
    unfold runtime_of at 1 in Hr. rewrite E in Hr. discriminate.
  - intros r Hks Hret. rewrite Hr in Hret. assert (Hret' : retired (runtime_of (reg_state s) r) = false)
      by (destruct (decide _); exact Hret).
    destruct (Hk r Hks) as [Hx|Hx]; [auto|]. apply Hin in Hx as [Hx|Hx]; [|exact Hx].
    apply inv_list0 in Hx. congruence.
  - cbn. lia.
Qed.

Lemma step_invariant s s' : invariant s -> step s s' -> invariant s'.
Proof.
  intros I H. destruct H as [s r g H|s r c g Hr H|s new c g Hn H|s l g H|s r pre post H].
  - eapply acquire_invariant; eassumption.
  - eapply release_invariant; eassumption.
  - eapply swap_invariant; eassumption.
  - eapply close_all_invariant; eassumption.
  - destruct I. split; cbn [reg_state held to_close adapters_closed shut]; auto.
    intros x. rewrite <- inv_once0, H. repeat rewrite ?occurrences_app, ?occurrences_cons. lia.
Qed.

Lemma take_closable_max r g c g' : take_closable r g = (Ok c, g') -> max_retired g' = max_retired g.
Proof. intros [(_ & -> & _)|(_ & _ & _ & _ & ->)]%take_closable_cases; reflexivity. Qed.

Lemma step_max s s' : step s s' -> max_retired (reg_state s') = max_retired (reg_state s).
Proof.
  intros H. destruct H as [s r g H|s r c g Hr H|s new c g Hn H|s l g H|s r pre post H]; cbn.
  - apply acquire_cases in H as (_ & _ & _ & ->). reflexivity.
  - unfold release in H. destruct (refcount _); [discriminate|].
    apply take_closable_max in H. exact H.
  - unfold swap, check_can_swap in H. revert H. run_st. destruct (_ <=? _); [discriminate|].
    destruct (Nat.eqb _ _); [discriminate|]. cbn beta iota. intros H%take_closable_max. exact H.
  - apply mark_closed_frame in H as (_ & _ & H). exact H.
  - reflexivity.
Qed.

Lemma reachable_invariant initial max s :
  reachable initial max s -> invariant s /\ max_retired (reg_state s) = max.
Proof.
  induction 1 as [|s s' _ [I M] Hs].
  - split; [|reflexivity].
    assert (E : forall r, runtime_of (new_registry initial max) r = fresh_runtime).
    { intros r. unfold runtime_of, new_registry; cbn [runtimes]. rewrite lookup_singleton.
      destruct (decide _); reflexivity. }
    split; cbn [reg_state held to_close adapters_closed shut initial_system].
    + intros r. rewrite E. reflexivity.
    + intros r. rewrite E. reflexivity.
    + intros r Hr. inversion Hr.
    + intros r _ Hr. inversion Hr.
    + intros r Hr. rewrite E in Hr. discriminate.
    + constructor.
    + rewrite E. reflexivity.
    + cbn. rewrite lookup_singleton_eq. eauto.
    + intros r [x Hx] _. cbn [runtimes new_registry] in Hx. apply lookup_singleton_Some in Hx as [<- _]. reflexivity.
    + cbn. lia.
    + intros r _ Hr. inversion Hr.
    + intros r _ Hr. rewrite E in Hr. discriminate.
  - split; [eapply step_invariant; eassumption|]. rewrite <- M. apply step_max. exact Hs.
Qed.

(** ** Properties *)

(** C3: however acquisitions, releases, reloads, closings and the shutdown
    interleave, an adapter is closed at most once; until the shutdown no
    adapter whose runtime a query still holds is closed or about to be; a
    retired runtime without users is always closed or about to be, so none
    leaks; and the open runtimes are the published one and at most
    [max_retired] retired ones. *)
Theorem registry_lifecycle initial max s :
  reachable initial max s ->
  (forall r, occurrences r (to_close s ++ adapters_closed s) <= 1) /\
  (shut s = false -> forall r, r ∈ held s -> r ∉ to_close s ++ adapters_closed s) /\
  (forall r, retired (runtime_of (reg_state s) r) = true ->
     refcount (runtime_of (reg_state s) r) = 0 -> shut s = false ->
     r ∈ to_close s ++ adapters_closed s) /\
  length (retired_list (reg_state s)) <= max /\
  (forall r, is_Some (runtimes (reg_state s) !! r) -> r ∉ to_close s ++ adapters_closed s ->
     r = current (reg_state s) \/ r ∈ retired_list (reg_state s)).
Proof.
  intros [I <-]%reachable_invariant. destruct I. split; [|split; [|split; [|split]]].
  - intros r. rewrite inv_once0. destruct (closed _); lia.
  - intros Hs r Hr Hc. rewrite occurrences_elem in Hr, Hc. rewrite inv_once0 in Hc.
    rewrite <- inv_count0 in Hr. destruct (closed (runtime_of (reg_state s) r)) eqn:C; [|lia].
    destruct (inv_use0 r Hs C). lia.
  - intros r Hret Hz Hs. rewrite occurrences_elem, inv_once0.
    destruct (closed (runtime_of (reg_state s) r)) eqn:C; [lia|].
    pose proof (inv_busy0 r Hs (inv_retired0 r Hret C) ltac:(discriminate)). lia.
  - exact inv_bound0.
  - intros r Hk Hc. rewrite occurrences_elem, inv_once0 in Hc.
    destruct (closed (runtime_of (reg_state s) r)) eqn:C; [lia|].
    destruct (retired (runtime_of (reg_state s) r)) eqn:R; auto.
Qed.

(** The shutdown leaves nothing open: in every reachable state, the closings
    [close_all] returns, with those already decided, cover every runtime ever
    published, each exactly once, whether or not queries still hold it. *)
Theorem shutdown_closes_everything initial max s l g :
  reachable initial max s -> close_all (reg_state s) = (l, g) ->
  forall r, is_Some (runtimes (reg_state s) !! r) ->
    occurrences r (l ++ to_close s ++ adapters_closed s) = 1.
Proof.
  intros Hreach H r Hk. pose proof (proj1 (reachable_invariant _ _ _ Hreach)) as I.
  pose proof (close_all_invariant s l g I H) as I'.
  pose proof (inv_once _ _ I' r) as E. cbn [to_close adapters_closed reg_state] in E.
  rewrite <- app_assoc in E. rewrite E. unfold close_all in H.
  rewrite (mark_closed_runtime _ _ _ _ r H). change (runtime_of (set_retired_list _ ?g) r)
    with (runtime_of g r).
  destruct (decide _) as [D|D]; [reflexivity|].
  destruct (closed (runtime_of (reg_state s) r)) eqn:C; [reflexivity|]. destruct D.
  apply elem_of_app. destruct I. destruct (retired (runtime_of (reg_state s) r)) eqn:R; [left; auto|].
  right. apply list_elem_of_singleton. auto.
Qed.

(** Serving never stops before the shutdown: in every reachable state a
    query that asks for the published runtime obtains it, and whoever holds a
    reference can always release it. *)
Theorem serving_continues initial max s :
  reachable initial max s ->
  (shut s = false -> exists g, acquire (reg_state s) = (Ok (current (reg_state s)), g)) /\
  (forall r, r ∈ held s -> exists c g, release r (reg_state s) = (Ok c, g)).
Proof.
  intros [I _]%reachable_invariant. destruct I. split.
  - intros Hs. unfold acquire. cbv zeta. rewrite inv_current0. cbn [orb].
    destruct (closed (runtime_of (reg_state s) (current (reg_state s)))) eqn:C; [|eauto].
    destruct (inv_use0 _ Hs C). congruence.
  - intros r Hr. rewrite occurrences_elem, <- inv_count0 in Hr. unfold release. cbv zeta.
    destruct (refcount (runtime_of (reg_state s) r)) as [|n]; [lia|].
    unfold take_closable. cbv zeta.
    repeat (match goal with |- context [if ?b then _ else _] => destruct b end); eauto.
Qed.

(** ** Witnesses *)

(** A query acquires runtime 0, and a reload publishes runtime 1 under it. *)
Definition sample_acquired : registry := snd (acquire (new_registry 0 1)).

Definition sample_trace_state : system :=
  {| reg_state := snd (swap 1 (set_runtime 1 fresh_runtime sample_acquired));
     held := [0]; to_close := []; adapters_closed := []; shut := false |}.

Lemma sample_trace : reachable 0 1 sample_trace_state.
Proof.
  set (s1 := {| reg_state := sample_acquired; held := [0]; to_close := []; adapters_closed := [];
                shut := false |}).
  apply (reach_step 0 1 s1).
  - apply (reach_step 0 1 (initial_system 0 1)); [constructor|].
    exact (step_acquire (initial_system 0 1) 0 sample_acquired eq_refl).
  - exact (step_swap s1 1 None (reg_state sample_trace_state) eq_refl eq_refl).
Qed.

Lemma registry_lifecycle_witness :
  reachable 0 1 sample_trace_state /\ 0 ∉ to_close sample_trace_state ++ adapters_closed sample_trace_state.
Proof.
  split; [exact sample_trace|].
  exact (proj1 (proj2 (registry_lifecycle 0 1 sample_trace_state sample_trace)) eq_refl 0
           ltac:(left)).
Defined.

Lemma shutdown_closes_everything_witness :
  occurrences 0 (fst (close_all (reg_state sample_trace_state)) ++ []) = 1.
Proof.
  exact (shutdown_closes_everything 0 1 sample_trace_state _ _ sample_trace
           ltac:(apply surjective_pairing) 0 ltac:(eexists; reflexivity)).
Defined.

Lemma serving_continues_witness : exists g,
  acquire (reg_state sample_trace_state) = (Ok 1, g).
Proof.
  exact (proj1 (serving_continues 0 1 sample_trace_state sample_trace) eq_refl).
Defined.
