(* ===== verification/Gateway.v ===== *)
(** * Gateway: one audited query, from text to public result

    Models [gateway/service.py] and [gateway/models.py]: the public result, the
    closed set of error categories, the single audited exit of every query,
    and [Gateway.query], which borrows the published runtime, connects its
    adapter, executes and releases. *)

From S2P Require Import Prelude.
From S2P Require Import Bytes.
From S2P Require Import Unicode.
From S2P Require Import Canonical.
From S2P Require Import Transformers.
From S2P Require Import Masking.
From S2P Require Import Sql.
From S2P Require Import Sensitivity.
From S2P Require Import Config.
From S2P Require Import Columns.
From S2P Require Import Adapter.
From S2P Require Import Pipeline.
From S2P Require Registry.

Local Open Scope Z_scope.

(** ** Public models, [models.py] *)

Inductive ErrorCategory :=
| INVALID_QUERY | QUERY_REJECTED | QUERY_TIMEOUT | DATABASE_ERROR | CONFIGURATION_ERROR.

Definition CATEGORY_MESSAGES (c : ErrorCategory) : pystr :=
  match c with
  | INVALID_QUERY => py "The query is not valid SQL."
  | QUERY_REJECTED => py "The query was rejected by the database security policy."
  | QUERY_TIMEOUT => py "The query exceeded the allowed execution time."
  | DATABASE_ERROR => py "The database could not complete the query."
  | CONFIGURATION_ERROR => py "The gateway is not correctly configured."
  end.

(** The value of the enum's member. *)
Definition category_value (c : ErrorCategory) : pystr :=
  match c with
  | INVALID_QUERY => py "INVALID_QUERY"
  | QUERY_REJECTED => py "QUERY_REJECTED"
  | QUERY_TIMEOUT => py "QUERY_TIMEOUT"
  | DATABASE_ERROR => py "DATABASE_ERROR"
  | CONFIGURATION_ERROR => py "CONFIGURATION_ERROR"
  end.

(** What an operation may raise inside the gateway. *)
Inductive failure :=
| RegistryFailed (e : Registry.registry_error)
| AdapterFailed (e : exn).

(** [categorize]: by the class of the exception. *)
Definition categorize (f : failure) : ErrorCategory :=
  match f with
  | AdapterFailed (Raised e) =>
      match e with
      | NotValidated InvalidQuery => INVALID_QUERY
      | NotValidated (QueryRejected _) => QUERY_REJECTED
      | QueryTimeout | Typed TIMEOUT => QUERY_TIMEOUT
      | Capability _ | EngineFailed (TransformFailed UndefinedLength) => CONFIGURATION_ERROR
      | _ => DATABASE_ERROR
      end
  | _ => DATABASE_ERROR
  end.

Record QueryColumn := {
  column_name : pystr;
  column_masked : bool;
}.

Record QueryResult := {
  result_columns : list QueryColumn;
  result_rows : list (list pyval);
  row_count : nat;
  result_truncated : bool;
}.

(** [jsonable]: the three byte types become base64 text. *)
Definition jsonable (v : pyval) : pyval :=
  match v with
  | VBytes d | VByteArray d | VMemoryView d => VStr (b64encode d)
  | _ => v
  end.

Definition to_query_result (m : MaskedResult) : QueryResult :=
  {| result_columns :=
       zip_with (fun c d => {| column_name := output_name c;
                               column_masked := bool_decide (action d = MASK) |})
         (columns m) (decisions m);
     result_rows := map (map jsonable) (rows m);
     row_count := length (rows m);
     result_truncated := truncated m |}.

(** ** Audit, [audit/log.py] *)

Definition SUCCESS : pystr := py "success".
Definition FAILURE : pystr := py "failure".

Record QueryAudit := {
  request_id : pystr;
  outcome : pystr;
  duration_ms : Z;
  audit_row_count : option nat;
  audit_truncated : option bool;
  error_category : option pystr;
}.

(** ** The gateway, [service.py] *)

(** Its state: the registry, each runtime's configuration and adapter, the
    audit entries recorded, newest first, and the number of queries served. *)
Record gateway := {
  reg : Registry.registry;
  configs : nat -> adapter_config;
  adapters : nat -> adapter;
  audit : list QueryAudit;
  served : nat;
}.

Definition set_reg (g : Registry.registry) (gw : gateway) : gateway :=
  {| reg := g; configs := configs gw; adapters := adapters gw; audit := audit gw;
     served := served gw |}.

Definition set_adapter (r : nat) (a : adapter) (gw : gateway) : gateway :=
  {| reg := reg gw; configs := configs gw;
     adapters := fun x => if Nat.eqb x r then a else adapters gw x; audit := audit gw;
     served := served gw |}.

Section gateway.
Context {L : PyLib} {V : Visitor} {Srv : Server}.
Context (parse_sql : pystr -> option (list node)).
(** [uuid4().hex] and the elapsed milliseconds of the n-th query. *)
Context (fresh_id : nat -> pystr) (elapsed : nat -> Z).

(** The work done on the borrowed runtime, under its connection lock. *)
Definition runtime_query (cfg : adapter_config) (sql : pystr) : st adapter exn QueryResult :=
  connect cfg;;
  m ← execute_validated parse_sql cfg sql;
  mret (to_query_result m).

(** [_Borrowed.__exit__]: release, and close the adapter that became free. *)
Definition give_back (r : nat) (gw : gateway) : gateway :=
  match Registry.release r (reg gw) with
  | (Ok (Some c), g) => set_adapter c (close (adapters gw c)) (set_reg g gw)
  | (_, g) => set_reg g gw
  end.

(** [Gateway.query]'s [operation]. *)
Definition operation (sql : pystr) : st gateway failure QueryResult := fun gw =>
  match Registry.acquire (reg gw) with
  | (Err e, g) => (Err (RegistryFailed e), set_reg g gw)
  | (Ok r, g) =>
      let (res, a) := runtime_query (configs gw r) sql (adapters gw r) in
      (match res with Ok q => Ok q | Err e => Err (AdapterFailed e) end,
       give_back r (set_adapter r a (set_reg g gw)))
  end.

Definition record (entry : QueryAudit) (gw : gateway) : gateway :=
  {| reg := reg gw; configs := configs gw; adapters := adapters gw; audit := entry :: audit gw;
     served := S (served gw) |}.

(** [run_audited]: the only exit, with one entry per query. *)
Definition run_audited (op : st gateway failure QueryResult)
    : st gateway ErrorCategory QueryResult := fun gw =>
  let id := fresh_id (served gw) in
  let ms := elapsed (served gw) in
  match op gw with
  | (Err f, gw) =>
      let c := categorize f in
      (Err c, record {| request_id := id; outcome := FAILURE; duration_ms := ms;
                        audit_row_count := None; audit_truncated := None;
                        error_category := Some (category_value c) |} gw)
  | (Ok q, gw) =>
      (Ok q, record {| request_id := id; outcome := SUCCESS; duration_ms := ms;
                       audit_row_count := Some (row_count q);
                       audit_truncated := Some (result_truncated q);
                       error_category := None |} gw)
  end.

(** [Gateway.query]. *)
Definition query (sql : pystr) : st gateway ErrorCategory QueryResult := run_audited (operation sql).

(** ** Lemmas *)

Lemma give_back_frame r gw :
  audit (give_back r gw) = audit gw /\ served (give_back r gw) = served gw /\
  configs (give_back r gw) = configs gw /\
  reg (give_back r gw) = snd (Registry.release r (reg gw)).
Proof.
  unfold give_back. destruct (Registry.release r (reg gw)) as [[[c|]|e] g]; cbn; auto.
Qed.

Lemma release_after_acquire g r g1 c :
  Registry.acquire g = (Ok r, g1) ->
  Registry.refcount (Registry.runtime_of (snd (Registry.release r g1)) c) =
  Registry.refcount (Registry.runtime_of g c).
Proof.
  intros (-> & R & C & ->)%Registry.acquire_cases. unfold Registry.release. cbv zeta.
  rewrite Registry.runtime_of_count, Registry.runtime_of_set, decide_True by reflexivity.
  cbn [Registry.refcount Registry.retired Registry.closed].
  unfold Registry.take_closable. rewrite Registry.runtime_of_set, decide_True by reflexivity.
  cbn [Registry.retired negb snd].
  rewrite Registry.runtime_of_set, Registry.runtime_of_count, Registry.runtime_of_set.
  destruct (decide (Registry.current g = c)) as [->|]; reflexivity.
Qed.

Lemma operation_frame sql gw r gw' :
  operation sql gw = (r, gw') ->
  audit gw' = audit gw /\ served gw' = served gw /\
  (forall c, Registry.refcount (Registry.runtime_of (reg gw') c) =
             Registry.refcount (Registry.runtime_of (reg gw) c)).
Proof.
  unfold operation. destruct (Registry.acquire (reg gw)) as [[x|e] g] eqn:A.
  - destruct (runtime_query _ _ _) as [q a]. intros [= _ <-].
    destruct (give_back_frame x (set_adapter x a (set_reg g gw))) as (-> & -> & _ & ->).
    cbn. repeat split; auto. intros c. eapply release_after_acquire. exact A.
  - intros [= _ <-]. cbn. repeat split; auto. intros c. unfold Registry.acquire in A.
    cbv zeta in A. destruct (_ || _); [injection A as _ <-; reflexivity|discriminate].
Qed.

Lemma query_Ok sql gw q gw' :
  query sql gw = (Ok q, gw') ->
  exists r m a a', q = to_query_result m /\ r = Registry.current (reg gw) /\
    execute_validated parse_sql (configs gw r) sql a = (Ok m, a').
Proof.
  unfold query, run_audited. destruct (operation sql gw) as [[q'|f] g] eqn:O; [|discriminate].
  intros [= -> _]. unfold operation in O.
  destruct (Registry.acquire (reg gw)) as [[x|e] g1] eqn:A; [|discriminate].
  apply Registry.acquire_cases in A as (-> & _).
  destruct (runtime_query _ sql _) as [[q0|e] a'] eqn:Q; [|discriminate]. injection O as -> _.
  unfold runtime_query in Q. apply st_bind_Ok in Q as (u & a1 & _ & Q).
  apply st_bind_Ok in Q as (m & a2 & Hm & [= <- _]).
  exists (Registry.current (reg gw)), m, a1, a2. auto.
Qed.
End gateway.

(** A column of the public result announced as masked, whose cells are NULL or
    outputs of the rule's transformer. *)
Definition publicly_protected (L : PyLib) (q : QueryResult) (i : nat) (r : MaskingRule) : Prop :=
  (exists c, result_columns q !! i = Some c /\ column_masked c = true) /\
  forall row v, row ∈ result_rows q -> row !! i = Some v ->
    v = VNone \/ exists text o, v = VStr o /\ output_of L (rule_transformer r) text o.

Lemma protected_public (L : PyLib) cfg m i r :
  length (columns m) = length (decisions m) -> protected_by L cfg m i r ->
  publicly_protected L (to_query_result m) i r.
Proof.
  intros Hl (d & Hd & Ha & _ & Hcells). split.
  - destruct (lookup_lt_is_Some_2 (columns m) i) as [c Hc];
      [rewrite Hl; eapply lookup_lt_Some; exact Hd|].
    eexists. cbn [result_columns to_query_result]. rewrite lookup_zip_with, Hc. cbn.
    rewrite Hd. cbn. split; [reflexivity|]. cbn. apply bool_decide_eq_true. exact Ha.
  - cbn [result_rows to_query_result]. intros row v (row0 & -> & Hrow)%list_elem_of_fmap Hv.
    change (map jsonable row0) with (jsonable <$> row0) in Hv.
    rewrite list_lookup_fmap in Hv. destruct (row0 !! i) as [v0|] eqn:E; [|discriminate].
    injection Hv as <-. destruct (Hcells row0 v0 Hrow E) as [->|(text & o & -> & Ho)].
    + left. reflexivity.
    + right. exists text, o. auto.
Qed.

(** ** Properties *)

(** C1: the gateway does not answer a query with a sensitive expression in clear,
    where the positions of its text are those of its result: if [Gateway.query]
    returns a result, the text was one allowed SELECT and at most [max_rows]
    rows came out; and when every branch of it has as many targets as the result
    has columns, every position whose expression references, in any branch and
    at any depth, a column that a rule of the published policy covers and no
    exception releases, is announced as masked and holds only NULL or outputs of
    that rule's transformer. (A star among the targets makes the counts differ.
    The analysis of the text is then not applied, by the source's decision
    D-043, and only the origins the server reports protect: an expression beside
    a star leaves in clear.) *)
Theorem gateway_query_protects {L : PyLib} `{!PyLibLaws L} {V : Visitor} {Srv : Server}
    parse_sql fresh_id elapsed sql gw q gw' :
  (forall r, config_wf (configs gw r)) ->
  query parse_sql fresh_id elapsed sql gw = (Ok q, gw') ->
  exists stmt cfg, cfg = configs gw (Registry.current (reg gw)) /\
    parse_sql sql = Some [stmt] /\ is_select stmt = true /\
    (forall n, visited never_skip (RawStmt stmt) n -> node_allowed (sql_policy cfg) n) /\
    Z.of_nat (row_count q) <= max_rows (settings cfg) /\
    forall i fields n r, references stmt i fields n -> not_excepted (policy cfg) n ->
      List.find (fun r => matches (rule_spec r) (Some n)) (rules (policy cfg)) = Some r ->
      (forall b, b ∈ branches stmt -> length (target_list b) = length (result_columns q)) ->
      publicly_protected L q i r.
Proof.
  intros wf H. apply query_Ok in H as (r & m & a & a' & -> & -> & H).
  set (cfg := configs gw _) in *.
  destruct (execute_validated_shape parse_sql cfg (wf _) sql a m a' H) as [Hl Hw].
  destruct (execute_validated_protects parse_sql cfg sql a m a' (wf _) H)
    as (stmt & Hp & Hs & Hn & Hrows & Href).
  exists stmt, cfg. do 5 (split; [first [reflexivity|assumption]|]).
  intros i fields n r Hrf He Hf Hb. eapply protected_public; [exact Hl|].
  eapply Href; [exact Hrf|exact He|exact Hf|]. intros b Hin. rewrite (Hb b Hin).
  cbn [result_columns to_query_result]. rewrite length_zip_with. lia.
Qed.

(** C4: every query leaves the gateway by one door: whatever happens inside,
    the caller gets a result or one of five fixed categories, exactly one
    audit entry is recorded, which says success with the row count or failure
    with the category and carries neither the text nor a value of the query,
    and every reference taken on a runtime is given back. *)
Theorem query_audited_once {L : PyLib} {V : Visitor} {Srv : Server}
    parse_sql fresh_id elapsed sql gw :
  let (r, gw') := query parse_sql fresh_id elapsed sql gw in
  (exists entry, audit gw' = entry :: audit gw /\
     request_id entry = fresh_id (served gw) /\ duration_ms entry = elapsed (served gw) /\
     match r with
     | Ok q => outcome entry = SUCCESS /\ audit_row_count entry = Some (length (result_rows q)) /\
               audit_truncated entry = Some (result_truncated q) /\ error_category entry = None
     | Err c => outcome entry = FAILURE /\ audit_row_count entry = None /\
                error_category entry = Some (category_value c)
     end) /\
  (forall c, Registry.refcount (Registry.runtime_of (reg gw') c) =
             Registry.refcount (Registry.runtime_of (reg gw) c)).
Proof.
  destruct (query _ _ _ sql gw) as [r gw'] eqn:Q. pose proof Q as Q0. unfold query, run_audited in Q.
  destruct (operation parse_sql sql gw) as [[q|f] g] eqn:O.
  - destruct (operation_frame _ _ _ _ _ O) as (Ha & Hs & Hrc). injection Q as <- <-.
    split; [|exact Hrc]. eexists. cbn [audit record]. rewrite Ha. split; [reflexivity|].
    apply query_Ok in Q0 as (r & m & a & a' & -> & _).
    do 3 (split; [reflexivity|]).
    split; [cbn [result_rows to_query_result]; rewrite length_map; reflexivity|].
    split; reflexivity.
  - destruct (operation_frame _ _ _ _ _ O) as (Ha & Hs & Hrc). injection Q as <- <-.
    split; [|exact Hrc]. eexists. cbn [audit record]. rewrite Ha. do 3 (split; [reflexivity|]).
    repeat split; reflexivity.
Qed.

(** ** Witness *)

Definition sample_gateway : gateway :=
  {| reg := Registry.new_registry 0 1; configs := fun _ => sample_config;
     adapters := fun _ => closed_adapter; audit := []; served := 0 |}.

Definition sample_query :=
  @query sample_lib preorder_visitor sample_server sample_parse (fun _ => []) (fun _ => 0) []
    sample_gateway.

(** [SELECT *, upper(e_mail) FROM customers], and a server whose table has one
    column: the column is masked, the expression beside it is not. *)
Definition star_statement : node :=
  SelectStmt [ResTarget None (Some (ColumnRef [A_Star])) [];
              ResTarget None (Some (FuncCall [StringNode (py "upper")] [sample_ref "e_mail"])) []]
    SETOP_NONE None None [RangeVar (Some (py "customers")) None].

Definition star_cursor : cursor :=
  {| description := Some (map (fun n => (py n, TypeCode (Some 25))) ["id"; "e_mail"; "upper"]%string);
     pgresult := Some (fun i => if (i =? 1)%nat then (16384, 2) else (0, 0));
     pending := [Ok [VInt 1; VStr (py "ana@example.com"); VStr (py "ANA@EXAMPLE.COM")]] |}.

Definition star_server : Server :=
  {| server_connect := @server_connect sample_server; server_closed := @server_closed sample_server;
     server_settings := @server_settings sample_server; server_probe := @server_probe sample_server;
     server_catalog := @server_catalog sample_server; server_execute _ _ _ := Ok star_cursor;
     server_idle := @server_idle sample_server; server_rollback := @server_rollback sample_server |}.

Example expression_beside_star :
  match (@query sample_lib preorder_visitor star_server (fun _ => Some [star_statement]) (fun _ => []) (fun _ => 0) [] sample_gateway).1 with
  | Ok q => map column_masked (result_columns q) = [false; true; false] /\
            map (fun row => (row !! 0%nat, row !! 2%nat)) (result_rows q) = [(Some (VInt 1), Some (VStr (py "ANA@EXAMPLE.COM")))]
  | Err _ => False
  end.
Proof. vm_compute. auto. Qed.

Lemma gateway_query_protects_witness : exists q gw',
  sample_query = (Ok q, gw') /\ exists stmt, sample_parse [] = Some [stmt] /\ is_select stmt = true.
Proof.
  destruct sample_query as [[q|e] gw'] eqn:E; [|vm_compute in E; discriminate].
  exists q, gw'. split; [reflexivity|].
  destruct (@gateway_query_protects sample_lib _ preorder_visitor sample_server sample_parse
              (fun _ => []) (fun _ => 0) [] sample_gateway q gw' (fun _ => sample_config_wf) E)
    as (stmt & cfg & _ & H1 & H2 & _).
  exists stmt. auto.
Defined.
