(* ===== verification/Budget.v ===== *)
(** * Budget: the ledger of logical credits

    Models [runtime/budget.py]: reservations of sessions, candidates,
    generations and auxiliaries in a fixed table of slots, each with an epoch;
    every mutation prepares a new immutable image, validates it and publishes
    it once.  Publication and restoration may fail: an oracle, indexed by the
    number of publications attempted, says how. *)

From S2P Require Import Prelude.

Local Open Scope Z_scope.

(** ** Data *)

Definition MAX_NUMBER : Z := 2 ^ 63 - 1.
Definition MAX_SLOTS : Z := 4096.
Definition MAX_DATASOURCES : Z := 1024.

Inductive BudgetFailure := INVALID | CAPACITY | STATE | CLOSED | FAULT.

(** [_number]. *)
Definition number_in (minimum maximum v : Z) : res BudgetFailure unit :=
  refuse_if (negb ((minimum <=? v) && (v <=? maximum))) INVALID.

Definition number (v : Z) : res BudgetFailure unit := number_in 1 MAX_NUMBER v.

Record BudgetLimits := {
  total_bytes : Z;
  base_bytes : Z;
  headroom_bytes : Z;
  entries : Z;
  max_sessions : Z;
  max_workers : Z;
  max_candidates : Z;
  max_generations : Z;
  max_auxiliaries : Z;
}.

(** [BudgetLimits.__post_init__]. *)
Definition budget_limits (l : BudgetLimits) : res BudgetFailure BudgetLimits :=
  mapM_res number [total_bytes l; base_bytes l; headroom_bytes l];;
  let counts := [max_sessions l; max_workers l; max_candidates l; max_generations l;
                 max_auxiliaries l] in
  mapM_res (number_in 1 MAX_SLOTS) (entries l :: counts);;
  refuse_if ((total_bytes l <? base_bytes l + headroom_bytes l) ||
             existsb (fun v => entries l <? v) counts) INVALID;;
  Ok l.

Record DatasourceCapacity := {
  ds_sessions : Z;
  ds_candidates : Z;
}.

Record CleanupConfirmation := {
  processes : bool;
  threads : bool;
  pipes : bool;
  handles : bool;
  output : bool;
}.

Definition complete (c : CleanupConfirmation) : bool :=
  processes c && threads c && pipes c && handles c && output c.

Inductive ReservationKind := SESSION | CANDIDATE | GENERATION | AUXILIARY.
Inductive ReservationState := RESERVED | LIVE | DRAINING | HELD.

#[export] Instance ReservationKind_eq_dec : EqDecision ReservationKind.
Proof. solve_decision. Defined.
#[export] Instance ReservationState_eq_dec : EqDecision ReservationState.
Proof. solve_decision. Defined.

Inductive ReleaseOutcome := RELEASED | RELEASE_HELD | ALREADY_RELEASED.
Inductive OutputReleaseOutcome := CLEARED | OUTPUT_HELD | ALREADY_CLEARED.

(** [_owner] is the identity of the ledger that minted the token. *)
Record BudgetToken := {
  token_owner : nat;
  token_slot : Z;
  token_epoch : Z;
}.

Record BudgetOutputToken := {
  pin_session : BudgetToken;
  pin_epoch : Z;
  pin_frame_bytes : Z;
  pin_overhead_bytes : Z;
}.

Record ReservationView := {
  kind : ReservationKind;
  state : ReservationState;
  datasource : option Z;
  generation_slot : option Z;
  generation_epoch : Z;
  worker_bytes : Z;
  parent_bytes : Z;
  shared_bytes : Z;
  output_epoch : Z;
  output_pinned : bool;
  output_frame_bytes : Z;
  output_overhead_bytes : Z;
}.

Record Slot := {
  epoch : Z;
  entry : option ReservationView;
}.

Record Image := {
  slots : list Slot;
  closing : bool;
  closed : bool;
}.

Record ledger := {
  limits : BudgetLimits;
  datasources : list DatasourceCapacity;
  owner : nat;
  failure : option (Image * Image);
  image : Image;
  publications : nat;
}.

(** How a publication ends: it may raise before or after the assignment; a
    restoration that follows may raise too. *)
Inductive write_result := Written | FailedKeeping | FailedReplacing.

(** ** Construction *)

Definition empty_slot : Slot := {| epoch := 0; entry := None |}.

Definition new_ledger (own : nat) (l : BudgetLimits) (ds : list DatasourceCapacity)
    : res BudgetFailure ledger :=
  refuse_if (negb ((1 <=? Z.of_nat (length ds)) && (Z.of_nat (length ds) <=? MAX_DATASOURCES)))
    INVALID;;
  Ok {| limits := l; datasources := ds; owner := own; failure := None;
        image := {| slots := replicate (Z.to_nat (entries l)) empty_slot; closing := false;
                    closed := false |};
        publications := 0 |}.

(** [DatasourceCapacity.__post_init__]. *)
Definition datasource_capacity (c : DatasourceCapacity) : res BudgetFailure DatasourceCapacity :=
  number_in 1 MAX_SLOTS (ds_sessions c);; number_in 1 MAX_SLOTS (ds_candidates c);; Ok c.

(** ** Validation of an image *)

Definition nonzero (v : Z) : bool := negb (v =? 0).

(** [_validate_output]. *)
Definition validate_output (row : ReservationView) : res BudgetFailure unit :=
  number_in 0 MAX_NUMBER (output_epoch row);;
  number_in 0 MAX_NUMBER (output_frame_bytes row);;
  number_in 0 MAX_NUMBER (output_overhead_bytes row);;
  refuse_if (negb (bool_decide (kind row = SESSION)) &&
             (nonzero (output_epoch row) || output_pinned row ||
              nonzero (output_frame_bytes row) || nonzero (output_overhead_bytes row))) STATE;;
  if output_pinned row then
    number (output_frame_bytes row);;
    number (output_overhead_bytes row);;
    refuse_if (output_epoch row =? 0) STATE;;
    refuse_if (parent_bytes row <? 2 * output_frame_bytes row + output_overhead_bytes row) CAPACITY
  else
    refuse_if (nonzero (output_frame_bytes row) || nonzero (output_overhead_bytes row)) STATE.

(** The entries of an image, in slot order. *)
Definition rows (i : Image) : list ReservationView := omap entry (slots i).

Definition of_kind (k : ReservationKind) (r : ReservationView) : bool := bool_decide (kind r = k).

Definition count_kind (k : ReservationKind) (l : list ReservationView) : Z :=
  Z.of_nat (length (filter (fun r => kind r = k) l)).

Definition count_at (k : ReservationKind) (d : Z) (l : list ReservationView) : Z :=
  Z.of_nat (length (filter (fun r => kind r = k /\ datasource r = Some d) l)).

Definition row_bytes (r : ReservationView) : Z :=
  worker_bytes r + parent_bytes r + shared_bytes r.

Fixpoint sum_bytes (f : ReservationView -> Z) (l : list ReservationView) : Z :=
  match l with [] => 0 | r :: l => f r + sum_bytes f l end.

Section ledger.
(** The outcome of the n-th publication, and whether its restoration works. *)
Context (write_image : nat -> write_result) (restore_image : nat -> bool).

(** One turn of [_validate]'s loop: the [assert] and the list indexing fail
  for a row without a known datasource. *)
Definition validate_row (s : ledger) (row : ReservationView) : res BudgetFailure unit :=
  validate_output row;;
  match kind row with
  | SESSION | CANDIDATE =>
    match datasource row with
    | Some d => refuse_if (negb ((0 <=? d) && (d <? Z.of_nat (length (datasources s))))) FAULT
    | None => Err FAULT
    end
  | _ => Ok tt
  end.

(** The loop over the datasources' capacities. *)
Definition validate_datasource (l : list ReservationView) (ic : nat * DatasourceCapacity)
  : res BudgetFailure unit :=
  refuse_if ((ds_sessions ic.2 <? count_at SESSION (Z.of_nat ic.1) l) ||
           (ds_candidates ic.2 <? count_at CANDIDATE (Z.of_nat ic.1) l)) CAPACITY.

Definition validate (s : ledger) (i : Image) : res BudgetFailure unit :=
  let l := rows i in
  let lim := limits s in
  mapM_res (validate_row s) l;;
  refuse_if ((total_bytes lim <? base_bytes lim + headroom_bytes lim + sum_bytes row_bytes l) ||
           (Z.min (max_sessions lim) (max_workers lim) <? count_kind SESSION l) ||
           (max_candidates lim <? count_kind CANDIDATE l) ||
           (max_generations lim <? count_kind GENERATION l) ||
           (max_auxiliaries lim <? count_kind AUXILIARY l)) CAPACITY;;
  mapM_res (validate_datasource l) (imap pair (datasources s));;
  Ok tt.

(** ** Publication *)

Abbreviation budget A := (st ledger BudgetFailure A).

Definition set_image (i : Image) (f : option (Image * Image)) (s : ledger) : ledger :=
  {| limits := limits s; datasources := datasources s; owner := owner s; failure := f; image := i;
   publications := S (publications s) |}.

Definition commit (i : Image) : budget unit := fun s =>
  match validate s i with
  | Err e => (Err e, s)
  | Ok _ =>
    let old := image s in
    match write_image (publications s), restore_image (publications s) with
    | Written, _ => (Ok tt, set_image i (failure s) s)
    | _, true => (Err FAULT, set_image old (failure s) s)
    | FailedKeeping, false => (Err FAULT, set_image old (Some (old, i)) s)
    | FailedReplacing, false => (Err FAULT, set_image i (Some (old, i)) s)
    end
  end.

(** ** Access *)

(** [_usable]. *)
Definition usable (admission : bool) : budget unit := fun s =>
  (match failure s with
   | Some _ => Err FAULT
   | None => refuse_if (closed (image s) || admission && closing (image s)) CLOSED
   end, s).

Definition not_failed : budget unit := fun s =>
  (match failure s with Some _ => Err FAULT | None => Ok tt end, s).

Definition need (m : res BudgetFailure unit) : budget unit := lift_res m.

Definition check_datasource (d : Z) : budget unit := fun s =>
  (number_in 0 (Z.of_nat (length (datasources s)) - 1) d, s).

(** [_locate]. *)
Definition locate (t : BudgetToken) (empty : bool) : budget Slot := fun s =>
  (refuse_if (negb (Nat.eqb (token_owner t) (owner s))) INVALID;;
   number_in 0 (Z.of_nat (length (slots (image s))) - 1) (token_slot t);;
   number (token_epoch t);;
   match slots (image s) !! Z.to_nat (token_slot t) with
   | None => Err FAULT
   | Some slot =>
     refuse_if (negb (token_epoch t =? epoch slot) ||
                bool_decide (entry slot = None) && negb empty) STATE;;
     Ok slot
   end, s).

(** [_entry]. *)
Definition entry_of (t : BudgetToken) : budget ReservationView :=
  slot ← locate t false;
  match entry slot with Some row => mret row | None => raise_st FAULT end.

Definition with_slot (i : Image) (n : Z) (x : Slot) : Image :=
  {| slots := <[Z.to_nat n := x]> (slots i); closing := closing i; closed := closed i |}.

(** [_replace]. *)
Definition replace_entry (t : BudgetToken) (e : option ReservationView) : budget unit :=
  locate t false;;
  s ← get_st;
  commit (with_slot (image s) (token_slot t) {| epoch := token_epoch t; entry := e |}).

(** [_reserve]: the first empty slot whose epoch is not exhausted. *)
Fixpoint free_slot (n : nat) (l : list Slot) : option (nat * Slot) :=
  match l with
  | [] => None
  | x :: l =>
    if bool_decide (entry x = None) && (epoch x <? MAX_NUMBER) then Some (n, x)
    else free_slot (S n) l
  end.

Definition reserve (row : ReservationView) : budget BudgetToken :=
  s ← get_st;
  match free_slot 0 (slots (image s)) with
  | None => raise_st CAPACITY
  | Some (n, x) =>
    let t := {| token_owner := owner s; token_slot := Z.of_nat n; token_epoch := epoch x + 1 |} in
    commit (with_slot (image s) (token_slot t) {| epoch := token_epoch t; entry := Some row |});;
    mret t
  end.

(** A row as the source's constructor calls build it. *)
Definition new_row (k : ReservationKind) (d gslot : option Z) (gepoch worker parent shared : Z)
  : ReservationView :=
  {| kind := k; state := RESERVED; datasource := d; generation_slot := gslot;
   generation_epoch := gepoch; worker_bytes := worker; parent_bytes := parent;
   shared_bytes := shared; output_epoch := 0; output_pinned := false; output_frame_bytes := 0;
   output_overhead_bytes := 0 |}.

Definition set_state (x : ReservationState) (r : ReservationView) : ReservationView :=
  {| kind := kind r; state := x; datasource := datasource r; generation_slot := generation_slot r;
   generation_epoch := generation_epoch r; worker_bytes := worker_bytes r;
   parent_bytes := parent_bytes r; shared_bytes := shared_bytes r;
   output_epoch := output_epoch r; output_pinned := output_pinned r;
   output_frame_bytes := output_frame_bytes r; output_overhead_bytes := output_overhead_bytes r |}.

Definition set_kind (k : ReservationKind) (r : ReservationView) : ReservationView :=
  {| kind := k; state := state r; datasource := datasource r; generation_slot := generation_slot r;
   generation_epoch := generation_epoch r; worker_bytes := worker_bytes r;
   parent_bytes := parent_bytes r; shared_bytes := shared_bytes r;
   output_epoch := output_epoch r; output_pinned := output_pinned r;
   output_frame_bytes := output_frame_bytes r; output_overhead_bytes := output_overhead_bytes r |}.

Definition set_output (e : Z) (pinned : bool) (frame overhead : Z) (r : ReservationView)
  : ReservationView :=
  {| kind := kind r; state := state r; datasource := datasource r;
   generation_slot := generation_slot r; generation_epoch := generation_epoch r;
   worker_bytes := worker_bytes r; parent_bytes := parent_bytes r; shared_bytes := shared_bytes r;
   output_epoch := e; output_pinned := pinned; output_frame_bytes := frame;
   output_overhead_bytes := overhead |}.

(** ** Operations *)

Definition reserve_candidate (d shared : Z) : budget BudgetToken :=
  usable true;; check_datasource d;; need (number shared);;
  reserve (new_row CANDIDATE (Some d) None 0 0 0 shared).

Definition reserve_auxiliary (shared : Z) : budget BudgetToken :=
  usable true;; need (number shared);;
  reserve (new_row AUXILIARY None None 0 0 0 shared).

Definition live_generation (d : option Z) (x : Slot) : bool :=
  match entry x with
  | Some r => bool_decide (kind r = GENERATION) && bool_decide (datasource r = d) &&
            bool_decide (state r = LIVE)
  | None => false
  end.

(** The image with the generation to be replaced draining. *)
Definition drain_replaced (row : ReservationView) (replacing : option BudgetToken) : budget Image :=
  match replacing with
  | None => s ← get_st; mret (image s)
  | Some g =>
    old ← entry_of g;
    guard_st (negb (bool_decide (kind old = GENERATION)) ||
              negb (bool_decide (datasource old = datasource row)) ||
              negb (bool_decide (state old = LIVE))) STATE;;
    s ← get_st;
    mret (with_slot (image s) (token_slot g)
            {| epoch := token_epoch g; entry := Some (set_state DRAINING old) |})
  end.

Definition publish (candidate : BudgetToken) (replacing : option BudgetToken) : budget unit :=
  usable false;;
  row ← entry_of candidate;
  guard_st (negb (bool_decide (kind row = CANDIDATE)) ||
          negb (bool_decide (state row = RESERVED) || bool_decide (state row = LIVE))) STATE;;
  i ← drain_replaced row replacing;
  guard_st (existsb (live_generation (datasource row)) (slots i)) STATE;;
  commit (with_slot i (token_slot candidate)
          {| epoch := token_epoch candidate;
             entry := Some (set_state LIVE (set_kind GENERATION row)) |}).

Definition reserve_session (generation : BudgetToken) (worker parent : Z) : budget BudgetToken :=
  usable true;;
  row ← entry_of generation;
  guard_st (negb (bool_decide (kind row = GENERATION)) || negb (bool_decide (state row = LIVE))) STATE;;
  need (number worker);; need (number parent);;
  reserve (new_row SESSION (datasource row) (Some (token_slot generation)) (token_epoch generation)
           worker parent 0).

Definition mark_live (t : BudgetToken) : budget unit :=
  usable true;;
  row ← entry_of t;
  guard_st (negb (bool_decide (state row = RESERVED))) STATE;;
  replace_entry t (Some (set_state LIVE row)).

Definition adopt_session (t : BudgetToken) : budget unit :=
  usable true;;
  row ← entry_of t;
  guard_st (negb (bool_decide (kind row = SESSION)) || negb (bool_decide (state row = RESERVED))) STATE;;
  replace_entry t (Some (set_state LIVE row)).

Definition drained (x : ReservationState) : bool :=
  match x with DRAINING | HELD => true | _ => false end.

Definition begin_drain (t : BudgetToken) : budget unit :=
  usable false;;
  row ← entry_of t;
  if drained (state row) then mret tt else replace_entry t (Some (set_state DRAINING row)).

Definition begin_output (session : BudgetToken) (frame overhead : Z) : budget BudgetOutputToken :=
  usable true;;
  need (number frame);; need (number overhead);; need (number (2 * frame + overhead));;
  row ← entry_of session;
  guard_st (negb (bool_decide (kind row = SESSION)) || negb (bool_decide (state row = LIVE)) ||
          output_pinned row) STATE;;
  guard_st ((parent_bytes row <? 2 * frame + overhead) || (output_epoch row =? MAX_NUMBER)) CAPACITY;;
  let pin := {| pin_session := session; pin_epoch := output_epoch row + 1;
              pin_frame_bytes := frame; pin_overhead_bytes := overhead |} in
  replace_entry session (Some (set_output (pin_epoch pin) true frame overhead row));;
  mret pin.

Definition end_output (pin : BudgetOutputToken) (discarded drain : bool)
  : budget OutputReleaseOutcome :=
  usable false;;
  need (number (pin_epoch pin));; need (number (pin_frame_bytes pin));;
  need (number (pin_overhead_bytes pin));;
  row ← entry_of (pin_session pin);
  guard_st (negb (bool_decide (kind row = SESSION)) || negb (output_epoch row =? pin_epoch pin)) STATE;;
  if negb (output_pinned row) then mret ALREADY_CLEARED
  else
  guard_st (negb ((output_frame_bytes row =? pin_frame_bytes pin) &&
                  (output_overhead_bytes row =? pin_overhead_bytes pin))) STATE;;
  let x := if drain && negb (bool_decide (state row = HELD)) then DRAINING else state row in
  if negb discarded then
    (if bool_decide (x = state row) then mret tt
     else replace_entry (pin_session pin) (Some (set_state x row)));;
    mret OUTPUT_HELD
  else
    replace_entry (pin_session pin)
      (Some (set_output (output_epoch row) false 0 0 (set_state x row)));;
    mret CLEARED.

Definition retain (t : BudgetToken) : budget unit :=
  usable false;;
  row ← entry_of t;
  if bool_decide (state row = HELD) then mret tt else replace_entry t (Some (set_state HELD row)).

(** A session admitted on the generation of a token. *)
Definition refers_to (t : BudgetToken) (x : Slot) : bool :=
  match entry x with
  | Some r => bool_decide (kind r = SESSION) && bool_decide (generation_slot r = Some (token_slot t)) &&
            (generation_epoch r =? token_epoch t)
  | None => false
  end.

Definition release (t : BudgetToken) (c : CleanupConfirmation) : budget ReleaseOutcome :=
  not_failed;;
  slot ← locate t true;
  match entry slot with
  | None => mret ALREADY_RELEASED
  | Some row =>
    guard_st (negb (drained (state row))) STATE;;
    s ← get_st;
    let referenced := bool_decide (kind row = GENERATION) &&
                      existsb (refers_to t) (slots (image s)) in
    if negb (complete c) || referenced || output_pinned row then
      (if bool_decide (state row = HELD) then mret tt
       else replace_entry t (Some (set_state HELD row)));;
      mret RELEASE_HELD
    else replace_entry t None;; mret RELEASED
  end.

Definition begin_shutdown : budget unit :=
  not_failed;;
  s ← get_st;
  if closing (image s) then mret tt
  else commit {| slots := slots (image s); closing := true; closed := closed (image s) |}.

Definition finish_shutdown : budget unit :=
  not_failed;;
  s ← get_st;
  guard_st (negb (closing (image s))) STATE;;
  guard_st (existsb (fun x => negb (bool_decide (entry x = None))) (slots (image s))) CAPACITY;;
  if closed (image s) then mret tt
  else commit {| slots := slots (image s); closing := closing (image s); closed := true |}.

(** ** Status *)

Record BudgetStatus := {
  st_base_bytes : Z;
  st_headroom_bytes : Z;
  st_worker_bytes : Z;
  st_parent_bytes : Z;
  st_quarantined_bytes : Z;
  st_reserved_bytes : Z;
  st_available_bytes : Z;
  st_sessions : Z;
  st_candidates : Z;
  st_generations : Z;
  st_auxiliaries : Z;
  st_closing : bool;
  st_closed : bool;
  st_failed : bool;
  st_epochs : list Z;
  st_entries : list (option ReservationView);
  st_quarantined_entries : list (list (option ReservationView));
  }.

Definition status (s : ledger) : BudgetStatus :=
  let l := rows (image s) in
  let base := base_bytes (limits s) + sum_bytes shared_bytes l in
  let worker := sum_bytes worker_bytes l in
  let parent := sum_bytes parent_bytes l in
  let reserved := base + headroom_bytes (limits s) + worker + parent in
  let failed := match failure s with Some _ => true | None => false end in
  let quarantine := if failed then total_bytes (limits s) - reserved else 0 in
  {| st_base_bytes := base; st_headroom_bytes := headroom_bytes (limits s);
     st_worker_bytes := worker; st_parent_bytes := parent; st_quarantined_bytes := quarantine;
     st_reserved_bytes := reserved + quarantine;
     st_available_bytes := total_bytes (limits s) - reserved - quarantine;
     st_sessions := count_kind SESSION l; st_candidates := count_kind CANDIDATE l;
     st_generations := count_kind GENERATION l; st_auxiliaries := count_kind AUXILIARY l;
     st_closing := closing (image s); st_closed := closed (image s); st_failed := failed;
     st_epochs := map epoch (slots (image s)); st_entries := map entry (slots (image s));
     st_quarantined_entries :=
       match failure s with
       | None => []
       | Some (old, new) => [map entry (slots old); map entry (slots new)]
       end |}.

(** ** Histories *)

(** A call of the public interface, with whatever arguments. *)
Inductive call :=
  | ReserveCandidate (d shared : Z)
  | ReserveAuxiliary (shared : Z)
  | Publish (candidate : BudgetToken) (replacing : option BudgetToken)
  | ReserveSession (generation : BudgetToken) (worker parent : Z)
  | MarkLive (t : BudgetToken)
  | AdoptSession (t : BudgetToken)
  | BeginDrain (t : BudgetToken)
  | BeginOutput (session : BudgetToken) (frame overhead : Z)
  | EndOutput (pin : BudgetOutputToken) (discarded drain : bool)
  | Retain (t : BudgetToken)
  | Release (t : BudgetToken) (c : CleanupConfirmation)
  | BeginShutdown
  | FinishShutdown.

(** The state a call leaves, whether it returns or raises. *)
Definition after (c : call) (s : ledger) : ledger :=
  match c with
  | ReserveCandidate d n => (reserve_candidate d n s).2
  | ReserveAuxiliary n => (reserve_auxiliary n s).2
  | Publish c r => (publish c r s).2
  | ReserveSession g w p => (reserve_session g w p s).2
  | MarkLive t => (mark_live t s).2
  | AdoptSession t => (adopt_session t s).2
  | BeginDrain t => (begin_drain t s).2
  | BeginOutput t f o => (begin_output t f o s).2
  | EndOutput p d dr => (end_output p d dr s).2
  | Retain t => (retain t s).2
  | Release t c => (release t c s).2
  | BeginShutdown => (begin_shutdown s).2
  | FinishShutdown => (finish_shutdown s).2
  end.

Inductive reachable (s0 : ledger) : ledger -> Prop :=
  | reachable_start : reachable s0 s0
  | reachable_call s c : reachable s0 s -> reachable s0 (after c s).

(** ** The invariant *)

(** What validation does not check of an image: the slots' epochs, the
    generation each session was admitted on, the single live generation of a
    datasource, and an empty table once closed. *)
Record image_ok (l : BudgetLimits) (i : Image) : Prop := {
  io_length : length (slots i) = Z.to_nat (entries l);
  io_epoch n x : slots i !! n = Some x ->
    0 <= epoch x <= MAX_NUMBER /\ (forall r, entry x = Some r -> 1 <= epoch x);
  io_session n x r : slots i !! n = Some x -> entry x = Some r -> kind r = SESSION ->
    exists j y g, generation_slot r = Some (Z.of_nat j) /\ slots i !! j = Some y /\
      epoch y = generation_epoch r /\ entry y = Some g /\ kind g = GENERATION /\
      datasource g = datasource r;
  io_unique n m x y r q : slots i !! n = Some x -> slots i !! m = Some y ->
    entry x = Some r -> entry y = Some q -> kind r = GENERATION -> kind q = GENERATION ->
    state r = LIVE -> state q = LIVE -> datasource r = datasource q -> n = m;
  io_started n x r : slots i !! n = Some x -> entry x = Some r -> kind r = GENERATION ->
    state r <> RESERVED;
  io_closed : closed i = true -> closing i = true /\ forall x, x ∈ slots i -> entry x = None;
  }.

(** A slot's history only moves forward: its epoch grows, or stays with an
    empty slot staying empty. *)
Definition advances (i j : Image) : Prop :=
  forall n x, slots i !! n = Some x -> exists y, slots j !! n = Some y /\
    (epoch x < epoch y \/ epoch y = epoch x /\ (entry x = None -> entry y = None)).

Definition ledger_ok (s : ledger) : Prop :=
  image_ok (limits s) (image s) /\ validate s (image s) = Ok tt.

(** What every call owes the state it started from. *)
Definition follows (s s' : ledger) : Prop :=
  ledger_ok s' /\ advances (image s) (image s') /\ limits s' = limits s /\
  datasources s' = datasources s /\ owner s' = owner s.

Lemma advances_refl i : advances i i.
Proof. intros n x H. exists x. auto. Qed.

Lemma advances_trans i j k : advances i j -> advances j k -> advances i k.
Proof.
  intros H1 H2 n x Hx. destruct (H1 n x Hx) as (y & Hy & Exy).
  destruct (H2 n y Hy) as (z & Hz & Eyz). exists z. split; [exact Hz|].
  destruct Exy as [|[E1 N1]], Eyz as [|[E2 N2]]; try (left; lia). right. split; [lia|auto].
Qed.

Lemma follows_refl s : ledger_ok s -> follows s s.
Proof. intros H. split; [exact H|]. split; [apply advances_refl|auto]. Qed.

Lemma follows_trans a b c : follows a b -> follows b c -> follows a c.
Proof.
  intros (_ & A1 & L1 & D1 & O1) (K & A2 & L2 & D2 & O2).
  split; [exact K|]. split; [eapply advances_trans; eassumption|]. repeat split; congruence.
Qed.

Lemma validate_ext s s' i :
  limits s' = limits s -> datasources s' = datasources s -> validate s' i = validate s i.
Proof. unfold validate, validate_row. intros -> ->. reflexivity. Qed.

(** ** Updates of one slot *)

Section update.
Context (lim : BudgetLimits) (i : Image) (n : nat) (x : Slot).
Context (Hi : image_ok lim i) (Hn : slots i !! n = Some x) (Hopen : closed i = false).

Lemma update_lookup y m z :
  <[n := y]> (slots i) !! m = Some z -> m = n /\ z = y \/ m <> n /\ slots i !! m = Some z.
Proof.
  intros H. destruct (decide (n = m)) as [<-|N].
  - rewrite list_lookup_insert_eq in H by (eapply lookup_lt_Some; exact Hn).
    injection H as <-. auto.
  - rewrite list_lookup_insert_ne in H by exact N. auto.
Qed.

Lemma update_advances y :
  epoch x < epoch y \/ epoch y = epoch x /\ (entry x = None -> entry y = None) ->
  advances i (with_slot i (Z.of_nat n) y).
Proof.
  intros H m z Hz. cbn [with_slot slots]. rewrite Nat2Z.id.
  destruct (decide (n = m)) as [<-|N].
  - exists y. rewrite list_lookup_insert_eq by (eapply lookup_lt_Some; exact Hn).
    split; [reflexivity|]. congruence.
  - exists z. rewrite list_lookup_insert_ne by exact N. auto.
Qed.

(** The new content [y] of slot [n] may be anything that keeps the rows that
    point at it right. *)
Lemma update_ok y :
  0 <= epoch y <= MAX_NUMBER ->
  (forall r, entry y = Some r -> 1 <= epoch y /\ (kind r = GENERATION -> state r <> RESERVED) /\
   (kind r = SESSION -> exists j z g, generation_slot r = Some (Z.of_nat j) /\ j <> n /\
      slots i !! j = Some z /\ epoch z = generation_epoch r /\ entry z = Some g /\
      kind g = GENERATION /\ datasource g = datasource r) /\
   (kind r = GENERATION -> state r = LIVE -> forall m z q, m <> n -> slots i !! m = Some z ->
      entry z = Some q -> kind q = GENERATION -> state q = LIVE -> datasource q <> datasource r)) ->
  (forall m z r g, m <> n -> slots i !! m = Some z -> entry z = Some r -> kind r = SESSION ->
   generation_slot r = Some (Z.of_nat n) -> epoch x = generation_epoch r ->
   entry x = Some g -> kind g = GENERATION ->
   epoch y = epoch x /\ exists g', entry y = Some g' /\ kind g' = GENERATION /\
     datasource g' = datasource g) ->
  image_ok lim (with_slot i (Z.of_nat n) y).
Proof.
  intros He Hy Href. destruct Hi as [Hlen Hep Hse Hun Hst Hcl].
  split; cbn [with_slot slots closing closed]; rewrite ?Nat2Z.id.
  - rewrite length_insert. exact Hlen.
  - intros m z [[-> ->]|[N Hz]]%update_lookup; [|eauto]. split; [exact He|]. intros r Hr.
    apply (Hy r Hr).
  - intros m z r Hz Hr Hk. apply update_lookup in Hz as [[-> ->]|[N Hz]].
    + destruct (Hy r Hr) as (_ & _ & Hs & _). destruct (Hs Hk) as (j & w & g & Hg & Nj & Hw & Hrest).
  exists j, w, g. rewrite list_lookup_insert_ne by congruence. auto.
    + destruct (Hse m z r Hz Hr Hk) as (j & w & g & Hg & Hw & Hwe & Hwg & Hgk & Hgd).
  destruct (decide (n = j)) as [<-|Nj].
  * rewrite Hn in Hw. injection Hw as <-.
      destruct (Href m z r g N Hz Hr Hk Hg Hwe Hwg Hgk) as (E & g' & Hg' & Hk' & Hd').
      exists n, y, g'. rewrite list_lookup_insert_eq by (eapply lookup_lt_Some; exact Hn).
      repeat split; auto; congruence.
  * exists j, w, g. rewrite list_lookup_insert_ne by exact Nj. auto 10.
  - intros a b z w r q Ha Hb Hr Hq Kr Kq Lr Lq D.
    apply update_lookup in Ha as [[-> ->]|[Na Ha]]; apply update_lookup in Hb as [[-> ->]|[Nb Hb]].
    + reflexivity.
    + exfalso. destruct (Hy r Hr) as (_ & _ & _ & Hu). eapply (Hu Kr Lr b w q); eauto.
    + exfalso. destruct (Hy q Hq) as (_ & _ & _ & Hu). eapply (Hu Kq Lq a z r); eauto.
    + eapply Hun; eassumption.
  - intros m z r Hz Hr Hk. apply update_lookup in Hz as [[-> ->]|[N Hz]]; [|eauto].
    apply (Hy r Hr). exact Hk.
  - congruence.
Qed.
End update.

(** A row changed in place: its state or its output, never what it is. *)
Lemma same_row_ok lim i n x r r' :
  image_ok lim i -> closed i = false -> slots i !! n = Some x -> entry x = Some r ->
  kind r' = kind r -> datasource r' = datasource r -> generation_slot r' = generation_slot r ->
  generation_epoch r' = generation_epoch r ->
  (kind r = GENERATION -> state r' <> RESERVED /\ (state r' = LIVE -> state r = LIVE)) ->
  image_ok lim (with_slot i (Z.of_nat n) {| epoch := epoch x; entry := Some r' |}).
Proof.
  intros Hi Hopen Hn Hr Kk Kd Ks Ke Hg. apply (update_ok lim i n x Hi Hn Hopen); cbn [epoch entry].
  - exact (proj1 (io_epoch _ _ Hi n x Hn)).
  - intros q [= <-]. split; [exact (proj2 (io_epoch _ _ Hi n x Hn) r Hr)|].
    rewrite Kk, Kd, Ks, Ke. split; [intros K; apply Hg, K|]. split.
    + intros K. destruct (io_session _ _ Hi n x r Hn Hr K) as (j & z & g & H1 & H2 & H3 & H4 & H5 & H6).
      exists j, z, g. repeat split; auto. intros ->. congruence.
    + intros K Lr m z q N Hz Hq Kq Lq D. apply N.
      eapply (io_unique _ _ Hi m n z x q r); eauto. apply Hg; assumption.
  - intros m z q g _ _ _ _ _ _ Hx Kg. rewrite Hr in Hx. injection Hx as <-.
    split; [reflexivity|]. exists r'. split; [reflexivity|]. split; congruence.
Qed.

(** A row put in an empty slot, under the next epoch. *)
Lemma fill_ok lim i n x r :
  image_ok lim i -> closed i = false -> slots i !! n = Some x -> entry x = None ->
  epoch x < MAX_NUMBER -> kind r <> GENERATION ->
  (kind r = SESSION -> exists j z g, generation_slot r = Some (Z.of_nat j) /\ slots i !! j = Some z /\
     epoch z = generation_epoch r /\ entry z = Some g /\ kind g = GENERATION /\
     datasource g = datasource r) ->
  image_ok lim (with_slot i (Z.of_nat n) {| epoch := epoch x + 1; entry := Some r |}).
Proof.
  intros Hi Hopen Hn Hx He Hk Hs. pose proof (proj1 (io_epoch _ _ Hi n x Hn)) as Hb.
  apply (update_ok lim i n x Hi Hn Hopen); cbn [epoch entry].
  - lia.
  - intros q [= <-]. split; [lia|]. split; [contradiction|]. split; [|contradiction].
    intros K. destruct (Hs K) as (j & z & g & H1 & H2 & H3 & H4 & H5 & H6). exists j, z, g.
    repeat split; auto. intros ->. congruence.
  - intros m z q g _ _ _ _ _ _ Hg. congruence.
Qed.

(** A row removed, when no session was admitted on it. *)
Lemma clear_ok lim i n x r :
  image_ok lim i -> closed i = false -> slots i !! n = Some x -> entry x = Some r ->
  (kind r = GENERATION -> forall m z q, slots i !! m = Some z -> entry z = Some q ->
     kind q = SESSION -> generation_slot q = Some (Z.of_nat n) -> generation_epoch q <> epoch x) ->
  image_ok lim (with_slot i (Z.of_nat n) {| epoch := epoch x; entry := None |}).
Proof.
  intros Hi Hopen Hn Hr Href. apply (update_ok lim i n x Hi Hn Hopen); cbn [epoch entry].
  - exact (proj1 (io_epoch _ _ Hi n x Hn)).
  - discriminate.
  - intros m z q g _ Hz Hq Kq Gq Eq Hg Kg. exfalso. rewrite Hr in Hg. injection Hg as <-.
    eapply Href; eauto.
Qed.

(** ** Rules for the ledger's steps *)

Definition located (t : BudgetToken) (s : ledger) (x : Slot) : Prop :=
  exists n, token_slot t = Z.of_nat n /\ slots (image s) !! n = Some x /\ epoch x = token_epoch t.

Section rules.
Context (s0 : ledger).
Abbreviation wps := (wp (follows s0)).

Lemma wp_usable b (Q : unit -> ledger -> Prop) s :
  follows s0 s ->
  (failure s = None -> closed (image s) = false -> (b = true -> closing (image s) = false) -> Q tt s) ->
  wps (usable b) Q s.
Proof.
  intros F H. unfold wp, usable. destruct (failure s); [exact F|].
  destruct (closed (image s)) eqn:C, b; cbn; try exact F; try (apply H; auto; discriminate).
  destruct (closing (image s)) eqn:G; cbn; [exact F|]. apply H; auto.
Qed.

Lemma wp_not_failed (Q : unit -> ledger -> Prop) s :
  follows s0 s -> (failure s = None -> Q tt s) -> wps not_failed Q s.
Proof. intros F H. unfold wp, not_failed. destruct (failure s); auto. Qed.

Lemma wp_datasource d (Q : unit -> ledger -> Prop) s :
  follows s0 s -> (0 <= d < Z.of_nat (length (datasources s)) -> Q tt s) -> wps (check_datasource d) Q s.
Proof.
  intros F H. unfold wp, check_datasource, number_in, refuse_if.
  destruct (Z.leb_spec 0 d), (Z.leb_spec d (Z.of_nat (length (datasources s)) - 1)); cbn;
    try exact F. apply H. lia.
Qed.

Lemma wp_need m (Q : unit -> ledger -> Prop) s :
  follows s0 s -> (m = Ok tt -> Q tt s) -> wps (need m) Q s.
Proof. intros F H. apply wp_lift; [exact F|]. intros [] ->. auto. Qed.

Lemma locate_cases t b s r :
  fst (locate t b s) = r ->
  match r with
  | Ok x => located t s x /\ (b = false -> exists row, entry x = Some row)
  | Err _ => True
  end.
Proof.
  intros <-. unfold locate. cbn [fst].
  destruct (refuse_if _ INVALID); cbn [mbind res_bind]; [|exact I].
  destruct (number_in 0 _ (token_slot t)) as [[]|] eqn:N; cbn [mbind res_bind]; [|exact I].
  destruct (number (token_epoch t)); cbn [mbind res_bind]; [|exact I].
  destruct (slots (image s) !! Z.to_nat (token_slot t)) as [x|] eqn:X; [|exact I].
  destruct (refuse_if _ STATE) as [[]|] eqn:R; cbn [mbind res_bind]; [|exact I].
  apply refuse_if_Ok, orb_false_iff in R as [R1 R2]. apply negb_false_iff, Z.eqb_eq in R1.
  apply refuse_if_Ok, negb_false_iff, andb_true_iff in N as [N _]. apply Z.leb_le in N. split.
  - exists (Z.to_nat (token_slot t)). rewrite Z2Nat.id by exact N. auto.
  - intros ->. destruct (entry x) as [row|]; [eauto|]. discriminate R2.
Qed.

Lemma wp_locate t b (Q : Slot -> ledger -> Prop) s :
  follows s0 s ->
  (forall x, located t s x -> (b = false -> exists row, entry x = Some row) -> Q x s) ->
  wps (locate t b) Q s.
Proof.
  intros F H. pose proof (locate_cases t b s _ eq_refl) as C. unfold wp.
  assert (E : snd (locate t b s) = s) by reflexivity.
  destruct (locate t b s) as [[x|e] s']; cbn in E, C; subst s'; [|exact F]. apply H; apply C.
Qed.

Lemma wp_entry t (Q : ReservationView -> ledger -> Prop) s :
  follows s0 s ->
  (forall x row, located t s x -> entry x = Some row -> Q row s) -> wps (entry_of t) Q s.
Proof.
  intros F H. unfold entry_of. apply wp_bind, wp_locate; [exact F|]. intros x Hx Hr.
  destruct (Hr eq_refl) as [row Hrow]. rewrite Hrow. apply wp_ret. eauto.
Qed.

Lemma wp_commit i (Q : unit -> ledger -> Prop) s :
  follows s0 s -> image_ok (limits s) i -> advances (image s) i ->
  (forall s', follows s0 s' -> image s' = i -> Q tt s') -> wps (commit i) Q s.
Proof.
  intros F Hi Ha HQ. unfold wp, commit.
  destruct (validate s i) as [[]|e] eqn:V; [|exact F].
  assert (New : forall f, follows s0 (set_image i f s)).
  { intros f. eapply follows_trans; [exact F|]. split; [split; [exact Hi|exact V]|].
    split; [exact Ha|auto]. }
  assert (Old : forall f, follows s0 (set_image (image s) f s)).
  { intros f. eapply follows_trans; [exact F|]. split; [exact (proj1 F)|].
    split; [apply advances_refl|auto]. }
  destruct (write_image (publications s)), (restore_image (publications s)); auto.
Qed.

(** Replacing a located row by one of the same nature. *)
Lemma wp_replace t row row' (Q : unit -> ledger -> Prop) s x :
  follows s0 s -> closed (image s) = false -> located t s x -> entry x = Some row ->
  kind row' = kind row -> datasource row' = datasource row ->
  generation_slot row' = generation_slot row -> generation_epoch row' = generation_epoch row ->
  (kind row = GENERATION -> state row' <> RESERVED /\ (state row' = LIVE -> state row = LIVE)) ->
  (forall s', follows s0 s' -> Q tt s') ->
  wps (replace_entry t (Some row')) Q s.
Proof.
  intros F C (n & Hs & Hn & He) Hr K1 K2 K3 K4 Hg HQ. unfold replace_entry.
  apply wp_bind, wp_locate; [exact F|]. intros _ _ _. apply wp_bind, wp_get.
  rewrite Hs, <- He. apply wp_commit; auto.
  - eapply same_row_ok; eauto. exact (proj1 (proj1 F)).
  - eapply update_advances; [exact Hn|]. right. split; [reflexivity|]. cbn. congruence.
Qed.

Lemma free_slot_spec k l n x :
  free_slot k l = Some (n, x) ->
  exists m, n = (k + m)%nat /\ l !! m = Some x /\ entry x = None /\ epoch x < MAX_NUMBER.
Proof.
  revert k. induction l as [|y l IH]; intros k; cbn [free_slot]; [discriminate|].
  destruct (bool_decide _ && _) eqn:B.
  - intros [= <- <-]. apply andb_true_iff in B as [B1 B2].
    apply bool_decide_eq_true in B1. apply Z.ltb_lt in B2. exists 0%nat. split; [lia|]. auto.
  - intros H. destruct (IH _ H) as (m & -> & Hm). exists (S m). split; [lia|exact Hm].
Qed.

Lemma wp_reserve row (Q : BudgetToken -> ledger -> Prop) s :
  follows s0 s -> closed (image s) = false -> kind row <> GENERATION ->
  (kind row = SESSION -> exists j z g, generation_slot row = Some (Z.of_nat j) /\
   slots (image s) !! j = Some z /\ epoch z = generation_epoch row /\ entry z = Some g /\
   kind g = GENERATION /\ datasource g = datasource row) ->
  (forall t s', follows s0 s' -> Q t s') -> wps (reserve row) Q s.
Proof.
  intros F C Hk Hs HQ. unfold reserve. apply wp_bind, wp_get.
  destruct (free_slot 0 (slots (image s))) as [[n x]|] eqn:E; [|exact F].
  apply free_slot_spec in E as (m & -> & Hm & Hx & He). cbn [Nat.add] in *.
  apply wp_bind, wp_commit; [exact F| | |].
  - apply fill_ok; auto. exact (proj1 (proj1 F)).
  - eapply update_advances; [exact Hm|]. left. cbn. lia.
  - intros s' F' _. apply wp_ret. auto.
Qed.
End rules.

(** ** Every call keeps the invariant *)

Lemma live_generation_spec d x r :
  entry x = Some r ->
  live_generation d x = true <-> kind r = GENERATION /\ datasource r = d /\ state r = LIVE.
Proof.
  intros E. unfold live_generation. rewrite E, !andb_true_iff, !bool_decide_eq_true. tauto.
Qed.

Lemma publish_follows s0 c rep s : follows s0 s -> follows s0 (publish c rep s).2.
Proof.
  intros F. apply wp_exit. unfold publish. apply wp_bind, wp_usable; [exact F|].
  intros _ C _. apply wp_bind, wp_entry; [exact F|]. intros x row (n & Hs & Hn & He) Hr.
  apply wp_bind, wp_guard; [exact F|]. intros G1.
  apply orb_false_iff in G1 as [G1 G2]. apply negb_false_iff, bool_decide_eq_true in G1.
  assert (Hdrain : wp (follows s0) (drain_replaced row rep)
    (fun i s' => s' = s /\ image_ok (limits s) i /\ closed i = false /\ slots i !! n = Some x /\
                 advances (image s) i) s).
  { pose proof (proj1 (proj1 F)) as Hi. destruct rep as [g|]; cbn [drain_replaced].
    - apply wp_bind, wp_entry; [exact F|]. intros y old (m & Hs' & Hm & He') Ho.
      apply wp_bind, wp_guard; [exact F|]. intros G. rewrite !orb_false_iff in G.
      destruct G as [[G3 G4] G5]. apply negb_false_iff, bool_decide_eq_true in G3, G4, G5.
      apply wp_bind, wp_get, wp_ret. split; [reflexivity|]. rewrite Hs', <- He'.
      assert (N : m <> n) by (intros ->; congruence). split; [|split; [exact C|split]].
      + eapply same_row_ok; eauto; intros _; split; discriminate.
      + cbn [with_slot slots]. rewrite Nat2Z.id, list_lookup_insert_ne by exact N. exact Hn.
      + eapply update_advances; [exact Hm|]. right. split; [reflexivity|]. cbn. congruence.
    - apply wp_bind, wp_get, wp_ret. split; [reflexivity|]. split; [exact Hi|].
      split; [exact C|]. split; [exact Hn|apply advances_refl]. }
  apply wp_bind. eapply wp_mono; [|exact Hdrain]. intros i s' (-> & Hi & Ci & Hni & Ha).
  apply wp_bind, wp_guard; [exact F|]. intros G3. rewrite Hs, <- He.
  apply wp_commit; auto.
  - apply (update_ok _ i n x Hi Hni Ci); cbn [epoch entry].
    + exact (proj1 (io_epoch _ _ Hi n x Hni)).
    + intros q [= <-]. cbn [set_state set_kind kind state datasource].
      split; [exact (proj2 (io_epoch _ _ Hi n x Hni) row Hr)|]. split; [discriminate|].
      split; [discriminate|]. intros _ _ m z q N Hz Hq Kq Lq D.
      assert (Hex : existsb (live_generation (datasource row)) (slots i) = true).
      { apply existsb_exists. exists z. split.
        - rewrite <- list_elem_of_In. eapply list_elem_of_lookup_2. exact Hz.
        - apply (live_generation_spec _ _ _ Hq). auto. }
      congruence.
    + intros m z q g _ _ _ _ _ _ Hg Kg. congruence.
  - eapply advances_trans; [exact Ha|]. eapply update_advances; [exact Hni|]. right.
    split; [reflexivity|]. cbn. congruence.
Qed.

Lemma release_follows s0 t c s : follows s0 s -> follows s0 (release t c s).2.
Proof.
  intros F. apply wp_exit. unfold release. apply wp_bind, wp_not_failed; [exact F|]. intros _.
  apply wp_bind, wp_locate; [exact F|]. intros x Hx _.
  destruct (entry x) as [row|] eqn:Hr; [|apply wp_ret; exact F].
  apply wp_bind, wp_guard; [exact F|]. intros G. apply negb_false_iff in G.
  apply wp_bind, wp_get. cbv zeta.
  assert (C : closed (image s) = false).
  { destruct (closed (image s)) eqn:C; [|reflexivity]. exfalso. destruct Hx as (n & _ & Hn & _).
    destruct (io_closed _ _ (proj1 (proj1 F)) C) as [_ Hall].
    rewrite (Hall x) in Hr by (eapply list_elem_of_lookup_2; exact Hn). discriminate. }
  destruct (_ || output_pinned row) eqn:B.
  - apply wp_bind. destruct (bool_decide (state row = HELD)); [apply wp_ret, wp_ret; exact F|].
    eapply (wp_replace s0 t row); eauto; try (intros _; split; discriminate);
      intros; apply wp_ret; assumption.
  - apply orb_false_iff in B as [B _]. apply orb_false_iff in B as [_ B].
    pose proof Hx as (n & Hs & Hn & He). apply wp_bind. unfold replace_entry.
    apply wp_bind, wp_locate; [exact F|]. intros _ _ _. apply wp_bind, wp_get.
    rewrite Hs, <- He. apply wp_commit; [exact F| | |].
    + eapply clear_ok; eauto; [exact (proj1 (proj1 F))|].
      intros K m z q Hz Hq Kq Gq Eq. rewrite K, bool_decide_eq_true_2 in B by reflexivity.
      cbn [andb] in B. assert (Hex : existsb (refers_to t) (slots (image s)) = true).
      { apply existsb_exists. exists z. split.
        - rewrite <- list_elem_of_In. eapply list_elem_of_lookup_2. exact Hz.
        - unfold refers_to. rewrite Hq, !andb_true_iff, !bool_decide_eq_true, Z.eqb_eq.
          rewrite Hs. repeat split; auto. congruence. }
      congruence.
    + eapply update_advances; [exact Hn|]. right. auto.
    + intros s' F' _. apply wp_ret. exact F'.
Qed.

(** Solve the obligations of a row replaced in place. *)
Ltac replace_row :=
  eapply wp_replace; eauto; cbn [set_state set_output kind state datasource generation_slot
    generation_epoch]; try (intros; split; congruence).

Lemma state_change_follows s0 (admission : bool) (refuse : ReservationView -> bool)
    (keep : ReservationView -> bool) x t s :
  follows s0 s -> x <> RESERVED ->
  (x = LIVE -> forall r, refuse r = false -> state r = RESERVED) ->
  wp (follows s0)
    (usable admission;;
     row ← entry_of t;
     guard_st (refuse row) STATE;;
     if keep row then mret tt else replace_entry t (Some (set_state x row)))
    (fun _ => follows s0) s.
Proof.
  intros F Hx Hl. apply wp_bind, wp_usable; [exact F|]. intros _ C _.
  apply wp_bind, wp_entry; [exact F|]. intros y row Hy Hr.
  apply wp_bind, wp_guard; [exact F|]. intros G.
  destruct (keep row); [apply wp_ret; exact F|].
  eapply wp_replace; eauto. intros K. split; [exact Hx|]. cbn. intros ->.
  specialize (Hl eq_refl row G). destruct Hy as (n & _ & Hn & _).
  exfalso. exact (io_started _ _ (proj1 (proj1 F)) n y row Hn Hr K Hl).
Qed.

Lemma reserve_session_follows s0 g w p s :
  follows s0 s -> follows s0 (reserve_session g w p s).2.
Proof.
  intros F. apply wp_exit. unfold reserve_session. apply wp_bind, wp_usable; [exact F|].
  intros _ C _. apply wp_bind, wp_entry; [exact F|]. intros x row (n & Hs & Hn & He) Hr.
  apply wp_bind, wp_guard; [exact F|]. intros G. apply orb_false_iff in G as [G _].
  apply negb_false_iff, bool_decide_eq_true in G.
  apply wp_bind, wp_need; [exact F|]. intros _. apply wp_bind, wp_need; [exact F|]. intros _.
  apply wp_reserve; auto; try discriminate.
  intros _. exists n, x, row. cbn [new_row generation_slot generation_epoch datasource].
  rewrite Hs. repeat split; auto.
Qed.

Lemma begin_output_follows s0 t f o s : follows s0 s -> follows s0 (begin_output t f o s).2.
Proof.
  intros F. apply wp_exit. unfold begin_output. apply wp_bind, wp_usable; [exact F|].
  intros _ C _. do 3 (apply wp_bind, wp_need; [exact F|]; intros _).
  apply wp_bind, wp_entry; [exact F|]. intros x row Hx Hr.
  apply wp_bind, wp_guard; [exact F|]. intros G. rewrite !orb_false_iff in G.
  destruct G as [[G _] _]. apply negb_false_iff, bool_decide_eq_true in G.
  apply wp_bind, wp_guard; [exact F|]. intros _. cbv zeta. apply wp_bind. replace_row.
Qed.

Lemma end_output_follows s0 p d dr s : follows s0 s -> follows s0 (end_output p d dr s).2.
Proof.
  intros F. apply wp_exit. unfold end_output. apply wp_bind, wp_usable; [exact F|].
  intros _ C _. do 3 (apply wp_bind, wp_need; [exact F|]; intros _).
  apply wp_bind, wp_entry; [exact F|]. intros x row Hx Hr.
  apply wp_bind, wp_guard; [exact F|]. intros G. apply orb_false_iff in G as [G _].
  apply negb_false_iff, bool_decide_eq_true in G.
  destruct (output_pinned row); cbn [negb]; [|apply wp_ret; exact F].
  apply wp_bind, wp_guard; [exact F|]. intros _. cbv zeta.
  set (st := if dr && _ then DRAINING else state row).
  destruct d; cbn [negb]; apply wp_bind.
  - replace_row.
  - destruct (bool_decide (st = state row)); [apply wp_ret, wp_ret; exact F|]. replace_row.
Qed.

Lemma shutdown_follows s0 s : follows s0 s ->
  follows s0 (begin_shutdown s).2 /\ follows s0 (finish_shutdown s).2.
Proof.
  intros F. pose proof (proj1 (proj1 F)) as [H1 H2 H3 H4 H5 H6]. split; apply wp_exit.
  - unfold begin_shutdown. apply wp_bind, wp_not_failed; [exact F|]. intros _.
    apply wp_bind, wp_get. destruct (closing (image s)); [exact F|].
    apply wp_commit; auto; [|intros n x Hx; exists x; auto].
    split; cbn; auto. intros C. split; [reflexivity|]. apply H6, C.
  - unfold finish_shutdown. apply wp_bind, wp_not_failed; [exact F|]. intros _.
    apply wp_bind, wp_get. apply wp_bind, wp_guard; [exact F|]. intros Gc.
    apply negb_false_iff in Gc. apply wp_bind, wp_guard; [exact F|]. intros Ge.
    destruct (closed (image s)); [exact F|].
    apply wp_commit; auto; [|intros n x Hx; exists x; auto].
    split; cbn; auto. intros _. split; [exact Gc|]. intros x Hx.
    destruct (entry x) eqn:E; [|reflexivity]. exfalso. apply not_true_iff_false in Ge. apply Ge.
    apply existsb_exists. exists x. rewrite <- list_elem_of_In. split; [exact Hx|]. rewrite E. reflexivity.
Qed.

(** Every call, whatever its arguments and however its publication ends. *)
Lemma after_follows s0 c s : follows s0 s -> follows s0 (after c s).
Proof.
  intros F. destruct c; cbn [after].
  - apply wp_exit. unfold reserve_candidate. apply wp_bind, wp_usable; [exact F|]. intros _ C _.
    apply wp_bind, wp_datasource; [exact F|]. intros _. apply wp_bind, wp_need; [exact F|].
    intros _. apply wp_reserve; auto; try discriminate.
  - apply wp_exit. unfold reserve_auxiliary. apply wp_bind, wp_usable; [exact F|]. intros _ C _.
    apply wp_bind, wp_need; [exact F|]. intros _. apply wp_reserve; auto; try discriminate.
  - apply publish_follows, F.
  - apply reserve_session_follows, F.
  - apply wp_exit.
    apply (state_change_follows s0 true (fun row => negb (bool_decide (state row = RESERVED)))
             (fun _ => false) LIVE t s F); auto; try discriminate.
    intros _ r G. apply negb_false_iff, bool_decide_eq_true in G. exact G.
  - apply wp_exit.
    apply (state_change_follows s0 true (fun row => negb (bool_decide (kind row = SESSION)) ||
             negb (bool_decide (state row = RESERVED))) (fun _ => false) LIVE t s F); auto; try discriminate.
    intros _ r [_ G]%orb_false_iff. apply negb_false_iff, bool_decide_eq_true in G. exact G.
  - apply wp_exit.
    apply (state_change_follows s0 false (fun _ => false) (fun row => drained (state row)) DRAINING t s F);
      auto; try discriminate.
  - apply begin_output_follows, F.
  - apply end_output_follows, F.
  - apply wp_exit.
    apply (state_change_follows s0 false (fun _ => false) (fun row => bool_decide (state row = HELD))
             HELD t s F); auto; try discriminate.
  - apply release_follows, F.
  - apply (shutdown_follows s0 s F).
  - apply (shutdown_follows s0 s F).
Qed.
End ledger.

(** ** Consequences *)

Lemma validate_Ok s i u :
  validate s i = Ok u ->
  base_bytes (limits s) + headroom_bytes (limits s) + sum_bytes row_bytes (rows i)
    <= total_bytes (limits s) /\
  count_kind SESSION (rows i) <= Z.min (max_sessions (limits s)) (max_workers (limits s)) /\
  count_kind CANDIDATE (rows i) <= max_candidates (limits s) /\
  count_kind GENERATION (rows i) <= max_generations (limits s) /\
  count_kind AUXILIARY (rows i) <= max_auxiliaries (limits s) /\
  (forall d c, datasources s !! d = Some c ->
     count_at SESSION (Z.of_nat d) (rows i) <= ds_sessions c /\
     count_at CANDIDATE (Z.of_nat d) (rows i) <= ds_candidates c) /\
  (forall r, r ∈ rows i -> validate_output r = Ok tt).
Proof.
  unfold validate. intros H. apply bind_Ok in H as (us & Hrows & H).
  apply bind_Ok in H as ([] & Hc & H). apply refuse_if_Ok in Hc.
  rewrite !orb_false_iff, !Z.ltb_ge in Hc. destruct Hc as ((((C1 & C2) & C3) & C4) & C5).
  apply bind_Ok in H as (vs & Hds & _). do 5 (split; [assumption|]). split.
  - intros d c Hd. apply mapM_res_Forall2 in Hds.
    assert (Hx : imap pair (datasources s) !! d = Some (d, c))
      by (rewrite list_lookup_imap, Hd; reflexivity).
    destruct (Forall2_lookup_l _ _ _ _ _ Hds Hx) as (v & _ & Hv).
    unfold validate_datasource in Hv. apply refuse_if_Ok, orb_false_iff in Hv as [V1 V2].
    apply Z.ltb_ge in V1, V2. auto.
  - intros r Hr. apply mapM_res_Forall2 in Hrows. apply list_elem_of_lookup in Hr as [k Hk].
    destruct (Forall2_lookup_l _ _ _ _ _ Hrows Hk) as (v & _ & Hv).
    unfold validate_row in Hv. apply bind_Ok in Hv as ([] & Hv & _). exact Hv.
Qed.

Lemma rows_replicate n : omap entry (replicate n empty_slot) = [].
Proof. induction n as [|n IH]; [reflexivity|]. exact IH. Qed.

Lemma number_in_Ok lo hi v u : number_in lo hi v = Ok u <-> lo <= v <= hi.
Proof. unfold number_in. rewrite refuse_if_Ok, negb_false_iff, andb_true_iff, !Z.leb_le. lia. Qed.

(** A new ledger, from limits and capacities that were constructed. *)
Lemma new_ledger_ok own l l' ds ds' s0 :
  budget_limits l = Ok l' -> mapM_res datasource_capacity ds = Ok ds' ->
  new_ledger own l ds = Ok s0 -> ledger_ok s0 /\ limits s0 = l /\ datasources s0 = ds.
Proof.
  unfold budget_limits, new_ledger. intros H Hds H0. apply bind_Ok in H0 as ([] & _ & [= <-]).
  cbv zeta in H. apply bind_Ok in H as (? & Hbytes & H). apply bind_Ok in H as (? & Hcounts & H).
  apply bind_Ok in H as ([] & Hsum & _). apply refuse_if_Ok, orb_false_iff in Hsum as [Hsum _].
  apply Z.ltb_ge in Hsum. apply mapM_res_Forall2 in Hcounts.
  repeat match goal with H : Forall2 _ (_ :: _) _ |- _ => inversion H; subst; clear H end.
  repeat match goal with H : number_in _ _ _ = Ok _ |- _ => apply number_in_Ok in H end.
  split; [|auto]. split; cbn [limits image].
  - split; cbn [slots closing closed].
    + apply length_replicate.
    + intros ? ? [-> _]%lookup_replicate. cbn. split; [|discriminate]. unfold MAX_NUMBER. lia.
    + intros ? ? ? [-> _]%lookup_replicate. discriminate.
    + intros ? ? ? ? ? ? [-> _]%lookup_replicate _. discriminate.
    + intros ? ? ? [-> _]%lookup_replicate. discriminate.
    + discriminate.
  - unfold validate, rows. cbn [slots limits datasources image]. rewrite rows_replicate.
    cbn [mapM_res mbind res_bind sum_bytes]. unfold count_kind. cbn [filter list_filter length].
    rewrite Z.add_0_r, (proj2 (Z.ltb_ge _ _)) by lia. cbn [orb].
    rewrite !(proj2 (Z.ltb_ge _ _)) by lia. cbn [orb refuse_if mbind res_bind].
    replace (mapM_res _ _) with (Ok (E := BudgetFailure) (map (fun _ => tt) (imap pair ds))).
    { reflexivity. }
    symmetry. apply mapM_res_Forall2. apply Forall2_same_length_lookup.
    split; [rewrite length_map; reflexivity|]. intros k [i c] u Hk _. destruct u.
    rewrite list_lookup_imap in Hk. destruct (ds !! k) as [c'|] eqn:Hc; [|discriminate].
    injection Hk as <- ->. apply mapM_res_Forall2 in Hds.
    destruct (Forall2_lookup_l _ _ _ _ _ Hds Hc) as (c1 & _ & Hcap).
    unfold datasource_capacity in Hcap. apply bind_Ok in Hcap as ([] & Q1 & Hcap).
    apply bind_Ok in Hcap as ([] & Q2 & _). apply number_in_Ok in Q1, Q2.
    unfold validate_datasource. apply refuse_if_Ok. unfold count_at.
    cbn [filter list_filter length fst snd]. apply orb_false_iff. rewrite !Z.ltb_ge. lia.
Qed.

Lemma reachable_follows wr rs s0 s : ledger_ok s0 -> reachable wr rs s0 s -> follows s0 s.
Proof.
  intros H0. induction 1 as [|s c _ IH]; [apply follows_refl, H0|]. apply after_follows. exact IH.
Qed.

Lemma sum_bytes_app f l k : sum_bytes f (l ++ k) = sum_bytes f l + sum_bytes f k.
Proof. induction l as [|x l IH]; cbn; [reflexivity|]. rewrite IH. lia. Qed.

Lemma sum_bytes_split l :
  sum_bytes row_bytes l = sum_bytes worker_bytes l + sum_bytes parent_bytes l + sum_bytes shared_bytes l.
Proof. induction l as [|x l IH]; cbn; [reflexivity|]. rewrite IH. unfold row_bytes. lia. Qed.

(** Clearing a slot gives back exactly its row. *)
Lemma sum_bytes_clear f i n x row e :
  slots i !! n = Some x -> entry x = Some row ->
  sum_bytes f (rows (with_slot i (Z.of_nat n) {| epoch := e; entry := None |})) =
  sum_bytes f (rows i) - f row.
Proof.
  intros Hn Hr. unfold rows. cbn [with_slot slots]. rewrite Nat2Z.id.
  pose proof (take_drop_middle _ _ _ Hn) as E.
  rewrite insert_take_drop by (eapply lookup_lt_Some; exact Hn).
  transitivity (sum_bytes f (omap entry (take n (slots i) ++ x :: drop (S n) (slots i))) - f row);
    [|rewrite E; reflexivity].
  rewrite !omap_app, !sum_bytes_app. cbn. rewrite Hr. cbn. lia.
Qed.

(** A token whose reservation is over: its slot has moved to a later epoch, or
    is empty under the token's own. *)
Definition stale (t : BudgetToken) (s : ledger) : Prop :=
  token_owner t = owner s /\ exists n x, token_slot t = Z.of_nat n /\ slots (image s) !! n = Some x /\
    (token_epoch t < epoch x \/ token_epoch t = epoch x /\ entry x = None).

Lemma stale_follows t s s' : stale t s -> follows s s' -> stale t s'.
Proof.
  intros (O & n & x & Hs & Hn & He) (_ & A & _ & _ & O'). split; [congruence|].
  destruct (A n x Hn) as (y & Hy & Ey). exists n, y. split; [exact Hs|]. split; [exact Hy|].
  destruct He as [|[E1 E2]], Ey as [|[E3 E4]]; try (left; lia). right. split; [lia|auto].
Qed.

(** A call that presents the token. *)
Definition uses (c : call) (t : BudgetToken) : Prop :=
  match c with
  | Publish x r => x = t \/ r = Some t
  | ReserveSession x _ _ | MarkLive x | AdoptSession x | BeginDrain x | BeginOutput x _ _
  | Retain x | Release x _ => x = t
  | EndOutput p _ _ => pin_session p = t
  | _ => False
  end.

Section inert.
Context (wr : nat -> write_result) (rs : nat -> bool).

Lemma locate_stale t s : stale t s -> exists e, locate t false s = (Err e, s).
Proof.
  intros (O & n & x & Hs & Hn & He). unfold locate. rewrite Hs, Nat2Z.id, Hn.
  destruct (refuse_if _ INVALID); cbn [mbind res_bind]; [|eauto].
  destruct (number_in _ _ _); cbn [mbind res_bind]; [|eauto].
  destruct (number _); cbn [mbind res_bind]; [|eauto].
  replace (negb (token_epoch t =? epoch x) || _) with true; [cbn; eauto|]. symmetry.
  apply orb_true_iff. destruct He as [He|[_ ->]]; [left|right; reflexivity].
  apply negb_true_iff, Z.eqb_neq. lia.
Qed.

Lemma locate_stale_empty t s x :
  stale t s -> fst (locate t true s) = Ok x -> entry x = None.
Proof.
  intros (O & n & y & Hs & Hn & He) H. pose proof (locate_cases t true s _ eq_refl) as C.
  rewrite H in C. destruct C as [(m & Hm & Hx & Ex) _].
  assert (m = n) as -> by lia. rewrite Hn in Hx. injection Hx as ->.
  destruct He as [|[_ He]]; [lia|exact He].
Qed.

Lemma read_then {A B} (m : st ledger BudgetFailure A) (f : A -> st ledger BudgetFailure B) s :
  (m s).2 = s -> (forall a, (m s).1 = Ok a -> (f a s).2 = s) -> ((m ≫= f) s).2 = s.
Proof.
  unfold mbind, st_bind. destruct (m s) as [[a|e] s1]; cbn; intros -> H; [apply H|]; reflexivity.
Qed.

Lemma entry_stale t s {B} (f : ReservationView -> st ledger BudgetFailure B) :
  stale t s -> ((entry_of t ≫= f) s).2 = s.
Proof.
  intros H. destruct (locate_stale t s H) as [e E]. unfold entry_of, mbind, st_bind. rewrite E.
  reflexivity.
Qed.

Lemma guard_read (b : bool) e (s : ledger) : (guard_st b e s : res BudgetFailure unit * ledger).2 = s.
Proof. destruct b; reflexivity. Qed.

Lemma entry_read t s : (entry_of t s).2 = s.
Proof.
  unfold entry_of. apply read_then; [reflexivity|]. intros x _. destruct (entry x); reflexivity.
Qed.

Lemma stale_inert t s c : stale t s -> uses c t -> after wr rs c s = s.
Proof.
  intros Hst Hu. destruct c; cbn [uses after] in *; try contradiction; subst;
    try (apply read_then; [reflexivity|intros _ _];
         repeat (apply read_then; [reflexivity|intros _ _]); apply entry_stale; exact Hst).
  - unfold publish. apply read_then; [reflexivity|intros _ _].
    destruct Hu as [->| ->]; [apply entry_stale; exact Hst|].
    apply read_then; [apply entry_read|intros row _]. apply read_then; [apply guard_read|intros _ _].
    apply read_then; [apply entry_stale; exact Hst|]. intros i Hi. exfalso.
    destruct (locate_stale t s Hst) as [e E]. cbn [drain_replaced] in Hi.
    unfold entry_of, mbind, st_bind in Hi. rewrite E in Hi. discriminate.
  - unfold release. apply read_then; [reflexivity|intros _ _]. apply read_then; [reflexivity|].
    intros x Hx. rewrite (locate_stale_empty t s x Hst Hx). reflexivity.
Qed.

Lemma failed_inert s f c : failure s = Some f -> after wr rs c s = s.
Proof.
  intros Hf.
  assert (U : forall {A} b (k : unit -> st ledger BudgetFailure A), ((usable b ≫= k) s).2 = s)
    by (intros A b k; unfold usable, mbind, st_bind; rewrite Hf; reflexivity).
  assert (N : forall {A} (k : unit -> st ledger BudgetFailure A), ((not_failed ≫= k) s).2 = s)
    by (intros A k; unfold not_failed, mbind, st_bind; rewrite Hf; reflexivity).
  destruct c; cbn [after]; first [apply U | apply N].
Qed.

(** What a release that returned the credits found, and what it left. *)
Lemma released_cases t c s s' :
  release wr rs t c s = (Ok RELEASED, s') ->
  exists x row n, token_slot t = Z.of_nat n /\ slots (image s) !! n = Some x /\
    epoch x = token_epoch t /\ entry x = Some row /\
    complete c = true /\ drained (state row) = true /\ output_pinned row = false /\
    (kind row = GENERATION -> existsb (refers_to t) (slots (image s)) = false) /\
    image s' = with_slot (image s) (Z.of_nat n) {| epoch := epoch x; entry := None |}.
Proof.
  unfold release. intros H. apply st_bind_Ok in H as ([] & s1 & Hf & H).
  assert (s1 = s) as -> by (unfold not_failed in Hf; congruence).
  apply st_bind_Ok in H as (x & s2 & Hl & H).
  assert (s2 = s) as -> by (unfold locate in Hl; congruence).
  pose proof (locate_cases t true s _ eq_refl) as C. rewrite Hl in C. cbn in C.
  destruct C as [(n & Hs & Hn & He) _]. destruct (entry x) as [row|] eqn:Hr; [|discriminate].
  apply st_bind_Ok in H as ([] & s3 & Hg & H). apply guard_st_Ok in Hg as [Hg ->].
  apply negb_false_iff in Hg. apply st_bind_Ok in H as (s4 & s5 & [= <- <-] & H). cbv zeta in H.
  destruct (_ || output_pinned row) eqn:B.
  { apply st_bind_Ok in H as (? & ? & _ & H). discriminate. }
  apply orb_false_iff in B as [B B3]. apply orb_false_iff in B as [B1 B2].
  apply negb_false_iff in B1. apply st_bind_Ok in H as ([] & s6 & Hrep & [= <-]).
  exists x, row, n. do 7 (split; [assumption|]). split.
  { intros K. rewrite K, bool_decide_eq_true_2 in B2 by reflexivity. exact B2. }
  unfold replace_entry in Hrep. apply st_bind_Ok in Hrep as (y & s7 & Hy & Hrep).
  assert (s7 = s) as -> by (unfold locate in Hy; congruence).
  apply st_bind_Ok in Hrep as (s8 & s9 & [= <- <-] & Hrep). rewrite Hs, <- He in Hrep.
  unfold commit in Hrep. destruct (validate s _); [|discriminate].
  destruct (wr (publications s)), (rs (publications s)); try discriminate; injection Hrep as <-; reflexivity.
Qed.
End inert.

(** ** A pinned output

    What a receiver of results relies on: its pin stays in its slot until it is
    ended with its buffers discarded, whatever else is called. *)

Definition holds_pin (pin : BudgetOutputToken) (row : ReservationView) : Prop :=
  kind row = SESSION /\ output_pinned row = true /\ output_epoch row = pin_epoch pin /\
  output_frame_bytes row = pin_frame_bytes pin /\ output_overhead_bytes row = pin_overhead_bytes pin.

Definition pinned_in (pin : BudgetOutputToken) (i : Image) : Prop :=
  exists n x row, token_slot (pin_session pin) = Z.of_nat n /\ slots i !! n = Some x /\
    epoch x = token_epoch (pin_session pin) /\ entry x = Some row /\ holds_pin pin row.

Section pinned.
Context (wr : nat -> write_result) (rs : nat -> bool) (pin : BudgetOutputToken).

Definition pinned (s : ledger) : Prop :=
  token_owner (pin_session pin) = owner s /\ pinned_in pin (image s).

(** A step that only reads. *)
Lemma wp_read {A} (m : st ledger BudgetFailure A) (Q : A -> ledger -> Prop) s :
  (m s).2 = s -> pinned s -> (forall a, m s = (Ok a, s) -> Q a s) -> wp pinned m Q s.
Proof. unfold wp. destruct (m s) as [[a|e] s1]; cbn; intros -> P H; auto. Qed.

Lemma entry_located t s row s' :
  entry_of t s = (Ok row, s') ->
  exists x, located t s x /\ entry x = Some row /\ token_owner t = owner s.
Proof.
  intros H. unfold entry_of in H. apply st_bind_Ok in H as (x & s1 & Hl & H).
  pose proof (locate_cases t false s _ eq_refl) as C. rewrite Hl in C. exists x.
  split; [apply C|]. split; [destruct (entry x); [|discriminate]; injection H as <- _; reflexivity|].
  unfold locate in Hl. destruct (Nat.eqb_spec (token_owner t) (owner s)); [assumption|discriminate Hl].
Qed.

Lemma wp_pinned_commit i (Q : unit -> ledger -> Prop) s :
  pinned s -> pinned_in pin i -> (forall s', pinned s' -> Q tt s') -> wp pinned (commit wr rs i) Q s.
Proof.
  intros [O P] Pi HQ. unfold wp, commit. destruct (validate s i) as [u|e]; [|exact (conj O P)].
  destruct (wr (publications s)), (rs (publications s)); try exact (conj O P); try exact (conj O Pi);
    apply HQ; exact (conj O Pi).
Qed.

(** Writing one slot: the pin stays if the slot is another, or keeps it. *)
Lemma pinned_update i m y y' :
  slots i !! m = Some y ->
  (forall row, token_slot (pin_session pin) = Z.of_nat m -> epoch y = token_epoch (pin_session pin) ->
     entry y = Some row -> holds_pin pin row ->
     epoch y' = epoch y /\ exists row', entry y' = Some row' /\ holds_pin pin row') ->
  pinned_in pin i -> pinned_in pin (with_slot i (Z.of_nat m) y').
Proof.
  intros Hm Hk (n & x & row & Hs & Hn & He & Hr & Hp). unfold pinned_in. cbn [with_slot slots].
  rewrite Nat2Z.id. destruct (decide (m = n)) as [->|N].
  - assert (y = x) as -> by congruence. destruct (Hk row Hs He Hr Hp) as (Ee & row' & Hr' & Hp').
    exists n, y', row'. rewrite list_lookup_insert_eq by (eapply lookup_lt_Some; exact Hn).
    repeat split; try apply Hp'; congruence.
  - exists n, x, row. rewrite list_lookup_insert_ne by exact N. auto.
Qed.

Lemma wp_pinned_replace t x row row' (Q : unit -> ledger -> Prop) s :
  pinned s -> located t s x -> entry x = Some row ->
  (token_slot t = token_slot (pin_session pin) -> token_epoch t = token_epoch (pin_session pin) ->
   holds_pin pin row -> holds_pin pin row') ->
  (forall s', pinned s' -> Q tt s') -> wp pinned (replace_entry wr rs t (Some row')) Q s.
Proof.
  intros P (n & Hs & Hn & He) Hr Hk HQ. unfold replace_entry.
  apply wp_bind, wp_read; [reflexivity|exact P|]. intros _ _. apply wp_bind, wp_get.
  rewrite Hs. apply wp_pinned_commit; [exact P| |exact HQ].
  eapply pinned_update; [exact Hn| |exact (proj2 P)]. cbn. intros q Es Ee Hq Hp. split; [congruence|].
  exists row'. split; [reflexivity|]. apply Hk; congruence.
Qed.

Lemma wp_pinned_reserve row (Q : BudgetToken -> ledger -> Prop) s :
  pinned s -> (forall t s', pinned s' -> Q t s') -> wp pinned (reserve wr rs row) Q s.
Proof.
  intros P HQ. unfold reserve. apply wp_bind, wp_get.
  destruct (free_slot 0 (slots (image s))) as [[n x]|] eqn:F; [|exact P].
  apply free_slot_spec in F as (m & -> & Hm & Hx & _). cbn [Nat.add]. cbn [token_slot token_epoch].
  apply wp_bind, wp_pinned_commit; [exact P| |intros s' P'; apply wp_ret, HQ, P'].
  eapply pinned_update; [exact Hm| |exact (proj2 P)]. congruence.
Qed.

(** Any call but the end of this very output, discarded. *)
Definition foreign (c : call) : Prop := forall drain, c <> EndOutput pin true drain.

Lemma drain_replaced_pinned row r s :
  pinned s -> wp pinned (drain_replaced row r) (fun i s' => s' = s /\ pinned_in pin i /\
    forall n x q, slots (image s) !! n = Some x -> entry x = Some q -> kind q = CANDIDATE ->
      slots i !! n = Some x) s.
Proof.
  intros P. destruct r as [g|]; cbn [drain_replaced].
  2:{ apply wp_bind, wp_get, wp_ret. split; [reflexivity|]. split; [apply P|auto]. }
  apply wp_bind, wp_read; [apply entry_read|exact P|]. intros old Ho.
  destruct (entry_located _ _ _ _ Ho) as (y & (m & Hs & Hm & He) & Hr & Ow).
  apply wp_bind, wp_guard; [exact P|]. intros G. rewrite !orb_false_iff in G.
  destruct G as [[G _] _]. apply negb_false_iff, bool_decide_eq_true in G.
  apply wp_bind, wp_get, wp_ret. rewrite Hs. split; [reflexivity|]. split.
  - eapply pinned_update; [exact Hm| |exact (proj2 P)]. intros q _ _ Hq (K & _). congruence.
  - intros n x q Hn Hx K. cbn [with_slot slots]. rewrite Nat2Z.id, list_lookup_insert_ne by congruence.
    exact Hn.
Qed.

Lemma publish_pinned t r s : pinned s -> wp pinned (publish wr rs t r) (fun _ => pinned) s.
Proof.
  intros P. unfold publish. apply wp_bind, wp_read; [reflexivity|exact P|]. intros _ _.
  apply wp_bind, wp_read; [apply entry_read|exact P|]. intros row Ho.
  destruct (entry_located _ _ _ _ Ho) as (y & (m & Hs & Hm & He) & Hr & Ow).
  apply wp_bind, wp_guard; [exact P|]. intros G. apply orb_false_iff in G as [G _].
  apply negb_false_iff, bool_decide_eq_true in G.
  apply wp_bind. eapply wp_mono; [|apply drain_replaced_pinned; exact P].
  intros i s' (-> & Pi & Hk). apply wp_bind, wp_guard; [exact P|]. intros _. rewrite Hs.
  apply wp_pinned_commit; [exact P| |auto].
  eapply pinned_update; [exact (Hk m y row Hm Hr G)| |exact Pi]. intros q _ _ Hq (K & _). congruence.
Qed.

Lemma release_pinned t c s : pinned s -> wp pinned (release wr rs t c) (fun _ => pinned) s.
Proof.
  intros P. unfold release. apply wp_bind, wp_read; [reflexivity|exact P|]. intros _ _.
  apply wp_bind, wp_read; [reflexivity|exact P|]. intros x Hl.
  pose proof (locate_cases t true s _ eq_refl) as C. rewrite Hl in C. destruct C as [L _].
  destruct (entry x) as [row|] eqn:Hr; [|apply wp_ret; exact P].
  apply wp_bind, wp_guard; [exact P|]. intros _. apply wp_bind, wp_get. cbv zeta.
  destruct (_ || output_pinned row) eqn:B.
  - apply wp_bind. destruct (bool_decide (state row = HELD)); [exact P|].
    eapply wp_pinned_replace; [exact P|exact L|exact Hr|intros _ _; exact id|]. intros s' P'; exact P'.
  - apply orb_false_iff in B as [_ B]. destruct L as (n & Hs & Hn & He).
    apply wp_bind. unfold replace_entry. apply wp_bind, wp_read; [reflexivity|exact P|]. intros _ _.
    apply wp_bind, wp_get. rewrite Hs. apply wp_pinned_commit; [exact P| |intros s' P'; exact P'].
    eapply pinned_update; [exact Hn| |exact (proj2 P)]. intros q _ _ Hq (_ & K & _). congruence.
Qed.

Lemma end_output_pinned p d dr s :
  pinned s -> foreign (EndOutput p d dr) -> wp pinned (end_output wr rs p d dr) (fun _ => pinned) s.
Proof.
  intros P F. unfold end_output. do 4 (apply wp_bind, wp_read; [reflexivity|exact P|]; intros ? ?).
  apply wp_bind, wp_read; [apply entry_read|exact P|]. intros row Ho.
  destruct (entry_located _ _ _ _ Ho) as (y & L & Hr & Ow).
  apply wp_bind, wp_guard; [exact P|]. intros G1. apply orb_false_iff in G1 as [_ G1].
  apply negb_false_iff, Z.eqb_eq in G1.
  destruct (output_pinned row) eqn:Hp; cbn [negb]; [|apply wp_ret; exact P].
  apply wp_bind, wp_guard; [exact P|]. intros G2. apply negb_false_iff, andb_true_iff in G2 as [G2 G3].
  apply Z.eqb_eq in G2, G3. cbv zeta. destruct d; cbn [negb]; apply wp_bind.
  - eapply wp_pinned_replace; [exact P|exact L|exact Hr| |intros s' P'; exact P'].
    intros Es Ee (K1 & K2 & K3 & K4 & K5). exfalso. apply (F dr). f_equal.
    destruct P as [P _], p as [[o1 s1 e1] p1 p2 p3], pin as [[o2 s2 e2] q1 q2 q3]. cbn in *. congruence.
  - destruct (bool_decide (_ = state row)); [exact P|].
    eapply wp_pinned_replace; [exact P|exact L|exact Hr|intros _ _; exact id|]. intros s' P'; exact P'.
Qed.

(** A change of a row that leaves its output alone. *)
Lemma state_change_pinned admission (refuse keep : ReservationView -> bool) x t s :
  pinned s ->
  wp pinned
    (usable admission;;
     row ← entry_of t;
     guard_st (refuse row) STATE;;
     if keep row then mret tt else replace_entry wr rs t (Some (set_state x row)))
    (fun _ => pinned) s.
Proof.
  intros P. apply wp_bind, wp_read; [reflexivity|exact P|]. intros _ _.
  apply wp_bind, wp_read; [apply entry_read|exact P|]. intros row Ho.
  destruct (entry_located _ _ _ _ Ho) as (y & L & Hr & _).
  apply wp_bind, wp_guard; [exact P|]. intros _. destruct (keep row); [apply wp_ret, P|].
  eapply wp_pinned_replace; [exact P|exact L|exact Hr|intros _ _; exact id|auto].
Qed.

Lemma begin_output_pinned t f o s : pinned s -> wp pinned (begin_output wr rs t f o) (fun _ => pinned) s.
Proof.
  intros P. unfold begin_output. do 4 (apply wp_bind, wp_read; [reflexivity|exact P|]; intros ? ?).
  apply wp_bind, wp_read; [apply entry_read|exact P|]. intros row Ho.
  destruct (entry_located _ _ _ _ Ho) as (y & L & Hr & _).
  apply wp_bind, wp_guard; [exact P|]. intros G. apply orb_false_iff in G as [_ G].
  apply wp_bind, wp_guard; [exact P|]. intros _. cbv zeta. apply wp_bind.
  eapply wp_pinned_replace; [exact P|exact L|exact Hr| |intros s' P'; exact P'].
  intros _ _ (_ & K & _). congruence.
Qed.

Lemma reserve_pinned {A} (m : st ledger BudgetFailure A) (row : A -> ReservationView) s :
  (forall s, (m s).2 = s) -> pinned s ->
  wp pinned (x ← m; reserve wr rs (row x)) (fun _ => pinned) s.
Proof.
  intros R P. apply wp_bind, wp_read; [apply R|exact P|]. intros x _.
  apply wp_pinned_reserve; auto.
Qed.

(** The pin outlives every foreign call. *)
Lemma after_pinned c s : pinned s -> foreign c -> pinned (after wr rs c s).
Proof.
  intros P F. destruct c; cbn [after]; apply wp_exit.
  - unfold reserve_candidate. do 3 (apply wp_bind, wp_read; [reflexivity|exact P|]; intros ? ?).
    apply wp_pinned_reserve; auto.
  - unfold reserve_auxiliary. do 2 (apply wp_bind, wp_read; [reflexivity|exact P|]; intros ? ?).
    apply wp_pinned_reserve; auto.
  - apply publish_pinned, P.
  - unfold reserve_session. apply wp_bind, wp_read; [reflexivity|exact P|]. intros _ _.
    apply wp_bind, wp_read; [apply entry_read|exact P|]. intros row _.
    apply wp_bind, wp_guard; [exact P|]. intros _.
    do 2 (apply wp_bind, wp_read; [reflexivity|exact P|]; intros ? ?). apply wp_pinned_reserve; auto.
  - exact (state_change_pinned true _ (fun _ => false) LIVE t s P).
  - exact (state_change_pinned true _ (fun _ => false) LIVE t s P).
  - apply (state_change_pinned false (fun _ => false) (fun row => drained (state row)) DRAINING t s P).
  - apply begin_output_pinned, P.
  - apply end_output_pinned; [exact P|exact F].
  - apply (state_change_pinned false (fun _ => false) (fun row => bool_decide (state row = HELD)) HELD t s P).
  - apply release_pinned, P.
  - unfold begin_shutdown. apply wp_bind, wp_read; [reflexivity|exact P|]. intros _ _.
    apply wp_bind, wp_get. destruct (closing (image s)); [exact P|].
    apply wp_pinned_commit; [exact P|exact (proj2 P)|auto].
  - unfold finish_shutdown. apply wp_bind, wp_read; [reflexivity|exact P|]. intros _ _.
    apply wp_bind, wp_get. apply wp_bind, wp_guard; [exact P|]. intros _.
    apply wp_bind, wp_guard; [exact P|]. intros _. destruct (closed (image s)); [exact P|].
    apply wp_pinned_commit; [exact P|exact (proj2 P)|auto].
Qed.

(** A pin that begins is pinned. *)
Lemma begin_output_pins t f o s s' :
  begin_output wr rs t f o s = (Ok pin, s') -> pinned s'.
Proof.
  unfold begin_output. intros H. apply st_bind_Ok in H as (u1 & s1 & E1 & H).
  assert (s1 = s) as -> by (unfold usable in E1; congruence).
  do 3 (apply st_bind_Ok in H as (? & ? & [= _ <-] & H)).
  apply st_bind_Ok in H as (row & s2 & Ho & H).
  assert (s2 = s) as -> by (pose proof (entry_read t s) as E; rewrite Ho in E; exact E).
  destruct (entry_located _ _ _ _ Ho) as (y & (n & Hs & Hn & He) & Hr & Ow).
  apply st_bind_Ok in H as (? & ? & G & H). apply guard_st_Ok in G as [G ->].
  apply orb_false_iff in G as [G _]. apply orb_false_iff in G as [G _].
  apply negb_false_iff, bool_decide_eq_true in G.
  apply st_bind_Ok in H as (? & ? & G2 & H). apply guard_st_Ok in G2 as [_ ->]. cbv zeta in H.
  apply st_bind_Ok in H as (u2 & s3 & Hc & H). injection H as Hp Hst.
  rewrite <- Hst. clear Hst s'. unfold replace_entry in Hc. apply st_bind_Ok in Hc as (? & s4 & E4 & Hc).
  assert (s4 = s) as -> by (unfold locate in E4; congruence).
  apply st_bind_Ok in Hc as (s5 & s6 & E5 & Hc). injection E5 as <- <-. unfold commit in Hc.
  destruct (validate s _); [|discriminate].
  assert (Hi : owner s3 = owner s /\ image s3 = with_slot (image s) (token_slot t)
    {| epoch := token_epoch t; entry := Some (set_output (output_epoch row + 1) true f o row) |}).
  { destruct (wr (publications s)), (rs (publications s)); try discriminate; injection Hc as _ Hc; rewrite <- Hc; split; reflexivity. }
  destruct Hi as [Hi1 Hi2]. unfold pinned. rewrite <- Hp. split; [cbn; congruence|]. rewrite Hi2.
  eexists n, _, _. cbn [with_slot slots pin_session]. rewrite Hs, Nat2Z.id.
  rewrite list_lookup_insert_eq by (eapply lookup_lt_Some; exact Hn).
  split; [reflexivity|]. split; [reflexivity|]. split; [reflexivity|]. split; [reflexivity|].
  repeat split; assumption.
Qed.
End pinned.

(** ** Properties *)

(** C35: credits are never overdrawn and no identity is left dangling, whatever
    calls are made in whatever order, with whatever tokens, and however the
    publications end: the credits of all reservations fit the budget with its
    base and headroom, every population stays within its limits, in all and
    per datasource, every session's generation stays in its slot under the
    same epoch, a datasource has at most one live generation, a closed ledger
    is empty, and the status adds up to the total. *)
Theorem budget_conserved wr rs own l l' ds ds' s0 s :
  budget_limits l = Ok l' -> mapM_res datasource_capacity ds = Ok ds' ->
  new_ledger own l ds = Ok s0 -> reachable wr rs s0 s ->
  base_bytes l + headroom_bytes l + sum_bytes row_bytes (rows (image s)) <= total_bytes l /\
  count_kind SESSION (rows (image s)) <= Z.min (max_sessions l) (max_workers l) /\
  count_kind CANDIDATE (rows (image s)) <= max_candidates l /\
  count_kind GENERATION (rows (image s)) <= max_generations l /\
  count_kind AUXILIARY (rows (image s)) <= max_auxiliaries l /\
  (forall d c, ds !! d = Some c ->
     count_at SESSION (Z.of_nat d) (rows (image s)) <= ds_sessions c /\
     count_at CANDIDATE (Z.of_nat d) (rows (image s)) <= ds_candidates c) /\
  image_ok l (image s) /\
  st_reserved_bytes (status s) + st_available_bytes (status s) = total_bytes l /\
  0 <= st_available_bytes (status s).
Proof.
  intros Hl Hd Hnew Hr. destruct (new_ledger_ok _ _ _ _ _ _ Hl Hd Hnew) as (H0 & E1 & E2).
  destruct (reachable_follows _ _ _ _ H0 Hr) as ([Hi Hv] & _ & L1 & L2 & _).
  destruct (validate_Ok _ _ _ Hv) as (V1 & V2 & V3 & V4 & V5 & V6 & _).
  rewrite L1, E1 in V1, V2, V3, V4, V5, Hi. rewrite L2, E2 in V6.
  do 7 (split; [assumption|]).
  pose proof (sum_bytes_split (rows (image s))) as Hs. unfold status. cbn. rewrite L1, E1.
  destruct (failure s); lia.
Qed.

(** A token acts at most once in its life: after the reservation it names is
    released, every call that presents it leaves the ledger exactly as it was,
    for ever, even after its slot has been reserved again. *)
Theorem stale_token_inert wr rs t s s' :
  ledger_ok s -> stale t s -> reachable wr rs s s' ->
  stale t s' /\ forall c, uses c t -> after wr rs c s' = s'.
Proof.
  intros H0 Hs Hr. pose proof (stale_follows _ _ _ Hs (reachable_follows _ _ _ _ H0 Hr)) as Hs'.
  split; [exact Hs'|]. intros c. apply stale_inert. exact Hs'.
Qed.

(** Credits come back only for work known to be over, and once: a release
    that answers RELEASED had every cleanup fact confirmed, on a reservation
    already draining or held, with no output pinned on it and, for a
    generation, no session admitted on it; it returns exactly that
    reservation's bytes, and makes its token stale. *)
Theorem release_returns_once wr rs t c s s' :
  ledger_ok s -> release wr rs t c s = (Ok RELEASED, s') ->
  exists x row n, token_slot t = Z.of_nat n /\ slots (image s) !! n = Some x /\
    entry x = Some row /\ complete c = true /\ (state row = DRAINING \/ state row = HELD) /\
    output_pinned row = false /\
    (kind row = GENERATION -> forall y q, y ∈ slots (image s) -> entry y = Some q ->
       kind q = SESSION -> generation_slot q = Some (token_slot t) ->
       generation_epoch q <> token_epoch t) /\
    sum_bytes row_bytes (rows (image s')) = sum_bytes row_bytes (rows (image s)) - row_bytes row /\
    stale t s'.
Proof.
  intros H0 H. pose proof (release_follows wr rs s t c s (follows_refl _ H0)) as F.
  rewrite H in F. cbn in F. pose proof H as Hrel.
  apply released_cases in H as (x & row & n & Hs & Hn & He & Hr & Hc & Hd & Hp & Hg & Hi).
  exists x, row, n. do 4 (split; [assumption|]). split.
  { destruct (state row); try discriminate; auto. }
  split; [exact Hp|]. split.
  { intros K y q Hy Hq Kq Gq Eq. specialize (Hg K). apply not_true_iff_false in Hg. apply Hg.
    apply existsb_exists. exists y. rewrite <- list_elem_of_In. split; [exact Hy|].
    unfold refers_to. rewrite Hq, !andb_true_iff, !bool_decide_eq_true, Z.eqb_eq. auto. }
  split; [rewrite Hi; eapply sum_bytes_clear; eassumption|].
  split.
  - destruct F as (_ & _ & _ & _ & ->). unfold release in Hrel.
    apply st_bind_Ok in Hrel as ([] & s1 & Hf & Hrel).
    assert (s1 = s) as -> by (unfold not_failed in Hf; congruence).
    apply st_bind_Ok in Hrel as (y & s2 & Hl & _). unfold locate in Hl. injection Hl as Hl _.
    apply bind_Ok in Hl as ([] & Hown & _). apply refuse_if_Ok, negb_false_iff, Nat.eqb_eq in Hown.
    exact Hown.
  - exists n. eexists. split; [exact Hs|]. rewrite Hi. cbn [with_slot slots]. rewrite Nat2Z.id.
    rewrite list_lookup_insert_eq by (eapply lookup_lt_Some; exact Hn). split; [reflexivity|].
    right. cbn. auto.
Qed.

(** An uncertain publication stops the ledger for good: once a publication
    failed and its restoration failed too, no call changes anything, both
    possible images are kept, and the status shows every remaining byte in
    quarantine and none available. *)
Theorem failed_ledger_quarantined wr rs s f c :
  failure s = Some f ->
  after wr rs c s = s /\ st_available_bytes (status s) = 0 /\
  st_reserved_bytes (status s) = total_bytes (limits s) /\
  st_quarantined_entries (status s) = [map entry (slots f.1); map entry (slots f.2)].
Proof.
  intros H. split; [eapply failed_inert; exact H|]. unfold status. cbn. rewrite H.
  destruct f as [old new]. cbn. split; [lia|]. split; [lia|reflexivity].
Qed.

(** ** Witnesses *)

Definition sample_limits : BudgetLimits :=
  {| total_bytes := 1000; base_bytes := 100; headroom_bytes := 100; entries := 4;
     max_sessions := 2; max_workers := 2; max_candidates := 1; max_generations := 2;
     max_auxiliaries := 1 |}.

Definition sample_ledger : ledger :=
  {| limits := sample_limits; datasources := [{| ds_sessions := 1; ds_candidates := 1 |}];
     owner := 7; failure := None;
     image := {| slots := replicate 4 empty_slot; closing := false; closed := false |};
     publications := 0 |}.

Definition always_written (_ : nat) : write_result := Written.
Definition always_restored (_ : nat) : bool := true.

Definition sample_token (slot ep : Z) : BudgetToken :=
  {| token_owner := 7; token_slot := slot; token_epoch := ep |}.

Definition all_clean : CleanupConfirmation :=
  {| processes := true; threads := true; pipes := true; handles := true; output := true |}.

(** A candidate reserved and drained, ready for release. *)
Definition drained_ledger : ledger :=
  after always_written always_restored (BeginDrain (sample_token 0 1))
    (after always_written always_restored (ReserveCandidate 0 50) sample_ledger).

Lemma sample_new : new_ledger 7 sample_limits [{| ds_sessions := 1; ds_candidates := 1 |}]
                   = Ok sample_ledger.
Proof. reflexivity. Qed.

Lemma drained_reachable : reachable always_written always_restored sample_ledger drained_ledger.
Proof. apply reachable_call, reachable_call, reachable_start. Qed.

Lemma sample_ledger_ok : ledger_ok sample_ledger.
Proof.
  apply (new_ledger_ok 7 sample_limits sample_limits [{| ds_sessions := 1; ds_candidates := 1 |}]
           [{| ds_sessions := 1; ds_candidates := 1 |}]); reflexivity.
Qed.

Lemma drained_ledger_ok : ledger_ok drained_ledger.
Proof. apply (reachable_follows _ _ _ _ sample_ledger_ok drained_reachable). Qed.

Lemma budget_conserved_witness :
  rows (image drained_ledger) <> [] /\ 0 <= st_available_bytes (status drained_ledger).
Proof.
  split; [vm_compute; discriminate|].
  refine (proj2 (proj2 (proj2 (proj2 (proj2 (proj2 (proj2 (proj2
    (budget_conserved always_written always_restored 7 sample_limits sample_limits
      [{| ds_sessions := 1; ds_candidates := 1 |}] [{| ds_sessions := 1; ds_candidates := 1 |}]
      sample_ledger drained_ledger _ _ sample_new drained_reachable)))))))));
    reflexivity.
Defined.

Definition released_ledger : ledger :=
  after always_written always_restored (Release (sample_token 0 1) all_clean) drained_ledger.

Lemma release_returns_once_witness :
  release always_written always_restored (sample_token 0 1) all_clean drained_ledger
    = (Ok RELEASED, released_ledger) /\ stale (sample_token 0 1) released_ledger.
Proof.
  assert (E : release always_written always_restored (sample_token 0 1) all_clean drained_ledger
              = (Ok RELEASED, released_ledger)) by reflexivity.
  split; [exact E|].
  destruct (release_returns_once always_written always_restored _ _ _ _ drained_ledger_ok E)
    as (x & row & n & _ & _ & _ & _ & _ & _ & _ & _ & H).
  exact H.
Defined.

Lemma stale_token_inert_witness :
  after always_written always_restored (Retain (sample_token 0 1))
    (after always_written always_restored (ReserveCandidate 0 60) released_ledger) =
  after always_written always_restored (ReserveCandidate 0 60) released_ledger.
Proof.
  assert (Hs : stale (sample_token 0 1) released_ledger).
  { split; [reflexivity|]. exists 0%nat. eexists. split; [reflexivity|]. split; [reflexivity|].
    right. split; reflexivity. }
  assert (Hok : ledger_ok released_ledger)
    by (apply (reachable_follows _ _ _ _ sample_ledger_ok
                 (reachable_call _ _ _ _ (Release (sample_token 0 1) all_clean) drained_reachable))).
  exact (proj2 (stale_token_inert always_written always_restored _ _ _ Hok Hs
    (reachable_call _ _ _ _ (ReserveCandidate 0 60) (reachable_start _ _ _))) (Retain (sample_token 0 1))
    eq_refl).
Defined.

(** The first publication fails after the assignment and is not restored. *)
Definition broken_ledger : ledger :=
  after (fun _ => FailedReplacing) (fun _ => false) (ReserveCandidate 0 50) sample_ledger.

Lemma failed_ledger_quarantined_witness :
  after always_written always_restored (ReserveAuxiliary 1) broken_ledger = broken_ledger /\
  st_available_bytes (status broken_ledger) = 0.
Proof.
  destruct (failed_ledger_quarantined always_written always_restored broken_ledger
              (image sample_ledger, image broken_ledger) (ReserveAuxiliary 1) eq_refl) as (H1 & H2 & _).
  split; [exact H1|exact H2].
Defined.
