(* ===== verification/Domain.v ===== *)
(** * Domain: may a plan of costs run inside a memory domain?

    Models [runtime/domain.py]: the evidence kept of a domain, the plan of
    what each part of the process tree costs, and [reconcile], which says
    whether the plan fits the domain and the limits of the ledger ([Budget]),
    with every reason why it does not.

    A [DomainProfile] is compared by identity, so a profile carries the
    identity of its object; the registry of reviewed profiles is an argument
    ([profiles]), which [reconcile] gives the source's two.  Values have the
    types of their annotations: the source's tests of exact types hold of
    them. *)

From S2P Require Import Prelude.
From S2P Require Budget.

Local Open Scope Z_scope.

(** ** Data *)

Definition MAX_NUMBER : Z := 2 ^ 63 - 1.
Definition MAX_SLOTS : Z := 4096.
Definition MAX_COSTS : Z := 64.
Definition MAX_LABEL : Z := 256.
Definition MIB : Z := 1024 * 1024.

Inductive Quantity := VIRTUAL_ADDRESS_SPACE | PRIVATE_COMMIT | RESIDENT_AND_CHARGED.
Inductive MemberKind := MEMBER_NONE | AS_VIRTUAL | JOB_PRIVATE.
Inductive AggregateKind := AGGREGATE_NONE | STRICT_PROVEN | TRANSIENT_DOCUMENTED.

Inductive CoverageVector :=
| PRIVATE_MAPPED | SHARED_ANON | TMPFS_WRITE | PAGE_CACHE | KERNEL_SOCKET_PIPE
| LISTENER_TLS_OUTPUT | SUPERVISOR | V_AUXILIARY | GENERATION_CANDIDATE | SNAPSHOT.

Definition coverage_vectors : list CoverageVector :=
  [PRIVATE_MAPPED; SHARED_ANON; TMPFS_WRITE; PAGE_CACHE; KERNEL_SOCKET_PIPE;
   LISTENER_TLS_OUTPUT; SUPERVISOR; V_AUXILIARY; GENERATION_CANDIDATE; SNAPSHOT].

Inductive Coverage := UNKNOWN | GAP_OBSERVED | MEMBER_ONLY | DOMAIN_PROVEN | EXCLUDED_PROVEN.
Inductive CostOwner := BASE | HEADROOM | WORKER | PARENT | CANDIDATE | GENERATION | AUXILIARY.
Inductive CostLocation := IN_DOMAIN | OUT_OF_DOMAIN.

Inductive DomainReason :=
| INVALID | FAULT | UNVERIFIED_PROFILE | AGGREGATE_UNPROVEN | MEMBER_LIMIT_UNPROVEN | COVERAGE_GAP
| CREATION_UNPROVEN | CLEANUP_UNPROVEN | UNIT_MISMATCH | OUTSIDE_UNPROVEN | DOUBLE_CHARGE
| MISSING_COST | CAPACITY | WORKER_UNDER_RESERVED | OUTPUT_UNDER_RESERVED | SUPERVISOR_COST
| TOPOLOGY | BUDGET_EXCEEDED | DOMAIN_LIMIT.

(** The members of the three enums the code iterates over, in their order. *)
Definition owners : list CostOwner := [BASE; HEADROOM; WORKER; PARENT; CANDIDATE; GENERATION; AUXILIARY].

Definition domain_reasons : list DomainReason :=
  [INVALID; FAULT; UNVERIFIED_PROFILE; AGGREGATE_UNPROVEN; MEMBER_LIMIT_UNPROVEN; COVERAGE_GAP;
   CREATION_UNPROVEN; CLEANUP_UNPROVEN; UNIT_MISMATCH; OUTSIDE_UNPROVEN; DOUBLE_CHARGE;
   MISSING_COST; CAPACITY; WORKER_UNDER_RESERVED; OUTPUT_UNDER_RESERVED; SUPERVISOR_COST;
   TOPOLOGY; BUDGET_EXCEEDED; DOMAIN_LIMIT].

#[export] Instance Quantity_eq_dec : EqDecision Quantity.
Proof. solve_decision. Defined.
#[export] Instance MemberKind_eq_dec : EqDecision MemberKind.
Proof. solve_decision. Defined.
#[export] Instance AggregateKind_eq_dec : EqDecision AggregateKind.
Proof. solve_decision. Defined.
#[export] Instance Coverage_eq_dec : EqDecision Coverage.
Proof. solve_decision. Defined.
#[export] Instance CostOwner_eq_dec : EqDecision CostOwner.
Proof. solve_decision. Defined.
#[export] Instance CostLocation_eq_dec : EqDecision CostLocation.
Proof. solve_decision. Defined.
#[export] Instance DomainReason_eq_dec : EqDecision DomainReason.
Proof. solve_decision. Defined.

(** [p_object] is the identity of the object, what [is] compares. *)
Record DomainProfile := {
  p_object : nat;
  name : pystr;
  evidence : pystr;
  member_kind : MemberKind;
  member_quantity : Quantity;
  member_bytes : option Z;
  aggregate_kind : AggregateKind;
  aggregate_quantity : Quantity;
  aggregate_bytes : option Z;
  observed_peak_bytes : option Z;
  vectors : list Coverage;
  max_processes : option Z;
  max_tasks : option Z;
  members_attached_at_creation : bool;
  supervisor_attached_at_creation : bool;
  limits_before_work : bool;
  owner_loss_cleanup_proven : bool;
}.

Record Cost := {
  identity : Z;
  owner : CostOwner;
  location : CostLocation;
  c_quantity : Quantity;
  bytes_per_slot : Z;
  slots : Z;
  bound : option DomainProfile;
}.

Record CostPlan := {
  quantity : Quantity;
  costs : list Cost;
  supervisor_cost_id : Z;
  supervisor_threads : Z;
  worker_threads : Z;
  auxiliary_threads : Z;
  fixed_auxiliaries : Z;
  fixed_auxiliary_threads : Z;
  fixed_auxiliary_cost_id : option Z;
  frame_bytes : Z;
  output_overhead_bytes : Z;
}.

Record DomainVerdict := {
  ready : bool;
  reasons : list DomainReason;
  inside_bytes : Z;
  outside_bytes : Z;
  total_bytes : Z;
}.

Definition refusal (r : DomainReason) : DomainVerdict :=
  {| ready := false; reasons := [r]; inside_bytes := 0; outside_bytes := 0; total_bytes := 0 |}.

Definition LINUX_HELD_AS128 : DomainProfile := {|
  p_object := 0;
  name := py "linux-held-as128";
  evidence := py "docs/PHASE-9-STAGE-8-HELD-RUN-VALIDATION.md";
  member_kind := AS_VIRTUAL;
  member_quantity := VIRTUAL_ADDRESS_SPACE;
  member_bytes := Some (128 * MIB);
  aggregate_kind := TRANSIENT_DOCUMENTED;
  aggregate_quantity := RESIDENT_AND_CHARGED;
  aggregate_bytes := Some (192 * MIB);
  observed_peak_bytes := Some 138907648;
  vectors := [MEMBER_ONLY; MEMBER_ONLY] ++ replicate 8 UNKNOWN;
  max_processes := Some 2;
  max_tasks := Some 16;
  members_attached_at_creation := true;
  supervisor_attached_at_creation := true;
  limits_before_work := true;
  owner_loss_cleanup_proven := false;
|}.

Definition WINDOWS_JOB_PRIVATE32 : DomainProfile := {|
  p_object := 1;
  name := py "windows-job-private32";
  evidence := py "docs/PHASE-9-STAGE-8-B2-B2A-VALIDATION.md";
  member_kind := JOB_PRIVATE;
  member_quantity := PRIVATE_COMMIT;
  member_bytes := Some (32 * MIB);
  aggregate_kind := AGGREGATE_NONE;
  aggregate_quantity := PRIVATE_COMMIT;
  aggregate_bytes := None;
  observed_peak_bytes := None;
  vectors := [MEMBER_ONLY; GAP_OBSERVED] ++ replicate 8 UNKNOWN;
  max_processes := Some 2;
  max_tasks := None;
  members_attached_at_creation := true;
  supervisor_attached_at_creation := false;
  limits_before_work := true;
  owner_loss_cleanup_proven := false;
|}.

Definition PROFILES : list DomainProfile := [LINUX_HELD_AS128; WINDOWS_JOB_PRIVATE32].

(** [_ValidationError], and the error of the ledger's own validation. *)
Inductive domain_exn := ValidationError | BudgetError (f : Budget.BudgetFailure).

Abbreviation checks := (res domain_exn).

(** ** Validation *)

(** [raise _ValidationError] unless the test holds. *)
Definition require (test : bool) : checks unit := refuse_if (negb test) ValidationError.

(** [_number]. *)
Definition number_in (minimum maximum value : Z) : checks unit :=
  require ((minimum <=? value) && (value <=? maximum)).

Definition number (value : Z) : checks unit := number_in 1 MAX_NUMBER value.

(** [_optional]. *)
Definition optional_number (maximum : Z) (value : option Z) : checks unit :=
  match value with None => Ok tt | Some v => number_in 1 maximum v end.

(** [_checked]. *)
Definition checked (value : Z) : checks Z := number_in 0 MAX_NUMBER value;; Ok value.

Definition isascii (s : pystr) : bool := forallb (fun c => c <? 128) s.

Definition label_ok (label : pystr) : checks unit :=
  let n := Z.of_nat (length label) in
  require ((1 <=? n) && (n <=? MAX_LABEL) && isascii label).

Definition is_none {A} (o : option A) : bool := match o with None => true | Some _ => false end.

(** [_validate_profile]. *)
Definition validate_profile (profile : DomainProfile) : checks unit :=
  mapM_res label_ok [name profile; evidence profile];;
  mapM_res (optional_number MAX_NUMBER)
    [member_bytes profile; aggregate_bytes profile; observed_peak_bytes profile];;
  mapM_res (optional_number MAX_SLOTS) [max_processes profile; max_tasks profile];;
  require (eqb (bool_decide (member_kind profile = MEMBER_NONE)) (is_none (member_bytes profile)) &&
           eqb (bool_decide (aggregate_kind profile = AGGREGATE_NONE)) (is_none (aggregate_bytes profile)));;
  require (Z.of_nat (length (vectors profile)) =? Z.of_nat (length coverage_vectors)).

(** The body of [_validate_plan]'s loop over the costs. *)
Definition validate_cost (cost : Cost) : checks unit :=
  number (identity cost);;
  number (bytes_per_slot cost);;
  number_in 1 MAX_SLOTS (slots cost);;
  checked (bytes_per_slot cost * slots cost);;
  match bound cost with
  | None => Ok tt
  | Some b => validate_profile b
  end;;
  require (negb (bool_decide (location cost = IN_DOMAIN) && negb (is_none (bound cost)))).

(** [_validate_plan]. *)
Definition validate_plan (plan : CostPlan) : checks unit :=
  let n := Z.of_nat (length (costs plan)) in
  require ((1 <=? n) && (n <=? MAX_COSTS));;
  number (supervisor_cost_id plan);;
  mapM_res (number_in 1 MAX_SLOTS)
    [supervisor_threads plan; worker_threads plan; auxiliary_threads plan; fixed_auxiliary_threads plan];;
  number_in 0 MAX_SLOTS (fixed_auxiliaries plan);;
  optional_number MAX_NUMBER (fixed_auxiliary_cost_id plan);;
  number (frame_bytes plan);;
  number (output_overhead_bytes plan);;
  checked (2 * frame_bytes plan + output_overhead_bytes plan);;
  mapM_res validate_cost (costs plan);;
  Ok tt.

(** ** Reasons

    A [set] of reasons is a list read through membership only. *)
Abbreviation reason_set := (list DomainReason).

(** [if test: result.add(r)], on an empty set. *)
Definition add_if (test : bool) (r : DomainReason) : reason_set := if test then [r] else [].

Definition cost_bytes (cost : Cost) : Z := bytes_per_slot cost * slots cost.

Definition sum_costs (l : list Cost) : Z := foldr (fun c n => cost_bytes c + n) 0 l.

Definition at_location (x : CostLocation) (l : list Cost) : list Cost := filter (fun c => location c = x) l.

(** [owners[owner]]. *)
Definition owned (o : CostOwner) (l : list Cost) : list Cost := filter (fun c => owner c = o) l.

Definition with_identity (id : option Z) (l : list Cost) : list Cost :=
  filter (fun c => Some (identity c) = id) l.

Section reconcile.
(** [_PROFILES]. *)
Context (profiles : list DomainProfile).

(** [_known]. *)
Definition known (profile : DomainProfile) : bool :=
  existsb (fun item => Nat.eqb (p_object profile) (p_object item)) profiles.

(** [_profile_reasons]. *)
Definition profile_reasons (profile : DomainProfile) : reason_set :=
  add_if (negb (known profile)) UNVERIFIED_PROFILE ++
  add_if (negb (bool_decide (aggregate_kind profile = STRICT_PROVEN)) ||
          match observed_peak_bytes profile, aggregate_bytes profile with
          | Some peak, Some bytes => bytes <? peak
          | _, _ => true
          end) AGGREGATE_UNPROVEN ++
  add_if (bool_decide (member_kind profile = MEMBER_NONE)) MEMBER_LIMIT_UNPROVEN ++
  add_if (bool_decide (member_kind profile = AS_VIRTUAL) &&
            negb (bool_decide (member_quantity profile = VIRTUAL_ADDRESS_SPACE)) ||
          bool_decide (member_kind profile = JOB_PRIVATE) &&
            negb (bool_decide (member_quantity profile = PRIVATE_COMMIT))) UNIT_MISMATCH ++
  add_if (existsb (fun v => negb (bool_decide (v ∈ [DOMAIN_PROVEN; EXCLUDED_PROVEN]))) (vectors profile))
    COVERAGE_GAP ++
  add_if (negb (members_attached_at_creation profile && supervisor_attached_at_creation profile &&
                limits_before_work profile)) CREATION_UNPROVEN ++
  add_if (negb (owner_loss_cleanup_proven profile)) CLEANUP_UNPROVEN.

(** [_totals]. *)
Definition totals (plan : CostPlan) : checks (Z * Z) :=
  inside ← checked (sum_costs (at_location IN_DOMAIN (costs plan)));
  outside ← checked (sum_costs (at_location OUT_OF_DOMAIN (costs plan)));
  Ok (inside, outside).

(** The loop of [_cost_reasons] over the costs, with the identities seen. *)
Fixpoint charge_reasons (q : Quantity) (seen : list Z) (l : list Cost) : reason_set :=
  match l with
  | [] => []
  | cost :: l =>
      add_if (bool_decide (identity cost ∈ seen)) DOUBLE_CHARGE ++
      add_if (negb (bool_decide (c_quantity cost = q))) UNIT_MISMATCH ++
      charge_reasons q (identity cost :: seen) l
  end.

(** [expected]. *)
Definition expected_slots (limits : Budget.BudgetLimits) : list (CostOwner * Z) :=
  [(HEADROOM, 1); (WORKER, Budget.max_workers limits); (PARENT, Budget.max_sessions limits);
   (CANDIDATE, Budget.max_candidates limits); (GENERATION, Budget.max_generations limits);
   (AUXILIARY, Budget.max_auxiliaries limits)].

(** The minimum a session's parent side needs: [2 * frame + overhead]. *)
Definition output_minimum (plan : CostPlan) : Z := 2 * frame_bytes plan + output_overhead_bytes plan.

(** [_cost_reasons]. *)
Definition cost_reasons (plan : CostPlan) (limits : Budget.BudgetLimits) : reason_set :=
  let l := costs plan in
  charge_reasons (quantity plan) [] l ++
  add_if (existsb (fun o => bool_decide (owned o l = [])) owners) MISSING_COST ++
  (xs ← expected_slots limits;
   let '(o, n) := xs in
   add_if (negb (Z.of_nat (length (owned o l)) =? 1) || existsb (fun c => negb (slots c =? n)) (owned o l)) CAPACITY) ++
  add_if (negb (sum_costs (owned BASE l) =? Budget.base_bytes limits) ||
          negb (sum_costs (owned HEADROOM l) =? Budget.headroom_bytes limits)) CAPACITY ++
  add_if (match with_identity (Some (supervisor_cost_id plan)) l with
          | [c] => negb (bool_decide (owner c = BASE)) || negb (bool_decide (location c = IN_DOMAIN)) ||
                   negb (slots c =? 1)
          | _ => true
          end) SUPERVISOR_COST ++
  add_if (existsb (fun c => negb (bool_decide (location c = IN_DOMAIN))) (owned WORKER l ++ owned PARENT l)) TOPOLOGY ++
  add_if (existsb (fun c => bytes_per_slot c <? output_minimum plan) (owned PARENT l)) OUTPUT_UNDER_RESERVED.

(** [_topology]. *)
Definition topology (plan : CostPlan) (limits : Budget.BudgetLimits) (profile : DomainProfile) : checks reason_set :=
  processes ← checked (1 + Budget.max_workers limits + Budget.max_auxiliaries limits + fixed_auxiliaries plan);
  tasks ← checked (supervisor_threads plan + Budget.max_workers limits * worker_threads plan +
                   Budget.max_auxiliaries limits * auxiliary_threads plan +
                   fixed_auxiliaries plan * fixed_auxiliary_threads plan);
  let crowded := match max_processes profile, max_tasks profile with
                 | Some p, Some t => (p <? processes) || (t <? tasks)
                 | _, _ => true
                 end in
  let fixed := with_identity (fixed_auxiliary_cost_id plan) (costs plan) in
  Ok (add_if ((Budget.max_workers limits <? Budget.max_sessions limits) || crowded) TOPOLOGY ++
      if negb (fixed_auxiliaries plan =? 0) then
        add_if (match fixed with
                | [c] => negb (bool_decide (owner c = BASE)) || negb (bool_decide (location c = IN_DOMAIN)) ||
                         negb (slots c =? fixed_auxiliaries plan) ||
                         bool_decide (fixed_auxiliary_cost_id plan = Some (supervisor_cost_id plan))
                | _ => true
                end) MISSING_COST
      else add_if (negb (is_none (fixed_auxiliary_cost_id plan))) CAPACITY).

(** The inner loop of [_outside_reasons]: what is charged to each profile. *)
Fixpoint charge_groups (b : DomainProfile) (n : Z) (ps : list DomainProfile) (groups : list Z) : checks (list Z) :=
  match ps, groups with
  | p :: ps, g :: groups =>
      g ← (if Nat.eqb (p_object b) (p_object p) then checked (g + n) else Ok g);
      groups ← charge_groups b n ps groups;
      Ok (g :: groups)
  | _, _ => Ok groups
  end.

(** The outer loop, over the costs outside the domain. *)
Fixpoint outside_costs (q : Quantity) (l : list Cost) (groups : list Z) : checks (reason_set * list Z) :=
  match l with
  | [] => Ok ([], groups)
  | cost :: l =>
      match bound cost with
      | None =>
          '(rs, groups) ← outside_costs q l groups;
          Ok (OUTSIDE_UNPROVEN :: rs, groups)
      | Some b =>
          groups ← charge_groups b (cost_bytes cost) profiles groups;
          '(rs, groups) ← outside_costs q l groups;
          Ok (add_if (negb (known b) || negb (bool_decide (profile_reasons b = []))) OUTSIDE_UNPROVEN ++
              add_if (negb (bool_decide (aggregate_quantity b = q))) UNIT_MISMATCH ++ rs, groups)
      end
  end.

(** Is a total above the profile's aggregate, counted in the same unit? *)
Definition over_limit (q : Quantity) (n : Z) (profile : DomainProfile) : bool :=
  bool_decide (aggregate_quantity profile = q) &&
  match aggregate_bytes profile with Some bytes => bytes <? n | None => false end.

(** [_outside_reasons]. *)
Definition outside_reasons (plan : CostPlan) : checks reason_set :=
  '(rs, groups) ← outside_costs (quantity plan) (at_location OUT_OF_DOMAIN (costs plan))
                    (replicate (length profiles) 0);
  Ok (rs ++ add_if (existsb (fun pt => negb (pt.2 =? 0) && over_limit (quantity plan) pt.2 pt.1) (zip profiles groups))
              DOMAIN_LIMIT).

(** [replace(limits)]. *)
Definition validate_limits (limits : Budget.BudgetLimits) : checks unit :=
  match Budget.budget_limits limits with Ok _ => Ok tt | Err e => Err (BudgetError e) end.

(** [_reconcile]. *)
Definition reconcile_checked (profile : DomainProfile) (plan : CostPlan) (limits : Budget.BudgetLimits)
    : checks DomainVerdict :=
  validate_profile profile;;
  validate_plan plan;;
  validate_limits limits;;
  if existsb (fun c => negb (bool_decide (c_quantity c = quantity plan))) (costs plan)
  then Ok (refusal UNIT_MISMATCH)
  else
    '(inside, outside) ← totals plan;
    total ← checked (inside + outside);
    placed ← topology plan limits profile;
    beyond ← outside_reasons plan;
    let result :=
      profile_reasons profile ++ cost_reasons plan limits ++ placed ++ beyond ++
      add_if (negb (bool_decide (quantity plan = aggregate_quantity profile)) ||
              negb (bool_decide (quantity plan = member_quantity profile))) UNIT_MISMATCH ++
      add_if (bool_decide (member_quantity profile = quantity plan) &&
              match member_bytes profile with
              | Some bytes => existsb (fun c => bytes_per_slot c <? bytes) (owned WORKER (costs plan))
              | None => false
              end) WORKER_UNDER_RESERVED ++
      add_if (Budget.total_bytes limits <? total) BUDGET_EXCEEDED ++
      add_if (over_limit (quantity plan) inside profile) DOMAIN_LIMIT in
    let reasons := filter (fun r => r ∈ result) domain_reasons in
    Ok {| ready := bool_decide (reasons = []); reasons := reasons; inside_bytes := inside;
          outside_bytes := outside; total_bytes := total |}.

(** [reconcile]; [FAULT] is the verdict of an exception that is neither of
    the two kinds, which the values of these types do not raise. *)
Definition reconcile_in (profile : DomainProfile) (plan : CostPlan) (limits : Budget.BudgetLimits) : DomainVerdict :=
  match reconcile_checked profile plan limits with
  | Ok v => v
  | Err _ => refusal INVALID
  end.
End reconcile.

Definition reconcile : DomainProfile -> CostPlan -> Budget.BudgetLimits -> DomainVerdict := reconcile_in PROFILES.

(** ** Reading a verdict *)

Lemma add_if_nil b r : add_if b r = [] <-> b = false.
Proof. destruct b; split; (reflexivity || discriminate). Qed.

Lemma require_is_true b u : require b = Ok u <-> b = true.
Proof. unfold require. rewrite refuse_if_Ok, negb_false_iff. reflexivity. Qed.

Lemma checked_Ok n m : checked n = Ok m <-> m = n /\ 0 <= n <= MAX_NUMBER.
Proof.
  unfold checked, number_in. rewrite bind_Ok. setoid_rewrite require_is_true. split.
  - intros (_ & H & [= <-]). split; [reflexivity|lia].
  - intros [-> H]. exists tt. split; [lia|reflexivity].
Qed.

Lemma number_within a b n u : number_in a b n = Ok u <-> a <= n <= b.
Proof. unfold number_in. rewrite require_is_true. lia. Qed.

Lemma existsb_false {A} (f : A -> bool) l : existsb f l = false <-> forall x, x ∈ l -> f x = false.
Proof.
  induction l as [|y l IH]; cbn; [split; [set_solver|reflexivity]|].
  rewrite orb_false_iff, IH. split.
  - intros [Hy H] x [->|Hx]%elem_of_cons; auto.
  - intros H. split; [|intros x Hx]; apply H; set_solver.
Qed.

Lemma domain_reasons_all r : r ∈ domain_reasons.
Proof. destruct r; repeat (try (left; reflexivity); right). Qed.

(** No reason is left out of a verdict: an empty one comes of an empty set. *)
Lemma no_reason (l : reason_set) : filter (fun r => r ∈ l) domain_reasons = [] <-> l = [].
Proof.
  split; intros H.
  - destruct l as [|r l]; [reflexivity|]. exfalso.
    assert (Hr : r ∈ filter (fun x => x ∈ r :: l) domain_reasons).
    { apply list_elem_of_filter. split; [left|apply domain_reasons_all]. }
    rewrite H in Hr. inversion Hr.
  - rewrite H. reflexivity.
Qed.

(** A refusal is never a ready verdict, and each reason is the one that was found. *)
Lemma reconcile_in_ready ps profile plan limits :
  ready (reconcile_in ps profile plan limits) = true <->
  exists v, reconcile_checked ps profile plan limits = Ok v /\ ready v = true.
Proof.
  unfold reconcile_in. destruct (reconcile_checked _ _ _ _) as [v|e]; split.
  - intros H. exists v. auto.
  - intros (? & [= <-] & H). exact H.
  - discriminate.
  - intros (? & [=] & _).
Qed.

(** ** What a ready verdict says *)

(** The costs a plan charges once for the whole tree or once for each slot of
    one population of the ledger. *)
Record ready_facts (ps : list DomainProfile) (profile : DomainProfile) (plan : CostPlan)
    (limits : Budget.BudgetLimits) : Prop := {
  rf_limits : Budget.budget_limits limits = Ok limits;
  rf_known : known ps profile = true;
  rf_profile : profile_reasons ps profile = [];
  rf_unit c : c ∈ costs plan -> c_quantity c = quantity plan;
  rf_quantity : quantity plan = aggregate_quantity profile;
  rf_costs c : c ∈ costs plan -> 1 <= bytes_per_slot c /\ 1 <= slots c;
  rf_charges : charge_reasons (quantity plan) [] (costs plan) = [];
  rf_expected o n : (o, n) ∈ expected_slots limits ->
    exists c, owned o (costs plan) = [c] /\ slots c = n;
  rf_inside c : c ∈ owned WORKER (costs plan) ++ owned PARENT (costs plan) -> location c = IN_DOMAIN;
  rf_processes : exists p, max_processes profile = Some p /\
    1 + Budget.max_workers limits + Budget.max_auxiliaries limits + fixed_auxiliaries plan <= p;
  rf_workers : Budget.max_sessions limits <= Budget.max_workers limits;
  rf_aggregate : exists bytes, aggregate_bytes profile = Some bytes /\
    sum_costs (at_location IN_DOMAIN (costs plan)) <= bytes;
  rf_total : sum_costs (at_location IN_DOMAIN (costs plan)) + sum_costs (at_location OUT_OF_DOMAIN (costs plan)) <=
    Budget.total_bytes limits;
  rf_worker c : c ∈ owned WORKER (costs plan) -> forall bytes, member_bytes profile = Some bytes ->
    bytes <= bytes_per_slot c;
  rf_output c : c ∈ owned PARENT (costs plan) -> output_minimum plan <= bytes_per_slot c;
}.

Lemma budget_limits_same l l' : Budget.budget_limits l = Ok l' -> l' = l.
Proof. unfold Budget.budget_limits. intros H. inv_ok. reflexivity. Qed.

Lemma validate_limits_Ok limits u : validate_limits limits = Ok u -> Budget.budget_limits limits = Ok limits.
Proof.
  unfold validate_limits. destruct (Budget.budget_limits limits) as [l'|] eqn:E; [|discriminate].
  rewrite (budget_limits_same _ _ E). reflexivity.
Qed.

Lemma validate_plan_costs plan u c : validate_plan plan = Ok u -> c ∈ costs plan ->
  1 <= bytes_per_slot c /\ 1 <= slots c.
Proof.
  unfold validate_plan. intros H Hc. inv_ok.
  match goal with H : mapM_res validate_cost _ = Ok _ |- _ => apply mapM_res_Forall2 in H as HF end.
  apply list_elem_of_lookup in Hc as [n Hn].
  destruct (Forall2_lookup_l _ _ _ _ _ HF Hn) as (? & _ & H).
  unfold validate_cost in H. unfold number in H. inv_ok. rewrite ?number_within in *. lia.
Qed.

(** The single member of a list of one, and what its test says of it. *)
Lemma expected_one (l : list Cost) n :
  negb (Z.of_nat (length l) =? 1) || existsb (fun c => negb (slots c =? n)) l = false ->
  exists c, l = [c] /\ slots c = n.
Proof.
  intros [H1 H2]%orb_false_iff. apply negb_false_iff, Z.eqb_eq in H1.
  destruct l as [|c [|c' l]]; cbn [length] in H1; [lia| |lia].
  exists c. cbn in H2. split; [reflexivity|lia].
Qed.

Lemma expected_reasons limits l o n :
  (xs ← expected_slots limits;
   let '(o, n) := xs in
   add_if (negb (Z.of_nat (length (owned o l)) =? 1) || existsb (fun c => negb (slots c =? n)) (owned o l)) CAPACITY) = [] ->
  (o, n) ∈ expected_slots limits -> exists c, owned o l = [c] /\ slots c = n.
Proof.
  induction (expected_slots limits) as [|[o' n'] es IH]; intros H Hin; [inversion Hin|].
  cbn in H. apply app_nil in H as [H1 H2]. apply elem_of_cons in Hin as [[= -> ->]|Hin]; [|exact (IH H2 Hin)].
  apply add_if_nil in H1. exact (expected_one _ _ H1).
Qed.

Lemma over_limit_false q n profile : over_limit q n profile = false -> aggregate_quantity profile = q ->
  forall bytes, aggregate_bytes profile = Some bytes -> n <= bytes.
Proof. unfold over_limit. intros H Hq bytes E. rewrite E, bool_decide_eq_true_2 in H by exact Hq. cbn in H. lia. Qed.

Lemma topology_Ok plan limits profile rs : topology plan limits profile = Ok rs -> rs = [] ->
  Budget.max_sessions limits <= Budget.max_workers limits /\
  exists p, max_processes profile = Some p /\
    1 + Budget.max_workers limits + Budget.max_auxiliaries limits + fixed_auxiliaries plan <= p.
Proof.
  unfold topology. intros H E. apply bind_Ok in H as (ps & Hp & H). apply bind_Ok in H as (ts & _ & H).
  apply checked_Ok in Hp as [-> _]. injection H as H. rewrite <- H in E. apply app_nil in E as [E _].
  apply add_if_nil, orb_false_iff in E as [E1 E2]. split; [lia|].
  destruct (max_processes profile) as [p|]; [|discriminate]. destruct (max_tasks profile); [|discriminate].
  exists p. split; [reflexivity|lia].
Qed.

Lemma profile_strict ps profile : profile_reasons ps profile = [] ->
  known ps profile = true /\ exists bytes, aggregate_bytes profile = Some bytes.
Proof.
  unfold profile_reasons. intros H. apply app_nil in H as [H1 H]. apply app_nil in H as [H2 _].
  apply add_if_nil in H1, H2. apply negb_false_iff in H1. split; [exact H1|].
  apply orb_false_iff in H2 as [_ H2]. destruct (observed_peak_bytes profile), (aggregate_bytes profile); try discriminate. eauto.
Qed.

Lemma decided_eq {A} `{EqDecision A} (x y : A) : negb (bool_decide (x = y)) = false -> x = y.
Proof. rewrite negb_false_iff, bool_decide_eq_true. auto. Qed.

Lemma ready_inv ps profile plan limits :
  ready (reconcile_in ps profile plan limits) = true -> ready_facts ps profile plan limits.
Proof.
  rewrite reconcile_in_ready. intros (v & H & Hr). unfold reconcile_checked in H.
  apply bind_Ok in H as (? & _ & H). apply bind_Ok in H as (? & Vp & H). apply bind_Ok in H as (? & Vl & H).
  destruct (existsb _ (costs plan)) eqn:Hu; [injection H as <-; discriminate|].
  apply bind_Ok in H as ([i o] & T & H). apply bind_Ok in H as (t & Ht & H).
  apply bind_Ok in H as (placed & Pl & H). apply bind_Ok in H as (beyond & _ & H).
  injection H as <-. cbn [ready] in Hr. apply bool_decide_eq_true in Hr. apply (proj1 (no_reason _)) in Hr.
  apply app_nil in Hr as [R1 Hr]. apply app_nil in Hr as [R2 Hr]. apply app_nil in Hr as [R3 Hr].
  apply app_nil in Hr as [_ Hr]. apply app_nil in Hr as [R5 Hr]. apply app_nil in Hr as [R6 Hr].
  apply app_nil in Hr as [R7 R8]. apply add_if_nil in R5, R6, R7, R8. apply orb_false_iff in R5 as [Q1 Q2].
  apply decided_eq in Q1, Q2. unfold cost_reasons in R2.
  apply app_nil in R2 as [C1 R2]. apply app_nil in R2 as [_ R2]. apply app_nil in R2 as [C3 R2].
  apply app_nil in R2 as [_ R2]. apply app_nil in R2 as [_ R2]. apply app_nil in R2 as [C6 C7].
  apply add_if_nil in C6, C7. rewrite existsb_false in C6, C7, Hu.
  apply bind_Ok in T as (? & T1 & T). apply bind_Ok in T as (? & T2 & T). injection T as -> ->.
  apply checked_Ok in T1 as [-> _], T2 as [-> _], Ht as [-> _].
  destruct (topology_Ok _ _ _ _ Pl R3) as [W P]. destruct (profile_strict _ _ R1) as [K [bytes A]].
  split; try assumption.
  - exact (validate_limits_Ok _ _ Vl).
  - intros c Hc. apply decided_eq, Hu, Hc.
  - intros c Hc. exact (validate_plan_costs _ _ _ Vp Hc).
  - intros own n Hin. exact (expected_reasons _ _ _ _ C3 Hin).
  - intros c Hc. apply decided_eq, C6, Hc.
  - exists bytes. split; [exact A|]. exact (over_limit_false _ _ _ R8 (eq_sym Q1) _ A).
  - lia.
  - intros c Hc b Hb. rewrite Hb, bool_decide_eq_true_2 in R6 by congruence. cbn in R6.
    rewrite existsb_false in R6. specialize (R6 c Hc). cbn in R6. lia.
  - intros c Hc. specialize (C7 c Hc). cbn in C7. lia.
Qed.

(** ** What the tree costs while the ledger is in some state *)

(** The costs one row of the ledger stands for: a session has its worker and
    its parent side. *)
Definition row_owners (r : Budget.ReservationView) : list CostOwner :=
  match Budget.kind r with
  | Budget.SESSION => [WORKER; PARENT]
  | Budget.CANDIDATE => [CANDIDATE]
  | Budget.GENERATION => [GENERATION]
  | Budget.AUXILIARY => [AUXILIARY]
  end.

(** The bytes of one slot of a population, among some of the costs. *)
Definition price (l : list Cost) (o : CostOwner) : Z := foldr (fun c n => bytes_per_slot c + n) 0 (owned o l).

Definition row_cost (l : list Cost) (r : Budget.ReservationView) : Z := foldr (fun o n => price l o + n) 0 (row_owners r).

(** The base, the headroom and what every row of the ledger costs. *)
Definition footprint (l : list Cost) (rows : list Budget.ReservationView) : Z :=
  sum_costs (owned BASE l) + sum_costs (owned HEADROOM l) + Budget.sum_bytes (row_cost l) rows.

Lemma sum_costs_cons c l : sum_costs (c :: l) = cost_bytes c + sum_costs l.
Proof. reflexivity. Qed.

Lemma owned_cons o c l : owned o (c :: l) = if decide (owner c = o) then c :: owned o l else owned o l.
Proof. reflexivity. Qed.

(** Settle every test of an equality between constructors. *)
Ltac decide_all := repeat (destruct (decide _); try congruence).

(** Every cost has one owner. *)
Lemma sum_by_owner l : sum_costs l =
  sum_costs (owned BASE l) + sum_costs (owned HEADROOM l) + sum_costs (owned WORKER l) + sum_costs (owned PARENT l) +
  sum_costs (owned CANDIDATE l) + sum_costs (owned GENERATION l) + sum_costs (owned AUXILIARY l).
Proof.
  induction l as [|c l IH]; [reflexivity|]. rewrite !owned_cons, sum_costs_cons, IH.
  destruct (owner c); decide_all; rewrite ?sum_costs_cons; lia.
Qed.

Lemma sum_by_location l :
  sum_costs l = sum_costs (at_location IN_DOMAIN l) + sum_costs (at_location OUT_OF_DOMAIN l).
Proof.
  unfold at_location. induction l as [|c l IH]; [reflexivity|]. rewrite !filter_cons, sum_costs_cons, IH.
  destruct (location c); decide_all; rewrite ?sum_costs_cons; lia.
Qed.

#[local] Existing Instance Budget.ReservationKind_eq_dec.

Lemma count_kind_cons k r l :
  Budget.count_kind k (r :: l) = (if decide (Budget.kind r = k) then 1 else 0) + Budget.count_kind k l.
Proof. unfold Budget.count_kind. rewrite filter_cons. destruct (decide _); cbn [length]; lia. Qed.

Lemma rows_cost l rows : Budget.sum_bytes (row_cost l) rows =
  Budget.count_kind Budget.SESSION rows * (price l WORKER + price l PARENT) +
  Budget.count_kind Budget.CANDIDATE rows * price l CANDIDATE +
  Budget.count_kind Budget.GENERATION rows * price l GENERATION +
  Budget.count_kind Budget.AUXILIARY rows * price l AUXILIARY.
Proof.
  induction rows as [|r rows IH]; [reflexivity|]. rewrite !count_kind_cons. cbn [Budget.sum_bytes]. rewrite IH.
  unfold row_cost, row_owners. destruct (Budget.kind r); decide_all; cbn; lia.
Qed.

Lemma owned_sublist o k l : k `sublist_of` l -> owned o k `sublist_of` owned o l.
Proof.
  induction 1 as [|c k l H IH|c k l H IH]; rewrite ?owned_cons; [constructor| |];
    destruct (decide _); auto using sublist_skip, sublist_cons.
Qed.

(** A population's cost covers any number of rows up to its slots, among all
    the costs and among those of one place. *)
Lemma population_covered (l k : list Cost) o n m :
  (forall c, c ∈ l -> 1 <= bytes_per_slot c /\ 1 <= slots c) -> k `sublist_of` l ->
  (exists c, owned o l = [c] /\ slots c = n) -> 0 <= m <= n ->
  0 <= price k o /\ m * price k o <= sum_costs (owned o k).
Proof.
  intros Hp Hk (c & Hc & Hn) Hm. assert (Ho : owned o k `sublist_of` [c]).
  { rewrite <- Hc. exact (owned_sublist _ _ _ Hk). }
  assert (Hin : c ∈ l). { apply (list_elem_of_filter (fun c => owner c = o)). unfold owned in Hc. rewrite Hc. left. }
  destruct (Hp c Hin) as [B S]. unfold price. apply sublist_cons_r in Ho as [Ho|(x & -> & Ho)].
  - apply sublist_nil_r in Ho. rewrite Ho. cbn. lia.
  - apply sublist_nil_r in Ho as ->. cbn. unfold cost_bytes. nia.
Qed.

(** Any rows the limits allow cost no more than the plan's total. *)
Lemma footprint_within ps profile plan limits k rows :
  ready_facts ps profile plan limits -> k `sublist_of` costs plan ->
  Budget.count_kind Budget.SESSION rows <= Budget.max_sessions limits ->
  Budget.count_kind Budget.CANDIDATE rows <= Budget.max_candidates limits ->
  Budget.count_kind Budget.GENERATION rows <= Budget.max_generations limits ->
  Budget.count_kind Budget.AUXILIARY rows <= Budget.max_auxiliaries limits ->
  footprint k rows <= sum_costs k.
Proof.
  intros F Hk N1 N2 N3 N4. unfold footprint. rewrite rows_cost, (sum_by_owner k).
  pose proof (rf_workers _ _ _ _ F) as W.
  assert (P : forall o n x, (o, n) ∈ expected_slots limits -> Budget.count_kind x rows <= n ->
            Budget.count_kind x rows * price k o <= sum_costs (owned o k)).
  { intros o n x Hin Hn.
    apply (population_covered _ _ _ n _ (rf_costs _ _ _ _ F) Hk (rf_expected _ _ _ _ F _ _ Hin)).
    split; [apply Zle_0_nat|exact Hn]. }
  unfold expected_slots in P.
  pose proof (P WORKER (Budget.max_workers limits) Budget.SESSION ltac:(set_solver) ltac:(lia)).
  pose proof (P PARENT (Budget.max_sessions limits) Budget.SESSION ltac:(set_solver) N1).
  pose proof (P CANDIDATE (Budget.max_candidates limits) Budget.CANDIDATE ltac:(set_solver) N2).
  pose proof (P GENERATION (Budget.max_generations limits) Budget.GENERATION ltac:(set_solver) N3).
  pose proof (P AUXILIARY (Budget.max_auxiliaries limits) Budget.AUXILIARY ltac:(set_solver) N4).
  lia.
Qed.

(** A profile object is frozen: the object of a reviewed profile is that profile. *)
Definition genuine (ps : list DomainProfile) (profile : DomainProfile) : Prop :=
  forall item, item ∈ ps -> p_object profile = p_object item -> profile = item.

(** C34: a ready verdict is a promise about every run of the ledger: whatever calls
    are made on a ledger with the limits the plan was reconciled with, the
    processes of its sessions and auxiliaries fit the domain's, and what the
    plan says they cost fits the domain's proven aggregate inside it and the
    ledger's budget in all. *)
Theorem ready_domain_holds_ledger ps profile plan limits own ds ds' wr rs s0 s :
  ready (reconcile_in ps profile plan limits) = true ->
  mapM_res Budget.datasource_capacity ds = Ok ds' -> Budget.new_ledger own limits ds = Ok s0 ->
  Budget.reachable wr rs s0 s ->
  let rows := Budget.rows (Budget.image s) in
  (exists bytes, aggregate_bytes profile = Some bytes /\
     footprint (at_location IN_DOMAIN (costs plan)) rows <= bytes) /\
  footprint (costs plan) rows <= Budget.total_bytes limits /\
  (exists processes, max_processes profile = Some processes /\
     1 + Budget.count_kind Budget.SESSION rows + Budget.count_kind Budget.AUXILIARY rows +
     fixed_auxiliaries plan <= processes).
Proof.
  intros Hr Hd Hnew Hs rows. apply ready_inv in Hr as F.
  destruct (Budget.new_ledger_ok _ _ _ _ _ _ (rf_limits _ _ _ _ F) Hd Hnew) as (H0 & E1 & _).
  destruct (Budget.reachable_follows _ _ _ _ H0 Hs) as ([_ Hv] & _ & L & _).
  destruct (Budget.validate_Ok _ _ _ Hv) as (_ & V1 & V2 & V3 & V4 & _). rewrite L, E1 in V1, V2, V3, V4.
  assert (W : forall k, k `sublist_of` costs plan -> footprint k rows <= sum_costs k).
  { intros k Hk. apply (footprint_within _ _ _ _ _ _ F Hk); unfold rows; lia. }
  split; [|split].
  - destruct (rf_aggregate _ _ _ _ F) as (bytes & A & B). exists bytes. split; [exact A|].
    specialize (W _ (sublist_filter (fun c => location c = IN_DOMAIN) (costs plan))). unfold at_location in *. lia.
  - specialize (W _ (reflexivity _)). rewrite sum_by_location in W. pose proof (rf_total _ _ _ _ F). lia.
  - destruct (rf_processes _ _ _ _ F) as (p & E & P). exists p. split; [exact E|]. unfold rows. lia.
Qed.

(** With the two profiles the source has reviewed, nothing is ever ready: not
    one of them, nor a copy of one, nor any other record. *)
Theorem no_domain_is_ready profile plan limits :
  genuine PROFILES profile -> ready (reconcile profile plan limits) = false.
Proof.
  intros G. apply not_true_iff_false. intros Hr. apply ready_inv in Hr as F.
  pose proof (rf_known _ _ _ _ F) as K. apply existsb_exists in K as (item & Hin & E%Nat.eqb_eq).
  apply list_elem_of_In in Hin. rewrite (G item Hin E) in F. apply rf_profile in F.
  apply elem_of_cons in Hin as [->|[->|[]%not_elem_of_nil]%elem_of_cons]; discriminate F.
Qed.

Lemma domain_reasons_once : NoDup domain_reasons.
Proof. apply (bool_decide_unpack _). vm_compute. exact I. Qed.

(** A verdict is consistent: it is ready exactly when it gives no reason,
    every reason is given once, its totals add up and fit the machine's signed
    64-bit integers, and are the plan's unless nothing was summed. *)
Theorem verdict_consistent ps profile plan limits :
  let v := reconcile_in ps profile plan limits in
  (ready v = true <-> reasons v = []) /\ NoDup (reasons v) /\
  total_bytes v = inside_bytes v + outside_bytes v /\
  0 <= inside_bytes v /\ 0 <= outside_bytes v /\ total_bytes v <= MAX_NUMBER /\
  (reasons v <> [INVALID] -> reasons v <> [UNIT_MISMATCH] ->
     inside_bytes v = sum_costs (at_location IN_DOMAIN (costs plan)) /\
     total_bytes v = sum_costs (costs plan)).
Proof.
  assert (Rf : forall r, r = INVALID \/ r = UNIT_MISMATCH ->
    (ready (refusal r) = true <-> reasons (refusal r) = []) /\ NoDup (reasons (refusal r)) /\ 0 <= MAX_NUMBER /\
    (reasons (refusal r) <> [INVALID] -> reasons (refusal r) <> [UNIT_MISMATCH] -> False)).
  { intros r Hr. cbn. split; [split; discriminate|]. split; [repeat constructor; set_solver|].
    split; [discriminate|]. destruct Hr; subst r; congruence. }
  unfold reconcile_in. destruct (reconcile_checked ps profile plan limits) as [v|e] eqn:H.
  2:{ destruct (Rf INVALID) as (? & ? & ? & N); [auto|]. cbn [inside_bytes outside_bytes total_bytes refusal].
      repeat (split; [assumption || lia|]). intros A B. destruct (N A B). }
  unfold reconcile_checked in H. apply bind_Ok in H as (? & _ & H). apply bind_Ok in H as (? & _ & H).
  apply bind_Ok in H as (? & _ & H). destruct (existsb _ (costs plan)).
  { injection H as <-. destruct (Rf UNIT_MISMATCH) as (? & ? & ? & N); [auto|].
    cbn [inside_bytes outside_bytes total_bytes refusal].
    repeat (split; [assumption || lia|]). intros A B. destruct (N A B). }
  apply bind_Ok in H as ([i o] & T & H). apply bind_Ok in H as (t & Ht & H).
  apply bind_Ok in H as (placed & _ & H). apply bind_Ok in H as (beyond & _ & H). injection H as <-.
  apply bind_Ok in T as (? & T1 & T). apply bind_Ok in T as (? & T2 & T). injection T as -> ->.
  apply checked_Ok in T1 as [-> I1], T2 as [-> I2], Ht as [-> I3].
  cbn [ready reasons inside_bytes outside_bytes total_bytes]. split; [apply bool_decide_eq_true|].
  split; [apply NoDup_filter, domain_reasons_once|]. do 4 (split; [lia|]). intros _ _. split; [reflexivity|].
  symmetry. apply sum_by_location.
Qed.

(** ** Witnesses *)

(** A domain with every proof, that no review has given: the cost plan of a
    ledger of two sessions inside it. *)
Definition sample_profile : DomainProfile := {|
  p_object := 0; name := py "strict"; evidence := py "proof"; member_kind := JOB_PRIVATE;
  member_quantity := PRIVATE_COMMIT; member_bytes := Some 50; aggregate_kind := STRICT_PROVEN;
  aggregate_quantity := PRIVATE_COMMIT; aggregate_bytes := Some 900; observed_peak_bytes := Some 500;
  vectors := replicate 10 DOMAIN_PROVEN; max_processes := Some 5; max_tasks := Some 16;
  members_attached_at_creation := true; supervisor_attached_at_creation := true;
  limits_before_work := true; owner_loss_cleanup_proven := true |}.

Definition sample_cost (id : Z) (o : CostOwner) (bytes n : Z) : Cost :=
  {| identity := id; owner := o; location := IN_DOMAIN; c_quantity := PRIVATE_COMMIT; bytes_per_slot := bytes;
     slots := n; bound := None |}.

Definition sample_plan : CostPlan := {|
  quantity := PRIVATE_COMMIT;
  costs := [sample_cost 1 BASE 100 1; sample_cost 2 HEADROOM 100 1; sample_cost 3 WORKER 60 2;
            sample_cost 4 PARENT 40 2; sample_cost 5 CANDIDATE 100 1; sample_cost 6 GENERATION 100 2;
            sample_cost 7 AUXILIARY 50 1];
  supervisor_cost_id := 1; supervisor_threads := 2; worker_threads := 1; auxiliary_threads := 1;
  fixed_auxiliaries := 0; fixed_auxiliary_threads := 1; fixed_auxiliary_cost_id := None;
  frame_bytes := 10; output_overhead_bytes := 20 |}.

Definition sample_ready : ready (reconcile_in [sample_profile] sample_profile sample_plan Budget.sample_limits) = true :=
  eq_refl.

Lemma ready_domain_holds_ledger_witness :
  total_bytes (reconcile_in [sample_profile] sample_profile sample_plan Budget.sample_limits) = 750 /\
  (exists bytes, Some 900 = Some bytes /\
     footprint (at_location IN_DOMAIN (costs sample_plan)) (Budget.rows (Budget.image Budget.drained_ledger)) <= bytes) /\
  footprint (costs sample_plan) (Budget.rows (Budget.image Budget.drained_ledger)) = 300.
Proof.
  split; [reflexivity|]. split; [|reflexivity].
  exact (proj1 (ready_domain_holds_ledger _ _ _ _ _ _ _ _ _ _ _ sample_ready
    (eq_refl : mapM_res Budget.datasource_capacity [{| Budget.ds_sessions := 1; Budget.ds_candidates := 1 |}] = Ok _)
    (eq_refl : Budget.new_ledger 7 Budget.sample_limits
      [{| Budget.ds_sessions := 1; Budget.ds_candidates := 1 |}] = Ok Budget.sample_ledger) Budget.drained_reachable)).
Defined.

(** A plan is unready for the reviewed Linux domain, whatever it costs. *)
Lemma no_domain_is_ready_witness :
  ready (reconcile LINUX_HELD_AS128 sample_plan Budget.sample_limits) = false.
Proof.
  apply (no_domain_is_ready LINUX_HELD_AS128). unfold genuine.
  intros item [->|[->|[]%not_elem_of_nil]%elem_of_cons]%elem_of_cons; [reflexivity|discriminate].
Defined.

(** The same figures in another object, or one profile for another quantity. *)
Example copy_is_unverified : reasons (reconcile_in [sample_profile]
  {| p_object := 3; name := py "strict"; evidence := py "proof"; member_kind := JOB_PRIVATE;
     member_quantity := PRIVATE_COMMIT; member_bytes := Some 50; aggregate_kind := STRICT_PROVEN;
     aggregate_quantity := PRIVATE_COMMIT; aggregate_bytes := Some 900; observed_peak_bytes := Some 500;
     vectors := replicate 10 DOMAIN_PROVEN; max_processes := Some 5; max_tasks := Some 16;
     members_attached_at_creation := true; supervisor_attached_at_creation := true;
     limits_before_work := true; owner_loss_cleanup_proven := true |} sample_plan Budget.sample_limits)
  = [UNVERIFIED_PROFILE].
Proof. vm_compute. reflexivity. Qed.

Example linux_reasons : reasons (reconcile LINUX_HELD_AS128 sample_plan Budget.sample_limits) =
  [AGGREGATE_UNPROVEN; COVERAGE_GAP; CLEANUP_UNPROVEN; UNIT_MISMATCH; TOPOLOGY].
Proof. vm_compute. reflexivity. Qed.
