(* ===== verification/Decimal.v ===== *)
(** * Decimal: the canonical decimal text of an integer

    Facts on [str_int], Python's [str] of an [int]: the digits determine the
    number, the number determines the digits, and their count is bounded by
    the number's size. *)

From S2P Require Import Prelude.

Local Open Scope Z_scope.

(** The number a list of digit characters writes, after [v] already read. *)
Fixpoint dec_value (v : Z) (ds : pystr) : Z :=
  match ds with
  | [] => v
  | d :: ds => dec_value (v * 10 + (d - 48)) ds
  end.

Definition digit_char (d : Z) : Prop := 48 <= d <= 57.

(** No leading zero, unless the number is the digit zero alone. *)
Definition no_leading_zero (ds : pystr) : Prop := ds = [48] \/ exists d rest, ds = d :: rest /\ d <> 48.

Lemma dec_value_app v a b : dec_value v (a ++ b) = dec_value (dec_value v a) b.
Proof. revert v; induction a as [|d a IH]; intros v; cbn; auto. Qed.

Lemma dec_value_snoc v a d : dec_value v (a ++ [d]) = dec_value v a * 10 + (d - 48).
Proof. rewrite dec_value_app. reflexivity. Qed.

Lemma dec_value_nonneg v ds : 0 <= v -> Forall digit_char ds -> v <= dec_value v ds.
Proof.
  intros Hv Hd. revert v Hv; induction Hd as [|d ds Hd _ IH]; intros v Hv; cbn; [lia|].
  unfold digit_char in Hd. etransitivity; [|apply IH; lia]. lia.
Qed.

Lemma dec_digits_spec fuel n :
  0 <= n < 2 ^ Z.of_nat fuel -> (fuel > 0)%nat ->
  Forall digit_char (dec_digits fuel n) /\ dec_value 0 (dec_digits fuel n) = n /\
  no_leading_zero (dec_digits fuel n) /\ (0 < n -> exists d r, dec_digits fuel n = d :: r /\ d <> 48).
Proof.
  revert n; induction fuel as [|fuel IH]; intros n Hn Hf; [lia|]. cbn [dec_digits].
  destruct (Z.ltb_spec n 10) as [L|L].
  - unfold digit_char, no_leading_zero. split; [repeat constructor; lia|]. split; [cbn; lia|].
    split.
    + destruct (decide (n = 0)) as [->|]; [left; reflexivity|].
      right. exists (48 + n), []. split; [reflexivity|lia].
    + intros. exists (48 + n), []. split; [reflexivity|lia].
  - rewrite Nat2Z.inj_succ, Z.pow_succ_r in Hn by lia.
    pose proof (Z.mod_pos_bound n 10 ltac:(lia)). pose proof (Z.div_mod n 10 ltac:(lia)).
    assert (fuel > 0)%nat by (destruct fuel; [cbn in Hn; lia|lia]).
    destruct (IH (n / 10)) as (I1 & I2 & _ & I4); [lia|assumption|].
    destruct I4 as (d & r & Ed & Nd); [lia|]. rewrite Ed in *. split.
    { apply Forall_app. split; [exact I1|]. constructor; [unfold digit_char; lia|constructor]. }
    split; [rewrite dec_value_snoc, I2; lia|].
    assert (E : exists d' r', (d :: r) ++ [48 + n mod 10] = d' :: r' /\ d' <> 48)
      by (exists d, (r ++ [48 + n mod 10]); auto).
    split; [right; exact E|intros _; exact E].
Qed.

Lemma dec_fuel_enough n : 0 <= n -> n < 2 ^ Z.of_nat (dec_fuel n) /\ (dec_fuel n > 0)%nat.
Proof.
  intros Hn. unfold dec_fuel. split; [|lia]. destruct (decide (n = 0)) as [->|]; [reflexivity|].
  rewrite Nat2Z.inj_succ, Z2Nat.id by apply Z.log2_nonneg. apply Z.log2_spec. lia.
Qed.

(** A number has one text without a leading zero. *)
Lemma dec_unique a b :
  Forall digit_char a -> Forall digit_char b -> no_leading_zero a -> no_leading_zero b ->
  dec_value 0 a = dec_value 0 b -> a = b.
Proof.
  assert (P : forall ds, Forall digit_char ds ->
                (exists d r, ds = d :: r /\ d <> 48) -> 0 < dec_value 0 ds).
  { intros ds H (d & r & -> & N). inversion H as [|? ? Hd Hr]; subst. cbn [dec_value].
    unfold digit_char in Hd. pose proof (dec_value_nonneg (0 * 10 + (d - 48)) r ltac:(lia) Hr). lia. }
  revert b; induction a as [|x a IH] using rev_ind; intros b Ha Hb Na Nb E.
  { destruct Na as [[=]|(? & ? & [=] & _)]. }
  destruct b as [|y b _] using rev_ind; [destruct Nb as [[=]|(? & ? & [=] & _)]|].
  rewrite !dec_value_snoc in E. apply Forall_app in Ha as [Ha Hx], Hb as [Hb Hy].
  inversion_clear Hx as [|? ? Dx _]. inversion_clear Hy as [|? ? Dy _]. unfold digit_char in Dx, Dy.
  assert (Q : forall l z, no_leading_zero (l ++ [z]) ->
                l = [] \/ exists d r, l = d :: r /\ d <> 48).
  { intros [|d l] z N; [auto|right]. destruct N as [[= -> N]|(d' & r & [= -> _] & N)].
    - apply app_nil in N as [_ [=]].
    - exists d', l; auto. }
  assert (E1 : dec_value 0 a = dec_value 0 b) by lia.
  assert (x = y) as <- by lia. f_equal.
  destruct (Q _ _ Na) as [->|A], (Q _ _ Nb) as [->|B]; [reflexivity| | |].
  - pose proof (P b Hb B). cbn in E1. lia.
  - pose proof (P a Ha A). cbn in E1. lia.
  - apply IH; try assumption; right; assumption.
Qed.

Lemma dec_value_lower ds :
  Forall digit_char ds -> (exists d r, ds = d :: r /\ d <> 48) ->
  10 ^ (Z.of_nat (length ds) - 1) <= dec_value 0 ds.
Proof.
  intros H N. induction ds as [|x ds IH] using rev_ind; [destruct N as (? & ? & [=] & _)|].
  apply Forall_app in H as [Hd Hx]. inversion_clear Hx as [|? ? Dx _]. unfold digit_char in Dx.
  rewrite dec_value_snoc, length_app. cbn [length].
  destruct ds as [|d ds]; [destruct N as (? & ? & [= <- <-] & N); cbn; lia|].
  assert (N' : exists d' r, d :: ds = d' :: r /\ d' <> 48)
    by (destruct N as (? & ? & [= <- _] & N); eauto).
  specialize (IH Hd N').
  replace (Z.of_nat (length (d :: ds) + 1) - 1) with (Z.succ (Z.of_nat (length (d :: ds)) - 1)) by lia.
  rewrite Z.pow_succ_r by (simpl length; lia). lia.
Qed.

(** The digits of a non-negative number. *)
Lemma str_int_nonneg n :
  0 <= n -> Forall digit_char (str_int n) /\ dec_value 0 (str_int n) = n /\
            no_leading_zero (str_int n).
Proof.
  intros Hn. unfold str_int. destruct (Z.ltb_spec n 0); [lia|].
  destruct (dec_fuel_enough n Hn) as [F1 F2].
  destruct (dec_digits_spec (dec_fuel n) n ltac:(lia) F2) as (? & ? & ? & _). auto.
Qed.

Lemma str_int_neg n : n < 0 -> str_int n = 45 :: str_int (- n).
Proof.
  intros Hn. unfold str_int. destruct (Z.ltb_spec n 0); [|lia].
  destruct (Z.ltb_spec (- n) 0); [lia|reflexivity].
Qed.

Lemma str_int_positive n :
  0 < n -> exists d r, str_int n = d :: r /\ d <> 48 /\ digit_char d.
Proof.
  intros Hn. destruct (str_int_nonneg n) as (D & V & [E|(d & r & E & N)]); [lia| |].
  - rewrite E in V. cbn in V. lia.
  - exists d, r. rewrite E in D. inversion D; auto.
Qed.

Lemma str_int_of_digits ds :
  Forall digit_char ds -> no_leading_zero ds -> str_int (dec_value 0 ds) = ds.
Proof.
  intros Hd Hn. pose proof (dec_value_nonneg 0 ds ltac:(lia) Hd) as H0.
  destruct (str_int_nonneg (dec_value 0 ds)) as (D & V & N); [lia|].
  apply dec_unique; auto.
Qed.

Lemma str_int_length n k :
  0 <= n < 10 ^ Z.of_nat k -> (k > 0)%nat -> (1 <= length (str_int n) <= k)%nat.
Proof.
  intros Hn Hk. destruct (str_int_nonneg n) as (D & V & N); [lia|].
  destruct N as [E|N]; [rewrite E; cbn; lia|].
  pose proof (dec_value_lower _ D N) as L. rewrite V in L.
  destruct N as (d & r & E & _). rewrite E in *. split; [cbn; lia|].
  apply Nat2Z.inj_le. assert (10 ^ (Z.of_nat (length (d :: r)) - 1) < 10 ^ Z.of_nat k) as P by lia.
  apply Z.pow_lt_mono_r_iff in P; lia.
Qed.
