(* ===== verification/ResultFrame.v ===== *)
(** * ResultFrame: the private result frame and its validation

    Models [pgwire/result_frame.py]: the fixed header of a result frame, the
    bounded parser of its raw T/D/C body, the validated owner and its chunks.
    The parser walks offsets of the raw bytes and keeps a state, as the code
    does; the grammar it accepts is stated apart, by a printer of frames.

    A deadline's clock is a function from the number of readings made to the
    value read, [None] for a clock that raises or returns no finite number.
    [MemoryError] is not modelled. *)

From S2P Require Import Prelude.
From S2P Require Import Bytes.
From S2P Require Import Unicode.
From S2P Require Import Decimal.

Local Open Scope Z_scope.

(** ** Constants *)

Definition MAX_FRAME : Z := 16 * (1024 * 1024).
Definition MAX_CELL : Z := 1024 * 1024.
Definition MAX_COLUMNS : Z := 1664.
Definition MAX_NAME : Z := 256.
Definition MAX_ROWS : Z := 2 ^ 31 - 1.
Definition MAX_EPOCH : Z := 2 ^ 63 - 1.
Definition TEXT_BLOCK : Z := 4096.
Definition WORK_CHECK : Z := 256.
Definition MAX_CHUNK : Z := 64 * 1024.
Definition IDENTITY_BYTES : Z := 16.
Definition INTEGER_TEXT_BYTES : Z := 20.
Definition NAME_OID : Z := 19.
Definition NAME_VALUE_BYTES : Z := 63.

(** [struct.Struct("!4sBBH16s16sQQQIII").size]. *)
Definition HEADER_BYTES : Z := 76.
(** [struct.Struct("!IhIhih").size]. *)
Definition COLUMN_BYTES : Z := 18.

Definition TYPE_SIZES : list (Z * Z) :=
  [(16, 1); (21, 2); (23, 4); (20, 8); (19, 64); (25, -1); (1042, -1); (1043, -1)].
Definition INTEGER_BITS : list (Z * Z) := [(21, 16); (23, 32); (20, 64)].
Definition TEXT_TYPES : list Z := [19; 25; 1042; 1043].

(** [table[key]] of a small dictionary, [None] when absent. *)
Definition assoc (k : Z) (l : list (Z * Z)) : option Z :=
  snd <$> find (fun kv => kv.1 =? k) l.

Inductive ResultErrorCategory :=
| RESULT_PROTOCOL | RESULT_LIMIT | RESULT_IDENTITY | RESULT_DEADLINE.

(** ** Identity, limits and deadline *)

(** [_positive]. *)
Definition positive_in (value maximum minimum : Z) : bool :=
  (minimum <=? value) && (value <=? maximum).

Record ResultIdentity := {
  session_id : list byte;
  datasource_id : list byte;
  generation : Z;
  record_revision : Z;
  job_id : Z;
}.

(** [ResultIdentity.__post_init__]. *)
Definition result_identity (i : ResultIdentity) : res ResultErrorCategory ResultIdentity :=
  refuse_if (negb (blen (session_id i) =? IDENTITY_BYTES) ||
             negb (blen (datasource_id i) =? IDENTITY_BYTES) ||
             negb (forallb (fun v => positive_in v MAX_EPOCH 1)
                     [generation i; record_revision i; job_id i])) RESULT_IDENTITY;;
  Ok i.

Record ResultLimits := {
  max_rows : Z;
  max_frame_bytes : Z;
  max_cell_bytes : Z;
  max_columns : Z;
  max_name_bytes : Z;
}.

(** [ResultLimits.__post_init__]. *)
Definition result_limits (l : ResultLimits) : res ResultErrorCategory ResultLimits :=
  refuse_if (negb (positive_in (max_rows l) MAX_ROWS 1 &&
                   positive_in (max_frame_bytes l) MAX_FRAME HEADER_BYTES &&
                   positive_in (max_cell_bytes l) MAX_CELL 1 &&
                   positive_in (max_columns l) MAX_COLUMNS 1 &&
                   positive_in (max_name_bytes l) MAX_NAME 1)) RESULT_LIMIT;;
  Ok l.

(** [_finite] of an integer. *)
Definition finite (value : Z) (positive : bool) : bool :=
  ((if positive then 1 else 0) <=? value) && (value <=? MAX_EPOCH).

Record ResultDeadline := {
  expires_at : Z;
  clock : nat -> option Z;
}.

(** [ResultDeadline.__post_init__]. *)
Definition result_deadline (d : ResultDeadline) : res ResultErrorCategory ResultDeadline :=
  refuse_if (negb (finite (expires_at d) true)) RESULT_DEADLINE;; Ok d.

(** [ResultDeadline.remaining], at the [n]-th reading. *)
Definition remaining (d : ResultDeadline) (n : nat) : Z :=
  match clock d n with
  | None => 0
  | Some value =>
      if negb (finite value false) || (expires_at d <=? value) then 0
      else expires_at d - value
  end.

(** ** The header *)

Record ResultHeader := {
  frame_bytes : Z;
  h_columns : Z;
  h_rows : Z;
  h_truncated : bool;
}.

(** [b"SELECT " + str(rows) + b"\0"]. *)
Definition command (rows : Z) : list byte :=
  ascii_lit "SELECT " ++ ascii_encode (str_int rows) ++ [z2b 0].

Definition inspect_result_header (header : list byte) (expected : ResultIdentity)
    (limits : ResultLimits) : res ResultErrorCategory ResultHeader :=
  refuse_if (negb (blen header =? HEADER_BYTES)) RESULT_PROTOCOL;;
  let magic := slice 0 4 header in
  let version := unpack_be (slice 4 5 header) in
  let flags := unpack_be (slice 5 6 header) in
  let reserved := unpack_be (slice 6 8 header) in
  let session := slice 8 24 header in
  let datasource := slice 24 40 header in
  let gen := unpack_be (slice 40 48 header) in
  let revision := unpack_be (slice 48 56 header) in
  let job := unpack_be (slice 56 64 header) in
  let columns := unpack_be (slice 64 68 header) in
  let rows := unpack_be (slice 68 72 header) in
  let body := unpack_be (slice 72 76 header) in
  refuse_if (negb (bool_decide (magic = ascii_lit "MGWR")) || negb (version =? 1) ||
             negb ((flags =? 0) || (flags =? 1)) || negb (reserved =? 0)) RESULT_PROTOCOL;;
  refuse_if (negb (bool_decide (session = session_id expected) &&
                   bool_decide (datasource = datasource_id expected) &&
                   (gen =? generation expected) && (revision =? record_revision expected) &&
                   (job =? job_id expected))) RESULT_IDENTITY;;
  refuse_if (negb ((1 <=? columns) && (columns <=? max_columns limits)) ||
             (max_rows limits <? rows)) RESULT_LIMIT;;
  refuse_if ((flags =? 1) && negb (rows =? max_rows limits)) RESULT_PROTOCOL;;
  let total := HEADER_BYTES + body in
  refuse_if (max_frame_bytes limits <? total) RESULT_LIMIT;;
  let minimum := 7 + 19 * columns + rows * (7 + 4 * columns) + 5 + blen (command rows) in
  refuse_if (body <? minimum) RESULT_PROTOCOL;;
  Ok {| frame_bytes := total; h_columns := columns; h_rows := rows; h_truncated := flags =? 1 |}.

(** ** The parser *)

Record parser := {
  offset : Z;
  work : Z;
  oids : list Z;
  reads : nat;
}.

Abbreviation parsing := (st parser ResultErrorCategory).

Definition at_offset (o : Z) (s : parser) : parser :=
  {| offset := o; work := work s; oids := oids s; reads := reads s |}.
Definition with_work (w : Z) (s : parser) : parser :=
  {| offset := offset s; work := w; oids := oids s; reads := reads s |}.
Definition with_oids (o : list Z) (s : parser) : parser :=
  {| offset := offset s; work := work s; oids := o; reads := reads s |}.
Definition read_clock (s : parser) : parser :=
  {| offset := offset s; work := work s; oids := oids s; reads := Datatypes.S (reads s) |}.

(** [range(start, stop, step)]. *)
Definition py_range (start stop step : Z) : list Z :=
  map (fun k => start + step * Z.of_nat k)
      (seq 0 (Z.to_nat ((stop - start + step - 1) / step))).

(** [_short_utf8]. *)
Definition short_utf8 (piece : list byte) : bool :=
  match utf8_decode piece with Some _ => true | None => false end.

(** [_decode_block], with the decoder's new state. *)
Definition decode_block (decoder : utf8_state) (block : list byte) (final : bool)
    : option utf8_state :=
  match utf8_feed decoder block with
  | Some (decoder, _) => if final && negb (due decoder =? 0)%nat then None else Some decoder
  | None => None
  end.

Definition has_zero (bs : list byte) : bool := existsb (fun b => b2z b =? 0) bs.

(** The digits of [_Parser.integer], below the bound at every step. *)
Fixpoint integer_digits (bound value : Z) (digits : list byte) : bool :=
  match digits with
  | [] => true
  | b :: digits =>
      let digit := b2z b - 48 in
      if negb ((0 <=? digit) && (digit <=? 9)) || ((bound - digit) / 10 <? value) then false
      else integer_digits bound (value * 10 + digit) digits
  end.

Section parser.
Context (raw : list byte) (limits : ResultLimits) (deadline : ResultDeadline).

(** [ResultDeadline.check]. *)
Definition check_deadline : parsing unit := fun s =>
  (if remaining deadline (reads s) <=? 0 then Err RESULT_DEADLINE else Ok tt, read_clock s).

Definition modify (f : parser -> parser) : parsing unit := fun s => (Ok tt, f s).

(** [_Parser.tick]. *)
Definition tick : parsing unit :=
  modify (fun s => with_work (work s + 1) s);;
  s ← get_st;
  if WORK_CHECK <=? work s then check_deadline;; modify (with_work 0) else mret tt.

(** [_Parser.message]. *)
Definition message (tag minimum : Z) : parsing Z :=
  check_deadline;;
  s ← get_st;
  guard_st ((blen raw <? offset s + 5) || negb (byte_at raw (offset s) =? tag)) RESULT_PROTOCOL;;
  let length := unpack_be (slice (offset s + 1) (offset s + 5) raw) in
  let stop := offset s + 1 + length in
  guard_st ((length <? minimum) || (blen raw <? stop)) RESULT_PROTOCOL;;
  modify (at_offset (offset s + 5));;
  mret stop.

(** [_Parser.exact_end]. *)
Definition exact_end (stop : Z) : parsing unit :=
  s ← get_st; guard_st (negb (offset s =? stop)) RESULT_PROTOCOL.

(** The loop over blocks of [_Parser.text]. *)
Fixpoint text_blocks (decoder : utf8_state) (stop : Z) (offsets : list Z) : parsing unit :=
  match offsets with
  | [] => mret tt
  | o :: offsets =>
      check_deadline;;
      let block_end := Z.min (o + TEXT_BLOCK) stop in
      let block := slice o block_end raw in
      match decode_block decoder block (block_end =? stop) with
      | Some decoder =>
          guard_st (has_zero block) RESULT_PROTOCOL;;
          text_blocks decoder stop offsets
      | None => raise_st RESULT_PROTOCOL
      end
  end.

(** [_Parser.text]. *)
Definition text (start stop : Z) : parsing unit :=
  if start =? stop then mret tt
  else if stop - start =? 1 then
    guard_st (negb ((0 <? byte_at raw start) && (byte_at raw start <? 128))) RESULT_PROTOCOL
  else if stop - start <=? TEXT_BLOCK then
    let piece := slice start stop raw in
    guard_st (has_zero piece || (negb (bytes_is_ascii piece) && negb (short_utf8 piece)))
      RESULT_PROTOCOL
  else text_blocks utf8_start stop (py_range start stop TEXT_BLOCK).

(** One column of [_Parser.description]. *)
Definition describe_column (stop : Z) (index : nat) : parsing unit :=
  tick;;
  s ← get_st;
  let name_limit := Z.min stop (offset s + max_name_bytes limits + 1) in
  match find_zero_in raw (offset s) name_limit with
  | None => raise_st RESULT_LIMIT
  | Some name_end =>
      text (offset s) name_end;;
      modify (at_offset (name_end + 1));;
      let o := name_end + 1 in
      guard_st (stop <? o + COLUMN_BYTES) RESULT_PROTOCOL;;
      let table := unpack_be (slice o (o + 4) raw) in
      let attribute := unpack_be_signed 2 (slice (o + 4) (o + 6) raw) in
      let oid := unpack_be (slice (o + 6) (o + 10) raw) in
      let size := unpack_be_signed 2 (slice (o + 10) (o + 12) raw) in
      let modifier := unpack_be_signed 4 (slice (o + 12) (o + 16) raw) in
      let fmt := unpack_be_signed 2 (slice (o + 16) (o + 18) raw) in
      guard_st (negb (table =? 0) || negb (attribute =? 0) ||
                negb (bool_decide (assoc oid TYPE_SIZES = Some size)) ||
                negb (modifier =? -1) || negb (fmt =? 0)) RESULT_PROTOCOL;;
      modify (fun s => with_oids (<[index := oid]> (oids s)) s);;
      modify (at_offset (o + COLUMN_BYTES))
  end.

(** [_Parser.description]. *)
Definition description (columns : Z) : parsing unit :=
  stop ← message 84 (6 + 19 * columns);
  s ← get_st;
  guard_st (negb (unpack_be (slice (offset s) (offset s + 2) raw) =? columns)) RESULT_PROTOCOL;;
  modify (at_offset (offset s + 2));;
  iterM_st (describe_column stop) (seq 0 (Z.to_nat columns));;
  exact_end stop.

(** [_Parser.integer]. *)
Definition integer (start stop bits : Z) : parsing unit :=
  let length := stop - start in
  guard_st (negb ((1 <=? length) && (length <=? INTEGER_TEXT_BYTES))) RESULT_PROTOCOL;;
  let negative := byte_at raw start =? 45 in
  let cursor := start + (if negative then 1 else 0) in
  guard_st ((cursor =? stop) ||
            ((byte_at raw cursor =? 48) && (negative || negb (cursor + 1 =? stop)))) RESULT_PROTOCOL;;
  let bound := 2 ^ (bits - 1) - (if negative then 0 else 1) in
  guard_st (negb (integer_digits bound 0 (slice cursor stop raw))) RESULT_PROTOCOL.

(** [_Parser.value]. *)
Definition value (start stop oid : Z) : parsing unit :=
  if bool_decide (oid ∈ TEXT_TYPES) then
    guard_st ((oid =? NAME_OID) && (NAME_VALUE_BYTES <? stop - start)) RESULT_LIMIT;;
    text start stop
  else match assoc oid INTEGER_BITS with
  | Some bits => integer start stop bits
  | None =>
      guard_st (negb (stop - start =? 1) ||
                negb ((byte_at raw start =? 116) || (byte_at raw start =? 102))) RESULT_PROTOCOL
  end.

(** One cell of [_Parser.data_rows]. *)
Definition data_cell (stop : Z) (index : nat) : parsing unit :=
  tick;;
  s ← get_st;
  guard_st (stop <? offset s + 4) RESULT_PROTOCOL;;
  let length := unpack_be_signed 4 (slice (offset s) (offset s + 4) raw) in
  modify (at_offset (offset s + 4));;
  if length =? -1 then mret tt else
  let o := offset s + 4 in
  guard_st ((length <? 0) || (stop <? o + length)) RESULT_PROTOCOL;;
  guard_st (max_cell_bytes limits <? length) RESULT_LIMIT;;
  value o (o + length) (default 0 (oids s !! index));;
  modify (at_offset (o + length)).

(** One row of [_Parser.data_rows]. *)
Definition data_row (columns : Z) : parsing unit :=
  stop ← message 68 (6 + 4 * columns);
  s ← get_st;
  guard_st (negb (unpack_be (slice (offset s) (offset s + 2) raw) =? columns)) RESULT_PROTOCOL;;
  modify (at_offset (offset s + 2));;
  iterM_st (data_cell stop) (seq 0 (Z.to_nat columns));;
  exact_end stop.

(** [_Parser.data_rows]. *)
Definition data_rows (columns rows command_size : Z) : parsing unit :=
  s ← get_st;
  guard_st (blen raw - offset s <? rows * (7 + 4 * columns) + command_size) RESULT_PROTOCOL;;
  iterM_st (fun _ => data_row columns) (seq 0 (Z.to_nat rows)).

(** The closing message of [_Parser.run]. *)
Definition completion (rows : Z) : parsing unit :=
  stop ← message 67 (4 + blen (command rows));
  s ← get_st;
  guard_st (negb (stop - offset s =? blen (command rows)) ||
            negb (bool_decide (slice (offset s) stop raw = command rows))) RESULT_PROTOCOL;;
  modify (at_offset stop);;
  exact_end (blen raw).
End parser.

(** ** The validated result *)

Record ValidatedResult := {
  wire : list byte;
  v_columns : Z;
  v_rows : Z;
  v_truncated : bool;
}.

(** [_Parser.run]. *)
Definition run_parser (raw : list byte) (limits : ResultLimits) (deadline : ResultDeadline)
    (header : ResultHeader) : parsing ValidatedResult :=
  description raw limits deadline (h_columns header);;
  data_rows raw limits deadline (h_columns header) (h_rows header)
    (5 + blen (command (h_rows header)));;
  completion raw deadline (h_rows header);;
  check_deadline deadline;;
  mret {| wire := raw; v_columns := h_columns header; v_rows := h_rows header;
          v_truncated := h_truncated header |}.

(** [_Parser.__init__], after [reads] readings of the clock. *)
Definition new_parser (reads : nat) : parser :=
  {| offset := HEADER_BYTES; work := 0; oids := replicate (Z.to_nat MAX_COLUMNS) 0;
     reads := reads |}.

(** [validate_result], with the clock read [start] times before the call, and
    the number of readings after it. *)
Definition validate_result (raw : list byte) (expected : ResultIdentity) (limits : ResultLimits)
    (deadline : ResultDeadline) (start : nat) : res ResultErrorCategory ValidatedResult * nat :=
  if negb ((HEADER_BYTES <=? blen raw) && (blen raw <=? max_frame_bytes limits))
  then (Err RESULT_LIMIT, start)
  else let '(answer, s) :=
    (check_deadline deadline;;
     header ← lift_res (inspect_result_header (slice 0 HEADER_BYTES raw) expected limits);
     guard_st (negb (frame_bytes header =? blen raw)) RESULT_PROTOCOL;;
     run_parser raw limits deadline header) (new_parser start) in
  (answer, reads s).

(** [ValidatedResult.iter_chunks]: the chunks yielded, and how it ended. *)
Fixpoint chunks_from (r : ValidatedResult) (deadline : ResultDeadline) (chunk_bytes : Z)
    (reads : nat) (offsets : list Z) : list (list byte) * res ResultErrorCategory unit :=
  match offsets with
  | [] => ([], if remaining deadline reads <=? 0 then Err RESULT_DEADLINE else Ok tt)
  | o :: offsets =>
      if remaining deadline reads <=? 0 then ([], Err RESULT_DEADLINE)
      else let '(chunks, answer) := chunks_from r deadline chunk_bytes (Datatypes.S reads) offsets in
           (slice o (Z.min (o + chunk_bytes) (blen (wire r))) (wire r) :: chunks, answer)
  end.

Definition iter_chunks (r : ValidatedResult) (deadline : ResultDeadline) (chunk_bytes : Z)
    (reads : nat) : list (list byte) * res ResultErrorCategory unit :=
  if negb (positive_in chunk_bytes MAX_CHUNK 1) then ([], Err RESULT_LIMIT)
  else chunks_from r deadline chunk_bytes reads (py_range HEADER_BYTES (blen (wire r)) chunk_bytes).

(** ** The grammar of a frame, by its printer *)

Record wire_column := {
  wire_name : list byte;
  wire_oid : Z;
}.

(** A cell: [None] for NULL, or the bytes of its text. *)
Abbreviation wire_cell := (option (list byte)).

Definition type_size (oid : Z) : Z := default 0 (assoc oid TYPE_SIZES).

Definition print_message (tag : Z) (body : list byte) : list byte :=
  z2b tag :: pack_be 4 (4 + blen body) ++ body.

Definition print_column (c : wire_column) : list byte :=
  wire_name c ++ [z2b 0] ++ pack_be 4 0 ++ pack_be 2 0 ++ pack_be 4 (wire_oid c) ++
  pack_be 2 (type_size (wire_oid c)) ++ pack_be 4 (-1) ++ pack_be 2 0.

Definition print_cell (c : wire_cell) : list byte :=
  match c with
  | None => pack_be 4 (-1)
  | Some v => pack_be 4 (blen v) ++ v
  end.

Definition print_description (columns : list wire_column) : list byte :=
  print_message 84 (pack_be 2 (Z.of_nat (length columns)) ++ concat (map print_column columns)).

Definition print_row (row : list wire_cell) : list byte :=
  print_message 68 (pack_be 2 (Z.of_nat (length row)) ++ concat (map print_cell row)).

Definition print_body (columns : list wire_column) (rows : list (list wire_cell)) : list byte :=
  print_description columns ++ concat (map print_row rows) ++
  print_message 67 (command (Z.of_nat (length rows))).

Definition print_header (i : ResultIdentity) (truncated : bool) (columns rows body : Z) : list byte :=
  ascii_lit "MGWR" ++ pack_be 1 1 ++ pack_be 1 (if truncated then 1 else 0) ++ pack_be 2 0 ++
  session_id i ++ datasource_id i ++ pack_be 8 (generation i) ++ pack_be 8 (record_revision i) ++
  pack_be 8 (job_id i) ++ pack_be 4 columns ++ pack_be 4 rows ++ pack_be 4 body.

Definition print_frame (i : ResultIdentity) (truncated : bool) (columns : list wire_column)
    (rows : list (list wire_cell)) : list byte :=
  print_header i truncated (Z.of_nat (length columns)) (Z.of_nat (length rows))
    (blen (print_body columns rows)) ++ print_body columns rows.

(** Text is valid UTF-8 with no NUL. *)
Definition valid_text (bs : list byte) : bool := negb (has_zero bs) && short_utf8 bs.

(** The text of a cell, by the type of its column. *)
Definition valid_value (oid : Z) (v : list byte) : Prop :=
  if bool_decide (oid ∈ TEXT_TYPES) then
    valid_text v = true /\ (oid = NAME_OID -> blen v <= NAME_VALUE_BYTES)
  else match assoc oid INTEGER_BITS with
  | Some bits => exists n, - 2 ^ (bits - 1) <= n < 2 ^ (bits - 1) /\ v = ascii_encode (str_int n)
  | None => v = ascii_lit "t" \/ v = ascii_lit "f"
  end.

Definition valid_column (limits : ResultLimits) (c : wire_column) : Prop :=
  valid_text (wire_name c) = true /\ blen (wire_name c) <= max_name_bytes limits /\
  is_Some (assoc (wire_oid c) TYPE_SIZES).

Definition valid_cell (limits : ResultLimits) (c : wire_column) (v : wire_cell) : Prop :=
  forall bs, v = Some bs -> valid_value (wire_oid c) bs /\ blen bs <= max_cell_bytes limits.

(** A result a frame may carry under the limits. *)
Definition valid_result (i : ResultIdentity) (limits : ResultLimits) (truncated : bool)
    (columns : list wire_column) (rows : list (list wire_cell)) : Prop :=
  1 <= Z.of_nat (length columns) <= max_columns limits /\
  Z.of_nat (length rows) <= max_rows limits /\
  (truncated = true -> Z.of_nat (length rows) = max_rows limits) /\
  Forall (valid_column limits) columns /\
  Forall (Forall2 (valid_cell limits) columns) rows /\
  blen (print_frame i truncated columns rows) <= max_frame_bytes limits.

(** ** Leaves of the parser

    A rule per routine, for both directions: from an acceptance condition, or
    an exit condition [E] that always holds, to what a normal return knows. *)

(** The deadline never expires. *)
Definition live (d : ResultDeadline) : Prop := forall n, 0 < remaining d n.

(** Only the clock and the work counter moved. *)
Definition same (s s' : parser) : Prop := offset s' = offset s /\ oids s' = oids s.

Lemma same_trans s1 s2 s3 : same s1 s2 -> same s2 s3 -> same s1 s3.
Proof. unfold same. intuition congruence. Qed.

Lemma has_zero_app a b : has_zero (a ++ b) = has_zero a || has_zero b.
Proof. apply existsb_app. Qed.

Lemma has_zero_false bs : has_zero bs = false <-> forall b, b ∈ bs -> b2z b <> 0.
Proof.
  unfold has_zero. rewrite <- not_true_iff_false, existsb_exists. split.
  - intros H b Hb E. apply H. exists b. rewrite <- list_elem_of_In, Z.eqb_eq. auto.
  - intros H (b & Hb & E). rewrite <- list_elem_of_In in Hb. rewrite Z.eqb_eq in E. eapply H; eauto.
Qed.

Lemma ascii_feed bs : bytes_is_ascii bs = true ->
  exists t, utf8_feed utf8_start bs = Some (utf8_start, t).
Proof.
  induction bs as [|b bs IH]; intros H; [exists []; reflexivity|].
  cbn in H. apply andb_true_iff in H as [Hb H]. destruct (IH H) as [t Ht].
  exists (b2z b :: t). rewrite utf8_feed_cons. unfold utf8_step. cbn [due utf8_start].
  rewrite Hb, Ht. reflexivity.
Qed.

Lemma ascii_short_utf8 bs : bytes_is_ascii bs = true -> short_utf8 bs = true.
Proof.
  intros H. destruct (ascii_feed bs H) as [t E]. unfold short_utf8, utf8_decode. rewrite E. reflexivity.
Qed.

Lemma short_utf8_byte b : short_utf8 [b] = (b2z b <? 128).
Proof.
  unfold short_utf8, utf8_decode. rewrite utf8_feed_cons. unfold utf8_step. cbn [due utf8_start].
  pose proof (b2z_range b).
  repeat (case_match; try reflexivity; simplify_eq; cbn in *; try lia; try discriminate).
Qed.

Section rules.
Context (raw : list byte) (deadline : ResultDeadline) (E : parser -> Prop).
Context (HE : live deadline \/ forall s, E s).

Lemma wp_modify (f : parser -> parser) (Q : unit -> parser -> Prop) s :
  Q tt (f s) -> wp E (modify f) Q s.
Proof. exact id. Qed.

Lemma wp_refuse (b : bool) e (Q : unit -> parser -> Prop) s :
  (b = false \/ E s) -> (b = false -> Q tt s) -> wp E (guard_st b e : parsing unit) Q s.
Proof. intros [->|H] HQ; [apply HQ; reflexivity|apply wp_guard; [exact H|exact HQ]]. Qed.

Lemma wp_check (Q : unit -> parser -> Prop) s :
  (forall s', same s s' -> Q tt s') -> wp E (check_deadline deadline) Q s.
Proof.
  intros HQ. unfold wp, check_deadline. destruct (Z.leb_spec (remaining deadline (reads s)) 0) as [L|L].
  - destruct HE as [Hl|He]; [specialize (Hl (reads s)); lia|apply He].
  - apply HQ. split; reflexivity.
Qed.

Lemma wp_tick (Q : unit -> parser -> Prop) s :
  (forall s', same s s' -> Q tt s') -> wp E (tick deadline) Q s.
Proof.
  intros HQ. unfold tick. apply wp_bind, wp_modify, wp_bind, wp_get. case_match.
  - apply wp_bind, wp_check. intros s' [H1 H2]. apply wp_modify, HQ. split; [exact H1|exact H2].
  - apply wp_ret, HQ. split; reflexivity.
Qed.

Lemma wp_exact_end stop (Q : unit -> parser -> Prop) s :
  (offset s = stop \/ E s) -> (offset s = stop -> Q tt s) -> wp E (exact_end stop) Q s.
Proof.
  intros H HQ. unfold exact_end. apply wp_bind, wp_get, wp_refuse.
  - destruct H as [->|H]; [left; rewrite Z.eqb_refl; reflexivity|auto].
  - intros B. apply HQ. apply negb_false_iff, Z.eqb_eq in B. exact B.
Qed.

(** The decoder accepts the rest of a text, from its state on. *)
Definition feeds (d : utf8_state) (bs : list byte) : Prop :=
  has_zero bs = false /\ exists d' t, utf8_feed d bs = Some (d', t) /\ due d' = O.

Lemma wp_text_blocks n d o stop (Q : unit -> parser -> Prop) s :
  0 <= o <= stop -> stop <= blen raw -> stop <= o + TEXT_BLOCK * Z.of_nat n ->
  o + TEXT_BLOCK * (Z.of_nat n - 1) < stop ->
  (feeds d (slice o stop raw) \/ forall s, E s) ->
  (forall s', same s s' -> feeds d (slice o stop raw) -> Q tt s') ->
  (o = stop -> due d = O) ->
  wp E (text_blocks raw deadline d stop (map (fun k => o + TEXT_BLOCK * Z.of_nat k) (seq 0 n))) Q s.
Proof.
  revert d o s; induction n as [|n IH]; intros d o s Ho Hs Hn Hl HA HQ Hd.
  { assert (o = stop) as -> by lia. cbn [seq map text_blocks]. apply wp_ret, HQ; [split; reflexivity|].
    rewrite slice_empty. split; [reflexivity|]. exists d, []. auto. }
  cbn [seq map text_blocks]. replace (o + TEXT_BLOCK * Z.of_nat 0) with o by lia.
  apply wp_bind, wp_check. intros s1 S1. set (e := Z.min (o + TEXT_BLOCK) stop).
  assert (T0 : TEXT_BLOCK = 4096) by reflexivity.
  assert (Hsp : slice o stop raw = slice o e raw ++ slice e stop raw) by (apply slice_split; lia).
  assert (F : feeds d (slice o stop raw) <->
              has_zero (slice o e raw) = false /\ exists d1 t, utf8_feed d (slice o e raw) = Some (d1, t) /\
                feeds d1 (slice e stop raw)).
  { unfold feeds. rewrite Hsp, has_zero_app, orb_false_iff, utf8_feed_app.
    destruct (utf8_feed d (slice o e raw)) as [[d1 t]|]; split.
    - intros ([Z1 Z2] & d' & t' & H & D). destruct (utf8_feed d1 _) as [[d2 t2]|] eqn:F2; [|discriminate].
      injection H as <- <-. split; [exact Z1|]. exists d1, t. split; [reflexivity|]. split; [exact Z2|]. eauto.
    - intros (Z1 & d1' & t' & [= <- <-] & Z2 & d2 & t2 & F2 & D). rewrite F2. split; [auto|]. eauto.
    - intros (_ & ? & ? & [=] & _).
    - intros (_ & ? & ? & [=] & _). }
  unfold decode_block. destruct (utf8_feed d (slice o e raw)) as [[d1 t]|] eqn:Hf.
  2:{ destruct HA as [HA|HA]; [|apply wp_raise, HA].
      apply F in HA as (_ & ? & ? & [=] & _). }
  assert (Fe : e = stop -> feeds d1 (slice e stop raw) -> due d1 = O).
  { intros Ee [_ (d' & t' & H & D)]. rewrite <- Ee, slice_empty in H. injection H as <- <-. exact D. }
  destruct ((e =? stop) && negb (due d1 =? 0)%nat) eqn:B.
  { apply andb_true_iff in B as [B1 B2]. apply Z.eqb_eq in B1. apply negb_true_iff, Nat.eqb_neq in B2.
    destruct HA as [HA|HA]; [|apply wp_raise, HA].
    apply F in HA as (_ & ? & ? & [= <- <-] & HA). destruct B2. auto. }
  apply wp_bind, wp_refuse.
  { destruct HA as [HA|HA]; [left; apply F in HA; tauto|right; apply HA]. }
  intros Hz.
  assert (Hd1 : e = stop -> due d1 = O).
  { intros ->. rewrite Z.eqb_refl in B. cbn in B. apply negb_false_iff, Nat.eqb_eq in B. exact B. }
  assert (HA1 : feeds d1 (slice e stop raw) \/ (forall s, E s)).
  { destruct HA as [HA|HA]; [left|right; exact HA]. apply F in HA as (_ & ? & ? & [= <- <-] & HA). exact HA. }
  assert (HQ1 : forall s', same s1 s' -> feeds d1 (slice e stop raw) -> Q tt s').
  { intros s2 S2 F2. apply HQ; [eapply same_trans; eassumption|]. apply F. split; [exact Hz|]. eauto. }
  rewrite <- seq_shift, map_map.
  destruct (Z.eq_dec e stop) as [Ee|Ee].
  - assert (n = O) as -> by lia. cbn [seq map text_blocks]. apply wp_ret, HQ1; [split; reflexivity|].
    rewrite Ee, slice_empty. split; [reflexivity|]. exists d1, []. auto.
  - assert (Eo : e = o + TEXT_BLOCK) by lia.
    rewrite (map_ext _ (fun k => e + TEXT_BLOCK * Z.of_nat k)) by (intros; lia).
    apply IH; try assumption; lia.
Qed.

Lemma wp_text start stop (Q : unit -> parser -> Prop) s :
  0 <= start <= stop -> stop <= blen raw ->
  (valid_text (slice start stop raw) = true \/ forall s, E s) ->
  (forall s', same s s' -> valid_text (slice start stop raw) = true -> Q tt s') ->
  wp E (text raw deadline start stop) Q s.
Proof.
  intros Ho Hs HA HQ. unfold text.
  assert (V : forall P, (P \/ forall s, E s) -> P \/ E s) by (intros P [?|?]; auto).
  destruct (Z.eqb_spec start stop) as [->|N0].
  { apply wp_ret, HQ; [split; reflexivity|]. rewrite slice_empty. reflexivity. }
  destruct (Z.eqb_spec (stop - start) 1) as [L1|N1].
  { assert (Es : slice start stop raw = [z2b (byte_at raw start)])
      by (replace stop with (start + 1) by lia; apply byte_at_slice; lia).
    assert (Hb : 0 <= byte_at raw start < 256).
    { unfold byte_at. destruct (lookup_lt_is_Some_2 raw (Z.to_nat start)) as [b Hb];
        [unfold blen in Hs; lia|]. rewrite Hb. apply b2z_range. }
    assert (Ev : valid_text (slice start stop raw) = (0 <? byte_at raw start) && (byte_at raw start <? 128)).
    { rewrite Es. unfold valid_text, has_zero. cbn [existsb]. rewrite short_utf8_byte, b2z_z2b_small by lia.
      rewrite orb_false_r. f_equal. destruct (Z.eqb_spec (byte_at raw start) 0), (Z.ltb_spec 0 (byte_at raw start));
        cbn; (reflexivity || lia). }
    rewrite Ev in HA. rewrite Ev in HQ. apply wp_refuse.
    - apply V. destruct HA as [->|?]; auto.
    - intros B. apply negb_false_iff in B. apply HQ; [split; reflexivity|exact B]. }
  destruct (Z.leb_spec (stop - start) TEXT_BLOCK) as [L2|N2].
  { assert (Ev : valid_text (slice start stop raw) =
      negb (has_zero (slice start stop raw) ||
        (negb (bytes_is_ascii (slice start stop raw)) && negb (short_utf8 (slice start stop raw))))).
    { unfold valid_text. rewrite negb_orb, negb_andb, !negb_involutive. f_equal.
      destruct (bytes_is_ascii _) eqn:A; [|reflexivity]. rewrite (ascii_short_utf8 _ A). reflexivity. }
    rewrite Ev in HA. rewrite Ev in HQ. cbv zeta. apply wp_refuse.
    - apply V. rewrite negb_true_iff in HA. exact HA.
    - intros B. apply HQ; [split; reflexivity|]. rewrite B. reflexivity. }
  assert (Ev : valid_text (slice start stop raw) = true <-> feeds utf8_start (slice start stop raw)).
  { unfold valid_text, feeds, short_utf8, utf8_decode. rewrite andb_true_iff, negb_true_iff.
    destruct (utf8_feed _ _) as [[d t]|]; split.
    - intros [H1 H2]. split; [exact H1|]. exists d, t. split; [reflexivity|].
      destruct (Nat.eqb_spec (due d) 0); [assumption|discriminate].
    - intros (H1 & ? & ? & [= <- <-] & ->). auto.
    - intros [_ [=]].
    - intros (_ & ? & ? & [=] & _). }
  rewrite Ev in HA. unfold py_range. assert (T0 : TEXT_BLOCK = 4096) by reflexivity.
  pose proof (Z.div_mod (stop - start + TEXT_BLOCK - 1) TEXT_BLOCK ltac:(lia)).
  pose proof (Z.mod_pos_bound (stop - start + TEXT_BLOCK - 1) TEXT_BLOCK ltac:(lia)).
  apply wp_text_blocks; try lia; try assumption.
  intros s' S' F. apply HQ; [exact S'|]. apply Ev. exact F.
Qed.
End rules.

(** ** Integers *)

Lemma ascii_digits ds : Forall digit_char ds -> map b2z (ascii_encode ds) = ds.
Proof.
  induction 1 as [|d ds Hd _ IH]; [reflexivity|]. unfold digit_char in Hd.
  cbn [ascii_encode map]. rewrite b2z_z2b_small by lia. f_equal. exact IH.
Qed.

Lemma encode_bytes bs : ascii_encode (map b2z bs) = bs.
Proof. induction bs as [|b bs IH]; cbn; [reflexivity|]. rewrite z2b_b2z. f_equal. exact IH. Qed.

Lemma integer_digits_spec bound v ds :
  0 <= v <= bound ->
  integer_digits bound v ds = true <->
  Forall digit_char (map b2z ds) /\ dec_value v (map b2z ds) <= bound.
Proof.
  revert v; induction ds as [|b ds IH]; intros v Hv; cbn [integer_digits map dec_value].
  { split; [intros _; split; [constructor|lia]|reflexivity]. }
  cbv zeta. rewrite Forall_cons. unfold digit_char at 1.
  destruct (Z.leb_spec 0 (b2z b - 48)), (Z.leb_spec (b2z b - 48) 9); cbn [andb negb orb];
    try (split; [discriminate|intros [[]]; lia]).
  pose proof (Z.div_mod (bound - (b2z b - 48)) 10 ltac:(lia)).
  pose proof (Z.mod_pos_bound (bound - (b2z b - 48)) 10 ltac:(lia)).
  destruct (Z.ltb_spec ((bound - (b2z b - 48)) / 10) v).
  - split; [discriminate|]. intros [[_ Hf] Hd].
    pose proof (dec_value_nonneg (v * 10 + (b2z b - 48)) _ ltac:(lia) Hf). lia.
  - rewrite IH by lia. intuition lia.
Qed.

(** What [_Parser.integer] tests, on the bytes alone. *)
Definition int_shape (bits : Z) (piece : list byte) : bool :=
  match piece with
  | [] => false
  | b :: rest =>
      let negative := b2z b =? 45 in
      let digits := if negative then rest else piece in
      (blen piece <=? INTEGER_TEXT_BYTES) &&
      negb match digits with
           | [] => true
           | d :: r => (b2z d =? 48) && (negative || negb (bool_decide (r = [])))
           end &&
      integer_digits (2 ^ (bits - 1) - (if negative then 0 else 1)) 0 digits
  end.

Lemma int_shape_spec bits piece :
  1 <= bits <= 64 ->
  int_shape bits piece = true <->
  exists n, - 2 ^ (bits - 1) <= n < 2 ^ (bits - 1) /\ piece = ascii_encode (str_int n).
Proof.
  intros Hbits. assert (0 < 2 ^ (bits - 1)) as Hp by (apply Z.pow_pos_nonneg; lia).
  assert (2 ^ (bits - 1) <= 2 ^ 63) as Hm by (apply Z.pow_le_mono_r; lia).
  change (2 ^ 63) with 9223372036854775808 in Hm. split.
  - destruct piece as [|b rest]; [discriminate|]. cbn [int_shape]. cbv zeta. intros H.
    apply andb_true_iff in H as [H Hd]. apply andb_true_iff in H as [Hl Hz].
    apply negb_true_iff in Hz. destruct (Z.eqb_spec (b2z b) 45) as [Hb|Hb].
    + destruct rest as [|d r]; [discriminate|]. rewrite orb_true_l, andb_true_r in Hz.
      apply integer_digits_spec in Hd as [Hd1 Hd2]; [|lia].
      assert (N : no_leading_zero (map b2z (d :: r))).
      { right. exists (b2z d), (map b2z r). apply Z.eqb_neq in Hz. auto. }
      pose proof (str_int_of_digits _ Hd1 N) as Es.
      set (n := dec_value 0 (map b2z (d :: r))) in *.
      assert (0 < n).
      { pose proof (dec_value_nonneg 0 _ ltac:(lia) Hd1) as H0. fold n in H0.
        destruct (Z.eq_dec n 0) as [En|]; [|lia]. rewrite En in Es. injection Es as Es _.
        apply Z.eqb_neq in Hz. lia. }
      exists (- n). split; [lia|]. rewrite str_int_neg, Z.opp_involutive, Es by lia.
      change (b :: d :: r = z2b 45 :: ascii_encode (map b2z (d :: r))). rewrite encode_bytes.
      rewrite <- Hb, z2b_b2z. reflexivity.
    + apply integer_digits_spec in Hd as [Hd1 Hd2]; [|lia].
      assert (N : no_leading_zero (map b2z (b :: rest))).
      { destruct (Z.eqb_spec (b2z b) 48) as [E0|E0].
        - cbn in Hz. apply negb_false_iff, bool_decide_eq_true in Hz. subst. left. cbn. congruence.
        - right. exists (b2z b), (map b2z rest). auto. }
      exists (dec_value 0 (map b2z (b :: rest))).
      split; [pose proof (dec_value_nonneg 0 _ ltac:(lia) Hd1); lia|].
      rewrite str_int_of_digits, encode_bytes by assumption. reflexivity.
  - intros (n & Hn & ->). destruct (Z.ltb_spec n 0) as [Neg|Pos].
    + rewrite str_int_neg by lia. destruct (str_int_positive (- n)) as (d & r & Es & Nd & Dd); [lia|].
      destruct (str_int_nonneg (- n)) as (D & V & _); [lia|].
      destruct (str_int_length (- n) 19) as [_ L]; [cbn; lia|lia|].
      unfold int_shape. cbn [ascii_encode map]. rewrite b2z_z2b_small by lia. rewrite Z.eqb_refl. cbv zeta.
      rewrite !andb_true_iff. split; [split|].
      * apply Z.leb_le. unfold blen. rewrite Es in L |- *. cbn [length map] in *. rewrite length_map.
        unfold INTEGER_TEXT_BYTES. lia.
      * rewrite Es. cbn [map]. unfold digit_char in Dd. rewrite b2z_z2b_small by lia.
        apply Z.eqb_neq in Nd. rewrite Nd. reflexivity.
      * apply integer_digits_spec; [lia|]. fold (ascii_encode (str_int (- n))).
        rewrite ascii_digits by exact D. split; [exact D|]. rewrite V. lia.
    + destruct (str_int_nonneg n) as (D & V & N); [lia|].
      destruct (str_int_length n 19) as [L0 L]; [cbn; lia|lia|].
      destruct (str_int n) as [|d r] eqn:Es; [cbn in L0; lia|].
      assert (Dd : digit_char d) by (inversion D; assumption). unfold digit_char in Dd.
      unfold int_shape. cbn [ascii_encode map]. rewrite b2z_z2b_small by lia.
      destruct (Z.eqb_spec d 45); [lia|]. cbv zeta. rewrite !andb_true_iff. split; [split|].
      * apply Z.leb_le. unfold blen. cbn [length] in *. rewrite length_map. unfold INTEGER_TEXT_BYTES. lia.
      * apply negb_true_iff. destruct N as [[= -> ->]|(d' & r' & [= <- <-] & N)]; [reflexivity|].
        rewrite b2z_z2b_small by lia. apply Z.eqb_neq in N. rewrite N. reflexivity.
      * apply integer_digits_spec; [lia|].
        change (z2b d :: map z2b r) with (ascii_encode (d :: r)).
        rewrite ascii_digits by exact D. split; [exact D|]. rewrite V. lia.
Qed.

Section rules.
Context (raw : list byte) (deadline : ResultDeadline) (E : parser -> Prop).
Context (HE : live deadline \/ forall s, E s).

Lemma wp_integer start stop bits (Q : unit -> parser -> Prop) s :
  0 <= start <= stop -> stop <= blen raw ->
  (int_shape bits (slice start stop raw) = true \/ forall s, E s) ->
  (int_shape bits (slice start stop raw) = true -> Q tt s) ->
  wp E (integer raw start stop bits) Q s.
Proof.
  intros Hs Hl HA HQ. unfold integer.
  assert (Lp : blen (slice start stop raw) = stop - start) by (apply blen_slice; lia).
  pose proof (placed_slice raw start stop Hs Hl) as P.
  apply wp_bind, wp_refuse.
  { destruct HA as [HA|HA]; [left|right; apply HA]. unfold int_shape in HA.
    destruct (slice start stop raw) as [|b rest] eqn:Es; [discriminate|].
    rewrite !andb_true_iff in HA. destruct HA as [[HA _] _]. apply Z.leb_le in HA.
    unfold blen in Lp. cbn [length] in Lp. rewrite negb_false_iff, andb_true_iff, !Z.leb_le.
    unfold blen in HA. cbn [length] in HA. lia. }
  intros B. apply negb_false_iff, andb_true_iff in B as [B1 B2]. apply Z.leb_le in B1.
  destruct (slice start stop raw) as [|b rest] eqn:Es; [unfold blen in Lp; cbn in Lp; lia|].
  rewrite (placed_byte raw start b rest P).
  assert (P1 : placed raw (start + 1) rest) by (apply (placed_app raw start [b] rest), P).
  assert (Er : slice (start + 1) stop raw = rest).
  { apply placed_get; [exact P1|]. unfold blen in *. cbn [length] in Lp. lia. }
  assert (Lr : blen rest = stop - start - 1) by (unfold blen in *; cbn [length] in Lp; lia).
  set (negative := b2z b =? 45) in *.
  set (digits := if negative then rest else b :: rest).
  set (cursor := start + (if negative then 1 else 0)).
  assert (Ed : slice cursor stop raw = digits).
  { unfold cursor, digits. destruct negative; [exact Er|]. rewrite Z.add_0_r. exact Es. }
  assert (Eg : ((cursor =? stop) || ((byte_at raw cursor =? 48) && (negative || negb (cursor + 1 =? stop)))) =
               match digits with
               | [] => true
               | d :: r => (b2z d =? 48) && (negative || negb (bool_decide (r = [])))
               end).
  { unfold cursor, digits. destruct negative.
    - destruct rest as [|d r].
      + change (blen []) with 0 in Lr. destruct (Z.eqb_spec (start + 1) stop); [reflexivity|lia].
      + rewrite (placed_byte raw (start + 1) d r P1). unfold blen in Lr. cbn [length] in Lr.
        destruct (Z.eqb_spec (start + 1) stop); [lia|reflexivity].
    - rewrite Z.add_0_r, (placed_byte raw start b rest P). destruct (Z.eqb_spec start stop); [lia|].
      cbn [orb]. f_equal. f_equal. apply eq_true_iff_eq. rewrite Z.eqb_eq, bool_decide_eq_true.
      destruct rest; unfold blen in Lr; cbn [length] in Lr; split; intros H; (lia || reflexivity || discriminate H). }
  cbv zeta. fold cursor. rewrite Eg, Ed.
  assert (Ei : int_shape bits (b :: rest) =
    negb match digits with
         | [] => true
         | d :: r => (b2z d =? 48) && (negative || negb (bool_decide (r = [])))
         end && integer_digits (2 ^ (bits - 1) - (if negative then 0 else 1)) 0 digits).
  { unfold int_shape. fold negative. cbv zeta. fold digits.
    replace (blen (b :: rest) <=? INTEGER_TEXT_BYTES) with true; [reflexivity|].
    symmetry. rewrite Lp. exact B2. }
  rewrite Ei, andb_true_iff in HA. rewrite Ei, andb_true_iff in HQ.
  apply wp_bind, wp_refuse.
  { destruct HA as [[HA _]|HA]; [left; apply negb_true_iff in HA; exact HA|right; apply HA]. }
  intros B3. apply wp_refuse.
  { destruct HA as [[_ HA]|HA]; [left; rewrite HA; reflexivity|right; apply HA]. }
  intros B4. apply HQ. split; [rewrite B3; reflexivity|]. apply negb_false_iff in B4. exact B4.
Qed.

Lemma assoc_bits oid bits : assoc oid INTEGER_BITS = Some bits -> 1 <= bits <= 64.
Proof.
  unfold assoc, INTEGER_BITS. cbn [find fst snd].
  repeat case_match; cbn; intros [= <-]; lia || discriminate.
Qed.

Lemma wp_value start stop oid (Q : unit -> parser -> Prop) s :
  0 <= start <= stop -> stop <= blen raw ->
  (valid_value oid (slice start stop raw) \/ forall s, E s) ->
  (forall s', same s s' -> valid_value oid (slice start stop raw) -> Q tt s') ->
  wp E (value raw deadline start stop oid) Q s.
Proof.
  intros Hs Hl HA HQ. unfold value, valid_value in *.
  assert (Lp : blen (slice start stop raw) = stop - start) by (apply blen_slice; lia).
  assert (V : forall P s, (P \/ forall s, E s) -> P \/ E s) by (intros P s' [?|?]; auto).
  case_match.
  { apply wp_bind, wp_refuse.
    - destruct HA as [[_ HA]|HA]; [left|right; apply HA].
      apply andb_false_iff. destruct (Z.eqb_spec oid NAME_OID) as [Eo|]; [right|left; reflexivity].
      specialize (HA Eo). apply Z.ltb_ge. lia.
    - intros B. apply wp_text; try assumption; [intuition|]. intros s' S' T. apply HQ; [exact S'|].
      split; [exact T|]. intros ->. rewrite Z.eqb_refl in B. cbn in B. apply Z.ltb_ge in B. lia. }
  destruct (assoc oid INTEGER_BITS) as [bits|] eqn:Ea.
  { apply assoc_bits in Ea. rewrite <- (int_shape_spec _ _ Ea) in HA.
    apply wp_integer; try assumption. intros I. apply HQ; [split; reflexivity|].
    apply int_shape_spec; assumption. }
  destruct (Z.eqb_spec (stop - start) 1) as [L1|N1].
  - assert (Es : slice start stop raw = [z2b (byte_at raw start)])
      by (replace stop with (start + 1) by lia; apply byte_at_slice; lia).
    assert (Hb : b2z (z2b (byte_at raw start)) = byte_at raw start).
    { apply b2z_z2b_small. unfold byte_at.
      destruct (lookup_lt_is_Some_2 raw (Z.to_nat start)) as [b Hb]; [unfold blen in Hl; lia|].
      rewrite Hb. apply b2z_range. }
    rewrite Es in HA, HQ. apply wp_refuse.
    + destruct HA as [HA|HA]; [left|right; apply HA]. destruct HA as [HA|HA]; injection HA as HA;
        rewrite <- Hb, HA; reflexivity.
    + intros B. cbn [negb orb] in B. apply negb_false_iff, orb_true_iff in B. apply HQ; [split; reflexivity|].
      rewrite !Z.eqb_eq in B. destruct B as [-> | ->]; [left|right]; reflexivity.
  - apply wp_refuse.
    + destruct HA as [HA|HA]; [|right; apply HA]. exfalso.
      destruct HA as [HA|HA]; rewrite HA in Lp; change (blen _) with 1 in Lp; lia.
    + cbn [negb orb]. discriminate.
Qed.
End rules.

(** ** What an accepted frame is made of *)

Lemma placed_eq raw o o' bs : placed raw o bs -> o = o' -> placed raw o' bs.
Proof. intros H <-. exact H. Qed.

Lemma placed_at raw o b : 0 <= o < blen raw -> byte_at raw o = b -> placed raw o [z2b b].
Proof.
  intros H <-. rewrite <- byte_at_slice by exact H. apply placed_slice; lia.
Qed.

Lemma assoc_sizes oid size :
  assoc oid TYPE_SIZES = Some size -> 0 <= oid < 65536 /\ -1 <= size < 128.
Proof.
  unfold assoc, TYPE_SIZES. cbn [find fst snd].
  repeat (case_match; [cbn; intros [= <-]; lia|]). discriminate.
Qed.

Lemma type_size_assoc oid size : assoc oid TYPE_SIZES = Some size -> type_size oid = size.
Proof. unfold type_size. intros ->. reflexivity. Qed.

Lemma blen_print_column c : blen (print_column c) = blen (wire_name c) + 19.
Proof. unfold print_column. rewrite !blen_app, !blen_pack_be. change (blen [z2b 0]) with 1. lia. Qed.

Lemma blen_print_message tag body : blen (print_message tag body) = 5 + blen body.
Proof.
  unfold print_message. change (z2b tag :: ?l) with ([z2b tag] ++ l).
  rewrite !blen_app, blen_pack_be. change (blen [z2b tag]) with 1. lia.
Qed.

#[export] Hint Rewrite blen_print_column blen_print_message : bytes.

Section sound.
Context (raw : list byte) (limits : ResultLimits) (deadline : ResultDeadline).

Abbreviation wpS := (wp (fun _ : parser => True)).
Local Definition any : live deadline \/ forall s : parser, True := or_intror (fun _ => I).

(** Run past a guard, keeping its test. *)
Ltac keep H := apply wp_bind, (wp_refuse (fun _ => True)); [right; exact I|intros H; try apply negb_false_iff in H].

Lemma message_sound tag minimum s :
  0 <= offset s -> 4 <= minimum ->
  wpS (message raw deadline tag minimum) (fun stop s' =>
    offset s' = offset s + 5 /\ oids s' = oids s /\
    placed raw (offset s) (z2b tag :: pack_be 4 (stop - offset s - 1)) /\
    offset s' <= stop <= blen raw /\ minimum <= stop - offset s - 1) s.
Proof.
  intros H0 Hm. unfold message. apply wp_bind, (wp_check deadline _ any). intros s1 [S1 S2].
  apply wp_bind, wp_get. rewrite S1. keep B. apply orb_false_iff in B as [B1 B2].
  apply negb_false_iff, Z.eqb_eq in B2. apply Z.ltb_ge in B1. cbv zeta. keep B.
  apply orb_false_iff in B as [B3 B4]. apply Z.ltb_ge in B3, B4.
  apply wp_bind, wp_modify, wp_ret. cbn [at_offset offset oids].
  set (len := unpack_be _) in *. split; [reflexivity|]. split; [exact S2|]. split; [|lia].
  change (z2b tag :: ?l) with ([z2b tag] ++ l). apply placed_app. split.
  - apply placed_at; [lia|exact B2].
  - apply placed_pack; change (blen [z2b tag]) with 1; [lia|lia|].
    replace (offset s + 1 + Z.of_nat 4) with (offset s + 5) by lia. fold len. lia.
Qed.

Lemma describe_column_sound stop index s :
  0 <= offset s <= stop -> stop <= blen raw -> 0 <= max_name_bytes limits ->
  wpS (describe_column raw limits deadline stop index) (fun _ s' => exists c,
    valid_column limits c /\ placed raw (offset s) (print_column c) /\
    offset s' = offset s + blen (print_column c) /\ offset s' <= stop /\
    oids s' = <[index := wire_oid c]> (oids s)) s.
Proof.
  intros Ho Hs Hm. unfold describe_column. apply wp_bind, (wp_tick deadline _ any). intros s1 [S1 S2].
  apply wp_bind, wp_get. rewrite S1. cbv zeta. set (lim := Z.min stop _).
  destruct (find_zero_in raw (offset s) lim) as [j|] eqn:Hf; [|exact I].
  apply find_zero_Some in Hf as (name & rest & Es & Ej & Hz).
  assert (Pn : placed raw (offset s) (name ++ [z2b 0] ++ rest))
    by (cbn [app]; rewrite <- Es; apply placed_slice; lia).
  assert (Ll : blen (slice (offset s) lim raw) = lim - offset s) by (apply blen_slice; lia).
  rewrite Es, blen_app in Ll. change (blen (z2b 0 :: rest)) with (Z.of_nat (1 + length rest)) in Ll.
  apply placed_app in Pn as [Pn Pz]. apply placed_app in Pz as [Pz _].
  pose proof (blen_nonneg name).
  assert (En : slice (offset s) j raw = name) by (apply placed_get; assumption).
  apply wp_bind, (wp_text raw deadline _ any); [lia|lia|right; intros; exact I|]. intros s2 [T1 T2] Vt.
  rewrite En in Vt. apply wp_bind, wp_modify. unfold COLUMN_BYTES. keep B. apply Z.ltb_ge in B.
  keep B'. rewrite !orb_false_iff, !negb_false_iff, !Z.eqb_eq, bool_decide_eq_true in B'.
  destruct B' as [[[[B1 B2] B3] B4] B5].
  apply wp_bind, wp_modify, wp_modify. cbn [at_offset with_oids offset oids].
  set (oid := unpack_be (slice (j + 1 + 6) _ _)) in *.
  exists {| wire_name := name; wire_oid := oid |}. rewrite blen_print_column. cbn [wire_name wire_oid].
  split; [split; [exact Vt|split; [cbn [wire_name]; lia|eexists; exact B3]]|].
  split; [|split; [lia|split; [lia|rewrite T2, S2; reflexivity]]].
  unfold print_column. cbn [wire_name wire_oid]. rewrite (type_size_assoc _ _ B3).
  assert (D : j + 1 = offset s + blen name + 1) by lia.
  rewrite !placed_app, !blen_pack_be. change (blen [z2b 0]) with 1.
  split; [exact Pn|]. split; [exact Pz|].
  repeat match goal with |- _ /\ _ => split end.
  - eapply placed_eq; [apply (placed_pack raw (j + 1) 4 0); [lia|lia|exact B1]|lia].
  - eapply placed_eq; [apply (placed_pack_signed raw (j + 1 + 4) 2 0); [lia|lia|]|lia].
    replace (j + 1 + 4 + Z.of_nat 2) with (j + 1 + 6) by lia. exact B2.
  - eapply placed_eq; [apply (placed_pack raw (j + 1 + 6) 4 oid); [lia|lia|]|lia].
    replace (j + 1 + 6 + Z.of_nat 4) with (j + 1 + 10) by lia. reflexivity.
  - eapply placed_eq; [apply (placed_pack_signed raw (j + 1 + 10) 2); [lia|lia|]|lia].
    replace (j + 1 + 10 + Z.of_nat 2) with (j + 1 + 12) by lia. reflexivity.
  - eapply placed_eq; [apply (placed_pack_signed raw (j + 1 + 12) 4 (-1)); [lia|lia|]|lia].
    replace (j + 1 + 12 + Z.of_nat 4) with (j + 1 + 16) by lia. exact B4.
  - eapply placed_eq; [apply (placed_pack_signed raw (j + 1 + 16) 2 0); [lia|lia|]|lia].
    replace (j + 1 + 16 + Z.of_nat 2) with (j + 1 + 18) by lia. exact B5.
Qed.

Lemma data_cell_sound stop index oid s :
  0 <= offset s <= stop -> stop <= blen raw -> oids s !! index = Some oid ->
  wpS (data_cell raw limits deadline stop index) (fun _ s' => exists v,
    valid_cell limits {| wire_name := []; wire_oid := oid |} v /\
    placed raw (offset s) (print_cell v) /\
    offset s' = offset s + blen (print_cell v) /\ offset s' <= stop /\ oids s' = oids s) s.
Proof.
  intros Ho Hs Hi. unfold data_cell. apply wp_bind, (wp_tick deadline _ any). intros s1 [S1 S2].
  apply wp_bind, wp_get. rewrite S1, S2, Hi. keep B. apply Z.ltb_ge in B. cbv zeta.
  set (len := unpack_be_signed 4 _).
  assert (P : placed raw (offset s) (pack_be 4 len))
    by (apply placed_pack_signed; [lia|lia|reflexivity]).
  apply wp_bind, wp_modify. destruct (Z.eqb_spec len (-1)) as [->|N].
  { apply wp_ret. exists None. cbn [print_cell at_offset offset oids]. rewrite blen_pack_be.
    split; [intros ? [=]|]. split; [exact P|]. split; [lia|split; [lia|exact S2]]. }
  keep B1. apply orb_false_iff in B1 as [B1 B2]. apply Z.ltb_ge in B1, B2. keep B3. apply Z.ltb_ge in B3.
  apply wp_bind, (wp_value raw deadline _ any); [lia|lia|right; intros; exact I|].
  intros s2 [T1 T2] V. apply wp_modify. cbn [at_offset offset oids default] in *.
  set (bs := slice _ _ _) in V.
  assert (Lb : blen bs = len) by (unfold bs; rewrite blen_slice by lia; lia).
  exists (Some bs). cbn [print_cell]. rewrite blen_app, blen_pack_be, Lb.
  split; [intros ? [= <-]; split; [exact V|lia]|]. split; [|split; [lia|split; [lia|congruence]]].
  apply placed_app. split; [exact P|]. rewrite blen_pack_be.
  eapply placed_eq; [apply placed_slice; lia|lia].
Qed.
Lemma message_placed tag body o stop :
  placed raw o (z2b tag :: pack_be 4 (stop - o - 1)) -> placed raw (o + 5) body ->
  stop = o + 5 + blen body -> placed raw o (print_message tag body).
Proof.
  intros P B ->. unfold print_message. change (z2b tag :: ?l) with ([z2b tag] ++ l) in *.
  rewrite app_assoc. apply placed_app. replace (4 + blen body) with (o + 5 + blen body - o - 1) by lia.
  split; [exact P|]. rewrite blen_app, blen_pack_be. change (blen [z2b tag]) with 1. exact B.
Qed.

Lemma columns_sound stop n k s :
  0 <= offset s <= stop -> stop <= blen raw -> 0 <= max_name_bytes limits ->
  (k + n <= length (oids s))%nat ->
  wpS (iterM_st (describe_column raw limits deadline stop) (seq k n)) (fun _ s' => exists cols,
    length cols = n /\ Forall (valid_column limits) cols /\
    placed raw (offset s) (concat (map print_column cols)) /\
    offset s' = offset s + blen (concat (map print_column cols)) /\ offset s' <= stop /\
    (forall i, (i < k)%nat -> oids s' !! i = oids s !! i) /\
    (forall i c, cols !! i = Some c -> oids s' !! (k + i)%nat = Some (wire_oid c))) s.
Proof.
  revert k s; induction n as [|n IH]; intros k s Ho Hs Hm Hk; cbn [seq iterM_st].
  { apply wp_ret. exists []. change (blen (concat (map print_column []))) with 0.
    split; [reflexivity|]. split; [constructor|]. split; [apply placed_nil; lia|].
    split; [lia|]. split; [lia|]. split; [reflexivity|]. intros i c [=]. }
  apply wp_bind. eapply wp_mono; [|apply describe_column_sound; assumption].
  intros [] s1 (c & Vc & Pc & Oc & Lc & Ec). pose proof (blen_nonneg (print_column c)).
  eapply wp_mono; [|apply IH; [lia|assumption|assumption|rewrite Ec, length_insert; lia]].
  intros [] s2 (cols & Ln & Vs & Ps & Os & Ls & Es & Eo). exists (c :: cols). cbn [map concat length].
  rewrite blen_app. split; [lia|]. split; [constructor; assumption|].
  split; [apply placed_app; rewrite <- Oc; auto|]. split; [lia|]. split; [lia|]. split.
  - intros i Hi. rewrite Es, Ec by lia. apply list_lookup_insert_ne. lia.
  - intros [|i] c' Hc'; cbn in Hc'.
    + injection Hc' as <-. rewrite Nat.add_0_r, Es, Ec by lia. apply list_lookup_insert_eq. lia.
    + replace (k + S i)%nat with (S k + i)%nat by lia. apply Eo, Hc'.
Qed.

Lemma cells_sound stop cols k s :
  0 <= offset s <= stop -> stop <= blen raw ->
  (forall i c, cols !! i = Some c -> oids s !! (k + i)%nat = Some (wire_oid c)) ->
  wpS (iterM_st (data_cell raw limits deadline stop) (seq k (length cols))) (fun _ s' => exists row,
    Forall2 (valid_cell limits) cols row /\ placed raw (offset s) (concat (map print_cell row)) /\
    offset s' = offset s + blen (concat (map print_cell row)) /\ offset s' <= stop /\
    oids s' = oids s) s.
Proof.
  revert k s; induction cols as [|c cols IH]; intros k s Ho Hs Hk; cbn [length seq iterM_st].
  { apply wp_ret. exists []. change (blen (concat (map print_cell []))) with 0.
    split; [constructor|]. split; [apply placed_nil; lia|]. split; [lia|]. split; [lia|reflexivity]. }
  apply wp_bind. eapply wp_mono;
    [|apply (data_cell_sound stop k (wire_oid c)); [assumption|assumption|]].
  2:{ rewrite <- (Nat.add_0_r k). apply Hk. reflexivity. }
  intros [] s1 (v & Vv & Pv & Ov & Lv & Ev). pose proof (blen_nonneg (print_cell v)).
  eapply wp_mono; [|apply IH; [lia|assumption|]].
  2:{ intros i c' Hc'. rewrite Ev. replace (S k + i)%nat with (k + S i)%nat by lia. apply Hk, Hc'. }
  intros [] s2 (row & Vr & Pr & Or & Lr & Er). exists (v :: row). cbn [map concat].
  rewrite blen_app. split; [constructor; assumption|].
  split; [apply placed_app; rewrite <- Ov; auto|]. split; [lia|]. split; [lia|congruence].
Qed.

Lemma count_placed o stop n :
  0 <= o -> o + 2 <= stop -> stop <= blen raw -> unpack_be (slice o (o + 2) raw) = n ->
  placed raw o (pack_be 2 n).
Proof. intros. apply placed_pack; [lia|lia|assumption]. Qed.

Lemma description_sound columns s :
  0 <= offset s -> 0 <= columns -> 0 <= max_name_bytes limits ->
  (Z.to_nat columns <= length (oids s))%nat ->
  wpS (description raw limits deadline columns) (fun _ s' => exists cols,
    Z.of_nat (length cols) = columns /\ Forall (valid_column limits) cols /\
    placed raw (offset s) (print_description cols) /\
    offset s' = offset s + blen (print_description cols) /\
    (forall i c, cols !! i = Some c -> oids s' !! i = Some (wire_oid c))) s.
Proof.
  intros Ho Hc Hm Hk. unfold description.
  apply wp_bind. eapply wp_mono; [|apply message_sound; lia].
  intros stop s1 (O1 & E1 & P1 & L1 & M1). apply wp_bind, wp_get. keep B. apply Z.eqb_eq in B.
  apply wp_bind, wp_modify, wp_bind.
  eapply wp_mono; [|apply (columns_sound stop _ 0); cbn [at_offset offset oids]; try assumption; try lia;
    rewrite E1; exact Hk].
  intros [] s2 (cols & Ln & Vs & Ps & Os & Ls & _ & Eo). cbn [at_offset offset] in *.
  apply (wp_exact_end (fun _ => True)); [right; exact I|]. intros Ee.
  assert (Lc : Z.of_nat (length cols) = columns) by lia. exists cols.
  assert (Pd : placed raw (offset s + 5) (pack_be 2 columns ++ concat (map print_column cols))).
  { rewrite <- O1. apply placed_app. rewrite blen_pack_be. split; [|exact Ps].
    eapply count_placed; [lia| |apply L1|exact B]. lia. }
  assert (Es : stop = offset s + 5 + blen (pack_be 2 columns ++ concat (map print_column cols)))
    by (rewrite blen_app, blen_pack_be; lia).
  unfold print_description. rewrite Lc, blen_print_message.
  split; [reflexivity|]. split; [exact Vs|]. split; [eapply message_placed; eassumption|].
  split; [lia|exact Eo].
Qed.

Lemma data_row_sound cols s :
  0 <= offset s ->
  (forall i c, cols !! i = Some c -> oids s !! i = Some (wire_oid c)) ->
  wpS (data_row raw limits deadline (Z.of_nat (length cols))) (fun _ s' => exists row,
    Forall2 (valid_cell limits) cols row /\ placed raw (offset s) (print_row row) /\
    offset s' = offset s + blen (print_row row) /\ oids s' = oids s) s.
Proof.
  intros Ho Hk. unfold data_row.
  apply wp_bind. eapply wp_mono; [|apply message_sound; lia].
  intros stop s1 (O1 & E1 & P1 & L1 & M1). apply wp_bind, wp_get. keep B. apply Z.eqb_eq in B.
  apply wp_bind, wp_modify, wp_bind. rewrite Nat2Z.id.
  eapply wp_mono; [|apply (cells_sound stop cols 0); cbn [at_offset offset oids];
    [lia|lia|rewrite E1; exact Hk]].
  intros [] s2 (row & Vr & Pr & Or & Lr & Er). cbn [at_offset offset oids] in *.
  apply (wp_exact_end (fun _ => True)); [right; exact I|]. intros Ee. exists row.
  pose proof (Forall2_length _ _ _ Vr) as Ll.
  assert (Pd : placed raw (offset s + 5) (pack_be 2 (Z.of_nat (length row)) ++ concat (map print_cell row))).
  { rewrite <- O1, <- Ll. apply placed_app. rewrite blen_pack_be. split; [|exact Pr].
    eapply count_placed; [lia| |apply L1|exact B]. lia. }
  assert (Es : stop = offset s + 5 + blen (pack_be 2 (Z.of_nat (length row)) ++ concat (map print_cell row)))
    by (rewrite blen_app, blen_pack_be; lia).
  unfold print_row. rewrite blen_print_message. split; [exact Vr|].
  split; [eapply message_placed; eassumption|]. split; [lia|congruence].
Qed.

Lemma rows_sound cols n k s :
  0 <= offset s <= blen raw ->
  (forall i c, cols !! i = Some c -> oids s !! i = Some (wire_oid c)) ->
  wpS (iterM_st (fun _ => data_row raw limits deadline (Z.of_nat (length cols))) (seq k n))
    (fun _ s' => exists rows,
      length rows = n /\ Forall (Forall2 (valid_cell limits) cols) rows /\
      placed raw (offset s) (concat (map print_row rows)) /\
      offset s' = offset s + blen (concat (map print_row rows))) s.
Proof.
  revert k s; induction n as [|n IH]; intros k s Ho Hk; cbn [seq iterM_st].
  { apply wp_ret. exists []. change (blen (concat (map print_row []))) with 0.
    split; [reflexivity|]. split; [constructor|]. split; [apply placed_nil; lia|lia]. }
  apply wp_bind. eapply wp_mono; [|apply data_row_sound; [lia|exact Hk]].
  intros [] s1 (row & Vr & Pr & Or & Er). pose proof (placed_range _ _ _ Pr).
  eapply wp_mono; [|apply IH; [lia|rewrite Er; exact Hk]].
  intros [] s2 (rows & Ln & Vs & Ps & Os). exists (row :: rows). cbn [map concat length].
  rewrite blen_app. split; [lia|]. split; [constructor; assumption|].
  split; [apply placed_app; rewrite <- Or; auto|lia].
Qed.

Lemma completion_sound rows s :
  0 <= offset s ->
  wpS (completion raw deadline rows) (fun _ s' =>
    placed raw (offset s) (print_message 67 (command rows)) /\
    blen raw = offset s + blen (print_message 67 (command rows))) s.
Proof.
  intros Ho. unfold completion. pose proof (blen_nonneg (command rows)).
  apply wp_bind. eapply wp_mono; [|apply message_sound; lia].
  intros stop s1 (O1 & E1 & P1 & L1 & M1). apply wp_bind, wp_get. keep B.
  apply orb_false_iff in B as [B1 B2]. apply negb_false_iff, Z.eqb_eq in B1.
  apply negb_false_iff, bool_decide_eq_true in B2.
  apply wp_bind, wp_modify. apply (wp_exact_end (fun _ => True)); [right; exact I|]. cbn [at_offset offset].
  intros Ee. rewrite blen_print_message. split; [|lia].
  eapply message_placed; [exact P1| |lia]. rewrite <- O1, <- B2. apply placed_slice; lia.
Qed.
End sound.

Lemma slice_pack w a b v h :
  0 <= a -> b = a + Z.of_nat w -> b <= blen h -> unpack_be (slice a b h) = v ->
  slice a b h = pack_be w v.
Proof.
  intros Ha -> Hb <-. symmetry. assert (L : blen (slice a (a + Z.of_nat w) h) = Z.of_nat w)
    by (rewrite blen_slice by lia; lia).
  replace w with (length (slice a (a + Z.of_nat w) h)) at 1 by (unfold blen in L; lia).
  apply pack_unpack_be.
Qed.

(** The header is its twelve fields. *)
Lemma header_fields h :
  blen h = 76 ->
  h = slice 0 4 h ++ slice 4 5 h ++ slice 5 6 h ++ slice 6 8 h ++ slice 8 24 h ++ slice 24 40 h ++
      slice 40 48 h ++ slice 48 56 h ++ slice 56 64 h ++ slice 64 68 h ++ slice 68 72 h ++ slice 72 76 h.
Proof.
  intros L. rewrite <- !slice_split by lia. rewrite <- L. symmetry. apply slice_all.
Qed.

Lemma unpack_slice_range h a b :
  0 <= a <= b -> b <= blen h -> 0 <= unpack_be (slice a b h) < 256 ^ (b - a).
Proof.
  intros H1 H2. pose proof (unpack_be_range (slice a b h)) as R.
  change (Z.of_nat (length ?l)) with (blen l) in R. rewrite blen_slice in R by lia. exact R.
Qed.

Lemma header_sound h i l info :
  inspect_result_header h i l = Ok info ->
  blen (session_id i) = 16 -> blen (datasource_id i) = 16 ->
  exists truncated columns rows body,
    h = print_header i truncated columns rows body /\ 0 <= body /\ 0 <= rows <= max_rows l /\
    1 <= columns <= max_columns l /\ (truncated = true -> rows = max_rows l) /\
    HEADER_BYTES + body <= max_frame_bytes l /\
    info = {| frame_bytes := HEADER_BYTES + body; h_columns := columns; h_rows := rows;
              h_truncated := truncated |}.
Proof.
  intros H Si Sd. unfold inspect_result_header in H. inv_ok.

  repeat match goal with
  | B : negb _ = false |- _ => apply negb_false_iff in B
  | B : _ || _ = false |- _ => apply orb_false_iff in B as [? B]
  | B : _ && _ = true |- _ => apply andb_true_iff in B as [? B]
  | B : (_ =? _) = true |- _ => apply Z.eqb_eq in B
  | B : (_ <=? _) = true |- _ => apply Z.leb_le in B
  | B : (_ <? _) = false |- _ => apply Z.ltb_ge in B
  | B : bool_decide _ = true |- _ => apply bool_decide_eq_true in B
  end.
  match goal with L : blen h = HEADER_BYTES |- _ => rename L into Lh end.
  unfold HEADER_BYTES in Lh.
  exists (unpack_be (slice 5 6 h) =? 1), (unpack_be (slice 64 68 h)), (unpack_be (slice 68 72 h)),
    (unpack_be (slice 72 76 h)).
  pose proof (unpack_slice_range h 68 72 ltac:(lia) ltac:(lia)).
  pose proof (unpack_slice_range h 72 76 ltac:(lia) ltac:(lia)).
  split; [|split; [lia|split; [lia|split; [lia|split; [|split; [assumption|reflexivity]]]]]].
  - unfold print_header. rewrite (header_fields h Lh) at 1.
    assert (Hf : unpack_be (slice 5 6 h) = if unpack_be (slice 5 6 h) =? 1 then 1 else 0).
    { destruct (Z.eqb_spec (unpack_be (slice 5 6 h)) 1) as [->|N]; [reflexivity|].
      match goal with B : (_ || _)%bool = true |- _ => rewrite orb_false_r, Z.eqb_eq in B; exact B end. }
    revert Hf. generalize (unpack_be (slice 5 6 h) =? 1). intros truncated Hf.
    remember (unpack_be (slice 64 68 h)) as columns. remember (unpack_be (slice 68 72 h)) as rows.
    remember (unpack_be (slice 72 76 h)) as body.
    rewrite (slice_pack 1 4 5 1 h), (slice_pack 1 5 6 (if truncated then 1 else 0) h),
      (slice_pack 2 6 8 0 h), (slice_pack 8 40 48 (generation i) h),
      (slice_pack 8 48 56 (record_revision i) h), (slice_pack 8 56 64 (job_id i) h),
      (slice_pack 4 64 68 columns h), (slice_pack 4 68 72 rows h), (slice_pack 4 72 76 body h)
      by (lia || auto).
    congruence.
  - intros T. match goal with B : _ && negb _ = false |- _ => rewrite T in B; cbn in B end.
    apply Z.eqb_eq, negb_false_iff. assumption.
Qed.

Lemma identity_ok i j :
  result_identity i = Ok j -> blen (session_id i) = 16 /\ blen (datasource_id i) = 16 /\
  0 < generation i < 2 ^ 63 /\ 0 < record_revision i < 2 ^ 63 /\ 0 < job_id i < 2 ^ 63.
Proof.
  unfold result_identity, positive_in, IDENTITY_BYTES, MAX_EPOCH. intros H. inv_ok.
  cbn [forallb] in *. lia.
Qed.

Lemma limits_ok l l' :
  result_limits l = Ok l' -> 0 < max_rows l < 2 ^ 31 /\ 76 <= max_frame_bytes l <= 16777216 /\
  0 < max_cell_bytes l <= 1048576 /\ 1 <= max_columns l <= 1664 /\ 0 < max_name_bytes l <= 256.
Proof.
  unfold result_limits, positive_in, HEADER_BYTES, MAX_ROWS, MAX_FRAME, MAX_CELL, MAX_COLUMNS, MAX_NAME.
  intros H. inv_ok. lia.
Qed.

Lemma run_parser_sound raw l d info s :
  offset s = HEADER_BYTES -> blen raw >= HEADER_BYTES ->
  length (oids s) = Z.to_nat MAX_COLUMNS -> 0 <= max_name_bytes l ->
  0 <= h_columns info <= MAX_COLUMNS -> 0 <= h_rows info ->
  wp (fun _ => True) (run_parser raw l d info) (fun v _ => exists columns rows,
    Z.of_nat (length columns) = h_columns info /\ Z.of_nat (length rows) = h_rows info /\
    Forall (valid_column l) columns /\ Forall (Forall2 (valid_cell l) columns) rows /\
    placed raw HEADER_BYTES (print_body columns rows) /\
    blen raw = HEADER_BYTES + blen (print_body columns rows) /\
    v = {| wire := raw; v_columns := h_columns info; v_rows := h_rows info;
           v_truncated := h_truncated info |}) s.
Proof.
  intros Ho Hb Hc Hm Hcols Hrows. unfold run_parser. assert (HEADER_BYTES = 76) by reflexivity.
  apply wp_bind. eapply wp_mono; [|apply description_sound; lia].
  intros [] s1 (cols & Ln & Vs & Ps & Os & Eo). pose proof (placed_range _ _ _ Ps).
  apply wp_bind. unfold data_rows. apply wp_bind, wp_get, wp_bind, (wp_refuse (fun _ => True)); [right; exact I|].
  intros _. rewrite <- Ln. eapply wp_mono; [|apply rows_sound; [lia|exact Eo]].
  intros [] s2 (rows & Lr & Vr & Pr & Or). apply wp_bind. pose proof (placed_range _ _ _ Pr).
  eapply wp_mono; [|apply completion_sound; lia].
  intros [] s3 [Pc Lc]. apply wp_bind, (wp_check d _ (or_intror (fun _ => I))). intros s4 _. apply wp_ret.
  assert (Er : Z.of_nat (length rows) = h_rows info) by lia.
  exists cols, rows. unfold print_body. rewrite !blen_app, Er. do 4 (split; [auto|]).
  rewrite Ho in *. split; [|split; [lia|reflexivity]].
  apply placed_app. split; [exact Ps|]. apply placed_app. rewrite <- Os. split; [exact Pr|].
  rewrite <- Or. exact Pc.
Qed.

Lemma blen_print_header i tr c r b :
  blen (session_id i) = 16 -> blen (datasource_id i) = 16 -> blen (print_header i tr c r b) = HEADER_BYTES.
Proof. intros H1 H2. unfold print_header. rewrite !blen_app, !blen_pack_be, H1, H2. reflexivity. Qed.

(** Whatever the clock does, an accepted frame is the printed form of a valid
    result, and the answer counts it. *)
Lemma validate_result_sound raw i l d start v n i' l' :
  result_identity i = Ok i' -> result_limits l = Ok l' ->
  validate_result raw i l d start = (Ok v, n) ->
  exists truncated columns rows,
    valid_result i l truncated columns rows /\ raw = print_frame i truncated columns rows /\
    v = {| wire := raw; v_columns := Z.of_nat (length columns); v_rows := Z.of_nat (length rows);
           v_truncated := truncated |}.
Proof.
  intros Hi Hl H. apply identity_ok in Hi as (Si & Sd & _). apply limits_ok in Hl.
  assert (H76 : HEADER_BYTES = 76) by reflexivity.
  unfold validate_result in H. destruct (negb _) eqn:Hb; [discriminate|].
  apply negb_false_iff, andb_true_iff in Hb as [Hb1 Hb2]. apply Z.leb_le in Hb1, Hb2.
  match type of H with (let '(_, _) := ?m ?s in _) = _ =>
    assert (W : wp (fun _ => True) m (fun v _ => exists truncated columns rows,
      valid_result i l truncated columns rows /\ raw = print_frame i truncated columns rows /\
      v = {| wire := raw; v_columns := Z.of_nat (length columns); v_rows := Z.of_nat (length rows);
             v_truncated := truncated |}) s) end.
  { apply wp_bind, (wp_check d _ (or_intror (fun _ => I))). intros s1 [S1 S2].
    apply wp_bind, wp_lift; [exact I|]. intros info Hh.
    apply header_sound in Hh as (tr & c & r & b & Eh & Bb & Br & Bc & Bt & Bf & ->); try assumption.
    apply wp_bind, (wp_refuse (fun _ => True)); [right; exact I|]. cbn [frame_bytes].
    intros B. apply negb_false_iff, Z.eqb_eq in B.
    eapply wp_mono; [|apply run_parser_sound; cbn [h_columns h_rows]; rewrite ?S1, ?S2;
      cbn [new_parser offset oids]; rewrite ?length_replicate; unfold MAX_COLUMNS; lia || reflexivity].
    cbn [h_columns h_rows h_truncated].
    intros v' _ (cols & rows & Lc & Lr & Vc & Vr & Pb & Lb & ->). exists tr, cols, rows.
    assert (Ef : raw = print_frame i tr cols rows).
    { unfold print_frame. apply placed_all.
      - apply placed_app. rewrite Lc, Lr. rewrite blen_print_header by assumption.
        rewrite Z.add_0_l. split; [|exact Pb]. replace (blen (print_body cols rows)) with b by lia.
        rewrite <- Eh. apply placed_slice; lia.
      - rewrite blen_app, blen_print_header by assumption. lia. }
    rewrite Lc, Lr. split; [|split; [exact Ef|reflexivity]].
    unfold valid_result. rewrite <- Ef, Lc, Lr. repeat (split; [assumption || lia|]). lia. }
  unfold wp in W. match type of H with (let '(_, _) := ?m in _) = _ => destruct m as [[v'|e] s'] end;
    [|discriminate].
  injection H as <- _. exact W.
Qed.

(** ** A printed frame is accepted, under a live clock *)

Section complete.
Context (raw : list byte) (limits : ResultLimits) (deadline : ResultDeadline).
Context (HL : live deadline).

Abbreviation wpF := (wp (fun _ : parser => False)).
Local Definition alive : live deadline \/ forall s : parser, False := or_introl HL.

(** Pass a guard whose test is false. *)
Ltac pass := apply wp_bind, (wp_refuse (fun _ => False)); [left|intros _].

Lemma message_complete tag minimum body (Q : Z -> parser -> Prop) s :
  placed raw (offset s) (print_message tag body) -> 0 <= tag < 256 ->
  minimum <= 4 + blen body < 2 ^ 32 ->
  (forall s', offset s' = offset s + 5 -> oids s' = oids s -> Q (offset s + 5 + blen body) s') ->
  wpF (message raw deadline tag minimum) Q s.
Proof.
  intros P Ht Hm HQ. unfold message. apply wp_bind, (wp_check deadline _ alive). intros s1 [S1 S2].
  apply wp_bind, wp_get. rewrite S1. pose proof (placed_range _ _ _ P) as R.
  rewrite blen_print_message in R. pose proof (blen_nonneg body). pose proof (placed_byte _ _ _ _ P) as Hb.
  assert (Pl : placed raw (offset s + 1) (pack_be 4 (4 + blen body))).
  { unfold print_message in P. change (z2b tag :: ?l) with ([z2b tag] ++ l) in P.
    apply placed_app in P as [_ P]. apply placed_app in P as [P _]. exact P. }
  assert (El : unpack_be (slice (offset s + 1) (offset s + 5) raw) = 4 + blen body).
  { rewrite (placed_get raw (offset s + 1) (offset s + 5) (pack_be 4 (4 + blen body)));
      [apply unpack_pack_be_small; lia|exact Pl|rewrite blen_pack_be; lia]. }
  pass. { rewrite Hb, b2z_z2b_small, Z.eqb_refl by lia. apply orb_false_iff. split; [apply Z.ltb_ge; lia|reflexivity]. }
  cbv zeta. rewrite El. pass. { apply orb_false_iff. split; apply Z.ltb_ge; lia. }
  apply wp_bind, wp_modify, wp_ret. replace (offset s + 1 + (4 + blen body)) with (offset s + 5 + blen body) by lia.
  apply HQ; [reflexivity|exact S2].
Qed.

Lemma placed_u16 o n : placed raw o (pack_be 2 n) -> 0 <= n < 65536 ->
  unpack_be (slice o (o + 2) raw) = n.
Proof.
  intros P Hn. rewrite (placed_get raw o (o + 2) (pack_be 2 n)); [apply unpack_pack_be_small; lia|exact P|].
  rewrite blen_pack_be. lia.
Qed.

Lemma placed_i w o n :
  placed raw o (pack_be (S w) n) -> - 2 ^ (8 * Z.of_nat (S w) - 1) <= n < 2 ^ (8 * Z.of_nat (S w) - 1) ->
  forall stop, stop = o + Z.of_nat (S w) -> unpack_be_signed (S w) (slice o stop raw) = n.
Proof.
  intros P Hn stop ->. rewrite (placed_get raw o _ (pack_be (S w) n));
    [apply unpack_pack_be_signed; exact Hn|exact P|rewrite blen_pack_be; lia].
Qed.

Lemma placed_u4 o n : placed raw o (pack_be 4 n) -> 0 <= n < 2 ^ 32 ->
  forall stop, stop = o + 4 -> unpack_be (slice o stop raw) = n.
Proof.
  intros P Hn stop ->. rewrite (placed_get raw o (o + 4) (pack_be 4 n)); [apply unpack_pack_be_small; lia|exact P|].
  rewrite blen_pack_be. lia.
Qed.

Lemma describe_column_complete stop index c (Q : unit -> parser -> Prop) s :
  placed raw (offset s) (print_column c) -> valid_column limits c ->
  offset s + blen (print_column c) <= stop -> stop <= blen raw ->
  (forall s', offset s' = offset s + blen (print_column c) ->
     oids s' = <[index := wire_oid c]> (oids s) -> Q tt s') ->
  wpF (describe_column raw limits deadline stop index) Q s.
Proof.
  intros P (Vt & Vn & [size Vo]) Hs Hr HQ. pose proof (assoc_sizes _ _ Vo) as [Ro Rs].
  rewrite blen_print_column in *. pose proof (blen_nonneg (wire_name c)).
  pose proof (placed_range _ _ _ P) as R. rewrite blen_print_column in R.
  unfold print_column in P. rewrite (type_size_assoc _ _ Vo) in P.
  rewrite !placed_app, !blen_pack_be in P. change (blen [z2b 0]) with 1 in P.
  destruct P as (Pn & Pz & P1 & P2 & P3 & P4 & P5 & P6).
  unfold describe_column. apply wp_bind, (wp_tick deadline _ alive). intros s1 [S1 S2].
  apply wp_bind, wp_get. rewrite S1. cbv zeta. set (lim := Z.min stop _).
  set (j := offset s + blen (wire_name c)) in *.
  assert (Hf : find_zero_in raw (offset s) lim = Some j).
  { unfold find_zero_in. rewrite (slice_split (offset s) (j + 1)), (slice_split (offset s) j) by lia.
    rewrite (placed_get raw (offset s) j (wire_name c) Pn eq_refl), (placed_get _ j (j + 1) [z2b 0] Pz eq_refl), <- app_assoc.
    cbn [app]. apply find_zero_app; [|reflexivity]. unfold valid_text in Vt.
    apply andb_true_iff in Vt as [Vt _]. apply negb_true_iff in Vt. apply has_zero_false, Vt. }
  rewrite Hf. apply wp_bind, (wp_text raw deadline _ alive); [lia|lia| |].
  { left. rewrite (placed_get raw (offset s) j (wire_name c) Pn eq_refl). exact Vt. }
  intros s2 [T1 T2] _. apply wp_bind, wp_modify. unfold COLUMN_BYTES. pass. { apply Z.ltb_ge. lia. }
  pose proof (placed_eq _ _ (j + 1 + 4) _ P2 ltac:(lia)) as P2'.
  pose proof (placed_eq _ _ (j + 1 + 6) _ P3 ltac:(lia)) as P3'.
  pose proof (placed_eq _ _ (j + 1 + 10) _ P4 ltac:(lia)) as P4'.
  pose proof (placed_eq _ _ (j + 1 + 12) _ P5 ltac:(lia)) as P5'.
  pose proof (placed_eq _ _ (j + 1 + 16) _ P6 ltac:(lia)) as P6'.
  rewrite (placed_u4 (j + 1) 0 P1), (placed_i 1 (j + 1 + 4) 0 P2'), (placed_u4 (j + 1 + 6) (wire_oid c) P3'),
    (placed_i 1 (j + 1 + 10) size P4'), (placed_i 3 (j + 1 + 12) (-1) P5'), (placed_i 1 (j + 1 + 16) 0 P6') by lia.
  pass. { rewrite bool_decide_eq_true_2 by exact Vo. reflexivity. }
  apply wp_bind, wp_modify, wp_modify. apply HQ; cbn [at_offset with_oids offset oids]; [lia|].
  rewrite T2, S2. reflexivity.
Qed.

Lemma data_cell_complete stop index c v (Q : unit -> parser -> Prop) s :
  placed raw (offset s) (print_cell v) -> valid_cell limits c v -> max_cell_bytes limits < 2 ^ 31 ->
  oids s !! index = Some (wire_oid c) ->
  offset s + blen (print_cell v) <= stop -> stop <= blen raw ->
  (forall s', offset s' = offset s + blen (print_cell v) -> oids s' = oids s -> Q tt s') ->
  wpF (data_cell raw limits deadline stop index) Q s.
Proof.
  intros P Vc Hm Hi Hs Hr HQ. unfold data_cell. apply wp_bind, (wp_tick deadline _ alive). intros s1 [S1 S2].
  apply wp_bind, wp_get. rewrite S1, S2, Hi. cbn [default].
  pose proof (placed_range _ _ _ P) as R. destruct v as [bs|]; cbn [print_cell] in *.
  - destruct (Vc bs eq_refl) as [Vv Lv]. rewrite blen_app, blen_pack_be in *.
    apply placed_app in P as [P1 P2]. rewrite blen_pack_be in P2. pose proof (blen_nonneg bs).
    pass. { apply Z.ltb_ge. lia. }
    cbv zeta. rewrite (placed_i 3 (offset s) (blen bs) P1) by lia. apply wp_bind, wp_modify.
    destruct (Z.eqb_spec (blen bs) (-1)); [lia|].
    pass. { apply orb_false_iff. split; apply Z.ltb_ge; lia. }
    pass. { apply Z.ltb_ge. lia. }
    apply wp_bind, (wp_value raw deadline _ alive); [lia|lia| |].
    { left. rewrite (placed_get raw (offset s + 4) _ bs P2 eq_refl). exact Vv. }
    intros s2 [T1 T2] _. cbn [at_offset offset oids] in *. apply wp_modify, HQ; cbn [at_offset offset oids]; [lia|congruence].
  - rewrite blen_pack_be in *. pass. { apply Z.ltb_ge. lia. }
    cbv zeta. rewrite (placed_i 3 (offset s) (-1) P) by lia. apply wp_bind, wp_modify.
    apply wp_ret, HQ; cbn [at_offset offset oids]; [lia|exact S2].
Qed.

Lemma columns_complete stop cols k (Q : unit -> parser -> Prop) s :
  placed raw (offset s) (concat (map print_column cols)) -> Forall (valid_column limits) cols ->
  offset s + blen (concat (map print_column cols)) <= stop -> stop <= blen raw ->
  (k + length cols <= length (oids s))%nat ->
  (forall s', offset s' = offset s + blen (concat (map print_column cols)) ->
     length (oids s') = length (oids s) ->
     (forall i, (i < k)%nat -> oids s' !! i = oids s !! i) ->
     (forall i c, cols !! i = Some c -> oids s' !! (k + i)%nat = Some (wire_oid c)) -> Q tt s') ->
  wpF (iterM_st (describe_column raw limits deadline stop) (seq k (length cols))) Q s.
Proof.
  revert k s; induction cols as [|c cols IH]; intros k s P V Hs Hr Hk HQ; cbn [length seq iterM_st map concat] in *.
  { apply wp_ret, HQ; [change (blen []) with 0; lia|reflexivity|reflexivity|]. intros i c [=]. }
  apply placed_app in P as [P1 P2]. rewrite blen_app in *. inversion_clear V as [|? ? V1 V2].
  pose proof (blen_nonneg (concat (map print_column cols))).
  apply wp_bind, (describe_column_complete stop k c); [exact P1|exact V1|lia|exact Hr|]. intros s1 O1 E1.
  apply IH; [rewrite O1; exact P2|exact V2|lia|exact Hr|rewrite E1, length_insert; lia|].
  intros s2 O2 L2 B2 C2. apply HQ; [lia|rewrite L2, E1, length_insert; reflexivity| |].
  - intros i Hi. rewrite B2, E1 by lia. apply list_lookup_insert_ne. lia.
  - intros [|i] c' Hc'; cbn in Hc'.
    + injection Hc' as <-. rewrite Nat.add_0_r, B2, E1 by lia. apply list_lookup_insert_eq. lia.
    + replace (k + S i)%nat with (S k + i)%nat by lia. apply C2, Hc'.
Qed.

Lemma cells_complete stop cols row k (Q : unit -> parser -> Prop) s :
  placed raw (offset s) (concat (map print_cell row)) -> Forall2 (valid_cell limits) cols row ->
  max_cell_bytes limits < 2 ^ 31 ->
  offset s + blen (concat (map print_cell row)) <= stop -> stop <= blen raw ->
  (forall i c, cols !! i = Some c -> oids s !! (k + i)%nat = Some (wire_oid c)) ->
  (forall s', offset s' = offset s + blen (concat (map print_cell row)) -> oids s' = oids s -> Q tt s') ->
  wpF (iterM_st (data_cell raw limits deadline stop) (seq k (length cols))) Q s.
Proof.
  intros P V Hm. revert k s P; induction V as [|c v cols row V1 V2 IH]; intros k s P Hs Hr Hk HQ;
    cbn [length seq iterM_st map concat] in *.
  { apply wp_ret, HQ; [change (blen []) with 0; lia|reflexivity]. }
  apply placed_app in P as [P1 P2]. rewrite blen_app in *.
  pose proof (blen_nonneg (concat (map print_cell row))).
  apply wp_bind, (data_cell_complete stop k c v); [exact P1|exact V1|exact Hm| |lia|exact Hr|].
  { rewrite <- (Nat.add_0_r k). apply Hk. reflexivity. }
  intros s1 O1 E1. apply IH; [rewrite O1; exact P2|lia|exact Hr| |].
  - intros i c' Hc'. rewrite E1. replace (S k + i)%nat with (k + S i)%nat by lia. apply Hk, Hc'.
  - intros s2 O2 E2. apply HQ; [lia|congruence].
Qed.

Lemma description_complete cols (Q : unit -> parser -> Prop) s :
  placed raw (offset s) (print_description cols) -> Forall (valid_column limits) cols ->
  blen raw < 2 ^ 31 -> Z.of_nat (length cols) < 65536 -> (length cols <= length (oids s))%nat ->
  (forall s', offset s' = offset s + blen (print_description cols) ->
     (forall i c, cols !! i = Some c -> oids s' !! i = Some (wire_oid c)) -> Q tt s') ->
  wpF (description raw limits deadline (Z.of_nat (length cols))) Q s.
Proof.
  intros P V Hb Hc Hk HQ. pose proof (placed_range _ _ _ P) as R. unfold print_description in *.
  rewrite blen_print_message in *. set (body := pack_be 2 _ ++ _) in *.
  assert (Lb : blen body = 2 + blen (concat (map print_column cols)))
    by (unfold body; rewrite blen_app, blen_pack_be; lia).
  assert (Lc : 19 * Z.of_nat (length cols) <= blen (concat (map print_column cols))).
  { clear. induction cols as [|c cols IH]; [reflexivity|]. cbn [map concat length].
    rewrite blen_app, blen_print_column. pose proof (blen_nonneg (wire_name c)). lia. }
  assert (Pb : placed raw (offset s + 5) body).
  { unfold print_message in P. change (z2b 84 :: ?l) with ([z2b 84] ++ l) in P. rewrite app_assoc in P.
    apply placed_app in P as [_ P]. rewrite blen_app, blen_pack_be in P. exact P. }
  apply placed_app in Pb as [P1 P2]. rewrite blen_pack_be in P2.
  unfold description. apply wp_bind, (message_complete _ _ body); [exact P|lia|lia|].
  intros s1 O1 E1. apply wp_bind, wp_get. rewrite O1.
  pass. { rewrite (placed_u16 _ _ P1), Z.eqb_refl by lia. reflexivity. }
  apply wp_bind, wp_modify, wp_bind. rewrite Nat2Z.id.
  apply columns_complete; cbn [at_offset offset oids]; try assumption; try lia.
  { rewrite E1. exact Hk. }
  intros s2 O2 L2 _ C2. apply (wp_exact_end (fun _ => False)); [left; lia|]. intros _. apply HQ; [lia|exact C2].
Qed.

Lemma data_row_complete cols row (Q : unit -> parser -> Prop) s :
  placed raw (offset s) (print_row row) -> Forall2 (valid_cell limits) cols row ->
  max_cell_bytes limits < 2 ^ 31 -> blen raw < 2 ^ 31 -> Z.of_nat (length cols) < 65536 ->
  (forall i c, cols !! i = Some c -> oids s !! i = Some (wire_oid c)) ->
  (forall s', offset s' = offset s + blen (print_row row) -> oids s' = oids s -> Q tt s') ->
  wpF (data_row raw limits deadline (Z.of_nat (length cols))) Q s.
Proof.
  intros P V Hm Hb Hc Hk HQ. pose proof (placed_range _ _ _ P) as R. unfold print_row in *.
  rewrite blen_print_message in *. rewrite <- (Forall2_length _ _ _ V) in *. set (body := pack_be 2 _ ++ _) in *.
  assert (Lb : blen body = 2 + blen (concat (map print_cell row)))
    by (unfold body; rewrite blen_app, blen_pack_be; lia).
  assert (Lc : 4 * Z.of_nat (length cols) <= blen (concat (map print_cell row))).
  { rewrite (Forall2_length _ _ _ V). clear. induction row as [|v row IH]; [reflexivity|]. cbn [map concat length].
    rewrite blen_app. assert (4 <= blen (print_cell v)); [|lia].
    destruct v as [bs|]; cbn [print_cell]; rewrite ?blen_app, blen_pack_be; [pose proof (blen_nonneg bs)|]; lia. }
  assert (Pb : placed raw (offset s + 5) body).
  { unfold print_message in P. change (z2b 68 :: ?l) with ([z2b 68] ++ l) in P. rewrite app_assoc in P.
    apply placed_app in P as [_ P]. rewrite blen_app, blen_pack_be in P. exact P. }
  apply placed_app in Pb as [P1 P2]. rewrite blen_pack_be in P2.
  unfold data_row. apply wp_bind, (message_complete _ _ body); [exact P|lia|lia|].
  intros s1 O1 E1. apply wp_bind, wp_get. rewrite O1.
  pass. { rewrite (placed_u16 _ _ P1), Z.eqb_refl by lia. reflexivity. }
  apply wp_bind, wp_modify, wp_bind. rewrite Nat2Z.id.
  apply (cells_complete _ cols row 0); cbn [at_offset offset oids]; try assumption; try lia.
  { rewrite E1. exact Hk. }
  intros s2 O2 E2. cbn [at_offset oids] in E2.
  apply (wp_exact_end (fun _ => False)); [left; lia|]. intros _. apply HQ; [lia|congruence].
Qed.

Lemma rows_complete cols rows k (Q : unit -> parser -> Prop) s :
  placed raw (offset s) (concat (map print_row rows)) -> Forall (Forall2 (valid_cell limits) cols) rows ->
  max_cell_bytes limits < 2 ^ 31 -> blen raw < 2 ^ 31 -> Z.of_nat (length cols) < 65536 ->
  (forall i c, cols !! i = Some c -> oids s !! i = Some (wire_oid c)) ->
  (forall s', offset s' = offset s + blen (concat (map print_row rows)) -> Q tt s') ->
  wpF (iterM_st (fun _ => data_row raw limits deadline (Z.of_nat (length cols))) (seq k (length rows))) Q s.
Proof.
  intros P V Hm Hb Hc. revert k s P; induction V as [|row rows V1 V2 IH]; intros k s P Hk HQ;
    cbn [length seq iterM_st map concat] in *.
  { apply wp_ret, HQ. change (blen []) with 0. lia. }
  apply placed_app in P as [P1 P2]. rewrite blen_app in HQ.
  apply wp_bind, (data_row_complete cols row); try assumption.
  intros s1 O1 E1. apply IH; [rewrite O1; exact P2|rewrite E1; exact Hk|]. intros s2 O2. apply HQ. lia.
Qed.

Lemma completion_complete rows (Q : unit -> parser -> Prop) s :
  placed raw (offset s) (print_message 67 (command rows)) ->
  blen raw = offset s + blen (print_message 67 (command rows)) -> blen raw < 2 ^ 31 ->
  (forall s', Q tt s') -> wpF (completion raw deadline rows) Q s.
Proof.
  intros P Hr Hb HQ. pose proof (placed_range _ _ _ P) as R. rewrite blen_print_message in *.
  pose proof (blen_nonneg (command rows)).
  assert (Pb : placed raw (offset s + 5) (command rows)).
  { unfold print_message in P. change (z2b 67 :: ?l) with ([z2b 67] ++ l) in P. rewrite app_assoc in P.
    apply placed_app in P as [_ P]. rewrite blen_app, blen_pack_be in P. exact P. }
  unfold completion. apply wp_bind, (message_complete _ _ (command rows)); [exact P|lia|lia|].
  intros s1 O1 E1. apply wp_bind, wp_get. rewrite O1.
  pass. { rewrite (placed_get _ _ _ _ Pb eq_refl), bool_decide_eq_true_2 by reflexivity.
    apply orb_false_iff. split; [|reflexivity]. apply negb_false_iff, Z.eqb_eq. lia. }
  apply wp_bind, wp_modify. apply (wp_exact_end (fun _ => False)); [left; cbn [at_offset offset]; lia|].
  intros _. apply HQ.
Qed.
End complete.

Lemma header_complete i l i' l' tr columns rows body :
  result_identity i = Ok i' -> result_limits l = Ok l' ->
  1 <= columns <= max_columns l -> 0 <= rows <= max_rows l -> (tr = true -> rows = max_rows l) ->
  7 + 19 * columns + rows * (7 + 4 * columns) + 5 + blen (command rows) <= body ->
  HEADER_BYTES + body <= max_frame_bytes l ->
  inspect_result_header (print_header i tr columns rows body) i l =
  Ok {| frame_bytes := HEADER_BYTES + body; h_columns := columns; h_rows := rows; h_truncated := tr |}.
Proof.
  intros Hi Hl Hc Hr Ht Hm Hf. apply identity_ok in Hi as (Si & Sd & Gi & Ri & Ji). apply limits_ok in Hl.
  assert (H76 : HEADER_BYTES = 76) by reflexivity.
  pose proof (blen_nonneg (command rows)).
  pose proof (blen_print_header i tr columns rows body Si Sd) as Lh.
  pose proof (placed_self (print_header i tr columns rows body)) as P.
  set (h := print_header i tr columns rows body) in *. unfold h in P at 2. unfold print_header in P.
  rewrite !placed_app, !blen_pack_be, Si, Sd in P. change (blen (ascii_lit "MGWR")) with 4 in P.
  destruct P as (P0 & P1 & P2 & P3 & P4 & P5 & P6 & P7 & P8 & P9 & P10 & P11).
  assert (U : forall a b w o z, placed h o (pack_be w z) -> 0 <= z < 256 ^ Z.of_nat w ->
                a = o -> b = o + Z.of_nat w -> unpack_be (slice a b h) = z).
  { intros a b w o z Pz Hz -> ->. rewrite (placed_get h o _ (pack_be w z));
      [apply unpack_pack_be_small; exact Hz|exact Pz|rewrite blen_pack_be; reflexivity]. }
  unfold inspect_result_header.
  rewrite Lh, (placed_get h 0 4 _ P0 eq_refl), (placed_get h 8 24 _ P4), (placed_get h 24 40 _ P5) by lia.
  rewrite (U 4 5 _ _ _ P1), (U 5 6 _ _ _ P2), (U 6 8 _ _ _ P3), (U 40 48 _ _ _ P6), (U 48 56 _ _ _ P7),
    (U 56 64 _ _ _ P8), (U 64 68 _ _ _ P9), (U 68 72 _ _ _ P10), (U 72 76 _ _ _ P11)
    by (first [lia | cbn; lia | destruct tr; cbn; lia]).
  rewrite !bool_decide_eq_true_2, !Z.eqb_refl by reflexivity. cbv zeta.
  assert (R : forall (b : bool) (e : ResultErrorCategory) A (k : unit -> res ResultErrorCategory A),
            b = false -> (refuse_if b e ≫= k) = k tt) by (intros b e A k ->; reflexivity).
  rewrite R by reflexivity. rewrite R by (destruct tr; reflexivity). rewrite R by reflexivity.
  rewrite R by lia. rewrite R. 2:{ destruct tr; [rewrite (Ht eq_refl), !Z.eqb_refl|]; reflexivity. }
  rewrite R by lia. rewrite R by lia. destruct tr; reflexivity.
Qed.

Lemma blen_print_cell v : 4 <= blen (print_cell v).
Proof.
  destruct v as [bs|]; cbn [print_cell]; rewrite ?blen_app, blen_pack_be; [pose proof (blen_nonneg bs)|]; lia.
Qed.

Lemma blen_print_columns cols : 19 * Z.of_nat (length cols) <= blen (concat (map print_column cols)).
Proof.
  induction cols as [|c cols IH]; [reflexivity|]. cbn [map concat length].
  rewrite blen_app, blen_print_column. pose proof (blen_nonneg (wire_name c)). lia.
Qed.

Lemma blen_print_cells row : 4 * Z.of_nat (length row) <= blen (concat (map print_cell row)).
Proof.
  induction row as [|v row IH]; [reflexivity|]. cbn [map concat length].
  rewrite blen_app. pose proof (blen_print_cell v). lia.
Qed.

Lemma blen_print_rows {P : wire_column -> wire_cell -> Prop} cols rows :
  Forall (Forall2 P cols) rows ->
  Z.of_nat (length rows) * (7 + 4 * Z.of_nat (length cols)) <= blen (concat (map print_row rows)).
Proof.
  induction 1 as [|row rows H _ IH]; [reflexivity|]. cbn [map concat length].
  rewrite blen_app. unfold print_row at 1. rewrite blen_print_message, blen_app, blen_pack_be.
  pose proof (blen_print_cells row). rewrite <- (Forall2_length _ _ _ H) in *. lia.
Qed.

(** A valid result's printed frame is accepted as long as the clock lives. *)
Lemma validate_result_complete i l d start tr cols rows i' l' :
  live d -> result_identity i = Ok i' -> result_limits l = Ok l' ->
  valid_result i l tr cols rows ->
  exists n, validate_result (print_frame i tr cols rows) i l d start =
    (Ok {| wire := print_frame i tr cols rows; v_columns := Z.of_nat (length cols);
           v_rows := Z.of_nat (length rows); v_truncated := tr |}, n).
Proof.
  intros HL Hi Hl (Vc & Vr & Vt & Fc & Fr & Vf). pose proof (limits_ok _ _ Hl) as Bl.
  pose proof (identity_ok _ _ Hi) as (Si & Sd & _). assert (H76 : HEADER_BYTES = 76) by reflexivity.
  set (raw := print_frame i tr cols rows) in *.
  assert (Lr : blen raw = HEADER_BYTES + blen (print_body cols rows))
    by (unfold raw, print_frame; rewrite blen_app, blen_print_header by assumption; reflexivity).
  pose proof (blen_nonneg (print_body cols rows)).
  assert (P : placed raw 0 (print_header i tr (Z.of_nat (length cols)) (Z.of_nat (length rows))
                (blen (print_body cols rows))) /\ placed raw HEADER_BYTES (print_body cols rows)).
  { pose proof (placed_self raw : placed raw 0 (print_header _ _ _ _ _ ++ _)) as P.
    apply placed_app in P as [P1 P2]. rewrite blen_print_header in P2 by assumption. auto. }
  destruct P as [Ph Pb]. unfold validate_result.
  replace (negb ((HEADER_BYTES <=? blen raw) && (blen raw <=? max_frame_bytes l))) with false by lia.
  match goal with |- exists n, (let '(_, _) := ?m ?s in _) = _ =>
    assert (W : wp (fun _ => False) m (fun v _ =>
      v = {| wire := raw; v_columns := Z.of_nat (length cols); v_rows := Z.of_nat (length rows);
             v_truncated := tr |}) s) end.
  { apply wp_bind, (wp_check d _ (or_introl HL)). intros s1 [S1 S2]. apply wp_bind.
    rewrite (placed_get raw 0 HEADER_BYTES _ Ph) by (rewrite blen_print_header by assumption; lia).
    rewrite (header_complete i l i' l') by (try assumption; try lia; unfold print_body in *;
      rewrite !blen_app in *; unfold print_description in *; rewrite !blen_print_message in *;
      rewrite !blen_app, !blen_pack_be in *; pose proof (blen_print_columns cols);
      pose proof (blen_print_rows cols rows Fr); lia).
    apply wp_bind, (wp_refuse (fun _ => False)); cbn [frame_bytes].
    { left. apply negb_false_iff, Z.eqb_eq. lia. }
    intros _. unfold run_parser. cbn [h_columns h_rows h_truncated].
    unfold print_body in Pb. apply placed_app in Pb as [Pd Pb]. apply placed_app in Pb as [Pr Pc].
    apply wp_bind, description_complete; rewrite ?S1, ?S2; cbn [new_parser offset oids]; try assumption; try lia.
    { rewrite length_replicate. unfold MAX_COLUMNS. lia. }
    intros s2 O2 C2.
    unfold print_body in Lr. rewrite !blen_app, blen_print_message in Lr.
    pose proof (blen_print_rows cols rows Fr).
    apply wp_bind. unfold data_rows. apply wp_bind, wp_get, wp_bind, (wp_refuse (fun _ => False)).
    { left. apply Z.ltb_ge. lia. }
    intros _. rewrite Nat2Z.id. apply (rows_complete raw l d HL cols rows 0); try assumption; try lia.
    { rewrite O2. exact Pr. }
    intros s3 O3. apply wp_bind, (completion_complete raw d HL).
    - rewrite O3, O2. exact Pc.
    - rewrite O3, O2, blen_print_message. lia.
    - lia.
    - intros s4. apply wp_bind, (wp_check d _ (or_introl HL)). intros s5 _. apply wp_ret. reflexivity. }
  unfold wp in W. match goal with |- exists n, (let '(_, _) := ?m in _) = _ => destruct m as [[v|e] s'] end;
    [|contradiction]. subst v. eexists. reflexivity.
Qed.

(** ** The clock *)

(** Every reading of a run is before the deadline, but the last one of a run
    that raises [RESULT_DEADLINE]. *)
Definition timely {A} (d : ResultDeadline) (m : parsing A) : Prop := forall s,
  (reads s <= reads (m s).2)%nat /\
  match (m s).1 with
  | Err RESULT_DEADLINE =>
      exists k, (reads s <= k < reads (m s).2)%nat /\ remaining d k <= 0
  | _ => forall k, (reads s <= k < reads (m s).2)%nat -> 0 < remaining d k
  end.

Section timely.
Context (raw : list byte) (l : ResultLimits) (d : ResultDeadline).

Lemma timely_pure {A} (m : parsing A) :
  (forall s, reads (m s).2 = reads s /\ (m s).1 <> Err RESULT_DEADLINE) -> timely d m.
Proof.
  intros H s. destruct (H s) as [E N]. rewrite E. split; [lia|].
  destruct (m s).1 as [a|[]]; try (intros k ?; lia). congruence.
Qed.

Lemma timely_bind {A B} (m : parsing A) (f : A -> parsing B) :
  timely d m -> (forall a, timely d (f a)) -> timely d (m ≫= f).
Proof.
  intros Hm Hf s. specialize (Hm s). unfold mbind, st_bind.
  destruct (m s) as [[a|e] s1]; cbn [fst snd] in *; [|exact Hm].
  destruct Hm as [L1 A1]. specialize (Hf a s1). destruct (f a s1) as [[b|e] s2]; cbn [fst snd] in *;
    destruct Hf as [L2 A2]; (split; [lia|]).
  - intros k Hk. destruct (decide (k < reads s1)%nat); [apply A1|apply A2]; lia.
  - destruct e; try (intros k Hk; destruct (decide (k < reads s1)%nat); [apply A1|apply A2]; lia).
    destruct A2 as (k & Hk & Hr). exists k. split; [lia|exact Hr].
Qed.

Lemma timely_check : timely d (check_deadline d).
Proof.
  intros s. unfold check_deadline. cbn [fst snd read_clock reads].
  destruct (Z.leb_spec (remaining d (reads s)) 0) as [L|L]; (split; [lia|]).
  - exists (reads s). split; [lia|exact L].
  - intros k Hk. replace k with (reads s) by lia. exact L.
Qed.

Lemma timely_guard b e : e <> RESULT_DEADLINE -> timely d (guard_st b e).
Proof. intros N. apply timely_pure. intros s. destruct b; cbn; split; congruence. Qed.

Lemma timely_raise {A} e : e <> RESULT_DEADLINE -> timely d (raise_st e : parsing A).
Proof. intros N. apply timely_pure. intros s. cbn. split; congruence. Qed.

Lemma timely_ret {A} (a : A) : timely d (mret a).
Proof. apply timely_pure. intros s. cbn. split; congruence. Qed.

Lemma timely_get : timely d get_st.
Proof. apply timely_pure. intros s. cbn. split; congruence. Qed.

Lemma timely_modify f : (forall s, reads (f s) = reads s) -> timely d (modify f).
Proof. intros H. apply timely_pure. intros s. cbn. split; [apply H|congruence]. Qed.

Lemma timely_iter {A} (f : A -> parsing unit) k : (forall x, timely d (f x)) -> timely d (iterM_st f k).
Proof.
  intros H. induction k as [|x k IH]; cbn [iterM_st]; [apply timely_ret|].
  apply timely_bind; [apply H|intros _; exact IH].
Qed.

(** Follow the structure of a routine down to the readings of the clock. *)
Ltac timely := repeat first
  [ assumption | apply timely_bind; [|intros ?] | apply timely_check | apply timely_guard; discriminate
  | apply timely_raise; discriminate | apply timely_ret | apply timely_get
  | apply timely_modify; intros ?; reflexivity | apply timely_iter; intros ? | progress cbv zeta | case_match ].

Lemma timely_tick : timely d (tick d).
Proof. unfold tick. timely. Qed.

Lemma timely_message tag m : timely d (message raw d tag m).
Proof. unfold message. timely. Qed.

Lemma timely_exact_end e : timely d (exact_end e).
Proof. unfold exact_end. timely. Qed.

Lemma timely_text a b : timely d (text raw d a b).
Proof.
  unfold text. timely. generalize (py_range a b TEXT_BLOCK) as os, utf8_start as dec.
  induction os as [|o os IH]; intros dec; cbn [text_blocks]; timely. apply IH.
Qed.

Lemma timely_value a b oid : timely d (value raw d a b oid).
Proof. unfold value, integer. timely; apply timely_text. Qed.

Lemma timely_run h : timely d (run_parser raw l d h).
Proof.
  unfold run_parser, description, data_rows, completion, data_row.
  timely; try apply timely_message; try apply timely_exact_end.
  - unfold describe_column. timely; try apply timely_tick; apply timely_text.
  - unfold data_cell. timely; try apply timely_tick; apply timely_value.
Qed.
End timely.

Lemma header_not_deadline h i l : inspect_result_header h i l <> Err RESULT_DEADLINE.
Proof.
  unfold inspect_result_header, refuse_if. cbv zeta.
  repeat (case_match; cbn [mbind res_bind]; try discriminate).
Qed.

(** ** Chunks *)

Lemma chunks_from_spec r d c m n o :
  0 < c -> 0 <= o <= blen (wire r) -> blen (wire r) <= o + c * Z.of_nat m ->
  o + c * (Z.of_nat m - 1) < blen (wire r) \/ m = O ->
  forall chunks answer,
    chunks_from r d c n (map (fun k => o + c * Z.of_nat k) (seq 0 m)) = (chunks, answer) ->
  Forall (fun piece => 1 <= blen piece <= c) chunks /\
  exists rest, slice o (blen (wire r)) (wire r) = concat chunks ++ rest /\
    (answer = Ok tt -> rest = []) /\ (live d -> answer = Ok tt).
Proof.
  intros Hc. revert n o; induction m as [|m IH]; intros n o Ho Hm Hl chunks answer.
  - cbn [seq map chunks_from]. intros [= <- <-]. split; [constructor|]. exists [].
    assert (o = blen (wire r)) as -> by lia. rewrite slice_empty. split; [reflexivity|]. split; [reflexivity|].
    intros L. specialize (L n). destruct (Z.leb_spec (remaining d n) 0); [lia|reflexivity].
  - destruct Hl as [Hl|[=]]. cbn [seq map chunks_from]. replace (o + c * Z.of_nat 0) with o by lia.
    destruct (Z.leb_spec (remaining d n) 0) as [L|L].
    { intros [= <- <-]. split; [constructor|]. eexists. split; [reflexivity|]. split; [discriminate|].
      intros A. specialize (A n). lia. }
    rewrite <- seq_shift, map_map. set (e := Z.min (o + c) (blen (wire r))).
    destruct (chunks_from _ _ _ _ _) as [ch an] eqn:Hch. intros [= <- <-].
    assert (Eo : m <> O -> e = o + c) by (intros; assert (c <= c * Z.of_nat m) by nia; unfold e; lia).
    assert (Hch' : chunks_from r d c (S n) (map (fun k => e + c * Z.of_nat k) (seq 0 m)) = (ch, an)).
    { destruct m as [|m]; [exact Hch|]. rewrite Eo by lia. rewrite <- Hch. f_equal.
      apply map_ext. intros k. lia. }
    assert (Eb : e <= blen (wire r)) by (unfold e; lia).
    assert (Ez : m = O -> e = blen (wire r)) by (unfold e; lia).
    apply IH in Hch' as (F & rest & Hs & H1 & H2); [|unfold e; lia| |].
    2:{ destruct m; [rewrite Ez by reflexivity; lia|rewrite Eo by lia; lia]. }
    2:{ destruct m; [right; reflexivity|left]. rewrite Eo by lia. lia. }
    split; [constructor; [rewrite blen_slice by lia; lia|exact F]|]. exists rest.
    cbn [concat]. rewrite <- app_assoc, <- Hs. split; [apply slice_split; lia|]. split; assumption.
Qed.

(** ** Properties *)

(** C30: validation accepts exactly the frames of the grammar: whatever the
    clock does, an accepted byte string is the printed form of one result that
    is valid under the limits, identity, header, every name, type and cell
    included, and the answer counts it; and under a clock that stays before the
    deadline the frame of every valid result is accepted. *)
Theorem frame_grammar i l d start :
  result_identity i = Ok i -> result_limits l = Ok l ->
  (forall raw v n, validate_result raw i l d start = (Ok v, n) ->
     exists truncated columns rows,
       valid_result i l truncated columns rows /\ raw = print_frame i truncated columns rows /\
       v = {| wire := raw; v_columns := Z.of_nat (length columns); v_rows := Z.of_nat (length rows);
              v_truncated := truncated |}) /\
  (live d -> forall truncated columns rows, valid_result i l truncated columns rows ->
     exists v n, validate_result (print_frame i truncated columns rows) i l d start = (Ok v, n)).
Proof.
  intros Hi Hl. split.
  - intros raw v n H. eapply validate_result_sound; eassumption.
  - intros HL tr cols rows V.
    destruct (validate_result_complete i l d start tr cols rows i l HL Hi Hl V) as [n H]. eauto.
Qed.

(** the deadline is enforced, and only the deadline: validation raises
    [RESULT_DEADLINE] exactly when one of the clock readings it made found the
    deadline reached, and an accepted frame was accepted with every reading,
    the last one included, before it. *)
Theorem deadline_enforced raw i l d start answer n :
  validate_result raw i l d start = (answer, n) ->
  (start <= n)%nat /\
  (answer = Err RESULT_DEADLINE <-> exists k, (start <= k < n)%nat /\ remaining d k <= 0).
Proof.
  unfold validate_result. case_match.
  { intros [= <- <-]. split; [lia|]. split; [discriminate|]. intros (k & ? & _). lia. }
  match goal with |- (let '(_, _) := ?m ?s in _) = _ -> _ => assert (T : timely d m) end.
  { apply timely_bind; [apply timely_check|intros _]. apply timely_bind.
    - apply timely_pure. intros s. cbn. split; [reflexivity|apply header_not_deadline].
    - intros h. apply timely_bind; [apply timely_guard; discriminate|intros _; apply timely_run]. }
  specialize (T (new_parser start)). match goal with |- (let '(_, _) := ?m in _) = _ -> _ => destruct m as [r s'] end.
  intros [= <- <-].
  destruct T as [T1 T2]. cbn [fst snd new_parser reads] in *. split; [exact T1|].
  destruct r as [v|[]]; try (split; [discriminate|intros (k & Hk & Hr); specialize (T2 k Hk); lia]).
  split; [intros _; exact T2|reflexivity].
Qed.

(** The chunks are the body: whatever the clock does they are non-empty
    pieces no longer than asked, in order, of the frame past its header; an
    iteration that ends without an error has yielded all of it, and under a
    live clock it ends so. *)
Theorem chunks_reassemble r d chunk_bytes n chunks answer :
  HEADER_BYTES <= blen (wire r) -> 1 <= chunk_bytes <= MAX_CHUNK ->
  iter_chunks r d chunk_bytes n = (chunks, answer) ->
  Forall (fun piece => 1 <= blen piece <= chunk_bytes) chunks /\
  exists rest, slice HEADER_BYTES (blen (wire r)) (wire r) = concat chunks ++ rest /\
    (answer = Ok tt -> rest = []) /\ (live d -> answer = Ok tt).
Proof.
  intros Hw Hc. unfold iter_chunks, positive_in.
  replace (negb ((1 <=? chunk_bytes) && (chunk_bytes <=? MAX_CHUNK))) with false by lia.
  unfold py_range. assert (HEADER_BYTES = 76) by reflexivity. set (size := blen (wire r)) in *.
  pose proof (Z.div_mod (size - HEADER_BYTES + chunk_bytes - 1) chunk_bytes ltac:(lia)).
  pose proof (Z.mod_pos_bound (size - HEADER_BYTES + chunk_bytes - 1) chunk_bytes ltac:(lia)).
  set (q := (size - HEADER_BYTES + chunk_bytes - 1) / chunk_bytes) in *.
  assert (0 <= q) by (apply Z.div_pos; lia).
  apply chunks_from_spec; [lia|unfold size; lia|nia|].
  destruct (Z.eq_dec q 0); [right; lia|left]. rewrite Z2Nat.id by lia. fold size. nia.
Qed.

(** ** Witnesses *)

Definition sample_identity : ResultIdentity :=
  {| session_id := replicate 16 (z2b 1); datasource_id := replicate 16 (z2b 2);
     generation := 3; record_revision := 4; job_id := 5 |}.

Definition sample_limits : ResultLimits :=
  {| max_rows := 2; max_frame_bytes := 4096; max_cell_bytes := 64; max_columns := 8;
     max_name_bytes := 63 |}.

(** A clock that advances by one at each reading. *)
Definition sample_deadline (expires : Z) : ResultDeadline :=
  {| expires_at := expires; clock := fun n => Some (Z.of_nat n) |}.

Definition still_deadline : ResultDeadline := {| expires_at := 10; clock := fun _ => Some 0 |}.

Definition sample_columns : list wire_column :=
  [ {| wire_name := ascii_lit "id"; wire_oid := 23 |};
    {| wire_name := ascii_lit "email"; wire_oid := 25 |} ].

Definition sample_rows : list (list wire_cell) :=
  [ [Some (ascii_lit "-7"); Some (ascii_lit "[REDACTED]")]; [Some (ascii_lit "0"); None] ].

Lemma still_live : live still_deadline.
Proof. intros n. reflexivity. Qed.

Lemma sample_valid : valid_result sample_identity sample_limits true sample_columns sample_rows.
Proof.
  assert (C : forall c bs, valid_value (wire_oid c) bs -> blen bs <= 64 ->
            valid_cell sample_limits c (Some bs)) by (intros c bs V L b [= <-]; auto).
  split; [cbn; lia|]. split; [cbn; lia|]. split; [reflexivity|]. split; [|split].
  - repeat constructor; try (cbn; discriminate); eexists; reflexivity.
  - repeat first [apply List.Forall_cons | apply List.Forall_nil | apply List.Forall2_cons | apply List.Forall2_nil];
      try (intros ? N; discriminate N); apply C; try (cbn; discriminate).
    + exists (-7). split; [cbn; lia|reflexivity].
    + split; [reflexivity|discriminate].
    + exists 0. split; [cbn; lia|reflexivity].
  - vm_compute. discriminate.
Qed.

Lemma frame_grammar_witness :
  exists v n, validate_result (print_frame sample_identity true sample_columns sample_rows)
    sample_identity sample_limits still_deadline 0 = (Ok v, n).
Proof.
  exact (proj2 (frame_grammar sample_identity sample_limits still_deadline 0 eq_refl eq_refl)
    still_live true sample_columns sample_rows sample_valid).
Defined.

Lemma deadline_enforced_witness :
  exists k, (0 <= k < 2)%nat /\ remaining (sample_deadline 1) k <= 0.
Proof.
  apply (deadline_enforced (print_frame sample_identity true sample_columns sample_rows)
    sample_identity sample_limits (sample_deadline 1) 0 (Err RESULT_DEADLINE) 2);
    vm_compute; reflexivity.
Defined.

Definition sample_result : ValidatedResult :=
  {| wire := print_frame sample_identity true sample_columns sample_rows; v_columns := 2; v_rows := 2;
     v_truncated := true |}.

Lemma chunks_reassemble_witness :
  Forall (fun piece => 1 <= blen piece <= 50) (iter_chunks sample_result still_deadline 50 0).1 /\
  length (iter_chunks sample_result still_deadline 50 0).1 = 3%nat.
Proof.
  split; [|vm_compute; reflexivity].
  refine (proj1 (chunks_reassemble sample_result still_deadline 50 0 _
    (iter_chunks sample_result still_deadline 50 0).2 _ _ _)).
  - vm_compute. discriminate.
  - vm_compute. split; discriminate.
  - destruct (iter_chunks sample_result still_deadline 50 0); reflexivity.
Defined.
