(* ===== verification/ResultEncoder.v ===== *)
(** * ResultEncoder: from a masked typed result to its private frame

    Models [pgwire/result_encoder.py]: the preflight that sizes the frame, the
    writer that fills a buffer of exactly that size, the header, and the
    validation of the finished frame by [ResultFrame].  [MemoryError] and the
    clearing of tracebacks are not modelled. *)

From S2P Require Import Prelude.
From S2P Require Import Bytes.
From S2P Require Import Unicode.
From S2P Require Import Decimal.
From S2P Require Import Canonical.
From S2P Require Import Masking.
From S2P Require Adapter.
From S2P Require Import ResultFrame.

Local Open Scope Z_scope.

(** ** Failures *)

Inductive EncodeFailure :=
| ENCODE_TYPE | ENCODE_LIMIT | ENCODE_MEMORY | ENCODE_DEADLINE | ENCODE_PROTOCOL.

(** [EncodeError.fatal]. *)
Definition fatal (c : EncodeFailure) : bool :=
  match c with ENCODE_MEMORY | ENCODE_PROTOCOL | ENCODE_DEADLINE => true | _ => false end.

(** The exceptions inside [_Encoder]: its own, those of [result_frame], the
    integrity error of [TypedMaskedResult], and any other. *)
Inductive encode_exn :=
| Encode (c : EncodeFailure)
| Frame (c : ResultErrorCategory)
| Integrity
| OtherError.

(** The category [encode_result] gives an exception. *)
Definition failure_category (e : encode_exn) : EncodeFailure :=
  match e with
  | Encode c => c
  | Frame RESULT_DEADLINE => ENCODE_DEADLINE
  | Frame _ | Integrity | OtherError => ENCODE_PROTOCOL
  end.

Definition BLOCK_CHARS : Z := 4096.
Definition NAME_MAX : Z := 63.
Definition BOOL_OID : Z := 16.

(** ** The encoder's state: the cooperative work done, the readings of the
    clock, and the writer's buffer and offset *)

Record encoder := {
  e_work : Z;
  e_reads : nat;
  buffer : list byte;
  w_offset : Z;
}.

Abbreviation encoding := (st encoder encode_exn).

Definition set_work (w : Z) (s : encoder) : encoder :=
  {| e_work := w; e_reads := e_reads s; buffer := buffer s; w_offset := w_offset s |}.
Definition read_once (s : encoder) : encoder :=
  {| e_work := e_work s; e_reads := S (e_reads s); buffer := buffer s; w_offset := w_offset s |}.
Definition set_reads (n : nat) (s : encoder) : encoder :=
  {| e_work := e_work s; e_reads := n; buffer := buffer s; w_offset := w_offset s |}.

Definition set_buffer (b : list byte) (s : encoder) : encoder :=
  {| e_work := e_work s; e_reads := e_reads s; buffer := b; w_offset := w_offset s |}.
Definition set_offset (o : Z) (s : encoder) : encoder :=
  {| e_work := e_work s; e_reads := e_reads s; buffer := buffer s; w_offset := o |}.

Definition update (f : encoder -> encoder) : encoding unit := fun s => (Ok tt, f s).

(** ** The writer, [_Writer] *)

(** [_Writer.put]. *)
Definition put (value : list byte) : encoding unit :=
  s ← get_st;
  let stop := w_offset s + blen value in
  guard_st (blen (buffer s) <? stop) (Encode ENCODE_PROTOCOL);;
  update (fun s => set_offset stop (set_buffer (write_at (w_offset s) value (buffer s)) s)).

(** [_Writer.number], at a format of [width] bytes. *)
Definition number (width : nat) (value : Z) : encoding unit :=
  s ← get_st;
  guard_st (blen (buffer s) <? w_offset s + Z.of_nat width) (Encode ENCODE_PROTOCOL);;
  update (fun s => set_offset (w_offset s + Z.of_nat width)
                     (set_buffer (write_at (w_offset s) (pack_be width value) (buffer s)) s)).

(** [_Writer.start]. *)
Definition start (tag : Z) : encoding Z :=
  put [z2b tag];;
  s ← get_st;
  number 4 0;;
  mret (w_offset s).

(** [pack_into(buffer, prefix, value)] of a 4-byte format. *)
Definition patch (prefix value : Z) : encoding unit :=
  update (fun s => set_buffer (write_at prefix (pack_be 4 value) (buffer s)) s).

(** [_Writer.end]. *)
Definition end_message (prefix : Z) : encoding unit :=
  s ← get_st; patch prefix (w_offset s - prefix).

Section encoder.
Context (limits : ResultLimits) (deadline : ResultDeadline).

(** [self.deadline.check()]. *)
Definition check : encoding unit := fun s =>
  (if remaining deadline (e_reads s) <=? 0 then Err (Frame RESULT_DEADLINE) else Ok tt, read_once s).

(** [_Encoder.tick]. *)
Definition encoder_tick : encoding unit :=
  update (fun s => set_work (e_work s + 1) s);;
  s ← get_st;
  if WORK_CHECK <=? e_work s then check;; update (set_work 0) else mret tt.

(** [value[start : start + _BLOCK_CHARS]]. *)
Definition block_at (o : Z) (value : pystr) : pystr :=
  take (Z.to_nat BLOCK_CHARS) (drop (Z.to_nat o) value).

Definition slen (s : pystr) : Z := Z.of_nat (length s).

(** [if start or len(value) > _BLOCK_CHARS: deadline.check()]. *)
Definition check_block (o : Z) (value : pystr) : encoding unit :=
  if negb (o =? 0) || (BLOCK_CHARS <? slen value) then check else mret tt.

(** [_utf8]. *)
Definition utf8 (s : pystr) : encoding (list byte) :=
  if is_ascii s then mret (ascii_encode s)
  else match utf8_encode s with Some bs => mret bs | None => raise_st (Encode ENCODE_TYPE) end.

Definition has_nul (s : pystr) : bool := existsb (fun c => c =? 0) s.

(** The loop over blocks of [_Encoder.text_size]. *)
Fixpoint size_blocks (value : pystr) (maximum : Z) (over : EncodeFailure) (size : Z)
    (offsets : list Z) : encoding Z :=
  match offsets with
  | [] => mret size
  | o :: offsets =>
      check_block o value;;
      let block := block_at o value in
      guard_st (has_nul block) (Encode ENCODE_TYPE);;
      bs ← utf8 block;
      let size := size + blen bs in
      guard_st (maximum <? size) (Encode over);;
      size_blocks value maximum over size offsets
  end.

(** [_Encoder.text_size]. *)
Definition text_size (value : pystr) (maximum : Z) (over : EncodeFailure) : encoding Z :=
  encoder_tick;;
  guard_st (maximum <? slen value) (Encode over);;
  if (slen value <=? BLOCK_CHARS) && is_ascii value then
    guard_st (has_nul value) (Encode ENCODE_TYPE);;
    mret (slen value)
  else size_blocks value maximum over 0 (py_range 0 (slen value) BLOCK_CHARS).

(** [_Encoder.cell_size]. *)
Definition cell_size (value : pyval) (oid : Z) : encoding Z :=
  encoder_tick;;
  match value with
  | VNone => mret (-1)
  | _ =>
      if bool_decide (oid ∈ TEXT_TYPES) then
        match value with
        | VStr s =>
            if oid =? NAME_OID then
              size ← text_size s NAME_MAX ENCODE_TYPE;
              guard_st (max_cell_bytes limits <? size) (Encode ENCODE_LIMIT);;
              mret size
            else text_size s (max_cell_bytes limits) ENCODE_LIMIT
        | _ => raise_st (Encode ENCODE_TYPE)
        end
      else
        size ← match assoc oid INTEGER_BITS, value with
               | Some bits, VInt n =>
                   guard_st (negb ((- 2 ^ (bits - 1) <=? n) && (n <? 2 ^ (bits - 1))))
                     (Encode ENCODE_TYPE);;
                   mret (slen (str_int n))
               | None, VBool _ =>
                   if oid =? BOOL_OID then mret 1 else raise_st (Encode ENCODE_TYPE)
               | _, _ => raise_st (Encode ENCODE_TYPE)
               end;
        guard_st (max_cell_bytes limits <? size) (Encode ENCODE_LIMIT);;
        mret size
  end.

(** [_ColumnPlan]. *)
Record column_plan := {
  plan_name : pystr;
  plan_oid : Z;
  name_bytes : Z;
}.

(** One column of [_Encoder.__init__]. *)
Definition plan_column (column : pystr * Z) : encoding column_plan :=
  size ← text_size column.1 (max_name_bytes limits) ENCODE_LIMIT;
  mret {| plan_name := column.1; plan_oid := column.2; name_bytes := size |}.

(** The cells of one row in [_Encoder.preflight], from the total so far. *)
Fixpoint size_cells (total : Z) (cells : list (pyval * column_plan)) : encoding Z :=
  match cells with
  | [] => mret total
  | (value, column) :: cells =>
      size ← cell_size value (plan_oid column);
      let total := total + (4 + Z.max 0 size) in
      guard_st (max_frame_bytes limits <? total) (Encode ENCODE_LIMIT);;
      size_cells total cells
  end.

Fixpoint size_rows (columns : list column_plan) (total : Z) (rows : list (list pyval)) : encoding Z :=
  match rows with
  | [] => mret total
  | row :: rows =>
      total ← size_cells (total + 7) (zip row columns);
      guard_st (negb (length row =? length columns)%nat) OtherError;;
      size_rows columns total rows
  end.

Definition sum_names (columns : list column_plan) : Z :=
  foldr (fun c n => 19 + name_bytes c + n) 0 columns.

(** [_Encoder.preflight]. *)
Definition preflight (columns : list column_plan) (rows : list (list pyval)) (truncated : bool)
    : encoding Z :=
  check;;
  let count := Z.of_nat (length rows) in
  guard_st ((max_columns limits <? Z.of_nat (length columns)) || (max_rows limits <? count))
    (Encode ENCODE_LIMIT);;
  guard_st (truncated && negb (count =? max_rows limits)) (Encode ENCODE_PROTOCOL);;
  let total := HEADER_BYTES + 7 + sum_names columns + (5 + blen (command count)) in
  guard_st (max_frame_bytes limits <? total) (Encode ENCODE_LIMIT);;
  size_rows columns total rows.

(** The loop over blocks of [_Encoder.write_text]. *)
Fixpoint write_blocks (value : pystr) (offsets : list Z) : encoding unit :=
  match offsets with
  | [] => mret tt
  | o :: offsets =>
      check_block o value;;
      bs ← utf8 (block_at o value);
      put bs;;
      write_blocks value offsets
  end.

(** [_Encoder.write_text]. *)
Definition write_text (value : pystr) : encoding unit :=
  encoder_tick;;
  if (slen value <=? BLOCK_CHARS) && is_ascii value then put (ascii_encode value)
  else write_blocks value (py_range 0 (slen value) BLOCK_CHARS).

(** The rest of [_Encoder.write_cell], past its path for short ASCII text. *)
Definition write_general (value : pyval) (oid : Z) : encoding unit :=
  s ← get_st;
  let prefix := w_offset s in
  number 4 (match value with VNone => -1 | _ => 0 end);;
  match value with
  | VNone => mret tt
  | _ =>
      (if bool_decide (oid ∈ TEXT_TYPES) then
         match value with VStr v => write_text v | _ => raise_st OtherError end
       else match assoc oid INTEGER_BITS with
       | Some _ => match value with
                   | VInt n => put (ascii_encode (str_int n))
                   | _ => raise_st (Encode ENCODE_PROTOCOL)
                   end
       | None => put (match value with VBool true => ascii_lit "t" | _ => ascii_lit "f" end)
       end);;
      s ← get_st;
      patch prefix (w_offset s - prefix - 4)
  end.

(** [_Encoder.write_cell]. *)
Definition write_cell (value : pyval) (oid : Z) : encoding unit :=
  encoder_tick;;
  match value with
  | VStr v =>
      if bool_decide (oid ∈ TEXT_TYPES) && ((slen v <=? BLOCK_CHARS) && is_ascii v) then
        s ← get_st;
        let data := ascii_encode v in
        let stop := w_offset s + 4 + blen data in
        guard_st (blen (buffer s) <? stop) (Encode ENCODE_PROTOCOL);;
        update (fun s => set_buffer (write_at (w_offset s) (pack_be 4 (blen data)) (buffer s)) s);;
        update (fun s => set_offset stop
                           (set_buffer (write_at (w_offset s + 4) data (buffer s)) s))
      else write_general value oid
  | _ => write_general value oid
  end.

(** One column of the description that [_Encoder.run] writes. *)
Definition write_column (c : column_plan) : encoding unit :=
  check;;
  write_text (plan_name c);;
  put [z2b 0];;
  put (pack_be 4 0 ++ pack_be 2 0 ++ pack_be 4 (plan_oid c) ++
       pack_be 2 (default 0 (assoc (plan_oid c) Adapter.WIRE_TYPE_SIZES)) ++
       pack_be 4 (-1) ++ pack_be 2 0).

(** One row that [_Encoder.run] writes. *)
Definition write_row (columns : list column_plan) (row : list pyval) : encoding unit :=
  prefix ← start 68;
  number 2 (Z.of_nat (length columns));;
  iterM_st (fun cell => write_cell cell.1 (plan_oid cell.2)) (zip row columns);;
  end_message prefix.

(** [validate_result] of the finished frame, by the same clock. *)
Definition validated (identity : ResultIdentity) : encoding (list byte) := fun s =>
  match validate_result (buffer s) identity limits deadline (e_reads s) with
  | (Ok _, n) => (Ok (buffer s), set_reads n s)
  | (Err c, n) => (Err (Frame c), set_reads n s)
  end.

(** [_Encoder.run]. *)
Definition run_encoder (identity : ResultIdentity) (columns : list column_plan)
    (rows : list (list pyval)) (truncated : bool) : encoding (list byte) :=
  total ← preflight columns rows truncated;
  update (fun s => set_offset HEADER_BYTES (set_buffer (replicate (Z.to_nat total) (z2b 0)) s));;
  prefix ← start 84;
  number 2 (Z.of_nat (length columns));;
  iterM_st write_column columns;;
  end_message prefix;;
  iterM_st (write_row columns) rows;;
  prefix ← start 67;
  put (command (Z.of_nat (length rows)));;
  end_message prefix;;
  s ← get_st;
  guard_st (negb (w_offset s =? total)) (Encode ENCODE_PROTOCOL);;
  update (fun s => set_buffer (write_at 0 (print_header identity truncated
    (Z.of_nat (length columns)) (Z.of_nat (length rows)) (total - HEADER_BYTES)) (buffer s)) s);;
  validated identity.

(** [_Encoder.__init__], then [run]. *)
Definition encode (result : Adapter.TypedMaskedResult) (identity : ResultIdentity)
    : encoding (list byte) :=
  let item := Adapter.masked result in
  check;;
  guard_st ((max_rows limits <? Z.of_nat (length (Adapter.rows item))) ||
            (max_columns limits <? Z.of_nat (length (Adapter.columns item)))) (Encode ENCODE_LIMIT);;
  guard_st (negb (is_ok (Adapter.typed_masked_result result))) Integrity;;
  check;;
  columns ← mapM_st plan_column
              (zip (map output_name (Adapter.columns item)) (Adapter.type_oids result));
  run_encoder identity columns (Adapter.rows item) (Adapter.truncated item).
End encoder.

Definition new_encoder : encoder :=
  {| e_work := 0; e_reads := 0; buffer := []; w_offset := HEADER_BYTES |}.

Definition encode_result (result : Adapter.TypedMaskedResult) (identity : ResultIdentity)
    (limits : ResultLimits) (deadline : ResultDeadline) : res EncodeFailure (list byte) :=
  match (encode limits deadline result identity new_encoder).1 with
  | Ok frame => Ok frame
  | Err e => Err (failure_category e)
  end.

(** ** Text and its bytes *)

Lemma utf8_char_facts c bs :
  utf8_char c = Some bs -> 1 <= blen bs /\ has_zero bs = (c =? 0).
Proof.
  intros H. pose proof (utf8_char_range _ _ H) as Hc. revert H. unfold utf8_char, blen, has_zero.
  pose proof (Z.mod_pos_bound c 64 ltac:(lia)). pose proof (Z.mod_pos_bound (c / 64) 64 ltac:(lia)).
  pose proof (Z.mod_pos_bound (c / 4096) 64 ltac:(lia)).
  assert (0 <= c / 64 /\ 0 <= c / 4096 /\ 0 <= c / 262144) by (split; [|split]; apply Z.div_pos; lia).
  utf8_cases; intros [= <-]; cbn [existsb length].
  - rewrite b2z_z2b_small by lia. rewrite orb_false_r. split; [lia|reflexivity].
  - assert (c / 64 < 32) by (apply Z.div_lt_upper_bound; lia).
    rewrite !b2z_z2b_small by lia. split; lia.
  - assert (c / 4096 < 16) by (apply Z.div_lt_upper_bound; lia).
    rewrite !b2z_z2b_small by lia. split; lia.
  - assert (c / 4096 < 16) by (apply Z.div_lt_upper_bound; lia).
    rewrite !b2z_z2b_small by lia. split; lia.
  - assert (c / 262144 < 8) by (apply Z.div_lt_upper_bound; lia).
    rewrite !b2z_z2b_small by lia. split; lia.
Qed.

Lemma utf8_encode_facts s bs :
  utf8_encode s = Some bs -> slen s <= blen bs /\ has_zero bs = has_nul s.
Proof.
  revert bs; induction s as [|c s IH]; intros bs; cbn [utf8_encode].
  - intros [= <-]. split; [reflexivity|reflexivity].
  - destruct (utf8_char c) as [b|] eqn:Hc; [|discriminate].
    destruct (utf8_encode s) as [r|]; [|discriminate]. intros [= <-].
    destruct (utf8_char_facts _ _ Hc) as [L Z0]. destruct (IH r eq_refl) as [L' Z1].
    rewrite blen_app, has_zero_app, Z0, Z1. unfold slen in *. cbn [length has_nul existsb].
    split; [lia|reflexivity].
Qed.

Lemma utf8_encode_app a b :
  utf8_encode (a ++ b) = (x ← utf8_encode a; y ← utf8_encode b; Some (x ++ y)).
Proof.
  induction a as [|c a IH]; cbn [app utf8_encode].
  - cbn. destruct (utf8_encode b); reflexivity.
  - destruct (utf8_char c) as [x|]; [|reflexivity]. cbn [mbind option_bind] in *. rewrite IH.
    destruct (utf8_encode a) as [y|]; [|reflexivity]. cbn.
    destruct (utf8_encode b) as [z|]; [|reflexivity]. cbn. rewrite app_assoc. reflexivity.
Qed.

Lemma ascii_utf8 s : is_ascii s = true -> utf8_encode s = Some (ascii_encode s).
Proof.
  induction s as [|c s IH]; [reflexivity|]. cbn [is_ascii forallb]. rewrite andb_true_iff.
  intros [Hc Hs]. cbn [utf8_encode]. rewrite (IH Hs). unfold utf8_char.
  destruct (Z.ltb_spec c 0); [lia|]. destruct (Z.ltb_spec c 128); [reflexivity|lia].
Qed.

Lemma blen_ascii s : blen (ascii_encode s) = slen s.
Proof. unfold blen, slen, ascii_encode. rewrite length_map. reflexivity. Qed.

Lemma utf8_valid_text s bs : utf8_encode s = Some bs -> has_zero bs = false -> valid_text bs = true.
Proof.
  intros H Z0. unfold valid_text, short_utf8. rewrite Z0, (utf8_decode_encode _ _ H). reflexivity.
Qed.

(** ** Specifications of the sizing routines

    [bad R e]: under a live clock, the error [e] is [ENCODE_TYPE] or
    [ENCODE_LIMIT], or [ENCODE_PROTOCOL] for a misreported truncation, and the
    thing to encode is not representable. *)

Section sizing.
Context (limits : ResultLimits) (deadline : ResultDeadline) (misreported : Prop).

Definition bad (R : Prop) (e : encode_exn) : Prop :=
  live deadline ->
  (e = Encode ENCODE_TYPE \/ e = Encode ENCODE_LIMIT \/ (e = Encode ENCODE_PROTOCOL /\ misreported)) /\
  ~ R.

Lemma bad_weaken (R R' : Prop) e : (R' -> R) -> bad R e -> bad R' e.
Proof. unfold bad. intuition. Qed.

Lemma wpe_weaken {A} (R R' : Prop) (m : encoding A) Q s :
  wpe (bad R) m Q s -> (R' -> R) -> wpe (bad R') m Q s.
Proof. intros H W. eapply wpe_mono; [intros e; apply bad_weaken; exact W|intros r s' HQ; exact HQ|exact H]. Qed.

Lemma bad_type (R : Prop) : ~ R -> bad R (Encode ENCODE_TYPE).
Proof. unfold bad. auto. Qed.

Lemma bad_limit (R : Prop) : ~ R -> bad R (Encode ENCODE_LIMIT).
Proof. unfold bad. auto. Qed.

(** Sizing leaves the writer alone. *)
Definition kept (s s' : encoder) : Prop := buffer s' = buffer s /\ w_offset s' = w_offset s.

Lemma kept_trans s1 s2 s3 : kept s1 s2 -> kept s2 s3 -> kept s1 s3.
Proof. unfold kept. intuition congruence. Qed.

Lemma kept_refl s : kept s s.
Proof. split; reflexivity. Qed.

Lemma wpe_update E f (Q : unit -> encoder -> Prop) s : Q tt (f s) -> wpe E (update f) Q s.
Proof. exact id. Qed.

Lemma wpe_check R (Q : unit -> encoder -> Prop) s :
  (forall s', kept s s' -> Q tt s') -> wpe (bad R) (check deadline) Q s.
Proof.
  intros HQ. unfold wpe, check. destruct (Z.leb_spec (remaining deadline (e_reads s)) 0).
  - intros L. specialize (L (e_reads s)). lia.
  - apply HQ. split; reflexivity.
Qed.

Lemma wpe_encoder_tick R (Q : unit -> encoder -> Prop) s :
  (forall s', kept s s' -> Q tt s') -> wpe (bad R) (encoder_tick deadline) Q s.
Proof.
  intros HQ. unfold encoder_tick. apply wpe_bind, wpe_update, wpe_bind, wpe_get. case_match.
  - apply wpe_bind, wpe_check. intros s' [H1 H2]. apply wpe_update, HQ. split; [exact H1|exact H2].
  - apply wpe_ret, HQ. split; reflexivity.
Qed.

Lemma wpe_check_block R o v (Q : unit -> encoder -> Prop) s :
  (forall s', kept s s' -> Q tt s') -> wpe (bad R) (check_block deadline o v) Q s.
Proof.
  intros HQ. unfold check_block. destruct (_ || _); [apply wpe_check, HQ|apply wpe_ret, HQ, kept_refl].
Qed.

Lemma wpe_utf8 (R : Prop) v (Q : list byte -> encoder -> Prop) s :
  (R -> is_Some (utf8_encode v)) -> (forall bs, utf8_encode v = Some bs -> Q bs s) ->
  wpe (bad R) (utf8 v) Q s.
Proof.
  intros HR HQ. unfold utf8. destruct (is_ascii v) eqn:A; [apply wpe_ret, HQ, ascii_utf8, A|].
  destruct (utf8_encode v) as [bs|]; [apply wpe_ret, HQ; reflexivity|].
  apply wpe_raise, bad_type. intros r. destruct (HR r) as [? [=]].
Qed.

(** The text fits in [maximum] bytes, from [size] already counted. *)
Definition fits (size maximum : Z) (v : pystr) : Prop :=
  exists bs, utf8_encode v = Some bs /\ has_zero bs = false /\ size + blen bs <= maximum.

Lemma fits_block size maximum a b :
  fits size maximum (a ++ b) <->
  exists bs, utf8_encode a = Some bs /\ has_zero bs = false /\ fits (size + blen bs) maximum b.
Proof.
  unfold fits. rewrite utf8_encode_app. split.
  - intros (bs & H & Z0 & L). destruct (utf8_encode a) as [x|]; [|discriminate].
    destruct (utf8_encode b) as [y|]; [|discriminate]. injection H as <-.
    rewrite has_zero_app, orb_false_iff in Z0. rewrite blen_app in L. destruct Z0.
    exists x. split; [reflexivity|]. split; [assumption|]. exists y. repeat split; [assumption|lia].
  - intros (x & -> & Z0 & y & -> & Z1 & L). exists (x ++ y). split; [reflexivity|].
    rewrite has_zero_app, Z0, blen_app. split; [exact Z1|lia].
Qed.

Lemma block_split o v : 0 <= o -> drop (Z.to_nat o) v = block_at o v ++ drop (Z.to_nat (o + BLOCK_CHARS)) v.
Proof.
  intros Ho. unfold block_at, BLOCK_CHARS. replace (Z.to_nat (o + 4096)) with (Z.to_nat o + Z.to_nat 4096)%nat by lia.
  rewrite <- drop_drop, take_drop. reflexivity.
Qed.

Lemma size_blocks_spec v maximum over n o size (Q : Z -> encoder -> Prop) s :
  over = ENCODE_TYPE \/ over = ENCODE_LIMIT -> 0 <= o ->
  slen v <= o + BLOCK_CHARS * Z.of_nat n -> size <= maximum ->
  (forall s' bs, kept s s' -> utf8_encode (drop (Z.to_nat o) v) = Some bs -> has_zero bs = false ->
     size + blen bs <= maximum -> Q (size + blen bs) s') ->
  wpe (bad (fits size maximum (drop (Z.to_nat o) v)))
    (size_blocks deadline v maximum over size (map (fun k => o + BLOCK_CHARS * Z.of_nat k) (seq 0 n))) Q s.
Proof.
  intros Hover. revert o size s; induction n as [|n IH]; intros o size s Ho Hn Hz HQ.
  { cbn [seq map size_blocks]. apply wpe_ret.
    assert (E : drop (Z.to_nat o) v = []) by (apply drop_ge; unfold slen in Hn; lia).
    rewrite E in HQ. specialize (HQ s [] (kept_refl s) eq_refl eq_refl).
    change (blen []) with 0 in HQ. rewrite Z.add_0_r in HQ. apply HQ. exact Hz. }
  cbn [seq map size_blocks]. replace (o + BLOCK_CHARS * Z.of_nat 0) with o by lia.
  rewrite (block_split o v Ho) in HQ |- *. set (a := block_at o v) in *. set (b := drop _ v) in *.
  apply wpe_bind, wpe_check_block. intros s1 K1. cbv zeta. apply wpe_bind, wpe_guard.
  { intros B. apply bad_type. rewrite fits_block. intros (bs & U & Z0 & _).
    destruct (utf8_encode_facts _ _ U) as [_ F]. congruence. }
  intros B. apply wpe_bind, wpe_utf8.
  { rewrite fits_block. intros (bs & U & _). eauto. }
  intros x U. destruct (utf8_encode_facts _ _ U) as [_ Zx]. rewrite B in Zx.
  assert (W : fits size maximum (a ++ b) -> fits (size + blen x) maximum b).
  { rewrite fits_block. intros (x' & U' & _ & F). congruence. }
  apply wpe_bind, wpe_guard.
  { intros O. assert (N : ~ fits size maximum (a ++ b)).
    { intros F. apply W in F as (y & _ & _ & L). pose proof (blen_nonneg y). lia. }
    destruct Hover as [-> | ->]; [apply bad_type, N|apply bad_limit, N]. }
  intros O. apply Z.ltb_ge in O. rewrite <- seq_shift, map_map.
  assert (BC : BLOCK_CHARS = 4096) by reflexivity.
  rewrite (map_ext _ (fun k => (o + BLOCK_CHARS) + BLOCK_CHARS * Z.of_nat k)) by (intros; lia).
  eapply wpe_mono; [intros e; apply bad_weaken; exact W|intros r s' H; exact H|].
  apply IH; [lia|lia|exact O|]. intros s2 y K2 Uy Zy L.
  rewrite <- Z.add_assoc, <- blen_app. apply HQ.
  - eapply kept_trans; eassumption.
  - rewrite utf8_encode_app, U. fold b in Uy. rewrite Uy. reflexivity.
  - rewrite has_zero_app, Zx. exact Zy.
  - rewrite blen_app. lia.
Qed.

Lemma block_count v : slen v <= 0 + BLOCK_CHARS * Z.of_nat (Z.to_nat ((slen v - 0 + BLOCK_CHARS - 1) / BLOCK_CHARS)).
Proof.
  assert (BC : BLOCK_CHARS = 4096) by reflexivity. assert (0 <= slen v) by (unfold slen; lia).
  pose proof (Z.div_mod (slen v - 0 + BLOCK_CHARS - 1) BLOCK_CHARS ltac:(lia)).
  pose proof (Z.mod_pos_bound (slen v - 0 + BLOCK_CHARS - 1) BLOCK_CHARS ltac:(lia)).
  rewrite Z2Nat.id by (apply Z.div_pos; lia). lia.
Qed.

Lemma text_size_spec v maximum over (Q : Z -> encoder -> Prop) s :
  over = ENCODE_TYPE \/ over = ENCODE_LIMIT -> 0 <= maximum ->
  (forall s' bs, kept s s' -> utf8_encode v = Some bs -> has_zero bs = false -> blen bs <= maximum ->
     Q (blen bs) s') ->
  wpe (bad (fits 0 maximum v)) (text_size deadline v maximum over) Q s.
Proof.
  intros Hover Hm HQ. unfold text_size. apply wpe_bind, wpe_encoder_tick. intros s1 K1.
  apply wpe_bind, wpe_guard.
  { intros B. apply Z.ltb_lt in B. assert (N : ~ fits 0 maximum v).
    { intros (bs & U & _ & L). destruct (utf8_encode_facts _ _ U). lia. }
    destruct Hover as [-> | ->]; [apply bad_type, N|apply bad_limit, N]. }
  intros B. apply Z.ltb_ge in B. destruct ((slen v <=? BLOCK_CHARS) && is_ascii v) eqn:A.
  - apply andb_true_iff in A as [_ A]. pose proof (ascii_utf8 _ A) as U.
    destruct (utf8_encode_facts _ _ U) as [_ Z0]. apply wpe_bind, wpe_guard.
    + intros N. apply bad_type. intros (bs & U' & Z1 & _). congruence.
    + intros N. apply wpe_ret. rewrite <- blen_ascii. apply HQ; [exact K1|exact U|congruence|].
      rewrite blen_ascii. exact B.
  - unfold py_range. pose proof (block_count v) as C.
    apply (size_blocks_spec v maximum over _ 0 0); [exact Hover|lia|exact C|exact Hm|].
    intros s2 bs K2 U Z0 L. apply HQ; [eapply kept_trans; eassumption|exact U|exact Z0|exact L].
Qed.

(** The wire form of a value of a column, if it has one. *)
Definition wire_cell_of (oid : Z) (v : pyval) : option wire_cell :=
  match v with
  | VNone => Some None
  | VStr s => if bool_decide (oid ∈ TEXT_TYPES) then Some <$> utf8_encode s else None
  | VInt n => if bool_decide (oid ∈ TEXT_TYPES) then None else
      bits ← assoc oid INTEGER_BITS;
      if (- 2 ^ (bits - 1) <=? n) && (n <? 2 ^ (bits - 1))
      then Some (Some (ascii_encode (str_int n))) else None
  | VBool b => if oid =? BOOL_OID then Some (Some (ascii_lit (if b then "t" else "f"))) else None
  | _ => None
  end.

Definition encodable (oid : Z) (v : pyval) (c : wire_cell) : Prop :=
  wire_cell_of oid v = Some c /\ valid_cell limits {| wire_name := []; wire_oid := oid |} c.

Definition cell_bytes (c : wire_cell) : Z := match c with None => -1 | Some bs => blen bs end.

Lemma blen_cell c : blen (print_cell c) = 4 + Z.max 0 (cell_bytes c).
Proof.
  destruct c as [bs|]; cbn [print_cell cell_bytes]; rewrite ?blen_app, blen_pack_be;
    [pose proof (blen_nonneg bs)|]; lia.
Qed.

Lemma encodable_some oid v bs :
  wire_cell_of oid v = Some (Some bs) -> valid_value oid bs -> blen bs <= max_cell_bytes limits ->
  encodable oid v (Some bs).
Proof. intros H V L. split; [exact H|]. intros ? [= <-]. auto. Qed.

Lemma text_encodable oid s bs :
  bool_decide (oid ∈ TEXT_TYPES) = true -> utf8_encode s = Some bs -> has_zero bs = false ->
  (oid = NAME_OID -> blen bs <= NAME_VALUE_BYTES) -> blen bs <= max_cell_bytes limits ->
  encodable oid (VStr s) (Some bs).
Proof.
  intros T U Z0 N L. apply encodable_some; [cbn; rewrite T, U; reflexivity| |exact L].
  unfold valid_value. rewrite T. split; [eapply utf8_valid_text; eassumption|exact N].
Qed.

Lemma encodable_text oid s c :
  bool_decide (oid ∈ TEXT_TYPES) = true -> encodable oid (VStr s) c ->
  exists bs, c = Some bs /\ utf8_encode s = Some bs /\ has_zero bs = false /\
    (oid = NAME_OID -> blen bs <= NAME_VALUE_BYTES) /\ blen bs <= max_cell_bytes limits.
Proof.
  intros T [H V]. cbn in H. rewrite T in H. destruct (utf8_encode s) as [bs|]; [|discriminate].
  injection H as <-. destruct (V bs eq_refl) as [Vv L]. unfold valid_value in Vv.
  cbn [wire_oid] in Vv. rewrite T in Vv. destruct Vv as [Vt Vn]. unfold valid_text in Vt.
  apply andb_true_iff in Vt as [Vt _]. apply negb_true_iff in Vt. eauto 10.
Qed.

Lemma cell_size_spec oid v (Q : Z -> encoder -> Prop) s :
  1 <= max_cell_bytes limits ->
  (forall s' c, kept s s' -> encodable oid v c -> Q (cell_bytes c) s') ->
  wpe (bad (exists c, encodable oid v c)) (cell_size limits deadline v oid) Q s.
Proof.
  intros Hm HQ. unfold cell_size. apply wpe_bind, wpe_encoder_tick. intros s1 K1.
  assert (NT : wire_cell_of oid v = None -> bad (exists c, encodable oid v c) (Encode ENCODE_TYPE))
    by (intros N; apply bad_type; intros (c & H & _); congruence).
  destruct (bool_decide (oid ∈ TEXT_TYPES)) eqn:T.
  - destruct v; try (apply wpe_raise, NT; cbn; rewrite ?T; reflexivity).
    + apply wpe_ret, (HQ _ None K1). split; [reflexivity|]. intros ? [=].
    + destruct (Z.eqb_spec oid NAME_OID) as [En|En].
      * apply wpe_bind. apply (wpe_weaken (fits 0 NAME_MAX s0)).
        2:{ intros (c & H). apply (encodable_text oid s0 c T) in H as (bs & _ & U & Z0 & N & _).
            exists bs. split; [exact U|split; [exact Z0|apply N, En]]. }
        apply text_size_spec; [auto|unfold NAME_MAX; lia|]. intros s2 bs K2 U Z0 L.
        assert (Le : blen bs <= NAME_VALUE_BYTES) by exact L.
        apply wpe_bind, wpe_guard.
        -- intros B. apply bad_limit. intros (c & H). apply (encodable_text oid s0 c T) in H as (bs' & _ & U' & _ & _ & L').
           rewrite U in U'. injection U' as <-. lia.
        -- intros B. apply Z.ltb_ge in B. apply wpe_ret, (HQ s2 (Some bs)); [eapply kept_trans; eassumption|].
           eapply text_encodable; eauto.
      * apply (wpe_weaken (fits 0 (max_cell_bytes limits) s0)).
        2:{ intros (c & H). apply (encodable_text oid s0 c T) in H as (bs & _ & U & Z0 & _ & L).
            exists bs. split; [exact U|split; [exact Z0|exact L]]. }
        apply text_size_spec; [auto|lia|]. intros s2 bs K2 U Z0 L.
        apply (HQ s2 (Some bs)); [eapply kept_trans; eassumption|]. eapply text_encodable; eauto; contradiction.
    + apply wpe_raise, NT. cbn. destruct (Z.eqb_spec oid BOOL_OID) as [->|]; [discriminate T|reflexivity].
  - assert (V0 : assoc oid INTEGER_BITS = None -> forall b, valid_value oid (ascii_lit (if (b : bool) then "t" else "f"))).
    { intros A b. unfold valid_value. rewrite T, A. destruct b; auto. }
    destruct v; try (apply wpe_bind; destruct (assoc oid INTEGER_BITS);
                     (apply wpe_raise, NT; cbn; rewrite ?T; reflexivity)).
    + apply wpe_ret, (HQ _ None K1). split; [reflexivity|]. intros ? [=].
    + apply wpe_bind. destruct (assoc oid INTEGER_BITS) as [bits|] eqn:A.
      { apply wpe_raise, NT. cbn. destruct (Z.eqb_spec oid BOOL_OID) as [->|]; [discriminate A|reflexivity]. }
      destruct (oid =? BOOL_OID) eqn:Eb; [|apply wpe_raise, NT; cbn; rewrite Eb; reflexivity].
      apply wpe_ret, wpe_bind, wpe_guard; [intros B; apply Z.ltb_lt in B; lia|]. intros _.
      apply wpe_ret. replace 1 with (cell_bytes (Some (ascii_lit (if b then "t" else "f"))))
        by (destruct b; reflexivity).
      apply HQ; [exact K1|]. apply encodable_some; [cbn; rewrite Eb; reflexivity|apply V0; reflexivity|].
      destruct b; exact Hm.
    + apply wpe_bind. destruct (assoc oid INTEGER_BITS) as [bits|] eqn:A;
        [|apply wpe_raise, NT; cbn [wire_cell_of]; rewrite T, A; reflexivity].
      apply wpe_bind, wpe_guard.
      { intros B. apply negb_true_iff in B. apply NT. cbn [wire_cell_of]. rewrite T, A. cbn [mbind option_bind]. rewrite B. reflexivity. }
      intros B. apply negb_false_iff in B. apply wpe_ret.
      assert (H : wire_cell_of oid (VInt n) = Some (Some (ascii_encode (str_int n))))
        by (cbn [wire_cell_of]; rewrite T, A; cbn [mbind option_bind]; rewrite B; reflexivity).
      rewrite <- blen_ascii. apply wpe_bind, wpe_guard.
      * intros L. apply Z.ltb_lt in L. apply bad_limit. intros (c & Hc & Vc). rewrite H in Hc. injection Hc as <-.
        destruct (Vc _ eq_refl) as [_ Lc]. lia.
      * intros L. apply Z.ltb_ge in L. apply wpe_ret, (HQ s1 (Some (ascii_encode (str_int n)))); [exact K1|].
        apply encodable_some; [exact H| |exact L]. unfold valid_value. rewrite T, A. exists n. split; [lia|reflexivity].
Qed.

(** The cells of a row under its columns, and of all rows. *)
Definition row_encodes (plans : list column_plan) (row : list pyval) (cs : list wire_cell) : Prop :=
  Forall2 (fun x c => encodable (plan_oid x.2) x.1 c) (zip row plans) cs.

Lemma Forall2_det {A B} (P Q : A -> B -> Prop) l k k' :
  (forall x c c', Q x c -> P x c' -> c = c') -> Forall2 P l k -> Forall2 Q l k' -> k' = k.
Proof.
  intros D H. revert k'; induction H as [|x c l k Hc _ IH]; intros k' H'; inversion H'; subst; [reflexivity|].
  f_equal; [eapply D; eassumption|apply IH; assumption].
Qed.

Lemma size_cells_spec cells total (Q : Z -> encoder -> Prop) s :
  1 <= max_cell_bytes limits ->
  (forall s' cs, kept s s' -> Forall2 (fun x c => encodable (plan_oid x.2) x.1 c) cells cs ->
     (cells <> [] -> total + blen (concat (map print_cell cs)) <= max_frame_bytes limits) ->
     Q (total + blen (concat (map print_cell cs))) s') ->
  wpe (bad (exists cs, Forall2 (fun x c => encodable (plan_oid x.2) x.1 c) cells cs /\
              total + blen (concat (map print_cell cs)) <= max_frame_bytes limits))
    (size_cells limits deadline total cells) Q s.
Proof.
  intros Hm. revert total s; induction cells as [|[v p] cells IH]; intros total s HQ; cbn [size_cells].
  { apply wpe_ret. specialize (HQ s [] (kept_refl s) (List.Forall2_nil _)). cbn [map concat] in HQ.
    change (blen []) with 0 in HQ. rewrite Z.add_0_r in HQ. apply HQ. congruence. }
  apply wpe_bind. apply (wpe_weaken (exists c, encodable (plan_oid p) v c)).
  2:{ intros (cs & F & _). inversion F as [|? c ? ? Hc _]; subst. exists c. exact Hc. }
  apply cell_size_spec; [exact Hm|]. intros s1 c K1 Hc. cbv zeta. rewrite <- blen_cell.
  assert (D : forall c', encodable (plan_oid p) v c' -> c' = c) by (intros c' [H1 _]; destruct Hc; congruence).
  apply wpe_bind, wpe_guard.
  { intros B. apply Z.ltb_lt in B. apply bad_limit. intros (cs & F & L).
    inversion F as [|? c' ? cs' Hc' _]; subst. apply D in Hc' as ->. cbn [map concat] in L.
    rewrite blen_app in L. pose proof (blen_nonneg (concat (map print_cell cs'))). lia. }
  intros B. apply Z.ltb_ge in B. eapply wpe_weaken; [apply IH|].
  2:{ intros (cs & F & L). inversion F as [|? c' ? cs' Hc' F']; subst. apply D in Hc' as ->.
    exists cs'. split; [exact F'|]. cbn [map concat] in L. rewrite blen_app in L. lia. }
  intros s2 cs K2 F L. rewrite <- Z.add_assoc, <- blen_app.
    apply (HQ s2 (c :: cs)); [eapply kept_trans; eassumption|constructor; assumption|]. intros _.
    cbn [map concat]. rewrite blen_app. destruct cells as [|x cells]; [|specialize (L ltac:(discriminate)); lia].
    inversion F; subst. cbn [map concat]. change (blen []) with 0. lia.
Qed.

Lemma blen_print_row cs : blen (print_row cs) = 7 + blen (concat (map print_cell cs)).
Proof. unfold print_row. rewrite blen_print_message, blen_app, blen_pack_be. lia. Qed.

Lemma size_rows_spec plans rows total (Q : Z -> encoder -> Prop) s :
  1 <= max_cell_bytes limits -> plans <> [] -> Forall (fun row => length row = length plans) rows ->
  total <= max_frame_bytes limits ->
  (forall s' rs, kept s s' -> Forall2 (row_encodes plans) rows rs ->
     total + blen (concat (map print_row rs)) <= max_frame_bytes limits ->
     Q (total + blen (concat (map print_row rs))) s') ->
  wpe (bad (exists rs, Forall2 (row_encodes plans) rows rs /\
              total + blen (concat (map print_row rs)) <= max_frame_bytes limits))
    (size_rows limits deadline plans total rows) Q s.
Proof.
  intros Hm Hp Hl. revert total s; induction Hl as [|row rows Hr _ IH]; intros total s Ht HQ; cbn [size_rows].
  { apply wpe_ret. specialize (HQ s [] (kept_refl s) (List.Forall2_nil _)). cbn [map concat] in HQ.
    change (blen []) with 0 in HQ. rewrite Z.add_0_r in HQ. apply HQ. exact Ht. }
  assert (Hz : zip row plans <> []) by (destruct row, plans; cbn in *; congruence).
  apply wpe_bind. apply (wpe_weaken (exists cs, Forall2 (fun x c => encodable (plan_oid x.2) x.1 c) (zip row plans) cs /\
    total + 7 + blen (concat (map print_cell cs)) <= max_frame_bytes limits)).
  2:{ intros (rs & F & L). inversion F as [|? cs ? rs' Hc _]; subst. exists cs. split; [exact Hc|].
      cbn [map concat] in L. rewrite blen_app, blen_print_row in L.
      pose proof (blen_nonneg (concat (map print_row rs'))). lia. }
  apply size_cells_spec; [exact Hm|]. intros s1 cs K1 F1 L1. specialize (L1 Hz).
  apply wpe_bind, wpe_guard; [rewrite Hr, Nat.eqb_refl; discriminate|]. intros _.
  assert (D : forall cs', row_encodes plans row cs' -> cs' = cs).
  { clear -F1. intros cs' F2. eapply (Forall2_det _ (fun x c => encodable (plan_oid x.2) x.1 c)); try eassumption.
    intros x c c' [H1 _] [H2 _]. congruence. }
  replace (total + 7 + blen (concat (map print_cell cs))) with (total + blen (print_row cs)) in *
    by (rewrite blen_print_row; lia).
  eapply wpe_weaken; [apply IH; [exact L1|]|].
  2:{ intros (rs & F & L). inversion F as [|? cs' ? rs' Hc' F']; subst. apply D in Hc' as ->.
    exists rs'. split; [exact F'|]. cbn [map concat] in L. rewrite blen_app in L. lia. }
  intros s2 rs K2 F L. rewrite <- Z.add_assoc, <- blen_app.
    apply (HQ s2 (cs :: rs)); [eapply kept_trans; eassumption|constructor; assumption|].
    cbn [map concat]. rewrite blen_app. lia.
Qed.

End sizing.

(** ** Specifications of the writer *)

(** [w] has been written to a buffer of [total] bytes. *)
Definition written (total : Z) (w : list byte) (s : encoder) : Prop :=
  w_offset s = blen w /\ blen (buffer s) = total /\ exists rest, buffer s = w ++ rest.

Lemma written_kept total w s s' : kept s s' -> written total w s -> written total w s'.
Proof. unfold kept, written. intros [-> ->]. auto. Qed.

Lemma written_extend total w bs s :
  written total w s -> blen w + blen bs <= total ->
  written total (w ++ bs) (set_offset (w_offset s + blen bs)
                             (set_buffer (write_at (w_offset s) bs (buffer s)) s)).
Proof.
  intros (O & L & rest & E) H. unfold written. cbn [set_offset set_buffer w_offset buffer].
  rewrite blen_app, O, E. split; [reflexivity|].
  rewrite E, blen_app in L. rewrite <- (take_drop (length bs) rest).
  rewrite write_at_app by (unfold blen in *; rewrite length_take; lia).
  split; [|eexists; rewrite <- app_assoc; reflexivity].
  rewrite !blen_app. unfold blen in *. rewrite length_drop. lia.
Qed.

Section writer.
Context (limits : ResultLimits) (deadline : ResultDeadline) (misreported : Prop) (R : Prop) (total : Z).

Abbreviation wpW := (wpe (bad deadline misreported R)).

Lemma put_spec w bs (Q : unit -> encoder -> Prop) s :
  written total w s -> blen w + blen bs <= total ->
  (forall s', written total (w ++ bs) s' -> Q tt s') -> wpW (put bs) Q s.
Proof.
  intros W H HQ. unfold put. apply wpe_bind, wpe_get, wpe_bind, wpe_guard.
  - intros B. apply Z.ltb_lt in B. destruct W as (O & L & _). lia.
  - intros _. apply wpe_update, HQ, written_extend; assumption.
Qed.

Lemma number_spec w width v (Q : unit -> encoder -> Prop) s :
  written total w s -> blen w + Z.of_nat width <= total ->
  (forall s', written total (w ++ pack_be width v) s' -> Q tt s') -> wpW (number width v) Q s.
Proof.
  intros W H HQ. unfold number. apply wpe_bind, wpe_get, wpe_bind, wpe_guard.
  - intros B. apply Z.ltb_lt in B. destruct W as (O & L & _). lia.
  - intros _. apply wpe_update, HQ. rewrite <- (blen_pack_be width v). apply written_extend; [exact W|].
    rewrite blen_pack_be. exact H.
Qed.

Lemma patch_spec pre old post v prefix (Q : unit -> encoder -> Prop) s :
  written total (pre ++ old ++ post) s -> blen old = 4 -> prefix = blen pre ->
  (forall s', written total (pre ++ pack_be 4 v ++ post) s' -> Q tt s') -> wpW (patch prefix v) Q s.
Proof.
  intros (O & L & rest & E) Ho -> HQ. apply wpe_update, HQ. unfold written.
  cbn [set_buffer w_offset buffer]. rewrite E, <- !app_assoc in *.
  rewrite write_at_app by (rewrite length_pack_be; unfold blen in Ho; lia).
  rewrite !blen_app, ?blen_pack_be in *. split; [lia|]. split; [lia|]. exists rest. rewrite <- !app_assoc. reflexivity.
Qed.

Lemma start_spec w tag (Q : Z -> encoder -> Prop) s :
  written total w s -> blen w + 5 <= total ->
  (forall s', written total (w ++ z2b tag :: pack_be 4 0) s' -> Q (blen w + 1) s') ->
  wpW (start tag) Q s.
Proof.
  intros W H HQ. unfold start. apply wpe_bind, (put_spec w); [exact W|change (blen [z2b tag]) with 1; lia|].
  intros s1 W1. apply wpe_bind, wpe_get, wpe_bind, (number_spec (w ++ [z2b tag])); [exact W1| |].
  { rewrite blen_app. change (blen [z2b tag]) with 1. change (Z.of_nat 4) with 4. lia. }
  intros s2 W2. apply wpe_ret. destruct W1 as (-> & _). rewrite blen_app.
  change (blen [z2b tag]) with 1. apply HQ. rewrite <- app_assoc in W2. exact W2.
Qed.

Lemma end_spec w tag body prefix (Q : unit -> encoder -> Prop) s :
  written total ((w ++ z2b tag :: pack_be 4 0) ++ body) s -> prefix = blen w + 1 ->
  (forall s', written total (w ++ print_message tag body) s' -> Q tt s') ->
  wpW (end_message prefix) Q s.
Proof.
  intros W -> HQ. unfold end_message. apply wpe_bind, wpe_get. pose proof W as (O & _).
  assert (E : (w ++ z2b tag :: pack_be 4 0) ++ body = (w ++ [z2b tag]) ++ pack_be 4 0 ++ body)
    by (rewrite <- !app_assoc; reflexivity).
  rewrite E in W, O. eapply patch_spec; [exact W|apply blen_pack_be|rewrite blen_app; reflexivity|].
  intros s' W'. apply HQ. rewrite O, !blen_app, blen_pack_be in W'. change (blen [z2b tag]) with 1 in W'.
  unfold print_message.
  replace (blen w + 1 + (Z.of_nat 4 + blen body) - (blen w + 1)) with (4 + blen body) in W' by lia.
  rewrite <- !app_assoc in W'. exact W'.
Qed.

Lemma write_blocks_spec v n o w bs (Q : unit -> encoder -> Prop) s :
  0 <= o -> slen v <= o + BLOCK_CHARS * Z.of_nat n ->
  utf8_encode (drop (Z.to_nat o) v) = Some bs -> written total w s -> blen w + blen bs <= total ->
  (forall s', written total (w ++ bs) s' -> Q tt s') ->
  wpW (write_blocks deadline v (map (fun k => o + BLOCK_CHARS * Z.of_nat k) (seq 0 n))) Q s.
Proof.
  revert o w bs s; induction n as [|n IH]; intros o w bs s Ho Hn U W H HQ.
  { cbn [seq map write_blocks]. apply wpe_ret, HQ.
    assert (E : drop (Z.to_nat o) v = []) by (apply drop_ge; unfold slen in Hn; lia).
    rewrite E in U. injection U as <-. rewrite app_nil_r. exact W. }
  cbn [seq map write_blocks]. replace (o + BLOCK_CHARS * Z.of_nat 0) with o by lia.
  rewrite (block_split o v Ho), utf8_encode_app in U.
  destruct (utf8_encode (block_at o v)) as [x|] eqn:Ux; [|discriminate].
  destruct (utf8_encode (drop _ v)) as [y|] eqn:Uy; [|discriminate]. injection U as <-.
  rewrite blen_app in H. pose proof (blen_nonneg y).
  apply wpe_bind, wpe_check_block. intros s1 K1. apply wpe_bind, wpe_utf8; [rewrite Ux; eauto|].
  intros x' Ux'. rewrite Ux in Ux'. injection Ux' as <-.
  apply wpe_bind, (put_spec w); [eapply written_kept; eassumption|lia|]. intros s2 W2.
  rewrite <- seq_shift, map_map. assert (BC : BLOCK_CHARS = 4096) by reflexivity.
  rewrite (map_ext _ (fun k => (o + BLOCK_CHARS) + BLOCK_CHARS * Z.of_nat k)) by (intros; lia).
  apply (IH _ (w ++ x) y); [lia|lia|exact Uy|exact W2|rewrite blen_app; lia|].
  intros s3 W3. apply HQ. rewrite app_assoc. exact W3.
Qed.

Lemma write_text_spec v w bs (Q : unit -> encoder -> Prop) s :
  utf8_encode v = Some bs -> written total w s -> blen w + blen bs <= total ->
  (forall s', written total (w ++ bs) s' -> Q tt s') -> wpW (write_text deadline v) Q s.
Proof.
  intros U W H HQ. unfold write_text. apply wpe_bind, wpe_encoder_tick. intros s1 K1.
  pose proof (written_kept _ _ _ _ K1 W) as W1.
  destruct ((slen v <=? BLOCK_CHARS) && is_ascii v) eqn:A.
  - apply andb_true_iff in A as [_ A]. rewrite (ascii_utf8 _ A) in U. injection U as <-.
    apply (put_spec w); assumption.
  - unfold py_range. apply (write_blocks_spec v _ 0 w bs); [lia|apply block_count|exact U|exact W1|exact H|exact HQ].
Qed.

Lemma write_general_spec oid v c w (Q : unit -> encoder -> Prop) s :
  wire_cell_of oid v = Some c -> written total w s -> blen w + blen (print_cell c) <= total ->
  (forall s', written total (w ++ print_cell c) s' -> Q tt s') ->
  wpW (write_general deadline v oid) Q s.
Proof.
  intros Hc W H HQ. unfold write_general. apply wpe_bind, wpe_get. cbv zeta.
  destruct W as (O & L & rest & E). rewrite O. assert (W : written total w s) by (split; eauto).
  clear E rest. destruct c as [bs|].
  - cbn [print_cell] in H. rewrite blen_app, blen_pack_be in H. pose proof (blen_nonneg bs).
    assert (K : forall (payload : encoding unit),
      (forall s' (Q' : unit -> encoder -> Prop), written total (w ++ pack_be 4 0) s' ->
        (forall s'', written total ((w ++ pack_be 4 0) ++ bs) s'' -> Q' tt s'') -> wpW payload Q' s') ->
      wpW (number 4 0;; payload;; (s ← get_st; patch (blen w) (w_offset s - blen w - 4))) Q s).
    { intros payload HP. apply wpe_bind, (number_spec w); [exact W|lia|]. intros s1 W1.
      apply wpe_bind, HP; [exact W1|]. intros s2 W2. apply wpe_bind, wpe_get.
      pose proof W2 as (O2 & _). rewrite <- app_assoc in W2.
      eapply patch_spec; [exact W2|apply blen_pack_be|reflexivity|]. intros s3 W3. apply HQ.
      rewrite O2, !blen_app, blen_pack_be in W3. cbn [print_cell].
      replace (blen w + Z.of_nat 4 + blen bs - blen w - 4) with (blen bs) in W3 by lia. exact W3. }
    destruct v; try discriminate Hc; cbn [wire_cell_of] in Hc; apply K; intros s1 Q1 W1 HQ1.
    + destruct (bool_decide (oid ∈ TEXT_TYPES)); [|discriminate].
      destruct (utf8_encode s0) as [x|] eqn:U; [|discriminate]. injection Hc as <-.
      eapply write_text_spec; [exact U|exact W1|rewrite blen_app, blen_pack_be; lia|exact HQ1].
    + destruct (Z.eqb_spec oid BOOL_OID) as [->|]; [|discriminate]. injection Hc as <-.
      change (bool_decide (BOOL_OID ∈ TEXT_TYPES)) with false. change (assoc BOOL_OID INTEGER_BITS) with (@None Z).
      cbv iota. destruct b; (eapply put_spec; [exact W1|rewrite blen_app, blen_pack_be; lia|exact HQ1]).
    + destruct (bool_decide (oid ∈ TEXT_TYPES)); [discriminate|].
      destruct (assoc oid INTEGER_BITS) as [bits|]; [|discriminate]. cbn [mbind option_bind] in Hc.
      destruct (_ && _); [|discriminate]. injection Hc as <-.
      eapply put_spec; [exact W1|rewrite blen_app, blen_pack_be; lia|exact HQ1].
  - assert (v = VNone) as ->.
    { destruct v; try reflexivity; try discriminate Hc; exfalso; cbn [wire_cell_of] in Hc.
      - destruct (bool_decide _), (utf8_encode s0); discriminate.
      - destruct (_ =? _); discriminate.
      - destruct (bool_decide _), (assoc oid INTEGER_BITS) as [bits|]; cbn [mbind option_bind] in Hc;
          try discriminate. destruct (_ && _); discriminate. }
    cbn [print_cell] in *. rewrite blen_pack_be in H.
    apply wpe_bind, (number_spec w); [exact W|lia|]. intros s1 W1. apply wpe_ret, HQ, W1.
Qed.

Lemma write_cell_spec oid v c w (Q : unit -> encoder -> Prop) s :
  wire_cell_of oid v = Some c -> written total w s -> blen w + blen (print_cell c) <= total ->
  (forall s', written total (w ++ print_cell c) s' -> Q tt s') ->
  wpW (write_cell deadline v oid) Q s.
Proof.
  intros Hc W H HQ. unfold write_cell. apply wpe_bind, wpe_encoder_tick. intros s1 K1.
  pose proof (written_kept _ _ _ _ K1 W) as W1.
  destruct v; try (eapply write_general_spec; eassumption).
  case_match eqn:T; [|eapply write_general_spec; eassumption].
  apply andb_true_iff in T as [T A]. apply andb_true_iff in A as [_ A].
  cbn [wire_cell_of] in Hc. rewrite T, (ascii_utf8 _ A) in Hc. injection Hc as <-.
  set (data := ascii_encode s0) in *. cbn [print_cell] in *. rewrite blen_app, blen_pack_be in H.
  apply wpe_bind, wpe_get, wpe_bind, wpe_guard.
  { intros B. apply Z.ltb_lt in B. destruct W1 as (O & L & _). lia. }
  intros _. apply wpe_bind, wpe_update, wpe_update, HQ. pose proof (blen_nonneg data).
  pose proof (written_extend total w (pack_be 4 (blen data)) s1 W1 ltac:(rewrite blen_pack_be; lia)) as W2.
  apply (written_extend total _ data) in W2; [|rewrite blen_app, blen_pack_be; lia].
  rewrite <- app_assoc in W2. rewrite blen_pack_be in W2.
  cbn [set_offset set_buffer w_offset buffer] in W2 |- *. exact W2.
Qed.

Lemma write_cells_spec cells cs w (Q : unit -> encoder -> Prop) s :
  Forall2 (fun x c => wire_cell_of (plan_oid x.2) x.1 = Some c) cells cs ->
  written total w s -> blen w + blen (concat (map print_cell cs)) <= total ->
  (forall s', written total (w ++ concat (map print_cell cs)) s' -> Q tt s') ->
  wpW (iterM_st (fun cell => write_cell deadline cell.1 (plan_oid cell.2)) cells) Q s.
Proof.
  intros F. revert w s; induction F as [|x c cells cs Hc _ IH]; intros w s W H HQ; cbn [iterM_st map concat] in *.
  { apply wpe_ret, HQ. rewrite app_nil_r. exact W. }
  rewrite blen_app in H. pose proof (blen_nonneg (concat (map print_cell cs))).
  apply wpe_bind, (write_cell_spec _ _ c w); [exact Hc|exact W|lia|]. intros s1 W1.
  apply (IH (w ++ print_cell c)); [exact W1|rewrite blen_app; lia|]. intros s2 W2. apply HQ.
  rewrite app_assoc. exact W2.
Qed.

(** The column a plan describes on the wire. *)
Definition planned (p : column_plan) (c : wire_column) : Prop :=
  utf8_encode (plan_name p) = Some (wire_name c) /\ wire_oid c = plan_oid p /\
  name_bytes p = blen (wire_name c).

Lemma write_column_spec p c w (Q : unit -> encoder -> Prop) s :
  planned p c -> written total w s -> blen w + blen (print_column c) <= total ->
  (forall s', written total (w ++ print_column c) s' -> Q tt s') ->
  wpW (write_column deadline p) Q s.
Proof.
  intros (U & Eo & _) W H HQ. rewrite blen_print_column in H. unfold write_column.
  apply wpe_bind, wpe_check. intros s1 K1. pose proof (blen_nonneg (wire_name c)).
  apply wpe_bind, (write_text_spec _ w (wire_name c)); [exact U|eapply written_kept; eassumption|lia|]. intros s2 W2.
  apply wpe_bind, (put_spec (w ++ wire_name c)); [exact W2|rewrite blen_app; change (blen [z2b 0]) with 1; lia|].
  intros s3 W3. eapply put_spec; [exact W3| |].
  { rewrite !blen_app, !blen_pack_be. change (blen [z2b 0]) with 1. lia. }
  intros s4 W4. apply HQ. unfold print_column. rewrite Eo. rewrite <- !app_assoc in W4. exact W4.
Qed.

Lemma write_columns_spec plans cols w (Q : unit -> encoder -> Prop) s :
  Forall2 planned plans cols -> written total w s ->
  blen w + blen (concat (map print_column cols)) <= total ->
  (forall s', written total (w ++ concat (map print_column cols)) s' -> Q tt s') ->
  wpW (iterM_st (write_column deadline) plans) Q s.
Proof.
  intros F. revert w s; induction F as [|p c plans cols Hp _ IH]; intros w s W H HQ; cbn [iterM_st map concat] in *.
  { apply wpe_ret, HQ. rewrite app_nil_r. exact W. }
  rewrite blen_app in H. pose proof (blen_nonneg (concat (map print_column cols))).
  apply wpe_bind, (write_column_spec p c w); [exact Hp|exact W|lia|]. intros s1 W1.
  apply (IH (w ++ print_column c)); [exact W1|rewrite blen_app; lia|]. intros s2 W2. apply HQ.
  rewrite app_assoc. exact W2.
Qed.

Lemma write_row_spec plans row cs w (Q : unit -> encoder -> Prop) s :
  length row = length plans ->
  Forall2 (fun x c => wire_cell_of (plan_oid x.2) x.1 = Some c) (zip row plans) cs ->
  written total w s -> blen w + blen (print_row cs) <= total ->
  (forall s', written total (w ++ print_row cs) s' -> Q tt s') ->
  wpW (write_row deadline plans row) Q s.
Proof.
  intros Hl F W H HQ. rewrite blen_print_row in H. unfold write_row.
  pose proof (blen_nonneg (concat (map print_cell cs))).
  apply wpe_bind, (start_spec w); [exact W|lia|]. intros s1 W1.
  assert (L5 : blen (w ++ z2b 68 :: pack_be 4 0) = blen w + 5) by (rewrite blen_app; reflexivity).
  apply wpe_bind, (number_spec (w ++ z2b 68 :: pack_be 4 0)); [exact W1|rewrite L5; lia|]. intros s2 W2.
  apply wpe_bind. eapply write_cells_spec; [exact F|exact W2|rewrite blen_app, L5, blen_pack_be; lia|].
  intros s3 W3. eapply end_spec; [rewrite <- app_assoc in W3; exact W3|reflexivity|].
  intros s4 W4. apply HQ. unfold print_row.
  rewrite <- (Forall2_length _ _ _ F), length_zip_with, Hl, Nat.min_id. exact W4.
Qed.

Lemma write_rows_spec plans rows rs w (Q : unit -> encoder -> Prop) s :
  Forall (fun row => length row = length plans) rows ->
  Forall2 (fun row cs => Forall2 (fun x c => wire_cell_of (plan_oid x.2) x.1 = Some c) (zip row plans) cs) rows rs ->
  written total w s -> blen w + blen (concat (map print_row rs)) <= total ->
  (forall s', written total (w ++ concat (map print_row rs)) s' -> Q tt s') ->
  wpW (iterM_st (write_row deadline plans) rows) Q s.
Proof.
  intros Hl F. revert w s; induction F as [|row cs rows rs Hr _ IH]; intros w s W H HQ; cbn [iterM_st map concat] in *.
  { apply wpe_ret, HQ. rewrite app_nil_r. exact W. }
  inversion_clear Hl as [|? ? Hl1 Hl2]. specialize (IH Hl2).
  rewrite blen_app in H. pose proof (blen_nonneg (concat (map print_row rs))).
  apply wpe_bind, (write_row_spec plans row cs w); [exact Hl1|exact Hr|exact W|lia|]. intros s1 W1.
  apply (IH (w ++ print_row cs)); [exact W1|rewrite blen_app; lia|]. intros s2 W2. apply HQ.
  rewrite app_assoc. exact W2.
Qed.
End writer.

(** ** The whole encoder *)

(** The wire form of a typed result, if all of it has one. *)
Definition wire_column_of (x : pystr * Z) : option wire_column :=
  bs ← utf8_encode x.1; Some {| wire_name := bs; wire_oid := x.2 |}.

Definition wire_result (result : Adapter.TypedMaskedResult)
    : option (list wire_column * list (list wire_cell)) :=
  let item := Adapter.masked result in
  columns ← mapM wire_column_of (zip (map output_name (Adapter.columns item)) (Adapter.type_oids result));
  rows ← mapM (fun row => mapM (fun x => wire_cell_of x.2 x.1) (zip row (Adapter.type_oids result)))
           (Adapter.rows item);
  Some (columns, rows).

(** It has one, and a frame under the limits carries it. *)
Definition representable (result : Adapter.TypedMaskedResult) (identity : ResultIdentity)
    (limits : ResultLimits) (columns : list wire_column) (rows : list (list wire_cell)) : Prop :=
  wire_result result = Some (columns, rows) /\
  valid_result identity limits (Adapter.truncated (Adapter.masked result)) columns rows.

(** A truncation reported with a number of rows other than the limit. *)
Definition misreported (result : Adapter.TypedMaskedResult) (limits : ResultLimits) : Prop :=
  Adapter.truncated (Adapter.masked result) = true /\
  Z.of_nat (length (Adapter.rows (Adapter.masked result))) <> max_rows limits.

Section whole.
Context (limits : ResultLimits) (deadline : ResultDeadline) (T : Prop).

Definition named (x : pystr * Z) (c : wire_column) : Prop :=
  wire_column_of x = Some c /\ has_zero (wire_name c) = false /\
  blen (wire_name c) <= max_name_bytes limits.

Lemma plan_columns_spec xs (Q : list column_plan -> encoder -> Prop) s :
  0 <= max_name_bytes limits ->
  (forall s' plans cols, Forall2 named xs cols -> Forall2 planned plans cols ->
     map plan_oid plans = map snd xs -> Q plans s') ->
  wpe (bad deadline T (exists cols, Forall2 named xs cols))
    (mapM_st (plan_column limits deadline) xs) Q s.
Proof.
  intros Hm. revert Q s; induction xs as [|[v oid] xs IH]; intros Q s HQ; cbn [mapM_st].
  { apply wpe_ret, (HQ s [] []); constructor. }
  apply wpe_bind. unfold plan_column at 1. apply wpe_bind. cbn [fst snd].
  apply (wpe_weaken deadline T (fits 0 (max_name_bytes limits) v)).
  2:{ intros (cols & F). inversion F as [|? c ? ? (U & Z0 & L) _]; subst.
      unfold wire_column_of in U. cbn [fst] in U. destruct (utf8_encode v) as [bs|] eqn:E; [|discriminate].
      injection U as <-. exists bs. cbn [wire_name] in *. auto. }
  apply text_size_spec; [auto|exact Hm|]. intros s1 bs K1 U Z0 L. apply wpe_ret, wpe_bind.
  apply (wpe_weaken deadline T (exists cols, Forall2 named xs cols)).
  2:{ intros (cols & F). inversion F; subst. eauto. }
  apply IH. intros s2 plans cols F P E. apply wpe_ret.
  apply (HQ s2 _ ({| wire_name := bs; wire_oid := oid |} :: cols)).
  - constructor; [|exact F]. unfold named, wire_column_of. cbn [fst snd]. rewrite U. auto.
  - constructor; [|exact P]. repeat split. exact U.
  - cbn [map snd plan_oid]. rewrite E. reflexivity.
Qed.

Lemma sum_names_columns plans cols :
  Forall2 planned plans cols -> sum_names plans = blen (concat (map print_column cols)).
Proof.
  induction 1 as [|p c plans cols (_ & _ & N) _ IH]; [reflexivity|].
  cbn [sum_names foldr map concat]. fold (sum_names plans).
  rewrite blen_app, blen_print_column, N, IH. lia.
Qed.

Lemma blen_print_body cols rs :
  blen (print_body cols rs) = 7 + blen (concat (map print_column cols)) +
    blen (concat (map print_row rs)) + 5 + blen (command (Z.of_nat (length rs))).
Proof.
  unfold print_body, print_description. rewrite !blen_app, !blen_print_message, blen_app, blen_pack_be. lia.
Qed.

(** What the preflight answers for. *)
Definition sized (plans : list column_plan) (cols : list wire_column) (rows : list (list pyval))
    (truncated : bool) (rs : list (list wire_cell)) : Prop :=
  Forall2 (row_encodes limits plans) rows rs /\
  Z.of_nat (length plans) <= max_columns limits /\ Z.of_nat (length rows) <= max_rows limits /\
  (truncated = true -> Z.of_nat (length rows) = max_rows limits) /\
  HEADER_BYTES + blen (print_body cols rs) <= max_frame_bytes limits.

Lemma preflight_spec plans cols rows truncated (Q : Z -> encoder -> Prop) s :
  1 <= max_cell_bytes limits -> plans <> [] -> Forall2 planned plans cols ->
  Forall (fun row => length row = length plans) rows ->
  (truncated = true -> Z.of_nat (length rows) <> max_rows limits -> T) ->
  (forall s' rs, sized plans cols rows truncated rs ->
     Q (HEADER_BYTES + blen (print_body cols rs)) s') ->
  wpe (bad deadline T (exists rs, sized plans cols rows truncated rs))
    (preflight limits deadline plans rows truncated) Q s.
Proof.
  intros Hm Hp Hc Hl HT HQ. unfold preflight. apply wpe_bind, wpe_check. intros s1 _.
  apply wpe_bind, wpe_guard.
  { intros B. apply bad_limit. intros (rs & F & Bc & Br & _). lia. }
  intros B1. apply wpe_bind, wpe_guard.
  { intros B. apply andb_true_iff in B as [Bt Bn]. apply negb_true_iff, Z.eqb_neq in Bn. intros _. split.
    - right; right. split; [reflexivity|]. apply HT; assumption.
    - intros (rs & F & _ & _ & Ht & _). apply Bn, Ht, Bt. }
  intros B2. cbv zeta. rewrite (sum_names_columns _ _ Hc).
  set (total := HEADER_BYTES + 7 + _ + _).
  assert (D : forall rs, Forall2 (row_encodes limits plans) rows rs ->
            HEADER_BYTES + blen (print_body cols rs) = total + blen (concat (map print_row rs))).
  { intros rs F. rewrite blen_print_body, <- (Forall2_length _ _ _ F). unfold total. lia. }
  apply wpe_bind, wpe_guard.
  { intros B. apply Z.ltb_lt in B. apply bad_limit. intros (rs & F & _ & _ & _ & L).
    rewrite (D rs F) in L. pose proof (blen_nonneg (concat (map print_row rs))). lia. }
  intros B3. apply Z.ltb_ge in B3.
  eapply wpe_weaken; [apply (size_rows_spec limits deadline T plans rows total); try assumption|].
  - intros s2 rs K2 F L. rewrite <- (D rs F). apply HQ. split; [exact F|]. rewrite (D rs F).
    split; [lia|]. split; [lia|]. split; [|exact L].
    intros ->. apply andb_false_iff in B2 as [[=]|B2]. apply negb_false_iff, Z.eqb_eq in B2. exact B2.
  - cbv beta. intros (rs & F & _ & _ & _ & L). exists rs. split; [exact F|]. rewrite <- (D rs F). exact L.
Qed.

Lemma rows_wire plans rows rs :
  Forall2 (row_encodes limits plans) rows rs ->
  Forall2 (fun row cs => Forall2 (fun x c => wire_cell_of (plan_oid x.2) x.1 = Some c) (zip row plans) cs) rows rs.
Proof.
  intros F. eapply Forall2_impl; [exact F|]. intros row cs H. eapply Forall2_impl; [exact H|].
  intros x c [Hx _]. exact Hx.
Qed.

Lemma run_encoder_spec identity identity' limits' plans cols rows truncated
    (Q : list byte -> encoder -> Prop) s :
  result_identity identity = Ok identity' -> result_limits limits = Ok limits' ->
  plans <> [] -> Forall2 planned plans cols -> Forall (valid_column limits) cols ->
  Forall (fun row => length row = length plans) rows ->
  (forall rs, sized plans cols rows truncated rs -> valid_result identity limits truncated cols rs) ->
  (truncated = true -> Z.of_nat (length rows) <> max_rows limits -> T) ->
  (forall s' rs, sized plans cols rows truncated rs -> Q (print_frame identity truncated cols rs) s') ->
  wpe (bad deadline T (exists rs, sized plans cols rows truncated rs))
    (run_encoder limits deadline identity plans rows truncated) Q s.
Proof.
  intros Hi Hl Hp Hc Vc Hr Hv HT HQ. pose proof (limits_ok _ _ Hl) as Bl.
  pose proof (identity_ok _ _ Hi) as (Si & Sd & _).
  unfold run_encoder. apply wpe_bind, preflight_spec; try assumption; [lia|].
  intros s1 rs Sz. set (total := HEADER_BYTES + blen (print_body cols rs)). pose proof Sz as (F & _).
  pose proof (Forall2_length _ _ _ F) as Lr. pose proof (Forall2_length _ _ _ Hc) as Lc.
  assert (H76 : HEADER_BYTES = 76) by reflexivity. set (zeros := replicate 76 (z2b 0)).
  assert (Lz : blen zeros = 76) by reflexivity.
  assert (Lt : total = 76 + 5 + 2 + blen (concat (map print_column cols)) +
            blen (concat (map print_row rs)) + 5 + blen (command (Z.of_nat (length rs))))
    by (unfold total; rewrite blen_print_body; lia).
  pose proof (blen_nonneg (concat (map print_column cols))).
  pose proof (blen_nonneg (concat (map print_row rs))).
  pose proof (blen_nonneg (command (Z.of_nat (length rs)))).
  apply wpe_bind, wpe_update. set (s2 := set_offset _ _).
  assert (W2 : written total zeros s2).
  { unfold written, s2. cbn [set_offset set_buffer w_offset buffer]. split; [reflexivity|].
    split; [unfold blen; rewrite length_replicate; lia|].
    exists (replicate (Z.to_nat total - 76) (z2b 0)). unfold zeros. rewrite <- replicate_add. f_equal. lia. }
  apply wpe_bind, (start_spec deadline T _ total zeros); [exact W2|lia|]. intros s3 W3.
  assert (L5 : forall w tag, blen (w ++ z2b tag :: pack_be 4 0) = blen w + 5)
    by (intros; rewrite blen_app; reflexivity).
  eapply wpe_bind, number_spec; [exact W3|rewrite L5; lia|]. intros s4 W4.
  apply wpe_bind. eapply write_columns_spec; [exact Hc|exact W4|rewrite blen_app, L5, blen_pack_be; lia|].
  intros s5 W5. apply wpe_bind. eapply end_spec; [rewrite <- app_assoc in W5; exact W5|lia|].
  intros s6 W6. rewrite Lc in W6. fold (print_description cols) in W6.
  assert (L6 : blen (zeros ++ print_description cols) = 83 + blen (concat (map print_column cols))).
  { unfold print_description. rewrite blen_app, blen_print_message, blen_app, blen_pack_be. lia. }
  apply wpe_bind. eapply write_rows_spec; [exact Hr|apply rows_wire, F|exact W6|rewrite L6; lia|].
  intros s7 W7. rewrite <- app_assoc in W7.
  set (w7 := zeros ++ print_description cols ++ concat (map print_row rs)) in *.
  assert (L7 : blen w7 = 83 + blen (concat (map print_column cols)) + blen (concat (map print_row rs)))
    by (unfold w7; rewrite app_assoc, blen_app, L6; lia).
  apply wpe_bind, (start_spec deadline T _ total w7); [exact W7|lia|]. intros s8 W8.
  rewrite Lr. apply wpe_bind. eapply put_spec; [exact W8|rewrite L5; lia|]. intros s9 W9.
  apply wpe_bind. eapply end_spec; [exact W9|lia|]. intros s10 W10.
  unfold w7 in W10. rewrite <- !app_assoc in W10. fold (print_body cols rs) in W10.
  destruct W10 as (O & L & rest & E). apply wpe_bind, wpe_get, wpe_bind, wpe_guard.
  { rewrite O, blen_app. unfold total. rewrite Lz, H76, Z.eqb_refl. discriminate. }
  intros _. apply wpe_bind, wpe_update. unfold wpe, validated. cbn [set_buffer buffer e_reads].
  assert (rest = []) as ->.
  { rewrite E, !blen_app, Lz in L. unfold total in L. destruct rest; [reflexivity|].
    unfold blen in L at 2. cbn [length] in L. lia. }
  rewrite app_nil_r in E. rewrite E.
  assert (Ew : write_at 0 (print_header identity truncated (Z.of_nat (length plans)) (Z.of_nat (length rs))
                (total - HEADER_BYTES)) (zeros ++ print_body cols rs) = print_frame identity truncated cols rs).
  { change 0 with (blen []). change (zeros ++ print_body cols rs) with ([] ++ zeros ++ print_body cols rs).
    rewrite write_at_app.
    - unfold print_frame. rewrite Lc. replace (total - HEADER_BYTES) with (blen (print_body cols rs))
        by (unfold total; lia). reflexivity.
    - pose proof (blen_print_header identity truncated (Z.of_nat (length plans)) (Z.of_nat (length rs))
        (total - HEADER_BYTES) Si Sd) as B. unfold blen in B, Lz. lia. }
  rewrite Ew. destruct (validate_result _ _ _ _ _) as [[v|e] n] eqn:V.
  - apply HQ, Sz.
  - intros HL. destruct (validate_result_complete identity limits deadline (e_reads s10)
      truncated cols rs _ _ HL Hi Hl (Hv rs Sz)) as [n' C]. rewrite C in V. discriminate.
Qed.
End whole.

Lemma row_encodes_iff limits plans cols row cs :
  Forall2 planned plans cols -> length row = length plans ->
  row_encodes limits plans row cs <->
  Forall2 (fun x c => wire_cell_of x.2 x.1 = Some c) (zip row (map plan_oid plans)) cs /\
  Forall2 (valid_cell limits) cols cs.
Proof.
  intros P. revert row cs; induction P as [|p c plans cols (_ & Eo & _) _ IH]; intros [|v row] cs L;
    try discriminate L; unfold row_encodes in *; cbn [zip zip_with map] in *.
  - split.
    + intros H. inversion H; subst. split; constructor.
    + intros [_ H]. inversion H; subst. constructor.
  - injection L as L. assert (V : forall w, valid_cell limits {| wire_name := []; wire_oid := plan_oid p |} w <->
                                            valid_cell limits c w)
      by (intros w; unfold valid_cell; cbn [wire_oid]; rewrite Eo; reflexivity).
    split.
    + intros H. inversion H as [|? w ? cs' [H1 H2] H3]; subst. apply IH in H3 as [H3 H4]; [|exact L].
      split; constructor; try assumption. apply V, H2.
    + intros [H1 H2]. inversion H1 as [|? w ? cs' H3 H4]; subst. inversion H2; subst.
      constructor; [split; [assumption|apply V; assumption]|]. apply IH; auto.
Qed.

Lemma wire_result_spec result columns rows :
  wire_result result = Some (columns, rows) <->
  Forall2 (fun x c => wire_column_of x = Some c)
    (zip (map output_name (Adapter.columns (Adapter.masked result))) (Adapter.type_oids result)) columns /\
  Forall2 (fun row cs => Forall2 (fun x c => wire_cell_of x.2 x.1 = Some c)
                           (zip row (Adapter.type_oids result)) cs)
    (Adapter.rows (Adapter.masked result)) rows.
Proof.
  unfold wire_result. rewrite <- mapM_Some. split.
  - intros H. destruct (mapM wire_column_of _) as [c|]; [|discriminate]. cbn [mbind option_bind] in H.
    destruct (mapM _ (Adapter.rows _)) as [r|] eqn:R; [|discriminate]. injection H as <- <-.
    split; [reflexivity|]. apply mapM_Some in R. eapply Forall2_impl; [exact R|].
    intros row cs H. apply mapM_Some. exact H.
  - intros [-> H]. cbn [mbind option_bind].
    assert (mapM (fun row => mapM (fun x => wire_cell_of x.2 x.1) (zip row (Adapter.type_oids result)))
              (Adapter.rows (Adapter.masked result)) = Some rows) as ->; [|reflexivity].
    apply mapM_Some. eapply Forall2_impl; [exact H|]. intros row cs F. apply mapM_Some. exact F.
Qed.

(** What a well-formed typed result guarantees. *)
Lemma typed_facts result result' :
  Adapter.typed_masked_result result = Ok result' ->
  let item := Adapter.masked result in
  (1 <= length (Adapter.columns item))%nat /\
  length (Adapter.type_oids result) = length (Adapter.columns item) /\
  Forall (fun oid => is_Some (assoc oid TYPE_SIZES)) (Adapter.type_oids result) /\
  Forall (fun row => length row = length (Adapter.columns item)) (Adapter.rows item).
Proof.
  unfold Adapter.typed_masked_result. intros H. inv_ok. cbv zeta.
  match goal with B : _ || _ || _ = false |- _ => rewrite !orb_false_iff, !negb_false_iff, !Nat.eqb_eq in B;
    destruct B as [[B1 B2] B3] end.
  match goal with B : negb (forallb _ _) = false |- _ => apply negb_false_iff in B; rename B into Ht end.
  match goal with B : existsb _ _ = false |- _ => rename B into Hr end.
  split; [lia|]. split; [exact B3|]. split.
  - apply List.Forall_forall. intros oid Hin. rewrite forallb_forall in Ht.
    apply (list_elem_of_In) in Hin. apply list_elem_of_lookup in Hin as [k Hk].
    destruct (lookup_lt_is_Some_2 (Adapter.columns (Adapter.masked result')) k) as [c Hc];
      [apply lookup_lt_Some in Hk; lia|].
    destruct (lookup_lt_is_Some_2 (Adapter.decisions (Adapter.masked result')) k) as [d Hd];
      [apply lookup_lt_Some in Hk; lia|].
    specialize (Ht ((c, d), oid)). unfold Adapter.typed_column, Adapter.wire_type in Ht.
    rewrite !andb_true_iff in Ht. destruct Ht as [[_ Ht] _].
    { apply list_elem_of_In, (list_elem_of_lookup_2 _ k), zip_lookup; [apply zip_lookup; assumption|exact Hk]. }
    unfold assoc. apply existsb_exists in Ht as (kv & Hkv & Hk').
    destruct (find (fun kv => kv.1 =? oid) TYPE_SIZES) eqn:F; [cbn; eauto|].
    eapply find_none in F; [|exact Hkv]. cbn in F, Hk'. congruence.
  - apply List.Forall_forall. intros row Hin. apply not_true_iff_false in Hr.
    destruct (Nat.eqb_spec (length row) (length (Adapter.columns (Adapter.masked result')))) as [E|N]; [exact E|].
    destruct Hr. apply existsb_exists. exists row. split; [exact Hin|]. apply negb_true_iff, Nat.eqb_neq, N.
Qed.

Lemma encode_spec limits deadline result result' identity identity' limits' s :
  Adapter.typed_masked_result result = Ok result' ->
  result_identity identity = Ok identity' -> result_limits limits = Ok limits' ->
  wpe (bad deadline (misreported result limits)
         (exists columns rows, representable result identity limits columns rows))
    (encode limits deadline result identity)
    (fun frame _ => exists columns rows, representable result identity limits columns rows /\
       frame = print_frame identity (Adapter.truncated (Adapter.masked result)) columns rows) s.
Proof.
  intros Ht Hi Hl. pose proof (limits_ok _ _ Hl) as Bl. pose proof (identity_ok _ _ Hi) as (Si & Sd & _).
  assert (Hok : is_ok (Adapter.typed_masked_result result) = true) by (rewrite Ht; reflexivity).
  destruct (typed_facts _ _ Ht) as (Wc & Wo & Ho & Hr). cbv zeta in *.
  set (item := Adapter.masked result) in *. set (oids := Adapter.type_oids result) in *.
  set (xs := zip (map output_name (Adapter.columns item)) oids).
  assert (Lx : length xs = length (Adapter.columns item)).
  { unfold xs. rewrite length_zip_with, length_map, Wo. apply Nat.min_id. }
  assert (Sx : map snd xs = oids).
  { unfold xs. apply snd_zip. rewrite length_map. lia. }
  unfold encode. fold item. cbv zeta. apply wpe_bind, wpe_check. intros s1 _. apply wpe_bind, wpe_guard.
  { intros B. apply bad_limit. intros (columns & rows & R & Vc & Vr & _).
    apply wire_result_spec in R as [R1 R2]. fold item oids xs in R1, R2.
    rewrite <- (Forall2_length _ _ _ R1), Lx in Vc. rewrite <- (Forall2_length _ _ _ R2) in Vr. lia. }
  intros _. apply wpe_bind, wpe_guard; [rewrite Hok; discriminate|]. intros _.
  apply wpe_bind, wpe_check. intros s2 _. apply wpe_bind. fold oids xs.
  apply (wpe_weaken deadline _ (exists cols, Forall2 (named limits) xs cols)).
  2:{ intros (columns & rows & R & _ & _ & _ & Vc & _). exists columns.
      apply wire_result_spec in R as [R1 _]. fold item oids xs in R1. clear -R1 Vc. revert Vc.
      induction R1 as [|x c l k Hx _ IH]; intros Vc; [constructor|]. inversion_clear Vc as [|? ? (Vt & Vn & _) Vc'].
      constructor; [|apply IH, Vc']. unfold valid_text in Vt. apply andb_true_iff in Vt as [Vt _].
      apply negb_true_iff in Vt. repeat split; assumption. }
  apply plan_columns_spec; [lia|]. intros s3 plans cols Fn Fp Ep. rewrite Sx in Ep.
  assert (Lp : length plans = length (Adapter.columns item)) by (rewrite <- (length_map plan_oid), Ep; exact Wo).
  assert (Vc : Forall (valid_column limits) cols).
  { apply List.Forall_forall. intros c Hc. apply list_elem_of_In, list_elem_of_lookup in Hc as [k Hk].
    destruct (Forall2_lookup_r _ _ _ _ _ Fn Hk) as ([v oid] & Hx & U & Z0 & L). unfold wire_column_of in U.
    cbn [fst snd] in U. destruct (utf8_encode v) as [bs|] eqn:E; [|discriminate]. injection U as <-.
    cbn [wire_name wire_oid] in *. split; [eapply utf8_valid_text; eassumption|]. split; [exact L|].
    unfold xs in Hx. apply lookup_zip_with_Some in Hx as (a & b & [= _ <-] & _ & Hb).
    rewrite Forall_lookup in Ho. eapply Ho, Hb. }
  assert (Eq : forall rs, sized limits plans cols (Adapter.rows item) (Adapter.truncated item) rs <->
                          representable result identity limits cols rs).
  { intros rs. unfold sized, representable, valid_result. rewrite wire_result_spec. fold item oids xs.
    assert (Lf : blen (print_frame identity (Adapter.truncated item) cols rs) = HEADER_BYTES + blen (print_body cols rs))
      by (unfold print_frame; rewrite blen_app, blen_print_header by assumption; reflexivity).
    rewrite Lf. pose proof (Forall2_length _ _ _ Fp) as Lpc.
    assert (C1 : Forall2 (fun x c => wire_column_of x = Some c) xs cols)
      by (eapply Forall2_impl; [exact Fn|intros x c (H & _); exact H]).
    assert (Rw : Forall2 (row_encodes limits plans) (Adapter.rows item) rs <->
      Forall2 (fun row cs => Forall2 (fun x c => wire_cell_of x.2 x.1 = Some c) (zip row oids) cs) (Adapter.rows item) rs /\
      Forall (Forall2 (valid_cell limits) cols) rs).
    { rewrite <- Ep. rewrite <- Lp in Hr. clear -Fp Hr. revert rs; induction Hr as [|row rows Hl _ IH]; intros rs.
      - split; [intros H; inversion H; split; constructor|intros [H _]; inversion H; constructor].
      - split.
        + intros H. inversion H as [|? cs ? rs' H1 H2]; subst. apply IH in H2 as [H2 H3].
          apply (row_encodes_iff limits plans cols row cs Fp Hl) in H1 as [H1 H4].
          split; constructor; assumption.
        + intros [H1 H2]. inversion H1 as [|? cs ? rs' H3 H4]; subst. inversion H2; subst.
          constructor; [apply (row_encodes_iff limits plans cols row cs Fp Hl); auto|apply IH; auto]. }
    rewrite Rw. split.
    - intros ((R1 & R2) & Bc & Br & Bt & Bf). pose proof (Forall2_length _ _ _ R1) as Lr.
      rewrite <- Lpc, <- Lr. split; [split; [exact C1|exact R1]|]. split; [lia|]. split; [lia|]. auto.
    - intros ((_ & R1) & Bc & Br & Bt & _ & R2 & Bf). pose proof (Forall2_length _ _ _ R1) as Lr.
      rewrite <- Lpc in Bc. rewrite <- Lr in Br, Bt. split; [auto|]. split; [lia|]. split; [lia|]. auto. }
  apply (wpe_weaken deadline _ (exists rs, sized limits plans cols (Adapter.rows item) (Adapter.truncated item) rs)).
  2:{ intros (columns & rs & R). assert (columns = cols) as ->; [|exists rs; apply Eq, R].
      destruct R as [R _]. apply wire_result_spec in R as [R1 _]. fold item oids xs in R1.
      apply (Forall2_det (fun x c => wire_column_of x = Some c) (fun x c => wire_column_of x = Some c) xs);
        [intros x c c' H1 H2; congruence| |exact R1].
      eapply Forall2_impl; [exact Fn|intros x c (H & _); exact H]. }
  eapply run_encoder_spec; try eassumption.
  - intros ->. cbn in Lp. lia.
  - rewrite Lp. exact Hr.
  - intros rs Sz. apply Eq in Sz as [_ V]. exact V.
  - intros Tt Tn. split; assumption.
  - intros s4 rs Sz. exists cols, rs. split; [apply Eq, Sz|reflexivity].
Qed.

(** ** Properties *)

(** C29: the encoder emits exactly the frame of the masked result: under a clock
    that stays before the deadline, a well-formed typed result either is
    encoded, and then the frame is the printed form of its own columns, types
    and cells, valid under the limits, or is refused, and then no such form
    exists: the category is [TYPE] or [LIMIT], never a fatal one, unless the
    result reports a truncation with fewer or more rows than the limit. *)
Theorem encode_result_exact limits deadline result result' identity :
  live deadline -> Adapter.typed_masked_result result = Ok result' ->
  result_identity identity = Ok identity -> result_limits limits = Ok limits ->
  match encode_result result identity limits deadline with
  | Ok frame => exists columns rows,
      representable result identity limits columns rows /\
      frame = print_frame identity (Adapter.truncated (Adapter.masked result)) columns rows
  | Err c =>
      (c = ENCODE_TYPE \/ c = ENCODE_LIMIT \/ (c = ENCODE_PROTOCOL /\ misreported result limits)) /\
      forall columns rows, ~ representable result identity limits columns rows
  end.
Proof.
  intros HL Ht Hi Hl.
  pose proof (encode_spec limits deadline result result' identity identity limits new_encoder Ht Hi Hl) as W.
  unfold wpe in W. unfold encode_result. destruct (encode _ _ _ _ _) as [[frame|e] s']; cbn [fst]; [exact W|].
  destruct (W HL) as [C N]. split; [|intros columns rows R; apply N; eauto].
  destruct C as [-> |[-> |[-> M]]]; cbn [failure_category]; auto.
Qed.

(** What the encoder emits, the receiving side accepts: whatever the clock
    did while encoding, a frame that was returned is the printed form of the
    result, and its validation under the same identity and limits, by a clock
    that stays before its deadline, succeeds and counts the result's columns
    and rows. *)
Theorem encoded_frame_validates limits deadline result result' identity frame d start :
  Adapter.typed_masked_result result = Ok result' ->
  result_identity identity = Ok identity -> result_limits limits = Ok limits ->
  encode_result result identity limits deadline = Ok frame -> live d ->
  exists v n, validate_result frame identity limits d start = (Ok v, n) /\ wire v = frame /\
    v_columns v = Z.of_nat (length (Adapter.columns (Adapter.masked result))) /\
    v_rows v = Z.of_nat (length (Adapter.rows (Adapter.masked result))) /\
    v_truncated v = Adapter.truncated (Adapter.masked result).
Proof.
  intros Ht Hi Hl H HL.
  pose proof (encode_spec limits deadline result result' identity identity limits new_encoder Ht Hi Hl) as W.
  unfold wpe in W. unfold encode_result in H. destruct (encode _ _ _ _ _) as [[f|e] s']; cbn [fst] in H; [|discriminate].
  injection H as ->. destruct W as (cols & rows & [R V] & ->).
  destruct (validate_result_complete identity limits d start _ cols rows _ _ HL Hi Hl V) as [n C].
  do 2 eexists. split; [exact C|]. cbn [wire v_columns v_rows v_truncated]. split; [reflexivity|].
  apply wire_result_spec in R as [R1 R2]. destruct (typed_facts _ _ Ht) as (_ & Wo & _).
  apply Forall2_length in R1. rewrite length_zip_with, length_map, Wo, Nat.min_id in R1.
  rewrite <- R1, <- (Forall2_length _ _ _ R2). auto.
Qed.

(** ** Witnesses *)

Definition sample_descriptor (name : string) : ColumnDescriptor :=
  {| output_name := py name; origin_name := None; origin_schema := None; origin_table := None;
     provenance_kind := UNKNOWN; derived_rule_index := None |}.

Definition sample_decision (name : string) (a : Action) : Decision_ :=
  {| action := a; decided_output := py name; decided_origin := None; decided_rule := None;
     transformer_name := None |}.

(** An integer column that passes and an email column that is masked. *)
Definition sample_typed : Adapter.TypedMaskedResult :=
  {| Adapter.masked :=
       {| Adapter.columns := [sample_descriptor "id"; sample_descriptor "email"];
          Adapter.decisions := [sample_decision "id" ALLOW; sample_decision "email" MASK];
          Adapter.rows := [[VInt (-7); VStr (py "[REDACTED]")]; [VInt 0; VNone]];
          Adapter.truncated := true |};
     Adapter.type_oids := [23; 25] |}.

Lemma sample_encoded :
  encode_result sample_typed sample_identity sample_limits still_deadline =
  Ok (print_frame sample_identity true sample_columns sample_rows).
Proof. vm_compute. reflexivity. Qed.

Lemma encode_result_exact_witness : exists columns rows,
  representable sample_typed sample_identity sample_limits columns rows.
Proof.
  pose proof (encode_result_exact sample_limits still_deadline sample_typed sample_typed sample_identity
    still_live eq_refl eq_refl eq_refl) as H.
  rewrite sample_encoded in H. destruct H as (columns & rows & H & _). exists columns, rows. exact H.
Defined.

Lemma encoded_frame_validates_witness : exists v n,
  validate_result (print_frame sample_identity true sample_columns sample_rows) sample_identity
    sample_limits still_deadline 0 = (Ok v, n) /\ v_rows v = 2.
Proof.
  destruct (encoded_frame_validates sample_limits still_deadline sample_typed sample_typed sample_identity
    _ still_deadline 0 eq_refl eq_refl eq_refl sample_encoded still_live) as (v & n & H & _ & _ & R & _).
  exists v, n. split; [exact H|exact R].
Defined.
