(* ===== verification/Startup.v ===== *)
(** * Startup: the bounded framing of the PostgreSQL 3.0 startup

    Models [pgwire/framing.py] and [pgwire/errors.py]: the initial packet, the
    startup message with its key-value pairs, the SASL messages of the client
    and the authentication messages of the server, as pure functions of bytes. *)

From S2P Require Import Prelude.
From S2P Require Import Bytes.
From S2P Require Import Unicode.

Local Open Scope Z_scope.

(** ** Errors, [errors.py] *)

Inductive PgwireErrorCategory :=
| AUTHENTICATION_FAILED | PROTOCOL_VIOLATION | FEATURE_NOT_SUPPORTED | INTERNAL_ERROR
| TOO_MANY_CONNECTIONS.

(** [PGWIRE_ERRORS]: SQLSTATE and fixed message. *)
Definition PGWIRE_ERRORS (c : PgwireErrorCategory) : string * string :=
  match c with
  | AUTHENTICATION_FAILED => ("28P01", "authentication failed")
  | PROTOCOL_VIOLATION => ("08P01", "protocol violation")
  | FEATURE_NOT_SUPPORTED => ("0A000", "feature not supported")
  | INTERNAL_ERROR => ("XX000", "internal error")
  | TOO_MANY_CONNECTIONS => ("53300", "too many connections")
  end%string.

Definition zero : byte := z2b 0.

Definition error_response (c : PgwireErrorCategory) : list byte :=
  let '(code, message) := PGWIRE_ERRORS c in
  let fields := ascii_lit "SFATAL" ++ [zero] ++ ascii_lit "VFATAL" ++ [zero] ++
                ascii_lit "C" ++ ascii_lit code ++ [zero] ++
                ascii_lit "M" ++ ascii_lit message ++ [zero] ++ [zero] in
  ascii_lit "E" ++ pack_be 4 (blen fields + 4) ++ fields.

(** ** Constants *)

Definition LENGTH_BYTES : Z := 4.
Definition TYPED_HEADER_BYTES : Z := 5.
Definition MIN_INITIAL_PACKET : Z := 8.
Definition MAX_INITIAL_PACKET : Z := 10000.
Definition MAX_STARTUP_PAIRS : Z := 32.
Definition MAX_KEY_BYTES : Z := 63.
Definition MAX_VALUE_BYTES : Z := 256.
Definition MAX_SASL_MESSAGE : Z := 2048.
Definition MAX_MECHANISM_NAME : Z := 32.

Definition PROTOCOL_3_0 : Z := 196608.
Definition SSL_REQUEST_CODE : Z := 80877103.
Definition GSSENC_REQUEST_CODE : Z := 80877104.
Definition CANCEL_REQUEST_CODE : Z := 80877102.

Definition STARTUP_KEYS : list pystr := map py ["user"; "database"; "application_name"; "client_encoding"].
Definition UTF8_NAMES : list pystr := map py ["utf8"; "utf-8"; "unicode"].

Inductive InitialKind := SSL_REQUEST | STARTUP.

Record StartupMessage := {
  user : pystr;
  database : option pystr;
  application_name : option pystr;
}.

Abbreviation framing A := (res PgwireErrorCategory A).

(** [_fail] under a test. *)
Definition violation (test : bool) : framing unit := refuse_if test PROTOCOL_VIOLATION.

(** ** Client messages *)

Definition initial_length (header : list byte) : framing Z :=
  violation (negb (blen header =? LENGTH_BYTES));;
  let length := unpack_be header in
  violation (negb ((MIN_INITIAL_PACKET <=? length) && (length <=? MAX_INITIAL_PACKET)));;
  Ok length.

Definition classify_initial (body : list byte) : framing InitialKind :=
  violation (blen body <? LENGTH_BYTES);;
  let code := unpack_be (slice 0 4 body) in
  if code =? SSL_REQUEST_CODE then
    violation (negb (blen body =? LENGTH_BYTES));; Ok SSL_REQUEST
  else if (code =? GSSENC_REQUEST_CODE) || (code =? CANCEL_REQUEST_CODE) then
    Err FEATURE_NOT_SUPPORTED
  else if code =? PROTOCOL_3_0 then Ok STARTUP
  else if Z.shiftr code 16 =? Z.shiftr PROTOCOL_3_0 16 then Err FEATURE_NOT_SUPPORTED
  else Err PROTOCOL_VIOLATION.

(** [bs.split(b"\x00")]. *)
Fixpoint split_zero (bs : list byte) : list (list byte) :=
  match bs with
  | [] => [[]]
  | b :: bs =>
      if b2z b =? 0 then [] :: split_zero bs
      else match split_zero bs with
           | [] => [[b]]
           | field :: fields => (b :: field) :: fields
           end
  end.

(** The dictionary of the values read so far, in insertion order. *)
Abbreviation startup_values := (list (pystr * pystr)).

Definition value_of (values : startup_values) (key : pystr) : option pystr :=
  snd <$> find (fun kv => bool_decide (kv.1 = key)) values.

(** The loop over the pairs of fields of [parse_startup]. *)
Fixpoint startup_pairs (values : startup_values) (fields : list (list byte)) : framing startup_values :=
  match fields with
  | raw_key :: raw_value :: fields =>
      violation ((blen raw_key =? 0) || (MAX_KEY_BYTES <? blen raw_key) ||
                 (MAX_VALUE_BYTES <? blen raw_value));;
      match utf8_decode raw_key, utf8_decode raw_value with
      | Some key, Some value =>
          violation (match value_of values key with Some _ => true | None => false end);;
          refuse_if (negb (name_in key STARTUP_KEYS)) FEATURE_NOT_SUPPORTED;;
          startup_pairs (values ++ [(key, value)]) fields
      | _, _ => Err PROTOCOL_VIOLATION
      end
  | _ => Ok values
  end.

(** [str.lower], as far as [UTF8_NAMES] can tell: no other character's lower
    case is made of the letters of those names. *)
Definition lower_ascii (s : pystr) : pystr :=
  map (fun c => if (65 <=? c) && (c <=? 90) then c + 32 else c) s.

(** The checks of [parse_startup] on the values, and the message. *)
Definition startup_message (values : startup_values) : framing StartupMessage :=
  match value_of values (py "user") with
  | None | Some [] => Err PROTOCOL_VIOLATION
  | Some name =>
      refuse_if (match value_of values (py "client_encoding") with
                 | Some encoding => negb (name_in (lower_ascii encoding) UTF8_NAMES)
                 | None => false
                 end) FEATURE_NOT_SUPPORTED;;
      Ok {| user := name; database := value_of values (py "database");
            application_name := value_of values (py "application_name") |}
  end.

Definition parse_startup (body : list byte) : framing StartupMessage :=
  kind ← classify_initial body;
  match kind with SSL_REQUEST => Err PROTOCOL_VIOLATION | STARTUP =>
    let payload := drop 4 body in
    let size := blen payload in
    violation (negb ((2 <=? size) && bool_decide (slice (size - 2) size payload = [zero; zero])));;
    let fields := split_zero (slice 0 (size - 2) payload) in
    violation (negb (Z.of_nat (length fields) mod 2 =? 0) ||
               (MAX_STARTUP_PAIRS <? Z.of_nat (length fields) / 2));;
    values ← startup_pairs [] fields;
    startup_message values
  end.

(** [ALIAS_PATTERN]. *)
Definition alias_head (c : Z) : bool := (97 <=? c) && (c <=? 122) || (48 <=? c) && (c <=? 57).
Definition alias_char (c : Z) : bool := alias_head c || (c =? 95) || (c =? 45).

Definition valid_alias (value : option pystr) : bool :=
  match value with
  | Some (c :: rest) => alias_head c && forallb alias_char rest && (length rest <=? 62)%nat
  | _ => false
  end.

Definition message_length (header expected_type : list byte) : framing Z :=
  violation (negb (blen header =? TYPED_HEADER_BYTES) ||
             negb (bool_decide (slice 0 1 header = expected_type)));;
  let length := unpack_be (slice 1 5 header) in
  violation (negb ((LENGTH_BYTES <=? length) && (length <=? MAX_SASL_MESSAGE)));;
  Ok (length - LENGTH_BYTES).

Definition parse_sasl_initial (body : list byte) : framing (pystr * list byte) :=
  violation (MAX_SASL_MESSAGE - LENGTH_BYTES <? blen body);;
  match find_zero 0 body with
  | None => Err PROTOCOL_VIOLATION
  | Some stop =>
      let name := slice 0 stop body in
      violation ((stop <=? 0) || (MAX_MECHANISM_NAME <? stop) || negb (bytes_is_ascii name));;
      let rest := slice (stop + 1) (blen body) body in
      violation (blen rest <? LENGTH_BYTES);;
      let declared := unpack_be_signed 4 (slice 0 4 rest) in
      let data := slice 4 (blen rest) rest in
      violation ((declared <? 0) || negb (declared =? blen data));;
      Ok (map b2z name, data)
  end.

(** ** Server messages *)

(** [_message]. *)
Definition server_message (kind : string) (body : list byte) : list byte :=
  ascii_lit kind ++ pack_be 4 (blen body + 4) ++ body.

Definition authentication_sasl (mechanisms : list pystr) : list byte :=
  server_message "R" (pack_be 4 10 ++ (mechanisms ≫= fun name => ascii_encode name ++ [zero]) ++ [zero]).
Definition authentication_sasl_continue (data : list byte) : list byte :=
  server_message "R" (pack_be 4 11 ++ data).
Definition authentication_sasl_final (data : list byte) : list byte :=
  server_message "R" (pack_be 4 12 ++ data).
Definition authentication_ok : list byte := server_message "R" (pack_be 4 0).

(** ** The grammar of a startup message *)

(** The pairs as a client sends them. *)
Definition print_pairs (pairs : list (list byte * list byte)) : list byte :=
  pairs ≫= fun kv => kv.1 ++ [zero] ++ kv.2 ++ [zero].

Definition print_startup (pairs : list (list byte * list byte)) : list byte :=
  pack_be 4 PROTOCOL_3_0 ++ print_pairs pairs ++ [zero].

Definition no_zero (bs : list byte) : Prop := forall b, b ∈ bs -> b2z b <> 0.

(** A pair within the bounds that decodes to a known key. *)
Definition valid_pair (raw : list byte * list byte) (kv : pystr * pystr) : Prop :=
  no_zero raw.1 /\ no_zero raw.2 /\ 1 <= blen raw.1 <= MAX_KEY_BYTES /\
  blen raw.2 <= MAX_VALUE_BYTES /\ utf8_decode raw.1 = Some kv.1 /\ utf8_decode raw.2 = Some kv.2 /\
  kv.1 ∈ STARTUP_KEYS.

(** ** Fields *)

Definition print_fields (fields : list (list byte)) : list byte := fields ≫= fun f => f ++ [zero].

Lemma print_fields_cons f fs : print_fields (f :: fs) = f ++ [zero] ++ print_fields fs.
Proof. unfold print_fields. cbn. rewrite <- app_assoc. reflexivity. Qed.

Lemma print_fields_end f fields : exists rest, print_fields (f :: fields) = rest ++ [zero].
Proof.
  revert f; induction fields as [|h fields IH]; intros f; rewrite print_fields_cons.
  - exists f. reflexivity.
  - destruct (IH h) as [r ->]. exists (f ++ [zero] ++ r). rewrite <- !app_assoc. reflexivity.
Qed.

Lemma no_zero_nil : no_zero [].
Proof. intros b H. inversion H. Qed.

Lemma no_zero_cons b bs : no_zero (b :: bs) <-> b2z b <> 0 /\ no_zero bs.
Proof.
  unfold no_zero. split.
  - intros H. split; [apply H; left|intros c Hc; apply H; right; exact Hc].
  - intros [H1 H2] c Hc. apply elem_of_cons in Hc as [->|Hc]; auto.
Qed.

Lemma split_zero_sound bs :
  bs ++ [zero] = print_fields (split_zero bs) /\ Forall no_zero (split_zero bs) /\ split_zero bs <> [].
Proof.
  induction bs as [|b bs (IH1 & IH2 & IH3)]; cbn [split_zero].
  - split; [reflexivity|]. split; [constructor; [apply no_zero_nil|constructor]|discriminate].
  - destruct (Z.eqb_spec (b2z b) 0) as [E|N].
    + assert (b = zero) as -> by (apply b2z_inj; rewrite E; reflexivity).
      rewrite print_fields_cons, <- IH1. split; [reflexivity|].
      split; [constructor; [apply no_zero_nil|exact IH2]|discriminate].
    + destruct (split_zero bs) as [|f fs]; [congruence|]. rewrite print_fields_cons in *.
      cbn [app] in *. rewrite IH1. split; [reflexivity|]. inversion_clear IH2.
      split; [constructor; [apply no_zero_cons; auto|assumption]|discriminate].
Qed.

Lemma split_zero_field f rest : no_zero f -> split_zero (f ++ zero :: rest) = f :: split_zero rest.
Proof.
  induction f as [|b f IH]; intros H; cbn [app split_zero]; [reflexivity|].
  apply no_zero_cons in H as [Hb Hf]. apply Z.eqb_neq in Hb. rewrite Hb, (IH Hf). reflexivity.
Qed.

Lemma split_zero_last f : no_zero f -> split_zero f = [f].
Proof.
  induction f as [|b f IH]; intros H; cbn [split_zero]; [reflexivity|].
  apply no_zero_cons in H as [Hb Hf]. apply Z.eqb_neq in Hb. rewrite Hb, (IH Hf). reflexivity.
Qed.

Lemma split_zero_complete fields bs :
  Forall no_zero fields -> fields <> [] -> bs ++ [zero] = print_fields fields -> split_zero bs = fields.
Proof.
  revert bs; induction fields as [|f fields IH]; intros bs F N E; [congruence|].
  inversion_clear F as [|? ? Hf Hfs]. rewrite print_fields_cons in E. destruct fields as [|g fields].
  - cbn in E. apply app_inj_tail in E as [-> _]. apply split_zero_last, Hf.
  - destruct (print_fields_end g fields) as [rest Er].
    rewrite Er in E. cbn [app] in E. change (f ++ zero :: rest ++ [zero]) with (f ++ (zero :: rest) ++ [zero]) in E.
    rewrite app_assoc in E. apply app_inj_tail in E as [-> _]. rewrite split_zero_field by exact Hf. f_equal.
    apply IH; [exact Hfs|discriminate|]. symmetry. exact Er.
Qed.

(** The fields of the pairs, in order. *)
Fixpoint flat (pairs : list (list byte * list byte)) : list (list byte) :=
  match pairs with [] => [] | kv :: pairs => kv.1 :: kv.2 :: flat pairs end.

Lemma print_pairs_flat pairs : print_pairs pairs = print_fields (flat pairs).
Proof.
  induction pairs as [|kv pairs IH]; [reflexivity|]. cbn [flat]. rewrite !print_fields_cons, <- IH.
  unfold print_pairs. cbn. rewrite <- !app_assoc. cbn. rewrite <- app_assoc. reflexivity.
Qed.

Lemma length_flat pairs : length (flat pairs) = (2 * length pairs)%nat.
Proof. induction pairs as [|kv pairs IH]; cbn [flat length]; [reflexivity|]. rewrite IH. lia. Qed.

Lemma even_flat fields n : length fields = (2 * n)%nat -> exists pairs, fields = flat pairs.
Proof.
  revert fields; induction n as [|n IH]; intros fields L; [destruct fields; [exists []; reflexivity|discriminate]|].
  destruct fields as [|k [|v fields]]; [discriminate|cbn in L; lia|].
  destruct (IH fields) as [pairs ->]; [cbn in L; lia|]. exists ((k, v) :: pairs). reflexivity.
Qed.

Lemma flat_no_zero pairs :
  Forall no_zero (flat pairs) <-> Forall (fun kv => no_zero kv.1 /\ no_zero kv.2) pairs.
Proof.
  induction pairs as [|kv pairs IH]; cbn [flat]; [split; constructor|].
  rewrite !Forall_cons, IH. tauto.
Qed.

Lemma value_of_None values key : value_of values key = None <-> ~ key ∈ map fst values.
Proof.
  unfold value_of. induction values as [|[k v] values IH]; cbn [find map fst].
  - split; [intros _ H; inversion H|reflexivity].
  - rewrite elem_of_cons. case_bool_decide as E; cbn.
    + split; [discriminate|]. intros H. destruct H. auto.
    + rewrite IH. split; [intros H [?|?]; [congruence|auto]|auto].
Qed.

(** Reading pairs: what is not about zeros. *)
Definition read_pair (raw : list byte * list byte) (kv : pystr * pystr) : Prop :=
  1 <= blen raw.1 <= MAX_KEY_BYTES /\ blen raw.2 <= MAX_VALUE_BYTES /\
  utf8_decode raw.1 = Some kv.1 /\ utf8_decode raw.2 = Some kv.2 /\ kv.1 ∈ STARTUP_KEYS.

Lemma startup_pairs_spec values pairs values' :
  NoDup (map fst values) ->
  startup_pairs values (flat pairs) = Ok values' <->
  exists kvs, values' = values ++ kvs /\ Forall2 read_pair pairs kvs /\ NoDup (map fst values').
Proof.
  revert values; induction pairs as [|[k v] pairs IH]; intros values N; cbn [flat startup_pairs].
  { split.
    - intros [= <-]. exists []. rewrite app_nil_r. split; [reflexivity|]. split; [constructor|exact N].
    - intros (kvs & -> & F & _). inversion F; subst. rewrite app_nil_r. reflexivity. }
  cbn [fst snd]. split.
  - intros H. unfold violation in H. inv_ok. destruct (utf8_decode k) as [key|] eqn:Dk; [|discriminate].
    destruct (utf8_decode v) as [val|] eqn:Dv; [|discriminate]. inv_ok.
    match goal with B : negb (name_in _ _) = false |- _ =>
      apply negb_false_iff, bool_decide_eq_true in B; rename B into Hk end.
    assert (Hn : ~ key ∈ map fst values) by (apply value_of_None; destruct (value_of values key); congruence).
    apply IH in H as (kvs & -> & F & ND).
    2:{ rewrite map_app. apply NoDup_app. split; [exact N|]. split; [|apply NoDup_singleton].
        intros y Hy Hy'. apply list_elem_of_singleton in Hy'. subst. contradiction. }
    exists ((key, val) :: kvs). rewrite <- app_assoc in *. split; [reflexivity|]. split; [|exact ND].
    constructor; [|exact F]. pose proof (blen_nonneg k). unfold read_pair. cbn [fst snd].
    repeat split; try assumption; lia.
  - intros (kvs & -> & F & ND). inversion F as [|? [key val] ? kvs' (H1 & H2 & Dk & Dv & Hk) F']; subst.
    cbn [fst snd] in *. rewrite Dk, Dv. unfold violation.
    replace ((blen k =? 0) || (MAX_KEY_BYTES <? blen k) || (MAX_VALUE_BYTES <? blen v)) with false by lia.
    rewrite map_app in ND. cbn [map fst] in ND. pose proof ND as ND0. apply NoDup_app in ND as (_ & ND & _).
    assert (Hv : value_of values key = None) by (apply value_of_None; intros H; apply (ND key H); left).
    rewrite Hv. unfold name_in. rewrite bool_decide_eq_true_2 by exact Hk. cbn [refuse_if mbind res_bind negb].
    apply IH.
    + rewrite map_app. cbn [map fst]. change (key :: map fst kvs') with ([key] ++ map fst kvs') in ND0.
      rewrite app_assoc in ND0. apply NoDup_app in ND0 as (H & _). exact H.
    + exists kvs'. rewrite <- app_assoc. split; [reflexivity|]. split; [exact F'|].
      rewrite map_app. exact ND0.
Qed.

Lemma valid_pairs_split pairs kvs :
  Forall2 valid_pair pairs kvs <-> Forall no_zero (flat pairs) /\ Forall2 read_pair pairs kvs.
Proof.
  rewrite flat_no_zero. split.
  - intros H. split; [|eapply Forall2_impl; [exact H|]; unfold valid_pair, read_pair; tauto].
    induction H as [|raw kv pairs kvs H _ IH]; constructor; [|exact IH]. unfold valid_pair in H. tauto.
  - intros [H F]. induction F as [|raw kv pairs kvs R _ IH]; constructor.
    + apply Forall_cons in H as [H _]. unfold valid_pair, read_pair in *. tauto.
    + apply IH. apply Forall_cons in H as [_ H]. exact H.
Qed.

(** ** Properties *)

(** The message the values make. *)
Definition message_of (kvs : startup_values) (m : StartupMessage) : Prop :=
  value_of kvs (py "user") = Some (user m) /\ user m <> [] /\
  (forall e, value_of kvs (py "client_encoding") = Some e -> lower_ascii e ∈ UTF8_NAMES) /\
  database m = value_of kvs (py "database") /\
  application_name m = value_of kvs (py "application_name").

Lemma startup_message_spec kvs m : startup_message kvs = Ok m <-> message_of kvs m.
Proof.
  unfold startup_message, message_of. destruct (value_of kvs (py "user")) as [[|c u]|].
  - split; [discriminate|]. intros ([= <-] & N & _). congruence.
  - split.
    + intros H. inv_ok. cbn [user database application_name]. split; [reflexivity|]. split; [discriminate|].
      split; [|auto]. intros e E. rewrite E in *.
      match goal with B : negb (name_in _ _) = false |- _ => apply negb_false_iff, bool_decide_eq_true in B; exact B end.
    + intros ([= E] & _ & He & Hd & Ha). destruct m as [u' d a]. cbn [user database application_name] in *. subst.
      destruct (value_of kvs (py "client_encoding")) as [e|]; [|reflexivity].
      unfold name_in. rewrite bool_decide_eq_true_2 by (apply He; reflexivity). reflexivity.
  - split; [discriminate|]. intros ([=] & _).
Qed.

(** C32: the startup parser accepts exactly the bounded messages of the profile:
    a body is accepted if and only if it is protocol 3.0 followed by 1 to 32
    pairs, each key known, not repeated, of 1 to 63 bytes, each value of at
    most 256 bytes, all strict UTF-8 without NUL, and the closing zero, with a
    user that is not empty and no other client encoding than UTF-8; and the
    message returned is the one those pairs make. *)
Theorem startup_grammar body m :
  parse_startup body = Ok m <->
  exists pairs kvs,
    body = print_startup pairs /\ 1 <= Z.of_nat (length pairs) <= MAX_STARTUP_PAIRS /\
    Forall2 valid_pair pairs kvs /\ NoDup (map fst kvs) /\ message_of kvs m.
Proof.
  unfold parse_startup. split.
  - intros H. inv_ok. destruct x; [discriminate|]. cbv zeta in H. unfold violation in H. inv_ok.
    set (payload := drop 4 body) in *. set (inner := slice 0 (blen payload - 2) payload) in *.
    match goal with B : negb (_ && bool_decide _) = false |- _ =>
      apply negb_false_iff, andb_true_iff in B as [B1 B2]; apply Z.leb_le in B1;
      apply bool_decide_eq_true in B2 end.
    match goal with B : negb (_ =? 0) || _ = false |- _ =>
      apply orb_false_iff in B as [B3 B4]; apply negb_false_iff, Z.eqb_eq in B3; apply Z.ltb_ge in B4 end.
    assert (Hc : body = pack_be 4 PROTOCOL_3_0 ++ payload).
    { match goal with C : classify_initial body = Ok STARTUP |- _ => unfold classify_initial, violation in C;
        inv_ok; rename C into Hc end.
      match goal with B : (blen body <? _) = false |- _ => apply Z.ltb_ge in B; unfold LENGTH_BYTES in B end.
      repeat (case_match; inv_ok; try discriminate).
      match goal with B : (unpack_be _ =? PROTOCOL_3_0) = true |- _ => apply Z.eqb_eq in B; rewrite <- B end.
      unfold payload. assert (L : length (slice 0 4 body) = 4%nat).
      { apply Nat2Z.inj. change (blen (slice 0 4 body) = 4). apply blen_slice; lia. }
      rewrite <- L at 1. rewrite pack_unpack_be. unfold slice. cbn. symmetry. apply take_drop. }
    destruct (split_zero_sound inner) as (S1 & S2 & S3).
    destruct (even_flat (split_zero inner) (Nat.div (length (split_zero inner)) 2)) as [pairs Ep].
    { apply Nat2Z.inj. rewrite Nat2Z.inj_mul, Nat2Z.inj_div. pose proof (Z.div_mod (Z.of_nat (length (split_zero inner))) 2). lia. }
    rewrite Ep in *. match goal with R : startup_pairs [] _ = Ok _ |- _ =>
      apply startup_pairs_spec in R as (kvs & -> & R & ND); [|constructor] end.
    exists pairs, kvs. split.
    { rewrite Hc. unfold print_startup. f_equal. rewrite print_pairs_flat, <- S1.
      rewrite <- app_assoc. change ([zero] ++ [zero]) with [zero; zero]. rewrite <- B2. unfold inner.
      rewrite <- slice_split, slice_all by lia. reflexivity. }
    rewrite length_flat in B4. split.
    { destruct pairs; [destruct S3; reflexivity|]. split; [cbn [length]; lia|].
      replace (Z.of_nat (2 * length (p :: pairs)) / 2) with (Z.of_nat (length (p :: pairs))) in B4; [lia|].
      rewrite Nat2Z.inj_mul, Z.mul_comm, Z.div_mul by lia. reflexivity. }
    split; [apply valid_pairs_split; auto|]. split; [exact ND|]. apply startup_message_spec, H.
  - intros (pairs & kvs & -> & Hn & F & ND & M). apply valid_pairs_split in F as [F R].
    assert (Hb : slice 0 4 (print_startup pairs) = pack_be 4 PROTOCOL_3_0) by reflexivity.
    unfold classify_initial. rewrite Hb. set (tail := print_pairs pairs ++ [zero]).
    assert (Lb : 4 <= blen (print_startup pairs)).
    { unfold print_startup. rewrite blen_app, blen_pack_be. pose proof (blen_nonneg tail). unfold tail in *. lia. }
    unfold violation. replace (blen (print_startup pairs) <? LENGTH_BYTES) with false
      by (symmetry; apply Z.ltb_ge; exact Lb).
    change (unpack_be (pack_be 4 PROTOCOL_3_0)) with PROTOCOL_3_0. cbn [refuse_if mbind res_bind].
    change (PROTOCOL_3_0 =? SSL_REQUEST_CODE) with false.
    change ((PROTOCOL_3_0 =? GSSENC_REQUEST_CODE) || (PROTOCOL_3_0 =? CANCEL_REQUEST_CODE)) with false.
    rewrite Z.eqb_refl. cbn iota beta. change (drop 4 (print_startup pairs)) with tail. cbv zeta.
    assert (exists inner, print_pairs pairs = inner ++ [zero]) as [inner Ei].
    { rewrite print_pairs_flat. destruct pairs as [|p pairs]; [cbn in Hn; lia|]. apply print_fields_end. }
    assert (Et : tail = inner ++ [zero; zero]) by (unfold tail; rewrite Ei, <- app_assoc; reflexivity).
    assert (Lt : blen tail = blen inner + 2) by (rewrite Et, blen_app; reflexivity).
    assert (Sl : slice (blen tail - 2) (blen tail) tail = [zero; zero]).
    { rewrite Lt. replace (blen inner + 2 - 2) with (blen inner) by lia. rewrite Et, <- (app_nil_r [zero; zero]).
      apply slice_app; reflexivity. }
    assert (Si : slice 0 (blen tail - 2) tail = inner).
    { rewrite Lt. replace (blen inner + 2 - 2) with (blen inner) by lia. rewrite Et.
      apply (slice_app [] inner [zero; zero]); reflexivity. }
    rewrite Sl, Si. pose proof (blen_nonneg inner).
    rewrite bool_decide_eq_true_2 by reflexivity.
    replace (2 <=? blen tail) with true by lia. cbn [andb negb refuse_if mbind res_bind].
    rewrite (split_zero_complete (flat pairs) inner).
    2:{ exact F. } 2:{ destruct pairs; [cbn in Hn; lia|discriminate]. }
    2:{ rewrite <- print_pairs_flat. symmetry. exact Ei. }
    rewrite length_flat, Nat2Z.inj_mul, Z.mul_comm, Z.mod_mul, Z.div_mul by lia.
    replace (negb (0 =? 0) || (MAX_STARTUP_PAIRS <? Z.of_nat (length pairs))) with false by lia.
    cbn [refuse_if mbind res_bind].
    rewrite (proj2 (startup_pairs_spec [] pairs kvs (NoDup_nil_2)) (ex_intro _ kvs (conj eq_refl (conj R ND)))).
    cbn [mbind res_bind]. apply startup_message_spec, M.
Qed.
