(* ===== verification/Scram.v ===== *)
(** * Scram: the server side of SCRAM-SHA-256

    Models [pgwire/scram.py] and the verifiers of [pgwire/credential.py]: the
    single-use exchange as a state machine over its two client messages, and
    the simulated verifier of an unknown user.  HMAC and the hash are the
    [PyLib] interface; the system's random bytes are an argument.  The
    derivation of a password, done by a third-party library, is not modelled. *)

From S2P Require Import Prelude.
From S2P Require Import Bytes.
From S2P Require Import Unicode.
From S2P Require Import Transformers.
From S2P Require Import Startup.

Local Open Scope Z_scope.

Definition SCRAM_SHA_256 : pystr := py "SCRAM-SHA-256".
Definition SCRAM_SHA_256_PLUS : pystr := py "SCRAM-SHA-256-PLUS".
Definition CHANNEL_BINDING_TYPE : pystr := py "tls-server-end-point".
Definition MIN_CLIENT_NONCE : nat := 8.
Definition MAX_CLIENT_NONCE : nat := 256.
Definition PROOF_BYTES : Z := 32.

(** ** Credentials, [credential.py] *)

Record ScramVerifier := {
  salt : list byte;
  iterations : Z;
  stored_key : list byte;
  server_key : list byte;
  real : bool;
}.

Record PrincipalCredential := {
  username : list byte;
  principal : ScramVerifier;
  mock_key : list byte;
}.

Section credential.
Context {L : PyLib}.

(** [PrincipalCredential._derive]. *)
Definition derive (c : PrincipalCredential) (label user : list byte) : list byte :=
  hmac_digest (mock_key c) (label ++ [zero] ++ user).

(** [PrincipalCredential.verifier_for], of the user's UTF-8 bytes. *)
Definition verifier_for (c : PrincipalCredential) (candidate : list byte) : ScramVerifier :=
  let mock := {| salt := salt (principal c); iterations := iterations (principal c);
                 stored_key := derive c (ascii_lit "stored") candidate;
                 server_key := derive c (ascii_lit "server") candidate; real := false |} in
  if bool_decide (candidate = username c) then principal c else mock.
End credential.

(** ** The forms of the messages *)

Definition COMMA : Z := 44.
Definition EQUALS : Z := 61.

(** [printable] of RFC 5802: [[\x21-\x2b\x2d-\x7e]]. *)
Definition nonce_char (c : Z) : bool := (33 <=? c) && (c <=? 43) || (45 <=? c) && (c <=? 126).

(** [_NONCE.fullmatch]. *)
Definition valid_nonce (s : pystr) : bool := negb (bool_decide (s = [])) && forallb nonce_char s.

(** [s.partition(",")]: the text before the first comma, and after it. *)
Fixpoint partition (s : pystr) : pystr * option pystr :=
  match s with
  | [] => ([], None)
  | c :: s =>
      if c =? COMMA then ([], Some s)
      else let '(before, after) := partition s in (c :: before, after)
  end.

(** The [saslname] of [_CLIENT_FIRST_BARE], possibly empty. *)
Fixpoint saslname (s : pystr) : bool :=
  match s with
  | [] => true
  | c :: s =>
      if c =? EQUALS then
        match s with
        | a :: b :: s => ((a =? 50) && (b =? 67) || (a =? 51) && (b =? 68)) && saslname s
        | _ => false
        end
      else negb ((c =? COMMA) || (0 <=? c) && (c <=? 31) || (c =? 127)) && saslname s
  end.

(** [text[2:]] when the text starts with [letter=]. *)
Definition attribute (letter : Z) (s : pystr) : option pystr :=
  match s with
  | a :: b :: rest => if (a =? letter) && (b =? EQUALS) then Some rest else None
  | _ => None
  end.

(** [_CLIENT_FIRST_BARE.fullmatch(bare).group("nonce")]. *)
Definition client_first_nonce (bare : pystr) : option pystr :=
  let '(n, rest) := partition bare in
  name ← attribute 110 n;
  rest ← rest;
  nonce ← attribute 114 rest;
  if saslname name && forallb nonce_char nonce &&
     (MIN_CLIENT_NONCE <=? length nonce)%nat && (length nonce <=? MAX_CLIENT_NONCE)%nat
  then Some nonce else None.

Definition b64_letter (c : Z) : bool :=
  match b64_value c with Some _ => true | None => false end.

(** [[A-Za-z0-9+/]*={0,2}]. *)
Definition b64_shape (s : pystr) : bool :=
  let '(_, body) := b64_pads 2 (rev s) in forallb b64_letter body.

(** The groups of [_CLIENT_FINAL.fullmatch]. *)
Record client_final_groups := {
  without_proof : pystr;
  cbind : pystr;
  final_nonce : pystr;
  proof_text : pystr;
}.

Definition client_final_match (text : pystr) : option client_final_groups :=
  let '(c, rest) := partition text in
  rest ← rest;
  let '(r, p) := partition rest in
  p ← p;
  cb ← attribute 99 c;
  nonce ← attribute 114 r;
  proof ← attribute 112 p;
  if b64_shape cb && valid_nonce nonce && b64_shape proof
  then Some {| without_proof := c ++ COMMA :: r; cbind := cb; final_nonce := nonce;
               proof_text := proof |}
  else None.

(** [_flag_allowed]. *)
Definition flag_allowed (plus : bool) (flag : pystr) (binding_offered : bool) : bool :=
  if plus then bool_decide (flag = py "p=" ++ CHANNEL_BINDING_TYPE)
  else if bool_decide (flag = py "y") then negb binding_offered
  else bool_decide (flag = py "n").

(** ** The exchange *)

Inductive Stage := AWAIT_FIRST | AWAIT_FINAL | DONE | FAILED.

Record exchange := {
  verifier : ScramVerifier;
  channel_binding : option (list byte);
  server_nonce : option pystr;
  stage : Stage;
  nonce : pystr;
  auth_prefix : pystr;
  cbind_input : list byte;
}.

(** [ScramServerExchange.__init__]; [None] is its [ValueError]. *)
Definition new_exchange (v : ScramVerifier) (binding : option (list byte)) (suffix : option pystr)
    : option exchange :=
  if match binding with Some [] => true | _ => false end then None
  else if match suffix with Some s => negb (valid_nonce s) | None => false end then None
  else Some {| verifier := v; channel_binding := binding; server_nonce := suffix;
               stage := AWAIT_FIRST; nonce := []; auth_prefix := []; cbind_input := [] |}.

Definition set_stage (x : Stage) (s : exchange) : exchange :=
  {| verifier := verifier s; channel_binding := channel_binding s; server_nonce := server_nonce s;
     stage := x; nonce := nonce s; auth_prefix := auth_prefix s; cbind_input := cbind_input s |}.

(** [mechanisms]. *)
Definition mechanisms (s : exchange) : list pystr :=
  match channel_binding s with
  | None => [SCRAM_SHA_256]
  | Some _ => [SCRAM_SHA_256_PLUS; SCRAM_SHA_256]
  end.

Abbreviation scram := (st exchange PgwireErrorCategory).

(** [_fail]. *)
Definition fail {A} (c : PgwireErrorCategory) : scram A := fun s => (Err c, set_stage FAILED s).

(** [if test: self._fail()]. *)
Definition fail_if (test : bool) (c : PgwireErrorCategory) : scram unit :=
  if test then fail c else mret tt.

(** [_text]. *)
Definition text_of (data : list byte) : scram pystr :=
  fail_if (MAX_SASL_MESSAGE <? blen data) PROTOCOL_VIOLATION;;
  match utf8_decode data with Some t => mret t | None => fail PROTOCOL_VIOLATION end.

(** [server_first] of the exchange's nonce. *)
Definition server_first_text (v : ScramVerifier) (nonce : pystr) : pystr :=
  py "r=" ++ nonce ++ py ",s=" ++ b64encode (salt v) ++ py ",i=" ++ str_int (iterations v).

(** [client_first]; [random] is what [secrets.token_bytes] gives, [None] when
    the system's source fails. *)
Definition client_first (random : option (list byte)) (mechanism : pystr) (data : list byte)
    : scram (list byte) :=
  s ← get_st;
  fail_if (match stage s with AWAIT_FIRST => false | _ => true end) PROTOCOL_VIOLATION;;
  fail_if (negb (name_in mechanism (mechanisms s))) PROTOCOL_VIOLATION;;
  message ← text_of data;
  let '(flag, rest) := partition message in
  match rest with
  | None => fail PROTOCOL_VIOLATION
  | Some rest =>
      let '(authzid, bare) := partition rest in
      match bare with
      | None => fail PROTOCOL_VIOLATION
      | Some bare =>
          fail_if (negb (bool_decide (authzid = []))) PROTOCOL_VIOLATION;;
          let plus := bool_decide (mechanism = SCRAM_SHA_256_PLUS) in
          fail_if (negb (flag_allowed plus flag (bool_decide (is_Some (channel_binding s)))))
            PROTOCOL_VIOLATION;;
          match client_first_nonce bare with
          | None => fail PROTOCOL_VIOLATION
          | Some client_nonce =>
              match (match server_nonce s with Some x => Some x | None => b64encode <$> random end) with
              | None => fail INTERNAL_ERROR
              | Some suffix =>
                  let n := client_nonce ++ suffix in
                  let server_first := server_first_text (verifier s) n in
                  let header := ascii_encode (flag ++ py ",,") in
                  let binding := if plus then default [] (channel_binding s) else [] in
                  put_st {| verifier := verifier s; channel_binding := channel_binding s;
                            server_nonce := server_nonce s; stage := AWAIT_FINAL; nonce := n;
                            auth_prefix := bare ++ [COMMA] ++ server_first ++ [COMMA];
                            cbind_input := header ++ binding |};;
                  mret (ascii_encode server_first)
              end
          end
      end
  end.

Section exchange.
Context {L : PyLib}.

(** [bytes(a ^ b for a, b in zip(x, y))]; both are digests of 32 bytes. *)
Definition xor_bytes (x y : list byte) : list byte :=
  zip_with (fun a b => z2b (Z.lxor (b2z a) (b2z b))) x y.

(** The AuthMessage of a final message, in bytes. *)
Definition auth_message (s : exchange) (g : client_final_groups) : list byte :=
  default [] (utf8_encode (auth_prefix s ++ without_proof g)).

(** The one decision of [client_final]. *)
Definition accepted (s : exchange) (g : client_final_groups) (raw_proof : list byte)
    (identity_accepted : bool) : bool :=
  let v := verifier s in
  let signature := hmac_digest (stored_key v) (auth_message s g) in
  let client_key := xor_bytes raw_proof signature in
  bool_decide (cbind g = b64encode (cbind_input s)) && bool_decide (final_nonce g = nonce s) &&
  bool_decide (digest SHA256 client_key = stored_key v) && real v && identity_accepted.

Definition client_final (data : list byte) (identity_accepted : bool) : scram (list byte) :=
  s ← get_st;
  fail_if (match stage s with AWAIT_FINAL => false | _ => true end) PROTOCOL_VIOLATION;;
  message ← text_of data;
  match client_final_match message with
  | None => fail PROTOCOL_VIOLATION
  | Some g =>
      match b64decode (proof_text g) with
      | None => fail PROTOCOL_VIOLATION
      | Some raw_proof =>
          fail_if (negb (blen raw_proof =? PROOF_BYTES)) PROTOCOL_VIOLATION;;
          let server_signature := hmac_digest (server_key (verifier s)) (auth_message s g) in
          fail_if (negb (accepted s g raw_proof identity_accepted)) AUTHENTICATION_FAILED;;
          put_st (set_stage DONE s);;
          mret (ascii_lit "v=" ++ ascii_encode (b64encode server_signature))
      end
  end.
End exchange.

(** ** Sequences of calls *)

Inductive call :=
| First (random : option (list byte)) (mechanism : pystr) (data : list byte)
| Final (data : list byte) (identity_accepted : bool).

Definition is_first (c : call) : bool := match c with First _ _ _ => true | Final _ _ => false end.

Section runs.
Context {L : PyLib}.

Definition step (c : call) : scram (list byte) :=
  match c with
  | First random mechanism data => client_first random mechanism data
  | Final data ok => client_final data ok
  end.

(** The answers of a sequence of calls. *)
Fixpoint answers (s : exchange) (calls : list call) : list (res PgwireErrorCategory (list byte)) :=
  match calls with
  | [] => []
  | c :: calls => (step c s).1 :: answers (step c s).2 calls
  end.
End runs.

(** ** Texts *)

Lemma partition_app a b : forallb (fun c => negb (c =? COMMA)) a = true ->
  partition (a ++ COMMA :: b) = (a, Some b).
Proof.
  induction a as [|c a IH]; [reflexivity|]. cbn [forallb app partition]. rewrite andb_true_iff.
  intros [Hc Ha]. apply negb_true_iff in Hc. rewrite Hc, (IH Ha). reflexivity.
Qed.

Lemma partition_Some s a b : partition s = (a, Some b) ->
  s = a ++ COMMA :: b /\ forallb (fun c => negb (c =? COMMA)) a = true.
Proof.
  revert a; induction s as [|c s IH]; intros a; cbn [partition]; [discriminate|].
  destruct (Z.eqb_spec c COMMA) as [->|N].
  - intros [= <- <-]. split; reflexivity.
  - destruct (partition s) as [x y]. intros [= <- ->]. destruct (IH x eq_refl) as [-> H].
    split; [reflexivity|]. cbn [forallb]. apply Z.eqb_neq in N. rewrite N, H. reflexivity.
Qed.

Lemma attribute_Some letter s rest : attribute letter s = Some rest <-> s = letter :: EQUALS :: rest.
Proof.
  unfold attribute. destruct s as [|a [|b s]]; [split; discriminate..|].
  destruct (Z.eqb_spec a letter) as [->|N], (Z.eqb_spec b EQUALS) as [->|M]; cbn [andb];
    split; intros H; congruence.
Qed.

Lemma nonce_no_comma s : forallb nonce_char s = true -> forallb (fun c => negb (c =? COMMA)) s = true.
Proof.
  rewrite !forallb_forall. intros H c Hc. specialize (H c Hc). unfold nonce_char, COMMA in *. lia.
Qed.

Lemma b64_letter_char v : 0 <= v < 64 -> b64_letter (b64_char v) = true.
Proof. intros H. unfold b64_letter. rewrite b64_value_char by exact H. reflexivity. Qed.

Lemma b64_letter_range c : b64_letter c = true -> nonce_char c = true /\ c <> EQUALS.
Proof.
  unfold b64_letter. destruct (b64_value c) eqn:E; [|discriminate]. intros _. revert E.
  unfold b64_value, nonce_char, EQUALS.
  repeat match goal with |- context [if ?b then _ else _] => destruct b eqn:? end;
    intros H; try discriminate H; lia.
Qed.

Lemma b64encode_shape bs : exists body n, b64encode bs = body ++ replicate n EQUALS /\
  (n <= 2)%nat /\ forallb b64_letter body = true.
Proof.
  assert (R : forall a b c d, 0 <= a < 64 -> 0 <= b < 64 -> 0 <= c < 64 -> 0 <= d < 64 ->
    forallb b64_letter [b64_char a; b64_char b; b64_char c; b64_char d] = true)
    by (intros; cbn [forallb]; rewrite !b64_letter_char by assumption; reflexivity).
  assert (D : forall b, 0 <= b2z b / 4 < 64 /\ 0 <= b2z b / 16 < 16 /\ 0 <= b2z b / 64 < 4 /\
                        0 <= b2z b mod 4 < 4 /\ 0 <= b2z b mod 16 < 16 /\ 0 <= b2z b mod 64 < 64).
  { intros b. pose proof (b2z_range b).
    repeat split; try (apply Z.div_pos; lia); try (apply Z.div_lt_upper_bound; lia);
      apply Z.mod_pos_bound; lia. }
  induction bs as [|a|a b|a b c rest IH] using triple_ind; cbn [b64encode]; cbv zeta.
  - exists [], O. auto.
  - pose proof (D a). exists [b64_char (b2z a / 4); b64_char (b2z a mod 4 * 16)], 2%nat.
    split; [reflexivity|]. split; [lia|]. cbn [forallb]. rewrite !b64_letter_char by lia. reflexivity.
  - pose proof (D a). pose proof (D b).
    exists [b64_char (b2z a / 4); b64_char (b2z a mod 4 * 16 + b2z b / 16); b64_char (b2z b mod 16 * 4)], 1%nat.
    split; [reflexivity|]. split; [lia|]. cbn [forallb]. rewrite !b64_letter_char by lia. reflexivity.
  - pose proof (D a). pose proof (D b). pose proof (D c). destruct IH as (body & n & -> & Hn & Hb).
    eexists (_ :: _ :: _ :: _ :: body), n. split; [reflexivity|]. split; [exact Hn|].
    cbn [forallb]. rewrite !b64_letter_char, Hb by lia. reflexivity.
Qed.

Lemma b64_pads_strip m k body :
  (k <= m)%nat -> forallb b64_letter body = true ->
  b64_pads m (replicate k EQUALS ++ body) = (k, body).
Proof.
  revert m; induction k as [|k IH]; intros m Hk Hb; cbn [replicate app].
  - destruct m, body as [|c body]; cbn [b64_pads]; try reflexivity.
    cbn [forallb] in Hb. apply andb_true_iff in Hb as [Hc _]. apply b64_letter_range in Hc as [_ Hc].
    apply Z.eqb_neq in Hc. unfold EQUALS in Hc. rewrite Hc. reflexivity.
  - destruct m as [|m]; [lia|]. cbn [b64_pads]. change (EQUALS =? 61) with true. rewrite IH by (lia || assumption).
    reflexivity.
Qed.

Lemma forallb_rev {A} (f : A -> bool) l : forallb f l = true -> forallb f (rev l) = true.
Proof. rewrite !forallb_forall. intros H x Hx. apply H, in_rev, Hx. Qed.

Lemma b64encode_ok bs : b64_shape (b64encode bs) = true /\ forallb nonce_char (b64encode bs) = true.
Proof.
  destruct (b64encode_shape bs) as (body & n & -> & Hn & Hb). split.
  - unfold b64_shape. rewrite rev_app_distr, rev_replicate.
    rewrite b64_pads_strip by (lia || apply forallb_rev, Hb). apply forallb_rev, Hb.
  - rewrite forallb_app. apply andb_true_iff. split.
    + rewrite forallb_forall in *. intros c Hc. apply (b64_letter_range c), Hb, Hc.
    + apply forallb_forall. intros c Hc. apply list_elem_of_In, elem_of_replicate in Hc as [-> _]. reflexivity.
Qed.

(** ** The forms, as grammars *)

Lemma client_final_match_spec text g :
  client_final_match text = Some g <->
  text = without_proof g ++ py ",p=" ++ proof_text g /\
  without_proof g = py "c=" ++ cbind g ++ py ",r=" ++ final_nonce g /\
  b64_shape (cbind g) = true /\ forallb (fun c => negb (c =? COMMA)) (cbind g) = true /\
  valid_nonce (final_nonce g) = true /\ b64_shape (proof_text g) = true.
Proof.
  unfold client_final_match. split.
  - destruct (partition text) as [c [rest|]] eqn:P1; [|discriminate]. cbn [mbind option_bind].
    destruct (partition rest) as [r [p|]] eqn:P2; [|discriminate]. cbn [mbind option_bind].
    apply partition_Some in P1 as [-> C1], P2 as [-> C2].
    destruct (attribute 99 c) as [cb|] eqn:A1; [|discriminate]. cbn [mbind option_bind].
    destruct (attribute 114 r) as [n|] eqn:A2; [|discriminate]. cbn [mbind option_bind].
    destruct (attribute 112 p) as [pr|] eqn:A3; [|discriminate]. cbn [mbind option_bind].
    apply attribute_Some in A1 as ->, A2 as ->, A3 as ->.
    destruct (b64_shape cb && valid_nonce n && b64_shape pr) eqn:B; [|discriminate]. intros [= <-].
    rewrite !andb_true_iff in B. destruct B as [[B1 B2] B3]. cbn [without_proof cbind final_nonce proof_text].
    split; [change (py ",p=") with [COMMA; 112; EQUALS]; cbn [app]; rewrite <- app_assoc; reflexivity|].
    split; [reflexivity|]. split; [exact B1|].
    split; [exact C1|auto].
  - destruct g as [wp cb n pr]. cbn [without_proof cbind final_nonce proof_text].
    intros (-> & -> & B1 & C1 & B2 & B3). pose proof B2 as B2'. unfold valid_nonce in B2'.
    apply andb_true_iff in B2' as [_ C2]. apply nonce_no_comma in C2.
    replace ((py "c=" ++ cb ++ py ",r=" ++ n) ++ py ",p=" ++ pr)
      with ((99 :: EQUALS :: cb) ++ COMMA :: (114 :: EQUALS :: n) ++ COMMA :: 112 :: EQUALS :: pr)
      by (change (py "c=") with [99; EQUALS]; change (py ",r=") with [COMMA; 114; EQUALS];
          change (py ",p=") with [COMMA; 112; EQUALS]; cbn [app]; rewrite <- app_assoc; reflexivity).
    rewrite (partition_app (99 :: EQUALS :: cb)) by exact C1. cbn [mbind option_bind].
    rewrite (partition_app (114 :: EQUALS :: n)) by exact C2. cbn [mbind option_bind attribute].
    rewrite !Z.eqb_refl. cbn [andb mbind option_bind].
    rewrite B1, B2, B3. reflexivity.
Qed.

Lemma client_first_nonce_Some bare n :
  client_first_nonce bare = Some n -> valid_nonce n = true.
Proof.
  unfold client_first_nonce. destruct (partition bare) as [a [b|]]; destruct (attribute 110 a); cbn [mbind option_bind];
    try discriminate. destruct (attribute 114 b) as [x|]; cbn [mbind option_bind]; [|discriminate].
  destruct (_ && _) eqn:B; [|discriminate]. intros [= <-]. rewrite !andb_true_iff in B.
  destruct B as [[[_ B1] B2] _]. unfold valid_nonce. rewrite B1. apply Nat.leb_le in B2. unfold MIN_CLIENT_NONCE in B2.
  rewrite bool_decide_eq_false_2; [reflexivity|]. intros ->. cbn in B2. lia.
Qed.

(** ** Calls *)

Lemma fail_if_run {A} b c (k : unit -> scram A) s :
  (fail_if b c ≫= k) s = if b then (Err c, set_stage FAILED s) else k tt s.
Proof. destruct b; reflexivity. Qed.

Lemma text_of_cases data s :
  (text_of data s = (Err PROTOCOL_VIOLATION, set_stage FAILED s)) \/
  (exists t, text_of data s = (Ok t, s) /\ blen data <= MAX_SASL_MESSAGE /\ utf8_decode data = Some t).
Proof.
  unfold text_of. rewrite fail_if_run. destruct (Z.ltb_spec MAX_SASL_MESSAGE (blen data)); [left; reflexivity|].
  destruct (utf8_decode data) as [t|]; [right|left; reflexivity]. exists t. auto.
Qed.

Lemma text_of_Ok data t s :
  blen data <= MAX_SASL_MESSAGE -> utf8_decode data = Some t -> text_of data s = (Ok t, s).
Proof.
  intros L D. unfold text_of. rewrite fail_if_run, D.
  destruct (Z.ltb_spec MAX_SASL_MESSAGE (blen data)); [lia|reflexivity].
Qed.

Lemma get_run {A} (f : exchange -> scram A) s : (get_st ≫= f) s = f s s.
Proof. reflexivity. Qed.

Lemma text_run {A} data (k : pystr -> scram A) s r s' :
  (text_of data ≫= k) s = (r, s') ->
  (r = Err PROTOCOL_VIOLATION /\ s' = set_stage FAILED s) \/
  exists t, blen data <= MAX_SASL_MESSAGE /\ utf8_decode data = Some t /\ k t s = (r, s').
Proof.
  unfold mbind, st_bind. destruct (text_of_cases data s) as [->|(t & -> & L & D)].
  - intros [= <- <-]. auto.
  - intros H. right. eauto.
Qed.

(** A first message either fails, or starts the exchange for good. *)
Lemma client_first_cases random mechanism data s r s' :
  client_first random mechanism data s = (r, s') ->
  (exists c, r = Err c /\ s' = set_stage FAILED s) \/
  (exists out, r = Ok out /\ stage s = AWAIT_FIRST /\ stage s' = AWAIT_FINAL /\
     verifier s' = verifier s /\
     ((forall x, server_nonce s = Some x -> valid_nonce x = true) -> valid_nonce (nonce s') = true)).
Proof.
  unfold client_first. rewrite get_run, fail_if_run. intros H.
  assert (F : forall c, (Err c, set_stage FAILED s) = (r, s') -> exists c, r = Err c /\ s' = set_stage FAILED s)
    by (intros c [= <- <-]; eauto).
  destruct (stage s) eqn:St; try (left; exact (F _ H)). rewrite fail_if_run in H.
  destruct (negb _); [left; exact (F _ H)|].
  apply text_run in H as [[-> ->]|(t & L & D & H)]; [left; eauto|].
  destruct (partition t) as [flag [rest|]]; [|left; exact (F _ H)].
  destruct (partition rest) as [authzid [bare|]]; [|left; exact (F _ H)].
  rewrite fail_if_run in H. destruct (negb _); [left; exact (F _ H)|].
  rewrite fail_if_run in H. destruct (negb _); [left; exact (F _ H)|].
  destruct (client_first_nonce bare) as [n|] eqn:N; [|left; exact (F _ H)].
  apply client_first_nonce_Some in N. destruct (server_nonce s) as [x|] eqn:X.
  2: destruct random as [bs|]; cbn [fmap option_fmap option_map] in H; [|left; exact (F _ H)].
  all: injection H as <- <-; right; eexists; split; [reflexivity|]; cbn [stage verifier nonce];
    (split; [reflexivity|]); (split; [reflexivity|]); (split; [reflexivity|]); intros V;
    unfold valid_nonce in *; apply andb_true_iff in N as [N1 N2]; rewrite forallb_app, N2;
    (rewrite bool_decide_eq_false_2; [|intros E; apply app_nil in E as [-> _]; discriminate]).
  - specialize (V x eq_refl). apply andb_true_iff in V as [_ ->]. reflexivity.
  - destruct (b64encode_ok bs) as [_ ->]. reflexivity.
Qed.

Section final.
Context {L : PyLib}.

(** A final message of the right form, in an exchange that waits for it. *)
Definition final_form (s : exchange) (data : list byte) (g : client_final_groups) (proof : list byte) : Prop :=
  stage s = AWAIT_FINAL /\ blen data <= MAX_SASL_MESSAGE /\
  (exists text, utf8_decode data = Some text /\ client_final_match text = Some g) /\
  b64decode (proof_text g) = Some proof /\ blen proof = PROOF_BYTES.

Lemma client_final_run s data ok g proof :
  final_form s data g proof ->
  client_final data ok s =
    if accepted s g proof ok
    then (Ok (ascii_lit "v=" ++ ascii_encode (b64encode (hmac_digest (server_key (verifier s)) (auth_message s g)))),
          set_stage DONE s)
    else (Err AUTHENTICATION_FAILED, set_stage FAILED s).
Proof.
  intros (St & Ld & (text & D & M) & B & Lp). unfold client_final. rewrite get_run, fail_if_run, St.
  unfold mbind at 1, st_bind at 1. rewrite (text_of_Ok data text s Ld D), M, B, fail_if_run, Lp.
  cbn [negb Z.eqb]. change (PROOF_BYTES =? PROOF_BYTES) with true. cbn [negb]. cbv zeta.
  rewrite fail_if_run. destruct (accepted s g proof ok); reflexivity.
Qed.

Lemma client_final_cases s data ok r s' :
  client_final data ok s = (r, s') ->
  (r = Err PROTOCOL_VIOLATION /\ s' = set_stage FAILED s) \/ exists g proof, final_form s data g proof.
Proof.
  unfold client_final. rewrite get_run, fail_if_run. intros H.
  assert (F : (Err PROTOCOL_VIOLATION, set_stage FAILED s) = (r, s') ->
              r = Err PROTOCOL_VIOLATION /\ s' = set_stage FAILED s) by (intros [= <- <-]; auto).
  destruct (stage s) eqn:St; try (left; exact (F H)).
  apply text_run in H as [H|(t & Ld & D & H)]; [left; exact H|].
  destruct (client_final_match t) as [g|] eqn:M; [|left; exact (F H)].
  destruct (b64decode (proof_text g)) as [proof|] eqn:B; [|left; exact (F H)].
  rewrite fail_if_run in H. destruct (Z.eqb_spec (blen proof) PROOF_BYTES) as [E|]; [|left; exact (F H)].
  right. exists g, proof. unfold final_form. eauto 10.
Qed.

(** ** Properties *)

(** C31: the server accepts a final message exactly when it should: the exchange
    waits for it, and the message is, within its bound and in strict UTF-8, the
    channel binding of this exchange, its nonce and a proof of 32 bytes such
    that the hash of the proof xor the signature of the whole authentication
    message is the stored key, for a real principal whose identity the caller
    accepts; the answer is then the server's own signature, and the exchange
    is over. *)
Theorem scram_accepts s data ok out s' :
  valid_nonce (nonce s) = true ->
  client_final data ok s = (Ok out, s') <->
  stage s = AWAIT_FINAL /\ s' = set_stage DONE s /\ blen data <= MAX_SASL_MESSAGE /\
  exists text proof_text proof auth,
    let without_proof := py "c=" ++ b64encode (cbind_input s) ++ py ",r=" ++ nonce s in
    utf8_decode data = Some text /\ text = without_proof ++ py ",p=" ++ proof_text /\
    b64_shape proof_text = true /\ b64decode proof_text = Some proof /\ blen proof = PROOF_BYTES /\
    auth = default [] (utf8_encode (auth_prefix s ++ without_proof)) /\
    digest SHA256 (xor_bytes proof (hmac_digest (stored_key (verifier s)) auth)) =
      stored_key (verifier s) /\
    real (verifier s) = true /\ ok = true /\
    out = ascii_lit "v=" ++ ascii_encode (b64encode (hmac_digest (server_key (verifier s)) auth)).
Proof.
  intros Hn. destruct (b64encode_ok (cbind_input s)) as [S1 S2]. apply nonce_no_comma in S2. split.
  - intros H. pose proof H as H'. apply client_final_cases in H' as [[[=] _]|(g & proof & F)].
    pose proof F as (St & Ld & (text & D & M) & B & Lp). rewrite (client_final_run _ _ _ _ _ F) in H.
    destruct (accepted s g proof ok) eqn:A; [|discriminate]. injection H as <- <-.
    unfold accepted, auth_message in A. rewrite !andb_true_iff, !bool_decide_eq_true in A.
    destruct A as [[[[A1 A2] A3] A4] A5]. apply client_final_match_spec in M as (-> & W & _ & _ & _ & Sp).
    rewrite A1, A2 in W. split; [exact St|]. split; [reflexivity|]. split; [exact Ld|].
    eexists _, (proof_text g), proof, _. cbv zeta. split; [exact D|]. rewrite W in *.
    split; [reflexivity|]. split; [exact Sp|]. split; [exact B|]. split; [exact Lp|]. split; [reflexivity|].
    split; [exact A3|]. split; [exact A4|]. split; [exact A5|]. unfold auth_message. rewrite W. reflexivity.
  - intros (St & -> & Ld & text & pt & proof & auth & D & -> & Sp & B & Lp & -> & A & R & -> & ->).
    set (g := {| without_proof := py "c=" ++ b64encode (cbind_input s) ++ py ",r=" ++ nonce s;
                 cbind := b64encode (cbind_input s); final_nonce := nonce s; proof_text := pt |}).
    assert (F : final_form s data g proof).
    { split; [exact St|]. split; [exact Ld|]. split; [|split; [exact B|exact Lp]].
      eexists. split; [exact D|]. apply client_final_match_spec. cbn [g without_proof cbind final_nonce proof_text].
      split; [reflexivity|]. split; [reflexivity|]. split; [exact S1|]. split; [exact S2|]. split; [exact Hn|exact Sp]. }
    rewrite (client_final_run _ _ _ _ _ F). unfold accepted, auth_message. cbn [g without_proof cbind final_nonce].
    rewrite !bool_decide_eq_true_2, R by (reflexivity || exact A). reflexivity.
Qed.

Lemma step_cases c s r s' :
  step c s = (r, s') ->
  (exists e, r = Err e /\ s' = set_stage FAILED s) \/
  (exists out, r = Ok out /\ is_first c = true /\ stage s = AWAIT_FIRST /\ stage s' = AWAIT_FINAL) \/
  (exists out, r = Ok out /\ is_first c = false /\ stage s = AWAIT_FINAL /\ stage s' = DONE).
Proof.
  destruct c as [random mechanism data|data ok]; cbn [step is_first]; intros H.
  - apply client_first_cases in H as [H|(out & -> & A & B & _)]; [left; exact H|]. right; left. eauto.
  - pose proof H as H'. apply client_final_cases in H' as [[-> ->]|(g & proof & F)]; [left; eauto|].
    rewrite (client_final_run _ _ _ _ _ F) in H. destruct F as (St & _).
    destruct (accepted s g proof ok); injection H as <- <-; [right; right; eauto|left; eauto].
Qed.

Lemma over_fails s calls : stage s = FAILED \/ stage s = DONE ->
  Forall (fun a => exists e, a = Err e) (answers s calls).
Proof.
  revert s; induction calls as [|c calls IH]; intros s Hs; cbn [answers]; [constructor|].
  destruct (step c s) as [r s'] eqn:E. cbn [fst snd].
  apply step_cases in E as [(e & -> & ->)|[(out & _ & _ & St & _)|(out & _ & _ & St & _)]].
  - constructor; [eauto|]. apply IH. left. reflexivity.
  - destruct Hs; congruence.
  - destruct Hs; congruence.
Qed.

(** An exchange is used once: whatever messages arrive, in whatever order,
    the answers that are not errors are at most the first two, to one
    [client_first] and then to one [client_final], and after an error every
    later message is refused too. *)
Theorem scram_single_use v binding suffix s calls i c out :
  new_exchange v binding suffix = Some s ->
  calls !! i = Some c -> answers s calls !! i = Some (Ok out) ->
  (i = 0%nat /\ is_first c = true \/ i = 1%nat /\ is_first c = false) /\
  forall j e, answers s calls !! j = Some (Err e) -> (i < j)%nat.
Proof.
  unfold new_exchange. destruct (match binding with Some [] => true | _ => false end); [discriminate|].
  destruct (match suffix with Some _ => _ | None => _ end); [discriminate|]. intros [= Es].
  assert (S0 : stage s = AWAIT_FIRST) by (rewrite <- Es; reflexivity). clear Es.
  assert (K : forall s calls i out, stage s = FAILED \/ stage s = DONE -> answers s calls !! i <> Some (Ok out)).
  { intros s' l k o Hs H. pose proof (over_fails s' l Hs) as F. rewrite Forall_lookup in F.
    destruct (F _ _ H) as [e [=]]. }
  destruct calls as [|c0 calls]; [discriminate|]. cbn [answers].
  destruct (step c0 s) as [r0 s1] eqn:E0. cbn [fst snd].
  apply step_cases in E0 as [(e & -> & ->)|[(o & -> & F0 & _ & S1)|(o & _ & _ & St & _)]]; [| |congruence].
  { intros Hc Ha. destruct i as [|i]; [discriminate|]. exfalso. eapply (K (set_stage FAILED s)); [left; reflexivity|exact Ha]. }
  destruct i as [|i].
  { intros [= <-] _. split; [auto|]. intros [|j] e He; [discriminate|lia]. }
  cbn [lookup list_lookup]. destruct calls as [|c1 calls]; [discriminate|]. cbn [answers].
  destruct (step c1 s1) as [r1 s2] eqn:E1. cbn [fst snd].
  apply step_cases in E1 as [(e & -> & ->)|[(o1 & _ & _ & St & _)|(o1 & -> & F1 & _ & S2)]]; [|congruence|].
  { intros Hc Ha. destruct i as [|i]; [discriminate|]. exfalso. eapply (K (set_stage FAILED s1)); [left; reflexivity|exact Ha]. }
  destruct i as [|i].
  - intros [= <-] _. split; [auto|]. intros [|[|j]] e He; [discriminate..|lia].
  - intros Hc Ha. exfalso. eapply (K s2); [right; exact S2|exact Ha].
Qed.
End final.

(** ** Unknown users *)

Section unknown.
Context {L : PyLib}.

(** The same call, with the caller's identity decision negative. *)
Definition refuse (c : call) : call :=
  match c with
  | First random mechanism data => First random mechanism data
  | Final data _ => Final data false
  end.

(** Exchanges that differ in their private keys only. *)
Definition alike (a b : exchange) : Prop :=
  salt (verifier a) = salt (verifier b) /\ iterations (verifier a) = iterations (verifier b) /\
  channel_binding a = channel_binding b /\ server_nonce a = server_nonce b /\ stage a = stage b /\
  nonce a = nonce b /\ auth_prefix a = auth_prefix b /\ cbind_input a = cbind_input b.

Lemma alike_stage a b x : alike a b -> alike (set_stage x a) (set_stage x b).
Proof. unfold alike. cbn. tauto. Qed.

(** Computations that answer the same from alike exchanges, and leave them so. *)
Definition similar {A} (m1 m2 : scram A) : Prop := forall a b, alike a b ->
  (m1 a).1 = (m2 b).1 /\ alike (m1 a).2 (m2 b).2.

Lemma similar_ret {A} (x : A) : similar (mret x) (mret x).
Proof. intros a b H. split; [reflexivity|exact H]. Qed.

Lemma similar_fail {A} c : similar (@fail A c) (@fail A c).
Proof. intros a b H. split; [reflexivity|apply alike_stage, H]. Qed.

Lemma similar_fail_if x c : similar (fail_if x c) (fail_if x c).
Proof. destruct x; [apply similar_fail|apply similar_ret]. Qed.

Lemma similar_bind {A B} (m1 m2 : scram A) (k1 k2 : A -> scram B) :
  similar m1 m2 -> (forall x, similar (k1 x) (k2 x)) -> similar (m1 ≫= k1) (m2 ≫= k2).
Proof.
  intros Hm Hk a b H. destruct (Hm a b H) as [H1 H2]. unfold mbind, st_bind.
  destruct (m1 a) as [[x|e] a'], (m2 b) as [[y|f] b']; cbn in *; try discriminate; injection H1 as <-;
    [apply Hk, H2|auto].
Qed.

Lemma similar_get {A} (f1 f2 : exchange -> scram A) :
  (forall a b, alike a b -> similar (f1 a) (f2 b)) -> similar (get_st ≫= f1) (get_st ≫= f2).
Proof. intros Hf a b H. exact (Hf a b H a b H). Qed.

Lemma similar_text data : similar (text_of data) (text_of data).
Proof.
  unfold text_of. apply similar_bind; [apply similar_fail_if|intros _].
  destruct (utf8_decode data); [apply similar_ret|apply similar_fail].
Qed.

Lemma similar_put a b : alike a b -> similar (put_st a) (put_st b).
Proof. intros H x y _. split; [reflexivity|exact H]. Qed.

#[local] Hint Resolve similar_ret similar_fail similar_fail_if similar_text : core.

Lemma client_first_similar random mechanism data :
  similar (client_first random mechanism data) (client_first random mechanism data).
Proof.
  unfold client_first, mechanisms, server_first_text. apply similar_get.
  intros a b (E1 & E2 & E3 & E4 & E5 & E6 & E7 & E8). rewrite E1, E2, E3, E4, E5.
  apply similar_bind; [auto|intros _]. apply similar_bind; [auto|intros _].
  apply similar_bind; [auto|intros t]. destruct (partition t) as [flag [rest|]]; [|auto].
  destruct (partition rest) as [authzid [bare|]]; [|auto].
  apply similar_bind; [auto|intros _]. apply similar_bind; [auto|intros _].
  destruct (client_first_nonce bare); [|auto].
  destruct (match server_nonce b with Some x => Some x | None => _ end); [|auto].
  apply similar_bind; [|auto]. apply similar_put. unfold alike.
  cbn [verifier channel_binding server_nonce stage nonce auth_prefix cbind_input]. auto 10.
Qed.

Lemma client_final_similar data ok1 ok2 a b :
  alike a b -> real (verifier a) && ok1 = false -> real (verifier b) && ok2 = false ->
  (client_final data ok1 a).1 = (client_final data ok2 b).1 /\
  alike (client_final data ok1 a).2 (client_final data ok2 b).2.
Proof.
  intros H Ra Rb. revert H. revert a b Ra Rb.
  assert (A : forall s g p ok, real (verifier s) && ok = false -> accepted s g p ok = false).
  { intros s g p ok R. unfold accepted. rewrite <- andb_assoc, R. apply andb_false_r. }
  intros a b Ra Rb H. pose proof H as (_ & _ & _ & _ & E5 & _).
  destruct (client_final data ok1 a) as [r1 a'] eqn:C1, (client_final data ok2 b) as [r2 b'] eqn:C2.
  pose proof C1 as D1. pose proof C2 as D2.
  assert (X : forall s1 s2 g p, stage s1 = stage s2 -> final_form s1 data g p -> final_form s2 data g p).
  { intros s1 s2 g p Es (St & F). split; [congruence|exact F]. }
  apply client_final_cases in D1 as [[-> ->]|(g & p & F1)].
  - apply client_final_cases in D2 as [[-> ->]|(g & p & F2)]; [split; [reflexivity|apply alike_stage, H]|].
    pose proof (X _ _ _ _ (eq_sym E5) F2) as F1. rewrite (client_final_run _ _ _ _ _ F1), (A _ _ _ _ Ra) in C1.
    discriminate.
  - pose proof (X _ _ _ _ E5 F1) as F2. rewrite (client_final_run _ _ _ _ _ F1), (A _ _ _ _ Ra) in C1.
    rewrite (client_final_run _ _ _ _ _ F2), (A _ _ _ _ Rb) in C2.
    injection C1 as <- <-. injection C2 as <- <-. split; [reflexivity|apply alike_stage, H].
Qed.

Lemma step_verifier c s : verifier (step c s).2 = verifier s.
Proof.
  destruct (step c s) as [r s'] eqn:E. destruct c as [random mechanism data|data ok]; cbn [step snd] in *.
  - apply client_first_cases in E as [(e & _ & ->)|(out & _ & _ & _ & V & _)]; [reflexivity|exact V].
  - pose proof E as E'. apply client_final_cases in E' as [[_ ->]|(g & p & F)]; [reflexivity|].
    rewrite (client_final_run _ _ _ _ _ F) in E. destruct (accepted s g p ok); injection E as _ <-; reflexivity.
Qed.

Lemma answers_alike a b calls :
  alike a b -> real (verifier a) = false -> answers a calls = answers b (map refuse calls).
Proof.
  revert a b; induction calls as [|c calls IH]; intros a b H R; cbn [map answers]; [reflexivity|].
  assert (S : (step c a).1 = (step (refuse c) b).1 /\ alike (step c a).2 (step (refuse c) b).2).
  { destruct c as [random mechanism data|data ok]; cbn [refuse step]; [apply client_first_similar, H|].
    apply client_final_similar; [exact H|rewrite R; reflexivity|apply andb_false_r]. }
  destruct S as [-> S]. f_equal. apply IH; [exact S|]. rewrite step_verifier. exact R.
Qed.

(** C33: an unknown user is told nothing: in any sequence of messages the
    exchange of a user name that is not the principal's answers, message by
    message, exactly what the exchange of the principal answers when the
    caller refuses the rest of its identity, first message included. *)
Theorem unknown_user_indistinguishable c candidate binding suffix unknown known calls :
  candidate <> username c ->
  new_exchange (verifier_for c candidate) binding suffix = Some unknown ->
  new_exchange (principal c) binding suffix = Some known ->
  answers unknown calls = answers known (map refuse calls).
Proof.
  intros N. unfold verifier_for. rewrite bool_decide_eq_false_2 by exact N. unfold new_exchange.
  destruct (match binding with Some [] => true | _ => false end); [discriminate|].
  destruct (match suffix with Some _ => _ | None => _ end); [discriminate|].
  intros [= <-] [= <-]. apply answers_alike; [unfold alike; cbn; auto 10|reflexivity].
Qed.
End unknown.

(** ** Witnesses *)

Definition sample_verifier : ScramVerifier :=
  {| salt := replicate 16 (z2b 7); iterations := 4096; stored_key := replicate 32 (z2b 9);
     server_key := replicate 32 (z2b 5); real := true |}.

Definition sample_credential : PrincipalCredential :=
  {| username := ascii_lit "analyst"; principal := sample_verifier; mock_key := replicate 32 (z2b 3) |}.

Definition sample_exchange (v : ScramVerifier) : exchange :=
  {| verifier := v; channel_binding := None; server_nonce := Some (py "serverpart"); stage := AWAIT_FIRST;
     nonce := []; auth_prefix := []; cbind_input := [] |}.

Definition sample_first : call := First None SCRAM_SHA_256 (ascii_lit "n,,n=,r=clientpart").

Definition sample_started : exchange := (@step sample_lib sample_first (sample_exchange sample_verifier)).2.

(** An honest client's final message: under the sample library the client key
    is the stored key, and the proof is its xor with the signature. *)
Definition sample_final : list byte :=
  ascii_lit "c=biws,r=clientpartserverpart,p=" ++ ascii_encode (b64encode (replicate 32 (z2b 0))).

Lemma scram_accepts_witness :
  stage sample_started = AWAIT_FINAL /\
  is_ok (@client_final sample_lib sample_final true sample_started).1 = true.
Proof.
  destruct (@client_final sample_lib sample_final true sample_started) as [[out|e] s'] eqn:E;
    [|vm_compute in E; discriminate].
  split; [|reflexivity].
  exact (proj1 (proj1 (@scram_accepts sample_lib sample_started sample_final true out s' eq_refl) E)).
Defined.

Lemma scram_single_use_witness : exists out,
  @answers sample_lib (sample_exchange sample_verifier) [sample_first; Final sample_final true] !! 1%nat
    = Some (Ok out) /\ is_first (Final sample_final true) = false.
Proof.
  destruct (@answers sample_lib (sample_exchange sample_verifier) [sample_first; Final sample_final true] !! 1%nat)
    as [[out|e]|] eqn:E; [|vm_compute in E; discriminate|discriminate].
  exists out. split; [reflexivity|].
  destruct (@scram_single_use sample_lib sample_verifier None (Some (py "serverpart"))
    (sample_exchange sample_verifier) [sample_first; Final sample_final true] 1%nat
    (Final sample_final true) out eq_refl eq_refl E) as [[[H _]|[_ H]] _]; [discriminate H|exact H].
Defined.

Lemma unknown_user_indistinguishable_witness :
  @answers sample_lib (sample_exchange (@verifier_for sample_lib sample_credential (ascii_lit "intruder")))
    [sample_first; Final sample_final true] =
  @answers sample_lib (sample_exchange sample_verifier) [sample_first; Final sample_final false].
Proof.
  refine (@unknown_user_indistinguishable sample_lib sample_credential (ascii_lit "intruder") None
    (Some (py "serverpart")) _ _ [sample_first; Final sample_final true] _ eq_refl eq_refl).
  vm_compute. discriminate.
Defined.
