(* ===== verification/Transport.v ===== *)
(** * Transport: bounded sends and receives over a socket, plain or TLS

    Models [pgwire/transport.py]: the raw channel, which waits in slices under
    a stop signal and an absolute deadline, and the TLS channel over memory
    buffers.  The socket, the stop signal and the SSL object are the
    environment: each of their answers is a function of the whole state at the
    moment of the call, so that two calls may be answered differently.  The
    state logs the bytes the socket gave and the bytes it accepted.

    A deadline that never expires lets a loop wait forever.  The loops have a
    fuel, [patience], and end in [Waiting] when it runs out. *)

From S2P Require Import Prelude.
From S2P Require Import Bytes.

Local Open Scope Z_scope.

(** ** Failures and limits *)

Inductive TransportFailure := EOF | TIMEOUT | STOPPED | IO | TLS | TRANSPORT_LIMIT.

(** [TransportError], or a loop cut by its fuel. *)
Inductive transport_exn :=
| TransportError (kind : TransportFailure) (cleanup_uncertain : bool)
| Waiting.

#[export] Instance TransportFailure_eq_dec : EqDecision TransportFailure.
Proof. solve_decision. Defined.
#[export] Instance transport_exn_eq_dec : EqDecision transport_exn.
Proof. solve_decision. Defined.

Record TransportLimits := {
  poll_ms : Z;
  chunk_bytes : Z;
  tls_handshake_rounds : Z;
  tls_handshake_bytes : Z;
  linger_ms : Z;
  linger_bytes : Z;
}.

(** [TransportLimits.__post_init__]; the error is a [ValueError]. *)
Definition transport_limits (l : TransportLimits) : res unit TransportLimits :=
  refuse_if (existsb (fun v => v <? 1)
    [poll_ms l; chunk_bytes l; tls_handshake_rounds l; tls_handshake_bytes l; linger_ms l;
     linger_bytes l]) tt;;
  Ok l.

(** ** The environment *)

(** The calls made so far, by kind, and the bytes moved. *)
Record io := {
  moment : nat;
  readings : nat;
  received : list byte;
  sent : list byte;
}.

Definition called (s : io) : io :=
  {| moment := Datatypes.S (moment s); readings := readings s; received := received s;
     sent := sent s |}.
Definition clock_read (s : io) : io :=
  {| moment := moment s; readings := Datatypes.S (readings s); received := received s;
     sent := sent s |}.
Definition took (bs : list byte) (s : io) : io :=
  {| moment := moment s; readings := readings s; received := received s ++ bs; sent := sent s |}.
Definition gave (bs : list byte) (s : io) : io :=
  {| moment := moment s; readings := readings s; received := received s; sent := sent s ++ bs |}.

(** How [deadline.remaining()] ends at the [n]-th reading, in milliseconds;
    [opaque] says whether [_opaque_error] holds of the exception raised. *)
Inductive reading := Remaining (milliseconds : Z) | NotFinite | Raises (opaque : bool).
Abbreviation deadline := (nat -> reading).

Inductive socket_answer (A : Type) := Gave (a : A) | TimedOut (opaque : bool) | Failed (opaque : bool).
Arguments Gave {A} a.
Arguments TimedOut {A} opaque.
Arguments Failed {A} opaque.

(** The stop callback ([Err] when it raises), and the socket's operations
    under the timeout set just before, in milliseconds. *)
Record RawChannel := {
  stop : io -> res bool bool;
  sock_recv : io -> Z -> Z -> socket_answer (list byte);
  sock_send : io -> Z -> list byte -> socket_answer Z;
  limits : TransportLimits;
}.

Abbreviation transfer := (st io transport_exn).

(** ** [Deadline] *)

Record Deadline := {
  ends : Z;
  clock : nat -> Z;
}.

(** [Deadline.__init__]: one reading fixes the end. *)
Definition new_deadline (duration : Z) (clock : nat -> Z) : transfer Deadline := fun s =>
  (Ok {| ends := clock (readings s) + duration; clock := clock |}, clock_read s).

(** [Deadline.remaining]. *)
Definition remaining (d : Deadline) : deadline := fun n => Remaining (ends d - clock d n).

(** ** [RawChannel] *)

Section raw.
Context (patience : nat) (c : RawChannel).

Definition fail {S A} (kind : TransportFailure) (uncertain : bool) : st S transport_exn A :=
  raise_st (TransportError kind uncertain).

(** [RawChannel.check]. *)
Definition check (d : deadline) : transfer Z := fun s =>
  match stop c s with
  | Err opaque => fail IO opaque (called s)
  | Ok stopped =>
      let now := d (readings s) in
      let s := clock_read (called s) in
      match now with
      | Raises opaque => fail IO opaque s
      | Remaining rest =>
          if stopped then fail STOPPED false s
          else if rest <=? 0 then fail TIMEOUT false s else (Ok rest, s)
      | NotFinite => if stopped then fail STOPPED false s else fail TIMEOUT false s
      end
  end.

(** [RawChannel._slice]. *)
Definition slice_ms (d : deadline) : transfer Z :=
  rest ← check d; mret (Z.min rest (poll_ms (limits c))).

(** One call of the socket: what it gives is logged. *)
Definition ask_recv (wait size : Z) : transfer (socket_answer (list byte)) := fun s =>
  match sock_recv c s wait size with
  | Gave bs => (Ok (Gave bs), took bs (called s))
  | a => (Ok a, called s)
  end.

(** A socket that says it sent a count of bytes accepted that prefix. *)
Definition ask_send (wait : Z) (piece : list byte) : transfer (socket_answer Z) := fun s =>
  match sock_send c s wait piece with
  | Gave n => (Ok (Gave n), gave (if (1 <=? n) && (n <=? blen piece) then take (Z.to_nat n) piece else [])
                              (called s))
  | a => (Ok a, called s)
  end.

(** [RawChannel.recv_some]. *)
Fixpoint recv_some_loop (fuel : nat) (size : Z) (d : deadline) : transfer (list byte) :=
  match fuel with
  | O => raise_st Waiting
  | Datatypes.S fuel =>
      wait ← slice_ms d;
      a ← ask_recv wait size;
      match a with
      | TimedOut _ => recv_some_loop fuel size d
      | Failed _ => fail IO false
      | Gave [] => fail EOF false
      | Gave data => mret data
      end
  end.

Definition recv_some (maximum : Z) (d : deadline) : transfer (list byte) :=
  recv_some_loop patience (Z.min maximum (chunk_bytes (limits c))) d.

(** [RawChannel.recv_into] of a view of [len] writable bytes: the bytes that
    fill its beginning. *)
Fixpoint recv_into_loop (fuel : nat) (size : Z) (d : deadline) : transfer (list byte) :=
  match fuel with
  | O => raise_st Waiting
  | Datatypes.S fuel =>
      wait ← slice_ms d;
      a ← ask_recv wait size;
      match a with
      | TimedOut false => recv_into_loop fuel size d
      | TimedOut true => fail IO true
      | Failed opaque => fail IO opaque
      | Gave data =>
          if negb (blen data <=? size) then fail IO false
          else if blen data =? 0 then fail EOF false else mret data
      end
  end.

Definition recv_into (len : Z) (d : deadline) : transfer (list byte) :=
  if len <=? 0 then fail IO false
  else recv_into_loop patience (Z.min len (chunk_bytes (limits c))) d.

(** [RawChannel.recv_exact]; [n] bounds the turns, each of which adds a byte. *)
Fixpoint recv_exact_loop (n : nat) (size : Z) (buffer : list byte) (d : deadline)
    : transfer (list byte) :=
  if size <=? blen buffer then mret buffer
  else match n with
  | O => raise_st Waiting
  | Datatypes.S n =>
      data ← recv_some (size - blen buffer) d;
      recv_exact_loop n size (buffer ++ data) d
  end.

Definition recv_exact (size : Z) (d : deadline) : transfer (list byte) :=
  recv_exact_loop (Z.to_nat size) size [] d.

(** [RawChannel.send_all], from [offset] on. *)
Fixpoint send_loop (fuel : nat) (data : list byte) (offset : Z) (d : deadline) : transfer unit :=
  if blen data <=? offset then mret tt
  else match fuel with
  | O => raise_st Waiting
  | Datatypes.S fuel =>
      wait ← slice_ms d;
      let size := Z.min (blen data - offset) (chunk_bytes (limits c)) in
      a ← ask_send wait (slice offset (offset + size) data);
      match a with
      | TimedOut false => send_loop fuel data offset d
      | TimedOut true => fail IO true
      | Failed opaque => fail IO opaque
      | Gave n =>
          if negb ((1 <=? n) && (n <=? size)) then fail IO false
          else send_loop fuel data (offset + n) d
      end
  end.

Definition send_all (data : list byte) (d : deadline) : transfer unit :=
  send_loop (patience + length data) data 0 d.

(** [RawChannel.linger] never fails; the socket's [shutdown] is not modelled. *)
Fixpoint linger_loop (n : nat) (discarded : Z) (d : deadline) : transfer unit := fun s =>
  if linger_bytes (limits c) <=? discarded then (Ok tt, s)
  else match n with
  | O => (Err Waiting, s)
  | Datatypes.S n =>
      match recv_some (linger_bytes (limits c) - discarded) d s with
      | (Ok data, s) => linger_loop n (discarded + blen data) d s
      | (Err (TransportError _ _), s) => (Ok tt, s)
      | (Err Waiting, s) => (Err Waiting, s)
      end
  end.

Definition linger (monotonic : nat -> Z) : transfer unit :=
  d ← new_deadline (linger_ms (limits c)) monotonic;
  linger_loop (Z.to_nat (linger_bytes (limits c))) 0 (remaining d).
End raw.

(** ** [TlsChannel] *)

(** What an operation of the [SSLObject] answers. *)
Inductive ssl_answer (A : Type) :=
| Did (a : A)
| WantRead
| ZeroReturn
| SslFailed (opaque : bool).
Arguments Did {A} a.
Arguments WantRead {A}.
Arguments ZeroReturn {A}.
Arguments SslFailed {A} opaque.

(** The channel's state: the socket's, the two memory buffers, and logs of
    what the SSL object produced, and of the plain bytes that went through. *)
Record tls := {
  net : io;
  incoming : list byte;
  outgoing : list byte;
  produced : list byte;
  plain_read : list byte;
  plain_written : list byte;
  handshakes : nat;
}.

(** What one operation leaves in the incoming buffer, and appends to the
    outgoing one. *)
Record ssl_effect := {
  unread : list byte;
  output : list byte;
}.

Class SslObject := {
  do_handshake : tls -> ssl_answer unit * ssl_effect;
  ssl_read : tls -> Z -> ssl_answer (list byte) * ssl_effect;
  ssl_write : tls -> list byte -> ssl_answer Z * ssl_effect;
}.

Abbreviation secure := (st tls transport_exn).

Definition TLS_WRITE_BLOCK : Z := 16 * 1024.

Section secure.
Context (patience : nat) (c : RawChannel) `{SslObject}.

Definition with_net (n : io) (s : tls) : tls :=
  {| net := n; incoming := incoming s; outgoing := outgoing s; produced := produced s;
     plain_read := plain_read s; plain_written := plain_written s; handshakes := handshakes s |}.

(** An operation of the raw channel below. *)
Definition below {A} (m : transfer A) : secure A := fun s =>
  let '(r, n) := m (net s) in (r, with_net n s).

(** An operation of the SSL object above the buffers. *)
Definition applied (e : ssl_effect) (read written : list byte) (turn : nat) (s : tls) : tls :=
  {| net := net s; incoming := unread e; outgoing := outgoing s ++ output e;
     produced := produced s ++ output e; plain_read := plain_read s ++ read;
     plain_written := plain_written s ++ written; handshakes := turn + handshakes s |}.

Definition ask_handshake : secure (ssl_answer unit) := fun s =>
  let '(a, e) := do_handshake s in (Ok a, applied e [] [] 1 s).

Definition ask_read (size : Z) : secure (ssl_answer (list byte)) := fun s =>
  let '(a, e) := ssl_read s size in
  (Ok a, applied e (match a with Did bs => bs | _ => [] end) [] 0 s).

(** A count the object says it accepted is that prefix of the piece. *)
Definition ask_write (piece : list byte) : secure (ssl_answer Z) := fun s =>
  let '(a, e) := ssl_write s piece in
  (Ok a, applied e []
    (match a with
     | Did n => if (1 <=? n) && (n <=? blen piece) then take (Z.to_nat n) piece else []
     | _ => []
     end) 0 s).

(** [MemoryBIO.read] of the outgoing buffer and [MemoryBIO.write] of the incoming one. *)
Definition with_buffers (i o : list byte) (s : tls) : tls :=
  {| net := net s; incoming := i; outgoing := o; produced := produced s;
     plain_read := plain_read s; plain_written := plain_written s; handshakes := handshakes s |}.

Definition pull (size : Z) : secure (list byte) := fun s =>
  (Ok (take (Z.to_nat size) (outgoing s)),
   with_buffers (incoming s) (drop (Z.to_nat size) (outgoing s)) s).

Definition push (data : list byte) : secure unit := fun s =>
  (Ok tt, with_buffers (incoming s ++ data) (outgoing s) s).

(** [TlsChannel._flush]; [n] bounds the turns, each of which empties a byte. *)
Fixpoint flush_loop (n : nat) (count : Z) (d : deadline) : secure Z :=
  s ← get_st;
  if blen (outgoing s) =? 0 then mret count
  else match n with
  | O => raise_st Waiting
  | Datatypes.S n =>
      block ← pull (chunk_bytes (limits c));
      below (send_all patience c block d);;
      flush_loop n (count + blen block) d
  end.

Definition flush (d : deadline) : secure Z :=
  s ← get_st; flush_loop (length (outgoing s)) 0 d.

(** [TlsChannel._feed]. *)
Definition feed (d : deadline) : secure Z :=
  data ← below (recv_some patience c (chunk_bytes (limits c)) d);
  push data;;
  mret (blen data).

(** The bytes of a handshake so far, refused above their limit. *)
Definition count_transferred (transferred more : Z) : secure Z :=
  guard_st (tls_handshake_bytes (limits c) <? transferred + more)
    (TransportError TRANSPORT_LIMIT false);;
  mret (transferred + more).

(** One step of the SSL object in [TlsChannel.handshake]: whether it asks for
    more input. *)
Definition handshake_step : secure bool :=
  a ← ask_handshake;
  match a with
  | Did _ => mret false
  | WantRead => mret true
  | _ => fail TLS false
  end.

(** [TlsChannel.handshake], with [rounds] left and [transferred] bytes moved. *)
Fixpoint handshake_loop (rounds : nat) (transferred : Z) (d : deadline) : secure unit :=
  match rounds with
  | O => fail TRANSPORT_LIMIT false
  | Datatypes.S rounds =>
      below (check c d);;
      want_read ← handshake_step;
      flushed ← flush d;
      transferred ← count_transferred transferred flushed;
      if negb want_read then mret tt else
      fed ← feed d;
      transferred ← count_transferred transferred fed;
      handshake_loop rounds transferred d
  end.

Definition handshake (d : deadline) : secure unit :=
  handshake_loop (Z.to_nat (tls_handshake_rounds (limits c))) 0 d.

(** [TlsChannel.recv_exact]: a turn adds a byte, or feeds the object. *)
Fixpoint tls_recv_loop (fuel : nat) (size : Z) (buffer : list byte) (d : deadline)
    : secure (list byte) :=
  if size <=? blen buffer then mret buffer
  else match fuel with
  | O => raise_st Waiting
  | Datatypes.S fuel =>
      below (check c d);;
      a ← ask_read (Z.min (size - blen buffer) (chunk_bytes (limits c)));
      match a with
      | ZeroReturn => fail EOF false
      | SslFailed _ => fail TLS false
      | WantRead => flush d;; feed d;; tls_recv_loop fuel size buffer d
      | Did [] => fail EOF false
      | Did piece => tls_recv_loop fuel size (buffer ++ piece) d
      end
  end.

Definition tls_recv_exact (size : Z) (d : deadline) : secure (list byte) :=
  tls_recv_loop (patience + Z.to_nat size) size [] d.

(** The count a write may answer: refused outside the piece it was given. *)
Definition written_count (a : ssl_answer Z) (size : Z) : secure Z :=
  match a with
  | Did accepted =>
      guard_st (negb ((1 <=? accepted) && (accepted <=? size))) (TransportError TLS false);;
      mret accepted
  | SslFailed opaque => fail TLS opaque
  | _ => fail TLS false
  end.

(** [TlsChannel.send_all]; each turn accepts a byte. *)
Fixpoint tls_send_loop (n : nat) (data : list byte) (offset : Z) (d : deadline) : secure unit :=
  if blen data <=? offset then mret tt
  else match n with
  | O => raise_st Waiting
  | Datatypes.S n =>
      below (check c d);;
      let size := Z.min (blen data - offset) TLS_WRITE_BLOCK in
      a ← ask_write (slice offset (offset + size) data);
      accepted ← written_count a size;
      flush d;;
      tls_send_loop n data (offset + accepted) d
  end.

Definition tls_send_all (data : list byte) (d : deadline) : secure unit :=
  tls_send_loop (length data) data 0 d.
End secure.

(** ** What a raw operation leaves behind *)

Lemma take_slice n a b bs :
  0 <= n <= b - a -> take (Z.to_nat n) (slice a b bs) = slice a (a + n) bs.
Proof. intros. unfold slice. rewrite take_take. f_equal. lia. Qed.

(** The clock's readings only advance, and the logs grow by [taken] and [given]. *)
Record moves (taken given : list byte) (s s' : io) : Prop := {
  moves_readings : (readings s <= readings s')%nat;
  moves_received : received s' = received s ++ taken;
  moves_sent : sent s' = sent s ++ given;
}.

Lemma moves_refl s : moves [] [] s s.
Proof. split; rewrite ?app_nil_r; auto. Qed.

Lemma moves_trans a b c d s1 s2 s3 :
  moves a b s1 s2 -> moves c d s2 s3 -> moves (a ++ c) (b ++ d) s1 s3.
Proof. intros [H1 H2 H3] [H4 H5 H6]. split; [lia|..]; rewrite ?H5, ?H2, ?H6, ?H3, app_assoc; reflexivity. Qed.

Lemma moves_first a b s1 s2 s3 : moves [] [] s1 s2 -> moves a b s2 s3 -> moves a b s1 s3.
Proof. intros H1 H2. exact (moves_trans [] [] a b s1 s2 s3 H1 H2). Qed.

(** From its [n]-th reading on, the clock gives no time. *)
Definition expires (d : deadline) (n : nat) : Prop :=
  forall k rest, (n <= k)%nat -> d k = Remaining rest -> rest <= 0.

(** The fuel of a loop outlasts the deadline. *)
Definition outlasts (fuel : nat) (d : deadline) (s : io) : Prop :=
  exists n, expires d n /\ (n < readings s + fuel)%nat /\ (0 < fuel)%nat.

Lemma outlasts_later fuel d s s' : outlasts fuel d s -> (readings s <= readings s')%nat -> outlasts fuel d s'.
Proof. intros (n & H & L & P) R. exists n. split; [exact H|lia]. Qed.

Lemma outlasts_O d s : ~ outlasts 0 d s.
Proof. intros (n & _ & _ & L). lia. Qed.

(** The socket never gives more than it was asked for, as its manual says. *)
Definition polite (c : RawChannel) : Prop :=
  forall s wait size bs, sock_recv c s wait size = Gave bs -> blen bs <= Z.max 0 size.

(** How a receive ends: with bytes just taken from the socket, or with an
    error; and not by its fuel if the deadline expires. *)
Definition receives (c : RawChannel) (fuel : nat) (size : Z) (d : deadline) (s : io) (r : res transport_exn (list byte))
    (s' : io) : Prop :=
  match r with
  | Ok data => moves data [] s s' /\ 1 <= blen data /\ (polite c -> blen data <= size)
  | Err e => exists data, moves data [] s s' /\ (polite c -> data = []) /\ (outlasts fuel d s -> e <> Waiting)
  end.

Section raw_rules.
Context (patience : nat) (c : RawChannel).

Lemma check_runs d s : runs (check c d) (fun r s' =>
  moves [] [] s s' /\
  match r with
  | Ok rest => 0 < rest /\ d (readings s) = Remaining rest /\ readings s' = Datatypes.S (readings s)
  | Err e => e <> Waiting
  end) s.
Proof.
  unfold runs, check. destruct (stop c s) as [stopped|opaque].
  - destruct (d (readings s)) as [rest| |opaque] eqn:D; [destruct stopped; [|destruct (Z.leb_spec rest 0)]|..];
      try destruct stopped; cbn; (split; [split; cbn; rewrite ?app_nil_r; auto|]);
      try discriminate; auto.
  - cbn. split; [split; cbn; rewrite ?app_nil_r; auto|discriminate].
Qed.

(** A wait is granted only before the deadline, and for at most a slice. *)
Lemma slice_runs d s : runs (slice_ms c d) (fun r s' =>
  moves [] [] s s' /\
  match r with
  | Ok wait => wait <= poll_ms (limits c) /\
      (forall fuel, outlasts (Datatypes.S fuel) d s -> outlasts fuel d s')
  | Err e => e <> Waiting
  end) s.
Proof.
  apply runs_bind. eapply runs_mono; [apply check_runs|]. cbn. intros [rest|e] s1 [M H]; [|auto].
  apply runs_ret. destruct H as (H1 & H2 & H3). split; [exact M|]. split; [lia|].
  intros fuel (n & X & L & P). exists n. split; [exact X|]. rewrite H3. split; [lia|].
  destruct fuel; [|lia]. specialize (X (readings s) rest ltac:(lia) H2). lia.
Qed.

Lemma ask_recv_runs wait size s : runs (ask_recv c wait size) (fun r s' =>
  exists a bs, r = Ok a /\ moves bs [] s s' /\ sock_recv c s wait size = a /\
    (a = Gave bs \/ ((forall x, a <> Gave x) /\ bs = []))) s.
Proof.
  unfold runs, ask_recv. destruct (sock_recv c s wait size) as [bs|o|o] eqn:E; cbn.
  - exists (Gave bs), bs. repeat split; cbn; rewrite ?app_nil_r; auto.
  - exists (TimedOut o), []. repeat split; cbn; rewrite ?app_nil_r; auto. all: right; split; [discriminate|reflexivity].
  - exists (Failed o), []. repeat split; cbn; rewrite ?app_nil_r; auto. all: right; split; [discriminate|reflexivity].
Qed.


Ltac step R := apply runs_bind; eapply runs_mono; [apply R|]; cbn beta.

Lemma receives_after fuel size d s s1 r s' data :
  moves data [] s s1 -> (outlasts (Datatypes.S fuel) d s -> outlasts fuel d s1) ->
  data = [] -> receives c fuel size d s1 r s' -> receives c (Datatypes.S fuel) size d s r s'.
Proof.
  intros M1 O ->. unfold receives. destruct r as [x|e].
  - intros (M & H). split; [exact (moves_first _ _ _ _ _ M1 M)|exact H].
  - intros (x & M & P & H). exists x. split; [exact (moves_first _ _ _ _ _ M1 M)|auto].
Qed.

Lemma receives_err fuel size d s s' e data :
  moves data [] s s' -> (polite c -> data = []) -> (outlasts fuel d s -> e <> Waiting) ->
  receives c fuel size d s (Err e) s'.
Proof. intros M P W. exists data. auto. Qed.

Lemma recv_some_loop_runs fuel size d s :
  runs (recv_some_loop c fuel size d) (receives c fuel size d s) s.
Proof.
  revert s; induction fuel as [|fuel IH]; intros s; cbn [recv_some_loop].
  { apply runs_raise. eapply receives_err; [apply moves_refl|auto|]. intros O. destruct (outlasts_O _ _ O). }
  step slice_runs. intros [wait|e] s1 [M1 H1]; [|eapply receives_err; eauto]. destruct H1 as [_ O1].
  step ask_recv_runs. intros r s2 (a & bs & -> & M2 & E & H2).
  pose proof (moves_first _ _ _ _ _ M1 M2) as M. destruct H2 as [->|[H2 ->]].
  - destruct bs as [|b bs]; [eapply receives_err; [exact M|auto|discriminate]|].
    apply runs_ret. split; [exact M|]. assert (1 <= blen (b :: bs)) by (unfold blen; cbn [length]; lia).
    split; [assumption|intros P; specialize (P _ _ _ _ E); lia].
  - destruct a as [x|o|o]; [destruct (H2 x eq_refl)| |eapply receives_err; [exact M|auto|discriminate]].
    eapply runs_mono; [apply IH|]. intros r s3 R. eapply receives_after; [exact M| |reflexivity|exact R].
    intros O. eapply outlasts_later; [exact (O1 _ O)|apply M2].
Qed.

Lemma recv_into_loop_runs fuel size d s :
  runs (recv_into_loop c fuel size d) (fun r s' => receives c fuel size d s r s' /\
    forall data, r = Ok data -> blen data <= size) s.
Proof.
  revert s; induction fuel as [|fuel IH]; intros s; cbn [recv_into_loop].
  { apply runs_raise. split; [|discriminate]. eapply receives_err; [apply moves_refl|auto|].
    intros O. destruct (outlasts_O _ _ O). }
  step slice_runs. intros [wait|e] s1 [M1 H1]; [|split; [eapply receives_err; eauto|discriminate]].
  destruct H1 as [_ O1]. step ask_recv_runs. intros r s2 (a & bs & -> & M2 & E & H2).
  pose proof (moves_first _ _ _ _ _ M1 M2) as M. destruct H2 as [->|[H2 ->]].
  - destruct (Z.leb_spec (blen bs) size) as [L|L]; cbn [negb].
    2:{ split; [|discriminate]. eapply receives_err; [exact M| |discriminate].
        intros P. specialize (P _ _ _ _ E). destruct bs; [reflexivity|]. unfold blen in *. cbn [length] in *. lia. }
    destruct (Z.eqb_spec (blen bs) 0) as [Z0|Z0].
    { split; [|discriminate]. eapply receives_err; [exact M| |discriminate].
      intros _. destruct bs; [reflexivity|discriminate]. }
    apply runs_ret. split; [|intros ? [= <-]; exact L]. split; [exact M|].
    pose proof (blen_nonneg bs). split; [lia|auto].
  - destruct a as [x|[]|o]; [destruct (H2 x eq_refl)| | |];
      try (split; [eapply receives_err; [exact M|auto|discriminate]|discriminate]).
    eapply runs_mono; [apply IH|]. intros r s3 [R L]. split; [|exact L].
    eapply receives_after; [exact M| |reflexivity|exact R].
    intros O. eapply outlasts_later; [exact (O1 _ O)|apply M2].
Qed.

Lemma recv_some_runs maximum d s :
  runs (recv_some patience c maximum d) (receives c patience (Z.min maximum (chunk_bytes (limits c))) d s) s.
Proof. apply recv_some_loop_runs. Qed.

Lemma recv_into_runs len d s :
  runs (recv_into patience c len d) (fun r s' => receives c patience len d s r s' /\
    forall data, r = Ok data -> blen data <= len) s.
Proof.
  unfold recv_into. destruct (Z.leb_spec len 0).
  - split; [|discriminate]. eapply receives_err; [apply moves_refl|auto|discriminate].
  - eapply runs_mono; [apply recv_into_loop_runs|]. intros r s' [R L]. split.
    + destruct r as [x|e]; [|exact R]. destruct R as (M & H1 & H2). split; [exact M|].
      split; [exact H1|intros P; specialize (H2 P); lia].
    + intros data E. specialize (L data E). lia.
Qed.

Lemma recv_exact_loop_runs n size buffer d s :
  size - blen buffer <= Z.of_nat n ->
  runs (recv_exact_loop patience c n size buffer d) (fun r s' => exists more,
    moves more [] s s' /\
    match r with
    | Ok all => all = buffer ++ more /\ size <= blen all /\
        (polite c -> blen buffer <= size -> blen all = size)
    | Err e => (polite c -> blen buffer + blen more < size) /\ (outlasts patience d s -> e <> Waiting)
    end) s.
Proof.
  revert buffer s; induction n as [|n IH]; intros buffer s Hn; cbn [recv_exact_loop];
    (destruct (Z.leb_spec size (blen buffer)) as [L|L];
      [exists []; split; [apply moves_refl|]; rewrite app_nil_r; split; [reflexivity|lia]|]).
  { lia. }
  step recv_some_runs. intros [data|e] s1 R.
  2:{ destruct R as (x & M & P & W). exists x. split; [exact M|]. split; [|exact W].
      intros Q. rewrite (P Q). change (blen []) with 0. lia. }
  destruct R as (M & H1 & H2).
  eapply runs_mono; [apply IH; rewrite blen_app; lia|]. cbn beta. intros r s2 (more & M2 & H).
  exists (data ++ more). split; [exact (moves_trans _ _ _ _ _ _ _ M M2)|]. destruct r as [all|e].
  - destruct H as (-> & H3 & H4). rewrite app_assoc. split; [reflexivity|]. split; [exact H3|].
    intros P HB. apply H4; [exact P|]. specialize (H2 P). rewrite blen_app. lia.
  - destruct H as [H5 H6]. split; [intros P; specialize (H5 P); rewrite !blen_app in *; lia|].
    intros O. apply H6. eapply outlasts_later; [exact O|apply M].
Qed.

Lemma ask_send_runs wait piece s : runs (ask_send c wait piece) (fun r s' =>
  exists a p, r = Ok a /\ moves [] p s s' /\ (readings s <= readings s')%nat /\
    match a with
    | Gave n => p = (if (1 <=? n) && (n <=? blen piece) then take (Z.to_nat n) piece else [])
    | _ => p = []
    end) s.
Proof.
  unfold runs, ask_send. destruct (sock_send c s wait piece) as [n|o|o]; cbn.
  - do 2 eexists. repeat split; cbn; rewrite ?app_nil_r; auto.
  - exists (TimedOut o), []. repeat split; cbn; rewrite ?app_nil_r; auto.
  - exists (Failed o), []. repeat split; cbn; rewrite ?app_nil_r; auto.
Qed.

(** How a send of [data] ends: all of it accepted, or a prefix and an error. *)
Definition sends (fuel : nat) (data : list byte) (d : deadline) (s : io) (r : res transport_exn unit)
    (s' : io) : Prop :=
  match r with
  | Ok _ => moves [] data s s'
  | Err e => exists p rest, data = p ++ rest /\ moves [] p s s' /\ (outlasts fuel d s -> e <> Waiting)
  end.

Lemma sends_nothing fuel data d s s' e :
  moves [] [] s s' -> (outlasts fuel d s -> e <> Waiting) -> sends fuel data d s (Err e) s'.
Proof. intros M H. exists [], data. auto. Qed.

Lemma send_loop_runs fuel data offset d s :
  0 <= offset <= blen data ->
  runs (send_loop c fuel data offset d) (fun r s' =>
    forall k, Z.of_nat k + (blen data - offset) <= Z.of_nat fuel \/ (exists u, r = Ok u) \/ k = O ->
      sends k (slice offset (blen data) data) d s r s') s.
Proof.
  revert offset s; induction fuel as [|fuel IH]; intros offset s Ho; cbn [send_loop];
    (destruct (Z.leb_spec (blen data) offset) as [L|L];
      [replace offset with (blen data) by lia; rewrite slice_empty; apply runs_ret; intros k _; apply moves_refl|]).
  { apply runs_raise. intros k [H|[[u [=]]| ->]]; [lia|]. apply sends_nothing; [apply moves_refl|].
    intros O. destruct (outlasts_O _ _ O). }
  step slice_runs. intros [wait|e] s1 [M1 H1]; [|intros k _; apply sends_nothing; auto].
  destruct H1 as [_ O1]. step ask_send_runs. intros r s2 (a & p & -> & M2 & R2 & E).
  pose proof (moves_first _ _ _ _ _ M1 M2) as M.
  destruct a as [n|[]|o]; subst p; try (intros k _; apply sends_nothing; [exact M|discriminate]).
  - set (size := Z.min _ _) in *.
    assert (Hs : (1 <=? n) && (n <=? blen (slice offset (offset + size) data)) =
                 (1 <=? n) && (n <=? size)).
    { destruct (Z.leb_spec 1 n); [|reflexivity]. destruct (Z.leb_spec 0 size) as [Z0|Z0];
        [rewrite blen_slice by lia; f_equal; lia|].
      replace (slice offset (offset + size) data) with (@nil byte)
        by (unfold slice; rewrite (Z2Nat.nonpos (_ - _)) by lia; reflexivity).
      change (blen []) with 0. lia. }
    rewrite Hs in M.
    destruct ((1 <=? n) && (n <=? size)) eqn:B; cbn [negb]; [|intros k _; apply sends_nothing; [exact M|discriminate]].
    assert (1 <= n <= size) by lia.
    eapply runs_mono; [apply IH; lia|]. cbn beta. intros r s3 R k Hk.
    specialize (R k ltac:(destruct Hk as [Hk|Hk]; [left; lia|auto])).
    rewrite take_slice in M by lia.
    assert (S : slice offset (blen data) data = slice offset (offset + n) data ++ slice (offset + n) (blen data) data)
      by (apply slice_split; lia).
    destruct r as [u|e]; unfold sends in *.
    + rewrite S. exact (moves_trans _ _ _ _ _ _ _ M R).
    + destruct R as (q & rest & Q & M3 & O). exists (slice offset (offset + n) data ++ q), rest.
      rewrite S, Q, app_assoc. split; [reflexivity|]. split; [exact (moves_trans _ _ _ _ _ _ _ M M3)|].
      intros O0. apply O. eapply outlasts_later; [exact O0|apply M].
  - eapply runs_mono; [apply IH; lia|]. cbn beta. intros r s3 R k Hk.
    specialize (R (pred k) ltac:(destruct k; [right; destruct Hk as [Hk|[Hk|Hk]]; auto|
      destruct Hk as [Hk|[Hk|Hk]]; [left; lia|auto|discriminate]])).
    destruct r as [u|e]; unfold sends in *.
    + exact (moves_first _ _ _ _ _ M R).
    + destruct R as (q & rest & Q & M3 & O). exists q, rest. split; [exact Q|].
      split; [exact (moves_first _ _ _ _ _ M M3)|]. intros O0. apply O.
      destruct k as [|k]; [destruct (outlasts_O _ _ O0)|].
      eapply outlasts_later; [exact (O1 _ O0)|apply M2].
Qed.

Lemma send_all_runs data d s :
  runs (send_all patience c data d) (sends patience data d s) s.
Proof.
  pose proof (blen_nonneg data). unfold send_all.
  pose proof (send_loop_runs (patience + length data) data 0 d s) as R. rewrite slice_all in R.
  eapply runs_mono; [apply R; lia|]. intros r s1 H1. apply H1. left. unfold blen. lia.
Qed.
End raw_rules.

(** ** What a TLS operation leaves behind *)

(** The socket moved by [taken] and [given]; the SSL object wrote [made],
    read [read] and accepted [written] in [turns] handshake steps. *)
Record secures (taken given made read written : list byte) (turns : nat) (s s' : tls) : Prop := {
  secures_net : moves taken given (net s) (net s');
  secures_produced : produced s' = produced s ++ made;
  secures_read : plain_read s' = plain_read s ++ read;
  secures_written : plain_written s' = plain_written s ++ written;
  secures_turns : handshakes s' = (turns + handshakes s)%nat;
}.

(** What was made and not yet given: nothing is lost, repeated or reordered. *)
Definition in_order (given made : list byte) (s s' : tls) : Prop :=
  outgoing s ++ made = given ++ outgoing s'.

Lemma secures_refl s : secures [] [] [] [] [] 0 s s.
Proof. split; rewrite ?app_nil_r; auto. apply moves_refl. Qed.

Lemma secures_trans a b m r w t a' b' m' r' w' t' s1 s2 s3 :
  secures a b m r w t s1 s2 -> secures a' b' m' r' w' t' s2 s3 ->
  secures (a ++ a') (b ++ b') (m ++ m') (r ++ r') (w ++ w') (t + t') s1 s3.
Proof.
  intros [H1 H2 H3 H4 H5] [K1 K2 K3 K4 K5]. split.
  - exact (moves_trans _ _ _ _ _ _ _ H1 K1).
  - rewrite K2, H2, app_assoc. reflexivity.
  - rewrite K3, H3, app_assoc. reflexivity.
  - rewrite K4, H4, app_assoc. reflexivity.
  - lia.
Qed.

Lemma in_order_trans g m g' m' s1 s2 s3 :
  in_order g m s1 s2 -> in_order g' m' s2 s3 -> in_order (g ++ g') (m ++ m') s1 s3.
Proof. unfold in_order. intros H K. rewrite app_assoc, H, <- app_assoc, K, app_assoc. reflexivity. Qed.

Section secure_rules.
Context (patience : nat) (c : RawChannel) `{SslObject}.

Definition tls_outlasts (fuel : nat) (d : deadline) (s : tls) : Prop := outlasts fuel d (net s).

Lemma secures_outlasts fuel d a b m r w t s s' :
  secures a b m r w t s s' -> tls_outlasts fuel d s -> tls_outlasts fuel d s'.
Proof. intros [M _ _ _ _] O. eapply outlasts_later; [exact O|apply M]. Qed.

Lemma runs_below {A} (m : transfer A) (Q : res transport_exn A -> tls -> Prop) s :
  runs m (fun r n => Q r (with_net n s)) (net s) -> runs (below m) Q s.
Proof. unfold runs, below. destruct (m (net s)) as [r n]. exact id. Qed.

Lemma below_secures a b n s : moves a b (net s) n -> secures a b [] [] [] 0 s (with_net n s).
Proof. intros M. split; cbn; rewrite ?app_nil_r; auto. Qed.

Lemma below_check_runs d s : runs (below (check c d)) (fun r s' =>
  secures [] [] [] [] [] 0 s s' /\ in_order [] [] s s' /\
  (forall fuel, tls_outlasts (Datatypes.S fuel) d s -> forall rest, r = Ok rest -> tls_outlasts fuel d s') /\
  r <> Err Waiting) s.
Proof.
  apply runs_below. eapply runs_mono; [apply check_runs|]. cbn. intros r n [M H1].
  split; [apply below_secures; exact M|]. split; [apply app_nil_r|]. split.
  - intros fuel (k & X & L & P) rest ->. destruct H1 as (H1 & H2 & H3). exists k. split; [exact X|].
    cbn. rewrite H3. split; [lia|]. destruct fuel; [|lia]. specialize (X (readings (net s)) rest ltac:(lia) H2). lia.
  - destruct r as [rest|e]; [discriminate|intros [= ->]; contradiction].
Qed.

Lemma runs_pull size (Q : res transport_exn (list byte) -> tls -> Prop) s :
  Q (Ok (take (Z.to_nat size) (outgoing s)))
    (with_buffers (incoming s) (drop (Z.to_nat size) (outgoing s)) s) -> runs (pull size) Q s.
Proof. exact id. Qed.

Lemma runs_push data (Q : res transport_exn unit -> tls -> Prop) s :
  Q (Ok tt) (with_buffers (incoming s ++ data) (outgoing s) s) -> runs (push data) Q s.
Proof. exact id. Qed.

(** [_flush] gives what is outgoing, all of it or, with an error, a prefix. *)
Lemma flush_loop_runs n count d s :
  1 <= chunk_bytes (limits c) -> (length (outgoing s) <= n)%nat ->
  runs (flush_loop patience c n count d) (fun r s' => exists given,
    secures [] given [] [] [] 0 s s' /\
    match r with
    | Ok total => given = outgoing s /\ outgoing s' = [] /\ total = count + blen given
    | Err e => given `prefix_of` outgoing s /\ (tls_outlasts patience d s -> e <> Waiting)
    end) s.
Proof.
  intros Hc. revert count s; induction n as [|n IH]; intros count s Hn; cbn [flush_loop];
    apply runs_bind, runs_get;
    (destruct (Z.eqb_spec (blen (outgoing s)) 0) as [Z0|Z0];
      [apply runs_ret; exists []; split; [apply secures_refl|]; destruct (outgoing s);
        [split; [reflexivity|split; [reflexivity|change (blen []) with 0; lia]]|discriminate]|]).
  { unfold blen in Z0. lia. }
  set (k := Z.to_nat (chunk_bytes (limits c))). assert (1 <= k)%nat by lia.
  apply runs_bind, runs_pull. fold k. set (s1 := with_buffers _ _ s).
  apply runs_bind, runs_below. eapply runs_mono; [apply send_all_runs|]. cbn beta. intros r n1 R.
  assert (T : outgoing s = take k (outgoing s) ++ drop k (outgoing s)) by (symmetry; apply take_drop).
  destruct r as [u|e]; unfold sends in R.
  - assert (M : secures [] (take k (outgoing s)) [] [] [] 0 s (with_net n1 s1)).
    { split; cbn; rewrite ?app_nil_r; auto. }
    eapply runs_mono; [apply IH; cbn; rewrite length_drop; unfold blen in Z0; lia|].
    cbn beta. intros r s2 (given & M2 & R2). exists (take k (outgoing s) ++ given).
    split; [exact (secures_trans _ _ _ _ _ _ _ _ _ _ _ _ _ _ _ M M2)|]. destruct r as [total|e].
    + destruct R2 as (-> & E & ->). cbn. rewrite take_drop. split; [reflexivity|]. split; [exact E|].
      rewrite <- Z.add_assoc, <- blen_app, take_drop. reflexivity.
    + destruct R2 as [P O]. split.
      * rewrite T at 2. apply prefix_app. exact P.
      * intros O0. apply O. eapply secures_outlasts; eassumption.
  - destruct R as (p & rest & Q & M & O). exists p. split; [split; cbn; rewrite ?app_nil_r; auto|].
    split; [|exact O]. rewrite T, Q, <- app_assoc. exists (rest ++ drop k (outgoing s)). reflexivity.
Qed.

Lemma flush_runs d s :
  1 <= chunk_bytes (limits c) ->
  runs (flush patience c d) (fun r s' => exists given,
    secures [] given [] [] [] 0 s s' /\
    match r with
    | Ok total => given = outgoing s /\ outgoing s' = [] /\ total = blen given
    | Err e => given `prefix_of` outgoing s /\ (tls_outlasts patience d s -> e <> Waiting)
    end) s.
Proof.
  intros Hc. unfold flush. apply runs_bind, runs_get. eapply runs_mono; [apply flush_loop_runs; [exact Hc|lia]|].
  auto.
Qed.

Lemma feed_runs d s : runs (feed patience c d) (fun r s' => exists taken,
  secures taken [] [] [] [] 0 s s' /\ in_order [] [] s s' /\
  match r with
  | Ok fed => fed = blen taken /\ 1 <= fed /\ (polite c -> fed <= chunk_bytes (limits c))
  | Err e => (polite c -> taken = []) /\ (tls_outlasts patience d s -> e <> Waiting)
  end) s.
Proof.
  unfold feed. apply runs_bind, runs_below. eapply runs_mono; [apply recv_some_runs|]. cbn beta.
  rewrite Z.min_id. intros [data|e] n R.
  - destruct R as (M & H1 & H2). apply runs_bind, runs_push, runs_ret. exists data.
    split; [split; cbn; rewrite ?app_nil_r; auto|]. split; [apply app_nil_r|]. auto.
  - destruct R as (data & M & O). exists data. split; [apply below_secures; exact M|].
    split; [apply app_nil_r|exact O].
Qed.

Lemma ask_handshake_runs s : runs ask_handshake (fun r s' => exists a made,
  r = Ok a /\ secures [] [] made [] [] 1 s s' /\ in_order [] made s s') s.
Proof.
  unfold runs, ask_handshake. destruct (do_handshake s) as [a e]. cbn. exists a, (output e).
  split; [reflexivity|]. split; [|reflexivity]. split; cbn; rewrite ?app_nil_r; auto. apply moves_refl.
Qed.

Lemma ask_write_runs piece s : runs (ask_write piece) (fun r s' => exists a made p,
  r = Ok a /\ secures [] [] made [] p 0 s s' /\ in_order [] made s s' /\
  match a with
  | Did n => p = (if (1 <=? n) && (n <=? blen piece) then take (Z.to_nat n) piece else [])
  | _ => p = []
  end) s.
Proof.
  unfold runs, ask_write. destruct (ssl_write s piece) as [a e]. cbn. exists a, (output e), (match a with
    | Did n => if (1 <=? n) && (n <=? blen piece) then take (Z.to_nat n) piece else []
    | _ => []
    end).
  split; [reflexivity|].
  split; [split; cbn; rewrite ?app_nil_r; [apply moves_refl|reflexivity..]|].
  split; [reflexivity|]. destruct a; reflexivity.
Qed.

Lemma handshake_step_runs s : runs handshake_step (fun r s' => exists made,
  secures [] [] made [] [] 1 s s' /\ in_order [] made s s' /\ r <> Err Waiting) s.
Proof.
  unfold handshake_step. apply runs_bind. eapply runs_mono; [apply ask_handshake_runs|]. cbn beta.
  intros r s1 (a & made & -> & M & O).
  destruct a; (apply runs_ret || apply runs_raise); exists made; (split; [exact M|]);
    (split; [exact O|discriminate]).
Qed.

Lemma count_runs t n (Q : res transport_exn Z -> tls -> Prop) s :
  (t + n <= tls_handshake_bytes (limits c) -> Q (Ok (t + n)) s) ->
  Q (Err (TransportError TRANSPORT_LIMIT false)) s -> runs (count_transferred c t n) Q s.
Proof.
  intros H1 H2. unfold count_transferred. apply runs_bind, runs_guard; [auto|].
  intros L. apply runs_ret, H1. lia.
Qed.

(** The bytes of a handshake, its turns, and the order of what it sends. *)
Definition handshaken (rounds : nat) (transferred : Z) (d : deadline) (s : tls)
    (r : res transport_exn unit) (s' : tls) : Prop :=
  exists taken given made turns,
    secures taken given made [] [] turns s s' /\ (turns <= rounds)%nat /\
    given `prefix_of` outgoing s ++ made /\
    (polite c -> transferred <= tls_handshake_bytes (limits c) ->
     transferred + blen taken <= tls_handshake_bytes (limits c) + chunk_bytes (limits c)) /\
    match r with
    | Ok _ => outgoing s' = [] /\ given = outgoing s ++ made /\ (1 <= turns)%nat /\
        transferred + blen taken + blen given <= tls_handshake_bytes (limits c)
    | Err e => tls_outlasts patience d s -> e <> Waiting
    end.

(** A turn of which the loop makes nothing more. *)
Lemma handshaken_end rounds t d s r s' taken given made turns :
  1 <= chunk_bytes (limits c) ->
  secures taken given made [] [] turns s s' -> (turns <= rounds)%nat ->
  given `prefix_of` outgoing s ++ made -> (polite c -> blen taken <= chunk_bytes (limits c)) ->
  match r with
  | Ok _ => taken = [] /\ outgoing s' = [] /\ given = outgoing s ++ made /\ (1 <= turns)%nat /\
      t + blen given <= tls_handshake_bytes (limits c)
  | Err e => tls_outlasts patience d s -> e <> Waiting
  end ->
  handshaken rounds t d s r s'.
Proof.
  intros Hc M T P B R. exists taken, given, made, turns. split; [exact M|]. split; [exact T|].
  split; [exact P|]. split; [intros Q; specialize (B Q); lia|]. destruct r as [u|e]; [|exact R].
  destruct R as (-> & R1 & R2 & R3 & R4). change (blen []) with 0. split; [exact R1|].
  split; [exact R2|]. split; [exact R3|lia].
Qed.

(** A whole turn, after which nothing is outgoing, then the rest of the loop. *)
Lemma handshaken_more rounds t d s s1 r s' taken given made :
  secures taken given made [] [] 1 s s1 -> given = outgoing s ++ made -> outgoing s1 = [] ->
  t + blen given + blen taken <= tls_handshake_bytes (limits c) ->
  handshaken rounds (t + blen given + blen taken) d s1 r s' ->
  handshaken (Datatypes.S rounds) t d s r s'.
Proof.
  intros M G O L (tk & gv & md & n & M2 & T & P & B & R).
  pose proof (secures_trans _ _ _ _ _ _ _ _ _ _ _ _ _ _ _ M M2) as M'. rewrite O in *. cbn [app] in *.
  exists (taken ++ tk), (given ++ gv), (made ++ md), (1 + n)%nat. split; [exact M'|]. split; [lia|].
  rewrite app_assoc, <- G. split; [apply prefix_app; exact P|]. rewrite !blen_app.
  pose proof (blen_nonneg given). split; [intros Q _; specialize (B Q); lia|].
  destruct r as [u|e].
  - destruct R as (R1 & -> & R2 & R3). split; [exact R1|]. split; [reflexivity|]. split; [lia|lia].
  - intros O0. apply R. eapply secures_outlasts; eassumption.
Qed.

Ltac no_bytes := intros _; change (blen []) with 0; lia.

Lemma handshake_loop_runs rounds t d s :
  1 <= chunk_bytes (limits c) ->
  runs (handshake_loop patience c rounds t d) (handshaken rounds t d s) s.
Proof.
  intros Hc. revert t s; induction rounds as [|rounds IH]; intros t s; cbn [handshake_loop].
  { apply runs_raise. eapply handshaken_end; [exact Hc|apply secures_refl|lia|apply prefix_nil|no_bytes|discriminate]. }
  apply runs_bind. eapply runs_mono; [apply below_check_runs|]. cbn beta. intros r s1 (M1 & O1 & _ & W).
  destruct r as [rest|e].
  2:{ eapply handshaken_end; [exact Hc|exact M1|lia|apply prefix_nil|no_bytes|congruence]. }
  clear W. apply runs_bind. eapply runs_mono; [apply handshake_step_runs|]. cbn beta.
  intros r s2 (made & M2 & O2 & W).
  pose proof (secures_trans _ _ _ _ _ _ _ _ _ _ _ _ _ _ _ M1 M2) as M. clear M1 M2. cbn [app Nat.add] in M.
  unfold in_order in O1, O2. cbn [app] in O1, O2. rewrite app_nil_r in O1. rewrite <- O1 in O2.
  destruct r as [want|e].
  2:{ eapply handshaken_end; [exact Hc|exact M|lia|apply prefix_nil|no_bytes|congruence]. }
  apply runs_bind. eapply runs_mono; [apply flush_runs; exact Hc|]. cbn beta. intros r s3 (given & M3 & R3).
  rewrite <- O2 in R3. pose proof (secures_outlasts patience d _ _ _ _ _ _ _ _ M) as OM.
  pose proof (secures_trans _ _ _ _ _ _ _ _ _ _ _ _ _ _ _ M M3) as M'. clear M M3.
  cbn [app Nat.add] in M'. rewrite app_nil_r in M'.
  destruct r as [total|e].
  2:{ destruct R3 as [P R3]. eapply handshaken_end; [exact Hc|exact M'|lia|exact P|no_bytes|].
      intros O. apply R3, OM, O. }
  destruct R3 as (G & E & ->). assert (P : given `prefix_of` outgoing s ++ made) by (rewrite G; reflexivity).
  apply runs_bind, count_runs; [intros L|].
  2:{ eapply handshaken_end; [exact Hc|exact M'|lia|exact P|no_bytes|discriminate]. }
  destruct want; cbn [negb].
  2:{ apply runs_ret. eapply handshaken_end; [exact Hc|exact M'|lia|exact P|no_bytes|].
      split; [reflexivity|]. auto. }
  apply runs_bind. eapply runs_mono; [apply feed_runs|]. cbn beta. intros r s4 (taken & M4 & O4 & R4).
  pose proof (secures_outlasts patience d _ _ _ _ _ _ _ _ M') as OM'.
  pose proof (secures_trans _ _ _ _ _ _ _ _ _ _ _ _ _ _ _ M' M4) as M. clear M' M4.
  cbn [app Nat.add] in M. rewrite !app_nil_r in M.
  destruct r as [fed|e].
  2:{ destruct R4 as [P4 R4]. eapply handshaken_end; [exact Hc|exact M|lia|exact P| |].
      - intros Q. rewrite (P4 Q). change (blen []) with 0. lia.
      - intros O. apply R4, OM', O. }
  destruct R4 as (-> & F1 & F2). unfold in_order in O4. cbn [app] in O4. rewrite app_nil_r, E in O4.
  apply runs_bind, count_runs; [intros L2|].
  2:{ eapply handshaken_end; [exact Hc|exact M|lia|exact P|exact F2|discriminate]. }
  eapply runs_mono; [apply IH|]. intros r s5 R. eapply handshaken_more; eauto.
Qed.

(** How a send of [data] ends: the object accepted all of it, or a prefix and
    an error; what leaves the socket is what was outgoing, then what the object
    made, in that order. *)
Definition tls_sends (data : list byte) (d : deadline) (s : tls) (r : res transport_exn unit)
    (s' : tls) : Prop :=
  exists given made written, secures [] given made [] written 0 s s' /\
    match r with
    | Ok _ => written = data /\ in_order given made s s'
    | Err e => written `prefix_of` data /\ given `prefix_of` outgoing s ++ made /\
        (tls_outlasts patience d s -> e <> Waiting)
    end.

Lemma tls_sends_err data d s s' e given made written :
  secures [] given made [] written 0 s s' -> written `prefix_of` data ->
  given `prefix_of` outgoing s ++ made -> (tls_outlasts patience d s -> e <> Waiting) ->
  tls_sends data d s (Err e) s'.
Proof. intros M W P O. exists given, made, written. auto. Qed.

Lemma tls_sends_more piece data d s s1 r s' given made :
  secures [] given made [] piece 0 s s1 -> in_order given made s s1 ->
  tls_sends data d s1 r s' -> tls_sends (piece ++ data) d s r s'.
Proof.
  intros M O (gv & md & w & M2 & R). exists (given ++ gv), (made ++ md), (piece ++ w).
  split; [exact (secures_trans _ _ _ _ _ _ _ _ _ _ _ _ _ _ _ M M2)|]. destruct r as [u|e].
  - destruct R as [-> O2]. split; [reflexivity|]. exact (in_order_trans _ _ _ _ _ _ _ O O2).
  - destruct R as (W & P & R). split; [apply prefix_app; exact W|]. split.
    + rewrite app_assoc, O, <- app_assoc. apply prefix_app. exact P.
    + intros O0. apply R. eapply secures_outlasts; eassumption.
Qed.

Lemma written_count_runs a size s : runs (written_count a size) (fun r s' => s' = s /\
  match r with
  | Ok n => a = Did n /\ 1 <= n <= size
  | Err e => e <> Waiting
  end) s.
Proof.
  unfold written_count. destruct a as [n| | |o]; try (apply runs_raise; split; [reflexivity|discriminate]).
  apply runs_bind, runs_guard; intros B; [split; [reflexivity|discriminate]|].
  apply runs_ret. split; [reflexivity|]. split; [reflexivity|lia].
Qed.

Lemma tls_send_loop_runs n data offset d s :
  1 <= chunk_bytes (limits c) -> 0 <= offset <= blen data -> blen data - offset <= Z.of_nat n ->
  runs (tls_send_loop patience c n data offset d) (tls_sends (slice offset (blen data) data) d s) s.
Proof.
  intros Hc. revert offset s; induction n as [|n IH]; intros offset s Ho Hn; cbn [tls_send_loop];
    (destruct (Z.leb_spec (blen data) offset) as [L|L];
      [replace offset with (blen data) by lia; rewrite slice_empty; apply runs_ret;
       exists [], [], []; split; [apply secures_refl|]; split; [reflexivity|apply app_nil_r]|]).
  { lia. }
  apply runs_bind. eapply runs_mono; [apply below_check_runs|]. cbn beta. intros r s1 (M1 & O1 & _ & W).
  destruct r as [rest|e]; [|eapply tls_sends_err; [exact M1|apply prefix_nil..|congruence]]. clear W.
  apply runs_bind. eapply runs_mono; [apply ask_write_runs|]. cbn beta.
  intros r s2 (a & made & p & -> & M2 & O2 & Hp).
  pose proof (secures_trans _ _ _ _ _ _ _ _ _ _ _ _ _ _ _ M1 M2) as M. clear M1 M2.
  pose proof (in_order_trans _ _ _ _ _ _ _ O1 O2) as O. clear O1 O2. cbn [app Nat.add] in M, O.
  set (size := Z.min (blen data - offset) TLS_WRITE_BLOCK) in *.
  assert (T0 : TLS_WRITE_BLOCK = 16384) by reflexivity.
  rewrite blen_slice in Hp by lia. replace (offset + size - offset) with size in Hp by lia.
  apply runs_bind. eapply runs_mono; [apply written_count_runs|]. cbn beta. intros r s2' [-> R].
  destruct r as [k|e].
  2:{ eapply tls_sends_err; [exact M| |apply prefix_nil|auto]. destruct a as [k| | |o]; subst p; try apply prefix_nil.
      case_match; [|apply prefix_nil]. rewrite take_slice, (slice_split offset (offset + k) (blen data)) by lia.
      eexists. reflexivity. }
  destruct R as [-> R]. replace ((1 <=? k) && (k <=? size)) with true in Hp by lia.
  rewrite take_slice in Hp by lia.
  assert (S : slice offset (blen data) data = p ++ slice (offset + k) (blen data) data)
    by (subst p; apply slice_split; lia).
  apply runs_bind. eapply runs_mono; [apply flush_runs; exact Hc|]. cbn beta. intros r s3 (given & M3 & R3).
  unfold in_order in O. cbn [app] in O. rewrite <- O in R3.
  pose proof (secures_outlasts patience d _ _ _ _ _ _ _ _ M) as OM.
  pose proof (secures_trans _ _ _ _ _ _ _ _ _ _ _ _ _ _ _ M M3) as M'. clear M M3.
  cbn [app Nat.add] in M'. rewrite !app_nil_r in M'. rewrite S.
  destruct r as [total|e].
  - destruct R3 as (-> & E & ->). eapply runs_mono; [apply IH; lia|]. intros r s4 R4.
    eapply tls_sends_more; [exact M'| |exact R4]. unfold in_order. rewrite E, app_nil_r. reflexivity.
  - destruct R3 as [P R3]. eapply tls_sends_err; [exact M'|eexists; reflexivity|exact P|auto].
Qed.

Lemma tls_send_all_runs data d s :
  1 <= chunk_bytes (limits c) ->
  runs (tls_send_all patience c data d) (tls_sends data d s) s.
Proof.
  intros Hc. pose proof (blen_nonneg data). pose proof (tls_send_loop_runs (length data) data 0 d s Hc) as R.
  rewrite slice_all in R. apply R; unfold blen in *; lia.
Qed.
End secure_rules.

Section secure_receive.
Context (patience : nat) (c : RawChannel) `{SslObject}.

(** The SSL object never decrypts more than it was asked for. *)
Definition polite_ssl : Prop :=
  forall s size bs e, ssl_read s size = (Did bs, e) -> blen bs <= size.

Lemma ask_read_runs size s : runs (ask_read size) (fun r s' => exists a made read,
  r = Ok a /\ secures [] [] made read [] 0 s s' /\ in_order [] made s s' /\
  match a with
  | Did bs => read = bs /\ (polite_ssl -> blen bs <= size)
  | _ => read = []
  end) s.
Proof.
  unfold runs, ask_read. destruct (ssl_read s size) as [a e] eqn:E. cbn.
  exists a, (output e), (match a with Did bs => bs | _ => [] end).
  split; [reflexivity|]. split; [split; cbn; rewrite ?app_nil_r; [apply moves_refl|reflexivity..]|].
  split; [reflexivity|]. destruct a as [bs| | |o]; [|reflexivity..].
  split; [reflexivity|]. intros P. exact (P _ _ _ _ E).
Qed.

Lemma outlasts_more k fuel d s : (k <= fuel)%nat -> outlasts k d s -> outlasts fuel d s.
Proof. intros L (n & X & Y & Z). exists n. split; [exact X|lia]. Qed.

(** How a receive of [size] bytes after [buffer] ends, for a fuel of [k] waits. *)
Definition tls_receives (k : nat) (size : Z) (buffer : list byte) (d : deadline) (s : tls)
    (r : res transport_exn (list byte)) (s' : tls) : Prop :=
  exists taken given made read, secures taken given made read [] 0 s s' /\
    match r with
    | Ok all => all = buffer ++ read /\ size <= blen all /\
        (polite_ssl -> blen buffer <= size -> blen all = size)
    | Err e => tls_outlasts k d s -> e <> Waiting
    end.

Lemma tls_receives_after k k' size buffer d s s1 r s' taken given made read :
  secures taken given made read [] 0 s s1 -> (tls_outlasts k d s -> tls_outlasts k' d s1) ->
  (polite_ssl -> blen buffer <= size -> blen (buffer ++ read) <= size) ->
  tls_receives k' size (buffer ++ read) d s1 r s' -> tls_receives k size buffer d s r s'.
Proof.
  intros M O B (t & g & m & x & M2 & R). exists (taken ++ t), (given ++ g), (made ++ m), (read ++ x).
  split; [exact (secures_trans _ _ _ _ _ _ _ _ _ _ _ _ _ _ _ M M2)|]. destruct r as [all|e].
  - destruct R as (-> & R1 & R2). rewrite app_assoc. auto.
  - intros O0. apply R, O, O0.
Qed.

Lemma tls_recv_loop_runs fuel size buffer d s :
  1 <= chunk_bytes (limits c) ->
  runs (tls_recv_loop patience c fuel size buffer d) (fun r s' =>
    forall k, (k <= patience)%nat ->
      Z.of_nat k + (size - blen buffer) <= Z.of_nat fuel \/ (exists u, r = Ok u) \/ k = O ->
      tls_receives k size buffer d s r s') s.
Proof.
  intros Hc. revert buffer s; induction fuel as [|fuel IH]; intros buffer s; cbn [tls_recv_loop];
    (destruct (Z.leb_spec size (blen buffer)) as [L|L];
      [apply runs_ret; intros k _ _; exists [], [], [], []; split; [apply secures_refl|];
       rewrite app_nil_r; split; [reflexivity|lia]|]).
  { apply runs_raise. intros k _ [B|[[u [=]]| ->]]; [lia|]. exists [], [], [], [].
    split; [apply secures_refl|]. intros O. destruct (outlasts_O _ _ O). }
  apply runs_bind. eapply runs_mono; [apply below_check_runs|]. cbn beta. intros r s1 (M1 & _ & T & W).
  destruct r as [rest|e]; [|intros k _ _; exists [], [], [], []; split; [exact M1|congruence]]. clear W.
  apply runs_bind. eapply runs_mono; [apply ask_read_runs|]. cbn beta.
  intros r s2 (a & made & read & -> & M2 & _ & Hr).
  pose proof (secures_trans _ _ _ _ _ _ _ _ _ _ _ _ _ _ _ M1 M2) as M. clear M1. cbn [app Nat.add] in M.
  assert (T2 : forall k, tls_outlasts (Datatypes.S k) d s -> tls_outlasts k d s2).
  { intros k O. eapply secures_outlasts; [exact M2|exact (T k O rest eq_refl)]. }
  assert (Hn : forall e : transport_exn, e <> Waiting -> forall k, tls_receives k size buffer d s (Err e) s2).
  { intros e He k. exists [], [], made, read. auto. }
  destruct a as [bs| | |o]; [|clear Hn|intros k _ _; apply Hn; discriminate..].
  - destruct Hr as [-> Hr]. destruct bs as [|b bs]; [intros k _ _; apply Hn; discriminate|].
    clear Hn. eapply runs_mono; [apply IH|]. cbn beta. intros r s3 R k Hk B.
    assert (1 <= blen (b :: bs)) by (unfold blen; cbn [length]; lia).
    eapply tls_receives_after; [exact M| | |apply (R k Hk); rewrite blen_app;
      destruct B as [B|[B|B]]; [left; lia|auto..]].
    + apply (secures_outlasts _ _ _ _ _ _ _ _ _ _ M).
    + intros P HB. specialize (Hr P). rewrite blen_app. lia.
  - subst read. apply runs_bind. eapply runs_mono; [apply flush_runs; exact Hc|]. cbn beta.
    intros r s3 (given & M3 & R3). pose proof (secures_trans _ _ _ _ _ _ _ _ _ _ _ _ _ _ _ M M3) as M'.
    assert (T3 : forall k, tls_outlasts (Datatypes.S k) d s -> tls_outlasts k d s3).
    { intros k O. eapply secures_outlasts; [exact M3|exact (T2 k O)]. }
    assert (P2 : forall k, (k <= patience)%nat -> tls_outlasts k d s -> tls_outlasts patience d s2).
    { intros k Hk O. eapply outlasts_more; [exact Hk|]. eapply secures_outlasts; eassumption. }
    destruct r as [total|e].
    2:{ intros k Hk _. do 4 eexists. split; [exact M'|]. intros O. apply R3, (P2 k Hk O). }
    apply runs_bind. eapply runs_mono; [apply feed_runs|]. cbn beta. intros r s4 (taken & M4 & _ & R4).
    pose proof (secures_trans _ _ _ _ _ _ _ _ _ _ _ _ _ _ _ M' M4) as M''.
    destruct r as [fed|e].
    2:{ intros k Hk _. do 4 eexists. split; [exact M''|]. intros O. apply R4.
        eapply secures_outlasts; [exact M3|exact (P2 k Hk O)]. }
    cbn [app] in M''. eapply runs_mono; [apply IH|]. cbn beta. intros r s5 R k Hk B.
    eapply (tls_receives_after k (pred k)); [exact M''| | |rewrite app_nil_r; apply R; [lia|]].
    + intros O. destruct k as [|k]; [destruct (outlasts_O _ _ O)|].
      eapply secures_outlasts; [exact M4|exact (T3 k O)].
    + rewrite app_nil_r. auto.
    + destruct k; [right; destruct B as [B|[B|B]]; auto|].
      destruct B as [B|[B|B]]; [left; cbn [pred]; lia|auto|discriminate].
Qed.

Lemma tls_recv_exact_runs size d s :
  1 <= chunk_bytes (limits c) ->
  runs (tls_recv_exact patience c size d) (tls_receives patience size [] d s) s.
Proof.
  intros Hc. unfold tls_recv_exact. eapply runs_mono; [apply tls_recv_loop_runs; exact Hc|].
  cbn beta. intros r s' R. apply R; [lia|]. left. change (blen []) with 0. lia.
Qed.
End secure_receive.

(** ** What a channel promises to the code that sends through it *)

(** A channel with its state: the plain bytes it accepted so far, and its
    count of clock readings, which the code around it shares. *)
Class SendChannel (S : Type) := {
  channel_send : list byte -> deadline -> st S transport_exn unit;
  accepted : S -> list byte;
  clock_count : S -> nat;
  set_clock : nat -> S -> S;
}.

(** A send that returns delivered everything, in order, once; a send that
    fails delivered a prefix. *)
Class SendChannelLaws {S} (C : SendChannel S) : Prop := {
  send_delivers data d s : runs (channel_send data d) (fun r s' =>
    exists p rest, data = p ++ rest /\ accepted s' = accepted s ++ p /\
      (r = Ok tt -> rest = [])) s;
  accepted_clock n s : accepted (set_clock n s) = accepted s;
}.

Definition with_readings (n : nat) (s : io) : io :=
  {| moment := moment s; readings := n; received := received s; sent := sent s |}.

(** [RawChannel] and [TlsChannel] as channels. *)
Definition raw_channel (patience : nat) (c : RawChannel) : SendChannel io := {|
  channel_send := send_all patience c;
  accepted := sent;
  clock_count := readings;
  set_clock := with_readings;
|}.

Definition tls_channel `{SslObject} (patience : nat) (c : RawChannel) : SendChannel tls := {|
  channel_send := tls_send_all patience c;
  accepted := plain_written;
  clock_count := fun s => readings (net s);
  set_clock := fun n s => with_net (with_readings n (net s)) s;
|}.

#[export] Instance raw_channel_laws patience c : SendChannelLaws (raw_channel patience c).
Proof.
  split; [|reflexivity]. intros data d s. cbn. eapply runs_mono; [apply send_all_runs|].
  intros [u|e] s' R; unfold sends in R.
  - exists data, []. rewrite app_nil_r. split; [reflexivity|]. split; [apply R|reflexivity].
  - destruct R as (p & rest & E & M & _). exists p, rest. split; [exact E|]. split; [apply M|discriminate].
Qed.

#[export] Instance tls_channel_laws `{SslObject} patience c :
  TCEq (1 <=? chunk_bytes (limits c)) true -> SendChannelLaws (tls_channel patience c).
Proof.
  intros Hc. split; [|reflexivity]. intros data d s. cbn.
  eapply runs_mono; [apply tls_send_all_runs; apply TCEq_eq in Hc; lia|].
  intros r s' (given & made & written & M & R). exists written.
  destruct r as [u|e].
  - destruct R as [-> _]. exists []. rewrite app_nil_r. split; [reflexivity|]. split; [apply M|reflexivity].
  - destruct R as ([rest ->] & _). exists rest. split; [reflexivity|]. split; [apply M|discriminate].
Qed.

(** ** Lemmas for the theorems *)

Lemma limits_positive c : transport_limits (limits c) = Ok (limits c) ->
  1 <= chunk_bytes (limits c) /\ 1 <= tls_handshake_rounds (limits c) /\
  1 <= tls_handshake_bytes (limits c) /\ 1 <= linger_bytes (limits c).
Proof.
  intros L. unfold transport_limits in L. inv_ok. cbn [existsb] in *.
  repeat match goal with H : (_ || _) = false |- _ => apply orb_false_iff in H as [? H] end. lia.
Qed.

Lemma not_waiting {S A} (m : st S transport_exn A) Q s :
  runs m Q s -> (forall e s', Q (Err e) s' -> e <> Waiting) -> (m s).1 <> Err Waiting.
Proof. unfold runs. destruct (m s) as [[a|e] s1]; cbn; [discriminate|]. intros R W [= ->]. exact (W _ _ R eq_refl). Qed.

(** Each turn of a lingering close discards a byte, or ends it. *)
Lemma linger_loop_ends patience c n discarded d s :
  linger_bytes (limits c) - discarded <= Z.of_nat n -> outlasts patience d s ->
  (linger_loop patience c n discarded d s).1 <> Err Waiting.
Proof.
  revert discarded s; induction n as [|n IH]; intros k s Hn O; cbn [linger_loop];
    (destruct (Z.leb_spec (linger_bytes (limits c)) k); [discriminate|]); [lia|].
  pose proof (recv_some_runs patience c (linger_bytes (limits c) - k) d s) as R. unfold runs in R.
  destruct (recv_some _ _ _ _ s) as [[data|[kind u|]] s1]; cbn [fst snd receives] in R.
  - destruct R as (M & D & _). apply IH; [lia|]. eapply outlasts_later; [exact O|apply M].
  - discriminate.
  - destruct R as (x & _ & _ & W). destruct (W O eq_refl).
Qed.

Lemma linger_ends patience c clock start n s :
  (forall k, (n <= k)%nat -> start + linger_ms (limits c) <= clock k) ->
  clock (readings s) = start -> (n <= readings s + patience)%nat -> (0 < patience)%nat ->
  1 <= linger_bytes (limits c) ->
  (linger patience c clock s).1 <> Err Waiting.
Proof.
  intros Hc Hs Hn Hp L. unfold linger, mbind, st_bind, new_deadline.
  apply linger_loop_ends; [lia|]. exists n. split.
  - intros k rest Hk [= <-]. specialize (Hc k Hk). cbn. lia.
  - cbn [clock_read readings]. lia.
Qed.

(** ** Theorems *)

(** A raw send that returns put exactly its data on the socket, once and
    in order, however the socket split it and timed out; one that fails put a
    prefix.  A raw receive takes exactly the bytes it was asked for and
    returns them; a failed one took fewer. *)
Theorem raw_transfer_exact patience c d s :
  (forall data r s', send_all patience c data d s = (r, s') ->
     received s' = received s /\
     exists p rest, data = p ++ rest /\ sent s' = sent s ++ p /\ (r = Ok tt -> rest = [])) /\
  (forall size r s', recv_exact patience c size d s = (r, s') -> polite c -> 0 <= size ->
     sent s' = sent s /\
     exists more, received s' = received s ++ more /\
       ((r = Ok more /\ blen more = size) \/ (exists e, r = Err e /\ blen more < size))).
Proof.
  split.
  - intros data r s' E. pose proof (runs_eq _ _ _ _ _ (send_all_runs patience c data d s) E) as R.
    destruct r as [u|e]; unfold sends in R.
    + destruct R as [_ R1 R2]. rewrite app_nil_r in R1. split; [exact R1|].
      exists data, []. rewrite app_nil_r. auto.
    + destruct R as (p & rest & Ep & [_ R1 R2] & _). rewrite app_nil_r in R1. split; [exact R1|].
      exists p, rest. split; [exact Ep|]. split; [exact R2|discriminate].
  - intros size r s' E P Hs. unfold recv_exact in E.
    pose proof (runs_eq _ _ _ _ _ (recv_exact_loop_runs patience c (Z.to_nat size) size [] d s
      ltac:(change (blen []) with 0; lia)) E) as (more & [_ M1 M2] & R).
    change (blen []) with 0 in R. rewrite app_nil_r in M2. split; [exact M2|].
    exists more. split; [exact M1|]. destruct r as [all|e].
    + destruct R as (-> & _ & R). auto.
    + destruct R as [R _]. right. exists e. auto.
Qed.

(** A TLS send that returns made the SSL object accept exactly its data,
    in order, and left nothing it encrypted behind; whatever the ending, the
    socket was given the encrypted bytes in the order they were made, with no
    gap and no repetition.  A TLS receive returns the decrypted bytes in
    order, as many as asked for. *)
Theorem tls_transfer_exact `{SslObject} patience c d s :
  1 <= chunk_bytes (limits c) ->
  (forall data r s', tls_send_all patience c data d s = (r, s') ->
     exists made given written,
       produced s' = produced s ++ made /\ sent (net s') = sent (net s) ++ given /\
       plain_written s' = plain_written s ++ written /\
       written `prefix_of` data /\ given `prefix_of` outgoing s ++ made /\
       (r = Ok tt -> written = data /\ outgoing s ++ made = given ++ outgoing s')) /\
  (forall size r s', tls_recv_exact patience c size d s = (r, s') ->
     exists read, plain_read s' = plain_read s ++ read /\
       (forall all, r = Ok all -> all = read /\ (polite_ssl -> 0 <= size -> blen all = size))).
Proof.
  intros Hc. split.
  - intros data r s' E.
    pose proof (runs_eq _ _ _ _ _ (tls_send_all_runs patience c data d s Hc) E) as (given & made & written & M & R).
    exists made, given, written. destruct M as [[_ _ M1] M2 _ M3 _]. do 3 (split; [assumption|]).
    destruct r as [u|e].
    + destruct R as [-> O]. split; [reflexivity|]. split; [|auto].
      unfold in_order in O. rewrite O. eexists. reflexivity.
    + destruct R as (W & P & _). do 2 (split; [assumption|]). discriminate.
  - intros size r s' E.
    pose proof (runs_eq _ _ _ _ _ (tls_recv_exact_runs patience c size d s Hc) E) as (taken & given & made & read & M & R).
    exists read. split; [apply M|]. intros all ->. destruct R as (-> & _ & R). auto.
Qed.

(** A TLS handshake is bounded whatever the peer sends: at most the
    configured rounds of the SSL object, and never more input than the byte
    limit and one block.  One that succeeds moved at most the byte limit in
    both directions and left nothing outgoing. *)
Theorem handshake_bounded `{SslObject} patience c d s r s' :
  transport_limits (limits c) = Ok (limits c) -> polite c ->
  handshake patience c d s = (r, s') ->
  exists taken given, received (net s') = received (net s) ++ taken /\
    sent (net s') = sent (net s) ++ given /\
    (handshakes s <= handshakes s')%nat /\
    Z.of_nat (handshakes s') <= Z.of_nat (handshakes s) + tls_handshake_rounds (limits c) /\
    blen taken <= tls_handshake_bytes (limits c) + chunk_bytes (limits c) /\
    (r = Ok tt -> outgoing s' = [] /\ (handshakes s < handshakes s')%nat /\
       blen taken + blen given <= tls_handshake_bytes (limits c)).
Proof.
  intros L P E. pose proof (limits_positive c L).
  pose proof (runs_eq _ _ _ _ _ (handshake_loop_runs patience c _ 0 d s ltac:(lia)) E)
    as (taken & given & made & turns & M & T & _ & B & R).
  exists taken, given. destruct M as [[_ M1 M2] _ _ _ M3]. split; [exact M1|]. split; [exact M2|].
  split; [lia|]. split; [lia|]. split; [apply B; [exact P|lia]|]. intros ->.
  destruct R as (R1 & _ & R2 & R3). split; [exact R1|]. split; lia.
Qed.

(** C28: no operation of the channels waits for ever.  When the deadline gives
    no time from some reading of its clock on, every send, receive, handshake
    and lingering close ends within that many turns (a sending loop within as
    many more as it has bytes to send), whatever the socket, the stop signal and
    the SSL object answer. *)
Theorem transport_terminates `{SslObject} patience c d s :
  transport_limits (limits c) = Ok (limits c) -> outlasts patience d (net s) ->
  (forall data, (send_all patience c data d (net s)).1 <> Err Waiting) /\
  (forall size, (recv_some patience c size d (net s)).1 <> Err Waiting) /\
  (forall size, (recv_into patience c size d (net s)).1 <> Err Waiting) /\
  (forall size, (recv_exact patience c size d (net s)).1 <> Err Waiting) /\
  (forall data, (tls_send_all patience c data d s).1 <> Err Waiting) /\
  (forall size, (tls_recv_exact patience c size d s).1 <> Err Waiting) /\
  (handshake patience c d s).1 <> Err Waiting /\
  (forall clock start n, (forall k, (n <= k)%nat -> start + linger_ms (limits c) <= clock k) ->
     clock (readings (net s)) = start -> (n <= readings (net s) + patience)%nat -> (0 < patience)%nat ->
     (linger patience c clock (net s)).1 <> Err Waiting).
Proof.
  intros L O. pose proof (limits_positive c L). repeat split; intros.
  - eapply not_waiting; [apply send_all_runs|]. intros e s' (p & rest & _ & _ & W). auto.
  - eapply not_waiting; [apply recv_some_runs|]. intros e s' (x & _ & _ & W). auto.
  - eapply not_waiting; [apply recv_into_runs|]. intros e s' [(x & _ & _ & W) _]. auto.
  - eapply not_waiting.
    { apply (recv_exact_loop_runs patience c _ size [] d (net s)). change (blen []) with 0. lia. }
    intros e s' (x & _ & _ & W). auto.
  - eapply not_waiting; [apply tls_send_all_runs; lia|]. intros e s' (g & m & w & _ & _ & _ & W). auto.
  - eapply not_waiting; [apply tls_recv_exact_runs; lia|]. intros e s' (t & g & m & x & _ & W). auto.
  - eapply not_waiting; [apply handshake_loop_runs; lia|]. intros e s' (t & g & m & n & _ & _ & _ & _ & W). auto.
  - eapply linger_ends; eauto; lia.
Qed.

(** ** Witnesses *)

Definition sample_limits : TransportLimits :=
  {| poll_ms := 250; chunk_bytes := 4; tls_handshake_rounds := 8; tls_handshake_bytes := 64;
     linger_ms := 1000; linger_bytes := 64 |}.

(** A socket that times out at every third call, gives one byte at a time and
    accepts up to two. *)
Definition sample_socket : RawChannel := {|
  stop := fun _ => Ok false;
  sock_recv := fun s _ size =>
    if (moment s mod 3 =? 0)%nat then TimedOut false else Gave (take (Z.to_nat size) [z2b (Z.of_nat (moment s))]);
  sock_send := fun s _ piece =>
    if (moment s mod 3 =? 0)%nat then TimedOut false else Gave (Z.min 2 (blen piece));
  limits := sample_limits;
|}.

(** Ten readings of one second left, then none. *)
Definition sample_clock : deadline := fun n => Remaining (if (n <? 10)%nat then 1000 else 0).

Definition sample_io : io := {| moment := 0; readings := 0; received := []; sent := [] |}.

Lemma raw_transfer_exact_witness :
  exists s', send_all 11 sample_socket (ascii_lit "hello") sample_clock sample_io = (Ok tt, s') /\
    sent s' = ascii_lit "hello".
Proof.
  destruct (raw_transfer_exact 11 sample_socket sample_clock sample_io) as [H _].
  destruct (send_all 11 sample_socket (ascii_lit "hello") sample_clock sample_io) as [r s'] eqn:E.
  destruct (H (ascii_lit "hello") r s' E) as (_ & p & rest & D & S & R).
  assert (T : r = Ok tt) by (vm_compute in E; congruence). exists s'. rewrite T. split; [reflexivity|].
  rewrite S, D, (R T), app_nil_r. reflexivity.
Defined.

(** An SSL object that marks what it is given, and wants four bytes of input. *)
#[local] Instance sample_ssl : SslObject := {|
  do_handshake := fun s =>
    if blen (incoming s) <? 4 then (WantRead, {| unread := incoming s; output := ascii_lit "?" |})
    else (Did tt, {| unread := []; output := ascii_lit "!" |});
  ssl_read := fun s size => (Did (take (Z.to_nat size) (incoming s)),
    {| unread := drop (Z.to_nat size) (incoming s); output := [] |});
  ssl_write := fun s piece => (Did (Z.min 3 (blen piece)),
    {| unread := incoming s; output := ascii_lit "<" ++ take 3 piece ++ ascii_lit ">" |});
|}.

Definition sample_tls : tls :=
  {| net := sample_io; incoming := []; outgoing := []; produced := []; plain_read := [];
     plain_written := []; handshakes := 0 |}.

Definition long_clock : deadline := fun n => Remaining (if (n <? 90)%nat then 1000 else 0).

Lemma tls_transfer_exact_witness :
  exists s', tls_send_all 91 sample_socket (ascii_lit "hello") long_clock sample_tls = (Ok tt, s') /\
    sent (net s') = ascii_lit "<hel><lo>" /\ plain_written s' = ascii_lit "hello".
Proof.
  destruct (tls_transfer_exact 91 sample_socket long_clock sample_tls ltac:(vm_compute; discriminate)) as [H _].
  destruct (tls_send_all 91 sample_socket (ascii_lit "hello") long_clock sample_tls) as [r s'] eqn:E.
  destruct (H (ascii_lit "hello") r s' E) as (made & given & written & H1 & H2 & H3 & _ & _ & H4).
  assert (T : r = Ok tt) by (vm_compute in E; congruence). destruct (H4 T) as [-> _].
  exists s'. rewrite T. split; [reflexivity|]. split; [|exact H3].
  vm_compute in E. injection E as _ <-. vm_compute. reflexivity.
Defined.

Lemma sample_polite : polite sample_socket.
Proof.
  unfold polite. cbn. intros s wait size bs. destruct (_ =? _)%nat; [discriminate|]. intros [= <-].
  unfold blen. rewrite length_take. cbn [length]. lia.
Qed.

Lemma handshake_bounded_witness :
  exists s', handshake 91 sample_socket long_clock sample_tls = (Ok tt, s') /\ outgoing s' = [] /\
    Z.of_nat (handshakes s') <= 8.
Proof.
  destruct (handshake 91 sample_socket long_clock sample_tls) as [r s'] eqn:E.
  destruct (handshake_bounded 91 sample_socket long_clock sample_tls r s' eq_refl sample_polite E)
    as (taken & given & _ & _ & _ & B & _ & H).
  assert (T : r = Ok tt) by (vm_compute in E; congruence). exists s'. rewrite T. split; [reflexivity|].
  split; [apply H, T|exact B].
Defined.

Lemma sample_outlasts : outlasts 11 sample_clock (net sample_tls).
Proof.
  exists 10%nat. split; [|cbn; lia]. unfold expires, sample_clock. intros k rest Hk [= <-].
  destruct (Nat.ltb_spec k 10); lia.
Qed.

(** A socket that never answers: the send ends at the deadline. *)
Definition silent_socket : RawChannel := {|
  stop := fun _ => Ok false;
  sock_recv := fun _ _ _ => TimedOut false;
  sock_send := fun _ _ _ => TimedOut false;
  limits := sample_limits;
|}.

Lemma transport_terminates_witness :
  exists e s', send_all 11 silent_socket (ascii_lit "hello") sample_clock sample_io = (Err e, s') /\
    e <> Waiting.
Proof.
  destruct (transport_terminates 11 silent_socket sample_clock sample_tls eq_refl sample_outlasts) as [H _].
  specialize (H (ascii_lit "hello")). change (net sample_tls) with sample_io in H.
  destruct (send_all 11 silent_socket (ascii_lit "hello") sample_clock sample_io) as [r s'] eqn:E.
  destruct r as [[]|e]; [vm_compute in E; discriminate|]. exists e, s'. split; [reflexivity|].
  intros ->. exact (H eq_refl).
Defined.
