(* ===== verification/Receiver.v ===== *)
(** * Receiver: one result, from the worker's channel to the client's

    Models [pgwire/result_receiver.py].  A receiver reads one frame from the
    worker, validates it, sends its chunks to the client and is closed; it
    holds a pin of the budget's ledger as long as its private buffers may
    exist.  Its methods may be called by several threads: each is a sequence
    of points, and [advance] runs a thread from one point to the next.  What
    happens between two points is atomic in the code, under the coordinator's
    lock, or touches only the thread's own channel.

    The environment says whether the lock is free within its timeout, whether
    an interrupt arrives during a transfer, and what is linked to an exception
    that was raised. *)

From S2P Require Import Prelude.
From S2P Require Import Bytes.
From S2P Require Import ResultFrame.
From S2P Require Budget.
From S2P Require Transport.

Local Open Scope Z_scope.

Inductive ReceiverFailure :=
| RECEIVER_STATE | RECEIVER_BUSY | RECEIVER_BUDGET | RECEIVER_IO | RECEIVER_LIMIT
| RECEIVER_PROTOCOL | RECEIVER_DEADLINE.

Inductive ReceiverState :=
| NEW | READING | READY | SENDING | SENT | FAILED | DISCARDING | HELD | CLOSED.

#[export] Instance ReceiverState_eq_dec : EqDecision ReceiverState.
Proof. solve_decision. Defined.
#[export] Instance ReceiverFailure_eq_dec : EqDecision ReceiverFailure.
Proof. solve_decision. Defined.

Record ResultSummary := {
  s_columns : Z;
  s_rows : Z;
  s_truncated : bool;
}.

(** ** Clearing an error *)

(** What [_clear_error] looks at in an exception: whether it is a group, a
    transport error that is unsure of its cleanup, whether clearing its frames
    succeeds, and the exceptions linked to it. *)
Record exn_object := {
  is_group : bool;
  cleanup_uncertain : bool;
  frames_clear : bool;
  cause : option nat;
  context : option nat;
}.

Definition MAX_ERROR_CHAIN : nat := 32.

(** The loop of [_clear_error]: [pending] is its stack, top first. *)
Fixpoint clear_loop (fuel : nat) (heap : nat -> exn_object) (pending seen : list nat) : bool :=
  match fuel, pending with
  | _, [] => true
  | O, _ => false
  | S fuel, current :: pending =>
      let error := heap current in
      if is_group error then false
      else if cleanup_uncertain error then false
      else if bool_decide (current ∈ seen) then clear_loop fuel heap pending seen
      else if Nat.eqb (length seen) MAX_ERROR_CHAIN then false
      else if negb (frames_clear error) then false
      else clear_loop fuel heap (option_list (context error) ++ option_list (cause error) ++ pending)
             (current :: seen)
  end.

(** Each error seen adds at most two to the stack. *)
Definition clear_fuel : nat := 2 * MAX_ERROR_CHAIN + 2.

Definition clear_error (heap : nat -> exn_object) (error : nat) : bool :=
  clear_loop clear_fuel heap [error] [].

(** ** Errors of a transfer *)

(** What leaves [_read_payload] and [_send_payload]; [Other] is any other
    exception, [MemoryError] apart. *)
Inductive payload_exn :=
| FrameError (c : ResultErrorCategory)
| ChannelError (e : Transport.transport_exn)
| Other.

Definition category (e : payload_exn) : ReceiverFailure :=
  match e with
  | FrameError RESULT_DEADLINE => RECEIVER_DEADLINE
  | FrameError RESULT_LIMIT => RECEIVER_LIMIT
  | FrameError _ => RECEIVER_PROTOCOL
  | ChannelError (Transport.TransportError Transport.TIMEOUT _) => RECEIVER_DEADLINE
  | _ => RECEIVER_IO
  end.

(** The flag a transport error carries. *)
Definition raised_uncertain (e : payload_exn) : bool :=
  match e with ChannelError (Transport.TransportError _ u) => u | _ => false end.

(** The exception raised, number 0 of the heap the environment gives. *)
Definition raised (e : payload_exn) (heap : nat -> exn_object) : nat -> exn_object := fun n =>
  match n with
  | O => {| is_group := is_group (heap O); cleanup_uncertain := raised_uncertain e;
            frames_clear := frames_clear (heap O); cause := cause (heap O);
            context := context (heap O) |}
  | _ => heap n
  end.

(** ** Reading the frame *)

(** The deadline as a channel reads it. *)
Definition channel_deadline (d : ResultDeadline) : Transport.deadline :=
  fun n => Transport.Remaining (remaining d n).

Section read.
Context (patience : nat) (channel : Transport.RawChannel).
Context (expected : ResultIdentity) (limits : ResultLimits) (deadline : ResultDeadline).

Abbreviation payload := (st Transport.io payload_exn).

Definition on_channel {A} (m : Transport.transfer A) : payload A := fun s =>
  let '(r, s) := m s in
  (match r with Ok a => Ok a | Err e => Err (ChannelError e) end, s).

(** [ResultDeadline.check]. *)
Definition check_clock : payload unit := fun s =>
  (if remaining deadline (Transport.readings s) <=? 0 then Err (FrameError RESULT_DEADLINE) else Ok tt,
   Transport.clock_read s).

(** [_fill]; [n] bounds the turns, each of which adds a byte. *)
Fixpoint fill_loop (n : nat) (buffer : list byte) (offset : Z) : payload (list byte) :=
  if blen buffer <=? offset then mret buffer
  else match n with
  | O => raise_st (ChannelError Transport.Waiting)
  | S n =>
      piece ← on_channel (Transport.recv_into patience channel (blen buffer - offset)
                            (channel_deadline deadline));
      fill_loop n (write_at offset piece buffer) (offset + blen piece)
  end.

Definition fill (buffer : list byte) (start : Z) : payload (list byte) :=
  fill_loop (length buffer) buffer start.

(** [bytearray(n)]. *)
Definition bytearray (n : Z) : list byte := replicate (Z.to_nat n) (z2b 0).

(** A function of [ResultFrame] called from here: its error is the frame's. *)
Definition of_frame {A} (m : nat -> res ResultErrorCategory A * nat) : payload A := fun s =>
  let '(r, n) := m (Transport.readings s) in
  (match r with Ok a => Ok a | Err c => Err (FrameError c) end, Transport.with_readings n s).

(** [_read_payload]. *)
Definition read_payload : payload ValidatedResult :=
  header ← fill (bytearray HEADER_BYTES) 0;
  info ← of_frame (pair (inspect_result_header header expected limits));
  check_clock;;
  raw ← fill (write_at 0 header (bytearray (frame_bytes info))) HEADER_BYTES;
  of_frame (validate_result raw expected limits deadline).
End read.

(** ** Sending the chunks *)

Section send.
Context {D : Type} `{C : Transport.SendChannel D}.

(** The deadline's check before a chunk is yielded, and after the last. *)
Definition check_chunk (deadline : ResultDeadline) : st D payload_exn unit := fun s =>
  let n := Transport.clock_count s in
  (if remaining deadline n <=? 0 then Err (FrameError RESULT_DEADLINE) else Ok tt,
   Transport.set_clock (S n) s).

Definition send_piece (piece : list byte) (deadline : ResultDeadline) : st D payload_exn unit :=
  fun s =>
    let '(r, s) := Transport.channel_send piece (channel_deadline deadline) s in
    (match r with Ok u => Ok u | Err e => Err (ChannelError e) end, s).

(** [_send_payload]: the chunks of [iter_chunks], each sent as it is yielded. *)
Fixpoint send_chunks (owner : ValidatedResult) (deadline : ResultDeadline) (offsets : list Z)
    : st D payload_exn unit :=
  check_chunk deadline;;
  match offsets with
  | [] => mret tt
  | o :: offsets =>
      send_piece (slice o (Z.min (o + MAX_CHUNK) (blen (wire owner))) (wire owner)) deadline;;
      send_chunks owner deadline offsets
  end.

Definition send_payload (owner : ValidatedResult) (deadline : ResultDeadline) : st D payload_exn unit :=
  send_chunks owner deadline (py_range HEADER_BYTES (blen (wire owner)) MAX_CHUNK).
End send.

(** ** The receiver and what it shares *)

(** [_owner], [_summary], [_operation_done] and the other fields that change;
    an [Event] is its place in the list of all events created. *)
Record receiver := {
  state : ReceiverState;
  owner : option ValidatedResult;
  summary : option ResultSummary;
  operation_done : nat;
  uncertain : bool;
  discarded : bool;
  drain : bool;
}.

(** The fields fixed by [ResultReceiver.__init__]. *)
Record settings := {
  expected : ResultIdentity;
  result_limits_ : ResultLimits;
  own_deadline : ResultDeadline;
  pin : Budget.BudgetOutputToken;
}.

(** The receiver, the ledger it shares with others, the events, the two
    channels, and the counts of clock readings, of attempts at the lock and of
    transfers. *)
Record world {D : Type} := {
  self : receiver;
  book : Budget.ledger;
  events : list bool;
  source_io : Transport.io;
  target_io : D;
  reads : nat;
  attempts : nat;
  transfers : nat;
}.
Arguments world : clear implicits.

Inductive value :=
| Nothing
| Summary (s : option ResultSummary)
| Outcome (o : Budget.OutputReleaseOutcome)
| Status (s : ReceiverState).

(** [ReceiverError], or an interrupt that is no [Exception]. *)
Inductive receiver_exn := ReceiverError (f : ReceiverFailure) | Interrupt.

Abbreviation answer := (res receiver_exn value).

(** Where a thread that called a method is.  [completion] is the event of its
    own operation. *)
Inductive point :=
| ReceiveStart
| ReceiveRead (completion : nat)
| ReceiveSettle (completion : nat) (owner : option ValidatedResult) (failure : option ReceiverFailure)
| ReceiveEnd (completion : nat) (owner : option ValidatedResult) (a : answer)
| SendStart (d : ResultDeadline)
| SendWrite (completion : nat) (d : ResultDeadline)
| SendSettle (completion : nat) (d : ResultDeadline) (failure : option ReceiverFailure)
| SendEnd (completion : nat) (raised : option receiver_exn)
| CloseStart (d : ResultDeadline)
| CloseDrop (d : ResultDeadline) (owner : option ValidatedResult)
| CloseEnd (d : ResultDeadline)
| StatusStart (d : ResultDeadline)
| Returned (a : answer).

Section receiver.
Context {D : Type} `{C : Transport.SendChannel D}.
Context (write_image : nat -> Budget.write_result) (restore_image : nat -> bool).
Context (patience : nat) (channel : Transport.RawChannel).
Context (lock_free : nat -> bool) (interrupted : nat -> bool) (chain : nat -> nat -> exn_object).
Context (c : settings).

Abbreviation world := (world D).

Definition with_self (r : receiver) (w : world) : world :=
  {| self := r; book := book w; events := events w; source_io := source_io w;
     target_io := target_io w; reads := reads w; attempts := attempts w; transfers := transfers w |}.

Definition with_book (l : Budget.ledger) (w : world) : world :=
  {| self := self w; book := l; events := events w; source_io := source_io w;
     target_io := target_io w; reads := reads w; attempts := attempts w; transfers := transfers w |}.

Definition with_events (e : list bool) (w : world) : world :=
  {| self := self w; book := book w; events := e; source_io := source_io w;
     target_io := target_io w; reads := reads w; attempts := attempts w; transfers := transfers w |}.

Definition with_state (x : ReceiverState) (r : receiver) : receiver :=
  {| state := x; owner := owner r; summary := summary r; operation_done := operation_done r;
     uncertain := uncertain r; discarded := discarded r; drain := drain r |}.

Definition with_operation (x : ReceiverState) (e : nat) (r : receiver) : receiver :=
  {| state := x; owner := owner r; summary := summary r; operation_done := e;
     uncertain := uncertain r; discarded := discarded r; drain := drain r |}.

Definition with_uncertain (b : bool) (r : receiver) : receiver :=
  {| state := state r; owner := owner r; summary := summary r; operation_done := operation_done r;
     uncertain := uncertain r || b; discarded := discarded r; drain := drain r |}.

Definition with_result (v : ValidatedResult) (r : receiver) : receiver :=
  {| state := READY; owner := Some v;
     summary := Some {| s_columns := v_columns v; s_rows := v_rows v; s_truncated := v_truncated v |};
     operation_done := operation_done r; uncertain := uncertain r; discarded := discarded r;
     drain := drain r |}.

Definition start_discarding (r : receiver) : receiver :=
  {| state := DISCARDING; owner := None; summary := summary r; operation_done := operation_done r;
     uncertain := uncertain r; discarded := discarded r;
     drain := negb (bool_decide (state r = SENT)) |}.

Definition set_discarded (r : receiver) : receiver :=
  {| state := state r; owner := owner r; summary := summary r; operation_done := operation_done r;
     uncertain := uncertain r; discarded := true; drain := drain r |}.

(** [_coordinated]: whether the block is entered, or the failure. *)
Definition coordinated (d : ResultDeadline) (w : world) : option ReceiverFailure * world :=
  let w1 := {| self := self w; book := book w; events := events w; source_io := source_io w;
               target_io := target_io w; reads := S (reads w); attempts := attempts w;
               transfers := transfers w |} in
  if remaining d (reads w) <=? 0 then (Some RECEIVER_DEADLINE, w1)
  else
    let w2 := {| self := self w; book := book w; events := events w; source_io := source_io w;
                 target_io := target_io w; reads := S (reads w); attempts := S (attempts w);
                 transfers := transfers w |} in
    if lock_free (attempts w) then (None, w2) else (Some RECEIVER_BUSY, w2).

(** [_settle_locked]. *)
Definition settle_locked (w : world) : world :=
  let r := self w in
  if (bool_decide (state r = READING) || bool_decide (state r = SENDING)) &&
     default false (events w !! operation_done r)
  then with_self (with_state FAILED r) w else w.

(** A new [Event], which becomes [_operation_done], in state [x]. *)
Definition begin_operation (x : ReceiverState) (w : world) : nat * world :=
  let e := length (events w) in
  (e, with_events (events w ++ [false]) (with_self (with_operation x e (self w)) w)).

(** [completion.set()]. *)
Definition set_event (e : nat) (w : world) : world := with_events (<[e := true]> (events w)) w.

Definition failed (f : ReceiverFailure) : point := Returned (Err (ReceiverError f)).

(** A coordinated block: [body] runs under the lock. *)
Definition under_lock (d : ResultDeadline) (refused : ReceiverFailure -> point)
    (body : world -> point * world) (w : world) : point * world :=
  match coordinated d w with
  | (Some f, w) => (refused f, w)
  | (None, w) => body w
  end.

(** [ResultReceiver.__init__]: the pin of the new receiver. *)
Definition new_receiver (session : Budget.BudgetToken) (overhead_bytes : Z) (limits : ResultLimits)
    (d : ResultDeadline) (w : world) : res receiver_exn Budget.BudgetOutputToken * world :=
  match coordinated d w with
  | (Some f, w) => (Err (ReceiverError f), w)
  | (None, w) =>
      match Budget.begin_output write_image restore_image session (max_frame_bytes limits)
              overhead_bytes (book w) with
      | (Ok pin, l) => (Ok pin, with_book l w)
      | (Err _, l) => (Err (ReceiverError RECEIVER_BUDGET), with_book l w)
      end
  end.

(** ** [receive] *)

Definition receive_start : world -> point * world :=
  under_lock (own_deadline c) failed (fun w =>
    if negb (bool_decide (state (self w) = NEW)) then (failed RECEIVER_STATE, w)
    else let '(e, w) := begin_operation READING w in (ReceiveRead e, w)).

(** The channel's state after a transfer, with the readings it made. *)
Definition after_read (n : Transport.io) (w : world) : world :=
  {| self := self w; book := book w; events := events w; source_io := n; target_io := target_io w;
     reads := Transport.readings n; attempts := attempts w; transfers := S (transfers w) |}.

(** [_receive_captured], and the flag of its cleanup; a read that is still
    waiting leaves the thread where it is. *)
Definition receive_read (e : nat) (w : world) : point * world :=
  let '(r, n) := read_payload patience channel (expected c) (result_limits_ c) (own_deadline c)
                   (Transport.with_readings (reads w) (source_io w)) in
  match r with
  | Err (ChannelError Transport.Waiting) => (ReceiveRead e, w)
  | _ =>
      let heap := chain (transfers w) in
      let stopped := interrupted (transfers w) in
      let w := after_read n w in
      if stopped then
        (ReceiveEnd e None (Err Interrupt), with_self (with_uncertain true (self w)) w)
      else match r with
      | Ok v => (ReceiveSettle e (Some v) None, w)
      | Err x =>
          (ReceiveSettle e None (Some (category x)),
           with_self (with_uncertain (negb (clear_error (raised x heap) 0)) (self w)) w)
      end
  end.

(** The second block of [receive]. *)
Definition receive_settle (e : nat) (owner : option ValidatedResult) (failure : option ReceiverFailure)
    : world -> point * world :=
  under_lock (own_deadline c) (fun f => ReceiveEnd e owner (Err (ReceiverError f))) (fun w =>
    match failure, owner with
    | None, Some v => (ReceiveEnd e None (Ok Nothing), with_self (with_result v (self w)) w)
    | _, _ =>
        (ReceiveEnd e None
           (match failure with Some f => Err (ReceiverError f) | None => Ok Nothing end),
         with_self (with_state FAILED (self w)) w)
    end).

(** ** [send_to] *)

Definition send_start (d : ResultDeadline) : world -> point * world :=
  under_lock d failed (fun w =>
    let r := self w in
    if negb (bool_decide (state r = READY)) then (failed RECEIVER_STATE, w)
    else match owner r, summary r with
    | Some _, Some _ => let '(e, w) := begin_operation SENDING w in (SendWrite e d, w)
    | _, _ => (failed RECEIVER_STATE, w)
    end).

Definition after_write (n : D) (w : world) : world :=
  {| self := self w; book := book w; events := events w; source_io := source_io w; target_io := n;
     reads := Transport.clock_count n; attempts := attempts w; transfers := S (transfers w) |}.

(** [_send_captured] of [self._owner], whose absence is an [AttributeError]. *)
Definition send_captured (d : ResultDeadline) (w : world) : res payload_exn unit * D :=
  let s := Transport.set_clock (reads w) (target_io w) in
  match owner (self w) with
  | Some v => send_payload v d s
  | None => (Err Other, s)
  end.

Definition send_write (e : nat) (d : ResultDeadline) (w : world) : point * world :=
  let '(r, n) := send_captured d w in
  match r with
  | Err (ChannelError Transport.Waiting) => (SendWrite e d, w)
  | _ =>
      let heap := chain (transfers w) in
      let stopped := interrupted (transfers w) in
      let w := after_write n w in
      if stopped then
        (SendEnd e (Some Interrupt), with_self (with_uncertain true (self w)) w)
      else match r with
      | Ok _ => (SendSettle e d None, w)
      | Err x =>
          (SendSettle e d (Some (category x)),
           with_self (with_uncertain (negb (clear_error (raised x heap) 0)) (self w)) w)
      end
  end.

Definition send_settle (e : nat) (d : ResultDeadline) (failure : option ReceiverFailure)
    : world -> point * world :=
  under_lock d (fun f => SendEnd e (Some (ReceiverError f))) (fun w =>
    (SendEnd e (ReceiverError <$> failure),
     with_self (with_state (match failure with None => SENT | Some _ => FAILED end) (self w)) w)).

(** ** [close] and [status] *)

Definition close_start (d : ResultDeadline) : world -> point * world :=
  under_lock d failed (fun w =>
    let w := settle_locked w in
    let r := self w in
    match state r with
    | CLOSED => (Returned (Ok (Outcome Budget.ALREADY_CLEARED)), w)
    | READING | SENDING => (failed RECEIVER_STATE, w)
    | DISCARDING | HELD =>
        if negb (discarded r) then (failed RECEIVER_STATE, w) else (CloseDrop d None, w)
    | _ => (CloseDrop d (owner r), with_self (start_discarding r) w)
    end).

(** [del owner] and [self._discarded.set()]. *)
Definition close_drop (d : ResultDeadline) (w : world) : point * world :=
  (CloseEnd d, with_self (set_discarded (self w)) w).

Definition close_end (d : ResultDeadline) : world -> point * world :=
  under_lock d failed (fun w =>
    let r := self w in
    if bool_decide (state r = CLOSED) then (Returned (Ok (Outcome Budget.ALREADY_CLEARED)), w)
    else
      let '(a, l) := Budget.end_output write_image restore_image (pin c) (negb (uncertain r))
                       (drain r) (book w) in
      let w := with_book l w in
      match a with
      | Err _ => (failed RECEIVER_BUDGET, with_self (with_state HELD r) w)
      | Ok Budget.OUTPUT_HELD =>
          (Returned (Ok (Outcome Budget.OUTPUT_HELD)), with_self (with_state HELD r) w)
      | Ok o => (Returned (Ok (Outcome o)), with_self (with_state CLOSED r) w)
      end).

Definition status (d : ResultDeadline) : world -> point * world :=
  under_lock d failed (fun w =>
    let w := settle_locked w in (Returned (Ok (Status (state (self w)))), w)).

(** ** Threads *)

(** A thread's next step. *)
Definition advance (p : point) (w : world) : point * world :=
  match p with
  | ReceiveStart => receive_start w
  | ReceiveRead e => receive_read e w
  | ReceiveSettle e owner failure => receive_settle e owner failure w
  | ReceiveEnd e _ a => (Returned a, set_event e w)
  | SendStart d => send_start d w
  | SendWrite e d => send_write e d w
  | SendSettle e d failure => send_settle e d failure w
  | SendEnd e raised =>
      (Returned (match raised with Some x => Err x | None => Ok (Summary (summary (self w))) end),
       set_event e w)
  | CloseStart d => close_start d w
  | CloseDrop d _ => close_drop d w
  | CloseEnd d => close_end d w
  | StatusStart d => status d w
  | Returned a => (Returned a, w)
  end.

(** A call alone, to its end: no method has more than four points before it
    returns, and a thread that returned stays there. *)
Fixpoint run_points (fuel : nat) (p : point) (w : world) : point * world :=
  match fuel with
  | O => (p, w)
  | S fuel => let '(p, w) := advance p w in run_points fuel p w
  end.

Definition call_alone (p : point) (w : world) : point * world := run_points 4 p w.

Definition is_start (p : point) : bool :=
  match p with
  | ReceiveStart | SendStart _ | CloseStart _ | StatusStart _ => true
  | _ => false
  end.

(** One step of the whole: a thread calls a method, a thread advances, or
    other code calls the ledger, without this receiver's pin. *)
Inductive step : world * list point -> world * list point -> Prop :=
| step_call w ts p : is_start p = true -> step (w, ts) (w, ts ++ [p])
| step_advance w ts i p p' w' :
    ts !! i = Some p -> advance p w = (p', w') -> step (w, ts) (w', <[i := p']> ts)
| step_ledger w ts call :
    Budget.foreign (pin c) call ->
    step (w, ts) (with_book (Budget.after write_image restore_image call (book w)) w, ts).

Inductive reachable (s0 : world * list point) : world * list point -> Prop :=
| reachable_start : reachable s0 s0
| reachable_step s s' : reachable s0 s -> step s s' -> reachable s0 s'.

(** The state [__init__] leaves, with the pin it got. *)
Definition fresh : receiver :=
  {| state := NEW; owner := None; summary := None; operation_done := 0; uncertain := false;
     discarded := false; drain := true |}.
End receiver.

(** ** The invariant of the threads

    Stated over the fields that matter: the receiver, the ledger, the events. *)

Definition closing (x : ReceiverState) : bool :=
  match x with DISCARDING | HELD | CLOSED => true | _ => false end.

Definition busy_state (x : ReceiverState) : bool :=
  match x with READING | SENDING => true | _ => false end.

(** The event a thread has not set yet. *)
Definition completion (p : point) : option nat :=
  match p with
  | ReceiveRead e | ReceiveSettle e _ _ | ReceiveEnd e _ _ | SendWrite e _ | SendSettle e _ _
  | SendEnd e _ => Some e
  | _ => None
  end.

Definition dropping (p : point) : bool := match p with CloseDrop _ _ => true | _ => false end.

(** A thread that may still hold the payload or a buffer of it. *)
Definition holds (p : point) : bool :=
  match p with
  | ReceiveRead _ | ReceiveSettle _ (Some _) _ | ReceiveEnd _ (Some _) _ | SendWrite _ _
  | CloseDrop _ (Some _) => true
  | _ => false
  end.

Section invariant.
Context {D : Type} `{C : Transport.SendChannel D}.
Context (write_image : nat -> Budget.write_result) (restore_image : nat -> bool).
Context (patience : nat) (channel : Transport.RawChannel).
Context (lock_free : nat -> bool) (interrupted : nat -> bool) (chain : nat -> nat -> exn_object).
Context (c : settings).

Abbreviation next :=
  (advance write_image restore_image patience channel lock_free interrupted chain c).

(** The operation of event [e] is the current one, in state [x]. *)
Definition current (r : receiver) (ev : list bool) (e : nat) (x : ReceiverState) : Prop :=
  ev !! e = Some false /\ operation_done r = e /\ state r = x.

Definition thread_ok (r : receiver) (ev : list bool) (p : point) : Prop :=
  match p with
  | ReceiveRead e | ReceiveSettle e _ _ | ReceiveEnd e (Some _) _ => current r ev e READING
  | SendWrite e _ | SendSettle e _ _ => current r ev e SENDING
  | ReceiveEnd e None _ | SendEnd e _ => ev !! e = Some false
  | CloseDrop _ (Some _) => discarded r = false /\ state r = DISCARDING
  | CloseDrop _ None => closing (state r) = true
  | CloseEnd _ => discarded r = true /\ closing (state r) = true
  | _ => True
  end.

(** No two threads share an event; only one drops the payload first. *)
Definition apart (r : receiver) (p q : point) : Prop :=
  (forall e, completion p = Some e -> completion q = Some e -> False) /\
  (dropping p = true -> dropping q = true -> discarded r = true).

Definition shared_ok (r : receiver) (l : Budget.ledger) : Prop :=
  (closing (state r) = false -> discarded r = false) /\
  (closing (state r) = true -> owner r = None) /\
  (closing (state r) = true -> discarded r = false -> state r = DISCARDING) /\
  (discarded r = false \/ uncertain r = true -> Budget.pinned (pin c) l).

(** What a step of one thread owes the invariant and the other threads. *)
Definition keeps (w : world D) (p : point) (x : point * world D) : Prop :=
  shared_ok (self x.2) (book x.2) /\ thread_ok (self x.2) (events x.2) x.1 /\
  (forall q, thread_ok (self w) (events w) q -> apart (self w) p q ->
     thread_ok (self x.2) (events x.2) q /\ apart (self x.2) x.1 q) /\
  (discarded (self w) = true -> discarded (self x.2) = true).

(** Only counters and channels differ. *)
Definition core (w w' : world D) : Prop :=
  self w' = self w /\ book w' = book w /\ events w' = events w.

Lemma under_lock_ind d refused body w (P : point * world D -> Prop) :
  (forall f w', core w w' -> P (refused f, w')) -> (forall w', core w w' -> P (body w')) ->
  P (under_lock lock_free d refused body w).
Proof.
  intros H1 H2. unfold under_lock, coordinated.
  destruct (remaining d (reads w) <=? 0); [apply H1; repeat split|].
  destruct (lock_free (attempts w)); [apply H2|apply H1]; repeat split.
Qed.

(** A step that changes nothing the invariant reads, to a point that waits
    for no more than the last one did. *)
Lemma keeps_still w w' p p' :
  core w w' -> shared_ok (self w) (book w) -> thread_ok (self w) (events w) p' ->
  (forall e, completion p' = Some e -> completion p = Some e) ->
  (dropping p' = true -> dropping p = true \/ discarded (self w) = true) ->
  keeps w p (p', w').
Proof.
  intros (E1 & E2 & E3) Hs Ht Hc Hd. unfold keeps. cbn [fst snd]. rewrite E1, E2, E3.
  split; [exact Hs|]. split; [exact Ht|]. split; [|auto].
  intros q Hq [A1 A2]. split; [exact Hq|]. split.
  - intros e H1 H2. exact (A1 e (Hc e H1) H2).
  - intros H1 H2. destruct (Hd H1); auto.
Qed.

Lemma keeps_core w w' p x : core w w' -> keeps w' p x -> keeps w p x.
Proof. intros (E1 & E2 & E3). unfold keeps. rewrite E1, E3. exact id. Qed.

(** A change of state by the current operation, which ends it. *)
Lemma keeps_own w p p' r' e x :
  shared_ok (self w) (book w) -> current (self w) (events w) e x ->
  completion p = Some e -> closing x = false ->
  closing (state r') = false -> discarded r' = discarded (self w) ->
  operation_done r' = operation_done (self w) ->
  thread_ok r' (events w) p' -> completion p' = Some e -> dropping p' = false ->
  keeps w p (p', with_self r' w).
Proof.
  intros (S1 & S2 & S3 & S4) (C1 & C2 & C3) Hp Hx Hc Hd Ho Ht Hp' Hdr. unfold keeps. cbn.
  assert (Hf : discarded (self w) = false) by (apply S1; congruence).
  split; [|split; [exact Ht|split; [|congruence]]].
  - split; [congruence|]. split; [congruence|]. split; [congruence|]. intros _. apply S4. left. exact Hf.
  - intros q Hq [A1 A2]. split; [|split; [intros e' H1 H2; apply (A1 e'); congruence|congruence]].
    assert (N : completion q <> Some e) by (intros E; exact (A1 e Hp E)).
    assert (Hs : closing (state (self w)) = false) by congruence.
    unfold thread_ok, current in *.
    destruct q as [|e'|e' o f|e' [v|] a| |e' d|e' d f|e' a| |d [v|]| | |]; cbn [completion] in N; auto;
      try (destruct Hq as (_ & ? & _); congruence).
    + destruct Hq as [_ H2]. rewrite H2 in Hs. discriminate.
    + congruence.
    + destruct Hq. congruence.
Qed.

Lemma closing_no_current r ev e x : current r ev e x -> closing x = false -> closing (state r) = false.
Proof. intros (_ & _ & ->). auto. Qed.

(** A new operation takes a new event. *)
Lemma keeps_begin w p p' x :
  shared_ok (self w) (book w) -> completion p = None -> dropping p = false ->
  closing (state (self w)) = false -> busy_state (state (self w)) = false ->
  busy_state x = true ->
  (forall e, completion (p' e) = Some e /\ dropping (p' e) = false) ->
  (forall r ev e, current r ev e x -> thread_ok r ev (p' e)) ->
  keeps w p (let '(e, w) := begin_operation x w in (p' e, w)).
Proof.
  intros (S1 & S2 & S3 & S4) _ _ Hc Hb Hx Hp Ht. unfold keeps. cbn.
  set (e := length (events w)). assert (Hf : discarded (self w) = false) by auto.
  assert (Hx' : closing x = false) by (destruct x; try discriminate; reflexivity).
  assert (New : (events w ++ [false]) !! e = Some false)
    by (unfold e; rewrite lookup_app_r, Nat.sub_diag by lia; reflexivity).
  assert (Old : forall k, events w !! k = Some false -> (events w ++ [false]) !! k = Some false /\ k <> e).
  { intros k Hk. pose proof (lookup_lt_Some _ _ _ Hk). rewrite lookup_app_l by assumption.
    split; [exact Hk|unfold e; lia]. }
  split; [|split; [apply Ht; repeat split; exact New|split; [|congruence]]].
  - split; [auto|]. split; [cbn; congruence|]. split; [cbn; congruence|]. intros _. apply S4. left. exact Hf.
  - intros q Hq _. assert (Q : thread_ok (with_operation x e (self w)) (events w ++ [false]) q /\
      completion q <> Some e).
    { unfold thread_ok, current in *. cbn [with_operation state operation_done discarded].
      destruct q as [|e'|e' o f|e' [v|] a| |e' d|e' d f|e' a| |d [v|]| | |]; cbn [completion];
        try (split; [exact I|discriminate]);
        try (destruct Hq as (_ & _ & Hq); rewrite Hq in Hb; discriminate);
        try (destruct (Old _ Hq); split; [assumption|congruence]).
      - destruct Hq as [_ H2]. rewrite H2 in Hc. discriminate.
      - congruence.
      - destruct Hq. congruence. }
    destruct Q as [Q1 Q2]. split; [exact Q1|]. destruct (Hp e) as [Hp1 Hp2].
    split; [intros e' H1 H2; congruence|congruence].
Qed.

(** [_settle_locked] is the end of an operation whose thread is gone. *)
Lemma settle_keeps (w : world D) :
  shared_ok (self w) (book w) ->
  shared_ok (self (settle_locked w)) (book w) /\
  (forall q, thread_ok (self w) (events w) q -> thread_ok (self (settle_locked w)) (events w) q) /\
  discarded (self (settle_locked w)) = discarded (self w) /\
  book (settle_locked w) = book w /\ events (settle_locked w) = events w /\
  closing (state (self (settle_locked w))) = closing (state (self w)).
Proof.
  intros S. unfold settle_locked. destruct (_ && _) eqn:B; [|auto 10].
  apply andb_true_iff in B as [B1 B2]. destruct S as (S1 & S2 & S3 & S4).
  assert (Hc : closing (state (self w)) = false).
  { apply orb_true_iff in B1 as [B1|B1]; apply bool_decide_eq_true in B1; rewrite B1; reflexivity. }
  assert (Hf : discarded (self w) = false) by auto.
  split; [split; [auto|]; split; [cbn; discriminate|]; split; [cbn; discriminate|]; intros _; apply S4; auto|].
  split; [|cbn; rewrite Hc; auto]. intros q Hq. unfold thread_ok, current in *. cbn.
  assert (N : events w !! operation_done (self w) = Some false -> False)
    by (intros E; rewrite E in B2; discriminate).
  destruct q as [|e'|e' o f|e' [v|] a| |e' d|e' d f|e' a| |d [v|]| | |]; auto;
    try (destruct Hq as (H1 & H2 & _); subst; destruct (N H1)).
  - destruct Hq as [_ H2]. rewrite H2 in Hc. discriminate.
  - congruence.
  - destruct Hq. congruence.
Qed.

Lemma keeps_settled (w : world D) p x :
  shared_ok (self w) (book w) -> keeps (settle_locked w) p x -> keeps w p x.
Proof.
  intros S (K1 & K2 & K3 & K4). destruct (settle_keeps w S) as (S' & Q & E1 & E2 & E3 & _).
  split; [exact K1|]. split; [exact K2|]. split; [|rewrite <- E1; exact K4].
  intros q Hq A. apply K3; [rewrite E3; apply Q, Hq|]. destruct A as [A1 A2]. split; [exact A1|].
  rewrite E1. exact A2.
Qed.

(** The end of an operation sets an event no other thread waits for. *)
Lemma keeps_set w p a e :
  shared_ok (self w) (book w) -> completion p = Some e -> keeps w p (Returned a, set_event e w).
Proof.
  intros S Hp. unfold keeps. cbn. split; [exact S|]. split; [exact I|]. split; [|auto].
  intros q Hq [A1 A2]. split; [|split; [discriminate|discriminate]].
  assert (N : forall k, events w !! k = Some false -> completion q = Some k ->
    <[e := true]> (events w) !! k = Some false).
  { intros k Hk Hc. rewrite list_lookup_insert_ne; [exact Hk|]. intros ->. exact (A1 k Hp Hc). }
  unfold thread_ok, current in *. destruct q as [|e'|e' o f|e' [v|] b| |e' d|e' d f|e' b| |d [v|]| | |]; auto;
    try (destruct Hq as (H1 & H2 & H3); split; [apply N; auto|auto]).
Qed.

Lemma busy_idle r ev e x : current r ev e x -> busy_state x = true -> busy_state (state r) = false -> False.
Proof. intros (_ & _ & ->). congruence. Qed.

(** The first close takes the payload away. *)
Lemma keeps_discard w d :
  shared_ok (self w) (book w) -> closing (state (self w)) = false -> busy_state (state (self w)) = false ->
  keeps w (CloseStart d) (CloseDrop d (owner (self w)), with_self (start_discarding (self w)) w).
Proof.
  intros (S1 & S2 & S3 & S4) Hc Hb. assert (Hf : discarded (self w) = false) by auto.
  unfold keeps. cbn. split; [|split; [destruct (owner (self w)); [split; [exact Hf|]|]; reflexivity|split; [|auto]]].
  - split; [discriminate|]. split; [reflexivity|]. split; [reflexivity|]. intros _. apply S4. auto.
  - intros q Hq _. assert (Q : dropping q = false /\ thread_ok (start_discarding (self w)) (events w) q).
    { unfold thread_ok in *. destruct q as [|e'|e' o f|e' [v|] b| |e' d'|e' d' f|e' b| |d' [v|]| | |]; cbn;
        try (split; [reflexivity|]); auto; try (exfalso; eapply busy_idle; [exact Hq|reflexivity|exact Hb]).
      - destruct Hq as [_ H2]. rewrite H2 in Hc. discriminate.
      - congruence.
      - destruct Hq. congruence. }
    destruct Q as [Q1 Q2]. split; [exact Q2|]. split; [discriminate|congruence].
Qed.

Lemma keeps_drop w d o :
  shared_ok (self w) (book w) -> thread_ok (self w) (events w) (CloseDrop d o) ->
  keeps w (CloseDrop d o) (close_drop d w).
Proof.
  intros (S1 & S2 & S3 & S4) Ht.
  assert (Hc : closing (state (self w)) = true).
  { destruct o; cbn in Ht; [destruct Ht as [_ ->]; reflexivity|exact Ht]. }
  unfold keeps, close_drop. cbn. split; [|split; [auto|split; [|auto]]].
  - split; [cbn; congruence|]. split; [exact S2|]. split; [discriminate|]. intros [[=]|U]. apply S4. auto.
  - intros q Hq [A1 A2]. split; [|split; discriminate].
    unfold thread_ok, current in *. destruct q as [|e'|e' o' f|e' [v|] b| |e' d'|e' d' f|e' b| |d' [v|]| | |]; auto;
      specialize (A2 eq_refl eq_refl); destruct Hq; congruence.
Qed.

Lemma foreign_undiscarded l drain :
  Budget.pinned (pin c) l ->
  Budget.pinned (pin c) (Budget.end_output write_image restore_image (pin c) false drain l).2.
Proof.
  intros P. apply (Budget.after_pinned write_image restore_image (pin c) (Budget.EndOutput (pin c) false drain) l P).
  intros x [=].
Qed.

(** The end of a close: the ledger's answer, and a state that stays closing. *)
Lemma keeps_end_output w d a x l :
  shared_ok (self w) (book w) -> thread_ok (self w) (events w) (CloseEnd d) -> closing x = true ->
  l = (Budget.end_output write_image restore_image (pin c) (negb (uncertain (self w)))
         (drain (self w)) (book w)).2 ->
  keeps w (CloseEnd d) (Returned a, with_self (with_state x (self w)) (with_book l w)).
Proof.
  intros (S1 & S2 & S3 & S4) [Ht Hc] Hx ->. unfold keeps. cbn. split; [|split; [exact I|split; [|auto]]].
  - split; [cbn; congruence|]. split; [cbn; auto|]. split; [cbn; congruence|].
    cbn. intros [H|U]; [congruence|].
    rewrite U. apply foreign_undiscarded, S4. auto.
  - intros q Hq _. split; [|split; discriminate].
    unfold thread_ok, current in *. destruct q as [|e'|e' o' f|e' [v|] b| |e' d'|e' d' f|e' b| |d' [v|]| | |]; auto;
      try (destruct Hq as (_ & _ & Hq); rewrite Hq in Hc; discriminate).
    destruct Hq. congruence.
Qed.

Lemma core_refl (w : world D) : core w w.
Proof. repeat split. Qed.

Lemma current_event r ev e x : current r ev e x -> ev !! e = Some false.
Proof. intros H. apply H. Qed.

Ltac still := apply keeps_still; [solve [repeat split]|assumption|..]; cbn; try discriminate; auto.

(** Enter a coordinated block, or leave at once. *)
Ltac enter S :=
  apply under_lock_ind; [intros f' w' Hcore; apply keeps_still; auto; try discriminate; try exact I|
    intros w' Hcore; eapply keeps_core; [exact Hcore|]; destruct Hcore as (E1 & E2 & E3);
    rewrite <- E1, <- E2 in S].

Lemma receive_read_keeps w e :
  shared_ok (self w) (book w) -> thread_ok (self w) (events w) (ReceiveRead e) ->
  keeps w (ReceiveRead e) (receive_read patience channel interrupted chain c e w).
Proof.
  intros S T. unfold receive_read. destruct (read_payload _ _ _ _ _ _) as [r n].
  assert (K : core w (after_read n w)) by (repeat split).
  assert (O : forall b p', completion p' = Some e -> dropping p' = false ->
    thread_ok (with_uncertain b (self w)) (events w) p' ->
    keeps w (ReceiveRead e) (p', with_self (with_uncertain b (self (after_read n w))) (after_read n w))).
  { intros b p' H1 H2 H3. eapply keeps_core; [exact K|]. pose proof T as (_ & _ & X).
    eapply keeps_own; [exact S|exact T|reflexivity|reflexivity|cbn; rewrite X; reflexivity|reflexivity|
      reflexivity|exact H3|exact H1|exact H2]. }
  assert (Go : keeps w (ReceiveRead e)
    (if interrupted (transfers w)
     then (ReceiveEnd e None (Err Interrupt),
           with_self (with_uncertain true (self (after_read n w))) (after_read n w))
     else match r with
          | Ok v => (ReceiveSettle e (Some v) None, after_read n w)
          | Err x => (ReceiveSettle e None (Some (category x)),
             with_self (with_uncertain (negb (clear_error (raised x (chain (transfers w))) 0))
                          (self (after_read n w))) (after_read n w))
          end)).
  { destruct (interrupted (transfers w)).
    - apply O; [reflexivity|reflexivity|]. exact (current_event _ _ _ _ T).
    - destruct r as [v|x]; [still|apply O; [reflexivity|reflexivity|exact T]]. }
  destruct r as [v|[x|[k u|]|]]; try exact Go. still.
Qed.

Lemma send_write_keeps w e d :
  shared_ok (self w) (book w) -> thread_ok (self w) (events w) (SendWrite e d) ->
  keeps w (SendWrite e d) (send_write interrupted chain e d w).
Proof.
  intros S T. unfold send_write. destruct (send_captured d w) as [r n].
  assert (K : core w (after_write n w)) by (repeat split).
  assert (O : forall b p', completion p' = Some e -> dropping p' = false ->
    thread_ok (with_uncertain b (self w)) (events w) p' ->
    keeps w (SendWrite e d) (p', with_self (with_uncertain b (self (after_write n w))) (after_write n w))).
  { intros b p' H1 H2 H3. eapply keeps_core; [exact K|]. pose proof T as (_ & _ & X).
    eapply keeps_own; [exact S|exact T|reflexivity|reflexivity|cbn; rewrite X; reflexivity|reflexivity|
      reflexivity|exact H3|exact H1|exact H2]. }
  assert (Go : keeps w (SendWrite e d)
    (if interrupted (transfers w)
     then (SendEnd e (Some Interrupt),
           with_self (with_uncertain true (self (after_write n w))) (after_write n w))
     else match r with
          | Ok _ => (SendSettle e d None, after_write n w)
          | Err x => (SendSettle e d (Some (category x)),
             with_self (with_uncertain (negb (clear_error (raised x (chain (transfers w))) 0))
                          (self (after_write n w))) (after_write n w))
          end)).
  { destruct (interrupted (transfers w)).
    - apply O; [reflexivity|reflexivity|]. exact (current_event _ _ _ _ T).
    - destruct r as [v|x]; [still|apply O; [reflexivity|reflexivity|exact T]]. }
  destruct r as [v|[x|[k u|]|]]; try exact Go. still.
Qed.

Lemma settle_ends_keeps w e x p p' r' :
  shared_ok (self w) (book w) -> current (self w) (events w) e x -> closing x = false ->
  completion p = Some e -> completion p' = Some e -> dropping p' = false ->
  closing (state r') = false -> discarded r' = discarded (self w) ->
  operation_done r' = operation_done (self w) -> thread_ok r' (events w) p' ->
  keeps w p (p', with_self r' w).
Proof. intros. eapply keeps_own; eassumption. Qed.

Lemma receive_settle_keeps w e o f :
  shared_ok (self w) (book w) -> thread_ok (self w) (events w) (ReceiveSettle e o f) ->
  keeps w (ReceiveSettle e o f) (receive_settle lock_free c e o f w).
Proof.
  intros S T. unfold receive_settle. enter S.
  { destruct o; cbn; [exact T|exact (current_event _ _ _ _ T)]. }
  cbn in T. rewrite <- E1, <- E3 in T. pose proof (current_event _ _ _ _ T) as Te.
  destruct f as [f|], o as [v|]; (eapply keeps_own; [exact S|exact T|reflexivity..|exact Te|reflexivity|reflexivity]).
Qed.

Lemma send_settle_keeps w e d f :
  shared_ok (self w) (book w) -> thread_ok (self w) (events w) (SendSettle e d f) ->
  keeps w (SendSettle e d f) (send_settle lock_free e d f w).
Proof.
  intros S T. unfold send_settle. enter S; [exact (current_event _ _ _ _ T)|].
  cbn in T. rewrite <- E1, <- E3 in T. pose proof (current_event _ _ _ _ T) as Te.
  destruct f as [f|]; (eapply keeps_own; [exact S|exact T|reflexivity..|exact Te|reflexivity|reflexivity]).
Qed.

Lemma close_start_keeps w d :
  shared_ok (self w) (book w) -> keeps w (CloseStart d) (close_start lock_free d w).
Proof.
  intros S. unfold close_start. enter S. apply keeps_settled; [exact S|].
  pose proof (settle_keeps _ S) as (S' & _ & _ & E & _). rewrite <- E in S'.
  set (ws := settle_locked w') in *. destruct (state (self ws)) eqn:X; try still;
    try (apply keeps_discard; [exact S'|rewrite X; reflexivity..]).
  all: destruct (discarded (self ws)) eqn:Y; cbn [negb]; still; rewrite X; reflexivity.
Qed.

Lemma close_end_keeps w d :
  shared_ok (self w) (book w) -> thread_ok (self w) (events w) (CloseEnd d) ->
  keeps w (CloseEnd d) (close_end write_image restore_image lock_free c d w).
Proof.
  intros S T. unfold close_end. enter S.
  cbn in T. rewrite <- E1 in T. cbv zeta.
  destruct (bool_decide (state (self w') = CLOSED)); [still|].
  destruct (Budget.end_output _ _ _ _ _ _) as [a l] eqn:EO.
  assert (El : l = (Budget.end_output write_image restore_image (pin c) (negb (uncertain (self w')))
                      (drain (self w')) (book w')).2) by (rewrite EO; reflexivity).
  destruct a as [[]|]; (eapply keeps_end_output; [exact S|exact T|reflexivity|exact El]).
Qed.

(** Every step of a thread keeps the invariant. *)
Lemma advance_keeps w p :
  shared_ok (self w) (book w) -> thread_ok (self w) (events w) p -> keeps w p (next p w).
Proof.
  intros S T. destruct p as [|e|e o f|e o a|d|e d|e d f|e x|d|d o|d|d|a]; cbn [advance].
  - unfold receive_start. enter S.
    destruct (bool_decide_reflect (state (self w') = NEW)) as [N|N]; cbn [negb]; [|still].
    apply keeps_begin; auto; rewrite N; reflexivity.
  - apply receive_read_keeps; assumption.
  - apply receive_settle_keeps; assumption.
  - apply keeps_set; [exact S|reflexivity].
  - unfold send_start. enter S. cbv zeta.
    destruct (bool_decide_reflect (state (self w') = READY)) as [N|N]; cbn [negb]; [|still].
    destruct (owner (self w')), (summary (self w')); try still.
    apply (keeps_begin w' (SendStart d) (fun e => SendWrite e d)); auto; rewrite N; reflexivity.
  - apply send_write_keeps; assumption.
  - apply send_settle_keeps; assumption.
  - apply keeps_set; [exact S|reflexivity].
  - apply close_start_keeps; assumption.
  - apply keeps_drop; assumption.
  - apply close_end_keeps; assumption.
  - unfold status. enter S. apply keeps_settled; [exact S|].
    pose proof (settle_keeps _ S) as (S' & _ & _ & E & _). rewrite <- E in S'. still.
  - still.
Qed.
End invariant.

Section system.
Context {D : Type} `{C : Transport.SendChannel D}.
Context (write_image : nat -> Budget.write_result) (restore_image : nat -> bool).
Context (patience : nat) (channel : Transport.RawChannel).
Context (lock_free : nat -> bool) (interrupted : nat -> bool) (chain : nat -> nat -> exn_object).
Context (c : settings).

Abbreviation next :=
  (advance write_image restore_image patience channel lock_free interrupted chain c).
Abbreviation reaches :=
  (reachable write_image restore_image patience channel lock_free interrupted chain c).

Definition system_ok (s : world D * list point) : Prop :=
  shared_ok c (self s.1) (book s.1) /\
  (forall i p, s.2 !! i = Some p -> thread_ok (self s.1) (events s.1) p) /\
  (forall i j p q, s.2 !! i = Some p -> s.2 !! j = Some q -> i <> j -> apart (self s.1) p q).

Lemma apart_sym r p q : apart r p q -> apart r q p.
Proof. intros [A B]. split; [intros e H1 H2; exact (A e H2 H1)|auto]. Qed.

Lemma start_apart r p q : is_start p = true -> apart r p q.
Proof. destruct p; try discriminate; intros _; split; discriminate. Qed.

Lemma start_ok r ev p : is_start p = true -> thread_ok r ev p.
Proof. destruct p; try discriminate; intros _; exact I. Qed.

(** A list with one point more, or one replaced. *)
Lemma lookup_snoc {A} (l : list A) x i y : (l ++ [x]) !! i = Some y -> y = x /\ i = length l \/ l !! i = Some y.
Proof.
  intros H. apply lookup_app_Some in H as [H|[L H]]; [auto|]. left.
  destruct (i - length l)%nat eqn:E; [|discriminate]. injection H as ->. split; [reflexivity|lia].
Qed.

Lemma lookup_set {A} (l : list A) i x j y :
  <[i := x]> l !! j = Some y -> (i = j /\ y = x) \/ (i <> j /\ l !! j = Some y).
Proof.
  intros H. destruct (decide (i = j)) as [->|N].
  - left. split; [reflexivity|]. rewrite list_lookup_insert_eq in H; [congruence|].
    apply lookup_lt_Some in H. rewrite length_insert in H. exact H.
  - right. rewrite list_lookup_insert_ne in H by exact N. auto.
Qed.

Lemma system_step s s' :
  step write_image restore_image patience channel lock_free interrupted chain c s s' ->
  system_ok s -> system_ok s'.
Proof.
  intros St (S & T & A). destruct St as [w ts p Hp|w ts i p p' w' Hi Ha|w ts call Hf]; cbn [fst snd] in *.
  - split; [exact S|]. split.
    + intros i q H. apply lookup_snoc in H as [[-> _]|H]; [apply start_ok, Hp|eauto].
    + intros i j q1 q2 H1 H2 N. apply lookup_snoc in H1 as [[-> ->]|H1]; [apply start_apart, Hp|].
      apply lookup_snoc in H2 as [[-> ->]|H2]; [apply apart_sym, start_apart, Hp|eauto].
  - pose proof (advance_keeps write_image restore_image patience channel lock_free interrupted chain c
      w p S (T i p Hi)) as (K1 & K2 & K3 & K4). rewrite Ha in *. cbn [fst snd] in *.
    assert (O : forall j q, j <> i -> ts !! j = Some q ->
      thread_ok (self w') (events w') q /\ apart (self w') p' q).
    { intros j q N H. apply K3; [eauto|]. apply (A i j); auto. }
    split; [exact K1|]. split.
    + intros j q H. apply lookup_set in H as [[-> ->]|[N H]]; [exact K2|]. apply (O j); auto.
    + intros j k q1 q2 H1 H2 N.
      apply lookup_set in H1 as [[-> ->]|[N1 H1]]; apply lookup_set in H2 as [[-> ->]|[N2 H2]]; [congruence| | |].
      * apply (O k); auto.
      * apply apart_sym, (O j); auto.
      * destruct (A j k q1 q2 H1 H2 N) as [B1 B2]. split; [exact B1|auto].
  - split; [|split; [exact T|exact A]]. destruct S as (S1 & S2 & S3 & S4).
    split; [exact S1|]. split; [exact S2|]. split; [exact S3|]. intros H.
    apply Budget.after_pinned; auto.
Qed.

Lemma system_reachable s s' : reaches s s' -> system_ok s -> system_ok s'.
Proof. induction 1; intros H'; [exact H'|]. eapply system_step; eauto. Qed.

(** What [__init__] leaves. *)
Definition created (session : Budget.BudgetToken) (overhead : Z) (before w : world D) : Prop :=
  self before = fresh /\ events before = [false] /\
  new_receiver write_image restore_image lock_free session overhead (result_limits_ c) (own_deadline c)
    before = (Ok (pin c), w).

Lemma created_facts session overhead before w :
  created session overhead before w ->
  self w = fresh /\ events w = [false] /\ Budget.pinned (pin c) (book w) /\
  source_io w = source_io before /\ target_io w = target_io before.
Proof.
  intros (F & E & N). unfold new_receiver, coordinated in N.
  destruct (remaining _ _ <=? 0); [discriminate|]. destruct (lock_free _); [|discriminate].
  destruct (Budget.begin_output _ _ _ _ _ _) as [[q|e] l] eqn:B; injection N as N1 N2; [|discriminate].
  rewrite <- N2. cbn. rewrite F, E. split; [reflexivity|]. split; [reflexivity|]. split; [|auto].
  rewrite N1 in B. exact (Budget.begin_output_pins _ _ _ _ _ _ _ _ B).
Qed.

Lemma created_ok session overhead before w : created session overhead before w -> system_ok (w, []).
Proof.
  intros H. apply created_facts in H as (F & E & P & _). unfold system_ok. cbn [fst snd]. rewrite F.
  split; [|split; intros; discriminate]. split; [reflexivity|]. split; [reflexivity|].
  split; [discriminate|]. intros _. exact P.
Qed.
End system.

(** ** What the client is given *)

(** The bytes of a frame after its private header. *)
Definition payload_of (v : ValidatedResult) : list byte := slice HEADER_BYTES (blen (wire v)) (wire v).

Definition summary_of (v : ValidatedResult) : ResultSummary :=
  {| s_columns := v_columns v; s_rows := v_rows v; s_truncated := v_truncated v |}.

Section delivery.
Context {D : Type} `{C : Transport.SendChannel D} {CL : Transport.SendChannelLaws C}.

Lemma runs_piece piece d s : runs (send_piece piece d) (fun r s' =>
  exists p rest, piece = p ++ rest /\ Transport.accepted s' = Transport.accepted s ++ p /\
    (r = Ok tt -> rest = [])) s.
Proof.
  pose proof (Transport.send_delivers piece (channel_deadline d) s) as R.
  unfold runs, send_piece in *. destruct (Transport.channel_send _ _ s) as [[[]|e] s1]; cbn in *.
  - destruct R as (p & rest & H1 & H2 & H3).
    exists p, rest. split; [exact H1|]. split; [exact H2|]. intros _. apply H3. reflexivity.
  - destruct R as (p & rest & H1 & H2 & _). exists p, rest. split; [exact H1|]. split; [exact H2|discriminate].
Qed.

Lemma runs_chunk d (Q : res payload_exn unit -> D -> Prop) s :
  (forall n, Q (Ok tt) (Transport.set_clock n s)) ->
  (forall n, Q (Err (FrameError RESULT_DEADLINE)) (Transport.set_clock n s)) ->
  runs (check_chunk d) Q s.
Proof. intros H1 H2. unfold runs, check_chunk. cbn. destruct (_ <=? 0); auto. Qed.

(** The chunks from offset [o] on, of which there are [m]. *)
Lemma runs_chunks v d m o s :
  0 <= o <= blen (wire v) -> blen (wire v) <= o + MAX_CHUNK * Z.of_nat m ->
  o + MAX_CHUNK * (Z.of_nat m - 1) < blen (wire v) \/ m = O ->
  runs (send_chunks v d (map (fun k => o + MAX_CHUNK * Z.of_nat k) (seq 0 m))) (fun r s' =>
    exists p rest, slice o (blen (wire v)) (wire v) = p ++ rest /\
      Transport.accepted s' = Transport.accepted s ++ p /\ (r = Ok tt -> rest = [])) s.
Proof.
  assert (Hc : MAX_CHUNK = 65536) by reflexivity.
  revert o s; induction m as [|m IH]; intros o s Ho Hm Hl; cbn [seq map send_chunks].
  - apply runs_bind, runs_chunk; intros n.
    + apply runs_ret. exists [], []. assert (o = blen (wire v)) as -> by lia.
      rewrite slice_empty, Transport.accepted_clock, !app_nil_r. auto.
    + eexists [], _. split; [reflexivity|]. rewrite Transport.accepted_clock, app_nil_r. split; [reflexivity|discriminate].
  - destruct Hl as [Hl|[=]]. replace (o + MAX_CHUNK * Z.of_nat 0) with o by lia.
    apply runs_bind, runs_chunk; intros n.
    2:{ eexists [], _. split; [reflexivity|]. rewrite Transport.accepted_clock, app_nil_r. split; [reflexivity|discriminate]. }
    set (e := Z.min (o + MAX_CHUNK) (blen (wire v))).
    assert (Hs : slice o (blen (wire v)) (wire v) = slice o e (wire v) ++ slice e (blen (wire v)) (wire v))
      by (apply slice_split; lia).
    assert (Eo : m <> O -> e = o + MAX_CHUNK) by (intros; unfold e; nia).
    assert (Em : map (fun k => o + MAX_CHUNK * Z.of_nat k) (seq 1 m) =
                 map (fun k => e + MAX_CHUNK * Z.of_nat k) (seq 0 m)).
    { destruct m as [|m]; [reflexivity|]. rewrite Eo by lia. rewrite <- seq_shift, map_map. apply map_ext. intros k. lia. }
    apply runs_bind. eapply runs_mono; [apply runs_piece|]. cbn beta. intros [[]|x] s1 (p & rest & P1 & P2 & P3);
      rewrite Transport.accepted_clock in P2.
    + rewrite Em. specialize (P3 eq_refl). subst rest. rewrite app_nil_r in P1.
      eapply runs_mono; [apply IH|].
      * unfold e. lia.
      * destruct m; [unfold e; lia|rewrite Eo by lia; lia].
      * destruct m; [right; reflexivity|left; rewrite Eo by lia; lia].
      * cbn beta. intros r s2 (q & rest & Q1 & Q2 & Q3). exists (p ++ q), rest.
        rewrite Hs, Q1, P1, Q2, P2, !app_assoc. auto.
    + exists p, (rest ++ slice e (blen (wire v)) (wire v)). rewrite Hs, P1, app_assoc.
      split; [reflexivity|]. split; [exact P2|discriminate].
Qed.

(** A send gives the client the payload, or a prefix and an error. *)
Lemma runs_send_payload v d s :
  HEADER_BYTES <= blen (wire v) ->
  runs (send_payload v d) (fun r s' => exists p rest, payload_of v = p ++ rest /\
    Transport.accepted s' = Transport.accepted s ++ p /\ (r = Ok tt -> rest = [])) s.
Proof.
  intros Hw. unfold send_payload, py_range, payload_of.
  assert (Hc : MAX_CHUNK = 65536) by reflexivity. assert (Hh : HEADER_BYTES = 76) by reflexivity.
  set (size := blen (wire v)) in *.
  pose proof (Z.div_mod (size - HEADER_BYTES + MAX_CHUNK - 1) MAX_CHUNK ltac:(lia)).
  pose proof (Z.mod_pos_bound (size - HEADER_BYTES + MAX_CHUNK - 1) MAX_CHUNK ltac:(lia)).
  set (q := (size - HEADER_BYTES + MAX_CHUNK - 1) / MAX_CHUNK) in *.
  assert (0 <= q) by (apply Z.div_pos; lia).
  apply runs_chunks; [fold size; lia|fold size; nia|].
  destruct (Z.eq_dec q 0); [right; lia|left]. rewrite Z2Nat.id by lia. fold size. nia.
Qed.
End delivery.

Definition past (x : ReceiverState) : bool :=
  match x with SENT | DISCARDING | HELD | CLOSED => true | _ => false end.

Section told.
Context {D : Type} `{C : Transport.SendChannel D} {CL : Transport.SendChannelLaws C}.
Context (write_image : nat -> Budget.write_result) (restore_image : nat -> bool).
Context (patience : nat) (channel : Transport.RawChannel).
Context (lock_free : nat -> bool) (interrupted : nat -> bool) (chain : nat -> nat -> exn_object).
Context (c : settings) (a0 : list byte).
Context (Hid : result_identity (expected c) = Ok (expected c)).
Context (Hlim : result_limits (result_limits_ c) = Ok (result_limits_ c)).

Abbreviation next :=
  (advance write_image restore_image patience channel lock_free interrupted chain c).

(** A result of the grammar, for this receiver's identity and limits. *)
Definition genuine (v : ValidatedResult) : Prop :=
  exists truncated columns rows,
    valid_result (expected c) (result_limits_ c) truncated columns rows /\
    v = {| wire := print_frame (expected c) truncated columns rows;
           v_columns := Z.of_nat (length columns); v_rows := Z.of_nat (length rows);
           v_truncated := truncated |}.

Definition started (acc : list byte) : Prop :=
  acc = a0 \/ exists v p rest, genuine v /\ payload_of v = p ++ rest /\ acc = a0 ++ p.

Definition told (r : receiver) (acc : list byte) : Prop :=
  match state r with
  | NEW | READING => owner r = None /\ summary r = None /\ acc = a0
  | READY => exists v, genuine v /\ owner r = Some v /\ summary r = Some (summary_of v) /\ acc = a0
  | SENDING => exists v, genuine v /\ owner r = Some v /\ summary r = Some (summary_of v) /\ started acc
  | SENT | FAILED | DISCARDING | HELD | CLOSED => started acc
  end.

Definition whole (s : option ResultSummary) (acc : list byte) : Prop :=
  exists v, genuine v /\ s = Some (summary_of v) /\ acc = a0 ++ payload_of v.

Definition thread_told (r : receiver) (acc : list byte) (p : point) : Prop :=
  match p with
  | ReceiveSettle _ (Some v) f => genuine v /\ f = None
  | ReceiveEnd _ _ (Ok (Summary _)) => False
  | SendWrite _ _ => acc = a0
  | SendSettle _ _ None => whole (summary r) acc
  | SendEnd _ None => whole (summary r) acc /\ past (state r) = true
  | Returned (Ok (Summary s)) => whole s acc /\ past (state r) = true
  | _ => True
  end.

Definition acc (w : world D) : list byte := Transport.accepted (target_io w).

Definition tells (w : world D) (p : point) (x : point * world D) : Prop :=
  told (self x.2) (acc x.2) /\ thread_told (self x.2) (acc x.2) x.1 /\
  forall q, thread_ok (self w) (events w) q -> thread_told (self w) (acc w) q ->
    apart (self w) p q -> thread_told (self x.2) (acc x.2) q.

(** A step that sends nothing, keeps the summary and does not go back. *)
Lemma tells_quiet w p p' w' :
  acc w' = acc w -> summary (self w') = summary (self w) ->
  (past (state (self w)) = true -> past (state (self w')) = true) ->
  told (self w') (acc w') -> thread_told (self w') (acc w') p' -> tells w p (p', w').
Proof.
  intros Ha Hs Hp H1 H2. split; [exact H1|]. split; [exact H2|]. cbn. rewrite Ha.
  intros q _ Hq _. unfold thread_told in *.
  destruct q as [|e|e [v|] f|e o a|d|e d|e d [f|]|e [x|]|d|d o|d|d|[[]|]]; auto; rewrite ?Hs; auto.
  - destruct Hq. auto.
  - destruct Hq. auto.
Qed.

Lemma tells_under_lock d refused (body : world D -> point * world D) w p :
  told (self w) (acc w) -> (forall f, thread_told (self w) (acc w) (refused f)) ->
  (forall w', core w w' -> acc w' = acc w -> tells w' p (body w')) ->
  tells w p (under_lock lock_free d refused body w).
Proof.
  intros T R B. unfold under_lock, coordinated.
  destruct (remaining d (reads w) <=? 0); [apply tells_quiet; auto|].
  destruct (lock_free (attempts w)).
  - match goal with |- tells _ _ (body ?x) => assert (K : core w x /\ acc x = acc w) by (repeat split) end.
    destruct K as [K Ka]. specialize (B _ K Ka). destruct K as (E1 & E2 & E3).
    destruct B as (B1 & B2 & B3). rewrite E1, E3, Ka in B3. split; [exact B1|]. split; [exact B2|exact B3].
  - apply tells_quiet; auto.
Qed.

Lemma settle_told w : told (self w) (acc w) -> told (self (settle_locked w)) (acc (settle_locked w)).
Proof.
  unfold settle_locked. intros T. destruct (_ && _) eqn:B; [|exact T]. apply andb_true_iff in B as [B _].
  unfold told in *. cbn. apply orb_true_iff in B as [B|B]; apply bool_decide_eq_true in B; rewrite B in T.
  - left. apply T.
  - destruct T as (v & _ & _ & _ & T). exact T.
Qed.

Lemma settle_facts (w : world D) :
  acc (settle_locked w) = acc w /\ summary (self (settle_locked w)) = summary (self w) /\
  (past (state (self w)) = true -> past (state (self (settle_locked w))) = true).
Proof.
  unfold settle_locked. destruct (_ && _) eqn:B; [|auto]. apply andb_true_iff in B as [B _]. cbn.
  split; [reflexivity|]. split; [reflexivity|].
  apply orb_true_iff in B as [B|B]; apply bool_decide_eq_true in B; rewrite B; discriminate.
Qed.

Lemma told_started r a : told r a -> started a.
Proof.
  unfold told. destruct (state r); auto; try (intros (_ & _ & ->); left; reflexivity).
  - intros (v & _ & _ & _ & ->). left. reflexivity.
  - intros (v & _ & _ & _ & H). exact H.
Qed.

Lemma told_same r r' a :
  state r' = state r -> owner r' = owner r -> summary r' = summary r -> told r a -> told r' a.
Proof. unfold told. intros -> -> ->. exact id. Qed.

Lemma read_genuine s v s' :
  read_payload patience channel (expected c) (result_limits_ c) (own_deadline c) s = (Ok v, s') -> genuine v.
Proof.
  unfold read_payload. intros H. do 4 (apply st_bind_Ok in H as (? & ? & _ & H)).
  unfold of_frame in H. destruct (validate_result _ _ _ _ _) as [[y|e] n] eqn:V; [|discriminate].
  injection H as -> _. destruct (validate_result_sound _ _ _ _ _ _ _ _ _ Hid Hlim V)
    as (tr & cols & rows & G & Er & Ev). exists tr, cols, rows. split; [exact G|]. rewrite Ev, Er. reflexivity.
Qed.

Lemma genuine_long v : genuine v -> HEADER_BYTES <= blen (wire v).
Proof.
  intros (tr & cols & rows & V & ->). cbn [wire].
  destruct (validate_result_complete (expected c) (result_limits_ c)
    {| expires_at := 1; clock := fun _ => Some 0 |} 0 tr cols rows _ _ ltac:(intros n; reflexivity) Hid Hlim V)
    as [n E].
  unfold validate_result in E. destruct (negb _) eqn:B; [discriminate|]. lia.
Qed.

Lemma receive_read_tells w e :
  told (self w) (acc w) -> tells w (ReceiveRead e) (receive_read patience channel interrupted chain c e w).
Proof.
  intros T. unfold receive_read. destruct (read_payload _ _ _ _ _ _) as [r n] eqn:R.
  assert (Go : tells w (ReceiveRead e)
    (if interrupted (transfers w)
     then (ReceiveEnd e None (Err Interrupt),
           with_self (with_uncertain true (self (after_read n w))) (after_read n w))
     else match r with
          | Ok v => (ReceiveSettle e (Some v) None, after_read n w)
          | Err x => (ReceiveSettle e None (Some (category x)),
             with_self (with_uncertain (negb (clear_error (raised x (chain (transfers w))) 0))
                          (self (after_read n w))) (after_read n w))
          end)).
  { destruct (interrupted (transfers w)); [|destruct r as [v|x]]; apply tells_quiet; auto; try exact I.
    split; [|reflexivity]. eapply read_genuine. exact R. }
  destruct r as [v|[x|[k u|]|]]; try exact Go. apply tells_quiet; auto; exact I.
Qed.

(** Nothing told to a thread of another operation survives its being current. *)
Lemma other_current w p q e x :
  current (self w) (events w) e x -> completion p = Some e -> busy_state x = true ->
  thread_ok (self w) (events w) q -> thread_told (self w) (acc w) q -> apart (self w) p q ->
  match q with
  | SendWrite _ _ | SendSettle _ _ None | SendEnd _ None | Returned (Ok (Summary _)) => False
  | _ => True
  end.
Proof.
  intros (C1 & C2 & C3) Hp Hx Ho Ht [A _].
  destruct q as [|e'|e' o f|e' o a|d|e' d|e' d [f|]|e' [y|]|d|d o|d|d|[[]|]]; try exact I.
  - destruct Ho as (_ & H2 & _). apply (A e Hp). cbn. congruence.
  - destruct Ho as (_ & H2 & _). apply (A e Hp). cbn. congruence.
  - destruct Ht as [_ Ht]. rewrite C3 in Ht. destruct x; discriminate.
  - destruct Ht as [_ Ht]. rewrite C3 in Ht. destruct x; discriminate.
Qed.

(** A step of the current operation, which may change anything told. *)
Lemma tells_current w p p' w' e x :
  current (self w) (events w) e x -> completion p = Some e -> busy_state x = true ->
  told (self w') (acc w') -> thread_told (self w') (acc w') p' -> tells w p (p', w').
Proof.
  intros Hc Hp Hx H1 H2. split; [exact H1|]. split; [exact H2|]. cbn. intros q Ho Ht A.
  pose proof (other_current w p q e x Hc Hp Hx Ho Ht A) as N.
  destruct q as [|e'|e' [v|] f|e' o a|d|e' d|e' d [f|]|e' [y|]|d|d o|d|d|[[]|]]; auto; contradiction.
Qed.

Lemma receive_settle_tells w e o f :
  told (self w) (acc w) -> thread_ok (self w) (events w) (ReceiveSettle e o f) ->
  thread_told (self w) (acc w) (ReceiveSettle e o f) ->
  tells w (ReceiveSettle e o f) (receive_settle lock_free c e o f w).
Proof.
  intros T O H. unfold receive_settle. apply tells_under_lock; [exact T|intros; exact I|].
  intros w' (E1 & E2 & E3) Ea. cbn in O. rewrite <- E1, <- E3 in O. rewrite <- E1, <- Ea in T.
  assert (N : state (self w') = READING) by apply O. pose proof (told_started _ _ T) as St.
  unfold told in T. rewrite N in T. destruct T as (_ & _ & T).
  destruct o as [v|]; [destruct H as [G ->]|destruct f as [f|]];
    (eapply tells_current; [exact O|reflexivity|reflexivity| |exact I]); [|exact St|exact St].
  exists v. auto.
Qed.

Lemma send_write_tells w e d :
  told (self w) (acc w) -> thread_ok (self w) (events w) (SendWrite e d) ->
  thread_told (self w) (acc w) (SendWrite e d) ->
  tells w (SendWrite e d) (send_write interrupted chain e d w).
Proof.
  intros T O H. cbn in H. assert (N : state (self w) = SENDING) by apply O.
  pose proof T as T0. unfold told in T. rewrite N in T. destruct T as (v & G & Ov & Sv & _).
  unfold send_write. destruct (send_captured d w) as [r n] eqn:R.
  unfold send_captured in R. rewrite Ov in R.
  destruct (runs_eq _ _ _ _ _ (runs_send_payload v d _ (genuine_long v G)) R) as (p & rest & P1 & P2 & P3).
  rewrite Transport.accepted_clock in P2. change (Transport.accepted (target_io w)) with (acc w) in P2.
  rewrite H in P2.
  assert (St : started (Transport.accepted n)) by (right; exists v, p, rest; auto).
  assert (Tn : forall b, told (with_uncertain b (self w)) (Transport.accepted n)).
  { intros b. unfold told. cbn. rewrite N. exists v. auto. }
  assert (Tn0 : told (self w) (Transport.accepted n)).
  { unfold told. rewrite N. exists v. auto. }
  assert (Go : tells w (SendWrite e d)
    (if interrupted (transfers w)
     then (SendEnd e (Some Interrupt),
           with_self (with_uncertain true (self (after_write n w))) (after_write n w))
     else match r with
          | Ok _ => (SendSettle e d None, after_write n w)
          | Err x => (SendSettle e d (Some (category x)),
             with_self (with_uncertain (negb (clear_error (raised x (chain (transfers w))) 0))
                          (self (after_write n w))) (after_write n w))
          end)).
  { destruct (interrupted (transfers w)); [|destruct r as [[]|x]];
      (eapply tells_current; [exact O|reflexivity|reflexivity|first [exact (Tn _)|exact Tn0]|try exact I]).
    exists v. split; [exact G|]. split; [exact Sv|]. change (acc (after_write n w)) with (Transport.accepted n).
    rewrite P2, P1, (P3 eq_refl), app_nil_r. reflexivity. }
  destruct r as [[]|[x|[k u|]|]]; try exact Go. apply tells_quiet; auto.
Qed.

Lemma send_settle_tells w e d f :
  told (self w) (acc w) -> thread_ok (self w) (events w) (SendSettle e d f) ->
  thread_told (self w) (acc w) (SendSettle e d f) ->
  tells w (SendSettle e d f) (send_settle lock_free e d f w).
Proof.
  intros T O H. unfold send_settle. apply tells_under_lock; [exact T|intros; exact I|].
  intros w' (E1 & E2 & E3) Ea. cbn in O. rewrite <- E1, <- E3 in O. rewrite <- E1, <- Ea in T, H.
  pose proof (told_started _ _ T) as St.
  destruct f as [f|]; (eapply tells_current; [exact O|reflexivity|reflexivity|exact St|]); [exact I|].
  split; [exact H|reflexivity].
Qed.

Lemma close_start_tells w d :
  told (self w) (acc w) -> tells w (CloseStart d) (close_start lock_free d w).
Proof.
  intros T. unfold close_start. apply tells_under_lock; [exact T|intros; exact I|].
  intros w' (E1 & _ & _) Ea. rewrite <- E1, <- Ea in T.
  pose proof (settle_told _ T) as T'. pose proof (told_started _ _ T') as St.
  destruct (settle_facts w') as (F1 & F2 & F3). cbv zeta.
  destruct (state (self (settle_locked w'))) eqn:X; try (destruct (discarded _); cbn [negb]);
    (apply tells_quiet; [exact F1|exact F2|intros P; specialize (F3 P); rewrite ?X in *; auto|
                         first [exact T'|exact St]|exact I]).
Qed.

Lemma close_end_tells w d :
  told (self w) (acc w) -> thread_ok (self w) (events w) (CloseEnd d) ->
  tells w (CloseEnd d) (close_end write_image restore_image lock_free c d w).
Proof.
  intros T [_ O]. unfold close_end. apply tells_under_lock; [exact T|intros; exact I|].
  intros w' (E1 & _ & _) Ea. rewrite <- E1, <- Ea in T. pose proof (told_started _ _ T) as St. cbv zeta.
  destruct (bool_decide (state (self w') = CLOSED)); [apply tells_quiet; auto; exact I|].
  destruct (Budget.end_output _ _ _ _ _ _) as [[[]|] l]; apply tells_quiet; auto; exact I.
Qed.

Lemma advance_tells w p :
  told (self w) (acc w) -> thread_ok (self w) (events w) p -> thread_told (self w) (acc w) p ->
  tells w p (next p w).
Proof.
  intros T O H. destruct p as [|e|e o f|e o a|d|e d|e d f|e x|d|d o|d|d|a]; cbn [advance].
  - unfold receive_start. apply tells_under_lock; [exact T|intros; exact I|].
    intros w' (E1 & _ & _) Ea. rewrite <- E1, <- Ea in T.
    destruct (bool_decide_reflect (state (self w') = NEW)) as [N|N]; cbn [negb];
      (apply tells_quiet; auto; try exact I).
    + rewrite N. discriminate.
    + unfold told in *. cbn. rewrite N in T. exact T.
  - apply receive_read_tells, T.
  - apply receive_settle_tells; assumption.
  - apply tells_quiet; auto. destruct a as [[]|]; try exact I. contradiction.
  - unfold send_start. apply tells_under_lock; [exact T|intros; exact I|].
    intros w' (E1 & _ & _) Ea. rewrite <- E1, <- Ea in T. cbv zeta.
    destruct (bool_decide_reflect (state (self w') = READY)) as [N|N]; cbn [negb];
      [|apply tells_quiet; auto; exact I].
    pose proof T as T0. unfold told in T. rewrite N in T. destruct T as (v & G & Eo & Es & Ha).
    rewrite Eo, Es. apply tells_quiet; [reflexivity|reflexivity|rewrite N; discriminate| |exact Ha].
    exists v. split; [exact G|]. split; [exact Eo|]. split; [exact Es|]. left. exact Ha.
  - apply send_write_tells; assumption.
  - apply send_settle_tells; assumption.
  - apply tells_quiet; auto. destruct x; [exact I|exact H].
  - apply close_start_tells, T.
  - apply tells_quiet; auto.
  - apply close_end_tells; assumption.
  - unfold status. apply tells_under_lock; [exact T|intros; exact I|].
    intros w' (E1 & _ & _) Ea. rewrite <- E1, <- Ea in T. cbv zeta.
    destruct (settle_facts w') as (F1 & F2 & F3). apply tells_quiet; auto.
    apply settle_told, T.
  - apply tells_quiet; auto.
Qed.

Definition told_system (s : world D * list point) : Prop :=
  told (self s.1) (acc s.1) /\
  forall i p, s.2 !! i = Some p -> thread_told (self s.1) (acc s.1) p.

Lemma told_step s s' :
  step write_image restore_image patience channel lock_free interrupted chain c s s' ->
  system_ok c s -> told_system s -> told_system s'.
Proof.
  intros St (_ & O & A) [T H]. destruct St as [w ts p Hp|w ts i p p' w' Hi Ha|w ts call Hf]; cbn [fst snd] in *.
  - split; [exact T|]. intros i q Hq. apply lookup_snoc in Hq as [[-> _]|Hq]; [|eauto].
    destruct p; try discriminate; exact I.
  - pose proof (advance_tells w p T (O i p Hi) (H i p Hi)) as (K1 & K2 & K3).
    rewrite Ha in *. split; [exact K1|]. intros j q Hq.
    apply lookup_set in Hq as [[-> ->]|[N Hq]]; [exact K2|]. apply K3; [eauto|eauto|]. apply (A i j); auto.
  - split; [exact T|exact H].
Qed.

Lemma told_reachable s s' :
  reachable write_image restore_image patience channel lock_free interrupted chain c s s' ->
  system_ok c s -> told_system s -> told_system s'.
Proof.
  induction 1 as [|s1 s2 H IH St]; intros Hs Ht; [exact Ht|].
  eapply told_step; [exact St|eapply system_reachable; eassumption|auto].
Qed.
End told.

(** ** Theorems *)

Section theorems.
Context {D : Type} `{C : Transport.SendChannel D} {CL : Transport.SendChannelLaws C}.

(** C21: the budget's pin of a result outlives every private copy of it.  For
    any interleaving of the receiver's methods called by any number of
    threads, any ledger calls by others, any lock failures and interrupts: as
    long as the receiver owns a result, a thread is inside a transfer or has
    not dropped the payload, or a cleanup could not be proved, the session's
    row of the ledger stays pinned with the bytes reserved for this frame. *)
Theorem payload_pins_credit wr rs patience channel lock_free interrupted chain c
    session overhead (before w0 w : world D) ts :
  created wr rs lock_free c session overhead before w0 ->
  reachable wr rs patience channel lock_free interrupted chain c (w0, []) (w, ts) ->
  owner (self w) <> None \/ uncertain (self w) = true \/ (exists i p, ts !! i = Some p /\ holds p = true) ->
  Budget.pinned (pin c) (book w).
Proof.
  intros Hc Hr H. apply created_ok in Hc.
  destruct (system_reachable _ _ _ _ _ _ _ _ _ _ Hr Hc) as ((S1 & S2 & S3 & S4) & T & _).
  cbn [fst snd] in *. apply S4. destruct H as [H|[H|(i & p & Hi & Hp)]]; [|auto|].
  - left. apply S1. destruct (closing (state (self w))); [|reflexivity]. destruct (H (S2 eq_refl)).
  - left. specialize (T i p Hi). destruct p as [|e|e [v|] f|e [v|] a|d|e d|e d f|e x|d|d [v|]|d|d|a];
      try discriminate; cbn in T; try (apply S1; destruct T as (_ & _ & ->); reflexivity). apply T.
Qed.

(** C20: the client is given a valid result, whole, or a prefix of one.  For
    any interleaving of the methods, whatever bytes the worker's channel gives
    in whatever pieces: what the client's channel accepted since the receiver
    was created is a prefix of the payload of one frame of the grammar, for
    this receiver's identity and limits; and once a [send_to] has returned a
    summary, it is exactly the whole payload of the frame the summary counts. *)
Theorem delivered_exactly wr rs patience channel lock_free interrupted chain c
    session overhead (before w0 w : world D) ts :
  result_identity (expected c) = Ok (expected c) ->
  result_limits (result_limits_ c) = Ok (result_limits_ c) ->
  created wr rs lock_free c session overhead before w0 ->
  reachable wr rs patience channel lock_free interrupted chain c (w0, []) (w, ts) ->
  let before_bytes := Transport.accepted (target_io before) in
  let now := Transport.accepted (target_io w) in
  (exists v p rest, now = before_bytes ++ p /\ (p = [] \/ genuine c v /\ payload_of v = p ++ rest)) /\
  forall i s, ts !! i = Some (Returned (Ok (Summary s))) ->
    exists v, genuine c v /\ s = Some (summary_of v) /\ now = before_bytes ++ payload_of v.
Proof.
  intros Hi Hl Hc Hr. destruct (created_facts _ _ _ _ _ _ _ _ Hc) as (F & _ & _ & _ & Et). cbv zeta.
  rewrite <- Et. apply created_ok in Hc.
  destruct (told_reachable wr rs patience channel lock_free interrupted chain c (acc w0) Hi Hl _ _ Hr Hc)
    as [T H].
  { split; [|intros; discriminate]. unfold told. cbn [fst]. rewrite F. cbn. auto. }
  cbn [fst snd] in *. split.
  - destruct (told_started c (acc w0) _ _ T) as [E|(v & p & rest & G & P & E)].
    + exists {| wire := []; v_columns := 0; v_rows := 0; v_truncated := false |}, [], [].
      rewrite app_nil_r. auto.
    + exists v, p, rest. auto.
  - intros i s Hs. destruct (H i _ Hs) as [(v & G & E & Ea) _]. exists v. auto.
Qed.
End theorems.

(** ** Clearing an error, against the graph of its links *)

(** [n] is reached from [e] by following causes and contexts. *)
Inductive linked (heap : nat -> exn_object) (e : nat) : nat -> Prop :=
| linked_self : linked heap e e
| linked_cause n m : linked heap e n -> cause (heap n) = Some m -> linked heap e m
| linked_context n m : linked heap e n -> context (heap n) = Some m -> linked heap e m.

Definition clearable (o : exn_object) : Prop :=
  is_group o = false /\ cleanup_uncertain o = false /\ frames_clear o = true.

Definition children (heap : nat -> exn_object) (n : nat) : list nat :=
  option_list (context (heap n)) ++ option_list (cause (heap n)).

Section clear.
Context (heap : nat -> exn_object).

Lemma linked_child e n m : linked heap e n -> m ∈ children heap n -> linked heap e m.
Proof.
  intros L H. unfold children in H. apply elem_of_app in H as [H|H].
  - destruct (context (heap n)) eqn:E; cbn in H; [|set_solver].
    apply list_elem_of_singleton in H as ->. eapply linked_context; eassumption.
  - destruct (cause (heap n)) eqn:E; cbn in H; [|set_solver].
    apply list_elem_of_singleton in H as ->. eapply linked_cause; eassumption.
Qed.

Lemma clear_loop_sound e fuel pending seen :
  clear_loop fuel heap pending seen = true -> NoDup seen -> (length seen <= MAX_ERROR_CHAIN)%nat ->
  (forall n, n ∈ seen -> clearable (heap n) /\ forall m, m ∈ children heap n -> m ∈ seen ++ pending) ->
  (forall n, n ∈ seen ++ pending -> linked heap e n) ->
  exists l, NoDup l /\ (length l <= MAX_ERROR_CHAIN)%nat /\ (forall n, n ∈ seen ++ pending -> n ∈ l) /\
    (forall n, n ∈ l -> linked heap e n) /\
    forall n, n ∈ l -> clearable (heap n) /\ forall m, m ∈ children heap n -> m ∈ l.
Proof.
  revert pending seen; induction fuel as [|fuel IH]; intros [|current pending] seen H N L K R;
    cbn [clear_loop] in H; [| |rewrite app_nil_r in *; exists seen; auto 10|];
    [rewrite app_nil_r in *; exists seen; auto 10|discriminate|].
  destruct (is_group (heap current)) eqn:G; [discriminate|].
  destruct (cleanup_uncertain (heap current)) eqn:U; [discriminate|].
  destruct (bool_decide_reflect (current ∈ seen)) as [S|S].
  - destruct (IH pending seen H N L) as (l & L1 & L2 & L3 & L4).
    { intros n Hn. destruct (K n Hn) as [K1 K2]. split; [exact K1|]. intros m Hm.
      specialize (K2 m Hm). set_solver. }
    { intros n Hn. apply R. set_solver. }
    exists l. split; [exact L1|]. split; [exact L2|]. split; [|exact L4]. intros n Hn. apply L3. set_solver.
  - destruct (Nat.eqb_spec (length seen) MAX_ERROR_CHAIN) as [F|F]; [discriminate|].
    destruct (frames_clear (heap current)) eqn:Fr; cbn [negb] in H; [|discriminate].
    rewrite app_assoc in H. fold (children heap current) in H.
    destruct (IH _ _ H) as (l & L1 & L2 & L3 & L4).
    + constructor; assumption.
    + cbn [length]. lia.
    + intros n Hn. apply elem_of_cons in Hn as [->|Hn].
      * split; [repeat split; assumption|]. intros m Hm. set_solver.
      * destruct (K n Hn) as [K1 K2]. split; [exact K1|]. intros m Hm. specialize (K2 m Hm). set_solver.
    + intros n Hn. assert (Hc : n ∈ children heap current \/ n ∈ seen ++ current :: pending) by set_solver.
      destruct Hc as [Hc|Hc]; [|exact (R n Hc)]. eapply linked_child; [|exact Hc]. apply R. set_solver.
    + exists l. split; [exact L1|]. split; [exact L2|]. split; [|exact L4]. intros n Hn. apply L3. set_solver.
Qed.

Lemma clear_loop_complete l fuel pending seen :
  (length l <= MAX_ERROR_CHAIN)%nat -> NoDup seen ->
  (forall n, n ∈ l -> clearable (heap n) /\ forall m, m ∈ children heap n -> m ∈ l) ->
  (forall n, n ∈ seen ++ pending -> n ∈ l) ->
  (length pending + 2 * (length l - length seen) <= fuel)%nat ->
  clear_loop fuel heap pending seen = true.
Proof.
  intros L N K. revert pending seen N; induction fuel as [|fuel IH]; intros [|current pending] seen N S F;
    cbn [clear_loop]; try reflexivity; [cbn [length] in F; lia|].
  destruct (K current) as [(K1 & K2 & K3) K4]; [set_solver|]. rewrite K1, K2, K3.
  assert (Sub : forall n, n ∈ seen -> n ∈ l) by set_solver.
  destruct (bool_decide_reflect (current ∈ seen)) as [E|E].
  - apply IH; [exact N|set_solver|cbn [length] in F; lia].
  - assert (Lt : (length (current :: seen) <= length l)%nat).
    { apply submseteq_length, NoDup_submseteq; [constructor; assumption|]. set_solver. }
    cbn [length] in Lt. replace (Nat.eqb (length seen) MAX_ERROR_CHAIN) with false
      by (symmetry; apply Nat.eqb_neq; lia).
    cbn [negb]. rewrite app_assoc. fold (children heap current). apply IH.
    + constructor; assumption.
    + set_solver.
    + rewrite length_app. cbn [length] in *.
      assert (length (children heap current) <= 2)%nat; [|lia].
      unfold children. rewrite length_app. destruct (context _), (cause _); cbn; lia.
Qed.

Lemma clear_loop_exact fuel e :
  (2 * MAX_ERROR_CHAIN + 1 <= fuel)%nat ->
  clear_loop fuel heap [e] [] = true <->
  exists l, NoDup l /\ (length l <= MAX_ERROR_CHAIN)%nat /\
    (forall n, linked heap e n <-> n ∈ l) /\ (forall n, n ∈ l -> clearable (heap n)).
Proof.
  intros F. split.
  - intros H. pose proof (clear_loop_sound e _ _ _ H) as K. clear H. destruct K as (l & L1 & L2 & L3 & L4 & L5);
      [constructor|cbn; lia|set_solver|intros n Hn; apply list_elem_of_singleton in Hn as ->; constructor|].
    exists l. split; [exact L1|]. split; [exact L2|]. split; [|intros n Hn; apply (L5 n Hn)].
    intros n. split; [|apply L4]. induction 1 as [|n m _ IH E|n m _ IH E]; [apply L3; set_solver|..];
      (apply (proj2 (L5 n IH) m); unfold children; rewrite E; set_solver).
  - intros (l & L1 & L2 & L3 & L4). apply (clear_loop_complete l); [exact L2|constructor| | |].
    + intros n Hn. split; [exact (L4 n Hn)|]. intros m Hm. apply L3. eapply linked_child; [|exact Hm].
      apply L3, Hn.
    + intros n Hn. apply L3. apply list_elem_of_singleton in Hn as ->. constructor.
    + cbn [length] in *. lia.
Qed.

(** An error's cleanup is claimed exactly when it is proved: when the
    exceptions reached from it by cause and context, whatever the shape of
    their links and cycles, are at most 32 objects, none a group or a transport
    error unsure of its own cleanup, and the frames of each were cleared. *)
Theorem clear_error_exact e :
  clear_error heap e = true <->
  exists l, NoDup l /\ (length l <= MAX_ERROR_CHAIN)%nat /\
    (forall n, linked heap e n <-> n ∈ l) /\ (forall n, n ∈ l -> clearable (heap n)).
Proof. apply (clear_loop_exact clear_fuel). unfold clear_fuel. lia. Qed.
End clear.

(** ** A prompt environment *)

(** The peer has [all] to send and gives some of it whenever it is asked. *)
Definition prompt (channel : Transport.RawChannel) (all : list byte) : Prop :=
  1 <= Transport.chunk_bytes (Transport.limits channel) /\
  (forall s, Transport.stop channel s = Ok false) /\
  forall s wait size, 1 <= size -> Transport.received s `prefix_of` all -> Transport.received s <> all ->
    exists bs, Transport.sock_recv channel s wait size = Transport.Gave bs /\ 1 <= blen bs <= size /\
      Transport.received s ++ bs `prefix_of` all.

(** A channel that accepts what it is given. *)
Definition eager {D} (C : Transport.SendChannel D) (d : ResultDeadline) : Prop :=
  forall data s, exists s', Transport.channel_send data (channel_deadline d) s = (Ok tt, s').

Section prompt.
Context (patience : nat) (channel : Transport.RawChannel) (all : list byte) (d : ResultDeadline).
Context (Hp : prompt channel all) (Hl : live d) (Hpat : (1 <= patience)%nat).

Lemma recv_prompt len s :
  1 <= len -> Transport.received s `prefix_of` all -> Transport.received s <> all ->
  exists bs s', Transport.recv_into patience channel len (channel_deadline d) s = (Ok bs, s') /\
    1 <= blen bs <= len /\ Transport.received s' = Transport.received s ++ bs /\
    Transport.received s' `prefix_of` all.
Proof.
  intros Hlen P N. destruct Hp as (Hc & Hs & Hg). unfold Transport.recv_into.
  destruct (Z.leb_spec len 0); [lia|]. destruct patience as [|k]; [lia|]. cbn [Transport.recv_into_loop].
  unfold Transport.slice_ms, Transport.check, Transport.ask_recv, mbind, st_bind. rewrite Hs.
  unfold channel_deadline at 1. specialize (Hl (Transport.readings s)).
  destruct (Z.leb_spec (remaining d (Transport.readings s)) 0); [lia|]. cbn beta iota zeta delta [mret st_ret].
  match goal with |- context [Transport.sock_recv channel ?s1 ?w ?size] =>
    destruct (Hg s1 w size ltac:(lia)) as (bs & E & B & Pb); [exact P|exact N|]; rewrite E end.
  cbn beta iota zeta. replace (blen bs <=? _) with true by lia. cbn [negb].
  destruct (Z.eqb_spec (blen bs) 0); [lia|]. do 2 eexists. split; [reflexivity|].
  split; [lia|]. split; [reflexivity|exact Pb].
Qed.

Lemma fill_prompt n buffer offset more s :
  0 <= offset -> blen more = blen buffer - offset -> blen buffer - offset <= Z.of_nat n ->
  Transport.received s ++ more `prefix_of` all ->
  exists s', fill_loop patience channel d n buffer offset s =
    (Ok (take (Z.to_nat offset) buffer ++ more), s') /\
    Transport.received s' = Transport.received s ++ more.
Proof.
  revert buffer offset more s; induction n as [|n IH]; intros buffer offset more s Ho Hm Hn P; cbn [fill_loop];
    (destruct (Z.leb_spec (blen buffer) offset) as [L|L];
      [exists s; assert (blen more = 0) by (pose proof (blen_nonneg more); lia);
       destruct more; [|unfold blen in *; cbn [length] in *; lia]; rewrite !app_nil_r; split; [|reflexivity];
       rewrite take_ge by (unfold blen in *; lia); reflexivity|]).
  { pose proof (blen_nonneg more). lia. }
  assert (Pr : Transport.received s `prefix_of` all) by (etransitivity; [eexists; reflexivity|exact P]).
  assert (Nr : Transport.received s <> all).
  { intros E. rewrite <- E in P. apply prefix_length in P. rewrite length_app in P. unfold blen in *. lia. }
  destruct (recv_prompt (blen buffer - offset) s ltac:(lia) Pr Nr) as (bs & s1 & E & B & R & Pb).
  unfold on_channel, mbind, st_bind. rewrite E. cbn beta iota.
  (* what was given begins what was to come *)
  assert (M : exists rest, more = bs ++ rest).
  { destruct P as [t1 P], Pb as [t2 Pb]. rewrite R, <- app_assoc in Pb. rewrite Pb, <- app_assoc in P.
    apply app_inv_head in P. exists (drop (length bs) more).
    assert (Tk : take (length bs) (bs ++ t2) = take (length bs) (more ++ t1)) by (rewrite P; reflexivity).
    rewrite take_app_length, take_app_le in Tk by (unfold blen in *; lia). rewrite Tk at 1.
    symmetry. apply take_drop. }
  destruct M as [rest ->]. rewrite blen_app in Hm. rewrite app_assoc in P.
  assert (W : exists pre old post, buffer = pre ++ old ++ post /\ blen pre = offset /\ blen old = blen bs).
  { exists (take (Z.to_nat offset) buffer), (take (length bs) (drop (Z.to_nat offset) buffer)),
      (drop (length bs) (drop (Z.to_nat offset) buffer)).
    split; [rewrite take_drop; symmetry; apply take_drop|]. unfold blen in *.
    rewrite !length_take, length_drop. lia. }
  destruct W as (pre & old & post & -> & <- & Eo). rewrite write_at_app by (unfold blen in Eo; lia).
  destruct (IH (pre ++ bs ++ post) (blen pre + blen bs) rest s1) as (s2 & E2 & R2); [lia| | | |].
  - rewrite !blen_app in *. lia.
  - rewrite !blen_app in *. lia.
  - rewrite R. exact P.
  - exists s2. rewrite E2. split; [|rewrite R2, R, app_assoc; reflexivity]. do 2 f_equal.
    rewrite app_assoc. unfold blen. rewrite <- Nat2Z.inj_add, !Nat2Z.id, <- length_app, take_app_length.
    rewrite take_app_length, <- app_assoc. reflexivity.
Qed.
End prompt.

Section delivered.
Context {D : Type} `{C : Transport.SendChannel D} {CL : Transport.SendChannelLaws C}.
Context (patience : nat) (channel : Transport.RawChannel) (c : settings).
Context (Hid : result_identity (expected c) = Ok (expected c)).
Context (Hlim : result_limits (result_limits_ c) = Ok (result_limits_ c)).
Context (Hl : live (own_deadline c)) (Hpat : (1 <= patience)%nat).

(** A valid frame that the peer gives is read and validated. *)
Lemma read_prompt v s :
  genuine c v -> prompt channel (Transport.received s ++ wire v) ->
  exists s', read_payload patience channel (expected c) (result_limits_ c) (own_deadline c) s = (Ok v, s').
Proof.
  intros G P. pose proof (genuine_long c Hid Hlim v G) as Long. destruct G as (tr & cols & rows & V & Ev).
  assert (H76 : HEADER_BYTES = 76) by reflexivity.
  set (raw := wire v) in *. assert (Eraw : raw = print_frame (expected c) tr cols rows) by (subst v; reflexivity).
  destruct (validate_result_complete (expected c) (result_limits_ c) (own_deadline c) 0 tr cols rows _ _ Hl Hid Hlim V)
    as [n0 E0]. rewrite <- Eraw in E0.
  unfold validate_result in E0. destruct (negb ((_ <=? _) && _)) eqn:Bd; [discriminate|].
  destruct ((check_deadline _;; _) _) as [a q0] eqn:E1 in E0.
  injection E0 as -> _. apply st_bind_Ok in E1 as (u1 & q1 & _ & E1).
  apply st_bind_Ok in E1 as (h & q2 & Eh & E1). apply st_bind_Ok in E1 as (u2 & q3 & Eg & _).
  unfold lift_res in Eh. injection Eh as Eh _. apply guard_st_Ok in Eg as [Eg _].
  apply negb_false_iff, Z.eqb_eq in Eg.
  set (head := slice 0 HEADER_BYTES raw) in *. set (tail := slice HEADER_BYTES (blen raw) raw).
  assert (Hraw : raw = head ++ tail).
  { rewrite <- (slice_all raw) at 1. apply slice_split; lia. }
  assert (Bh : blen head = HEADER_BYTES) by (unfold head; rewrite blen_slice; lia).
  assert (Bt : blen tail = blen raw - HEADER_BYTES) by (unfold tail; rewrite blen_slice; lia).
  assert (Bz : forall k, 0 <= k -> blen (bytearray k) = k).
  { intros k Hk. unfold blen, bytearray. rewrite length_replicate. lia. }
  rewrite Hraw in P. unfold read_payload.
  destruct (fill_prompt patience channel _ (own_deadline c) P Hl Hpat (length (bytearray HEADER_BYTES))
    (bytearray HEADER_BYTES) 0 head s) as (s1 & F1 & R1); [lia|rewrite Bz; lia|unfold blen; lia| |].
  { apply prefix_app. eexists. reflexivity. }
  erewrite st_bind_run by exact F1. change (take (Z.to_nat 0) (bytearray HEADER_BYTES) ++ head) with head.
  erewrite st_bind_run by (unfold of_frame; rewrite Eh; reflexivity).
  set (s2 := Transport.with_readings (Transport.readings s1) s1).
  erewrite st_bind_run.
  2:{ unfold check_clock. specialize (Hl (Transport.readings s2)).
      destruct (Z.leb_spec (remaining (own_deadline c) (Transport.readings s2)) 0); [lia|reflexivity]. }
  set (s3 := Transport.clock_read s2). rewrite Eg.
  assert (Wr : write_at 0 head (bytearray (blen raw)) = head ++ bytearray (blen raw - HEADER_BYTES)).
  { replace (bytearray (blen raw)) with ([] ++ bytearray HEADER_BYTES ++ bytearray (blen raw - HEADER_BYTES)).
    - change 0 with (blen []). rewrite write_at_app; [reflexivity|].
      unfold bytearray. rewrite length_replicate. unfold blen in Bh. lia.
    - unfold bytearray. cbn [app]. rewrite <- replicate_add. f_equal. lia. }
  rewrite Wr. unfold fill.
  destruct (fill_prompt patience channel _ (own_deadline c) P Hl Hpat
    (length (head ++ bytearray (blen raw - HEADER_BYTES))) (head ++ bytearray (blen raw - HEADER_BYTES))
    HEADER_BYTES tail s3) as (s4 & F2 & R2).
  - lia.
  - rewrite blen_app, Bz, Bh by lia. lia.
  - unfold blen. lia.
  - change (Transport.received s3) with (Transport.received s1). rewrite R1, app_assoc. reflexivity.
  - erewrite st_bind_run by exact F2.
    replace (take (Z.to_nat HEADER_BYTES) (head ++ bytearray (blen raw - HEADER_BYTES))) with head
      by (rewrite <- Bh; unfold blen; rewrite Nat2Z.id, take_app_length; reflexivity).
    rewrite <- Hraw. unfold of_frame.
    destruct (validate_result_complete (expected c) (result_limits_ c) (own_deadline c) (Transport.readings s4)
      tr cols rows _ _ Hl Hid Hlim V) as [n E]. rewrite Eraw, E, Ev. eauto.
Qed.

Lemma chunks_eager v d offsets s :
  eager C d -> live d -> exists s', send_chunks v d offsets s = (Ok tt, s').
Proof.
  intros He Hd. revert s; induction offsets as [|o offsets IH]; intros s; cbn [send_chunks];
    erewrite st_bind_run by (unfold check_chunk; specialize (Hd (Transport.clock_count s));
      destruct (Z.leb_spec (remaining d (Transport.clock_count s)) 0); [lia|reflexivity]).
  - eexists. reflexivity.
  - match goal with |- exists _, (send_piece ?x d ≫= _) ?s1 = _ => destruct (He x s1) as [s2 E] end.
    erewrite st_bind_run by (unfold send_piece; rewrite E; reflexivity). apply IH.
Qed.

Context (wr : nat -> Budget.write_result) (rs : nat -> bool).
Context (lock_free interrupted : nat -> bool) (chain : nat -> nat -> exn_object).
Context (Hlock : forall n, lock_free n = true) (Hint : forall n, interrupted n = false).

Abbreviation alone :=
  (call_alone wr rs patience channel lock_free interrupted chain c).

Lemma enters d refused (body : world D -> point * world D) w :
  live d -> exists w', core w w' /\ source_io w' = source_io w /\ target_io w' = target_io w /\
    under_lock lock_free d refused body w = body w'.
Proof.
  intros Hd. unfold under_lock, coordinated. specialize (Hd (reads w)).
  destruct (Z.leb_spec (remaining d (reads w)) 0); [lia|]. rewrite Hlock.
  eexists. split; [|split; [|split; [|reflexivity]]]; repeat split.
Qed.

(** A whole [receive] under a prompt worker. *)
Lemma receive_prompt v w :
  state (self w) = NEW -> genuine c v -> prompt channel (Transport.received (source_io w) ++ wire v) ->
  exists w', alone ReceiveStart w = (Returned (Ok Nothing), w') /\
    state (self w') = READY /\ owner (self w') = Some v /\ summary (self w') = Some (summary_of v) /\
    target_io w' = target_io w.
Proof.
  intros Hs G P. unfold call_alone. cbn [run_points]. unfold advance at 1, receive_start.
  destruct (enters (own_deadline c) failed (fun w => if negb (bool_decide (state (self w) = NEW))
    then (failed RECEIVER_STATE, w) else let '(e, w) := begin_operation READING w in (ReceiveRead e, w)) w Hl)
    as (w1 & (E1 & _ & _) & Es1 & Et1 & ->).
  rewrite E1, Hs. cbn [bool_decide negb decide]. rewrite bool_decide_true by reflexivity. cbn [negb].
  unfold begin_operation. cbn beta iota zeta. unfold advance at 1, receive_read.
  match goal with |- context [read_payload _ _ _ _ _ ?s] =>
    destruct (read_prompt v s G) as (n & ->); [cbn; rewrite Es1; exact P|] end.
  cbn beta iota zeta. rewrite Hint. unfold advance at 1, receive_settle.
  match goal with |- context [under_lock _ ?d ?f ?b ?w] =>
    destruct (enters d f b w Hl) as (w2 & (E2 & _ & _) & _ & Et2 & ->) end.
  cbn beta iota zeta. unfold advance at 1. eexists. split; [reflexivity|]. cbn.
  rewrite Et2. cbn. auto.
Qed.

(** A whole [send_to] on an eager channel. *)
Lemma send_eager v d w :
  live d -> eager C d -> genuine c v ->
  state (self w) = READY -> owner (self w) = Some v -> summary (self w) = Some (summary_of v) ->
  exists w', alone (SendStart d) w = (Returned (Ok (Summary (Some (summary_of v)))), w') /\
    state (self w') = SENT /\
    Transport.accepted (target_io w') = Transport.accepted (target_io w) ++ payload_of v.
Proof.
  intros Hd He G Hs Ho Hsum. unfold call_alone. cbn [run_points]. unfold advance at 1, send_start.
  match goal with |- context [under_lock _ ?d ?f ?b ?w] =>
    destruct (enters d f b w Hd) as (w1 & (E1 & _ & _) & _ & Et1 & ->) end.
  cbv zeta. rewrite E1, Hs, bool_decide_true, Ho, Hsum by reflexivity. cbn [negb].
  unfold begin_operation. cbn beta iota zeta. unfold advance at 1, send_write, send_captured.
  cbn [self with_events with_self with_operation owner target_io reads]. rewrite E1, Ho.
  match goal with |- context [send_payload v d ?s] =>
    destruct (chunks_eager v d (py_range HEADER_BYTES (blen (wire v)) MAX_CHUNK) s He Hd) as [n En];
    fold (send_payload v d) in En; rewrite En;
    destruct (runs_eq _ _ _ _ _ (runs_send_payload v d s (genuine_long c Hid Hlim v G)) En)
      as (p & rest & P1 & P2 & P3) end.
  specialize (P3 eq_refl). subst rest. rewrite app_nil_r in P1. rewrite Transport.accepted_clock, Et1 in P2.
  cbn beta iota zeta. rewrite Hint. unfold advance at 1, send_settle.
  match goal with |- context [under_lock _ ?d ?f ?b ?w] =>
    destruct (enters d f b w Hd) as (w2 & (E2 & _ & _) & _ & Et2 & ->) end.
  cbn beta iota zeta. unfold advance at 1. eexists. split.
  - cbn. rewrite E2. cbn. rewrite ?E1, Hsum. reflexivity.
  - cbn. rewrite Et2. cbn. rewrite P2, P1. auto.
Qed.
End delivered.

(** ** Witnesses *)

Definition still : ResultDeadline := {| expires_at := 10; clock := fun _ => Some 0 |}.

Definition sample_frame : list byte := print_frame sample_identity true sample_columns sample_rows.

(** A worker's socket that gives the frame seven bytes at a time. *)
Definition worker_socket : Transport.RawChannel := {|
  Transport.stop := fun _ => Ok false;
  Transport.sock_recv := fun s _ size =>
    Transport.Gave (take (Z.to_nat (Z.min 7 size)) (drop (length (Transport.received s)) sample_frame));
  Transport.sock_send := fun _ _ _ => Transport.TimedOut false;
  Transport.limits := Transport.sample_limits;
|}.

#[local] Instance client : Transport.SendChannel Transport.io :=
  Transport.raw_channel 5000 Transport.sample_socket.

Definition book_limits : Budget.BudgetLimits :=
  {| Budget.total_bytes := 100000; Budget.base_bytes := 100; Budget.headroom_bytes := 100;
     Budget.entries := 4; Budget.max_sessions := 2; Budget.max_workers := 2; Budget.max_candidates := 1;
     Budget.max_generations := 2; Budget.max_auxiliaries := 1 |}.

Definition token (slot : Z) : Budget.BudgetToken :=
  {| Budget.token_owner := 7; Budget.token_slot := slot; Budget.token_epoch := 1 |}.

(** A ledger with one live session of 9000 parent bytes, in slot 1. *)
Definition sample_book : Budget.ledger :=
  fold_left (fun l x => Budget.after Budget.always_written Budget.always_restored x l)
    [Budget.ReserveCandidate 0 50; Budget.Publish (token 0) None; Budget.ReserveSession (token 0) 500 9000;
     Budget.AdoptSession (token 1)]
    {| Budget.limits := book_limits;
       Budget.datasources := [{| Budget.ds_sessions := 1; Budget.ds_candidates := 1 |}];
       Budget.owner := 7; Budget.failure := None;
       Budget.image := {| Budget.slots := replicate 4 Budget.empty_slot; Budget.closing := false;
                          Budget.closed := false |};
       Budget.publications := 0 |}.

Definition sample_settings : settings :=
  {| expected := sample_identity; result_limits_ := sample_limits; own_deadline := still;
     pin := {| Budget.pin_session := token 1; Budget.pin_epoch := 1; Budget.pin_frame_bytes := 4096;
               Budget.pin_overhead_bytes := 64 |} |}.

Definition before_world : world Transport.io :=
  {| self := fresh; book := sample_book; events := [false]; source_io := Transport.sample_io;
     target_io := Transport.sample_io; reads := 0; attempts := 0; transfers := 0 |}.

Definition free_lock (_ : nat) : bool := true.
Definition calm (_ : nat) : bool := false.
Definition no_links (_ _ : nat) : exn_object :=
  {| is_group := false; cleanup_uncertain := false; frames_clear := true; cause := None; context := None |}.

Abbreviation sample_alone :=
  (call_alone Budget.always_written Budget.always_restored 5000 worker_socket free_lock calm no_links
     sample_settings).

Definition made_world : world Transport.io :=
  (new_receiver Budget.always_written Budget.always_restored free_lock (token 1) 64 sample_limits still
     before_world).2.

#[local] Instance client_laws : Transport.SendChannelLaws client :=
  Transport.raw_channel_laws 5000 Transport.sample_socket.

Lemma alone_reachable {D} `{C : Transport.SendChannel D} wr rs patience channel lock_free interrupted chain c
    (s0 : world D * list point) w ts p a w' :
  is_start p = true ->
  reachable wr rs patience channel lock_free interrupted chain c s0 (w, ts) ->
  call_alone wr rs patience channel lock_free interrupted chain c p w = (a, w') ->
  reachable wr rs patience channel lock_free interrupted chain c s0 (w', ts ++ [a]).
Proof.
  intros Hp R H. unfold call_alone in H.
  assert (G : reachable wr rs patience channel lock_free interrupted chain c s0 (w, ts ++ [p]))
    by (eapply reachable_step; [exact R|apply step_call, Hp]).
  clear R Hp. revert p w H G. generalize 4%nat as n. induction n as [|n IH]; intros p w H G; cbn [run_points] in H.
  { injection H as <- <-. exact G. }
  assert (St : forall p' w1, advance wr rs patience channel lock_free interrupted chain c p w = (p', w1) ->
    reachable wr rs patience channel lock_free interrupted chain c s0 (w1, ts ++ [p'])).
  { intros p' w1 E. eapply reachable_step; [exact G|].
    replace (ts ++ [p']) with (<[length ts := p']> (ts ++ [p]))
      by (rewrite insert_app_r_alt, Nat.sub_diag by lia; reflexivity).
    apply (step_advance _ _ _ _ _ _ _ _ w (ts ++ [p]) (length ts) p p' w1); [|exact E].
    rewrite lookup_app_r, Nat.sub_diag by lia. reflexivity. }
  destruct (advance _ _ _ _ _ _ _ _ p w) as [p' w1] eqn:E.
  eapply IH; [exact H|apply St; reflexivity].
Qed.

Lemma sample_created :
  created Budget.always_written Budget.always_restored free_lock sample_settings (token 1) 64
    before_world made_world.
Proof. split; [reflexivity|]. split; [reflexivity|]. vm_compute. reflexivity. Qed.

(** A thread that has begun to read. *)
Definition reading_world : world Transport.io :=
  (advance Budget.always_written Budget.always_restored 5000 worker_socket free_lock calm no_links
     sample_settings ReceiveStart made_world).2.

Lemma payload_pins_credit_witness :
  Budget.pinned (pin sample_settings) (book reading_world).
Proof.
  apply (payload_pins_credit Budget.always_written Budget.always_restored 5000 worker_socket free_lock calm
    no_links sample_settings (token 1) 64 before_world made_world reading_world [ReceiveRead 1] sample_created).
  - eapply reachable_step; [eapply reachable_step; [apply reachable_start|apply (step_call _ _ _ _ _ _ _ _ _ [] ReceiveStart eq_refl)]|].
    apply (step_advance _ _ _ _ _ _ _ _ made_world [ReceiveStart] 0 ReceiveStart (ReceiveRead 1) reading_world);
      vm_compute; reflexivity.
  - right. right. exists 0%nat, (ReceiveRead 1). split; reflexivity.
Defined.

Definition received_world : world Transport.io := (sample_alone ReceiveStart made_world).2.
Definition sent_world : world Transport.io := (sample_alone (SendStart still) received_world).2.

Lemma delivered_exactly_witness :
  exists v, genuine sample_settings v /\ v_rows v = 2 /\
    Transport.accepted (target_io sent_world) = payload_of v.
Proof.
  assert (R1 : sample_alone ReceiveStart made_world = (Returned (Ok Nothing), received_world))
    by (vm_compute; reflexivity).
  assert (R2 : sample_alone (SendStart still) received_world =
    (Returned (Ok (Summary (Some {| s_columns := 2; s_rows := 2; s_truncated := true |}))), sent_world))
    by (vm_compute; reflexivity).
  pose proof (alone_reachable _ _ _ _ _ _ _ _ _ _ _ ReceiveStart _ _ eq_refl
    (reachable_start _ _ _ _ _ _ _ _ (made_world, [])) R1) as R.
  apply (fun r => alone_reachable _ _ _ _ _ _ _ _ _ _ _ (SendStart still) _ _ eq_refl r R2) in R.
  destruct (delivered_exactly Budget.always_written Budget.always_restored 5000 worker_socket free_lock calm
    no_links sample_settings (token 1) 64 before_world made_world sent_world _ eq_refl eq_refl sample_created R)
    as [_ H].
  destruct (H 1%nat _ eq_refl) as (v & G & E & A). exists v. split; [exact G|].
  split; [injection E as _ E _; symmetry; exact E|exact A].
Defined.
