(* ===== verification/Delivery.v ===== *)
(** * Delivery: a masked result, from the worker's memory to the client

    The theorem that combines [ResultEncoder], [ResultFrame], [Transport] and
    [Receiver]: no code of its own. *)

From S2P Require Import Prelude.
From S2P Require Import Bytes.
From S2P Require Import ResultFrame.
From S2P Require Import ResultEncoder.
From S2P Require Import Receiver.
From S2P Require Adapter.
From S2P Require Budget.
From S2P Require Transport.

Local Open Scope Z_scope.

Lemma payload_print i truncated columns rows n m :
  result_identity i = Ok i ->
  payload_of {| wire := print_frame i truncated columns rows; v_columns := n; v_rows := m;
                v_truncated := truncated |} = print_body columns rows.
Proof.
  intros Hi. destruct (identity_ok _ _ Hi) as (Si & Sd & _). unfold payload_of, print_frame. cbn [wire].
  set (h := print_header _ _ _ _ _). set (b := print_body columns rows).
  assert (Hh : blen h = HEADER_BYTES) by (apply blen_print_header; assumption).
  rewrite <- (app_nil_r (h ++ b)) at 2. rewrite <- app_assoc.
  apply slice_app; [auto|rewrite blen_app; lia].
Qed.

Section delivery.
Context {D : Type} `{C : Transport.SendChannel D} {CL : Transport.SendChannelLaws C}.

(** C5: a masked result reaches the client whole.  When the worker encodes a
    masked typed result for this receiver and its channel gives the frame,
    split in any way, and the clock, the lock and the client's channel do not
    fail: [receive] returns, [send_to] returns the counts of that very result,
    and the client's channel has accepted, after what it had, the printed form
    of its columns and rows and nothing else. *)
Theorem masked_result_delivered wr rs patience channel lock_free interrupted chain c
    result result' clock frame d (w : world D) :
  result_identity (expected c) = Ok (expected c) ->
  result_limits (result_limits_ c) = Ok (result_limits_ c) ->
  Adapter.typed_masked_result result = Ok result' ->
  encode_result result (expected c) (result_limits_ c) clock = Ok frame ->
  (1 <= patience)%nat -> prompt channel (Transport.received (source_io w) ++ frame) -> eager C d ->
  live (own_deadline c) -> live d -> (forall n, lock_free n = true) -> (forall n, interrupted n = false) ->
  state (self w) = NEW ->
  exists w1 w2 columns rows,
    call_alone wr rs patience channel lock_free interrupted chain c ReceiveStart w =
      (Returned (Ok Nothing), w1) /\
    call_alone wr rs patience channel lock_free interrupted chain c (SendStart d) w1 =
      (Returned (Ok (Summary (Some
         {| s_columns := Z.of_nat (length (Adapter.columns (Adapter.masked result)));
            s_rows := Z.of_nat (length (Adapter.rows (Adapter.masked result)));
            s_truncated := Adapter.truncated (Adapter.masked result) |}))), w2) /\
    wire_result result = Some (columns, rows) /\
    Transport.accepted (target_io w2) = Transport.accepted (target_io w) ++ print_body columns rows.
Proof.
  intros Hi Hl Ht He Hp Hprompt Heager L1 L2 Hlock Hint Hs.
  pose proof (encode_spec (result_limits_ c) clock result result' (expected c) _ _ new_encoder Ht Hi Hl) as W.
  unfold wpe in W. unfold encode_result in He.
  destruct (encode _ _ _ _ _) as [[f|e] s']; cbn [fst] in He; [|discriminate]. injection He as ->.
  destruct W as (cols & rows & [R V] & ->).
  set (tr := Adapter.truncated (Adapter.masked result)) in *.
  set (v := {| wire := print_frame (expected c) tr cols rows; v_columns := Z.of_nat (length cols);
               v_rows := Z.of_nat (length rows); v_truncated := tr |}).
  assert (G : genuine c v) by (exists tr, cols, rows; split; [exact V|reflexivity]).
  destruct (receive_prompt patience channel c Hi Hl L1 Hp wr rs lock_free interrupted chain Hlock Hint v w
    Hs G Hprompt) as (w1 & E1 & S1 & O1 & M1 & T1).
  destruct (send_eager patience channel c Hi Hl Hp wr rs lock_free interrupted chain Hlock Hint v d w1
    L2 Heager G S1 O1 M1) as (w2 & E2 & _ & A2).
  exists w1, w2, cols, rows. split; [exact E1|].
  pose proof R as R0. apply wire_result_spec in R as [R1 R2]. destruct (typed_facts _ _ Ht) as (_ & Wo & _).
  apply Forall2_length in R1. rewrite length_zip_with, length_map, Wo, Nat.min_id in R1.
  split; [rewrite E2; unfold summary_of, v; cbn; rewrite <- R1, <- (Forall2_length _ _ _ R2); reflexivity|].
  split; [exact R0|]. rewrite A2, T1. f_equal. apply payload_print, Hi.
Qed.
End delivery.

(** ** Witness *)

(** A client's channel in memory, with its count of clock readings. *)
#[local] Instance memory : Transport.SendChannel (list byte * nat) := {|
  Transport.channel_send := fun data _ s => (Ok tt, (s.1 ++ data, s.2));
  Transport.accepted := fst;
  Transport.clock_count := snd;
  Transport.set_clock := fun n s => (s.1, n);
|}.

#[local] Instance memory_laws : Transport.SendChannelLaws memory.
Proof.
  split; [|reflexivity]. intros data d s. exists data, []. rewrite app_nil_r.
  split; [reflexivity|]. split; [reflexivity|auto].
Qed.

Lemma memory_eager d : eager memory d.
Proof. intros data s. eexists. reflexivity. Qed.

Lemma worker_prompt : prompt worker_socket sample_frame.
Proof.
  split; [vm_compute; discriminate|]. split; [reflexivity|]. intros s wait size Hs [rest E] N.
  cbn [worker_socket Transport.sock_recv]. rewrite E. rewrite drop_app_length.
  destruct rest as [|b rest]; [rewrite app_nil_r in E; congruence|].
  set (k := Z.to_nat (Z.min 7 size)). eexists. split; [reflexivity|]. split.
  - unfold blen. rewrite length_take. cbn [length]. lia.
  - exists (drop k (b :: rest)). rewrite <- app_assoc, take_drop. reflexivity.
Qed.

Definition start_world : world (list byte * nat) :=
  {| self := fresh; book := sample_book; events := [false]; source_io := Transport.sample_io;
     target_io := (ascii_lit "Z", 0%nat); reads := 0; attempts := 0; transfers := 0 |}.

Lemma masked_result_delivered_witness : exists w1 w2 : world (list byte * nat),
  call_alone Budget.always_written Budget.always_restored 1 worker_socket free_lock calm no_links
    sample_settings ReceiveStart start_world = (Returned (Ok Nothing), w1) /\
  exists columns rows, wire_result sample_typed = Some (columns, rows) /\
    Transport.accepted (target_io w2) = ascii_lit "Z" ++ print_body columns rows.
Proof.
  destruct (masked_result_delivered Budget.always_written Budget.always_restored 1 worker_socket free_lock calm
    no_links sample_settings sample_typed sample_typed still_deadline _ still start_world eq_refl eq_refl eq_refl
    sample_encoded (le_n 1) worker_prompt (memory_eager still) (fun _ => eq_refl) (fun _ => eq_refl)
    (fun _ => eq_refl) (fun _ => eq_refl) eq_refl) as (w1 & w2 & columns & rows & E1 & _ & R & A).
  exists w1, w2. split; [exact E1|]. exists columns, rows. split; [exact R|exact A].
Defined.
