(* ===== verification/WorkerProtocol.v ===== *)
(** * WorkerProtocol: the private wire between a gateway and its worker

    Models [runtime/worker_protocol.py]: the header, the eight kinds of packet,
    their encoders and decoders, and the check of a deadline.  A record's
    [__post_init__] is the function of the record's name in lower case; the
    type checks of the source are the types.  A [float] is its 64 bits, read as
    an IEEE binary64 where the code compares or subtracts. *)

From S2P Require Import Prelude.
From S2P Require Import Bytes.
From S2P Require Import Struct.
From S2P Require Import Unicode.
From S2P Require Import Transformers.
From S2P Require ResultFrame.
From Stdlib Require Import Floats.SpecFloat.

Local Open Scope Z_scope.

(** ** Constants *)

Definition MAX_SNAPSHOT_BYTES : Z := 65536.
Definition MAX_SQL_BYTES : Z := 65536.
Definition MAX_ID : Z := Z.shiftl 1 63 - 1.
Definition MAX_PID : Z := Z.shiftl 1 31 - 1.
Definition MAX_FRAME : Z := 16 * 1024 * 1024.
Definition NONCE_SIZE : Z := 32.
Definition SIGKILL : Z := 9.
Definition HEADER : list field := [Raw 4; U1; U1; U2; U4].
Definition MAGIC : list byte := ascii_lit "MGW2".
Definition VERSION : Z := 2.
Definition HEADER_BYTES : Z := size HEADER.
Definition KEY : list field := [Raw 16; Raw 16; U8; U8].
Definition LIMITS : list field := [U4; U4; U4; U2; U2].
Definition INIT : list field := [Double; Raw 32; U4].
Definition QUERY : list field := [U8; Double].
Definition GUARD : list field := [U4; U4; U8; U1; U1; U2].
Definition ERROR : list field := [U8; U1; U1; U2].
Definition JOB : list field := [U8].
Definition INIT_FIXED : Z := size KEY + size LIMITS + size INIT.
Definition QUERY_FIXED : Z := size KEY + size QUERY.

Module Kind.
Inductive t := GUARD_READY | INIT | OPENED | QUERY | ERROR | RESULT | DONE | CLOSE.
Definition value (k : t) : Z :=
  match k with
  | GUARD_READY => 1 | INIT => 2 | OPENED => 3 | QUERY => 4
  | ERROR => 5 | RESULT => 6 | DONE => 7 | CLOSE => 8
  end.
Definition all : list t := [GUARD_READY; INIT; OPENED; QUERY; ERROR; RESULT; DONE; CLOSE].
End Kind.

#[export] Instance kind_eq_dec : EqDecision Kind.t.
Proof. solve_decision. Defined.

Module WireFailure.
Inductive t :=
| QUERY | TIMEOUT | TYPE | LIMIT | MEMORY | RESOURCE | CONNECTION | INTERNAL | PROTOCOL | DEADLINE.
Definition value (f : t) : Z :=
  match f with
  | QUERY => 1 | TIMEOUT => 2 | TYPE => 3 | LIMIT => 4 | MEMORY => 5 | RESOURCE => 6
  | CONNECTION => 7 | INTERNAL => 8 | PROTOCOL => 9 | DEADLINE => 10
  end.
Definition all : list t :=
  [QUERY; TIMEOUT; TYPE; LIMIT; MEMORY; RESOURCE; CONNECTION; INTERNAL; PROTOCOL; DEADLINE].
End WireFailure.

#[export] Instance wire_failure_eq_dec : EqDecision WireFailure.t.
Proof. solve_decision. Defined.

(** [_KINDS.get(tag)] and [_FAILURES.get(code)]. *)
Definition KINDS (tag : Z) : option Kind.t := find (fun k => Kind.value k =? tag) Kind.all.
Definition FAILURES (code : Z) : option WireFailure.t :=
  find (fun f => WireFailure.value f =? code) WireFailure.all.

Definition RECOVERABLE : list WireFailure.t :=
  [WireFailure.QUERY; WireFailure.TIMEOUT; WireFailure.TYPE; WireFailure.LIMIT].

(** [_LENGTHS[kind]]: the smallest and the largest body. *)
Definition LENGTHS (kind : Kind.t) : Z * Z :=
  match kind with
  | Kind.GUARD_READY => (size GUARD, size GUARD)
  | Kind.INIT => (INIT_FIXED + 1, INIT_FIXED + MAX_SNAPSHOT_BYTES)
  | Kind.OPENED => (NONCE_SIZE, NONCE_SIZE)
  | Kind.QUERY => (QUERY_FIXED + 1, QUERY_FIXED + MAX_SQL_BYTES)
  | Kind.ERROR => (size KEY + size ERROR, size KEY + size ERROR)
  | Kind.RESULT => (0, 0)
  | Kind.DONE => (size KEY + size JOB, size KEY + size JOB)
  | Kind.CLOSE => (0, 0)
  end.

(** What leaves a codec: its own error, or one of the result frame's. *)
Inductive wire_exn := WorkerProtocolError | ResultFrameError (category : ResultFrame.ResultErrorCategory).

Definition need (condition : bool) : res wire_exn unit := refuse_if (negb condition) WorkerProtocolError.

Definition number (value maximum minimum : Z) : bool := (minimum <=? value) && (value <=? maximum).

Definition bytes (value : list byte) (n : Z) : bool := blen value =? n.

(** ** Deadlines *)

(** The number a binary64's bits stand for; what is not 64 bits wide is read
    as not a number. *)
Definition float_of_bits (b : Z) : spec_float :=
  if (b <? 0) || (2 ^ 64 <=? b) then S754_nan else
  let sign := 2 ^ 63 <=? b in
  let exponent := Z.land (Z.shiftr b 52) 2047 in
  let mantissa := Z.land b (2 ^ 52 - 1) in
  if exponent =? 2047 then if mantissa =? 0 then S754_infinity sign else S754_nan
  else if exponent =? 0 then
    match mantissa with Zpos m => S754_finite sign m (-1074) | _ => S754_zero sign end
  else
    match mantissa + 2 ^ 52 with Zpos m => S754_finite sign m (exponent - 1075) | _ => S754_nan end.

Definition isfinite (f : spec_float) : bool :=
  match f with S754_zero _ | S754_finite _ _ _ => true | _ => false end.

Definition zero : spec_float := S754_zero false.

(** [_expiry]. *)
Definition expiry (value : spec_float) : bool := isfinite value && SFltb zero value.

(** [610.0]. *)
Definition MAX_DEADLINE_SECONDS : spec_float := S754_finite false (610 * 2 ^ 43) (-43).

(** [check_deadline]; the difference is the rounded one of binary64. *)
Definition check_deadline (expires_at now maximum_seconds : spec_float) : res wire_exn unit :=
  need (expiry expires_at && expiry maximum_seconds);;
  need (isfinite now && SFleb zero now);;
  let left_ := SFsub 53 1024 expires_at now in
  need (SFltb zero left_ && SFleb left_ maximum_seconds &&
        SFleb maximum_seconds MAX_DEADLINE_SECONDS).

(** ** Records *)

Record SessionKey := {
  session_id : list byte;
  datasource_id : list byte;
  generation : Z;
  record_revision : Z;
}.

(** [SessionKey.__post_init__]. *)
Definition session_key (k : SessionKey) : res wire_exn SessionKey :=
  need (bytes (session_id k) 16 && bytes (datasource_id k) 16);;
  need (number (generation k) MAX_ID 1 && number (record_revision k) MAX_ID 1);;
  Ok k.

(** [SessionKey.result_identity]. *)
Definition result_identity (k : SessionKey) (job_id : Z) : res wire_exn ResultFrame.ResultIdentity :=
  session_key k;;
  need (number job_id MAX_ID 1);;
  match ResultFrame.result_identity
          {| ResultFrame.session_id := session_id k; ResultFrame.datasource_id := datasource_id k;
             ResultFrame.generation := generation k; ResultFrame.record_revision := record_revision k;
             ResultFrame.job_id := job_id |} with
  | Ok i => Ok i
  | Err c => Err (ResultFrameError c)
  end.

(** [SessionKey.datasource_text]. *)
Definition datasource_text (k : SessionKey) : res wire_exn pystr :=
  session_key k;; Ok (py "dso_" ++ hexdigest (datasource_id k)).

(** [_key_bytes] and [_key_from]. *)
Definition key_bytes (k : SessionKey) : res wire_exn (list byte) :=
  session_key k;;
  Ok (pack KEY (session_id k, (datasource_id k, (generation k, (record_revision k, tt))))).

Definition key_from (data : list byte) : res wire_exn SessionKey :=
  let '(session, (datasource, (gen, (revision, _)))) := unpack_from KEY data 0 in
  session_key {| session_id := session; datasource_id := datasource;
                 generation := gen; record_revision := revision |}.

(** [_limits_valid]. *)
Definition limits_valid (l : ResultFrame.ResultLimits) : res wire_exn unit :=
  need (is_ok (ResultFrame.result_limits l)).

Record SecretInit := {
  i_key : SessionKey;
  i_limits : ResultFrame.ResultLimits;
  i_expires_at : Z;
  i_nonce : list byte;
  i_snapshot : list byte;
}.

(** [SecretInit.__post_init__]. *)
Definition secret_init (v : SecretInit) : res wire_exn SecretInit :=
  key_bytes (i_key v);;
  limits_valid (i_limits v);;
  need (expiry (float_of_bits (i_expires_at v)) && bytes (i_nonce v) NONCE_SIZE);;
  need ((1 <=? blen (i_snapshot v)) && (blen (i_snapshot v) <=? MAX_SNAPSHOT_BYTES));;
  Ok v.

Record Query := {
  q_key : SessionKey;
  q_job_id : Z;
  q_expires_at : Z;
  q_sql : list byte;
}.

(** [Query.__post_init__]. *)
Definition query (v : Query) : res wire_exn Query :=
  key_bytes (q_key v);;
  need (number (q_job_id v) MAX_ID 1 && expiry (float_of_bits (q_expires_at v)));;
  need ((1 <=? blen (q_sql v)) && (blen (q_sql v) <=? MAX_SQL_BYTES) &&
        negb (existsb (fun b => b2z b =? 0) (q_sql v)));;
  refuse_if (bool_decide (utf8_decode (q_sql v) = None)) WorkerProtocolError;;
  Ok v.

Record ErrorReply := {
  e_key : SessionKey;
  e_job_id : Z;
  e_category : WireFailure.t;
  e_can_continue : bool;
}.

(** [ErrorReply.__post_init__]. *)
Definition error_reply (v : ErrorReply) : res wire_exn ErrorReply :=
  key_bytes (e_key v);;
  need (number (e_job_id v) MAX_ID 0);;
  need (negb (e_can_continue v) ||
        ((0 <? e_job_id v) && bool_decide (e_category v ∈ RECOVERABLE)));;
  Ok v.

(** ** Packets *)

Definition check_length (kind : Kind.t) (n : Z) : res wire_exn unit :=
  need (number n MAX_FRAME 0);;
  need (((LENGTHS kind).1 <=? n) && (n <=? (LENGTHS kind).2)).

(** [_body]. *)
Definition body (kind : Kind.t) (data : list byte) : res wire_exn unit := check_length kind (blen data).

Definition parse_header (data : list byte) : res wire_exn (Kind.t * Z) :=
  need (bytes data HEADER_BYTES);;
  let '(magic, (version, (tag, (reserved, (n, _))))) := unpack_from HEADER data 0 in
  need (bool_decide (magic = MAGIC) && (version =? VERSION) && (reserved =? 0));;
  match KINDS tag with
  | None => Err WorkerProtocolError
  | Some kind => check_length kind n;; Ok (kind, n)
  end.

Definition packet (kind : Kind.t) (data : list byte) : res wire_exn (list byte) :=
  body kind data;;
  Ok (pack HEADER (MAGIC, (VERSION, (Kind.value kind, (0, (blen data, tt))))) ++ data).

(** ** Encoders and decoders *)

Definition encode_init (v : SecretInit) : res wire_exn (list byte) :=
  secret_init v;;
  let limits := i_limits v in
  key ← key_bytes (i_key v);
  packet Kind.INIT
    (key ++
     pack LIMITS (ResultFrame.max_rows limits, (ResultFrame.max_frame_bytes limits,
       (ResultFrame.max_cell_bytes limits, (ResultFrame.max_columns limits,
        (ResultFrame.max_name_bytes limits, tt))))) ++
     pack INIT (i_expires_at v, (i_nonce v, (blen (i_snapshot v), tt))) ++
     i_snapshot v).

Definition decode_init (data : list byte) : res wire_exn SecretInit :=
  body Kind.INIT data;;
  key ← key_from data;
  let '(rows, (frame, (cell, (columns, (name, _))))) := unpack_from LIMITS data (size KEY) in
  let limits := {| ResultFrame.max_rows := rows; ResultFrame.max_frame_bytes := frame;
                   ResultFrame.max_cell_bytes := cell; ResultFrame.max_columns := columns;
                   ResultFrame.max_name_bytes := name |} in
  limits_valid limits;;
  let '(expires, (nonce, (n, _))) := unpack_from INIT data (size KEY + size LIMITS) in
  need (n =? blen data - INIT_FIXED);;
  secret_init {| i_key := key; i_limits := limits; i_expires_at := expires; i_nonce := nonce;
                 i_snapshot := slice INIT_FIXED (blen data) data |}.

Definition encode_query (v : Query) : res wire_exn (list byte) :=
  query v;;
  key ← key_bytes (q_key v);
  packet Kind.QUERY (key ++ pack QUERY (q_job_id v, (q_expires_at v, tt)) ++ q_sql v).

Definition decode_query (data : list byte) : res wire_exn Query :=
  body Kind.QUERY data;;
  let '(job, (expires, _)) := unpack_from QUERY data (size KEY) in
  key ← key_from data;
  query {| q_key := key; q_job_id := job; q_expires_at := expires;
           q_sql := slice QUERY_FIXED (blen data) data |}.

Definition encode_error (v : ErrorReply) : res wire_exn (list byte) :=
  error_reply v;;
  key ← key_bytes (e_key v);
  packet Kind.ERROR
    (key ++ pack ERROR (e_job_id v, (WireFailure.value (e_category v),
                        (Z.b2z (e_can_continue v), (0, tt))))).

Definition decode_error (data : list byte) : res wire_exn ErrorReply :=
  body Kind.ERROR data;;
  let '(job, (code, (continuing, (reserved, _)))) := unpack_from ERROR data (size KEY) in
  match FAILURES code with
  | None => Err WorkerProtocolError
  | Some category =>
      need (((continuing =? 0) || (continuing =? 1)) && (reserved =? 0));;
      key ← key_from data;
      error_reply {| e_key := key; e_job_id := job; e_category := category;
                     e_can_continue := negb (continuing =? 0) |}
  end.

Definition encode_done (key : SessionKey) (job_id : Z) : res wire_exn (list byte) :=
  need (number job_id MAX_ID 1);;
  k ← key_bytes key;
  packet Kind.DONE (k ++ pack JOB (job_id, tt)).

Definition decode_done (data : list byte) : res wire_exn (SessionKey * Z) :=
  body Kind.DONE data;;
  let '(job, _) := unpack_from JOB data (size KEY) in
  need (number job MAX_ID 1);;
  key ← key_from data;
  Ok (key, job).

Definition encode_result_notice : res wire_exn (list byte) := packet Kind.RESULT [].

Definition encode_opened (tag : list byte) : res wire_exn (list byte) := packet Kind.OPENED tag.

Definition decode_opened (data : list byte) : res wire_exn (list byte) := body Kind.OPENED data;; Ok data.

Definition encode_guard (pid parent address_bytes : Z) : res wire_exn (list byte) :=
  need (number pid MAX_PID 2 && number parent MAX_PID 1 && negb (pid =? parent));;
  need (number address_bytes (4096 * 1024 * 1024) (64 * 1024 * 1024));;
  packet Kind.GUARD_READY (pack GUARD (pid, (parent, (address_bytes, (0, (SIGKILL, (0, tt))))))).

Definition decode_guard (data : list byte) : res wire_exn (Z * Z * Z) :=
  body Kind.GUARD_READY data;;
  let '(pid, (parent, (address, (dumpable, (death, (reserved, _)))))) := unpack_from GUARD data 0 in
  need ((dumpable =? 0) && (death =? SIGKILL) && (reserved =? 0));;
  encode_guard pid parent address;;
  Ok (pid, parent, address).

Definition encode_close : res wire_exn (list byte) := packet Kind.CLOSE [].

(** ** The grammar of the wire

    What a packet may carry, and its one printed form. *)

Inductive message :=
| MGuard (pid parent address_bytes : Z)
| MInit (v : SecretInit)
| MOpened (tag : list byte)
| MQuery (v : Query)
| MError (v : ErrorReply)
| MResult
| MDone (key : SessionKey) (job_id : Z)
| MClose.

Definition kind_of (m : message) : Kind.t :=
  match m with
  | MGuard _ _ _ => Kind.GUARD_READY | MInit _ => Kind.INIT | MOpened _ => Kind.OPENED
  | MQuery _ => Kind.QUERY | MError _ => Kind.ERROR | MResult => Kind.RESULT
  | MDone _ _ => Kind.DONE | MClose => Kind.CLOSE
  end.

(** The encoder and the decoder of each kind. *)
Definition encode_message (m : message) : res wire_exn (list byte) :=
  match m with
  | MGuard pid parent address => encode_guard pid parent address
  | MInit v => encode_init v
  | MOpened tag => encode_opened tag
  | MQuery v => encode_query v
  | MError v => encode_error v
  | MResult => encode_result_notice
  | MDone key job => encode_done key job
  | MClose => encode_close
  end.

Definition decode_message (kind : Kind.t) (data : list byte) : res wire_exn message :=
  match kind with
  | Kind.GUARD_READY => '(pid, parent, address) ← decode_guard data; Ok (MGuard pid parent address)
  | Kind.INIT => MInit <$> decode_init data
  | Kind.OPENED => MOpened <$> decode_opened data
  | Kind.QUERY => MQuery <$> decode_query data
  | Kind.ERROR => MError <$> decode_error data
  | Kind.RESULT => body kind data;; Ok MResult
  | Kind.DONE => '(key, job) ← decode_done data; Ok (MDone key job)
  | Kind.CLOSE => body kind data;; Ok MClose
  end.

(** A reader of one packet: the header first, then a body of the size it
    announced, as the receivers of the program read. *)
Definition read_message (stream : list byte) : res wire_exn (message * list byte) :=
  '(kind, n) ← parse_header (slice 0 HEADER_BYTES stream);
  need (HEADER_BYTES + n <=? blen stream);;
  m ← decode_message kind (slice HEADER_BYTES (HEADER_BYTES + n) stream);
  Ok (m, drop (Z.to_nat (HEADER_BYTES + n)) stream).

Definition valid_key (k : SessionKey) : Prop :=
  blen (session_id k) = 16 /\ blen (datasource_id k) = 16 /\
  1 <= generation k <= MAX_ID /\ 1 <= record_revision k <= MAX_ID.

Definition valid_query_text (sql : list byte) : Prop :=
  1 <= blen sql <= MAX_SQL_BYTES /\ existsb (fun b => b2z b =? 0) sql = false /\ utf8_decode sql <> None.

Definition valid (m : message) : Prop :=
  match m with
  | MGuard pid parent address =>
      2 <= pid <= MAX_PID /\ 1 <= parent <= MAX_PID /\ pid <> parent /\
      64 * 1024 * 1024 <= address <= 4096 * 1024 * 1024
  | MInit v =>
      valid_key (i_key v) /\ is_ok (ResultFrame.result_limits (i_limits v)) = true /\
      expiry (float_of_bits (i_expires_at v)) = true /\ blen (i_nonce v) = NONCE_SIZE /\
      1 <= blen (i_snapshot v) <= MAX_SNAPSHOT_BYTES
  | MOpened tag => blen tag = NONCE_SIZE
  | MQuery v =>
      valid_key (q_key v) /\ 1 <= q_job_id v <= MAX_ID /\ expiry (float_of_bits (q_expires_at v)) = true /\
      valid_query_text (q_sql v)
  | MError v =>
      valid_key (e_key v) /\ 0 <= e_job_id v <= MAX_ID /\
      (e_can_continue v = true -> 0 < e_job_id v /\ e_category v ∈ RECOVERABLE)
  | MResult | MClose => True
  | MDone key job => valid_key key /\ 1 <= job <= MAX_ID
  end.

(** *** The printed bodies *)

Definition print_key (k : SessionKey) : list byte :=
  pack KEY (session_id k, (datasource_id k, (generation k, (record_revision k, tt)))).

Definition print_limits (l : ResultFrame.ResultLimits) : list byte :=
  pack LIMITS (ResultFrame.max_rows l, (ResultFrame.max_frame_bytes l, (ResultFrame.max_cell_bytes l,
    (ResultFrame.max_columns l, (ResultFrame.max_name_bytes l, tt))))).

Definition print (m : message) : list byte :=
  match m with
  | MGuard pid parent address => pack GUARD (pid, (parent, (address, (0, (SIGKILL, (0, tt))))))
  | MInit v =>
      print_key (i_key v) ++ print_limits (i_limits v) ++
      pack INIT (i_expires_at v, (i_nonce v, (blen (i_snapshot v), tt))) ++ i_snapshot v
  | MOpened tag => tag
  | MQuery v => print_key (q_key v) ++ pack QUERY (q_job_id v, (q_expires_at v, tt)) ++ q_sql v
  | MError v =>
      print_key (e_key v) ++ pack ERROR (e_job_id v, (WireFailure.value (e_category v),
                                         (Z.b2z (e_can_continue v), (0, tt))))
  | MResult | MClose => []
  | MDone key job => print_key key ++ pack JOB (job, tt)
  end.

Definition packet_of (kind : Kind.t) (data : list byte) : list byte :=
  pack HEADER (MAGIC, (VERSION, (Kind.value kind, (0, (blen data, tt))))) ++ data.

(** *** The tests of the source, as propositions *)

Lemma need_Ok b u : need b = Ok u <-> b = true.
Proof. unfold need. rewrite refuse_if_Ok, negb_false_iff. reflexivity. Qed.

Lemma number_iff v hi lo : number v hi lo = true <-> lo <= v <= hi.
Proof. unfold number. rewrite andb_true_iff, !Z.leb_le. reflexivity. Qed.

Lemma bytes_iff v n : bytes v n = true <-> blen v = n.
Proof. apply Z.eqb_eq. Qed.

Lemma expiry_range v : expiry (float_of_bits v) = true -> 0 <= v < 2 ^ 64.
Proof.
  unfold expiry, float_of_bits. destruct (_ || _) eqn:E; [discriminate|].
  apply orb_false_iff in E as [H1 H2]. apply Z.ltb_ge in H1. apply Z.leb_gt in H2. lia.
Qed.

Lemma check_length_Ok kind n u : check_length kind n = Ok u <->
  0 <= n <= MAX_FRAME /\ (LENGTHS kind).1 <= n <= (LENGTHS kind).2.
Proof.
  unfold check_length. rewrite bind_Ok. split.
  - intros (v & H1 & H2). apply need_Ok in H1, H2. apply number_iff in H1.
    apply andb_true_iff in H2 as [H2 H3]. apply Z.leb_le in H2, H3. auto.
  - intros (H1 & H2 & H3). apply Z.leb_le in H2, H3. exists tt.
    rewrite !need_Ok, number_iff, H2, H3. auto.
Qed.

Lemma session_key_Ok k k' : session_key k = Ok k' <-> k' = k /\ valid_key k.
Proof.
  unfold session_key, valid_key. rewrite bind_Ok. setoid_rewrite bind_Ok. setoid_rewrite need_Ok.
  setoid_rewrite andb_true_iff. setoid_rewrite bytes_iff. setoid_rewrite number_iff. split.
  - intros (? & [? ?] & ? & [? ?] & [= <-]). auto.
  - intros (-> & ? & ? & ? & ?). exists tt. split; [auto|]. exists tt. auto.
Qed.

Lemma key_bytes_Ok k bs : key_bytes k = Ok bs <-> bs = print_key k /\ valid_key k.
Proof.
  unfold key_bytes, print_key. rewrite bind_Ok. setoid_rewrite session_key_Ok. split.
  - intros (k' & [-> V] & [= <-]). auto.
  - intros [-> V]. exists k. auto.
Qed.

Lemma fits_key k : valid_key k ->
  fits KEY (session_id k, (datasource_id k, (generation k, (record_revision k, tt)))).
Proof.
  intros (H1 & H2 & H3 & H4). unfold blen, MAX_ID in *. cbn -[Z.pow Z.shiftl] in *.
  change (Z.shiftl 1 63) with (2 ^ 63) in *. repeat split; lia.
Qed.

Lemma blen_print_key k : blen (print_key k) = 48.
Proof. unfold print_key. rewrite blen_pack. reflexivity. Qed.

#[export] Hint Rewrite blen_print_key : bytes.

(** The key at the front of a body. *)
Lemma key_from_print k rest : valid_key k -> key_from (print_key k ++ rest) = Ok k.
Proof.
  intros V. unfold key_from, print_key.
  rewrite unpack_pack_head by apply fits_key, V.
  apply session_key_Ok. destruct k; split; [reflexivity|exact V].
Qed.

Lemma key_from_sound data k :
  48 <= blen data -> key_from data = Ok k -> valid_key k /\ placed data 0 (print_key k).
Proof.
  intros L. unfold key_from. destruct (pack_unpack KEY data 0) as [P _]; [lia|exact L|].
  destruct (unpack_from KEY data 0) as (s & d & g & r & []). rewrite session_key_Ok.
  intros [-> V]. split; [exact V|exact P].
Qed.

(** *** Printing: an encoder succeeds on the valid messages, with their print *)

Lemma is_okP {E A} (m : res E A) : is_ok m = true <-> exists a, m = Ok a.
Proof. destruct m; cbn; split; eauto; [discriminate|intros [? [=]]]. Qed.

Lemma print_length m : valid m -> check_length (kind_of m) (blen (print m)) = Ok tt.
Proof.
  intros V. apply check_length_Ok.
  destruct m; cbn [kind_of print valid LENGTHS fst snd] in *; unfold print_limits; autorewrite with bytes;
    unfold INIT_FIXED, QUERY_FIXED, GUARD, KEY, LIMITS, INIT, QUERY, ERROR, JOB, valid_query_text,
      NONCE_SIZE, MAX_SNAPSHOT_BYTES, MAX_SQL_BYTES, MAX_FRAME in *;
    cbn [size field_size]; change (blen []) with 0; try lia.
Qed.

Lemma packet_Ok m raw :
  valid m -> packet (kind_of m) (print m) = Ok raw <-> raw = packet_of (kind_of m) (print m).
Proof.
  intros V. unfold packet, body. rewrite (print_length m V).
  change (Ok tt ≫= fun _ => ?k) with k. unfold packet_of. split; congruence.
Qed.

Lemma secret_init_Ok v v' : secret_init v = Ok v' <-> v' = v /\ valid (MInit v).
Proof.
  unfold secret_init, limits_valid. cbn [valid]. split.
  - intros H. inv_ok. repeat match goal with H : need _ = Ok _ |- _ => apply need_Ok in H end.
    match goal with H : key_bytes _ = Ok _ |- _ => apply key_bytes_Ok in H as [_ V] end.
    repeat match goal with H : (_ && _) = true |- _ => apply andb_true_iff in H as [? ?] end.
    rewrite ?bytes_iff, ?Z.leb_le in *. auto 10.
  - intros (-> & V & L & E & N & S1 & S2). apply Z.leb_le in S1, S2. apply bytes_iff in N.
    apply bind_Ok. exists (print_key (i_key v)). split; [apply key_bytes_Ok; auto|].
    rewrite L, E, N, S1, S2. reflexivity.
Qed.

Lemma wire_query_Ok v v' : query v = Ok v' <-> v' = v /\ valid (MQuery v).
Proof.
  unfold query. cbn [valid]. unfold valid_query_text. split.
  - intros H. inv_ok. repeat match goal with H : need _ = Ok _ |- _ => apply need_Ok in H end.
    match goal with H : key_bytes _ = Ok _ |- _ => apply key_bytes_Ok in H as [_ V] end.
    repeat match goal with H : (_ && _) = true |- _ => apply andb_true_iff in H as [? ?] end.
    rewrite ?number_iff, ?Z.leb_le, ?negb_true_iff, ?bool_decide_eq_false in *. auto 10.
  - intros (-> & V & J & E & [S1 S2] & Z0 & U). apply Z.leb_le in S1, S2. apply number_iff in J.
    apply bind_Ok. exists (print_key (q_key v)). split; [apply key_bytes_Ok; auto|].
    rewrite J, E, S1, S2, Z0, bool_decide_eq_false_2 by exact U. reflexivity.
Qed.

Lemma error_reply_Ok v v' : error_reply v = Ok v' <-> v' = v /\ valid (MError v).
Proof.
  unfold error_reply. cbn [valid]. split.
  - intros H. inv_ok. repeat match goal with H : need _ = Ok _ |- _ => apply need_Ok in H end.
    match goal with H : key_bytes _ = Ok _ |- _ => apply key_bytes_Ok in H as [_ V] end.
    rewrite number_iff in *. split; [reflexivity|]. split; [exact V|]. split; [assumption|].
    intros C. rewrite C in *. cbn [negb orb] in *.
    match goal with H : (_ && _) = true |- _ => apply andb_true_iff in H as [? H]; apply bool_decide_eq_true in H end.
    split; [lia|assumption].
  - intros (-> & V & J & C). apply number_iff in J.
    apply bind_Ok. exists (print_key (e_key v)). split; [apply key_bytes_Ok; auto|]. rewrite J.
    change (need true) with (@Ok wire_exn unit tt). change (Ok tt ≫= fun _ => ?k) with k.
    destruct (e_can_continue v); [|reflexivity]. destruct (C eq_refl) as [C1 C2].
    apply Z.ltb_lt in C1. rewrite C1, bool_decide_eq_true_2 by exact C2. reflexivity.
Qed.

Lemma encode_guard_Ok pid parent address raw : encode_guard pid parent address = Ok raw <->
  valid (MGuard pid parent address) /\ raw = packet_of Kind.GUARD_READY (print (MGuard pid parent address)).
Proof.
  split.
  - unfold encode_guard. intros H. inv_ok.
    repeat match goal with H : need _ = Ok _ |- _ => apply need_Ok in H end.
    assert (V : valid (MGuard pid parent address)).
    { repeat match goal with H : (_ && _) = true |- _ => apply andb_true_iff in H as [? ?] end.
      rewrite ?number_iff, ?negb_true_iff, ?Z.eqb_neq in *. cbn [valid]. auto. }
    split; [exact V|]. apply (packet_Ok _ raw) in V. apply V. exact H.
  - intros [V ->]. pose proof V as (H1 & H2 & H3 & H4). unfold encode_guard.
    apply number_iff in H1, H2, H4. apply Z.eqb_neq in H3. rewrite H1, H2, H3, H4.
    apply (packet_Ok _ _ V). reflexivity.
Qed.

(** The encoders that check, print the key and add a tail. *)
Lemma keyed_packet {A} m (check : res wire_exn A) k rest raw :
  (valid_key k -> is_ok check = true <-> valid m) -> (valid m -> valid_key k) ->
  print m = print_key k ++ rest ->
  (check;; key ← key_bytes k; packet (kind_of m) (key ++ rest)) = Ok raw <->
  valid m /\ raw = packet_of (kind_of m) (print m).
Proof.
  intros C K P. rewrite bind_Ok. split.
  - intros (a & Ha & H). apply bind_Ok in H as (bs & Hk & H). apply key_bytes_Ok in Hk as [-> Hk].
    assert (V : valid m) by (apply (C Hk); rewrite Ha; reflexivity).
    split; [exact V|]. rewrite <- P in H. apply (packet_Ok m raw V), H.
  - intros [V ->]. destruct (proj1 (is_okP check)) as [a Ha]; [apply C; auto|].
    exists a. split; [exact Ha|]. apply bind_Ok. exists (print_key k).
    split; [apply key_bytes_Ok; auto|]. rewrite <- P. apply (packet_Ok m _ V). reflexivity.
Qed.

Lemma post_init_ok {A} (check : A -> res wire_exn A) v m (K : Prop) :
  (forall v', check v = Ok v' <-> v' = v /\ valid m) -> K -> is_ok (check v) = true <-> valid m.
Proof.
  intros H _. rewrite is_okP. setoid_rewrite H.
  split; [intros (? & _ & V); exact V|]. intros V. exists v. auto.
Qed.

(** The encoders: what they print, and on what they succeed. *)
Lemma encode_message_Ok m raw :
  encode_message m = Ok raw <-> valid m /\ raw = packet_of (kind_of m) (print m).
Proof.
  destruct m as [pid parent address|v|tag|v|v| |key job|]; cbn [encode_message]; [apply encode_guard_Ok|..].
  - unfold encode_init; cbv zeta. change (pack LIMITS _) with (print_limits (i_limits v)).
    apply (keyed_packet (MInit v));
      [apply post_init_ok; intros; apply secret_init_Ok|intros V; apply V|reflexivity].
  - split; [|intros [V ->]; apply (packet_Ok (MOpened tag) _ V); reflexivity].
    unfold encode_opened, packet, body. intros H. inv_ok. split; [|reflexivity].
    match goal with H : check_length _ _ = Ok _ |- _ => apply check_length_Ok in H end.
    cbn [LENGTHS valid fst snd] in *. lia.
  - apply (keyed_packet (MQuery v));
      [apply post_init_ok; intros; apply wire_query_Ok|intros V; apply V|reflexivity].
  - apply (keyed_packet (MError v));
      [apply post_init_ok; intros; apply error_reply_Ok|intros V; apply V|reflexivity].
  - split; [intros H; split; [exact I|]|intros [V ->]]; apply (packet_Ok MResult _ I); assumption || reflexivity.
  - apply (keyed_packet (MDone key job)); [|intros V; apply V|reflexivity].
    intros K. cbn [valid]. rewrite <- number_iff. destruct (number _ _ _); cbn; [tauto|].
    split; [discriminate|intros [_ [=]]].
  - split; [intros H; split; [exact I|]|intros [V ->]]; apply (packet_Ok MClose _ I); assumption || reflexivity.
Qed.

(** *** Reading back: a decoder takes the prints of the valid messages *)

Lemma body_Ok kind data u : body kind data = Ok u <->
  blen data <= MAX_FRAME /\ (LENGTHS kind).1 <= blen data <= (LENGTHS kind).2.
Proof. unfold body. rewrite check_length_Ok. pose proof (blen_nonneg data). split; intuition lia. Qed.

(** Two adjacent pieces that reach the end are the whole. *)
Lemma placed_whole data a b :
  placed data 0 a -> placed data (blen a) b -> blen a + blen b = blen data -> data = a ++ b.
Proof.
  intros A B L. apply placed_all; [|rewrite blen_app; exact L].
  apply placed_app. rewrite Z.add_0_l. auto.
Qed.

Lemma placed_rest data o : 0 <= o <= blen data -> placed data o (slice o (blen data) data).
Proof. intros H. apply placed_slice; lia. Qed.

Lemma KINDS_Some tag k : KINDS tag = Some k <-> tag = Kind.value k.
Proof.
  unfold KINDS. split.
  - intros H. apply find_some in H as [_ H]. apply Z.eqb_eq in H. auto.
  - intros ->. destruct k; reflexivity.
Qed.

Lemma FAILURES_Some code f : FAILURES code = Some f <-> code = WireFailure.value f.
Proof.
  unfold FAILURES. split.
  - intros H. apply find_some in H as [_ H]. apply Z.eqb_eq in H. auto.
  - intros ->. destruct f; reflexivity.
Qed.

Ltac wire_sizes :=
  unfold INIT_FIXED, QUERY_FIXED, GUARD, KEY, LIMITS, INIT, QUERY, ERROR, JOB, NONCE_SIZE,
    MAX_SNAPSHOT_BYTES, MAX_SQL_BYTES, MAX_FRAME in *;
  cbn [LENGTHS fst snd size field_size] in *.

(** Take the tests of a decoder apart. *)
Ltac wire_inv :=
  inv_ok;
  repeat match goal with
  | H : need _ = Ok _ |- _ => apply need_Ok in H
  | H : body _ _ = Ok _ |- _ => apply body_Ok in H
  | H : (_ && _) = true |- _ => apply andb_true_iff in H as [? ?]
  end.

Lemma decode_guard_Ok data m : decode_message Kind.GUARD_READY data = Ok m <->
  kind_of m = Kind.GUARD_READY /\ valid m /\ data = print m.
Proof.
  cbn [decode_message]. split.
  - intros H. inv_ok. destruct x as [[p q] a]. injection H as <-. match goal with H : decode_guard _ = _ |- _ => revert H end.
    unfold decode_guard. intros H. apply bind_Ok in H as (? & B & H). apply body_Ok in B.
    destruct (unpack_from GUARD data 0) as (pid & parent & address & dumpable & death & reserved & []) eqn:E.
    wire_inv. match goal with H : encode_guard _ _ _ = _ |- _ => apply encode_guard_Ok in H as [V _] end.
    rewrite !Z.eqb_eq in *. subst. split; [reflexivity|]. split; [exact V|].
    apply unpack_all; [|exact E]. cbn [LENGTHS fst snd] in B. lia.
  - destruct m; try (intros [E _]; discriminate E). intros (_ & V & ->). unfold decode_guard.
    pose proof (print_length _ V) as L. unfold body. cbn [kind_of] in L. rewrite L.
    cbn [print]. rewrite unpack_pack_only.
    2:{ destruct V as (? & ? & _ & ?). unfold MAX_PID, SIGKILL in *. cbn -[Z.pow Z.shiftl].
        change (Z.shiftl 1 31) with (2 ^ 31) in *. repeat split; lia. }
    assert (E : is_ok (encode_guard pid parent address_bytes) = true)
      by (apply is_okP; eexists; apply encode_guard_Ok; split; [exact V|reflexivity]).
    apply is_okP in E as [raw E]. cbn. rewrite E. reflexivity.
Qed.

Lemma decode_done_Ok data m : decode_message Kind.DONE data = Ok m <->
  kind_of m = Kind.DONE /\ valid m /\ data = print m.
Proof.
  cbn [decode_message]. unfold decode_done. split.
  - intros H. apply bind_Ok in H as ((k0 & j0) & H & [= <-]). apply bind_Ok in H as (? & B & H). apply body_Ok in B.
    cbn [LENGTHS fst snd] in B. change (size KEY) with 48 in *. change (size JOB) with 8 in *.
    destruct (pack_unpack JOB data 48) as [P F]; [lia|change (size JOB) with 8; lia|].
    destruct (unpack_from JOB data 48) as (job & []). wire_inv.
    match goal with H : key_from _ = _ |- _ => apply key_from_sound in H as [V K]; [|lia] end.
    rewrite number_iff in *. split; [reflexivity|]. split; [split; assumption|]. cbn [print].
    apply placed_whole; [exact K|rewrite blen_print_key; exact P|].
    rewrite blen_print_key, blen_pack. change (size JOB) with 8. lia.
  - destruct m; try (intros [E _]; discriminate E). intros (_ & V & ->).
    pose proof (print_length _ V) as L. unfold body. cbn [kind_of] in L. rewrite L.
    cbn [print]. destruct V as [V J]. rewrite key_from_print by exact V.
    rewrite unpack_pack_tail.
    2:{ unfold MAX_ID in J. change (Z.shiftl 1 63) with (2 ^ 63) in J. cbn -[Z.pow]. split; [lia|exact I]. }
    2:{ rewrite blen_print_key. reflexivity. }
    apply number_iff in J. cbn. rewrite J. reflexivity.
Qed.

Lemma slice_tail a c n : n = blen a -> slice n (blen (a ++ c)) (a ++ c) = c.
Proof.
  intros ->. pose proof (slice_app a c [] (blen a) (blen (a ++ c)) eq_refl (blen_app a c)) as H.
  rewrite app_nil_r in H. exact H.
Qed.

Lemma decode_error_Ok data m : decode_message Kind.ERROR data = Ok m <->
  kind_of m = Kind.ERROR /\ valid m /\ data = print m.
Proof.
  cbn [decode_message]. unfold decode_error. split.
  - intros H. destruct (_ ≫= _) as [v|] eqn:D in H; [injection H as <-|discriminate H].
    apply bind_Ok in D as (? & B & D). apply body_Ok in B.
    cbn [LENGTHS fst snd] in B. change (size KEY) with 48 in *. change (size ERROR) with 12 in *.
    destruct (pack_unpack ERROR data 48) as [P F]; [lia|change (size ERROR) with 12; lia|].
    destruct (unpack_from ERROR data 48) as (job & code & continuing & reserved & []).
    destruct (FAILURES code) as [f|] eqn:C; [|discriminate D]. apply FAILURES_Some in C as ->.
    wire_inv. match goal with H : error_reply _ = _ |- _ => apply error_reply_Ok in H as [-> V] end.
    match goal with H : key_from _ = _ |- _ => apply key_from_sound in H as [_ K]; [|lia] end.
    split; [reflexivity|]. split; [exact V|]. cbn [print e_key e_job_id e_category e_can_continue].
    apply placed_whole; [exact K| |rewrite blen_print_key, blen_pack; change (size ERROR) with 12; lia].
    rewrite blen_print_key. rewrite orb_true_iff, !Z.eqb_eq in *. subst reserved.
    match goal with H : _ \/ _ |- _ => destruct H as [-> | ->] end; exact P.
  - destruct m; try (intros [E _]; discriminate E). intros (_ & V & ->).
    pose proof (print_length _ V) as L. unfold body. cbn [kind_of] in L. rewrite L.
    cbn [print]. pose proof V as (K & J & _). rewrite key_from_print by exact K.
    rewrite unpack_pack_tail.
    2:{ unfold MAX_ID in J. change (Z.shiftl 1 63) with (2 ^ 63) in J.
        cbn -[Z.pow WireFailure.value]. destruct (e_category v), (e_can_continue v); cbn -[Z.pow]; repeat split; lia. }
    2:{ rewrite blen_print_key. reflexivity. }
    cbn -[FAILURES error_reply]. rewrite (proj2 (FAILURES_Some _ _) eq_refl).
    destruct v as [key job category []]; cbn -[error_reply];
      rewrite (proj2 (error_reply_Ok _ _) (conj eq_refl V)); reflexivity.
Qed.

Lemma decode_query_Ok data m : decode_message Kind.QUERY data = Ok m <->
  kind_of m = Kind.QUERY /\ valid m /\ data = print m.
Proof.
  cbn [decode_message]. unfold decode_query. split.
  - intros H. destruct (_ ≫= _) as [v|] eqn:D in H; [injection H as <-|discriminate H].
    apply bind_Ok in D as (? & B & D). apply body_Ok in B.
    cbn [LENGTHS fst snd] in B. change (size KEY) with 48 in *. change QUERY_FIXED with 64 in *.
    destruct (pack_unpack QUERY data 48) as [P F]; [lia|change (size QUERY) with 16; lia|].
    destruct (unpack_from QUERY data 48) as (job & expires & []).
    wire_inv. match goal with H : query _ = _ |- _ => apply wire_query_Ok in H as [-> V] end.
    match goal with H : key_from _ = _ |- _ => apply key_from_sound in H as [_ K]; [|lia] end.
    split; [reflexivity|]. split; [exact V|]. cbn [print q_key q_job_id q_expires_at q_sql].
    apply placed_whole; [exact K| |].
    + rewrite blen_print_key. apply placed_app. split; [exact P|]. rewrite blen_pack.
      apply placed_rest. change (48 + size QUERY) with 64. lia.
    + rewrite blen_print_key, blen_app, blen_pack, blen_slice by lia. change (size QUERY) with 16. lia.
  - destruct m; try (intros [E _]; discriminate E). intros (_ & V & ->).
    pose proof (print_length _ V) as L. unfold body. cbn [kind_of] in L. rewrite L.
    cbn [print]. pose proof V as (K & J & X & _). rewrite key_from_print by exact K.
    rewrite (unpack_pack QUERY _ (print_key (q_key v)) (q_sql v)).
    2:{ unfold MAX_ID in J. change (Z.shiftl 1 63) with (2 ^ 63) in J. apply expiry_range in X.
        cbn -[Z.pow]. repeat split; lia. }
    2:{ rewrite blen_print_key. reflexivity. }
    rewrite app_assoc, slice_tail by (rewrite blen_app, blen_print_key, blen_pack; reflexivity).
    cbn -[query]. rewrite (proj2 (wire_query_Ok _ v)); [reflexivity|]. destruct v. split; [reflexivity|exact V].
Qed.

Lemma decode_init_Ok data m : decode_message Kind.INIT data = Ok m <->
  kind_of m = Kind.INIT /\ valid m /\ data = print m.
Proof.
  cbn [decode_message]. unfold decode_init. split.
  - intros H. destruct (_ ≫= _) as [v|] eqn:D in H; [injection H as <-|discriminate H].
    apply bind_Ok in D as (? & B & D). apply body_Ok in B. apply bind_Ok in D as (key & K & D).
    cbn [LENGTHS fst snd] in B. change INIT_FIXED with 108 in *.
    change (size KEY + size LIMITS) with 64 in *. change (size KEY) with 48 in *.
    destruct (pack_unpack LIMITS data 48) as [P F]; [lia|change (size LIMITS) with 16; lia|].
    destruct (unpack_from LIMITS data 48) as (rows & frame & cell & columns & name & []).
    destruct (pack_unpack INIT data 64) as [P' F']; [lia|change (size INIT) with 44; lia|].
    destruct (unpack_from INIT data 64) as (expires & nonce & n & []).
    wire_inv. match goal with H : secret_init _ = _ |- _ => apply secret_init_Ok in H as [-> V] end.
    apply key_from_sound in K as [_ K]; [|lia].
    match goal with H : (n =? _) = true |- _ => apply Z.eqb_eq in H as -> end.
    split; [reflexivity|]. split; [exact V|]. cbn [print i_key i_limits i_expires_at i_nonce i_snapshot].
    rewrite blen_slice by lia.
    apply placed_whole; [exact K| |].
    + rewrite blen_print_key. apply placed_app. split; [exact P|]. unfold print_limits. rewrite blen_pack.
      apply placed_app. split; [exact P'|]. rewrite blen_pack.
      apply placed_rest. change (48 + size LIMITS + size INIT) with 108. lia.
    + unfold print_limits. rewrite blen_print_key, !blen_app, !blen_pack, blen_slice by lia.
      change (size LIMITS) with 16. change (size INIT) with 44. lia.
  - destruct m; try (intros [E _]; discriminate E). intros (_ & V & ->).
    pose proof (print_length _ V) as L. unfold body. cbn [kind_of] in L. rewrite L.
    pose proof V as (K & Lm & X & N & S). cbn [print]. rewrite key_from_print by exact K.
    unfold print_limits. rewrite (unpack_pack LIMITS _ (print_key (i_key v))).
    2:{ apply is_okP in Lm as [l Hl]. unfold ResultFrame.result_limits in Hl. inv_ok.
        match goal with H : negb _ = false |- _ => apply negb_false_iff in H; revert H end.
        unfold ResultFrame.positive_in, ResultFrame.MAX_ROWS, ResultFrame.MAX_FRAME, ResultFrame.MAX_CELL,
          ResultFrame.MAX_COLUMNS, ResultFrame.MAX_NAME, ResultFrame.HEADER_BYTES.
        rewrite !andb_true_iff, !Z.leb_le. intros Hl. cbn -[Z.pow]. repeat split; lia. }
    2:{ rewrite blen_print_key. reflexivity. }
    rewrite (app_assoc (print_key _)), (unpack_pack INIT _ _ (i_snapshot v)).
    2:{ apply expiry_range in X. unfold MAX_SNAPSHOT_BYTES, NONCE_SIZE, blen in *.
        cbn -[Z.pow]. repeat split; lia. }
    2:{ rewrite blen_app, blen_print_key, blen_pack. reflexivity. }
    rewrite app_assoc, slice_tail by (rewrite !blen_app, blen_print_key, !blen_pack; reflexivity).
    cbn -[secret_init limits_valid blen print_key pack]. destruct v as [key [rows frame cell columns name] expires nonce snapshot].
    cbn -[secret_init limits_valid blen print_key pack] in *. unfold limits_valid. rewrite Lm.
    rewrite !blen_app, blen_print_key, !blen_pack. change (size LIMITS) with 16. change (size INIT) with 44.
    change INIT_FIXED with 108.
    replace (48 + 16 + 44 + blen snapshot - 108) with (blen snapshot) by lia. rewrite Z.eqb_refl.
    cbn -[secret_init]. erewrite (proj2 (secret_init_Ok _ _)); [|split; [reflexivity|exact V]]. reflexivity.
Qed.

Lemma decode_message_Ok kind data m : decode_message kind data = Ok m <->
  kind_of m = kind /\ valid m /\ data = print m.
Proof.
  destruct kind; [apply decode_guard_Ok|apply decode_init_Ok| |apply decode_query_Ok|apply decode_error_Ok| |
                  apply decode_done_Ok|]; cbn [decode_message]; unfold decode_opened.
  - split.
    + intros H. destruct (_ ≫= _) as [v|] eqn:D in H; [injection H as <-|discriminate H]. wire_inv.
      cbn [LENGTHS fst snd] in *. split; [reflexivity|]. split; [cbn [valid]; lia|reflexivity].
    + destruct m; try (intros [E _]; discriminate E). intros (_ & V & ->). unfold body.
      pose proof (print_length _ V) as L. cbn [kind_of print] in *. rewrite L. reflexivity.
  - split.
    + intros H. wire_inv. cbn [LENGTHS fst snd] in *. split; [reflexivity|]. split; [exact I|].
      apply nil_length_inv. unfold blen in *. lia.
    + destruct m; try (intros [E _]; discriminate E). intros (_ & V & ->). reflexivity.
  - split.
    + intros H. wire_inv. cbn [LENGTHS fst snd] in *. split; [reflexivity|]. split; [exact I|].
      apply nil_length_inv. unfold blen in *. lia.
    + destruct m; try (intros [E _]; discriminate E). intros (_ & V & ->). reflexivity.
Qed.

(** *** The header *)

Definition print_header (kind : Kind.t) (n : Z) : list byte :=
  pack HEADER (MAGIC, (VERSION, (Kind.value kind, (0, (n, tt))))).

Lemma parse_header_Ok data kind n : parse_header data = Ok (kind, n) <->
  check_length kind n = Ok tt /\ data = print_header kind n.
Proof.
  unfold parse_header, print_header. split.
  - intros H. apply bind_Ok in H as (? & B & H). apply need_Ok, bytes_iff in B.
    destruct (unpack_from HEADER data 0) as (magic & version & tag & reserved & m & []) eqn:E.
    apply bind_Ok in H as (? & T & H). apply need_Ok in T.
    rewrite !andb_true_iff, bool_decide_eq_true, !Z.eqb_eq in T. destruct T as [[-> ->] ->].
    destruct (KINDS tag) as [k|] eqn:K; [|discriminate H]. apply KINDS_Some in K as ->.
    apply bind_Ok in H as ([] & L & [= -> ->]). split; [exact L|]. apply unpack_all; assumption.
  - intros [L ->]. pose proof (proj1 (check_length_Ok _ _ _) L) as [Ln _]. unfold bytes. rewrite blen_pack.
    rewrite unpack_pack_only.
    2:{ unfold MAX_FRAME, VERSION in *. destruct kind; cbn -[Z.pow MAGIC]; (repeat split; try lia); reflexivity. }
    cbn -[check_length KINDS]. rewrite (proj2 (KINDS_Some _ _) eq_refl), L. reflexivity.
Qed.

(** C27: the wire's grammar.  A reader of packets accepts exactly what an
    encoder writes: from any stream of bytes it takes a message and leaves a
    rest if and only if the stream is the packet some encoder of the program
    returns for that message, followed by the rest.  So every packet is read
    back as it was, no packet is a prefix of another one, a message has one
    encoding, and nothing an encoder would refuse is ever accepted. *)
Theorem wire_grammar stream m rest :
  read_message stream = Ok (m, rest) <->
  exists raw, encode_message m = Ok raw /\ stream = raw ++ rest.
Proof.
  unfold read_message. split.
  - intros H. apply bind_Ok in H as ([k n] & P & H). apply parse_header_Ok in P as [L P].
    apply bind_Ok in H as (? & N & H). apply need_Ok, Z.leb_le in N.
    apply bind_Ok in H as (m' & D & [= -> <-]). apply decode_message_Ok in D as (<- & V & D).
    pose proof (proj1 (check_length_Ok _ _ _) L) as [Ln _]. change HEADER_BYTES with 12 in *.
    assert (E : n = blen (print m)) by (rewrite <- D, blen_slice by lia; lia).
    exists (packet_of (kind_of m) (print m)). split; [apply encode_message_Ok; auto|].
    unfold packet_of. fold (print_header (kind_of m) (blen (print m))). rewrite <- E, <- P, <- D at 1.
    rewrite <- slice_split by lia. unfold slice. rewrite Z.sub_0_r. change (drop (Z.to_nat 0) stream) with stream.
    rewrite take_drop. reflexivity.
  - intros (raw & H & ->). apply encode_message_Ok in H as [V ->]. unfold packet_of.
    fold (print_header (kind_of m) (blen (print m))). set (h := print_header _ _).
    assert (Hh : blen h = HEADER_BYTES) by apply blen_pack. rewrite <- app_assoc.
    pose proof (slice_app [] h (print m ++ rest) 0 HEADER_BYTES eq_refl (eq_sym Hh)) as S0.
    change ([] ++ ?l) with l in S0. rewrite S0.
    rewrite (proj2 (parse_header_Ok h (kind_of m) (blen (print m))) (conj (print_length m V) eq_refl)).
    change (Ok ?x ≫= ?k) with (k x). cbv beta iota.
    rewrite (slice_app h (print m) rest) by lia.
    rewrite (proj2 (decode_message_Ok (kind_of m) _ m)) by auto.
    pose proof (blen_nonneg rest). rewrite (proj2 (need_Ok _ tt)).
    2:{ apply Z.leb_le. rewrite !blen_app. lia. }
    do 2 change (Ok ?x ≫= ?k) with (k x). cbv beta. do 2 f_equal. rewrite app_assoc, <- Hh, <- blen_app.
    unfold blen. rewrite Nat2Z.id. apply drop_app_length.
Qed.

(** ** Deadlines, exactly

    A finite binary64 is an integer multiple of 2^-1074: [exactly] is that
    integer, so that two floats compare without any rounding. *)

Definition exactly (f : spec_float) : Z :=
  match f with S754_finite s m e => (if s then -1 else 1) * Z.pos m * 2 ^ (e + 1074) | _ => 0 end.

Definition scaled (f : spec_float) : Prop :=
  match f with S754_finite _ _ e => -1074 <= e | _ => True end.

Lemma float_of_bits_scaled b : scaled (float_of_bits b).
Proof.
  unfold float_of_bits. destruct (_ || _); [exact I|].
  assert (R : 0 <= Z.land (Z.shiftr b 52) 2047) by (apply Z.land_nonneg; right; lia).
  revert R. generalize (Z.land (Z.shiftr b 52) 2047) as e, (Z.land b (2 ^ 52 - 1)) as m. intros e m R.
  destruct (e =? 2047); [destruct (m =? 0); exact I|].
  destruct (Z.eqb_spec e 0).
  - destruct m; cbn [scaled]; exact I || lia.
  - destruct (m + 2 ^ 52); cbn [scaled]; exact I || lia.
Qed.

Lemma round_not_positive m e : SFltb zero (binary_round 53 1024 true m e) = false.
Proof.
  unfold binary_round. destruct (shl_align _ _ _) as [m1 e1]. unfold binary_round_aux.
  destruct (shr_fexp _ _ _ _ _) as [r1 e2]. destruct (shr_fexp _ _ _ _ _) as [r2 e3].
  destruct (shr_m r2); [reflexivity| |reflexivity]. destruct (_ <=? _); reflexivity.
Qed.

Lemma shl_align_scale m ex ez : ez <= ex -> Z.pos (fst (shl_align m ex ez)) = Z.pos m * 2 ^ (ex - ez).
Proof.
  intros H. unfold shl_align. destruct (ez - ex) as [|d|d] eqn:E; [|lia|].
  - replace (ex - ez) with 0 by lia. cbn [fst]. lia.
  - replace (ex - ez) with (Z.pos d) by lia. cbn [fst].
    change (Pos.iter xO m d) with (Zpower.shift_pos d m). rewrite Zpower.shift_pos_correct.
    change (Z.pow_pos 2 d) with (2 ^ Z.pos d). lia.
Qed.

(** A difference that rounds to a positive number is positive. *)
Lemma sub_positive x y :
  scaled x -> scaled y -> isfinite x = true -> isfinite y = true ->
  SFltb zero (SFsub 53 1024 x y) = true -> exactly y < exactly x.
Proof.
  destruct x as [sx| | |sx mx ex], y as [sy| | |sy my ey]; try discriminate; intros Hx Hy _ _;
    cbn [SFsub scaled] in *.
  - destruct sx, sy; discriminate.
  - cbn [exactly]. destruct sy; [intros _|discriminate]. pose proof (Z.pow_pos_nonneg 2 (ey + 1074)). nia.
  - cbn [exactly]. destruct sx; [discriminate|intros _]. pose proof (Z.pow_pos_nonneg 2 (ex + 1074)). nia.
  - cbv zeta. set (ez := Z.min ex ey). rewrite !shl_align_scale by lia.
    assert (Ex : forall s m e, -1074 <= e -> ez <= e -> exactly (S754_finite s m e) =
      cond_Zopp s (Z.pos m * 2 ^ (e - ez)) * 2 ^ (ez + 1074)).
    { intros s m e H1 H2. cbn [exactly]. replace (e + 1074) with ((e - ez) + (ez + 1074)) by lia.
      rewrite Z.pow_add_r by lia. destruct s; cbn [cond_Zopp]; ring. }
    rewrite !Ex by lia. pose proof (Z.pow_pos_nonneg 2 (ez + 1074)).
    destruct (_ - _) as [|d|d] eqn:D; cbn [binary_normalize]; [discriminate|intros _; nia|].
    rewrite round_not_positive. discriminate.
Qed.

(** An accepted deadline has not passed.  When [check_deadline] accepts,
    the clock's reading lies strictly before the deadline as exact numbers,
    whatever the rounding of the difference it tests, and neither is negative,
    infinite or not a number. *)
Theorem deadline_after_now expires_at now maximum_seconds :
  scaled expires_at -> scaled now ->
  check_deadline expires_at now maximum_seconds = Ok tt ->
  0 <= exactly now < exactly expires_at.
Proof.
  unfold check_deadline, expiry. intros Se Sn H. wire_inv. split.
  - destruct now as [|s| |s m e]; try discriminate.
    destruct s; [discriminate|]. cbn [exactly scaled] in *. pose proof (Z.pow_pos_nonneg 2 (e + 1074)). nia.
  - apply sub_positive; auto.
Qed.

(** ** Witnesses *)

(** [605.75], read at [2.5], under [610.0]. *)
Lemma deadline_after_now_witness :
  0 <= exactly (float_of_bits 4612811918334230528) < exactly (float_of_bits 4648539449167183872).
Proof.
  apply (deadline_after_now _ _ MAX_DEADLINE_SECONDS);
    [apply float_of_bits_scaled|apply float_of_bits_scaled|reflexivity].
Defined.
