(* ===== verification/SessionState.v ===== *)
(** * SessionState: the metadata a worker pins of its database session

    Models [db/session_state.py]: the normalization of the row that
    [SESSION_STATE_SQL] returns, and the comparison with a later one.  A field
    of the row is a [cell]; an element of an array is [None] when it is not a
    [str]. *)

From S2P Require Import Prelude.
From S2P Require Import Bytes.
From S2P Require Import Unicode.

Local Open Scope Z_scope.

Inductive cell :=
| Text (s : pystr)
| Number (n : Z)
| Names (l : list (option pystr))
| Other.

#[export] Instance cell_eq_dec : EqDecision cell.
Proof. solve_decision. Defined.

Definition FIELDS : nat := 25.
Definition ARRAYS : list nat := [3; 18]%nat.
Definition NUMBERS : list nat := [4; 14; 17]%nat.
Definition MAX_TEXT_BYTES : Z := 8192.
Definition MAX_TOTAL_BYTES : Z := 65536.
Definition MAX_SCHEMAS : Z := 64.
Definition DEFAULT_READONLY : nat := 5.
Definition READONLY : nat := 6.
Definition ENCODING : nat := 8.
Definition ROW_SECURITY : nat := 13.
Definition BACKEND_PID : nat := 14.
Definition STANDARD_STRINGS : nat := 16.
Definition TEMP_SCHEMA : nat := 4.
Definition ADVISORY_LOCKS : nat := 17.
Definition CHANNELS : nat := 18.

Inductive session_error := WorkerSessionStateError.

(** [_need]. *)
Definition require (value : bool) : res session_error unit := refuse_if (negb value) WorkerSessionStateError.

(** [_text] of a [str]: its length in UTF-8. *)
Definition text (s : pystr) : res session_error Z :=
  require ((Z.of_nat (length s) <=? MAX_TEXT_BYTES) && negb (existsb (fun c => c =? 0) s));;
  match utf8_encode s with
  | None => Err WorkerSessionStateError
  | Some bs => require (blen bs <=? MAX_TEXT_BYTES);; Ok (blen bs)
  end.

(** [_text] of each element of an array. *)
Fixpoint names (total : Z) (array : list (option pystr)) : res session_error Z :=
  match array with
  | [] => Ok total
  | None :: _ => Err WorkerSessionStateError
  | Some name :: array => n ← text name; names (total + n) array
  end.

(** One turn of [_normalize]'s loop: the bytes counted so far. *)
Definition field (index : nat) (value : cell) (total : Z) : res session_error Z :=
  total ← (if bool_decide (index ∈ ARRAYS) then
             match value with
             | Names array => require (Z.of_nat (length array) <=? MAX_SCHEMAS);; names total array
             | _ => Err WorkerSessionStateError
             end
           else if bool_decide (index ∈ NUMBERS) then
             match value with Number _ => Ok total | _ => Err WorkerSessionStateError end
           else
             match value with Text s => n ← text s; Ok (total + n) | _ => Err WorkerSessionStateError end);
  require (total <=? MAX_TOTAL_BYTES);;
  Ok total.

Fixpoint fields (index : nat) (values : list cell) (total : Z) : res session_error unit :=
  match values with
  | [] => Ok tt
  | value :: values => total ← field index value total; fields (S index) values total
  end.

Definition value_is (values : list cell) (index : nat) (expected : cell) : bool :=
  bool_decide (values !! index = Some expected).

(** [_normalize]; a list and a tuple are the same [Names]. *)
Definition normalize (row : list cell) : res session_error (list cell) :=
  require (length row =? FIELDS)%nat;;
  fields 0 row 0;;
  require (value_is row TEMP_SCHEMA (Number 0) && value_is row ADVISORY_LOCKS (Number 0) &&
           value_is row CHANNELS (Names []));;
  require (forallb (fun i => value_is row i (Text (py "on")))
             [DEFAULT_READONLY; READONLY; ROW_SECURITY; STANDARD_STRINGS]);;
  require (value_is row ENCODING (Text (py "UTF8")));;
  match row !! BACKEND_PID with
  | Some (Number backend) => require ((0 <? backend) && (backend <? Z.shiftl 1 31));; Ok row
  | _ => Err WorkerSessionStateError
  end.

(** [WorkerSessionState.__post_init__] keeps the normalized row;
    [require_same] normalizes both again. *)
Definition require_same (left_ right_ : list cell) : res session_error unit :=
  l ← normalize left_;
  r ← normalize right_;
  require (bool_decide (l = r)).

(** A row that was accepted is a read-only session with row security, in
    UTF-8, with no temporary schema, no advisory lock and no listener. *)
Definition safe_session (row : list cell) : Prop :=
  length row = FIELDS /\
  row !! DEFAULT_READONLY = Some (Text (py "on")) /\ row !! READONLY = Some (Text (py "on")) /\
  row !! ROW_SECURITY = Some (Text (py "on")) /\ row !! STANDARD_STRINGS = Some (Text (py "on")) /\
  row !! ENCODING = Some (Text (py "UTF8")) /\
  row !! TEMP_SCHEMA = Some (Number 0) /\ row !! ADVISORY_LOCKS = Some (Number 0) /\
  row !! CHANNELS = Some (Names []) /\
  exists pid, row !! BACKEND_PID = Some (Number pid) /\ 0 < pid < 2 ^ 31.

Lemma require_Ok b u : require b = Ok u <-> b = true.
Proof. unfold require. rewrite refuse_if_Ok, negb_false_iff. reflexivity. Qed.

Lemma value_is_iff values i c : value_is values i c = true <-> values !! i = Some c.
Proof. apply bool_decide_eq_true. Qed.

Lemma normalize_safe row row' : normalize row = Ok row' -> row' = row /\ safe_session row.
Proof.
  unfold normalize, safe_session. intros H. inv_ok.
  destruct (row !! BACKEND_PID) as [[| pid | |]|]; try discriminate H. inv_ok.
  repeat match goal with H : require _ = Ok _ |- _ => apply require_Ok in H end.
  cbn [forallb] in *. rewrite ?andb_true_iff, ?value_is_iff, ?Nat.eqb_eq, ?Z.ltb_lt in *.
  change (Z.shiftl 1 31) with (2 ^ 31) in *. intuition eauto.
Qed.

Lemma require_same_Ok l r u : require_same l r = Ok u -> l = r /\ safe_session l.
Proof.
  unfold require_same. intros H. inv_ok.
  match goal with H : require _ = Ok _ |- _ => apply require_Ok, bool_decide_eq_true in H as -> end.
  repeat match goal with H : normalize _ = Ok _ |- _ => apply normalize_safe in H as [-> ?] end. auto.
Qed.
