(* ===== verification/WorkerJob.v ===== *)
(** * WorkerJob: one private job, from the text of a query to a complete frame

    Models [runtime/worker_job.py] over the adapter and the encoder, and the
    health of a typed connection of [db/postgres.py].  The job reads the clock
    of one absolute deadline; every exception becomes an outcome, so that
    [run_job] returns one whatever happens.  The clearing of tracebacks and the
    checks of Python types are not modelled. *)

From S2P Require Import Prelude.
From S2P Require Import Bytes.
From S2P Require Import Unicode.
From S2P Require Import Transformers.
From S2P Require Import Masking.
From S2P Require Import Sql.
From S2P Require Import Sensitivity.
From S2P Require Import Config.
From S2P Require Import Columns.
From S2P Require Import Adapter.
From S2P Require ResultFrame.
From S2P Require ResultEncoder.
From S2P Require SessionState.
From S2P Require Pipeline.
Import ResultFrame (ResultIdentity, ResultLimits, ResultDeadline, RESULT_DEADLINE, RESULT_PROTOCOL).

Local Open Scope Z_scope.

(** ** Constants and outcomes *)

Definition MAX_SQL_BYTES : Z := 64 * 1024.
Definition SQL_BLOCK : Z := 4096.
Definition MAX_FRAME_BYTES : Z := 16 * 1024 * 1024.

Module JobFailure.
Inductive t :=
| QUERY | TIMEOUT | TYPE | LIMIT | MEMORY | RESOURCE | CONNECTION | INTERNAL | PROTOCOL | DEADLINE.
End JobFailure.

#[export] Instance job_failure_eq_dec : EqDecision JobFailure.t.
Proof. solve_decision. Defined.

Definition CANDIDATES : list JobFailure.t :=
  [JobFailure.QUERY; JobFailure.TIMEOUT; JobFailure.TYPE; JobFailure.LIMIT].

(** [_TYPED.get(category, INTERNAL)] of a [TypedExecutionError], and the
    timeout, which is a class of its own. *)
Definition TYPED (category : ExecutionFailure) : JobFailure.t :=
  match category with
  | QUERY => JobFailure.QUERY
  | TIMEOUT => JobFailure.TIMEOUT
  | RESOURCE => JobFailure.RESOURCE
  | CONNECTION => JobFailure.CONNECTION
  | INTERNAL => JobFailure.INTERNAL
  end.

(** [_ENCODE]. *)
Definition ENCODE (category : ResultEncoder.EncodeFailure) : JobFailure.t :=
  match category with
  | ResultEncoder.ENCODE_TYPE => JobFailure.TYPE
  | ResultEncoder.ENCODE_LIMIT => JobFailure.LIMIT
  | ResultEncoder.ENCODE_MEMORY => JobFailure.MEMORY
  | ResultEncoder.ENCODE_DEADLINE => JobFailure.DEADLINE
  | ResultEncoder.ENCODE_PROTOCOL => JobFailure.PROTOCOL
  end.

Record JobOutcome := {
  frame : option (list byte);
  failure : option JobFailure.t;
  can_continue : bool;
}.

(** What a job may raise on its way: an error of the adapter, of the encoder,
    of the result frame's values, or any other. *)
Inductive job_exn :=
| Database (e : db_error)
| Encoding (c : ResultEncoder.EncodeFailure)
| Frame (c : ResultFrame.ResultErrorCategory)
| OtherError.

(** The test of [JobOutcome.__post_init__]. *)
Definition valid_outcome (o : JobOutcome) : bool :=
  match failure o with
  | None =>
      match frame o with
      | Some f => (ResultFrame.HEADER_BYTES <=? blen f) && (blen f <=? MAX_FRAME_BYTES) && can_continue o
      | None => false
      end
  | Some f =>
      bool_decide (frame o = None) && (negb (can_continue o) || bool_decide (f ∈ CANDIDATES))
  end.

(** [JobOutcome.__post_init__]: [ValueError]. *)
Definition job_outcome (o : JobOutcome) : res job_exn JobOutcome :=
  refuse_if (negb (valid_outcome o)) OtherError;; Ok o.

Definition refusal (f : JobFailure.t) (continue_ : bool) : JobOutcome :=
  {| frame := None; failure := Some f; can_continue := continue_ |}.

(** [_classify]. *)
Definition classify (e : job_exn) : JobFailure.t :=
  match e with
  | Database (Typed category) => TYPED category
  | Database (NotValidated _) => JobFailure.QUERY
  | Database ResultTypeError => JobFailure.TYPE
  | Database OutOfMemory => JobFailure.MEMORY
  | Database _ => JobFailure.INTERNAL
  | Encoding c => ENCODE c
  | Frame RESULT_DEADLINE => JobFailure.DEADLINE
  | Frame _ => JobFailure.PROTOCOL
  | OtherError => JobFailure.INTERNAL
  end.

(** ** The text of the query *)

(** One block of [_valid_sql]'s loop: the bytes counted, or a refusal. *)
Fixpoint sql_blocks (sql : pystr) (total : Z) (offsets : list Z) : bool :=
  match offsets with
  | [] => true
  | start :: offsets =>
      let block := take (Z.to_nat SQL_BLOCK) (drop (Z.to_nat start) sql) in
      if existsb (fun c => c =? 0) block then false
      else match utf8_encode block with
      | None => false
      | Some bs =>
          if MAX_SQL_BYTES <? total + blen bs then false
          else sql_blocks sql (total + blen bs) offsets
      end
  end.

Definition valid_sql (sql : pystr) : bool :=
  let len := Z.of_nat (length sql) in
  if MAX_SQL_BYTES <? len then false
  else sql_blocks sql 0 (ResultFrame.py_range 0 len SQL_BLOCK).

(** ** The job *)

(** The local state of a psycopg connection, at the moment it is read: each
    attribute's test, [None] when reading it raises; and the rows that
    [SESSION_STATE_SQL] yields, or what the probe raises: the exhaustion of
    memory, or any other exception. *)
Inductive probe_error := ProbeFailed | ProbeMemory.

Class WorkerConnection := {
  status_closed : nat -> nat -> option bool;
  status_broken : nat -> nat -> option bool;
  status_ok : nat -> nat -> option bool;
  status_idle : nat -> nat -> option bool;
  session_rows : nat -> nat -> res probe_error (list (list SessionState.cell));
}.

(** The adapter, and how many times the clock has been read. *)
Record job := { job_adapter : adapter; job_reads : nat }.

Definition set_adapter (a : adapter) (j : job) : job := {| job_adapter := a; job_reads := job_reads j |}.
Definition set_job_reads (n : nat) (j : job) : job := {| job_adapter := job_adapter j; job_reads := n |}.

(** A deadline as it is from its [n]-th reading on. *)
Definition later (d : ResultDeadline) (n : nat) : ResultDeadline :=
  {| ResultFrame.expires_at := ResultFrame.expires_at d;
     ResultFrame.clock := fun k => ResultFrame.clock d (n + k)%nat |}.

Section job.
Context {L : PyLib} {V : Visitor} {S : Server} {W : WorkerConnection}.
Context (parse_sql : pystr -> option (list node)) (cfg : adapter_config).

(** [connection.closed is False and ...], left to right; an exception is no. *)
Definition healthy_status (c t : nat) : bool :=
  match status_closed c t with
  | Some false =>
      match status_broken c t with
      | Some false =>
          match status_ok c t with
          | Some true => match status_idle c t with Some b => b | None => false end
          | _ => false
          end
      | _ => false
      end
  | _ => false
  end.

(** [PostgresAdapter._typed_connection_healthy]. *)
Definition typed_connection_healthy (a : adapter) : bool * adapter :=
  match connection a with
  | None => (false, a)
  | Some c => (healthy_status c (now a), Adapter.tick a)
  end.

(** [deadline.check()]. *)
Definition check (deadline : ResultDeadline) : st job job_exn unit := fun j =>
  (if ResultFrame.remaining deadline (job_reads j) <=? 0 then Err (Frame RESULT_DEADLINE) else Ok tt,
   set_job_reads (Datatypes.S (job_reads j)) j).

(** [_healthy]. *)
Definition healthy (deadline : ResultDeadline) : st job job_exn bool :=
  check deadline;;
  h ← (fun j => let (h, a) := typed_connection_healthy (job_adapter j) in (Ok h, set_adapter a j));
  check deadline;;
  mret (h : bool).

(** A call of the adapter, and what it raises. *)
Definition on_adapter {A} (m : st adapter exn A) : st job job_exn A := fun j =>
  let (r, a) := m (job_adapter j) in
  (match r with
   | Ok x => Ok x
   | Err (Raised e) => Err (Database e)
   | Err (PgError _) | Err Unfinished => Err OtherError
   end, set_adapter a j).

(** [encode_result], by the clock's next readings. *)
Definition encode_frame (result : TypedMaskedResult) (identity : ResultIdentity) (limits : ResultLimits)
    (deadline : ResultDeadline) : st job job_exn (list byte) := fun j =>
  let d := later deadline (job_reads j) in
  let (r, e) := ResultEncoder.encode limits d result identity ResultEncoder.new_encoder in
  (match r with Ok f => Ok f | Err e => Err (Encoding (ResultEncoder.failure_category e)) end,
   set_job_reads (job_reads j + ResultEncoder.e_reads e) j).

Definition of_frame {A} (m : res ResultFrame.ResultErrorCategory A) : st job job_exn A :=
  lift_res (match m with Ok x => Ok x | Err c => Err (Frame c) end).

(** [run_job]'s [try]. *)
Definition job_body (sql : pystr) (identity : ResultIdentity) (limits : ResultLimits)
    (deadline : ResultDeadline) : st job job_exn JobOutcome :=
  of_frame (ResultFrame.result_identity identity);;
  of_frame (ResultFrame.result_limits limits);;
  of_frame (ResultFrame.result_deadline deadline);;
  check deadline;;
  if negb (valid_sql sql) then mret (refusal JobFailure.PROTOCOL false)
  else if negb (max_rows (settings cfg) =? ResultFrame.max_rows limits)
  then mret (refusal JobFailure.PROTOCOL false)
  else
    h ← healthy deadline;
    if negb h then mret (refusal JobFailure.CONNECTION false)
    else
      result ← on_adapter (execute_typed_validated parse_sql cfg sql);
      h ← healthy deadline;
      if negb h then mret (refusal JobFailure.CONNECTION false)
      else
        f ← encode_frame result identity limits deadline;
        if negb ((ResultFrame.HEADER_BYTES <=? blen f) && (blen f <=? ResultFrame.max_frame_bytes limits))
        then mret (refusal JobFailure.INTERNAL false)
        else
          h ← healthy deadline;
          if negb h then mret (refusal JobFailure.CONNECTION false)
          else lift_res (job_outcome {| frame := Some f; failure := None; can_continue := true |}).

(** What follows an exception: its category, and for a candidate one more
    check of the connection under the same deadline. *)
Definition after_error (deadline : ResultDeadline) (e : job_exn) (j : job) : JobOutcome * job :=
  let category := classify e in
  if bool_decide (category ∈ CANDIDATES) then
    match healthy deadline j with
    | (Ok true, j) => (refusal category true, j)
    | (Ok false, j) => (refusal JobFailure.CONNECTION false, j)
    | (Err (Frame c), j) => (refusal (classify (Frame c)) false, j)
    | (Err _, j) => (refusal JobFailure.INTERNAL false, j)
    end
  else (refusal category false, j).

Definition run_job (sql : pystr) (identity : ResultIdentity) (limits : ResultLimits)
    (deadline : ResultDeadline) (j : job) : JobOutcome * job :=
  match job_body sql identity limits deadline j with
  | (Ok outcome, j) => (outcome, j)
  | (Err e, j) => after_error deadline e j
  end.
End job.

(** ** Properties *)

Import ResultEncoder (fits, fits_block, block_split, block_count, utf8_encode_facts, slen, has_nul, representable).

Lemma sql_blocks_iff sql n o total :
  0 <= o -> slen sql <= o + SQL_BLOCK * Z.of_nat n -> total <= MAX_SQL_BYTES ->
  sql_blocks sql total (map (fun k => o + SQL_BLOCK * Z.of_nat k) (seq 0 n)) = true <->
  fits total MAX_SQL_BYTES (drop (Z.to_nat o) sql).
Proof.
  revert o total; induction n as [|n IH]; intros o total Ho Hn Ht.
  { cbn [seq map sql_blocks]. rewrite drop_ge by (unfold slen in Hn; lia).
    split; [|reflexivity]. intros _. exists []. change (blen []) with 0. split; [reflexivity|split; [reflexivity|lia]]. }
  cbn [seq map sql_blocks]. replace (o + SQL_BLOCK * Z.of_nat 0) with o by lia.
  set (a := take (Z.to_nat SQL_BLOCK) (drop (Z.to_nat o) sql)).
  assert (F : fits total MAX_SQL_BYTES (drop (Z.to_nat o) sql) <-> exists bs, utf8_encode a = Some bs /\
    ResultFrame.has_zero bs = false /\ fits (total + blen bs) MAX_SQL_BYTES (drop (Z.to_nat (o + SQL_BLOCK)) sql)).
  { rewrite (block_split o sql Ho), fits_block. reflexivity. }
  rewrite F. clear F. change (existsb (fun c => c =? 0) a) with (has_nul a).
  destruct (has_nul a) eqn:N.
  { split; [discriminate|]. intros (bs & U & Z0 & _). destruct (utf8_encode_facts _ _ U). congruence. }
  destruct (utf8_encode a) as [bs|] eqn:U; [|split; [discriminate|intros (bs & [=] & _)]].
  destruct (utf8_encode_facts _ _ U) as [_ Z0]. rewrite N in Z0.
  assert (BC : SQL_BLOCK = 4096) by reflexivity.
  destruct (Z.ltb_spec MAX_SQL_BYTES (total + blen bs)) as [O|O].
  - split; [discriminate|]. intros (bs' & [= <-] & _ & c & _ & _ & B). pose proof (blen_nonneg c). lia.
  - rewrite <- seq_shift, map_map.
    rewrite (map_ext _ (fun k => (o + SQL_BLOCK) + SQL_BLOCK * Z.of_nat k)) by (intros; lia).
    rewrite IH by lia. split; [eauto|]. intros (bs' & [= <-] & _ & F). exact F.
Qed.

(** The text of a job.  The block by block test accepts exactly the texts
    that are the decoding of a query of the wire: no NUL, no surrogate, and at
    most 64 KiB of UTF-8, wherever the blocks fall. *)
Theorem valid_sql_iff sql :
  valid_sql sql = true <->
  exists bs, utf8_encode sql = Some bs /\ ResultFrame.has_zero bs = false /\ blen bs <= MAX_SQL_BYTES.
Proof.
  unfold valid_sql. destruct (Z.ltb_spec MAX_SQL_BYTES (Z.of_nat (length sql))) as [O|O].
  - split; [discriminate|]. intros (bs & U & _ & B). destruct (utf8_encode_facts _ _ U) as [F _].
    unfold slen in F. lia.
  - unfold ResultFrame.py_range.
    rewrite (sql_blocks_iff sql _ 0 0); [reflexivity|lia|apply block_count|unfold MAX_SQL_BYTES; lia].
Qed.

Section job_lemmas.
Context {L : PyLib} {V : Visitor} {S : Server} {W : WorkerConnection}.
Context (parse_sql : pystr -> option (list node)) (cfg : adapter_config).

(** The connection as it was at the last check: read healthy between two
    readings of the clock that were before the deadline. *)
Definition kept_healthy (deadline : ResultDeadline) (j : job) : Prop :=
  (exists c t, connection (job_adapter j) = Some c /\ healthy_status c t = true /\
     now (job_adapter j) = Datatypes.S t) /\
  exists n, job_reads j = Datatypes.S n /\ 0 < ResultFrame.remaining deadline n.

Lemma check_ok deadline (Q : unit -> job -> Prop) j :
  (0 < ResultFrame.remaining deadline (job_reads j) -> Q tt (set_job_reads (Datatypes.S (job_reads j)) j)) ->
  wp (fun _ => True) (check deadline) Q j.
Proof.
  intros H. unfold wp, check. destruct (Z.leb_spec (ResultFrame.remaining deadline (job_reads j)) 0); [exact I|].
  apply H. lia.
Qed.

Lemma healthy_ok deadline (Q : bool -> job -> Prop) j :
  (forall h j', (h = true -> kept_healthy deadline j') ->
     connection (job_adapter j') = connection (job_adapter j) -> Q h j') ->
  wp (fun _ => True) (healthy deadline) Q j.
Proof.
  intros H. unfold healthy. apply wp_bind, check_ok. intros _.
  apply wp_bind. unfold wp at 1. unfold typed_connection_healthy.
  set (j1 := set_job_reads _ j). change (job_adapter j1) with (job_adapter j).
  destruct (connection (job_adapter j)) as [c|] eqn:C.
  - apply wp_bind, check_ok. intros R. apply wp_ret, H.
    + intros E. split; [exists c, (now (job_adapter j)); auto|]. eexists. split; [reflexivity|exact R].
    + exact C.
  - apply wp_bind, check_ok. intros R. apply wp_ret, H; [discriminate|]. exact C.
Qed.

(** What an outcome with a frame carries. *)
Definition carries_result (identity : ResultIdentity) (limits : ResultLimits) (sql : pystr) (f : list byte) : Prop :=
  exists result a a' columns rows,
    execute_typed_validated parse_sql cfg sql a = (Ok result, a') /\
    max_rows (settings cfg) = ResultFrame.max_rows limits /\
    representable result identity limits columns rows /\
    f = ResultFrame.print_frame identity (truncated (masked result)) columns rows.

Definition sound_outcome (identity : ResultIdentity) (limits : ResultLimits) (deadline : ResultDeadline)
    (sql : pystr) (o : JobOutcome) (j : job) : Prop :=
  valid_outcome o = true /\
  (forall f, frame o = Some f -> carries_result identity limits sql f /\ valid_sql sql = true) /\
  (can_continue o = true -> kept_healthy deadline j).

Lemma refusal_sound identity limits deadline sql f j :
  sound_outcome identity limits deadline sql (refusal f false) j.
Proof. split; [reflexivity|]. split; discriminate. Qed.


Lemma executed_typed sql a result a' :
  execute_typed_validated parse_sql cfg sql a = (Ok result, a') -> typed_masked_result result = Ok result.
Proof.
  unfold execute_typed_validated. intros H. apply st_bind_Ok in H as (s & a1 & _ & H).
  apply st_bind_Ok in H as (r & a2 & _ & H). unfold raises, lift_res in H.
  destruct (typed_masked_result _) as [t|] eqn:T; [|discriminate]. injection H as <- _.
  pose proof T as T'. unfold typed_masked_result in T'. inv_ok. exact T.
Qed.

Lemma job_body_sound sql identity limits deadline j :
  wp (fun _ => True) (job_body parse_sql cfg sql identity limits deadline)
    (sound_outcome identity limits deadline sql) j.
Proof.
  unfold job_body, of_frame.
  apply wp_bind, wp_lift; [exact I|]. intros i Hi. apply wp_bind, wp_lift; [exact I|]. intros l Hl.
  apply wp_bind, wp_lift; [exact I|]. intros d _.
  destruct (ResultFrame.result_identity identity) as [i'|] eqn:Ei; [|discriminate Hi].
  destruct (ResultFrame.result_limits limits) as [l'|] eqn:El; [|discriminate Hl].
  apply wp_bind, check_ok. intros _.
  destruct (valid_sql sql) eqn:Vs; cbn [negb]; [|apply wp_ret, refusal_sound].
  destruct (Z.eqb_spec (max_rows (settings cfg)) (ResultFrame.max_rows limits)) as [Er|_]; cbn [negb];
    [|apply wp_ret, refusal_sound].
  apply wp_bind, healthy_ok. intros h1 j1 _ _. destruct h1; cbn [negb]; [|apply wp_ret, refusal_sound].
  apply wp_bind. unfold wp at 1, on_adapter.
  destruct (execute_typed_validated parse_sql cfg sql (job_adapter j1)) as [[result|e] a'] eqn:X;
    [|destruct e; exact I].
  apply wp_bind, healthy_ok. intros h2 j2 _ _. destruct h2; cbn [negb]; [|apply wp_ret, refusal_sound].
  apply wp_bind. unfold wp at 1, encode_frame.
  pose proof (ResultEncoder.encode_spec limits (later deadline (job_reads j2)) result result identity i' l'
    ResultEncoder.new_encoder (executed_typed _ _ _ _ X) Ei El) as Sp. unfold wpe in Sp.
  destruct (ResultEncoder.encode _ _ _ _ _) as [[f|e] s']; [|exact I].
  destruct Sp as (columns & rows & R & ->). set (f := ResultFrame.print_frame _ _ _ _).
  destruct (_ && _); cbn [negb]; [|apply wp_ret, refusal_sound].
  apply wp_bind, healthy_ok. intros h3 j3 K _. destruct h3; cbn [negb]; [|apply wp_ret, refusal_sound].
  unfold job_outcome. apply wp_lift; [exact I|]. intros o Ho. inv_ok.
  match goal with H : negb _ = false |- _ => apply negb_false_iff in H; rename H into Vo end.
  split; [exact Vo|]. split; [|intros _; apply K; reflexivity].
  intros f' [= <-]. split; [|exact Vs]. exists result, (job_adapter j1), a', columns, rows. auto.
Qed.

Lemma run_job_outcome sql identity limits deadline j o j' :
  run_job parse_sql cfg sql identity limits deadline j = (o, j') ->
  sound_outcome identity limits deadline sql o j'.
Proof.
  intros H. unfold run_job in H.
  pose proof (job_body_sound sql identity limits deadline j) as B. unfold wp in B.
  destruct (job_body _ _ _ _ _ _ _) as [[o1|e] j1]; [injection H as <- <-; exact B|]. clear B.
  unfold after_error in H. case_bool_decide as C; [|injection H as <- <-; apply refusal_sound].
  pose proof (healthy_ok deadline (fun h j => h = true -> kept_healthy deadline j) j1) as B.
  unfold wp in B. destruct (healthy deadline j1) as [[[]|e'] j2].
  - injection H as <- <-. split; [cbn; rewrite bool_decide_eq_true_2 by exact C; reflexivity|].
    split; [discriminate|]. intros _. apply B; auto.
  - injection H as <- <-. apply refusal_sound.
  - destruct e'; injection H as <- <-; apply refusal_sound.
Qed.

(** C26: what a job may answer.  Whatever the server, the connection and the
    clock do, [run_job] returns one outcome, and it is a legal one.  A frame
    is returned only for a text that is a valid query, which the adapter
    executed and masked under the row limit the frame declares, and then it
    is the printed frame of that masked result under the job's own identity
    and limits.  An outcome lets the worker go on only if the connection was
    last read open, unbroken and idle, between two readings of the clock
    before the deadline; a failure that goes on is one of the four that leave
    the session as it was. *)
Theorem run_job_sound sql identity limits deadline j o j' :
  run_job parse_sql cfg sql identity limits deadline j = (o, j') ->
  valid_outcome o = true /\
  (forall f, frame o = Some f ->
     valid_sql sql = true /\
     exists result a a' columns rows,
       execute_typed_validated parse_sql cfg sql a = (Ok result, a') /\
       max_rows (settings cfg) = ResultFrame.max_rows limits /\
       representable result identity limits columns rows /\
       f = ResultFrame.print_frame identity (truncated (masked result)) columns rows) /\
  (can_continue o = true ->
     kept_healthy deadline j' /\ forall f, failure o = Some f -> f ∈ CANDIDATES).
Proof.
  intros H. destruct (run_job_outcome _ _ _ _ _ _ _ H) as (Vo & F & K). split; [exact Vo|]. split; [intros f Hf; split; apply F in Hf as [Hf ?]; assumption|].
  intros C. split; [apply K, C|]. intros f Hf. unfold valid_outcome in Vo. rewrite Hf, C in Vo.
  apply andb_true_iff in Vo as [_ Vo]. cbn in Vo. apply bool_decide_eq_true in Vo. exact Vo.
Qed.
End job_lemmas.

(** ** Witnesses *)

(** A connection that is open, idle and in its pinned state at every reading. *)
#[local] Instance sample_connection : WorkerConnection :=
  {| status_closed _ _ := Some false; status_broken _ _ := Some false;
     status_ok _ _ := Some true; status_idle _ _ := Some true;
     session_rows _ _ := Ok [] |}.

Definition sample_limits : ResultLimits :=
  {| ResultFrame.max_rows := 10; ResultFrame.max_frame_bytes := 4096; ResultFrame.max_cell_bytes := 256;
     ResultFrame.max_columns := 8; ResultFrame.max_name_bytes := 64 |}.

Definition sample_job : job := {| job_adapter := Pipeline.open_adapter; job_reads := 0 |}.

Definition sample_outcome : JobOutcome * job :=
  @run_job sample_lib preorder_visitor Pipeline.sample_server sample_connection
    Pipeline.sample_parse Pipeline.sample_config (py "SELECT upper(e_mail) AS x FROM customers")
    ResultFrame.sample_identity sample_limits ResultFrame.still_deadline sample_job.

Lemma run_job_sound_witness :
  can_continue sample_outcome.1 = true /\
  exists f, frame sample_outcome.1 = Some f /\ valid_sql (py "SELECT upper(e_mail) AS x FROM customers") = true.
Proof.
  destruct sample_outcome as [o j'] eqn:E.
  assert (F : is_Some (frame o)) by (replace o with sample_outcome.1 by (rewrite E; reflexivity);
    vm_compute; eexists; reflexivity).
  assert (K : can_continue o = true) by (replace o with sample_outcome.1 by (rewrite E; reflexivity);
    vm_compute; reflexivity).
  split; [exact K|]. destruct F as [f F]. exists f. split; [exact F|].
  exact (proj1 (proj1 (proj2 (@run_job_sound sample_lib preorder_visitor Pipeline.sample_server
    sample_connection Pipeline.sample_parse Pipeline.sample_config _ _ _ _ _ o j' E)) f F)).
Defined.
