(* ===== verification/Worker.v ===== *)
(** * Worker: the loop of a worker process

    Models [runtime/worker_process.py] once the worker is open: how it waits
    for a packet, checks and runs one job, and answers it; with the
    classification of its errors, the arguments of its entry, and the session
    probe of [db/postgres.py].  The socket is a [Transport.RawChannel]; the
    process's guard, its pipe and the opening are not modelled.

    All the deadlines read one monotonic clock, [monotonic], whose readings are
    floats; [ticks] turns a float into the integers of [ResultFrame]. *)

From S2P Require Import Prelude.
From S2P Require Import Bytes.
From S2P Require Import Unicode.
From S2P Require Import Transformers.
From S2P Require Import Masking.
From S2P Require Import Sql.
From S2P Require Import Sensitivity.
From S2P Require Import Config.
From S2P Require Import Columns.
From S2P Require Import Adapter.
From S2P Require Import Decimal.
From S2P Require Import WorkerJob.
From S2P Require ResultFrame.
From S2P Require ResultEncoder.
From S2P Require Receiver.
From S2P Require SessionState.
From S2P Require Transport.
From S2P Require WorkerProtocol.
From S2P Require Pipeline.
From Stdlib Require Import Floats.SpecFloat.
Module wire := WorkerProtocol.
Import ResultFrame (ResultLimits, ResultDeadline).
Import wire (Query, q_key, q_job_id, q_expires_at, q_sql, SessionKey, ErrorReply).

Local Open Scope Z_scope.

#[local] Existing Instance wire.kind_eq_dec.
#[local] Existing Instance wire.wire_failure_eq_dec.
#[export] Instance session_key_eq_dec : EqDecision SessionKey.
Proof. solve_decision. Defined.

(** ** The arguments of the entry *)

Definition MAX_DECIMAL_DIGITS : Z := 10.
Definition MIN_PRIVATE_FD : Z := 3.
Definition MAX_PRIVATE_FD : Z := 65535.
Definition MIN_IDLE_MS : Z := 1000.
Definition MAX_IDLE_MS : Z := 86400000.
Definition HEADER_SECONDS : Z := 10.
Definition BODY_SECONDS : Z := 30.

Record EntryArguments := { fd : Z; parent_pid : Z; address_bytes : Z; idle_ms : Z }.

(** [isascii() and isdecimal()]. *)
Definition decimal_text (s : pystr) : bool := forallb (fun c => (48 <=? c) && (c <=? 57)) s.

Inductive input_error := WorkerInputError.
Definition need (value : bool) : res input_error unit := refuse_if (negb value) WorkerInputError.

Definition arguments (values : list pystr) : res input_error EntryArguments :=
  need (length values =? 4)%nat;;
  need (forallb (fun v => (0 <? Z.of_nat (length v)) && (Z.of_nat (length v) <=? MAX_DECIMAL_DIGITS) &&
                          decimal_text v) values);;
  match map (dec_value 0) values with
  | [fd; parent; address; idle] =>
      need ((MIN_PRIVATE_FD <=? fd) && (fd <=? MAX_PRIVATE_FD) && (1 <=? parent) && (parent <? Z.shiftl 1 31));;
      need ((64 * 1024 * 1024 <=? address) && (address <=? 4096 * 1024 * 1024));;
      need ((MIN_IDLE_MS <=? idle) && (idle <=? MAX_IDLE_MS));;
      Ok {| fd := fd; parent_pid := parent; address_bytes := address; idle_ms := idle |}
  | _ => Err WorkerInputError
  end.

(** ** Errors *)

(** What may leave a step of the worker. *)
Inductive worker_exn :=
| InputError
| WireError (e : wire.wire_exn)
| SessionError
| AdapterError (e : db_error)
| FrameError (c : ResultFrame.ResultErrorCategory) (memory_exhausted : bool)
| ChannelError (e : Transport.transport_exn)
| OtherError.

(** [_failure]; [DatabaseError] and [CapabilityError] by their exact class. *)
Definition failure_of (e : worker_exn) : wire.WireFailure.t :=
  match e with
  | AdapterError OutOfMemory | FrameError _ true => wire.WireFailure.MEMORY
  | InputError | WireError wire.WorkerProtocolError => wire.WireFailure.PROTOCOL
  | SessionError | AdapterError (Capability _) | AdapterError (Sanitized _)
  | AdapterError ConnectionNotOpen => wire.WireFailure.CONNECTION
  | FrameError ResultFrame.RESULT_DEADLINE false
  | WireError (wire.ResultFrameError ResultFrame.RESULT_DEADLINE) => wire.WireFailure.DEADLINE
  | FrameError _ false | WireError (wire.ResultFrameError _) => wire.WireFailure.PROTOCOL
  | ChannelError (Transport.TransportError Transport.TIMEOUT _) => wire.WireFailure.DEADLINE
  | ChannelError _ => wire.WireFailure.CONNECTION
  | AdapterError _ | OtherError => wire.WireFailure.INTERNAL
  end.

(** [wire.WireFailure[failure.name]]. *)
Definition wire_failure (f : JobFailure.t) : wire.WireFailure.t :=
  match f with
  | JobFailure.QUERY => wire.WireFailure.QUERY
  | JobFailure.TIMEOUT => wire.WireFailure.TIMEOUT
  | JobFailure.TYPE => wire.WireFailure.TYPE
  | JobFailure.LIMIT => wire.WireFailure.LIMIT
  | JobFailure.MEMORY => wire.WireFailure.MEMORY
  | JobFailure.RESOURCE => wire.WireFailure.RESOURCE
  | JobFailure.CONNECTION => wire.WireFailure.CONNECTION
  | JobFailure.INTERNAL => wire.WireFailure.INTERNAL
  | JobFailure.PROTOCOL => wire.WireFailure.PROTOCOL
  | JobFailure.DEADLINE => wire.WireFailure.DEADLINE
  end.

(** ** The worker's state: its socket and its adapter *)

Record worker := { w_io : Transport.io; w_adapter : adapter }.

Definition set_io (s : Transport.io) (w : worker) : worker := {| w_io := s; w_adapter := w_adapter w |}.
Definition set_db (a : adapter) (w : worker) : worker := {| w_io := w_io w; w_adapter := a |}.

Abbreviation working := (st worker worker_exn).

Section worker.
Context {L : PyLib} {V : Visitor} {S : Server} {W : WorkerConnection}.
Context (parse_sql : pystr -> option (list node)) (cfg : adapter_config).
Context (patience : nat) (channel : Transport.RawChannel) (monotonic : nat -> Z) (ticks : Z -> Z).

(** [ResultDeadline(expires_at=...)]. *)
Definition deadline_at (expires : Z) : ResultDeadline :=
  {| ResultFrame.expires_at := expires; ResultFrame.clock := fun n => Some (ticks (monotonic n)) |}.

Definition of_frame {A} (m : res ResultFrame.ResultErrorCategory A) : working A :=
  lift_res (match m with Ok x => Ok x | Err c => Err (FrameError c false) end).

Definition of_wire {A} (m : res wire.wire_exn A) : working A :=
  lift_res (match m with Ok x => Ok x | Err e => Err (WireError e) end).

Definition needed (b : bool) : working unit := guard_st (negb b) InputError.

(** [time.monotonic()]. *)
Definition now_reading : working Z := fun w =>
  (Ok (monotonic (Transport.readings (w_io w))), set_io (Transport.clock_read (w_io w)) w).

(** [ResultDeadline(expires_at=time.monotonic() + seconds)]. *)
Definition deadline_in (milliseconds : Z) : working ResultDeadline :=
  now ← now_reading;
  of_frame (ResultFrame.result_deadline (deadline_at (ticks now + milliseconds))).

Definition on_channel {A} (m : Transport.transfer A) : working A := fun w =>
  let (r, s) := m (w_io w) in
  (match r with Ok x => Ok x | Err e => Err (ChannelError e) end, set_io s w).

Definition send (packet : list byte) (d : ResultDeadline) : working unit :=
  on_channel (Transport.send_all patience channel packet (Receiver.channel_deadline d)).

Definition receive (size : Z) (d : ResultDeadline) : working (list byte) :=
  on_channel (Transport.recv_exact patience channel size (Receiver.channel_deadline d)).

(** [deadline.check()]. *)
Definition check (d : ResultDeadline) : working unit := fun w =>
  (if ResultFrame.remaining d (Transport.readings (w_io w)) <=? 0
   then Err (FrameError ResultFrame.RESULT_DEADLINE false) else Ok tt,
   set_io (Transport.clock_read (w_io w)) w).

(** The first byte of [_next]: the end of the connection or of the idle time
    ends the loop quietly. *)
Definition first_byte (idle : ResultDeadline) : working (option (list byte)) := fun w =>
  match receive 1 idle w with
  | (Ok first, w) => (Ok (Some first), w)
  | (Err (ChannelError (Transport.TransportError Transport.EOF _)), w)
  | (Err (ChannelError (Transport.TransportError Transport.TIMEOUT _)), w) => (Ok None, w)
  | (Err e, w) => (Err e, w)
  end.

(** [_next]. *)
Definition next (idle_ms : Z) : working (option (wire.Kind.t * list byte)) :=
  idle ← deadline_in idle_ms;
  first ← first_byte idle;
  match first with
  | None => mret None
  | Some first =>
      header_deadline ← deadline_in (HEADER_SECONDS * 1000);
      rest ← receive (wire.HEADER_BYTES - 1) header_deadline;
      kn ← of_wire (wire.parse_header (first ++ rest));
      needed (bool_decide (kn.1 = wire.Kind.QUERY) || bool_decide (kn.1 = wire.Kind.CLOSE));;
      body_deadline ← deadline_in (BODY_SECONDS * 1000);
      data ← receive kn.2 body_deadline;
      mret (Some (kn.1, data))
  end.

(** [PostgresAdapter._worker_session_state]: one row of the probe, between
    two checks of the connection; any failure is one error, the exhaustion of
    memory apart. *)
Definition worker_session_state : working (list SessionState.cell) := fun w =>
  let (h, a) := typed_connection_healthy (w_adapter w) in
  if negb h then (Err SessionError, set_db a w)
  else match closed a with
  | (Ok false, a) =>
      match connection a with
      | None => (Err SessionError, set_db a w)
      | Some c =>
          let rows := session_rows c (now a) in
          let a := Adapter.tick a in
          match rows with
          | Ok [row] =>
              match SessionState.normalize row with
              | Err _ => (Err SessionError, set_db a w)
              | Ok state =>
                  let (h, a) := typed_connection_healthy a in
                  (if h then Ok state else Err SessionError, set_db a w)
              end
          | Err ProbeMemory => (Err (AdapterError OutOfMemory), set_db a w)
          | _ => (Err SessionError, set_db a w)
          end
      end
  | (_, a) => (Err SessionError, set_db a w)
  end.

(** [baseline.require_same(adapter._worker_session_state())]. *)
Definition same_session (baseline : list SessionState.cell) : working unit :=
  state ← worker_session_state;
  lift_res (match SessionState.require_same baseline state with Ok u => Ok u | Err _ => Err SessionError end).

(** [adapter.settings.statement_timeout_ms / 1000 + 10.0], as floats. *)
Definition float_of_int (n : Z) : spec_float := binary_normalize 53 1024 n 0 false.
Definition statement_seconds : spec_float :=
  SFadd 53 1024 (SFdiv 53 1024 (float_of_int (statement_timeout_ms (settings cfg))) (float_of_int 1000))
    (float_of_int 10).

(** [run_job], by the worker's clock. *)
Definition job_run (sql : pystr) (identity : ResultFrame.ResultIdentity) (limits : ResultLimits)
    (d : ResultDeadline) : working JobOutcome := fun w =>
  let (o, j) := run_job parse_sql cfg sql identity limits d
                  {| job_adapter := w_adapter w; job_reads := Transport.readings (w_io w) |} in
  (Ok o, {| w_io := Transport.with_readings (job_reads j) (w_io w); w_adapter := job_adapter j |}).

(** [_one_job]'s [try]. *)
Definition compute (baseline : list SessionState.cell) (request : Query) (limits : ResultLimits)
    (d : ResultDeadline) : working JobOutcome :=
  now ← now_reading;
  of_wire (wire.check_deadline (wire.float_of_bits (q_expires_at request)) (wire.float_of_bits now)
             statement_seconds);;
  same_session baseline;;
  check d;;
  sql ← lift_res (match utf8_decode (q_sql request) with Some s => Ok s | None => Err OtherError end);
  identity ← of_wire (wire.result_identity (q_key request) (q_job_id request));
  outcome ← job_run sql identity limits d;
  (if bool_decide (failure outcome = None) || can_continue outcome
   then same_session baseline;; check d else mret tt);;
  mret outcome.

Definition caught {A} (m : working A) : working (res worker_exn A) := fun w =>
  let (r, w) := m w in (Ok r, w).

Definition reply_error (request : Query) (category : wire.WireFailure.t) (continue_ : bool) (d : ResultDeadline)
    : working unit :=
  packet ← of_wire (wire.encode_error
    {| wire.e_key := q_key request; wire.e_job_id := q_job_id request;
       wire.e_category := category; wire.e_can_continue := continue_ |});
  send packet d.

(** [_one_job]: the computation, then exactly one kind of answer. *)
Definition one_job (baseline : list SessionState.cell) (request : Query) (limits : ResultLimits) : working bool :=
  d ← of_frame (ResultFrame.result_deadline (deadline_at (ticks (q_expires_at request))));
  answer ← caught (compute baseline request limits d);
  match answer with
  | Err e => reply_error request (failure_of e) false d;; mret false
  | Ok outcome =>
      match failure outcome with
      | Some f =>
          reply_error request (wire_failure f) (can_continue outcome) d;;
          check d;;
          mret (can_continue outcome)
      | None =>
          match frame outcome with
          | None => raise_st InputError
          | Some f =>
              notice ← of_wire wire.encode_result_notice;
              send notice d;;
              send f d;;
              done ← of_wire (wire.encode_done (q_key request) (q_job_id request));
              send done d;;
              check d;;
              mret true
          end
      end
  end.

(** [_loop], for at most [fuel] packets; [None] when it is not over. *)
Fixpoint loop (fuel : nat) (baseline : list SessionState.cell) (key : SessionKey) (limits : ResultLimits)
    (idle_ms previous : Z) : working (option Z) :=
  match fuel with
  | O => mret None
  | Datatypes.S fuel =>
      message ← next idle_ms;
      match message with
      | None | Some (wire.Kind.CLOSE, _) => mret (Some 0)
      | Some (_, body) =>
          request ← of_wire (wire.decode_query body);
          needed (bool_decide (q_key request = key) && (q_job_id request =? previous + 1));;
          go ← one_job baseline request limits;
          if negb go then mret (Some 1)
          else loop fuel baseline key limits idle_ms (q_job_id request)
      end
  end.
End worker.

(** ** What a step moves through the socket *)

Record moved (taken given : list byte) (w w' : worker) : Prop := {
  moved_in : Transport.received (w_io w') = Transport.received (w_io w) ++ taken;
  moved_out : Transport.sent (w_io w') = Transport.sent (w_io w) ++ given;
}.

Lemma moved_refl w : moved [] [] w w.
Proof. split; rewrite ?app_nil_r; reflexivity. Qed.

Lemma moved_trans a b c d w1 w2 w3 : moved a b w1 w2 -> moved c d w2 w3 -> moved (a ++ c) (b ++ d) w1 w3.
Proof. intros [H1 H2] [H3 H4]. split; [rewrite H3, H1|rewrite H4, H2]; rewrite app_assoc; reflexivity. Qed.

Lemma moved_first a b w1 w2 w3 : moved [] [] w1 w2 -> moved a b w2 w3 -> moved a b w1 w3.
Proof. intros H1 H2. exact (moved_trans [] [] a b w1 w2 w3 H1 H2). Qed.

Lemma moved_last a b w1 w2 w3 : moved a b w1 w2 -> moved [] [] w2 w3 -> moved a b w1 w3.
Proof. intros H1 H2. rewrite <- (app_nil_r a), <- (app_nil_r b). exact (moved_trans a b [] [] w1 w2 w3 H1 H2). Qed.

(** A step that moves nothing, however it ends. *)
Definition quiet {A} (m : working A) : Prop := forall w, runs m (fun _ => moved [] [] w) w.

Lemma quiet_bind {A B} (m : working A) (f : A -> working B) :
  quiet m -> (forall x, quiet (f x)) -> quiet (m ≫= f).
Proof.
  intros Hm Hf w. apply runs_bind. eapply runs_mono; [apply Hm|]. intros [x|e] w1 M; [|exact M].
  eapply runs_mono; [apply Hf|]. intros r w2 M2. eapply moved_first; eassumption.
Qed.

Lemma quiet_ret {A} (x : A) : quiet (mret x).
Proof. intros w. apply moved_refl. Qed.

Lemma quiet_lift {A} (m : res worker_exn A) : quiet (lift_res m).
Proof. intros w. apply moved_refl. Qed.

Lemma quiet_guard b e : quiet (guard_st b e).
Proof. intros w. unfold guard_st. destruct b; apply moved_refl. Qed.

(** Run a quiet step first, forgetting how it ended unless it returned. *)
Lemma runs_quiet {A B} (m : working A) (f : A -> working B) Q w :
  quiet m ->
  (forall r w1, m w = (r, w1) -> moved [] [] w w1 ->
     match r with Ok x => runs (f x) Q w1 | Err e => Q (Err e) w1 end) ->
  runs (m ≫= f) Q w.
Proof.
  intros Hm H. apply runs_bind. specialize (Hm w). unfold runs in Hm |- * at 1.
  destruct (m w) as [r w1] eqn:E. cbn [fst snd] in *. specialize (H r w1 eq_refl Hm). exact H.
Qed.

Create HintDb quiet.
#[export] Hint Resolve quiet_bind quiet_ret quiet_lift quiet_guard : quiet.

Section replies.
Context {L : PyLib} {V : Visitor} {S : Server} {W : WorkerConnection}.
Context (parse_sql : pystr -> option (list node)) (cfg : adapter_config).
Context (patience : nat) (channel : Transport.RawChannel) (monotonic : nat -> Z) (ticks : Z -> Z).

Lemma quiet_now : quiet (now_reading monotonic).
Proof. intros w. split; cbn; rewrite app_nil_r; reflexivity. Qed.

Lemma quiet_check d : quiet (check d).
Proof. intros w. split; cbn; rewrite app_nil_r; reflexivity. Qed.

Lemma quiet_deadline n : quiet (deadline_in monotonic ticks n).
Proof. apply quiet_bind; [apply quiet_now|]. intros x. apply quiet_lift. Qed.

Lemma quiet_session : quiet worker_session_state.
Proof.
  intros w. unfold runs, worker_session_state.
  assert (D : forall a, moved [] [] w (set_db a w)) by (intros a; split; cbn; rewrite app_nil_r; reflexivity).
  repeat (case_match; cbn [fst snd]; try apply D).
Qed.

Lemma quiet_job sql identity limits d : quiet (job_run parse_sql cfg sql identity limits d).
Proof.
  intros w. unfold runs, job_run. destruct (run_job _ _ _ _ _ _ _) as [o j].
  split; cbn; rewrite app_nil_r; reflexivity.
Qed.

#[local] Hint Resolve quiet_now quiet_check quiet_deadline quiet_session quiet_job : quiet.

Lemma quiet_same baseline : quiet (same_session baseline).
Proof. apply quiet_bind; [apply quiet_session|]. intros x. apply quiet_lift. Qed.

Lemma quiet_compute baseline request limits d :
  quiet (compute parse_sql cfg monotonic baseline request limits d).
Proof.
  unfold compute, of_wire. repeat (apply quiet_bind; [auto using quiet_same with quiet|intros ?]); auto with quiet.
  destruct (_ || _); auto using quiet_same with quiet.
Qed.

(** *** Sends and receives *)

Lemma send_moves packet d w :
  runs (send patience channel packet d) (fun r w' => exists p rest, packet = p ++ rest /\ moved [] p w w' /\
    (r = Ok tt -> rest = [])) w.
Proof.
  unfold runs, send, on_channel.
  pose proof (Transport.send_all_runs patience channel packet (Receiver.channel_deadline d) (w_io w)) as R.
  unfold runs in R. destruct (Transport.send_all _ _ _ _ _) as [r s]. cbn [fst snd] in *. unfold Transport.sends in R.
  destruct r as [[]|e]; cbn.
  - exists packet, []. rewrite app_nil_r. split; [reflexivity|]. split; [|auto]. destruct R. split; assumption.
  - destruct R as (p & rest & E & M & _). exists p, rest. split; [exact E|]. split; [|discriminate].
    destruct M. split; assumption.
Qed.

Lemma receive_moves size d w :
  Transport.polite channel -> 0 <= size ->
  runs (receive patience channel size d) (fun r w' => exists more, moved more [] w w' /\
    forall all, r = Ok all -> all = more /\ blen all = size) w.
Proof.
  intros P Hs. unfold runs, receive, on_channel, Transport.recv_exact.
  pose proof (Transport.recv_exact_loop_runs patience channel (Z.to_nat size) size [] (Receiver.channel_deadline d) (w_io w)) as R.
  change (blen []) with 0 in R. specialize (R ltac:(lia)). unfold runs in R.
  destruct (Transport.recv_exact_loop _ _ _ _ _ _ _) as [r s]. cbn [fst snd] in *.
  destruct R as (more & [_ M1 M2] & R). exists more. split; [split; assumption|].
  destruct r as [all|e]; [|discriminate]. intros all' [= <-]. destruct R as (-> & _ & R).
  split; [reflexivity|]. exact (R P Hs).
Qed.

(** *** One packet of the peer *)

Lemma first_moves idle w :
  Transport.polite channel ->
  runs (first_byte patience channel idle) (fun r w' => exists b, moved b [] w w' /\
    forall first, r = Ok (Some first) -> first = b /\ blen b = 1) w.
Proof.
  intros P. unfold runs, first_byte.
  pose proof (receive_moves 1 idle w P ltac:(lia)) as R. unfold runs in R.
  destruct (receive _ _ 1 idle w) as [r w2]. cbn [fst snd] in R. destruct R as (b & M & R). exists b.
  destruct r as [first|e]; cbn [fst snd].
  - split; [exact M|]. intros f [= <-]. destruct (R first eq_refl) as [<- E]. auto.
  - destruct e as [| | | | |[[] u|]|]; (split; [exact M|discriminate]).
Qed.

Lemma next_moves idle w :
  Transport.polite channel ->
  runs (next patience channel monotonic ticks idle) (fun r w' => exists inp, moved inp [] w w' /\
    forall kind body, r = Ok (Some (kind, body)) ->
      inp = wire.packet_of kind body /\ (kind = wire.Kind.QUERY \/ kind = wire.Kind.CLOSE)) w.
Proof.
  intros P. unfold next. apply runs_quiet; [apply quiet_deadline|]. intros r1 w1 _ M1.
  destruct r1 as [idle_d|e]; [|exists []; split; [exact M1|discriminate]].
  apply runs_bind. eapply runs_mono; [apply first_moves, P|]. intros r2 w2 (b & M2 & R2).
  pose proof (moved_first _ _ _ _ _ M1 M2) as M.
  destruct r2 as [[first|]|e];
    [|apply runs_ret; exists b; split; [exact M|discriminate]|exists b; split; [exact M|discriminate]].
  destruct (R2 first eq_refl) as [-> Lb].
  apply runs_quiet; [apply quiet_deadline|]. intros r3 w3 _ M3.
  assert (M' : moved b [] w w3) by (eapply moved_last; eassumption).
  destruct r3 as [hd|e]; [|exists b; split; [exact M'|discriminate]]. clear M M3.
  apply runs_bind. eapply runs_mono; [apply receive_moves; [exact P|vm_compute; discriminate]|].
  intros r4 w4 (h & M4 & R4). pose proof (moved_trans _ _ _ _ _ _ _ M' M4) as M. cbn [app] in M.
  destruct r4 as [rest|e]; [|exists (b ++ h); split; [exact M|discriminate]].
  destruct (R4 rest eq_refl) as [-> Lh].
  apply runs_quiet; [apply quiet_lift|]. intros r5 w5 E5 M5.
  destruct r5 as [[k n]|e].
  2:{ exists (b ++ h). split; [|discriminate]. exact (moved_last _ _ _ _ _ M M5). }
  unfold of_wire, lift_res in E5. destruct (wire.parse_header (b ++ h)) as [[k' n']|] eqn:Hp; [|discriminate E5].
  injection E5 as -> -> <-. apply wire.parse_header_Ok in Hp as [Lk Hp]. cbn [fst snd].
  apply runs_quiet; [apply quiet_guard|]. intros r6 w6 E6 M6.
  pose proof (moved_last _ _ _ _ _ M M6) as M7.
  destruct r6 as [u|e]; [|exists (b ++ h); split; [exact M7|discriminate]]. clear M M5 M6.
  apply guard_st_Ok in E6 as [E6 _]. apply negb_false_iff, orb_true_iff in E6.
  rewrite !bool_decide_eq_true in E6.
  apply runs_quiet; [apply quiet_deadline|]. intros r8 w8 _ M8.
  pose proof (moved_last _ _ _ _ _ M7 M8) as M9.
  destruct r8 as [bd|e]; [|exists (b ++ h); split; [exact M9|discriminate]]. clear M7 M8.
  apply wire.check_length_Ok in Lk. apply runs_bind. eapply runs_mono; [apply receive_moves; [exact P|lia]|].
  intros r10 w10 (body & M10 & R10). pose proof (moved_trans _ _ _ _ _ _ _ M9 M10) as M11. clear M9 M10.
  destruct r10 as [data|e]; [apply runs_ret|]; exists ((b ++ h) ++ body); (split; [exact M11|]); [|discriminate].
  destruct (R10 data eq_refl) as [-> Ln].
  intros kind body' [= <- <-]. split; [|exact E6]. rewrite Hp. unfold wire.packet_of, wire.print_header.
  rewrite Ln. reflexivity.
Qed.

(** *** The answers *)

(** The answer to a request, and whether the worker goes on after it: one
    error, or the whole of one result, the frame of what the adapter masked
    for that request's own text. *)
Inductive reply (limits : ResultLimits) (request : Query) : list byte -> bool -> Prop :=
| reply_failed category go packet :
    wire.encode_error {| wire.e_key := q_key request; wire.e_job_id := q_job_id request;
                         wire.e_category := category; wire.e_can_continue := go |} = Ok packet ->
    reply limits request packet go
| reply_result notice f finished sql identity :
    wire.encode_result_notice = Ok notice ->
    utf8_decode (q_sql request) = Some sql ->
    wire.result_identity (q_key request) (q_job_id request) = Ok identity ->
    carries_result parse_sql cfg identity limits sql f ->
    wire.encode_done (q_key request) (q_job_id request) = Ok finished ->
    reply limits request (notice ++ f ++ finished) true.

(** The bytes a worker reads and writes from its job [n] on: requests with
    consecutive numbers under its key, each followed by its whole answer, but
    for the last, which may be cut or missing. *)
Inductive dialogue (limits : ResultLimits) (key : SessionKey) : Z -> list byte -> list byte -> Prop :=
| dialogue_end n inp : dialogue limits key n inp []
| dialogue_last n request raw inp p rest go :
    wire.encode_query request = Ok raw -> q_key request = key -> q_job_id request = n + 1 ->
    reply limits request (p ++ rest) go -> dialogue limits key n (raw ++ inp) p
| dialogue_next n request raw bytes inp out :
    wire.encode_query request = Ok raw -> q_key request = key -> q_job_id request = n + 1 ->
    reply limits request bytes true -> dialogue limits key (n + 1) inp out ->
    dialogue limits key n (raw ++ inp) (bytes ++ out).

(** What one job writes: its answer, or the beginning of it. *)
Definition answered (limits : ResultLimits) (request : Query) (w : worker) (r : res worker_exn bool)
    (w' : worker) : Prop :=
  exists p rest go, moved [] p w w' /\ (p = [] \/ reply limits request (p ++ rest) go) /\
    (r = Ok true -> rest = [] /\ go = true /\ p <> []).

Lemma answered_nothing limits request w e w' : moved [] [] w w' -> answered limits request w (Err e) w'.
Proof. intros M. exists [], [], true. split; [exact M|]. split; [auto|discriminate]. Qed.

Lemma reply_starts limits request bytes go : reply limits request bytes go -> bytes <> [].
Proof.
  intros []; [match goal with H : wire.encode_error _ = _ |- _ =>
    apply (wire.encode_message_Ok (wire.MError _)) in H as [_ ->]; discriminate end|].
  match goal with H : wire.encode_result_notice = _ |- _ => injection H as <- end. discriminate.
Qed.

Lemma reply_error_moves limits request category go d (m : working bool) w :
  quiet m -> (forall w1 w2, m w1 = (Ok true, w2) -> go = true) ->
  runs (reply_error patience channel request category go d;; m) (answered limits request w) w.
Proof.
  intros Hm HQ. apply runs_bind. unfold reply_error, of_wire. apply runs_quiet; [apply quiet_lift|].
  intros r1 w1 E1 M1. destruct r1 as [packet|e]; [|apply answered_nothing, M1].
  destruct (wire.encode_error _) as [pk|] eqn:Ep; [|discriminate E1]. injection E1 as -> _.
  eapply runs_mono; [apply send_moves|]. intros r2 w2 (p & rest & E & M2 & R2).
  pose proof (moved_first _ _ _ _ _ M1 M2) as M. pose proof (reply_failed limits request _ _ _ Ep) as Rp.
  pose proof (reply_starts _ _ _ _ Rp) as N. rewrite E in Rp, N.
  destruct r2 as [[]|e]; [|exists p, rest, go; split; [exact M|]; split; [auto|discriminate]].
  pose proof (Hm w2) as H. unfold runs in *. destruct (m w2) as [r w3] eqn:Em. cbn [fst snd] in *.
  pose proof (moved_last _ _ _ _ _ M H) as M3.
  exists p, rest, go. split; [exact M3|]. split; [auto|]. intros ->.
  rewrite R2, app_nil_r in N by reflexivity. split; [auto|]. split; [eapply HQ, Em|exact N].
Qed.

Lemma compute_frame baseline request limits d w outcome w' f :
  compute parse_sql cfg monotonic baseline request limits d w = (Ok outcome, w') ->
  frame outcome = Some f ->
  exists sql identity, utf8_decode (q_sql request) = Some sql /\
    wire.result_identity (q_key request) (q_job_id request) = Ok identity /\
    carries_result parse_sql cfg identity limits sql f.
Proof.
  unfold compute. intros H F.
  do 4 (apply st_bind_Ok in H as (? & ? & _ & H)).
  apply st_bind_Ok in H as (sql & w1 & Hs & H). apply st_bind_Ok in H as (identity & w2 & Hi & H).
  apply st_bind_Ok in H as (o & w3 & Ho & H). apply st_bind_Ok in H as (? & ? & _ & H).
  injection H as -> _. exists sql, identity. unfold lift_res, of_wire in *.
  destruct (utf8_decode (q_sql request)); [injection Hs as -> _|discriminate Hs].
  unfold lift_res in Hi. destruct (wire.result_identity _ _); [injection Hi as -> _|discriminate Hi].
  split; [reflexivity|]. split; [reflexivity|]. unfold job_run in Ho.
  destruct (run_job _ _ _ _ _ _ _) as [o' j] eqn:R. injection Ho as -> _.
  apply run_job_outcome in R as (_ & Hf & _). apply Hf in F as [F _]. exact F.
Qed.

(** Sending a list of packets, one after the other. *)
Definition sends_all (packets : list (list byte)) (d : ResultDeadline) : working unit :=
  iterM_st (fun p => send patience channel p d) packets.

Lemma sends_all_moves packets d w :
  runs (sends_all packets d) (fun r w' => exists p rest, concat packets = p ++ rest /\ moved [] p w w' /\
    (r = Ok tt -> rest = [])) w.
Proof.
  revert w; induction packets as [|x packets IH]; intros w; unfold sends_all in *; cbn [iterM_st concat].
  { apply runs_ret. exists [], []. split; [reflexivity|]. split; [apply moved_refl|auto]. }
  apply runs_bind. eapply runs_mono; [apply send_moves|]. intros [[]|e] w1 (p & rest & E & M & R).
  - eapply runs_mono; [apply IH|]. intros r w2 (p2 & rest2 & E2 & M2 & R2). rewrite (R eq_refl), app_nil_r in E.
    exists (p ++ p2), rest2. split; [rewrite E, E2, app_assoc; reflexivity|].
    split; [exact (moved_trans _ _ _ _ _ _ _ M M2)|exact R2].
  - exists p, (rest ++ concat packets). split; [rewrite E, app_assoc; reflexivity|]. split; [exact M|discriminate].
Qed.

Lemma encode_done_identity key job identity :
  wire.result_identity key job = Ok identity -> exists finished, wire.encode_done key job = Ok finished.
Proof.
  unfold wire.result_identity. intros H.
  apply bind_Ok in H as (k & Hk & H). apply wire.session_key_Ok in Hk as [-> Hk].
  apply bind_Ok in H as (u & Hj & _). apply wire.need_Ok, wire.number_iff in Hj.
  eexists. apply (wire.encode_message_Ok (wire.MDone key job)). split; [split; assumption|reflexivity].
Qed.

Lemma result_reply_moves limits request notice f finished d w :
  reply limits request (notice ++ f ++ finished) true ->
  runs (send patience channel notice d;; send patience channel f d;;
        x ← of_wire (Ok finished); send patience channel x d;; check d;; mret true)
    (answered limits request w) w.
Proof.
  intros Rp.
  assert (E : (send patience channel notice d;; send patience channel f d;;
               x ← of_wire (Ok finished); send patience channel x d;; check d;; mret true) w =
              (sends_all [notice; f; finished] d;; check d;; mret true) w).
  { unfold sends_all, of_wire, lift_res. cbn [iterM_st]. unfold mbind, st_bind, mret, st_ret.
    destruct (send _ _ notice d w) as [[]  w1]; [|reflexivity].
    destruct (send _ _ f d w1) as [[] w2]; [|reflexivity].
    destruct (send _ _ finished d w2) as [[[]|] w3]; reflexivity. }
  unfold runs. rewrite E. clear E.
  match goal with |- answered _ _ _ (?m w).1 _ => change (runs m (answered limits request w) w) end.
  pose proof (reply_starts _ _ _ _ Rp) as N.
  apply runs_bind. eapply runs_mono; [apply sends_all_moves|]. intros r w1 (p & rest & E & M & R).
  cbn [concat] in E. rewrite app_nil_r in E. rewrite E in Rp, N.
  destruct r as [[]|e]; [|exists p, rest, true; split; [exact M|]; split; [auto|discriminate]].
  rewrite (R eq_refl) in *. rewrite app_nil_r in N.
  assert (Q : quiet (check d;; mret true)) by auto with quiet.
  eapply runs_mono; [apply Q|]. intros r w2 M2. exists p, [], true.
  split; [eapply moved_last; eassumption|]. split; auto.
Qed.

Lemma one_job_moves baseline request limits w :
  runs (one_job parse_sql cfg patience channel monotonic ticks baseline request limits)
    (answered limits request w) w.
Proof.
  assert (K : forall w w1, moved [] [] w w1 -> forall r w', answered limits request w1 r w' -> answered limits request w r w').
  { intros w0 w1 M r w' (p & rest & go & M' & Hp). exists p, rest, go. split; [eapply moved_first; eassumption|exact Hp]. }
  unfold one_job, of_frame. apply runs_quiet; [apply quiet_lift|]. intros r1 w1 _ M1.
  destruct r1 as [d|e]; [|apply answered_nothing, M1].
  eapply runs_mono; [|apply K, M1]. clear M1. revert w1. clear w. intros w.
  apply runs_bind. unfold runs at 1, caught.
  pose proof (quiet_compute baseline request limits d w) as M. unfold runs in M.
  destruct (compute _ _ _ _ _ _ _ w) as [r w1] eqn:X. cbn [fst snd] in *.
  eapply runs_mono; [|apply K, M]. clear M.
  destruct r as [outcome|e]; [|apply reply_error_moves; [apply quiet_ret|discriminate]].
  destruct (failure outcome) as [fl|] eqn:Ef.
  - apply reply_error_moves; [auto with quiet|]. intros w2 w3 H.
    apply st_bind_Ok in H as (? & ? & _ & [= H _]). exact H.
  - destruct (frame outcome) as [f|] eqn:F; [|apply answered_nothing, moved_refl].
    destruct (compute_frame _ _ _ _ _ _ _ _ X F) as (sql & identity & U & I & C).
    destruct (encode_done_identity _ _ _ I) as [finished Ed]. rewrite Ed.
    apply (result_reply_moves limits request (wire.packet_of wire.Kind.RESULT []) f finished d w1).
    eapply reply_result; eauto.
Qed.

Lemma loop_dialogue fuel baseline key limits idle previous w :
  Transport.polite channel ->
  runs (loop parse_sql cfg patience channel monotonic ticks fuel baseline key limits idle previous)
    (fun _ w' => exists inp out, moved inp out w w' /\ dialogue limits key previous inp out) w.
Proof.
  intros P. revert previous w; induction fuel as [|fuel IH]; intros previous w; cbn [loop].
  { exists [], []. split; [apply moved_refl|constructor]. }
  apply runs_bind. eapply runs_mono; [apply next_moves, P|]. intros r w1 (inp & M & Hi).
  assert (N : forall w2, moved [] [] w1 w2 -> exists inp out, moved inp out w w2 /\ dialogue limits key previous inp out).
  { intros w2 M2. exists inp, []. split; [eapply moved_last; eassumption|constructor]. }
  destruct r as [[[kind body]|]|e]; [|apply N, moved_refl|apply N, moved_refl].
  destruct (Hi kind body eq_refl) as [-> [-> | ->]]; [|apply N, moved_refl]. clear Hi.
  apply runs_quiet; [apply quiet_lift|]. intros r2 w2 E2 M2. destruct r2 as [request|e]; [|apply N, M2].
  unfold of_wire, lift_res in E2. destruct (wire.decode_query body) as [q|] eqn:D; [|discriminate E2].
  injection E2 as -> _.
  assert (Er : wire.encode_query request = Ok (wire.packet_of wire.Kind.QUERY body)).
  { assert (D' : wire.decode_message wire.Kind.QUERY body = Ok (wire.MQuery request)).
    { cbn [wire.decode_message]. rewrite D. reflexivity. }
    apply wire.decode_message_Ok in D' as (_ & Vq & ->).
    apply (wire.encode_message_Ok (wire.MQuery request)). auto. }
  set (raw := wire.packet_of wire.Kind.QUERY body) in *.
  apply runs_quiet; [apply quiet_guard|]. intros r3 w3 E3 M3.
  pose proof (moved_first _ _ _ _ _ M2 M3) as M4. destruct r3 as [u|e]; [|apply N, M4].
  apply guard_st_Ok in E3 as [E3 _]. apply negb_false_iff, andb_true_iff in E3 as [E3 E4].
  apply bool_decide_eq_true in E3. apply Z.eqb_eq in E4. pose proof (moved_last _ _ _ _ _ M M4) as M5.
  apply runs_bind. eapply runs_mono; [apply one_job_moves|].
  intros r4 w4 (p & rest & go & M6 & R & G). pose proof (moved_trans _ _ _ _ _ _ _ M5 M6) as M7.
  rewrite app_nil_r in M7. cbn [app] in M7.
  assert (Last : forall w5, moved [] [] w4 w5 ->
    exists inp out, moved inp out w w5 /\ dialogue limits key previous inp out).
  { intros w5 M8. exists raw, p. split; [eapply moved_last; eassumption|].
    destruct R as [-> |R]; [constructor|]. rewrite <- (app_nil_r raw). eapply dialogue_last; eassumption. }
  destruct r4 as [[]|e]; [|apply Last, moved_refl|apply Last, moved_refl]. cbn [negb].
  destruct (G eq_refl) as (-> & -> & Hp). destruct R as [R|R]; [contradiction|]. rewrite app_nil_r in R.
  eapply runs_mono; [apply IH|]. intros r5 w5 (inp & out & M8 & D5). rewrite E4 in D5.
  exists (raw ++ inp), (p ++ out). split; [exact (moved_trans _ _ _ _ _ _ _ M7 M8)|].
  eapply dialogue_next; eassumption.
Qed.

(** C25: what a worker may write.  Over a socket that gives no more than it is
    asked for, whatever the peer sends, the server does and the clock reads,
    the loop's traffic is a dialogue: it reads queries of its own key whose
    numbers go up by one from the last job, and what it writes is, for each of
    them in that order, one error or the notice, the frame of the masked
    result of that very query and the matching DONE; only after the last
    answer, which may be cut, does it stop, and it always stops after an
    answer that says so.  No other byte leaves the worker. *)
Theorem worker_dialogue fuel baseline key limits idle previous w r w' :
  Transport.polite channel ->
  loop parse_sql cfg patience channel monotonic ticks fuel baseline key limits idle previous w = (r, w') ->
  exists inp out,
    Transport.received (w_io w') = Transport.received (w_io w) ++ inp /\
    Transport.sent (w_io w') = Transport.sent (w_io w) ++ out /\
    dialogue limits key previous inp out.
Proof.
  intros P H. pose proof (loop_dialogue fuel baseline key limits idle previous w P) as R.
  unfold runs in R. rewrite H in R. destruct R as (inp & out & [M1 M2] & D). eauto.
Qed.
End replies.

(** The entry's arguments are what its parent printed. *)
Lemma arguments_of_parent a :
  MIN_PRIVATE_FD <= fd a <= MAX_PRIVATE_FD -> 1 <= parent_pid a < 2 ^ 31 ->
  64 * 1024 * 1024 <= address_bytes a <= 4096 * 1024 * 1024 -> MIN_IDLE_MS <= idle_ms a <= MAX_IDLE_MS ->
  arguments (map str_int [fd a; parent_pid a; address_bytes a; idle_ms a]) = Ok a.
Proof.
  destruct a as [f p m i]. cbn [fd parent_pid address_bytes idle_ms]. unfold arguments, MIN_PRIVATE_FD, MAX_PRIVATE_FD,
    MIN_IDLE_MS, MAX_IDLE_MS, MAX_DECIMAL_DIGITS. intros H1 H2 H3 H4.
  assert (D : forall n, 0 <= n < 10 ^ Z.of_nat 10 -> dec_value 0 (str_int n) = n /\
    (0 <? Z.of_nat (length (str_int n))) && (Z.of_nat (length (str_int n)) <=? 10) && decimal_text (str_int n) = true).
  { intros n Hn. destruct (str_int_nonneg n) as (Hd & Hv & _); [lia|].
    pose proof (str_int_length n 10 Hn ltac:(lia)). split; [exact Hv|].
    rewrite !andb_true_iff, Z.ltb_lt, Z.leb_le. split; [lia|]. apply forallb_forall. intros c Hc.
    apply list_elem_of_In in Hc. pose proof (proj1 (Forall_forall _ _) Hd c Hc) as B. unfold digit_char in B.
    rewrite andb_true_iff, !Z.leb_le. exact B. }
  change (Z.shiftl 1 31) with (2 ^ 31). cbn [map length forallb Nat.eqb].
  destruct (D f) as [-> ->]; [lia|]. destruct (D p) as [-> ->]; [lia|].
  destruct (D m) as [-> ->]; [lia|]. destruct (D i) as [-> ->]; [lia|].
  repeat match goal with H : _ /\ _ |- _ => destruct H end.
  repeat match goal with H : _ <= _ |- _ => apply Z.leb_le in H; rewrite ?H | H : _ < _ |- _ => apply Z.ltb_lt in H; rewrite ?H end.
  repeat match goal with H : (_ <=? _) = true |- _ => rewrite H | H : (_ <? _) = true |- _ => rewrite H end.
  reflexivity.
Qed.

(** ** Witness *)

Definition milliseconds (b : Z) : Z := wire.exactly (wire.float_of_bits b) * 1000 / 2 ^ 1074.

Definition sample_row : list SessionState.cell :=
  map SessionState.Text (replicate 3 (py "u")) ++ [SessionState.Names [Some (py "public")]; SessionState.Number 0] ++
  map SessionState.Text [py "on"; py "on"; py "30000"; py "UTF8"; py "ISO"; py "UTC"; py "read committed";
                         py "read committed"; py "on"] ++
  [SessionState.Number 4242; SessionState.Text (py "db"); SessionState.Text (py "on"); SessionState.Number 0;
   SessionState.Names []] ++ map SessionState.Text (replicate 6 (py "x")).

#[local] Instance sample_worker_connection : WorkerConnection :=
  {| status_closed _ _ := Some false; status_broken _ _ := Some false;
     status_ok _ _ := Some true; status_idle _ _ := Some true;
     session_rows _ _ := Ok [sample_row] |}.

Definition sample_key : SessionKey :=
  {| wire.session_id := replicate 16 (z2b 1); wire.datasource_id := replicate 16 (z2b 2);
     wire.generation := 3; wire.record_revision := 4 |}.

(** The clock stands at [2.5]; the query's deadline is [12.5]. *)
Definition sample_query : Query :=
  {| q_key := sample_key; q_job_id := 1; q_expires_at := 4623226492472524800;
     q_sql := ascii_lit "SELECT upper(e_mail) AS x FROM customers" |}.

Definition sample_script : list byte :=
  match wire.encode_query sample_query, wire.encode_close with Ok q, Ok c => q ++ c | _, _ => [] end.

(** A socket that gives the script seven bytes at a time and takes all. *)
Definition script_socket : Transport.RawChannel := {|
  Transport.stop := fun _ => Ok false;
  Transport.sock_recv := fun s _ size =>
    Transport.Gave (take (Z.to_nat (Z.min 7 size)) (drop (length (Transport.received s)) sample_script));
  Transport.sock_send := fun _ _ piece => Transport.Gave (blen piece);
  Transport.limits := Transport.sample_limits;
|}.

Lemma script_polite : Transport.polite script_socket.
Proof.
  intros s wait size bs [= <-]. unfold blen. rewrite length_take. lia.
Qed.

Definition sample_worker : worker :=
  {| w_io := {| Transport.moment := 0; Transport.readings := 0; Transport.received := []; Transport.sent := [] |};
     w_adapter := Pipeline.open_adapter |}.

Abbreviation sample_loop :=
  (@loop sample_lib preorder_visitor Pipeline.sample_server sample_worker_connection Pipeline.sample_parse
    Pipeline.sample_config 100 script_socket (fun _ => 4612811918334230528) milliseconds 5 sample_row sample_key
    sample_limits 60000 0 sample_worker).

Lemma worker_dialogue_witness : exists out, length out = 220%nat /\
  dialogue Pipeline.sample_parse Pipeline.sample_config (L := sample_lib) (V := preorder_visitor)
    (S := Pipeline.sample_server) sample_limits sample_key 0 sample_script out.
Proof.
  assert (Es : length (Transport.sent (w_io sample_loop.2)) = 220%nat) by (vm_compute; reflexivity).
  assert (Er : Transport.received (w_io sample_loop.2) = sample_script) by (vm_compute; reflexivity).
  destruct sample_loop as [r w'] eqn:E. cbn [snd] in Es, Er.
  destruct (worker_dialogue _ _ _ _ _ _ _ _ _ _ _ _ _ _ _ script_polite E) as (inp & out & Hi & Ho & D).
  cbn [sample_worker w_io Transport.received Transport.sent app] in Hi, Ho.
  exists out. rewrite <- Ho, <- Er, Hi. rewrite Ho in Es |- *. split; [exact Es|exact D].
Defined.
