(* ===== verification/AdminWork.v ===== *)
(** * AdminWork: the administrative work queue and its workers

    Models [runtime/admin_work.py]: admission under one lock, the workers'
    loop, the containment of a job that raised, and the drain.  A thread is a
    point of its code and moves by one critical section, or one call of code
    that is not the queue's, at a time; [step] interleaves the workers, the
    thread that starts them, one that drains and any number of submitters.
    What a job, a callback or [Thread.start] does is chosen by the
    environment.  Tickets are objects of a store, by number. *)

From S2P Require Import Prelude.

Local Open Scope nat_scope.

Definition DEFAULT_WORKERS : nat := 2.
Definition DEFAULT_WAITING : nat := 2.

(** [_IDLE], [_STARTING], [_STARTED]. *)
Inductive worker_state := IDLE | STARTING | STARTED.

(** [_QUEUED], [_RUNNING], [_DONE]. *)
Inductive ticket_state := QUEUED | RUNNING | DONE.

#[export] Instance worker_state_eq_dec : EqDecision worker_state.
Proof. solve_decision. Defined.
#[export] Instance ticket_state_eq_dec : EqDecision ticket_state.
Proof. solve_decision. Defined.

(** A job and its callbacks are names of code of the caller; a result is a
    number. *)
Record WorkTicket := {
  t_job : option nat;
  t_notify : option nat;
  t_abandon : option nat;
  t_state : ticket_state;
  t_result : option Z;
  t_failed : bool;
}.

(** [WorkTicket.__init__]. *)
Definition new_ticket (job : nat) (notify abandon : option nat) : WorkTicket :=
  {| t_job := Some job; t_notify := notify; t_abandon := abandon; t_state := QUEUED;
     t_result := None; t_failed := false |}.

(** [WorkTicket.take]: the result, once. *)
Definition take_result (t : WorkTicket) : option Z * WorkTicket :=
  (t_result t, {| t_job := t_job t; t_notify := t_notify t; t_abandon := t_abandon t;
                  t_state := t_state t; t_result := None; t_failed := t_failed t |}).

(** How a call of foreign code ends: a value, an [Exception], or another
    [BaseException]. *)
Inductive outcome := Returned (v : Z) | RaisedException | RaisedBase.

(** Where a worker's thread is: in [_worker_main], in [_serve] with the ticket
    [t] it has taken, in [_contain], or past [_serve].  [Contained t ok fatal]
    is the [finally] of [_contain], and [fatal] what leaves it. *)
Inductive point :=
| Entry
| Waiting
| Running (t : nat) (job : option nat)
| Raised_ (t : nat)
| Containing (t : nat)
| Contained (t : nat) (ok fatal : bool)
| Finishing (t : nat) (failed skipped : bool) (result : option Z)
| Abandoning (t : nat) (abandon notify : option nat)
| Notifying (t : nat) (notify : option nat)
| Leaving
| Ending
| Gone.

(** [_Worker]; [thread] is [None] until the thread runs, [finished] is its
    [done] event. *)
Record Worker := {
  state : worker_state;
  ran : bool;
  cancelled : bool;
  finished : bool;
  thread : option point;
}.

Definition new_worker : Worker :=
  {| state := IDLE; ran := false; cancelled := false; finished := false; thread := None |}.

(** What happened, for the statements: a job called, a ticket done, a callback
    called. *)
Inductive event :=
| Executed (t job : nat)
| Completed (t : nat) (failed : bool)
| Abandoned (t callback : nat)
| Notified (t callback : nat).

(** The thread of [drain]: the two loops over the workers, and the answer. *)
Inductive drain_point :=
| Settle (i : nat)
| Joinable (i : nat)
| Join (i : nat)
| Verify (i : nat) (settled : bool)
| Verdict (settled : bool)
| Answer (complete : bool).

(** The thread of [start]. *)
Inductive start_point := Attempt (i : nat) | Launch (i : nat) | Confirm (i : nat) | StartDone | StartFailed.

(** [AdminWorkQueue], with its tickets' store, the two threads of its owner,
    the events, and the tickets whose worker died in containment. *)
Record AdminWorkQueue := {
  capacity : nat;
  pending : list nat;
  tickets : gset nat;
  closing : bool;
  stopping : bool;
  broken : bool;
  containing : bool;
  frozen : bool;
  on_unknown : bool;
  workers : list Worker;
  store : list WorkTicket;
  starter : start_point;
  drainer : option drain_point;
  log : list event;
  lost : list nat;
}.

(** [AdminWorkQueue.__init__]: [ValueError], or an idle queue. *)
Definition new_queue (count waiting : Z) (on_unknown : bool) : res unit AdminWorkQueue :=
  refuse_if ((count <? 1)%Z || (waiting <? 0)%Z) tt;;
  Ok {| capacity := Z.to_nat (count + waiting); pending := []; tickets := ∅; closing := false;
        stopping := false; broken := false; containing := false; frozen := false;
        on_unknown := on_unknown; workers := replicate (Z.to_nat count) new_worker; store := [];
        starter := Attempt 0; drainer := None; log := []; lost := [] |}.

(** ** Field updates *)

Definition with_pending (l : list nat) (q : AdminWorkQueue) : AdminWorkQueue :=
  {| capacity := capacity q; pending := l; tickets := tickets q; closing := closing q; stopping := stopping q;
     broken := broken q; containing := containing q; frozen := frozen q; on_unknown := on_unknown q;
     workers := workers q; store := store q; starter := starter q; drainer := drainer q; log := log q;
     lost := lost q |}.
Definition with_tickets (s : gset nat) (q : AdminWorkQueue) : AdminWorkQueue :=
  {| capacity := capacity q; pending := pending q; tickets := s; closing := closing q; stopping := stopping q;
     broken := broken q; containing := containing q; frozen := frozen q; on_unknown := on_unknown q;
     workers := workers q; store := store q; starter := starter q; drainer := drainer q; log := log q;
     lost := lost q |}.
Definition with_flags (c s b k f : bool) (q : AdminWorkQueue) : AdminWorkQueue :=
  {| capacity := capacity q; pending := pending q; tickets := tickets q; closing := c; stopping := s;
     broken := b; containing := k; frozen := f; on_unknown := on_unknown q;
     workers := workers q; store := store q; starter := starter q; drainer := drainer q; log := log q;
     lost := lost q |}.
Definition with_workers (ws : list Worker) (q : AdminWorkQueue) : AdminWorkQueue :=
  {| capacity := capacity q; pending := pending q; tickets := tickets q; closing := closing q; stopping := stopping q;
     broken := broken q; containing := containing q; frozen := frozen q; on_unknown := on_unknown q;
     workers := ws; store := store q; starter := starter q; drainer := drainer q; log := log q;
     lost := lost q |}.
Definition with_store (s : list WorkTicket) (q : AdminWorkQueue) : AdminWorkQueue :=
  {| capacity := capacity q; pending := pending q; tickets := tickets q; closing := closing q; stopping := stopping q;
     broken := broken q; containing := containing q; frozen := frozen q; on_unknown := on_unknown q;
     workers := workers q; store := s; starter := starter q; drainer := drainer q; log := log q;
     lost := lost q |}.
Definition with_starter (p : start_point) (q : AdminWorkQueue) : AdminWorkQueue :=
  {| capacity := capacity q; pending := pending q; tickets := tickets q; closing := closing q; stopping := stopping q;
     broken := broken q; containing := containing q; frozen := frozen q; on_unknown := on_unknown q;
     workers := workers q; store := store q; starter := p; drainer := drainer q; log := log q;
     lost := lost q |}.
Definition with_drainer (p : option drain_point) (q : AdminWorkQueue) : AdminWorkQueue :=
  {| capacity := capacity q; pending := pending q; tickets := tickets q; closing := closing q; stopping := stopping q;
     broken := broken q; containing := containing q; frozen := frozen q; on_unknown := on_unknown q;
     workers := workers q; store := store q; starter := starter q; drainer := p; log := log q;
     lost := lost q |}.
Definition with_log (l : list event) (q : AdminWorkQueue) : AdminWorkQueue :=
  {| capacity := capacity q; pending := pending q; tickets := tickets q; closing := closing q; stopping := stopping q;
     broken := broken q; containing := containing q; frozen := frozen q; on_unknown := on_unknown q;
     workers := workers q; store := store q; starter := starter q; drainer := drainer q; log := l;
     lost := lost q |}.
Definition with_lost (l : list nat) (q : AdminWorkQueue) : AdminWorkQueue :=
  {| capacity := capacity q; pending := pending q; tickets := tickets q; closing := closing q; stopping := stopping q;
     broken := broken q; containing := containing q; frozen := frozen q; on_unknown := on_unknown q;
     workers := workers q; store := store q; starter := starter q; drainer := drainer q; log := log q;
     lost := l |}.

Definition record (e : event) (q : AdminWorkQueue) : AdminWorkQueue := with_log (log q ++ [e]) q.

(** Update worker [i], or ticket [t] of the store. *)
Definition at_worker (i : nat) (f : Worker -> Worker) (q : AdminWorkQueue) : AdminWorkQueue :=
  with_workers (alter f i (workers q)) q.
Definition at_ticket (t : nat) (f : WorkTicket -> WorkTicket) (q : AdminWorkQueue) : AdminWorkQueue :=
  with_store (alter f t (store q)) q.

Definition move (p : point) (w : Worker) : Worker :=
  {| state := state w; ran := ran w; cancelled := cancelled w; finished := finished w; thread := Some p |}.
Definition set_state (s : worker_state) (w : Worker) : Worker :=
  {| state := s; ran := ran w; cancelled := cancelled w; finished := finished w; thread := thread w |}.
Definition set_ran (w : Worker) : Worker :=
  {| state := state w; ran := true; cancelled := cancelled w; finished := finished w; thread := thread w |}.
Definition set_cancelled (w : Worker) : Worker :=
  {| state := state w; ran := ran w; cancelled := true; finished := finished w; thread := thread w |}.
Definition set_finished (w : Worker) : Worker :=
  {| state := state w; ran := ran w; cancelled := cancelled w; finished := true; thread := thread w |}.

(** ** Admission *)

(** [close_admission]. *)
Definition close_admission (q : AdminWorkQueue) : AdminWorkQueue :=
  with_flags true (stopping q) (broken q) (containing q) (frozen q) q.

Inductive admission_error := AdminWorkUnavailableError | Interrupted.

(** [submit].  When the protected steps are [interrupted], they are undone: the
    callbacks are let go, and the ticket leaves the set and the deque. *)
Definition submit (job : nat) (notify abandon : option nat) (interrupted : bool) (q : AdminWorkQueue)
    : res admission_error nat * AdminWorkQueue :=
  let t := length (store q) in
  let q1 := with_store (store q ++ [new_ticket job notify abandon]) q in
  if closing q || broken q || (capacity q <=? size (tickets q)) then (Err AdminWorkUnavailableError, q1)
  else
    let q2 := with_pending (pending q1 ++ [t]) (with_tickets (tickets q1 ∪ {[t]}) q1) in
    if interrupted then
      let q3 := at_ticket t (fun x => {| t_job := None; t_notify := None; t_abandon := None;
                  t_state := t_state x; t_result := t_result x; t_failed := t_failed x |}) q2 in
      let q4 := with_tickets (tickets q3 ∖ {[t]}) q3 in
      (Err Interrupted, with_pending (filter (fun x => x <> t) (pending q4)) q4)
    else (Ok t, q2).

(** ** The workers *)

(** Taking the next ticket, under the lock: its job leaves it. *)
Definition pop (i t : nat) (rest : list nat) (q : AdminWorkQueue) : AdminWorkQueue :=
  let job := store q !! t ≫= t_job in
  let q := at_ticket t (fun x => {| t_job := None; t_notify := t_notify x; t_abandon := t_abandon x;
             t_state := RUNNING; t_result := t_result x; t_failed := t_failed x |}) (with_pending rest q) in
  if frozen q then at_worker i (move (Finishing t true true None)) q
  else at_worker i (move (Running t job)) q.

(** The end of a ticket, under the lock. *)
Definition finish (i t : nat) (failed skipped : bool) (result : option Z) (q : AdminWorkQueue) : AdminWorkQueue :=
  let ticket := store q !! t in
  let abandon := if skipped then ticket ≫= t_abandon else None in
  let notify := ticket ≫= t_notify in
  let q := at_ticket t (fun x => {| t_job := t_job x; t_notify := None; t_abandon := None;
             t_state := DONE; t_result := if failed then None else result; t_failed := failed |}) q in
  let q := record (Completed t failed) (with_tickets (tickets q ∖ {[t]}) q) in
  at_worker i (move (Abandoning t abandon notify)) q.

(** One move of worker [i]'s thread; [o] is how the foreign code it calls
    ends.  [None] when it waits or has ended. *)
Definition advance (i : nat) (o : outcome) (q : AdminWorkQueue) : option AdminWorkQueue :=
  w ← workers q !! i;
  p ← thread w;
  match p with
  | Entry =>
      Some (if cancelled w then at_worker i (move Leaving) q
            else at_worker i (fun w => move Waiting (set_ran w)) q)
  | Waiting =>
      if containing q then None
      else match pending q with
      | t :: rest => Some (pop i t rest q)
      | [] => if stopping q then Some (at_worker i (move Leaving) q) else None
      end
  | Running t None => Some (at_worker i (move (Finishing t false false None)) q)
  | Running t (Some job) =>
      let q := record (Executed t job) q in
      Some (match o with
            | Returned v => at_worker i (move (Finishing t false false (Some v))) q
            | _ => at_worker i (move (Raised_ t)) q
            end)
  | Raised_ t =>
      Some (at_worker i (move (Containing t))
              (with_flags (closing q) (stopping q) true true (frozen q) q))
  | Containing t =>
      Some (if on_unknown q then
              match o with
              | Returned _ => at_worker i (move (Contained t true false)) q
              | RaisedException => at_worker i (move (Contained t false false)) q
              | RaisedBase => at_worker i (move (Contained t false true)) q
              end
            else at_worker i (move (Contained t false false)) q)
  | Contained t ok fatal =>
      let q := with_flags (closing q) (stopping q) (broken q) false (frozen q || negb ok) q in
      Some (if fatal then at_worker i (move Leaving) (with_lost (lost q ++ [t]) q)
            else at_worker i (move (Finishing t true false None)) q)
  | Finishing t failed skipped result => Some (finish i t failed skipped result q)
  | Abandoning t abandon notify =>
      Some (match abandon with
            | None => at_worker i (move (Notifying t notify)) q
            | Some c =>
                let q := record (Abandoned t c) q in
                match o with
                | RaisedBase => at_worker i (move Leaving) q
                | _ => at_worker i (move (Notifying t notify)) q
                end
            end)
  | Notifying t notify =>
      Some (match notify with
            | None => at_worker i (move Waiting) q
            | Some c =>
                let q := record (Notified t c) q in
                match o with
                | RaisedBase => at_worker i (move Leaving) q
                | _ => at_worker i (move Waiting) q
                end
            end)
  | Leaving => Some (at_worker i (fun w => move Ending (set_finished w)) q)
  | Ending => Some (at_worker i (move Gone) q)
  | Gone => None
  end.

(** ** Starting and draining *)

(** How [thread.start()] ends: it returns, or raises with the thread running
    or not. *)
Inductive launch := Launched | LaunchLost | LaunchFailed.

(** One move of the thread in [start]. *)
Definition start_step (l : launch) (q : AdminWorkQueue) : option AdminWorkQueue :=
  match starter q with
  | Attempt i =>
      if i <? length (workers q) then Some (with_starter (Launch i) (at_worker i (set_state STARTING) q))
      else Some (with_starter StartDone q)
  | Launch i =>
      match l with
      | Launched => Some (with_starter (Confirm i) (at_worker i (move Entry) q))
      | LaunchLost => Some (with_starter StartFailed (at_worker i (move Entry) q))
      | LaunchFailed => Some (with_starter StartFailed q)
      end
  | Confirm i => Some (with_starter (Attempt (S i)) (at_worker i (set_state STARTED) q))
  | StartDone | StartFailed => None
  end.

(** [thread.is_alive()]. *)
Definition alive (w : Worker) : bool :=
  match thread w with None | Some Gone => false | Some _ => true end.

(** [_Worker.joinable]. *)
Definition joinable (w : Worker) : bool := bool_decide (state w = STARTED) || ran w || finished w.

(** [_Worker.settled]: the answer, and the worker after it. *)
Definition settled (w : Worker) : bool * Worker :=
  let w := if negb (ran w) && negb (bool_decide (state w = STARTED)) then set_cancelled w else w in
  (bool_decide (state w = IDLE) || (finished w && negb (alive w)), w).

(** One move of the thread in [drain]; [Join] waits for the thread's end. *)
Definition drain_step (q : AdminWorkQueue) : option AdminWorkQueue :=
  match drainer q with
  | None | Some (Answer _) =>
      Some (with_drainer (Some (Settle 0)) (with_flags true true (broken q) (containing q) (frozen q) q))
  | Some (Settle i) =>
      match workers q !! i with
      | None => Some (with_drainer (Some (Verify 0 true)) q)
      | Some w => Some (with_drainer (Some (Joinable i)) (at_worker i (fun _ => (settled w).2) q))
      end
  | Some (Joinable i) =>
      w ← workers q !! i;
      Some (with_drainer (Some (if joinable w then Join i else Settle (S i))) q)
  | Some (Join i) =>
      w ← workers q !! i;
      if alive w then None else Some (with_drainer (Some (Settle (S i))) q)
  | Some (Verify i ok) =>
      match workers q !! i with
      | None => Some (with_drainer (Some (Verdict ok)) q)
      | Some w =>
          Some (with_drainer (Some (Verify (S i) (ok && (settled w).1))) (at_worker i (fun _ => (settled w).2) q))
      end
  | Some (Verdict ok) => Some (with_drainer (Some (Answer (ok && bool_decide (tickets q = ∅)))) q)
  end.

(** ** The queue and its threads, interleaved *)

Inductive step (q : AdminWorkQueue) : AdminWorkQueue -> Prop :=
| step_worker i o q' : advance i o q = Some q' -> step q q'
| step_submit job notify abandon interrupted : step q (submit job notify abandon interrupted q).2
| step_close : step q (close_admission q)
| step_start l q' : start_step l q = Some q' -> step q q'
| step_drain q' : drain_step q = Some q' -> step q q'.

Inductive reachable : AdminWorkQueue -> Prop :=
| reachable_new count waiting unknown q : new_queue count waiting unknown = Ok q -> reachable q
| reachable_step q q' : reachable q -> step q q' -> reachable q'.

(** ** The owners kept by a partial startup: [retain] and [release_retained],
    by identity *)

Definition retain (resources retained : list nat) : list nat := retained ++ resources.

(** The inner loop of [release_retained]: the first that is [resource]. *)
Fixpoint remove_held (resource : nat) (retained : list nat) : list nat :=
  match retained with
  | [] => []
  | held :: rest => if held =? resource then rest else held :: remove_held resource rest
  end.

Definition release_retained (resources retained : list nat) : list nat :=
  fold_left (fun held r => remove_held r held) resources retained.

(** ** Threads: what a worker's fields say of where its thread is *)

Definition sound (w : Worker) : Prop :=
  (state w = IDLE -> thread w = None) /\
  match thread w with
  | None | Some Entry => ran w = false /\ finished w = false
  | Some Leaving => finished w = false /\ (ran w = true \/ cancelled w = true)
  | Some Ending | Some Gone => finished w = true /\ (ran w = true \/ cancelled w = true)
  | Some _ => ran w = true /\ finished w = false
  end.

(** The workers the starting thread has not reached. *)
Definition unstarted (p : start_point) (i : nat) : Prop :=
  match p with Attempt k | Launch k => k <= i | Confirm k => k < i | _ => False end.

Record lifecycle (q : AdminWorkQueue) : Prop := {
  threads_sound : Forall sound (workers q);
  not_reached : forall i w, workers q !! i = Some w -> unstarted (starter q) i -> thread w = None;
  launching : forall i w, starter q = Launch i -> workers q !! i = Some w -> state w <> IDLE;
}.

(** Run one move of a worker: its place, its worker and its point. *)
Lemma advance_inv i o q q' :
  advance i o q = Some q' -> exists w p, workers q !! i = Some w /\ thread w = Some p.
Proof.
  unfold advance. intros H. destruct (workers q !! i) as [w|]; [|discriminate]. cbn [mbind option_bind] in H.
  destruct (thread w) as [p|] eqn:E; [|discriminate]. eauto.
Qed.

Ltac advance_cases H w p Hw Ht :=
  pose proof (advance_inv _ _ _ _ H) as (w & p & Hw & Ht);
  unfold advance in H; rewrite Hw in H; cbn [mbind option_bind] in H; rewrite Ht in H;
  cbn [mbind option_bind] in H; destruct p.

(** A move changes one worker: its thread, and [ran] or [finished] at the
    ends. *)
Lemma advance_worker i o q q' : advance i o q = Some q' ->
  exists f, workers q' = alter f i (workers q) /\ starter q' = starter q /\ drainer q' = drainer q /\
    closing q' = closing q /\ stopping q' = stopping q /\
    forall w, workers q !! i = Some w -> exists p, thread w = Some p /\ thread (f w) <> None /\
      state (f w) = state w /\ cancelled (f w) = cancelled w /\ (sound w -> sound (f w)) /\
      (ran w = true -> ran (f w) = true) /\ (cancelled w = true -> ran (f w) = ran w).
Proof.
  intros H. advance_cases H w p Hw Ht; repeat case_match; try discriminate H; injection H as <-;
    unfold pop, finish; repeat case_match;
    (eexists; split; [reflexivity|]; do 4 (split; [cbn; congruence|]); intros w' Hw';
     rewrite Hw in Hw'; injection Hw' as <-; eexists; split; [exact Ht|]; split; [discriminate|];
     split; [reflexivity|]; split; [reflexivity|]; split;
     [unfold sound; rewrite Ht; cbn; intros [I D]; split; [intros E; specialize (I E); discriminate|];
      intuition congruence|split; [cbn; auto|cbn; congruence]]).
Qed.

Lemma sound_settled w : sound w -> sound (settled w).2.
Proof. unfold settled, sound. cbn [snd]. destruct (_ && _); cbn; [|auto]. intros [I D]. split; [exact I|]. destruct (thread w) as [[]|]; intuition. Qed.

Lemma thread_settled w : thread (settled w).2 = thread w.
Proof. unfold settled. cbn [snd]. destruct (_ && _); reflexivity. Qed.
Lemma state_settled w : state (settled w).2 = state w.
Proof. unfold settled. cbn [snd]. destruct (_ && _); reflexivity. Qed.

Lemma alter_lookup {A} (f : A -> A) i j (l : list A) x :
  alter f i l !! j = Some x -> (i <> j /\ l !! j = Some x) \/ (i = j /\ exists y, l !! j = Some y /\ x = f y).
Proof.
  destruct (decide (i = j)) as [->|N].
  - rewrite list_lookup_alter_eq. destruct (l !! j); cbn; [intros [= <-]|discriminate]. eauto.
  - rewrite list_lookup_alter_ne by exact N. auto.
Qed.

(** One worker updated by something other than its own thread. *)
Lemma lifecycle_update q q' i f :
  lifecycle q -> workers q' = alter f i (workers q) -> starter q' = starter q ->
  (forall w, workers q !! i = Some w -> sound w -> sound (f w) /\ thread (f w) = thread w /\ state (f w) = state w) ->
  lifecycle q'.
Proof.
  intros [T R La] Ew Es Hf. split.
  - rewrite Ew. apply Forall_alter; [exact T|]. intros w Hw Sw. apply Hf; assumption.
  - rewrite Ew, Es. intros j w' Hj U. apply alter_lookup in Hj as [[_ Hj]|[<- (w & Hj & ->)]]; [eauto|].
    rewrite Forall_lookup in T. destruct (Hf w Hj (T _ _ Hj)) as (_ & -> & _). eauto.
  - rewrite Ew, Es. intros j w' E Hj. apply alter_lookup in Hj as [[_ Hj]|[<- (w & Hj & ->)]]; [eauto|].
    rewrite Forall_lookup in T. destruct (Hf w Hj (T _ _ Hj)) as (_ & _ & ->). eauto.
Qed.

Lemma lifecycle_same q q' : lifecycle q -> workers q' = workers q -> starter q' = starter q -> lifecycle q'.
Proof. intros [T R La] Ew Es. split; rewrite ?Ew, ?Es; assumption. Qed.

Lemma lifecycle_start l q q' : lifecycle q -> start_step l q = Some q' -> lifecycle q'.
Proof.
  intros [T R La] H. unfold start_step in H. destruct (starter q) as [k|k|k| |] eqn:Es; try discriminate.
  - destruct (k <? length (workers q)); injection H as <-.
    + split; cbn.
      * apply Forall_alter; [exact T|]. intros w Hw [I D]. split; [|exact D]. intros [=].
      * intros j w Hj U. apply alter_lookup in Hj as [[_ Hj]|[<- (w' & Hj & ->)]]; [eauto|]. cbn. eauto.
      * intros j w [= <-] Hj. apply alter_lookup in Hj as [[N _]|[_ (w' & _ & ->)]]; [congruence|discriminate].
    + split; cbn; [exact T|contradiction|discriminate].
  - assert (Fo : Forall sound (alter (move Entry) k (workers q))).
    { apply Forall_alter; [exact T|]. intros w Hw [_ D]. rewrite (R k w Hw (le_n k)) in D.
      split; [|exact D]. intros E. destruct (La k w eq_refl Hw E). }
    destruct l; injection H as <-; split; cbn; try exact Fo; try exact T; try discriminate; try contradiction.
    intros j w Hj U. apply alter_lookup in Hj as [[_ Hj]|[<- _]]; [apply (R j w Hj); cbn; lia|cbn in U; lia].
  - injection H as <-. split; cbn; [|intros j w Hj U|discriminate].
    + apply Forall_alter; [exact T|]. intros w Hw [_ D]. split; [discriminate|exact D].
    + apply alter_lookup in Hj as [[N Hj]|[<- _]]; [apply (R j w Hj); cbn in *; lia|cbn in U; lia].
Qed.

(** What [drain] does to the queue: its own point, the two flags at its
    beginning, and cancellations. *)
Lemma drain_worker q q' : drain_step q = Some q' ->
  workers q' = workers q \/ exists i, workers q' = alter (fun w => (settled w).2) i (workers q).
Proof.
  unfold drain_step. intros H. destruct (drainer q) as [[i|i|i|i ok|ok|b]|];
    try (injection H as <-; left; reflexivity); destruct (workers q !! i) as [w|] eqn:Hw;
    try discriminate H; cbn [mbind option_bind] in H;
    try (destruct (alive w); [discriminate H|]); injection H as <-; try (left; reflexivity); right; exists i;
    cbn; apply list_eq; intros j; rewrite !list_lookup_alter; (destruct (decide (i = j)) as [<-|]; [|reflexivity]);
    rewrite Hw; reflexivity.
Qed.

Lemma drain_rest q q' : drain_step q = Some q' ->
  pending q' = pending q /\ tickets q' = tickets q /\ lost q' = lost q /\ starter q' = starter q /\
  log q' = log q /\ broken q' = broken q /\ containing q' = containing q /\ frozen q' = frozen q /\
  (closing q = true -> closing q' = true).
Proof.
  unfold drain_step. intros H. destruct (drainer q) as [[i|i|i|i ok|ok|b]|];
    try (injection H as <-; cbn; auto 10); destruct (workers q !! i) as [w|]; try discriminate H;
    cbn [mbind option_bind] in H; try (destruct (alive w); [discriminate H|]); injection H as <-; cbn; auto 10.
Qed.

Lemma lifecycle_step q q' : lifecycle q -> step q q' -> lifecycle q'.
Proof.
  intros L [i o q1 H|job n a int| |l q1 H|q1 H].
  - destruct (advance_worker _ _ _ _ H) as (f & Ew & Es & _ & _ & _ & Hf). destruct L as [T R La].
    split; rewrite ?Ew, ?Es.
    + apply Forall_alter; [exact T|]. intros w Hw Sw. destruct (Hf w Hw) as (p & _ & _ & _ & _ & Hs & _). auto.
    + intros j w' Hj U. apply alter_lookup in Hj as [[_ Hj]|[<- (w & Hj & ->)]]; [eauto|].
      destruct (Hf w Hj) as (p & Ht & _). rewrite (R _ _ Hj U) in Ht. discriminate.
    + intros j w' E Hj. apply alter_lookup in Hj as [[_ Hj]|[<- (w & Hj & ->)]]; [eauto|].
      destruct (Hf w Hj) as (p & _ & _ & -> & _). eauto.
  - assert (E : workers (submit job n a int q).2 = workers q /\ starter (submit job n a int q).2 = starter q)
      by (unfold submit; repeat case_match; auto).
    eapply lifecycle_same; [exact L|apply E|apply E].
  - eapply lifecycle_same; [exact L|reflexivity|reflexivity].
  - eapply lifecycle_start; eassumption.
  - destruct (drain_rest _ _ H) as (_ & _ & _ & Es & _).
    destruct (drain_worker _ _ H) as [E|(i & E)]; [eapply lifecycle_same; eassumption|].
    eapply lifecycle_update; [exact L|exact E|exact Es|]. intros w _ Sw.
    split; [apply sound_settled, Sw|]. split; [apply thread_settled|apply state_settled].
Qed.

(** ** Ownership: every accepted ticket waits, is held by one worker, or was
    lost with one *)

Definition held_of (p : point) : option nat :=
  match p with
  | Running t _ | Raised_ t | Containing t | Contained t _ _ | Finishing t _ _ _ => Some t
  | _ => None
  end.

Definition held_by (w : Worker) : option nat := thread w ≫= held_of.

Definition owned (q : AdminWorkQueue) : list nat := pending q ++ omap held_by (workers q) ++ lost q.

Record ownership (q : AdminWorkQueue) : Prop := {
  owned_once : NoDup (owned q);
  owned_tickets : tickets q = list_to_set (owned q);
  owned_bound : size (tickets q) <= capacity q;
  owned_stored : forall t, t ∈ owned q -> t < length (store q);
}.

Lemma omap_alter {B} (g : Worker -> option B) (f : Worker -> Worker) ws i w :
  ws !! i = Some w -> exists rest,
    omap g ws ≡ₚ option_list (g w) ++ rest /\ omap g (alter f i ws) ≡ₚ option_list (g (f w)) ++ rest.
Proof.
  intros H. pose proof (take_drop_middle _ _ _ H) as E. set (a := take i ws) in *. set (b := drop (S i) ws) in *.
  assert (Hi : i = length a) by (apply lookup_lt_Some in H; unfold a; rewrite length_take; lia).
  exists (omap g a ++ omap g b). rewrite <- E. split; [|rewrite (alter_app_r_alt f a (w :: b) i) by lia;
    replace (i - length a) with 0 by lia; cbn [alter list_alter]]; rewrite omap_app; cbn [omap list_omap];
    destruct (g _); cbn [option_list app]; solve_Permutation.
Qed.

(** What a step does to the owned tickets. *)
Inductive ownership_change (q q' : AdminWorkQueue) : Prop :=
| owns_same : owned q' ≡ₚ owned q -> tickets q' = tickets q -> ownership_change q q'
| owns_more : owned q' ≡ₚ length (store q) :: owned q -> tickets q' = tickets q ∪ {[length (store q)]} ->
    size (tickets q) < capacity q -> length (store q) < length (store q') -> ownership_change q q'
| owns_less t : owned q ≡ₚ t :: owned q' -> tickets q' = tickets q ∖ {[t]} -> ownership_change q q'.

Lemma ownership_changed q q' :
  ownership q -> ownership_change q q' -> capacity q' = capacity q -> length (store q) <= length (store q') ->
  ownership q'.
Proof.
  intros [N T B S] C Ec Es. destruct C as [P Et|P Et Lt Ls|t P Et].
  - split; [rewrite P; exact N|rewrite Et, T; apply list_to_set_perm_L; symmetry; exact P|rewrite Et, Ec; exact B|].
    intros t Ht. rewrite P in Ht. apply S in Ht. lia.
  - split.
    + rewrite P. constructor; [|exact N]. intros Hin. apply S in Hin. lia.
    + rewrite Et, T, (list_to_set_perm_L _ _ P). set_solver.
    + rewrite Et, Ec, size_union, size_singleton; [lia|]. rewrite T. intros x Hx Hx'.
      apply elem_of_singleton in Hx' as ->. apply elem_of_list_to_set, S in Hx. lia.
    + intros t Ht. rewrite P in Ht. apply elem_of_cons in Ht as [->|Ht]; [exact Ls|]. apply S in Ht. lia.
  - assert (N' : NoDup (t :: owned q')) by (rewrite <- P; exact N). apply NoDup_cons in N' as [Nt N'].
    split; [exact N'| | |].
    + rewrite Et, T, (list_to_set_perm_L _ _ P). set_solver.
    + rewrite Et, Ec. transitivity (size (tickets q)); [apply subseteq_size; set_solver|exact B].
    + intros t' Ht. assert (t' ∈ owned q) by (rewrite P; set_solver). apply S in H. lia.
Qed.

Lemma owned_at_worker q i w f :
  workers q !! i = Some w -> held_by (f w) = held_by w -> owned (at_worker i f q) ≡ₚ owned q.
Proof.
  intros Hw Hf. unfold owned. cbn [at_worker with_workers pending workers lost].
  destruct (omap_alter held_by f (workers q) i w Hw) as (rest & E1 & E2). rewrite E1, E2, Hf. reflexivity.
Qed.

Lemma capacity_step q q' : step q q' -> capacity q' = capacity q /\ length (store q) <= length (store q').
Proof.
  intros [i o q1 H|job n a int| |l q1 H|q1 H].
  - unfold advance in H. destruct (workers q !! i) as [w|]; [|discriminate]. cbn [mbind option_bind] in H.
    destruct (thread w) as [p|]; [|discriminate]. cbn [mbind option_bind] in H.
    destruct p; repeat case_match; try discriminate H; injection H as <-;
      unfold pop, finish; cbn; repeat case_match; cbn; rewrite ?length_alter; auto.
  - unfold submit. repeat case_match; cbn; rewrite ?length_alter, ?length_app; cbn; lia.
  - cbn. auto.
  - unfold start_step in H. repeat case_match; try discriminate H; injection H as <-; cbn; auto.
  - unfold drain_step in H. repeat case_match; try discriminate H; try (injection H as <-; cbn; auto);
      destruct (workers q !! _) as [w|]; try discriminate H; cbn in H; repeat case_match; try discriminate H;
      injection H as <-; cbn; auto.
Qed.

Lemma owned_pop q i w t rest :
  workers q !! i = Some w -> thread w = Some Waiting -> pending q = t :: rest -> owned (pop i t rest q) ≡ₚ owned q.
Proof.
  intros Hw Ht Ep. unfold pop. set (f := if frozen _ then _ else _).
  assert (Hf : exists g, held_by (g w) = Some t /\
    owned f = rest ++ omap held_by (alter g i (workers q)) ++ lost q).
  { unfold f. destruct (frozen _); eexists; (split; [|reflexivity]); reflexivity. }
  destruct Hf as (g & Hg & ->). unfold owned. rewrite Ep.
  destruct (omap_alter held_by g (workers q) i w Hw) as (r & E1 & E2). rewrite E1, E2, Hg.
  unfold held_by at 1. rewrite Ht. cbn [mbind option_bind held_of option_list app]. solve_Permutation.
Qed.

Lemma owned_lose q i w t ok fatal c s b k f :
  workers q !! i = Some w -> thread w = Some (Contained t ok fatal) ->
  owned (at_worker i (move Leaving) (with_lost (lost q ++ [t]) (with_flags c s b k f q))) ≡ₚ owned q.
Proof.
  intros Hw Ht. unfold owned. cbn [at_worker with_workers with_lost with_flags pending workers lost].
  destruct (omap_alter held_by (move Leaving) (workers q) i w Hw) as (r & E1 & E2). rewrite E1, E2.
  unfold held_by at 1 2. rewrite Ht. cbn [move thread mbind option_bind held_of option_list app]. solve_Permutation.
Qed.

Lemma owned_finish q i w t failed skipped result :
  workers q !! i = Some w -> thread w = Some (Finishing t failed skipped result) ->
  owned q ≡ₚ t :: owned (finish i t failed skipped result q).
Proof.
  intros Hw Ht. unfold owned, finish.
  cbn [at_worker with_workers record with_log with_tickets at_ticket with_store pending workers lost].
  set (g := move _). destruct (omap_alter held_by g (workers q) i w Hw) as (r & E1 & E2). rewrite E1, E2.
  unfold held_by at 1 2. rewrite Ht. cbn [g move thread mbind option_bind held_of option_list app].
  solve_Permutation.
Qed.

Lemma ownership_advance i o q q' : ownership q -> advance i o q = Some q' -> ownership_change q q'.
Proof.
  intros O H.
  assert (K : forall w p q0 f, workers q !! i = Some w -> thread w = Some p ->
    workers q0 = workers q -> owned q0 = owned q -> tickets q0 = tickets q ->
    held_by (f w) = held_of p -> ownership_change q (at_worker i f q0)).
  { intros w p q0 f Hw Ht E1 E2 E3 Hf. apply owns_same; [|exact E3]. rewrite <- E2.
    eapply owned_at_worker; [rewrite E1; exact Hw|]. rewrite Hf. unfold held_by. rewrite Ht. reflexivity. }
  advance_cases H w p Hw Ht; try discriminate;
    try (injection H as <-; eapply K; [exact Hw|exact Ht|reflexivity..]).
  - injection H as <-. destruct (cancelled w); (eapply K; [exact Hw|exact Ht|reflexivity..]).
  - destruct (containing q); [discriminate|]. destruct (pending q) as [|t rest] eqn:Ep.
    { destruct (stopping q); [|discriminate]. injection H as <-. eapply K; [exact Hw|exact Ht|reflexivity..]. }
    injection H as <-. apply owns_same; [eapply owned_pop; eassumption|].
    unfold pop. destruct (frozen _); reflexivity.
  - destruct job; [|injection H as <-; eapply K; [exact Hw|exact Ht|reflexivity..]].
    injection H as <-. destruct o; (eapply K; [exact Hw|exact Ht|reflexivity..]).
  - injection H as <-. destruct (on_unknown q); [destruct o|]; (eapply K; [exact Hw|exact Ht|reflexivity..]).
  - injection H as <-. destruct fatal; [|eapply K; [exact Hw|exact Ht|reflexivity..]].
    apply owns_same; [eapply owned_lose; eassumption|reflexivity].
  - injection H as <-. apply (owns_less _ _ t); [eapply owned_finish; eassumption|reflexivity].
  - injection H as <-. destruct abandon; [destruct o|]; (eapply K; [exact Hw|exact Ht|reflexivity..]).
  - injection H as <-. destruct notify; [destruct o|]; (eapply K; [exact Hw|exact Ht|reflexivity..]).
Qed.

Lemma held_settled w : held_by (settled w).2 = held_by w.
Proof. unfold settled. cbn [snd]. destruct (_ && _); reflexivity. Qed.

(** [submit], accepted, undone or refused. *)
Lemma submit_cases job n a int q :
  let t := length (store q) in
  let q' := (submit job n a int q).2 in
  (submit job n a int q).1 = Ok t /\ closing q = false /\ broken q = false /\ int = false /\
    size (tickets q) < capacity q /\
    q' = with_pending (pending q ++ [t]) (with_tickets (tickets q ∪ {[t]})
           (with_store (store q ++ [new_ticket job n a]) q)) \/
  (exists e s, (submit job n a int q).1 = Err e /\ length s = S t /\
    (ownership q -> q' = with_store s q)).
Proof.
  cbv zeta. unfold submit. destruct (closing q || broken q || (capacity q <=? size (tickets q))) eqn:G.
  { right. do 2 eexists. split; [reflexivity|]. split; [|reflexivity]. rewrite length_app. cbn. lia. }
  apply orb_false_iff in G as [G G3]. apply orb_false_iff in G as [G1 G2]. apply Nat.leb_gt in G3.
  destruct int; [|left; auto 10].
  right. do 2 eexists. split; [reflexivity|]. split; cycle 1.
  { intros O. cbn. unfold with_pending, with_tickets, at_ticket, with_store. cbn. f_equal.
    - rewrite filter_app, filter_cons_False by auto. cbn. rewrite app_nil_r.
      assert (F : forall t, t ∈ pending q -> t <> length (store q)).
      { intros t Ht. assert (t ∈ owned q) by (unfold owned; set_solver). apply (owned_stored _ O) in H. lia. }
      clear -F. induction (pending q) as [|t l IH]; [reflexivity|].
      rewrite filter_cons_True by (apply F; set_solver). f_equal. apply IH. intros; apply F; set_solver.
    - apply leibniz_equiv. assert (length (store q) ∉ tickets q); [|set_solver].
      rewrite (owned_tickets _ O). intros H. apply elem_of_list_to_set, (owned_stored _ O) in H. lia. }
  cbn. rewrite length_alter, length_app. cbn. lia.
Qed.

Lemma owned_workers q q' :
  pending q' = pending q -> lost q' = lost q -> omap held_by (workers q') = omap held_by (workers q) ->
  owned q' = owned q.
Proof. unfold owned. intros -> -> ->. reflexivity. Qed.

Lemma omap_alter_same {B} (g : Worker -> option B) f (ws : list Worker) i :
  (forall w, ws !! i = Some w -> g (f w) = g w) -> omap g (alter f i ws) = omap g ws.
Proof.
  revert i; induction ws as [|w ws IH]; intros [|i] H; cbn; [reflexivity..| |].
  - rewrite (H w) by reflexivity. reflexivity.
  - rewrite IH by exact H. reflexivity.
Qed.

Lemma owned_start l q q' : lifecycle q -> start_step l q = Some q' -> owned q' = owned q /\ tickets q' = tickets q.
Proof.
  intros [_ R _] H. unfold start_step in H. destruct (starter q) as [k|k|k| |]; try discriminate;
    [destruct (k <? _)| |]; try destruct l; injection H as <-; (split; [|reflexivity]);
    (apply owned_workers; [reflexivity|reflexivity|]); cbn; try reflexivity; apply omap_alter_same; intros w Hw;
    unfold held_by; cbn; try reflexivity; rewrite (R k w Hw (le_n k)); reflexivity.
Qed.

Lemma owned_drain q q' : drain_step q = Some q' -> owned q' = owned q /\ tickets q' = tickets q.
Proof.
  intros H. destruct (drain_rest _ _ H) as (Ep & Et & El & _). split; [|exact Et].
  apply owned_workers; [exact Ep|exact El|].
  destruct (drain_worker _ _ H) as [->|(i & ->)]; [reflexivity|]. apply omap_alter_same. intros; apply held_settled.
Qed.

Lemma ownership_step q q' : lifecycle q -> ownership q -> step q q' -> ownership q'.
Proof.
  intros Lf O St. pose proof (capacity_step q q' St) as [Ec Es].
  assert (C : ownership_change q q'); [|eapply ownership_changed; eassumption].
  destruct St as [i o q1 H|job n a int| |l q1 H|q1 H].
  - eapply ownership_advance; eassumption.
  - destruct (submit_cases job n a int q) as [(_ & _ & _ & _ & L & ->)|(e & s & _ & _ & ->)]; [| |exact O].
    + apply owns_more; [|reflexivity|exact L|cbn; rewrite length_app; cbn; lia].
      unfold owned. cbn. solve_Permutation.
    + apply owns_same; reflexivity.
  - apply owns_same; reflexivity.
  - destruct (owned_start _ _ _ Lf H) as [E1 E2]. apply owns_same; [rewrite E1; reflexivity|exact E2].
  - destruct (owned_drain _ _ H) as [E1 E2]. apply owns_same; [rewrite E1; reflexivity|exact E2].
Qed.

(** ** Events: what is executed and completed, and how often *)

Definition executed_of (e : event) : option nat := match e with Executed t _ => Some t | _ => None end.
Definition completed_of (e : event) : option nat := match e with Completed t _ => Some t | _ => None end.
Definition executed (q : AdminWorkQueue) : list nat := omap executed_of (log q).
Definition completed (q : AdminWorkQueue) : list nat := omap completed_of (log q).

(** The ticket a worker has taken and whose job it has not called. *)
Definition ready_of (p : point) : option nat := match p with Running t _ => Some t | _ => None end.
Definition ready (q : AdminWorkQueue) : list nat := pending q ++ omap (fun w => thread w ≫= ready_of) (workers q).

Record events (q : AdminWorkQueue) : Prop := {
  completed_once : NoDup (completed q);
  executed_once : NoDup (executed q);
  completed_done : forall t, t ∈ completed q -> t ∉ owned q;
  executed_taken : forall t, t ∈ executed q -> t ∉ ready q;
  executed_kept : forall t, t ∈ executed q -> t ∈ owned q \/ t ∈ completed q;
  events_stored : forall t, t ∈ executed q \/ t ∈ completed q -> t < length (store q);
}.

(** What a step adds to the events, and how the tickets ready to run and the
    owned ones change with it. *)
Inductive events_change (q q' : AdminWorkQueue) : Prop :=
| events_same :
    executed q' = executed q -> completed q' = completed q ->
    (forall t, t ∈ ready q' -> t ∈ ready q \/ t = length (store q)) ->
    (forall t, t ∈ owned q' -> t ∈ owned q \/ t = length (store q)) ->
    (forall t, t ∈ owned q -> t ∈ owned q') -> events_change q q'
| events_run t :
    executed q' = executed q ++ [t] -> completed q' = completed q ->
    t ∈ ready q -> t ∉ ready q' -> (forall x, x ∈ ready q' -> x ∈ ready q) ->
    (forall x, x ∈ owned q' <-> x ∈ owned q) -> events_change q q'
| events_end t :
    executed q' = executed q -> completed q' = completed q ++ [t] ->
    (forall x, x ∈ ready q' -> x ∈ ready q) ->
    t ∉ owned q' -> (forall x, x ∈ owned q <-> x = t \/ x ∈ owned q') -> events_change q q'.

Lemma ready_owned q t : t ∈ ready q -> t ∈ owned q.
Proof.
  unfold ready, owned. rewrite !elem_of_app, !list_elem_of_omap. intros [H|(w & Hw & H)]; [auto|].
  right. left. exists w. split; [exact Hw|]. unfold held_by. destruct (thread w) as [[]|]; cbn in *; congruence.
Qed.

Lemma events_changed q q' :
  ownership q -> length (store q) <= length (store q') -> events q -> events_change q q' -> events q'.
Proof.
  intros O Ls [C1 X1 C2 X2 X3 S] Ch.
  pose proof (owned_stored _ O) as Os.
  destruct Ch as [Ex Ec R W1 W2|t Ex Ec Rt Rn R W|t Ex Ec R Wn W]; (split; rewrite ?Ex, ?Ec).
  - exact C1.
  - exact X1.
  - intros t Ht Hw. destruct (W1 t Hw) as [H| ->]; [exact (C2 t Ht H)|]. specialize (S _ (or_intror Ht)). lia.
  - intros t Ht Hr. destruct (R t Hr) as [H| ->]; [exact (X2 t Ht H)|]. specialize (S _ (or_introl Ht)). lia.
  - intros t Ht. destruct (X3 t Ht); auto.
  - intros t Ht. specialize (S t Ht). lia.
  - exact C1.
  - apply NoDup_app. split; [exact X1|]. split; [|apply NoDup_singleton].
    intros x Hx Hx'. apply list_elem_of_singleton in Hx' as ->. exact (X2 t Hx Rt).
  - intros x Hx Hw. apply W in Hw. exact (C2 x Hx Hw).
  - intros x Hx Hr. apply elem_of_app in Hx as [Hx|Hx]; [exact (X2 x Hx (R x Hr))|].
    apply list_elem_of_singleton in Hx as ->. contradiction.
  - intros x Hx. apply elem_of_app in Hx as [Hx|Hx].
    + destruct (X3 x Hx); [left; apply W; assumption|auto].
    + apply list_elem_of_singleton in Hx as ->. left. apply W, ready_owned, Rt.
  - intros x [Hx|Hx]; [apply elem_of_app in Hx as [Hx|Hx]; [specialize (S x (or_introl Hx)); lia|]|].
    + apply list_elem_of_singleton in Hx as ->. apply ready_owned, Os in Rt. lia.
    + specialize (S x (or_intror Hx)). lia.
  - apply NoDup_app. split; [exact C1|]. split; [|apply NoDup_singleton].
    intros x Hx Hx'. apply list_elem_of_singleton in Hx' as ->. apply (C2 t Hx), W. auto.
  - exact X1.
  - intros x Hx Hw. apply elem_of_app in Hx as [Hx|Hx].
    + apply (C2 x Hx), W. auto.
    + apply list_elem_of_singleton in Hx as ->. contradiction.
  - intros x Hx Hr. exact (X2 x Hx (R x Hr)).
  - intros x Hx. destruct (X3 x Hx) as [H|H]; [|right; set_solver].
    apply W in H as [-> |H]; [right; set_solver|auto].
  - intros x [Hx|Hx]; [specialize (S x (or_introl Hx)); lia|].
    apply elem_of_app in Hx as [Hx|Hx]; [specialize (S x (or_intror Hx)); lia|].
    apply list_elem_of_singleton in Hx as ->. assert (t ∈ owned q) by (apply W; auto). apply Os in H. lia.
Qed.

(** Only a worker that is about to call a job makes a ticket ready. *)
Lemma ready_at_worker q q' i f t :
  t ∈ ready q' -> (t ∈ pending q' -> t ∈ pending q) -> workers q' = alter f i (workers q) ->
  (forall w, workers q !! i = Some w -> thread (f w) ≫= ready_of = Some t -> t ∈ ready q) ->
  t ∈ ready q.
Proof.
  unfold ready at 1. intros Hin Ep Ew Hf. rewrite Ew in Hin. rewrite elem_of_app, list_elem_of_omap in Hin.
  destruct Hin as [H|(w & Hw & H)]; [unfold ready; set_solver|].
  apply list_elem_of_lookup in Hw as [j Hj]. apply alter_lookup in Hj as [[_ Hj]|[<- (w' & Hj & ->)]]; [|eauto].
  unfold ready. rewrite elem_of_app, list_elem_of_omap. right.
  exists w. split; [eapply list_elem_of_lookup_2; exact Hj|exact H].
Qed.

Lemma omap_unique {B} (g : Worker -> option B) (ws : list Worker) i j w w' t :
  NoDup (omap g ws) -> ws !! i = Some w -> ws !! j = Some w' -> g w = Some t -> g w' = Some t -> i = j.
Proof.
  revert i j; induction ws as [|x ws IH]; intros i j N Hi Hj Gi Gj; [discriminate|].
  assert (M : forall k y, ws !! k = Some y -> g y = Some t -> t ∈ omap g ws).
  { intros k y Hk Hy. apply list_elem_of_omap. exists y. split; [eapply list_elem_of_lookup_2; exact Hk|exact Hy]. }
  destruct i as [|i], j as [|j]; cbn in Hi, Hj; [reflexivity|..].
  - injection Hi as ->. cbn in N. rewrite Gi in N. apply NoDup_cons in N as [N _]. destruct N. eapply M; eassumption.
  - injection Hj as ->. cbn in N. rewrite Gj in N. apply NoDup_cons in N as [N _]. destruct N. eapply M; eassumption.
  - f_equal. eapply IH; try eassumption. cbn in N. destruct (g x); [apply NoDup_cons in N as [_ N]|]; exact N.
Qed.

Lemma events_advance i o q q' :
  ownership q -> advance i o q = Some q' -> events_change q q'.
Proof.
  intros O H.
  assert (K : forall w p q0 f, workers q !! i = Some w -> thread w = Some p ->
    workers q0 = workers q -> pending q0 = pending q -> lost q0 = lost q ->
    executed q0 = executed q -> completed q0 = completed q ->
    held_by (f w) = held_of p -> thread (f w) ≫= ready_of = None -> events_change q (at_worker i f q0)).
  { intros w p q0 f Hw Ht E1 E2 E3 E4 E5 Hf Hr.
    assert (P : owned (at_worker i f q0) ≡ₚ owned q).
    { rewrite <- (owned_workers q q0 E2 E3) by (rewrite E1; reflexivity).
      eapply owned_at_worker; [rewrite E1; exact Hw|]. rewrite Hf. unfold held_by. rewrite Ht. reflexivity. }
    apply events_same; [exact E4|exact E5| | |].
    - intros t Hin. left. eapply (ready_at_worker q _ i f); [exact Hin|cbn; rewrite E2; auto|change (alter f i (workers q0) = alter f i (workers q)); rewrite E1; reflexivity|].
      intros w' Hw'. rewrite Hw in Hw'. injection Hw' as <-. rewrite Hr. discriminate.
    - intros t Hin. left. rewrite <- P. exact Hin.
    - intros t Hin. rewrite P. exact Hin. }
  assert (X0 : forall e, executed_of e = None -> completed_of e = None ->
    executed (record e q) = executed q /\ completed (record e q) = completed q).
  { intros e E1 E2. unfold executed, completed. cbn. rewrite !omap_app. cbn. rewrite E1, E2, !app_nil_r. auto. }
  advance_cases H w p Hw Ht; try discriminate;
    try (injection H as <-; eapply K; [exact Hw|exact Ht|reflexivity..]).
  - injection H as <-. destruct (cancelled w); (eapply K; [exact Hw|exact Ht|reflexivity..]).
  - destruct (containing q); [discriminate|]. destruct (pending q) as [|t rest] eqn:Ep.
    { destruct (stopping q); [|discriminate]. injection H as <-.
      eapply K; [exact Hw|exact Ht|reflexivity|exact Ep|reflexivity..]. }
    clear K. injection H as <-. pose proof (owned_pop q i w t rest Hw Ht Ep) as P.
    apply events_same; [unfold pop; destruct (frozen _); reflexivity..| | |];
      [|intros x Hx; left; rewrite <- P; exact Hx|intros x Hx; rewrite P; exact Hx].
    intros x Hx. left. unfold pop in Hx. destruct (frozen _); (eapply (ready_at_worker q _ i);
      [exact Hx|cbn; intros Hy; rewrite Ep; set_solver|reflexivity|]); [discriminate|].
    intros w' _ [= <-]. unfold ready. rewrite Ep. set_solver.
  - destruct job as [job|].
    2:{ injection H as <-. eapply K; [exact Hw|exact Ht|reflexivity..]. }
    assert (R : t ∈ ready q).
    { unfold ready. rewrite elem_of_app, list_elem_of_omap. right. exists w.
      split; [eapply list_elem_of_lookup_2; exact Hw|rewrite Ht; reflexivity]. }
    assert (Hh : held_by w = Some t) by (unfold held_by; rewrite Ht; reflexivity).
    assert (Q : exists f, q' = at_worker i f (record (Executed t job) q) /\ held_by (f w) = Some t /\
      forall x, thread (f x) ≫= ready_of = None).
    { injection H as <-. destruct o; eexists; (split; [reflexivity|]); split; reflexivity. }
    destruct Q as (f & -> & Hf & Hr). clear H K.
    assert (P : owned (at_worker i f (record (Executed t job) q)) ≡ₚ owned q).
    { change (owned q) with (owned (record (Executed t job) q)). eapply owned_at_worker; [exact Hw|congruence]. }
    apply (events_run _ _ t).
    + unfold executed. cbn. rewrite omap_app. reflexivity.
    + unfold completed. cbn. rewrite omap_app. apply app_nil_r.
    + exact R.
    + intros Hin. pose proof (owned_once _ O) as N. unfold owned in N.
      apply NoDup_app in N as (_ & N1 & N2). apply NoDup_app in N2 as (N2 & _ & _).
      unfold ready in Hin. apply elem_of_app in Hin as [Hin|Hin].
      * apply (N1 t Hin). rewrite elem_of_app, list_elem_of_omap. left. exists w.
        split; [eapply list_elem_of_lookup_2; exact Hw|exact Hh].
      * apply list_elem_of_omap in Hin as (w' & Hw' & Hin). apply list_elem_of_lookup in Hw' as [j Hj].
        apply alter_lookup in Hj as [[Nj Hj]|[<- (w0 & _ & ->)]]; [|rewrite Hr in Hin; discriminate].
        apply Nj. eapply (omap_unique held_by); [exact N2|exact Hw|exact Hj|exact Hh|].
        unfold held_by. destruct (thread w') as [[]|]; cbn in *; congruence.
    + intros x Hx. eapply (ready_at_worker q _ i f); [exact Hx|intros Hy; exact Hy|reflexivity|].
      intros w' _. rewrite Hr. discriminate.
    + intros x. rewrite P. reflexivity.
  - injection H as <-. destruct (on_unknown q); [destruct o|]; (eapply K; [exact Hw|exact Ht|reflexivity..]).
  - injection H as <-. destruct fatal; [|eapply K; [exact Hw|exact Ht|reflexivity..]].
    pose proof (owned_lose q i w t ok true (closing q) (stopping q) (broken q)
      false (frozen q || negb ok) Hw Ht) as P.
    apply events_same; [reflexivity|reflexivity| |intros x Hx; left; rewrite <- P; exact Hx|intros x Hx; rewrite P; exact Hx].
    intros x Hx. left. eapply (ready_at_worker q _ i (move Leaving)); [exact Hx|intros Hy; exact Hy|reflexivity|discriminate].
  - injection H as <-. pose proof (owned_finish q i w t failed skipped result Hw Ht) as P.
    apply (events_end _ _ t).
    + unfold executed, finish. cbn. rewrite omap_app. apply app_nil_r.
    + unfold completed, finish. cbn. rewrite omap_app. reflexivity.
    + intros x Hx. unfold finish in Hx. eapply (ready_at_worker q _ i); [exact Hx|intros Hy; exact Hy|reflexivity|discriminate].
    + intros Hin. pose proof (owned_once _ O) as N. rewrite P in N. apply NoDup_cons in N as [N _]. contradiction.
    + intros x. rewrite P. set_solver.
  - injection H as <-. destruct abandon; [destruct o|]; (eapply K; [exact Hw|exact Ht|try reflexivity..]); apply X0; reflexivity.
  - injection H as <-. destruct notify; [destruct o|]; (eapply K; [exact Hw|exact Ht|try reflexivity..]); apply X0; reflexivity.
Qed.

Lemma log_advance_other q q' :
  log q' = log q -> executed q' = executed q /\ completed q' = completed q.
Proof. unfold executed, completed. intros ->. auto. Qed.

Lemma step_change q q' : lifecycle q -> ownership q -> step q q' -> events_change q q'.
Proof.
  intros Lf O St.
  assert (Same : forall q1, log q1 = log q -> owned q1 = owned q -> (forall t, t ∈ ready q1 -> t ∈ ready q) ->
    events_change q q1).
  { intros q1 E1 E2 R. destruct (log_advance_other _ _ E1) as [X Y].
    apply events_same; [exact X|exact Y|auto|rewrite E2; auto|rewrite E2; auto]. }
  destruct St as [i o q1 H|job n a int| |l q1 H|q1 H].
  - eapply events_advance; eassumption.
  - destruct (submit_cases job n a int q) as [(_ & _ & _ & _ & L & ->)|(e & s & _ & _ & ->)]; [| |exact O].
    + apply events_same; [reflexivity|reflexivity|unfold ready; cbn|unfold owned; cbn|unfold owned; cbn]; set_solver.
    + apply Same; auto.
  - apply Same; auto.
  - destruct (owned_start _ _ _ Lf H) as [E1 _]. destruct Lf as [_ R _].
    unfold start_step in H. destruct (starter q) as [k|k|k| |] eqn:Es; try discriminate;
      [destruct (k <? _)| |]; try destruct l; injection H as <-;
      (apply Same; [reflexivity|exact E1|intros t Ht]); try exact Ht;
      (eapply (ready_at_worker q _ k); [exact Ht|intros Hy; exact Hy|reflexivity|]);
      intros w Hw; cbn; try discriminate; intros Hr;
      unfold ready; rewrite elem_of_app, list_elem_of_omap; right; exists w;
      (split; [eapply list_elem_of_lookup_2; exact Hw|exact Hr]).
  - destruct (owned_drain _ _ H) as [E1 _]. destruct (drain_rest _ _ H) as (Ep & _ & _ & _ & El & _).
    apply Same; [exact El|exact E1|]. intros t Ht.
    destruct (drain_worker _ _ H) as [Ew|(i & Ew)]; [unfold ready in *; rewrite Ep, Ew in Ht; exact Ht|].
    eapply (ready_at_worker q _ i); [exact Ht|rewrite Ep; auto|exact Ew|]. intros w Hw Hr.
    cbn beta in Hr. rewrite thread_settled in Hr. unfold ready. rewrite elem_of_app, list_elem_of_omap. right. exists w.
    split; [eapply list_elem_of_lookup_2; exact Hw|exact Hr].
Qed.


Lemma events_step q q' : lifecycle q -> ownership q -> events q -> step q q' -> events q'.
Proof.
  intros Lf O Ev St. eapply events_changed; [exact O|apply (capacity_step q q' St)|exact Ev|].
  apply step_change; assumption.
Qed.

(** ** Containment *)

Definition in_containment (w : Worker) : Prop :=
  exists t, thread w = Some (Containing t) \/ exists ok fatal, thread w = Some (Contained t ok fatal).

Record flags (q : AdminWorkQueue) : Prop := {
  containing_by : containing q = true -> exists i w, workers q !! i = Some w /\ in_containment w;
  containment_broken : forall i w, workers q !! i = Some w -> in_containment w -> broken q = true;
  frozen_broken : frozen q = true -> broken q = true;
  stopping_closing : stopping q = true -> closing q = true;
}.

(** A move outside the containment: the flags stay, and no worker enters or
    leaves it. *)
Lemma flags_update q q' i f :
  flags q -> workers q' = alter f i (workers q) ->
  containing q' = containing q -> broken q' = broken q -> frozen q' = frozen q ->
  (stopping q' = true -> closing q' = true) ->
  (forall w, workers q !! i = Some w -> in_containment (f w) <-> in_containment w) ->
  flags q'.
Proof.
  intros [C B F S] Ew Ec Eb Ef Es Hf. split; rewrite ?Ew, ?Ec, ?Eb, ?Ef; try assumption.
  - intros H. destruct (C H) as (j & w & Hj & Hw). destruct (decide (i = j)) as [<-|N].
    + exists i, (f w). rewrite list_lookup_alter_eq, Hj. split; [reflexivity|]. apply Hf; assumption.
    + exists j, w. rewrite list_lookup_alter_ne by exact N. auto.
  - intros j w Hj Hw. apply alter_lookup in Hj as [[_ Hj]|[<- (w' & Hj & ->)]]; [eauto|].
    exact (B i w' Hj (proj1 (Hf w' Hj) Hw)).
Qed.

Lemma flags_same q q' :
  flags q -> workers q' = workers q -> containing q' = containing q -> broken q' = broken q ->
  frozen q' = frozen q -> (stopping q' = true -> closing q' = true) -> flags q'.
Proof. intros [C B F S] Ew Ec Eb Ef Es. split; rewrite ?Ew, ?Ec, ?Eb, ?Ef; assumption. Qed.

Lemma not_contained w p :
  thread w = Some p -> (forall t, p <> Containing t) -> (forall t ok fatal, p <> Contained t ok fatal) ->
  ~ in_containment w.
Proof. intros Ht N1 N2 (t & [H|(ok & fatal & H)]); rewrite Ht in H; injection H as ->; [eapply N1|eapply N2]; reflexivity. Qed.

Lemma thread_contained (f : Worker -> Worker) w w' : thread (f w) = thread w' -> in_containment (f w) <-> in_containment w'.
Proof. unfold in_containment. intros ->. reflexivity. Qed.

Lemma flags_advance i o q q' : flags q -> advance i o q = Some q' -> flags q'.
Proof.
  intros Fl H. pose proof Fl as [C B F S].
  assert (K : forall w p q0 f p', workers q !! i = Some w -> thread w = Some p -> workers q0 = workers q ->
    containing q0 = containing q -> broken q0 = broken q -> frozen q0 = frozen q ->
    stopping q0 = stopping q -> closing q0 = closing q ->
    (forall w, thread (f w) = Some p') ->
    (forall t, p <> Containing t) -> (forall t ok fatal, p <> Contained t ok fatal) ->
    (forall t, p' <> Containing t) -> (forall t ok fatal, p' <> Contained t ok fatal) ->
    flags (at_worker i f q0)).
  { intros w p q0 f p' Hw Ht E1 E2 E3 E4 E5 E6 Hf N1 N2 N3 N4.
    eapply (flags_update q _ i f); [exact Fl|cbn; rewrite E1; reflexivity|exact E2|exact E3|exact E4| |].
    - cbn. rewrite E5, E6. exact S.
    - intros w' Hw'. rewrite Hw in Hw'. injection Hw' as <-.
      split; intros G; exfalso; revert G; eapply not_contained; eauto. }
  advance_cases H w p Hw Ht; try discriminate;
    try (injection H as <-; eapply K; [exact Hw|exact Ht|reflexivity..|discriminate|discriminate|discriminate|discriminate]).
  - injection H as <-. destruct (cancelled w);
      (eapply K; [exact Hw|exact Ht|reflexivity..|discriminate|discriminate|discriminate|discriminate]).
  - destruct (containing q) eqn:Ec; [discriminate|]. destruct (pending q) as [|t rest].
    + destruct (stopping q) eqn:Est; [|discriminate]. injection H as <-.
      eapply K; [exact Hw|exact Ht|reflexivity|exact Ec|reflexivity|reflexivity|exact Est|reflexivity|reflexivity|discriminate..].
    + injection H as <-. unfold pop. destruct (frozen _) eqn:Ef; cbn in Ef;
        (eapply K; [exact Hw|exact Ht|cbn; congruence..|reflexivity|discriminate|discriminate|discriminate|discriminate]).
  - destruct job; [|injection H as <-; eapply K; [exact Hw|exact Ht|reflexivity..|discriminate|discriminate|discriminate|discriminate]].
    injection H as <-. destruct o;
      (eapply K; [exact Hw|exact Ht|reflexivity..|discriminate|discriminate|discriminate|discriminate]).
  - injection H as <-. split; cbn; auto. intros _. exists i, (move (Containing t) w).
    rewrite list_lookup_alter_eq, Hw. split; [reflexivity|]. exists t. left. reflexivity.
  - assert (Q : exists ok fatal, q' = at_worker i (move (Contained t ok fatal)) q).
    { injection H as <-. destruct (on_unknown q); [destruct o|]; do 2 eexists; reflexivity. }
    destruct Q as (ok & fatal & ->). eapply (flags_update q _ i); [exact Fl|reflexivity..|exact S|].
    intros w' Hw'. rewrite Hw in Hw'. injection Hw' as <-.
    split; intros _; exists t; [left; exact Ht|right; cbn; eauto].
  - injection H as <-. assert (Hb : broken q = true).
    { eapply B; [exact Hw|]. exists t. right. eauto. }
    assert (Q : forall f q0, (forall w, ~ in_containment (f w)) -> workers q0 = workers q -> broken q0 = true ->
      containing q0 = false -> stopping q0 = stopping q -> closing q0 = closing q -> flags (at_worker i f q0)).
    { intros f q0 Hf E1 E2 E3 E4 E5. split; cbn; rewrite ?E1, ?E2, ?E3, ?E4, ?E5; try assumption; auto. discriminate. }
    destruct fatal; apply Q; try reflexivity; try exact Hb; intros x; (eapply not_contained; [reflexivity|discriminate..]).
  - injection H as <-. destruct abandon; [destruct o|];
      (eapply K; [exact Hw|exact Ht|reflexivity..|discriminate|discriminate|discriminate|discriminate]).
  - injection H as <-. destruct notify; [destruct o|];
      (eapply K; [exact Hw|exact Ht|reflexivity..|discriminate|discriminate|discriminate|discriminate]).
Qed.

Lemma drain_flags q q' : drain_step q = Some q' ->
  (stopping q' = stopping q /\ closing q' = closing q) \/ (stopping q' = true /\ closing q' = true).
Proof.
  unfold drain_step. intros H. destruct (drainer q) as [[i|i|i|i ok|ok|b]|];
    try (injection H as <-; cbn; auto); destruct (workers q !! i) as [w|]; try discriminate H;
    cbn [mbind option_bind] in H; try (destruct (alive w); [discriminate H|]); injection H as <-; cbn; auto.
Qed.

Lemma flags_step q q' : lifecycle q -> flags q -> step q q' -> flags q'.
Proof.
  intros Lf Fl [i o q1 H|job n a int| |l q1 H|q1 H].
  - eapply flags_advance; eassumption.
  - eapply flags_same; [exact Fl|unfold submit; repeat case_match; reflexivity..|].
    pose proof (stopping_closing _ Fl) as S. unfold submit. repeat case_match; exact S.
  - eapply flags_same; [exact Fl|reflexivity..|]. cbn. auto.
  - pose proof (stopping_closing _ Fl) as S. destruct Lf as [_ R _]. unfold start_step in H.
    destruct (starter q) as [k|k|k| |] eqn:Es; try discriminate; [destruct (k <? _)| |]; try destruct l;
      injection H as <-; try (eapply flags_same; [exact Fl|reflexivity..|exact S]);
      (eapply (flags_update q _ k); [exact Fl|reflexivity..|exact S|]); intros w Hw;
      try (apply thread_contained; reflexivity);
      (split; intros (t & [G|(ok & fatal & G)]); [discriminate G|discriminate G|
         rewrite (R k w Hw (le_n k)) in G; discriminate|rewrite (R k w Hw (le_n k)) in G; discriminate]).
  - destruct (drain_rest _ _ H) as (_ & _ & _ & _ & _ & Eb & Ec & Ef & _).
    assert (S : stopping q1 = true -> closing q1 = true).
    { pose proof (stopping_closing _ Fl) as S. destruct (drain_flags _ _ H) as [[-> ->]|[-> ->]]; auto. }
    destruct (drain_worker _ _ H) as [Ew|(i & Ew)]; [eapply flags_same; eassumption|].
    eapply flags_update; [exact Fl|exact Ew|exact Ec|exact Eb|exact Ef|exact S|].
    intros w _. apply (thread_contained (fun w => (settled w).2)), thread_settled.
Qed.

(** ** Every reachable state *)

Lemma omap_replicate {A B} (g : A -> option B) n x : g x = None -> omap g (replicate n x) = [].
Proof. intros E. induction n as [|n IH]; [reflexivity|]. cbn [replicate omap list_omap]. rewrite E. exact IH. Qed.

Lemma new_queue_inv count waiting unknown q :
  new_queue count waiting unknown = Ok q -> lifecycle q /\ ownership q /\ events q /\ flags q.
Proof.
  unfold new_queue. destruct (_ || _); [discriminate|]. cbn. intros [= <-].
  assert (H0 : forall w, w ∈ replicate (Z.to_nat count) new_worker -> w = new_worker)
    by (intros w Hw; apply list_elem_of_lookup in Hw as [k Hk]; apply lookup_replicate in Hk as [-> _]; reflexivity).
  assert (Hh : omap held_by (replicate (Z.to_nat count) new_worker) = []) by (apply omap_replicate; reflexivity).
  assert (Hr : omap (fun w => thread w ≫= ready_of) (replicate (Z.to_nat count) new_worker) = [])
    by (apply omap_replicate; reflexivity).
  split; [|split; [|split]].
  - split; cbn; [|intros i w Hw _|discriminate].
    + apply Forall_forall. intros w Hw. rewrite (H0 w Hw). split; [auto|split; reflexivity].
    + rewrite (H0 w) by (eapply list_elem_of_lookup_2; exact Hw). reflexivity.
  - split; unfold owned; cbn; rewrite ?Hh; cbn; [constructor|reflexivity|rewrite size_empty; lia|set_solver].
  - split; unfold executed, completed; cbn; [constructor|constructor|set_solver..].
  - split; cbn; try discriminate. intros i w Hw (t & C). rewrite (H0 w) in C by (eapply list_elem_of_lookup_2; exact Hw).
    destruct C as [C|(ok & fatal & C)]; discriminate C.
Qed.

Lemma reachable_inv q : reachable q -> lifecycle q /\ ownership q /\ events q /\ flags q.
Proof.
  induction 1 as [count waiting unknown q H|q q' _ (L & O & E & F) St]; [eapply new_queue_inv; exact H|].
  split; [eapply lifecycle_step; eassumption|]. split; [eapply ownership_step; eassumption|].
  split; [eapply events_step; eassumption|eapply flags_step; eassumption].
Qed.

Lemma reachable_rtc q q' : reachable q -> rtc step q q' -> reachable q'.
Proof. intros R. induction 1 as [|q q1 q2 St _ IH] in R |- *; [exact R|]. apply IH. eapply reachable_step; eassumption. Qed.

(** ** A frozen queue *)

(** The tickets whose job a worker is about to call. *)
Definition called (q : AdminWorkQueue) : list nat := omap (fun w => thread w ≫= ready_of) (workers q).

Lemma elem_called q t : t ∈ called q <-> exists i w, workers q !! i = Some w /\ thread w ≫= ready_of = Some t.
Proof.
  unfold called. rewrite list_elem_of_omap. split.
  - intros (w & Hw & H). apply list_elem_of_lookup in Hw as [i Hi]. eauto.
  - intros (i & w & Hi & H). exists w. split; [eapply list_elem_of_lookup_2; exact Hi|exact H].
Qed.

(** A step from a frozen queue: it stays frozen, and runs only what was
    about to be. *)
Definition stays_frozen (q q' : AdminWorkQueue) : Prop :=
  frozen q' = true /\ (forall t, t ∈ called q' -> t ∈ called q) /\
  (forall t, t ∈ executed q' -> t ∈ executed q \/ t ∈ called q).

Lemma frozen_at_worker q q' i f :
  frozen q' = true -> workers q' = alter f i (workers q) ->
  (forall w t, workers q !! i = Some w -> thread (f w) ≫= ready_of = Some t -> t ∈ called q) ->
  (forall t, t ∈ executed q' -> t ∈ executed q \/ t ∈ called q) -> stays_frozen q q'.
Proof.
  intros Fz Ew Hf Ex. split; [exact Fz|]. split; [|exact Ex]. intros t Ht.
  apply elem_called in Ht as (j & w' & Hj & H). rewrite Ew in Hj.
  apply alter_lookup in Hj as [[_ Hj]|[<- (w & Hj & ->)]]; [apply elem_called; eauto|eauto].
Qed.

(** What a move runs. *)
Lemma advance_runs i o q q' : advance i o q = Some q' -> exists w p f p',
  workers q !! i = Some w /\ thread w = Some p /\ workers q' = alter f i (workers q) /\
  (forall x, thread (f x) = Some p') /\ (frozen q = true -> frozen q' = true /\ ready_of p' = None) /\
  (executed q' = executed q \/ exists t, ready_of p = Some t /\ executed q' = executed q ++ [t]).
Proof.
  intros H. advance_cases H w p Hw Ht; repeat case_match; try discriminate H; injection H as <-;
    unfold pop, finish; repeat case_match;
    (do 4 eexists; split; [exact Hw|]; split; [exact Ht|]; split; [reflexivity|]; split; [reflexivity|];
     split; [intros Fz; split; [cbn in *; rewrite ?Fz; reflexivity|cbn in *; try reflexivity; congruence]|]);
    first [left; unfold executed; cbn; rewrite ?omap_app; apply app_nil_r || reflexivity
          |right; eexists; split; [reflexivity|unfold executed; cbn; rewrite ?omap_app; reflexivity]].
Qed.

Lemma frozen_advance i o q q' : frozen q = true -> advance i o q = Some q' -> stays_frozen q q'.
Proof.
  intros Fz H. destruct (advance_runs _ _ _ _ H) as (w & p & f & p' & Hw & Ht & Ew & Hf & Hfz & Ex).
  destruct (Hfz Fz) as [Fz' Hr]. eapply frozen_at_worker; [exact Fz'|exact Ew| |].
  - intros x t _. rewrite Hf. cbn. congruence.
  - intros t Hin. destruct Ex as [Ex|(t' & Hp & Ex)]; rewrite Ex in Hin; [auto|]. apply elem_of_app in Hin as [Hin|Hin]; [auto|].
    apply list_elem_of_singleton in Hin as ->. right. apply elem_called. exists i, w. rewrite Ht. auto.
Qed.

Lemma frozen_still q q' :
  frozen q = true -> frozen q' = frozen q -> workers q' = workers q -> log q' = log q -> stays_frozen q q'.
Proof. intros Fz E1 E2 E3. unfold stays_frozen, called, executed. rewrite E1, E2, E3. auto. Qed.

Lemma frozen_step q q' : lifecycle q -> frozen q = true -> step q q' -> stays_frozen q q'.
Proof.
  intros Lf Fz [i o q1 H|job n a int| |l q1 H|q1 H].
  - eapply frozen_advance; eassumption.
  - apply frozen_still; [exact Fz|unfold submit; repeat case_match; reflexivity..].
  - apply frozen_still; [exact Fz|reflexivity..].
  - destruct Lf as [_ R _]. unfold start_step in H.
    destruct (starter q) as [k|k|k| |] eqn:Es; try discriminate; [destruct (k <? _)| |]; try destruct l;
      injection H as <-; try (apply frozen_still; [exact Fz|reflexivity..]);
      (eapply (frozen_at_worker _ _ k); [exact Fz|reflexivity| |auto]); intros w t Hw Hr; cbn in Hr;
      try discriminate Hr; apply elem_called; eauto.
  - destruct (drain_rest _ _ H) as (_ & _ & _ & _ & El & _ & _ & Ef & _). rewrite <- Ef in Fz.
    destruct (drain_worker _ _ H) as [Ew|(i & Ew)].
    + apply frozen_still; [congruence|assumption..].
    + eapply frozen_at_worker; [exact Fz|exact Ew| |unfold executed; rewrite El; auto].
      intros w t Hw Hr. cbn beta in Hr. rewrite thread_settled in Hr. apply elem_called. eauto.
Qed.

Lemma frozen_rtc q q' : reachable q -> frozen q = true -> rtc step q q' -> stays_frozen q q'.
Proof.
  intros R Fz S. revert R Fz. induction S as [q|q q1 q2 St S IH]; intros R Fz.
  - split; [exact Fz|]. auto.
  - destruct (reachable_inv q R) as [Lf _]. destruct (frozen_step q q1 Lf Fz St) as (F1 & C1 & X1).
    destruct (IH (reachable_step _ _ R St) F1) as (F2 & C2 & X2). split; [exact F2|]. split; [auto|].
    intros t Ht. destruct (X2 t Ht) as [H|H]; [apply X1, H|auto].
Qed.

(** An accepted ticket stays accepted or is completed. *)
Lemma kept_step q q' t : lifecycle q -> ownership q -> step q q' ->
  t ∈ owned q \/ t ∈ completed q -> t ∈ owned q' \/ t ∈ completed q'.
Proof.
  intros Lf O St [H|H]; destruct (step_change q q' Lf O St) as [_ Ec _ _ W|x _ Ec _ _ _ W|x _ Ec _ _ W].
  - auto.
  - left. apply W, H.
  - destruct (proj1 (W t) H) as [E|H']; [subst x; right; rewrite Ec; set_solver|auto].
  - rewrite Ec. auto.
  - rewrite Ec. auto.
  - right. rewrite Ec. set_solver.
Qed.

Lemma kept_rtc q q' t : reachable q -> rtc step q q' -> t ∈ owned q -> t ∈ owned q' \/ t ∈ completed q'.
Proof.
  intros R S H. assert (G : t ∈ owned q \/ t ∈ completed q) by auto. clear H.
  revert R G. induction S as [q|q q1 q2 St S IH]; intros R G; [exact G|]. destruct (reachable_inv q R) as (Lf & O & _).
  apply IH; [eapply reachable_step; eassumption|]. eapply kept_step; eassumption.
Qed.

(** ** Draining *)

(** A worker that will do nothing more: gone, or cancelled before it ran. *)
Definition quiesced (w : Worker) : Prop := thread w = Some Gone \/ (cancelled w = true /\ ran w = false).

Definition all_quiesced (q : AdminWorkQueue) : Prop := Forall quiesced (workers q).

(** What the draining thread has established. *)
Definition drained (q : AdminWorkQueue) : Prop :=
  match drainer q with
  | None => True
  | Some p => stopping q = true /\
      match p with
      | Verify i true => Forall quiesced (take i (workers q))
      | Verdict true => all_quiesced q
      | Answer true => all_quiesced q /\ tickets q = ∅
      | _ => True
      end
  end.

Lemma quiesced_settled w : quiesced w -> quiesced (settled w).2.
Proof. unfold quiesced, settled. cbn [snd]. destruct (_ && _); cbn; tauto. Qed.

(** What [settled] answers. *)
Lemma settled_quiesced w : sound w -> (settled w).1 = true -> quiesced (settled w).2.
Proof.
  unfold sound, quiesced, settled, alive. cbn [fst snd]. intros [I D] H.
  destruct (ran w) eqn:Er; cbn [negb andb] in H |- *.
  - destruct (bool_decide_reflect (state w = IDLE)) as [E|]; [rewrite (I E) in D; destruct D; congruence|].
    cbn in H. apply andb_true_iff in H as [Hf Ha]. destruct (thread w) as [[]|]; cbn in *; auto; destruct D; congruence.
  - destruct (bool_decide_reflect (state w = STARTED)) as [E|]; cbn [negb] in H |- *; [|cbn; auto].
    rewrite E in H. cbn in H. apply andb_true_iff in H as [Hf Ha]. destruct (thread w) as [[]|]; cbn in *; auto; destruct D; congruence.
Qed.

(** A quiesced worker stays so, and touches nothing but itself. *)
Lemma quiesced_advance i o q q' w : lifecycle q -> advance i o q = Some q' -> workers q !! i = Some w ->
  quiesced w -> log q' = log q /\ tickets q' = tickets q /\ forall w', workers q' !! i = Some w' -> quiesced w'.
Proof.
  intros [T _ _] H Hw0 Q. destruct (advance_worker _ _ _ _ H) as (f & Ew & _ & _ & _ & _ & Hf).
  destruct (Hf w Hw0) as (_ & _ & _ & _ & Ec & _ & _ & Er). rewrite Ew, list_lookup_alter_eq, Hw0.
  advance_cases H w1 p Hw Ht; rewrite Hw in Hw0; injection Hw0 as ->; try discriminate H;
    (destruct Q as [G|[Gc Gr]]; [rewrite Ht in G; discriminate G|]);
    pose proof (Forall_lookup_1 _ _ _ _ T Hw) as [_ D]; rewrite Ht in D; try (destruct D; congruence);
    rewrite ?Gc in H; injection H as <-;
    (split; [reflexivity|]; split; [reflexivity|]; intros w' [= <-]; right; rewrite Ec, (Er Gc); auto).
Qed.

(** Workers verified before a step are verified after it. *)
Definition keeps_quiesced (q q' : AdminWorkQueue) : Prop := exists i f,
  workers q' = alter f i (workers q) /\ forall w, workers q !! i = Some w -> quiesced w -> quiesced (f w).

Lemma keeps_take q q' n :
  keeps_quiesced q q' -> Forall quiesced (take n (workers q)) -> Forall quiesced (take n (workers q')).
Proof.
  intros (i & f & -> & Hf) Q. rewrite take_alter. destruct (decide (i < n)) as [L|L]; [|exact Q].
  apply Forall_alter; [exact Q|]. intros w Hw. rewrite lookup_take_lt in Hw by exact L. auto.
Qed.

Lemma keeps_all q q' : keeps_quiesced q q' -> all_quiesced q -> all_quiesced q'.
Proof. intros (i & f & E & Hf) Q. unfold all_quiesced. rewrite E. apply Forall_alter; [exact Q|]. auto. Qed.

Lemma keeps_same q q' : workers q' = workers q -> keeps_quiesced q q'.
Proof. intros E. exists 0, (fun w => w). split; [rewrite E, list_alter_id by auto; reflexivity|auto]. Qed.

Lemma keeps_step q q' : lifecycle q -> step q q' -> keeps_quiesced q q'.
Proof.
  intros Lf [i o q1 H|job n a int| |l q1 H|q1 H].
  - destruct (advance_worker _ _ _ _ H) as (f & Ew & _). exists i, f. split; [exact Ew|]. intros w Hw Q.
    destruct (quiesced_advance _ _ _ _ _ Lf H Hw Q) as (_ & _ & K). apply K.
    rewrite Ew, list_lookup_alter_eq, Hw. reflexivity.
  - apply keeps_same. unfold submit; repeat case_match; reflexivity.
  - apply keeps_same. reflexivity.
  - destruct Lf as [_ R _]. unfold start_step in H.
    destruct (starter q) as [k|k|k| |] eqn:Es; try discriminate; [destruct (k <? _)| |]; try destruct l;
      injection H as <-; try (apply keeps_same; reflexivity);
      (exists k; eexists; split; [reflexivity|]); intros w Hw [Q|Q]; try (left; exact Q); try (right; exact Q);
      rewrite (R k w Hw (le_n k)) in Q; discriminate.
  - destruct (drain_worker _ _ H) as [Ew|(i & Ew)]; [apply keeps_same, Ew|].
    exists i. eexists. split; [exact Ew|]. intros w _. apply quiesced_settled.
Qed.

(** Once all are quiesced and nothing is accepted, nothing happens. *)
Lemma over_step q q' : lifecycle q -> ownership q -> closing q = true -> all_quiesced q -> tickets q = ∅ ->
  step q q' -> closing q' = true /\ all_quiesced q' /\ tickets q' = ∅ /\ log q' = log q.
Proof.
  intros Lf O Cl Q T St. pose proof (keeps_all q q' (keeps_step q q' Lf St) Q) as Q'.
  destruct St as [i o q1 H|job n a int| |l q1 H|q1 H].
  - destruct (advance_inv _ _ _ _ H) as (w & _ & Hw & _).
    destruct (quiesced_advance _ _ _ _ _ Lf H Hw (Forall_lookup_1 _ _ _ _ Q Hw)) as (El & Et & _).
    destruct (advance_worker _ _ _ _ H) as (f & _ & _ & _ & Ec & _).
    split; [congruence|]. split; [exact Q'|]. split; congruence.
  - destruct (submit_cases job n a int q) as [(_ & C & _)|(e & s & _ & _ & E)]; [congruence|].
    rewrite (E O) in *. auto.
  - auto.
  - destruct (owned_start _ _ _ Lf H) as [_ Et]. unfold start_step in H.
    repeat case_match; try discriminate H; injection H as <-; auto.
  - destruct (drain_rest _ _ H) as (_ & Et & _ & _ & El & _ & _ & _ & Ec). split; [auto|].
    split; [exact Q'|]. split; congruence.
Qed.

Lemma drained_still q q' : lifecycle q -> ownership q -> flags q -> step q q' -> drainer q' = drainer q ->
  stopping q' = stopping q -> drained q -> drained q'.
Proof.
  intros Lf O Fl St Ed Es D. pose proof (keeps_step q q' Lf St) as K. unfold drained in *. rewrite Ed, Es.
  destruct (drainer q) as [p|]; [|exact I]. destruct D as [S D]. split; [exact S|].
  destruct p as [i|i|i|i [|]|[|]|[|]]; try exact I.
  - eapply keeps_take; eassumption.
  - eapply keeps_all; eassumption.
  - destruct D as [Q T]. destruct (over_step q q' Lf O (stopping_closing _ Fl S) Q T St) as (_ & Q' & T' & _). auto.
Qed.

Lemma drained_step q q' : lifecycle q -> ownership q -> flags q -> drained q -> step q q' -> drained q'.
Proof.
  intros Lf O Fl D St. pose proof St as St'. destruct St' as [i o q1 H|job n a int| |l q1 H|q1 H].
  - destruct (advance_worker _ _ _ _ H) as (f & _ & _ & Ed & _ & Es & _). apply (drained_still q); assumption.
  - apply (drained_still q); try assumption; unfold submit; repeat case_match; reflexivity.
  - apply (drained_still q); try assumption; reflexivity.
  - apply (drained_still q); try assumption; unfold start_step in H; repeat case_match; try discriminate H; injection H as <-; reflexivity.
  - pose proof (keeps_step q q1 Lf St) as K. destruct Lf as [T _ _]. unfold drained in D. unfold drain_step in H.
    destruct (drainer q) as [p|]; [|injection H as <-; unfold drained; cbn; auto].
    destruct D as [S D]. destruct p as [i|i|i|i ok|ok|b].
    + destruct (workers q !! i) as [w|]; injection H as <-; unfold drained; cbn; [auto|].
      split; [exact S|]. rewrite take_0. constructor.
    + destruct (workers q !! i) as [w|]; [|discriminate]. injection H as <-. unfold drained. cbn. destruct (joinable w); auto.
    + destruct (workers q !! i) as [w|]; [|discriminate]. cbn in H. destruct (alive w); [discriminate|]. injection H as <-.
      unfold drained. cbn. auto.
    + destruct (workers q !! i) as [w|] eqn:Hw.
      * pose proof (settled_quiesced w (Forall_lookup_1 _ _ _ _ T Hw)) as Q.
        destruct (settled w) as [b w'] eqn:Ew. cbn [fst snd] in *. injection H as <-.
        split; [exact S|]. destruct ok; [|exact I]. destruct b; [|exact I]. cbn [andb].
        pose proof (keeps_take _ _ i K D) as D'. cbn [workers with_drainer at_worker with_workers] in *.
        rewrite (take_S_r _ i w') by (rewrite list_lookup_alter_eq, Hw; reflexivity).
        apply Forall_app. split; [exact D'|]. constructor; [|constructor]. apply Q. reflexivity.
      * injection H as <-. unfold drained. cbn. split; [exact S|]. destruct ok; [|exact I].
        apply lookup_ge_None in Hw. rewrite take_ge in D by exact Hw. exact D.
    + injection H as <-. unfold drained. cbn. split; [exact S|]. destruct ok; [|exact I]. cbn.
      case_bool_decide; auto.
    + injection H as <-. unfold drained. cbn. auto.
Qed.

Lemma reachable_drained q : reachable q -> drained q.
Proof.
  induction 1 as [count waiting unknown q H|q q' R D St].
  - unfold new_queue in H. destruct (_ || _); [discriminate|]. injection H as <-. exact I.
  - destruct (reachable_inv q R) as (Lf & O & _ & Fl). eapply drained_step; eassumption.
Qed.

(** ** Every move of a worker consumes something *)

Definition rank (p : point) : nat :=
  match p with
  | Gone => 0 | Ending => 1 | Leaving => 2 | Waiting => 3 | Entry | Notifying _ _ => 4
  | Abandoning _ _ _ => 5 | Finishing _ _ _ _ => 6 | Contained _ _ _ => 7 | Containing _ => 8
  | Raised_ _ => 9 | Running _ _ => 10
  end.

Definition rank_of (w : Worker) : nat := match thread w with Some p => rank p | None => 0 end.

(** The work left: what a waiting ticket costs, and where each thread is. *)
Definition work (q : AdminWorkQueue) : nat := 8 * length (pending q) + sum_list_with rank_of (workers q).

Lemma sum_alter f ws i (w : Worker) : ws !! i = Some w ->
  sum_list_with rank_of (alter f i ws) + rank_of w = sum_list_with rank_of ws + rank_of (f w).
Proof.
  revert i; induction ws as [|w0 ws IH]; intros [|i] H; cbn in *; try discriminate.
  - injection H as ->. lia.
  - specialize (IH i H). unfold alter, list_alter in IH |- *. lia.
Qed.

Lemma work_advance i o q q' : advance i o q = Some q' -> work q' < work q.
Proof.
  intros H. assert (G : exists f w, workers q !! i = Some w /\ workers q' = alter f i (workers q) /\
      8 * length (pending q') + rank_of (f w) < 8 * length (pending q) + rank_of w).
  { advance_cases H w p Hw Ht; unfold rank_of; repeat case_match; try discriminate H; injection H as <-;
      unfold pop, finish; repeat case_match;
      (do 2 eexists; split; [exact Hw|]; split; [reflexivity|]; rewrite ?Ht; cbn;
       repeat match goal with E : pending q = _ |- _ => rewrite E; clear E end; cbn; lia). }
  destruct G as (f & w & Hw & Ew & L). unfold work. rewrite Ew. pose proof (sum_alter f _ _ _ Hw). lia.
Qed.

(** A queue that is stopping is never stuck: while a worker lives, one of
    them can move. *)
Lemma worker_moves q : lifecycle q -> flags q -> stopping q = true ->
  (forall i o, advance i o q = None) -> Forall (fun w => alive w = false) (workers q).
Proof.
  intros [T _ _] [C _ _ _] S Stuck.
  assert (Nc : containing q = false).
  { destruct (containing q) eqn:E; [|reflexivity]. destruct (C eq_refl) as (i & w & Hw & t & G).
    specialize (Stuck i RaisedException). unfold advance in Stuck. rewrite Hw in Stuck. cbn [mbind option_bind] in Stuck.
    destruct G as [G|(ok & fatal & G)]; rewrite G in Stuck; cbn in Stuck; discriminate. }
  apply Forall_lookup. intros i w Hw. specialize (Stuck i RaisedException). unfold advance, alive in *.
  rewrite Hw in Stuck. cbn [mbind option_bind] in Stuck. destruct (thread w) as [p|]; [|reflexivity].
  cbn [mbind option_bind] in Stuck. destruct p as [| |t [job|]| | | | | | | | |]; try discriminate Stuck; [|reflexivity].
  rewrite Nc, S in Stuck. destruct (pending q); discriminate.
Qed.

(** A worker serving the queue. *)
Definition serving (w : Worker) : Prop :=
  match thread w with
  | Some Entry => cancelled w = false
  | Some (Leaving | Ending | Gone) | None => False
  | _ => True
  end.

(** Moves of the workers, none of whose callbacks raises past [Exception]. *)
Inductive worker_moves_to : nat -> AdminWorkQueue -> AdminWorkQueue -> Prop :=
| moves_none q : worker_moves_to 0 q q
| moves_one n i o q q1 q2 : o <> RaisedBase -> advance i o q = Some q1 -> worker_moves_to n q1 q2 ->
    worker_moves_to (S n) q q2.

(** No worker is about to leave [_contain] with an exception. *)
Definition unfatal (w : Worker) : Prop := forall t ok, thread w <> Some (Contained t ok true).

Definition attended (q : AdminWorkQueue) : Prop := pending q = [] \/ Exists serving (workers q).

Lemma attended_advance i o q q' : Forall unfatal (workers q) -> o <> RaisedBase -> advance i o q = Some q' ->
  attended q -> attended q' /\ Forall unfatal (workers q') /\ lost q' = lost q.
Proof.
  intros U No H A.
  assert (G : exists f w, workers q !! i = Some w /\ workers q' = alter f i (workers q) /\ lost q' = lost q /\
     (pending q = [] -> pending q' = []) /\ unfatal (f w) /\ (serving w -> serving (f w) \/ pending q' = [])).
  { advance_cases H w p Hw Ht; pose proof (Forall_lookup_1 _ _ _ _ U Hw) as Uw; unfold serving, unfatal in *;
      repeat case_match; try discriminate H; try contradiction; injection H as <-;
      unfold pop, finish; repeat case_match; try (destruct (Uw _ _ Ht));
      (do 2 eexists; split; [exact Hw|]; split; [reflexivity|]; split; [reflexivity|];
       split; [cbn; congruence|]; split; [intros; discriminate|]; intros; cbn in *; rewrite ?Ht in *; auto; congruence). }
  destruct G as (f & w & Hw & Ew & El & Ep & Uf & Sf). split; [|split; [|exact El]].
  - destruct A as [A|A]; [left; auto|]. apply Exists_exists in A as (w' & Hw' & Sw').
    apply list_elem_of_lookup in Hw' as [j Hj]. destruct (decide (i = j)) as [<-|N].
    + rewrite Hw in Hj. injection Hj as <-. destruct (Sf Sw') as [S|P]; [right|left; exact P].
      rewrite Ew. apply Exists_exists. exists (f w). split; [|exact S].
      eapply list_elem_of_lookup_2. rewrite list_lookup_alter_eq, Hw. reflexivity.
    + right. rewrite Ew. apply Exists_exists. exists w'. split; [|exact Sw'].
      eapply list_elem_of_lookup_2. rewrite list_lookup_alter_ne by exact N. exact Hj.
  - rewrite Ew. apply Forall_alter; [exact U|]. intros w' Hw' _. rewrite Hw in Hw'. injection Hw' as <-. exact Uf.
Qed.

Lemma moves_attended n q q' : worker_moves_to n q q' -> Forall unfatal (workers q) -> attended q ->
  n + work q' <= work q /\ attended q' /\ lost q' = lost q.
Proof.
  induction 1 as [q|n i o q q1 q2 No H W IH]; intros U A; [auto|].
  destruct (attended_advance _ _ _ _ U No H A) as (A1 & U1 & L1). destruct (IH U1 A1) as (M & A2 & L2).
  pose proof (work_advance _ _ _ _ H). split; [lia|]. split; [exact A2|congruence].
Qed.

Lemma moves_rtc n q q' : worker_moves_to n q q' -> rtc step q q'.
Proof. induction 1; [reflexivity|]. eapply rtc_l; [eapply step_worker; eassumption|assumption]. Qed.

Lemma moves_stopping n q q' : worker_moves_to n q q' -> stopping q' = stopping q.
Proof.
  induction 1 as [q|n i o q q1 q2 _ H _ IH]; [reflexivity|]. rewrite IH.
  destruct (advance_worker _ _ _ _ H) as (f & _ & _ & _ & _ & E & _). exact E.
Qed.

(** With every thread ended, only what was lost is still accepted. *)
Lemma dead_owned q : Forall (fun w => alive w = false) (workers q) -> attended q -> owned q = lost q.
Proof.
  intros Dead A. unfold owned. assert (P : pending q = []).
  { destruct A as [P|A]; [exact P|]. apply Exists_exists in A as (w & Hw & S).
    rewrite Forall_forall in Dead. specialize (Dead w Hw). unfold alive, serving in *.
    destruct (thread w) as [[]|]; try discriminate Dead; destruct S. }
  rewrite P. cbn [app]. clear P A. induction (workers q) as [|w ws IH]; [reflexivity|].
  apply Forall_cons in Dead as [D Dead]. cbn [omap list_omap]. unfold held_by at 1. unfold alive in D.
  destruct (thread w) as [[]|]; try discriminate D; apply IH, Dead.
Qed.

Lemma unaccepted_pending q : ownership q -> tickets q = ∅ -> pending q = [].
Proof.
  intros [_ T _ _] E. destruct (pending q) as [|t l] eqn:P; [reflexivity|]. exfalso.
  assert (H : t ∈ tickets q); [|rewrite E in H; apply elem_of_empty in H; exact H].
  rewrite T, elem_of_list_to_set. unfold owned. rewrite P. cbn [app]. apply list_elem_of_here.
Qed.

Lemma over_rtc q q' : reachable q -> closing q = true -> all_quiesced q -> tickets q = ∅ -> rtc step q q' ->
  tickets q' = ∅ /\ log q' = log q.
Proof.
  intros R C Q T S. revert R C Q T. induction S as [q|q q1 q2 St S IH]; intros R C Q T; [auto|].
  destruct (reachable_inv q R) as (Lf & O & _).
  destruct (over_step q q1 Lf O C Q T St) as (C1 & Q1 & T1 & L1).
  destruct (IH (reachable_step _ _ R St) C1 Q1 T1) as [T2 L2]. split; congruence.
Qed.

(** ** The properties *)

(** Admission accounts for every ticket: in every reachable state the
    accepted ones are at most the capacity, and are, each once, those that
    wait, those a worker holds, and those lost with a worker that died in
    containment; no job is called twice and no ticket completed twice; a
    waiting ticket has not been executed; and whatever happens next, an
    accepted ticket stays accepted until it is completed. *)
Theorem admin_queue_accounts q :
  reachable q ->
  size (tickets q) <= capacity q /\
  NoDup (pending q ++ omap held_by (workers q) ++ lost q) /\
  tickets q = list_to_set (pending q ++ omap held_by (workers q) ++ lost q) /\
  NoDup (executed q) /\ NoDup (completed q) /\
  (forall t, t ∈ executed q -> (t ∉ pending q) /\ (t ∈ tickets q \/ t ∈ completed q)) /\
  (forall t, t ∈ completed q -> t ∉ tickets q) /\
  forall q' t, rtc step q q' -> t ∈ tickets q -> t ∈ tickets q' \/ t ∈ completed q'.
Proof.
  intros R. destruct (reachable_inv q R) as (_ & [N T B _] & [C1 X1 C2 X2 X3 _] & _).
  split; [exact B|]. split; [exact N|]. split; [exact T|]. split; [exact X1|]. split; [exact C1|].
  split; [|split].
  - intros t Ht. split; [|rewrite T, elem_of_list_to_set; auto].
    intros Hp. apply (X2 t Ht). unfold ready. apply elem_of_app. auto.
  - intros t Ht. rewrite T, elem_of_list_to_set. auto.
  - intros q' t S Ht. rewrite T, elem_of_list_to_set in Ht.
    destruct (reachable_inv q' (reachable_rtc _ _ R S)) as (_ & [_ T' _ _] & _).
    rewrite T', elem_of_list_to_set. eapply kept_rtc; eassumption.
Qed.

(** once a containment has failed, the queue stays frozen whatever
    happens: it refuses every submission, and the only jobs it still calls are
    those a worker was already about to call at that moment. *)
Theorem frozen_never_executes q q' :
  reachable q -> frozen q = true -> rtc step q q' ->
  frozen q' = true /\
  (forall job notify abandon int,
     (submit job notify abandon int q').1 = Err AdminWorkUnavailableError /\
     tickets (submit job notify abandon int q').2 = tickets q') /\
  forall t, t ∈ executed q' -> t ∈ executed q \/
    exists i w job, workers q !! i = Some w /\ thread w = Some (Running t job).
Proof.
  intros R Fz S. destruct (frozen_rtc q q' R Fz S) as (Fz' & _ & X). split; [exact Fz'|]. split.
  - intros job n a int. destruct (reachable_inv q' (reachable_rtc _ _ R S)) as (_ & _ & _ & [_ _ F _]).
    unfold submit. rewrite (F Fz'), orb_true_r. auto.
  - intros t Ht. destruct (X t Ht) as [H|H]; [auto|]. apply elem_called in H as (i & w & Hw & Hr). right.
    destruct (thread w) as [[]|] eqn:Et; cbn in Hr; try discriminate Hr. injection Hr as ->. eauto.
Qed.

(** [drain] tells the truth: in a reachable state where it has answered
    true no ticket is accepted or waits and every worker's thread has ended,
    or will end without serving the queue because it was cancelled before it
    ran; and nothing that happens afterwards, a thread of uncertain start
    included, calls a job or a callback, or accepts a ticket. *)
Theorem drain_complete q :
  reachable q -> drainer q = Some (Answer true) ->
  tickets q = ∅ /\ pending q = [] /\ closing q = true /\
  Forall (fun w => thread w = Some Gone \/ (cancelled w = true /\ ran w = false)) (workers q) /\
  forall q', rtc step q q' -> tickets q' = ∅ /\ log q' = log q.
Proof.
  intros R D. pose proof (reachable_drained q R) as Dr. unfold drained in Dr. rewrite D in Dr.
  destruct Dr as (S & Q & T). destruct (reachable_inv q R) as (Lf & O & _ & Fl).
  pose proof (stopping_closing _ Fl S) as C. split; [exact T|]. split; [eapply unaccepted_pending; eassumption|].
  split; [exact C|]. split; [exact Q|]. intros q' St. destruct (over_rtc q q' R C Q T St) as [-> ->]. auto.
Qed.

(** Draining ends: from a reachable state that is stopping, with no ticket
    lost and the waiting ones attended by a worker, the workers' moves, if no
    callback raises past [Exception], are bounded by the work left, and when
    none can move every thread has ended and no ticket is left. *)
Theorem drain_terminates n q q' :
  reachable q -> stopping q = true -> lost q = [] -> Forall unfatal (workers q) -> attended q ->
  worker_moves_to n q q' ->
  n <= work q /\
  ((forall i o, advance i o q' = None) ->
   Forall (fun w => alive w = false) (workers q') /\ tickets q' = ∅).
Proof.
  intros R S L U A M. destruct (moves_attended n q q' M U A) as (B & A' & L'). split; [lia|]. intros Stuck.
  pose proof (reachable_rtc _ _ R (moves_rtc _ _ _ M)) as R'. destruct (reachable_inv q' R') as (Lf & O & _ & Fl).
  assert (Dead : Forall (fun w => alive w = false) (workers q')).
  { apply worker_moves; try assumption. rewrite (moves_stopping _ _ _ M). exact S. }
  split; [exact Dead|]. rewrite (owned_tickets _ O), (dead_owned q' Dead A'), L', L. reflexivity.
Qed.

(** ** Concrete runs *)

(** One step, named; and a run of them. *)
Inductive choice :=
| Advance (i : nat) (o : outcome)
| Submit (job : nat) (notify abandon : option nat)
| Close
| Start (l : launch)
| Drain.

Definition choose (c : choice) (q : AdminWorkQueue) : option AdminWorkQueue :=
  match c with
  | Advance i o => advance i o q
  | Submit job n a => Some (submit job n a false q).2
  | Close => Some (close_admission q)
  | Start l => start_step l q
  | Drain => drain_step q
  end.

Fixpoint run (cs : list choice) (q : AdminWorkQueue) : option AdminWorkQueue :=
  match cs with
  | [] => Some q
  | c :: cs => q1 ← choose c q; run cs q1
  end.

Lemma run_rtc cs q q' : run cs q = Some q' -> rtc step q q'.
Proof.
  revert q; induction cs as [|c cs IH]; intros q H; cbn in H; [injection H as ->; reflexivity|].
  destruct (choose c q) as [q1|] eqn:E; [|discriminate]. cbn in H. eapply rtc_l; [|apply IH, H].
  destruct c as [i o|job n a| |l|]; cbn in E.
  - eapply step_worker, E.
  - injection E as <-. apply step_submit.
  - injection E as <-. apply step_close.
  - eapply step_start, E.
  - eapply step_drain, E.
Qed.

(** A run of the default queue, with [unknown] its [on_unknown]. *)
Definition runs (unknown : bool) (cs : list choice) : option AdminWorkQueue :=
  match new_queue (Z.of_nat DEFAULT_WORKERS) (Z.of_nat DEFAULT_WAITING) unknown with
  | Ok q => run cs q
  | Err _ => None
  end.

Lemma runs_reachable unknown cs q : runs unknown cs = Some q -> reachable q.
Proof.
  unfold runs. destruct (new_queue _ _ _) as [q0|] eqn:E; [|discriminate]. intros H.
  eapply reachable_rtc; [eapply reachable_new; exact E|eapply run_rtc; exact H].
Qed.

Lemma run_app cs cs' q : run (cs ++ cs') q = run cs q ≫= run cs'.
Proof. revert q; induction cs as [|c cs IH]; intros q; cbn; [reflexivity|]. destruct (choose c q); cbn; auto. Qed.

Lemma runs_then unknown cs cs' q q' :
  runs unknown cs = Some q -> runs unknown (cs ++ cs') = Some q' -> rtc step q q'.
Proof.
  unfold runs. destruct (new_queue _ _ _) as [q0|]; [|discriminate]. rewrite run_app. intros -> H.
  eapply run_rtc, H.
Qed.

(** A run of the workers alone, none of whose callbacks raises past
    [Exception]. *)
Definition gentle (c : choice) : bool :=
  match c with Advance _ RaisedBase => false | Advance _ _ => true | _ => false end.

Lemma run_moves cs q q' : forallb gentle cs = true -> run cs q = Some q' -> worker_moves_to (length cs) q q'.
Proof.
  revert q; induction cs as [|c cs IH]; intros q G H; cbn in *; [injection H as ->; constructor|].
  apply andb_true_iff in G as [Gc G]. destruct c as [i o| | | |]; try discriminate Gc. cbn in H.
  destruct (advance i o q) as [q1|] eqn:E; [|discriminate]. eapply moves_one; [|exact E|apply IH; assumption].
  intros ->. discriminate.
Qed.

(** What [start] does when every thread starts. *)
Definition started : list choice :=
  [Start Launched; Start Launched; Start Launched; Start Launched; Start Launched; Start Launched; Start Launched;
   Advance 0 RaisedBase; Advance 1 RaisedBase].

(** Two accepted operations raise, and a third waits. *)
Definition two_failures : list choice :=
  started ++ [Submit 10 (Some 20) None; Submit 11 None None; Submit 12 None (Some 30);
    Advance 0 RaisedBase; Advance 1 RaisedBase; Advance 0 RaisedException; Advance 1 RaisedBase;
    Advance 0 RaisedBase; Advance 1 RaisedBase].

(** The first containment to end lets a ticket be dispatched while the other
    is still running: one flag stands for both. *)
Theorem dispatch_during_containment : exists q q' w w' t,
  reachable q /\ rtc step q q' /\ on_unknown q = true /\ workers q !! 1 = Some w /\ workers q' !! 1 = Some w' /\
  thread w = Some (Containing 1) /\ thread w' = Some (Containing 1) /\ t ∈ pending q /\ t ∈ executed q'.
Proof.
  do 5 eexists. split; [eapply (runs_reachable true two_failures); vm_compute; reflexivity|].
  split; [eapply (runs_then true two_failures
            [Advance 0 (Returned 0); Advance 0 RaisedBase; Advance 0 RaisedBase; Advance 0 RaisedBase;
             Advance 0 (Returned 0); Advance 0 RaisedBase; Advance 0 (Returned 7)]); vm_compute; reflexivity|].
  do 5 (split; [reflexivity|]). split; [apply list_elem_of_here|].
  unfold executed. cbn. apply list_elem_of_further, list_elem_of_further, list_elem_of_here.
Qed.

(** ** The retained owners *)

Lemma count_remove_held r l x :
  count_occ Nat.eq_dec (remove_held r l) x = count_occ Nat.eq_dec l x - (if decide (r = x) then 1 else 0).
Proof.
  induction l as [|h l IH]; cbn; [lia|]. destruct (Nat.eqb_spec h r) as [->|N].
  - destruct (Nat.eq_dec r x), (decide (r = x)); try lia; congruence.
  - cbn. rewrite IH. destruct (Nat.eq_dec h x) as [->|], (decide (r = x)) as [->|]; try lia; congruence.
Qed.

(** Each released resource leaves once; the owners of another startup stay. *)
Lemma release_retained_count resources l x :
  count_occ Nat.eq_dec (release_retained resources l) x =
  count_occ Nat.eq_dec l x - count_occ Nat.eq_dec resources x.
Proof.
  unfold release_retained. revert l; induction resources as [|r rs IH]; intros l; cbn [fold_left]; [cbn; lia|].
  rewrite IH, count_remove_held. cbn. destruct (Nat.eq_dec r x), (decide (r = x)); try congruence; lia.
Qed.

Lemma release_retained_retain resources l : Permutation (release_retained resources (retain resources l)) l.
Proof.
  apply (Permutation_count_occ Nat.eq_dec). intros x. rewrite release_retained_count. unfold retain.
  rewrite count_occ_app. lia.
Qed.

(** ** Witnesses *)

Lemma admin_queue_accounts_witness : exists q,
  runs true two_failures = Some q /\ size (tickets q) = 3 /\ NoDup (executed q) /\ NoDup (completed q).
Proof.
  eexists. split; [vm_compute; reflexivity|]. split; [reflexivity|].
  refine (_ (admin_queue_accounts _ (runs_reachable true two_failures _ _))); [|vm_compute; reflexivity].
  intros (_ & _ & _ & X & C & _). exact (conj X C).
Defined.

(** The first failure is contained, the second containment fails: the third
    operation ends without running. *)
Definition second_uncontained : list choice :=
  two_failures ++ [Advance 0 (Returned 0); Advance 0 RaisedBase; Advance 1 RaisedException; Advance 1 RaisedBase].

Lemma frozen_never_executes_witness : exists q q',
  runs true second_uncontained = Some q /\ frozen q = true /\ rtc step q q' /\
  completed q' = [0; 1; 2] /\ frozen q' = true.
Proof.
  do 2 eexists. split; [vm_compute; reflexivity|]. split; [reflexivity|].
  assert (S := fun q q' => runs_then true second_uncontained
    [Advance 0 RaisedBase; Advance 0 RaisedBase; Advance 0 (Returned 0); Advance 1 RaisedBase; Advance 1 RaisedBase;
     Advance 1 RaisedBase; Advance 1 RaisedBase; Advance 1 RaisedBase; Advance 1 (Returned 0)] q q').
  split; [eapply S; vm_compute; reflexivity|]. split; [reflexivity|].
  refine (proj1 (frozen_never_executes _ _ (runs_reachable true second_uncontained _ _) _ _));
    [vm_compute; reflexivity|reflexivity|eapply S; vm_compute; reflexivity].
Defined.

(** One operation is done, the queue drains, and its workers are joined. *)
Definition stopped : list choice := started ++ [Submit 10 (Some 20) None; Drain].
Definition serve_and_leave : list choice :=
  [Advance 0 RaisedException; Advance 0 (Returned 7); Advance 0 RaisedException; Advance 0 RaisedException; Advance 0 (Returned 0);
   Advance 0 RaisedException; Advance 0 RaisedException; Advance 0 RaisedException; Advance 1 RaisedException; Advance 1 RaisedException;
   Advance 1 RaisedException].
Definition joined : list choice := replicate 11 Drain.

Lemma drain_complete_witness : exists q,
  runs true (stopped ++ serve_and_leave ++ joined) = Some q /\ drainer q = Some (Answer true) /\
  executed q = [0] /\ tickets q = ∅.
Proof.
  eexists. split; [vm_compute; reflexivity|]. split; [reflexivity|]. split; [reflexivity|].
  refine (proj1 (drain_complete _ (runs_reachable true (stopped ++ serve_and_leave ++ joined) _ _) _));
    [vm_compute; reflexivity|reflexivity].
Defined.

Lemma drain_terminates_witness : exists q q',
  runs true stopped = Some q /\ worker_moves_to 11 q q' /\ work q = 14 /\
  Forall (fun w => alive w = false) (workers q') /\ tickets q' = ∅.
Proof.
  do 2 eexists. split; [vm_compute; reflexivity|].
  assert (M := fun q q' => run_moves serve_and_leave q q' eq_refl).
  split; [apply M; vm_compute; reflexivity|]. split; [reflexivity|].
  refine (proj2 (drain_terminates 11 _ _ (runs_reachable true stopped _ _) _ _ _ _ _) _).
  - vm_compute. reflexivity.
  - reflexivity.
  - reflexivity.
  - do 2 (constructor; [discriminate|]). constructor.
  - right. left. exact I.
  - apply M. vm_compute. reflexivity.
  - intros [|[|i]] o; reflexivity.
Defined.
