(* ===== verification/Json.v ===== *)
(** * Json: Python's JSON reader, and the texts its printer gives

    What the source uses of the standard library's [json]: [loads] as the
    reader with a hook that refuses a repeated key and the constants that are
    not JSON, over the printer [json_dumps] of [Canonical], and the theorem
    that a canonical value is read back from its text.  A [float] is its
    [repr]; the digits of an integer are not limited. *)

From S2P Require Import Prelude.
From S2P Require Import Decimal.
From S2P Require Import Canonical.

Local Open Scope Z_scope.

(** [repr(float(text))]. *)
Class PyFloat := { float_repr : pystr -> pystr }.

(** ** Reading *)

Definition json_space (c : Z) : bool := (c =? 32) || (c =? 9) || (c =? 10) || (c =? 13).

Fixpoint skip_space (s : pystr) : pystr :=
  match s with
  | c :: rest => if json_space c then skip_space rest else s
  | [] => []
  end.

Definition is_digit (c : Z) : bool := (48 <=? c) && (c <=? 57).

Definition hex_value (c : Z) : option Z :=
  if is_digit c then Some (c - 48)
  else if (97 <=? c) && (c <=? 102) then Some (c - 87)
  else if (65 <=? c) && (c <=? 70) then Some (c - 55)
  else None.

Definition hex4 (a b c d : Z) : option Z :=
  a ← hex_value a; b ← hex_value b; c ← hex_value c; d ← hex_value d;
  Some (((a * 16 + b) * 16 + c) * 16 + d).

(** What a one-letter escape stands for. *)
Definition simple_escape (c : Z) : option Z :=
  if (c =? 34) || (c =? 92) || (c =? 47) then Some c
  else if c =? 98 then Some 8
  else if c =? 102 then Some 12
  else if c =? 110 then Some 10
  else if c =? 114 then Some 13
  else if c =? 116 then Some 9
  else None.

Definition high_surrogate (n : Z) : bool := (55296 <=? n) && (n <=? 56319).
Definition low_surrogate (n : Z) : bool := (56320 <=? n) && (n <=? 57343).

(** The characters of a string and what follows its closing quote.  Two
    escapes that are the halves of a pair are one character. *)
Fixpoint read_string (s : pystr) : option (pystr * pystr) :=
  match s with
  | [] => None
  | c :: s =>
      if c =? 34 then Some ([], s)
      else if c =? 92 then
        match s with
        | [] => None
        | u :: s' =>
            if u =? 117 then
              match s' with
              | a :: b :: c :: d :: s' =>
                  n ← hex4 a b c d;
                  let one := '(t, r) ← read_string s'; Some (n :: t, r) in
                  match s' with
                  | q :: u :: e :: f :: g :: h :: s' =>
                      match hex4 e f g h with
                      | Some m =>
                          if (q =? 92) && (u =? 117) && high_surrogate n && low_surrogate m then
                            '(t, r) ← read_string s'; Some (65536 + (n - 55296) * 1024 + (m - 56320) :: t, r)
                          else one
                      | None => one
                      end
                  | _ => one
                  end
              | _ => None
              end
            else x ← simple_escape u; '(t, r) ← read_string s'; Some (x :: t, r)
        end
      else if c <? 32 then None
      else '(t, r) ← read_string s; Some (c :: t, r)
  end.

Fixpoint digits (s : pystr) : pystr * pystr :=
  match s with
  | c :: rest => if is_digit c then let (d, r) := digits rest in (c :: d, r) else ([], s)
  | [] => ([], [])
  end.

(** What follows character [c], which [s] begins with. *)
Definition expect (c : Z) (s : pystr) : option pystr :=
  match s with x :: r => if x =? c then Some r else None | [] => None end.

(** What follows [word]. *)
Fixpoint after (word s : pystr) : option pystr :=
  match word with
  | [] => Some s
  | w :: word => s ← expect w s; after word s
  end.

(** A fraction and an exponent, when they are there. *)
Definition read_fraction (s : pystr) : pystr * pystr :=
  match expect 46 s with
  | Some rest => match digits rest with ([], _) => ([], s) | (d, r) => (46 :: d, r) end
  | None => ([], s)
  end.

Definition read_exponent (s : pystr) : pystr * pystr :=
  match s with
  | e :: rest =>
      if (e =? 101) || (e =? 69) then
        let '(sign, more) := match expect 43 rest, expect 45 rest with
                             | Some more, _ => ([43], more)
                             | _, Some more => ([45], more)
                             | _, _ => ([], rest)
                             end in
        match digits more with ([], _) => ([], s) | (d, r) => (e :: sign ++ d, r) end
      else ([], s)
  | [] => ([], [])
  end.

Section reader.
Context {F : PyFloat}.

(** The whole part: one zero, or digits that do not begin with one. *)
Definition read_whole (s : pystr) : option (pystr * pystr) :=
  match expect 48 s with
  | Some r => Some ([48], r)
  | None => match digits s with ([], _) => None | (d, r) => Some (d, r) end
  end.

Definition read_number (s : pystr) : option (pyval * pystr) :=
  let '(sign, rest) := match expect 45 s with Some r => ([45], r) | None => ([], s) end in
  '(whole, rest) ← read_whole rest;
  let '(fraction, rest) := read_fraction rest in
  let '(exponent, rest) := read_exponent rest in
  match fraction, exponent with
  | [], [] => Some (VInt (match sign with [] => dec_value 0 whole | _ => - dec_value 0 whole end), rest)
  | _, _ => Some (VFloat (float_repr (sign ++ whole ++ fraction ++ exponent)), rest)
  end.

(** One value; [fuel] bounds the calls, each of which but one in two takes a
    character. *)
Fixpoint read_value (fuel : nat) (s : pystr) : option (pyval * pystr) :=
  match fuel, s with
  | Datatypes.S fuel, c :: rest =>
      if c =? 34 then '(t, r) ← read_string rest; Some (VStr t, r)
      else if c =? 123 then
        let rest := skip_space rest in
        match expect 125 rest with
        | Some r => Some (VDict [], r)
        | None => '(items, r) ← read_members fuel [] rest; Some (VDict items, r)
        end
      else if c =? 91 then
        let rest := skip_space rest in
        match expect 93 rest with
        | Some r => Some (VList [], r)
        | None => '(items, r) ← read_elements fuel rest; Some (VList items, r)
        end
      else if c =? 110 then r ← after (py "null") s; Some (VNone, r)
      else if c =? 116 then r ← after (py "true") s; Some (VBool true, r)
      else if c =? 102 then r ← after (py "false") s; Some (VBool false, r)
      else read_number s
  | _, _ => None
  end
with read_elements (fuel : nat) (s : pystr) : option (list pyval * pystr) :=
  match fuel with
  | O => None
  | Datatypes.S fuel =>
      '(v, r) ← read_value fuel s;
      let r := skip_space r in
      match expect 93 r with
      | Some r => Some ([v], r)
      | None => r ← expect 44 r; '(l, r) ← read_elements fuel (skip_space r); Some (v :: l, r)
      end
  end
with read_members (fuel : nat) (seen : list pystr) (s : pystr) : option (list (pystr * pyval) * pystr) :=
  match fuel with
  | O => None
  | Datatypes.S fuel =>
      s ← expect 34 s;
      '(k, r) ← read_string s;
      r ← expect 58 (skip_space r);
      '(v, r) ← read_value fuel (skip_space r);
      if bool_decide (k ∈ seen) then None
      else
        let r := skip_space r in
        match expect 125 r with
        | Some r => Some ([(k, v)], r)
        | None => r ← expect 44 r; '(l, r) ← read_members fuel (k :: seen) (skip_space r); Some ((k, v) :: l, r)
        end
  end.

(** [json.loads] with the hooks. *)
Definition loads (s : pystr) : option pyval :=
  match read_value (2 * length s + 2) (skip_space s) with
  | Some (v, r) => match skip_space r with [] => Some v | _ => None end
  | None => None
  end.
End reader.

(** ** A value is read back from its text *)

Lemma digits_app d r :
  Forall digit_char d -> match r with [] => True | c :: _ => is_digit c = false end -> digits (d ++ r) = (d, r).
Proof.
  intros D R. induction D as [|c d Hc _ IH]; cbn [app digits].
  - destruct r as [|c r]; [reflexivity|]. cbn [digits]. rewrite R. reflexivity.
  - unfold is_digit, digit_char in *. destruct (Z.leb_spec 48 c); [|lia]. destruct (Z.leb_spec c 57); [|lia].
    cbn [andb]. rewrite IH. reflexivity.
Qed.

(** What may follow a value: nothing a number would go on with. *)
Definition stops (r : pystr) : Prop :=
  match r with [] => True | c :: _ => is_digit c = false /\ c <> 46 /\ c <> 101 /\ c <> 69 end.

Lemma hex_value_digit n : 0 <= n < 16 -> hex_value (hex_digit n) = Some n.
Proof.
  intros H. assert (C : forallb (fun k => bool_decide (hex_value (hex_digit (Z.of_nat k)) = Some (Z.of_nat k))) (seq 0 16) = true)
    by reflexivity.
  rewrite forallb_forall in C. specialize (C (Z.to_nat n)). rewrite Z2Nat.id in C by lia.
  eapply bool_decide_unpack, Is_true_true, C, in_seq. lia.
Qed.

Lemma expect_same c r : expect c (c :: r) = Some r.
Proof. unfold expect. rewrite Z.eqb_refl. reflexivity. Qed.

Lemma expect_other c x r : x <> c -> expect c (x :: r) = None.
Proof. intros N. unfold expect. destruct (Z.eqb_spec x c); [contradiction|reflexivity]. Qed.

(** An escaped character that is not the first half of a pair. *)
Lemma read_escape a b c d s n : hex4 a b c d = Some n -> high_surrogate n = false ->
  read_string (92 :: 117 :: a :: b :: c :: d :: s) = ('(t, r) ← read_string s; Some (n :: t, r)).
Proof.
  intros E H. cbn [read_string]. replace (92 =? 34) with false by reflexivity.
  replace (92 =? 92) with true by reflexivity. replace (117 =? 117) with true by reflexivity. rewrite E.
  cbn [mbind option_bind]. rewrite H. repeat case_match; try reflexivity;
    match goal with G : _ && false && _ = true |- _ => rewrite andb_false_r in G; discriminate G end.
Qed.

Lemma read_string_print s r : Forall (fun c => 0 <= c) s -> read_string ((s ≫= json_escape) ++ 34 :: r) = Some (s, r).
Proof.
  intros Hs. induction Hs as [|c s Hc _ IH]; [reflexivity|]. cbn [mbind list_bind]. rewrite <- app_assoc.
  unfold json_escape at 1.
  repeat match goal with |- context [if ?a =? ?b then _ else _] =>
    destruct (Z.eqb_spec a b) as [->|]; [cbn [app read_string]; cbn; rewrite IH; reflexivity|] end.
  destruct (Z.ltb_spec c 32) as [L|L].
  - cbn [app].
    assert (E : hex4 48 48 (hex_digit (c / 16)) (hex_digit (c mod 16)) = Some c).
    { assert (0 <= c / 16 < 16) by (split; [apply Z.div_pos; lia|apply Z.div_lt_upper_bound; lia]).
      pose proof (Z.mod_pos_bound c 16 ltac:(lia)). pose proof (Z.div_mod c 16 ltac:(lia)).
      unfold hex4. rewrite !hex_value_digit by assumption. cbn. f_equal. lia. }
    rewrite (read_escape _ _ _ _ _ _ E), IH; [reflexivity|].
    unfold high_surrogate. destruct (Z.leb_spec 55296 c); [lia|reflexivity].
  - cbn [app read_string]. destruct (Z.eqb_spec c 34); [lia|]. destruct (Z.eqb_spec c 92); [lia|].
    destruct (Z.ltb_spec c 32); [lia|]. rewrite IH. reflexivity.
Qed.

Section roundtrip.
Context {F : PyFloat}.

Lemma read_whole_print d r :
  Forall digit_char d -> no_leading_zero d -> stops r -> read_whole (d ++ r) = Some (d, r).
Proof.
  intros D N R. assert (G : digits (d ++ r) = (d, r)) by (apply digits_app; [exact D|destruct r; [exact I|apply R]]).
  unfold read_whole. destruct N as [->|(x & d' & -> & N)]; [reflexivity|].
  cbn [app expect]. destruct (Z.eqb_spec x 48); [contradiction|]. cbn [app] in G. rewrite G. reflexivity.
Qed.

Lemma stops_tail r : stops r -> read_fraction r = ([], r) /\ read_exponent r = ([], r).
Proof.
  destruct r as [|c r]; [auto|]. intros (_ & R1 & R2 & R3). unfold read_fraction, read_exponent. cbn [expect].
  destruct (Z.eqb_spec c 46); [lia|]. destruct (Z.eqb_spec c 101); [lia|]. destruct (Z.eqb_spec c 69); [lia|]. auto.
Qed.

Lemma read_number_print n r : stops r -> read_number (str_int n ++ r) = Some (VInt n, r).
Proof.
  intros R. destruct (stops_tail r R) as [E1 E2]. unfold read_number.
  destruct (Z.ltb_spec n 0) as [L|L].
  - rewrite str_int_neg by exact L. cbn [app]. rewrite expect_same.
    destruct (str_int_nonneg (- n)) as (D & V & N); [lia|]. rewrite (read_whole_print _ _ D N R).
    cbn [mbind option_bind]. rewrite E1, E2, V. do 3 f_equal. lia.
  - destruct (str_int_nonneg n L) as (D & V & N).
    assert (E : expect 45 (str_int n ++ r) = None).
    { destruct N as [->|(d & t & E & _)]; [reflexivity|]. rewrite E in D |- *. inversion D as [|? ? Hd _]; subst.
      unfold digit_char in Hd. cbn [app expect]. destruct (Z.eqb_spec d 45); [lia|reflexivity]. }
    rewrite E, (read_whole_print _ _ D N R). cbn [mbind option_bind]. rewrite E1, E2, V. reflexivity.
Qed.
End roundtrip.

(** A value that is read back as it is: its dicts are in order, their keys
    distinct, and it has no float. *)
Fixpoint plain (v : pyval) : Prop :=
  match v with
  | VNone | VBool _ | VInt _ => True
  | VStr s => Forall (fun c => 0 <= c) s
  | VList l => (fix all l := match l with [] => True | v :: l => plain v /\ all l end) l
  | VDict items =>
      StronglySorted pystr_le items.*1 /\ NoDup items.*1 /\
      (fix all l := match l with
                    | [] => True
                    | (k, v) :: l => Forall (fun c => 0 <= c) k /\ plain v /\ all l
                    end) items
  | _ => False
  end.

Lemma plain_list l : plain (VList l) <-> Forall plain l.
Proof.
  cbn. induction l as [|v l IH]; [split; [constructor|auto]|]. rewrite IH. split; [intros []; constructor; auto|].
  inversion 1; auto.
Qed.

Definition plain_item (kv : pystr * pyval) : Prop := Forall (fun c => 0 <= c) kv.1 /\ plain kv.2.

Lemma plain_dict items : plain (VDict items) <->
  StronglySorted pystr_le items.*1 /\ NoDup items.*1 /\ Forall plain_item items.
Proof.
  cbn. assert (E : (fix all l := match l with [] => True | (k, v) :: l =>
      Forall (fun c => 0 <= c) k /\ plain v /\ all l end) items <-> Forall plain_item items); [|rewrite E; tauto].
  induction items as [|[k v] l IH]; [split; [constructor|auto]|]. rewrite IH. unfold plain_item at 2. split.
  - intros (K & V & A). constructor; [split; assumption|exact A].
  - inversion 1 as [|? ? [K V] A]; subst. auto.
Qed.

Lemma sorted_merge {A} (l : list (pystr * A)) :
  StronglySorted pystr_le l.*1 -> NoDup l.*1 -> merge_sort key_le l = l.
Proof.
  intros S N. assert (S' : StronglySorted key_le l).
  { clear N. induction l as [|[k v] l IH]; [constructor|]. cbn in S. inversion S as [|? ? S1 S2]; subst.
    constructor; [auto|]. rewrite Forall_fmap in S2. exact S2. }
  apply (StronglySorted_unique_strong key_le); [|apply StronglySorted_merge_sort; apply _|exact S'|apply merge_sort_Permutation].
  intros [x a] [y b] Hx Hy Hxy Hyx. unfold key_le in *. cbn in *.
  pose proof (pystr_le_antisym _ _ Hxy Hyx) as ->. rewrite merge_sort_Permutation in Hx.
  f_equal. apply list_elem_of_lookup in Hx as [i Hi]. apply list_elem_of_lookup in Hy as [j Hj].
  assert (i = j) as <-; [|congruence].
  eapply (NoDup_lookup l.*1 i j y N); rewrite list_lookup_fmap, ?Hi, ?Hj; reflexivity.
Qed.

(** The first character of a value is no blank and closes no bracket. *)
Definition opens (t : pystr) : Prop :=
  exists c r, t = c :: r /\ json_space c = false /\ c <> 93 /\ c <> 125.

Lemma opens_skip t r : opens t -> skip_space (t ++ r) = t ++ r.
Proof. intros (c & t' & -> & H & _). cbn [app skip_space]. rewrite H. reflexivity. Qed.

Lemma opens_expect t r c : opens t -> c = 93 \/ c = 125 -> expect c (t ++ r) = None.
Proof. intros (d & t' & -> & _ & N1 & N2) [->| ->]; apply expect_other; assumption. Qed.

Section values.
Context {F : PyFloat}.

Definition reads (v : pyval) : Prop := forall t, plain v -> json_dumps v = Ok t -> opens t /\
  forall fuel r, (2 * length t <= fuel)%nat -> stops r -> read_value (Datatypes.S fuel) (t ++ r) = Some (v, r).

Lemma read_elements_S fuel s : read_elements (Datatypes.S fuel) s =
  ('(v, r) ← read_value fuel s;
   let r := skip_space r in
   match expect 93 r with
   | Some r => Some ([v], r)
   | None => r ← expect 44 r; '(l, r) ← read_elements fuel (skip_space r); Some (v :: l, r)
   end).
Proof. reflexivity. Qed.

Lemma read_members_S fuel seen s : read_members (Datatypes.S fuel) seen s =
  (s ← expect 34 s;
   '(k, r) ← read_string s;
   r ← expect 58 (skip_space r);
   '(v, r) ← read_value fuel (skip_space r);
   if bool_decide (k ∈ seen) then None
   else
     let r := skip_space r in
     match expect 125 r with
     | Some r => Some ([(k, v)], r)
     | None => r ← expect 44 r; '(l, r) ← read_members fuel (k :: seen) (skip_space r); Some ((k, v) :: l, r)
     end).
Proof. reflexivity. Qed.

Lemma comma_stops r : stops (44 :: r) /\ stops (93 :: r) /\ stops (125 :: r).
Proof. repeat split; cbn; lia. Qed.

Lemma read_elements_print l parts : Forall reads l -> Forall plain l -> l <> [] ->
  Forall2 (fun v t => json_dumps v = Ok t) l parts -> opens (join_comma parts) /\
  forall fuel r, (2 * length (join_comma parts) <= fuel)%nat ->
    read_elements (Datatypes.S (Datatypes.S fuel)) (join_comma parts ++ 93 :: r) = Some (l, r).
Proof.
  intros R P N D. destruct (comma_stops []) as (S1 & S2 & _). revert R P N.
  induction D as [|v t l parts Hv D IH]; intros R P N; [contradiction|]. clear N.
  inversion R as [|? ? Rv Rl]; subst. inversion P as [|? ? Pv Pl]; subst.
  destruct (Rv t Pv Hv) as [Ot Rt]. destruct parts as [|t' parts].
  - inversion D; subst. cbn [join_comma]. split; [exact Ot|]. intros fuel r Fu.
    rewrite read_elements_S, Rt by (assumption || exact S2). cbn [mbind option_bind].
    replace (skip_space (93 :: r)) with (93 :: r) by reflexivity. rewrite expect_same. reflexivity.
  - assert (Ol : l <> []) by (inversion D; discriminate). destruct (IH Rl Pl Ol) as [O' R']. clear IH.
    change (join_comma (t :: t' :: parts)) with (t ++ 44 :: join_comma (t' :: parts)). split.
    + destruct Ot as (c & t0 & -> & H). exists c. eexists. split; [reflexivity|exact H].
    + intros fuel r Fu. rewrite <- app_assoc. cbn [app]. rewrite length_app in Fu. cbn [length] in Fu.
      rewrite read_elements_S, Rt by (lia || exact S1). cbn [mbind option_bind].
      replace (skip_space (44 :: join_comma (t' :: parts) ++ 93 :: r)) with (44 :: join_comma (t' :: parts) ++ 93 :: r) by reflexivity.
      rewrite expect_other by lia. rewrite expect_same. cbn [mbind option_bind]. rewrite opens_skip by exact O'.
      destruct fuel as [|fuel]; [lia|]. rewrite R' by lia. reflexivity.
Qed.

Lemma read_members_print items parts : Forall (fun kv => reads kv.2) items -> Forall plain_item items ->
  NoDup items.*1 -> items <> [] ->
  Forall2 (fun kv p => exists t, json_dumps kv.2 = Ok t /\ p = json_string kv.1 ++ 58 :: t) items parts ->
  opens (join_comma parts) /\
  forall fuel seen r, (2 * length (join_comma parts) <= fuel)%nat -> (forall k, k ∈ items.*1 -> k ∉ seen) ->
    read_members (Datatypes.S fuel) seen (join_comma parts ++ 125 :: r) = Some (items, r).
Proof.
  intros R P U N D. destruct (comma_stops []) as (S1 & _ & S2). revert R P U N.
  induction D as [|[k v] t l parts (tv & Hv & E) D IH]; intros R P U N; [contradiction|]. clear N.
  inversion R as [|? ? Rv Rl]; subst. inversion P as [|? ? [Pk Pv] Pl]; subst. cbn [fst snd] in *.
  inversion U as [|? ? Uk Ul]; subst.
  destruct (Rv tv Pv Hv) as [Ot Rt]. set (t := json_string k ++ 58 :: tv) in *.
  assert (Open : forall r, opens (t ++ r)).
  { intros r. exists 34. eexists. split; [reflexivity|]. split; [reflexivity|]. lia. }
  assert (Key : forall fuel seen r, (2 * length t <= fuel)%nat -> stops r -> k ∉ seen ->
    read_members (Datatypes.S fuel) seen (t ++ r) =
    (let r := skip_space r in
     match expect 125 r with
     | Some r => Some ([(k, v)], r)
     | None => r ← expect 44 r; '(l, r) ← read_members fuel (k :: seen) (skip_space r); Some ((k, v) :: l, r)
     end)).
  { intros fuel seen r Fu Sr Ns. unfold t, json_string in Fu |- *. cbn [app length] in Fu |- *.
    rewrite read_members_S, expect_same. cbn [mbind option_bind]. rewrite <- !app_assoc. cbn [app].
    rewrite read_string_print by exact Pk. cbn [mbind option_bind].
    replace (skip_space (58 :: tv ++ r)) with (58 :: tv ++ r) by reflexivity. rewrite expect_same.
    cbn [mbind option_bind]. rewrite opens_skip by exact Ot. rewrite !length_app in Fu. cbn [length] in Fu.
    destruct fuel as [|fuel]; [lia|]. rewrite Rt by (lia || exact Sr). cbn [mbind option_bind].
    rewrite bool_decide_eq_false_2 by exact Ns. reflexivity. }
  destruct parts as [|t' parts].
  - inversion D; subst. cbn [join_comma]. split; [rewrite <- (app_nil_r t); apply Open|]. intros fuel seen r Fu Hs.
    rewrite Key; [|exact Fu|exact S2|apply Hs; left].
    cbv zeta. replace (skip_space (125 :: r)) with (125 :: r) by reflexivity. rewrite expect_same. reflexivity.
  - assert (Ol : l <> []) by (inversion D; discriminate). destruct (IH Rl Pl Ul Ol) as [O' R']. clear IH.
    change (join_comma (t :: t' :: parts)) with (t ++ 44 :: join_comma (t' :: parts)). split; [apply Open|].
    intros fuel seen r Fu Hs. rewrite <- app_assoc. cbn [app]. rewrite length_app in Fu. cbn [length] in Fu.
    rewrite Key; [|lia|exact S1|apply Hs; left]. cbv zeta.
    replace (skip_space (44 :: join_comma (t' :: parts) ++ 125 :: r)) with (44 :: join_comma (t' :: parts) ++ 125 :: r) by reflexivity.
    rewrite expect_other by lia. rewrite expect_same. cbn [mbind option_bind]. rewrite opens_skip by exact O'.
    destruct fuel as [|fuel]; [lia|]. rewrite R'; [reflexivity|lia|]. intros x Hx Hin.
    apply elem_of_cons in Hin as [->|Hin]; [exact (Uk Hx)|]. apply (Hs x); [right; exact Hx|exact Hin].
Qed.

Lemma read_word w r : after w (w ++ r) = Some r.
Proof. induction w as [|c w IH]; [reflexivity|]. cbn [app after]. rewrite expect_same. exact IH. Qed.

Lemma str_int_head n : exists c r, str_int n = c :: r /\ (c = 45 \/ digit_char c).
Proof.
  destruct (Z.ltb_spec n 0) as [L|L]; [rewrite str_int_neg by exact L; eauto|].
  destruct (str_int_nonneg n L) as (D & _ & [E|(d & t & E & _)]); rewrite E in D |- *; inversion D; subst; eauto.
Qed.

Lemma reads_all v : reads v.
Proof.
  induction v as [v Hv|l IH|l IH|items IH] using pyval_nested_ind; intros t P D.
  - destruct v as [|s|b|n| | | | | | | | | | | | |]; try contradiction P; try contradiction Hv.
    + assert (t = py "null") as -> by (symmetry; exact (f_equal (fun x => match x with Ok y => y | Err _ => t end) D)).
      split; [do 2 eexists; split; [reflexivity|]; split; [reflexivity|split; discriminate]|]. intros fuel r _ _.
      change (read_value (Datatypes.S fuel) (py "null" ++ r)) with
        (r ← after (py "null") (py "null" ++ r); Some (VNone, r)). rewrite read_word. reflexivity.
    + cbn in D. injection D as <-. split; [do 2 eexists; split; [reflexivity|]; split; [reflexivity|split; discriminate]|]. intros fuel r _ _.
      change (read_value (Datatypes.S fuel) (json_string s ++ r)) with
        ('(t, r) ← read_string (((s ≫= json_escape) ++ [34]) ++ r); Some (VStr t, r)).
      rewrite <- app_assoc. cbn [app]. rewrite read_string_print by exact P. reflexivity.
    + assert (t = if b then py "true" else py "false") as ->
        by (symmetry; exact (f_equal (fun x => match x with Ok y => y | Err _ => t end) D)).
      destruct b; (split; [do 2 eexists; split; [reflexivity|]; split; [reflexivity|split; discriminate]|]); intros fuel r _ _.
      * change (read_value (Datatypes.S fuel) (py "true" ++ r)) with
          (r ← after (py "true") (py "true" ++ r); Some (VBool true, r)). rewrite read_word. reflexivity.
      * change (read_value (Datatypes.S fuel) (py "false" ++ r)) with
          (r ← after (py "false") (py "false" ++ r); Some (VBool false, r)). rewrite read_word. reflexivity.
    + cbn in D. injection D as <-. destruct (str_int_head n) as (c & t' & E & C). split.
      * exists c, t'. split; [exact E|]. unfold json_space, digit_char in *.
        repeat (destruct (Z.eqb_spec _ _); cbn [orb]); lia.
      * intros fuel r _ S. rewrite <- (read_number_print n r S). rewrite E. cbn [app read_value].
        unfold digit_char in C. repeat match goal with |- context [if c =? ?k then _ else _] => destruct (Z.eqb_spec c k); [lia|] end. reflexivity.
  - apply plain_list in P. cbn in D. destruct (mapM_res id (map json_dumps l)) as [parts|] eqn:M; [|discriminate].
    injection D as <-. apply mapM_res_Forall2 in M. rewrite Forall2_fmap_l in M.
    split; [do 2 eexists; split; [reflexivity|]; split; [reflexivity|split; discriminate]|]. intros fuel r Fu S.
    cbn [app]. rewrite <- app_assoc. cbn [app]. cbn [length] in Fu. rewrite length_app in Fu. cbn [length] in Fu.
    change (read_value (Datatypes.S fuel) (91 :: join_comma parts ++ 93 :: r)) with
      (let rest := skip_space (join_comma parts ++ 93 :: r) in
       match expect 93 rest with
       | Some r => Some (VList [], r)
       | None => '(items, r) ← read_elements fuel rest; Some (VList items, r)
       end). cbv zeta.
    destruct l as [|v l]; [inversion M; subst; reflexivity|].
    destruct (read_elements_print (v :: l) parts IH P ltac:(discriminate) M) as [O R].
    rewrite opens_skip by exact O. rewrite opens_expect by auto. destruct fuel as [|[|fuel]]; [lia|lia|].
    rewrite R by lia. reflexivity.
  - contradiction P.
  - apply plain_dict in P as (So & U & P). cbn in D.
    rewrite sorted_merge in D by (rewrite <- list_fmap_compose; assumption).
    destruct (mapM_res json_member _) as [parts|] eqn:M; [|discriminate].
    injection D as <-. apply mapM_res_Forall2 in M. rewrite Forall2_fmap_l in M.
    split; [do 2 eexists; split; [reflexivity|]; split; [reflexivity|split; discriminate]|]. intros fuel r Fu S.
    cbn [app]. rewrite <- app_assoc. cbn [app]. cbn [length] in Fu. rewrite length_app in Fu. cbn [length] in Fu.
    change (read_value (Datatypes.S fuel) (123 :: join_comma parts ++ 125 :: r)) with
      (let rest := skip_space (join_comma parts ++ 125 :: r) in
       match expect 125 rest with
       | Some r => Some (VDict [], r)
       | None => '(items, r) ← read_members fuel [] rest; Some (VDict items, r)
       end). cbv zeta.
    destruct items as [|kv items]; [inversion M; subst; reflexivity|].
    destruct (read_members_print (kv :: items) parts IH P U ltac:(discriminate)) as [O R].
    { eapply Forall2_impl; [exact M|]. intros [k v] p E. unfold json_member in E. cbn in E.
      destruct (json_dumps v) as [tv|] eqn:Ev; [|discriminate]. injection E as <-. exists tv. split; [exact Ev|reflexivity]. }
    rewrite opens_skip by exact O. rewrite opens_expect by auto. destruct fuel as [|fuel]; [lia|].
    rewrite R; [reflexivity|lia|intros k _ H; inversion H].
Qed.

(** A plain value is what [json.loads] makes of the text [json.dumps] gives. *)
Lemma loads_dumps v t : plain v -> json_dumps v = Ok t -> loads t = Some v.
Proof.
  intros P D. destruct (reads_all v t P D) as [O R]. unfold loads.
  specialize (R (2 * length t + 1)%nat [] ltac:(lia) I). rewrite app_nil_r in R.
  rewrite <- (app_nil_r t) at 2. rewrite opens_skip by exact O. rewrite app_nil_r.
  replace (2 * length t + 2)%nat with (Datatypes.S (2 * length t + 1)) by lia. rewrite R. reflexivity.
Qed.
End values.

(** Keys in strict order, of characters: an object of plain values is one. *)
Fixpoint keys_ok (ks : list pystr) : bool :=
  match ks with
  | [] => true
  | k :: ks =>
      forallb (fun c => 0 <=? c) k && forallb (fun x => pystr_leb k x && negb (bool_decide (k = x))) ks && keys_ok ks
  end.

Lemma plain_object items :
  keys_ok items.*1 = true -> Forall (fun kv => plain kv.2) items -> plain (VDict items).
Proof.
  intros K P. apply plain_dict. induction P as [|[k v] l V P IH].
  - repeat split; constructor.
  - cbn [fmap list_fmap keys_ok fst] in *. apply andb_true_iff in K as [K K3]. apply andb_true_iff in K as [K1 K2].
    destruct (IH K3) as (S & N & Q). rewrite forallb_forall in K1, K2. split; [|split].
    + constructor; [exact S|]. apply Forall_forall. intros x Hx. apply list_elem_of_In, K2, andb_true_iff in Hx as [Hx _]. exact Hx.
    + constructor; [|exact N]. intros Hx. apply list_elem_of_In, K2, andb_true_iff in Hx as [_ Hx].
      rewrite bool_decide_eq_true_2 in Hx by reflexivity. discriminate.
    + constructor; [|exact Q]. split; [|exact V]. apply Forall_forall. intros c Hc. apply list_elem_of_In, K1 in Hc. lia.
Qed.

(** ** Objects read have distinct keys *)

Fixpoint distinct_keys (v : pyval) : Prop :=
  match v with
  | VList l => fold_right (fun x P => distinct_keys x /\ P) True l
  | VDict items => NoDup items.*1 /\ fold_right (fun kv P => distinct_keys kv.2 /\ P) True items
  | _ => True
  end.

Lemma distinct_list l : distinct_keys (VList l) <-> Forall distinct_keys l.
Proof.
  cbn [distinct_keys]. induction l as [|v l IH]; cbn [fold_right]; [split; [constructor|reflexivity]|].
  rewrite Forall_cons, IH. reflexivity.
Qed.

Lemma distinct_dict items : distinct_keys (VDict items) <-> NoDup items.*1 /\ Forall (fun kv => distinct_keys kv.2) items.
Proof.
  cbn [distinct_keys]. apply and_iff_compat_l. induction items as [|v l IH]; cbn [fold_right]; [split; [constructor|reflexivity]|].
  rewrite Forall_cons, IH. reflexivity.
Qed.

Section distinct.
Context {F : PyFloat}.

Lemma read_number_distinct s v r : read_number s = Some (v, r) -> distinct_keys v.
Proof.
  unfold read_number. intros H. destruct (match expect 45 s with Some r => _ | None => _ end) as [sign rest].
  apply bind_Some in H as ([whole rest'] & _ & H). destruct (read_fraction rest') as [fr rest''].
  destruct (read_exponent rest'') as [ex rest3]. destruct fr, ex; injection H as <- <-; exact I.
Qed.

Lemma read_distinct fuel :
  (forall s v r, read_value fuel s = Some (v, r) -> distinct_keys v) /\
  (forall s l r, read_elements fuel s = Some (l, r) -> Forall distinct_keys l) /\
  (forall seen s l r, read_members fuel seen s = Some (l, r) ->
     NoDup l.*1 /\ (forall k, k ∈ l.*1 -> k ∉ seen) /\ Forall (fun kv => distinct_keys kv.2) l).
Proof.
  induction fuel as [|fuel (V & E & M)]; [repeat split; intros; try discriminate|].
  split; [|split].
  - intros s v r H. destruct s as [|c rest]; [discriminate|]. cbn [read_value] in H.
    repeat match type of H with
    | (if ?b then _ else _) = _ => destruct b
    end.
    + apply bind_Some in H as ([t r'] & _ & H). injection H as <- <-. exact I.
    + cbn zeta in H. destruct (expect 125 _); [injection H as <- <-; split; constructor|].
      apply bind_Some in H as ([items r'] & H1 & H). injection H as <- <-.
      apply M in H1 as (N & _ & A). apply distinct_dict. auto.
    + cbn zeta in H. destruct (expect 93 _); [injection H as <- <-; exact I|].
      apply bind_Some in H as ([l r'] & H1 & H). injection H as <- <-. apply distinct_list. eapply E, H1.
    + apply bind_Some in H as (r' & _ & H). injection H as <- <-. exact I.
    + apply bind_Some in H as (r' & _ & H). injection H as <- <-. exact I.
    + apply bind_Some in H as (r' & _ & H). injection H as <- <-. exact I.
    + eapply read_number_distinct, H.
  - intros s l r H. rewrite read_elements_S in H. apply bind_Some in H as ([v r1] & H1 & H). apply V in H1. cbn zeta in H.
    destruct (expect 93 _); [injection H as <- <-; repeat constructor; assumption|].
    apply bind_Some in H as (r2 & _ & H). apply bind_Some in H as ([l' r3] & H2 & H). injection H as <- <-.
    constructor; [exact H1|eapply E, H2].
  - intros seen s l r H. rewrite read_members_S in H. apply bind_Some in H as (s1 & _ & H).
    apply bind_Some in H as ([k r1] & _ & H). apply bind_Some in H as (r2 & _ & H).
    apply bind_Some in H as ([v r3] & Hv & H). apply V in Hv. case_bool_decide as K; [discriminate|]. cbn zeta in H.
    destruct (expect 125 _).
    + injection H as <- <-. cbn. split; [apply NoDup_singleton|]. split; [|repeat constructor; exact Hv].
      intros k' Hk. apply list_elem_of_singleton in Hk as ->. exact K.
    + apply bind_Some in H as (r4 & _ & H). apply bind_Some in H as ([l' r5] & Hm & H). injection H as <- <-.
      apply M in Hm as (N & O & A). cbn. split; [|split; [|constructor; assumption]].
      * constructor; [|exact N]. intros Hk. apply O in Hk. apply Hk. left.
      * intros k' Hk. apply elem_of_cons in Hk as [->|Hk]; [exact K|]. intros Hs. apply (O k' Hk). right. exact Hs.
Qed.

Lemma loads_distinct s v : loads s = Some v -> distinct_keys v.
Proof.
  unfold loads. intros H. destruct (read_value _ _) as [[w r]|] eqn:R; [|discriminate].
  destruct (skip_space r); [|discriminate]. injection H as <-. eapply read_distinct, R.
Qed.
End distinct.
