(* ===== verification/Datasource.v ===== *)
(** * Datasource: the models of the catalog and their cryptography

    Models [datasource/models.py] and [datasource/crypto.py]: the checks of
    each frozen record, as the function its [__post_init__] is; the policy's
    freezing; unpadded URL-safe base64; the master key, the canonical text,
    its digest and its authentication, and the envelope of a secret.  What
    [ipaddress], [datetime], [str.lower], pydantic and the cryptography
    package do is the interface [DatasourceLib]. *)

From S2P Require Import Prelude.
From S2P Require Import Bytes.
From S2P Require Import Unicode.
From S2P Require Import Canonical.
From S2P Require Import Json.
From S2P Require Transformers.

Local Open Scope Z_scope.

Abbreviation PyLib := Transformers.PyLib.
Abbreviation hexdigest := Transformers.hexdigest.

(** The libraries' functions: [ip_address(text).compressed] when [text] is an
    address; whether an ISO timestamp is one, and then has a time zone;
    [str.lower]; [MaskingFileConfig.model_validate], dumped as JSON; the key
    derived by HKDF; AES-GCM; and the bytes drawn at a moment. *)
Class DatasourceLib := {
  compressed_address : pystr -> option pystr;
  timestamp_zone : pystr -> option bool;
  str_lower : pystr -> pystr;
  policy_model : pyval -> option pyval;
  hkdf : list byte -> list byte;
  aes_encrypt : list byte -> list byte -> list byte -> list byte -> list byte;
  aes_decrypt : list byte -> list byte -> list byte -> list byte -> option (list byte);
  token_bytes : nat -> nat -> list byte;
}.

(** Their documented behaviour: what is encrypted is decrypted by the same
    key, nonce and associated data, with a tag of sixteen bytes; a draw has
    the length asked for. *)
Class DatasourceLibLaws (D : DatasourceLib) : Prop := {
  decrypt_encrypt key nonce plaintext aad :
    aes_decrypt key nonce (aes_encrypt key nonce plaintext aad) aad = Some plaintext;
  encrypt_length key nonce plaintext aad :
    length (aes_encrypt key nonce plaintext aad) = (length plaintext + 16)%nat;
  token_length moment n : length (token_bytes moment n) = n;
}.

Definition DATASOURCE_ID_PREFIX : pystr := py "dso_".
Definition DATASOURCE_ID_HEX_LENGTH : nat := 32.
Definition MAX_HOST_LABEL : nat := 63.
Definition MAX_PORT : Z := 65535.
Definition NONCE_BYTES : nat := 12.
Definition GCM_TAG_BYTES : nat := 16.
Definition MIN_TIMEOUT_MS : Z := 100.
Definition MAX_TIMEOUT_MS : Z := 600000.
Definition MAX_ROWS : Z := 1000000.
Definition MAX_SESSIONS : Z := 1000.

(** [DatasourceValidationError] and its subclass [DatasourceIdError]: one
    error here, for nothing tells them apart. *)
Abbreviation checked := (res unit).

(** A condition whose failure is that error. *)
Definition require (b : bool) : checked unit := refuse_if (negb b) tt.

(** ** Texts *)

Definition control (c : Z) : bool := (0 <=? c) && (c <? 32) || (c =? 127).

(** [_safe_text]. *)
Definition safe_text (value : pystr) (max_length : nat) : bool :=
  bool_decide (value <> []) && (length value <=? max_length)%nat && bool_decide (strip value = value) &&
  negb (existsb control value).

Definition lower_hex (c : Z) : bool := (48 <=? c) && (c <=? 57) || (97 <=? c) && (c <=? 102).

(** [DATASOURCE_ID_PATTERN] and [ALIAS_PATTERN], matched whole. *)
Definition valid_datasource_id (value : pystr) : bool :=
  startswith DATASOURCE_ID_PREFIX value &&
  let hex := drop (length DATASOURCE_ID_PREFIX) value in
  (length hex =? DATASOURCE_ID_HEX_LENGTH)%nat && forallb lower_hex hex.

Definition lower_letter (c : Z) : bool := (97 <=? c) && (c <=? 122).
Definition alias_letter (c : Z) : bool := lower_letter c || (48 <=? c) && (c <=? 57) || (c =? 95) || (c =? 45).

Definition valid_alias (value : pystr) : bool :=
  match value with
  | c :: rest => lower_letter c && forallb alias_letter rest && (length rest <=? 62)%nat
  | [] => false
  end.

Definition host_letter (c : Z) : bool :=
  lower_letter c || (65 <=? c) && (c <=? 90) || (48 <=? c) && (c <=? 57) || (c =? 45).

(** [s.rstrip(".")] and [s.split(".")]. *)
Fixpoint skip_dots (s : pystr) : pystr :=
  match s with c :: rest => if c =? 46 then skip_dots rest else s | [] => [] end.

Definition rstrip_dots (s : pystr) : pystr := rev (skip_dots (rev s)).

Fixpoint split_dots (s : pystr) : list pystr :=
  match s with
  | [] => [[]]
  | c :: rest =>
      if c =? 46 then [] :: split_dots rest
      else match split_dots rest with
           | label :: more => (c :: label) :: more
           | [] => [[c]]
           end
  end.

(** [CryptoValidationError]; a text with half a surrogate pair, which
    [str.encode] refuses; or [compare_digest] refusing a text that is not
    ASCII. *)
Inductive crypto_exn := CryptoValidationError | UnicodeEncodeError | CompareTypeError.

Abbreviation crypto := (res crypto_exn).

Section models.
Context {F : PyFloat} {D : DatasourceLib}.

Definition valid_host (host : pystr) : bool :=
  safe_text host 253 &&
  negb (contains (py "/") host || contains (py "@") host || contains (py "://") host || contains (py "\") host) &&
  match compressed_address host with
  | Some _ => true
  | None =>
      (contains (py ".") host || contains (py ":") host) &&
      let labels := split_dots (rstrip_dots host) in
      forallb (fun l => bool_decide (l <> []) && (length l <=? MAX_HOST_LABEL)%nat) labels &&
      forallb (forallb host_letter) labels
  end.

(** [validate_resolved_address]. *)
Definition validate_resolved_address (value : pystr) : checked pystr :=
  match compressed_address value with Some a => Ok a | None => Err tt end.

(** [new_datasource_id], of sixteen bytes drawn. *)
Definition new_datasource_id (moment : nat) : pystr :=
  DATASOURCE_ID_PREFIX ++ hexdigest (token_bytes moment (DATASOURCE_ID_HEX_LENGTH / 2)).

(** ** Records *)

Record EncryptedSecret := { nonce : list byte; ciphertext : list byte }.

(** [EncryptedSecret.__post_init__]; algorithm and version are the two
    constants. *)
Definition encrypted_secret (nonce ciphertext : list byte) : checked EncryptedSecret :=
  require ((length nonce =? NONCE_BYTES)%nat && (GCM_TAG_BYTES <=? length ciphertext)%nat);;
  Ok {| nonce := nonce; ciphertext := ciphertext |}.

Record TlsSettings := { mode : pystr; server_name : option pystr }.

Definition tls_settings (t : TlsSettings) : checked TlsSettings :=
  require (bool_decide (mode t ∈ [py "disable"; py "require"; py "verify-full"]));;
  require (match server_name t with None => true | Some host => valid_host host end);;
  Ok t.

Record DatasourceLimits := { statement_timeout_ms : Z; max_rows : Z; max_sessions : Z }.

Definition datasource_limits (l : DatasourceLimits) : checked DatasourceLimits :=
  require ((MIN_TIMEOUT_MS <=? statement_timeout_ms l) && (statement_timeout_ms l <=? MAX_TIMEOUT_MS));;
  require ((1 <=? max_rows l) && (max_rows l <=? MAX_ROWS));;
  require ((1 <=? max_sessions l) && (max_sessions l <=? MAX_SESSIONS));;
  Ok l.

Record DestinationPolicy := { allow_public : bool; allow_loopback : bool; allowed_hosts : list pystr }.

Definition destination_policy_ (p : DestinationPolicy) : checked DestinationPolicy :=
  require (bool_decide (map str_lower (allowed_hosts p) = allowed_hosts p) &&
           bool_decide (NoDup (allowed_hosts p)));;
  require (forallb valid_host (allowed_hosts p));;
  Ok p.

Record LastTest := { status : pystr; checked_at : option pystr }.

(** [text.replace("Z", "+00:00")]. *)
Definition utc_offset (text : pystr) : pystr := text ≫= fun c => if c =? 90 then py "+00:00" else [c].

Definition last_test_ (t : LastTest) : checked LastTest :=
  require (bool_decide (status t ∈ [py "never"; py "passed"; py "failed"]));;
  require (match checked_at t with
           | None => true
           | Some text => match timestamp_zone (utc_offset text) with Some zone => zone | None => false end
           end);;
  Ok t.

(** [LastTest()]. *)
Definition never_tested : LastTest := {| status := py "never"; checked_at := None |}.

(** [freeze_json]: dicts by key order, lists as tuples; [None] for a value
    that is not JSON.  [thaw_json] is the way back. *)
Fixpoint freeze_json (v : pyval) : option pyval :=
  match v with
  | VNone | VBool _ | VInt _ | VFloat _ | VStr _ => Some v
  | VList l | VTuple l => VTuple <$> mapM id (map freeze_json l)
  | VDict items =>
      frozen ← mapM (fun kv => pair kv.1 <$> kv.2) (map (fun kv => (kv.1, freeze_json kv.2)) items);
      Some (VDict (merge_sort key_le frozen))
  | _ => None
  end.

Fixpoint thaw_json (v : pyval) : pyval :=
  match v with
  | VTuple l => VList (map thaw_json l)
  | VDict items => VDict (map (fun kv => (kv.1, thaw_json kv.2)) items)
  | _ => v
  end.

(** [DatasourcePolicy], by its frozen value. *)
Record DatasourcePolicy := { policy_value : pyval }.

Definition policy_from_mapping (raw : pyval) : checked DatasourcePolicy :=
  match policy_model raw with
  | None => Err tt
  | Some dumped =>
      match freeze_json dumped with
      | Some (VDict items) => Ok {| policy_value := VDict items |}
      | _ => Err tt
      end
  end.

Definition policy_to_mapping (p : DatasourcePolicy) : pyval := thaw_json (policy_value p).

Record DatasourceDraft := {
  d_alias : pystr;
  d_display_name : pystr;
  d_host : pystr;
  d_port : Z;
  d_database : pystr;
  d_username : pystr;
  d_enabled : bool;
  d_tls : TlsSettings;
  d_policy : DatasourcePolicy;
  d_limits : DatasourceLimits;
  d_destination_policy : DestinationPolicy;
  d_resolved_addresses : list pystr;
}.

(** [DatasourceDraft.__post_init__]. *)
Definition datasource_draft (d : DatasourceDraft) : checked DatasourceDraft :=
  require (valid_alias (d_alias d));;
  require (safe_text (d_display_name d) 128);;
  require (valid_host (d_host d));;
  require ((1 <=? d_port d) && (d_port d <=? MAX_PORT));;
  require (safe_text (d_database d) 63);;
  require (safe_text (d_username d) 63);;
  require (bool_decide (NoDup (d_resolved_addresses d)));;
  mapM_res validate_resolved_address (d_resolved_addresses d);;
  Ok d.

Record DatasourceRecord := {
  id_ : pystr;
  draft : DatasourceDraft;
  revision : Z;
  last_test : LastTest;
  upstream_secret : EncryptedSecret;
}.

(** [DatasourceRecord.__post_init__]; the draft's fields are the record's. *)
Definition datasource_record (r : DatasourceRecord) : checked DatasourceRecord :=
  require (valid_datasource_id (id_ r));;
  datasource_draft (draft r);;
  require (1 <=? revision r);;
  Ok r.

(** ** Base64 *)

Definition to_urlsafe (c : Z) : Z := if c =? 43 then 45 else if c =? 47 then 95 else c.
Definition of_urlsafe (c : Z) : Z := if c =? 45 then 43 else if c =? 95 then 47 else c.

Fixpoint strip_pads (rs : pystr) : pystr :=
  match rs with c :: rest => if c =? 61 then strip_pads rest else rs | [] => [] end.

(** [encode_b64]. *)
Definition encode_b64 (value : list byte) : pystr :=
  map to_urlsafe (rev (strip_pads (rev (b64encode value)))).

Definition b64_url_letter (c : Z) : bool :=
  lower_letter c || (65 <=? c) && (c <=? 90) || (48 <=? c) && (c <=? 57) || (c =? 45) || (c =? 95).

(** [decode_b64]; the letters are checked before the decoder sees them. *)
Definition decode_b64 (value : pystr) : checked (list byte) :=
  require (bool_decide (value <> []) && negb (existsb control value));;
  require (forallb b64_url_letter value);;
  let padding := replicate (Z.to_nat ((- Z.of_nat (length value)) mod 4)) 61 in
  match b64decode (map of_urlsafe value ++ padding) with Some bs => Ok bs | None => Err tt end.

(** ** Cryptography *)

Definition CATALOG_FORMAT : Z := 1.
Definition CATALOG_SCHEMA_VERSION : Z := 1.
Definition SECRET_FIELD : pystr := py "upstream_secret".
Definition KEY_BYTES : nat := 32.

Definition hex_letter (c : Z) : bool := bool_decide (hex_value c <> None).

(** [bytes.fromhex] of hexadecimal digits. *)
Fixpoint fromhex (s : pystr) : option (list byte) :=
  match s with
  | [] => Some []
  | a :: b :: rest =>
      x ← hex_value a; y ← hex_value b; more ← fromhex rest; Some (z2b (x * 16 + y) :: more)
  | _ => None
  end.

(** [validate_master_key] of bytes, of a text, or of nothing. *)
Definition validate_master_key (value : pyval) : crypto (list byte) :=
  candidate ← match value with
              | VBytes b => Ok b
              | VStr s =>
                  refuse_if (negb ((length s =? 2 * KEY_BYTES)%nat && forallb hex_letter s)) CryptoValidationError;;
                  match fromhex s with Some b => Ok b | None => Err CryptoValidationError end
              | _ => Err CryptoValidationError
              end;
  refuse_if (negb (length candidate =? KEY_BYTES)%nat) CryptoValidationError;;
  Ok candidate.

Definition canonical_json (value : pyval) : crypto (list byte) :=
  match json_dumps value with
  | Err _ => Err CryptoValidationError
  | Ok text => match utf8_encode text with Some bs => Ok bs | None => Err UnicodeEncodeError end
  end.

Section crypto.
Context {L : PyLib}.

Definition catalog_digest (payload : pyval) : crypto pystr :=
  text ← canonical_json payload; Ok (hexdigest (Transformers.digest Transformers.SHA256 text)).

Definition auth_key (master_key : list byte) : crypto (list byte) :=
  key ← validate_master_key (VBytes master_key); Ok (hkdf key).

Definition catalog_auth_tag (payload : pyval) (master_key : list byte) : crypto pystr :=
  key ← auth_key master_key;
  text ← canonical_json payload;
  Ok (hexdigest (Transformers.hmac_digest key text)).

(** [hmac.compare_digest] of a text against an ASCII one. *)
Definition compare_digest (expected actual : pystr) : crypto bool :=
  if forallb (fun c => (0 <=? c) && (c <? 128)) actual then Ok (bool_decide (expected = actual))
  else Err CompareTypeError.

Definition verify_catalog_auth (payload tag : pyval) (master_key : list byte) : crypto unit :=
  match tag with
  | VStr t =>
      refuse_if (negb (length t =? 64)%nat) CryptoValidationError;;
      expected ← catalog_auth_tag payload master_key;
      same ← compare_digest expected t;
      refuse_if (negb same) CryptoValidationError
  | _ => Err CryptoValidationError
  end.
End crypto.

(** [_aad]. *)
Definition aad (datasource_id : pystr) (schema_version revision : Z) : crypto (list byte) :=
  canonical_json (VDict [(py "datasource_id", VStr datasource_id); (py "field", VStr SECRET_FIELD);
                         (py "revision", VInt revision); (py "schema_version", VInt schema_version)]).

(** What [seal_secret] and [open_secret] raise but [CryptoValidationError] is
    a [ValueError] too, which they turn into it. *)
Definition as_crypto {A} (m : crypto A) : crypto A :=
  match m with Ok x => Ok x | Err _ => Err CryptoValidationError end.

(** [seal_secret], with the nonce drawn at [moment]. *)
Definition seal_secret (moment : nat) (plaintext : pystr) (master_key : list byte) (datasource_id : pystr)
    (schema_version revision : Z) : crypto EncryptedSecret :=
  refuse_if (bool_decide (plaintext = [])) CryptoValidationError;;
  key ← validate_master_key (VBytes master_key);
  let nonce := token_bytes moment NONCE_BYTES in
  text ← match utf8_encode plaintext with Some t => Ok t | None => Err CryptoValidationError end;
  a ← as_crypto (aad datasource_id schema_version revision);
  match encrypted_secret nonce (aes_encrypt key nonce text a) with
  | Ok e => Ok e
  | Err _ => Err CryptoValidationError
  end.

Definition open_secret (e : EncryptedSecret) (master_key : list byte) (datasource_id : pystr)
    (schema_version revision : Z) : crypto pystr :=
  key ← validate_master_key (VBytes master_key);
  a ← as_crypto (aad datasource_id schema_version revision);
  match aes_decrypt key (nonce e) (ciphertext e) a with
  | None => Err CryptoValidationError
  | Some bytes =>
      match utf8_decode bytes with
      | None | Some [] => Err CryptoValidationError
      | Some text => Ok text
      end
  end.

(** [envelope_to_json]. *)
Definition envelope_to_json (e : EncryptedSecret) : pyval :=
  VDict [(py "algorithm", VStr (py "AES-256-GCM")); (py "ciphertext", VStr (encode_b64 (ciphertext e)));
         (py "nonce", VStr (encode_b64 (nonce e))); (py "version", VInt 1)].
End models.
