(* ===== verification/Destination.v ===== *)
(** * Destination: where a datasource may be reached

    Models [datasource/destination.py]: the canonical addresses of a host, the
    refusal of addresses a datasource must not be reached at, and the pinning
    of the ones it was accepted with.  The resolver is a parameter; what
    [ipaddress] tells of an address is the interface [AddressLib]. *)

From S2P Require Import Prelude.
From S2P Require Import Canonical.
From S2P Require Import Json.
From S2P Require Import Datasource.

Local Open Scope Z_scope.

(** What an [IPv4Address] or [IPv6Address] answers. *)
Record Ip := {
  compressed : pystr;
  is_loopback : bool;
  is_unspecified : bool;
  is_link_local : bool;
  is_multicast : bool;
  is_private : bool;
  is_global : bool;
}.

(** [ip_address(text)]: the address, and its [ipv4_mapped] if it is an IPv6
    address that has one; [None] is its [ValueError]. *)
Class AddressLib := { ip_address : pystr -> option (Ip * option Ip) }.

(** [DatasourceValidationError] of the host, [DestinationValidationError],
    [DestinationChangedError], and the [ValueError] of an address that is read
    a second time. *)
Inductive destination_exn :=
| InvalidHost
| DestinationValidationError
| DestinationChangedError
| InvalidAddress.

Abbreviation destination := (res destination_exn).

Definition METADATA_ADDRESSES : list pystr := map py ["100.100.100.200"; "169.254.169.254"; "169.254.170.2"]%string.

(** A resolver's answer for a host and a port; [None] is its exception, a
    [DestinationValidationError]. *)
Abbreviation Resolver := (pystr -> Z -> option (list pystr)).

Record ResolvedDestination := { r_host : pystr; r_port : Z; r_addresses : list pystr }.

Section destination.
Context {D : DatasourceLib} {A : AddressLib}.

(** The address, or the IPv4 one it maps. *)
Definition effective_address (text : pystr) : option Ip :=
  '(address, mapped) ← ip_address text;
  Some (match mapped with Some ip => ip | None => address end).

(** [tuple(sorted(set))]. *)
Definition sorted_set (l : list pystr) : list pystr := py_sorted (elements (list_to_set l : gset pystr)).

(** [_canonical_addresses]. *)
Definition canonical_addresses (addresses : list pystr) : destination (list pystr) :=
  normalized ← mapM_res (fun raw => match effective_address raw with
                                    | Some ip => Ok (compressed ip)
                                    | None => Err DestinationValidationError
                                    end) addresses;
  refuse_if (bool_decide (normalized = [])) DestinationValidationError;;
  Ok (sorted_set normalized).

(** [_validate_address]. *)
Definition validate_address (address_text host : pystr) (policy : DestinationPolicy) : destination unit :=
  match effective_address address_text with
  | None => Err InvalidAddress
  | Some address =>
      refuse_if (bool_decide (compressed address ∈ METADATA_ADDRESSES)) DestinationValidationError;;
      if is_loopback address then refuse_if (negb (allow_loopback policy)) DestinationValidationError
      else
        refuse_if (is_unspecified address || is_link_local address || is_multicast address) DestinationValidationError;;
        if is_private address then Ok tt
        else
          refuse_if (negb (is_global address)) DestinationValidationError;;
          refuse_if (negb (allow_public policy) || negb (bool_decide (str_lower host ∈ allowed_hosts policy)))
            DestinationValidationError
  end.

(** [resolve_destination]; every caller gives the policy. *)
Definition resolve_destination (host : pystr) (port : Z) (policy : DestinationPolicy) (resolver : Resolver)
    (expected_addresses : option (list pystr)) : destination ResolvedDestination :=
  refuse_if (negb (valid_host host)) InvalidHost;;
  refuse_if (negb ((1 <=? port) && (port <=? MAX_PORT))) DestinationValidationError;;
  answer ← match resolver host port with Some l => Ok l | None => Err DestinationValidationError end;
  resolved ← canonical_addresses answer;
  mapM_res (fun address => validate_address address host policy) resolved;;
  match expected_addresses with
  | None => Ok tt
  | Some l =>
      match canonical_addresses l with
      | Err _ => Err DestinationChangedError
      | Ok expected => refuse_if (negb (bool_decide (resolved = expected))) DestinationChangedError
      end
  end;;
  Ok {| r_host := host; r_port := port; r_addresses := resolved |}.

(** ** The addresses that are accepted *)

(** What a policy allows a datasource of this host to be reached at. *)
Definition address_allowed (policy : DestinationPolicy) (host : pystr) (ip : Ip) : Prop :=
  (compressed ip ∉ METADATA_ADDRESSES) /\
  (is_loopback ip = true -> allow_loopback policy = true) /\
  (is_loopback ip = false ->
     is_unspecified ip = false /\ is_link_local ip = false /\ is_multicast ip = false /\
     (is_private ip = false ->
        is_global ip = true /\ allow_public policy = true /\ str_lower host ∈ allowed_hosts policy)).

Lemma validate_address_Ok text host policy u : validate_address text host policy = Ok u <->
  exists ip, effective_address text = Some ip /\ address_allowed policy host ip.
Proof.
  destruct u. unfold validate_address, address_allowed. destruct (effective_address text) as [ip|]; [|split; [discriminate|intros (? & [=] & _)]].
  transitivity (bool_decide (compressed ip ∈ METADATA_ADDRESSES) = false /\
    (if is_loopback ip then allow_loopback policy = true
     else is_unspecified ip = false /\ is_link_local ip = false /\ is_multicast ip = false /\
       (if is_private ip then True else is_global ip = true /\ allow_public policy = true /\ str_lower host ∈ allowed_hosts policy))).
  - rewrite bind_Ok. setoid_rewrite refuse_if_Ok. split.
    + intros (? & Me & H). split; [exact Me|]. destruct (is_loopback ip); [apply refuse_if_Ok, negb_false_iff in H; exact H|].
      apply bind_Ok in H as (? & H1 & H). apply refuse_if_Ok in H1. apply orb_false_iff in H1 as [H1 H3].
      apply orb_false_iff in H1 as [H1 H2]. repeat (split; [assumption|]). destruct (is_private ip); [exact I|].
      apply bind_Ok in H as (? & G & H). apply refuse_if_Ok, negb_false_iff in G. apply refuse_if_Ok, orb_false_iff in H as [P H].
      apply negb_false_iff in P, H. apply bool_decide_eq_true in H. auto.
    + intros [Me H]. exists tt. split; [exact Me|]. destruct (is_loopback ip); [rewrite H; reflexivity|].
      destruct H as (-> & -> & -> & H). destruct (is_private ip); [reflexivity|]. destruct H as (-> & -> & H).
      rewrite bool_decide_eq_true_2 by exact H. reflexivity.
  - rewrite bool_decide_eq_false. split.
    + intros [Me H]. exists ip. split; [reflexivity|]. split; [exact Me|]. destruct (is_loopback ip).
      * split; [intros _; exact H|discriminate].
      * split; [discriminate|]. intros _. destruct H as (-> & -> & -> & H). repeat (split; [reflexivity|]).
        destruct (is_private ip); [discriminate|]. intros _. exact H.
    + intros (? & [= <-] & Me & Lo & H). split; [exact Me|]. destruct (is_loopback ip); [apply Lo; reflexivity|].
      destruct (H eq_refl) as (-> & -> & -> & H'). repeat (split; [reflexivity|]). destruct (is_private ip); [exact I|].
      apply H'. reflexivity.
Qed.

Lemma sorted_set_elem l x : x ∈ sorted_set l <-> x ∈ l.
Proof.
  unfold sorted_set, py_sorted. rewrite merge_sort_Permutation, elem_of_elements, elem_of_list_to_set. reflexivity.
Qed.

Lemma sorted_set_NoDup l : NoDup (sorted_set l).
Proof. unfold sorted_set, py_sorted. rewrite merge_sort_Permutation. apply NoDup_elements. Qed.

Lemma canonical_addresses_Ok l k : canonical_addresses l = Ok k ->
  k <> [] /\ NoDup k /\ StronglySorted pystr_le k /\
  forall x, x ∈ k <-> exists raw ip, raw ∈ l /\ effective_address raw = Some ip /\ compressed ip = x.
Proof.
  unfold canonical_addresses. intros H. apply bind_Ok in H as (n & N & H). apply bind_Ok in H as (u & E & H).
  apply refuse_if_Ok, bool_decide_eq_false in E. injection H as <-. split; [|split; [|split]].
  - intros Z0. destruct n as [|y n]; [contradiction|]. assert (X : y ∈ sorted_set (y :: n)) by (apply sorted_set_elem; left).
    rewrite Z0 in X. inversion X.
  - apply sorted_set_NoDup.
  - apply StronglySorted_merge_sort; apply _.
  - intros x. rewrite sorted_set_elem. apply mapM_res_Forall2 in N. clear E. induction N as [|raw y l n Hy _ IH].
    + split; [intros X; inversion X|intros (raw & _ & X & _); inversion X].
    + destruct (effective_address raw) as [ip|] eqn:Ef; [|discriminate]. injection Hy as <-. rewrite elem_of_cons, IH. split.
      * intros [->|(r & i & Hr & Hi & Hx)]; [exists raw, ip; split; [left|auto]|exists r, i; split; [right; exact Hr|auto]].
      * intros (r & i & Hr & Hi & Hx). apply elem_of_cons in Hr as [->|Hr]; [left; congruence|right; eauto].
Qed.

Lemma resolve_destination_Ok host port policy resolver expected r :
  resolve_destination host port policy resolver expected = Ok r ->
  valid_host host = true /\ r_host r = host /\ r_port r = port /\ 1 <= port <= MAX_PORT /\
  exists answer, resolver host port = Some answer /\ canonical_addresses answer = Ok (r_addresses r) /\
  Forall (fun text => exists ip, effective_address text = Some ip /\ address_allowed policy host ip) (r_addresses r) /\
  match expected with None => True | Some l => canonical_addresses l = Ok (r_addresses r) end.
Proof.
  unfold resolve_destination. intros H. apply bind_Ok in H as (? & V & H). apply refuse_if_Ok, negb_false_iff in V.
  apply bind_Ok in H as (? & P & H). apply refuse_if_Ok, negb_false_iff, andb_true_iff in P as [P1 P2].
  apply bind_Ok in H as (answer & An & H). apply bind_Ok in H as (k & K & H). apply bind_Ok in H as (us & Va & H).
  apply bind_Ok in H as (? & Ex & H). injection H as <-. cbn. split; [exact V|]. split; [reflexivity|]. split; [reflexivity|].
  split; [lia|]. exists answer. split; [destruct (resolver host port); congruence|]. split; [exact K|]. split.
  - apply mapM_res_Forall2 in Va. clear - Va. induction Va as [|text u k us Hu _ IH]; constructor; [|exact IH].
    apply validate_address_Ok in Hu. exact Hu.
  - destruct expected as [l|]; [|exact I]. destruct (canonical_addresses l) as [e|]; [|discriminate].
    apply refuse_if_Ok, negb_false_iff, bool_decide_eq_true in Ex. congruence.
Qed.
End destination.

(** C40: a datasource is only reached where its policy allows: when
    [resolve_destination] accepts, the host is valid, at least one address was
    found, and every address returned - an IPv4 address for an IPv6 one that
    maps it - is no cloud metadata address, is a loopback only if the policy
    allows it, is not unspecified, link-local or multicast otherwise, and is
    public only if the policy allows public addresses and names the host; and
    if it was pinned, the addresses are those it was pinned with, canonical,
    sorted and each once. *)
Theorem destination_confined {D : DatasourceLib} {A : AddressLib} host port policy resolver expected r :
  resolve_destination host port policy resolver expected = Ok r ->
  valid_host host = true /\ 1 <= r_port r <= MAX_PORT /\ r_addresses r <> [] /\
  NoDup (r_addresses r) /\ StronglySorted pystr_le (r_addresses r) /\
  Forall (fun text => exists ip, effective_address text = Some ip /\ address_allowed policy host ip) (r_addresses r) /\
  match expected with None => True | Some l => canonical_addresses l = Ok (r_addresses r) end.
Proof.
  intros H. destruct (resolve_destination_Ok _ _ _ _ _ _ H) as (V & _ & P & B & answer & _ & C & F & E).
  destruct (canonical_addresses_Ok _ _ C) as (N & Nd & S & _). rewrite P. auto 10.
Qed.

(** ** A concrete library *)

#[local] Instance toy_addresses : AddressLib :=
  { ip_address text :=
      if bool_decide (text = py "::ffff:10.0.0.7") then
        Some ({| compressed := text; is_loopback := false; is_unspecified := false; is_link_local := false;
                 is_multicast := false; is_private := false; is_global := true |},
              Some {| compressed := py "10.0.0.7"; is_loopback := false; is_unspecified := false; is_link_local := false;
                      is_multicast := false; is_private := true; is_global := false |})
      else
        Some ({| compressed := text; is_loopback := startswith (py "127.") text; is_unspecified := false;
                 is_link_local := startswith (py "169.254.") text; is_multicast := false;
                 is_private := startswith (py "10.") text; is_global := negb (startswith (py "10.") text) |}, None) }.

#[local] Instance toy_models : DatasourceLib :=
  {| compressed_address text := None; timestamp_zone text := None; str_lower text := text; policy_model v := None;
     hkdf key := key; aes_encrypt key nonce plaintext aad := plaintext; aes_decrypt key nonce ciphertext aad := None;
     token_bytes moment n := [] |}.

Definition inside : DestinationPolicy := {| allow_public := false; allow_loopback := false; allowed_hosts := [] |}.

Lemma destination_confined_witness :
  exists r, resolve_destination (py "db.example.com") 5432 inside (fun _ _ => Some [py "10.0.0.9"; py "::ffff:10.0.0.7"])
              (Some [py "10.0.0.7"; py "10.0.0.9"]) = Ok r /\
    r_addresses r = [py "10.0.0.7"; py "10.0.0.9"] /\
    Forall (fun text => exists ip, effective_address text = Some ip /\ address_allowed inside (py "db.example.com") ip) (r_addresses r).
Proof.
  eexists. split; [vm_compute; reflexivity|]. split; [vm_compute; reflexivity|].
  eapply (destination_confined (py "db.example.com") 5432 inside (fun _ _ => Some [py "10.0.0.9"; py "::ffff:10.0.0.7"])
    (Some [py "10.0.0.7"; py "10.0.0.9"])).
  vm_compute. reflexivity.
Defined.

(** The cloud's metadata service is refused. *)
Example metadata_refused :
  resolve_destination (py "db.example.com") 5432 inside (fun _ _ => Some [py "169.254.169.254"]) None =
  Err DestinationValidationError.
Proof. vm_compute. reflexivity. Qed.
