(* ===== verification/CatalogFormat.v ===== *)
(** * CatalogFormat: the documents of the datasource store

    Models the first half of [datasource/store.py]: the errors, the catalog's
    document with its authentication tag, the anchor and the journal, each
    with its printer and its parser.  A JSON object is the list of its
    members, whose keys differ. *)

From S2P Require Import Prelude.
From S2P Require Import Bytes.
From S2P Require Import Unicode.
From S2P Require Import Canonical.
From S2P Require Import Json.
From S2P Require Import Datasource.
From S2P Require Import Destination.

Local Open Scope Z_scope.

(** The exceptions of the store, those of the models and the cryptography
    that leave it as they are, and those of the operating system. *)
Inductive catalog_exn :=
| CatalogStoreError
| CatalogCorruptError
| CatalogAnchorError
| CatalogKeyError
| MasterKeyError
| CatalogWriteError
| CatalogOutcomeUncertainError
| CatalogRotationPendingError
| CatalogAlreadyExistsError
| FilesystemPolicyError
| CatalogRevisionConflictError
| DatasourceValidationError
| OSError
| DestinationFailure (e : destination_exn)
| Leaked (e : crypto_exn)
| Interrupted.

Abbreviation catalog := (res catalog_exn).

Definition leak {A} (m : crypto A) : catalog A := match m with Ok x => Ok x | Err e => Err (Leaked e) end.

(** [except ValueError]: all but the comparison's [TypeError]. *)
Definition value_error {A} (m : crypto A) (e : catalog_exn) : catalog A :=
  match m with Ok x => Ok x | Err CompareTypeError => Err (Leaked CompareTypeError) | Err _ => Err e end.

Definition corrupt_unless (b : bool) : catalog unit := refuse_if (negb b) CatalogCorruptError.

(** ** Reading members *)

Definition member (k : pystr) (items : list (pystr * pyval)) : pyval :=
  match list_find (fun kv => kv.1 = k) items with Some (_, kv) => kv.2 | None => VNone end.

Definition same_keys (items : list (pystr * pyval)) (expected : list pystr) : bool :=
  bool_decide (list_to_set items.*1 =@{gset pystr} list_to_set expected).

Definition require_mapping (v : pyval) : catalog (list (pystr * pyval)) :=
  match v with VDict items => Ok items | _ => Err CatalogCorruptError end.

Definition require_keys (items : list (pystr * pyval)) (expected : list pystr) : catalog unit :=
  corrupt_unless (same_keys items expected).

Definition require_int (v : pyval) (minimum : Z) : catalog Z :=
  match v with VInt n => corrupt_unless (minimum <=? n);; Ok n | _ => Err CatalogCorruptError end.

Definition require_bool (v : pyval) : catalog bool :=
  match v with VBool b => Ok b | _ => Err CatalogCorruptError end.

Definition require_str (v : pyval) : catalog pystr :=
  match v with VStr s => Ok s | _ => Err CatalogCorruptError end.

Definition require_str_tuple (v : pyval) : catalog (list pystr) :=
  match v with VList l => mapM_res require_str l | _ => Err CatalogCorruptError end.

(** A member that is [None] or a text; a text. *)
Definition optional_str (v : pyval) : catalog (option pystr) :=
  match v with VNone => Ok None | VStr s => Ok (Some s) | _ => Err CatalogCorruptError end.

(** [v == 1], which [True] and [1.0] are too. *)
Definition equals_one (v : pyval) : bool :=
  match v with VInt n => n =? 1 | VBool b => b | VFloat r => bool_decide (r = py "1.0") | _ => false end.

Definition is_text (v : pyval) (s : pystr) : bool :=
  match v with VStr t => bool_decide (t = s) | _ => false end.

Definition HEX_LENGTH : nat := 64.

(** [_fixed_hex]. *)
Definition fixed_hex (s : pystr) : bool := (length s =? HEX_LENGTH)%nat && forallb lower_hex s.

Definition hex_text (v : pyval) : option pystr :=
  match v with VStr s => if fixed_hex s then Some s else None | _ => None end.

(** A model's check, inside the [try] of [_parse_record]. *)
Definition of_model {A} (m : checked A) : catalog A :=
  match m with Ok x => Ok x | Err _ => Err CatalogCorruptError end.

(** ** Records *)

Definition ids (records : list DatasourceRecord) : list pystr := map id_ records.
Definition aliases (records : list DatasourceRecord) : list pystr := map (fun r => d_alias (draft r)) records.

Definition id_le (a b : DatasourceRecord) : Prop := pystr_le (id_ a) (id_ b).

#[export] Instance id_le_dec : RelDecision id_le.
Proof. intros a b. unfold id_le. apply _. Defined.

Definition optional_json (v : option pystr) : pyval := match v with Some s => VStr s | None => VNone end.

(** [_record_to_json]. *)
Definition record_to_json (r : DatasourceRecord) : pyval :=
  let d := draft r in
  VDict
    [(py "alias", VStr (d_alias d));
     (py "database", VStr (d_database d));
     (py "destination_policy", VDict
        [(py "allow_loopback", VBool (allow_loopback (d_destination_policy d)));
         (py "allow_public", VBool (allow_public (d_destination_policy d)));
         (py "allowed_hosts", VList (map VStr (allowed_hosts (d_destination_policy d))))]);
     (py "display_name", VStr (d_display_name d));
     (py "enabled", VBool (d_enabled d));
     (py "host", VStr (d_host d));
     (py "id", VStr (id_ r));
     (py "last_test", VDict
        [(py "checked_at", optional_json (checked_at (last_test r)));
         (py "status", VStr (status (last_test r)))]);
     (py "limits", VDict
        [(py "max_rows", VInt (max_rows (d_limits d)));
         (py "max_sessions", VInt (max_sessions (d_limits d)));
         (py "statement_timeout_ms", VInt (statement_timeout_ms (d_limits d)))]);
     (py "policy", policy_to_mapping (d_policy d));
     (py "port", VInt (d_port d));
     (py "resolved_addresses", VList (map VStr (d_resolved_addresses d)));
     (py "revision", VInt (revision r));
     (py "tls", VDict
        [(py "mode", VStr (mode (d_tls d))); (py "server_name", optional_json (server_name (d_tls d)))]);
     (py "upstream_secret", envelope_to_json (upstream_secret r));
     (py "username", VStr (d_username d))].

(** [_parse_envelope]. *)
Definition parse_envelope (v : pyval) : catalog EncryptedSecret :=
  raw ← require_mapping v;
  corrupt_unless (same_keys raw [py "algorithm"; py "ciphertext"; py "nonce"; py "version"]);;
  corrupt_unless (is_text (member (py "algorithm") raw) (py "AES-256-GCM") &&
                  equals_one (member (py "version") raw));;
  n ← require_str (member (py "nonce") raw);
  n ← of_model (decode_b64 n);
  c ← require_str (member (py "ciphertext") raw);
  c ← of_model (decode_b64 c);
  of_model (encrypted_secret n c).

Definition RECORD_KEYS : list pystr := map py
  ["alias"; "database"; "destination_policy"; "display_name"; "enabled"; "host"; "id"; "last_test"; "limits";
   "policy"; "port"; "resolved_addresses"; "revision"; "tls"; "upstream_secret"; "username"]%string.

Section format.
Context {F : PyFloat} {D : DatasourceLib} {L : PyLib}.

(** [_parse_record]. *)
Definition parse_record (v : pyval) : catalog DatasourceRecord :=
  raw ← require_mapping v;
  require_keys raw RECORD_KEYS;;
  destination ← require_mapping (member (py "destination_policy") raw);
  require_keys destination (map py ["allow_loopback"; "allow_public"; "allowed_hosts"]%string);;
  loopback ← require_bool (member (py "allow_loopback") destination);
  public ← require_bool (member (py "allow_public") destination);
  hosts ← require_str_tuple (member (py "allowed_hosts") destination);
  destination ← of_model (destination_policy_
    {| allow_public := public; allow_loopback := loopback; allowed_hosts := hosts |});
  tls ← require_mapping (member (py "tls") raw);
  require_keys tls (map py ["mode"; "server_name"]%string);;
  m ← require_str (member (py "mode") tls);
  name ← optional_str (member (py "server_name") tls);
  tls ← of_model (tls_settings {| mode := m; server_name := name |});
  limits ← require_mapping (member (py "limits") raw);
  require_keys limits (map py ["max_rows"; "max_sessions"; "statement_timeout_ms"]%string);;
  rows ← require_int (member (py "max_rows") limits) 1;
  sessions ← require_int (member (py "max_sessions") limits) 1;
  timeout ← require_int (member (py "statement_timeout_ms") limits) 1;
  limits ← of_model (datasource_limits
    {| statement_timeout_ms := timeout; max_rows := rows; max_sessions := sessions |});
  last ← require_mapping (member (py "last_test") raw);
  require_keys last (map py ["checked_at"; "status"]%string);;
  st ← require_str (member (py "status") last);
  at_ ← optional_str (member (py "checked_at") last);
  last ← of_model (last_test_ {| status := st; checked_at := at_ |});
  policy_raw ← require_mapping (member (py "policy") raw);
  alias ← require_str (member (py "alias") raw);
  display ← require_str (member (py "display_name") raw);
  host ← require_str (member (py "host") raw);
  port ← require_int (member (py "port") raw) 1;
  database ← require_str (member (py "database") raw);
  username ← require_str (member (py "username") raw);
  enabled ← require_bool (member (py "enabled") raw);
  policy ← of_model (policy_from_mapping (VDict policy_raw));
  addresses ← require_str_tuple (member (py "resolved_addresses") raw);
  d ← of_model (datasource_draft
    {| d_alias := alias; d_display_name := display; d_host := host; d_port := port; d_database := database;
       d_username := username; d_enabled := enabled; d_tls := tls; d_policy := policy; d_limits := limits;
       d_destination_policy := destination; d_resolved_addresses := addresses |});
  envelope ← parse_envelope (member (py "upstream_secret") raw);
  i ← require_str (member (py "id") raw);
  rev ← require_int (member (py "revision") raw) 1;
  of_model (datasource_record
    {| id_ := i; draft := d; revision := rev; last_test := last; upstream_secret := envelope |}).

(** ** The catalog *)

Record ParsedCatalog := { c_revision : Z; c_digest : pystr; c_records : list DatasourceRecord }.

(** [_make_payload], as the members of the object. *)
Definition make_payload (rev : Z) (records : list DatasourceRecord) : list (pystr * pyval) :=
  [(py "catalog_revision", VInt rev);
   (py "datasources", VList (map record_to_json (merge_sort id_le records)));
   (py "format", VInt CATALOG_FORMAT);
   (py "schema_version", VInt CATALOG_SCHEMA_VERSION)].

(** [_serialize_document]. *)
Definition serialize_document (payload : list (pystr * pyval)) (master_key : list byte) : crypto (list byte) :=
  tag ← catalog_auth_tag (VDict payload) master_key;
  canonical_json (VDict (payload ++
    [(py "auth", VDict [(py "algorithm", VStr (py "HMAC-SHA256")); (py "tag", VStr tag)])])).

(** [_safe_json_loads]. *)
Definition safe_json_loads (data : list byte) : catalog pyval :=
  match utf8_decode data with
  | None => Err CatalogCorruptError
  | Some text => match loads text with Some v => Ok v | None => Err CatalogCorruptError end
  end.

(** [_parse_catalog], which authenticates. *)
Definition parse_catalog (data : list byte) (master_key : list byte) : catalog ParsedCatalog :=
  document ← safe_json_loads data;
  raw ← require_mapping document;
  require_keys raw (map py ["auth"; "catalog_revision"; "datasources"; "format"; "schema_version"]%string);;
  corrupt_unless (equals_one (member (py "format") raw) && equals_one (member (py "schema_version") raw));;
  rev ← require_int (member (py "catalog_revision") raw) 1;
  auth ← require_mapping (member (py "auth") raw);
  require_keys auth (map py ["algorithm"; "tag"]%string);;
  corrupt_unless (is_text (member (py "algorithm") auth) (py "HMAC-SHA256"));;
  let payload := filter (fun kv => kv.1 <> py "auth") raw in
  text ← leak (canonical_json (VDict raw));
  corrupt_unless (bool_decide (text = data));;
  value_error (verify_catalog_auth (VDict payload) (member (py "tag") auth) master_key) CatalogKeyError;;
  records ← match member (py "datasources") raw with
            | VList l => mapM_res parse_record l
            | _ => Err CatalogCorruptError
            end;
  corrupt_unless (bool_decide (py_sorted (ids records) = ids records));;
  corrupt_unless (bool_decide (NoDup (ids records)));;
  corrupt_unless (bool_decide (NoDup (aliases records)));;
  digest ← leak (catalog_digest (VDict payload));
  Ok {| c_revision := rev; c_digest := digest; c_records := records |}.

(** ** The anchor *)

Record Anchor := { a_revision : Z; a_digest : pystr }.

Definition anchor_json (a : Anchor) : pyval :=
  VDict [(py "catalog_digest", VStr (a_digest a)); (py "catalog_revision", VInt (a_revision a));
         (py "format", VInt 1)].

(** [_anchor_bytes]. *)
Definition anchor_bytes (a : Anchor) : crypto (list byte) := canonical_json (anchor_json a).

(** [_parse_anchor]. *)
Definition parse_anchor (data : list byte) : catalog Anchor :=
  document ← safe_json_loads data;
  raw ← require_mapping document;
  require_keys raw (map py ["catalog_digest"; "catalog_revision"; "format"]%string);;
  refuse_if (negb (equals_one (member (py "format") raw))) CatalogAnchorError;;
  digest ← match hex_text (member (py "catalog_digest") raw) with Some d => Ok d | None => Err CatalogAnchorError end;
  rev ← require_int (member (py "catalog_revision") raw) 1;
  text ← leak (canonical_json (VDict raw));
  refuse_if (negb (bool_decide (text = data))) CatalogAnchorError;;
  Ok {| a_revision := rev; a_digest := digest |}.

(** ** The journal *)

Record Journal := {
  old_revision : Z;
  old_digest : option pystr;
  new_revision : Z;
  new_digest : pystr;
  old_auth_tag : pystr;
  new_auth_tag : pystr;
}.

(** [_journal_payload]. *)
Definition journal_payload (old_revision : Z) (old_digest : option pystr) (new_revision : Z) (new_digest : pystr)
    : list (pystr * pyval) :=
  [(py "format", VInt 1); (py "new_digest", VStr new_digest); (py "new_revision", VInt new_revision);
   (py "old_digest", optional_json old_digest); (py "old_revision", VInt old_revision)].

Definition payload_of (j : Journal) : pyval :=
  VDict (journal_payload (old_revision j) (old_digest j) (new_revision j) (new_digest j)).

(** [_journal_bytes]. *)
Definition journal_bytes (j : Journal) : crypto (list byte) :=
  canonical_json (VDict (journal_payload (old_revision j) (old_digest j) (new_revision j) (new_digest j) ++
    [(py "new_auth_tag", VStr (new_auth_tag j)); (py "old_auth_tag", VStr (old_auth_tag j))])).

Definition anchor_unless (b : bool) : catalog unit := refuse_if (negb b) CatalogAnchorError.

Definition hex_member (v : pyval) : catalog pystr :=
  match hex_text v with Some d => Ok d | None => Err CatalogAnchorError end.

(** [_parse_journal_document]. *)
Definition parse_journal_document (data : list byte) : catalog Journal :=
  document ← safe_json_loads data;
  raw ← require_mapping document;
  require_keys raw (map py ["format"; "new_auth_tag"; "new_digest"; "new_revision"; "old_auth_tag"; "old_digest";
                            "old_revision"]%string);;
  anchor_unless (equals_one (member (py "format") raw));;
  nd ← hex_member (member (py "new_digest") raw);
  od ← match member (py "old_digest") raw with VNone => Ok None | v => Some <$> hex_member v end;
  orev ← require_int (member (py "old_revision") raw) 0;
  nrev ← require_int (member (py "new_revision") raw) 1;
  anchor_unless (nrev =? orev + 1);;
  anchor_unless (Bool.eqb (orev =? 0) (bool_decide (od = None)));;
  ot ← hex_member (member (py "old_auth_tag") raw);
  nt ← hex_member (member (py "new_auth_tag") raw);
  text ← leak (canonical_json (VDict raw));
  anchor_unless (bool_decide (text = data));;
  Ok {| old_revision := orev; old_digest := od; new_revision := nrev; new_digest := nd;
        old_auth_tag := ot; new_auth_tag := nt |}.

(** [_journal_roles]: whether the key authenticates the old role, the new. *)
Definition journal_roles (j : Journal) (master_key : list byte) : catalog (bool * bool) :=
  expected ← leak (catalog_auth_tag (payload_of j) master_key);
  Ok (bool_decide (expected = old_auth_tag j), bool_decide (expected = new_auth_tag j)).

Definition is_rotation_journal (j : Journal) : bool := negb (bool_decide (old_auth_tag j = new_auth_tag j)).

(** [_parse_journal]. *)
Definition parse_journal (data : list byte) (master_key : list byte) : catalog (Journal * bool * bool) :=
  j ← parse_journal_document data;
  roles ← journal_roles j master_key;
  refuse_if (negb (roles.1 || roles.2)) CatalogKeyError;;
  Ok (j, roles.1, roles.2).

(** [_new_journal]. *)
Definition new_journal (orev : Z) (odigest : option pystr) (nrev : Z) (ndigest : pystr) (old_key new_key : list byte)
    : crypto Journal :=
  let payload := VDict (journal_payload orev odigest nrev ndigest) in
  old_tag ← catalog_auth_tag payload old_key;
  new_tag ← catalog_auth_tag payload new_key;
  Ok {| old_revision := orev; old_digest := odigest; new_revision := nrev; new_digest := ndigest;
        old_auth_tag := old_tag; new_auth_tag := new_tag |}.
End format.

(** ** What is printed is read back *)

Definition chars (s : pystr) : Prop := Forall (fun c => 0 <= c) s.
Definition opt_chars (s : option pystr) : Prop := match s with Some s => chars s | None => True end.

(** An object of literal keys, as its values. *)
Ltac plain_members := apply plain_object; [vm_compute; reflexivity|];
  repeat match goal with
  | |- Forall _ (_ :: _) => apply List.Forall_cons; cbn [snd]
  | |- Forall _ [] => apply List.Forall_nil
  end.

Lemma plain_literal s : plain (VStr (py s)).
Proof. cbn [plain]. unfold py. apply Forall_fmap, Forall_forall. intros a _. cbn. lia. Qed.

Lemma plain_texts l : Forall chars l -> plain (VList (map VStr l)).
Proof. intros H. apply plain_list, Forall_fmap, H. Qed.

Lemma plain_optional s : opt_chars s -> plain (optional_json s).
Proof. destruct s; [auto|constructor]. Qed.

Lemma require_holds b u : require b = Ok u <-> b = true.
Proof.
  unfold require. rewrite refuse_if_Ok, negb_false_iff. destruct u. tauto.
Qed.

Lemma b64_pads_values m n vs : Forall (fun v => 0 <= v < 64) vs -> (n <= m)%nat ->
  b64_pads m (replicate n 61 ++ map b64_char vs) = (n, map b64_char vs).
Proof.
  intros V. revert m; induction n as [|n IH]; intros m N; cbn [replicate app].
  - destruct m; [reflexivity|]. destruct V as [|v vs Hv V]; [reflexivity|]. cbn [map b64_pads].
    destruct (Z.eqb_spec (b64_char v) 61); [destruct (b64_char_range v Hv); contradiction|reflexivity].
  - destruct m as [|m]; [lia|]. cbn [b64_pads]. replace (61 =? 61) with true by reflexivity. rewrite IH by lia. reflexivity.
Qed.

Lemma b64_letter_urlsafe v : 0 <= v < 64 ->
  let c := to_urlsafe (b64_char v) in
  of_urlsafe c = b64_char v /\ b64_url_letter c = true /\ control c = false /\ 0 <= c.
Proof.
  intros Hv. assert (C : forallb (fun n => let c := to_urlsafe (b64_char (Z.of_nat n)) in
    (of_urlsafe c =? b64_char (Z.of_nat n)) && b64_url_letter c && negb (control c) && (0 <=? c)) (seq 0 64) = true) by reflexivity.
  rewrite forallb_forall in C. specialize (C (Z.to_nat v) ltac:(apply in_seq; lia)). rewrite Z2Nat.id in C by lia.
  cbv zeta in *. apply andb_true_iff in C as [C C4]. apply andb_true_iff in C as [C C3]. apply andb_true_iff in C as [C1 C2].
  rewrite negb_true_iff in C3. split; [lia|]. split; [exact C2|]. split; [exact C3|lia].
Qed.

(** An unpadded text of at least a byte is decoded to it. *)
Lemma decode_encode_b64 bs : bs <> [] -> decode_b64 (encode_b64 bs) = Ok bs /\ chars (encode_b64 bs).
Proof.
  intros N. destruct (b64encode_values bs) as (vs & n & E & V & Hn & G & M & Nv). specialize (Nv N).
  assert (Strip : forall k l, Forall (fun v => 0 <= v < 64) l -> strip_pads (replicate k 61 ++ map b64_char l) = map b64_char l).
  { intros k l Vl. induction k as [|k IH]; [|exact IH]. destruct Vl as [|v l Hv _]; [reflexivity|].
    cbn [replicate app map strip_pads].
    destruct (Z.eqb_spec (b64_char v) 61); [destruct (b64_char_range v Hv); contradiction|reflexivity]. }
  assert (Enc : encode_b64 bs = map to_urlsafe (map b64_char vs)).
  { unfold encode_b64. rewrite E, rev_app_distr, rev_replicate, <- map_rev, Strip by (apply Forall_rev, V).
    rewrite <- map_rev, rev_involutive. reflexivity. }
  assert (Letters : Forall (fun c => b64_url_letter c = true /\ control c = false /\ 0 <= c) (encode_b64 bs)).
  { rewrite Enc, map_map. apply Forall_fmap. eapply Forall_impl; [exact V|]. intros v Hv.
    apply b64_letter_urlsafe in Hv. cbn. tauto. }
  assert (Back : map of_urlsafe (encode_b64 bs) = map b64_char vs).
  { rewrite Enc, !map_map. apply map_ext_in. intros v Hv. rewrite Forall_forall in V.
    apply b64_letter_urlsafe, V, list_elem_of_In, Hv. }
  assert (Len : length (encode_b64 bs) = length vs) by (rewrite Enc, !length_map; reflexivity).
  split; [|eapply Forall_impl; [exact Letters|intros c H; apply H]]. unfold decode_b64.
  assert (R1 : require (bool_decide (encode_b64 bs <> []) && negb (existsb control (encode_b64 bs))) = Ok tt).
  { apply require_holds, andb_true_iff. split.
    - apply bool_decide_eq_true. intros Z0. rewrite Z0 in Len. destruct vs; [congruence|discriminate].
    - apply negb_true_iff. destruct (existsb control (encode_b64 bs)) eqn:X; [|reflexivity].
      apply existsb_exists in X as (c & Hc & X). rewrite Forall_forall in Letters. apply list_elem_of_In, Letters in Hc.
      destruct Hc as (_ & Hc & _). congruence. }
  assert (R2 : require (forallb b64_url_letter (encode_b64 bs)) = Ok tt).
  { apply require_holds, forallb_forall. intros c Hc. rewrite Forall_forall in Letters. apply Letters, list_elem_of_In, Hc. }
  rewrite R1, R2. cbn [mbind res_bind]. rewrite Back, Len.
  assert (P : Z.to_nat (- Z.of_nat (length vs) mod 4) = n).
  { assert (Mz : (Z.of_nat (length vs) + Z.of_nat n) mod 4 = 0) by (rewrite <- Nat2Z.inj_add; change 4 with (Z.of_nat 4); rewrite <- Nat2Z.inj_mod, M; reflexivity).
    assert (Eq : - Z.of_nat (length vs) mod 4 = Z.of_nat n).
    { symmetry. apply (Z.mod_unique _ _ (- ((Z.of_nat (length vs) + Z.of_nat n) / 4))); [lia|].
      pose proof (Z.div_mod (Z.of_nat (length vs) + Z.of_nat n) 4 ltac:(lia)). lia. }
    rewrite Eq. lia. }
  rewrite P. unfold b64decode. rewrite rev_app_distr, rev_replicate, <- map_rev.
  rewrite b64_pads_values by (assumption || apply Forall_rev, V). rewrite <- map_rev, rev_involutive.
  assert (Vals : mapM b64_value (map b64_char vs) = Some vs).
  { apply mapM_Some, Forall2_fmap_l. apply Forall_Forall2_diag. eapply Forall_impl; [exact V|]. intros v Hv.
    apply b64_value_char, Hv. }
  rewrite Vals. cbn [mbind option_bind]. rewrite G. reflexivity.
Qed.

(** Replace the members asked of a list of literal members. *)
Ltac lookup_member k l :=
  lazymatch l with
  | (k, ?v) :: _ => v
  | _ :: ?l => lookup_member k l
  end.

Ltac members := repeat match goal with
  | |- context [member ?k ?l] =>
      let v := lookup_member k l in replace (member k l) with v by (vm_compute; reflexivity)
  end.

Ltac keys_done := match goal with
  | |- context [require_keys ?l ?ks] => replace (require_keys l ks) with (Ok tt : catalog unit) by (vm_compute; reflexivity)
  end.

Ltac proceed := cbn [mbind res_bind require_mapping require_str require_bool optional_str of_model].

Section print.
Context {F : PyFloat} {D : DatasourceLib} {L : PyLib}.

(** A record its constructors accept, whose policy is read back as it is. *)
Record record_ok (r : DatasourceRecord) : Prop := {
  ok_record : datasource_record r = Ok r;
  ok_tls : tls_settings (d_tls (draft r)) = Ok (d_tls (draft r));
  ok_limits : datasource_limits (d_limits (draft r)) = Ok (d_limits (draft r));
  ok_destination : destination_policy_ (d_destination_policy (draft r)) = Ok (d_destination_policy (draft r));
  ok_test : last_test_ (last_test r) = Ok (last_test r);
  ok_secret : encrypted_secret (nonce (upstream_secret r)) (ciphertext (upstream_secret r)) = Ok (upstream_secret r);
  ok_policy : plain (policy_to_mapping (d_policy (draft r))) /\
              policy_from_mapping (policy_to_mapping (d_policy (draft r))) = Ok (d_policy (draft r));
  ok_chars : chars (id_ r) /\ chars (d_alias (draft r)) /\ chars (d_display_name (draft r)) /\
             chars (d_host (draft r)) /\ chars (d_database (draft r)) /\ chars (d_username (draft r)) /\
             Forall chars (allowed_hosts (d_destination_policy (draft r))) /\
             Forall chars (d_resolved_addresses (draft r)) /\ chars (mode (d_tls (draft r))) /\
             opt_chars (server_name (d_tls (draft r))) /\ chars (status (last_test r)) /\
             opt_chars (checked_at (last_test r));
}.

Lemma plain_envelope e : encrypted_secret (nonce e) (ciphertext e) = Ok e ->
  plain (envelope_to_json e) /\ parse_envelope (envelope_to_json e) = Ok e.
Proof.
  intros H. assert (N : nonce e <> [] /\ ciphertext e <> []).
  { unfold encrypted_secret in H. apply bind_Ok in H as (u & H & _). apply require_holds in H.
    apply andb_true_iff in H as [H1 H2]. apply Nat.eqb_eq in H1. apply Nat.leb_le in H2. unfold NONCE_BYTES, GCM_TAG_BYTES in *.
    split; intros E; rewrite E in *; cbn in *; lia. }
  destruct N as [N1 N2]. destruct (decode_encode_b64 _ N1) as [D1 C1]. destruct (decode_encode_b64 _ N2) as [D2 C2].
  split.
  - plain_members; [apply plain_literal|exact C2|exact C1|exact I].
  - unfold parse_envelope, envelope_to_json. proceed.
    replace (corrupt_unless (same_keys _ _)) with (Ok tt : catalog unit) by (vm_compute; reflexivity). proceed. members.
    replace (corrupt_unless (is_text _ _ && equals_one _)) with (Ok tt : catalog unit) by (vm_compute; reflexivity).
    proceed. rewrite D1. proceed. rewrite D2. proceed. rewrite H. reflexivity.
Qed.

Lemma destination_eta p : {| allow_public := allow_public p; allow_loopback := allow_loopback p; allowed_hosts := allowed_hosts p |} = p.
Proof. destruct p; reflexivity. Qed.
Lemma tls_eta t : {| mode := mode t; server_name := server_name t |} = t.
Proof. destruct t; reflexivity. Qed.
Lemma limits_eta l : {| statement_timeout_ms := statement_timeout_ms l; max_rows := max_rows l; max_sessions := max_sessions l |} = l.
Proof. destruct l; reflexivity. Qed.
Lemma test_eta t : {| status := status t; checked_at := checked_at t |} = t.
Proof. destruct t; reflexivity. Qed.
Lemma draft_eta d : {| d_alias := d_alias d; d_display_name := d_display_name d; d_host := d_host d; d_port := d_port d;
  d_database := d_database d; d_username := d_username d; d_enabled := d_enabled d; d_tls := d_tls d; d_policy := d_policy d;
  d_limits := d_limits d; d_destination_policy := d_destination_policy d; d_resolved_addresses := d_resolved_addresses d |} = d.
Proof. destruct d; reflexivity. Qed.
Lemma record_eta r : {| id_ := id_ r; draft := draft r; revision := revision r; last_test := last_test r;
  upstream_secret := upstream_secret r |} = r.
Proof. destruct r; reflexivity. Qed.

Lemma mapM_texts l : mapM_res require_str (map VStr l) = Ok l.
Proof. apply mapM_res_Forall2, Forall2_fmap_l, Forall_Forall2_diag, Forall_forall. reflexivity. Qed.

Lemma optional_back s : optional_str (optional_json s) = Ok s.
Proof. destruct s; reflexivity. Qed.

Lemma int_back n minimum : minimum <= n -> require_int (VInt n) minimum = Ok n.
Proof. intros H. unfold require_int, corrupt_unless. destruct (Z.leb_spec minimum n); [reflexivity|lia]. Qed.

Lemma limits_bounds l : datasource_limits l = Ok l ->
  1 <= max_rows l /\ 1 <= max_sessions l /\ 1 <= statement_timeout_ms l.
Proof.
  unfold datasource_limits, MIN_TIMEOUT_MS. intros H. apply bind_Ok in H as (? & H1 & H). apply bind_Ok in H as (? & H2 & H).
  apply bind_Ok in H as (? & H3 & _). apply require_holds in H1, H2, H3.
  apply andb_true_iff in H1 as [H1 _]. apply andb_true_iff in H2 as [H2 _]. apply andb_true_iff in H3 as [H3 _]. lia.
Qed.

Lemma record_draft r : datasource_record r = Ok r -> datasource_draft (draft r) = Ok (draft r) /\ 1 <= revision r.
Proof.
  unfold datasource_record. intros H. apply bind_Ok in H as (? & H1 & H). apply bind_Ok in H as (d & H2 & H).
  apply bind_Ok in H as (? & H3 & _). apply require_holds in H3. split; [|lia].
  pose proof H2 as H2'. unfold datasource_draft in H2'.
  repeat (apply bind_Ok in H2' as (? & _ & H2')). injection H2' as <-. exact H2.
Qed.

Lemma draft_port d : datasource_draft d = Ok d -> 1 <= d_port d.
Proof.
  unfold datasource_draft. intros H. do 3 apply bind_Ok in H as (? & _ & H). apply bind_Ok in H as (? & H1 & _).
  apply require_holds, andb_true_iff in H1 as [H1 _]. lia.
Qed.

Lemma plain_record r : record_ok r -> plain (record_to_json r).
Proof.
  intros [_ _ _ _ _ S P C]. destruct C as (C1 & C2 & C3 & C4 & C5 & C6 & C7 & C8 & C9 & C10 & C11 & C12).
  unfold record_to_json. cbv zeta. plain_members; try assumption; try exact I; try (apply plain_texts; assumption).
  - plain_members; try exact I. apply plain_texts; assumption.
  - plain_members; [apply plain_optional; assumption|assumption].
  - plain_members; exact I.
  - apply P.
  - plain_members; [assumption|apply plain_optional; assumption].
  - apply plain_envelope, S.
Qed.

Lemma policy_mapping p : policy_from_mapping (policy_to_mapping p) = Ok p ->
  exists items, policy_to_mapping p = VDict items.
Proof.
  unfold policy_from_mapping. intros H. destruct (policy_model _) as [v|]; [|discriminate].
  destruct (freeze_json v) as [[]|]; try discriminate. injection H as <-. eexists. reflexivity.
Qed.

(** A record is read back from its JSON. *)
Lemma parse_record_back r : record_ok r -> parse_record (record_to_json r) = Ok r.
Proof.
  intros [R T Li De La S [_ P] _]. destruct (record_draft r R) as [Dr Rv]. pose proof (draft_port _ Dr) as Po.
  destruct (limits_bounds _ Li) as (L1 & L2 & L3). destruct (plain_envelope _ S) as [_ E].
  destruct (policy_mapping _ P) as [items Pi]. rewrite Pi in P.
  unfold parse_record, record_to_json. cbv zeta. rewrite Pi. proceed. keys_done. proceed. members. proceed.
  keys_done. proceed. members. proceed. unfold require_str_tuple. rewrite !mapM_texts. proceed.
  rewrite ?destination_eta, ?tls_eta, ?limits_eta, ?test_eta, ?draft_eta, ?record_eta.
  rewrite De. proceed. keys_done. proceed. members. proceed. rewrite ?optional_back. proceed.
  rewrite ?destination_eta, ?tls_eta, ?limits_eta, ?test_eta, ?draft_eta, ?record_eta.
  rewrite T. proceed. keys_done. proceed. members. rewrite ?int_back by assumption. proceed.
  rewrite ?destination_eta, ?tls_eta, ?limits_eta, ?test_eta, ?draft_eta, ?record_eta.
  rewrite Li. proceed. keys_done. proceed. members. proceed. rewrite ?optional_back. proceed.
  rewrite ?destination_eta, ?tls_eta, ?limits_eta, ?test_eta, ?draft_eta, ?record_eta.
  rewrite La. proceed. rewrite P. proceed.
  rewrite ?destination_eta, ?tls_eta, ?limits_eta, ?test_eta, ?draft_eta, ?record_eta.
  rewrite Dr. proceed. rewrite E. proceed.
  rewrite ?destination_eta, ?tls_eta, ?limits_eta, ?test_eta, ?draft_eta, ?record_eta.
  rewrite R. reflexivity.
Qed.
End print.
