(* ===== verification/CatalogLaws.v ===== *)
(** * CatalogLaws: what the documents of the datasource store promise

    The round trips of the catalog, its records, the anchor and the journal;
    what their readers accept; the sealing of secrets. *)

From S2P Require Import Prelude.
From S2P Require Import Bytes.
From S2P Require Import Decimal.
From S2P Require Import Unicode.
From S2P Require Import Canonical.
From S2P Require Import Json.
From S2P Require Import Datasource.
From S2P Require Import CatalogFormat.
From S2P Require Transformers.

Local Open Scope Z_scope.

(** ** Catalogs, anchors and journals are read back *)

(** Lists of the same members in another order. *)
Ltac same_elements := repeat match goal with
  | |- [] ≡ₚ [] => reflexivity
  | |- ?x :: ?l ≡ₚ ?k =>
      let rec go pre k := lazymatch k with
        | x :: ?post => refine (@Permutation_cons_app _ _ pre post x _); cbn [app]
        | ?y :: ?post => go (pre ++ [y]) post
        end in
      lazymatch type of x with ?T => go (@nil T) k end
  end.

Lemma sorted_ids l : StronglySorted id_le l -> py_sorted (ids l) = ids l.
Proof.
  intros H. assert (S' : StronglySorted pystr_le (ids l)).
  { unfold ids. induction H as [|r l S IH A]; cbn; constructor; [exact IH|]. apply Forall_fmap, A. }
  unfold py_sorted. apply (StronglySorted_unique_strong pystr_le); [|apply StronglySorted_merge_sort; apply _|exact S'|apply merge_sort_Permutation].
  intros a b _ _. apply pystr_le_antisym.
Qed.

#[export] Instance id_le_total : Total id_le.
Proof. intros a b. unfold id_le. apply pystr_le_total. Qed.

#[export] Instance id_le_trans : Transitive id_le.
Proof. intros a b c. unfold id_le. apply pystr_le_trans. Qed.

Lemma ids_perm l k : l ≡ₚ k -> ids l ≡ₚ ids k.
Proof. intros H. apply fmap_Permutation, H. Qed.

Lemma aliases_perm l k : l ≡ₚ k -> aliases l ≡ₚ aliases k.
Proof. intros H. unfold aliases. rewrite H. reflexivity. Qed.

(** Hexadecimal digests are texts of the documents. *)
Lemma hexdigest_hex bs : length bs = 32%nat -> fixed_hex (hexdigest bs) = true /\ chars (hexdigest bs) /\
  forallb (fun c => (0 <=? c) && (c <? 128)) (hexdigest bs) = true.
Proof.
  intros N. pose proof (Transformers.hexdigest_chars bs) as C. split; [|split].
  - unfold fixed_hex. rewrite Transformers.hexdigest_length, N. apply andb_true_iff. split; [reflexivity|].
    apply forallb_forall. intros c Hc. rewrite Forall_forall in C. apply list_elem_of_In, C in Hc.
    unfold Transformers.hex_char in Hc. unfold lower_hex. lia.
  - eapply Forall_impl; [exact C|]. unfold Transformers.hex_char. lia.
  - apply forallb_forall. intros c Hc. rewrite Forall_forall in C. apply list_elem_of_In, C in Hc.
    unfold Transformers.hex_char in Hc. lia.
Qed.

Section catalogs.
Context {F : PyFloat} {D : DatasourceLib} {L : PyLib} {PL : Transformers.PyLibLaws L}.

(** What [canonical_json] printed is a text [loads] reads. *)
Lemma canonical_read v bs : plain v -> canonical_json v = Ok bs -> safe_json_loads bs = Ok v.
Proof.
  unfold canonical_json, safe_json_loads. intros P H. destruct (json_dumps v) as [t|] eqn:T; [|discriminate].
  destruct (utf8_encode t) as [b|] eqn:U; [|discriminate]. injection H as <-.
  rewrite (utf8_decode_encode _ _ U), (loads_dumps _ _ P T). reflexivity.
Qed.

Lemma canonical_same v w : same_json v w -> canonical_json v = canonical_json w.
Proof. intros H. unfold canonical_json. rewrite (json_dumps_same _ _ H). reflexivity. Qed.

(** An object of the same members under the same keys has the same text. *)
Lemma canonical_perm items items' : NoDup items.*1 -> items ≡ₚ items' ->
  canonical_json (VDict items) = canonical_json (VDict items').
Proof.
  intros N P. apply canonical_same, (same_dict _ items'); [exact N|symmetry; exact P|].
  apply Forall_Forall2_diag, Forall_forall. intros x _. split; [reflexivity|constructor].
Qed.

Lemma tag_hex payload key tag : catalog_auth_tag payload key = Ok tag ->
  fixed_hex tag = true /\ chars tag /\ forallb (fun c => (0 <=? c) && (c <? 128)) tag = true.
Proof.
  unfold catalog_auth_tag. intros H. apply bind_Ok in H as (k & _ & H). apply bind_Ok in H as (t & _ & H).
  injection H as <-. apply hexdigest_hex, (@Transformers.hmac_length L PL).
Qed.

Lemma verify_auth payload key tag : catalog_auth_tag payload key = Ok tag ->
  verify_catalog_auth payload (VStr tag) key = Ok tt.
Proof.
  intros H. destruct (tag_hex _ _ _ H) as (F1 & _ & A). unfold verify_catalog_auth.
  unfold fixed_hex in F1. apply andb_true_iff in F1 as [F1 _]. change (length tag =? HEX_LENGTH)%nat with (length tag =? 64)%nat in F1.
  rewrite F1. cbn [negb refuse_if mbind res_bind]. rewrite H. cbn [mbind res_bind]. unfold compare_digest. rewrite A.
  cbn [mbind res_bind]. rewrite bool_decide_eq_true_2 by reflexivity. reflexivity.
Qed.

(** The document's members in the order of their keys. *)
Definition sorted_document (rev : Z) (records : list DatasourceRecord) (tag : pystr) : list (pystr * pyval) :=
  (py "auth", VDict [(py "algorithm", VStr (py "HMAC-SHA256")); (py "tag", VStr tag)]) :: make_payload rev records.

Lemma document_plain rev records tag : Forall record_ok records -> chars tag ->
  plain (VDict (sorted_document rev records tag)).
Proof.
  intros R C. unfold sorted_document, make_payload. plain_members; try exact I.
  - plain_members; [apply plain_literal|exact C].
  - apply plain_list, Forall_fmap. assert (R' : Forall record_ok (merge_sort id_le records)).
    { rewrite merge_sort_Permutation. exact R. }
    eapply Forall_impl; [exact R'|]. apply plain_record.
Qed.

Lemma payload_digest rev records key bs : serialize_document (make_payload rev records) key = Ok bs ->
  exists tag digest, catalog_auth_tag (VDict (make_payload rev records)) key = Ok tag /\
  canonical_json (VDict (sorted_document rev records tag)) = Ok bs /\
  catalog_digest (VDict (make_payload rev records)) = Ok digest.
Proof.
  unfold serialize_document. intros H. apply bind_Ok in H as (tag & T & H). exists tag.
  assert (E : exists digest, catalog_digest (VDict (make_payload rev records)) = Ok digest).
  { unfold catalog_auth_tag in T. apply bind_Ok in T as (k & _ & T). apply bind_Ok in T as (t & T & _).
    unfold catalog_digest. rewrite T. eexists. reflexivity. }
  destruct E as [digest E]. exists digest. split; [exact T|]. split; [|exact E]. rewrite <- H. unfold sorted_document.
  apply canonical_perm; [apply (bool_decide_unpack _); vm_compute; exact I|]. apply Permutation_cons_append.
Qed.

(** The catalog a commit writes, read with any key. *)
Lemma parse_document rev records key bs key' :
  1 <= rev -> Forall record_ok records -> NoDup (ids records) -> NoDup (aliases records) ->
  serialize_document (make_payload rev records) key = Ok bs ->
  exists tag digest, catalog_auth_tag (VDict (make_payload rev records)) key = Ok tag /\
  catalog_digest (VDict (make_payload rev records)) = Ok digest /\
  parse_catalog bs key' =
    (value_error (verify_catalog_auth (VDict (make_payload rev records)) (VStr tag) key') CatalogKeyError;;
     Ok {| c_revision := rev; c_digest := digest; c_records := merge_sort id_le records |}).
Proof.
  intros Rv R N1 N2 H. destruct (payload_digest _ _ _ _ H) as (tag & digest & T & C & Dg). exists tag, digest.
  split; [exact T|]. split; [exact Dg|].
  destruct (tag_hex _ _ _ T) as (_ & Ch & _). unfold parse_catalog.
  rewrite (canonical_read _ _ (document_plain rev records tag R Ch) C). proceed.
  unfold sorted_document. keys_done. proceed.
  match goal with |- context [filter ?P ?l] => replace (filter P l) with (make_payload rev records) by reflexivity end.
  fold (sorted_document rev records tag). rewrite C.
  unfold sorted_document, make_payload. members. fold (make_payload rev records).
  replace (corrupt_unless (equals_one _ && equals_one _)) with (Ok tt : catalog unit) by (vm_compute; reflexivity).
  proceed. rewrite int_back by exact Rv. proceed. keys_done. proceed. members.
  replace (corrupt_unless (is_text _ _)) with (Ok tt : catalog unit) by (vm_compute; reflexivity). proceed. cbn [leak]. proceed.
  unfold corrupt_unless. rewrite bool_decide_eq_true_2 by reflexivity. cbn [negb refuse_if]. proceed.
  destruct (value_error _ _) as [[]|e]; [|reflexivity]. proceed.
  assert (Rs : mapM_res parse_record (map record_to_json (merge_sort id_le records)) = Ok (merge_sort id_le records)).
  { apply mapM_res_Forall2, Forall2_fmap_l, Forall_Forall2_diag. assert (R' : Forall record_ok (merge_sort id_le records)).
    { rewrite merge_sort_Permutation. exact R. } eapply Forall_impl; [exact R'|]. intros r Hr. cbv beta. exact (parse_record_back r Hr). }
  rewrite Rs. proceed.
  rewrite sorted_ids by (apply StronglySorted_merge_sort; apply _).
  rewrite (bool_decide_eq_true_2 (ids _ = ids _)) by reflexivity. cbn [negb refuse_if]. proceed.
  rewrite (bool_decide_eq_true_2 (NoDup (ids _))) by (rewrite (ids_perm _ records); [exact N1|apply merge_sort_Permutation]).
  cbn [negb refuse_if]. proceed.
  rewrite (bool_decide_eq_true_2 (NoDup (aliases _))) by (rewrite (aliases_perm _ records); [exact N2|apply merge_sort_Permutation]).
  cbn [negb refuse_if]. proceed. rewrite Dg. reflexivity.
Qed.

(** Its own key reads what was written. *)
Lemma parse_serialized rev records key bs :
  1 <= rev -> Forall record_ok records -> NoDup (ids records) -> NoDup (aliases records) ->
  serialize_document (make_payload rev records) key = Ok bs ->
  exists digest, catalog_digest (VDict (make_payload rev records)) = Ok digest /\
  parse_catalog bs key = Ok {| c_revision := rev; c_digest := digest; c_records := merge_sort id_le records |}.
Proof.
  intros Rv R N1 N2 H. destruct (parse_document _ _ _ _ key Rv R N1 N2 H) as (tag & digest & T & Dg & P).
  exists digest. split; [exact Dg|]. rewrite P, (verify_auth _ _ _ T). reflexivity.
Qed.

(** A key of another tag is refused as such. *)
Lemma parse_other_key rev records key bs key' tag tag' :
  1 <= rev -> Forall record_ok records -> NoDup (ids records) -> NoDup (aliases records) ->
  serialize_document (make_payload rev records) key = Ok bs ->
  catalog_auth_tag (VDict (make_payload rev records)) key = Ok tag ->
  catalog_auth_tag (VDict (make_payload rev records)) key' = Ok tag' -> tag <> tag' ->
  parse_catalog bs key' = Err CatalogKeyError.
Proof.
  intros Rv R N1 N2 H T T' N. destruct (parse_document _ _ _ _ key' Rv R N1 N2 H) as (tag2 & digest & T2 & _ & P).
  rewrite T in T2. injection T2 as <-. rewrite P. unfold verify_catalog_auth.
  destruct (tag_hex _ _ _ T) as (F1 & _ & A). unfold fixed_hex in F1. apply andb_true_iff in F1 as [F1 _].
  change (length tag =? HEX_LENGTH)%nat with (length tag =? 64)%nat in F1. rewrite F1.
  cbn [negb refuse_if mbind res_bind]. rewrite T'. cbn [mbind res_bind]. unfold compare_digest. rewrite A.
  cbn [mbind res_bind]. rewrite bool_decide_eq_false_2 by congruence. reflexivity.
Qed.

(** The anchor is read back. *)
Lemma fixed_hex_chars s : fixed_hex s = true -> chars s.
Proof.
  unfold fixed_hex. intros H. apply andb_true_iff in H as [_ H]. rewrite forallb_forall in H. apply Forall_forall.
  intros c Hc. apply list_elem_of_In, H in Hc. unfold lower_hex in Hc. lia.
Qed.

Lemma parse_anchor_back a bs : fixed_hex (a_digest a) = true -> 1 <= a_revision a -> anchor_bytes a = Ok bs ->
  parse_anchor bs = Ok a.
Proof.
  intros X R H. unfold anchor_bytes in H. assert (P : plain (anchor_json a)).
  { plain_members; [apply fixed_hex_chars, X|exact I|exact I]. }
  unfold parse_anchor. rewrite (canonical_read _ _ P H). unfold anchor_json in *. proceed. keys_done. proceed. members.
  replace (refuse_if (negb (equals_one _)) _) with (Ok tt : catalog unit) by (vm_compute; reflexivity). proceed.
  unfold hex_text. rewrite X. proceed. rewrite int_back by exact R. proceed. rewrite H. cbn [leak]. proceed.
  rewrite bool_decide_eq_true_2 by reflexivity. destruct a; reflexivity.
Qed.

(** The journals a transaction writes. *)
Record journal_ok (j : Journal) : Prop := {
  jo_step : new_revision j = old_revision j + 1;
  jo_old : 0 <= old_revision j;
  jo_first : old_revision j = 0 <-> old_digest j = None;
  jo_old_hex : match old_digest j with Some d => fixed_hex d = true | None => True end;
  jo_new_hex : fixed_hex (new_digest j) = true;
  jo_old_tag : fixed_hex (old_auth_tag j) = true;
  jo_new_tag : fixed_hex (new_auth_tag j) = true;
}.

Lemma hex_member_back s : fixed_hex s = true -> hex_member (VStr s) = Ok s.
Proof. intros H. unfold hex_member, hex_text. rewrite H. reflexivity. Qed.

Definition sorted_journal (j : Journal) : list (pystr * pyval) :=
  [(py "format", VInt 1); (py "new_auth_tag", VStr (new_auth_tag j)); (py "new_digest", VStr (new_digest j));
   (py "new_revision", VInt (new_revision j)); (py "old_auth_tag", VStr (old_auth_tag j));
   (py "old_digest", optional_json (old_digest j)); (py "old_revision", VInt (old_revision j))].

Lemma parse_journal_back j bs : journal_ok j -> journal_bytes j = Ok bs -> parse_journal_document bs = Ok j.
Proof.
  intros [St O Fi Oh Nh Ot Nt] H.
  assert (C : canonical_json (VDict (sorted_journal j)) = Ok bs).
  { rewrite <- H. unfold journal_bytes. apply canonical_perm; [apply (bool_decide_unpack _); vm_compute; exact I|].
    unfold sorted_journal, journal_payload. cbn [app]. same_elements. }
  assert (P : plain (VDict (sorted_journal j))).
  { unfold sorted_journal. plain_members; try exact I; try (apply fixed_hex_chars; assumption).
    apply plain_optional. destruct (old_digest j); [apply fixed_hex_chars, Oh|exact I]. }
  unfold parse_journal_document. rewrite (canonical_read _ _ P C). proceed. unfold sorted_journal. keys_done. proceed.
  fold (sorted_journal j). rewrite C. unfold sorted_journal. members.
  replace (anchor_unless (equals_one _)) with (Ok tt : catalog unit) by (vm_compute; reflexivity). proceed.
  rewrite ?hex_member_back by assumption. proceed.
  replace (match optional_json (old_digest j) with VNone => Ok None | v => Some <$> hex_member v end) with (Ok (old_digest j) : catalog (option pystr)).
  2: { destruct (old_digest j) as [d|]; [|reflexivity]. cbn [optional_json]. rewrite hex_member_back by exact Oh. reflexivity. }
  proceed. rewrite !int_back by lia. proceed. unfold anchor_unless. rewrite (proj2 (Z.eqb_eq _ _) St). cbn [negb refuse_if]. proceed.
  replace (Bool.eqb (old_revision j =? 0) (bool_decide (old_digest j = None))) with true.
  2: { symmetry. apply eqb_true_iff. destruct (Z.eqb_spec (old_revision j) 0) as [E|E]; symmetry;
       [apply bool_decide_eq_true, Fi, E|apply bool_decide_eq_false; intros E'; apply E, Fi, E']. }
  cbn [negb refuse_if]. proceed. rewrite ?hex_member_back by assumption. proceed. cbn [leak]. proceed.
  rewrite bool_decide_eq_true_2 by reflexivity. destruct j; reflexivity.
Qed.
End catalogs.

(** ** Documents of digests and numbers always print *)

Definition ascii (s : pystr) : Prop := Forall (fun c => 0 <= c < 128) s.

Definition flat_value (v : pyval) : Prop := match v with VStr s => ascii s | VInt _ | VNone => True | _ => False end.

Lemma ascii_app a b : ascii a -> ascii b -> ascii (a ++ b).
Proof. intros A B. apply Forall_app. auto. Qed.

Lemma ascii_string s : ascii s -> ascii (json_string s).
Proof.
  intros A. unfold json_string. constructor; [lia|]. apply ascii_app; [|repeat constructor; lia].
  apply Forall_bind. eapply Forall_impl; [exact A|]. intros c Hc. cbv beta in Hc. unfold compose, json_escape, hex_digit.
  pose proof (Z.div_le_upper_bound c 16 8 ltac:(lia) ltac:(lia)). pose proof (Z.div_pos c 16 ltac:(lia) ltac:(lia)).
  pose proof (Z.mod_pos_bound c 16 ltac:(lia)).
  repeat match goal with |- context [if ?b then _ else _] => destruct b end; repeat constructor; lia.
Qed.

Lemma ascii_int n : ascii (str_int n).
Proof.
  assert (P : forall k, 0 <= k -> ascii (str_int k)).
  { intros k Hk. destruct (str_int_nonneg k Hk) as [Dg _]. eapply Forall_impl; [exact Dg|]. unfold digit_char. lia. }
  destruct (Z.le_gt_cases 0 n); [apply P; assumption|]. rewrite str_int_neg by assumption. constructor; [lia|apply P; lia].
Qed.

Lemma flat_prints v : flat_value v -> exists t, json_dumps v = Ok t /\ ascii t.
Proof.
  destruct v; cbn; try contradiction.
  - intros _. eexists. split; [reflexivity|]. apply (bool_decide_unpack (Forall _ _)). vm_compute. exact I.
  - intros A. eexists. split; [reflexivity|apply ascii_string, A].
  - intros _. eexists. split; [reflexivity|apply ascii_int].
Qed.

Lemma ascii_join parts : Forall ascii parts -> ascii (join_comma parts).
Proof.
  induction 1 as [|p parts A H IH]; [constructor|]. cbn. destruct parts; [exact A|].
  apply ascii_app; [exact A|]. constructor; [lia|exact IH].
Qed.

Lemma ascii_encodes s : ascii s -> exists bs, utf8_encode s = Some bs.
Proof.
  induction 1 as [|c s Hc _ [bs IH]]; [eexists; reflexivity|]. cbn [utf8_encode]. unfold utf8_char.
  destruct (Z.ltb_spec c 0); [lia|]. destruct (Z.ltb_spec c 128); [|lia]. cbn [mbind option_bind]. rewrite IH. eexists. reflexivity.
Qed.

Lemma flat_document items : Forall (fun kv => ascii kv.1 /\ flat_value kv.2) items ->
  exists bs, canonical_json (VDict items) = Ok bs.
Proof.
  intros A. assert (P : exists t, json_dumps (VDict items) = Ok t /\ ascii t).
  { cbn [json_dumps]. set (l := merge_sort key_le _).
    assert (Fl : Forall (fun kv : pystr * res canonical_error pystr => ascii kv.1 /\ exists t, kv.2 = Ok t /\ ascii t) l).
    { unfold l. rewrite merge_sort_Permutation. apply Forall_fmap. eapply Forall_impl; [exact A|].
      intros [k v] [Hk Hv]. cbn in *. split; [exact Hk|apply flat_prints, Hv]. }
    clearbody l. assert (R : exists parts, mapM_res json_member l = Ok parts /\ Forall ascii parts).
    { induction Fl as [|[k r] l [Hk (t & Hr & Ht)] _ (parts & Hp & Hf)]; [eexists; split; [reflexivity|constructor]|].
      cbn [mapM_res]. rewrite Hp. unfold json_member. cbn [fst snd] in *. rewrite Hr. cbn [mbind res_bind].
      eexists. split; [reflexivity|].
      constructor; [|exact Hf]. apply ascii_app; [apply ascii_string, Hk|]. constructor; [lia|exact Ht]. }
    destruct R as (parts & -> & Hf). cbn. eexists. split; [reflexivity|]. constructor; [lia|].
    apply ascii_app; [apply ascii_join, Hf|]. repeat constructor; lia. }
  destruct P as (t & T & At). destruct (ascii_encodes t At) as [bs E]. exists bs. unfold canonical_json. rewrite T, E. reflexivity.
Qed.

Lemma hex_ascii s : fixed_hex s = true -> ascii s.
Proof.
  unfold fixed_hex. intros H. apply andb_true_iff in H as [_ H]. rewrite forallb_forall in H. apply Forall_forall.
  intros c Hc. apply list_elem_of_In, H in Hc. unfold lower_hex in Hc. lia.
Qed.

Ltac flat_items := repeat match goal with
  | |- Forall _ (_ :: _) => apply List.Forall_cons; cbn [fst snd]
  | |- Forall _ [] => apply List.Forall_nil
  | |- ascii (py _) /\ _ => split; [apply (bool_decide_unpack (Forall _ _)); vm_compute; exact I|]
  | |- flat_value (VInt _) => exact I
  | |- flat_value (VStr _) => cbn [flat_value]; apply hex_ascii
  end.

Lemma anchor_prints a : fixed_hex (a_digest a) = true -> exists bs, anchor_bytes a = Ok bs.
Proof. intros H. apply flat_document. flat_items. exact H. Qed.

Lemma payload_prints orev od nrev nd : match od with Some d => fixed_hex d = true | None => True end -> fixed_hex nd = true ->
  exists bs, canonical_json (VDict (journal_payload orev od nrev nd)) = Ok bs.
Proof. intros O N. apply flat_document. unfold journal_payload. flat_items; [exact N|]. destruct od; [apply hex_ascii, O|exact I]. Qed.

Lemma journal_prints j : journal_ok j -> exists bs, journal_bytes j = Ok bs.
Proof.
  intros [_ _ _ O N Ot Nt]. apply flat_document. unfold journal_payload. cbn [app]. flat_items; try assumption.
  destruct (old_digest j); [apply hex_ascii, O|exact I].
Qed.

Section journals.
Context {F : PyFloat} {D : DatasourceLib} {L : PyLib} {PL : Transformers.PyLibLaws L}.

Lemma digest_hex payload d : catalog_digest payload = Ok d -> fixed_hex d = true.
Proof.
  unfold catalog_digest. intros H. apply bind_Ok in H as (t & _ & H). injection H as <-.
  apply hexdigest_hex. exact (Transformers.digest_length Transformers.SHA256 t).
Qed.

(** A journal can be made of a step of the revision with valid keys; each key
    has the role it was given, and that of the other if their tags agree. *)
Lemma new_journal_total orev od nd old_key new_key :
  0 <= orev -> (orev = 0 <-> od = None) -> match od with Some d => fixed_hex d = true | None => True end -> fixed_hex nd = true ->
  validate_master_key (VBytes old_key) = Ok old_key -> validate_master_key (VBytes new_key) = Ok new_key ->
  exists j, new_journal orev od (orev + 1) nd old_key new_key = Ok j /\ journal_ok j /\
    old_revision j = orev /\ old_digest j = od /\ new_revision j = orev + 1 /\ new_digest j = nd /\
    catalog_auth_tag (payload_of j) old_key = Ok (old_auth_tag j) /\
    catalog_auth_tag (payload_of j) new_key = Ok (new_auth_tag j).
Proof.
  intros H0 H1 Ho Hn Ko Kn. destruct (payload_prints orev od (orev + 1) nd Ho Hn) as [bs B].
  assert (T : forall k, validate_master_key (VBytes k) = Ok k -> exists t,
    catalog_auth_tag (VDict (journal_payload orev od (orev + 1) nd)) k = Ok t).
  { intros k K. unfold catalog_auth_tag, auth_key. rewrite K. cbn [mbind res_bind]. rewrite B. eexists. reflexivity. }
  destruct (T _ Ko) as [t To]. destruct (T _ Kn) as [u Tn].
  unfold new_journal. cbv zeta. rewrite To. cbn [mbind res_bind]. rewrite Tn. cbn [mbind res_bind]. eexists. split; [reflexivity|].
  split; [|unfold payload_of; cbn; auto 10].
  constructor; cbn; try assumption; try lia; [apply (tag_hex _ _ _ To)|apply (tag_hex _ _ _ Tn)].
Qed.
End journals.

(** *** What a reader accepts *)

(** An object with exactly these keys is its members under them. *)
Lemma members_perm items ks : NoDup items.*1 -> NoDup ks -> same_keys items ks = true ->
  items ≡ₚ map (fun k => (k, member k items)) ks.
Proof.
  intros N K S'. unfold same_keys in S'. rewrite bool_decide_eq_true in S'.
  assert (M : forall k v, (k, v) ∈ items -> member k items = v).
  { clear - N. intros k v H. unfold member. destruct (list_find _ items) as [[i kv]|] eqn:Fd.
    - apply list_find_Some in Fd as (Hi & E & _). destruct kv as [k' v']. cbn in *. subst k'.
      apply list_elem_of_lookup in H as [j Hj].
      assert (i = j) as <- by (eapply (NoDup_lookup items.*1 i j k N); rewrite list_lookup_fmap, ?Hi, ?Hj; reflexivity).
      congruence.
    - apply list_find_None in Fd. rewrite Forall_forall in Fd. exfalso. apply (Fd _ H). reflexivity. }
  apply NoDup_Permutation.
  - eapply (NoDup_fmap_1 fst), N.
  - eapply (NoDup_fmap_1 fst). change (NoDup (map fst (map (fun k => (k, member k items)) ks))). rewrite map_map, map_id. exact K.
  - intros [k v]. rewrite list_elem_of_fmap. split.
    + intros H. exists k. split; [rewrite (M k v H); reflexivity|].
      assert (Hk : k ∈ (list_to_set items.*1 : gset pystr)) by (apply elem_of_list_to_set, (list_elem_of_fmap_2 fst _ (k, v)), H).
      rewrite S' in Hk. apply elem_of_list_to_set in Hk. exact Hk.
    + intros (k' & E & Hk). injection E as -> ->.
      assert (Hk' : k' ∈ (list_to_set ks : gset pystr)) by (apply elem_of_list_to_set, Hk).
      rewrite <- S' in Hk'. apply elem_of_list_to_set, list_elem_of_fmap in Hk' as ([k2 v2] & E2 & H2). cbn in E2. subst k2.
      rewrite (M _ _ H2). exact H2.
Qed.

Lemma corrupt_unless_Ok b u : corrupt_unless b = Ok u <-> b = true.
Proof. unfold corrupt_unless. rewrite refuse_if_Ok, negb_false_iff. reflexivity. Qed.

Lemma anchor_unless_Ok b u : anchor_unless b = Ok u <-> b = true.
Proof. unfold anchor_unless. rewrite refuse_if_Ok, negb_false_iff. reflexivity. Qed.

Lemma mapping_Ok v items : require_mapping v = Ok items <-> v = VDict items.
Proof. destruct v; cbn; split; congruence. Qed.

Lemma int_Ok v minimum n : require_int v minimum = Ok n <-> v = VInt n /\ minimum <= n.
Proof.
  destruct v; cbn; try (split; [discriminate|intros [H _]; discriminate]). split.
  - intros H. apply bind_Ok in H as (u & H & E). injection E as <-. apply corrupt_unless_Ok in H. split; [reflexivity|lia].
  - intros [E H]. injection E as ->. unfold corrupt_unless. destruct (Z.leb_spec minimum n); [reflexivity|lia].
Qed.

Lemma hex_member_Ok v s : hex_member v = Ok s -> fixed_hex s = true.
Proof.
  unfold hex_member, hex_text. destruct v; try discriminate. destruct (fixed_hex _) eqn:E; [|discriminate].
  intros H. injection H as <-. exact E.
Qed.

(** A journal that is read goes from one revision to the next. *)
Lemma journal_read {F : PyFloat} bs j : parse_journal_document bs = Ok j ->
  new_revision j = old_revision j + 1 /\ 0 <= old_revision j /\ fixed_hex (new_digest j) = true.
Proof.
  intros H. unfold parse_journal_document in H.
  repeat (apply bind_Ok in H as (? & ?H & H)). injection H as <-. cbn [new_revision old_revision new_digest].
  repeat match goal with X : require_int _ _ = Ok _ |- _ => apply int_Ok in X as [_ X] end.
  match goal with X : anchor_unless (_ =? _) = Ok _ |- _ => apply anchor_unless_Ok, Z.eqb_eq in X; split; [exact X|] end.
  split; [assumption|]. eapply hex_member_Ok. eassumption.
Qed.

Lemma leak_Ok {A} (m : crypto A) x : leak m = Ok x <-> m = Ok x.
Proof. destruct m; cbn; split; congruence. Qed.

Lemma of_model_Ok {A} (m : checked A) x : of_model m = Ok x <-> m = Ok x.
Proof. destruct m; cbn; split; congruence. Qed.

(** Take the binds of an accepted document apart. *)
Ltac accepted := repeat match goal with
  | H : (_ ≫= _) = Ok _ |- _ => let x := fresh "x" in let H1 := fresh "A" in apply bind_Ok in H as (x & H1 & H)
  | H : corrupt_unless _ = Ok _ |- _ => apply corrupt_unless_Ok in H
  | H : anchor_unless _ = Ok _ |- _ => apply anchor_unless_Ok in H
  | H : refuse_if (negb _) _ = Ok _ |- _ => apply refuse_if_Ok, negb_false_iff in H
  | H : require_keys _ _ = Ok _ |- _ => apply corrupt_unless_Ok in H
  | H : require_mapping _ = Ok _ |- _ => apply mapping_Ok in H
  | H : require_int _ _ = Ok _ |- _ => apply int_Ok in H as [? ?]
  | H : leak _ = Ok _ |- _ => apply leak_Ok in H
  | H : of_model _ = Ok _ |- _ => apply of_model_Ok in H
  | H : bool_decide _ = true |- _ => apply bool_decide_eq_true in H
  | H : _ && _ = true |- _ => apply andb_true_iff in H as [? ?]
  end.

Section acceptance.
Context {F : PyFloat} {D : DatasourceLib} {L : PyLib}.

Lemma safe_loads_distinct data v : safe_json_loads data = Ok v -> distinct_keys v.
Proof.
  unfold safe_json_loads. destruct (utf8_decode data) as [t|]; [|discriminate]. destruct (loads t) as [w|] eqn:E; [|discriminate].
  intros H. injection H as <-. eapply loads_distinct, E.
Qed.

Lemma verify_Ok payload tag key : verify_catalog_auth payload tag key = Ok tt ->
  exists t, tag = VStr t /\ catalog_auth_tag payload key = Ok t.
Proof.
  unfold verify_catalog_auth. intros H. assert (T : exists t, tag = VStr t) by (destruct tag; try discriminate; eauto).
  destruct T as [t ->].
  apply bind_Ok in H as (? & _ & H). apply bind_Ok in H as (e & He & H). apply bind_Ok in H as (same & Hs & H).
  apply refuse_if_Ok, negb_false_iff in H. subst same. unfold compare_digest in Hs. destruct (forallb _ t); [|discriminate].
  injection Hs as Hs. apply bool_decide_eq_true in Hs as ->. exists t. split; [reflexivity|exact He].
Qed.

Lemma value_error_Ok {A} (m : crypto A) e x : value_error m e = Ok x -> m = Ok x.
Proof. destruct m as [|[]]; cbn; congruence. Qed.

(** The parts of a record pass their models' checks. *)
Record record_valid (r : DatasourceRecord) : Prop := {
  valid_record : datasource_record r = Ok r;
  valid_tls : tls_settings (d_tls (draft r)) = Ok (d_tls (draft r));
  valid_limits : datasource_limits (d_limits (draft r)) = Ok (d_limits (draft r));
  valid_destination : destination_policy_ (d_destination_policy (draft r)) = Ok (d_destination_policy (draft r));
  valid_test : last_test_ (last_test r) = Ok (last_test r);
  valid_secret : encrypted_secret (nonce (upstream_secret r)) (ciphertext (upstream_secret r)) = Ok (upstream_secret r);
}.

Lemma tls_same t u : tls_settings t = Ok u -> u = t /\ tls_settings u = Ok u.
Proof. intros H. assert (E : u = t) by (revert H; unfold tls_settings; intros H; accepted; congruence). subst. auto. Qed.

Lemma limits_same t u : datasource_limits t = Ok u -> u = t /\ datasource_limits u = Ok u.
Proof. intros H. assert (E : u = t) by (revert H; unfold datasource_limits; intros H; accepted; congruence). subst. auto. Qed.

Lemma destination_same t u : destination_policy_ t = Ok u -> u = t /\ destination_policy_ u = Ok u.
Proof. intros H. assert (E : u = t) by (revert H; unfold destination_policy_; intros H; accepted; congruence). subst. auto. Qed.

Lemma test_same t u : last_test_ t = Ok u -> u = t /\ last_test_ u = Ok u.
Proof. intros H. assert (E : u = t) by (revert H; unfold last_test_; intros H; accepted; congruence). subst. auto. Qed.

Lemma draft_same t u : datasource_draft t = Ok u -> u = t /\ datasource_draft u = Ok u.
Proof. intros H. assert (E : u = t) by (revert H; unfold datasource_draft; intros H; accepted; congruence). subst. auto. Qed.

Lemma record_same t u : datasource_record t = Ok u -> u = t /\ datasource_record u = Ok u.
Proof. intros H. assert (E : u = t) by (revert H; unfold datasource_record; intros H; accepted; congruence). subst. auto. Qed.

Lemma secret_same n c e : encrypted_secret n c = Ok e -> encrypted_secret (nonce e) (ciphertext e) = Ok e.
Proof.
  intros H. assert (E : e = {| nonce := n; ciphertext := c |}) by (revert H; unfold encrypted_secret; intros H; accepted; congruence).
  subst. exact H.
Qed.

Lemma parse_record_valid v r : parse_record v = Ok r -> record_valid r.
Proof.
  unfold parse_record. intros H. accepted.
  repeat match goal with
  | H : destination_policy_ _ = Ok ?x |- _ => is_var x; apply destination_same in H as [-> H]
  | H : tls_settings _ = Ok ?x |- _ => is_var x; apply tls_same in H as [-> H]
  | H : datasource_limits _ = Ok ?x |- _ => is_var x; apply limits_same in H as [-> H]
  | H : last_test_ _ = Ok ?x |- _ => is_var x; apply test_same in H as [-> H]
  | H : datasource_draft _ = Ok ?x |- _ => is_var x; apply draft_same in H as [-> H]
  | H : datasource_record _ = Ok ?x |- _ => is_var x; apply record_same in H as [-> H]
  | H : parse_envelope _ = Ok _ |- _ => unfold parse_envelope in H; accepted
  end.
  match goal with H : encrypted_secret _ _ = Ok ?x |- _ => apply secret_same in H end.
  constructor; assumption.
Qed.
End acceptance.

Section accepted.
Context {F : PyFloat} {D : DatasourceLib} {L : PyLib}.

Lemma auth_tag_perm items items' key : NoDup items.*1 -> items ≡ₚ items' ->
  catalog_auth_tag (VDict items) key = catalog_auth_tag (VDict items') key.
Proof. intros N P. unfold catalog_auth_tag. rewrite (canonical_perm _ _ N P). reflexivity. Qed.

Lemma digest_perm items items' : NoDup items.*1 -> items ≡ₚ items' ->
  catalog_digest (VDict items) = catalog_digest (VDict items').
Proof. intros N P. unfold catalog_digest. rewrite (canonical_perm _ _ N P). reflexivity. Qed.

(** The members of an authenticated payload. *)
Definition payload_members (rev : Z) (records : list pyval) (format schema : pyval) : list (pystr * pyval) :=
  [(py "catalog_revision", VInt rev); (py "datasources", VList records); (py "format", format);
   (py "schema_version", schema)].

(** The catalog's content: what a payload says, once its records are read. *)
Record catalog_valid (p : ParsedCatalog) : Prop := {
  cv_revision : 1 <= c_revision p;
  cv_records : Forall record_valid (c_records p);
  cv_sorted : py_sorted (ids (c_records p)) = ids (c_records p);
  cv_ids : NoDup (ids (c_records p));
  cv_aliases : NoDup (aliases (c_records p));
}.

Lemma mapM_valid l records : mapM_res parse_record l = Ok records -> Forall record_valid records.
Proof.
  intros H. apply mapM_res_Forall2 in H. induction H as [|v r l records Hv _ IH]; constructor; [|exact IH].
  eapply parse_record_valid, Hv.
Qed.

(** What is accepted is a document printed, and authenticated, with the key. *)
Lemma parse_catalog_accepts data key p : parse_catalog data key = Ok p ->
  catalog_valid p /\
  exists l format schema,
    equals_one format = true /\ equals_one schema = true /\ mapM_res parse_record l = Ok (c_records p) /\
    catalog_digest (VDict (payload_members (c_revision p) l format schema)) = Ok (c_digest p) /\
    serialize_document (payload_members (c_revision p) l format schema) key = Ok data.
Proof.
  unfold parse_catalog. intros H. apply bind_Ok in H as (document & Hd & H). apply safe_loads_distinct in Hd. accepted.
  match goal with H : value_error _ _ = Ok ?u |- _ => apply value_error_Ok in H; destruct u; apply verify_Ok in H as (tag & Ht & Auth) end.
  match goal with H : (match member (py "datasources") ?raw with _ => _ end) = Ok ?rs |- _ =>
    rename H into Hr; rename raw into items; rename rs into records end.
  assert (Dl : exists l, member (py "datasources") items = VList l /\ mapM_res parse_record l = Ok records).
  { destruct (member (py "datasources") items); try discriminate. eauto. }
  destruct Dl as (l & Dl & Rs).
  repeat match goal with H : document = _ |- _ => rewrite H in Hd; clear H end.
  apply distinct_dict in Hd as [Nd Ds].
  assert (P : items ≡ₚ map (fun k => (k, member k items)) (map py ["auth"; "catalog_revision"; "datasources"; "format"; "schema_version"]%string))
    by (apply members_perm; [exact Nd|apply (bool_decide_unpack _); vm_compute; exact I|assumption]).
  injection H as <-. cbn [c_revision c_digest c_records] in *. split; [constructor; try assumption; eapply mapM_valid, Rs|].
  cbn [map] in P.
  repeat match goal with H : member ?k items = _ |- _ => rewrite H in P; clear H end.
  set (f := member (py "format") items) in *. set (g := member (py "schema_version") items) in *.
  assert (Pay : filter (fun kv => kv.1 <> py "auth") items ≡ₚ payload_members x2 l f g).
  { rewrite P. reflexivity. }
  assert (Np : NoDup (filter (fun kv => kv.1 <> py "auth") items).*1).
  { rewrite Pay. apply (bool_decide_unpack _). vm_compute. exact I. }
  rewrite (auth_tag_perm _ _ _ Np Pay) in Auth. rewrite (digest_perm _ _ Np Pay) in *.
  exists l, f, g. repeat (split; [assumption|]). unfold serialize_document. rewrite Auth. cbn [mbind res_bind].
  subst. rewrite <- A6. symmetry. apply canonical_same.
  assert (Px : x3 ≡ₚ [(py "algorithm", member (py "algorithm") x3); (py "tag", VStr tag)]).
  { rewrite Forall_forall in Ds. assert (Hx : (py "auth", VDict x3) ∈ items) by (rewrite P; left).
    apply Ds in Hx. cbn [snd] in Hx. apply distinct_dict in Hx as [Nx _]. rewrite <- Ht.
    apply (members_perm x3 (map py ["algorithm"; "tag"]%string)); [exact Nx|apply (bool_decide_unpack _); vm_compute; exact I|assumption]. }
  apply (same_dict _ (payload_members x2 l f g ++ [(py "auth", VDict x3)])); [exact Nd| |].
  - rewrite P. unfold payload_members. symmetry. apply Permutation_cons_append.
  - apply Forall2_app; [apply Forall_Forall2_diag, Forall_forall; intros; split; [reflexivity|constructor]|].
    constructor; [|constructor]. split; [reflexivity|]. cbn [snd].
    apply (same_dict _ [(py "algorithm", member (py "algorithm") x3); (py "tag", VStr tag)]).
    + rewrite Px. apply (bool_decide_unpack _). vm_compute. exact I.
    + symmetry. exact Px.
    + constructor; [|constructor; [|constructor]]; (split; [reflexivity|]); [|constructor]. cbn [snd].
      destruct (member (py "algorithm") x3); try discriminate. apply bool_decide_eq_true in A5 as ->. constructor.
Qed.
End accepted.

(** ** Secrets *)

Section secrets.
Context {F : PyFloat} {D : DatasourceLib} {L : PyLib}.

(** Values read back as they are have one text each. *)
Lemma canonical_injective v w bs : plain v -> plain w -> canonical_json v = Ok bs -> canonical_json w = Ok bs -> v = w.
Proof.
  intros P Q H K. apply canonical_read in H; [|exact P]. apply canonical_read in K; [|exact Q]. congruence.
Qed.

(** The associated data names one datasource at one revision. *)
Lemma aad_injective i s r i' s' r' bs : chars i -> chars i' ->
  aad i s r = Ok bs -> aad i' s' r' = Ok bs -> i = i' /\ s = s' /\ r = r'.
Proof.
  intros C C' H H'. unfold aad in *.
  assert (P : forall i s r, chars i -> plain (VDict [(py "datasource_id", VStr i); (py "field", VStr SECRET_FIELD);
    (py "revision", VInt r); (py "schema_version", VInt s)])).
  { intros j a b Cj. plain_members; try exact I; [exact Cj|apply plain_literal]. }
  pose proof (canonical_injective _ _ _ (P i s r C) (P i' s' r' C') H H') as E. injection E as E1 E2 E3.
  repeat split; assumption.
Qed.

Lemma as_crypto_Ok {A} (m : crypto A) x : as_crypto m = Ok x <-> m = Ok x.
Proof. destruct m; cbn; split; congruence. Qed.

Lemma master_key_bytes key k : validate_master_key (VBytes key) = Ok k -> k = key.
Proof.
  unfold validate_master_key. cbn [mbind res_bind]. intros H. apply bind_Ok in H as (u & _ & H). congruence.
Qed.

Lemma seal_secret_Ok moment text key i s r e : seal_secret moment text key i s r = Ok e ->
  text <> [] /\ exists a t, validate_master_key (VBytes key) = Ok key /\ aad i s r = Ok a /\ utf8_encode text = Some t /\
  e = {| nonce := token_bytes moment NONCE_BYTES; ciphertext := aes_encrypt key (token_bytes moment NONCE_BYTES) t a |} /\
  encrypted_secret (nonce e) (ciphertext e) = Ok e.
Proof.
  unfold seal_secret. intros H. apply bind_Ok in H as (? & N & H). apply refuse_if_Ok, bool_decide_eq_false in N.
  apply bind_Ok in H as (k & K & H). cbn zeta in H. apply bind_Ok in H as (t & T & H). apply bind_Ok in H as (a & A & H).
  split; [exact N|]. exists a, t. pose proof (master_key_bytes _ _ K) as ->. apply (proj1 (as_crypto_Ok _ _)) in A.
  split; [exact K|]. split; [exact A|]. split; [destruct (utf8_encode text); congruence|].
  destruct (encrypted_secret _ _) as [e'|] eqn:E; [|discriminate]. injection H as ->.
  pose proof (secret_same _ _ _ E) as E'. split; [|exact E'].
  unfold encrypted_secret in E. apply bind_Ok in E as (? & _ & E). congruence.
Qed.

Lemma sealed_opens {DL : DatasourceLibLaws D} moment text key i s r e :
  seal_secret moment text key i s r = Ok e -> open_secret e key i s r = Ok text.
Proof.
  intros H. destruct (seal_secret_Ok _ _ _ _ _ _ _ H) as (N & a & t & K & A & T & -> & _).
  unfold open_secret. rewrite K. cbn [mbind res_bind]. rewrite A. cbn [as_crypto mbind res_bind nonce ciphertext].
  rewrite decrypt_encrypt, (utf8_decode_encode _ _ T). destruct text; [contradiction|reflexivity].
Qed.
End secrets.

(** ** Properties *)

(** C39: what [_serialize_document] writes, the same key reads back: the
    revision, its digest, and the records by order of their ids; a key whose
    authentication of the payload differs is refused as a wrong key, not as a
    corrupt catalog. *)
Theorem catalog_roundtrip {F : PyFloat} {D : DatasourceLib} {L : PyLib} {PL : Transformers.PyLibLaws L}
    rev records key bs :
  1 <= rev -> Forall record_ok records -> NoDup (ids records) -> NoDup (aliases records) ->
  serialize_document (make_payload rev records) key = Ok bs ->
  exists tag digest,
    catalog_auth_tag (VDict (make_payload rev records)) key = Ok tag /\
    catalog_digest (VDict (make_payload rev records)) = Ok digest /\
    parse_catalog bs key = Ok {| c_revision := rev; c_digest := digest; c_records := merge_sort id_le records |} /\
    forall key' tag', catalog_auth_tag (VDict (make_payload rev records)) key' = Ok tag' -> tag' <> tag ->
      parse_catalog bs key' = Err CatalogKeyError.
Proof.
  intros Rv R N1 N2 H. destruct (payload_digest _ _ _ _ H) as (tag & _ & T & _).
  destruct (parse_serialized _ _ _ _ Rv R N1 N2 H) as (digest & Dg & P).
  exists tag, digest. split; [exact T|]. split; [exact Dg|]. split; [exact P|].
  intros key' tag' T' N. eapply parse_other_key; eauto.
Qed.

(** a document is accepted only if it is, byte for byte, the one
    [_serialize_document] prints with that key for the payload it holds, whose
    records are those returned and whose digest is the one returned. *)
Theorem catalog_accepted_authentic {F : PyFloat} {D : DatasourceLib} {L : PyLib} data key p :
  parse_catalog data key = Ok p ->
  exists l format schema,
    equals_one format = true /\ equals_one schema = true /\ mapM_res parse_record l = Ok (c_records p) /\
    catalog_digest (VDict (payload_members (c_revision p) l format schema)) = Ok (c_digest p) /\
    serialize_document (payload_members (c_revision p) l format schema) key = Ok data.
Proof. intros H. apply (parse_catalog_accepts data key p H). Qed.

(** Every catalog accepted is well formed: a positive revision; records
    whose every part passes its model's checks, sorted by id; no id and no
    alias twice. *)
Theorem catalog_accepted_wellformed {F : PyFloat} {D : DatasourceLib} {L : PyLib} data key p :
  parse_catalog data key = Ok p ->
  1 <= c_revision p /\ Forall record_valid (c_records p) /\
  py_sorted (ids (c_records p)) = ids (c_records p) /\ NoDup (ids (c_records p)) /\ NoDup (aliases (c_records p)).
Proof. intros H. destruct (parse_catalog_accepts data key p H) as [[] _]. auto. Qed.

(** a secret sealed is opened with the key, datasource and revision it was
    sealed for; for another datasource or revision the cipher is given other
    associated data. *)
Theorem secret_roundtrip {F : PyFloat} {D : DatasourceLib} {DL : DatasourceLibLaws D} moment text key i s r e :
  chars i -> seal_secret moment text key i s r = Ok e ->
  open_secret e key i s r = Ok text /\
  forall i' s' r' a', chars i' -> aad i' s' r' = Ok a' -> aad i s r = Ok a' -> i' = i /\ s' = s /\ r' = r.
Proof.
  intros C H. split; [exact (sealed_opens _ _ _ _ _ _ _ H)|].
  intros i' s' r' a' C' A' A2. exact (aad_injective _ _ _ _ _ _ _ C' C A' A2).
Qed.

(** A journal is read back as it was written, by a holder of either of
    the two keys it was made with, who is told the roles its key has; and the
    anchor of a transaction is read back. *)
Theorem journal_roundtrip {F : PyFloat} {D : DatasourceLib} {L : PyLib} {PL : Transformers.PyLibLaws L} j bs key expected :
  journal_ok j -> journal_bytes j = Ok bs ->
  catalog_auth_tag (payload_of j) key = Ok expected ->
  parse_journal bs key =
    (if bool_decide (expected = old_auth_tag j) || bool_decide (expected = new_auth_tag j)
     then Ok (j, bool_decide (expected = old_auth_tag j), bool_decide (expected = new_auth_tag j))
     else Err CatalogKeyError) /\
  forall text, anchor_bytes {| a_revision := new_revision j; a_digest := new_digest j |} = Ok text ->
    parse_anchor text = Ok {| a_revision := new_revision j; a_digest := new_digest j |}.
Proof.
  intros J B T. split.
  - unfold parse_journal. rewrite (parse_journal_back j bs J B). proceed. unfold journal_roles. rewrite T. cbn [leak]. proceed.
    cbn [fst snd]. destruct (bool_decide (expected = old_auth_tag j)), (bool_decide (expected = new_auth_tag j)); reflexivity.
  - intros text A. apply parse_anchor_back; [apply J|cbn; pose proof (jo_step _ J); pose proof (jo_old _ J); lia|exact A].
Qed.

(** ** A concrete catalog *)

Definition toy_lower (c : Z) : Z := if (65 <=? c) && (c <=? 90) then c + 32 else c.

#[local] Instance toy_datasource_lib : DatasourceLib :=
  {| compressed_address text := if forallb (fun c => is_digit c || (c =? 46)) text then Some text else None;
     timestamp_zone text := Some (contains (py "+") text);
     str_lower := map toy_lower;
     policy_model v := match v with VDict _ => Some v | _ => None end;
     hkdf key := key;
     aes_encrypt key nonce plaintext aad := plaintext ++ replicate 16 Byte.x00;
     aes_decrypt key nonce ciphertext aad := Some (take (length ciphertext - 16) ciphertext);
     token_bytes moment n := replicate n (z2b (Z.of_nat moment)) |}.

#[local] Instance toy_datasource_laws : DatasourceLibLaws toy_datasource_lib.
Proof.
  split; intros; cbn [aes_encrypt aes_decrypt token_bytes toy_datasource_lib].
  - rewrite length_app, length_replicate. f_equal. replace (length plaintext + 16 - 16)%nat with (length plaintext) by lia.
    rewrite take_app_length. reflexivity.
  - rewrite length_app, length_replicate. reflexivity.
  - apply length_replicate.
Qed.

#[local] Instance toy_float : PyFloat := {| float_repr t := t |}.
#[local] Instance toy_lib : PyLib := Transformers.sample_lib.
#[local] Instance toy_laws : Transformers.PyLibLaws toy_lib := Transformers.sample_laws.

Definition toy_key : list byte := replicate 32 Byte.x11.
Definition other_key : list byte := replicate 32 Byte.x22.

Definition toy_draft (alias : pystr) : DatasourceDraft :=
  {| d_alias := alias; d_display_name := py "Main base"; d_host := py "db.example.com"; d_port := 5432;
     d_database := py "erp"; d_username := py "mask"; d_enabled := true;
     d_tls := {| mode := py "verify-full"; server_name := None |};
     d_policy := {| policy_value := VDict [(py "rules", VTuple [])] |};
     d_limits := {| statement_timeout_ms := 30000; max_rows := 100; max_sessions := 4 |};
     d_destination_policy := {| allow_public := false; allow_loopback := false; allowed_hosts := [py "db.example.com"] |};
     d_resolved_addresses := [py "10.0.0.7"] |}.

Definition toy_secret (i : pystr) (rev : Z) : EncryptedSecret :=
  match seal_secret 5 (py "s3cret") toy_key i 1 rev with Ok e => e | Err _ => {| nonce := []; ciphertext := [] |} end.

Definition toy_record (i alias : pystr) : DatasourceRecord :=
  {| id_ := i; draft := toy_draft alias; revision := 1; last_test := never_tested; upstream_secret := toy_secret i 1 |}.

Definition toy_id (c : Z) : pystr := py "dso_" ++ replicate 32 c.
Definition toy_records : list DatasourceRecord := [toy_record (toy_id 98) (py "sales"); toy_record (toy_id 97) (py "erp")].

Definition toy_document : list byte :=
  match serialize_document (make_payload 3 toy_records) toy_key with Ok b => b | Err _ => [] end.

Lemma toy_policy_ok alias : let p := d_policy (toy_draft alias) in
  plain (policy_to_mapping p) /\ policy_from_mapping (policy_to_mapping p) = Ok p.
Proof.
  split; [|vm_compute; reflexivity]. change (plain (VDict [(py "rules", VList [])])). plain_members. exact I.
Qed.

Lemma toy_records_ok : Forall record_ok toy_records.
Proof.
  assert (C : forall s, forallb (fun c => 0 <=? c) s = true -> chars s).
  { intros s H. rewrite forallb_forall in H. apply Forall_forall. intros c Hc. apply list_elem_of_In, H in Hc. lia. }
  unfold toy_records.
  repeat match goal with |- Forall record_ok (_ :: _) => apply List.Forall_cons | |- Forall record_ok [] => apply List.Forall_nil end.
  all: constructor; try (vm_compute; reflexivity); try apply toy_policy_ok.
  all: cbn [toy_record toy_draft draft id_ d_alias d_display_name d_host d_database d_username d_destination_policy allowed_hosts
            d_resolved_addresses d_tls mode server_name last_test never_tested status checked_at opt_chars];
    repeat match goal with |- _ /\ _ => split | |- True => exact I | |- chars _ => apply C; vm_compute; reflexivity
    | |- Forall _ (_ :: _) => apply List.Forall_cons | |- Forall _ [] => apply List.Forall_nil end.
Qed.

Lemma toy_serialized : serialize_document (make_payload 3 toy_records) toy_key = Ok toy_document.
Proof. vm_compute. reflexivity. Qed.

Lemma catalog_roundtrip_witness :
  exists tag digest,
    parse_catalog toy_document toy_key = Ok {| c_revision := 3; c_digest := digest; c_records := merge_sort id_le toy_records |} /\
    catalog_auth_tag (VDict (make_payload 3 toy_records)) toy_key = Ok tag /\
    parse_catalog toy_document other_key = Err CatalogKeyError.
Proof.
  destruct (catalog_roundtrip 3 toy_records toy_key toy_document ltac:(lia) toy_records_ok
    ltac:(apply (bool_decide_unpack _); vm_compute; exact I) ltac:(apply (bool_decide_unpack _); vm_compute; exact I)
    toy_serialized) as (tag & digest & T & _ & P & O).
  exists tag, digest. split; [exact P|]. split; [exact T|].
  apply (O other_key (hexdigest other_key)); [vm_compute; reflexivity|].
  assert (E : catalog_auth_tag (VDict (make_payload 3 toy_records)) toy_key = Ok (hexdigest toy_key)) by (vm_compute; reflexivity).
  rewrite E in T. injection T as <-. apply (bool_decide_unpack _). vm_compute. exact I.
Defined.

Definition toy_parsed : ParsedCatalog :=
  match parse_catalog toy_document toy_key with Ok p => p | Err _ => {| c_revision := 0; c_digest := []; c_records := [] |} end.

Lemma toy_accepted : parse_catalog toy_document toy_key = Ok toy_parsed.
Proof. vm_compute. reflexivity. Qed.

Lemma catalog_accepted_authentic_witness :
  length (c_records toy_parsed) = 2%nat /\
  exists l format schema, mapM_res parse_record l = Ok (c_records toy_parsed) /\
    serialize_document (payload_members (c_revision toy_parsed) l format schema) toy_key = Ok toy_document.
Proof.
  split; [vm_compute; reflexivity|].
  destruct (catalog_accepted_authentic toy_document toy_key toy_parsed toy_accepted) as (l & f & s & _ & _ & R & _ & E).
  exists l, f, s. split; [exact R|exact E].
Defined.

Lemma catalog_accepted_wellformed_witness : c_revision toy_parsed = 3 /\ Forall record_valid (c_records toy_parsed).
Proof.
  split; [vm_compute; reflexivity|]. apply (catalog_accepted_wellformed toy_document toy_key toy_parsed toy_accepted).
Defined.

Lemma secret_roundtrip_witness :
  open_secret (toy_secret (toy_id 97) 1) toy_key (toy_id 97) 1 1 = Ok (py "s3cret").
Proof.
  refine (proj1 (secret_roundtrip 5 (py "s3cret") toy_key (toy_id 97) 1 1 (toy_secret (toy_id 97) 1) _ _)).
  - unfold chars. apply (bool_decide_unpack _). vm_compute. exact I.
  - vm_compute. reflexivity.
Defined.

Definition toy_journal : Journal :=
  match new_journal 2 (Some (hexdigest (replicate 32 Byte.x33))) 3 (hexdigest (replicate 32 Byte.x44)) toy_key other_key with
  | Ok j => j
  | Err _ => {| old_revision := 0; old_digest := None; new_revision := 0; new_digest := []; old_auth_tag := []; new_auth_tag := [] |}
  end.

Lemma journal_roundtrip_witness :
  exists bs, journal_bytes toy_journal = Ok bs /\ parse_journal bs other_key = Ok (toy_journal, false, true).
Proof.
  eexists. split; [vm_compute; reflexivity|].
  eapply eq_trans; [refine (proj1 (journal_roundtrip toy_journal _ other_key (new_auth_tag toy_journal) _ _ _))|vm_compute; reflexivity].
  - constructor; try (vm_compute; reflexivity); [vm_compute; discriminate|split; [vm_compute; discriminate|discriminate]].
  - vm_compute. reflexivity.
  - vm_compute. reflexivity.
Defined.

(** ** What the code leaves open *)

(** JSON written with single quotes. *)
Definition quoted (s : string) : list byte := map (fun c => z2b (if c =? 39 then 34 else c)) (py s).

(** A document with a lone surrogate, and one whose tag is 64 characters that
    are not ASCII, raise what neither [parse_catalog] nor its callers catch. *)
Definition surrogate_document : list byte :=
  quoted "{'auth':{'algorithm':'HMAC-SHA256','tag':''},'catalog_revision':1,'datasources':'\ud800','format':1,'schema_version':1}".

Example surrogate_leaks : parse_catalog surrogate_document toy_key = Err (Leaked UnicodeEncodeError).
Proof. vm_compute. reflexivity. Qed.

Definition accented_document : list byte :=
  quoted "{'auth':{'algorithm':'HMAC-SHA256','tag':'" ++ concat (replicate 64 [z2b 195; z2b 169]) ++
  quoted "'},'catalog_revision':1,'datasources':[],'format':1,'schema_version':1}".

Example accented_tag_leaks : parse_catalog accented_document toy_key = Err (Leaked CompareTypeError).
Proof. vm_compute. reflexivity. Qed.
