(* ===== verification/CatalogDisk.v ===== *)
(** * CatalogDisk: the files of the datasource store, and how they are written

    Models the writing half of [datasource/store.py]: the hooks, the checks of
    files, [_atomic_write], [_write_backup], [_purge_rotated_backups],
    [_remove_journal], [_cleanup_managed] and [_persist_transaction], as
    sequences of system calls on a disk that can lose its power.  The hooks
    are the default ones, on a POSIX system.

    Each system call takes an outcome of the environment's [script]: it is
    done; it raises [OSError]; an interrupt is raised at it; or the process
    dies at it - the last three before or after its effect.  An exhausted
    script is one in which every call is done. *)

From S2P Require Import Prelude.
From S2P Require Import Bytes.
From S2P Require Import Canonical.
From S2P Require Import Json.
From S2P Require Import Datasource.
From S2P Require Import CatalogFormat.

Local Open Scope Z_scope.

(** ** The disk *)

Inductive directory := StoreDirectory | AnchorDirectory.

Inductive file := StoreFile | AnchorFile | JournalFile | BackupFile (revision : Z).

Definition home (f : file) : directory :=
  match f with StoreFile | BackupFile _ => StoreDirectory | AnchorFile | JournalFile => AnchorDirectory end.

(** What a name holds now, [None] when it does not exist; what it may hold
    again after a power loss; whether what it holds may be lost with it. *)
Record cell := { now : option (list byte); older : list (option (list byte)); torn : bool }.

Definition absent : cell := {| now := None; older := []; torn := false |}.

Record temporary := { t_home : directory; t_data : list byte; t_synced : bool }.

Record disk := {
  store : cell;
  anchor : cell;
  journal : cell;
  backups : gmap Z cell;
  temps : gmap nat temporary;
}.

Definition cell_of (f : file) (d : disk) : cell :=
  match f with
  | StoreFile => store d
  | AnchorFile => anchor d
  | JournalFile => journal d
  | BackupFile r => default absent (backups d !! r)
  end.

Definition with_cell (f : file) (c : cell) (d : disk) : disk :=
  {| store := match f with StoreFile => c | _ => store d end;
     anchor := match f with AnchorFile => c | _ => anchor d end;
     journal := match f with JournalFile => c | _ => journal d end;
     backups := match f with BackupFile r => <[r := c]> (backups d) | _ => backups d end;
     temps := temps d |}.

Definition with_temps (t : gmap nat temporary) (d : disk) : disk :=
  {| store := store d; anchor := anchor d; journal := journal d; backups := backups d; temps := t |}.

(** A name is given a content, or none: the one it had may come back. *)
Definition renamed (x : option (list byte)) (unsafe : bool) (c : cell) : cell :=
  {| now := x; older := now c :: older c; torn := torn c || unsafe |}.

(** [os.replace] of a temporary file over a file. *)
Definition replace_temp (t : nat) (f : file) (d : disk) : disk :=
  match temps d !! t with
  | Some x => with_temps (delete t (temps d)) (with_cell f (renamed (Some (t_data x)) (negb (t_synced x)) (cell_of f d)) d)
  | None => d
  end.

Definition unlink (f : file) (d : disk) : disk := with_cell f (renamed None false (cell_of f d)) d.

(** [os.fsync] of a directory: its names are what they are now. *)
Definition settled_cell (c : cell) : cell :=
  {| now := now c; older := []; torn := match now c with Some _ => torn c | None => false end |}.

Definition settle (h : directory) (d : disk) : disk :=
  match h with
  | StoreDirectory =>
      {| store := settled_cell (store d); anchor := anchor d; journal := journal d;
         backups := settled_cell <$> backups d; temps := temps d |}
  | AnchorDirectory =>
      {| store := store d; anchor := settled_cell (anchor d); journal := settled_cell (journal d);
         backups := backups d; temps := temps d |}
  end.

(** The other calls on files. *)
Definition create_temp (t : nat) (h : directory) (d : disk) : disk :=
  with_temps (<[t := {| t_home := h; t_data := []; t_synced := false |}]> (temps d)) d.

Definition write_temp (t : nat) (data : list byte) (d : disk) : disk :=
  with_temps (alter (fun x => {| t_home := t_home x; t_data := data; t_synced := false |}) t (temps d)) d.

Definition sync_temp (t : nat) (d : disk) : disk :=
  with_temps (alter (fun x => {| t_home := t_home x; t_data := t_data x; t_synced := true |}) t (temps d)) d.

Definition remove_temp (t : nat) (d : disk) : disk := with_temps (delete t (temps d)) d.

Definition create_file (f : file) (d : disk) : disk := with_cell f (renamed (Some []) true (cell_of f d)) d.

Definition write_file (f : file) (data : list byte) (d : disk) : disk :=
  with_cell f {| now := Some data; older := older (cell_of f d); torn := true |} d.

Definition sync_file (f : file) (d : disk) : disk :=
  with_cell f {| now := now (cell_of f d); older := older (cell_of f d); torn := false |} d.

(** ** System calls *)

Inductive outcome := Done | Fails (performed : bool) | Interrupts (performed : bool) | Dies (performed : bool).

Definition performed (o : outcome) : bool :=
  match o with Done => true | Fails b | Interrupts b | Dies b => b end.

(** [attempted] is [replace_attempted] of the running transaction. *)
Record World := { disk_ : disk; script : list outcome; next_token : nat; attempted : bool }.

Definition on_disk (f : disk -> disk) (w : World) : World :=
  {| disk_ := f (disk_ w); script := script w; next_token := next_token w; attempted := attempted w |}.

(** The end of a run: an exception, or the death of the process. *)
Inductive stop := Raised (e : catalog_exn) | Died.

Abbreviation run := (st World stop).

Definition raise {A} (e : catalog_exn) : run A := raise_st (Raised e).

Definition from {A} (m : catalog A) : run A :=
  match m with Ok x => mret x | Err e => raise e end.

(** A system call of that effect. *)
Definition sys (effect : disk -> disk) : run unit := fun w =>
  let o := hd Done (script w) in
  let w := {| disk_ := if performed o then effect (disk_ w) else disk_ w; script := tl (script w);
              next_token := next_token w; attempted := attempted w |} in
  (match o with
   | Done => Ok tt
   | Fails _ => Err (Raised OSError)
   | Interrupts _ => Err (Raised Interrupted)
   | Dies _ => Err Died
   end, w).

(** [try: m except BaseException as e: handler(e)]; the dead raise nothing. *)
Definition try_with {A} (m : run A) (handler : catalog_exn -> run A) : run A := fun w =>
  match m w with
  | (Err (Raised e), w) => handler e w
  | result => result
  end.

Definition is_os_error (e : catalog_exn) : bool := match e with OSError => true | _ => false end.

(** [except OSError: raise e], and [suppress(OSError)] with the value then. *)
Definition os_error_as {A} (e : catalog_exn) (m : run A) : run A :=
  try_with m (fun x => if is_os_error x then raise e else raise x).

Definition suppress {A} (value : A) (m : run A) : run A :=
  try_with m (fun x => if is_os_error x then mret value else raise x).

(** [try: m finally: last]. *)
Definition finally (m last : run unit) : run unit :=
  try_with m (fun e => last;; raise e);; last.

(** A call that only looks. *)
Definition look : run unit := sys (fun d => d).

Definition read_disk : run disk := fun w => (Ok (disk_ w), w).

Definition content (f : file) : run (option (list byte)) := fun w => (Ok (now (cell_of f (disk_ w))), w).

(** [os.path.lexists]: false, too, when the file's state cannot be read. *)
Definition lexists (f : file) : run bool :=
  suppress false (look;; x ← content f; mret (bool_decide (x <> None))).

(** [_validate_parent] and [_validate_regular]; owners, modes and kinds are the
    environment's. *)
Definition validate_parent : run unit := os_error_as FilesystemPolicyError look.
Definition validate_regular : run unit := os_error_as FilesystemPolicyError look.

(** [_read_optional]: the check, the opening, the comparison and the reading;
    closing is silent. *)
Definition read_optional (f : file) : run (option (list byte)) :=
  present ← lexists f;
  if negb present then mret None
  else
    validate_regular;;
    x ← os_error_as FilesystemPolicyError (look;; look;; look;; content f);
    suppress tt look;;
    mret x.

(** [os.open] of a directory, its [fsync], and its closing. *)
Definition sync_directory (h : directory) : run unit := look;; finally (sys (settle h)) look.

(** [_remove_managed]. *)
Definition remove_managed (remove : disk -> disk) : run unit := suppress tt (look;; sys remove).

Definition mark_attempted : run unit := fun w =>
  (Ok tt, {| disk_ := disk_ w; script := script w; next_token := next_token w; attempted := true |}).

Definition forget_attempt : run unit := fun w =>
  (Ok tt, {| disk_ := disk_ w; script := script w; next_token := next_token w; attempted := false |}).

Definition was_attempted : run bool := fun w => (Ok (attempted w), w).

(** [hooks.temp_token()]: a name that no file has. *)
Definition temp_token : run nat := fun w =>
  (Ok (next_token w), {| disk_ := disk_ w; script := script w; next_token := S (next_token w); attempted := attempted w |}).

(** ** Writing *)

(** [_atomic_write]; closing the stream is a call of its own. *)
Definition atomic_write (f : file) (data : list byte) (on_replace : run unit) : run unit :=
  validate_parent;;
  present ← lexists f;
  (if present : bool then validate_regular else mret tt);;
  t ← temp_token;
  try_with
    (sys (create_temp t (home f));;
     sys (write_temp t data);;
     sys (sync_temp t);;
     look;;
     on_replace;;
     sys (replace_temp t f);;
     sync_directory (home f))
    (fun e => remove_managed (remove_temp t);; raise (if is_os_error e then CatalogWriteError else e)).

(** [_write_backup]. *)
Definition write_backup (data : list byte) (revision : Z) : run unit :=
  let f := BackupFile revision in
  validate_parent;;
  present ← lexists f;
  if present : bool then validate_regular
  else
    exists_ ← content f;
    if bool_decide (exists_ <> None) then raise CatalogWriteError
    else
      try_with
        (sys (create_file f);; sys (write_file f data);; sys (sync_file f);; look)
        (fun e => remove_managed (unlink f);; raise CatalogWriteError).

(** The names of the backups in the order [sorted] gives them. *)
Definition name_le (a b : Z) : Prop := pystr_le (str_int a) (str_int b).

#[export] Instance name_le_dec : RelDecision name_le.
Proof. intros a b. unfold name_le. apply _. Defined.

Definition present_backups (d : disk) : list Z :=
  (map_to_list (backups d)) ≫= fun rc => if bool_decide (now rc.2 <> None) then [rc.1] else [].

(** [_managed_backups]. *)
Definition managed_backups : run (list Z) :=
  os_error_as CatalogWriteError look;;
  d ← read_disk;
  mapM_st (fun r => os_error_as CatalogWriteError look;; mret r) (merge_sort name_le (present_backups d)).

(** [_purge_rotated_backups]. *)
Definition purge_rotated_backups : run unit :=
  validate_parent;;
  l ← managed_backups;
  iterM_st (fun r => os_error_as CatalogWriteError (sys (unlink (BackupFile r)))) l;;
  os_error_as CatalogWriteError (sync_directory StoreDirectory);;
  rest ← managed_backups;
  match rest : list Z with [] => mret tt | _ => raise CatalogWriteError end.

(** [_remove_journal]. *)
Definition remove_journal : run unit :=
  os_error_as CatalogWriteError look;;
  x ← content JournalFile;
  match x : option (list byte) with
  | None => mret tt
  | Some _ =>
      os_error_as CatalogWriteError (sys (unlink JournalFile));;
      os_error_as CatalogWriteError (sync_directory AnchorDirectory)
  end.

(** [_cleanup_managed]: the temporary files of a directory, and all but the
    three newest backups. *)
Definition temps_of (h : directory) (d : disk) : list nat :=
  (map_to_list (temps d)) ≫= fun tx => match h, t_home tx.2 with
                                        | StoreDirectory, StoreDirectory | AnchorDirectory, AnchorDirectory => [tx.1]
                                        | _, _ => []
                                        end.

Definition older_backups (d : disk) : list Z := drop 3 (merge_sort Z.ge (present_backups d)).

Definition cleanup_managed (h : directory) : run unit :=
  readable ← suppress false (look;; mret true);
  if negb readable then mret tt
  else
    d ← read_disk;
    iterM_st (fun t => remove_managed (remove_temp t)) (temps_of h d);;
    match h with
    | StoreDirectory => iterM_st (fun r => remove_managed (unlink (BackupFile r))) (older_backups d)
    | AnchorDirectory => mret tt
    end.

Section transactions.
Context {F : PyFloat}.

(** [_persist_transaction]: [except Exception] lets interrupts through. *)
Definition persist_transaction (j : Journal) (data : list byte) (new_anchor : Anchor)
    (backup : option (list byte * Z)) (purge_backups : bool) : run unit :=
  forget_attempt;;
  try_with
    (text ← from (leak (journal_bytes j));
     atomic_write JournalFile text (mret tt);;
     match backup with Some (old, revision) => write_backup old revision | None => mret tt end;;
     atomic_write StoreFile data mark_attempted;;
     text ← from (leak (anchor_bytes new_anchor));
     atomic_write AnchorFile text (mret tt);;
     (if purge_backups then purge_rotated_backups else mret tt);;
     remove_journal)
    (fun e =>
       a ← was_attempted;
       match e with
       | Interrupted => raise e
       | _ => if a : bool then raise CatalogOutcomeUncertainError else raise e
       end).
End transactions.

(** ** Losing the power *)

(** What a name may hold once the power is back. *)
Definition survives (c c' : cell) : Prop :=
  older c' = [] /\ torn c' = false /\ (torn c = true \/ now c' = now c \/ now c' ∈ older c).

(** Every name on its own; the temporary files that remain are any. *)
Definition power_loss (d d' : disk) : Prop :=
  survives (store d) (store d') /\ survives (anchor d) (anchor d') /\ survives (journal d) (journal d') /\
  forall r, survives (default absent (backups d !! r)) (default absent (backups d' !! r)).
