(* ===== verification/CatalogStore.v ===== *)
(** * CatalogStore: opening, recovering and changing the datasource store

    Models the reading half of [datasource/store.py] and the class
    [CatalogStore]: the pair of store and anchor, the decision of a recovery
    and of an interrupted rotation of the master key, and the operations of an
    open catalog, whose writing is [CatalogDisk].  The two lock files are
    calls that may fail; letting go of them has no effect here. *)

From S2P Require Import Prelude.
From S2P Require Import Bytes.
From S2P Require Import Canonical.
From S2P Require Import Json.
From S2P Require Import Datasource.
From S2P Require Import Destination.
From S2P Require Import CatalogFormat.
From S2P Require Import CatalogDisk.

Local Open Scope Z_scope.

(** ** States *)

(** A revision with its digest. *)
Abbreviation state := (Z * pystr)%type.

Definition state_of (p : ParsedCatalog) : state := (c_revision p, c_digest p).
Definition anchor_state (a : Anchor) : state := (a_revision a, a_digest a).
Definition anchor_of (s : state) : Anchor := {| a_revision := s.1; a_digest := s.2 |}.

(** [_journal_states]. *)
Definition journal_states (j : Journal) : option state * state :=
  (if old_revision j =? 0 then None else Some (old_revision j, default [] (old_digest j)),
   (new_revision j, new_digest j)).

Record RecoveryPlan := { advance_anchor : option Anchor; purge_backups_in : bool }.

Inductive role := OldKey | NewKey.

#[export] Instance role_eq_dec : EqDecision role.
Proof. solve_decision. Defined.

Record MasterKeyRotationStatus := { confirmed_key : role; catalog_revision : Z; journal_pending : bool }.

Record RotationDetermination := {
  status_of : MasterKeyRotationStatus;
  confirmed : ParsedCatalog;
  the_key : list byte;
  plan : option RecoveryPlan;
}.

Section store.
Context {F : PyFloat} {D : DatasourceLib} {L : PyLib} {A : AddressLib}.

(** ** Reading *)

(** [_read_pair]. *)
Definition read_pair (key : list byte) : run ParsedCatalog :=
  store_data ← read_optional StoreFile;
  anchor_data ← read_optional AnchorFile;
  match store_data, anchor_data with
  | Some s, Some a =>
      parsed ← from (parse_catalog s key);
      parsed_anchor ← from (parse_anchor a);
      if bool_decide (state_of parsed = anchor_state parsed_anchor) then mret parsed else raise CatalogAnchorError
  | _, _ => raise CatalogAnchorError
  end.

(** [_authenticated_or_none]. *)
Definition authenticated_or_none (data key : list byte) : catalog (option ParsedCatalog) :=
  match parse_catalog data key with
  | Ok p => Ok (Some p)
  | Err CatalogKeyError => Ok None
  | Err e => Err e
  end.

(** [_optional_anchor_state]. *)
Definition optional_anchor_state : run (option state) :=
  data ← read_optional AnchorFile;
  match data : option (list byte) with
  | None => mret None
  | Some a => parsed ← from (parse_anchor a); mret (Some (anchor_state parsed))
  end.

(** [_plan_rotation_with_single_key]. *)
Definition plan_rotation_with_single_key (store_data : option (list byte)) (anchor_now : option state) (key : list byte)
    (old_state : option state) (new_state : state) (as_old as_new : bool) : catalog RecoveryPlan :=
  parsed ← match store_data with None => Ok None | Some data => authenticated_or_none data key end;
  match parsed, old_state with
  | Some p, Some old =>
      if as_old && bool_decide (state_of p = old) && bool_decide (anchor_now = Some old) then
        Ok {| advance_anchor := None; purge_backups_in := false |}
      else if as_new && bool_decide (state_of p = new_state) && bool_decide (anchor_now = Some new_state) then
        Ok {| advance_anchor := None; purge_backups_in := true |}
      else Err CatalogRotationPendingError
  | _, _ => Err CatalogRotationPendingError
  end.

(** [_plan_recovery]; the table's later entries replace earlier ones. *)
Definition plan_recovery (key : list byte) : run (option RecoveryPlan) :=
  journal_data ← read_optional JournalFile;
  match journal_data : option (list byte) with
  | None => mret None
  | Some data =>
      parsed ← from (parse_journal data key);
      let '(j, as_old, as_new) := parsed in
      let '(old_state, new_state) := journal_states j in
      store_data ← read_optional StoreFile;
      anchor_now ← optional_anchor_state;
      if is_rotation_journal j then
        p ← from (plan_rotation_with_single_key store_data anchor_now key old_state new_state as_old as_new);
        mret (Some p)
      else
        store_state ← match store_data with
                      | None => mret None
                      | Some data => p ← from (parse_catalog data key); mret (Some (state_of p))
                      end;
        let pair := (store_state, anchor_now) in
        if bool_decide (pair = (Some new_state, Some new_state)) then
          mret (Some {| advance_anchor := None; purge_backups_in := false |})
        else if bool_decide (pair = (Some new_state, old_state)) then
          mret (Some {| advance_anchor := Some (anchor_of new_state); purge_backups_in := false |})
        else if bool_decide (pair = (old_state, old_state)) then
          mret (Some {| advance_anchor := None; purge_backups_in := false |})
        else raise CatalogAnchorError
  end.

(** [_apply_recovery]. *)
Definition apply_recovery (p : RecoveryPlan) : run unit :=
  match advance_anchor p with
  | Some a => text ← from (leak (anchor_bytes a)); atomic_write AnchorFile text (mret tt)
  | None => mret tt
  end;;
  (if purge_backups_in p then purge_rotated_backups else mret tt);;
  remove_journal.

(** [_verify_secrets]. *)
Definition verify_secrets (p : ParsedCatalog) (key : list byte) : catalog unit :=
  mapM_res (fun r => value_error (open_secret (upstream_secret r) key (id_ r) CATALOG_SCHEMA_VERSION (revision r))
                       CatalogKeyError) (c_records p);;
  Ok tt.

(** [_determine_without_journal]. *)
Definition determine_without_journal (anchor_now : state) (by_old by_new : option ParsedCatalog) (old_key new_key : list byte)
    : catalog RotationDetermination :=
  found ← match by_old, by_new with
          | Some p, _ => Ok (OldKey, p, old_key)
          | None, Some p => Ok (NewKey, p, new_key)
          | None, None => Err CatalogKeyError
          end;
  let '(who, p, key) := found in
  refuse_if (negb (bool_decide (state_of p = anchor_now))) CatalogAnchorError;;
  verify_secrets p key;;
  Ok {| status_of := {| confirmed_key := who; catalog_revision := c_revision p; journal_pending := false |};
        confirmed := p; the_key := key; plan := None |}.

(** [_determine_rotation], once it has read the three files. *)
Definition determination (journal_data : option (list byte)) (store_data anchor_data old_key new_key : list byte)
    : catalog RotationDetermination :=
  parsed_anchor ← parse_anchor anchor_data;
  let anchor_now := anchor_state parsed_anchor in
  by_old ← authenticated_or_none store_data old_key;
  by_new ← authenticated_or_none store_data new_key;
  refuse_if (bool_decide (by_old <> None) && bool_decide (by_new <> None)) CatalogAnchorError;;
  match journal_data with
  | None => determine_without_journal anchor_now by_old by_new old_key new_key
  | Some data =>
      j ← parse_journal_document data;
      old_roles ← journal_roles j old_key;
      new_roles ← journal_roles j new_key;
      if negb (is_rotation_journal j) then
        Err (if old_roles.1 || old_roles.2 || new_roles.1 || new_roles.2 then CatalogAnchorError else CatalogKeyError)
      else if negb (old_roles.1 && new_roles.2) then Err CatalogKeyError
      else
        match journal_states j with
        | (None, _) => Err CatalogAnchorError
        | (Some old_state, new_state) =>
            let found :=
              match by_old, by_new with
              | Some p, _ => if bool_decide (state_of p = old_state) then Some (OldKey, p, old_key) else None
              | None, Some p => if bool_decide (state_of p = new_state) then Some (NewKey, p, new_key) else None
              | None, None => None
              end in
            match found with
            | None => Err CatalogAnchorError
            | Some (who, p, key) =>
                step ← match who with
                       | OldKey => if bool_decide (anchor_now = old_state) then Ok None else Err CatalogAnchorError
                       | NewKey =>
                           if bool_decide (anchor_now = new_state) then Ok None
                           else if bool_decide (anchor_now = old_state) then Ok (Some (anchor_of new_state))
                           else Err CatalogAnchorError
                       end;
                verify_secrets p key;;
                Ok {| status_of := {| confirmed_key := who; catalog_revision := c_revision p; journal_pending := true |};
                      confirmed := p; the_key := key;
                      plan := Some {| advance_anchor := step; purge_backups_in := bool_decide (who = NewKey) |} |}
            end
        end
  end.

Definition determine_rotation (old_key new_key : list byte) : run RotationDetermination :=
  journal_data ← read_optional JournalFile;
  store_data ← read_optional StoreFile;
  anchor_data ← read_optional AnchorFile;
  match store_data, anchor_data with
  | Some s, Some a => from (determination journal_data s a old_key new_key)
  | _, _ => raise CatalogAnchorError
  end.

(** ** Opening *)

(** The object: its key, what it read or wrote last, and its flags. *)
Record Catalog := {
  master_key : list byte;
  revision_ : Z;
  records_ : list DatasourceRecord;
  digest_ : pystr;
  closed : bool;
  poisoned : bool;
}.

(** [CatalogStore.__init__]. *)
Definition new_catalog (key : list byte) (p : ParsedCatalog) : Catalog :=
  {| master_key := key; revision_ := c_revision p; records_ := c_records p; digest_ := c_digest p;
     closed := false; poisoned := false |}.

(** [_key_from_provider], of the value given or provided. *)
Definition key_from_provider (value : pyval) : catalog (list byte) := value_error (validate_master_key value) MasterKeyError.

(** [_SidecarLock.acquire], of the two locks. *)
Definition acquire_locks : run unit := os_error_as CatalogAnchorError look;; os_error_as CatalogAnchorError look.

(** [CatalogStore.open]. *)
Definition open_store (key_value : pyval) : run Catalog :=
  validate_parent;;
  validate_parent;;
  key ← from (key_from_provider key_value);
  acquire_locks;;
  p ← plan_recovery key;
  match p with Some p => apply_recovery p | None => mret tt end;;
  parsed ← read_pair key;
  cleanup_managed StoreDirectory;;
  cleanup_managed AnchorDirectory;;
  mret (new_catalog key parsed).

(** [CatalogStore.initialize]; the anchor's directory is checked or made. *)
Definition initialize (key_value : pyval) : run Catalog :=
  validate_parent;;
  os_error_as FilesystemPolicyError look;;
  s ← lexists StoreFile;
  a ← (if s : bool then mret true else lexists AnchorFile);
  if a : bool then raise CatalogAlreadyExistsError
  else
    key ← from (key_from_provider key_value);
    acquire_locks;;
    let payload := make_payload 1 [] in
    data ← from (leak (serialize_document payload key));
    digest ← from (leak (catalog_digest (VDict payload)));
    let parsed := {| c_revision := 1; c_digest := digest; c_records := [] |} in
    j ← from (leak (new_journal 0 None 1 digest key key));
    persist_transaction j data {| a_revision := 1; a_digest := digest |} None false;;
    mret (new_catalog key parsed).

(** [_rotation_recovery]: [inspect_master_key_rotation] without [apply],
    [recover_master_key_rotation] with it. *)
Definition rotation_recovery (old_value new_value : pyval) (apply : bool) : run MasterKeyRotationStatus :=
  validate_parent;;
  validate_parent;;
  old_key ← from (key_from_provider old_value);
  new_key ← from (key_from_provider new_value);
  if bool_decide (old_key = new_key) then raise MasterKeyError
  else
    acquire_locks;;
    d ← determine_rotation old_key new_key;
    match plan d with
    | Some p =>
        if negb apply then mret (status_of d)
        else
          apply_recovery p;;
          again ← read_pair (the_key d);
          if negb (bool_decide (state_of again = state_of (confirmed d))) then raise CatalogAnchorError
          else
            cleanup_managed StoreDirectory;;
            cleanup_managed AnchorDirectory;;
            mret {| confirmed_key := confirmed_key (status_of d); catalog_revision := c_revision again;
                    journal_pending := false |}
    | None => mret (status_of d)
    end.

(** ** An open catalog *)

Record Store := { object : Catalog; world : World }.

Abbreviation method := (st Store stop).

Definition on_world {B} (m : run B) : method B := fun s =>
  let '(r, w) := m (world s) in (r, {| object := object s; world := w |}).

Definition self : method Catalog := fun s => (Ok (object s), s).

Definition set_self (c : Catalog) : method unit := fun s => (Ok tt, {| object := c; world := world s |}).

Definition fault {B} (e : catalog_exn) : method B := raise_st (Raised e).

Definition checked_ {B} (m : catalog B) : method B := on_world (from m).

(** [_ensure_open], and the operations that begin with it under the lock. *)
Definition ensure_open : method unit :=
  c ← self;
  if closed c then fault CatalogStoreError
  else if poisoned c then fault CatalogWriteError
  else mret tt.

Definition serialized {B} (m : method B) : method B := ensure_open;; m.

(** [_check_revision]. *)
Definition check_revision (expected : option Z) : method unit :=
  c ← self;
  match expected with
  | Some r => if r =? revision_ c then mret tt else fault CatalogRevisionConflictError
  | None => mret tt
  end.

Definition poison (c : Catalog) : Catalog :=
  {| master_key := master_key c; revision_ := revision_ c; records_ := records_ c; digest_ := digest_ c;
     closed := closed c; poisoned := true |}.

(** The part of [_commit] within its [try]: the transaction, with the store as
    it is for a backup; and what is raised there poisons the object. *)
Definition transaction (j : Journal) (data : list byte) (a : Anchor) (rev : Z) (purge : bool) : run unit :=
  old_data ← read_optional StoreFile;
  match old_data : option (list byte) with
  | None => raise CatalogWriteError
  | Some old => persist_transaction j data a (Some (old, rev)) purge
  end.

Definition poisoning (c : Catalog) (m : run unit) : method unit := fun s =>
  match on_world m s with
  | (Err (Raised e), s) => (Err (Raised e), {| object := poison c; world := world s |})
  | result => result
  end.

(** [_commit]. *)
Definition commit (records : list DatasourceRecord) (expected : Z) (new_key : option (list byte)) : method unit :=
  c ← self;
  if negb (expected =? revision_ c) then fault CatalogRevisionConflictError
  else
    let key := default (master_key c) new_key in
    let new_rev := revision_ c + 1 in
    let payload := make_payload new_rev records in
    data ← checked_ (leak (serialize_document payload key));
    new_dig ← checked_ (leak (catalog_digest (VDict payload)));
    j ← checked_ (leak (new_journal (revision_ c) (Some (digest_ c)) new_rev new_dig (master_key c) key));
    poisoning c (transaction j data {| a_revision := new_rev; a_digest := new_dig |} (revision_ c)
                   (negb (bool_decide (key = master_key c))));;
    on_world (cleanup_managed StoreDirectory);;
    set_self {| master_key := master_key c; revision_ := new_rev; records_ := merge_sort id_le records;
                digest_ := new_dig; closed := closed c; poisoned := poisoned c |}.

(** [_get_record] and [_read_upstream_secret]. *)
Definition find_record (i : pystr) (records : list DatasourceRecord) : option DatasourceRecord :=
  snd <$> list_find (fun r => id_ r = i) records.

Definition get_record (i : pystr) : method DatasourceRecord :=
  c ← self;
  if negb (valid_datasource_id i) then fault DatasourceValidationError
  else match find_record i (records_ c) with Some r => mret r | None => fault CatalogStoreError end.

Definition secret_of (r : DatasourceRecord) : method pystr :=
  c ← self;
  checked_ (value_error (open_secret (upstream_secret r) (master_key c) (id_ r) CATALOG_SCHEMA_VERSION (revision r))
              CatalogKeyError).

(** [revision], [snapshot], [get], [by_alias] and [read_upstream_secret]. *)
Definition get_revision : method Z := serialized (c ← self; mret (revision_ c)).

Definition snapshot : method (Z * list DatasourceRecord * pystr) :=
  serialized (c ← self; mret (revision_ c, records_ c, digest_ c)).

Definition get (i : pystr) : method DatasourceRecord := serialized (get_record i).

Definition by_alias (alias : pystr) : method DatasourceRecord := serialized (
  c ← self;
  if negb (valid_alias alias) then fault DatasourceValidationError
  else match snd <$> list_find (fun r => d_alias (draft r) = alias) (records_ c) with
       | Some r => mret r
       | None => fault CatalogStoreError
       end).

Definition read_upstream_secret (i : pystr) : method pystr := serialized (r ← get_record i; secret_of r).

Definition of_destination {B} (m : destination B) : catalog B :=
  match m with Ok x => Ok x | Err InvalidHost => Err DatasourceValidationError | Err e => Err (DestinationFailure e) end.

Definition of_checked {B} (m : checked B) : catalog B :=
  match m with Ok x => Ok x | Err _ => Err DatasourceValidationError end.

(** The draft's destination, pinned to its addresses if it has any. *)
Definition destination_of (d : DatasourceDraft) (resolver : Resolver) : catalog ResolvedDestination :=
  of_destination (resolve_destination (d_host d) (d_port d) (d_destination_policy d) resolver
                    (match d_resolved_addresses d with [] => None | l => Some l end)).

Definition with_addresses (d : DatasourceDraft) (l : list pystr) : DatasourceDraft :=
  {| d_alias := d_alias d; d_display_name := d_display_name d; d_host := d_host d; d_port := d_port d;
     d_database := d_database d; d_username := d_username d; d_enabled := d_enabled d; d_tls := d_tls d;
     d_policy := d_policy d; d_limits := d_limits d; d_destination_policy := d_destination_policy d;
     d_resolved_addresses := l |}.

(** [create]; the id and the nonce are drawn at [moment] and after it. *)
Definition create (d : DatasourceDraft) (secret : pystr) (expected : option Z) (resolver : Resolver) (moment : nat)
    : method DatasourceRecord := serialized (
  ensure_open;;
  check_revision expected;;
  c ← self;
  if bool_decide (d_alias d ∈ aliases (records_ c)) then fault CatalogStoreError
  else
    resolved ← checked_ (destination_of d resolver);
    let i := new_datasource_id moment in
    envelope ← checked_ (leak (seal_secret (S moment) secret (master_key c) i CATALOG_SCHEMA_VERSION 1));
    r ← checked_ (of_checked (datasource_record
          {| id_ := i; draft := with_addresses d (r_addresses resolved); revision := 1; last_test := never_tested;
             upstream_secret := envelope |}));
    commit (records_ c ++ [r]) (revision_ c) None;;
    mret r).

Definition replaced (r : DatasourceRecord) (records : list DatasourceRecord) : list DatasourceRecord :=
  map (fun x => if bool_decide (id_ x = id_ r) then r else x) records.

(** [update]. *)
Definition update (i : pystr) (d : DatasourceDraft) (expected : Z) (resolver : Resolver) (moment : nat)
    : method DatasourceRecord := serialized (
  ensure_open;;
  check_revision (Some expected);;
  current ← get_record i;
  c ← self;
  if existsb (fun r => bool_decide (d_alias (draft r) = d_alias d) && negb (bool_decide (id_ r = i))) (records_ c) then
    fault CatalogStoreError
  else
    resolved ← checked_ (destination_of d resolver);
    secret ← secret_of current;
    envelope ← checked_ (leak (seal_secret moment secret (master_key c) (id_ current) CATALOG_SCHEMA_VERSION
                                 (revision current + 1)));
    r ← checked_ (of_checked (datasource_record
          {| id_ := id_ current; draft := with_addresses d (r_addresses resolved); revision := revision current + 1;
             last_test := never_tested; upstream_secret := envelope |}));
    commit (replaced r (records_ c)) expected None;;
    mret r).

(** [rotate_secret]. *)
Definition rotate_secret (i secret : pystr) (expected : Z) (moment : nat) : method DatasourceRecord := serialized (
  ensure_open;;
  check_revision (Some expected);;
  current ← get_record i;
  c ← self;
  envelope ← checked_ (leak (seal_secret moment secret (master_key c) (id_ current) CATALOG_SCHEMA_VERSION
                               (revision current + 1)));
  r ← checked_ (of_checked (datasource_record
        {| id_ := id_ current; draft := draft current; revision := revision current + 1;
           last_test := never_tested; upstream_secret := envelope |}));
  commit (replaced r (records_ c)) expected None;;
  mret r).

(** The records sealed again, each with the nonce of its own moment. *)
Fixpoint reseal (moment : nat) (new_key : list byte) (records : list DatasourceRecord) : method (list DatasourceRecord) :=
  match records with
  | [] => mret []
  | current :: rest =>
      secret ← secret_of current;
      envelope ← checked_ (leak (seal_secret moment secret new_key (id_ current) CATALOG_SCHEMA_VERSION
                                   (revision current + 1)));
      r ← checked_ (of_checked (datasource_record
            {| id_ := id_ current; draft := draft current; revision := revision current + 1;
               last_test := last_test current; upstream_secret := envelope |}));
      more ← reseal (S moment) new_key rest;
      mret (r :: more)
  end.

(** [rotate_master_key]. *)
Definition rotate_master_key (new_value : pyval) (moment : nat) : method (Z * list DatasourceRecord * pystr) := serialized (
  new_key ← checked_ (value_error (validate_master_key new_value) MasterKeyError);
  c ← self;
  records ← reseal moment new_key (records_ c);
  commit records (revision_ c) (Some new_key);;
  c ← self;
  set_self {| master_key := new_key; revision_ := revision_ c; records_ := records_ c; digest_ := digest_ c;
              closed := closed c; poisoned := poisoned c |};;
  mret (revision_ c, records_ c, digest_ c)).

(** [remove]. *)
Definition remove (i : pystr) (expected : Z) : method unit := serialized (
  check_revision (Some expected);;
  get_record i;;
  c ← self;
  commit (filter (fun r => id_ r <> i) (records_ c)) expected None).

(** [validate_destination]. *)
Definition validate_destination (i : pystr) (resolver : Resolver) : method (list pystr) := serialized (
  r ← get_record i;
  let d := draft r in
  resolved ← checked_ (of_destination (resolve_destination (d_host d) (d_port d) (d_destination_policy d) resolver
                                         (Some (d_resolved_addresses d))));
  mret (r_addresses resolved)).

(** [close]. *)
Definition close : method unit :=
  c ← self;
  set_self {| master_key := master_key c; revision_ := revision_ c; records_ := records_ c; digest_ := digest_ c;
              closed := true; poisoned := poisoned c |}.
End store.
