(* ===== verification/CatalogNames.v ===== *)
(** * CatalogNames: what a run sees of the disk

    Two disks whose names hold the same now are told apart by nothing but a
    power loss: every operation of the datasource store answers the same on
    both, and leaves them so.  The death of a process, without a power loss,
    is therefore like the best of the power losses. *)

From S2P Require Import Prelude.
From S2P Require Import Bytes.
From S2P Require Import Canonical.
From S2P Require Import Json.
From S2P Require Import Datasource.
From S2P Require Import Destination.
From S2P Require Import CatalogFormat.
From S2P Require Import CatalogDisk.
From S2P Require Import CatalogStore.

Local Open Scope Z_scope.

(** ** What the names hold now *)

Definition clean_cell (x : option (list byte)) : cell := {| now := x; older := []; torn := false |}.

Definition names (d : disk) : disk :=
  {| store := clean_cell (now (store d)); anchor := clean_cell (now (anchor d)); journal := clean_cell (now (journal d));
     backups := (fun c => clean_cell (now c)) <$> backups d; temps := temps d |}.

Definition same_names (d d' : disk) : Prop := names d = names d'.

#[export] Instance same_names_equivalence : Equivalence same_names.
Proof. split; unfold same_names; [intros d; reflexivity|intros d e H; symmetry; exact H|intros d e f H K; congruence]. Qed.

Lemma names_cell f d : cell_of f (names d) = clean_cell (now (cell_of f d)).
Proof.
  destruct f as [| | |r]; try reflexivity. cbn [cell_of names backups]. rewrite lookup_fmap. destruct (backups d !! r); reflexivity.
Qed.

Lemma names_again d : same_names (names d) d.
Proof.
  unfold same_names, names. cbn. rewrite <- map_fmap_compose. reflexivity.
Qed.

Lemma same_now f d d' : same_names d d' -> now (cell_of f d) = now (cell_of f d').
Proof. intros H. apply (f_equal (fun d => now (cell_of f d))) in H. rewrite !names_cell in H. exact H. Qed.

Lemma same_temps d d' : same_names d d' -> temps d = temps d'.
Proof. intros H. exact (f_equal temps H). Qed.

(** ** Effects *)

Lemma names_with_cell f c d : names (with_cell f c d) = with_cell f (clean_cell (now c)) (names d).
Proof. unfold names, with_cell. destruct f; cbn; rewrite ?fmap_insert; reflexivity. Qed.

Lemma names_with_temps t d : names (with_temps t d) = with_temps t (names d).
Proof. reflexivity. Qed.

Lemma names_settle h d : same_names (settle h d) d.
Proof. destruct h; unfold same_names, names; cbn; [rewrite <- map_fmap_compose|]; reflexivity. Qed.

#[export] Instance with_cell_proper f : Proper ((fun c c' => now c = now c') ==> same_names ==> same_names) (with_cell f).
Proof. intros c c' Hc d d' Hd. unfold same_names in *. rewrite !names_with_cell, Hc, Hd. reflexivity. Qed.

#[export] Instance with_temps_proper : Proper (eq ==> same_names ==> same_names) with_temps.
Proof. intros t u -> d d' Hd. unfold same_names in *. rewrite !names_with_temps, Hd. reflexivity. Qed.

#[export] Instance settle_proper h : Proper (same_names ==> same_names) (settle h).
Proof.
  intros d d' H. pose proof (names_settle h d) as E. pose proof (names_settle h d') as E'. unfold same_names in *. congruence.
Qed.

Ltac respects :=
  let d := fresh in let d' := fresh in let Hd := fresh in intros d d' Hd;
  first [ rewrite (same_temps d d' Hd); apply with_temps_proper; [reflexivity|exact Hd]
        | apply with_cell_proper; [cbn [now renamed]; first [reflexivity | exact (same_now _ d d' Hd)]|exact Hd] ].

#[export] Instance create_temp_proper t h : Proper (same_names ==> same_names) (create_temp t h).
Proof. unfold create_temp. respects. Qed.
#[export] Instance write_temp_proper t data : Proper (same_names ==> same_names) (write_temp t data).
Proof. unfold write_temp. respects. Qed.
#[export] Instance sync_temp_proper t : Proper (same_names ==> same_names) (sync_temp t).
Proof. unfold sync_temp. respects. Qed.
#[export] Instance remove_temp_proper t : Proper (same_names ==> same_names) (remove_temp t).
Proof. unfold remove_temp. respects. Qed.
#[export] Instance create_file_proper f : Proper (same_names ==> same_names) (create_file f).
Proof. unfold create_file. respects. Qed.
#[export] Instance write_file_proper f data : Proper (same_names ==> same_names) (write_file f data).
Proof. unfold write_file. respects. Qed.
#[export] Instance sync_file_proper f : Proper (same_names ==> same_names) (sync_file f).
Proof. unfold sync_file. respects. Qed.
#[export] Instance unlink_proper f : Proper (same_names ==> same_names) (unlink f).
Proof. unfold unlink. respects. Qed.

#[export] Instance replace_temp_proper t f : Proper (same_names ==> same_names) (replace_temp t f).
Proof.
  unfold replace_temp. intros d d' Hd. rewrite (same_temps _ _ Hd). destruct (temps d' !! t); [|exact Hd].
  apply with_temps_proper; [reflexivity|]. apply with_cell_proper; [reflexivity|exact Hd].
Qed.

(** ** Runs *)

(** Worlds that differ in nothing that a run can see. *)
Record alike (w w' : World) : Prop := {
  alike_disk : same_names (disk_ w) (disk_ w');
  alike_script : script w = script w';
  alike_token : next_token w = next_token w';
  alike_attempt : attempted w = attempted w';
}.

(** The run answers the same in worlds that are alike, and leaves them so. *)
Definition blind {A} (m : run A) : Prop := forall w w', alike w w' -> (m w).1 = (m w').1 /\ alike (m w).2 (m w').2.

Lemma blind_ret {A} (a : A) : blind (mret a).
Proof. intros w w' H. split; [reflexivity|exact H]. Qed.

Lemma blind_raise {A} e : blind (A := A) (raise e).
Proof. intros w w' H. split; [reflexivity|exact H]. Qed.

Lemma blind_from {A} (m : catalog A) : blind (from m).
Proof. destruct m; [apply blind_ret|apply blind_raise]. Qed.

Lemma blind_bind {A B} (m : run A) (k : A -> run B) : blind m -> (forall a, blind (k a)) -> blind (m ≫= k).
Proof.
  intros M K w w' H. specialize (M w w' H). unfold mbind, st_bind. destruct (m w) as [[a|e] v], (m w') as [[a'|e'] v'];
    cbn in *; destruct M as [E Al]; try discriminate; injection E as ->; [apply K, Al|auto].
Qed.

Lemma blind_try {A} (m : run A) h : blind m -> (forall e, blind (h e)) -> blind (try_with m h).
Proof.
  intros M K w w' H. specialize (M w w' H). unfold try_with. destruct (m w) as [[a|e] v], (m w') as [[a'|e'] v'];
    cbn in *; destruct M as [E Al]; try discriminate; injection E as ->; [auto|]. destruct e'; [apply K, Al|auto].
Qed.

Lemma blind_sys effect : Proper (same_names ==> same_names) effect -> blind (sys effect).
Proof.
  intros P w w' [Hd Hs Ht Ha]. unfold sys. rewrite Hs. split; [reflexivity|]. constructor; cbn; try congruence.
  destruct (performed _); [apply P, Hd|exact Hd].
Qed.

Lemma blind_content f : blind (content f).
Proof. intros w w' H. split; [|exact H]. cbn. rewrite (same_now f _ _ (alike_disk _ _ H)). reflexivity. Qed.

Lemma blind_token : blind temp_token.
Proof. intros w w' [H1 H2 H3 H4]. split; [cbn; congruence|]. constructor; cbn; congruence. Qed.

Lemma blind_mark : blind mark_attempted.
Proof. intros w w' [H1 H2 H3 H4]. split; [reflexivity|]. constructor; cbn; auto. Qed.

Lemma blind_forget : blind forget_attempt.
Proof. intros w w' [H1 H2 H3 H4]. split; [reflexivity|]. constructor; cbn; auto. Qed.

Lemma blind_attempted : blind was_attempted.
Proof. intros w w' H. split; [cbn; f_equal; apply H|exact H]. Qed.

(** A disk that is read only for what [g] tells of it. *)
Lemma blind_read {A B} (g : disk -> B) (k : B -> run A) : (forall d d', same_names d d' -> g d = g d') -> (forall b, blind (k b)) ->
  blind (d ← read_disk; k (g d)).
Proof. intros G K w w' H. unfold mbind, st_bind, read_disk. rewrite (G _ _ (alike_disk _ _ H)). apply K, H. Qed.

Lemma blind_iter {A} (g : A -> run unit) l : (forall x, blind (g x)) -> blind (iterM_st g l).
Proof. intros G. induction l as [|x l IH]; [apply blind_ret|]. apply blind_bind; [apply G|intros _; exact IH]. Qed.

Lemma blind_mapM {A B} (g : A -> run B) l : (forall x, blind (g x)) -> blind (mapM_st g l).
Proof.
  intros G. induction l as [|x l IH]; [apply blind_ret|]. apply blind_bind; [apply G|]. intros b.
  apply blind_bind; [exact IH|]. intros bs. apply blind_ret.
Qed.

(** *** The operations of the store *)

Create HintDb blind.
#[export] Hint Resolve blind_ret blind_raise blind_from blind_content blind_token blind_mark blind_forget blind_attempted : blind.

Lemma blind_look : blind look.
Proof. apply blind_sys. intros d d' H. exact H. Qed.
#[export] Hint Resolve blind_look : blind.

Ltac see := repeat first
  [ progress intros
  | solve [auto with blind]
  | apply blind_sys; apply _
  | apply blind_bind
  | apply blind_iter
  | apply blind_mapM
  | apply blind_try
  | match goal with |- blind (match ?x with _ => _ end) => destruct x end ].

Lemma blind_os_error {A} e (m : run A) : blind m -> blind (os_error_as e m).
Proof. intros M. unfold os_error_as. see. Qed.
Lemma blind_suppress {A} v (m : run A) : blind m -> blind (suppress v m).
Proof. intros M. unfold suppress. see. Qed.
Lemma blind_finally m l : blind m -> blind l -> blind (finally m l).
Proof. intros M K. unfold finally. see. Qed.
#[export] Hint Resolve blind_os_error blind_suppress blind_finally : blind.

Lemma blind_lexists f : blind (lexists f).
Proof. apply blind_suppress. see. Qed.
Lemma blind_parent : blind validate_parent.
Proof. apply blind_os_error, blind_look. Qed.
Lemma blind_regular : blind validate_regular.
Proof. apply blind_os_error, blind_look. Qed.
#[export] Hint Resolve blind_lexists blind_parent blind_regular : blind.

Lemma blind_read_optional f : blind (read_optional f).
Proof. unfold read_optional. see. Qed.
Lemma blind_sync_directory h : blind (sync_directory h).
Proof. unfold sync_directory. see. Qed.
Lemma blind_remove_managed effect : Proper (same_names ==> same_names) effect -> blind (remove_managed effect).
Proof. intros P. unfold remove_managed. see. Qed.
#[export] Hint Resolve blind_read_optional blind_sync_directory : blind.
#[export] Hint Extern 1 (blind (remove_managed _)) => apply blind_remove_managed; apply _ : blind.

Lemma blind_atomic_write f data on_replace : blind on_replace -> blind (atomic_write f data on_replace).
Proof. intros M. unfold atomic_write. see. Qed.
#[export] Hint Resolve blind_atomic_write : blind.

Lemma blind_write_backup data r : blind (write_backup data r).
Proof. unfold write_backup. see. Qed.
#[export] Hint Resolve blind_write_backup : blind.

(** The backups in order, whatever the order they are kept in. *)
Lemma str_int_injective a b : str_int a = str_int b -> a = b.
Proof.
  intros E. set (F := {| float_repr t := t |} : PyFloat).
  pose proof (read_number_print a [] I) as P. rewrite E, (read_number_print b [] I) in P. congruence.
Qed.

#[export] Instance name_le_total : Total name_le.
Proof. intros a b. apply pystr_le_total. Qed.
#[export] Instance name_le_trans : Transitive name_le.
Proof. intros a b c. apply pystr_le_trans. Qed.
#[export] Instance name_le_antisym : AntiSymm eq name_le.
Proof. intros a b H K. apply str_int_injective. exact (pystr_le_antisym _ _ H K). Qed.

Lemma present_names d : present_backups (names d) ≡ₚ present_backups d.
Proof.
  unfold present_backups. cbn [names backups]. rewrite map_to_list_fmap. rewrite list_fmap_bind.
  match goal with |- ?a ≡ₚ ?b => assert (a = b) as ->; [|reflexivity] end.
  apply list_bind_ext; [|reflexivity]. intros [r c]. reflexivity.
Qed.

Lemma present_same d d' : same_names d d' -> present_backups d ≡ₚ present_backups d'.
Proof. intros H. rewrite <- (present_names d), <- (present_names d'). unfold same_names in H. rewrite H. reflexivity. Qed.

Lemma sorted_same {R : relation Z} {Dc : RelDecision R} {T : Total R} {Tr : Transitive R} {An : AntiSymm eq R} d d' :
  same_names d d' -> merge_sort R (present_backups d) = merge_sort R (present_backups d').
Proof.
  intros H. apply (StronglySorted_unique R); [apply StronglySorted_merge_sort; apply _|apply StronglySorted_merge_sort; apply _|].
  rewrite !merge_sort_Permutation. apply present_same, H.
Qed.

#[export] Instance ge_total : Total Z.ge.
Proof. intros a b. lia. Qed.
#[export] Instance ge_trans : Transitive Z.ge.
Proof. intros a b c. lia. Qed.
#[export] Instance ge_antisym : AntiSymm eq Z.ge.
Proof. intros a b. lia. Qed.

Lemma blind_managed_backups : blind managed_backups.
Proof.
  unfold managed_backups. apply blind_bind; [auto with blind|]. intros _.
  apply (blind_read (fun d => merge_sort name_le (present_backups d))); [intros d d'; apply sorted_same|]. see.
Qed.
#[export] Hint Resolve blind_managed_backups : blind.

Lemma blind_purge : blind purge_rotated_backups.
Proof. unfold purge_rotated_backups. see. Qed.
Lemma blind_remove_journal : blind remove_journal.
Proof. unfold remove_journal. see. Qed.
#[export] Hint Resolve blind_purge blind_remove_journal : blind.

Lemma blind_cleanup h : blind (cleanup_managed h).
Proof.
  unfold cleanup_managed. apply blind_bind; [apply blind_suppress; see|]. intros [|]; cbn [negb]; [|apply blind_ret].
  apply (blind_read (fun d => (temps_of h d, older_backups d)) (fun to =>
    iterM_st (fun t => remove_managed (remove_temp t)) to.1;;
    match h with StoreDirectory => iterM_st (fun r => remove_managed (unlink (BackupFile r))) to.2 | AnchorDirectory => mret tt end)).
  - intros d d' H. unfold temps_of, older_backups. pose proof (sorted_same (R := Z.ge) d d' H) as S.
    rewrite (same_temps _ _ H). cbv beta. f_equal. f_equal. exact S.
  - see.
Qed.
#[export] Hint Resolve blind_cleanup : blind.

Section store.
Context {F : PyFloat} {D : DatasourceLib} {L : PyLib}.

Lemma blind_plan_recovery key : blind (plan_recovery key).
Proof. unfold plan_recovery, optional_anchor_state. see. Qed.
Lemma blind_apply_recovery p : blind (apply_recovery p).
Proof. unfold apply_recovery. see. Qed.
Lemma blind_read_pair key : blind (read_pair key).
Proof. unfold read_pair. see. Qed.

(** Opening the store, and the recovery of a rotation. *)
Lemma blind_open_store value : blind (open_store value).
Proof.
  unfold open_store, acquire_locks. pose proof blind_plan_recovery. pose proof blind_apply_recovery. pose proof blind_read_pair. see.
Qed.

Lemma blind_rotation_recovery old_value new_value apply : blind (rotation_recovery old_value new_value apply).
Proof.
  unfold rotation_recovery, acquire_locks, determine_rotation. pose proof blind_apply_recovery. pose proof blind_read_pair. see.
Qed.
End store.
