(* ===== verification/CatalogRuns.v ===== *)
(** * CatalogRuns: reasoning about runs on the disk

    A logic for runs that may raise or die at any system call, the calls that
    leave the files as they are, and what the writing of a file, of a backup,
    the purge of backups and the removal of the journal do. *)

From S2P Require Import Prelude.
From S2P Require Import Bytes.
From S2P Require Import Canonical.
From S2P Require Import CatalogFormat.
From S2P Require Import CatalogDisk.

Local Open Scope Z_scope.

(** How the environment stops a run at a call. *)
Definition by_environment (e : stop) : Prop := e = Raised OSError \/ e = Raised Interrupted \/ e = Died.

(** ** Runs seen through a view of the disk

    [holds q m P Q X]: from a view and a flag that satisfy [P], [m] returns
    with ones that satisfy [Q], or stops with ones that satisfy [X].  When [q]
    is set the script is exhausted: no call fails. *)
Section logic.
Context {V : Type} (view : disk -> V).

Definition holds {A} (q : bool) (m : run A) (P : V -> bool -> Prop) (Q : A -> V -> bool -> Prop)
    (X : stop -> V -> bool -> Prop) : Prop :=
  forall w, (q = true -> script w = []) -> P (view (disk_ w)) (attempted w) ->
  match m w with
  | (Ok a, w') => (q = true -> script w' = []) /\ Q a (view (disk_ w')) (attempted w')
  | (Err e, w') => (q = true -> script w' = []) /\ X e (view (disk_ w')) (attempted w')
  end.

Context {q : bool}.
Implicit Types (P : V -> bool -> Prop) (X : stop -> V -> bool -> Prop).

Lemma holds_ret {A} (a : A) P X : holds q (mret a) P (fun b v f => b = a /\ P v f) X.
Proof. intros w S H. cbn. auto. Qed.

Lemma holds_bind {A B} (m : run A) (k : A -> run B) P Q R X :
  holds q m P Q X -> (forall a, holds q (k a) (Q a) R X) -> holds q (m ≫= k) P R X.
Proof.
  intros M K w S H. specialize (M w S H). unfold mbind, st_bind. destruct (m w) as [[a|e] w']; [|exact M].
  destruct M as [S' Qa]. exact (K a w' S' Qa).
Qed.

Lemma holds_mono {A} (m : run A) P P' (Q Q' : A -> V -> bool -> Prop) X X' :
  holds q m P' Q' X' -> (forall v f, P v f -> P' v f) -> (forall a v f, Q' a v f -> Q a v f) ->
  (forall e v f, X' e v f -> X e v f) -> holds q m P Q X.
Proof.
  intros M HP HQ HX w S H. specialize (M w S (HP _ _ H)). destruct (m w) as [[a|e] w']; intuition.
Qed.

Lemma holds_raise {A} (e : catalog_exn) P X Q : (forall v f, P v f -> X (Raised e) v f) -> holds (A := A) q (raise e) P Q X.
Proof. intros H w S HP. cbn. auto. Qed.

Lemma holds_try {A} (m : run A) h P Q X X' :
  holds q m P Q X' -> (forall e, holds q (h e) (X' (Raised e)) Q X) -> (forall v f, X' Died v f -> X Died v f) ->
  holds q (try_with m h) P Q X.
Proof.
  intros M H Dd w S HP. specialize (M w S HP). unfold try_with. destruct (m w) as [[a|[e|]] w']; [exact M| |intuition].
  destruct M as [S' M]. exact (H e w' S' M).
Qed.

Lemma holds_sys effect P Q X :
  (forall d f, P (view d) f -> Q tt (view (effect d)) f) ->
  (q = false -> forall d f e, P (view d) f -> by_environment e -> X e (view d) f /\ X e (view (effect d)) f) ->
  holds q (sys effect) P Q X.
Proof.
  intros HQ HX w S H. unfold sys. destruct q.
  - rewrite (S eq_refl). cbn. auto.
  - specialize (fun e => HX eq_refl (disk_ w) (attempted w) e H). unfold by_environment in HX.
    destruct (hd Done (script w)) as [|b|b|b]; cbn; (split; [discriminate|]); [auto| | |];
      (edestruct HX as [X1 X2]; [|destruct b; eassumption]); auto.
Qed.

(** A pre-condition known to be a fact. *)
Lemma holds_fact {A} (m : run A) (C : Prop) P Q X : (C -> holds q m P Q X) -> holds q m (fun v f => C /\ P v f) Q X.
Proof. intros H w S [c HP]. exact (H c w S HP). Qed.
End logic.

(** ** The calls that leave the files as they are *)

(** The files, without the temporary ones. *)
Definition files (d : disk) : disk := with_temps ∅ d.

Lemma files_settle h d : files (settle h d) = settle h (files d).
Proof. destruct h; reflexivity. Qed.

Lemma files_cell f c d : files (with_cell f c d) = with_cell f c (files d).
Proof. reflexivity. Qed.

Lemma files_of f d : cell_of f (files d) = cell_of f d.
Proof. destruct f; reflexivity. Qed.

Abbreviation runs q m P Q Y := (holds files q m P Q (fun _ => Y)).

Section calls.
Context {q : bool}.
Implicit Types (P Y : disk -> bool -> Prop).

(** The call may stop with what was so before. *)
Abbreviation may_stop P Y := (forall d f, q = false -> P d f -> Y d f).

Lemma sys_inert effect P Y : (forall d, files (effect d) = files d) -> may_stop P Y -> runs q (sys effect) P (fun _ => P) Y.
Proof.
  intros E HY. apply holds_sys.
  - intros d f H. rewrite E. exact H.
  - intros Q0 d f e H _. rewrite E. auto.
Qed.

Lemma look_inert P Y : may_stop P Y -> runs q look P (fun _ => P) Y.
Proof. apply sys_inert. reflexivity. Qed.

Lemma os_error_holds {A} e (m : run A) P Q Y : runs q m P Q Y -> runs q (os_error_as e m) P Q Y.
Proof.
  intros M. eapply holds_try; [exact M| |auto]. intros x. cbn beta. destruct (is_os_error x); apply holds_raise; auto.
Qed.

Lemma suppress_holds {A} (value : A) (m : run A) P Q Y Z :
  runs q m P Q Z -> (forall d f, Z d f -> Q value d f) -> (forall d f, Z d f -> Y d f) -> runs q (suppress value m) P Q Y.
Proof.
  intros M V H. eapply holds_try; [exact M| |auto]. intros x. cbn beta. destruct (is_os_error x); [|apply holds_raise; auto].
  intros w S HZ. cbn. split; [exact S|apply V, HZ].
Qed.

Lemma probe_inert e P Y : may_stop P Y -> runs q (os_error_as e look) P (fun _ => P) Y.
Proof. intros H. apply os_error_holds, look_inert, H. Qed.

Lemma content_inert g P Y : runs q (content g) P (fun x d f => x = now (cell_of g d) /\ P d f) Y.
Proof. intros w S H. cbn. rewrite files_of. auto. Qed.

Lemma ret_holds {A} (a : A) P Q Y : (forall d f, P d f -> Q a d f) -> runs q (mret a) P Q Y.
Proof. intros H w S HP. cbn. auto. Qed.

Lemma lexists_inert g P Y : may_stop P Y ->
  runs q (lexists g) P (fun b d f => (q = true -> b = bool_decide (now (cell_of g d) <> None)) /\ P d f) Y.
Proof.
  intros HY. unfold lexists. apply (suppress_holds _ _ _ _ _ (fun d f => q = false /\ P d f)).
  - eapply holds_bind; [apply look_inert; auto|]. intros u. eapply holds_bind; [apply content_inert|]. intros x.
    apply ret_holds. intros d f [-> H]. auto.
  - intros d f [E H]. split; [congruence|exact H].
  - intros d f [E H]. auto.
Qed.

Lemma read_inert g P Y : may_stop P Y ->
  runs q (read_optional g) P (fun x d f => (x = None \/ x = now (cell_of g d)) /\ (q = true -> x = now (cell_of g d)) /\ P d f) Y.
Proof.
  intros HY. unfold read_optional. eapply holds_bind; [apply lexists_inert, HY|]. intros present. destruct present; cbn [negb].
  - eapply holds_bind; [apply probe_inert; intuition|]. intros u. eapply holds_bind.
    { apply os_error_holds. eapply holds_bind; [apply look_inert; intuition|]. intros u1. eapply holds_bind; [apply look_inert; intuition|].
      intros u2. eapply holds_bind; [apply look_inert; intuition|]. intros u3. apply content_inert. }
    intros x. eapply holds_bind.
    { eapply (suppress_holds tt look _ _ _ (fun d f => q = false /\ x = now (cell_of g d) /\
                 (q = true -> true = bool_decide (now (cell_of g d) <> None)) /\ P d f)); [apply look_inert; auto| |].
      - intros d f [_ H]. exact H.
      - intros d f (E & _ & _ & H). auto. }
    intros u4. apply ret_holds. intros d f (-> & _ & H). auto.
  - apply ret_holds. intros d f [E H]. split; [auto|]. split; [|exact H]. intros Q1. specialize (E Q1).
    symmetry in E. apply bool_decide_eq_false in E. destruct (now (cell_of g d)); [exfalso; apply E; discriminate|reflexivity].
Qed.

Lemma remove_managed_inert effect P Y : (forall d, files (effect d) = files d) -> may_stop P Y ->
  runs q (remove_managed effect) P (fun _ => P) Y.
Proof.
  intros E HY. apply (suppress_holds _ _ _ _ _ (fun d f => q = false /\ P d f)); [|intuition|intros d f [? ?]; auto].
  eapply holds_bind; [apply look_inert; auto|]. intros u. apply sys_inert; auto.
Qed.

(** A step whose effect may be seen when it stops. *)
Lemma sys_step effect P Q Y :
  (forall d, files (effect d) = effect (files d)) ->
  (forall d f, P d f -> Q tt (effect d) f) -> (forall d f, q = false -> P d f -> Y d f /\ Y (effect d) f) ->
  runs q (sys effect) P Q Y.
Proof.
  intros E HQ HY. apply holds_sys.
  - intros d f H. rewrite E. apply HQ, H.
  - intros Q0 d f e H _. rewrite E. apply HY; assumption.
Qed.

Lemma finally_look m P Q Y : runs q m P (fun _ => Q) Y -> may_stop Q Y ->
  runs q (finally m look) P (fun _ => Q) Y.
Proof.
  intros M HY. unfold finally. eapply holds_bind; [|intros u; apply look_inert, HY].
  eapply holds_try; [exact M| |auto]. intros e. cbn beta.
  apply (holds_bind _ _ _ _ (fun _ => Y)); [|intros u; apply holds_raise; auto].
  apply look_inert. auto.
Qed.

Lemma sync_directory_holds h P Q Y : (forall d f, P d f -> Q (settle h d) f) -> may_stop P Y ->
  (forall d f, q = false -> P d f -> Y (settle h d) f) -> may_stop Q Y -> runs q (sync_directory h) P (fun _ => Q) Y.
Proof.
  intros HQ HP HY HQY. unfold sync_directory. eapply holds_bind; [apply look_inert, HP|]. intros u.
  apply finally_look; [|exact HQY]. apply sys_step; auto. intros d. apply files_settle.
Qed.
End calls.

(** ** Writing a file *)

Definition put (g : file) (data : list byte) (d : disk) : disk :=
  with_cell g (renamed (Some data) false (cell_of g d)) d.

Section writing.
Context {q : bool}.
Implicit Types (P Y : disk -> bool -> Prop).

(** Files and the temporary one that is being written. *)
Lemma with_temp {A} (m : run A) P Q Y :
  holds (fun d => d) q m (fun d f => P (files d) f) (fun a d f => Q a (files d) f) (fun _ d f => Y (files d) f) ->
  runs q m P Q Y.
Proof. intros H. exact H. Qed.

Lemma raw_step effect (P Q Y : disk -> bool -> Prop) :
  (forall d f, P d f -> Q (effect d) f) -> (forall d f, q = false -> P d f -> Y d f /\ Y (effect d) f) ->
  holds (fun d => d) q (sys effect) P (fun _ => Q) (fun _ => Y).
Proof. intros HQ HY. apply holds_sys; auto. Qed.

Lemma files_replace t g data d : temps d !! t = Some {| t_home := home g; t_data := data; t_synced := true |} ->
  files (replace_temp t g d) = put g data (files d).
Proof.
  intros H. unfold replace_temp. rewrite H. unfold put. rewrite files_of. destruct g; reflexivity.
Qed.

(** The mark of an attempt, where it is made. *)
Definition on (marks : bool) : run unit := if marks then mark_attempted else mret tt.

Lemma on_holds marks (P : disk -> bool -> Prop) (X : stop -> disk -> bool -> Prop) :
  holds (fun d => d) q (on marks) (fun d f => P d (marks || f)) (fun _ => P) X.
Proof. destruct marks; intros w S H; cbn in *; auto. Qed.

Lemma atomic_write_holds marks g data P P1 Q Y :
  (forall d f, P d f -> P1 d (marks || f)) ->
  (forall d f, P1 d f -> Q (settle (home g) (put g data d)) f) ->
  (forall d f, q = false -> P d f -> Y d f) ->
  (forall d f, q = false -> P1 d f -> Y d f /\ Y (put g data d) f /\ Y (settle (home g) (put g data d)) f) ->
  (forall d f, q = false -> Q d f -> Y d f) ->
  runs q (atomic_write g data (on marks)) P (fun _ => Q) Y.
Proof.
  intros HP HQ HY HY1 HYQ. unfold atomic_write. eapply holds_bind; [apply probe_inert, HY|]. intros u.
  eapply holds_bind; [apply lexists_inert, HY|]. intros present.
  eapply (holds_bind _ _ _ _ (fun _ => P)).
  { destruct present; [eapply holds_mono; [apply (probe_inert _ P Y HY)| | |]; intuition|apply ret_holds; intuition]. }
  intros u1. apply (holds_bind _ _ _ _ (fun _ => P)); [intros w S H; cbn; auto|]. intros t.
  eapply (holds_try _ _ _ _ _ _ (fun _ => Y)); [| |auto].
  2: { intros e. apply (holds_bind _ _ _ _ (fun _ => Y)); [apply remove_managed_inert; auto|]. intros u2. apply holds_raise. auto. }
  apply with_temp.
  set (T := fun x (d : disk) => temps d !! t = Some x).
  apply (holds_bind _ _ _ _ (fun _ d f => P (files d) f /\ exists x, T x d /\ t_home x = home g)).
  { apply raw_step; [|intuition]. intros d f H. split; [exact H|]. eexists. split; [apply lookup_insert_eq|reflexivity]. }
  intros u2. apply (holds_bind _ _ _ _ (fun _ d f => P (files d) f /\ T {| t_home := home g; t_data := data; t_synced := false |} d)).
  { apply raw_step; [|intros d f Q0 [H _]; split; apply HY; assumption].
    intros d f (H & x & Hx & Hh). split; [exact H|]. unfold T, write_temp. cbn. rewrite lookup_alter_eq, Hx. cbn. rewrite Hh. reflexivity. }
  intros u3. set (x := {| t_home := home g; t_data := data; t_synced := true |}).
  apply (holds_bind _ _ _ _ (fun _ d f => P (files d) f /\ T x d)).
  { apply raw_step; [|intros d f Q0 [H _]; split; apply HY; assumption].
    intros d f (H & Hx). split; [exact H|]. unfold T, sync_temp. cbn. rewrite lookup_alter_eq, Hx. reflexivity. }
  intros u4. apply (holds_bind _ _ _ _ (fun _ d f => P (files d) f /\ T x d)).
  { apply raw_step; [auto|intros d f Q0 [H _]; split; apply HY; assumption]. }
  intros u5. apply (holds_bind _ _ _ _ (fun _ d f => P1 (files d) f /\ T x d)).
  { eapply holds_mono; [apply (on_holds marks (fun d f => P1 (files d) f /\ T x d))| |auto|intros e d f H; exact H].
    intros d f [H Hx]. split; [apply HP, H|exact Hx]. }
  intros u6.
  set (Done1 := fun d f => exists d0, d = put g data d0 /\ P1 d0 f).
  apply (holds_bind _ _ _ _ (fun _ d f => Done1 (files d) f)).
  { apply raw_step; intros d f; [|intros Q0]; intros [H Hx].
    - exists (files d). split; [apply files_replace, Hx|exact H].
    - rewrite (files_replace _ _ _ _ Hx). destruct (HY1 _ _ Q0 H) as (Y1 & Y2 & _). auto. }
  intros u7. change (runs q (sync_directory (home g)) Done1 (fun _ => Q) Y).
  apply sync_directory_holds.
  - intros d f (d0 & -> & H). apply HQ, H.
  - intros d f Q0 (d0 & -> & H). apply HY1; assumption.
  - intros d f Q0 (d0 & -> & H). apply HY1; assumption.
  - exact HYQ.
Qed.

(** A backup changes nothing but backups. *)
Definition but_backups (d : disk) : disk :=
  {| store := store d; anchor := anchor d; journal := journal d; backups := ∅; temps := ∅ |}.

Definition backups_free P : Prop := forall d d' f, but_backups d = but_backups d' -> P d f -> P d' f.

Lemma write_backup_holds data r P Y : backups_free P -> (forall d f, q = false -> P d f -> Y d f) ->
  runs q (write_backup data r) P (fun _ => P) Y.
Proof.
  intros B HY. unfold write_backup. eapply holds_bind; [apply probe_inert, HY|]. intros u.
  eapply holds_bind; [apply lexists_inert, HY|]. intros present. destruct present.
  { eapply holds_mono; [apply (probe_inert _ P Y HY)| | |]; intuition. }
  eapply holds_bind; [apply (content_inert _ _ Y)|]. intros x. case_bool_decide as N.
  - apply holds_raise. intros d f (E & E2 & H). apply HY; [|exact H]. destruct q; [|reflexivity]. specialize (E2 eq_refl).
    symmetry in E2. apply bool_decide_eq_false in E2. subst. contradiction.
  - assert (St : forall effect, (forall d, files (effect d) = effect (files d)) ->
      (forall d, but_backups (effect d) = but_backups d) -> runs q (sys effect) P (fun _ => P) (fun d f => q = false /\ P d f)).
    { intros effect E1 E2. apply sys_step; [exact E1| |].
      - intros d f H. eapply B; [symmetry; apply E2|exact H].
      - intros d f Q0 H. split; (split; [exact Q0|]); [exact H|eapply B; [symmetry; apply E2|exact H]]. }
    eapply (holds_try _ _ _ _ _ _ (fun _ d f => q = false /\ P d f)).
    + eapply holds_mono; [|intros d f (_ & _ & H); exact H|intros a d f H; exact H|intros e d f H; exact H].
      do 3 (eapply holds_bind; [apply St; reflexivity|]; intros ?). apply look_inert. auto.
    + intros e. apply (holds_bind _ _ _ _ (fun _ d f => q = false /\ P d f)); [|intros u1; apply holds_raise; intuition].
      apply (suppress_holds _ _ _ _ _ (fun d f => q = false /\ P d f)); [|auto|intuition].
      apply (holds_bind _ _ _ _ (fun _ d f => q = false /\ P d f)); [apply look_inert; auto|]. intros u1.
      apply sys_step; [reflexivity| |].
      * intros d f [Q0 H]. split; [exact Q0|]. eapply B; [|exact H]. reflexivity.
      * intros d f _ [Q0 H]. split; (split; [exact Q0|]); [exact H|]. eapply B; [|exact H]. reflexivity.
    + intuition.
Qed.

(** Loops. *)
Lemma iterM_holds {A} (g : A -> run unit) (I : list A -> disk -> bool -> Prop) Y l :
  (forall x rest, runs q (g x) (I (x :: rest)) (fun _ => I rest) Y) -> runs q (iterM_st g l) (I l) (fun _ => I []) Y.
Proof.
  intros H. induction l as [|x l IH]; cbn [iterM_st]; [apply ret_holds; auto|].
  eapply holds_bind; [apply H|]. intros u. exact IH.
Qed.

Lemma mapM_look e l P Y : (forall d f, q = false -> P d f -> Y d f) ->
  runs q (mapM_st (fun r : Z => os_error_as e look;; mret r) l) P (fun k d f => k = l /\ P d f) Y.
Proof.
  intros HY. induction l as [|r l IH]; cbn [mapM_st]; [apply ret_holds; auto|].
  apply (holds_bind _ _ _ _ (fun x d f => x = r /\ P d f)).
  { eapply holds_bind; [apply probe_inert, HY|]. intros u. apply ret_holds. auto. }
  intros x. apply holds_fact. intros ->. eapply holds_bind; [exact IH|]. intros k. apply ret_holds. intros d f [-> H]. auto.
Qed.

(** *** The backups of an earlier key *)

Lemma present_elem d r : r ∈ present_backups d <-> exists c, backups d !! r = Some c /\ now c <> None.
Proof.
  unfold present_backups. rewrite list_elem_of_bind. split.
  - intros ([r' c] & H & Hc). apply elem_of_map_to_list in Hc. cbn in H. case_bool_decide as N; [|inversion H].
    apply list_elem_of_singleton in H as ->. eauto.
  - intros (c & H & N). exists (r, c). split; [|apply elem_of_map_to_list, H]. cbn. rewrite bool_decide_eq_true_2 by exact N. left.
Qed.

(** No backup remains, and no power loss brings one back. *)
Definition no_backups (d : disk) : Prop :=
  forall r c, backups d !! r = Some c -> torn c = false /\ Forall (fun x => x = None) (now c :: older c).

Definition settles_store P : Prop := forall d f, P d f -> P (settle StoreDirectory d) f.

Lemma managed_backups_holds P Y : (forall d f, q = false -> P d f -> Y d f) ->
  runs q managed_backups P (fun l d f => l ≡ₚ present_backups d /\ P d f) Y.
Proof.
  intros HY. unfold managed_backups. eapply holds_bind; [apply probe_inert, HY|]. intros u.
  apply (holds_bind _ _ _ _ (fun x d f => backups x = backups d /\ P d f)); [intros w S H; cbn; auto|]. intros x.
  eapply holds_mono; [apply (mapM_look _ _ (fun d f => backups x = backups d /\ P d f) Y)| | |].
  - intros d f Q0 [_ H]. auto.
  - auto.
  - intros k d f (-> & E & H). split; [|exact H]. rewrite merge_sort_Permutation. unfold present_backups. rewrite E. reflexivity.
  - auto.
Qed.

Lemma purge_holds P Y : backups_free P -> settles_store P -> (forall d f, q = false -> P d f -> Y d f) ->
  runs q purge_rotated_backups P (fun _ d f => no_backups d /\ P d f) Y.
Proof.
  intros B St HY. unfold purge_rotated_backups. eapply holds_bind; [apply probe_inert; auto|]. intros u.
  eapply holds_bind; [apply managed_backups_holds; auto|]. intros l.
  set (I := fun (rest : list Z) d f => (forall r, r ∈ present_backups d -> r ∈ rest) /\ P d f).
  apply (holds_bind _ _ _ _ (fun _ => I [])).
  { eapply holds_mono; [apply (iterM_holds _ I Y l)| |auto|auto].
    - intros r rest. apply os_error_holds. apply sys_step; [reflexivity| |].
      + intros d f [H1 H]. split; [|eapply B; [|exact H]; reflexivity]. intros r' Hr'.
        apply present_elem in Hr' as (c & Hc & N). cbn in Hc. destruct (decide (r = r')) as [->|Ne].
        * rewrite lookup_insert_eq in Hc. injection Hc as <-. cbn in N. contradiction.
        * rewrite lookup_insert_ne in Hc by exact Ne. assert (Hr : r' ∈ r :: rest) by (apply H1, present_elem; eauto).
          apply elem_of_cons in Hr as [->|Hr]; [contradiction|exact Hr].
      + intros d f Q0 [_ H]. split; (apply HY; [exact Q0|]); [exact H|eapply B; [|exact H]; reflexivity].
    - intros d f [E H]. split; [|exact H]. intros r. rewrite E. auto. }
  intros u1. set (Q1 := fun d f => (forall r c, backups d !! r = Some c -> now c = None -> older c = [] /\ torn c = false) /\
    (forall r c, backups d !! r = Some c -> older c = [] ) /\ I [] d f).
  apply (holds_bind _ _ _ _ (fun _ => Q1)).
  { apply os_error_holds, sync_directory_holds.
    - intros d f [H1 H]. assert (Se : forall r c, backups (settle StoreDirectory d) !! r = Some c ->
        exists c0, backups d !! r = Some c0 /\ c = settled_cell c0).
      { intros r c Hc. cbn in Hc. rewrite lookup_fmap in Hc. destruct (backups d !! r) as [c0|]; [|discriminate].
        injection Hc as <-. eauto. }
      split; [|split; [|split; [|apply St, H]]].
      + intros r c Hc N. apply Se in Hc as (c0 & _ & ->). cbn in *. rewrite N. auto.
      + intros r c Hc. apply Se in Hc as (c0 & _ & ->). reflexivity.
      + intros r Hr. apply present_elem in Hr as (c & Hc & N). apply Se in Hc as (c0 & Hc & ->). apply H1, present_elem. eauto.
    - intros d f Q0 [_ H]. auto.
    - intros d f Q0 [_ H]. auto.
    - intros d f Q0 (_ & _ & _ & H). auto. }
  intros u2. apply (holds_bind _ _ _ _ (fun l d f => l ≡ₚ present_backups d /\ Q1 d f)).
  { apply managed_backups_holds. intros d f Q0 (_ & _ & _ & H). auto. }
  intros k. destruct k as [|r k].
  - apply ret_holds. intros d f (E & H1 & H2 & H3 & H). split; [|exact H]. intros r c Hc.
    assert (N : now c = None).
    { destruct (now c) as [bs|] eqn:En; [|reflexivity]. exfalso. apply Permutation_nil in E.
      assert (Hr : r ∈ present_backups d) by (apply present_elem; exists c; split; [exact Hc|congruence]).
      rewrite E in Hr. inversion Hr. }
    destruct (H1 r c Hc N) as [Ol T]. split; [exact T|]. rewrite Ol, N. repeat constructor.
  - apply holds_raise. intros d f (E & _ & _ & H & _). exfalso. assert (Hr : r ∈ []) by (apply H; rewrite <- E; left). inversion Hr.
Qed.

(** The removal of the journal. *)
Lemma remove_journal_holds P Q Y :
  (forall d f, P d f -> now (journal d) = None -> Q d f) ->
  (forall d f, P d f -> Q (settle AnchorDirectory (unlink JournalFile d)) f) ->
  (forall d f, q = false -> P d f -> Y d f /\ Y (unlink JournalFile d) f /\ Y (settle AnchorDirectory (unlink JournalFile d)) f) ->
  runs q remove_journal P (fun _ => Q) Y.
Proof.
  intros H1 H2 HY. unfold remove_journal. eapply holds_bind; [apply (probe_inert _ P); apply HY|]. intros u.
  eapply holds_bind; [apply (content_inert _ P Y)|]. intros x. destruct x as [bs|].
  - set (U := fun d f => exists d0, d = unlink JournalFile d0 /\ P d0 f). apply (holds_bind _ _ _ _ (fun _ => U)).
    + apply os_error_holds, sys_step; [reflexivity| |].
      * intros d f [_ H]. exists d. auto.
      * intros d f Q0 [_ H]. split; apply HY; assumption.
    + intros u1. apply os_error_holds.
      assert (S : runs q (sync_directory AnchorDirectory) U
        (fun _ d f => exists d0, d = settle AnchorDirectory (unlink JournalFile d0) /\ P d0 f) Y).
      { apply sync_directory_holds.
        - intros d f (d0 & -> & H). eauto.
        - intros d f Q0 (d0 & -> & H). apply HY; assumption.
        - intros d f Q0 (d0 & -> & H). apply HY; assumption.
        - intros d f Q0 (d0 & -> & H). apply HY; assumption. }
      eapply holds_mono; [exact S|auto| |auto]. intros a d f (d0 & -> & H). auto.
  - apply ret_holds. intros d f [N H]. apply H1; [exact H|symmetry; exact N].
Qed.
End writing.
