(* ===== verification/CatalogCrash.v ===== *)
(** * CatalogCrash: no crash loses the datasource catalog

    The phases a transaction's files go through, and what follows: a commit
    that returns has replaced the catalog; one that does not has left the old
    catalog or the new one, whatever a power loss keeps; and opening the store
    finds it. *)

From S2P Require Import Prelude.
From S2P Require Import Bytes.
From S2P Require Import Canonical.
From S2P Require Import Json.
From S2P Require Import Datasource.
From S2P Require Import Destination.
From S2P Require Import CatalogFormat.
From S2P Require Import CatalogLaws.
From S2P Require Import CatalogDisk.
From S2P Require Import CatalogStore.
From S2P Require Import CatalogRuns.
From S2P Require Import CatalogNames.
From S2P Require Transformers.

Local Open Scope Z_scope.

(** ** The phases of a transaction *)

(** A file whose content, now or after a power loss, is one of these. *)
Definition only (c : cell) (l : list (option (list byte))) : Prop := torn c = false /\ Forall (fun x => x ∈ l) (now c :: older c).

Definition phase (s a j : list (option (list byte))) (d : disk) : Prop :=
  only (store d) s /\ only (anchor d) a /\ only (journal d) j.

Lemma only_mono c l k : (forall x, x ∈ l -> x ∈ k) -> only c l -> only c k.
Proof. intros H [T A]. split; [exact T|]. eapply Forall_impl; [exact A|]. exact H. Qed.

Lemma only_renamed c l x : only c l -> only (renamed x false c) (x :: l).
Proof.
  intros [T A]. split; [cbn; rewrite T; reflexivity|]. cbn. constructor; [left|].
  eapply Forall_impl; [exact A|]. intros y Hy. right. exact Hy.
Qed.

Lemma only_settled c l : only c l -> only (settled_cell c) l.
Proof.
  intros [T A]. inversion A; subst. split; [cbn; rewrite T; destruct (now c); reflexivity|]. repeat constructor. assumption.
Qed.

Lemma only_now c x : torn c = false -> now c = x -> older c = [] -> only c [x].
Proof. intros T N Ol. split; [exact T|]. rewrite Ol, N. repeat constructor. Qed.

Lemma only_replaced c l x : only c l -> only (settled_cell (renamed x false c)) [x].
Proof. intros [T A]. apply only_now; cbn; [rewrite T; destruct x; reflexivity|reflexivity|reflexivity]. Qed.

Lemma only_one c x : only c [x] -> now c = x.
Proof. intros [_ A]. inversion A; subst. apply list_elem_of_singleton. assumption. Qed.

Lemma phase_mono s a j s' a' j' d : (forall x, x ∈ s -> x ∈ s') -> (forall x, x ∈ a -> x ∈ a') -> (forall x, x ∈ j -> x ∈ j') ->
  phase s a j d -> phase s' a' j' d.
Proof.
  intros S A J (H1 & H2 & H3). split; [|split]; [exact (only_mono _ _ _ S H1)|exact (only_mono _ _ _ A H2)|exact (only_mono _ _ _ J H3)].
Qed.

Lemma phase_backups s a j d d' : but_backups d = but_backups d' -> phase s a j d -> phase s a j d'.
Proof. intros E. unfold phase. injection E as -> -> ->. auto. Qed.

Lemma phase_settle_store s a j d : phase s a j d -> phase s a j (settle StoreDirectory d).
Proof. intros (S & A & J). split; [apply only_settled, S|split; assumption]. Qed.

Lemma phase_settle_anchor s a j d : phase s a j d -> phase s a j (settle AnchorDirectory d).
Proof. intros (S & A & J). split; [assumption|split; apply only_settled; assumption]. Qed.

Lemma put_store s a j x d : phase s a j d -> phase (Some x :: s) a j (put StoreFile x d) /\
  phase [Some x] a j (settle StoreDirectory (put StoreFile x d)).
Proof.
  intros (S & A & J). split; (split; [|split; assumption]); cbn; [apply only_renamed, S|].
  eapply only_replaced, S.
Qed.

Lemma put_anchor s a j x d : phase s a j d -> phase s (Some x :: a) j (put AnchorFile x d) /\
  phase s [Some x] j (settle AnchorDirectory (put AnchorFile x d)).
Proof.
  intros (S & A & J). split; (split; [exact S|]); split; cbn; [apply only_renamed, A|exact J|eapply only_replaced, A|apply only_settled, J].
Qed.

Lemma put_journal s a j x d : phase s a j d -> phase s a (Some x :: j) (put JournalFile x d) /\
  phase s a [Some x] (settle AnchorDirectory (put JournalFile x d)).
Proof.
  intros (S & A & J). split; (split; [exact S|]); split; cbn; [exact A|apply only_renamed, J|apply only_settled, A|eapply only_replaced, J].
Qed.

Lemma drop_journal s a j d : phase s a j d -> phase s a (None :: j) (unlink JournalFile d) /\
  phase s a [None] (settle AnchorDirectory (unlink JournalFile d)).
Proof.
  intros (S & A & J). split; (split; [exact S|]); split; cbn; [exact A|apply only_renamed, J|apply only_settled, A|eapply only_replaced, J].
Qed.

Ltac inside := intros x Hx; repeat (rewrite elem_of_cons in * ); rewrite elem_of_nil in *; tauto.

(** What is to be true of the backups once the journal may be gone. *)
Record steady (G : disk -> Prop) : Prop := {
  steady_backups d d' : backups d = backups d' -> G d -> G d';
  steady_unlink d r : G d -> G (unlink (BackupFile r) d);
  steady_settle d h : G d -> G (settle h d);
  steady_loss d d' : G d -> power_loss d d' -> G d';
}.

Lemma always_steady : steady (fun _ => True).
Proof. split; auto. Qed.

Lemma no_backups_steady : steady no_backups.
Proof.
  split.
  - intros d d' E H r c. rewrite <- E. apply H.
  - intros d r H r' c Hc. cbn in Hc. destruct (decide (r = r')) as [->|Ne].
    + rewrite lookup_insert_eq in Hc. injection Hc as <-. cbn. destruct (backups d !! r') as [c|] eqn:E; cbn; [|repeat constructor].
      destruct (H r' c E) as [T A]. rewrite T. split; [reflexivity|]. constructor; [reflexivity|exact A].
    + rewrite lookup_insert_ne in Hc by exact Ne. exact (H r' c Hc).
  - intros d [] H; [|exact H]. intros r c Hc. cbn in Hc. rewrite lookup_fmap in Hc.
    destruct (backups d !! r) as [c0|] eqn:E; [|discriminate]. injection Hc as <-. destruct (H r c0 E) as [T A].
    inversion A as [|? ? N1 _]; subst. cbn. rewrite N1. repeat constructor.
  - intros d d' H (_ & _ & _ & P) r c Hc. specialize (P r). rewrite Hc in P. cbn in P. destruct P as (Ol & T & E).
    split; [exact T|]. rewrite Ol. constructor; [|constructor].
    destruct (backups d !! r) as [c0|] eqn:E0; cbn in E.
    + destruct (H r c0 E0) as [T0 A]. inversion A as [|? ? N1 N2]; subst. destruct E as [E|[->|E]]; [congruence|exact N1|].
      rewrite Forall_forall in N2. apply N2, E.
    + destruct E as [E|[->|E]]; [discriminate|reflexivity|inversion E].
Qed.

Section phases.
Context (G : disk -> Prop) (O aO : option (list byte)) (N aN J : list byte).

Definition before : disk -> Prop := phase [O] [aO] [None; Some J].
Definition replacing : disk -> Prop := phase [O; Some N] [aO] [Some J].
Definition anchoring : disk -> Prop := phase [Some N] [aO; Some aN] [Some J].
Definition finishing (d : disk) : Prop := phase [Some N] [Some aN] [None; Some J] d /\ G d.
Definition after_ : disk -> Prop := phase [Some N] [Some aN] [None].

(** Where a transaction, or the recovery from one, may be. *)
Definition transit (d : disk) : Prop := before d \/ replacing d \/ anchoring d \/ finishing d.

End phases.

Section transaction.
Context {F : PyFloat} {q : bool}.
Context (G : disk -> Prop) (St : steady G).
Context (O aO : option (list byte)) (data aN J : list byte).

Abbreviation before_ := (before O aO J).
Abbreviation transit_ := (transit G O aO data aN J).

(** Where a transaction that stops may be: with the old files for sure as
    long as the replacement was not attempted. *)
Definition stopped (d : disk) (f : bool) : Prop := q = false /\ transit_ d /\ (f = false -> before_ d).

Lemma stopped_at d f : q = false -> transit_ d -> (f = false -> before_ d) -> stopped d f.
Proof. intros H1 H2 H3. split; [exact H1|split; [exact H2|exact H3]]. Qed.

Definition written (d : disk) : Prop := phase [Some data] [Some aN] [Some J] d.

Lemma from_holds {A} (m : catalog A) x (P : disk -> bool -> Prop) Y : m = Ok x -> runs q (from m) P (fun y d f => y = x /\ P d f) Y.
Proof. intros ->. apply ret_holds. auto. Qed.

Lemma phase_inclusions d :
  (phase [O] [aO] [Some J] d -> before_ d /\ replacing O aO data J d) /\
  (phase [Some data] [aO] [Some J] d -> replacing O aO data J d /\ anchoring aO data aN J d) /\
  (written d -> anchoring aO data aN J d) /\
  (after_ data aN d -> G d -> finishing G data aN J d).
Proof.
  unfold before, replacing, anchoring, finishing, after_, written.
  split; [|split; [|split]]; [intros H; split|intros H; split|intros H|intros H HG; split; [|exact HG]]; revert H; apply phase_mono; inside.
Qed.

Lemma write_journal_holds : runs q (atomic_write JournalFile J (on false)) (fun d f => f = false /\ before_ d)
  (fun _ d f => f = false /\ phase [O] [aO] [Some J] d) stopped.
Proof.
  assert (T : forall d, before_ d -> transit_ d) by (intros d; left; assumption).
  apply (atomic_write_holds false JournalFile J _ (fun d f => f = false /\ before_ d)).
  - intros d f [-> H]. auto.
  - intros d f [-> H]. split; [reflexivity|]. eapply put_journal, H.
  - intros d f Q0 [-> H]. apply stopped_at; auto.
  - intros d f Q0 [-> H]. destruct (put_journal _ _ _ J _ H) as [P1 P2].
    assert (B1 : before_ (put JournalFile J d)) by (eapply phase_mono; [| | |exact P1]; inside).
    assert (B2 : before_ (settle AnchorDirectory (put JournalFile J d))) by (eapply phase_mono; [| | |exact P2]; inside).
    split; [|split]; apply stopped_at; auto.
  - intros d f Q0 [-> H]. apply phase_inclusions in H as [H _]. apply stopped_at; auto.
Qed.

Lemma write_store_holds : runs q (atomic_write StoreFile data (on true)) (fun d f => f = false /\ phase [O] [aO] [Some J] d)
  (fun _ d f => f = true /\ phase [Some data] [aO] [Some J] d) stopped.
Proof.
  apply (atomic_write_holds true StoreFile data _ (fun d f => f = true /\ phase [O] [aO] [Some J] d)).
  - intros d f [-> H]. auto.
  - intros d f [-> H]. split; [reflexivity|]. eapply put_store, H.
  - intros d f Q0 [-> H]. apply phase_inclusions in H as [H _]. apply stopped_at; auto. left. exact H.
  - intros d f Q0 [-> H]. destruct (put_store _ _ _ data _ H) as [P1 P2].
    assert (B : transit_ d) by (left; apply phase_inclusions in H as [H _]; exact H).
    assert (B1 : transit_ (put StoreFile data d)) by (right; left; eapply phase_mono; [| | |exact P1]; inside).
    assert (B2 : transit_ (settle StoreDirectory (put StoreFile data d))) by (right; left; eapply phase_mono; [| | |exact P2]; inside).
    split; [|split]; apply stopped_at; auto; discriminate.
  - intros d f Q0 [-> H]. apply phase_inclusions in H as [H _]. apply stopped_at; auto; [right; left; exact H|discriminate].
Qed.

(** Past the replacement of the store. *)
Definition ahead (d : disk) : Prop := anchoring aO data aN J d \/ finishing G data aN J d.

Lemma ahead_transit d : ahead d -> transit_ d.
Proof. unfold transit, ahead. tauto. Qed.

(** The anchor of a new store, in a transaction or a recovery. *)
Lemma write_anchor_holds (Y : disk -> bool -> Prop) b : (forall d f, q = false -> ahead d -> f = b -> Y d f) ->
  runs q (atomic_write AnchorFile aN (on false)) (fun d f => f = b /\ phase [Some data] [aO] [Some J] d)
    (fun _ d f => f = b /\ written d) Y.
Proof.
  intros HY. apply (atomic_write_holds false AnchorFile aN _ (fun d f => f = b /\ phase [Some data] [aO] [Some J] d)).
  - intros d f [-> H]. auto.
  - intros d f [-> H]. split; [reflexivity|]. eapply put_anchor, H.
  - intros d f Q0 [-> H]. apply phase_inclusions in H as [_ H]. apply HY; auto. left; exact H.
  - intros d f Q0 [-> H]. destruct (put_anchor _ _ _ aN _ H) as [P1 P2].
    apply phase_inclusions in H as [_ H]. split; [apply HY; auto; left; exact H|].
    split; apply HY; auto; left; eapply phase_mono; [| | |exact P1| | | |exact P2]; inside.
  - intros d f Q0 [-> H]. apply phase_inclusions in H. apply HY; auto. left; exact H.
Qed.

(** [persist_transaction]: it returns with the new files, and no others; or
    stops where a recovery can go on, with the old files in place unless it
    says that the outcome is uncertain, is interrupted or dies. *)
Lemma persist_holds j new_anchor backup purge : journal_bytes j = Ok J -> anchor_bytes new_anchor = Ok aN ->
  (forall d, (purge = true -> no_backups d) -> G d) ->
  holds files q (persist_transaction j data new_anchor backup purge) (fun d _ => before_ d)
    (fun _ d _ => after_ data aN d /\ G d)
    (fun e d _ => q = false /\ transit_ d /\
       (e <> Raised CatalogOutcomeUncertainError -> e <> Raised Interrupted -> e <> Died -> before_ d)).
Proof.
  intros Jb Ab HG. unfold persist_transaction.
  apply (holds_bind _ _ _ _ (fun _ d f => f = false /\ before_ d)); [intros w S H; cbn; auto|]. intros u.
  eapply (holds_try _ _ _ _ _ _ (fun _ => stopped)).
  2: { intros e. apply (holds_bind _ _ _ _ (fun b d f => b = f /\ stopped d f)); [intros w S H; cbn; auto|]. intros b.
       destruct b; destruct e; apply holds_raise; intros d f (E & Q0 & T & B); (split; [exact Q0|]); (split; [exact T|]);
         intros N1 N2 N3; try contradiction; apply B; symmetry; exact E. }
  2: { intros d f (Q0 & T & _). split; [exact Q0|]. split; [exact T|]. intros _ _ X. contradiction. }
  eapply holds_bind; [apply (from_holds _ J); rewrite Jb; reflexivity|]. intros t. apply holds_fact. intros ->.
  eapply holds_bind; [apply write_journal_holds|]. intros u1.
  apply (holds_bind _ _ _ _ (fun _ d f => f = false /\ phase [O] [aO] [Some J] d)).
  { destruct backup as [[old r]|]; [|apply ret_holds; auto]. apply write_backup_holds.
    - intros d d' f E [-> H]. split; [reflexivity|]. eapply phase_backups; eassumption.
    - intros d f Q0 [-> H]. apply phase_inclusions in H as [H _]. apply stopped_at; auto. left. exact H. }
  intros u2. eapply holds_bind; [apply write_store_holds|]. intros u3.
  eapply holds_bind; [apply (from_holds _ aN); rewrite Ab; reflexivity|]. intros t. apply holds_fact. intros ->.
  eapply holds_bind.
  { apply (write_anchor_holds _ true). intros d f Q0 T ->. apply stopped_at; auto; [apply ahead_transit, T|discriminate]. }
  intros u4. set (W := fun d (f : bool) => G d /\ f = true /\ written d).
  assert (Wr : forall d f, q = false -> f = true /\ written d -> stopped d f).
  { intros d f Q0 [-> H]. apply phase_inclusions in H. apply stopped_at; auto; [right; right; left; exact H|discriminate]. }
  apply (holds_bind _ _ _ _ (fun _ => W)).
  { destruct purge; [|apply ret_holds; intros d f H; split; [apply HG; discriminate|exact H]].
    eapply holds_mono; [apply (purge_holds (fun d f => f = true /\ written d) stopped)|auto| |auto].
    - intros d d' f E [-> H]. split; [reflexivity|]. eapply phase_backups; eassumption.
    - intros d f [-> H]. split; [reflexivity|]. apply phase_settle_store, H.
    - exact Wr.
    - intros a d f [H1 H]. split; [apply HG; auto|exact H]. }
  intros u5. apply (remove_journal_holds W).
  - intros d f (_ & _ & _ & _ & H) N. apply only_one in H. congruence.
  - intros d f (H1 & _ & H). split; [eapply drop_journal, H|].
    eapply steady_settle; [exact St|]. eapply steady_backups; [exact St| |exact H1]. reflexivity.
  - intros d f Q0 (H1 & -> & H). split; [apply Wr; auto|]. destruct (drop_journal _ _ _ _ H) as [P1 P2].
    assert (H2 : G (unlink JournalFile d)) by (eapply steady_backups; [exact St| |exact H1]; reflexivity).
    split; apply stopped_at; try discriminate; auto; right; right; right.
    + split; [eapply phase_mono; [| | |exact P1]; inside|exact H2].
    + split; [eapply phase_mono; [| | |exact P2]; inside|eapply steady_settle; [exact St|exact H2]].
Qed.
End transaction.

(** ** Opening the store after a transaction *)

(** The three places a transaction can be found at, once its files are what
    they are: before the store was replaced, before the anchor was, after. *)
Inductive place := Before | Between | After.

Section recovery.
Context {F : PyFloat} {D : DatasourceLib} {L : PyLib} {q : bool}.
Context (G : disk -> Prop) (St : steady G).
Context (pO pN : ParsedCatalog) (O aO N aN J : list byte).
Context (HaO : parse_anchor aO = Ok (anchor_of (state_of pO))) (HaN : parse_anchor aN = Ok (anchor_of (state_of pN))).
Context (Differ : state_of pO <> state_of pN) (HbN : anchor_bytes (anchor_of (state_of pN)) = Ok aN).

Definition store_at (p : place) : list byte := match p with Before => O | _ => N end.
Definition anchor_at (p : place) : list byte := match p with After => aN | _ => aO end.
Definition catalog_at (p : place) : ParsedCatalog := match p with Before => pO | _ => pN end.
Definition state_at (p : place) : option state := Some (state_of (match p with After => pN | _ => pO end)).

(** The key of each place authenticates its store. *)
Context (key_of : place -> list byte) (Parse : forall p, parse_catalog (store_at p) (key_of p) = Ok (catalog_at p)).

Definition plan_at (purge : bool) (p : place) : RecoveryPlan :=
  {| advance_anchor := match p with Between => Some (anchor_of (state_of pN)) | _ => None end;
     purge_backups_in := purge && match p with Before => false | _ => true end |}.

(** The place a recovery leads to. *)
Definition recovered (p : place) : place := match p with Before => Before | _ => After end.

Definition at_place (p : place) (jn : option (list byte)) (d : disk) : Prop :=
  phase [Some (store_at p)] [Some (anchor_at p)] [jn] d /\ (jn = None -> p = After -> G d).

(** The places and journals a transaction leaves. *)
Definition possible (p : place) (jn : option (list byte)) : Prop := (jn = None /\ p <> Between) \/ jn = Some J.

(** What may have become of a place when its recovery stops. *)
Definition span (p : place) (d : disk) : Prop :=
  match p with Before => before (Some O) (Some aO) J d | _ => ahead G (Some aO) N aN J d end.

Lemma place_span p jn d : possible p jn -> at_place p jn d -> span p d.
Proof.
  intros [[-> Np]| ->] [H HG]; destruct p; try contradiction; unfold span; cbn in *.
  - revert H. apply phase_mono; inside.
  - right. split; [revert H; apply phase_mono; inside|apply HG; reflexivity].
  - revert H. apply phase_mono; inside.
  - left. revert H. apply phase_mono; inside.
  - left. revert H. apply phase_mono; inside.
Qed.

Lemma from_ok {A} (m : catalog A) x (P : disk -> bool -> Prop) Y : m = Ok x -> runs q (from m) P (fun y d f => y = x /\ P d f) Y.
Proof. intros ->. apply ret_holds. auto. Qed.

Lemma parse_anchor_at p : parse_anchor (anchor_at p) = Ok (anchor_of (default (0, []) (state_at p))).
Proof. destruct p; assumption. Qed.

Definition content_at (p : place) (jn : option (list byte)) (g : file) : option (list byte) :=
  match g with StoreFile => Some (store_at p) | AnchorFile => Some (anchor_at p) | JournalFile => jn | BackupFile _ => None end.

Definition core_file (g : file) : Prop := match g with BackupFile _ => False | _ => True end.

Lemma content_now p jn g d : core_file g -> at_place p jn d -> now (cell_of g d) = content_at p jn g.
Proof. intros C ((S & A & Jn) & _). destruct g; try contradiction; apply only_one; assumption. Qed.

(** A file is read as it is, or seems absent because its state cannot be read. *)
Lemma read_at p jn g Y : core_file g -> (forall d f, q = false -> at_place p jn d -> Y d f) ->
  runs q (read_optional g) (fun d _ => at_place p jn d)
    (fun x d _ => (x = content_at p jn g \/ x = None /\ q = false) /\ at_place p jn d) Y.
Proof.
  intros C HY. eapply holds_mono; [apply (read_inert g (fun d _ => at_place p jn d)), HY|auto| |auto].
  intros x d f (E & Eq & H). split; [|exact H]. pose proof (content_now p jn g d C H) as Nw. rewrite Nw in *.
  destruct E as [->|E]; [|auto]. destruct q; [left; apply Eq; reflexivity|auto].
Qed.

(** [_optional_anchor_state]. *)
Lemma anchor_state_holds p jn Y : (forall d f, q = false -> at_place p jn d -> Y d f) ->
  runs q optional_anchor_state (fun d _ => at_place p jn d)
    (fun a d _ => (a = state_at p \/ a = None /\ q = false) /\ at_place p jn d) Y.
Proof.
  intros HY. unfold optional_anchor_state. eapply holds_bind; [apply (read_at p jn AnchorFile); [exact I|exact HY]|].
  intros a. apply holds_fact. intros [->|[-> Q0]].
  - eapply holds_bind; [apply from_ok, parse_anchor_at|]. intros t. apply ret_holds. intros d f [-> H].
    split; [left; destruct p; reflexivity|exact H].
  - apply ret_holds. auto.
Qed.

Lemma new_differs : Some (state_of pN) <> Some (state_of pO).
Proof. intros E. apply Differ. congruence. Qed.

Lemma holds_flag {A} (m : run A) (P : disk -> Prop) Q (X : stop -> disk -> bool -> Prop) :
  (forall b, holds files q m (fun d f => f = b /\ P d) Q X) -> holds files q m (fun d _ => P d) Q X.
Proof. intros H w S HP. exact (H (attempted w) w S (conj eq_refl HP)). Qed.

(** A plan carried out leads to the place recovered, without its journal. *)
Lemma apply_holds purge p : (forall d, (purge = true -> no_backups d) -> G d) ->
  runs q (apply_recovery (plan_at purge p)) (fun d _ => at_place p (Some J) d)
    (fun _ d _ => at_place (recovered p) None d) (fun d _ => q = false /\ span p d).
Proof.
  intros HG. apply holds_flag. intros b. unfold apply_recovery, plan_at. cbn [advance_anchor purge_backups_in].
  set (r := recovered p).
  assert (Sp : forall d, at_place r (Some J) d -> span p d).
  { intros d H. assert (E : span p d = span r d) by (destruct p; reflexivity). rewrite E.
    apply (place_span r (Some J)); [right; reflexivity|exact H]. }
  apply (holds_bind _ _ _ _ (fun _ d f => f = b /\ at_place r (Some J) d)).
  { destruct p; try (apply ret_holds; intros d f H; exact H).
    eapply holds_bind; [apply (from_ok _ aN); rewrite HbN; reflexivity|]. intros t. apply holds_fact. intros ->.
    eapply holds_mono; [apply (write_anchor_holds G (Some O) (Some aO) N aN J (fun d _ => q = false /\ span Between d) b)| | |auto].
    - intros d f Q0 H _. split; [exact Q0|exact H].
    - intros d f [E [H _]]. split; [exact E|exact H].
    - intros a d f [E H]. split; [exact E|]. split; [exact H|discriminate]. }
  intros u. set (W := fun d (f : bool) => (p <> Before -> G d) /\ f = b /\ at_place r (Some J) d).
  apply (holds_bind _ _ _ _ (fun _ => W)).
  { destruct (purge && _) eqn:Pu.
    - apply andb_true_iff in Pu as [-> _].
      eapply holds_mono; [apply (purge_holds (fun d f => f = b /\ at_place r (Some J) d) (fun d _ => q = false /\ span p d))|auto| |auto].
      + intros d d' f E [-> [H _]]. split; [reflexivity|]. split; [eapply phase_backups; eassumption|discriminate].
      + intros d f [-> [H _]]. split; [reflexivity|]. split; [apply phase_settle_store, H|discriminate].
      + intros d f Q0 [_ H]. auto.
      + intros a d f [H1 H]. split; [intros _; apply HG; auto|exact H].
    - apply ret_holds. intros d f H. split; [|exact H]. intros Np. apply HG. intros ->. destruct p; try discriminate. contradiction. }
  intros u1. assert (Lift : forall d d', backups d = backups d' -> (p <> Before -> G d) -> p <> Before -> G d').
  { intros d d' E H Np. eapply steady_backups; [exact St|exact E|exact (H Np)]. }
  apply (remove_journal_holds W).
  - intros d f (_ & _ & H) X. apply (content_now _ _ JournalFile) in H; [|exact I]. cbn in H. congruence.
  - intros d f (H1 & _ & [H _]). split; [eapply drop_journal, H|]. intros _ Er.
    apply steady_settle; [exact St|]. apply (Lift d); [reflexivity|exact H1|]. subst r. destruct p; discriminate.
  - intros d f Q0 (H1 & _ & H). split; [auto|]. destruct H as [H _]. destruct (drop_journal _ _ _ _ H) as [P1 P2].
    assert (Gd : forall x, phase [Some (store_at r)] [Some (anchor_at r)] [None; Some J] x -> (p <> Before -> G x) -> span p x).
    { intros x Hx Gx. subst r. destruct p; unfold span, before; [exact Hx|right|right]; (split; [exact Hx|apply Gx; discriminate]). }
    assert (H2 : p <> Before -> G (unlink JournalFile d)) by (apply (Lift d); [reflexivity|exact H1]).
    split; (split; [exact Q0|]); apply Gd.
    + eapply phase_mono; [| | |exact P1]; inside.
    + exact H2.
    + eapply phase_mono; [| | |exact P2]; inside.
    + intros Np. apply steady_settle; [exact St|exact (H2 Np)].
Qed.

(** [_read_pair] reads the catalog of a place that has one. *)
Lemma read_pair_holds p jn Y : (forall d f, (q = false \/ p = Between) -> at_place p jn d -> Y d f) ->
  runs q (read_pair (key_of p)) (fun d _ => at_place p jn d) (fun r d _ => (r = catalog_at p /\ p <> Between) /\ at_place p jn d) Y.
Proof.
  intros HY. unfold read_pair. eapply holds_bind; [apply (read_at p jn StoreFile); [exact I|auto]|]. intros s.
  apply holds_fact. intros Hs. eapply holds_bind; [apply (read_at p jn AnchorFile); [exact I|auto]|]. intros a.
  apply holds_fact. intros Ha. destruct Hs as [->|[-> Q0]]; [|apply holds_raise; auto].
  destruct Ha as [->|[-> Q0]]; [|apply holds_raise; auto]. cbn [content_at].
  eapply holds_bind; [apply from_ok, Parse|]. intros t. apply holds_fact. intros ->.
  eapply holds_bind; [apply from_ok, parse_anchor_at|]. intros t. apply holds_fact. intros ->.
  pose proof new_differs as Nd. case_bool_decide as E.
  - apply ret_holds. intros d f H. split; [split; [reflexivity|]|exact H]. intros ->. apply new_differs. f_equal. exact E.
  - apply holds_raise. intros d f H. apply HY; [|exact H]. destruct p; auto; exfalso; apply E; cbn;
      destruct (state_of _); reflexivity.
Qed.

(** [_cleanup_managed] only touches temporary files and backups. *)
Lemma cleanup_holds h P Y : (forall d f r, P d f -> P (unlink (BackupFile r) d) f) -> (forall d f, q = false -> P d f -> Y d f) ->
  runs q (cleanup_managed h) P (fun _ => P) Y.
Proof.
  intros B HY. unfold cleanup_managed.
  apply (holds_bind _ _ _ _ (fun _ => P)).
  { apply (suppress_holds _ _ _ _ _ (fun d f => q = false /\ P d f)); [|intros d f [_ H]; exact H|intros d f [Q0 H]; auto].
    eapply holds_bind; [apply look_inert; auto|]. intros u. apply ret_holds. auto. }
  intros [|]; cbn [negb]; [|apply ret_holds; auto].
  apply (holds_bind _ _ _ _ (fun _ => P)); [intros w S H; cbn; auto|]. intros x.
  apply (holds_bind _ _ _ _ (fun _ => P)).
  { apply (iterM_holds _ (fun _ => P)). intros t rest. apply remove_managed_inert; [reflexivity|exact HY]. }
  intros u. destruct h; [|apply ret_holds; auto]. apply (iterM_holds _ (fun _ => P)). intros r rest.
  apply (suppress_holds _ _ _ _ _ (fun d f => q = false /\ P d f)); [|intros d f [_ H]; exact H|intros d f [Q0 H]; auto].
  eapply holds_bind; [apply look_inert; auto|]. intros u1. apply sys_step; [reflexivity| |].
  - intros d f H. apply B, H.
  - intros d f Q0 H. split; (split; [exact Q0|]); [exact H|apply B, H].
Qed.

(** ** Power losses *)

Lemma survives_only c c' l : only c l -> survives c c' -> exists x, x ∈ l /\ only c' [x].
Proof.
  intros [T A] (Ol & T' & E). exists (now c'). split; [|apply only_now; auto].
  inversion A as [|? ? H1 H2]; subst. destruct E as [E|[->|E]]; [congruence|exact H1|].
  rewrite Forall_forall in H2. apply H2, E.
Qed.

Lemma phase_loss s a jl d d' : phase s a jl d -> power_loss d d' ->
  exists x y z, x ∈ s /\ y ∈ a /\ z ∈ jl /\ phase [x] [y] [z] d'.
Proof.
  intros (S & A & Jn) (S' & A' & J' & _). destruct (survives_only _ _ _ S S') as (x & Hx & X).
  destruct (survives_only _ _ _ A A') as (y & Hy & Y). destruct (survives_only _ _ _ Jn J') as (z & Hz & Z0).
  exists x, y, z. split; [exact Hx|]. split; [exact Hy|]. split; [exact Hz|]. split; [exact X|split; assumption].
Qed.

Ltac choose_ := repeat match goal with
  | H : _ ∈ _ :: _ |- _ => apply elem_of_cons in H as [->|H]
  | H : _ ∈ [] |- _ => inversion H
  end.

(** What is certain of the catalog: that it stays the old one, that it
    becomes the new one, or that it is one of the two. *)
Inductive fate := Old | New | Either.

Definition area (x : fate) (d : disk) : Prop :=
  match x with
  | Old => before (Some O) (Some aO) J d
  | New => ahead G (Some aO) N aN J d
  | Either => transit G (Some O) (Some aO) N aN J d
  end.

Definition allowed (x : fate) (p : place) : Prop :=
  match x with Old => p = Before | New => p <> Before | Either => True end.

Lemma before_loss d d' : before (Some O) (Some aO) J d -> power_loss d d' ->
  exists jn, possible Before jn /\ at_place Before jn d'.
Proof.
  intros B P. destruct (phase_loss _ _ _ _ _ B P) as (x & y & z & Hx & Hy & Hz & H).
  choose_; eexists; (split; [|split; [exact H|discriminate]]); [left; split; [reflexivity|discriminate]|right; reflexivity].
Qed.

Lemma ahead_loss d d' : ahead G (Some aO) N aN J d -> power_loss d d' ->
  exists p jn, possible p jn /\ at_place p jn d' /\ p <> Before.
Proof.
  intros [B|[B HG]] P; destruct (phase_loss _ _ _ _ _ B P) as (x & y & z & Hx & Hy & Hz & H); choose_.
  - exists Between, (Some J). split; [right; reflexivity|]. split; [split; [exact H|discriminate]|discriminate].
  - exists After, (Some J). split; [right; reflexivity|]. split; [split; [exact H|discriminate]|discriminate].
  - exists After, None. split; [left; split; [reflexivity|discriminate]|].
    split; [split; [exact H|intros _ _; exact (steady_loss _ St _ _ HG P)]|discriminate].
  - exists After, (Some J). split; [right; reflexivity|]. split; [split; [exact H|discriminate]|discriminate].
Qed.

Lemma area_loss x d d' : area x d -> power_loss d d' ->
  exists p jn, possible p jn /\ allowed x p /\ at_place p jn d'.
Proof.
  intros Ar P. destruct x; cbn in Ar.
  - destruct (before_loss _ _ Ar P) as (jn & Po & H). exists Before, jn. split; [exact Po|]. split; [reflexivity|exact H].
  - destruct (ahead_loss _ _ Ar P) as (p & jn & Po & H & Np). exists p, jn. auto.
  - destruct Ar as [B|[R|B]].
    + destruct (before_loss _ _ B P) as (jn & Po & H). exists Before, jn. split; [exact Po|]. split; [exact I|exact H].
    + destruct (phase_loss _ _ _ _ _ R P) as (a & b & c & Ha & Hb & Hc & H). choose_.
      * exists Before, (Some J). split; [right; reflexivity|]. split; [exact I|split; [exact H|discriminate]].
      * exists Between, (Some J). split; [right; reflexivity|]. split; [exact I|split; [exact H|discriminate]].
    + destruct (ahead_loss _ _ B P) as (p & jn & Po & H & _). exists p, jn. split; [exact Po|]. split; [exact I|exact H].
Qed.

Lemma span_area x p d : allowed x p -> span p d -> area x d.
Proof.
  destruct x, p; cbn; intros Al S; try discriminate; try contradiction; try exact S; unfold ahead, transit in *; tauto.
Qed.

(** ** Opening after a transaction of one key *)

Context (key : list byte) (Same : forall p, key_of p = key) (j : Journal).
Context (HJ : parse_journal J key = Ok (j, true, true)) (Plain : is_rotation_journal j = false).
Context (HS : journal_states j = (Some (state_of pO), state_of pN)).

(** [_plan_recovery] finds the place. *)
Lemma plan_holds p jn Y : possible p jn -> (forall d f, q = false -> at_place p jn d -> Y d f) ->
  runs q (plan_recovery key) (fun d _ => at_place p jn d)
    (fun r d _ => ((r = None /\ (q = true -> jn = None)) \/ (r = Some (plan_at false p) /\ jn = Some J)) /\ at_place p jn d) Y.
Proof.
  intros Po HY. unfold plan_recovery. eapply holds_bind; [apply (read_at p jn JournalFile); [exact I|exact HY]|].
  intros x. apply holds_fact. intros Hx. destruct x as [data|].
  2: { apply ret_holds. intros d f H. split; [|exact H]. left. split; [reflexivity|]. intros Q1.
       destruct Hx as [E|[_ E]]; [symmetry; exact E|congruence]. }
  destruct Hx as [E|[E _]]; [|discriminate]. cbn in E. destruct Po as [[X _]|X]; [congruence|]. rewrite X in E. injection E as ->.
  eapply holds_bind; [apply (from_ok _ (j, true, true)), HJ|]. intros t. apply holds_fact. intros ->.
  rewrite HS, Plain. eapply holds_bind; [apply (read_at p jn StoreFile); [exact I|exact HY]|]. intros s. apply holds_fact. intros Hs.
  eapply holds_bind; [apply anchor_state_holds, HY|]. intros a. apply holds_fact. intros Ha.
  eapply (holds_bind _ _ _ _ (fun st d f => (st = Some (state_of (catalog_at p)) \/ st = None /\ q = false) /\ at_place p jn d)).
  { destruct Hs as [->|[-> Q0]]; [|apply ret_holds; auto].
    eapply holds_bind; [apply from_ok; rewrite <- (Same p); apply Parse|]. intros t. apply ret_holds. intros d f [-> H]. auto. }
  intros st. apply holds_fact. intros Hst. cbn zeta. pose proof new_differs as Nd.
  assert (Ret : forall r, r = plan_at false p -> runs q (mret (Some r)) (fun d (_ : bool) => at_place p jn d)
    (fun r d _ => ((r = None /\ (q = true -> jn = None)) \/ (r = Some (plan_at false p) /\ jn = Some J)) /\ at_place p jn d) Y).
  { intros r ->. apply ret_holds. auto. }
  assert (Rai : q = false -> runs q (raise CatalogAnchorError) (fun d (_ : bool) => at_place p jn d)
    (fun r d _ => ((r = None /\ (q = true -> jn = None)) \/ (r = Some (plan_at false p) /\ jn = Some J)) /\ at_place p jn d) Y).
  { intros Q0. apply holds_raise. auto. }
  unfold state_at in Ha.
  destruct p; cbn in Ha, Hst; destruct Hst as [->|[-> Q1]], Ha as [->|[-> Q2]];
    repeat case_bool_decide; try congruence; try (apply Rai; assumption); apply Ret; reflexivity.
Qed.

(** Opening: without failures the recovered catalog; with them, at worst the
    place's span. *)
Lemma open_holds p jn value : (forall d, G d) -> possible p jn -> key_from_provider value = Ok key ->
  runs q (open_store value) (fun d _ => at_place p jn d)
    (fun c d _ => c = new_catalog key (catalog_at p) /\ span p d /\ (q = true -> at_place (recovered p) None d))
    (fun d _ => q = false /\ span p d).
Proof.
  intros HG Po Ke. assert (Sp : forall d (f : bool), q = false -> at_place p jn d -> q = false /\ span p d).
  { intros d f Q0 H. split; [exact Q0|exact (place_span p jn d Po H)]. }
  unfold open_store. eapply holds_bind; [apply (probe_inert _ (fun d _ => at_place p jn d)), Sp|]. intros u.
  eapply holds_bind; [apply (probe_inert _ (fun d _ => at_place p jn d)), Sp|]. intros u1.
  eapply holds_bind; [apply (from_ok _ key), Ke|]. intros k. apply holds_fact. intros ->.
  apply (holds_bind _ _ _ _ (fun _ d _ => at_place p jn d)).
  { unfold acquire_locks. eapply holds_bind; [apply (probe_inert _ (fun d _ => at_place p jn d)), Sp|]. intros u2.
    apply (probe_inert _ (fun d _ => at_place p jn d)), Sp. }
  intros u2. eapply holds_bind; [apply plan_holds; [exact Po|exact Sp]|]. intros r. apply holds_fact. intros Hr.
  (* what is left, at the place the plan leads to *)
  assert (Rest : forall p' j', catalog_at p' = catalog_at p -> possible p' j' \/ q = false ->
    (forall d, at_place p' j' d -> span p d) -> (q = true -> p' = recovered p /\ j' = None) ->
    runs q (parsed ← read_pair key; cleanup_managed StoreDirectory;; cleanup_managed AnchorDirectory;; mret (new_catalog key parsed))
      (fun d _ => at_place p' j' d)
      (fun c d _ => c = new_catalog key (catalog_at p) /\ span p d /\ (q = true -> at_place (recovered p) None d))
      (fun d _ => q = false /\ span p d)).
  { intros p' j' Ec Po' Sp' Eq. eapply holds_bind.
    - rewrite <- (Same p'). apply (read_pair_holds p' j'). intros d f Hq H. split; [|apply Sp', H]. destruct q; [|reflexivity].
      destruct Hq as [Hq|Hq]; [exact Hq|]. destruct (Eq eq_refl) as [E _]. destruct p; cbn in E; congruence.
    - intros t. apply holds_fact. intros [-> _].
      assert (Cl : forall h, runs q (cleanup_managed h) (fun d _ => at_place p' j' d) (fun _ d _ => at_place p' j' d)
        (fun d _ => q = false /\ span p d)).
      { intros h. apply (cleanup_holds h (fun d _ => at_place p' j' d)); [|auto]. intros d f r0 [H _]. split; [exact H|auto]. }
      eapply holds_bind; [apply Cl|]. intros u3. eapply holds_bind; [apply Cl|]. intros u4.
      apply ret_holds. intros d f H. rewrite Ec. split; [reflexivity|]. split; [apply Sp', H|].
      intros Q1. destruct (Eq Q1) as [-> ->]. exact H. }
  destruct Hr as [[-> Hq]|[-> ->]].
  - apply (holds_bind _ _ _ _ (fun _ d _ => at_place p jn d)); [apply ret_holds; auto|]. intros u3. apply Rest; auto.
    + intros d H. exact (place_span p jn d Po H).
    + intros Q1. specialize (Hq Q1). subst jn. destruct Po as [[_ Np]|X]; [|discriminate]. destruct p; auto; contradiction.
  - eapply holds_bind; [apply apply_holds; auto|]. intros u3. apply (Rest (recovered p) None).
    + destruct p; reflexivity.
    + left. left. split; [reflexivity|]. destruct p; discriminate.
    + intros d H. assert (E : span p d = span (recovered p) d) by (destruct p; reflexivity). rewrite E.
      apply (place_span (recovered p) None); [left; split; [reflexivity|destruct p; discriminate]|exact H].
    + auto.
Qed.

End recovery.

(** Power losses, the store opened between them, as often as may be, with
    whatever calls fail, are interrupted or die. *)
Inductive restarts {F : PyFloat} {D : DatasourceLib} {L : PyLib} (value : pyval) : disk -> disk -> Prop :=
| restart_last d d' : power_loss d d' -> restarts value d d'
| restart_more d w d' : power_loss d (disk_ w) -> restarts value (disk_ (open_store value w).2) d' -> restarts value d d'.

(** Deaths of the process without a power loss, the store opened between them. *)
Inductive deaths {F : PyFloat} {D : DatasourceLib} {L : PyLib} (value : pyval) : disk -> disk -> Prop :=
| deaths_none d : deaths value d d
| deaths_more w d' : deaths value (disk_ (open_store value w).2) d' -> deaths value (disk_ w) d'.

Lemma names_survive d : power_loss d (names d).
Proof.
  repeat split; try (right; left; reflexivity).
  1, 2: cbn [names backups]; rewrite lookup_fmap; destruct (backups d !! r); reflexivity.
  right. left. cbn [names backups]. rewrite lookup_fmap. destruct (backups d !! r); reflexivity.
Qed.

Definition with_disk (d : disk) (w : World) : World :=
  {| disk_ := d; script := script w; next_token := next_token w; attempted := attempted w |}.

Lemma alike_with d w : same_names d (disk_ w) -> alike (with_disk d w) w.
Proof. intros H. constructor; [exact H|reflexivity|reflexivity|reflexivity]. Qed.

(** They are like power losses that keep what the names hold. *)
Lemma deaths_like {F : PyFloat} {D : DatasourceLib} {L : PyLib} value d d' : deaths value d d' ->
  forall c, same_names c d -> exists c', restarts value c c' /\ same_names c' d'.
Proof.
  intros H. induction H as [d|w d' _ IH]; intros c Hc.
  - exists (names c). split; [apply restart_last, names_survive|]. transitivity c; [apply names_again|exact Hc].
  - assert (Al : alike (with_disk (names c) w) w) by (apply alike_with; transitivity c; [apply names_again|exact Hc]).
    destruct (blind_open_store value _ _ Al) as [_ [Sd _ _ _]]. destruct (IH _ Sd) as (c' & R & S). exists c'. split; [|exact S].
    apply (restart_more value c (with_disk (names c) w)); [apply names_survive|exact R].
Qed.

(** No backup has to go. *)
Abbreviation everywhere := (fun _ : disk => True).

Section outcomes.
Context {F : PyFloat} {D : DatasourceLib} {L : PyLib}.
Context (key : list byte) (value : pyval) (pO pN : ParsedCatalog) (O aO N aN J : list byte) (j : Journal).
Context (HO : parse_catalog O key = Ok pO) (HN : parse_catalog N key = Ok pN).
Context (HaO : parse_anchor aO = Ok (anchor_of (state_of pO))) (HaN : parse_anchor aN = Ok (anchor_of (state_of pN))).
Context (HJ : parse_journal J key = Ok (j, true, true)) (Plain : is_rotation_journal j = false).
Context (HS : journal_states j = (Some (state_of pO), state_of pN)) (Differ : state_of pO <> state_of pN).
Context (HbN : anchor_bytes (anchor_of (state_of pN)) = Ok aN) (Ke : key_from_provider value = Ok key).

Abbreviation at_ := (at_place everywhere O aO N aN).

Lemma one_key p : parse_catalog (store_at O N p) key = Ok (catalog_at pO pN p).
Proof. destruct p; assumption. Qed.

Lemma open_area x p jn w : possible J p jn -> allowed x p -> at_ p jn (disk_ w) ->
  area everywhere O aO N aN J x (disk_ (open_store value w).2).
Proof.
  intros Po Al H.
  pose proof (open_holds (q := false) everywhere always_steady pO pN O aO N aN J HaO HaN Differ HbN (fun _ => key) one_key key (fun _ => eq_refl) j HJ Plain HS p jn value (fun _ => I) Po Ke w
    ltac:(discriminate) H) as R.
  destruct (open_store value w) as [[c|e] w']; cbn [snd].
  - destruct R as (_ & _ & S & _). exact (span_area everywhere O aO N aN J x p (files (disk_ w')) Al S).
  - destruct R as (_ & _ & S). exact (span_area everywhere O aO N aN J x p (files (disk_ w')) Al S).
Qed.

Lemma restarts_place x d d' : area everywhere O aO N aN J x d -> restarts value d d' ->
  exists p jn, possible J p jn /\ allowed x p /\ at_ p jn d'.
Proof.
  intros Ar R. induction R as [d d' P|d w d' P R IH].
  - exact (area_loss everywhere always_steady O aO N aN J x d d' Ar P).
  - destruct (area_loss everywhere always_steady O aO N aN J x d (disk_ w) Ar P) as (p & jn & Po & Al & H). apply IH. exact (open_area x p jn w Po Al H).
Qed.

(** Opened without failures, a place gives its catalog, in order. *)
Lemma quiet_open p jn w : possible J p jn -> at_ p jn (disk_ w) -> script w = [] ->
  exists w', open_store value w = (Ok (new_catalog key (catalog_at pO pN p)), w') /\ at_ (recovered p) None (disk_ w').
Proof.
  intros Po H S.
  pose proof (open_holds (q := true) everywhere always_steady pO pN O aO N aN J HaO HaN Differ HbN (fun _ => key) one_key key (fun _ => eq_refl) j HJ Plain HS p jn value (fun _ => I) Po Ke w
    (fun _ => S) H) as R.
  destruct (open_store value w) as [[c|e] w']; [|destruct R as (_ & X & _); discriminate].
  destruct R as (_ & -> & _ & R). exists w'. split; [reflexivity|exact (R eq_refl)].
Qed.
End outcomes.

(** ** Commits *)

(** The files of a catalog and nothing else: no power loss changes it. *)
Definition at_rest {F : PyFloat} {D : DatasourceLib} {L : PyLib} (key : list byte) (p : ParsedCatalog) (d : disk) : Prop :=
  exists O aO, parse_catalog O key = Ok p /\ anchor_bytes (anchor_of (state_of p)) = Ok aO /\
    phase [Some O] [Some aO] [None] d.

(** The object holds that catalog. *)
Definition holds_catalog (key : list byte) (p : ParsedCatalog) (c : Catalog) : Prop :=
  master_key c = key /\ revision_ c = c_revision p /\ records_ c = c_records p /\ digest_ c = c_digest p.

Section commits.
Context {F : PyFloat} {D : DatasourceLib} {L : PyLib} {PL : Transformers.PyLibLaws L}.

Lemma read_key value key : key_from_provider value = Ok key -> validate_master_key (VBytes key) = Ok key.
Proof.
  intros H. apply value_error_Ok in H. unfold validate_master_key in *. apply bind_Ok in H as (k & _ & H).
  apply bind_Ok in H as (u & K & H). injection H as ->. cbn [mbind res_bind]. rewrite K. reflexivity.
Qed.

Lemma accepted_digest data key p : parse_catalog data key = Ok p -> 1 <= c_revision p /\ fixed_hex (c_digest p) = true.
Proof.
  intros H. destruct (parse_catalog_accepts _ _ _ H) as [[R _ _ _ _] (l & f & g & _ & _ & _ & Dg & _)].
  split; [exact R|]. eapply digest_hex, Dg.
Qed.

Lemma anchor_back p aO : 1 <= c_revision p -> fixed_hex (c_digest p) = true -> anchor_bytes (anchor_of (state_of p)) = Ok aO ->
  parse_anchor aO = Ok (anchor_of (state_of p)).
Proof. intros R X H. apply parse_anchor_back; assumption. Qed.

(** The document and the journal of the next catalog, under a key of its own. *)
Lemma next_files key new_key p O data new_dig records :
  validate_master_key (VBytes key) = Ok key -> validate_master_key (VBytes new_key) = Ok new_key -> parse_catalog O key = Ok p ->
  Forall record_ok records -> NoDup (ids records) -> NoDup (aliases records) ->
  serialize_document (make_payload (c_revision p + 1) records) new_key = Ok data ->
  catalog_digest (VDict (make_payload (c_revision p + 1) records)) = Ok new_dig ->
  let pN := {| c_revision := c_revision p + 1; c_digest := new_dig; c_records := merge_sort id_le records |} in
  parse_catalog data new_key = Ok pN /\ state_of p <> state_of pN /\
  exists aN j J, anchor_bytes (anchor_of (state_of pN)) = Ok aN /\ parse_anchor aN = Ok (anchor_of (state_of pN)) /\
    new_journal (c_revision p) (Some (c_digest p)) (c_revision p + 1) new_dig key new_key = Ok j /\
    journal_bytes j = Ok J /\ parse_journal_document J = Ok j /\
    catalog_auth_tag (payload_of j) key = Ok (old_auth_tag j) /\ catalog_auth_tag (payload_of j) new_key = Ok (new_auth_tag j) /\
    journal_states j = (Some (state_of p), state_of pN).
Proof.
  intros K Kn HO R N1 N2 S Dg pN. destruct (accepted_digest _ _ _ HO) as [Rv X].
  destruct (parse_serialized (c_revision p + 1) records new_key data ltac:(lia) R N1 N2 S) as (dg & Dg' & P).
  rewrite Dg in Dg'. injection Dg' as <-. split; [exact P|]. split.
  { intros E. apply (f_equal fst) in E. cbn in E. lia. }
  pose proof (digest_hex _ _ Dg) as Xn. destruct (anchor_prints (anchor_of (state_of pN)) Xn) as [aN An].
  destruct (new_journal_total (c_revision p) (Some (c_digest p)) new_dig key new_key) as (j & J & Jo & E1 & E2 & E3 & E4 & To & Tn);
    try assumption; try lia; [split; [lia|discriminate]|].
  destruct (journal_prints j Jo) as [bs B]. exists aN, j, bs. split; [exact An|]. split.
  { apply parse_anchor_back; [exact Xn|cbn; lia|exact An]. }
  split; [exact J|]. split; [exact B|]. split; [exact (parse_journal_back j bs Jo B)|]. split; [exact To|]. split; [exact Tn|].
  unfold journal_states. rewrite E1, E2, E3, E4. destruct (Z.eqb_spec (c_revision p) 0); [lia|]. reflexivity.
Qed.

(** Under the same key. *)
Lemma same_key_journal key j J : parse_journal_document J = Ok j -> catalog_auth_tag (payload_of j) key = Ok (old_auth_tag j) ->
  catalog_auth_tag (payload_of j) key = Ok (new_auth_tag j) ->
  parse_journal J key = Ok (j, true, true) /\ is_rotation_journal j = false.
Proof.
  intros P To Tn. rewrite To in Tn. injection Tn as Tn. unfold parse_journal, journal_roles, is_rotation_journal. rewrite P.
  cbn [mbind res_bind]. rewrite To. cbn [leak mbind res_bind]. rewrite <- Tn, !bool_decide_eq_true_2 by reflexivity. split; reflexivity.
Qed.

(** ** What a commit leaves *)

(** What is certain of the store after a commit. *)
Definition certain {A} (r : res stop A) : fate :=
  match r with
  | Ok _ => New
  | Err (Raised CatalogOutcomeUncertainError) | Err (Raised Interrupted) | Err Died => Either
  | Err _ => Old
  end.

Lemma transaction_holds q G O aO data aN J j a rev purge : steady G -> (forall d, (purge = true -> no_backups d) -> G d) ->
  journal_bytes j = Ok J -> anchor_bytes a = Ok aN ->
  holds files q (transaction j data a rev purge) (fun d _ => phase [Some O] [Some aO] [None] d)
    (fun _ d _ => after_ data aN d /\ G d)
    (fun e d _ => q = false /\ transit G (Some O) (Some aO) data aN J d /\
       (e <> Raised CatalogOutcomeUncertainError -> e <> Raised Interrupted -> e <> Died -> before (Some O) (Some aO) J d)).
Proof.
  intros St HG Jb Ab. unfold transaction. assert (B : forall d, phase [Some O] [Some aO] [None] d -> before (Some O) (Some aO) J d).
  { intros d. apply phase_mono; inside. }
  set (X := fun (e : stop) d (_ : bool) => q = false /\ transit G (Some O) (Some aO) data aN J d /\
       (e <> Raised CatalogOutcomeUncertainError -> e <> Raised Interrupted -> e <> Died -> before (Some O) (Some aO) J d)).
  set (Y := fun d (_ : bool) => q = false /\ phase [Some O] [Some aO] [None] d).
  apply (holds_bind _ _ _ _ (fun x d f => (x = Some O \/ x = None /\ q = false) /\ phase [Some O] [Some aO] [None] d)).
  - eapply holds_mono; [apply (read_inert StoreFile (fun d _ => phase [Some O] [Some aO] [None] d) Y)|auto| |].
    + intros d f Q0 H. split; assumption.
    + intros x d f (E & Eq & H). split; [|exact H]. pose proof H as (S & _). apply only_one in S. cbn in *. rewrite S in *.
      destruct E as [->|E]; [|auto]. destruct q; [left; apply Eq; reflexivity|auto].
    + intros e d f [Q0 H]. split; [exact Q0|]. split; [left; apply B, H|intros _ _ _; apply B, H].
  - intros x. apply holds_fact. intros [->|[-> Q0]].
    + eapply holds_mono; [apply (persist_holds G St (Some O) (Some aO) data aN J j a _ purge Jb Ab HG)| |auto|auto]. intros d f. apply B.
    + apply holds_raise. intros d f H. split; [exact Q0|]. split; [left; apply B, H|intros _ _ _; apply B, H].
Qed.

Definition update_catalog (c : Catalog) (rev : Z) (records : list DatasourceRecord) (dg : pystr) : Catalog :=
  {| master_key := master_key c; revision_ := rev; records_ := records; digest_ := dg; closed := closed c; poisoned := poisoned c |}.

(** A commit is its transaction, then the cleaning and the new content. *)
Lemma commit_runs s records new_key data dg j : let c := object s in let key := default (master_key c) new_key in
  serialize_document (make_payload (revision_ c + 1) records) key = Ok data ->
  catalog_digest (VDict (make_payload (revision_ c + 1) records)) = Ok dg ->
  new_journal (revision_ c) (Some (digest_ c)) (revision_ c + 1) dg (master_key c) key = Ok j ->
  commit records (revision_ c) new_key s =
  match transaction j data {| a_revision := revision_ c + 1; a_digest := dg |} (revision_ c)
          (negb (bool_decide (key = master_key c))) (world s) with
  | (Err (Raised e), w) => (Err (Raised e), {| object := poison c; world := w |})
  | (Err Died, w) => (Err Died, {| object := c; world := w |})
  | (Ok _, w) =>
      match cleanup_managed StoreDirectory w with
      | (Ok _, w) => (Ok tt, {| object := update_catalog c (revision_ c + 1) (merge_sort id_le records) dg; world := w |})
      | (Err e, w) => (Err e, {| object := c; world := w |})
      end
  end.
Proof.
  cbv zeta. intros S Dg J. unfold commit, self, mbind, st_bind. rewrite Z.eqb_refl. cbn [negb].
  unfold checked_, on_world, from. rewrite S. cbn [leak]. unfold mret, st_ret. cbn [world object]. rewrite Dg. cbn [leak world object].
  rewrite J. cbn [leak world object]. unfold poisoning, on_world. cbn [world object].
  destruct (transaction _ _ _ _ _ _) as [[u|[e|]] w]; [|reflexivity|reflexivity]. cbn [world object].
  destruct (cleanup_managed StoreDirectory w) as [[u1|e] w1]; reflexivity.
Qed.

(** Cleaning raises nothing but interrupts. *)
Definition raises_only (ok : catalog_exn -> Prop) {A} (m : run A) : Prop :=
  forall w, match (m w).1 with Err (Raised e) => ok e | _ => True end.

Abbreviation calm := (raises_only (fun e => e = Interrupted)).

Lemma raises_bind ok {A B} (m : run A) (k : A -> run B) : raises_only ok m -> (forall a, raises_only ok (k a)) -> raises_only ok (m ≫= k).
Proof.
  intros M K w. specialize (M w). unfold mbind, st_bind. destruct (m w) as [[a|e] w']; [apply K|exact M].
Qed.

Lemma raises_sys effect : raises_only (fun e => e = Interrupted \/ e = OSError) (sys effect).
Proof. intros w. unfold sys. destruct (hd Done (script w)); cbn; auto. Qed.

Lemma calm_suppress {A} (v : A) (m : run A) : raises_only (fun e => e = Interrupted \/ e = OSError) m -> calm (suppress v m).
Proof.
  intros M w. specialize (M w). unfold suppress, try_with. destruct (m w) as [[a|[e|]] w']; cbn in *; [exact I| |exact I].
  destruct M as [->| ->]; cbn; auto.
Qed.

Lemma calm_iter {A} (g : A -> run unit) l : (forall x, calm (g x)) -> calm (iterM_st g l).
Proof.
  intros H. induction l as [|x l IH]; [intros w; exact I|]. cbn [iterM_st]. apply raises_bind; [apply H|intros u; exact IH].
Qed.

Lemma remove_managed_calm effect : calm (remove_managed effect).
Proof. apply calm_suppress, raises_bind; [apply raises_sys|intros u; apply raises_sys]. Qed.

Lemma cleanup_calm h : calm (cleanup_managed h).
Proof.
  unfold cleanup_managed. apply raises_bind.
  { apply calm_suppress, raises_bind; [apply raises_sys|intros u w; exact I]. }
  intros [|]; cbn [negb]; [|intros w; exact I]. apply raises_bind; [intros w; exact I|]. intros d.
  apply raises_bind; [apply calm_iter; intros t; apply remove_managed_calm|]. intros u.
  destruct h; [apply calm_iter; intros r; apply remove_managed_calm|intros w; exact I].
Qed.

(** The files after a commit, by what is certain of it. *)
Lemma commit_area G s records new_key data dg j O aO aN J r s' : let c := object s in let key := default (master_key c) new_key in
  steady G -> (forall d, (key <> master_key c -> no_backups d) -> G d) ->
  serialize_document (make_payload (revision_ c + 1) records) key = Ok data ->
  catalog_digest (VDict (make_payload (revision_ c + 1) records)) = Ok dg ->
  new_journal (revision_ c) (Some (digest_ c)) (revision_ c + 1) dg (master_key c) key = Ok j ->
  journal_bytes j = Ok J -> anchor_bytes {| a_revision := revision_ c + 1; a_digest := dg |} = Ok aN ->
  phase [Some O] [Some aO] [None] (disk_ (world s)) ->
  commit records (revision_ c) new_key s = (r, s') ->
  area G O aO data aN J (certain r) (disk_ (world s')) /\
  (r = Ok tt -> (after_ data aN (disk_ (world s')) /\ G (files (disk_ (world s')))) /\
     object s' = update_catalog c (revision_ c + 1) (merge_sort id_le records) dg).
Proof.
  cbv zeta. intros St HG S Dg Jn Jb Ab Ph. rewrite (commit_runs s records new_key data dg j S Dg Jn). clear S Dg Jn.
  set (purge := negb (bool_decide _)).
  assert (HG' : forall d, (purge = true -> no_backups d) -> G d).
  { intros d H. apply HG. intros Ne. apply H. subst purge. rewrite bool_decide_eq_false_2 by exact Ne. reflexivity. }
  assert (Fl : forall d, G (files d) -> G d) by (intros d; apply (steady_backups _ St); reflexivity).
  pose proof (transaction_holds false G O aO data aN J j _ (revision_ (object s)) purge St HG' Jb Ab (world s) ltac:(discriminate) Ph) as T.
  destruct (transaction _ _ _ _ _ _) as [[u|e] w].
  - destruct T as (_ & T). set (P := fun d (_ : bool) => after_ data aN d /\ G d). change (P (files (disk_ w)) (attempted w)) in T.
    pose proof (cleanup_holds (q := false) StoreDirectory P P
      ltac:(intros d f r0 [X1 X2]; split; [exact X1|apply (steady_unlink _ St), X2]) ltac:(auto) w ltac:(discriminate) T) as Cl.
    pose proof (cleanup_calm StoreDirectory w) as Ca.
    assert (Fi : forall d, P (files d) false -> finishing G data aN J d).
    { intros d [X X2]. split; [|apply Fl, X2]. change (after_ data aN d) in X. revert X; apply phase_mono; inside. }
    destruct (cleanup_managed StoreDirectory w) as [[u1|e] w1]; intros E; injection E as <- <-.
    + destruct Cl as [_ Cl]. split; [right; apply (Fi _ Cl)|]. intros _. split; [exact Cl|reflexivity].
    + destruct Cl as [_ Cl]. split; [|discriminate]. cbn in Ca. assert (Ei : area G O aO data aN J Either (disk_ w1)).
      { right; right; right. exact (Fi _ Cl). }
      destruct e as [e|]; [subst e|]; exact Ei.
  - destruct T as (_ & _ & T & B).
    assert (T' : transit G (Some O) (Some aO) data aN J (disk_ w)).
    { destruct T as [T|[T|[T|[T X]]]]; [left; exact T|right; left; exact T|right; right; left; exact T|].
      right; right; right. split; [exact T|apply Fl, X]. }
    destruct e as [e|]; intros E; injection E as <- <-; (split; [|discriminate]); cbn [world certain]; [|exact T'].
    destruct e; try exact T'; apply B; discriminate.
Qed.
End commits.

(** What is to be found after a commit from one catalog to the next. *)
Definition as_certain {A} (r : res stop A) (p next found : ParsedCatalog) : Prop :=
  match certain r with Old => found = p | New => found = next | Either => found = p \/ found = next end.

Lemma commit_restarts {F : PyFloat} {D : DatasourceLib} {L : PyLib} {PL : Transformers.PyLibLaws L}
    value key p s records data r s' :
  key_from_provider value = Ok key -> holds_catalog key p (object s) -> at_rest key p (disk_ (world s)) ->
  Forall record_ok records -> NoDup (ids records) -> NoDup (aliases records) ->
  serialize_document (make_payload (c_revision p + 1) records) key = Ok data ->
  commit records (c_revision p) None s = (r, s') ->
  exists next, c_revision next = c_revision p + 1 /\ c_records next = merge_sort id_le records /\
  forall w, restarts value (disk_ (world s')) (disk_ w) -> script w = [] ->
    exists found w', open_store value w = (Ok (new_catalog key found), w') /\ at_rest key found (disk_ w') /\ as_certain r p next found.
Proof.
  intros Ke (Ek & Er & _ & Ed) (O & aO & PO & AO & Ph) R N1 N2 S Cm. pose proof (read_key _ _ Ke) as K.
  destruct (payload_digest _ _ _ _ S) as (_ & dg & _ & _ & Dg).
  destruct (next_files key key p O data dg records K K PO R N1 N2 S Dg) as (PN & Ne & aN & j & J & AN & AN' & Jn & Jb & DJ & To & Tn & St).
  destruct (same_key_journal key j J DJ To Tn) as [PJ Pl].
  set (pN := {| c_revision := c_revision p + 1; c_digest := dg; c_records := merge_sort id_le records |}) in *.
  destruct (accepted_digest _ _ _ PO) as [Rv X]. pose proof (anchor_back p aO Rv X AO) as AO'.
  exists pN. split; [reflexivity|]. split; [reflexivity|]. intros w Re Hs.
  assert (Ar : area everywhere O aO data aN J (certain r) (disk_ (world s'))).
  { refine (proj1 (commit_area everywhere s records None data dg j O aO aN J r s' always_steady _ _ _ _ _ _ _ _));
      cbn [default from_option id]; rewrite ?Ek, ?Er, ?Ed; auto. }
  destruct (restarts_place key value p pN O aO data aN J j PO PN AO' AN' PJ Pl St Ne AN Ke (certain r) _ _ Ar Re) as (pl & jn & Po & Al & At).
  destruct (quiet_open key value p pN O aO data aN J j PO PN AO' AN' PJ Pl St Ne AN Ke pl jn w Po At Hs) as (w' & E & At').
  exists (catalog_at p pN pl), w'. split; [exact E|]. split.
  - destruct pl; [exists O, aO|exists data, aN|exists data, aN]; (split; [assumption|]); (split; [assumption|exact (proj1 At')]).
  - unfold as_certain. destruct (certain r); cbn in Al; destruct pl; try discriminate; try contradiction; cbn; auto.
Qed.

Lemma rest_names {F : PyFloat} {D : DatasourceLib} {L : PyLib} key p d : at_rest key p d -> at_rest key p (names d).
Proof.
  intros (O & aO & H1 & H2 & (S & A & J)). exists O, aO. split; [exact H1|]. split; [exact H2|].
  apply only_one in S, A, J. repeat split; cbn; rewrite ?S, ?A, ?J; repeat constructor.
Qed.

(** C22: no crash of a commit loses the catalog.  Let an open store hold a
    catalog that its files hold safely, and commit new records to it; whatever
    system calls fail, are interrupted or kill the process, and however often
    the power is then lost and the store opened again - each of these openings
    with failures of its own - the first opening without failures succeeds and
    leaves files that hold its catalog safely.  That catalog is the new one if
    the commit returned; the old one if it raised, unless it said that the
    outcome is uncertain or was interrupted; and one of the two otherwise.
    The same is so when the process dies, however often, and the power is not
    lost, of what the files' names then hold. *)
Theorem commit_crash_safe {F : PyFloat} {D : DatasourceLib} {L : PyLib} {PL : Transformers.PyLibLaws L}
    value key p s records data r s' :
  key_from_provider value = Ok key -> holds_catalog key p (object s) -> at_rest key p (disk_ (world s)) ->
  Forall record_ok records -> NoDup (ids records) -> NoDup (aliases records) ->
  serialize_document (make_payload (c_revision p + 1) records) key = Ok data ->
  commit records (c_revision p) None s = (r, s') ->
  exists next, c_revision next = c_revision p + 1 /\ c_records next = merge_sort id_le records /\
  (forall w, restarts value (disk_ (world s')) (disk_ w) -> script w = [] ->
    exists found w', open_store value w = (Ok (new_catalog key found), w') /\ at_rest key found (disk_ w') /\ as_certain r p next found) /\
  (forall w, deaths value (disk_ (world s')) (disk_ w) -> script w = [] ->
    exists found w', open_store value w = (Ok (new_catalog key found), w') /\ at_rest key found (names (disk_ w')) /\
      as_certain r p next found).
Proof.
  intros Ke Hc Ar R N1 N2 S Cm. destruct (commit_restarts value key p s records data r s' Ke Hc Ar R N1 N2 S Cm) as (next & E1 & E2 & H).
  exists next. split; [exact E1|]. split; [exact E2|]. split; [exact H|]. intros w De Hs.
  destruct (deaths_like value _ _ De _ ltac:(reflexivity)) as (c & Re & Sn).
  destruct (H (with_disk c w) Re Hs) as (found & w1 & Op & Rt & Oc).
  destruct (blind_open_store value _ _ (alike_with c w Sn)) as [Er [Sd _ _ _]]. rewrite Op in Er, Sd. cbn [fst snd] in *.
  destruct (open_store value w) as [r1 w']. cbn [fst snd] in *. subst r1. exists found, w'. split; [reflexivity|].
  split; [|exact Oc]. apply rest_names in Rt. unfold same_names in Sd. rewrite Sd in Rt. exact Rt.
Qed.

(** a commit whose system calls all succeed returns; the object then holds
    the next revision with the records given, in order, and so do its files,
    safely. *)
Theorem commit_succeeds {F : PyFloat} {D : DatasourceLib} {L : PyLib} {PL : Transformers.PyLibLaws L}
    value key p s records data :
  key_from_provider value = Ok key -> holds_catalog key p (object s) -> at_rest key p (disk_ (world s)) ->
  Forall record_ok records -> NoDup (ids records) -> NoDup (aliases records) ->
  serialize_document (make_payload (c_revision p + 1) records) key = Ok data -> script (world s) = [] ->
  exists next s', commit records (c_revision p) None s = (Ok tt, s') /\
    c_revision next = c_revision p + 1 /\ c_records next = merge_sort id_le records /\
    holds_catalog key next (object s') /\ at_rest key next (disk_ (world s')) /\
    closed (object s') = closed (object s) /\ poisoned (object s') = poisoned (object s).
Proof.
  intros Ke (Ek & Er & _ & Ed) (O & aO & PO & AO & Ph) R N1 N2 S Sc. pose proof (read_key _ _ Ke) as K.
  destruct (payload_digest _ _ _ _ S) as (_ & dg & _ & _ & Dg).
  destruct (next_files key key p O data dg records K K PO R N1 N2 S Dg) as (PN & _ & aN & j & J & AN & _ & Jn & Jb & _).
  set (pN := {| c_revision := c_revision p + 1; c_digest := dg; c_records := merge_sort id_le records |}) in *.
  exists pN. rewrite <- Er, <- Ek in S. rewrite <- Er in Dg. rewrite <- Er, <- Ed, <- Ek in Jn.
  pose proof (commit_runs s records None data dg j S Dg Jn) as Run. rewrite <- Er, Run.
  rewrite bool_decide_eq_true_2 by reflexivity. cbn [negb]. clear Run.
  assert (AN' : anchor_bytes {| a_revision := revision_ (object s) + 1; a_digest := dg |} = Ok aN) by (rewrite Er; exact AN).
  pose proof (transaction_holds true everywhere O aO data aN J j _ (revision_ (object s)) false always_steady (fun _ _ => I) Jb AN' (world s) (fun _ => Sc) Ph) as T.
  destruct (transaction _ _ _ _ _ _) as [[u|e] w]; [|destruct T as (_ & T & _); discriminate].
  destruct T as (Sc' & T & _). change (after_ data aN (disk_ w)) in T.
  pose proof (cleanup_holds (q := true) StoreDirectory (fun d _ => after_ data aN d) (fun _ _ => False)
      ltac:(intros d f r0 X; exact X) ltac:(discriminate) w Sc' T) as Cl.
  destruct (cleanup_managed StoreDirectory w) as [[u1|e] w1]; [|destruct Cl as (_ & [])].
  destruct Cl as [_ Cl]. eexists. split; [reflexivity|]. cbn [object world update_catalog].
  split; [cbn; rewrite Er; reflexivity|]. split; [reflexivity|]. split; [repeat split; cbn; auto; rewrite Er; reflexivity|].
  split; [exists data, aN; split; [exact PN|split; [exact AN|exact Cl]]|]. split; reflexivity.
Qed.

Lemma holds_pre {A} q (m : run A) (P P' : disk -> bool -> Prop) Q X :
  (forall d f, P d f -> P' d f) -> holds files q m P' Q X -> holds files q m P Q X.
Proof. intros H M w S HP. exact (M w S (H _ _ HP)). Qed.

Lemma holds_any {A} (m : run A) : runs false m (fun _ _ => True) (fun _ _ _ => True) (fun _ _ => True).
Proof. intros w _ _. destruct (m w) as [[a|e] w']; split; auto; discriminate. Qed.

(** The anchor names a state. *)
Definition anchored {F : PyFloat} (s : state) (d : disk) : Prop :=
  exists a b, now (anchor d) = Some a /\ parse_anchor a = Ok b /\ anchor_state b = s.

(** The store's file is a document the key authenticates, and the anchor names
    its revision and digest. *)
Definition authentic {F : PyFloat} {D : DatasourceLib} {L : PyLib} (key : list byte) (p : ParsedCatalog) (d : disk) : Prop :=
  (exists s, now (store d) = Some s /\ parse_catalog s key = Ok p) /\ anchored (state_of p) d.

(** A commit was begun: a journal that the key authenticates leads from a
    state, or from none when the store was being made, to the next. *)
Definition begun {F : PyFloat} {D : DatasourceLib} {L : PyLib} (key : list byte) (old : option state) (s : state) (d : disk) : Prop :=
  exists bs j as_old as_new, now (journal d) = Some bs /\ parse_journal bs key = Ok (j, as_old, as_new) /\
    is_rotation_journal j = false /\ journal_states j = (old, s) /\ s.1 = match old with Some o => o.1 + 1 | None => 1 end.

Section opening.
Context {F : PyFloat} {D : DatasourceLib} {L : PyLib}.
Context (q : bool) (key : list byte) (d0 : disk).

Abbreviation anything := (fun (_ : disk) (_ : bool) => True).
Abbreviation keeps m R R' := (runs q m (fun d _ => R d) R' anything).

Lemma stop_keeps A (e : catalog_exn) (P : disk -> bool -> Prop) (Q : A -> disk -> bool -> Prop) : runs q (raise e) P Q anything.
Proof. apply holds_raise. auto. Qed.

Lemma from_keeps {A} (m : catalog A) (P : disk -> bool -> Prop) : runs q (from m) P (fun x d f => m = Ok x /\ P d f) anything.
Proof. destruct m as [x|e]; cbn [from]; [apply ret_holds; auto|apply stop_keeps]. Qed.

(** A file that is read: missing it, if a call may fail. *)
Lemma read_keeps g (R : disk -> Prop) : keeps (read_optional g) R (fun x d _ => R d /\ (x = now (cell_of g d) \/ (x = None /\ q = false))).
Proof.
  eapply holds_mono; [apply (read_inert g (fun d _ => R d) anything); auto| | |]; auto. intros x d f (E & Q1 & H). split; [exact H|].
  destruct q; [left; auto|]. destruct E; auto.
Qed.

Lemma read_pair_authentic R : keeps (read_pair key) R (fun p d _ => authentic key p d /\ R d).
Proof.
  unfold read_pair. eapply holds_bind; [apply read_keeps|]. intros s.
  eapply holds_bind; [apply (read_keeps AnchorFile (fun d => R d /\ (s = now (store d) \/ (s = None /\ q = false))))|]. intros a.
  destruct s as [s|]; [|apply stop_keeps]. destruct a as [a|]; [|apply stop_keeps].
  eapply holds_bind; [apply from_keeps|]. intros p. apply holds_fact. intros Ps.
  eapply holds_bind; [apply from_keeps|]. intros b. apply holds_fact. intros Pa. case_bool_decide as E; [|apply stop_keeps].
  apply ret_holds. intros d f ((H & Es) & Ea). split; [|exact H].
  assert (Some s = now (store d)) by (destruct Es as [|[[=] _]]; assumption).
  assert (Some a = now (anchor d)) by (destruct Ea as [|[[=] _]]; assumption).
  split; [exists s; auto|]. exists a, b. auto.
Qed.

(** The disk as it was found. *)
Definition same (d : disk) : Prop :=
  now (store d) = now (store d0) /\ now (anchor d) = now (anchor d0) /\ now (journal d) = now (journal d0).

Lemma read_same g : In g [StoreFile; AnchorFile; JournalFile] ->
  keeps (read_optional g) same (fun x d _ => (x = now (cell_of g d0) \/ (x = None /\ q = false)) /\ same d).
Proof.
  intros Hg. eapply holds_mono; [apply (read_keeps g same)|auto| |auto]. intros x d f [(E1 & E2 & E3) E]. split; [|repeat split; assumption].
  destruct E as [->|E]; [left|right; exact E]. repeat destruct Hg as [<-|Hg]; [exact E1|exact E2|exact E3|destruct Hg].
Qed.

(** Where the anchor may be moved: one revision on, by a commit that was
    begun where it stands; or to the first revision, where it is missing. *)
Definition onward (s : state) : Prop :=
  (exists o, begun key (Some o) s d0 /\ anchored o d0) \/ (begun key None s d0 /\ (now (anchor d0) = None \/ q = false)).

Definition movable (a : Anchor) : Prop := onward (anchor_state a) /\ fixed_hex (a_digest a) = true /\ 1 <= a_revision a.

Lemma optional_anchor_same : keeps optional_anchor_state same (fun x d _ =>
  (match x with Some s => anchored s d0 | None => now (anchor d0) = None \/ q = false end) /\ same d).
Proof.
  unfold optional_anchor_state. eapply holds_bind; [apply (read_same AnchorFile); cbn; auto|]. intros [a|].
  - apply holds_fact. intros E. eapply holds_bind; [apply from_keeps|]. intros b. apply holds_fact. intros Pa. apply ret_holds.
    intros d f H. split; [|exact H]. exists a, b. split; [|auto]. destruct E as [E|[[=] _]]. symmetry. exact E.
  - apply holds_fact. intros E. apply ret_holds. intros d f H. split; [|exact H]. destruct E as [E|[_ E]]; auto.
Qed.

Lemma rotation_stays s a old new as_old as_new p : plan_rotation_with_single_key s a key old new as_old as_new = Ok p -> advance_anchor p = None.
Proof.
  unfold plan_rotation_with_single_key. intros (parsed & _ & H)%bind_Ok. destruct parsed, old; try discriminate.
  destruct (as_old && _ && _); [injection H as <-; reflexivity|]. destruct (as_new && _ && _); [injection H as <-; reflexivity|discriminate].
Qed.

Definition planned (p : option RecoveryPlan) : Prop := forall x a, p = Some x -> advance_anchor x = Some a -> movable a.

Lemma planned_still x : advance_anchor x = None -> planned (Some x).
Proof. intros E y a [= <-]. congruence. Qed.

(** A journal's new state may be moved to from its old one. *)
Lemma journal_movable data j as_old as_new old new : now (journal d0) = Some data -> parse_journal data key = Ok (j, as_old, as_new) ->
  is_rotation_journal j = false -> journal_states j = (old, new) ->
  match old with Some s => anchored s d0 | None => now (anchor d0) = None \/ q = false end -> movable (anchor_of new).
Proof.
  intros Jn Pj Ro St An. assert (Pd : parse_journal_document data = Ok j).
  { unfold parse_journal in Pj. apply bind_Ok in Pj as (j1 & P1 & Pj). apply bind_Ok in Pj as (r & _ & Pj).
    apply bind_Ok in Pj as (u & _ & Pj). congruence. }
  destruct (journal_read _ _ Pd) as (Nx & Po & Hx). pose proof St as St'. unfold journal_states in St. injection St as Eo <-.
  split; [|split; [exact Hx|cbn; lia]]. change (anchor_state (anchor_of (new_revision j, new_digest j))) with (new_revision j, new_digest j).
  assert (B : begun key old (new_revision j, new_digest j) d0).
  { exists data, j, as_old, as_new. repeat (split; [assumption|]). cbn [fst]. destruct (Z.eqb_spec (old_revision j) 0); subst old; cbn; lia. }
  destruct old as [o|]; [left; eauto|right; auto].
Qed.

Lemma plan_sound : keeps (plan_recovery key) same (fun p d _ => planned p /\ same d).
Proof.
  unfold plan_recovery. eapply holds_bind; [apply (read_same JournalFile); cbn; auto|]. intros [data|].
  2:{ apply ret_holds. intros d f [_ H]. split; [discriminate|exact H]. }
  apply holds_fact. intros [Jn|[[=] _]]. eapply holds_bind; [apply from_keeps|]. intros [[j as_old] as_new]. apply holds_fact. intros Pj.
  destruct (journal_states j) as [old new] eqn:St. eapply holds_bind; [apply (read_same StoreFile); cbn; auto|]. intros sd.
  apply holds_fact. intros _. eapply holds_bind; [apply optional_anchor_same|]. intros an. apply holds_fact. intros An.
  destruct (is_rotation_journal j) eqn:Ro.
  - eapply holds_bind; [apply from_keeps|]. intros p. apply holds_fact. intros Pp. apply ret_holds. intros d f H. split; [|exact H].
    apply planned_still, (rotation_stays _ _ _ _ _ _ _ Pp).
  - apply (holds_bind _ _ _ _ (fun _ d _ => same d)).
    { destruct sd as [sd|]; [|apply ret_holds; auto]. eapply holds_bind; [apply from_keeps|]. intros p. apply ret_holds. tauto. }
    intros ss. case_bool_decide as E1; [apply ret_holds; intros d f H; split; [apply planned_still; reflexivity|exact H]|].
    case_bool_decide as E2; [apply ret_holds; intros d f H; split; [|exact H]|].
    { injection E2 as _ ->. intros x a [= <-] [= <-]. exact (journal_movable data j as_old as_new old new (eq_sym Jn) Pj Ro St An). }
    case_bool_decide as E3; [apply ret_holds; intros d f H; split; [apply planned_still; reflexivity|exact H]|apply stop_keeps].
Qed.

(** After the recovery: the store as it was found, and the anchor too, or moved
    on. *)
Definition resumed (d : disk) : Prop := now (store d) = now (store d0) /\
  (now (anchor d) = now (anchor d0) \/ exists a t, movable a /\ anchor_bytes a = Ok t /\ now (anchor d) = Some t).

Lemma resumedfree : backups_free (fun d _ => resumed d).
Proof.
  intros d d' f E. unfold resumed. change (store d) with (store (but_backups d)). change (anchor d) with (anchor (but_backups d)).
  rewrite E. exact id.
Qed.

Lemma recovery_sound p : planned p ->
  keeps (match p with Some p => apply_recovery p | None => mret tt end) same (fun _ d _ => resumed d).
Proof.
  intros Pl. assert (S : forall d, same d -> resumed d) by (intros d (E1 & E2 & _); split; [exact E1|left; exact E2]).
  destruct p as [p|]; [|apply ret_holds; intros d f H; exact (S d H)].
  unfold apply_recovery. apply (holds_bind _ _ _ _ (fun _ d _ => resumed d)).
  { destruct (advance_anchor p) as [a|] eqn:Ea; [|apply ret_holds; intros d f H; exact (S d H)].
    eapply holds_bind; [apply from_keeps|]. intros t. apply holds_fact. intros At%leak_Ok.
    apply (atomic_write_holds false AnchorFile t (fun d _ => same d) (fun d _ => same d)); auto.
    intros d f (E1 & _). split; [exact E1|right]. exists a, t. split; [exact (Pl p a eq_refl Ea)|]. split; [exact At|reflexivity]. }
  intros u. apply (holds_bind _ _ _ _ (fun _ d _ => resumed d)).
  { destruct (purge_backups_in p); [|apply ret_holds; auto].
    eapply holds_mono; [apply (purge_holds (fun d _ => resumed d) anything resumedfree); auto|auto|intros x d f [_ H]; exact H|auto].
    intros d f H. exact H. }
  intros u1. apply (remove_journal_holds (fun d _ => resumed d)); auto.
Qed.

(** What holds of a catalog that is opened. *)
Definition sanctioned (value : pyval) (c : Catalog) (d : disk) : Prop := exists p, c = new_catalog key p /\ authentic key p d /\ resumed d.

Lemma open_sound value : key_from_provider value = Ok key -> keeps (open_store value) same (fun c d _ => sanctioned value c d).
Proof.
  intros Ke. unfold open_store. do 2 (eapply holds_bind; [apply os_error_holds, look_inert; auto|]; intros ?).
  rewrite Ke. cbn [from]. apply (holds_bind _ _ _ _ (fun k d _ => k = key /\ same d)); [apply ret_holds; auto|]. intros k. apply holds_fact. intros ->.
  apply (holds_bind _ _ _ _ (fun _ d _ => same d)).
  { unfold acquire_locks. eapply holds_bind; [apply os_error_holds, look_inert; auto|]. intros u. apply os_error_holds, look_inert. auto. }
  intros u. eapply holds_bind; [apply plan_sound|]. intros p. apply holds_fact. intros Pl.
  eapply holds_bind; [apply (recovery_sound p Pl)|]. intros u1. eapply holds_bind; [apply (read_pair_authentic resumed)|]. intros found.
  set (R := fun d (_ : bool) => authentic key found d /\ resumed d).
  assert (Cl : forall h, runs q (cleanup_managed h) R (fun _ => R) anything) by (intros h; apply (cleanup_holds h R); auto).
  eapply holds_bind; [apply Cl|]. intros u2. eapply holds_bind; [apply Cl|]. intros u3.
  apply ret_holds. intros d f X. exists found. auto.
Qed.

(** The anchor that was found names the state opened, or one it may be moved
    from. *)
Lemma resumed_from p d : authentic key p d -> resumed d -> anchored (state_of p) d0 \/ onward (state_of p).
Proof.
  intros [_ (a & b & Ha & Pb & Eb)] [_ [E|(a1 & t & (On & Hx & Ge) & At & Et)]].
  - left. exists a, b. split; [congruence|auto].
  - right. assert (a = t) as -> by congruence. rewrite (parse_anchor_back a1 t Hx Ge At) in Pb. injection Pb as <-. rewrite <- Eb. exact On.
Qed.

(** It is not of a later revision, unless it was missed. *)
Lemma onward_above s s1 : onward s -> anchored s1 d0 -> s1.1 <= s.1 \/ (begun key None s d0 /\ q = false).
Proof.
  intros [(o & B & (a & b & Ha & Pb & Eb))|(B & E)] (a1 & b1 & Ha1 & Pb1 & Eb1).
  - left. assert (o = s1) as -> by congruence. destruct B as (? & ? & ? & ? & _ & _ & _ & _ & Nx). lia.
  - right. split; [exact B|]. destruct E; [congruence|assumption].
Qed.
End opening.

(** C24: whatever the disk holds and whatever fails, opening the store returns
    only a catalog that is authentic: the store's file is a document the key
    authenticates and was so before, the anchor names its revision and digest,
    and the object holds what the document says. The anchor that was found
    named that state too; or the state before it, with a journal, which the
    key authenticates, of the commit from the one to the other; or it was
    missing, or could be hidden by a call that may fail, with such a journal of
    the store's initialization. So a store put back to an earlier revision than
    the anchor's is not opened, except the first revision, when the
    initialization's journal is back too and calls may fail. *)
Theorem open_authentic {F : PyFloat} {D : DatasourceLib} {L : PyLib} value w c w' :
  open_store value w = (Ok c, w') ->
  exists key p, key_from_provider value = Ok key /\ c = new_catalog key p /\ authentic key p (disk_ w') /\
    now (store (disk_ w)) = now (store (disk_ w')) /\
    (anchored (state_of p) (disk_ w) \/
     (exists before, begun key (Some before) (state_of p) (disk_ w) /\ anchored before (disk_ w)) \/
     (begun key None (state_of p) (disk_ w) /\ (now (anchor (disk_ w)) = None \/ script w <> []))) /\
    (forall named, anchored named (disk_ w) ->
       named.1 <= c_revision p \/ (begun key None (state_of p) (disk_ w) /\ script w <> [])).
Proof.
  intros H. destruct (key_from_provider value) as [key|e] eqn:Ke.
  2:{ exfalso. assert (T : runs false (open_store value) (fun _ _ => True) (fun _ _ _ => False) (fun _ _ => True)).
      { unfold open_store. do 2 (eapply holds_bind; [apply holds_any|]; intros ?). rewrite Ke.
        apply (holds_bind _ _ _ _ (fun _ _ _ => False)); [apply stop_keeps|]. intros k w1 _ []. }
      specialize (T w ltac:(discriminate) I). rewrite H in T. apply T. }
  set (q := bool_decide (script w = [])). assert (Hq : q = false -> script w <> []) by apply bool_decide_eq_false.
  assert (T := open_sound q key (disk_ w) value Ke w ltac:(apply bool_decide_eq_true) ltac:(repeat split)). rewrite H in T.
  destruct T as [_ (p & Ec & Au & Re)]. exists key, p. split; [reflexivity|]. split; [exact Ec|]. split; [exact Au|].
  split; [symmetry; apply Re|]. pose proof (resumed_from q key (disk_ w) p _ Au Re) as O. split.
  - destruct O as [O|[O|(B & E)]]; [auto|auto|]. right. right. split; [exact B|]. destruct E; auto.
  - intros s1 A1. destruct O as [(a & b & Ha & Pb & Eb)|O].
    + left. destruct A1 as (a1 & b1 & Ha1 & Pb1 & Eb1). assert (s1 = state_of p) as -> by congruence. reflexivity.
    + destruct (onward_above q key (disk_ w) _ s1 O A1) as [Le|[B E]]; auto.
Qed.

(** A mutation that is refused writes nothing: on a closed catalog, on one
    a failed persistence poisoned, and with an expected revision that is not
    the catalog's, every operation that changes the catalog raises the error
    for it, and neither the object nor the disk changes. *)
Theorem mutations_guarded {F : PyFloat} {D : DatasourceLib} {L : PyLib} {A : AddressLib}
    (s : Store) d i secret expected resolver moment key_value e :
  (closed (object s) = true /\ e = CatalogStoreError \/
   closed (object s) = false /\ poisoned (object s) = true /\ e = CatalogWriteError \/
   closed (object s) = false /\ poisoned (object s) = false /\ expected <> revision_ (object s) /\ e = CatalogRevisionConflictError) ->
  create d secret (Some expected) resolver moment s = (Err (Raised e), s) /\
  update i d expected resolver moment s = (Err (Raised e), s) /\
  rotate_secret i secret expected moment s = (Err (Raised e), s) /\
  remove i expected s = (Err (Raised e), s) /\
  (e <> CatalogRevisionConflictError -> rotate_master_key key_value moment s = (Err (Raised e), s)).
Proof.
  intros H.
  assert (G : forall B (m : st Store stop B), e <> CatalogRevisionConflictError -> serialized m s = (Err (Raised e), s)).
  { intros B m Ne. unfold serialized, ensure_open, self, mbind, st_bind, fault, raise_st.
    destruct H as [[-> ->]|[(-> & -> & ->)|(_ & _ & _ & ->)]]; [reflexivity|reflexivity|contradiction]. }
  assert (C : forall B (k : unit -> st Store stop B), e = CatalogRevisionConflictError ->
    (ensure_open s = (Ok tt, s)) /\ (check_revision (Some expected) ≫= k) s = (Err (Raised e), s)).
  { intros B k ->. destruct H as [[_ H]|[(_ & _ & H)|(Cl & Po & N & _)]]; try discriminate.
    unfold ensure_open, check_revision, self, mbind, st_bind, fault, raise_st, mret, st_ret. rewrite Cl, Po.
    destruct (Z.eqb_spec expected (revision_ (object s))); [contradiction|]. auto. }
  assert (E : e = CatalogRevisionConflictError \/ e <> CatalogRevisionConflictError) by (destruct e; auto; right; discriminate).
  destruct E as [E|E].
  - assert (S2 : forall B (k : unit -> st Store stop B), serialized (ensure_open;; (check_revision (Some expected) ≫= k)) s = (Err (Raised e), s)).
    { intros B k. destruct (C B k E) as [C1 C2]. unfold serialized, mbind at 1, st_bind at 1. rewrite C1.
      unfold mbind at 1, st_bind at 1. rewrite C1. exact C2. }
    assert (S1 : forall B (k : unit -> st Store stop B), serialized (check_revision (Some expected) ≫= k) s = (Err (Raised e), s)).
    { intros B k. destruct (C B k E) as [C1 C2]. unfold serialized, mbind at 1, st_bind at 1. rewrite C1. exact C2. }
    split; [apply S2|]. split; [apply S2|]. split; [apply S2|]. split; [apply S1|contradiction].
  - repeat split; intros; apply G; auto.
Qed.
(** ** A concrete store *)

#[local] Existing Instance CatalogLaws.toy_datasource_lib.
#[local] Existing Instance CatalogLaws.toy_float.
#[local] Existing Instance CatalogLaws.toy_lib.
#[local] Existing Instance CatalogLaws.toy_laws.
#[local] Existing Instance Destination.toy_addresses.

Definition toy_anchor : list byte :=
  match anchor_bytes (anchor_of (state_of toy_parsed)) with Ok b => b | Err _ => [] end.

Definition toy_disk : disk :=
  {| store := clean_cell (Some toy_document); anchor := clean_cell (Some toy_anchor); journal := clean_cell None;
     backups := ∅; temps := ∅ |}.

Definition on_toy_disk (outcomes : list outcome) : World :=
  {| disk_ := toy_disk; script := outcomes; next_token := 0; attempted := false |}.

(** The catalog of two records, open, and calls that end so. *)
Definition toy_store (outcomes : list outcome) : Store :=
  {| object := new_catalog toy_key toy_parsed; world := on_toy_disk outcomes |}.

(** Its second record alone, and the document that says so. *)
Definition fewer_records : list DatasourceRecord := drop 1 toy_records.

Definition fewer_document : list byte :=
  match serialize_document (make_payload 4 fewer_records) toy_key with Ok b => b | Err _ => [] end.

Lemma toy_at_rest outcomes : at_rest toy_key toy_parsed (disk_ (world (toy_store outcomes))).
Proof.
  exists toy_document, toy_anchor. split; [exact toy_accepted|]. split; [vm_compute; reflexivity|].
  repeat split; cbn; repeat constructor.
Qed.

Lemma toy_holds outcomes : holds_catalog toy_key toy_parsed (object (toy_store outcomes)).
Proof. repeat split. Qed.

Lemma fewer_ok : Forall record_ok fewer_records.
Proof. apply Forall_drop, toy_records_ok. Qed.

Lemma fewer_serialized : serialize_document (make_payload (c_revision toy_parsed + 1) fewer_records) toy_key = Ok fewer_document.
Proof. vm_compute. reflexivity. Qed.

(** The process dies right after the replacement of the store's file: its
    thirtieth call. *)
Definition deadly : list outcome := replicate 29 Done ++ [Dies true].

Lemma commit_crash_safe_witness : exists s', commit fewer_records 3 None (toy_store deadly) = (Err Died, s') /\
  now (store (disk_ (world s'))) = Some fewer_document /\ now (anchor (disk_ (world s'))) = Some toy_anchor /\
  exists next, c_records next = fewer_records /\
  (forall w, restarts (VBytes toy_key) (disk_ (world s')) (disk_ w) -> script w = [] ->
    exists found w', open_store (VBytes toy_key) w = (Ok (new_catalog toy_key found), w') /\
      (found = toy_parsed \/ found = next)) /\
  (forall w, deaths (VBytes toy_key) (disk_ (world s')) (disk_ w) -> script w = [] ->
    exists found w', open_store (VBytes toy_key) w = (Ok (new_catalog toy_key found), w') /\
      (found = toy_parsed \/ found = next)).
Proof.
  eexists. split; [vm_compute; reflexivity|]. split; [vm_compute; reflexivity|]. split; [vm_compute; reflexivity|].
  destruct (commit_crash_safe (VBytes toy_key) toy_key toy_parsed (toy_store deadly) fewer_records fewer_document
    (Err Died) (commit fewer_records 3 None (toy_store deadly)).2 ltac:(vm_compute; reflexivity) (toy_holds deadly) (toy_at_rest deadly) fewer_ok
    ltac:(apply (bool_decide_unpack _); vm_compute; exact I) ltac:(apply (bool_decide_unpack _); vm_compute; exact I)
    fewer_serialized ltac:(vm_compute; reflexivity)) as (next & _ & R & H & H').
  exists next. split; [exact R|]. split; intros w Re Hs.
  - destruct (H w ltac:(vm_compute; vm_compute in Re; exact Re) Hs) as (found & w' & E & _ & C). exists found, w'. split; [exact E|exact C].
  - destruct (H' w ltac:(vm_compute; vm_compute in Re; exact Re) Hs) as (found & w' & E & _ & C). exists found, w'. split; [exact E|exact C].
Defined.

Lemma commit_succeeds_witness : exists next s', commit fewer_records 3 None (toy_store []) = (Ok tt, s') /\
  c_revision next = 4 /\ c_records next = fewer_records /\ at_rest toy_key next (disk_ (world s')).
Proof.
  destruct (commit_succeeds (VBytes toy_key) toy_key toy_parsed (toy_store []) fewer_records fewer_document
    ltac:(vm_compute; reflexivity) (toy_holds []) (toy_at_rest []) fewer_ok
    ltac:(apply (bool_decide_unpack _); vm_compute; exact I) ltac:(apply (bool_decide_unpack _); vm_compute; exact I)
    fewer_serialized ltac:(reflexivity)) as (next & s' & C & R & N & _ & A & _).
  exists next, s'. split; [exact C|]. split; [exact R|]. split; [exact N|exact A].
Defined.

Lemma open_authentic_witness : exists c w', open_store (VBytes toy_key) (on_toy_disk []) = (Ok c, w') /\
  exists key p, key_from_provider (VBytes toy_key) = Ok key /\ c = new_catalog key p /\ authentic key p (disk_ w') /\
    c_revision p = 3 /\ forall named, anchored named toy_disk -> named.1 <= 3.
Proof.
  destruct (open_store (VBytes toy_key) (on_toy_disk [])) as [[c|e] w'] eqn:E.
  - destruct (open_authentic (VBytes toy_key) (on_toy_disk []) c w' E) as (key & p & Ke & Ec & Au & _ & _ & Le).
    assert (R : match (open_store (VBytes toy_key) (on_toy_disk [])).1 with Ok c => revision_ c | Err _ => 0 end = 3) by (vm_compute; reflexivity).
    rewrite E in R. cbn [fst] in R. rewrite Ec in R. cbn [revision_ new_catalog] in R.
    exists c, w'. split; [reflexivity|]. exists key, p. split; [exact Ke|]. split; [exact Ec|]. split; [exact Au|]. split; [exact R|].
    intros named A. destruct (Le named A) as [H|[_ N]]; [lia|contradiction].
  - exfalso. assert (R : match (open_store (VBytes toy_key) (on_toy_disk [])).1 with Ok _ => true | Err _ => false end = true) by (vm_compute; reflexivity).
    rewrite E in R. discriminate.
Defined.

Lemma mutations_guarded_witness : remove (toy_id 97) 2 (toy_store []) = (Err (Raised CatalogRevisionConflictError), toy_store []).
Proof.
  refine (proj1 (proj2 (proj2 (proj2 (mutations_guarded (toy_store []) (toy_draft []) (toy_id 97) [] 2 (fun _ _ => None) 0 (VBytes [])
    CatalogRevisionConflictError _))))).
  right. right. repeat split; try reflexivity. vm_compute. discriminate.
Defined.

(** ** What the code leaves open *)

Definition then_on (d : disk) (outcomes : list outcome) : World :=
  {| disk_ := d; script := outcomes; next_token := 9; attempted := false |}.

(** The store's first revision put back with the journal of its
    initialization, under the anchor of the third. *)
Definition first_document : list byte :=
  match serialize_document (make_payload 1 []) toy_key with Ok b => b | Err _ => [] end.

Definition first_journal : list byte :=
  match parse_catalog first_document toy_key with
  | Err _ => []
  | Ok p => match new_journal 0 None 1 (c_digest p) toy_key toy_key with
            | Ok j => match journal_bytes j with Ok b => b | Err _ => [] end
            | Err _ => []
            end
  end.

Definition put_back : disk :=
  {| store := clean_cell (Some first_document); anchor := clean_cell (Some toy_anchor); journal := clean_cell (Some first_journal);
     backups := ∅; temps := ∅ |}.

(** It is not opened; but when the call that looks for the anchor fails, the
    anchor counts as missing and is moved to the first revision. *)
Example hidden_anchor_is_rewound :
  (open_store (VBytes toy_key) (then_on put_back [])).1 = Err (Raised CatalogAnchorError) /\
  exists c, (open_store (VBytes toy_key) (then_on put_back (repeat Done 16 ++ [Fails false]))).1 = Ok c /\ revision_ c = 1.
Proof. split; [vm_compute; reflexivity|]. eexists. split; vm_compute; reflexivity. Qed.

(** The disk at that death, and once the store is opened again. *)
Definition at_death : disk := disk_ (world (commit fewer_records 3 None (toy_store deadly)).2).
Definition opened_again : disk := disk_ (open_store (VBytes toy_key) (then_on at_death [])).2.

(** A recovery that finds the new store advances the anchor and removes the
    journal without an [fsync] of the store's directory: a power loss can then
    bring the old store back under the new anchor, and nothing opens it. *)
Definition brought_back : disk :=
  {| store := clean_cell (Some toy_document); anchor := clean_cell (now (anchor opened_again)); journal := clean_cell None;
     backups := (fun c => clean_cell (now c)) <$> backups opened_again; temps := ∅ |}.

Lemma unsynced_backups r : survives (default absent (backups opened_again !! r)) (default absent (backups brought_back !! r)).
Proof.
  cbn [backups brought_back]. rewrite lookup_fmap. destruct (backups opened_again !! r) as [c|]; cbn [fmap option_fmap option_map default from_option].
  all: repeat split; right; left; reflexivity.
Qed.

Example recovery_not_durable :
  (exists c, (open_store (VBytes toy_key) (then_on at_death [])).1 = Ok c /\ revision_ c = 4) /\
  power_loss opened_again brought_back /\
  (open_store (VBytes toy_key) (then_on brought_back [])).1 = Err (Raised CatalogAnchorError).
Proof.
  split; [eexists; split; [vm_compute; reflexivity|vm_compute; reflexivity]|]. split; [|vm_compute; reflexivity].
  split; [|split; [|split; [|exact unsynced_backups]]]; (split; [vm_compute; reflexivity|]); (split; [vm_compute; reflexivity|]); right.
  - right. apply (bool_decide_unpack _). vm_compute. exact I.
  - left. reflexivity.
  - left. vm_compute. reflexivity.
Qed.

(** An interrupt in the cleaning that follows a transaction leaves an object
    that is not poisoned and has the revision before it: the next commit
    replaces the catalog of revision 4 with another of revision 4. *)
Definition interrupted_cleaning : list outcome := replicate 49 Done ++ [Interrupts false].

Example interrupted_commit_is_lost :
  let s := (commit fewer_records 3 None (toy_store interrupted_cleaning)).2 in
  (commit fewer_records 3 None (toy_store interrupted_cleaning)).1 = Err (Raised Interrupted) /\
  now (store (disk_ (world s))) = Some fewer_document /\ revision_ (object s) = 3 /\ poisoned (object s) = false /\
  (commit [] 3 None s).1 = Ok tt /\ revision_ (object (commit [] 3 None s).2) = 4 /\ records_ (object (commit [] 3 None s).2) = [].
Proof. vm_compute. repeat split. Qed.
