(* ===== verification/CatalogRotation.v ===== *)
(** * CatalogRotation: no crash of a rotation of the master key loses the store

    What [CatalogCrash] shows of a commit under one key, for the commit that
    seals every record again under another: the journal then has a role for
    each key, one key alone completes the rotation only when its result is
    certain, and the recovery with both keys always finds which of them opens
    the store. *)

From S2P Require Import Prelude.
From S2P Require Import Bytes.
From S2P Require Import Canonical.
From S2P Require Import Json.
From S2P Require Import Datasource.
From S2P Require Import Destination.
From S2P Require Import CatalogFormat.
From S2P Require Import CatalogLaws.
From S2P Require Import CatalogDisk.
From S2P Require Import CatalogStore.
From S2P Require Import CatalogRuns.
From S2P Require Import CatalogCrash.
From S2P Require Transformers.

Local Open Scope Z_scope.

(** What may be tried on the store while a rotation is not complete: opening
    it with either key, asking for the recovery's result, and the recovery;
    between power losses, as often as may be, whatever calls fail. *)
Inductive attempt {F : PyFloat} {D : DatasourceLib} {L : PyLib} (old_value new_value : pyval) (w : World) : World -> Prop :=
| opens value : value = old_value \/ value = new_value -> attempt old_value new_value w (open_store value w).2
| recovers apply : attempt old_value new_value w (rotation_recovery old_value new_value apply w).2.

Inductive rotation_restarts {F : PyFloat} {D : DatasourceLib} {L : PyLib} (old_value new_value : pyval) : disk -> disk -> Prop :=
| rotation_last d d' : power_loss d d' -> rotation_restarts old_value new_value d d'
| rotation_more d w w' d' : power_loss d (disk_ w) -> attempt old_value new_value w w' ->
    rotation_restarts old_value new_value (disk_ w') d' -> rotation_restarts old_value new_value d d'.

(** ** The decision of a recovery *)

Section rotation.
Context {F : PyFloat} {D : DatasourceLib} {L : PyLib}.
Context (old_key new_key : list byte) (pO pN : ParsedCatalog) (O aO N aN J : list byte) (j : Journal).
Context (HO : parse_catalog O old_key = Ok pO) (HN : parse_catalog N new_key = Ok pN).
Context (XO : parse_catalog O new_key = Err CatalogKeyError) (XN : parse_catalog N old_key = Err CatalogKeyError).
Context (HaO : parse_anchor aO = Ok (anchor_of (state_of pO))) (HaN : parse_anchor aN = Ok (anchor_of (state_of pN))).
Context (HJ : parse_journal_document J = Ok j).
Context (RO : journal_roles j old_key = Ok (true, false)) (RN : journal_roles j new_key = Ok (false, true)).
Context (HS : journal_states j = (Some (state_of pO), state_of pN)) (Differ : state_of pO <> state_of pN).
Context (HbN : anchor_bytes (anchor_of (state_of pN)) = Ok aN).
Context (VO : verify_secrets pO old_key = Ok tt) (VN : verify_secrets pN new_key = Ok tt).

Abbreviation at_ := (at_place no_backups O aO N aN).
Abbreviation span_ := (span no_backups O aO N aN J).

Definition key_at (p : place) : list byte := match p with Before => old_key | _ => new_key end.
Definition role_at (p : place) : role := match p with Before => OldKey | _ => NewKey end.

Lemma keys_parse p : parse_catalog (store_at O N p) (key_at p) = Ok (catalog_at pO pN p).
Proof. destruct p; assumption. Qed.

Lemma keys_verify p : verify_secrets (catalog_at pO pN p) (key_at p) = Ok tt.
Proof. destruct p; assumption. Qed.

Lemma rotation_journal : is_rotation_journal j = true.
Proof.
  unfold is_rotation_journal. case_bool_decide as E; [|reflexivity]. unfold journal_roles in RO. rewrite E in RO.
  destruct (leak _); cbn in RO; congruence.
Qed.

(** What [_determine_rotation] finds at a place. *)
Definition found_at (p : place) (jn : option (list byte)) : RotationDetermination :=
  {| status_of := {| confirmed_key := role_at p; catalog_revision := c_revision (catalog_at pO pN p);
                     journal_pending := bool_decide (jn <> None) |};
     confirmed := catalog_at pO pN p; the_key := key_at p;
     plan := match jn with Some _ => Some (plan_at pN true p) | None => None end |}.

Lemma anchor_state_of s : anchor_state (anchor_of s) = s.
Proof. destruct s; reflexivity. Qed.

Lemma keys_differ : old_key <> new_key.
Proof. intros E. rewrite E in HO. congruence. Qed.

Lemma authenticated p key : key = old_key \/ key = new_key ->
  authenticated_or_none (store_at O N p) key = Ok (if bool_decide (key = key_at p) then Some (catalog_at pO pN p) else None).
Proof.
  pose proof keys_differ as Ne. unfold authenticated_or_none.
  intros [->| ->]; destruct p; cbn [store_at catalog_at key_at]; rewrite ?HO, ?HN, ?XO, ?XN;
    case_bool_decide; try reflexivity; congruence.
Qed.

(** The decision at a place, whatever its journal seems to be. *)
Lemma determination_at p jn : jn = None \/ jn = Some J ->
  determination jn (store_at O N p) (anchor_at aO aN p) old_key new_key =
  match p, jn with Between, None => Err CatalogAnchorError | _, _ => Ok (found_at p jn) end.
Proof.
  intros Hj. unfold determination. rewrite (parse_anchor_at pO pN aO aN HaO HaN p). cbn [mbind res_bind].
  rewrite !authenticated by auto. cbn [mbind res_bind]. pose proof keys_differ as Ne.
  assert (K : bool_decide (old_key = key_at p) = match p with Before => true | _ => false end /\
              bool_decide (new_key = key_at p) = match p with Before => false | _ => true end).
  { destruct p; cbn [key_at]; split; case_bool_decide; congruence. }
  destruct K as [-> ->]. rewrite anchor_state_of. pose proof Differ as Ds.
  destruct Hj as [->| ->].
  - unfold determine_without_journal.
    destruct p; cbn [catalog_at state_at default from_option id mbind res_bind]; rewrite ?VO, ?VN; repeat case_bool_decide; try reflexivity; congruence.
  - rewrite HJ. cbn [mbind res_bind]. rewrite RO. cbn [mbind res_bind]. rewrite RN. cbn [mbind res_bind fst snd].
    rewrite rotation_journal, HS. cbn [negb andb].
    destruct p; cbn [catalog_at state_at default from_option id mbind res_bind]; rewrite ?VO, ?VN; repeat case_bool_decide; try congruence; rewrite ?VO, ?VN; reflexivity.
Qed.

(** ** What the operations do *)

Section operations.
Context {q : bool}.

(** [_determine_rotation]: the decision at the place; with failures, perhaps
    as if there were no journal. *)
Lemma determine_holds p jn Y : possible J p jn -> (forall d f, q = false -> at_ p jn d -> Y d f) ->
  runs q (determine_rotation old_key new_key) (fun d _ => at_ p jn d)
    (fun r d _ => (r = found_at p jn \/ q = false /\ p <> Between /\ r = found_at p None) /\ at_ p jn d) Y.
Proof.
  intros Po HY. unfold determine_rotation.
  eapply holds_bind; [apply (read_at _ _ _ _ _ p jn JournalFile); [exact I|exact HY]|]. intros x. apply holds_fact. intros Hx.
  eapply holds_bind; [apply (read_at _ _ _ _ _ p jn StoreFile); [exact I|exact HY]|]. intros s. apply holds_fact. intros Hs.
  eapply holds_bind; [apply (read_at _ _ _ _ _ p jn AnchorFile); [exact I|exact HY]|]. intros a. apply holds_fact. intros Ha.
  destruct Hs as [->|[-> Q0]]; [|apply holds_raise; auto]. destruct Ha as [->|[-> Q0]]; [|apply holds_raise; auto].
  cbn [content_at] in *. rewrite determination_at.
  2: { destruct Hx as [->|[-> _]]; [|auto]. destruct Po as [[-> _]| ->]; auto. }
  assert (Good : forall r, (r = found_at p jn \/ q = false /\ p <> Between /\ r = found_at p None) ->
    runs q (from (Ok r)) (fun d (_ : bool) => at_ p jn d)
      (fun r d _ => (r = found_at p jn \/ q = false /\ p <> Between /\ r = found_at p None) /\ at_ p jn d) Y).
  { intros r Hr. apply ret_holds. auto. }
  destruct Hx as [->|[-> Q0]].
  - destruct p; try (apply Good; auto; fail). destruct Po as [[_ X]| ->]; [contradiction|apply Good; auto].
  - destruct p; [apply Good; right; repeat split; auto; discriminate|apply holds_raise; auto|].
    apply Good; right; repeat split; auto; discriminate.
Qed.

Lemma purging : forall d, (true = true -> no_backups d) -> no_backups d.
Proof. auto. Qed.

(** Cleaning a place. *)
Lemma clean_place p jn h Y : (forall d f, q = false -> at_ p jn d -> Y d f) ->
  runs q (cleanup_managed h) (fun d _ => at_ p jn d) (fun _ d _ => at_ p jn d) Y.
Proof.
  intros HY. apply (cleanup_holds h (fun d _ => at_ p jn d)); [|exact HY]. intros d f r [H G]. split; [exact H|].
  intros E1 E2. apply (steady_unlink _ no_backups_steady), G; assumption.
Qed.

Lemma recovered_span p d : span_ (recovered p) d = span_ p d.
Proof. destruct p; reflexivity. Qed.

Lemma recovered_catalog p : catalog_at pO pN (recovered p) = catalog_at pO pN p.
Proof. destruct p; reflexivity. Qed.

Lemma recovered_key p : key_at (recovered p) = key_at p.
Proof. destruct p; reflexivity. Qed.

Lemma recovered_possible p : possible J (recovered p) None.
Proof. left. split; [reflexivity|]. destruct p; discriminate. Qed.

(** What the recovery is to return and to leave. *)
Definition as_recovered (apply : bool) (p : place) (r : MasterKeyRotationStatus) (d : disk) : Prop :=
  confirmed_key r = role_at p /\ catalog_revision r = c_revision (catalog_at pO pN p) /\ span_ p d /\
  (q = true -> apply = true -> journal_pending r = false /\ at_ (recovered p) None d).

Lemma place_stops p jn d (f : bool) : possible J p jn -> q = false -> at_ p jn d -> q = false /\ span_ p d.
Proof. intros Po Q0 H. split; [exact Q0|exact (place_span _ _ _ _ _ _ p jn d Po H)]. Qed.

(** The plan carried out, and the catalog read again. *)
Lemma complete_holds p : runs q
  (apply_recovery (plan_at pN true p);;
   again ← read_pair (key_at p);
   if negb (bool_decide (state_of again = state_of (catalog_at pO pN p))) then raise CatalogAnchorError
   else
     cleanup_managed StoreDirectory;;
     cleanup_managed AnchorDirectory;;
     mret {| confirmed_key := role_at p; catalog_revision := c_revision again; journal_pending := false |})
  (fun d _ => at_ p (Some J) d) (fun r d _ => as_recovered true p r d) (fun d _ => q = false /\ span_ p d).
Proof.
  eapply holds_bind; [apply (apply_holds no_backups no_backups_steady pN O aO N aN J HbN true p purging)|]. intros u3.
  rewrite <- (recovered_key p), <- (recovered_catalog p).
  assert (Sp : forall d (f : bool), q = false -> at_ (recovered p) None d -> q = false /\ span_ p d).
  { intros d f Q0 H. rewrite <- recovered_span. exact (place_stops _ _ d f (recovered_possible p) Q0 H). }
  eapply holds_bind.
  { apply (read_pair_holds no_backups pO pN O aO N aN HaO HaN Differ key_at keys_parse (recovered p) None).
    intros d f Hq. apply (Sp d f). destruct Hq as [Hq|Hq]; [exact Hq|]. destruct p; discriminate. }
  intros again. apply holds_fact. intros [-> _]. rewrite bool_decide_eq_true_2 by reflexivity.
  cbn [negb]. eapply holds_bind; [apply clean_place, Sp|]. intros u4. eapply holds_bind; [apply clean_place, Sp|]. intros u5.
  apply ret_holds. intros d f H. split; [reflexivity|]. split; [cbn [catalog_revision]; rewrite recovered_catalog; reflexivity|].
  split; [rewrite <- recovered_span; exact (place_span _ _ _ _ _ _ (recovered p) None d (recovered_possible p) H)|]. auto.
Qed.

(** The recovery with both keys: it finds the key and the catalog of the
    place; without failures it leaves them alone in the files. *)
Lemma recovery_holds p jn old_value new_value apply : possible J p jn ->
  key_from_provider old_value = Ok old_key -> key_from_provider new_value = Ok new_key ->
  runs q (rotation_recovery old_value new_value apply) (fun d _ => at_ p jn d) (fun r d _ => as_recovered apply p r d)
    (fun d _ => q = false /\ span_ p d).
Proof.
  intros Po Ko Kn. pose proof (fun d f => place_stops p jn d f Po) as Sp.
  unfold rotation_recovery. eapply holds_bind; [apply (probe_inert _ (fun d _ => at_ p jn d)), Sp|]. intros u.
  eapply holds_bind; [apply (probe_inert _ (fun d _ => at_ p jn d)), Sp|]. intros u1.
  eapply holds_bind; [apply (from_ok _ old_key), Ko|]. intros k. apply holds_fact. intros ->.
  eapply holds_bind; [apply (from_ok _ new_key), Kn|]. intros k. apply holds_fact. intros ->.
  rewrite bool_decide_eq_false_2 by exact keys_differ.
  apply (holds_bind _ _ _ _ (fun _ d _ => at_ p jn d)).
  { unfold acquire_locks. eapply holds_bind; [apply (probe_inert _ (fun d _ => at_ p jn d)), Sp|]. intros u2.
    apply (probe_inert _ (fun d _ => at_ p jn d)), Sp. }
  intros u2. eapply holds_bind; [apply determine_holds; [exact Po|exact Sp]|]. intros r. apply holds_fact. intros Hr.
  assert (Stay : forall j', q = false \/ apply = false \/ jn = None -> q = false \/ j' = jn ->
    runs q (mret (status_of (found_at p j'))) (fun d (_ : bool) => at_ p jn d) (fun r d _ => as_recovered apply p r d)
      (fun d _ => q = false /\ span_ p d)).
  { intros j' C Ej. apply ret_holds. intros d f H. split; [reflexivity|]. split; [reflexivity|].
    split; [exact (place_span _ _ _ _ _ _ p jn d Po H)|]. intros Q1 A1. destruct C as [C|[C| ->]]; [congruence|congruence|].
    destruct Ej as [Ej| ->]; [congruence|]. split; [reflexivity|]. destruct Po as [[_ Np]|X]; [|discriminate].
    destruct p; [exact H|contradiction|exact H]. }
  destruct Hr as [->|(Q0 & Np & ->)]; [|apply (Stay None); auto].
  destruct Po as [[-> Np]| ->]; [apply (Stay None); auto|].
  cbn [found_at plan]. destruct apply; cbn [negb]; [|apply (Stay (Some J)); auto].
  apply complete_holds.
Qed.

(** ** Opening with one of the keys *)

Lemma journal_parses k : k = old_key \/ k = new_key ->
  exists as_old as_new, parse_journal J k = Ok (j, as_old, as_new) /\
    (as_old = bool_decide (k = old_key)) /\ (as_new = bool_decide (k = new_key)).
Proof.
  intros Hk. pose proof keys_differ as Ne. unfold parse_journal. rewrite HJ. cbn [mbind res_bind].
  destruct Hk as [->| ->]; rewrite ?RO, ?RN; cbn [mbind res_bind]; eexists _, _; (split; [reflexivity|]); cbn;
    split; case_bool_decide; congruence.
Qed.

(** One key completes the rotation only where it opens the store and the
    anchor agrees. *)
Lemma single_key_plan p k s a : k = old_key \/ k = new_key ->
  s = Some (store_at O N p) \/ s = None -> a = state_at pO pN p \/ a = None ->
  let r := plan_rotation_with_single_key s a k (Some (state_of pO)) (state_of pN) (bool_decide (k = old_key)) (bool_decide (k = new_key)) in
  r = Ok (plan_at pN true p) /\ k = key_at p /\ p <> Between \/
  r = Err CatalogRotationPendingError /\ (s = None \/ a = None \/ k <> key_at p \/ p = Between).
Proof.
  intros Hk Hs Ha. pose proof keys_differ as Ne. unfold plan_rotation_with_single_key.
  destruct Hs as [->| ->]; [|right; auto]. rewrite (authenticated p k Hk). cbn [mbind res_bind].
  case_bool_decide as Ek; [|right; auto]. subst k. pose proof Differ as Ds. unfold state_at in *.
  destruct Ha as [->| ->]; destruct p; cbn [key_at catalog_at]; repeat case_bool_decide; cbn [andb]; try congruence;
    first [left; repeat split; (reflexivity || discriminate) | right; split; [reflexivity|]; auto].
Qed.

(** [_plan_recovery] under one of the keys. *)
Lemma single_plan_holds p jn k (Y : disk -> bool -> Prop) : k = old_key \/ k = new_key -> possible J p jn ->
  (forall d f, q = false \/ k <> key_at p \/ p = Between -> at_ p jn d -> Y d f) ->
  runs q (plan_recovery k) (fun d _ => at_ p jn d)
    (fun r d _ => (r = None /\ (q = true -> jn = None) \/
                   r = Some (plan_at pN true p) /\ jn = Some J /\ k = key_at p /\ p <> Between) /\ at_ p jn d) Y.
Proof.
  intros Hk Po HY. unfold plan_recovery. assert (HY' : forall d f, q = false -> at_ p jn d -> Y d f) by auto.
  eapply holds_bind; [apply (read_at _ _ _ _ _ p jn JournalFile); [exact I|exact HY']|].
  intros x. apply holds_fact. intros Hx. destruct x as [data|].
  2: { apply ret_holds. intros d f H. split; [|exact H]. left. split; [reflexivity|]. intros Q1.
       destruct Hx as [E|[_ E]]; [symmetry; exact E|congruence]. }
  destruct Hx as [E|[E _]]; [|discriminate]. cbn in E. destruct Po as [[X _]|X]; [congruence|]. rewrite X in E. injection E as ->.
  destruct (journal_parses k Hk) as (o & n & Pj & -> & ->).
  eapply holds_bind; [apply (from_ok _ _ _ _ Pj)|]. intros t. apply holds_fact. intros ->. rewrite HS, rotation_journal.
  eapply holds_bind; [apply (read_at _ _ _ _ _ p jn StoreFile); [exact I|exact HY']|]. intros s. apply holds_fact. intros Hs.
  eapply holds_bind; [apply (anchor_state_holds _ pO pN _ _ _ _ HaO HaN), HY'|]. intros a. apply holds_fact. intros Ha.
  cbv zeta. destruct (single_key_plan p k s a Hk) as [(-> & Ek & Np)|[-> C]].
  - destruct Hs as [->|[-> _]]; auto.
  - destruct Ha as [->|[-> _]]; auto.
  - eapply holds_bind; [apply (from_ok _ (plan_at pN true p)); reflexivity|]. intros t. apply holds_fact. intros ->.
    apply ret_holds. intros d f H. split; [|exact H]. right. auto.
  - apply (holds_bind _ _ _ _ (fun _ _ _ => False)); [|intros ? w _ []].
    apply holds_raise. intros d f. apply HY. destruct C as [->|[->|[C|C]]]; auto.
    + left. destruct Hs as [Hs|[_ Hs]]; [discriminate|exact Hs].
    + left. destruct Ha as [Ha|[_ Ha]]; [discriminate|exact Ha].
Qed.

(** [_read_pair] under one of the keys. *)
Lemma single_pair_holds p jn k (Y : disk -> bool -> Prop) : k = old_key \/ k = new_key ->
  (forall d f, q = false \/ k <> key_at p \/ p = Between -> at_ p jn d -> Y d f) ->
  runs q (read_pair k) (fun d _ => at_ p jn d)
    (fun r d _ => (r = catalog_at pO pN p /\ k = key_at p /\ p <> Between) /\ at_ p jn d) Y.
Proof.
  intros Hk HY. destruct (decide (k = key_at p)) as [->|Ne].
  - eapply holds_mono; [apply (read_pair_holds no_backups pO pN O aO N aN HaO HaN Differ key_at keys_parse p jn Y)|auto| |auto].
    + intros d f Hq. apply HY. tauto.
    + intros r d f [[E1 E2] H]. auto.
  - unfold read_pair. assert (HY' : forall d f, q = false -> at_ p jn d -> Y d f) by auto.
    eapply holds_bind; [apply (read_at _ _ _ _ _ p jn StoreFile); [exact I|exact HY']|]. intros s. apply holds_fact. intros Hs.
    eapply holds_bind; [apply (read_at _ _ _ _ _ p jn AnchorFile); [exact I|exact HY']|]. intros a. apply holds_fact. intros Ha.
    destruct Hs as [->|[-> Q0]]; [|apply holds_raise; auto]. destruct Ha as [->|[-> Q0]]; [|apply holds_raise; auto].
    cbn [content_at]. pose proof (authenticated p k Hk) as Au. rewrite bool_decide_eq_false_2 in Au by exact Ne.
    unfold authenticated_or_none in Au. destruct (parse_catalog (store_at O N p) k) as [x|e]; [discriminate|].
    apply (holds_bind _ _ _ _ (fun _ _ _ => False)); [|intros ? w _ []]. apply holds_raise. auto.
Qed.

(** Opening with one of the keys: only the place's own key opens it, and does
    when no call fails and the result is certain. *)
Definition opened (p : place) (k : list byte) (c : Catalog) (d : disk) : Prop :=
  c = new_catalog k (catalog_at pO pN p) /\ k = key_at p /\ span_ p d /\ (q = true -> at_ (recovered p) None d).

Definition refused (p : place) (k : list byte) (d : disk) : Prop := span_ p d /\ (q = false \/ k <> key_at p \/ p = Between).

Lemma read_holds p jn k p' : k = old_key \/ k = new_key -> recovered p' = recovered p -> possible J p' jn -> (q = true -> jn = None) ->
  (p' = Between -> p = Between) ->
  runs q (parsed ← read_pair k; cleanup_managed StoreDirectory;; cleanup_managed AnchorDirectory;; mret (new_catalog k parsed))
    (fun d _ => at_ p' jn d) (fun c d _ => opened p k c d) (fun d _ => refused p k d).
Proof.
  intros Hk Er Po Hq Hb. assert (Ekey : key_at p' = key_at p) by (rewrite <- recovered_key, Er; apply recovered_key).
  assert (Sp : forall d, at_ p' jn d -> span_ p d).
  { intros d H. rewrite <- recovered_span, <- Er, recovered_span. exact (place_span _ _ _ _ _ _ p' jn d Po H). }
  eapply holds_bind; [apply (single_pair_holds p' jn k); [exact Hk|]|].
  { intros d f C H. split; [exact (Sp d H)|]. rewrite Ekey in C. tauto. }
  intros r. apply holds_fact. intros (-> & Ek & Np).
  assert (Stop : forall d (f : bool), q = false -> at_ p' jn d -> refused p k d) by (intros d f Q0 H; split; [exact (Sp d H)|auto]).
  eapply holds_bind; [apply clean_place, Stop|]. intros u4. eapply holds_bind; [apply clean_place, Stop|]. intros u5.
  apply ret_holds. intros d f H. split; [rewrite <- recovered_catalog, Er, recovered_catalog; reflexivity|].
  split; [congruence|]. split; [exact (Sp d H)|]. intros Q1. rewrite <- Er. pose proof (Hq Q1) as ->.
  destruct p'; [exact H|contradiction|exact H].
Qed.

Lemma open_single p jn k value : k = old_key \/ k = new_key -> possible J p jn -> key_from_provider value = Ok k ->
  runs q (open_store value) (fun d _ => at_ p jn d) (fun c d _ => opened p k c d) (fun d _ => refused p k d).
Proof.
  intros Hk Po Ke. assert (Sp : forall d (f : bool), q = false -> at_ p jn d -> refused p k d).
  { intros d f Q0 H. split; [exact (place_span _ _ _ _ _ _ p jn d Po H)|auto]. }
  unfold open_store. eapply holds_bind; [apply (probe_inert _ (fun d _ => at_ p jn d)), Sp|]. intros u.
  eapply holds_bind; [apply (probe_inert _ (fun d _ => at_ p jn d)), Sp|]. intros u1.
  eapply holds_bind; [apply (from_ok _ k), Ke|]. intros k'. apply holds_fact. intros ->.
  apply (holds_bind _ _ _ _ (fun _ d _ => at_ p jn d)).
  { unfold acquire_locks. eapply holds_bind; [apply (probe_inert _ (fun d _ => at_ p jn d)), Sp|]. intros u2.
    apply (probe_inert _ (fun d _ => at_ p jn d)), Sp. }
  intros u2. eapply holds_bind; [apply (single_plan_holds p jn k (fun d _ => refused p k d) Hk Po)|].
  { intros d f C H. split; [exact (place_span _ _ _ _ _ _ p jn d Po H)|exact C]. }
  intros r. apply holds_fact. intros [[-> Hq]|(-> & -> & Ek & Np)].
  - apply (holds_bind _ _ _ _ (fun _ d _ => at_ p jn d)); [apply ret_holds; auto|]. intros u3. apply read_holds; auto.
  - eapply holds_bind.
    { eapply holds_mono; [apply (apply_holds no_backups no_backups_steady pN O aO N aN J HbN true p purging)|auto|intros a d f H; exact H|].
      intros e d f [Q0 H]. split; [exact H|auto]. }
    intros u3. apply (read_holds p None k (recovered p)); auto.
    + destruct p; reflexivity.
    + apply recovered_possible.
    + destruct p; [discriminate|contradiction|discriminate].
Qed.
End operations.

(** ** Restarts *)

Abbreviation area_ := (area no_backups O aO N aN J).

Lemma attempt_area old_value new_value x p jn w w' : key_from_provider old_value = Ok old_key -> key_from_provider new_value = Ok new_key ->
  possible J p jn -> allowed x p -> at_ p jn (disk_ w) -> attempt old_value new_value w w' -> area_ x (disk_ w').
Proof.
  intros Ko Kn Po Al H A. apply (span_area _ _ _ _ _ _ x p _ Al). change (span_ p (files (disk_ w'))). destruct A as [value V|apply].
  - assert (E : exists k, (k = old_key \/ k = new_key) /\ key_from_provider value = Ok k) by (destruct V as [->| ->]; eauto).
    destruct E as (k & Hk & Kv). pose proof (open_single (q := false) p jn k value Hk Po Kv w ltac:(discriminate) H) as R.
    destruct (open_store value w) as [[c|e] w1]; cbn [snd]; apply R.
  - pose proof (recovery_holds (q := false) p jn old_value new_value apply Po Ko Kn w ltac:(discriminate) H) as R.
    destruct (rotation_recovery old_value new_value apply w) as [[c|e] w1]; cbn [snd]; apply R.
Qed.

Lemma rotation_place old_value new_value x d d' : key_from_provider old_value = Ok old_key -> key_from_provider new_value = Ok new_key ->
  area_ x d -> rotation_restarts old_value new_value d d' -> exists p jn, possible J p jn /\ allowed x p /\ at_ p jn d'.
Proof.
  intros Ko Kn Ar R. induction R as [d d' P|d w w' d' P A R IH].
  - exact (area_loss no_backups no_backups_steady O aO N aN J x d d' Ar P).
  - destruct (area_loss no_backups no_backups_steady O aO N aN J x d (disk_ w) Ar P) as (p & jn & Po & Al & H).
    apply IH. exact (attempt_area old_value new_value x p jn w w' Ko Kn Po Al H A).
Qed.

(** The recovery without failures, and opening after it. *)
Lemma quiet_recovery old_value new_value p jn w : key_from_provider old_value = Ok old_key -> key_from_provider new_value = Ok new_key ->
  possible J p jn -> at_ p jn (disk_ w) -> script w = [] ->
  exists w', rotation_recovery old_value new_value true w =
      (Ok {| confirmed_key := role_at p; catalog_revision := c_revision (catalog_at pO pN p); journal_pending := false |}, w') /\
    script w' = [] /\ at_ (recovered p) None (disk_ w').
Proof.
  intros Ko Kn Po H S. pose proof (recovery_holds (q := true) p jn old_value new_value true Po Ko Kn w (fun _ => S) H) as R.
  destruct (rotation_recovery old_value new_value true w) as [[r|e] w']; [|destruct R as (_ & X & _); discriminate].
  destruct R as (S' & R1 & R2 & _ & R3). destruct (R3 eq_refl eq_refl) as [R4 R5]. exists w'. destruct r; cbn in *. subst.
  split; [reflexivity|]. split; [exact (S' eq_refl)|exact R5].
Qed.

Lemma quiet_single p value w : key_from_provider value = Ok (key_at p) -> at_ (recovered p) None (disk_ w) -> script w = [] ->
  exists w', open_store value w = (Ok (new_catalog (key_at p) (catalog_at pO pN p)), w').
Proof.
  intros Kv H S. assert (Hk : key_at p = old_key \/ key_at p = new_key) by (destruct p; auto).
  pose proof (open_single (q := true) (recovered p) None (key_at p) value Hk (recovered_possible p) Kv w (fun _ => S) H) as R.
  destruct (open_store value w) as [[c|e] w'].
  - destruct R as (_ & -> & _). rewrite recovered_catalog. eauto.
  - destruct R as (_ & _ & [X|[X|X]]); [discriminate|rewrite recovered_key in X; contradiction|destruct p; discriminate].
Qed.

(** The first recovery without failures, and opening after it. *)
Lemma restarts_end old_value new_value x d w : key_from_provider old_value = Ok old_key -> key_from_provider new_value = Ok new_key ->
  area_ x d -> rotation_restarts old_value new_value d (disk_ w) -> script w = [] ->
  exists p w', allowed x p /\
    rotation_recovery old_value new_value true w =
      (Ok {| confirmed_key := role_at p; catalog_revision := c_revision (catalog_at pO pN p); journal_pending := false |}, w') /\
    at_ (recovered p) None (disk_ w') /\
    exists w'', open_store (match role_at p with OldKey => old_value | NewKey => new_value end) w' =
      (Ok (new_catalog (key_at p) (catalog_at pO pN p)), w'').
Proof.
  intros Ko Kn Ar R S. destruct (rotation_place old_value new_value x _ _ Ko Kn Ar R) as (p & jn & Po & Al & H).
  destruct (quiet_recovery old_value new_value p jn w Ko Kn Po H S) as (w' & E & S' & H').
  exists p, w'. split; [exact Al|]. split; [exact E|]. split; [exact H'|].
  apply quiet_single; [destruct p; assumption|exact H'|exact S'].
Qed.
End rotation.

(** ** Sealing every record again *)

Section sealing.
Context {F : PyFloat} {D : DatasourceLib} {L : PyLib}.

(** A record sealed again: the same but for its revision and its secret, which
    opens under the old key and was sealed under the new one. *)
Definition resealed (old_key new_key : list byte) (current r : DatasourceRecord) : Prop :=
  id_ r = id_ current /\ draft r = draft current /\ revision r = revision current + 1 /\ last_test r = last_test current /\
  datasource_record r = Ok r /\
  exists text moment, open_secret (upstream_secret current) old_key (id_ current) CATALOG_SCHEMA_VERSION (revision current) = Ok text /\
    seal_secret moment text new_key (id_ current) CATALOG_SCHEMA_VERSION (revision current + 1) = Ok (upstream_secret r).

Lemma on_self_Ok {A} (m : catalog A) (s s' : Store) x : checked_ m s = (Ok x, s') -> m = Ok x /\ s' = s.
Proof.
  unfold checked_, on_world, from. destruct m as [y|e]; cbn; [|discriminate]. intros E. injection E as -> <-. destruct s; auto.
Qed.

Lemma datasource_record_same r x : datasource_record r = Ok x -> x = r.
Proof.
  unfold datasource_record. intros H. repeat (apply bind_Ok in H as (? & _ & H)). congruence.
Qed.

Lemma reseal_Ok new_key records : forall moment s l s', reseal moment new_key records s = (Ok l, s') ->
  s' = s /\ Forall2 (resealed (master_key (object s)) new_key) records l.
Proof.
  induction records as [|current rest IH]; intros moment s l s' H; cbn [reseal] in H.
  { injection H as <- <-. split; [reflexivity|constructor]. }
  apply st_bind_Ok in H as (text & s1 & H1 & H). unfold secret_of in H1. apply st_bind_Ok in H1 as (c & s0 & E & H1).
  injection E as <- <-. apply on_self_Ok in H1 as [H1 ->]. apply value_error_Ok in H1.
  apply st_bind_Ok in H as (e & s1 & H2 & H). apply on_self_Ok in H2 as [H2 ->].
  apply st_bind_Ok in H as (r & s1 & H3 & H). apply on_self_Ok in H3 as [H3 ->].
  apply st_bind_Ok in H as (more & s1 & H4 & H). destruct (IH _ _ _ _ H4) as [-> F2]. injection H as <- <-.
  split; [reflexivity|]. constructor; [|exact F2].
  unfold of_checked in H3. destruct (datasource_record _) as [x|] eqn:E; [|discriminate]. injection H3 as ->.
  pose proof (datasource_record_same _ _ E) as ->. repeat split; try exact E.
  exists text, moment. split; [exact H1|]. unfold leak in H2. cbn [upstream_secret]. destruct (seal_secret _ _ _ _ _ _); congruence.
Qed.

Lemma resealed_same old_key new_key records l : Forall2 (resealed old_key new_key) records l ->
  ids l = ids records /\ aliases l = aliases records.
Proof.
  induction 1 as [|x y xs ys R _ [IH1 IH2]]; [split; reflexivity|]. destruct R as (E1 & E2 & _).
  unfold ids, aliases in *. cbn [map fmap list_fmap]. rewrite E1, E2. split; f_equal; assumption.
Qed.

Lemma resealed_ok old_key new_key x y : resealed old_key new_key x y -> record_ok x -> record_ok y.
Proof.
  intros (E1 & E2 & E3 & E4 & E5 & t & m & _ & S) [K1 K2 K3 K4 K5 K6 K7 K8].
  apply seal_secret_Ok in S as (_ & a & b & _ & _ & _ & _ & S). constructor; rewrite ?E1, ?E2, ?E4; assumption.
Qed.

Lemma secrets_open records revision dg key :
  Forall (fun r => exists t, open_secret (upstream_secret r) key (id_ r) CATALOG_SCHEMA_VERSION (Datasource.revision r) = Ok t) records ->
  verify_secrets {| c_revision := revision; c_digest := dg; c_records := records |} key = Ok tt.
Proof.
  intros H. unfold verify_secrets. cbn [c_records].
  assert (E : exists l, mapM_res (fun r => value_error (open_secret (upstream_secret r) key (id_ r) CATALOG_SCHEMA_VERSION (Datasource.revision r))
                       CatalogKeyError) records = Ok l); [|destruct E as [l ->]; reflexivity].
  induction H as [|r rs [t T] _ [l IH]]; [exists []; reflexivity|]. exists (t :: l). apply mapM_res_Forall2. constructor.
  - rewrite T. reflexivity.
  - apply mapM_res_Forall2, IH.
Qed.

Lemma resealed_opens {DL : DatasourceLibLaws D} old_key new_key records l : Forall2 (resealed old_key new_key) records l ->
  Forall (fun r => exists t, open_secret (upstream_secret r) old_key (id_ r) CATALOG_SCHEMA_VERSION (revision r) = Ok t) records /\
  Forall (fun r => exists t, open_secret (upstream_secret r) new_key (id_ r) CATALOG_SCHEMA_VERSION (revision r) = Ok t) l.
Proof.
  induction 1 as [|x y xs ys R _ [IH1 IH2]]; [split; constructor|].
  destruct R as (E1 & E2 & E3 & E4 & E5 & t & m & Op & S). split; constructor; eauto.
  exists t. rewrite E1, E3. eapply sealed_opens, S.
Qed.
End sealing.

(** [rotate_master_key] of an open catalog is the commit of the records sealed
    again, then the new key. *)
Lemma rotate_runs {F : PyFloat} {D : DatasourceLib} {L : PyLib} new_value new_key moment s records : let c := object s in
  closed c = false -> poisoned c = false -> key_from_provider new_value = Ok new_key ->
  reseal moment new_key (records_ c) s = (Ok records, s) ->
  rotate_master_key new_value moment s =
  match commit records (revision_ c) (Some new_key) s with
  | (Ok _, s1) =>
      let c := object s1 in
      (Ok (revision_ c, records_ c, digest_ c),
       {| object := {| master_key := new_key; revision_ := revision_ c; records_ := records_ c; digest_ := digest_ c;
                       closed := closed c; poisoned := poisoned c |}; world := world s1 |})
  | (Err e, s1) => (Err e, s1)
  end.
Proof.
  cbv zeta. intros C P K R. unfold rotate_master_key, serialized, ensure_open, self. unfold mbind, st_bind. rewrite C, P.
  unfold mret, st_ret. change (value_error (validate_master_key new_value) MasterKeyError) with (key_from_provider new_value).
  rewrite K. unfold checked_, on_world, from, mret, st_ret. destruct s as [c w]. cbn [object world] in *. rewrite R.
  destruct (commit _ _ _ _) as [[u|e] s1]; reflexivity.
Qed.

(** The files after a rotation, by what is certain of it. *)
Lemma rotation_area {F : PyFloat} {D : DatasourceLib} {L : PyLib} new_value new_key moment s records data dg j O aO aN J r s' : let c := object s in
  closed c = false -> poisoned c = false -> key_from_provider new_value = Ok new_key ->
  reseal moment new_key (records_ c) s = (Ok records, s) -> new_key <> master_key c ->
  serialize_document (make_payload (revision_ c + 1) records) new_key = Ok data ->
  catalog_digest (VDict (make_payload (revision_ c + 1) records)) = Ok dg ->
  new_journal (revision_ c) (Some (digest_ c)) (revision_ c + 1) dg (master_key c) new_key = Ok j ->
  journal_bytes j = Ok J -> anchor_bytes {| a_revision := revision_ c + 1; a_digest := dg |} = Ok aN ->
  phase [Some O] [Some aO] [None] (disk_ (world s)) ->
  rotate_master_key new_value moment s = (r, s') ->
  area no_backups O aO data aN J (certain r) (disk_ (world s')).
Proof.
  cbv zeta. intros Cl Po Kn Rs Ne S Dg Jn Jb An Ph Ro. rewrite (rotate_runs new_value new_key moment s records Cl Po Kn Rs) in Ro.
  destruct (commit records (revision_ (object s)) (Some new_key) s) as [r0 s0] eqn:Cm.
  assert (A0 : area no_backups O aO data aN J (certain r0) (disk_ (world s0))).
  { refine (proj1 (commit_area no_backups s records (Some new_key) data dg j O aO aN J r0 s0 no_backups_steady _ S Dg Jn Jb An Ph Cm)).
    intros d Hb. apply Hb. exact Ne. }
  destruct r0 as [u|e]; injection Ro as <- <-; exact A0.
Qed.

(** No document of the rotation, and no role of its journal, is authenticated
    by both keys. *)
Definition told_apart {F : PyFloat} {D : DatasourceLib} {L : PyLib} (key new_key : list byte) (p : ParsedCatalog)
    (records : list DatasourceRecord) (before_ after_ : list byte) : Prop :=
  parse_catalog before_ new_key = Err CatalogKeyError /\ parse_catalog after_ key = Err CatalogKeyError /\
  forall dg j, catalog_digest (VDict (make_payload (c_revision p + 1) records)) = Ok dg ->
    new_journal (c_revision p) (Some (c_digest p)) (c_revision p + 1) dg key new_key = Ok j -> old_auth_tag j <> new_auth_tag j.

Lemma roles_apart {F : PyFloat} {D : DatasourceLib} {L : PyLib} key new_key j :
  catalog_auth_tag (payload_of j) key = Ok (old_auth_tag j) -> catalog_auth_tag (payload_of j) new_key = Ok (new_auth_tag j) ->
  old_auth_tag j <> new_auth_tag j ->
  journal_roles j key = Ok (true, false) /\ journal_roles j new_key = Ok (false, true).
Proof.
  intros To Tn Ne. unfold journal_roles. rewrite To, Tn. cbn [leak mbind res_bind].
  split; repeat case_bool_decide; congruence.
Qed.

(** C23: no crash of a rotation of the master key loses the store.  Let an open
    catalog, which its files hold safely, be rotated to another key, and let
    no document of the rotation be authenticated by both keys; whatever calls
    of the rotation fail, are interrupted or kill the process, and however
    often the power is then lost and the store tried with either key or with
    the recovery, each with failures of its own, the first recovery without
    failures finds which of the two keys opens the store, completes or drops
    the rotation, and leaves files that hold that key's catalog safely: the
    old one under the old key, or the same records sealed again under the new
    key, and then without any backup of the old key.  It is the new one if the
    rotation returned, and the old one if it failed without saying that its
    outcome is uncertain; and the store then opens with the key it found. *)
Theorem rotation_crash_safe {F : PyFloat} {D : DatasourceLib} {DL : DatasourceLibLaws D} {L : PyLib} {PL : Transformers.PyLibLaws L}
    value new_value key new_key p s moment records before_ data r s' :
  key_from_provider value = Ok key -> key_from_provider new_value = Ok new_key ->
  holds_catalog key p (object s) -> closed (object s) = false -> poisoned (object s) = false ->
  at_rest key p (disk_ (world s)) -> now (store (disk_ (world s))) = Some before_ -> Forall record_ok (c_records p) ->
  reseal moment new_key (c_records p) s = (Ok records, s) ->
  serialize_document (make_payload (c_revision p + 1) records) new_key = Ok data ->
  told_apart key new_key p records before_ data ->
  rotate_master_key new_value moment s = (r, s') ->
  exists next, c_revision next = c_revision p + 1 /\ c_records next = merge_sort id_le records /\
  forall d w, rotation_restarts value new_value (disk_ (world s')) d -> disk_ w = d -> script w = [] ->
    exists who found w',
      rotation_recovery value new_value true w =
        (Ok {| confirmed_key := who; catalog_revision := c_revision found; journal_pending := false |}, w') /\
      (who = OldKey /\ found = p /\ at_rest key p (disk_ w') \/
       who = NewKey /\ found = next /\ at_rest new_key next (disk_ w') /\ no_backups (disk_ w')) /\
      match certain r with Old => found = p | New => found = next | Either => True end /\
      exists w'', open_store (match who with OldKey => value | NewKey => new_value end) w' =
        (Ok (new_catalog (match who with OldKey => key | NewKey => new_key end) found), w'').
Proof.
  intros Ke Kn (Ek & Er & Ec & Ed) Cl Po (O & aO & PO & AO & Ph) Bf R Rs S (XO & XN & Tags) Ro.
  assert (before_ = O) as -> by (destruct Ph as (Ph & _); apply only_one in Ph; congruence).
  destruct (reseal_Ok _ _ _ _ _ _ Rs) as [_ F2]. rewrite Ek in F2.
  destruct (resealed_same _ _ _ _ F2) as [Ids Als]. destruct (resealed_opens _ _ _ _ F2) as [Vo Vn].
  destruct (parse_catalog_accepts _ _ _ PO) as [[_ _ _ N1 N2] _]. rewrite <- Ids in N1. rewrite <- Als in N2.
  destruct (payload_digest _ _ _ _ S) as (_ & dg & _ & _ & Dg).
  assert (Rn : Forall record_ok records).
  { clear -F2 R. induction F2 as [|x y xs ys Hxy _ IH]; [constructor|]. inversion R; subst. constructor; [eapply resealed_ok; eassumption|auto]. }
  destruct (next_files key new_key p O data dg records (read_key _ _ Ke) (read_key _ _ Kn) PO Rn N1 N2 S Dg)
    as (PN & Ne & aN & j & J & AN & AN' & Jn & Jb & DJ & To & Tn & St).
  destruct (roles_apart key new_key j To Tn (Tags dg j Dg Jn)) as [RO RN].
  set (pN := {| c_revision := c_revision p + 1; c_digest := dg; c_records := merge_sort id_le records |}) in *.
  destruct (accepted_digest _ _ _ PO) as [Rv X]. pose proof (anchor_back p aO Rv X AO) as AO'.
  exists pN. split; [reflexivity|]. split; [reflexivity|]. intros d w Re Hd Hs. subst d.
  pose proof (rotation_area new_value new_key moment s records data dg j O aO aN J r s') as Ar.
  cbv zeta in Ar. rewrite Ek, Er, Ed, Ec in Ar.
  specialize (Ar Cl Po Kn Rs ltac:(congruence) S Dg Jn Jb AN Ph Ro).
  assert (VO : verify_secrets p key = Ok tt) by (destruct p; apply secrets_open, Vo).
  assert (VN : verify_secrets pN new_key = Ok tt).
  { apply secrets_open. rewrite merge_sort_Permutation. exact Vn. }
  destruct (restarts_end key new_key p pN O aO data aN J j PO PN XO XN AO' AN' DJ RO RN St Ne AN VO VN value new_value _ _ w Ke Kn Ar Re Hs)
    as (pl & w' & Al & E & At & Op).
  exists (role_at pl), (catalog_at p pN pl), w'. split; [exact E|]. split; [|split].
  - destruct pl; [left|right|right]; (split; [reflexivity|]); (split; [reflexivity|]).
    + exists O, aO. split; [exact PO|]. split; [exact AO|apply At].
    + split; [exists data, aN; split; [exact PN|]; split; [exact AN|apply At]|apply (proj2 At); reflexivity].
    + split; [exists data, aN; split; [exact PN|]; split; [exact AN|apply At]|apply (proj2 At); reflexivity].
  - destruct (certain r), pl; cbn in *; try discriminate; try contradiction; auto.
  - destruct pl; exact Op.
Qed.

(** ** A concrete rotation *)

#[local] Existing Instance CatalogLaws.toy_datasource_lib.
#[local] Existing Instance CatalogLaws.toy_datasource_laws.
#[local] Existing Instance CatalogLaws.toy_float.
#[local] Existing Instance CatalogLaws.toy_lib.
#[local] Existing Instance CatalogLaws.toy_laws.

Lemma Ok_inj {E A} (x y : A) : @Ok E A x = Ok y -> x = y.
Proof. congruence. Qed.

(** The toy catalog's records sealed again, and their document. *)
Definition sealed_again : list DatasourceRecord :=
  match (reseal 7 other_key (c_records toy_parsed) (toy_store deadly)).1 with Ok l => l | Err _ => [] end.

Definition other_document : list byte :=
  match serialize_document (make_payload (c_revision toy_parsed + 1) sealed_again) other_key with Ok b => b | Err _ => [] end.

Lemma toy_parsed_ok : Forall record_ok (c_records toy_parsed).
Proof.
  assert (E : c_records toy_parsed = [toy_record (toy_id 97) (py "erp"); toy_record (toy_id 98) (py "sales")]) by (vm_compute; reflexivity).
  rewrite E. pose proof toy_records_ok as H. inversion H as [|x l Hx Hl]; subst. inversion Hl; subst. apply List.Forall_cons; [assumption|]. apply List.Forall_cons; [assumption|apply List.Forall_nil].
Qed.

Lemma toy_told_apart : told_apart toy_key other_key toy_parsed sealed_again toy_document other_document.
Proof.
  split; [vm_compute; reflexivity|]. split; [vm_compute; reflexivity|]. intros dg j Dg Jn.
  assert (Tag : forall v k t, length k = 32%nat -> validate_master_key (VBytes k) = Ok k ->
    catalog_auth_tag v k = Ok t -> t = hexdigest k).
  { intros v k t Lk K H. unfold catalog_auth_tag, auth_key in H. rewrite K in H. apply bind_Ok in H as (k1 & K1 & H).
    apply bind_Ok in H as (b & _ & H). assert (k = k1) as <- by (apply Ok_inj in K1; exact K1). apply Ok_inj in H. symmetry. cbn [Transformers.hmac_digest toy_lib Transformers.sample_lib] in H. unfold Transformers.sample_digest in H.
    rewrite <- Lk, <- app_assoc, take_app_length in H. exact H. }
  unfold new_journal in Jn. cbv zeta in Jn. apply bind_Ok in Jn as (t & T & Jn). apply bind_Ok in Jn as (u & U & Jn).
  apply Tag in T; [|reflexivity|vm_compute; reflexivity]. apply Tag in U; [|reflexivity|vm_compute; reflexivity]. subst t u. apply Ok_inj in Jn as <-.
  apply (bool_decide_unpack _). vm_compute. exact I.
Qed.

(** The process dies right after the new document is in place. *)
Lemma rotation_crash_safe_witness : exists s', rotate_master_key (VBytes other_key) 7 (toy_store deadly) = (Err Died, s') /\
  now (store (disk_ (world s'))) = Some other_document /\ now (anchor (disk_ (world s'))) = Some toy_anchor /\
  exists next, c_revision next = 4 /\ c_records next = merge_sort id_le sealed_again /\
  forall d w, rotation_restarts (VBytes toy_key) (VBytes other_key) (disk_ (world s')) d -> disk_ w = d -> script w = [] ->
    exists who found w', rotation_recovery (VBytes toy_key) (VBytes other_key) true w =
        (Ok {| confirmed_key := who; catalog_revision := c_revision found; journal_pending := false |}, w') /\
      (who = OldKey /\ found = toy_parsed /\ at_rest toy_key toy_parsed (disk_ w') \/
       who = NewKey /\ found = next /\ at_rest other_key next (disk_ w') /\ no_backups (disk_ w')).
Proof.
  eexists. split; [vm_compute; reflexivity|]. split; [vm_compute; reflexivity|]. split; [vm_compute; reflexivity|].
  destruct (rotation_crash_safe (VBytes toy_key) (VBytes other_key) toy_key other_key toy_parsed (toy_store deadly) 7 sealed_again
    toy_document other_document (Err Died) (rotate_master_key (VBytes other_key) 7 (toy_store deadly)).2
    ltac:(vm_compute; reflexivity) ltac:(vm_compute; reflexivity) (toy_holds deadly) eq_refl eq_refl (toy_at_rest deadly) eq_refl
    toy_parsed_ok ltac:(vm_compute; reflexivity) ltac:(vm_compute; reflexivity) toy_told_apart ltac:(vm_compute; reflexivity))
    as (next & R & N & H).
  exists next. split; [exact R|]. split; [exact N|]. intros d w Re Hd Hs.
  destruct (H d w ltac:(vm_compute; vm_compute in Re; exact Re) Hd Hs) as (who & found & w' & E & C & _).
  exists who, found, w'. split; [exact E|exact C].
Defined.
