(* ===== verification/DatasourceRegistry.v ===== *)
(** * DatasourceRegistry: generations, sessions and drain of many datasources

    Models [runtime/datasources.py]: the immutable generations published under
    their aliases, the sessions each captures one, the reservations of
    candidates, and the shutdown.  A critical section under the registry's
    lock is one operation; so is each step of a session under its own lock.
    The threads are a step relation, in which a session's holder, the
    administrator and the shutdown interleave freely.

    A generation is named by its number, a session and a reservation by the
    moment it was made.  An adapter's [close] and [cancel] raise nothing, as
    [db/postgres.py] has them. *)

From S2P Require Import Prelude.
From coqutil Require Import Datatypes.RecordSettersUsingExistingGetters.

Local Open Scope Z_scope.

(** ** State *)

(** [DatasourceGeneration]; [g_limit] is the prepared runtime's
    [max_sessions], and [g_disposed] says that the prepared runtime is gone. *)
Record generation := {
  g_datasource : pystr;
  g_alias : pystr;
  g_record_revision : Z;
  g_limit : Z;
  g_sessions : Z;
  g_retired : bool;
  g_closed : bool;
  g_disposed : bool;
}.

(** The thread that holds a session's lock to close it. *)
Inductive holder := Session | Shutdown.

#[export] Instance holder_eq_dec : EqDecision holder.
Proof. solve_decision. Defined.

(** Where the holder of a session's lock is: in [open_session], connecting or
    past the check of [_terminating]; nobody; inside [use], or leaving it past
    the check; in [_close_locked], at the adapter's close, at the registry's
    [_release], or after it. *)
Inductive phase :=
| Connecting | Connected | Free | InUse | Leaving
| Closing (h : holder) | Releasing (h : holder) | Unlocking (h : holder).

#[export] Instance phase_eq_dec : EqDecision phase.
Proof. solve_decision. Defined.

(** [DatasourceLease]. *)
Record lease := {
  l_generation : nat;
  l_closed : bool;
  l_terminating : bool;
  l_adapter_closed : bool;
  l_phase : phase;
}.

(** [CandidateReservation]. *)
Record reservation := {
  v_key : pystr;
  v_datasource : option pystr;
  v_publish : bool;
  v_released : bool;
  v_slot : bool;
}.

Record RegistryLimits := { max_sessions : Z; max_retired : Z; max_candidates : Z }.

Definition MAX_GLOBAL_SESSIONS : Z := 32.
Definition MAX_GLOBAL_RETIRED : Z := 4.
Definition MAX_GLOBAL_CANDIDATES : Z := 2.
Definition MAX_RETIRED_PER_DATASOURCE : Z := 1.
Definition MAX_CANDIDATES_PER_DATASOURCE : Z := 1.

Definition default_limits : RegistryLimits :=
  {| max_sessions := MAX_GLOBAL_SESSIONS; max_retired := MAX_GLOBAL_RETIRED; max_candidates := MAX_GLOBAL_CANDIDATES |}.

(** [RegistryLimits.__post_init__]. *)
Definition registry_limits (l : RegistryLimits) : option RegistryLimits :=
  if (1 <=? max_sessions l) && (1 <=? max_retired l) && (1 <=? max_candidates l) then Some l else None.

(** [DatasourceRegistry], with the objects it made. *)
Record registry := {
  limits : RegistryLimits;
  generations : gmap nat generation;
  leases : gmap nat lease;
  reservations : gmap nat reservation;
  published : gmap pystr nat;
  retired : list nat;
  sessions : gset nat;
  ds_sessions : gmap pystr Z;
  ds_retired : gmap pystr Z;
  ds_candidates : gmap pystr Z;
  candidates : Z;
  reserved_retired : Z;
  next_generation : nat;
  next_lease : nat;
  next_reservation : nat;
  closing : bool;
  closed : bool;
}.

Definition new_registry (l : RegistryLimits) : registry :=
  {| limits := l; generations := ∅; leases := ∅; reservations := ∅; published := ∅; retired := []; sessions := ∅;
     ds_sessions := ∅; ds_retired := ∅; ds_candidates := ∅; candidates := 0; reserved_retired := 0;
     next_generation := 1; next_lease := 0; next_reservation := 0; closing := false; closed := false |}.

Inductive registry_error := Unavailable | Busy | RegistryClosed | RuntimeError | ValueError | KeyError.

Abbreviation reg A := (st registry registry_error A).

(** ** Counters and objects *)

(** [Counter]: a missing key counts zero; [+= 1]; and [-= 1] with the key
    deleted when nothing is left. *)
Definition count (c : gmap pystr Z) (k : pystr) : Z := default 0 (c !! k).
Definition bump (k : pystr) (c : gmap pystr Z) : gmap pystr Z := <[k := count c k + 1]> c.
Definition drop_one (k : pystr) (c : gmap pystr Z) : gmap pystr Z :=
  let v := count c k - 1 in if v <=? 0 then delete k c else <[k := v]> c.

Definition set_generation (n : nat) (g : generation) (r : registry) : registry := r <| generations ::= <[n := g]> |>.
Definition set_lease (i : nat) (l : lease) (r : registry) : registry := r <| leases ::= <[i := l]> |>.
Definition set_reservation (v : nat) (x : reservation) (r : registry) : registry := r <| reservations ::= <[v := x]> |>.

(** The object of a number; every number in use has one. *)
Definition the_generation (n : nat) : reg generation := fun r =>
  (match generations r !! n with Some g => Ok g | None => Err KeyError end, r).
Definition the_lease (i : nat) : reg lease := fun r =>
  (match leases r !! i with Some l => Ok l | None => Err KeyError end, r).
Definition the_reservation (v : nat) : reg reservation := fun r =>
  (match reservations r !! v with Some x => Ok x | None => Err KeyError end, r).

Definition modify (f : registry -> registry) : reg unit := fun r => (Ok tt, f r).

(** ** Retirement *)

(** [_take_closable_locked]; what it returns is disposed outside the lock. *)
Definition take_closable (n : nat) : reg (option nat) :=
  g ← the_generation n;
  if negb (g_retired g) || (0 <? g_sessions g) || g_closed g then mret None
  else
    modify (set_generation n (g <| g_closed := true |>));;
    r ← get_st;
    guard_st (negb (bool_decide (n ∈ retired r))) ValueError;;
    modify (fun r => r <| retired ::= remove_first n |> <| ds_retired ::= drop_one (g_datasource g) |>);;
    mret (Some n).

(** [_retire_locked]. *)
Definition retire (n : nat) : reg (option nat) :=
  g ← the_generation n;
  modify (set_generation n (g <| g_retired := true |>));;
  modify (fun r => r <| retired ::= fun l => l ++ [n] |> <| ds_retired ::= bump (g_datasource g) |>);;
  take_closable n.

(** [_published_for_locked]: the first generation published for a datasource. *)
Definition published_for (i : pystr) (r : registry) : option (pystr * nat) :=
  find (fun an => match generations r !! an.2 with Some g => bool_decide (g_datasource g = i) | None => false end)
       (map_to_list (published r)).

(** [_check_retired_capacity_locked]. *)
Definition check_retired_capacity (i : pystr) : reg unit :=
  r ← get_st;
  guard_st (MAX_RETIRED_PER_DATASOURCE <=? count (ds_retired r) i) Busy;;
  guard_st (max_retired (limits r) <=? Z.of_nat (length (retired r)) + reserved_retired r) Busy.

(** ** Reading *)

(** [GenerationStatus] and [RegistryStatus]. *)
Record GenerationStatus := { s_alias : pystr; s_datasource : pystr; s_generation : nat; s_revision : Z; s_sessions : Z }.
Record RegistryStatus := {
  status_published : list GenerationStatus;
  retired_open : Z;
  status_sessions : Z;
  status_candidates : Z;
  status_closing : bool;
}.

Definition alias_le (x y : pystr * nat) : Prop := pystr_le x.1 y.1.

#[export] Instance alias_le_dec : RelDecision alias_le.
Proof. intros x y. unfold alias_le. apply _. Defined.

Definition status : reg RegistryStatus :=
  r ← get_st;
  l ← mapM_st (fun an : pystr * nat =>
        g ← the_generation an.2;
        mret {| s_alias := g_alias g; s_datasource := g_datasource g; s_generation := an.2;
                s_revision := g_record_revision g; s_sessions := g_sessions g |})
      (merge_sort alias_le (map_to_list (published r)));
  mret {| status_published := l; retired_open := Z.of_nat (length (retired r));
          status_sessions := Z.of_nat (size (sessions r)); status_candidates := candidates r;
          status_closing := closing r |}.

(** [generation_sessions], of the exact generation. *)
Definition generation_sessions (datasource : pystr) (number : nat) (r : registry) : Z :=
  let candidate n := match generations r !! n with
                     | Some g => bool_decide (g_datasource g = datasource /\ n = number)
                     | None => false
                     end in
  match find candidate ((map_to_list (published r)).*2 ++ retired r) with
  | Some n => match generations r !! n with Some g => g_sessions g | None => 0 end
  | None => 0
  end.

(** [current]. *)
Definition current (alias : pystr) : reg nat :=
  r ← get_st;
  match published r !! alias with
  | Some n => if closing r then raise_st Unavailable else mret n
  | None => raise_st Unavailable
  end.

(** ** Candidates and publication *)

Definition reserve (key : pystr) (datasource : option pystr) (publish : bool) : reg nat :=
  r ← get_st;
  guard_st (closing r) RegistryClosed;;
  guard_st (MAX_CANDIDATES_PER_DATASOURCE <=? count (ds_candidates r) key) Busy;;
  guard_st (max_candidates (limits r) <=? candidates r) Busy;;
  slot ← match datasource with
         | Some i =>
             if publish && bool_decide (published_for i r <> None) then
               check_retired_capacity i;;
               modify (fun r => r <| reserved_retired ::= Z.add 1 |>);;
               mret true
             else mret false
         | None => mret false
         end;
  let v := next_reservation r in
  modify (fun r => r <| ds_candidates ::= bump key |> <| candidates ::= Z.add 1 |> <| next_reservation ::= S |>);;
  modify (set_reservation v {| v_key := key; v_datasource := datasource; v_publish := publish;
                               v_released := false; v_slot := slot |});;
  mret v.

(** [CandidateReservation.release], that is [_release_reservation]. *)
Definition release_reservation (v : nat) : reg unit :=
  x ← the_reservation v;
  if v_released x then mret tt
  else
    modify (set_reservation v (x <| v_released := true |> <| v_slot := false |>));;
    modify (fun r => r <| ds_candidates ::= drop_one (v_key x) |> <| candidates ::= Z.add (-1) |>);;
    if v_slot x then modify (fun r => r <| reserved_retired ::= Z.add (-1) |>) else mret tt.

(** [CandidateReservation.publish] and [_publish]: the new generation, and the
    old one if it is to be disposed. *)
Definition publish (v : nat) (datasource alias : pystr) (record_revision limit : Z) : reg (nat * option nat) :=
  x ← the_reservation v;
  guard_st (negb (v_publish x) || v_released x) RuntimeError;;
  r ← get_st;
  guard_st (closed r) RegistryClosed;;
  let datasource_of n := g_datasource <$> generations r !! n in
  let old := published r !! alias in
  guard_st (match old with Some n => negb (bool_decide (datasource_of n = Some datasource)) | None => false end) RuntimeError;;
  guard_st (existsb (fun an => bool_decide (datasource_of an.2 = Some datasource) && negb (bool_decide (an.1 = alias)))
              (map_to_list (published r))) RuntimeError;;
  match old with
  | Some _ =>
      if v_slot x then
        modify (set_reservation v (x <| v_slot := false |>));;
        modify (fun r => r <| reserved_retired ::= Z.add (-1) |>)
      else check_retired_capacity datasource
  | None => mret tt
  end;;
  let n := next_generation r in
  modify (set_generation n {| g_datasource := datasource; g_alias := alias; g_record_revision := record_revision;
                              g_limit := limit; g_sessions := 0; g_retired := false; g_closed := false;
                              g_disposed := false |});;
  modify (fun r => r <| next_generation ::= S |> <| published ::= <[alias := n]> |>);;
  to_close ← match old with Some o => retire o | None => mret None end;
  mret (n, to_close).

(** [withdraw]. *)
Definition withdraw (datasource : pystr) : reg (bool * option nat) :=
  r ← get_st;
  match published_for datasource r with
  | None => mret (false, None)
  | Some (alias, n) =>
      modify (fun r => r <| published ::= delete alias |>);;
      to_close ← retire n;
      mret (true, to_close)
  end.

(** ** Sessions *)

(** [open_session], up to the connection: the session's lock is held. *)
Definition admit_session (alias : pystr) : reg nat :=
  r ← get_st;
  guard_st (closing r) Unavailable;;
  guard_st (max_sessions (limits r) <=? Z.of_nat (size (sessions r))) Busy;;
  match published r !! alias with
  | None => raise_st Unavailable
  | Some n =>
      g ← the_generation n;
      guard_st (g_retired g || g_closed g) Unavailable;;
      guard_st (g_disposed g) Unavailable;;
      guard_st (g_limit g <=? count (ds_sessions r) (g_datasource g)) Busy;;
      let i := next_lease r in
      modify (set_lease i {| l_generation := n; l_closed := false; l_terminating := false; l_adapter_closed := false;
                             l_phase := Connecting |});;
      modify (set_generation n (g <| g_sessions ::= Z.add 1 |>));;
      modify (fun r => r <| ds_sessions ::= bump (g_datasource g) |> <| sessions ::= union {[ i ]} |> <| next_lease ::= S |>);;
      mret i
  end.

(** [_release]. *)
Definition release (i : nat) : reg (option nat) :=
  r ← get_st;
  if negb (bool_decide (i ∈ sessions r)) then mret None
  else
    modify (fun r => r <| sessions ::= fun s => s ∖ {[ i ]} |>);;
    l ← the_lease i;
    g ← the_generation (l_generation l);
    modify (set_generation (l_generation l) (g <| g_sessions ::= Z.add (-1) |>));;
    modify (fun r => r <| ds_sessions ::= drop_one (g_datasource g) |>);;
    take_closable (l_generation l).

(** [_close_locked], up to the adapter's close. *)
Definition close_locked (h : holder) (l : lease) : lease :=
  if l_closed l then l <| l_phase := Unlocking h |> else l <| l_closed := true |> <| l_phase := Closing h |>.

(** [_dispose]. *)
Definition dispose (n : nat) : reg unit :=
  g ← the_generation n;
  modify (set_generation n (g <| g_disposed := true |>)).

(** ** Shutdown *)

(** [begin_shutdown]. *)
Definition begin_shutdown : reg unit := modify (fun r => r <| closing := true |>).

(** [close], its first critical section: the sessions to end, or nothing when
    the registry is closed. *)
Definition shutdown_begin : reg (option (list nat)) :=
  r ← get_st;
  if closed r then mret None
  else begin_shutdown;; mret (Some (elements (sessions r))).

(** The generations left, marked; those to dispose. *)
Fixpoint mark_closed (pending : list nat) : reg (list nat) :=
  match pending with
  | [] => mret []
  | n :: pending =>
      g ← the_generation n;
      if g_closed g then mark_closed pending
      else
        modify (set_generation n (g <| g_retired := true |> <| g_closed := true |>));;
        rest ← mark_closed pending;
        mret (n :: rest)
  end.

(** Its last one, once no session and no candidate is left. *)
Definition shutdown_end : reg (list nat) :=
  r ← get_st;
  let pending := (map_to_list (published r)).*2 ++ retired r in
  modify (fun r => r <| published := ∅ |> <| retired := [] |> <| ds_retired := ∅ |>);;
  disposing ← mark_closed pending;
  modify (fun r => r <| closed := true |>);;
  mret disposing.

(** ** What the operations do *)

Ltac run_reg := unfold guard_st, raise_st, lift_res, modify, mbind, st_bind, mret, st_ret, get_st; cbn beta iota.

Definition closed_generation (n : nat) (g : generation) (r : registry) : registry :=
  set_generation n (g <| g_closed := true |>) r <| retired ::= remove_first n |> <| ds_retired ::= drop_one (g_datasource g) |>.

Definition closable (g : generation) : bool := g_retired g && negb (0 <? g_sessions g) && negb (g_closed g).

Lemma take_closable_run n g r : generations r !! n = Some g -> (closable g = true -> n ∈ retired r) ->
  take_closable n r = if closable g then (Ok (Some n), closed_generation n g r) else (Ok None, r).
Proof.
  intros G R. unfold take_closable, the_generation. run_reg. rewrite G. unfold closable in *.
  destruct (g_retired g), (0 <? g_sessions g), (g_closed g); cbn [negb orb andb] in *; try reflexivity.
  cbn -[closed_generation]. rewrite bool_decide_eq_true_2 by (apply R; reflexivity). reflexivity.
Qed.

Definition retired_generation (n : nat) (g : generation) (r : registry) : registry :=
  set_generation n (g <| g_retired := true |>) r <| retired ::= fun l => l ++ [n] |> <| ds_retired ::= bump (g_datasource g) |>.

Lemma retire_run n g r : generations r !! n = Some g ->
  retire n r = take_closable n (retired_generation n g r).
Proof. intros G. unfold retire, the_generation. run_reg. rewrite G. reflexivity. Qed.

Definition admitted (n : nat) (g : generation) (r : registry) : registry :=
  let i := next_lease r in
  set_generation n (g <| g_sessions ::= Z.add 1 |>)
    (set_lease i {| l_generation := n; l_closed := false; l_terminating := false; l_adapter_closed := false; l_phase := Connecting |} r)
  <| ds_sessions ::= bump (g_datasource g) |> <| sessions ::= union {[ i ]} |> <| next_lease ::= S |>.

Lemma admit_session_Ok alias i r r' : admit_session alias r = (Ok i, r') ->
  exists n g, published r !! alias = Some n /\ generations r !! n = Some g /\ closing r = false /\
    Z.of_nat (size (sessions r)) < max_sessions (limits r) /\ g_retired g = false /\ g_closed g = false /\ g_disposed g = false /\
    count (ds_sessions r) (g_datasource g) < g_limit g /\ i = next_lease r /\ r' = admitted n g r.
Proof.
  unfold admit_session, the_generation. run_reg. destruct (closing r); cbn beta iota; [discriminate|].
  destruct (Z.leb_spec (max_sessions (limits r)) (Z.of_nat (size (sessions r)))); cbn beta iota; [discriminate|].
  destruct (published r !! alias) as [n|]; cbn beta iota; [|discriminate]. destruct (generations r !! n) as [g|] eqn:G; cbn beta iota; [|discriminate].
  destruct (g_retired g || g_closed g) eqn:C; cbn beta iota; [discriminate|]. destruct (g_disposed g) eqn:Di; cbn beta iota; [discriminate|].
  destruct (Z.leb_spec (g_limit g) (count (ds_sessions r) (g_datasource g))); cbn beta iota; [discriminate|].
  intros [= <- <-]. apply orb_false_iff in C as [C1 C2]. exists n, g. repeat split; auto.
Qed.

Definition left_session (i n : nat) (g : generation) (r : registry) : registry :=
  set_generation n (g <| g_sessions ::= Z.add (-1) |>) (r <| sessions ::= fun s => s ∖ {[ i ]} |>)
  <| ds_sessions ::= drop_one (g_datasource g) |>.

Lemma release_run i l g r : i ∈ sessions r -> leases r !! i = Some l -> generations r !! l_generation l = Some g ->
  release i r = take_closable (l_generation l) (left_session i (l_generation l) g r).
Proof.
  intros I Hl G. unfold release, the_lease, the_generation. run_reg. rewrite bool_decide_eq_true_2 by exact I.
  cbn -[take_closable left_session]. rewrite Hl. cbn -[take_closable left_session]. rewrite G. reflexivity.
Qed.

Definition reserved (key : pystr) (datasource : option pystr) (publish slot : bool) (r : registry) : registry :=
  let r1 := if slot then r <| reserved_retired ::= Z.add 1 |> else r in
  set_reservation (next_reservation r)
    {| v_key := key; v_datasource := datasource; v_publish := publish; v_released := false; v_slot := slot |}
    (r1 <| ds_candidates ::= bump key |> <| candidates ::= Z.add 1 |> <| next_reservation ::= S |>).

Lemma reserve_Ok key datasource publish v r r' : reserve key datasource publish r = (Ok v, r') ->
  closing r = false /\ count (ds_candidates r) key < MAX_CANDIDATES_PER_DATASOURCE /\ candidates r < max_candidates (limits r) /\
  v = next_reservation r /\ exists slot, r' = reserved key datasource publish slot r.
Proof.
  unfold reserve, check_retired_capacity. run_reg. destruct (closing r); cbn beta iota; [discriminate|].
  destruct (Z.leb_spec MAX_CANDIDATES_PER_DATASOURCE (count (ds_candidates r) key)); cbn beta iota; [discriminate|].
  destruct (Z.leb_spec (max_candidates (limits r)) (candidates r)); cbn beta iota; [discriminate|].
  destruct datasource as [i|]; cbn beta iota; [|intros [= <- <-]; repeat split; auto; exists false; reflexivity].
  destruct (publish && _); cbn beta iota; [|intros [= <- <-]; repeat split; auto; exists false; reflexivity].
  destruct (_ <=? count (ds_retired r) i); cbn beta iota; [discriminate|]. destruct (_ <=? _ + _); cbn beta iota; [discriminate|].
  intros [= <- <-]. repeat split; auto. exists true. reflexivity.
Qed.

Definition unreserved (v : nat) (x : reservation) (r : registry) : registry :=
  let r1 := set_reservation v (x <| v_released := true |> <| v_slot := false |>) r
            <| ds_candidates ::= drop_one (v_key x) |> <| candidates ::= Z.add (-1) |> in
  if v_slot x then r1 <| reserved_retired ::= Z.add (-1) |> else r1.

Lemma release_reservation_run v x r : reservations r !! v = Some x ->
  release_reservation v r = (Ok tt, if v_released x then r else unreserved v x r).
Proof.
  intros V. unfold release_reservation, the_reservation. run_reg. rewrite V. destruct (v_released x); [reflexivity|].
  unfold unreserved. destruct (v_slot x); reflexivity.
Qed.

(** The publication, before the old generation is retired. *)
Definition slot_used (v : nat) (x : reservation) (r : registry) : registry :=
  set_reservation v (x <| v_slot := false |>) r <| reserved_retired ::= Z.add (-1) |>.

Definition new_generation (datasource alias : pystr) (revision limit : Z) : generation :=
  {| g_datasource := datasource; g_alias := alias; g_record_revision := revision; g_limit := limit; g_sessions := 0;
     g_retired := false; g_closed := false; g_disposed := false |}.

Definition published_generation (datasource alias : pystr) (revision limit : Z) (r : registry) : registry :=
  set_generation (next_generation r) (new_generation datasource alias revision limit) r
  <| next_generation ::= S |> <| published ::= <[alias := next_generation r]> |>.

Lemma publish_Ok v datasource alias revision limit n c r r' : publish v datasource alias revision limit r = (Ok (n, c), r') ->
  exists x, reservations r !! v = Some x /\ v_publish x = true /\ v_released x = false /\ closed r = false /\ n = next_generation r /\
    (forall a m, published r !! a = Some m -> g_datasource <$> generations r !! m = Some datasource -> a = alias) /\
    match published r !! alias with
    | None => c = None /\ r' = published_generation datasource alias revision limit r
    | Some o => g_datasource <$> generations r !! o = Some datasource /\
        (v_slot x = false -> count (ds_retired r) datasource < MAX_RETIRED_PER_DATASOURCE /\
           Z.of_nat (length (retired r)) + reserved_retired r < max_retired (limits r)) /\
        retire o (published_generation datasource alias revision limit (if v_slot x then slot_used v x r else r)) = (Ok c, r')
    end.
Proof.
  unfold publish, the_reservation, check_retired_capacity. run_reg. destruct (reservations r !! v) as [x|] eqn:V; cbn beta iota; [|discriminate].
  destruct (negb (v_publish x) || v_released x) eqn:E1; cbn beta iota; [discriminate|]. apply orb_false_iff in E1 as [E1 E2].
  apply negb_false_iff in E1. destruct (closed r) eqn:Cl; cbn beta iota; [discriminate|].
  destruct (match published r !! alias with Some m => negb (bool_decide _) | None => false end) eqn:E3; cbn beta iota; [discriminate|].
  destruct (existsb _ _) eqn:E4; cbn beta iota; [discriminate|].
  assert (U : forall a m, published r !! a = Some m -> g_datasource <$> generations r !! m = Some datasource -> a = alias).
  { intros a m P Ds. apply dec_stable. intros Ne. apply (proj2 (not_true_iff_false _)) in E4. apply E4.
    apply existsb_exists. exists (a, m). split; [apply list_elem_of_In, elem_of_map_to_list; exact P|].
    cbn. rewrite bool_decide_eq_true_2 by exact Ds. rewrite bool_decide_eq_false_2 by exact Ne. reflexivity. }
  intros H. exists x. split; [reflexivity|]. split; [exact E1|]. split; [exact E2|]. split; [reflexivity|].
  destruct (published r !! alias) as [o|].
  - apply negb_false_iff, bool_decide_eq_true in E3. destruct (v_slot x) eqn:Sl.
    + match type of H with context [retire o ?r0] => change r0 with (published_generation datasource alias revision limit (slot_used v x r)) in H end.
      destruct (retire o _) as [[c0|e] r1] eqn:Re; cbn beta iota; [|discriminate]. injection H as <- <- <-. split; [reflexivity|]. split; [exact U|].
      split; [exact E3|]. split; [discriminate|reflexivity].
    + destruct (Z.leb_spec MAX_RETIRED_PER_DATASOURCE (count (ds_retired r) datasource)); cbn beta iota; [discriminate|].
      destruct (Z.leb_spec (max_retired (limits r)) (Z.of_nat (length (retired r)) + reserved_retired r)); cbn beta iota; [discriminate|].
      match type of H with context [retire o ?r0] => change r0 with (published_generation datasource alias revision limit r) in H end.
      destruct (retire o _) as [[c0|e] r1] eqn:Re; cbn beta iota; [|discriminate]. injection H as <- <- <-. split; [reflexivity|]. split; [exact U|].
      split; [exact E3|]. split; [auto|reflexivity].
  - injection H as <- <- <-. split; [reflexivity|]. split; [exact U|]. split; reflexivity.
Qed.

Lemma published_for_Some i r a n : published_for i r = Some (a, n) ->
  published r !! a = Some n /\ exists g, generations r !! n = Some g /\ g_datasource g = i.
Proof.
  unfold published_for. intros H. apply find_some in H as [H E]. apply list_elem_of_In, elem_of_map_to_list in H. split; [exact H|].
  cbn in E. destruct (generations r !! n) as [g|]; cbn beta iota; [|discriminate]. apply bool_decide_eq_true in E. eauto.
Qed.

Lemma published_for_None i r : published_for i r = None ->
  forall a n g, published r !! a = Some n -> generations r !! n = Some g -> g_datasource g <> i.
Proof.
  unfold published_for. intros H a n g P G E.
  assert (X : In (a, n) (map_to_list (published r))) by (apply list_elem_of_In, elem_of_map_to_list; exact P).
  apply (find_none _ _ H) in X. cbn in X. rewrite G, bool_decide_eq_true_2 in X by exact E. discriminate.
Qed.

Lemma withdraw_Ok i b c r r' : withdraw i r = (Ok (b, c), r') ->
  (b = false /\ c = None /\ r' = r /\ published_for i r = None) \/
  (b = true /\ exists a n, published_for i r = Some (a, n) /\ retire n (r <| published ::= delete a |>) = (Ok c, r')).
Proof.
  unfold withdraw. run_reg. destruct (published_for i r) as [[a n]|]; [|intros [= <- <- <-]; left; auto].
  intros H. right. change (modify (fun r => r <| published ::= delete a |>) r) with (Ok tt : res registry_error unit, r <| published ::= delete a |>) in H.
  cbn iota in H. destruct (retire n _) as [[c0|e] r1] eqn:Re; cbn beta iota; [|discriminate]. injection H as <- <- <-. eauto.
Qed.

(** The last critical section of [close], when nothing pending is closed. *)
Definition mark (g : generation) : generation := g <| g_retired := true |> <| g_closed := true |>.

Definition marked (l : list nat) (r : registry) : registry :=
  r <| generations ::= fun m => foldr (fun n m => alter mark n m) m l |>.

Lemma marked_lookup l r n : NoDup l -> generations (marked l r) !! n = if decide (n ∈ l) then mark <$> generations r !! n else generations r !! n.
Proof.
  intros Nd. cbn [generations marked]. change (generations (marked l r)) with (foldr (fun n m => alter mark n m) (generations r) l).
  induction l as [|x l IH]; cbn [foldr]; [destruct (decide _) as [H|]; [inversion H|reflexivity]|].
  apply NoDup_cons in Nd as [Nx Nd]. specialize (IH Nd). destruct (decide (n = x)) as [->|Ne].
  - rewrite lookup_alter_eq, IH. rewrite decide_False by exact Nx. rewrite decide_True by left. reflexivity.
  - rewrite lookup_alter_ne by congruence. rewrite IH. destruct (decide (n ∈ l)) as [H|H].
    + rewrite decide_True by (right; exact H). reflexivity.
    + rewrite decide_False; [reflexivity|]. intros X. apply elem_of_cons in X as [->|X]; contradiction.
Qed.

Lemma marked_cons n l r g : n ∉ l -> generations r !! n = Some g ->
  marked l (set_generation n (mark g) r) = marked (n :: l) r.
Proof.
  intros Nl G. unfold marked, set_generation, set, const. cbn. f_equal.
  assert (E : <[n := mark g]> (generations r) = alter mark n (generations r)).
  { apply map_eq. intros m. destruct (decide (n = m)) as [->|Ne].
    - rewrite lookup_insert_eq, lookup_alter_eq, G. reflexivity.
    - rewrite lookup_insert_ne, lookup_alter_ne by exact Ne. reflexivity. }
  rewrite E. clear E G. induction l as [|x l IH]; [reflexivity|]. cbn [foldr]. rewrite IH by (intros X; apply Nl; right; exact X).
  apply map_eq. intros m. assert (x <> n) by (intros ->; apply Nl; left). rewrite !lookup_alter. repeat case_decide; subst; auto; contradiction.
Qed.

Lemma mark_closed_run l : forall r, NoDup l -> (forall n, n ∈ l -> exists g, generations r !! n = Some g /\ g_closed g = false) ->
  mark_closed l r = (Ok l, marked l r).
Proof.
  induction l as [|n l IH]; intros r Nd H; [destruct r; reflexivity|]. apply NoDup_cons in Nd as [Nl Nd].
  destruct (H n ltac:(left)) as (g & G & C). cbn [mark_closed]. unfold the_generation. run_reg. rewrite G. cbn beta iota. rewrite C.
  change (g <| g_retired := true |> <| g_closed := true |>) with (mark g). rewrite IH; [rewrite (marked_cons n l r g Nl G); reflexivity|exact Nd|].
  intros m Hm. destruct (H m ltac:(right; exact Hm)) as (h & Gh & Ch). exists h. split; [|exact Ch].
  cbn. rewrite lookup_insert_ne; [exact Gh|]. intros ->. contradiction.
Qed.

Definition pending (r : registry) : list nat := (map_to_list (published r)).*2 ++ retired r.

Definition shut (r : registry) : registry :=
  marked (pending r) (r <| published := ∅ |> <| retired := [] |> <| ds_retired := ∅ |>) <| closed := true |>.

Lemma shutdown_end_run r : NoDup (pending r) ->
  (forall n, n ∈ pending r -> exists g, generations r !! n = Some g /\ g_closed g = false) ->
  shutdown_end r = (Ok (pending r), shut r).
Proof.
  intros Nd H. unfold shutdown_end. run_reg. fold (pending r). rewrite mark_closed_run; [reflexivity|exact Nd|exact H].
Qed.

