(* ===== verification/DatasourceDrain.v ===== *)
(** * DatasourceDrain: sessions, generations and shutdown interleaved

    The threads of [runtime/datasources.py] as a step relation over the
    operations of DatasourceRegistry: the sessions' holders, the administrator
    and the thread that runs [close] take turns at every critical section and
    every step of a session under its own lock.  What holds in every state
    they reach: the counters count, a generation closes exactly once and only
    when its last session left it, and the shutdown ends.

    A label tells the steps that open new work from those that bring work
    already begun to its end, and from the repetitions that change nothing
    (the cancellation repeated every second, a second release). *)

From S2P Require Import Prelude DatasourceRegistry.
From coqutil Require Import Datatypes.RecordSettersUsingExistingGetters.

Local Open Scope Z_scope.

(** ** Steps *)

(** Where the thread that runs [close] is: asking the sessions left to end,
    waiting for each, waiting for the last release; [all] are those it found. *)
Inductive point := Idle | Requesting (todo all : list nat) | Finishing (todo : list nat) | Waiting | Done.

(** The registry, that thread, and the generations about to be disposed. *)
Record system := { reg_of : registry; closer : point; to_dispose : list nat }.

Definition initial_system (l : RegistryLimits) : system := {| reg_of := new_registry l; closer := Idle; to_dispose := [] |}.

(** The shutdown holds no session's lock. *)
Definition held_by_shutdown (l : lease) : bool :=
  match l_phase l with Closing h | Releasing h | Unlocking h => bool_decide (h = Shutdown) | _ => false end.

Definition shutdown_free (r : registry) : Prop := map_Forall (fun _ l => held_by_shutdown l = false) (leases r).

Definition at_registry (r : registry) (s : system) : system := {| reg_of := r; closer := closer s; to_dispose := to_dispose s |}.
Definition at_lease (i : nat) (l : lease) (s : system) : system := at_registry (set_lease i l (reg_of s)) s.
Definition disposing (c : option nat) (r : registry) (s : system) : system :=
  {| reg_of := r; closer := closer s; to_dispose := option_list c ++ to_dispose s |}.

Inductive kind := Opens | Ends | Waits.

(** A session's own steps, given where its lock is held: the connection made
    or refused, the lock released, [use] entered and left, [close] called, the
    adapter closed. *)
Inductive lease_moves : kind -> lease -> lease -> Prop :=
| connects l (connected : bool) : l_phase l = Connecting ->
    lease_moves Ends l (if connected && negb (l_terminating l) then l <| l_phase := Connected |> else close_locked Session l)
| unlocks l : match l_phase l with Connected | Leaving | Unlocking _ => True | _ => False end ->
    lease_moves Ends l (l <| l_phase := Free |>)
| uses l : l_phase l = Free ->
    lease_moves Opens l (if l_closed l || l_terminating l then close_locked Session l else l <| l_phase := InUse |>)
| leaves l : l_phase l = InUse ->
    lease_moves Ends l (if l_terminating l then close_locked Session l else l <| l_phase := Leaving |>)
| closes l : l_phase l = Free -> lease_moves Opens l (close_locked Session l)
| adapter_closes l h : l_phase l = Closing h -> lease_moves Ends l (l <| l_adapter_closed := true |> <| l_phase := Releasing h |>).

(** What the shutdown does to a session: to one whose lock is free, and to
    one in use, which it asks to end and cancels. *)
Definition terminated (l : lease) : lease := close_locked Shutdown (l <| l_terminating := true |>).
Definition requested (l : lease) : lease :=
  if decide (l_phase l = Free) then terminated l else l <| l_terminating := true |>.

Inductive step : kind -> system -> system -> Prop :=
| step_admit s alias i r : admit_session alias (reg_of s) = (Ok i, r) -> step Opens s (at_registry r s)
| step_moves s k i l l' : leases (reg_of s) !! i = Some l -> lease_moves k l l' -> step k s (at_lease i l' s)
| step_release s i l h c r : leases (reg_of s) !! i = Some l -> l_phase l = Releasing h ->
    release i (set_lease i (l <| l_phase := Unlocking h |>) (reg_of s)) = (Ok c, r) -> step Ends s (disposing c r s)
| step_reserve s key datasource publish v r :
    reserve key datasource publish (reg_of s) = (Ok v, r) -> step Opens s (at_registry r s)
| step_release_reservation s v x r : reservations (reg_of s) !! v = Some x ->
    release_reservation v (reg_of s) = (Ok tt, r) -> step (if v_released x then Waits else Ends) s (at_registry r s)
| step_publish s v datasource alias revision limit n c r :
    publish v datasource alias revision limit (reg_of s) = (Ok (n, c), r) -> step Opens s (disposing c r s)
| step_withdraw s datasource b c r : withdraw datasource (reg_of s) = (Ok (b, c), r) -> step Opens s (disposing c r s)
| step_dispose s n pre post r : to_dispose s = pre ++ n :: post -> dispose n (reg_of s) = (Ok tt, r) ->
    step Ends s {| reg_of := r; closer := closer s; to_dispose := pre ++ post |}
| step_begin s r : begin_shutdown (reg_of s) = (Ok tt, r) -> step Opens s (at_registry r s)
| step_shutdown s l r : closer s = Idle -> shutdown_begin (reg_of s) = (Ok (Some l), r) ->
    step Opens s {| reg_of := r; closer := Requesting l l; to_dispose := to_dispose s |}
| step_request s i todo all l : closer s = Requesting (i :: todo) all -> shutdown_free (reg_of s) ->
    leases (reg_of s) !! i = Some l ->
    step Ends s {| reg_of := set_lease i (requested l) (reg_of s); closer := Requesting todo all; to_dispose := to_dispose s |}
| step_requested s all : closer s = Requesting [] all -> shutdown_free (reg_of s) ->
    step Ends s {| reg_of := reg_of s; closer := Finishing all; to_dispose := to_dispose s |}
| step_recancel s i todo l : closer s = Finishing (i :: todo) -> shutdown_free (reg_of s) ->
    leases (reg_of s) !! i = Some l -> l_phase l <> Free -> step Waits s (at_lease i (l <| l_terminating := true |>) s)
| step_finish s i todo l : closer s = Finishing (i :: todo) -> shutdown_free (reg_of s) ->
    leases (reg_of s) !! i = Some l -> l_phase l = Free ->
    step Ends s {| reg_of := set_lease i (terminated l) (reg_of s); closer := Finishing todo; to_dispose := to_dispose s |}
| step_finished s : closer s = Finishing [] -> shutdown_free (reg_of s) ->
    step Ends s {| reg_of := reg_of s; closer := Waiting; to_dispose := to_dispose s |}
| step_end s l r : closer s = Waiting -> sessions (reg_of s) = ∅ -> candidates (reg_of s) = 0 ->
    shutdown_end (reg_of s) = (Ok l, r) ->
    step Ends s {| reg_of := r; closer := Done; to_dispose := l ++ to_dispose s |}.

Definition any_step (s s' : system) : Prop := exists k, step k s s'.

(** The states reached from a new registry. *)
Definition reachable (l : RegistryLimits) (s : system) : Prop := rtc any_step (initial_system l) s.
(** ** Counting *)

Definition tally (f : nat -> bool) (X : gset nat) : Z := Z.of_nat (size (filter (fun i => f i = true) X)).

Lemma tally_empty f : tally f ∅ = 0.
Proof. unfold tally. rewrite filter_empty_L by apply _. reflexivity. Qed.

Lemma tally_add f i X : i ∉ X -> tally f ({[ i ]} ∪ X) = (if f i then 1 else 0) + tally f X.
Proof.
  intros H. unfold tally. destruct (f i) eqn:E.
  - replace (filter _ ({[ i ]} ∪ X)) with ({[ i ]} ∪ filter (fun j => f j = true) X) by set_solver.
    rewrite size_union, size_singleton; [lia|set_solver].
  - replace (filter _ ({[ i ]} ∪ X)) with (filter (fun j => f j = true) X); [reflexivity|].
    apply set_eq. intros j. rewrite !elem_of_filter, elem_of_union, elem_of_singleton. split; [tauto|]. intros [F [->|J]]; [congruence|auto].
Qed.

Lemma tally_remove f i X : i ∈ X -> tally f X = (if f i then 1 else 0) + tally f (X ∖ {[ i ]}).
Proof. intros H. rewrite (union_difference_singleton_L i X H) at 1. apply tally_add. set_solver. Qed.

Lemma tally_ext f g X : (forall i, i ∈ X -> f i = g i) -> tally f X = tally g X.
Proof.
  intros H. unfold tally. f_equal. f_equal. apply set_eq. intros i. rewrite !elem_of_filter. split; intros [E Hi]; rewrite H in *; auto.
Qed.

Lemma tally_nonneg f X : 0 <= tally f X.
Proof. unfold tally. lia. Qed.

Lemma tally_pos f i X : i ∈ X -> f i = true -> 0 < tally f X.
Proof. intros H E. rewrite (tally_remove f i X H), E. pose proof (tally_nonneg f (X ∖ {[i]})). lia. Qed.

Lemma count_bump k c k' : count (bump k c) k' = if decide (k = k') then count c k' + 1 else count c k'.
Proof. unfold count, bump. destruct (decide (k = k')) as [->|Ne]; [rewrite lookup_insert_eq|rewrite lookup_insert_ne by exact Ne]; reflexivity. Qed.

Lemma count_drop k c k' : 0 < count c k -> count (drop_one k c) k' = if decide (k = k') then count c k' - 1 else count c k'.
Proof.
  unfold drop_one. intros H. cbv zeta. destruct (Z.leb_spec (count c k - 1) 0) as [L|L]; unfold count in *.
  - destruct (decide (k = k')) as [->|Ne]; [rewrite lookup_delete_eq; cbn; lia|rewrite lookup_delete_ne by exact Ne; reflexivity].
  - destruct (decide (k = k')) as [->|Ne]; [rewrite lookup_insert_eq; reflexivity|rewrite lookup_insert_ne by exact Ne; reflexivity].
Qed.

(** Numbers of a list that satisfy a test. *)
Definition tally_list (f : nat -> bool) (l : list nat) : Z := Z.of_nat (length (filter (fun n => f n = true) l)).

Lemma tally_list_app f l k : tally_list f (l ++ k) = tally_list f l + tally_list f k.
Proof. unfold tally_list. rewrite filter_app, length_app. lia. Qed.

Lemma tally_list_one f n : tally_list f [n] = if f n then 1 else 0.
Proof. unfold tally_list. rewrite filter_cons. destruct (f n); cbn; reflexivity. Qed.

Lemma tally_list_remove f n l : n ∈ l -> tally_list f l = (if f n then 1 else 0) + tally_list f (remove_first n l).
Proof.
  unfold tally_list. induction l as [|m l IH]; intros H; [inversion H|]. cbn [remove_first].
  destruct (Nat.eqb_spec m n) as [->|Ne]; [rewrite filter_cons; destruct (f n) eqn:F; [rewrite decide_True by reflexivity|rewrite decide_False by discriminate]; rewrite ?length_cons; lia|].
  apply elem_of_cons in H as [->|H]; [congruence|]. rewrite !filter_cons. specialize (IH H). destruct (decide (f m = true)); rewrite ?length_cons; lia.
Qed.

Lemma tally_list_ext f g l : (forall n, n ∈ l -> f n = g n) -> tally_list f l = tally_list g l.
Proof.
  intros H. unfold tally_list. f_equal. induction l as [|m l IH]; [reflexivity|]. rewrite !filter_cons, H by left.
  destruct (decide (g m = true)); cbn; rewrite IH; auto; intros j Hj; apply H; right; exact Hj.
Qed.



(** The entries of a map that satisfy a test. *)
Definition holds {A} (f : A -> bool) (m : gmap nat A) (v : nat) : bool := match m !! v with Some x => f x | None => false end.
Definition total {A} (f : A -> bool) (m : gmap nat A) : Z := tally (holds f m) (dom m).

Lemma total_new {A} (f : A -> bool) m v x : m !! v = None -> total f (<[v := x]> m) = (if f x then 1 else 0) + total f m.
Proof.
  intros N. unfold total. rewrite dom_insert_L, tally_add by (apply not_elem_of_dom; exact N). f_equal.
  - unfold holds. rewrite lookup_insert_eq. reflexivity.
  - apply tally_ext. intros w W. unfold holds. rewrite lookup_insert_ne; [reflexivity|]. intros <-. apply elem_of_dom in W as [y Y]. congruence.
Qed.

Lemma total_set {A} (f : A -> bool) m v x y : m !! v = Some y ->
  total f (<[v := x]> m) = total f m + (if f x then 1 else 0) - (if f y then 1 else 0).
Proof.
  intros Y. rewrite <- (insert_delete_id m v y Y) at 2. rewrite <- insert_delete_eq.
  rewrite !total_new by apply lookup_delete_eq. lia.
Qed.

Lemma total_pos {A} (f : A -> bool) m : 0 < total f m -> exists v x, m !! v = Some x /\ f x = true.
Proof.
  unfold total, tally. intros H. destruct (set_choose_or_empty (filter (fun v => holds f m v = true) (dom m))) as [[v V]|E].
  - apply elem_of_filter in V as [V _]. unfold holds in V. exists v. destruct (m !! v); [eauto|discriminate].
  - rewrite size_empty_iff in E || (apply size_empty_iff in E). lia.
Qed.

Lemma total_nonneg {A} (f : A -> bool) m : 0 <= total f m.
Proof. apply tally_nonneg. Qed.


(** ** Sessions *)

(** Which flags go with which phase; a session is counted until its release. *)
Definition consistent (l : lease) : Prop :=
  match l_phase l with
  | Connecting | Connected | InUse | Leaving => l_closed l = false /\ l_adapter_closed l = false
  | Closing _ => l_closed l = true /\ l_adapter_closed l = false
  | Releasing _ | Unlocking _ => l_closed l = true /\ l_adapter_closed l = true
  | Free => l_adapter_closed l = l_closed l
  end.

Definition ending (l : lease) : bool := match l_phase l with Closing _ | Releasing _ => true | _ => false end.
Definition counted (l : lease) : bool := negb (l_closed l) || ending l.

(** A session was admitted on a generation; on one of a datasource. *)
Definition on_generation (r : registry) (n : nat) (i : nat) : bool :=
  match leases r !! i with Some l => bool_decide (l_generation l = n) | None => false end.
Definition of_datasource (r : registry) (k : pystr) (n : nat) : bool :=
  match generations r !! n with Some g => bool_decide (g_datasource g = k) | None => false end.
Definition on_datasource (r : registry) (k : pystr) (i : nat) : bool :=
  match leases r !! i with Some l => of_datasource r k (l_generation l) | None => false end.

Record sessions_ok (r : registry) : Prop := {
  so_lease i l : leases r !! i = Some l ->
    consistent l /\ is_Some (generations r !! l_generation l) /\ (i ∈ sessions r <-> counted l = true) /\ (i < next_lease r)%nat;
  so_session i : i ∈ sessions r -> is_Some (leases r !! i);
  so_generation n g : generations r !! n = Some g -> g_sessions g = tally (on_generation r n) (sessions r);
  so_datasource k : count (ds_sessions r) k = tally (on_datasource r k) (sessions r);
  so_global : Z.of_nat (size (sessions r)) <= max_sessions (limits r);
}.

(** What a change of a session's lock keeps of it. *)
Definition session_kept (l l' : lease) : Prop :=
  consistent l' /\ counted l' = counted l /\ l_generation l' = l_generation l.

Lemma close_locked_same h l l1 : consistent l -> l_phase l = Free \/ l_closed l = false ->
  l_closed l1 = l_closed l -> l_adapter_closed l1 = l_adapter_closed l -> l_generation l1 = l_generation l ->
  session_kept l (close_locked h l1).
Proof.
  destruct l as [n c t a p], l1 as [n1 c1 t1 a1 p1]. unfold session_kept, consistent, counted, ending, close_locked. cbn.
  intros C P -> -> ->. destruct c; cbn in *; [|destruct p; intuition congruence]. destruct P as [->|]; [|discriminate]. rewrite C. auto.
Qed.

Lemma moves_same k l l' : lease_moves k l l' -> consistent l -> session_kept l l'.
Proof.
  intros M C. destruct M as [l c P|l P|l P|l P|l P|l h P].
  - destruct (c && negb (l_terminating l)); [|apply close_locked_same; auto; right; unfold consistent in C; rewrite P in C; apply C].
    unfold session_kept, consistent, counted, ending in *. rewrite P in C. cbn. rewrite P. auto.
  - unfold session_kept, consistent, counted, ending in *. cbn.
    destruct (l_phase l); try contradiction; destruct C as [-> ->]; auto.
  - destruct (_ || _) eqn:E; [apply close_locked_same; auto|]. apply orb_false_iff in E as [E _].
    unfold session_kept, consistent, counted, ending in *. rewrite P, E in *. cbn. rewrite E. auto.
  - assert (l_closed l = false) by (unfold consistent in C; rewrite P in C; apply C).
    destruct (l_terminating l); [apply close_locked_same; auto|]. unfold session_kept, consistent, counted, ending in *. rewrite P in *. cbn. auto.
  - apply close_locked_same; auto.
  - unfold session_kept, consistent, counted, ending in *. rewrite P in *. cbn. destruct C as [-> _]. auto.
Qed.

Lemma marked_same l : consistent l -> session_kept l (l <| l_terminating := true |>).
Proof. intros C. split; [exact C|split; reflexivity]. Qed.

Lemma terminated_same l : consistent l -> l_phase l = Free -> session_kept l (terminated l).
Proof. intros C P. apply close_locked_same; auto. Qed.

Lemma requested_same l : consistent l -> session_kept l (requested l).
Proof. intros C. unfold requested. destruct (decide _); [apply terminated_same|apply marked_same]; assumption. Qed.

Lemma sessions_lease r i l l' : sessions_ok r -> leases r !! i = Some l -> session_kept l l' -> sessions_ok (set_lease i l' r).
Proof.
  intros R L (C & K & G).
  assert (OG : forall n j, on_generation (set_lease i l' r) n j = on_generation r n j).
  { intros n j. unfold on_generation. cbn. destruct (decide (i = j)) as [<-|Ne]; [|rewrite lookup_insert_ne by exact Ne; reflexivity].
    rewrite lookup_insert_eq, L, G. reflexivity. }
  assert (OD : forall n j, on_datasource (set_lease i l' r) n j = on_datasource r n j).
  { intros n j. unfold on_datasource. cbn. destruct (decide (i = j)) as [<-|Ne]; [|rewrite lookup_insert_ne by exact Ne; reflexivity].
    rewrite lookup_insert_eq, L, G. reflexivity. }
  split; cbn.
  - intros j m. destruct (decide (i = j)) as [<-|Ne]; [rewrite lookup_insert_eq|rewrite lookup_insert_ne by exact Ne; apply R].
    intros [= <-]. destruct (so_lease r R i l L) as (_ & ? & ? & ?). rewrite K, G. auto.
  - intros j J. destruct (decide (i = j)) as [<-|Ne]; [rewrite lookup_insert_eq; eauto|rewrite lookup_insert_ne by exact Ne; apply R, J].
  - intros n g Hg. rewrite (so_generation r R n g Hg). apply tally_ext. intros j _. symmetry. apply OG.
  - intros k. rewrite (so_datasource r R k). apply tally_ext. intros j _. symmetry. apply OD.
  - apply R.
Qed.

(** A registry whose generations kept their sessions; a new one has none. *)
Record grown (r r' : registry) : Prop := {
  gr_leases : leases r' = leases r;
  gr_sessions : sessions r' = sessions r;
  gr_counts : ds_sessions r' = ds_sessions r;
  gr_next : next_lease r' = next_lease r;
  gr_limits : limits r' = limits r;
  gr_kept n g : generations r !! n = Some g ->
    exists g', generations r' !! n = Some g' /\ g_datasource g' = g_datasource g /\ g_sessions g' = g_sessions g;
  gr_new n g' : generations r' !! n = Some g' -> generations r !! n = None -> g_sessions g' = 0;
}.

#[export] Instance grown_trans : Transitive grown.
Proof.
  intros r r1 r2 [A1 A2 A3 A4 A5 A6 A7] [B1 B2 B3 B4 B5 B6 B7]. split; try congruence.
  - intros n g G. destruct (A6 n g G) as (g1 & G1 & D1 & S1). destruct (B6 n g1 G1) as (g2 & G2 & D2 & S2).
    exists g2. split; [exact G2|]. split; congruence.
  - intros n g' G' N. destruct (generations r1 !! n) as [g1|] eqn:G1; [|exact (B7 n g' G' G1)].
    destruct (B6 n g1 G1) as (g2 & G2 & _ & S2). rewrite G' in G2. injection G2 as <-. rewrite S2. exact (A7 n g1 G1 N).
Qed.

Lemma tally_none f X : (forall i, i ∈ X -> f i = false) -> tally f X = 0.
Proof.
  intros H. unfold tally. replace (filter _ X) with (∅ : gset nat); [reflexivity|]. apply set_eq. intros i.
  rewrite elem_of_filter. split; [intros E; inversion E|]. intros [F I]. rewrite (H i I) in F. discriminate.
Qed.

Lemma sessions_grown r r' : sessions_ok r -> grown r r' -> sessions_ok r'.
Proof.
  intros R [E1 E2 E3 E4 E5 E6 E7]. split.
  - intros i l. rewrite E1, E2, E4. intros L. destruct (so_lease r R i l L) as (C & [g G] & I & N).
    destruct (E6 _ g G) as (g' & G' & _). repeat split; [exact C|eauto|apply I|apply I|exact N].
  - intros i. rewrite E1, E2. apply R.
  - intros n g' G'. rewrite E2. destruct (generations r !! n) as [g|] eqn:G.
    + destruct (E6 n g G) as (g2 & G2 & _ & S2). rewrite G' in G2. injection G2 as <-. rewrite S2, (so_generation r R n g G).
      apply tally_ext. intros i _. unfold on_generation. rewrite E1. reflexivity.
    + rewrite (E7 n g' G' G). symmetry. apply tally_none. intros i I. unfold on_generation. rewrite E1.
      destruct (leases r !! i) as [l|] eqn:L; [|reflexivity]. destruct (so_lease r R i l L) as (_ & [g Hg] & _).
      apply bool_decide_eq_false_2. intros <-. congruence.
  - intros k. rewrite E2, E3, (so_datasource r R k). apply tally_ext. intros i I. unfold on_datasource, of_datasource. rewrite E1.
    destruct (leases r !! i) as [l|] eqn:L; [|reflexivity]. destruct (so_lease r R i l L) as (_ & [g Hg] & _).
    destruct (E6 _ g Hg) as (g' & G' & D & _). rewrite Hg, G', D. reflexivity.
  - rewrite E2, E5. apply R.
Qed.

Lemma grown_set n g g' r : generations r !! n = Some g -> g_datasource g' = g_datasource g -> g_sessions g' = g_sessions g ->
  grown r (set_generation n g' r).
Proof.
  intros G D S. split; try reflexivity; cbn.
  - intros m h H. destruct (decide (n = m)) as [<-|Ne]; [rewrite lookup_insert_eq|rewrite lookup_insert_ne by exact Ne; eauto].
    rewrite G in H. injection H as <-. eauto.
  - intros m h H N. rewrite lookup_insert_ne in H by congruence. congruence.
Qed.

(** Only the listed fields matter. *)
Lemma grown_same r r' : leases r' = leases r -> sessions r' = sessions r -> ds_sessions r' = ds_sessions r ->
  next_lease r' = next_lease r -> limits r' = limits r -> generations r' = generations r -> grown r r'.
Proof. intros. split; auto; [intros n g G; exists g; split; [congruence|auto]|intros n g G N; congruence]. Qed.

(** *** A session admitted *)

Section Admission.
Context (r : registry) (n : nat) (g : generation).
Hypothesis R : sessions_ok r.
Hypothesis G : generations r !! n = Some g.

Lemma fresh_lease : leases r !! next_lease r = None.
Proof. destruct (leases r !! next_lease r) as [l|] eqn:L; [|reflexivity]. apply R in L as (_ & _ & _ & L). lia. Qed.

Lemma fresh_session : next_lease r ∉ sessions r.
Proof. intros I. apply R in I as [l L]. rewrite fresh_lease in L. discriminate. Qed.

Lemma admitted_new : leases (admitted n g r) !! next_lease r =
  Some {| l_generation := n; l_closed := false; l_terminating := false; l_adapter_closed := false; l_phase := Connecting |}.
Proof. apply lookup_insert_eq. Qed.

Lemma admitted_old j : j <> next_lease r -> leases (admitted n g r) !! j = leases r !! j.
Proof. intros Ne. apply lookup_insert_ne. congruence. Qed.

Lemma session_old j : j ∈ sessions r -> leases (admitted n g r) !! j = leases r !! j.
Proof. intros J. apply admitted_old. intros ->. exact (fresh_session J). Qed.

Lemma admitted_generation m h : generations (admitted n g r) !! m = Some h ->
  exists h0, generations r !! m = Some h0 /\ g_sessions h = (if bool_decide (n = m) then 1 else 0) + g_sessions h0.
Proof.
  cbn. destruct (decide (n = m)) as [<-|Ne]; [rewrite lookup_insert_eq; intros [= <-]|rewrite lookup_insert_ne by exact Ne; intros H].
  - exists g. rewrite bool_decide_eq_true_2 by reflexivity. auto.
  - exists h. rewrite bool_decide_eq_false_2 by exact Ne. auto.
Qed.

Lemma admitted_datasource k m : of_datasource (admitted n g r) k m = of_datasource r k m.
Proof.
  unfold of_datasource. cbn.
  destruct (decide (n = m)) as [<-|Ne]; [rewrite lookup_insert_eq, G|rewrite lookup_insert_ne by exact Ne]; reflexivity.
Qed.

Lemma admitted_counts m h : generations (admitted n g r) !! m = Some h ->
  g_sessions h = tally (on_generation (admitted n g r) m) (sessions (admitted n g r)).
Proof.
  intros H. destruct (admitted_generation m h H) as (h0 & H0 & ->). change (sessions (admitted n g r)) with ({[ next_lease r ]} ∪ sessions r).
  rewrite (tally_add _ _ _ fresh_session), (so_generation r R m h0 H0). f_equal.
  - unfold on_generation. rewrite admitted_new. reflexivity.
  - apply tally_ext. intros j J. unfold on_generation. rewrite session_old by exact J. reflexivity.
Qed.

Lemma admitted_totals k : count (ds_sessions (admitted n g r)) k = tally (on_datasource (admitted n g r) k) (sessions (admitted n g r)).
Proof.
  change (sessions (admitted n g r)) with ({[ next_lease r ]} ∪ sessions r).
  change (ds_sessions (admitted n g r)) with (bump (g_datasource g) (ds_sessions r)).
  rewrite (tally_add _ _ _ fresh_session), count_bump, (so_datasource r R k).
  rewrite (tally_ext (on_datasource (admitted n g r) k) (on_datasource r k)).
  - replace (on_datasource (admitted n g r) k (next_lease r)) with (bool_decide (g_datasource g = k)).
    2:{ unfold on_datasource. rewrite admitted_new. cbn [l_generation]. rewrite admitted_datasource. unfold of_datasource. rewrite G. reflexivity. }
    destruct (decide (g_datasource g = k)) as [->|Ne]; [rewrite bool_decide_eq_true_2|rewrite bool_decide_eq_false_2]; auto; lia.
  - intros j J. unfold on_datasource. rewrite session_old by exact J. destruct (leases r !! j); [apply admitted_datasource|reflexivity].
Qed.

Lemma sessions_admitted : Z.of_nat (size (sessions r)) < max_sessions (limits r) -> sessions_ok (admitted n g r).
Proof.
  intros Sz. pose proof fresh_session as Ni.
  assert (Keep : forall m, is_Some (generations r !! m) -> is_Some (generations (admitted n g r) !! m)).
  { intros m [h H]. cbn. destruct (decide (n = m)) as [<-|Ne]; [rewrite lookup_insert_eq|rewrite lookup_insert_ne by exact Ne]; eauto. }
  split; [| |exact admitted_counts|exact admitted_totals|].
  - intros j l. destruct (decide (j = next_lease r)) as [->|Ne].
    + rewrite admitted_new. intros [= <-]. split; [split; reflexivity|]. split; [apply Keep; eauto|]. split; [cbn; set_solver|]. cbn. lia.
    + rewrite admitted_old by exact Ne. intros L. destruct (so_lease r R j l L) as (C & H & I & N).
      split; [exact C|]. split; [apply Keep, H|]. split; [cbn; set_solver|cbn; lia].
  - intros j J. destruct (decide (j = next_lease r)) as [->|Ne]; [rewrite admitted_new; eauto|].
    rewrite admitted_old by exact Ne. apply R. cbn in J. set_solver.
  - change (sessions (admitted n g r)) with ({[ next_lease r ]} ∪ sessions r). rewrite size_union, size_singleton by set_solver.
    change (limits (admitted n g r)) with (limits r). lia.
Qed.

End Admission.

(** *** A session released *)

Section Release.
Context (r : registry) (i : nat) (l : lease) (h : holder) (g : generation).
Hypothesis R : sessions_ok r.
Hypothesis L : leases r !! i = Some l.
Hypothesis P : l_phase l = Releasing h.
Hypothesis G : generations r !! l_generation l = Some g.

Definition after_release : registry :=
  left_session i (l_generation l) g (set_lease i (l <| l_phase := Unlocking h |>) r).

Lemma releasing_session : i ∈ sessions r.
Proof. apply (so_lease r R i l L). unfold counted, ending. rewrite P. apply orb_true_r. Qed.

Lemma release_generation m : on_generation after_release m i = bool_decide (l_generation l = m).
Proof. unfold on_generation. cbn. rewrite lookup_insert_eq. reflexivity. Qed.

Lemma release_on j m : on_generation after_release m j = on_generation r m j.
Proof.
  destruct (decide (i = j)) as [<-|Ne]; [rewrite release_generation; unfold on_generation; rewrite L; reflexivity|].
  unfold on_generation. cbn. rewrite lookup_insert_ne by exact Ne. reflexivity.
Qed.

Lemma release_of k m : of_datasource after_release k m = of_datasource r k m.
Proof.
  unfold of_datasource. cbn. destruct (decide (l_generation l = m)) as [<-|Ne]; [|rewrite lookup_insert_ne by exact Ne; reflexivity].
  rewrite lookup_insert_eq, G. reflexivity.
Qed.

Lemma release_on_datasource k j : on_datasource after_release k j = on_datasource r k j.
Proof.
  unfold on_datasource. cbn [leases after_release]. destruct (decide (i = j)) as [<-|Ne].
  - replace (leases after_release !! i) with (Some (l <| l_phase := Unlocking h |>)) by (symmetry; apply lookup_insert_eq).
    rewrite L. apply release_of.
  - replace (leases after_release !! j) with (leases r !! j) by (symmetry; apply lookup_insert_ne, Ne).
    destruct (leases r !! j); [apply release_of|reflexivity].
Qed.

Lemma release_sessions m x : generations after_release !! m = Some x ->
  g_sessions x = tally (on_generation after_release m) (sessions after_release).
Proof.
  intros H. change (sessions after_release) with (sessions r ∖ {[ i ]}). rewrite (tally_ext _ (on_generation r m)) by (intros; apply release_on).
  pose proof (tally_remove (on_generation r m) i (sessions r) releasing_session) as T.
  assert (E : on_generation r m i = bool_decide (l_generation l = m)) by (unfold on_generation; rewrite L; reflexivity). rewrite E in T.
  cbn in H. destruct (decide (l_generation l = m)) as [<-|Ne].
  - rewrite lookup_insert_eq in H. injection H as <-. cbn [g_sessions]. change (g_sessions (g <| g_sessions ::= Z.add (-1) |>)) with (-1 + g_sessions g).
    rewrite (so_generation r R _ g G). rewrite bool_decide_eq_true_2 in T by reflexivity. lia.
  - rewrite lookup_insert_ne in H by exact Ne. rewrite (so_generation r R m x H). rewrite bool_decide_eq_false_2 in T by exact Ne. lia.
Qed.

Lemma release_totals k : count (ds_sessions after_release) k = tally (on_datasource after_release k) (sessions after_release).
Proof.
  change (sessions after_release) with (sessions r ∖ {[ i ]}). rewrite (tally_ext _ (on_datasource r k)) by (intros; apply release_on_datasource).
  change (ds_sessions after_release) with (drop_one (g_datasource g) (ds_sessions r)).
  assert (E : forall k, on_datasource r k i = bool_decide (g_datasource g = k)) by (intros k'; unfold on_datasource, of_datasource; rewrite L, G; reflexivity).
  rewrite count_drop.
  2:{ rewrite (so_datasource r R). apply (tally_pos _ i); [exact releasing_session|]. rewrite E. apply bool_decide_eq_true_2. reflexivity. }
  rewrite (so_datasource r R k), (tally_remove (on_datasource r k) i (sessions r) releasing_session), E.
  destruct (decide (g_datasource g = k)) as [->|Ne]; [rewrite bool_decide_eq_true_2|rewrite bool_decide_eq_false_2]; auto; lia.
Qed.

Lemma sessions_released : sessions_ok after_release.
Proof.
  assert (Keep : forall m, is_Some (generations r !! m) -> is_Some (generations after_release !! m)).
  { intros m [x H]. cbn. destruct (decide (l_generation l = m)) as [<-|Ne]; [rewrite lookup_insert_eq|rewrite lookup_insert_ne by exact Ne]; eauto. }
  split; [| |exact release_sessions|exact release_totals|].
  - intros j x. cbn -[counted]. destruct (decide (i = j)) as [<-|Ne]; [rewrite lookup_insert_eq|rewrite lookup_insert_ne by exact Ne].
    + intros [= <-]. destruct (so_lease r R i l L) as (C & H & _ & N). unfold consistent in C. rewrite P in C. destruct C as [C A].
      split; [split; assumption|]. split; [apply Keep, H|]. split; [|exact N]. unfold counted, ending. cbn. rewrite C. cbn. set_solver.
    + intros X. destruct (so_lease r R j x X) as (C & H & I & N). split; [exact C|]. split; [apply Keep, H|]. split; [set_solver|exact N].
  - intros j J. cbn in *. destruct (decide (i = j)) as [<-|Ne]; [rewrite lookup_insert_eq; eauto|].
    rewrite lookup_insert_ne by exact Ne. apply R. set_solver.
  - cbn. pose proof (so_global r R). assert (size (sessions r ∖ {[ i ]}) <= size (sessions r))%nat by (apply subseteq_size; set_solver). lia.
Qed.

(** The generation it leaves counted it. *)
Lemma releasing_positive : 0 < g_sessions g.
Proof.
  rewrite (so_generation r R _ g G). apply (tally_pos _ i); [exact releasing_session|].
  unfold on_generation. rewrite L. apply bool_decide_eq_true_2. reflexivity.
Qed.

End Release.

(** ** Generations *)

(** The published generations are the live ones, one per alias and per
    datasource; the retired ones are those that drain, each with a session,
    [x] apart, whose closing is being decided; a closed one is without session,
    and is disposed or about to be. *)
Record generations_ok (x : option nat) (r : registry) (D : list nat) : Prop := {
  go_fresh n g : generations r !! n = Some g -> (n < next_generation r)%nat;
  go_published a n : published r !! a = Some n -> exists g, generations r !! n = Some g /\ g_alias g = a /\ g_retired g = false;
  go_one a a' n n' g g' : published r !! a = Some n -> published r !! a' = Some n' ->
    generations r !! n = Some g -> generations r !! n' = Some g' -> g_datasource g = g_datasource g' -> a = a';
  go_live n g : generations r !! n = Some g -> g_retired g = false -> published r !! g_alias g = Some n;
  go_retired n : n ∈ retired r <-> exists g, generations r !! n = Some g /\ g_retired g = true /\ g_closed g = false;
  go_nodup : NoDup (retired r);
  go_busy n g : n ∈ retired r -> x <> Some n -> generations r !! n = Some g -> 0 < g_sessions g;
  go_counts k : count (ds_retired r) k = tally_list (of_datasource r k) (retired r);
  go_closed n g : generations r !! n = Some g -> g_closed g = true -> g_retired g = true /\ g_sessions g = 0;
  go_dispose n : n ∈ D <-> exists g, generations r !! n = Some g /\ g_closed g = true /\ g_disposed g = false;
  go_disposed n g : generations r !! n = Some g -> g_disposed g = true -> g_closed g = true;
  go_once : NoDup D;
}.

Lemma generations_frame x r r' D : generations_ok x r D -> generations r' = generations r -> published r' = published r ->
  retired r' = retired r -> ds_retired r' = ds_retired r -> next_generation r' = next_generation r -> generations_ok x r' D.
Proof.
  intros [A1 A2 A3 A4 A5 A6 A7 A8 A9 A10 A11 A12] E1 E2 E3 E4 E5. split; unfold of_datasource; rewrite ?E1, ?E2, ?E3, ?E4, ?E5; auto.
Qed.

(** A generation that keeps its datasource and alias. *)
Lemma of_datasource_set r n g g' k m : generations r !! n = Some g -> g_datasource g' = g_datasource g ->
  of_datasource (set_generation n g' r) k m = of_datasource r k m.
Proof.
  intros G E. unfold of_datasource. cbn. destruct (decide (n = m)) as [<-|Ne]; [rewrite lookup_insert_eq, G, E|rewrite lookup_insert_ne by exact Ne]; reflexivity.
Qed.

Ltac at_generation n m H :=
  destruct (decide (n = m)) as [<-|?Ne];
  [rewrite lookup_insert_eq in H; injection H as <- | rewrite lookup_insert_ne in H by assumption].

Section SessionCount.
Context (except but : option nat) (r r' : registry) (D : list nat) (n : nat) (g : generation) (z : Z).
Hypothesis OK : generations_ok except r D.
Hypothesis G : generations r !! n = Some g.
Hypothesis Ge : generations r' = <[n := g <| g_sessions := z |>]> (generations r).
Hypothesis Pu : published r' = published r.
Hypothesis Re : retired r' = retired r.
Hypothesis Co : ds_retired r' = ds_retired r.
Hypothesis Ne : next_generation r' = next_generation r.
Hypothesis Open : g_closed g = false.
Hypothesis Busy : forall m, m ∈ retired r -> but <> Some m -> except <> Some m /\ (m = n -> 0 < z).

(** The generation of a number, up to its sessions. *)
Lemma recounted m h' : generations r' !! m = Some h' -> exists h, generations r !! m = Some h /\ h' = h <| g_sessions := g_sessions h' |> /\
  (m <> n -> g_sessions h' = g_sessions h) /\ (m = n -> g_sessions h' = z).
Proof.
  rewrite Ge. intros H. at_generation n m H; [exists g|exists h']; repeat split; auto; [contradiction|destruct h'; reflexivity|intros ->; contradiction].
Qed.

Lemma recounted_back m h : generations r !! m = Some h -> exists v, generations r' !! m = Some (h <| g_sessions := v |>).
Proof.
  rewrite Ge. intros H. destruct (decide (n = m)) as [<-|N]; [rewrite lookup_insert_eq; rewrite G in H; injection H as <-; eauto|].
  rewrite lookup_insert_ne by exact N. exists (g_sessions h). rewrite H. destruct h; reflexivity.
Qed.

Lemma generations_recounted : generations_ok but r' D.
Proof.
  destruct OK as [A1 A2 A3 A4 A5 A6 A7 A8 A9 A10 A11 A12].
  split; rewrite ?Pu, ?Re, ?Co, ?Ne; [| | | | |exact A6| | | | | |exact A12].
  - intros m h' H. apply recounted in H as (h & H & _). eauto.
  - intros a m H. destruct (A2 a m H) as (h & H1 & H2 & H3). destruct (recounted_back m h H1) as [v H4]. exists (h <| g_sessions := v |>). auto.
  - intros a a' m m' h h' H1 H2 H3 H4 H5. apply recounted in H3 as (h1 & H3 & E1 & _), H4 as (h2 & H4 & E2 & _).
    rewrite E1, E2 in H5. exact (A3 a a' m m' h1 h2 H1 H2 H3 H4 H5).
  - intros m h' H. apply recounted in H as (h & H & E & _). rewrite E. apply (A4 m h H).
  - intros m. rewrite (A5 m). split; intros (h & H & C).
    + destruct (recounted_back m h H) as [v V]. exists (h <| g_sessions := v |>). auto.
    + apply recounted in H as (h1 & H & E & _). exists h1. rewrite E in C. auto.
  - intros m h' I X H. destruct (Busy m I X) as [X' Z]. destruct (recounted m h' H) as (h & H1 & _ & N & S).
    destruct (decide (m = n)) as [->|M]; [rewrite S; auto|]. rewrite N by exact M. apply (A7 m h I X' H1).
  - intros k. rewrite A8. apply tally_list_ext. intros m _. unfold of_datasource. rewrite Ge. symmetry.
    apply (of_datasource_set r n g (g <| g_sessions := z |>) k m G). reflexivity.
  - intros m h' H C. destruct (recounted m h' H) as (h & H1 & E & N & S). rewrite E in C. destruct (A9 m h H1 C) as [Rt Z].
    rewrite E. split; [exact Rt|]. cbn. rewrite N; [exact Z|]. intros ->. cbn in C. congruence.
  - intros m. rewrite (A10 m). split; intros (h & H & C).
    + destruct (recounted_back m h H) as [v V]. exists (h <| g_sessions := v |>). auto.
    + apply recounted in H as (h1 & H & E & _). exists h1. rewrite E in C. auto.
  - intros m h' H C. apply recounted in H as (h & H & E & _). rewrite E in C |- *. apply (A11 m h H C).
Qed.

End SessionCount.

(** A registry whose candidates and shutdown stayed as they were. *)
Record aside (r r' : registry) : Prop := {
  as_closing : closing r' = closing r;
  as_closed : closed r' = closed r;
  as_reservations : reservations r' = reservations r;
  as_candidates : candidates r' = candidates r;
  as_keys : ds_candidates r' = ds_candidates r;
  as_slots : reserved_retired r' = reserved_retired r;
  as_next : next_reservation r' = next_reservation r;
  as_limits : limits r' = limits r;
}.

#[export] Instance aside_trans : Transitive aside.
Proof. intros r r1 r2 [] []. split; congruence. Qed.

(** *** The closing decided *)

Section Closing.
Context (r : registry) (D : list nat) (n : nat) (g : generation).
Hypothesis OK : generations_ok (Some n) r D.
Hypothesis G : generations r !! n = Some g.

Lemma closable_retired : closable g = true -> n ∈ retired r /\ g_retired g = true /\ g_sessions g <= 0 /\ g_closed g = false.
Proof.
  unfold closable. intros C. apply andb_true_iff in C as [C C3]. apply andb_true_iff in C as [C1 C2].
  apply negb_true_iff in C3. apply negb_true_iff, Z.ltb_ge in C2. split; [|auto]. apply (go_retired _ _ _ OK). eauto.
Qed.

Lemma not_closable : closable g = false -> generations_ok None r D.
Proof.
  intros C. destruct OK as [A1 A2 A3 A4 A5 A6 A7 A8 A9 A10 A11 A12]. split; auto.
  intros m h I _ H. destruct (decide (m = n)) as [->|Ne]; [|apply (A7 m h); congruence].
  rewrite G in H. injection H as <-. apply A5 in I as (h & H & Rt & Cl). rewrite G in H. injection H as <-.
  unfold closable in C. rewrite Rt, Cl in C. cbn in C. rewrite andb_true_r in C. apply negb_false_iff, Z.ltb_lt in C. exact C.
Qed.

Hypothesis Count : 0 <= g_sessions g.

Lemma generations_closed : closable g = true -> generations_ok None (closed_generation n g r) (n :: D).
Proof.
  intros C. apply closable_retired in C as (I & Rt & Z & Cl). destruct OK as [A1 A2 A3 A4 A5 A6 A7 A8 A9 A10 A11 A12].
  assert (In : forall m, m ∈ remove_first n (retired r) <-> m ∈ retired r /\ m <> n) by (intros m; apply elem_of_remove_first, A6).
  assert (Dn : n ∉ D) by (intros H; apply A10 in H as (h & H & E & _); congruence).
  split; cbn.
  - intros m h H. at_generation n m H; eauto.
  - intros a m H. destruct (A2 a m H) as (h & H1 & H2 & H3). exists h. rewrite lookup_insert_ne by congruence. auto.
  - intros a a' m m' h h' H1 H2 H3 H4. destruct (A2 a m H1) as (h1 & G1 & _ & R1), (A2 a' m' H2) as (h2 & G2 & _ & R2).
    rewrite lookup_insert_ne in H3, H4 by congruence. eauto.
  - intros m h H. at_generation n m H; [cbn; congruence|apply A4, H].
  - intros m. rewrite In, (A5 m). split.
    + intros [(h & H & C) Ne]. exists h. rewrite lookup_insert_ne by congruence. auto.
    + intros (h & H & C). at_generation n m H; [cbn in C; destruct C; discriminate|]. split; [eauto|congruence].
  - apply NoDup_remove_first, A6.
  - intros m h Hm _ H. apply In in Hm as [Hm Ne]. rewrite lookup_insert_ne in H by congruence. apply (A7 m h); congruence.
  - intros k. rewrite count_drop.
    2:{ rewrite A8, (tally_list_remove _ n) by exact I. unfold of_datasource at 1. rewrite G, bool_decide_eq_true_2 by reflexivity. unfold tally_list. lia. }
    etransitivity; [|apply tally_list_ext; intros m _; symmetry; apply (of_datasource_set r n g (g <| g_closed := true |>) k m G); reflexivity].
    rewrite A8, (tally_list_remove _ n _ I).
    replace (of_datasource r k n) with (bool_decide (g_datasource g = k)) by (unfold of_datasource; rewrite G; reflexivity).
    destruct (decide (g_datasource g = k)) as [->|Ne]; [rewrite bool_decide_eq_true_2 by reflexivity|rewrite bool_decide_eq_false_2 by exact Ne]; lia.
  - intros m h H E. at_generation n m H; [cbn; split; [exact Rt|lia]|apply (A9 m h H E)].
  - intros m. rewrite elem_of_cons, (A10 m). split.
    + intros [->|(h & H & E & Ds)]; [rewrite lookup_insert_eq|].
      * exists (g <| g_closed := true |>). repeat split. cbn. destruct (g_disposed g) eqn:Ds; [|reflexivity]. apply (A11 n g G) in Ds. congruence.
      * exists h. rewrite lookup_insert_ne by congruence. auto.
    + intros (h & H & E). at_generation n m H; eauto.
  - intros m h H E. at_generation n m H; [reflexivity|eauto].
  - apply NoDup_cons. auto.
Qed.

(** What [_take_closable_locked] does to a good state, whatever it decides. *)
Lemma take_closable_ok : exists c r', take_closable n r = (Ok c, r') /\ generations_ok None r' (option_list c ++ D) /\ grown r r' /\
  aside r r' /\ published r' = published r.
Proof.
  rewrite (take_closable_run n g r G) by (intros C; apply closable_retired, C). destruct (closable g) eqn:C.
  - exists (Some n), (closed_generation n g r). split; [reflexivity|]. split; [apply generations_closed, C|].
    split; [etransitivity; [apply (grown_set n g (g <| g_closed := true |>)); auto|apply grown_same; reflexivity]|].
    split; [split; reflexivity|reflexivity].
  - exists None, r. split; [reflexivity|]. split; [apply not_closable, C|]. split; [apply grown_same; reflexivity|]. split; [split; reflexivity|reflexivity].
Qed.

End Closing.

(** *** Withdrawn, published, disposed *)

Lemma generations_withdrawn r D a n g : generations_ok None r D -> published r !! a = Some n -> generations r !! n = Some g ->
  generations_ok (Some n) (retired_generation n g (r <| published ::= delete a |>)) D.
Proof.
  intros OK Pa G. pose proof OK as [A1 A2 A3 A4 A5 A6 A7 A8 A9 A10 A11 A12].
  destruct (A2 a n Pa) as (g0 & G0 & Al & Rt). rewrite G in G0. injection G0 as <-.
  assert (Cl : g_closed g = false) by (destruct (g_closed g) eqn:E; [destruct (A9 n g G E); congruence|reflexivity]).
  assert (Nr : n ∉ retired r) by (intros H; apply A5 in H as (h & H & E & _); congruence).
  assert (Other : forall b m, delete a (published r) !! b = Some m -> published r !! b = Some m /\ m <> n).
  { intros b m H. apply lookup_delete_Some in H as [Nb H]. split; [exact H|]. intros ->.
    destruct (A2 b n H) as (h & H1 & H2 & _). congruence. }
  split; cbn.
  - intros m h H. at_generation n m H; eauto.
  - intros b m H. apply Other in H as [H Ne]. destruct (A2 b m H) as (h & H1 & H2). exists h. rewrite lookup_insert_ne by congruence. auto.
  - intros b b' m m' h h' H1 H2 H3 H4. apply Other in H1 as [H1 Ne], H2 as [H2 Ne'].
    rewrite lookup_insert_ne in H3, H4 by congruence. eauto.
  - intros m h H E. at_generation n m H; [discriminate|]. rewrite lookup_delete_ne; [apply A4; assumption|].
    intros ->. pose proof (A4 m h H E). congruence.
  - intros m. rewrite elem_of_app, list_elem_of_singleton, (A5 m). split.
    + intros [(h & H & E & C)| ->]; [exists h; rewrite lookup_insert_ne; [auto|intros <-; congruence]|rewrite lookup_insert_eq; eauto].
    + intros (h & H & E). at_generation n m H; eauto.
  - apply NoDup_app. repeat split; [exact A6| |apply NoDup_singleton]. intros m H1 H2. apply list_elem_of_singleton in H2 as ->. contradiction.
  - intros m h I X H. apply elem_of_app in I as [I|I]; [|apply list_elem_of_singleton in I as ->; congruence].
    rewrite lookup_insert_ne in H by congruence. apply (A7 m h); congruence.
  - intros k. rewrite count_bump, tally_list_app, tally_list_one, A8.
    assert (Same : forall m, of_datasource (set_generation n (g <| g_retired := true |>) r) k m = of_datasource r k m)
      by (intros m; apply (of_datasource_set r n g); auto).
    transitivity (tally_list (of_datasource r k) (retired r) + (if of_datasource r k n then 1 else 0)).
    + unfold of_datasource at 4. rewrite G.
      destruct (decide (g_datasource g = k)) as [->|Ne]; [rewrite bool_decide_eq_true_2|rewrite bool_decide_eq_false_2]; auto; lia.
    + rewrite <- (Same n), (tally_list_ext _ _ _ (fun m _ => eq_sym (Same m))). reflexivity.
  - intros m h H E. at_generation n m H; [cbn in E; congruence|apply (A9 m h H E)].
  - intros m. rewrite (A10 m). split.
    + intros (h & H & E). exists h. rewrite lookup_insert_ne; [auto|]. intros <-. destruct E. congruence.
    + intros (h & H & E). at_generation n m H; [destruct E as [E _]; cbn in E; congruence|eauto].
  - intros m h H E. at_generation n m H; [cbn in E |- *; apply (A11 n g G E)|eauto].
  - exact A12.
Qed.

Lemma generations_published x r D k a revision limit : generations_ok x r D -> published r !! a = None ->
  (forall b m, published r !! b = Some m -> of_datasource r k m = false) ->
  generations_ok x (published_generation k a revision limit r) D.
Proof.
  intros [A1 A2 A3 A4 A5 A6 A7 A8 A9 A10 A11 A12] Pa U. set (n := next_generation r).
  assert (Fr : forall m h, generations r !! m = Some h -> n <> m) by (intros m h H E; apply A1 in H; unfold n in E; lia).
  assert (Keep : forall m h, generations r !! m = Some h -> <[n := new_generation k a revision limit]> (generations r) !! m = Some h)
    by (intros m h H; rewrite lookup_insert_ne; eauto).
  split; cbn; fold n.
  - intros m h H. at_generation n m H; [unfold n; lia|]. apply A1 in H. unfold n. lia.
  - intros b m H. destruct (decide (a = b)) as [<-|Ne]; [rewrite lookup_insert_eq in H|rewrite lookup_insert_ne in H by exact Ne].
    + injection H as <-. exists (new_generation k a revision limit). rewrite lookup_insert_eq. auto.
    + destruct (A2 b m H) as (h & H1 & H2). eauto.
  - intros b b' m m' h h' H1 H2 H3 H4 E.
    destruct (decide (a = b)) as [<-|Nb]; [rewrite lookup_insert_eq in H1; injection H1 as <-|rewrite lookup_insert_ne in H1 by exact Nb];
    (destruct (decide (a = b')) as [<-|Nb']; [rewrite lookup_insert_eq in H2; injection H2 as <-|rewrite lookup_insert_ne in H2 by exact Nb']); auto.
    + rewrite lookup_insert_eq in H3. injection H3 as <-. destruct (A2 b' m' H2) as (h2 & G2 & _). rewrite (Keep m' h2 G2) in H4. injection H4 as <-.
      exfalso. specialize (U b' m' H2). unfold of_datasource in U. rewrite G2 in U. apply bool_decide_eq_false in U. apply U. symmetry. exact E.
    + rewrite lookup_insert_eq in H4. injection H4 as <-. destruct (A2 b m H1) as (h1 & G1 & _). rewrite (Keep m h1 G1) in H3. injection H3 as <-.
      exfalso. specialize (U b m H1). unfold of_datasource in U. rewrite G1 in U. apply bool_decide_eq_false in U. apply U. exact E.
    + destruct (A2 b m H1) as (h1 & G1 & _), (A2 b' m' H2) as (h2 & G2 & _). rewrite (Keep m h1 G1) in H3. rewrite (Keep m' h2 G2) in H4.
      injection H3 as <-. injection H4 as <-. eauto.
  - intros m h H E. at_generation n m H; [apply lookup_insert_eq|]. rewrite lookup_insert_ne; [eauto|]. intros Ea. rewrite Ea, (A4 m h H E) in Pa. discriminate.
  - intros m. rewrite (A5 m). split; [intros (h & H & E); eauto|]. intros (h & H & E & C). at_generation n m H; [discriminate|eauto].
  - exact A6.
  - intros m h I X H. apply (A7 m h I X). apply A5 in I as (h0 & H0 & _). rewrite (Keep m h0 H0) in H. congruence.
  - intros j. rewrite A8. apply tally_list_ext. intros m I. apply A5 in I as (h & H & _). unfold of_datasource. cbn. fold n. rewrite H, (Keep m h H). reflexivity.
  - intros m h H E. at_generation n m H; [discriminate|eauto].
  - intros m. rewrite (A10 m). split; [intros (h & H & E); eauto|]. intros (h & H & E & C). at_generation n m H; [discriminate|eauto].
  - intros m h H E. at_generation n m H; [discriminate|eauto].
  - exact A12.
Qed.

(** Publishing in place of [o] is withdrawing it and publishing. *)
Lemma generations_swapped r D k a revision limit o g : generations_ok None r D -> published r !! a = Some o ->
  generations r !! o = Some g -> g_datasource g = k ->
  generations_ok (Some o) (retired_generation o g (published_generation k a revision limit r)) D.
Proof.
  intros OK Pa G Dk. pose proof (generations_withdrawn r D a o g OK Pa G) as W.
  assert (Ne : o <> next_generation r) by (intros ->; apply (go_fresh _ _ _ OK) in G; lia).
  apply (generations_published _ _ _ k a revision limit) in W.
  - refine (generations_frame _ _ _ _ W _ _ _ _ _); try reflexivity; cbn; [apply insert_insert_ne, Ne|symmetry; apply insert_delete_eq].
  - apply lookup_delete_eq.
  - intros b m H. apply (lookup_delete_Some (published r)) in H as [Nb H]. destruct (of_datasource _ k m) eqn:E; [|reflexivity].
    change (of_datasource (set_generation o (g <| g_retired := true |>) r) k m = true) in E.
    rewrite (of_datasource_set r o g) in E by auto. unfold of_datasource in E.
    destruct (generations r !! m) as [h|] eqn:Hm; [|discriminate]. apply bool_decide_eq_true in E.
    exfalso. apply Nb. apply (go_one _ _ _ OK a b o m g h Pa H G Hm). congruence.
Qed.

Lemma generations_disposed r D pre post n r' : generations_ok None r D -> D = pre ++ n :: post -> dispose n r = (Ok tt, r') ->
  generations_ok None r' (pre ++ post) /\ grown r r' /\
  exists g, generations r !! n = Some g /\ g_disposed g = false /\ r' = set_generation n (g <| g_disposed := true |>) r.
Proof.
  intros OK -> . pose proof OK as [A1 A2 A3 A4 A5 A6 A7 A8 A9 A10 A11 A12].
  destruct (proj1 (A10 n)) as (g & G & Cl & Ds); [set_solver|]. unfold dispose, the_generation. run_reg. rewrite G. intros [= <-].
  assert (Nd : (n ∉ pre ++ post) /\ NoDup (pre ++ post)).
  { rewrite <- Permutation_middle in A12. apply NoDup_cons in A12. exact A12. }
  destruct Nd as [Nd Dp].
  split; [|split; [apply (grown_set n g (g <| g_disposed := true |>)); auto|exists g; auto]].
  destruct (A9 n g G Cl) as [Rt Z]. split; cbn; auto.
  - intros m h H. at_generation n m H; eauto.
  - intros a m H. destruct (A2 a m H) as (h & H1 & H2 & H3). exists h. rewrite lookup_insert_ne by congruence. auto.
  - intros a a' m m' h h' H1 H2 H3 H4. at_generation n m H3; (at_generation n m' H4); cbn; eauto.
  - intros m h H E. at_generation n m H; [cbn in *; congruence|eauto].
  - intros m. rewrite (A5 m). split; intros (h & H & E & C); [exists h; rewrite lookup_insert_ne by congruence; auto|].
    at_generation n m H; [cbn in C; congruence|eauto].
  - intros m h I _ H. apply (A7 m h I); [discriminate|]. at_generation n m H; [|exact H].
    apply A5 in I as (h & H & E & C). congruence.
  - intros k. rewrite A8. apply tally_list_ext. intros m _. symmetry. apply (of_datasource_set r n g (g <| g_disposed := true |>) k m G). reflexivity.
  - intros m h H E. at_generation n m H; [auto|eauto].
  - intros m. split.
    + intros I. assert (I' : m ∈ pre ++ n :: post) by set_solver. apply A10 in I' as (h & H & E). exists h.
      rewrite lookup_insert_ne; [auto|intros <-; contradiction].
    + intros (h & H & E & C). at_generation n m H; [discriminate|]. assert (I : m ∈ pre ++ n :: post) by (apply A10; eauto). set_solver.
  - intros m h H E. at_generation n m H; [exact Cl|eauto].
Qed.

(** ** Candidates *)

Definition in_flight (x : reservation) : bool := negb (v_released x).
Definition in_flight_for (k : pystr) (x : reservation) : bool := in_flight x && bool_decide (v_key x = k).

(** The counters count the reservations not released and the slots they hold. *)
Record candidates_ok (r : registry) : Prop := {
  co_fresh v x : reservations r !! v = Some x -> (v < next_reservation r)%nat;
  co_count : candidates r = total in_flight (reservations r);
  co_key k : count (ds_candidates r) k = total (in_flight_for k) (reservations r);
  co_slots : reserved_retired r = total v_slot (reservations r);
  co_bound : candidates r <= max_candidates (limits r);
  co_one k : count (ds_candidates r) k <= MAX_CANDIDATES_PER_DATASOURCE;
  co_released v x : reservations r !! v = Some x -> v_released x = true -> v_slot x = false;
}.

Lemma candidates_aside r r' : candidates_ok r -> aside r r' -> candidates_ok r'.
Proof. intros [A1 A2 A3 A4 A5 A6 A7] [_ _ E1 E2 E3 E4 E5 E6]. split; rewrite ?E1, ?E2, ?E3, ?E4, ?E5, ?E6; auto. Qed.

Lemma candidates_reserved r key datasource publish slot : candidates_ok r ->
  count (ds_candidates r) key < MAX_CANDIDATES_PER_DATASOURCE -> candidates r < max_candidates (limits r) ->
  candidates_ok (reserved key datasource publish slot r).
Proof.
  intros [A1 A2 A3 A4 A5 A6 A7] K B. set (v := next_reservation r).
  assert (N : reservations r !! v = None) by (destruct (reservations r !! v) as [x|] eqn:E; [apply A1 in E; unfold v in E; lia|reflexivity]).
  assert (Em : reservations (reserved key datasource publish slot r) = <[v := {| v_key := key; v_datasource := datasource; v_publish := publish;
    v_released := false; v_slot := slot |}]> (reservations r)) by (destruct slot; reflexivity).
  split; rewrite ?Em, ?(total_new _ _ _ _ N); cbn [in_flight in_flight_for v_slot v_released v_key negb andb].
  - intros w x. replace (next_reservation (reserved key datasource publish slot r)) with (S v) by (destruct slot; reflexivity).
    destruct (decide (v = w)) as [<-|Ne]; [lia|]. rewrite lookup_insert_ne by exact Ne. intros H. apply A1 in H. unfold v. lia.
  - rewrite <- A2. destruct slot; reflexivity.
  - intros k. replace (ds_candidates (reserved key datasource publish slot r)) with (bump key (ds_candidates r)) by (destruct slot; reflexivity).
    rewrite count_bump, A3, (total_new _ _ _ _ N). unfold in_flight_for at 2. cbn.
    destruct (decide (key = k)) as [->|Ne]; [rewrite bool_decide_eq_true_2|rewrite bool_decide_eq_false_2]; auto; lia.
  - rewrite <- A4. destruct slot; reflexivity.
  - replace (candidates (reserved key datasource publish slot r)) with (1 + candidates r) by (destruct slot; reflexivity).
    replace (limits (reserved key datasource publish slot r)) with (limits r) by (destruct slot; reflexivity). lia.
  - intros k. replace (ds_candidates (reserved key datasource publish slot r)) with (bump key (ds_candidates r)) by (destruct slot; reflexivity).
    rewrite count_bump. destruct (decide (key = k)) as [->|Ne]; [lia|apply A6].
  - intros w x. destruct (decide (v = w)) as [<-|Ne]; [rewrite lookup_insert_eq; intros [= <-]; discriminate|].
    rewrite lookup_insert_ne by exact Ne. eauto.
Qed.

Lemma candidates_released r v x : candidates_ok r -> reservations r !! v = Some x -> v_released x = false ->
  candidates_ok (unreserved v x r).
Proof.
  intros [A1 A2 A3 A4 A5 A6 A7] V Rl.
  assert (Em : reservations (unreserved v x r) = <[v := x <| v_released := true |> <| v_slot := false |>]> (reservations r))
    by (unfold unreserved; destruct (v_slot x); reflexivity).
  assert (Ec : ds_candidates (unreserved v x r) = drop_one (v_key x) (ds_candidates r)) by (unfold unreserved; destruct (v_slot x); reflexivity).
  assert (Ed : forall k, count (drop_one (v_key x) (ds_candidates r)) k
    = if decide (v_key x = k) then count (ds_candidates r) k - 1 else count (ds_candidates r) k).
  { intros k. apply count_drop. rewrite A3. rewrite <- (insert_delete_id _ v x V). rewrite total_new by apply lookup_delete_eq.
    unfold in_flight_for at 1, in_flight. rewrite Rl, bool_decide_eq_true_2 by reflexivity. pose proof (total_nonneg (in_flight_for (v_key x)) (delete v (reservations r))). cbn. lia. }
  split; rewrite ?Em, ?(total_set _ _ _ _ _ V).
  - intros w y. replace (next_reservation (unreserved v x r)) with (next_reservation r) by (unfold unreserved; destruct (v_slot x); reflexivity).
    destruct (decide (v = w)) as [<-|Ne]; [intros _; eauto|]. rewrite lookup_insert_ne by exact Ne. apply A1.
  - replace (candidates (unreserved v x r)) with (-1 + candidates r) by (unfold unreserved; destruct (v_slot x); reflexivity).
    rewrite A2. unfold in_flight at 3 4. rewrite Rl. cbn. lia.
  - intros k. rewrite Ec, Ed, A3, (total_set _ _ _ _ _ V). unfold in_flight_for at 4 5, in_flight. rewrite Rl. cbn.
    destruct (decide (v_key x = k)) as [->|Ne]; [rewrite bool_decide_eq_true_2|rewrite bool_decide_eq_false_2]; auto; lia.
  - replace (reserved_retired (unreserved v x r)) with (if v_slot x then -1 + reserved_retired r else reserved_retired r) by (unfold unreserved; destruct (v_slot x); reflexivity).
    rewrite A4. cbn. destruct (v_slot x); lia.
  - replace (candidates (unreserved v x r)) with (-1 + candidates r) by (unfold unreserved; destruct (v_slot x); reflexivity).
    replace (limits (unreserved v x r)) with (limits r) by (unfold unreserved; destruct (v_slot x); reflexivity). lia.
  - intros k. rewrite Ec, Ed. specialize (A6 k). destruct (decide _); lia.
  - intros w y. destruct (decide (v = w)) as [<-|Ne]; [rewrite lookup_insert_eq; intros [= <-]; reflexivity|].
    rewrite lookup_insert_ne by exact Ne. eauto.
Qed.

Lemma candidates_slot_used r v x : candidates_ok r -> reservations r !! v = Some x -> v_slot x = true ->
  candidates_ok (slot_used v x r).
Proof.
  intros [A1 A2 A3 A4 A5 A6 A7] V Sl. split; cbn -[total]; rewrite ?(total_set _ _ _ _ _ V).
  - intros w y. destruct (decide (v = w)) as [<-|Ne]; [intros _; eauto|]. rewrite lookup_insert_ne by exact Ne. apply A1.
  - rewrite A2. cbn. unfold in_flight. cbn. lia.
  - intros k. rewrite A3, (total_set _ _ _ _ _ V). unfold in_flight_for, in_flight. cbn. lia.
  - rewrite A4, Sl. cbn. lia.
  - exact A5.
  - exact A6.
  - intros w y. destruct (decide (v = w)) as [<-|Ne]; [rewrite lookup_insert_eq; intros [= <-]; reflexivity|].
    rewrite lookup_insert_ne by exact Ne. eauto.
Qed.

(** ** Shutdown *)

Section End.
Context (r : registry) (D : list nat).
Hypothesis So : sessions_ok r.
Hypothesis OK : generations_ok None r D.

Lemma elem_of_pending n : n ∈ pending r <-> exists g, generations r !! n = Some g /\ g_closed g = false.
Proof.
  unfold pending. rewrite elem_of_app, list_elem_of_fmap, (go_retired _ _ _ OK). split.
  - intros [([a m] & -> & H)|(g & G & _ & C)]; [|eauto]. apply elem_of_map_to_list in H. destruct (go_published _ _ _ OK a m H) as (g & G & _ & Rt).
    exists g. split; [exact G|]. destruct (g_closed g) eqn:C; [|reflexivity]. apply (go_closed _ _ _ OK m g G) in C as [C _]. congruence.
  - intros (g & G & C). destruct (g_retired g) eqn:Rt; [right; eauto|]. left. exists (g_alias g, n).
    split; [reflexivity|]. apply elem_of_map_to_list, (go_live _ _ _ OK n g G Rt).
Qed.

Lemma NoDup_pending : NoDup (pending r).
Proof.
  unfold pending. apply NoDup_app. split; [|split; [|apply OK]].
  - apply NoDup_fmap_2_strong; [|apply NoDup_map_to_list]. intros [a m] [b k] H1 H2 E. cbn in E. subst k.
    apply elem_of_map_to_list in H1, H2. destruct (go_published _ _ _ OK a m H1) as (g & G & <- & _), (go_published _ _ _ OK b m H2) as (h & H & <- & _). congruence.
  - intros m H1 H2. apply list_elem_of_fmap in H1 as ([a k] & -> & H1). apply elem_of_map_to_list in H1.
    destruct (go_published _ _ _ OK a k H1) as (g & G & _ & Rt). apply (go_retired _ _ _ OK) in H2 as (h & H & Rt' & _). cbn in *. congruence.
Qed.

Lemma shutdown_end_ok : shutdown_end r = (Ok (pending r), shut r).
Proof. apply shutdown_end_run; [exact NoDup_pending|]. intros n. apply elem_of_pending. Qed.

(** The generations after it: every one retired and closed. *)
Lemma shut_lookup n g' : generations (shut r) !! n = Some g' ->
  exists g, generations r !! n = Some g /\ g_retired g' = true /\ g_closed g' = true /\ g_sessions g' = g_sessions g /\
    g_datasource g' = g_datasource g /\ g_disposed g' = g_disposed g.
Proof.
  intros H. change (generations (shut r)) with (generations (marked (pending r) r)) in H. rewrite marked_lookup in H by exact NoDup_pending.
  destruct (decide (n ∈ pending r)) as [I|I].
  - destruct (generations r !! n) as [g|] eqn:G; [|discriminate]. injection H as <-. exists g. repeat split.
  - exists g'. destruct (g_closed g') eqn:C; [|exfalso; apply I, elem_of_pending; eauto].
    destruct (go_closed _ _ _ OK n g' H C). repeat split; auto.
Qed.

Lemma shut_back n g : generations r !! n = Some g -> exists g', generations (shut r) !! n = Some g' /\
  g_datasource g' = g_datasource g /\ g_sessions g' = g_sessions g /\ g_disposed g' = g_disposed g /\ g_closed g' = true.
Proof.
  intros G. assert (exists g', generations (shut r) !! n = Some g') as [g' H].
  { change (generations (shut r)) with (generations (marked (pending r) r)). rewrite marked_lookup by exact NoDup_pending. destruct (decide _); rewrite G; eauto. }
  exists g'. split; [exact H|]. destruct (shut_lookup n g' H) as (h & G' & _ & C & Se & Ds & Di). rewrite G in G'. injection G' as <-. auto.
Qed.

Lemma generations_shut : sessions r = ∅ -> generations_ok None (shut r) (pending r ++ D).
Proof.
  intros E. split; try (cbn; set_solver).
  - intros n g' H. apply shut_lookup in H as (g & G & _). apply (go_fresh _ _ _ OK n g G).
  - intros n g' H Rt. apply shut_lookup in H as (g & _ & R & _). congruence.
  - intros n. split; [intros I; inversion I|]. intros (g' & H & _ & C). apply shut_lookup in H as (g & _ & _ & C' & _). congruence.
  - constructor.
  - intros n g' H _. apply shut_lookup in H as (g & G & R & _ & Z & _). split; [exact R|]. rewrite Z, (so_generation r So n g G), E. apply tally_empty.
  - intros n. rewrite elem_of_app, elem_of_pending, (go_dispose _ _ _ OK). split.
    + intros [(g & G & C)|(g & G & C & Di)]; destruct (shut_back n g G) as (g' & H & _ & _ & Di' & C'); exists g'; repeat split; auto; rewrite Di'; [|exact Di].
      destruct (g_disposed g) eqn:X; [|reflexivity]. apply (go_disposed _ _ _ OK n g G) in X. congruence.
    + intros (g' & H & _ & Di). apply shut_lookup in H as (g & G & _ & _ & _ & _ & Di'). rewrite Di in Di'.
      destruct (g_closed g) eqn:C; [right|left]; eauto.
  - intros n g' H _. apply shut_lookup in H as (g & _ & _ & C & _). exact C.
  - apply NoDup_app. split; [exact NoDup_pending|]. split; [|apply OK]. intros n I1 I2.
    apply elem_of_pending in I1 as (g & G & C). apply (go_dispose _ _ _ OK) in I2 as (h & H & C' & _). congruence.
Qed.

Lemma grown_shut : grown r (shut r).
Proof.
  split; try reflexivity.
  - intros n g G. destruct (shut_back n g G) as (g' & H & Ds & Se & _). eauto.
  - intros n g' H N. apply shut_lookup in H as (g & G & _). congruence.
Qed.

End End.

(** ** What holds in every state *)

(** What the thread of [close] has seen to: the sessions left are on its list,
    or past the adapter's close. *)
Definition ends (r : registry) (i : nat) : Prop := exists l, leases r !! i = Some l /\ ending l = true.

Definition closer_at (p : point) (r : registry) : Prop :=
  match p with
  | Idle => True
  | Requesting todo all => todo ⊆ all /\ (forall i, i ∈ all -> is_Some (leases r !! i)) /\ (forall i, i ∈ sessions r -> i ∈ all)
  | Finishing todo => (forall i, i ∈ todo -> is_Some (leases r !! i)) /\ (forall i, i ∈ sessions r -> i ∈ todo \/ ends r i)
  | Waiting => forall i, i ∈ sessions r -> ends r i
  | Done => sessions r = ∅ /\ candidates r = 0 /\ published r = ∅
  end.

Record system_ok (lim : RegistryLimits) (s : system) : Prop := {
  ok_sessions : sessions_ok (reg_of s);
  ok_generations : generations_ok None (reg_of s) (to_dispose s);
  ok_candidates : candidates_ok (reg_of s);
  ok_limits : limits (reg_of s) = lim;
  ok_closing : closer s <> Idle -> closing (reg_of s) = true;
  ok_closed : closed (reg_of s) = true <-> closer s = Done;
  ok_closer : closer_at (closer s) (reg_of s);
}.

(** A registry that went on: no session came, and none that was ending stopped. *)
Record goes_on (r r' : registry) : Prop := {
  on_closing : closing r' = closing r \/ closing r' = true;
  on_closed : closed r' = closed r;
  on_sessions i : i ∈ sessions r' -> i ∈ sessions r;
  on_leases i l : leases r !! i = Some l -> exists l', leases r' !! i = Some l' /\ (i ∈ sessions r' -> ending l = true -> ending l' = true);
  on_done : closed r = true -> candidates r = 0 -> published r = ∅ -> candidates r' = 0 /\ published r' = ∅;
}.

Lemma closer_goes_on r r' p : closer_at p r -> goes_on r r' -> (p = Done -> closed r = true) -> closer_at p r'.
Proof.
  intros C [_ _ Se Le Do] Cl.
  assert (K : forall i, is_Some (leases r !! i) -> is_Some (leases r' !! i)) by (intros i [l L]; destruct (Le i l L) as (l' & L' & _); eauto).
  assert (En : forall i, i ∈ sessions r' -> ends r i -> ends r' i).
  { intros i I (l & L & E). destruct (Le i l L) as (l' & L' & E'). exists l'. auto. }
  destruct p as [|todo all|todo| |]; cbn in *.
  - exact I.
  - destruct C as (C1 & C2 & C3). auto.
  - destruct C as [C1 C2]. split; [auto|]. intros i I. destruct (C2 i (Se i I)); auto.
  - auto.
  - destruct C as (C1 & C2 & C3). destruct (Do (Cl eq_refl) C2 C3). split; [|auto]. apply set_eq. intros i.
    split; [intros I; apply Se in I; rewrite C1 in I; exact I|intros I; inversion I].
Qed.

Lemma system_goes_on lim s r D : system_ok lim s -> goes_on (reg_of s) r -> sessions_ok r -> generations_ok None r D ->
  candidates_ok r -> limits r = lim -> system_ok lim {| reg_of := r; closer := closer s; to_dispose := D |}.
Proof.
  intros [A1 A2 A3 A4 A5 A6 A7] O H1 H2 H3 H4. split; cbn; auto.
  - intros P. destruct (on_closing _ _ O) as [->| ->]; auto.
  - rewrite (on_closed _ _ O). exact A6.
  - apply (closer_goes_on (reg_of s)); [exact A7|exact O|]. apply A6.
Qed.

Lemma system_idle lim s r D : system_ok lim s -> closer s = Idle -> closed r = closed (reg_of s) -> sessions_ok r -> generations_ok None r D ->
  candidates_ok r -> limits r = lim -> system_ok lim {| reg_of := r; closer := closer s; to_dispose := D |}.
Proof.
  intros [A1 A2 A3 A4 A5 A6 A7] I E H1 H2 H3 H4. rewrite I in *. split; cbn; auto. rewrite E. exact A6.
Qed.

Lemma idle_unless_closing lim s : system_ok lim s -> closing (reg_of s) = false -> closer s = Idle.
Proof. intros O C. destruct (closer s) eqn:E; auto; rewrite (ok_closing _ _ O) in C by congruence; discriminate. Qed.

Lemma grown_goes_on r r' : grown r r' -> aside r r' -> published r' = published r -> goes_on r r'.
Proof.
  intros [E1 E2 _ _ _ _ _] [F1 F2 _ F4 _ _ _ _] P. split; auto.
  - intros i. rewrite E2. auto.
  - intros i l L. exists l. rewrite E1. auto.
  - intros _. rewrite F4, P. auto.
Qed.

#[export] Instance goes_on_trans : Transitive goes_on.
Proof.
  intros r r1 r2 [A1 A2 A3 A4 A5] [B1 B2 B3 B4 B5]. split.
  - destruct B1 as [->|B1]; auto.
  - congruence.
  - auto.
  - intros i l L. destruct (A4 i l L) as (l1 & L1 & E1). destruct (B4 i l1 L1) as (l2 & L2 & E2). exists l2. split; [exact L2|]. auto.
  - intros C K P. destruct (A5 C K P). apply B5; [congruence|assumption..].
Qed.

(** *** Sessions *)

Lemma moves_ending k l l' : lease_moves k l l' -> ending l = true -> ending l' = true.
Proof. unfold ending. destruct 1 as [l c P|l P|l P|l P|l P|l h P]; cbn; try rewrite P; try discriminate; auto. destruct (l_phase l); easy. Qed.

Lemma requested_ending l : ending l = true -> ending (requested l) = true.
Proof. unfold requested, ending. destruct (decide _) as [E|E]; [rewrite E; discriminate|cbn; auto]. Qed.

Lemma goes_on_lease r i l l' : leases r !! i = Some l -> (ending l = true -> ending l' = true) -> goes_on r (set_lease i l' r).
Proof.
  intros L E. split; try (cbn; auto; fail). intros j m M. cbn. destruct (decide (i = j)) as [<-|Ne].
  - rewrite lookup_insert_eq. rewrite L in M. injection M as <-. eauto.
  - rewrite lookup_insert_ne by exact Ne. eauto.
Qed.

Lemma ok_lease lim s i l l' : system_ok lim s -> leases (reg_of s) !! i = Some l -> session_kept l l' ->
  (ending l = true -> ending l' = true) -> system_ok lim (at_lease i l' s).
Proof.
  intros O L Sa E. apply system_goes_on; auto; try apply O.
  - apply (goes_on_lease _ _ l); assumption.
  - apply (sessions_lease _ _ l); auto. apply O.
  - refine (generations_frame _ _ _ _ (ok_generations _ _ O) _ _ _ _ _); reflexivity.
  - apply (candidates_aside (reg_of s)); [apply O|split; reflexivity].
Qed.

Lemma ok_admit lim s alias i r : system_ok lim s -> admit_session alias (reg_of s) = (Ok i, r) -> system_ok lim (at_registry r s).
Proof.
  intros O H. apply admit_session_Ok in H as (n & g & Pu & G & Cl & Sz & Rt & Cd & _ & _ & -> & ->).
  pose proof (ok_generations _ _ O) as OG. apply system_idle; auto; try apply O.
  - apply (idle_unless_closing lim); assumption.
  - apply sessions_admitted; auto. apply O.
  - refine (generations_recounted None None (reg_of s) _ (to_dispose s) n g (1 + g_sessions g) OG G _ _ _ _ _ Cd _); try reflexivity.
    intros m I _. split; [discriminate|]. intros ->. apply (go_retired _ _ _ OG) in I as (h & H & R & _). congruence.
  - apply (candidates_aside (reg_of s)); [apply O|split; reflexivity].
Qed.

Lemma ok_release lim s i l h c r : system_ok lim s -> leases (reg_of s) !! i = Some l -> l_phase l = Releasing h ->
  release i (set_lease i (l <| l_phase := Unlocking h |>) (reg_of s)) = (Ok c, r) -> system_ok lim (disposing c r s).
Proof.
  intros O L P H. pose proof (ok_sessions _ _ O) as OS. pose proof (ok_generations _ _ O) as OG.
  destruct (so_lease _ OS i l L) as (_ & [g G] & _). pose proof (releasing_positive _ i l h g OS L P G) as Pos.
  rewrite (release_run i (l <| l_phase := Unlocking h |>) g) in H;
    [|apply (releasing_session _ i l h OS L P)|apply lookup_insert_eq|exact G].
  change (take_closable (l_generation l) (after_release (reg_of s) i l h g) = (Ok c, r)) in H.
  assert (Op : g_closed g = false) by (destruct (g_closed g) eqn:C; [apply (go_closed _ _ _ OG _ g G) in C as [_ C]; lia|reflexivity]).
  assert (OG' : generations_ok (Some (l_generation l)) (after_release (reg_of s) i l h g) (to_dispose s)).
  { refine (generations_recounted None _ (reg_of s) _ _ (l_generation l) g (-1 + g_sessions g) OG G _ _ _ _ _ Op _); try reflexivity.
    intros m I Ne. split; [discriminate|]. intros ->. contradiction. }
  assert (G' : generations (after_release (reg_of s) i l h g) !! l_generation l = Some (g <| g_sessions ::= Z.add (-1) |>)) by apply lookup_insert_eq.
  destruct (take_closable_ok _ _ _ _ OG' G') as (c' & r' & E & OG2 & Gr & As & Pu); [cbn; lia|].
  rewrite E in H. injection H as -> ->. apply system_goes_on; auto.
  - etransitivity; [|exact (grown_goes_on _ _ Gr As Pu)]. split; try (cbn; set_solver).
    intros j m M. cbn. destruct (decide (i = j)) as [<-|Ne]; [rewrite lookup_insert_eq|rewrite lookup_insert_ne by exact Ne; eauto].
    eexists. split; [reflexivity|]. set_solver.
  - apply (sessions_grown _ _ (sessions_released _ i l h g OS L P G) Gr).
  - apply (candidates_aside (reg_of s)); [apply O|]. etransitivity; [|exact As]. split; reflexivity.
  - rewrite (as_limits _ _ As). apply O.
Qed.

(** *** Candidates and publication *)

Lemma ok_reserve lim s key datasource publish v r : system_ok lim s -> reserve key datasource publish (reg_of s) = (Ok v, r) ->
  system_ok lim (at_registry r s).
Proof.
  intros O H. apply reserve_Ok in H as (Cl & K & B & -> & slot & ->). apply system_idle; auto.
  - apply (idle_unless_closing lim); assumption.
  - destruct slot; reflexivity.
  - apply (sessions_grown (reg_of s)); [apply O|]. destruct slot; apply grown_same; reflexivity.
  - destruct slot; refine (generations_frame _ _ _ _ (ok_generations _ _ O) _ _ _ _ _); reflexivity.
  - apply candidates_reserved; auto. apply O.
  - destruct slot; apply O.
Qed.

Lemma ok_release_reservation lim s v x r : system_ok lim s -> reservations (reg_of s) !! v = Some x ->
  release_reservation v (reg_of s) = (Ok tt, r) -> system_ok lim (at_registry r s).
Proof.
  intros O V H. rewrite (release_reservation_run v x _ V) in H. injection H as <-. destruct (v_released x) eqn:Rl.
  { destruct s. exact O. }
  pose proof (candidates_released _ v x (ok_candidates _ _ O) V Rl) as Oc. apply system_goes_on; auto.
  - assert (Pos : candidates (reg_of s) = 0 -> False).
    { rewrite (co_count _ (ok_candidates _ _ O)), <- (insert_delete_id _ v x V), total_new by apply lookup_delete_eq.
      unfold in_flight at 1. rewrite Rl. pose proof (total_nonneg in_flight (delete v (reservations (reg_of s)))). cbn. lia. }
    unfold unreserved. destruct (v_slot x); split; try (cbn; eauto; fail); intros _ Z; destruct (Pos Z).
  - apply (sessions_grown (reg_of s)); [apply O|]. unfold unreserved. destruct (v_slot x); apply grown_same; reflexivity.
  - unfold unreserved. destruct (v_slot x); refine (generations_frame _ _ _ _ (ok_generations _ _ O) _ _ _ _ _); reflexivity.
  - unfold unreserved. destruct (v_slot x); apply O.
Qed.

(** A registry where [n] has just been retired goes on to decide its closing. *)
Lemma ok_retired lim s n r c r' : system_ok lim s -> goes_on (reg_of s) r -> sessions_ok r -> candidates_ok r -> limits r = lim ->
  generations_ok (Some n) r (to_dispose s) -> take_closable n r = (Ok c, r') -> system_ok lim (disposing c r' s).
Proof.
  intros O On OS OC Li OG H. destruct (generations r !! n) as [g|] eqn:G.
  - assert (0 <= g_sessions g) by (rewrite (so_generation r OS n g G); apply tally_nonneg).
    destruct (take_closable_ok _ _ n g OG G) as (c1 & r1 & E & OG2 & Gr & As & Pu); [assumption|]. rewrite E in H. injection H as -> ->.
    apply system_goes_on; auto.
    + etransitivity; [exact On|]. apply grown_goes_on; assumption.
    + apply (sessions_grown r); assumption.
    + apply (candidates_aside r); assumption.
    + rewrite (as_limits _ _ As). exact Li.
  - exfalso. revert H. unfold take_closable, the_generation. run_reg. rewrite G. discriminate.
Qed.

Lemma ok_withdraw lim s datasource b c r : system_ok lim s -> withdraw datasource (reg_of s) = (Ok (b, c), r) ->
  system_ok lim (disposing c r s).
Proof.
  intros O H. apply withdraw_Ok in H as [(_ & -> & -> & _)|(_ & a & n & F & H)]; [destruct s; exact O|].
  apply published_for_Some in F as (Pa & g & G & _). rewrite (retire_run n g) in H by exact G. revert H. apply (ok_retired lim); auto.
  - etransitivity; [|apply (grown_goes_on ((reg_of s) <| published ::= delete a |>)); [|split; reflexivity|reflexivity]].
    + split; try (cbn; eauto; fail). intros _ Z P. split; [exact Z|]. cbn. rewrite P. apply delete_empty.
    + etransitivity; [apply (grown_set n g (g <| g_retired := true |>)); auto|apply grown_same; reflexivity].
  - apply (sessions_grown (reg_of s)); [apply O|].
    etransitivity; [apply (grown_set n g (g <| g_retired := true |>)); auto|apply grown_same; reflexivity].
  - apply (candidates_aside (reg_of s)); [apply O|split; reflexivity].
  - apply O.
  - apply generations_withdrawn; auto. apply O.
Qed.

Lemma fresh_generation x r D : generations_ok x r D -> generations r !! next_generation r = None.
Proof. intros O. destruct (generations r !! next_generation r) as [g|] eqn:G; [apply (go_fresh _ _ _ O) in G; lia|reflexivity]. Qed.

Lemma grown_published x r D k a revision limit : generations_ok x r D -> grown r (published_generation k a revision limit r).
Proof.
  intros O. pose proof (fresh_generation _ _ _ O) as N. split; try reflexivity.
  - intros n g G. exists g. split; [|auto]. cbn. rewrite lookup_insert_ne; [exact G|congruence].
  - intros n g. cbn. destruct (decide (next_generation r = n)) as [<-|Ne]; [rewrite lookup_insert_eq; intros [= <-]; reflexivity|].
    rewrite lookup_insert_ne by exact Ne. congruence.
Qed.

Lemma ok_slot_used lim s v x : system_ok lim s -> reservations (reg_of s) !! v = Some x ->
  system_ok lim (at_registry (if v_slot x then slot_used v x (reg_of s) else reg_of s) s).
Proof.
  intros O V. destruct (v_slot x) eqn:Sl; [|destruct s; exact O]. apply system_goes_on; auto.
  - split; cbn; eauto.
  - apply (sessions_grown (reg_of s)); [apply O|apply grown_same; reflexivity].
  - refine (generations_frame _ _ _ _ (ok_generations _ _ O) _ _ _ _ _); reflexivity.
  - apply candidates_slot_used; auto. apply O.
  - apply O.
Qed.

(** A generation published in place of the one its alias had. *)
Lemma ok_swap lim s k a revision limit o c r : system_ok lim s -> closed (reg_of s) = false -> published (reg_of s) !! a = Some o ->
  of_datasource (reg_of s) k o = true -> retire o (published_generation k a revision limit (reg_of s)) = (Ok c, r) ->
  system_ok lim (disposing c r s).
Proof.
  intros O Cl Pa Do H. pose proof (ok_generations _ _ O) as OG. unfold of_datasource in Do.
  destruct (generations (reg_of s) !! o) as [g|] eqn:G; [|discriminate]. apply bool_decide_eq_true in Do.
  assert (G' : generations (published_generation k a revision limit (reg_of s)) !! o = Some g).
  { cbn. rewrite lookup_insert_ne; [exact G|]. intros <-. rewrite (fresh_generation _ _ _ OG) in G. discriminate. }
  assert (Gr : grown (reg_of s) (retired_generation o g (published_generation k a revision limit (reg_of s)))).
  { etransitivity; [exact (grown_published _ _ _ k a revision limit OG)|].
    etransitivity; [apply (grown_set o g (g <| g_retired := true |>)); auto|apply grown_same; reflexivity]. }
  rewrite (retire_run o g) in H by exact G'. revert H. apply (ok_retired lim); auto.
  - split; try (cbn; eauto; fail). intros X. congruence.
  - apply (sessions_grown (reg_of s)); [apply O|exact Gr].
  - apply (candidates_aside (reg_of s)); [apply O|split; reflexivity].
  - apply O.
  - apply generations_swapped; auto.
Qed.

Lemma published_elsewhere r k : (forall a m, published r !! a = Some m -> g_datasource <$> generations r !! m = Some k -> False) ->
  forall b m, published r !! b = Some m -> of_datasource r k m = false.
Proof.
  intros H b m P. unfold of_datasource. specialize (H b m P). destruct (generations r !! m); [|reflexivity].
  apply bool_decide_eq_false. intros <-. exact (H eq_refl).
Qed.

Lemma ok_publish lim s v k a revision limit n c r : system_ok lim s ->
  publish v k a revision limit (reg_of s) = (Ok (n, c), r) -> system_ok lim (disposing c r s).
Proof.
  intros O H. apply publish_Ok in H as (x & V & _ & _ & Cl & _ & U & H). destruct (published (reg_of s) !! a) as [o|] eqn:Pa.
  - destruct H as (Do & _ & H). pose proof (ok_slot_used lim s v x O V) as O'.
    change (disposing c r s) with (disposing c r (at_registry (if v_slot x then slot_used v x (reg_of s) else reg_of s) s)).
    assert (E : of_datasource (reg_of s) k o = true).
    { unfold of_datasource. destruct (generations (reg_of s) !! o); [|discriminate]. injection Do as ->. apply bool_decide_eq_true_2. reflexivity. }
    apply (ok_swap lim _ k a revision limit o c r O'); cbn; [..|exact H]; destruct (v_slot x); auto.
  - destruct H as [-> ->]. pose proof (ok_generations _ _ O) as OG. apply system_goes_on; auto.
    + split; try (cbn; eauto; fail). intros X. congruence.
    + apply (sessions_grown (reg_of s)); [apply O|]. exact (grown_published _ _ _ k a revision limit OG).
    + apply generations_published; auto. apply published_elsewhere. intros b m P D. rewrite (U b m P D) in P. congruence.
    + apply (candidates_aside (reg_of s)); [apply O|split; reflexivity].
    + apply O.
Qed.

Lemma ok_dispose lim s n pre post r : system_ok lim s -> to_dispose s = pre ++ n :: post -> dispose n (reg_of s) = (Ok tt, r) ->
  system_ok lim {| reg_of := r; closer := closer s; to_dispose := pre ++ post |}.
Proof.
  intros O D H. destruct (generations_disposed _ _ _ _ _ _ (ok_generations _ _ O) D H) as (OG & Gr & g & G & _ & ->). apply system_goes_on; auto.
  - apply grown_goes_on; [exact Gr|split; reflexivity|reflexivity].
  - apply (sessions_grown (reg_of s)); [apply O|exact Gr].
  - apply (candidates_aside (reg_of s)); [apply O|split; reflexivity].
  - apply O.
Qed.

(** *** The shutdown *)

Lemma ok_moved lim s r p : system_ok lim s -> sessions_ok r -> generations_ok None r (to_dispose s) -> candidates_ok r -> limits r = lim ->
  closed r = closed (reg_of s) -> closer s <> Done -> p <> Done -> closing r = true -> closer_at p r ->
  system_ok lim {| reg_of := r; closer := p; to_dispose := to_dispose s |}.
Proof.
  intros O H1 H2 H3 H4 H5 N1 N2 C Cl. split; cbn; auto. rewrite H5, (ok_closed _ _ O). tauto.
Qed.

Lemma ok_shutdown lim s l r : system_ok lim s -> closer s = Idle -> shutdown_begin (reg_of s) = (Ok (Some l), r) ->
  system_ok lim {| reg_of := r; closer := Requesting l l; to_dispose := to_dispose s |}.
Proof.
  intros O I. unfold shutdown_begin, begin_shutdown. run_reg. destruct (closed (reg_of s)); cbn beta iota; [discriminate|]. intros [= <- <-].
  pose proof (ok_sessions _ _ O) as OS. apply ok_moved; auto; try congruence; try apply O.
  - apply (sessions_grown (reg_of s)); [exact OS|apply grown_same; reflexivity].
  - refine (generations_frame _ _ _ _ (ok_generations _ _ O) _ _ _ _ _); reflexivity.
  - destruct (ok_candidates _ _ O). split; auto.
  - cbn. split; [auto|]. split; [|intros i; apply elem_of_elements]. intros i E. apply elem_of_elements in E. apply OS. exact E.
Qed.

(** A session's change, and the next place of the thread that runs [close]. *)
Lemma ok_at lim s i l l' p : system_ok lim s -> leases (reg_of s) !! i = Some l -> session_kept l l' -> (ending l = true -> ending l' = true) ->
  closer s <> Idle -> closer s <> Done -> p <> Done -> closer_at p (set_lease i l' (reg_of s)) ->
  system_ok lim {| reg_of := set_lease i l' (reg_of s); closer := p; to_dispose := to_dispose s |}.
Proof.
  intros O L Sa E N1 N2 N3 C. pose proof (ok_lease lim s i l l' O L Sa E) as [A1 A2 A3 A4 A5 A6 A7].
  apply ok_moved; auto.
Qed.

Lemma set_lease_some i l r j : is_Some (leases r !! j) -> is_Some (leases (set_lease i l r) !! j).
Proof. cbn. destruct (decide (i = j)) as [<-|Ne]; [rewrite lookup_insert_eq; eauto|rewrite lookup_insert_ne by exact Ne; auto]. Qed.

Lemma ok_request lim s i todo all l : system_ok lim s -> closer s = Requesting (i :: todo) all -> leases (reg_of s) !! i = Some l ->
  system_ok lim {| reg_of := set_lease i (requested l) (reg_of s); closer := Requesting todo all; to_dispose := to_dispose s |}.
Proof.
  intros O P L. pose proof (so_lease _ (ok_sessions _ _ O) i l L) as (C & _).
  apply (ok_at lim s i l); auto using requested_same, requested_ending; try congruence.
  pose proof (ok_closer _ _ O) as Cl. rewrite P in Cl. cbn in Cl |- *. destruct Cl as (C1 & C2 & C3).
  split; [set_solver|]. split; [|exact C3]. intros j J. apply (set_lease_some i), C2, J.
Qed.

Lemma ok_requested lim s all : system_ok lim s -> closer s = Requesting [] all ->
  system_ok lim {| reg_of := reg_of s; closer := Finishing all; to_dispose := to_dispose s |}.
Proof.
  intros O P. apply ok_moved; auto; try apply O; try congruence.
  pose proof (ok_closer _ _ O) as Cl. rewrite P in Cl. cbn in Cl |- *. destruct Cl as (_ & C2 & C3). auto.
Qed.

Lemma ok_finish lim s i todo l : system_ok lim s -> closer s = Finishing (i :: todo) -> leases (reg_of s) !! i = Some l -> l_phase l = Free ->
  system_ok lim {| reg_of := set_lease i (terminated l) (reg_of s); closer := Finishing todo; to_dispose := to_dispose s |}.
Proof.
  intros O P L F. pose proof (so_lease _ (ok_sessions _ _ O) i l L) as (C & _ & I & _).
  assert (En : ending l = true -> ending (terminated l) = true) by (unfold ending at 1; rewrite F; discriminate).
  apply (ok_at lim s i l); auto using terminated_same; try congruence.
  pose proof (ok_closer _ _ O) as Cl. rewrite P in Cl. cbn in Cl |- *. destruct Cl as [C1 C2]. split.
  - intros j J. apply (set_lease_some i), C1. right. exact J.
  - intros j J. destruct (decide (j = i)) as [->|Ne].
    + right. exists (terminated l). split; [apply lookup_insert_eq|]. apply I in J. unfold counted, ending in J. rewrite F, orb_false_r in J.
      apply negb_true_iff in J. unfold terminated, close_locked. cbn. rewrite J. reflexivity.
    + destruct (C2 j J) as [T|(m & M & E)]; [left; set_solver|]. right. exists m. split; [|exact E]. cbn. rewrite lookup_insert_ne; [exact M|congruence].
Qed.

Lemma ok_finished lim s : system_ok lim s -> closer s = Finishing [] ->
  system_ok lim {| reg_of := reg_of s; closer := Waiting; to_dispose := to_dispose s |}.
Proof.
  intros O P. apply ok_moved; auto; try apply O; try congruence.
  pose proof (ok_closer _ _ O) as Cl. rewrite P in Cl. cbn in Cl |- *. destruct Cl as [_ C2]. intros i J. destruct (C2 i J) as [T|T]; [inversion T|exact T].
Qed.

Lemma ok_end lim s l r : system_ok lim s -> closer s = Waiting -> sessions (reg_of s) = ∅ -> candidates (reg_of s) = 0 ->
  shutdown_end (reg_of s) = (Ok l, r) -> system_ok lim {| reg_of := r; closer := Done; to_dispose := l ++ to_dispose s |}.
Proof.
  intros O P Se Ca H. pose proof (ok_sessions _ _ O) as OS. pose proof (ok_generations _ _ O) as OG.
  rewrite (shutdown_end_ok _ _ OG) in H. injection H as <- <-. split; cbn -[shut].
  - apply (sessions_grown (reg_of s)); [exact OS|]. exact (grown_shut _ _ OG).
  - apply generations_shut; assumption.
  - destruct (ok_candidates _ _ O). split; auto.
  - apply O.
  - intros _. apply (ok_closing _ _ O). congruence.
  - split; reflexivity.
  - auto.
Qed.

Lemma step_ok lim k s s' : step k s s' -> system_ok lim s -> system_ok lim s'.
Proof.
  intros St O. pose proof (ok_sessions _ _ O) as OS. destruct St; eauto using ok_admit, ok_release, ok_reserve, ok_release_reservation, ok_publish,
    ok_withdraw, ok_dispose, ok_shutdown, ok_request, ok_requested, ok_finish, ok_finished, ok_end.
  - apply (ok_lease lim s i l); auto; [|eauto using moves_ending]. eapply moves_same; [eassumption|]. eapply so_lease; eassumption.
  - unfold begin_shutdown, modify in H. injection H as <-. apply system_goes_on; auto.
    + split; cbn; eauto.
    + apply (sessions_grown (reg_of s)); [exact OS|apply grown_same; reflexivity].
    + refine (generations_frame _ _ _ _ (ok_generations _ _ O) _ _ _ _ _); reflexivity.
    + destruct (ok_candidates _ _ O). split; auto.
    + apply O.
  - apply (ok_lease lim s i l); auto. apply marked_same. eapply so_lease; eassumption.
Qed.

Lemma initial_ok lim : registry_limits lim = Some lim -> system_ok lim (initial_system lim).
Proof.
  unfold registry_limits. destruct (Z.leb_spec 1 (max_sessions lim)), (Z.leb_spec 1 (max_retired lim)), (Z.leb_spec 1 (max_candidates lim));
    cbn [andb]; try discriminate. intros _. split; cbn; try tauto; try congruence.
  - split; cbn; try (intros; set_solver); try lia; intros; rewrite ?tally_empty; try reflexivity; rewrite size_empty; lia.
  - split; cbn; try (intros; set_solver); try constructor; try (intros; set_solver).
  - split; cbn; try (intros; set_solver); try lia; try reflexivity; intros; unfold count; rewrite lookup_empty; cbn; unfold MAX_CANDIDATES_PER_DATASOURCE; lia || reflexivity.
  - split; discriminate.
Qed.

Lemma reachable_ok lim s : registry_limits lim = Some lim -> reachable lim s -> system_ok lim s.
Proof.
  intros V R. pose proof (initial_ok lim V) as O. induction R as [|s s1 s2 [k St] _ IH]; [exact O|]. apply IH. exact (step_ok lim k s s1 St O).
Qed.
