(* ===== verification/DatasourceShutdown.v ===== *)
(** * DatasourceShutdown: what the interleaved registry promises

    The theorems of [runtime/datasources.py] over DatasourceDrain's steps and
    invariant: the shutdown ends, whatever it found, by a measure that every
    step towards the end decreases; a session keeps the generation it captured;
    a generation closes and is disposed once; datasources do not disturb each
    other; the limits hold; and a refusal changes nothing. *)

From S2P Require Import Prelude DatasourceRegistry DatasourceDrain.
From coqutil Require Import Datatypes.RecordSettersUsingExistingGetters.

Local Open Scope Z_scope.

(** ** The shutdown ends *)

(** What is left to do: for a session, the steps until its lock is free and
    its adapter closed; for the shutdown, two for each session it has yet to
    ask or to wait for; a disposal for each generation, a release for each
    candidate. *)
Definition weight (l : lease) : Z :=
  match l_phase l with
  | Connecting | InUse => 6
  | Connected | Leaving => 5
  | Free => if l_closed l then 0 else 4
  | Closing _ => 3
  | Releasing _ => 2
  | Unlocking _ => 1
  end.

Definition effort (p : point) : Z :=
  match p with
  | Requesting todo all => 2 * Z.of_nat (length todo + length all) + 3
  | Finishing todo => 2 * Z.of_nat (length todo) + 2
  | Waiting => 1
  | Idle | Done => 0
  end.

Definition all_weights (m : gmap nat lease) : Z := map_fold (fun _ l a => weight l + a) 0 m.
Definition undisposed (r : registry) : Z := total (fun g => negb (g_disposed g)) (generations r).
Definition measure (s : system) : Z :=
  effort (closer s) + all_weights (leases (reg_of s)) + undisposed (reg_of s) + candidates (reg_of s).

Lemma weight_nonneg l : 0 <= weight l.
Proof. unfold weight. destruct (l_phase l); try lia. destruct (l_closed l); lia. Qed.

Lemma load_new i l m : m !! i = None -> all_weights (<[i := l]> m) = weight l + all_weights m.
Proof. intros N. unfold all_weights. apply (map_fold_insert_L (fun (_ : nat) l a => weight l + a) 0 i l m); [intros; lia|exact N]. Qed.

Lemma load_set i l l' m : m !! i = Some l -> all_weights (<[i := l']> m) = all_weights m - weight l + weight l'.
Proof.
  intros L. rewrite <- (insert_delete_id m i l L) at 2. rewrite <- insert_delete_eq.
  rewrite !load_new by apply lookup_delete_eq. lia.
Qed.

Lemma load_nonneg m : 0 <= all_weights m.
Proof.
  unfold all_weights. apply (map_fold_weak_ind (fun a _ => 0 <= a)); [lia|]. intros i l m' a _ H. pose proof (weight_nonneg l). lia.
Qed.

Lemma measure_nonneg lim s : system_ok lim s -> 0 <= measure s.
Proof.
  intros O. unfold measure. pose proof (load_nonneg (leases (reg_of s))). rewrite (co_count _ (ok_candidates _ _ O)).
  pose proof (total_nonneg in_flight (reservations (reg_of s))).
  pose proof (total_nonneg (fun g => negb (g_disposed g)) (generations (reg_of s))). unfold undisposed.
  assert (0 <= effort (closer s)) by (unfold effort; destruct (closer s); lia). lia.
Qed.

Lemma moves_lighter l l' : lease_moves Ends l l' -> consistent l -> weight l' < weight l.
Proof.
  intros M C. remember Ends as k eqn:K. destruct M as [l c P|l P|l P|l P|l P|l h P]; try discriminate;
    unfold weight, consistent, close_locked in *.
  - rewrite P in *. destruct C as [-> _]. destruct (c && _); cbn; lia.
  - destruct (l_phase l); try contradiction; cbn; destruct C as [-> _]; lia.
  - rewrite P in *. destruct C as [-> _]. destruct (l_terminating l); cbn; lia.
  - rewrite P. cbn. lia.
Qed.

Lemma terminated_weight l : l_phase l = Free -> weight (terminated l) <= weight l + 1.
Proof. intros F. unfold terminated, close_locked, weight. rewrite F. cbn. destruct (l_closed l); cbn; lia. Qed.

Lemma requested_weight l : weight (requested l) <= weight l + 1.
Proof. unfold requested. destruct (decide _) as [F|F]; [apply terminated_weight, F|]. unfold weight. cbn. destruct (l_phase l); try lia; destruct (l_closed l); lia. Qed.

Lemma undisposed_set n g g' r : generations r !! n = Some g -> g_disposed g' = g_disposed g -> undisposed (set_generation n g' r) = undisposed r.
Proof. intros G E. unfold undisposed. cbn -[total]. rewrite (total_set _ _ _ _ _ G), E. lia. Qed.

Lemma take_closable_same n r c r' : take_closable n r = (Ok c, r') ->
  undisposed r' = undisposed r /\ leases r' = leases r /\ candidates r' = candidates r.
Proof.
  unfold take_closable, the_generation. run_reg. destruct (generations r !! n) as [g|] eqn:G; cbn beta iota; [|discriminate].
  destruct (_ || g_closed g); cbn beta iota; [intros [= _ <-]; auto|]. destruct (negb _); cbn beta iota; [discriminate|].
  intros [= _ <-]. split; [|split; reflexivity]. apply (undisposed_set n g (g <| g_closed := true |>) r G). reflexivity.
Qed.

Lemma undisposed_shut r D : generations_ok None r D -> undisposed (shut r) = undisposed r.
Proof.
  intros O. unfold undisposed, total. assert (E : dom (generations (shut r)) = dom (generations r)).
  { apply set_eq. intros n. rewrite !elem_of_dom. split; intros [g G].
    - destruct (shut_lookup r D O n g G) as (h & H & _). eauto.
    - destruct (shut_back r D O n g G) as (h & H & _). eauto. }
  rewrite E. apply tally_ext. intros n N. apply elem_of_dom in N as [g G]. destruct (shut_back r D O n g G) as (h & H & _ & _ & Di & _).
  unfold holds. rewrite G, H, Di. reflexivity.
Qed.

Lemma release_lighter lim s i l h c r : system_ok lim s -> leases (reg_of s) !! i = Some l -> l_phase l = Releasing h ->
  release i (set_lease i (l <| l_phase := Unlocking h |>) (reg_of s)) = (Ok c, r) -> measure (disposing c r s) < measure s.
Proof.
  intros O L P H. pose proof (ok_sessions _ _ O) as OS. destruct (so_lease _ OS i l L) as (_ & [g G] & _).
  rewrite (release_run i (l <| l_phase := Unlocking h |>) g) in H; [|apply (releasing_session _ i l h OS L P)|apply lookup_insert_eq|exact G].
  apply take_closable_same in H as (E1 & E2 & E3). unfold measure. cbn [closer reg_of disposing]. rewrite E1, E2, E3.
  change (candidates (left_session _ _ _ _)) with (candidates (reg_of s)).
  change (leases (left_session _ _ _ _)) with (<[i := l <| l_phase := Unlocking h |>]> (leases (reg_of s))).
  change (undisposed (left_session _ _ _ _)) with (undisposed (set_generation (l_generation l) (g <| g_sessions ::= Z.add (-1) |>) (reg_of s))).
  rewrite (load_set i l _ _ L), (undisposed_set _ g) by auto. unfold weight. rewrite P. cbn. lia.
Qed.

Lemma candidate_lighter s v x r : reservations (reg_of s) !! v = Some x -> v_released x = false ->
  release_reservation v (reg_of s) = (Ok tt, r) -> measure (at_registry r s) < measure s.
Proof.
  intros V Rl H. rewrite (release_reservation_run v x _ V), Rl in H. injection H as <-. unfold measure. cbn [closer reg_of at_registry].
  assert (E : candidates (unreserved v x (reg_of s)) = -1 + candidates (reg_of s)) by (unfold unreserved; destruct (v_slot x); reflexivity).
  assert (E1 : leases (unreserved v x (reg_of s)) = leases (reg_of s)) by (unfold unreserved; destruct (v_slot x); reflexivity).
  assert (E2 : undisposed (unreserved v x (reg_of s)) = undisposed (reg_of s)) by (unfold unreserved; destruct (v_slot x); reflexivity).
  rewrite E, E1, E2. lia.
Qed.

Lemma dispose_lighter lim s n pre post r : system_ok lim s -> to_dispose s = pre ++ n :: post -> dispose n (reg_of s) = (Ok tt, r) ->
  measure {| reg_of := r; closer := closer s; to_dispose := pre ++ post |} < measure s.
Proof.
  intros O D H. destruct (generations_disposed _ _ _ _ _ _ (ok_generations _ _ O) D H) as (_ & _ & g & G & Di & ->).
  unfold measure. cbn [closer reg_of].
  change (leases (set_generation n (g <| g_disposed := true |>) (reg_of s))) with (leases (reg_of s)).
  change (candidates (set_generation n (g <| g_disposed := true |>) (reg_of s))) with (candidates (reg_of s)).
  unfold undisposed. cbn -[total all_weights]. rewrite (total_set _ _ _ _ _ G), Di. cbn -[total all_weights]. lia.
Qed.

(** A session's change with the next place of the shutdown. *)
Lemma at_lighter s i l l' p D : leases (reg_of s) !! i = Some l -> weight l' + effort p < weight l + effort (closer s) ->
  measure {| reg_of := set_lease i l' (reg_of s); closer := p; to_dispose := D |} < measure s.
Proof.
  intros L H. unfold measure. cbn [closer reg_of].
  change (leases (set_lease i l' (reg_of s))) with (<[i := l']> (leases (reg_of s))). rewrite (load_set i l l' _ L).
  change (undisposed (set_lease i l' (reg_of s))) with (undisposed (reg_of s)).
  change (candidates (set_lease i l' (reg_of s))) with (candidates (reg_of s)). lia.
Qed.

Lemma ends_lighter lim s s' : system_ok lim s -> step Ends s s' -> measure s' < measure s.
Proof.
  intros O St. pose proof (ok_sessions _ _ O) as OS. remember Ends as k eqn:K. destruct St; try discriminate.
  - apply (at_lighter s i l); [assumption|]. subst k. assert (weight l' < weight l) by (eapply moves_lighter, so_lease; eassumption). lia.
  - eapply release_lighter; eassumption.
  - destruct (v_released x) eqn:Rl; [discriminate|]. eapply candidate_lighter; eassumption.
  - eapply dispose_lighter; eassumption.
  - apply (at_lighter s i l); [assumption|]. rewrite H. pose proof (requested_weight l). cbn -[weight]. lia.
  - unfold measure. cbn [closer reg_of]. rewrite H. cbn [effort length]. lia.
  - apply (at_lighter s i l); [assumption|]. rewrite H. pose proof (terminated_weight l H2). cbn -[weight]. lia.
  - unfold measure. cbn [closer reg_of]. rewrite H. cbn [effort length]. lia.
  - pose proof (ok_generations _ _ O) as OG. rewrite (shutdown_end_ok _ _ OG) in H2. injection H2 as <- <-.
    unfold measure. cbn [closer reg_of]. rewrite H, (undisposed_shut _ _ OG).
    change (leases (shut (reg_of s))) with (leases (reg_of s)). change (candidates (shut (reg_of s))) with (candidates (reg_of s)).
    cbn [effort]. lia.
Qed.

(** *** There is always a next step *)

Lemma release_runs lim s i l h : system_ok lim s -> leases (reg_of s) !! i = Some l -> l_phase l = Releasing h ->
  exists s', step Ends s s'.
Proof.
  intros O L P. pose proof (ok_sessions _ _ O) as OS. pose proof (ok_generations _ _ O) as OG.
  destruct (so_lease _ OS i l L) as (_ & [g G] & _). pose proof (releasing_positive _ i l h g OS L P G) as Pos.
  assert (E : release i (set_lease i (l <| l_phase := Unlocking h |>) (reg_of s))
    = take_closable (l_generation l) (after_release (reg_of s) i l h g)).
  { rewrite (release_run i (l <| l_phase := Unlocking h |>) g); [reflexivity|apply (releasing_session _ i l h OS L P)|apply lookup_insert_eq|exact G]. }
  rewrite (take_closable_run _ (g <| g_sessions ::= Z.add (-1) |>)) in E; [|apply lookup_insert_eq|].
  - destruct (closable _); eexists; eapply step_release; eauto.
  - intros C. apply (go_retired _ _ _ OG). exists g. split; [exact G|]. unfold closable in C. cbn in C.
    apply andb_true_iff in C as [C C3]. apply andb_true_iff in C as [C1 _]. apply negb_true_iff in C3. auto.
Qed.

(** A session whose lock is held goes on. *)
Lemma held_runs lim s i l : system_ok lim s -> leases (reg_of s) !! i = Some l -> l_phase l <> Free -> exists s', step Ends s s'.
Proof.
  intros O L F. assert (U : match l_phase l with Connected | Leaving | Unlocking _ => True | _ => False end -> exists s', step Ends s s')
    by (intros U; eexists; eapply step_moves; [exact L|apply unlocks, U]).
  destruct (l_phase l) as [| | | | |h|h|h] eqn:P; try (apply U; exact I).
  - eexists. eapply step_moves; [exact L|]. apply (connects l false P).
  - contradiction.
  - eexists. eapply step_moves; [exact L|]. apply leaves, P.
  - eexists. eapply step_moves; [exact L|]. apply (adapter_closes l h), P.
  - eapply release_runs; eauto.
Qed.

Lemma shutdown_holds_or_not lim s : system_ok lim s -> (exists s', step Ends s s') \/ shutdown_free (reg_of s).
Proof.
  intros O. destruct (decide (shutdown_free (reg_of s))) as [F|F]; [right; exact F|left].
  apply map_not_Forall in F as (i & l & L & H); [|intros; apply bool_eq_dec].
  apply (held_runs lim s i l O L). intros P. apply H. unfold held_by_shutdown. rewrite P. reflexivity.
Qed.

Lemma ending_runs lim s i : system_ok lim s -> ends (reg_of s) i -> exists s', step Ends s s'.
Proof. intros O (l & L & E). apply (held_runs lim s i l O L). intros P. unfold ending in E. rewrite P in E. discriminate. Qed.

Lemma waiting_runs lim s : system_ok lim s -> closer s = Waiting -> exists s', step Ends s s'.
Proof.
  intros O P. pose proof (ok_closer _ _ O) as C. rewrite P in C. cbn in C.
  destruct (set_choose_or_empty (sessions (reg_of s))) as [[i I]|E]; [apply (ending_runs lim s i O), C, I|].
  pose proof (total_nonneg in_flight (reservations (reg_of s))) as N. rewrite <- (co_count _ (ok_candidates _ _ O)) in N.
  destruct (decide (candidates (reg_of s) = 0)) as [Z|Z].
  - eexists. eapply step_end; [exact P|apply leibniz_equiv, E|exact Z|apply (shutdown_end_ok _ _ (ok_generations _ _ O))].
  - destruct (total_pos in_flight (reservations (reg_of s))) as (v & x & V & X).
    { rewrite <- (co_count _ (ok_candidates _ _ O)). lia. }
    unfold in_flight in X. apply negb_true_iff in X. eexists.
    pose proof (step_release_reservation s v x _ V (release_reservation_run v x _ V)) as St. rewrite X in St. exact St.
Qed.

Lemma progress lim s : system_ok lim s -> closer s <> Idle -> (closer s = Done -> to_dispose s <> []) -> exists s', step Ends s s'.
Proof.
  intros O N D. destruct (shutdown_holds_or_not lim s O) as [St|F]; [exact St|]. pose proof (ok_closer _ _ O) as C.
  destruct (closer s) as [|todo all|todo| |] eqn:P; [contradiction| | |apply (waiting_runs lim s O P)|].
  - destruct todo as [|i todo]; [eexists; apply (step_requested s all P F)|]. cbn in C. destruct C as (C1 & C2 & _).
    destruct (C2 i) as [l L]; [set_solver|]. eexists. eapply step_request; eauto.
  - destruct todo as [|i todo]; [eexists; apply (step_finished s P F)|]. cbn in C. destruct C as [C1 _].
    destruct (C1 i) as [l L]; [left|]. destruct (decide (l_phase l = Free)) as [Fr|Fr]; [eexists; eapply step_finish; eauto|].
    apply (held_runs lim s i l O L Fr).
  - specialize (D eq_refl). destruct (to_dispose s) as [|n post] eqn:Td; [contradiction|].
    assert (In : n ∈ to_dispose s) by (rewrite Td; left). apply (go_dispose _ _ _ (ok_generations _ _ O)) in In as (g & G & _).
    eexists. eapply (step_dispose s n [] post); [exact Td|]. unfold dispose, the_generation. run_reg. rewrite G. reflexivity.
Qed.

Definition ending_step : system -> system -> Prop := step Ends.
Definition at_rest (s : system) : Prop := forall s', ~ ending_step s s'.

Lemma ending_steps_ok lim s s' : system_ok lim s -> rtc ending_step s s' -> system_ok lim s'.
Proof. intros O R. induction R as [|s s1 s2 St _ IH]; [exact O|]. apply IH. exact (step_ok lim Ends s s1 St O). Qed.

Lemma step_not_idle k s s' : step k s s' -> closer s <> Idle -> closer s' <> Idle.
Proof. destruct 1; cbn; congruence. Qed.

Lemma ending_steps_finite lim s : system_ok lim s -> Acc (flip ending_step) s.
Proof.
  intros O. remember (measure s) as m eqn:E. assert (M : 0 <= m) by (subst m; apply (measure_nonneg lim), O). revert s O E.
  induction m as [m IH] using (well_founded_induction (Z.lt_wf 0)). intros s O ->. constructor. intros s' St.
  pose proof (step_ok lim Ends s s' St O) as O'. apply (IH (measure s')); auto.
  - split; [apply (measure_nonneg lim), O'|apply (ends_lighter lim s s' O St)].
  - apply (measure_nonneg lim), O'.
Qed.

(** What is left of a registry shut down. *)
Lemma done_sessions lim s : system_ok lim s -> closer s = Done -> forall i l, leases (reg_of s) !! i = Some l -> l_closed l = true /\ l_adapter_closed l = true.
Proof.
  intros O P i l L. pose proof (ok_closer _ _ O) as C. rewrite P in C. destruct C as (Se & _).
  destruct (so_lease _ (ok_sessions _ _ O) i l L) as (Co & _ & I & _). rewrite Se in I.
  assert (K : counted l = false) by (destruct (counted l); [exfalso; apply (not_elem_of_empty (C := gset nat) i), I; reflexivity|reflexivity]).
  unfold counted, ending in K. unfold consistent in Co. apply orb_false_iff in K as [K1 K2]. apply negb_false_iff in K1.
  destruct (l_phase l); try discriminate; destruct Co; try congruence; auto.
Qed.

Lemma done_generations lim s : system_ok lim s -> closer s = Done -> forall n g, generations (reg_of s) !! n = Some g -> g_closed g = true.
Proof.
  intros O P n g G. pose proof (ok_closer _ _ O) as C. rewrite P in C. destruct C as (Se & _ & Pu).
  pose proof (ok_generations _ _ O) as OG. destruct (g_closed g) eqn:Cl; [reflexivity|exfalso].
  destruct (g_retired g) eqn:Rt; [|pose proof (go_live _ _ _ OG n g G Rt) as X; rewrite Pu in X; discriminate].
  assert (I : n ∈ retired (reg_of s)) by (apply (go_retired _ _ _ OG); eauto).
  pose proof (go_busy _ _ _ OG n g I ltac:(discriminate) G) as B. rewrite (so_generation _ (ok_sessions _ _ O) n g G), Se, tally_empty in B. lia.
Qed.

Lemma done_candidates lim s : system_ok lim s -> closer s = Done -> forall v x, reservations (reg_of s) !! v = Some x -> v_released x = true.
Proof.
  intros O P v x V. pose proof (ok_closer _ _ O) as C. rewrite P in C. destruct C as (_ & Ca & _).
  rewrite (co_count _ (ok_candidates _ _ O)), <- (insert_delete_id _ v x V), total_new in Ca by apply lookup_delete_eq.
  pose proof (total_nonneg in_flight (delete v (reservations (reg_of s)))). unfold in_flight at 1 in Ca. destruct (v_released x); [reflexivity|cbn in Ca; lia].
Qed.

(** C16: The shutdown ends, whatever it found: from any state reached in which
    [close] has begun, the steps that bring work to its end (the connections
    being made, the queries cancelled, the adapters' closes, the releases, the
    candidates' releases, the shutdown's own) cannot go on for ever, and where
    they stop, [close] has returned, every session and its adapter is closed,
    every candidate released, every generation closed and disposed. *)
Theorem shutdown_completes lim s : registry_limits lim = Some lim -> reachable lim s -> closer s <> Idle ->
  Acc (flip ending_step) s /\
  forall s', rtc ending_step s s' -> at_rest s' ->
    closer s' = Done /\ sessions (reg_of s') = ∅ /\
    (forall i l, leases (reg_of s') !! i = Some l -> l_closed l = true /\ l_adapter_closed l = true) /\
    (forall v x, reservations (reg_of s') !! v = Some x -> v_released x = true) /\
    (forall n g, generations (reg_of s') !! n = Some g -> g_closed g = true /\ g_disposed g = true).
Proof.
  intros V R N. pose proof (reachable_ok lim s V R) as O. split; [exact (ending_steps_finite lim s O)|]. intros s' Rs Rest.
  pose proof (ending_steps_ok lim s s' O Rs) as O'.
  assert (N' : closer s' <> Idle) by (clear O O' Rest R; induction Rs as [|s s1 s2 St _ IH]; [exact N|]; apply IH, (step_not_idle Ends s), N; exact St).
  assert (P : closer s' = Done /\ to_dispose s' = []).
  { destruct (decide (to_dispose s' = [])) as [E|E]; [|destruct (progress lim s' O' N') as [s2 St]; [auto|destruct (Rest s2 St)]].
    split; [|exact E]. destruct (closer s') eqn:P; auto; (destruct (progress lim s' O') as [s2 St]; [congruence|congruence|destruct (Rest s2 St)]). }
  destruct P as [P E]. split; [exact P|]. split; [pose proof (ok_closer _ _ O') as C; rewrite P in C; apply C|].
  split; [exact (done_sessions lim s' O' P)|]. split; [exact (done_candidates lim s' O' P)|]. intros n g G.
  pose proof (done_generations lim s' O' P n g G) as Cl. split; [exact Cl|]. destruct (g_disposed g) eqn:Di; [reflexivity|].
  assert (I : n ∈ to_dispose s') by (apply (go_dispose _ _ _ (ok_generations _ _ O')); eauto). rewrite E in I. inversion I.
Qed.

(** ** What never changes *)

(** A generation later on: the same content, and no way back. *)
Definition same_content (g g' : generation) : Prop :=
  g_datasource g' = g_datasource g /\ g_alias g' = g_alias g /\ g_record_revision g' = g_record_revision g /\ g_limit g' = g_limit g.

Record ages (g g' : generation) : Prop := {
  ag_content : same_content g g';
  ag_retired : g_retired g = true -> g_retired g' = true;
  ag_closed : g_closed g = true -> g_closed g' = true;
  ag_disposed : g_disposed g = true -> g_disposed g' = true;
}.

#[export] Instance ages_preorder : PreOrder ages.
Proof.
  split; [intros g; repeat split; auto|]. intros g g1 g2 [(A1 & A2 & A3 & A4) A5 A6 A7] [(B1 & B2 & B3 & B4) B5 B6 B7].
  split; auto. repeat split; congruence.
Qed.

(** A registry later on: its generations aged, those of [P] alone disposed
    meanwhile, its sessions stayed on theirs, and the new generations took new
    numbers. *)
Record later (P : nat -> Prop) (r r' : registry) : Prop := {
  lt_generation n g : generations r !! n = Some g ->
    exists g', generations r' !! n = Some g' /\ ages g g' /\ (g_disposed g' = true -> g_disposed g = true \/ P n);
  lt_lease i l : leases r !! i = Some l -> exists l', leases r' !! i = Some l' /\ l_generation l' = l_generation l;
  lt_next : (next_generation r <= next_generation r')%nat;
  lt_new n g' : generations r' !! n = Some g' -> generations r !! n = None -> (next_generation r <= n)%nat;
}.

#[export] Instance later_preorder P : PreOrder (later P).
Proof.
  split.
  - intros r. split; eauto; [intros n g G; exists g; split; [exact G|split; [reflexivity|auto]]|intros; congruence].
  - intros r r1 r2 [A1 A2 A3 A4] [B1 B2 B3 B4]. split.
    + intros n g G. destruct (A1 n g G) as (g1 & G1 & E1 & D1). destruct (B1 n g1 G1) as (g2 & G2 & E2 & D2). exists g2.
      split; [exact G2|]. split; [etransitivity; eassumption|]. intros D. destruct (D2 D); auto.
    + intros i l L. destruct (A2 i l L) as (l1 & L1 & E1). destruct (B2 i l1 L1) as (l2 & L2 & E2). exists l2. split; [exact L2|congruence].
    + lia.
    + intros n g G N. destruct (generations r1 !! n) as [g1|] eqn:G1; [exact (A4 n g1 G1 N)|]. pose proof (B4 n g G G1). lia.
Qed.

Lemma later_same P r r' : generations r' = generations r -> leases r' = leases r -> next_generation r' = next_generation r -> later P r r'.
Proof.
  intros E1 E2 E3. split; rewrite ?E1, ?E2, ?E3; eauto; [|intros; congruence].
  intros n g G. exists g. split; [exact G|split; [reflexivity|auto]].
Qed.

Lemma later_generation P n g g' r : generations r !! n = Some g -> ages g g' -> (g_disposed g' = true -> g_disposed g = true \/ P n) ->
  later P r (set_generation n g' r).
Proof.
  intros G A D. split; cbn; eauto.
  - intros m h H. destruct (decide (n = m)) as [<-|Ne]; [rewrite lookup_insert_eq|rewrite lookup_insert_ne by exact Ne].
    + rewrite G in H. injection H as <-. eauto.
    + exists h. split; [exact H|split; [reflexivity|auto]].
  - intros m h H N. rewrite lookup_insert_ne in H by congruence. congruence.
Qed.

Lemma later_lease P i l l' r : leases r !! i = Some l -> l_generation l' = l_generation l -> later P r (set_lease i l' r).
Proof.
  intros L E. split; cbn; eauto.
  - intros n g G. exists g. split; [exact G|split; [reflexivity|auto]].
  - intros j m M. destruct (decide (i = j)) as [<-|Ne]; [rewrite lookup_insert_eq|rewrite lookup_insert_ne by exact Ne; eauto].
    rewrite L in M. injection M as <-. eauto.
  - intros. congruence.
Qed.

Lemma take_closable_later P n r c r' : take_closable n r = (Ok c, r') -> later P r r'.
Proof.
  unfold take_closable, the_generation. run_reg. destruct (generations r !! n) as [g|] eqn:G; cbn beta iota; [|discriminate].
  destruct (_ || g_closed g); cbn beta iota; [intros [= _ <-]; reflexivity|]. destruct (negb _); cbn beta iota; [discriminate|].
  intros [= _ <-]. etransitivity; [apply (later_generation P n g (g <| g_closed := true |>) r G); [split; auto; repeat split|auto]|apply later_same; reflexivity].
Qed.

Lemma retire_later P n r c r' : retire n r = (Ok c, r') -> later P r r'.
Proof.
  intros H. destruct (generations r !! n) as [g|] eqn:G.
  - rewrite (retire_run n g r G) in H. etransitivity; [|exact (take_closable_later P _ _ _ _ H)].
    etransitivity; [apply (later_generation P n g (g <| g_retired := true |>) r G); [split; auto; repeat split|auto]|apply later_same; reflexivity].
  - revert H. unfold retire, the_generation. run_reg. rewrite G. discriminate.
Qed.

Lemma admitted_later P r n g : sessions_ok r -> generations r !! n = Some g -> later P r (admitted n g r).
Proof.
  intros So G. transitivity (set_generation n (g <| g_sessions ::= Z.add 1 |>) r).
  - apply (later_generation P n g); [exact G|split; auto; repeat split|auto].
  - split; cbn; eauto.
    + intros m h H. exists h. split; [exact H|split; [reflexivity|auto]].
    + intros i l L. exists l. rewrite lookup_insert_ne; [auto|]. intros E. rewrite <- E, (fresh_lease r So) in L. discriminate.
    + intros. congruence.
Qed.

Lemma published_later P x r D k a revision limit : generations_ok x r D -> later P r (published_generation k a revision limit r).
Proof.
  intros O. pose proof (fresh_generation _ _ _ O) as N. split; cbn; eauto.
  - intros n g G. exists g. rewrite lookup_insert_ne by congruence. split; [exact G|split; [reflexivity|auto]].
  - intros n g. destruct (decide (next_generation r = n)) as [<-|Ne]; [lia|]. rewrite lookup_insert_ne by exact Ne. congruence.
Qed.

Lemma shut_later P r D : generations_ok None r D -> later P r (shut r).
Proof.
  intros O. split; cbn -[shut]; eauto.
  - intros n g G. change (generations (shut r)) with (generations (marked (pending r) r)). rewrite marked_lookup by exact (NoDup_pending _ _ O).
    destruct (decide (n ∈ pending r)); [rewrite G; cbn; exists (mark g); split; [reflexivity|split; [split; auto; repeat split|auto]]|exists g; split; [exact G|split; [reflexivity|auto]]].
  - intros n g' H N. destruct (shut_lookup r D O n g' H) as (g & G & _). congruence.
Qed.

Lemma release_later P lim s i l h c r : system_ok lim s -> leases (reg_of s) !! i = Some l -> l_phase l = Releasing h ->
  release i (set_lease i (l <| l_phase := Unlocking h |>) (reg_of s)) = (Ok c, r) -> later P (reg_of s) r.
Proof.
  intros O L Ph H. pose proof (ok_sessions _ _ O) as OS. destruct (so_lease _ OS i l L) as (_ & [g G] & _).
  rewrite (release_run i (l <| l_phase := Unlocking h |>) g) in H; [|apply (releasing_session _ i l h OS L Ph)|apply lookup_insert_eq|exact G].
  etransitivity; [|exact (take_closable_later P _ _ _ _ H)].
  etransitivity; [apply (later_lease P i l (l <| l_phase := Unlocking h |>) _ L); reflexivity|].
  etransitivity; [apply (later_generation P (l_generation l) g (g <| g_sessions ::= Z.add (-1) |>)); [exact G|split; auto; repeat split|auto]|].
  apply later_same; reflexivity.
Qed.

Lemma publish_later P lim s v k a revision limit n c r : system_ok lim s ->
  publish v k a revision limit (reg_of s) = (Ok (n, c), r) -> later P (reg_of s) r.
Proof.
  intros O H. apply publish_Ok in H as (x & V & _ & _ & _ & _ & _ & H). pose proof (ok_generations _ _ O) as OG.
  destruct (published (reg_of s) !! a) as [o|].
  - destruct H as (_ & _ & H). apply (retire_later P) in H. etransitivity; [|exact H].
    pose proof (ok_generations _ _ (ok_slot_used lim s v x O V)) as OG'. cbn in OG'.
    etransitivity; [|exact (published_later P _ _ _ k a revision limit OG')]. destruct (v_slot x); [apply later_same; reflexivity|reflexivity].
  - destruct H as [_ ->]. exact (published_later P _ _ _ k a revision limit OG).
Qed.

Lemma moves_generation k l l' : lease_moves k l l' -> l_generation l' = l_generation l.
Proof. destruct 1; unfold close_locked; repeat case_match; reflexivity. Qed.

Lemma requested_generation l : l_generation (requested l) = l_generation l.
Proof. unfold requested, terminated, close_locked. repeat case_match; reflexivity. Qed.

Lemma terminated_generation l : l_generation (terminated l) = l_generation l.
Proof. unfold terminated, close_locked. repeat case_match; reflexivity. Qed.

Lemma step_later lim k s s' : system_ok lim s -> step k s s' -> later (fun n => n ∈ to_dispose s) (reg_of s) (reg_of s').
Proof.
  intros O St. pose proof (ok_sessions _ _ O) as OS. pose proof (ok_generations _ _ O) as OG.
  destruct St; cbn [reg_of at_registry at_lease disposing]; try reflexivity;
    eauto using release_later, publish_later, later_lease, moves_generation, requested_generation, terminated_generation.
  - apply admit_session_Ok in H as (n & g & _ & G & _ & _ & _ & _ & _ & _ & _ & ->). apply admitted_later; assumption.
  - apply reserve_Ok in H as (_ & _ & _ & _ & slot & ->). destruct slot; apply later_same; reflexivity.
  - rewrite (release_reservation_run v x _ H) in H0. injection H0 as <-. destruct (v_released x); [reflexivity|].
    unfold unreserved. destruct (v_slot x); apply later_same; reflexivity.
  - apply withdraw_Ok in H as [(_ & _ & -> & _)|(_ & a & n & _ & H)]; [reflexivity|].
    apply (retire_later (fun n => n ∈ to_dispose s)) in H. etransitivity; [|exact H]. apply later_same; reflexivity.
  - destruct (generations_disposed _ _ _ _ _ _ OG H H0) as (_ & _ & g & G & _ & ->).
    apply (later_generation _ n g); [exact G|split; auto; repeat split|]. intros _. right. rewrite H. set_solver.
  - injection H as <-. apply later_same; reflexivity.
  - revert H0. unfold shutdown_begin, begin_shutdown. run_reg. destruct (closed (reg_of s)); [discriminate|]. intros [= _ <-]. apply later_same; reflexivity.
  - rewrite (shutdown_end_ok _ _ OG) in H2. injection H2 as <- <-. apply (shut_later _ _ _ OG).
Qed.

Lemma later_any P r r' : later P r r' -> later (fun _ => True) r r'.
Proof. intros [A1 A2 A3 A4]. split; auto. intros n g G. destruct (A1 n g G) as (g' & G' & A & _). exists g'. auto. Qed.

Lemma steps_later lim s s' : system_ok lim s -> rtc any_step s s' -> later (fun _ => True) (reg_of s) (reg_of s') /\ system_ok lim s'.
Proof.
  intros O R. induction R as [|s s1 s2 [k St] _ IH]; [split; [reflexivity|exact O]|].
  destruct (IH (step_ok lim k s s1 St O)) as [L O2]. split; [|exact O2]. etransitivity; [exact (later_any _ _ _ (step_later lim k s s1 O St))|exact L].
Qed.

(** What a session's generation is, while the session is counted. *)
Lemma session_generation lim s i : system_ok lim s -> i ∈ sessions (reg_of s) -> exists l g,
  leases (reg_of s) !! i = Some l /\ generations (reg_of s) !! l_generation l = Some g /\
  0 < g_sessions g /\ g_closed g = false /\ g_disposed g = false.
Proof.
  intros O I. pose proof (ok_sessions _ _ O) as OS. pose proof (ok_generations _ _ O) as OG. destruct (so_session _ OS i I) as [l L].
  destruct (so_lease _ OS i l L) as (_ & [g G] & _). exists l, g. split; [exact L|]. split; [exact G|].
  assert (Pos : 0 < g_sessions g).
  { rewrite (so_generation _ OS _ g G). apply (tally_pos _ i _ I). unfold on_generation. rewrite L. apply bool_decide_eq_true_2. reflexivity. }
  assert (Cl : g_closed g = false) by (destruct (g_closed g) eqn:C; [apply (go_closed _ _ _ OG _ g G) in C as [_ C]; lia|reflexivity]).
  split; [exact Pos|]. split; [exact Cl|]. destruct (g_disposed g) eqn:Di; [|reflexivity]. apply (go_disposed _ _ _ OG _ g G) in Di. congruence.
Qed.

(** C18: A session keeps the generation it captured, whatever is published,
    withdrawn or shut down meanwhile: the same number, with the same
    datasource, alias, revision and limit, neither closed nor disposed before
    the session's release; and a generation published later takes a number
    never given before. *)
Theorem captured_generation lim s s' : registry_limits lim = Some lim -> reachable lim s -> rtc any_step s s' ->
  (forall i l g, leases (reg_of s) !! i = Some l -> generations (reg_of s) !! l_generation l = Some g ->
     exists l' g', leases (reg_of s') !! i = Some l' /\ l_generation l' = l_generation l /\
       generations (reg_of s') !! l_generation l = Some g' /\ same_content g g' /\
       (i ∈ sessions (reg_of s') -> 0 < g_sessions g' /\ g_closed g' = false /\ g_disposed g' = false)) /\
  (forall n g', generations (reg_of s') !! n = Some g' -> generations (reg_of s) !! n = None ->
     forall m g, generations (reg_of s) !! m = Some g -> (m < n)%nat).
Proof.
  intros V R Rs. pose proof (reachable_ok lim s V R) as O. destruct (steps_later lim s s' O Rs) as [La O']. split.
  - intros i l g L G. destruct (lt_lease _ _ _ La i l L) as (l' & L' & E). destruct (lt_generation _ _ _ La _ g G) as (g' & G' & A & _).
    exists l', g'. repeat split; auto; try apply (ag_content _ _ A); destruct (session_generation lim s' i O' H) as (m & h & M & Hh & P & C & D);
      rewrite L' in M; injection M as <-; rewrite E, G' in Hh; injection Hh as <-; assumption.
  - intros n g' G' N m g G. pose proof (lt_new _ _ _ La n g' G' N). pose proof (go_fresh _ _ _ (ok_generations _ _ O) m g G). lia.
Qed.

(** C17: A generation closes exactly once, as soon as it is retired and without
    session, and is disposed exactly once, after that: in every state reached
    the retired ones left open have sessions, no session is counted on a closed
    or disposed one, each closed one is disposed or about to be, not both; and
    a step that disposes one finds it closed, not yet disposed, and to dispose
    for the last time. *)
Theorem generation_closes_once lim s : registry_limits lim = Some lim -> reachable lim s ->
  (forall n g, generations (reg_of s) !! n = Some g ->
     g_sessions g = tally (on_generation (reg_of s) n) (sessions (reg_of s)) /\
     (g_retired g = false <-> published (reg_of s) !! g_alias g = Some n) /\
     (g_closed g = true <-> g_retired g = true /\ g_sessions g = 0) /\
     (g_closed g = true <-> g_disposed g = true \/ n ∈ to_dispose s) /\
     ~ (g_disposed g = true /\ n ∈ to_dispose s)) /\
  (forall k s' n g g', step k s s' -> generations (reg_of s) !! n = Some g -> generations (reg_of s') !! n = Some g' ->
     g_disposed g = false -> g_disposed g' = true -> g_closed g = true /\ n ∈ to_dispose s /\ n ∉ to_dispose s').
Proof.
  intros V R. pose proof (reachable_ok lim s V R) as O. pose proof (ok_generations _ _ O) as OG. split.
  - intros n g G. split; [apply (so_generation _ (ok_sessions _ _ O) n g G)|]. split.
    { split; [apply (go_live _ _ _ OG n g G)|]. intros P. destruct (go_published _ _ _ OG _ n P) as (h & H & _ & Rt). congruence. }
    split.
    { split; [apply (go_closed _ _ _ OG n g G)|]. intros [Rt Z]. destruct (g_closed g) eqn:C; [reflexivity|].
      assert (I : n ∈ retired (reg_of s)) by (apply (go_retired _ _ _ OG); eauto).
      pose proof (go_busy _ _ _ OG n g I ltac:(discriminate) G). lia. }
    assert (Dp : n ∈ to_dispose s <-> g_closed g = true /\ g_disposed g = false).
    { rewrite (go_dispose _ _ _ OG). split; [intros (h & H & C)|intros C; eauto]. rewrite G in H. injection H as <-. exact C. }
    pose proof (go_disposed _ _ _ OG n g G) as D. rewrite Dp. destruct (g_disposed g), (g_closed g); intuition congruence.
  - intros k s' n g g' St G G' D D'. pose proof (step_ok lim k s s' St O) as O'.
    destruct (lt_generation _ _ _ (step_later lim k s s' O St) n g G) as (h & H & _ & Di). rewrite G' in H. injection H as <-.
    destruct (Di D') as [X|I]; [congruence|]. split; [|split; [exact I|]].
    + apply (go_dispose _ _ _ OG) in I as (h & H & C & _). congruence.
    + intros I'. apply (go_dispose _ _ _ (ok_generations _ _ O')) in I' as (h & H & _ & C). congruence.
Qed.

(** ** One datasource at a time *)

(** What a registry has of a datasource stayed as it was. *)
Record elsewhere (k : pystr) (r r' : registry) : Prop := {
  el_sessions : count (ds_sessions r') k = count (ds_sessions r) k;
  el_retired : count (ds_retired r') k = count (ds_retired r) k;
  el_generation n g : generations r !! n = Some g -> g_datasource g = k -> generations r' !! n = Some g;
  el_published n g a : generations r !! n = Some g -> g_datasource g = k -> published r' !! a = Some n <-> published r !! a = Some n;
}.

#[export] Instance elsewhere_preorder k : PreOrder (elsewhere k).
Proof.
  split; [intros r; split; auto; reflexivity|]. intros r r1 r2 [A1 A2 A3 A4] [B1 B2 B3 B4]. split; try congruence.
  - eauto.
  - intros n g a G D. rewrite (B4 n g a (A3 n g G D) D). apply (A4 n g a G D).
Qed.

Lemma elsewhere_same k r r' : ds_sessions r' = ds_sessions r -> ds_retired r' = ds_retired r -> generations r' = generations r ->
  published r' = published r -> elsewhere k r r'.
Proof. intros E1 E2 E3 E4. split; rewrite ?E1, ?E2, ?E3, ?E4; auto. Qed.

Lemma elsewhere_generation k n g' r : (forall g, generations r !! n = Some g -> g_datasource g <> k) -> elsewhere k r (set_generation n g' r).
Proof.
  intros N. split; cbn; auto. intros m h H D. rewrite lookup_insert_ne; [exact H|]. intros <-. exact (N h H D).
Qed.

Lemma count_drop_other k' c k : k' <> k -> count (drop_one k' c) k = count c k.
Proof.
  intros Ne. unfold count, drop_one. cbv zeta. case_match; [rewrite lookup_delete_ne by exact Ne|rewrite lookup_insert_ne by exact Ne]; reflexivity.
Qed.

Lemma count_bump_other k' c k : k' <> k -> count (bump k' c) k = count c k.
Proof. intros Ne. rewrite count_bump, decide_False by exact Ne. reflexivity. Qed.

Lemma take_closable_elsewhere k n r c r' : take_closable n r = (Ok c, r') ->
  (forall g, generations r !! n = Some g -> g_datasource g <> k) -> elsewhere k r r'.
Proof.
  unfold take_closable, the_generation. run_reg. destruct (generations r !! n) as [g|] eqn:G; cbn beta iota; [|discriminate].
  destruct (_ || g_closed g); cbn beta iota; [intros [= _ <-] _; reflexivity|]. destruct (negb _); cbn beta iota; [discriminate|].
  intros [= _ <-] N. etransitivity; [apply (elsewhere_generation k n (g <| g_closed := true |>) r)|].
  - intros h H. rewrite G in H. injection H as <-. auto.
  - split; cbn; auto; apply count_drop_other; auto.
Qed.

Lemma retire_elsewhere k n r c r' : retire n r = (Ok c, r') ->
  (forall g, generations r !! n = Some g -> g_datasource g <> k) -> elsewhere k r r'.
Proof.
  intros H N. destruct (generations r !! n) as [g|] eqn:G.
  - rewrite (retire_run n g r G) in H. etransitivity; [|apply (take_closable_elsewhere k _ _ _ _ H)].
    + etransitivity; [apply (elsewhere_generation k n (g <| g_retired := true |>) r)|].
      * intros h Hh. apply N. congruence.
      * split; cbn; auto; apply count_bump_other; auto.
    + cbn. rewrite lookup_insert_eq. intros h [= <-]. apply (N g eq_refl).
  - revert H. unfold retire, the_generation. run_reg. rewrite G. discriminate.
Qed.

Lemma admit_elsewhere k r alias n g i r' : admit_session alias r = (Ok i, r') -> published r !! alias = Some n ->
  generations r !! n = Some g -> g_datasource g <> k -> elsewhere k r r'.
Proof.
  intros H Pa G D. apply admit_session_Ok in H as (n1 & g1 & Pa1 & G1 & _ & _ & _ & _ & _ & _ & _ & ->).
  rewrite Pa in Pa1. injection Pa1 as <-. rewrite G in G1. injection G1 as <-.
  etransitivity; [apply (elsewhere_generation k n (g <| g_sessions ::= Z.add 1 |>) r)|].
  - intros h H. rewrite G in H. injection H as <-. exact D.
  - split; cbn; auto; apply count_bump_other, D.
Qed.

Lemma release_elsewhere k r i l g c r' : release i r = (Ok c, r') -> leases r !! i = Some l ->
  generations r !! l_generation l = Some g -> g_datasource g <> k -> elsewhere k r r'.
Proof.
  intros H L G D. destruct (decide (i ∈ sessions r)) as [I|I].
  - rewrite (release_run i l g r I L G) in H. etransitivity; [|apply (take_closable_elsewhere k _ _ _ _ H)].
    + etransitivity; [apply (elsewhere_generation k (l_generation l) (g <| g_sessions ::= Z.add (-1) |>) r)|].
      * intros h Hh. congruence.
      * split; cbn; auto; apply count_drop_other, D.
    + cbn. rewrite lookup_insert_eq. intros h [= <-]. exact D.
  - revert H. unfold release. run_reg. rewrite bool_decide_eq_false_2 by exact I. intros [= _ <-]. reflexivity.
Qed.

Lemma withdraw_elsewhere k r d b c r' : withdraw d r = (Ok (b, c), r') -> d <> k -> elsewhere k r r'.
Proof.
  intros H D. apply withdraw_Ok in H as [(_ & _ & -> & _)|(_ & a & n & F & H)]; [reflexivity|].
  apply published_for_Some in F as (Pa & g & G & Dg). etransitivity; [|apply (retire_elsewhere k _ _ _ _ H)].
  - split; cbn; auto. intros m h b' Hh Dh. rewrite lookup_delete_Some. split; [tauto|]. intros Pb. split; [|exact Pb].
    intros <-. congruence.
  - cbn. intros h Hh. congruence.
Qed.

Lemma publish_elsewhere k r v d a revision limit n c r' : publish v d a revision limit r = (Ok (n, c), r') ->
  generations r !! next_generation r = None -> d <> k -> elsewhere k r r'.
Proof.
  intros H N D. apply publish_Ok in H as (x & _ & _ & _ & _ & _ & _ & H).
  assert (P : forall r0, generations r0 = generations r -> published r0 = published r -> next_generation r0 = next_generation r ->
    (forall o g, published r !! a = Some o -> generations r !! o = Some g -> g_datasource g <> k) ->
    elsewhere k r0 (published_generation d a revision limit r0)).
  { intros r0 E1 E2 E3 U. etransitivity; [apply (elsewhere_generation k (next_generation r0) (new_generation d a revision limit) r0)|].
    - rewrite E1, E3, N. discriminate.
    - split; cbn; auto. rewrite E1, E2, E3. intros m h b Hh Dh. destruct (decide (next_generation r = m)) as [<-|Ne].
      + rewrite lookup_insert_eq in Hh. injection Hh as <-. cbn in Dh. contradiction.
      + rewrite lookup_insert_ne in Hh by exact Ne. destruct (decide (a = b)) as [<-|Nb]; [|rewrite lookup_insert_ne by exact Nb; reflexivity].
        rewrite lookup_insert_eq. split; [congruence|]. intros Pm. destruct (U m h Pm Hh Dh). }
  destruct (published r !! a) as [o|] eqn:Pa.
  - destruct H as (Do & _ & H). set (r0 := if v_slot x then slot_used v x r else r) in *.
    assert (U : forall o' g, Some o = Some o' -> generations r !! o' = Some g -> g_datasource g <> k).
    { intros o' g [= <-] G. rewrite G in Do. injection Do as ->. exact D. }
    assert (E : generations r0 = generations r /\ published r0 = published r /\ next_generation r0 = next_generation r)
      by (unfold r0; destruct (v_slot x); auto).
    destruct E as (E1 & E2 & E3). etransitivity; [|apply (retire_elsewhere k _ _ _ _ H)].
    + etransitivity; [|apply (P r0 E1 E2 E3 U)]. unfold r0. destruct (v_slot x); [apply elsewhere_same; reflexivity|reflexivity].
    + cbn. rewrite E1, E3. intros g G. at_generation (next_generation r) o G; [exact D|]. exact (U o g eq_refl G).
  - destruct H as [_ ->]. apply P; auto.
Qed.

(** Datasources do not disturb each other: a session admitted under an
    alias or released, a generation published or withdrawn, changes the
    sessions, the retired generations, the generations and the publication of
    its own datasource at most. *)
Theorem datasources_isolated lim s k : registry_limits lim = Some lim -> reachable lim s ->
  let r := reg_of s in
  (forall alias n g i r', published r !! alias = Some n -> generations r !! n = Some g ->
     admit_session alias r = (Ok i, r') -> g_datasource g <> k -> elsewhere k r r') /\
  (forall i l g c r', leases r !! i = Some l -> generations r !! l_generation l = Some g ->
     release i r = (Ok c, r') -> g_datasource g <> k -> elsewhere k r r') /\
  (forall v d alias revision limit n c r', publish v d alias revision limit r = (Ok (n, c), r') -> d <> k -> elsewhere k r r') /\
  (forall d b c r', withdraw d r = (Ok (b, c), r') -> d <> k -> elsewhere k r r').
Proof.
  intros V R r. pose proof (ok_generations _ _ (reachable_ok lim s V R)) as OG. fold r in OG. split; [|split; [|split]].
  - intros alias n g i r' Pa G H D. exact (admit_elsewhere k r alias n g i r' H Pa G D).
  - intros i l g c r' L G H D. exact (release_elsewhere k r i l g c r' H L G D).
  - intros v d alias revision limit n c r' H D.
    exact (publish_elsewhere k r v d alias revision limit n c r' H (fresh_generation _ _ _ OG) D).
  - intros d b c r' H D. exact (withdraw_elsewhere k r d b c r' H D).
Qed.

(** ** Limits and refusals *)

(** C19: The limits hold in every state reached: the sessions counted are at
    most the registry's limit, a session is admitted only below its
    generation's own limit for the datasource, the candidates in flight are
    exactly the reservations not released, at most the registry's limit and one
    for each datasource, and the slots reserved those they hold. *)
Theorem limits_hold lim s : registry_limits lim = Some lim -> reachable lim s ->
  let r := reg_of s in
  Z.of_nat (size (sessions r)) <= max_sessions lim /\
  (forall k, count (ds_sessions r) k = tally (on_datasource r k) (sessions r)) /\
  (forall alias i r', admit_session alias r = (Ok i, r') -> exists n g,
     published r !! alias = Some n /\ generations r !! n = Some g /\ (i ∉ sessions r) /\ sessions r' = {[ i ]} ∪ sessions r /\
     count (ds_sessions r') (g_datasource g) = count (ds_sessions r) (g_datasource g) + 1 /\
     count (ds_sessions r') (g_datasource g) <= g_limit g) /\
  candidates r = total in_flight (reservations r) /\ candidates r <= max_candidates lim /\
  (forall v w x y, reservations r !! v = Some x -> reservations r !! w = Some y -> v_released x = false -> v_released y = false ->
     v_key x = v_key y -> v = w) /\
  reserved_retired r = total v_slot (reservations r).
Proof.
  intros V R r. pose proof (reachable_ok lim s V R) as O. pose proof (ok_sessions _ _ O) as OS. pose proof (ok_candidates _ _ O) as OC. fold r in OS, OC.
  rewrite <- (ok_limits _ _ O). fold r. split; [apply OS|]. split; [apply OS|]. split; [|split; [apply OC|split; [apply OC|split; [|apply OC]]]].
  - intros alias i r' H. apply admit_session_Ok in H as (n & g & Pa & G & _ & _ & _ & _ & _ & Lt & -> & ->). exists n, g.
    split; [exact Pa|]. split; [exact G|]. split; [apply (fresh_session r OS)|]. split; [reflexivity|].
    change (ds_sessions (admitted n g r)) with (bump (g_datasource g) (ds_sessions r)). rewrite count_bump, decide_True by reflexivity. split; lia.
  - intros v w x y X Y Rx Ry K. destruct (decide (v = w)) as [E|Ne]; [exact E|exfalso].
    pose proof (co_one _ OC (v_key x)) as B. rewrite (co_key _ OC), <- (insert_delete_id _ v x X), total_new in B by apply lookup_delete_eq.
    rewrite <- (insert_delete_id (delete v (reservations r)) w y), total_new in B
      by (apply lookup_delete_eq || (rewrite lookup_delete_ne by exact Ne; exact Y)).
    pose proof (total_nonneg (in_flight_for (v_key x)) (delete w (delete v (reservations r)))) as N.
    unfold in_flight_for at 1 2, in_flight in B. rewrite Rx, Ry, K, !bool_decide_eq_true_2 in B by reflexivity. cbn in B.
    unfold MAX_CANDIDATES_PER_DATASOURCE in B. rewrite K in N. lia.
Qed.

Lemma admit_session_Err alias r e r' : admit_session alias r = (Err e, r') -> (forall n, published r !! alias = Some n -> is_Some (generations r !! n)) ->
  r' = r /\ (e = Unavailable \/ e = Busy).
Proof.
  intros H K. revert H. unfold admit_session, the_generation. run_reg. destruct (closing r); cbn beta iota; [intros [= <- <-]; auto|].
  destruct (_ <=? _); cbn beta iota; [intros [= <- <-]; auto|]. destruct (published r !! alias) as [n|]; cbn beta iota; [|intros [= <- <-]; auto].
  destruct (K n eq_refl) as [g ->]. cbn beta iota. destruct (_ || g_closed g); cbn beta iota; [intros [= <- <-]; auto|].
  destruct (g_disposed g); cbn beta iota; [intros [= <- <-]; auto|]. destruct (_ <=? _); cbn beta iota; [intros [= <- <-]; auto|discriminate].
Qed.

Lemma reserve_Err key d p r e r' : reserve key d p r = (Err e, r') -> r' = r /\ (e = RegistryClosed \/ e = Busy).
Proof.
  unfold reserve, check_retired_capacity. run_reg. destruct (closing r); cbn beta iota; [intros [= <- <-]; auto|].
  destruct (_ <=? count (ds_candidates r) key); cbn beta iota; [intros [= <- <-]; auto|]. destruct (_ <=? candidates r); cbn beta iota; [intros [= <- <-]; auto|].
  destruct d as [i|]; cbn beta iota; [|discriminate]. destruct (p && _); cbn beta iota; [|discriminate].
  destruct (_ <=? count (ds_retired r) i); cbn beta iota; [intros [= <- <-]; auto|]. destruct (_ <=? _ + _); cbn beta iota; [intros [= <- <-]; auto|discriminate].
Qed.

(** A retirement in a good registry is never refused. *)
Lemma swap_runs lim s k a revision limit o : system_ok lim s -> published (reg_of s) !! a = Some o ->
  of_datasource (reg_of s) k o = true ->
  exists c r, retire o (published_generation k a revision limit (reg_of s)) = (Ok c, r).
Proof.
  intros O Pa Do. pose proof (ok_generations _ _ O) as OG. unfold of_datasource in Do.
  destruct (generations (reg_of s) !! o) as [g|] eqn:G; [|discriminate]. apply bool_decide_eq_true in Do.
  assert (G' : generations (published_generation k a revision limit (reg_of s)) !! o = Some g).
  { cbn. rewrite lookup_insert_ne; [exact G|]. intros <-. rewrite (fresh_generation _ _ _ OG) in G. discriminate. }
  rewrite (retire_run o g _ G'), (take_closable_run o (g <| g_retired := true |>)).
  - destruct (closable _); eauto.
  - apply lookup_insert_eq.
  - intros _. cbn. apply elem_of_app. right. left.
Qed.

Lemma publish_Err lim s v x k a revision limit e r' : system_ok lim s -> reservations (reg_of s) !! v = Some x ->
  publish v k a revision limit (reg_of s) = (Err e, r') ->
  r' = reg_of s /\ (e = RuntimeError \/ e = RegistryClosed \/ e = Busy /\ v_slot x = false).
Proof.
  intros O V. unfold publish, the_reservation, check_retired_capacity. run_reg. rewrite V. cbn beta iota.
  destruct (negb (v_publish x) || v_released x); cbn beta iota; [intros [= <- <-]; auto|].
  destruct (closed (reg_of s)); cbn beta iota; [intros [= <- <-]; auto|].
  destruct (match published (reg_of s) !! a with Some m => negb (bool_decide _) | None => false end) eqn:E3; cbn beta iota; [intros [= <- <-]; auto|].
  destruct (existsb _ _); cbn beta iota; [intros [= <- <-]; auto|]. destruct (published (reg_of s) !! a) as [o|] eqn:Pa; [|discriminate].
  assert (Do : of_datasource (reg_of s) k o = true).
  { apply negb_false_iff, bool_decide_eq_true in E3. unfold of_datasource. destruct (generations (reg_of s) !! o); [|discriminate].
    injection E3 as ->. apply bool_decide_eq_true_2. reflexivity. }
  destruct (v_slot x) eqn:Sl; cbn beta iota.
  - pose proof (ok_slot_used lim s v x O V) as O'. rewrite Sl in O'.
    destruct (swap_runs lim _ k a revision limit o O' Pa Do) as (c & r & E). cbn [reg_of at_registry] in E.
    match goal with |- context [retire o ?r0] => change r0 with (published_generation k a revision limit (slot_used v x (reg_of s))) end.
    rewrite E. discriminate.
  - destruct (_ <=? count _ k); cbn beta iota; [intros [= <- <-]; auto|]. destruct (_ <=? _ + _); cbn beta iota; [intros [= <- <-]; auto|].
    destruct (swap_runs lim s k a revision limit o O Pa Do) as (c & r & E).
    match goal with |- context [retire o ?r0] => change r0 with (published_generation k a revision limit (reg_of s)) end.
    rewrite E. discriminate.
Qed.

Lemma withdraw_runs lim s d : system_ok lim s -> exists b c r, withdraw d (reg_of s) = (Ok (b, c), r) /\
  forall a n g, published r !! a = Some n -> generations r !! n = Some g -> g_datasource g <> d.
Proof.
  intros O. pose proof (ok_generations _ _ O) as OG. unfold withdraw. run_reg. destruct (published_for d (reg_of s)) as [[a n]|] eqn:F.
  - apply published_for_Some in F as (Pa & g & G & Dg). pose proof (generations_withdrawn _ _ a n g OG Pa G) as W.
    match goal with |- context [retire n ?r0] => change r0 with ((reg_of s) <| published ::= delete a |>) end.
    rewrite (retire_run n g) by exact G.
    destruct (take_closable_ok _ _ n (g <| g_retired := true |>) W (lookup_insert_eq _ _ _)) as (c & r & E & OG' & Gr & _ & Pu).
    { cbn. rewrite (so_generation _ (ok_sessions _ _ O) n g G). apply tally_nonneg. }
    rewrite E. exists true, c, r. split; [reflexivity|]. rewrite Pu. intros b m h Pb H Dh. cbn in Pb. apply lookup_delete_Some in Pb as [Nb Pb].
    destruct (go_published _ _ _ OG b m Pb) as (h0 & H0 & _). apply Nb. apply (go_one _ _ _ OG a b n m g h0 Pa Pb G H0).
    assert (Ne : n <> m) by (intros <-; destruct (go_published _ _ _ OG a n Pa) as (x & X & Ax & _), (go_published _ _ _ OG b n Pb) as (y & Y & Ay & _); congruence).
    destruct (gr_kept _ _ Gr m h0) as (h1 & H1 & D1 & _); [cbn; rewrite lookup_insert_ne by exact Ne; exact H0|]. congruence.
  - exists false, None, (reg_of s). split; [reflexivity|]. intros a n g Pa G. exact (published_for_None d (reg_of s) F a n g Pa G).
Qed.

(** What the registry refuses changes nothing, and what it must not
    refuse it does: an admission, a reservation or a publication refused
    leaves it as it was and says which limit or state refused it; a
    publication that holds a slot is never refused for want of room; a
    withdrawal and the release of a candidate are never refused; and a registry
    that is full or shutting down answers alike whatever the alias. *)
Theorem refusals_change_nothing lim s : registry_limits lim = Some lim -> reachable lim s ->
  let r := reg_of s in
  (forall alias e r', admit_session alias r = (Err e, r') -> r' = r /\ (e = Unavailable \/ e = Busy)) /\
  (forall key d p e r', reserve key d p r = (Err e, r') -> r' = r /\ (e = RegistryClosed \/ e = Busy)) /\
  (forall v x k alias revision limit e r', reservations r !! v = Some x -> publish v k alias revision limit r = (Err e, r') ->
     r' = r /\ (e = RuntimeError \/ e = RegistryClosed \/ e = Busy /\ v_slot x = false)) /\
  (forall d, exists b c r', withdraw d r = (Ok (b, c), r') /\
     forall a n g, published r' !! a = Some n -> generations r' !! n = Some g -> g_datasource g <> d) /\
  (forall v, is_Some (reservations r !! v) -> exists r', release_reservation v r = (Ok tt, r')) /\
  (closing r = true \/ max_sessions lim <= Z.of_nat (size (sessions r)) ->
     forall a b, admit_session a r = admit_session b r).
Proof.
  intros V R r. pose proof (reachable_ok lim s V R) as O. pose proof (ok_generations _ _ O) as OG. fold r in OG.
  split; [|split; [|split; [|split; [|split]]]].
  - intros a e r' H. apply (admit_session_Err a r e r' H). intros n Pn. destruct (go_published _ _ _ OG a n Pn) as (g & G & _). eauto.
  - intros key d p e r'. apply reserve_Err.
  - intros v x k a revision limit e r' Vx. apply (publish_Err lim s v x k a revision limit e r' O Vx).
  - intros d. exact (withdraw_runs lim s d O).
  - intros v [x Vx]. eexists. apply (release_reservation_run v x r Vx).
  - intros F a b. rewrite <- (ok_limits _ _ O) in F. fold r in F. unfold admit_session. run_reg. destruct (closing r); [reflexivity|]. cbn beta iota.
    destruct F as [F|F]; [discriminate|]. apply Z.leb_le in F. rewrite F. reflexivity.
Qed.

(** ** A run *)

(** One datasource published, a session admitted and left connecting, a second
    generation published in its place, and the shutdown begun. *)
Definition toy_reserved : registry := (reserve (py "crm") (Some (py "crm")) true (new_registry default_limits)).2.
Definition toy_published : registry := (publish 0 (py "crm") (py "vendas") 1 4 toy_reserved).2.
Definition toy_admitted : registry := (admit_session (py "vendas") toy_published).2.
Definition toy_swapped : registry := (publish 0 (py "crm") (py "vendas") 2 4 toy_admitted).2.
Definition toy_closing : registry := (shutdown_begin toy_swapped).2.

Definition toy (r : registry) : system := {| reg_of := r; closer := Idle; to_dispose := [] |}.
Definition toy_shutdown : system := {| reg_of := toy_closing; closer := Requesting [0%nat] [0%nat]; to_dispose := [] |}.

Lemma toy_admits : reachable default_limits (toy toy_admitted).
Proof.
  unfold reachable. apply (rtc_l _ _ (toy toy_reserved)).
  { exists Opens. apply (step_reserve (initial_system default_limits) (py "crm") (Some (py "crm")) true 0%nat). vm_compute. reflexivity. }
  apply (rtc_l _ _ (toy toy_published)).
  { exists Opens. apply (step_publish (toy toy_reserved) 0%nat (py "crm") (py "vendas") 1 4 1%nat None). vm_compute. reflexivity. }
  apply rtc_once. exists Opens. apply (step_admit (toy toy_published) (py "vendas") 0%nat). vm_compute. reflexivity.
Qed.

Lemma toy_shuts : rtc any_step (toy toy_admitted) toy_shutdown.
Proof.
  apply (rtc_l _ _ (toy toy_swapped)).
  { exists Opens. apply (step_publish (toy toy_admitted) 0%nat (py "crm") (py "vendas") 2 4 2%nat None). vm_compute. reflexivity. }
  apply rtc_once. exists Opens. apply (step_shutdown (toy toy_swapped) [0%nat]); [reflexivity|]. vm_compute. reflexivity.
Qed.

Lemma toy_reachable : reachable default_limits toy_shutdown.
Proof. unfold reachable. etransitivity; [exact toy_admits|exact toy_shuts]. Qed.

Lemma shutdown_completes_witness : Acc (flip ending_step) toy_shutdown.
Proof. apply (shutdown_completes default_limits toy_shutdown); [reflexivity|exact toy_reachable|discriminate]. Defined.

Lemma captured_generation_witness : exists g, generations (reg_of toy_shutdown) !! 1%nat = Some g /\ g_closed g = false.
Proof.
  destruct (captured_generation default_limits (toy toy_admitted) toy_shutdown eq_refl toy_admits toy_shuts) as [H _].
  destruct (H 0%nat {| l_generation := 1; l_closed := false; l_terminating := false; l_adapter_closed := false; l_phase := Connecting |}
    {| g_datasource := py "crm"; g_alias := py "vendas"; g_record_revision := 1; g_limit := 4; g_sessions := 1;
       g_retired := false; g_closed := false; g_disposed := false |}) as (l' & g' & _ & _ & G & _ & C);
    [vm_compute; reflexivity|vm_compute; reflexivity|].
  exists g'. split; [exact G|]. apply C. apply (bool_decide_unpack _). vm_compute. exact I.
Defined.

Lemma generation_closes_once_witness : exists g, generations (reg_of toy_shutdown) !! 1%nat = Some g /\ g_retired g = true /\ g_closed g = false.
Proof.
  destruct (generation_closes_once default_limits toy_shutdown eq_refl toy_reachable) as [H _].
  destruct (generations (reg_of toy_shutdown) !! 1%nat) as [g|] eqn:G; [|vm_compute in G; discriminate].
  destruct (H 1%nat g G) as (_ & _ & C & _). exists g. split; [reflexivity|].
  assert (E : g = {| g_datasource := py "crm"; g_alias := py "vendas"; g_record_revision := 1; g_limit := 4; g_sessions := 1;
       g_retired := true; g_closed := false; g_disposed := false |}) by (vm_compute in G |- *; congruence).
  subst g. split; [reflexivity|]. destruct C as [C _]. reflexivity.
Defined.

Lemma datasources_isolated_witness : elsewhere (py "rh") toy_published toy_admitted.
Proof.
  assert (R : reachable default_limits (toy toy_published)).
  { apply (rtc_l _ _ (toy toy_reserved)).
    { exists Opens. apply (step_reserve (initial_system default_limits) (py "crm") (Some (py "crm")) true 0%nat). vm_compute. reflexivity. }
    apply rtc_once. exists Opens. apply (step_publish (toy toy_reserved) 0%nat (py "crm") (py "vendas") 1 4 1%nat None). vm_compute. reflexivity. }
  destruct (datasources_isolated default_limits (toy toy_published) (py "rh") eq_refl R) as [H _].
  apply (H (py "vendas") 1%nat {| g_datasource := py "crm"; g_alias := py "vendas"; g_record_revision := 1; g_limit := 4; g_sessions := 0;
       g_retired := false; g_closed := false; g_disposed := false |} 0%nat); try (vm_compute; reflexivity). vm_compute. discriminate.
Defined.

Lemma limits_hold_witness : Z.of_nat (size (sessions (reg_of toy_shutdown))) <= max_sessions default_limits.
Proof. apply (limits_hold default_limits toy_shutdown eq_refl toy_reachable). Defined.

Lemma refusals_change_nothing_witness : exists b c r', withdraw (py "crm") (reg_of toy_shutdown) = (Ok (b, c), r').
Proof.
  destruct (refusals_change_nothing default_limits toy_shutdown eq_refl toy_reachable) as (_ & _ & _ & W & _).
  destruct (W (py "crm")) as (b & c & r' & E & _). eauto.
Defined.
