(* ===== verification/ConfigFile.v ===== *)
(** * ConfigFile: the configuration's file, written in one piece

    Models the operations of [config/filesystem.py] that the administration
    calls: the snapshot of the file, the backup of an adoption and the atomic
    writing, as system calls that succeed, fail, are interrupted or kill the
    process, having had their effect or not.  Between any two of them other
    programs may edit the file and the queries of this process go on, on the
    registry of runtimes.  Modes, kinds and identities of files are the
    environment's: a check of them is a call that may fail. *)

From S2P Require Import Prelude Bytes.
From S2P Require Registry.
From coqutil Require Import Datatypes.RecordSettersUsingExistingGetters.

(** ** The world *)

(** What a query does to the registry while the administration waits. *)
Inductive query_step := Acquires | Releases (r : nat) | Closes (r : nat).

Definition query_run (q : query_step) (s : Registry.system) : Registry.system :=
  let g := Registry.reg_state s in
  match q with
  | Acquires =>
      match Registry.acquire g with
      | (Ok r, g) => {| Registry.reg_state := g; Registry.held := r :: Registry.held s; Registry.to_close := Registry.to_close s;
                        Registry.adapters_closed := Registry.adapters_closed s; Registry.shut := Registry.shut s |}
      | _ => s
      end
  | Releases r =>
      if bool_decide (r ∈ Registry.held s) then
        match Registry.release r g with
        | (Ok c, g) => {| Registry.reg_state := g; Registry.held := remove_first r (Registry.held s);
                          Registry.to_close := option_list c ++ Registry.to_close s;
                          Registry.adapters_closed := Registry.adapters_closed s; Registry.shut := Registry.shut s |}
        | _ => s
        end
      else s
  | Closes r =>
      if bool_decide (r ∈ Registry.to_close s) then
        {| Registry.reg_state := g; Registry.held := Registry.held s; Registry.to_close := remove_first r (Registry.to_close s);
           Registry.adapters_closed := r :: Registry.adapters_closed s; Registry.shut := Registry.shut s |}
      else s
  end.

(** How a system call ends, and whether it had its effect. *)
Inductive outcome := Done | Fails (performed : bool) | Interrupts (performed : bool) | Dies (performed : bool).

Definition performed (o : outcome) : bool :=
  match o with Done => true | Fails b | Interrupts b | Dies b => b end.

(** What happens at a system call: first what others do, then the call. *)
Record event := { edit : option (list byte); queries : list query_step; result : outcome }.

Definition nothing : event := {| edit := None; queries := []; result := Done |}.

Record world := {
  file_ : list byte;
  temps : gmap nat (list byte);
  backups : gmap Z (list byte);
  runtimes_ : Registry.system;
  script : list event;
  next_token : nat;
  store_closed : bool;
}.

Inductive fs_exn := OSError | Interrupted | UnsafeConfigFilesystem | ConfigWriteError | ConfigOutOfSync
  | ConfigDurability (digest : pystr) | StoreClosed.

(** The end of a run: an exception, or the death of the process. *)
Inductive stop := Raised (e : fs_exn) | Died.

Abbreviation run := (st world stop).

Definition raise {A} (e : fs_exn) : run A := raise_st (Raised e).

Definition others (e : event) (w : world) : world :=
  w <| file_ := default (file_ w) (edit e) |> <| runtimes_ := foldl (fun s q => query_run q s) (runtimes_ w) (queries e) |>.

(** A system call of that effect. *)
Definition sys (effect : world -> world) : run unit := fun w =>
  let e := hd nothing (script w) in
  let w := others e (w <| script := tl (script w) |>) in
  let w := if performed (result e) then effect w else w in
  (match result e with
   | Done => Ok tt
   | Fails _ => Err (Raised OSError)
   | Interrupts _ => Err (Raised Interrupted)
   | Dies _ => Err Died
   end, w).

(** A call that only looks. *)
Definition look : run unit := sys id.

(** [try: m except BaseException as e: handler(e)]; the dead raise nothing. *)
Definition try_with {A} (m : run A) (handler : fs_exn -> run A) : run A := fun w =>
  match m w with
  | (Err (Raised e), w) => handler e w
  | result => result
  end.

Definition is_os_error (e : fs_exn) : bool := match e with OSError => true | _ => false end.

(** [except OSError: value], and [except OSError: raise e]. *)
Definition on_os_error {A} (m handler : run A) : run A :=
  try_with m (fun e => if is_os_error e then handler else raise e).
Definition suppress (m : run unit) : run unit := on_os_error m (mret tt).

(** ** Reading *)

Definition ensure_open : run unit := fun w => if store_closed w then (Err (Raised StoreClosed), w) else (Ok tt, w).

Definition validate_parent : run unit := on_os_error look (raise UnsafeConfigFilesystem).
Definition validate_regular_file : run unit := on_os_error look (raise UnsafeConfigFilesystem).

(** The opening, and the comparison with what was validated. *)
Definition open_validated_regular : run unit :=
  on_os_error look (raise UnsafeConfigFilesystem);;
  on_os_error look (suppress look;; raise UnsafeConfigFilesystem).

Definition content : run (list byte) := fun w => (Ok (file_ w), w).

(** [_read_all]: the bytes of the reading, and the closing whatever happened. *)
Definition read_all : run (list byte) :=
  data ← try_with (look;; c ← content; mret (Some c))
           (fun e => if is_os_error e then mret None else suppress look;; raise e);
  closed ← on_os_error (look;; mret true) (mret false);
  match data with
  | Some c => if closed : bool then mret c else raise UnsafeConfigFilesystem
  | None => raise UnsafeConfigFilesystem
  end.

Section Store.
Context (digest_bytes : list byte -> pystr) (posix : bool).

Record ConfigSnapshot := { snapshot_data : list byte; snapshot_digest : pystr }.

Definition read_snapshot : run ConfigSnapshot :=
  ensure_open;;
  validate_parent;;
  validate_regular_file;;
  open_validated_regular;;
  data ← read_all;
  mret {| snapshot_data := data; snapshot_digest := digest_bytes data |}.

(** [_verify_digest], with the hook that does nothing. *)
Definition verify_digest (expected : pystr) : run unit :=
  s ← read_snapshot;
  if bool_decide (snapshot_digest s = expected) then mret tt else raise ConfigOutOfSync.

(** ** Writing *)

(** A name that no file has. *)
Definition new_temp_path : run nat := fun w => (Ok (next_token w), w <| next_token := S (next_token w) |>).

Definition create_temp_at (t : nat) (w : world) : world := w <| temps ::= <[t := []]> |>.
Definition write_temp_at (t : nat) (data : list byte) (w : world) : world := w <| temps ::= <[t := data]> |>.
Definition remove_temp_at (t : nat) (w : world) : world := w <| temps ::= delete t |>.
Definition replace_at (t : nat) (w : world) : world :=
  w <| file_ := default (file_ w) (temps w !! t) |> <| temps ::= delete t |>.

(** [_unlink_regular_temp], whose result nobody reads here. *)
Definition unlink_regular_temp (t : nat) : run unit :=
  on_os_error (look;; suppress (sys (remove_temp_at t))) (mret tt).

Definition create_temp (t : nat) : run unit :=
  on_os_error (sys (create_temp_at t)) (raise ConfigWriteError);;
  on_os_error look (suppress look;; unlink_regular_temp t;; raise ConfigWriteError).

(** [_write_and_sync_temp]: the writing, [fsync], the closing of the stream;
    and the descriptor, closed once more when one of them failed. *)
Definition write_and_sync_temp (t : nat) (data : list byte) : run bool :=
  on_os_error (sys (write_temp_at t data);; look;; look;; mret true) (suppress look;; mret false).

Definition replace (t : nat) : run bool := on_os_error (sys (replace_at t);; mret true) (mret false).

(** The directory opened, examined and synchronized; it is closed whatever
    happened once it is open. *)
Definition sync_parent_directory : run bool :=
  opened ← on_os_error (look;; mret true) (mret false);
  if negb opened then mret false
  else
    ok ← try_with (look;; look;; mret true) (fun e => if is_os_error e then mret false else suppress look;; raise e);
    suppress look;;
    mret ok.

Record AtomicWriteResult := { written_digest : pystr; directory_fsync_performed : bool }.

(** [write_atomic]; [posix] says whether directories are synchronized. *)
Definition write_atomic (data : list byte) (expected_digest : pystr) : run AtomicWriteResult :=
  ensure_open;;
  verify_digest expected_digest;;
  t ← new_temp_path;
  create_temp t;;
  ok ← write_and_sync_temp t data;
  if negb ok then unlink_regular_temp t;; raise ConfigWriteError
  else
    try_with (verify_digest expected_digest) (fun e => unlink_regular_temp t;; raise e);;
    ok ← replace t;
    if negb ok then unlink_regular_temp t;; raise ConfigWriteError
    else
      let new_digest := digest_bytes data in
      if posix then
        ok ← sync_parent_directory;
        if negb ok then raise (ConfigDurability new_digest)
        else mret {| written_digest := new_digest; directory_fsync_performed := true |}
      else mret {| written_digest := new_digest; directory_fsync_performed := false |}.

(** ** The backup of an adoption *)

Definition create_backup_at (epoch : Z) (w : world) : world :=
  match backups w !! epoch with Some _ => w | None => w <| backups ::= <[epoch := []]> |> end.
Definition write_backup_at (epoch : Z) (data : list byte) (w : world) : world := w <| backups ::= <[epoch := data]> |>.
Definition remove_backup_at (epoch : Z) (w : world) : world := w <| backups ::= delete epoch |>.

Definition unlink_regular_backup (epoch : Z) : run unit :=
  on_os_error (look;; suppress (sys (remove_backup_at epoch))) (mret tt).

(** [write_backup]: the exclusive creation alone, which refuses a name in use;
    then the writing, undone by whatever stops it. *)
Definition write_backup (data : list byte) (epoch : Z) : run unit :=
  ensure_open;;
  taken ← (fun w => (Ok (bool_decide (is_Some (backups w !! epoch))), w));
  if taken : bool then on_os_error look (raise ConfigWriteError);; raise ConfigWriteError
  else
    on_os_error (sys (create_backup_at epoch)) (raise ConfigWriteError);;
    try_with (look;; sys (write_backup_at epoch data);; look;; look)
      (fun e => unlink_regular_backup epoch;; raise (match e with Interrupted => Interrupted | _ => ConfigWriteError end)).

End Store.

(** ** What the calls keep *)

(** The queries that ran meanwhile. *)
Definition queried (s s' : Registry.system) : Prop := exists l, s' = foldl (fun s q => query_run q s) s l.

#[export] Instance queried_preorder : PreOrder queried.
Proof.
  split; [intros s; exists []; reflexivity|]. intros s s1 s2 [l ->] [k ->]. exists (l ++ k). rewrite foldl_app. reflexivity.
Qed.

Lemma query_run_steps q s : rtc Registry.step s (query_run q s).
Proof.
  destruct q as [|r|r]; cbn.
  - destruct (Registry.acquire _) as [[r|e] g] eqn:E; [|reflexivity]. apply rtc_once, (Registry.step_acquire s r g E).
  - destruct (bool_decide_reflect (r ∈ Registry.held s)) as [H|]; [|reflexivity].
    destruct (Registry.release r _) as [[c|e] g] eqn:E; [|reflexivity]. apply rtc_once, (Registry.step_release s r c g H E).
  - destruct (bool_decide_reflect (r ∈ Registry.to_close s)) as [H|]; [|reflexivity].
    assert (P : exists pre post, Registry.to_close s = pre ++ r :: post /\ remove_first r (Registry.to_close s) = pre ++ post).
    { induction (Registry.to_close s) as [|x l IH]; [inversion H|]. cbn [remove_first]. destruct (Nat.eqb_spec x r) as [->|Ne].
      - exists [], l. auto.
      - apply elem_of_cons in H as [->|H]; [congruence|]. destruct (IH H) as (pre & post & E1 & E2). exists (x :: pre), post. cbn. rewrite E1 at 1. rewrite E2. auto. }
    destruct P as (pre & post & E1 & E2). rewrite E2. apply rtc_once, (Registry.step_close s r pre post E1).
Qed.

Lemma queried_steps s s' : queried s s' -> rtc Registry.step s s'.
Proof.
  intros [l ->]. revert s. induction l as [|q l IH]; intros s; [reflexivity|]. cbn. etransitivity; [apply query_run_steps|apply IH].
Qed.

(** The file is as it was, or as an edit of those to come left it. *)
Definition edited_to (w : world) (data : list byte) : Prop := exists e, e ∈ script w /\ edit e = Some data.

(** A call was interrupted, or failed although it had its effect, or the
    process died. *)
Definition spoils (e : event) : Prop := match result e with Done | Fails false => False | _ => True end.
Definition spoiled (w : world) : Prop := exists e, e ∈ script w /\ spoils e.

Section Keeping.
Context {mine : nat -> Prop} {mine_b : Z -> Prop}.

Record kept (w w' : world) : Prop := {
  k_script : script w' `suffix_of` script w;
  k_queries : queried (runtimes_ w) (runtimes_ w');
  k_closed : store_closed w' = store_closed w;
  k_token : (next_token w <= next_token w')%nat;
  k_temps t : ~ mine t -> temps w' !! t = temps w !! t;
  k_backups b : ~ mine_b b -> backups w' !! b = backups w !! b;
}.

Record kept_file (w w' : world) : Prop := {
  kf_kept : kept w w';
  kf_file : file_ w' = file_ w \/ edited_to w (file_ w');
}.

#[export] Instance kept_preorder : PreOrder kept.
Proof.
  split; [intros w; split; auto; reflexivity|]. intros w w1 w2 [A1 A2 A3 A4 A5 A6] [B1 B2 B3 B4 B5 B6].
  split; [etransitivity; eassumption|etransitivity; eassumption|congruence|lia| |].
  - intros t N. rewrite (B5 t N). auto.
  - intros b N. rewrite (B6 b N). auto.
Qed.

Lemma edited_to_suffix w w' d : script w' `suffix_of` script w -> edited_to w' d -> edited_to w d.
Proof. intros [l E] (e & I & D). exists e. split; [|exact D]. rewrite E. apply elem_of_app. auto. Qed.

Lemma spoiled_suffix w w' : script w' `suffix_of` script w -> spoiled w' -> spoiled w.
Proof. intros [l E] (e & I & D). exists e. split; [|exact D]. rewrite E. apply elem_of_app. auto. Qed.

#[export] Instance kept_file_preorder : PreOrder kept_file.
Proof.
  split; [intros w; split; [reflexivity|auto]|]. intros w w1 w2 [K1 F1] [K2 F2]. split; [etransitivity; eassumption|].
  destruct F2 as [F2|F2]; [rewrite F2; exact F1|]. right. apply (edited_to_suffix w w1); [apply K1|exact F2].
Qed.

(** How a run may end that has these exceptions. *)
Definition ends_well (E : fs_exn -> Prop) (e : stop) (w : world) : Prop :=
  match e with Raised e => E e \/ e = Interrupted /\ spoiled w | Died => spoiled w end.

Lemma ends_well_suffix E e w w' : script w' `suffix_of` script w -> ends_well E e w' -> ends_well E e w.
Proof. intros S. destruct e as [e|]; cbn; [intros [H|[H1 H2]]|intros H]; eauto using spoiled_suffix. Qed.

Lemma ends_well_mono (E E' : fs_exn -> Prop) e w : (forall x, E x -> E' x) -> ends_well E e w -> ends_well E' e w.
Proof. intros S. destruct e as [e|]; cbn; [intros [H|H]|]; auto. Qed.

(** A run that only touches what is its own: from any state, the file is left
    to the editors, and the value is such. *)
Definition minds {A} (E : fs_exn -> Prop) (m : run A) (V : A -> world -> world -> Prop) : Prop := forall w,
  runs m (fun r w' => kept_file w w' /\ match r with Ok a => V a w w' | Err e => ends_well E e w end) w.

Definition any {A} (a : A) (w w' : world) : Prop := True.

Lemma minds_ret {A} E (a : A) V : (forall w, V a w w) -> minds E (mret a) V.
Proof. intros H w. apply runs_ret. split; [reflexivity|apply H]. Qed.

Lemma minds_raise {A} E e (V : A -> world -> world -> Prop) : E e -> minds E (raise e) V.
Proof. intros H w. apply runs_raise. split; [reflexivity|]. left. exact H. Qed.

Lemma minds_bind {A C} E (m : run A) (f : A -> run C) V (U : C -> world -> world -> Prop) :
  minds E m V -> (forall a, minds E (f a) (fun c w1 w2 => forall w, kept_file w w1 -> V a w w1 -> U c w w2)) -> minds E (m ≫= f) U.
Proof.
  intros M F w. apply runs_bind. apply (runs_mono _ _ _ _ (M w)). intros [a|e] w1 [K H]; [|auto].
  apply (runs_mono _ _ _ _ (F a w1)). intros [c|e] w2 [K2 H2]; (split; [etransitivity; eassumption|]); [auto|].
  apply (ends_well_suffix _ _ _ _ (k_script _ _ (kf_kept _ _ K)) H2).
Qed.

Lemma minds_seq {A C} E (m : run A) (f : run C) V : minds E m any -> minds E f V -> (forall c w w1 w2, kept_file w w1 -> V c w1 w2 -> V c w w2) ->
  minds E (m;; f) V.
Proof.
  intros M F Tr. eapply minds_bind; [exact M|]. intros u w1. apply (runs_mono _ _ _ _ (F w1)). intros [c|e] w2 [K H]; (split; [exact K|]); eauto.
Qed.

Lemma minds_mono {A} (E E' : fs_exn -> Prop) (m : run A) (V V' : A -> world -> world -> Prop) : minds E m V ->
  (forall e, E e -> E' e) -> (forall a w w', V a w w' -> V' a w w') -> minds E' m V'.
Proof.
  intros M H1 H2 w. apply (runs_mono _ _ _ _ (M w)). intros [a|e] w1 [K H]; (split; [exact K|]); [auto|]. exact (ends_well_mono _ _ _ _ H1 H).
Qed.

Lemma minds_try {A} (E F : fs_exn -> Prop) (m : run A) h V : minds E m V ->
  (forall e, E e -> minds F (h e) (fun a w1 w2 => forall w, kept_file w w1 -> V a w w2)) ->
  minds (fun x => F x \/ x = Interrupted) (h Interrupted) (fun a w1 w2 => forall w, kept_file w w1 -> V a w w2) ->
  minds F (try_with m h) V.
Proof.
  intros M H1 H2 w. pose proof (M w) as R. unfold runs, try_with in R |- *. destruct (m w) as [[a|[e|]] w1]; cbn in R |- *; [exact R| |exact R].
  destruct R as [K R]. pose proof (k_script _ _ (kf_kept _ _ K)) as Su.
  assert (G : runs (h e) (fun r w2 => kept_file w1 w2 /\
    match r with Ok a => forall w, kept_file w w1 -> V a w w2 | Err x => ends_well F x w1 \/ x = Raised Interrupted /\ spoiled w end) w1).
  { destruct R as [R|[-> Sp]].
    - apply (runs_mono _ _ _ _ (H1 e R w1)). intros [a|x] w2 [K2 X]; auto.
    - apply (runs_mono _ _ _ _ (H2 w1)). intros [a|[x|]] w2 [K2 X]; (split; [exact K2|]); cbn in *; [auto| |auto].
      destruct X as [[X|X]|X]; [left; auto|right; subst; auto|left; auto]. }
  unfold runs in G. destruct (h e w1) as [[c|x] w2]; cbn in *; destruct G as [K2 G]; (split; [etransitivity; eassumption|]); [auto|].
  destruct G as [G|[-> G]]; [exact (ends_well_suffix _ _ _ _ Su G)|cbn; auto].
Qed.

Lemma minds_os {A} (E F : fs_exn -> Prop) (m h : run A) V : minds E m V ->
  minds F h (fun a w1 w2 => forall w, kept_file w w1 -> V a w w2) -> (forall e, E e -> is_os_error e = false -> F e) ->
  minds F (on_os_error m h) V.
Proof.
  intros M H N. unfold on_os_error. apply (minds_try E); [exact M| |].
  - intros e Ee. destruct (is_os_error e) eqn:X; [exact H|]. apply minds_raise, N; assumption.
  - apply minds_raise. auto.
Qed.

(** *** The calls *)

Definition os_error (e : fs_exn) : Prop := e = OSError.
Definition never (e : fs_exn) : Prop := False.

(** An effect on what is its own. *)
Definition own (effect : world -> world) : Prop := forall w, kept_file w (effect w).

Lemma own_id : own id.
Proof. intros w. reflexivity. Qed.

Lemma others_kept w : kept_file w (others (hd nothing (script w)) (w <| script := tl (script w) |>)).
Proof.
  split; [split|]; cbn; auto.
  - destruct (script w) as [|e l]; [exists []; reflexivity|exists [e]; reflexivity].
  - eexists. reflexivity.
  - destruct (script w) as [|e l] eqn:S; [left; reflexivity|]. cbn. destruct (edit e) as [d|] eqn:D; [right|left; reflexivity].
    exists e. rewrite S. split; [left|exact D].
Qed.

Lemma result_spoils w : (match result (hd nothing (script w)) with Done | Fails false => False | _ => True end) -> spoiled w.
Proof.
  destruct (script w) as [|e l] eqn:S; cbn; [tauto|]. intros H. exists e. rewrite S. split; [left|exact H].
Qed.

(** How a call went: not at all, or once the others had gone first. *)
Definition called (effect : world -> world) (w w' : world) : Prop := exists w1, kept_file w w1 /\ w' = effect w1.

Lemma sys_runs effect w : runs (sys effect) (fun r w' => exists w1, (kept_file w w1 /\ script w1 = tl (script w)) /\
  match r with
  | Ok _ => w' = effect w1
  | Err (Raised OSError) => w' = w1 \/ w' = effect w1 /\ spoiled w
  | Err (Raised Interrupted) | Err Died => (w' = w1 \/ w' = effect w1) /\ spoiled w
  | Err _ => False
  end) w.
Proof.
  unfold runs, sys. pose proof (others_kept w) as K. pose proof (result_spoils w) as Sp.
  set (w1 := others _ _) in *. exists w1. split; [split; [exact K|reflexivity]|].
  destruct (result (hd nothing (script w))) as [|[]|[]|[]]; cbn; auto.
Qed.

Lemma minds_sys effect : own effect -> minds os_error (sys effect) (fun _ => called effect).
Proof.
  intros O w. apply (runs_mono _ _ _ _ (sys_runs effect w)). intros r w' (w1 & [K _] & H).
  assert (K2 : w' = effect w1 -> kept_file w w') by (intros ->; etransitivity; [exact K|apply O]).
  destruct r as [[]|[e|]]; [split; [auto|exists w1; auto]| |].
  - destruct e; try contradiction; (split; [|cbn; unfold os_error; tauto]); intuition (subst; auto).
  - split; [|apply H]. intuition (subst; auto).
Qed.

Lemma minds_look : minds os_error look any.
Proof. apply (minds_mono os_error os_error _ _ any (minds_sys id own_id)); unfold any; auto. Qed.

(** It takes one event of the script. *)
Lemma minds_turn : minds os_error look (fun _ w w' => script w' = tl (script w)).
Proof.
  intros w. apply (runs_mono _ _ _ _ (sys_runs id w)). intros r w' (w1 & [K Sc] & H).
  assert (K2 : w' = w1 -> kept_file w w') by (intros ->; exact K). destruct r as [u|[e|]].
  - split; [auto|]. rewrite H. exact Sc.
  - destruct e; try contradiction; (split; [|cbn; unfold os_error; tauto]); intuition.
  - split; [|apply H]. intuition.
Qed.

Lemma minds_seq_any {A C} E (m : run A) (f : run C) : minds E m any -> minds E f any -> minds E (m;; f) any.
Proof. intros M F. apply (minds_seq E m f any M F). unfold any. auto. Qed.

Lemma minds_bind_any {A C} E (m : run A) (f : A -> run C) : minds E m any -> (forall a, minds E (f a) any) -> minds E (m ≫= f) any.
Proof.
  intros M F. apply (minds_bind E m f any any M). intros a. apply (minds_mono E E _ _ _ (F a)); unfold any; auto.
Qed.

Lemma minds_os_any {A} (E F : fs_exn -> Prop) (m h : run A) : minds E m any -> minds F h any -> (forall e, E e -> is_os_error e = false -> F e) ->
  minds F (on_os_error m h) any.
Proof. intros M H N. apply (minds_os E F m h any M); [|exact N]. apply (minds_mono F F _ _ _ H); unfold any; auto. Qed.

Lemma os_caught F e : os_error e -> is_os_error e = false -> F e.
Proof. intros ->. discriminate. Qed.

Lemma minds_ret_any {A} E (a : A) : minds E (mret a) any.
Proof. apply minds_ret. unfold any. auto. Qed.

Lemma minds_raise_any {A} (E : fs_exn -> Prop) e : E e -> minds E (raise e : run A) any.
Proof. apply minds_raise. Qed.

Lemma minds_suppress E m : minds os_error m any -> minds E (suppress m) any.
Proof. intros M. apply (minds_os_any os_error E); [exact M|apply minds_ret_any|apply os_caught]. Qed.

Lemma minds_never {A} (E : fs_exn -> Prop) (m : run A) V : minds never m V -> minds E m V.
Proof. intros M. apply (minds_mono never E m V V M); unfold never; tauto. Qed.

(** *** Reading *)

Definition unsafe (e : fs_exn) : Prop := e = UnsafeConfigFilesystem \/ e = StoreClosed.

Lemma minds_ensure_open (E : fs_exn -> Prop) : E StoreClosed -> minds E ensure_open any.
Proof.
  intros H w. unfold runs, ensure_open. destruct (store_closed w); cbn; (split; [reflexivity|]); [left; exact H|exact I].
Qed.

Lemma minds_check : minds unsafe (on_os_error look (raise UnsafeConfigFilesystem)) any.
Proof. apply (minds_os_any os_error); [exact minds_look|apply minds_raise_any; left; reflexivity|apply os_caught]. Qed.

Lemma minds_open : minds unsafe open_validated_regular any.
Proof.
  apply minds_seq_any; [exact minds_check|]. apply (minds_os_any os_error); [exact minds_look| |apply os_caught].
  apply minds_seq_any; [apply minds_suppress, minds_look|apply minds_raise_any; left; reflexivity].
Qed.

(** What was read is what the file was at some moment of the run, the last but
    for the closing. *)
Definition seen (data : list byte) (w w' : world) : Prop :=
  exists w1, kept_file w w1 /\ kept_file w1 w' /\ script w' = tl (script w1) /\ data = file_ w1.

Lemma seen_before data w w1 w2 : kept_file w w1 -> seen data w1 w2 -> seen data w w2.
Proof. intros K (x & K1 & H). exists x. split; [etransitivity; eassumption|exact H]. Qed.

Lemma minds_read_all : minds unsafe read_all seen.
Proof.
  unfold read_all. apply (minds_bind unsafe _ _ (fun x w w' => match x with Some d => d = file_ w' | None => True end)).
  - apply (minds_try os_error).
    + apply (minds_bind os_error _ _ any); [exact minds_look|]. intros u w. unfold runs. cbn. split; [reflexivity|]. intros w0 _ _. reflexivity.
    + intros e ->. apply minds_ret. auto.
    + cbn. apply (minds_seq _ _ _ (fun x w1 w2 => forall w, kept_file w w1 -> match x with Some d => d = file_ w2 | None => True end));
        [apply minds_suppress, minds_look|apply minds_raise; auto|intros c w w1 w2 K H w0 K0; apply (H w1); reflexivity].
  - intros x. apply (minds_bind unsafe _ _ (fun ok w w' => kept_file w w' /\ (ok = true -> script w' = tl (script w)))).
    + apply (minds_os os_error); [|intros w; apply runs_ret; split; [reflexivity|]; intros w0 K0; split; [exact K0|discriminate]|apply os_caught].
      intros w. apply runs_bind, (runs_mono _ _ _ _ (minds_turn w)). intros [u|e] w1 [K H]; [|auto].
      apply runs_ret. split; [exact K|]. auto.
    + intros ok. destruct x as [d|]; [|apply minds_raise; left; reflexivity]. destruct ok; [|apply minds_raise; left; reflexivity].
      apply minds_ret. intros w1 w K [K1 Sc] w0 K0 ->. exists w. auto.
Qed.

End Keeping.

Arguments kept mine mine_b w w' : clear implicits.
Arguments kept_file mine mine_b w w' : clear implicits.
Arguments minds mine mine_b {A} E m V.
Arguments seen mine mine_b data w w' : clear implicits.

Definition none {A} (x : A) : Prop := False.

Lemma kept_weaken (mine mine' : nat -> Prop) (mine_b mine_b' : Z -> Prop) w w' : (forall t, mine t -> mine' t) -> (forall b, mine_b b -> mine_b' b) ->
  kept mine mine_b w w' -> kept mine' mine_b' w w'.
Proof. intros H1 H2 [A1 A2 A3 A4 A5 A6]. split; auto. Qed.

Lemma kept_file_weaken (mine mine' : nat -> Prop) (mine_b mine_b' : Z -> Prop) w w' : (forall t, mine t -> mine' t) -> (forall b, mine_b b -> mine_b' b) ->
  kept_file mine mine_b w w' -> kept_file mine' mine_b' w w'.
Proof. intros H1 H2 [K F]. split; [exact (kept_weaken _ _ _ _ _ _ H1 H2 K)|exact F]. Qed.

Lemma kept_any mine mine_b w w' : kept_file none none w w' -> kept_file mine mine_b w w'.
Proof. apply kept_file_weaken; unfold none; tauto. Qed.

(** *** The writing *)

Definition out_of_sync (e : fs_exn) : Prop := unsafe e \/ e = ConfigOutOfSync.
Definition not_written (e : fs_exn) : Prop := e = ConfigWriteError.
Definition refused (e : fs_exn) : Prop := out_of_sync e \/ not_written e.

Section Writing.
Context (digest_bytes : list byte -> pystr) (posix : bool).

(** Its content had that digest when it was read, one call ago. *)
Definition matched mine mine_b (d : pystr) (w w' : world) : Prop :=
  exists w1, kept_file mine mine_b w w1 /\ kept_file mine mine_b w1 w' /\ script w' = tl (script w1) /\ digest_bytes (file_ w1) = d.

Lemma minds_snapshot mine mine_b : minds mine mine_b unsafe (read_snapshot digest_bytes) (fun s w w' =>
  seen mine mine_b (snapshot_data s) w w' /\ snapshot_digest s = digest_bytes (snapshot_data s)).
Proof.
  unfold read_snapshot.
  assert (B : forall C (m : run unit) (f : run C) (U : C -> world -> world -> Prop), minds mine mine_b unsafe m any -> minds mine mine_b unsafe f U ->
    (forall c w w1 w2, kept_file mine mine_b w w1 -> U c w1 w2 -> U c w w2) -> minds mine mine_b unsafe (m;; f) U) by (intros; apply minds_seq; assumption).
  assert (Tr : forall (c : ConfigSnapshot) w w1 w2, kept_file mine mine_b w w1 ->
    seen mine mine_b (snapshot_data c) w1 w2 /\ snapshot_digest c = digest_bytes (snapshot_data c) ->
    seen mine mine_b (snapshot_data c) w w2 /\ snapshot_digest c = digest_bytes (snapshot_data c))
    by (intros c w w1 w2 K [S D]; split; [apply (seen_before _ w w1); assumption|exact D]).
  apply B; [apply minds_ensure_open; right; reflexivity| |exact Tr]. apply B; [apply minds_check| |exact Tr].
  apply B; [apply minds_check| |exact Tr]. apply B; [apply minds_open| |exact Tr].
  apply (minds_bind _ _ _ (seen mine mine_b)); [apply minds_read_all|].
  intros d. apply minds_ret. intros w w0 K S. cbn. auto.
Qed.

Lemma minds_verify mine mine_b d : minds mine mine_b out_of_sync (verify_digest digest_bytes d) (fun _ => matched mine mine_b d).
Proof.
  unfold verify_digest. eapply minds_bind.
  - apply (minds_mono unsafe out_of_sync _ _ _ (minds_snapshot mine mine_b)); [unfold out_of_sync; auto|]. intros s w w' H. exact H.
  - intros s. cbn beta. destruct (bool_decide_reflect (snapshot_digest s = d)) as [D|D]; [|apply minds_raise; right; reflexivity].
    apply minds_ret. intros w w0 K [(w1 & K1 & K2 & Sc & E1) E2]. exists w1. rewrite <- E1, <- E2. auto.
Qed.

Lemma own_temp t (mine : nat -> Prop) mine_b (f : gmap nat (list byte) -> gmap nat (list byte)) : mine t ->
  (forall m t', t' <> t -> f m !! t' = m !! t') -> own (mine := mine) (mine_b := mine_b) (fun w => w <| temps ::= f |>).
Proof.
  intros M F w. split; [split|left; reflexivity]; cbn; auto; try reflexivity. intros t' N. apply F. intros ->. contradiction.
Qed.

Lemma minds_unlink_temp t (mine : nat -> Prop) mine_b E : mine t -> minds mine mine_b E (unlink_regular_temp t) any.
Proof.
  intros M. apply (minds_os_any os_error); [|apply minds_ret_any|apply os_caught].
  apply minds_seq_any; [apply minds_look|]. apply minds_suppress.
  apply (minds_mono os_error os_error _ _ any (minds_sys _ (own_temp t mine mine_b (delete t) M (fun m t' N => lookup_delete_ne m t t' (not_eq_sym N))))); unfold any; auto.
Qed.

Lemma minds_create_temp t (mine : nat -> Prop) mine_b : mine t -> minds mine mine_b not_written (create_temp t) any.
Proof.
  intros M. unfold create_temp. apply minds_seq_any; apply (minds_os_any os_error).
  - apply (minds_mono os_error os_error _ _ any (minds_sys _ (own_temp t mine mine_b (<[t := []]>) M (fun m t' N => lookup_insert_ne m t t' [] (not_eq_sym N))))); unfold any; auto.
  - apply minds_raise_any. reflexivity.
  - apply os_caught.
  - apply minds_look.
  - apply minds_seq_any; [apply minds_suppress, minds_look|]. apply minds_seq_any; [apply minds_unlink_temp, M|apply minds_raise_any; reflexivity].
  - apply os_caught.
Qed.

(** What was written is what the temporary file holds. *)
Lemma minds_write_temp t data (mine : nat -> Prop) mine_b E : mine t ->
  minds mine mine_b E (write_and_sync_temp t data) (fun ok _ w' => ok = true -> temps w' !! t = Some data).
Proof.
  intros M. unfold write_and_sync_temp. apply (minds_os os_error).
  - intros w. apply runs_bind.
    apply (runs_mono _ _ _ _ (minds_sys _ (own_temp t mine mine_b (<[t := data]>) M (fun m t' N => lookup_insert_ne m t t' data (not_eq_sym N))) w)).
    intros [u|e] w1 [K C]; [|split; [exact K|exact C]]. destruct C as (w0 & K0 & ->).
    assert (X : minds none none os_error (look;; look;; mret true) any) by
      (apply minds_seq_any; [apply minds_look|]; apply minds_seq_any; [apply minds_look|apply minds_ret_any]).
    apply (runs_mono _ _ _ _ (X (w0 <| temps ::= <[t:=data]> |>))). intros r w2 [K2 H].
    assert (K3 : kept_file mine mine_b w w2) by (etransitivity; [exact K|apply kept_any, K2]). destruct r as [b|e].
    + split; [exact K3|]. intros _. rewrite (k_temps _ _ (kf_kept _ _ K2) t); [|unfold none; auto]. cbn. apply lookup_insert_eq.
    + split; [exact K3|]. apply (ends_well_suffix _ _ _ _ (k_script _ _ (kf_kept _ _ K)) H).
  - apply minds_seq; [apply minds_suppress, minds_look|apply minds_ret; discriminate|eauto].
  - apply os_caught.
Qed.

(** The file is [data], put in its place two calls after its content had that
    digest; or what an edit made of it since. *)
Definition installed (d : pystr) (data : list byte) (w w' : world) : Prop :=
  exists w1 w2, kept_file (le (next_token w)) none w w1 /\ digest_bytes (file_ w1) = d /\
    file_ w2 = data /\ script w2 = drop 2 (script w1) /\ kept_file (le (next_token w)) none w2 w'.

Lemma suffix_drop {A} n (l : list A) : drop n l `suffix_of` l.
Proof. exists (take n l). symmetry. apply take_drop. Qed.

Lemma installed_file d data w w' : installed d data w w' -> file_ w' = data \/ edited_to w (file_ w').
Proof.
  intros (w1 & w2 & K1 & M & F & S & K2). destruct (kf_file _ _ K2) as [E|E]; [left; congruence|right].
  apply (edited_to_suffix w w2); [|exact E]. rewrite S. etransitivity; [apply suffix_drop|exact (k_script _ _ (kf_kept _ _ K1))].
Qed.

(** How [write_atomic] ends: the file is in place, or nothing was done, or an
    accident says which. *)
Definition written (d : pystr) (data : list byte) (w : world) (r : res stop AtomicWriteResult) (w' : world) : Prop :=
  kept (le (next_token w)) none w w' /\
  match r with
  | Ok x => written_digest x = digest_bytes data /\ directory_fsync_performed x = posix /\ installed d data w w'
  | Err (Raised (ConfigDurability x)) => x = digest_bytes data /\ installed d data w w'
  | Err e => ends_well refused e w /\ (kept_file (le (next_token w)) none w w' \/ spoiled w /\ installed d data w w')
  end.

Lemma minds_sync : forall mine mine_b E, minds mine mine_b E sync_parent_directory any.
Proof.
  intros mine mine_b E. unfold sync_parent_directory. apply minds_bind_any.
  - apply (minds_os_any os_error); [|apply minds_ret_any|apply os_caught]. apply minds_seq_any; [apply minds_look|apply minds_ret_any].
  - intros [|]; cbn; [|apply minds_ret_any]. apply minds_bind_any.
    + apply (minds_try os_error).
      * apply minds_seq_any; [apply minds_look|]. apply minds_seq_any; [apply minds_look|apply minds_ret_any].
      * intros e ->. apply minds_ret. unfold any. auto.
      * cbn. apply minds_seq; [apply minds_suppress, minds_look|apply minds_raise; auto|unfold any; auto].
    + intros ok. apply minds_seq_any; [apply minds_suppress, minds_look|apply minds_ret_any].
Qed.

Lemma minds_runs {A} mine mine_b E (m : run A) V w0 w Q : minds mine mine_b E m V -> kept_file mine mine_b w0 w ->
  (forall a w', kept_file mine mine_b w w' -> kept_file mine mine_b w0 w' -> V a w w' -> Q (Ok a) w') ->
  (forall e w', kept_file mine mine_b w0 w' -> ends_well E e w0 -> Q (Err e) w') -> runs m Q w.
Proof.
  intros M K H1 H2. apply (runs_mono _ _ _ _ (M w)). intros [a|e] w' [K' R]; [apply H1; auto|apply H2; [|]]; try (etransitivity; eassumption).
  apply (ends_well_suffix _ _ _ _ (k_script _ _ (kf_kept _ _ K)) R).
Qed.

Lemma written_refused d data w w' e : kept_file (le (next_token w)) none w w' -> ends_well refused e w -> written d data w (Err e) w'.
Proof.
  intros K H. split; [apply K|]. destruct e as [e|]; [|auto]. destruct e; auto. exfalso. cbn in H. unfold refused, out_of_sync, unsafe, not_written in H.
  intuition discriminate.
Qed.

Lemma ends_refused (E : fs_exn -> Prop) e w : (forall x, E x -> refused x) -> ends_well E e w -> ends_well refused e w.
Proof. apply ends_well_mono. Qed.

Lemma accident d data w w' e : kept (le (next_token w)) none w w' -> installed d data w w' -> ends_well never e w -> written d data w (Err e) w'.
Proof.
  intros K I H. split; [exact K|]. destruct e as [e|]; cbn in H.
  - destruct H as [[]|[-> H]]. split; [right; auto|auto].
  - split; [exact H|auto].
Qed.

(** The replacement, and what follows it. *)
Lemma replace_written t d data w w1 : (next_token w <= t)%nat -> kept_file (le (next_token w)) none w w1 ->
  matched (le (next_token w)) none d w w1 -> temps w1 !! t = Some data ->
  runs (ok ← replace t;
    if negb ok then unlink_regular_temp t;; raise ConfigWriteError
    else let new_digest := digest_bytes data in
      if posix then
        ok ← sync_parent_directory;
        if negb ok then raise (ConfigDurability new_digest)
        else mret {| written_digest := new_digest; directory_fsync_performed := true |}
      else mret {| written_digest := new_digest; directory_fsync_performed := false |}) (written d data w) w1.
Proof.
  intros L K M Tm. assert (Mt : le (next_token w) t) by exact L. apply runs_bind. unfold replace, on_os_error, try_with, runs at 1.
  pose proof (sys_runs (mine := none) (mine_b := none) (replace_at t) w1) as R. unfold runs in R. unfold mbind, st_bind.
  destruct (sys (replace_at t) w1) as [r w2]. cbn [fst snd] in R. destruct R as (w1' & [K1 Sc] & R).
  assert (Su : script w1' `suffix_of` script w) by (etransitivity; [apply (k_script _ _ (kf_kept _ _ K1))|apply (k_script _ _ (kf_kept _ _ K))]).
  assert (K1' : kept_file (le (next_token w)) none w w1') by (etransitivity; [exact K|apply kept_any, K1]).
  assert (Tm' : temps w1' !! t = Some data) by (rewrite (k_temps _ _ (kf_kept _ _ K1) t); [exact Tm|unfold none; auto]).
  assert (I : forall w3, kept_file (le (next_token w)) none (replace_at t w1') w3 -> kept (le (next_token w)) none w w3 /\ installed d data w w3).
  { intros w3 K3. split.
    - etransitivity; [apply K1'|]. etransitivity; [|apply K3]. split; cbn; auto; try reflexivity. intros t' N. apply lookup_delete_ne. intros ->. contradiction.
    - destruct M as (x & A & _ & Sx & Dx). exists x, (replace_at t w1'). split; [exact A|]. split; [exact Dx|].
      split; [cbn; rewrite Tm'; reflexivity|]. split; [|exact K3]. cbn [replace_at script]. change (script w1' = drop 2 (script x)).
      rewrite Sc, Sx. destruct (script x) as [|? []]; reflexivity. }
  assert (I0 := I (replace_at t w1') ltac:(reflexivity)).
  assert (Sp : spoiled w1 -> spoiled w) by (apply (spoiled_suffix w w1 (k_script _ _ (kf_kept _ _ K)))).
  assert (Bad : forall e, (e = Raised Interrupted \/ e = Died) -> (w2 = w1' \/ w2 = replace_at t w1') -> spoiled w -> written d data w (Err e) w2).
  { intros e He Hw Hs. assert (Ee : ends_well refused e w) by (destruct He as [-> | ->]; cbn; auto). destruct Hw as [-> | ->]; [apply written_refused; assumption|].
    split; [apply I0|]. destruct He as [-> | ->]; (split; [exact Ee|right; split; [exact Hs|apply I0]]). }
  destruct r as [[]|[e|]]; [|destruct e; try contradiction|]; cbn [is_os_error fst snd].
  - subst w2. cbn [fst snd mret st_ret negb]. cbv zeta. destruct posix eqn:Px.
    + apply runs_bind. apply (minds_runs (le (next_token w)) none never _ any (replace_at t w1') (replace_at t w1')); [apply minds_sync|reflexivity| |].
      * intros [|] w3 K3 _ _; cbn [negb]; (split; [apply I, K3|]); cbn; (split; [reflexivity|]); [split; [auto|]|]; apply I, K3.
      * intros e w3 K3 H. destruct (I w3 K3) as [I1 I2]. apply accident; [exact I1|exact I2|].
        apply (ends_well_suffix _ _ w (replace_at t w1')); [exact Su|exact H].
    + apply runs_ret. split; [apply I0|]. cbn. split; [reflexivity|]. split; [auto|]. apply I0.
  - cbn [mret st_ret negb fst snd]. assert (U : minds (le (next_token w)) none never (unlink_regular_temp t) any) by (apply minds_unlink_temp, Mt).
    apply runs_bind. destruct R as [->|[-> Hs]].
    + apply (minds_runs (le (next_token w)) none _ _ _ w1' w1' _ U); [reflexivity| |].
      * intros u w3 K3 _ _. apply written_refused; [etransitivity; eassumption|]. left. right. reflexivity.
      * intros e w3 K3 H. apply written_refused; [etransitivity; eassumption|]. apply (ends_refused never); [unfold never; tauto|].
        apply (ends_well_suffix _ _ w w1'); assumption.
    + apply (minds_runs (le (next_token w)) none _ _ _ (replace_at t w1') (replace_at t w1') _ U); [reflexivity| |].
      * intros u w3 K3 _ _. destruct (I w3 K3) as [I1 I2]. split; [exact I1|]. split; [left; right; reflexivity|auto].
      * intros e w3 K3 H. destruct (I w3 K3) as [I1 I2]. apply accident; [exact I1|exact I2|].
        apply (ends_well_suffix _ _ w (replace_at t w1')); assumption.
  - apply Bad; [auto|apply R|apply Sp, R].
  - apply Bad; [auto|apply R|apply Sp, R].
Qed.

(** The second check: the temporary file is still there when it passes, and is
    removed when it does not. *)
Lemma after_check t d data w w1 (Q : res stop unit -> world -> Prop) : kept_file (le (next_token w)) none w w1 -> temps w1 !! t = Some data ->
  (next_token w <= t)%nat ->
  (forall w2, kept_file (le (next_token w)) none w w2 -> matched (le (next_token w)) none d w w2 -> temps w2 !! t = Some data -> Q (Ok tt) w2) ->
  (forall e w2, kept_file (le (next_token w)) none w w2 -> ends_well refused e w -> Q (Err e) w2) ->
  runs (try_with (verify_digest digest_bytes d) (fun e => unlink_regular_temp t;; raise e)) Q w1.
Proof.
  intros K T L H1 H2. pose proof (minds_verify none none d w1) as V. unfold runs, try_with in V |- *.
  destruct (verify_digest digest_bytes d w1) as [[[]|e] w2]; cbn [fst snd] in V |- *; destruct V as [K2 V].
  - apply H1; [etransitivity; [exact K|apply kept_any, K2]| |].
    + destruct V as (x & A & B & C). exists x. split; [etransitivity; [exact K|apply kept_any, A]|]. split; [apply kept_any, B|exact C].
    + rewrite (k_temps _ _ (kf_kept _ _ K2) t); [exact T|unfold none; auto].
  - assert (K3 : kept_file (le (next_token w)) none w w2) by (etransitivity; [exact K|apply kept_any, K2]).
    assert (E : ends_well refused e w).
    { apply (ends_refused out_of_sync); [unfold refused; auto|]. apply (ends_well_suffix _ _ w w1 (k_script _ _ (kf_kept _ _ K))), V. }
    destruct e as [e|]; cbn [fst snd]; [|apply H2; assumption].
    change (runs (unlink_regular_temp t;; raise e) Q w2).
    assert (U : minds (le (next_token w)) none never (unlink_regular_temp t) any) by apply (minds_unlink_temp t _ none never L).
    apply runs_bind, (minds_runs (le (next_token w)) none never _ any w w2); [exact U|exact K3| |].
    + intros u w3 _ K4 _. apply H2; assumption.
    + intros x w3 K4 X. apply H2; [exact K4|]. apply (ends_refused never); [unfold never; tauto|exact X].
Qed.

(** Whatever the others do and however the calls end, [write_atomic] ends so. *)
Lemma write_atomic_runs data d w : runs (write_atomic digest_bytes posix data d) (written d data w) w.
Proof.
  set (fresh := le (next_token w)). unfold write_atomic.
  assert (Stop : forall (E : fs_exn -> Prop) e w', (forall x, E x -> refused x) -> kept_file fresh none w w' -> ends_well E e w ->
    written d data w (Err e) w') by (intros E e w' H K X; apply written_refused; [exact K|exact (ends_refused E e w H X)]).
  apply runs_bind, (minds_runs fresh none unsafe _ any w w); [apply minds_ensure_open; right; reflexivity|reflexivity| |intros e w1 K; apply Stop; [unfold refused, out_of_sync; auto|exact K]].
  intros _ w1 _ K1 _.
  apply runs_bind, (minds_runs fresh none out_of_sync _ (fun _ => matched fresh none d) w w1); [apply minds_verify|exact K1| |
    intros e w2 K; apply Stop; [unfold refused; auto|exact K]].
  intros _ w2 _ K2 _. apply runs_bind. unfold new_temp_path. cbv beta. unfold runs at 1. cbn [fst snd].
  set (t := next_token w2). set (w3 := w2 <| next_token := S t |>).
  assert (Mt : fresh t) by apply (k_token _ _ (kf_kept _ _ K2)).
  assert (K3 : kept_file fresh none w w3).
  { etransitivity; [exact K2|]. split; [split|left; reflexivity]; cbn; auto; try reflexivity. unfold const. lia. }
  apply runs_bind, (minds_runs fresh none not_written _ any w w3); [apply minds_create_temp, Mt|exact K3| |
    intros e w4 K; apply Stop; [unfold refused; auto|exact K]].
  intros _ w4 _ K4 _.
  apply runs_bind, (minds_runs fresh none never _ (fun ok _ w' => ok = true -> temps w' !! t = Some data) w w4);
    [apply minds_write_temp, Mt|exact K4| |intros e w5 K; apply Stop; [unfold never; tauto|exact K]].
  intros ok w5 _ K5 T5.
  assert (U : minds fresh none never (unlink_regular_temp t) any) by apply (minds_unlink_temp t fresh none never Mt).
  destruct ok; cbn [negb].
  - specialize (T5 eq_refl). apply runs_bind.
    apply (after_check t d data w w5); [exact K5|exact T5|exact Mt| |intros e w6 K H; apply written_refused; assumption].
    intros w6 K6 M6 T6. exact (replace_written t d data w w6 Mt K6 M6 T6).
  - apply runs_bind, (minds_runs fresh none never _ any w w5); [exact U|exact K5| |intros e w6 K; apply Stop; [unfold never; tauto|exact K]].
    intros _ w6 _ K6 _. apply written_refused; [exact K6|]. left. right. reflexivity.
Qed.

(** *** The backup *)

Definition no_backup (e : fs_exn) : Prop := e = ConfigWriteError \/ e = StoreClosed.

Lemma own_backup b mine (mine_b : Z -> Prop) effect : mine_b b -> (forall w, file_ (effect w) = file_ w /\ script (effect w) = script w /\
    runtimes_ (effect w) = runtimes_ w /\ store_closed (effect w) = store_closed w /\ next_token (effect w) = next_token w /\ temps (effect w) = temps w /\
    forall b', b' <> b -> backups (effect w) !! b' = backups w !! b') -> own (mine := mine) (mine_b := mine_b) effect.
Proof.
  intros M F w. destruct (F w) as (F1 & F2 & F3 & F4 & F5 & F6 & F7). split; [split|left; exact F1].
  - rewrite F2. reflexivity.
  - rewrite F3. reflexivity.
  - exact F4.
  - rewrite F5. reflexivity.
  - intros t _. rewrite F6. reflexivity.
  - intros b' N. apply F7. intros ->. contradiction.
Qed.

Lemma own_create_backup b mine : own (mine := mine) (mine_b := eq b) (create_backup_at b).
Proof.
  apply (own_backup b); [reflexivity|]. intros w. unfold create_backup_at. destruct (backups w !! b); cbn; repeat split; auto.
  intros b' N. apply lookup_insert_ne. auto.
Qed.

Lemma own_write_backup b data mine : own (mine := mine) (mine_b := eq b) (write_backup_at b data).
Proof. apply (own_backup b); [reflexivity|]. intros w. cbn. repeat split; auto. intros b' N. apply lookup_insert_ne. auto. Qed.

Lemma own_remove_backup b mine : own (mine := mine) (mine_b := eq b) (remove_backup_at b).
Proof. apply (own_backup b); [reflexivity|]. intros w. cbn. repeat split; auto. intros b' N. apply lookup_delete_ne. auto. Qed.

Lemma minds_sys_any mine mine_b effect : own (mine := mine) (mine_b := mine_b) effect -> minds mine mine_b os_error (sys effect) any.
Proof. intros O. apply (minds_mono os_error os_error _ _ any (minds_sys _ O)); unfold any; auto. Qed.

Lemma minds_unlink_backup b mine E : minds mine (eq b) E (unlink_regular_backup b) any.
Proof.
  apply (minds_os_any os_error); [|apply minds_ret_any|apply os_caught].
  apply minds_seq_any; [apply minds_look|]. apply minds_suppress, minds_sys_any, own_remove_backup.
Qed.

(** A run of looks changes neither temporary files nor backups. *)
Lemma minds_fill_backup data b : minds none (eq b) no_backup
  (try_with (look;; sys (write_backup_at b data);; look;; look)
    (fun e => unlink_regular_backup b;; raise (match e with Interrupted => Interrupted | _ => ConfigWriteError end)))
  (fun _ _ w' => backups w' !! b = Some data).
Proof.
  apply (minds_try os_error).
  - eapply minds_seq; [apply minds_look| |intros u w w1 w2 K H; exact H]. intros w. apply runs_bind.
    apply (runs_mono _ _ _ _ (minds_sys _ (own_write_backup b data none) w)).
    intros [u|e] w1 [K C]; [|split; [exact K|exact C]]. destruct C as (w0 & K0 & ->).
    assert (X : minds none none os_error (look;; look) any) by (apply minds_seq_any; apply minds_look).
    apply (runs_mono _ _ _ _ (X (write_backup_at b data w0))). intros r w2 [K2 H].
    split; [etransitivity; [exact K|apply kept_any, K2]|]. destruct r as [[]|e].
    + rewrite (k_backups _ _ (kf_kept _ _ K2) b); [|unfold none; auto]. cbn. apply lookup_insert_eq.
    + apply (ends_well_suffix _ _ _ _ (k_script _ _ (kf_kept _ _ K)) H).
  - intros e ->. apply minds_seq; [apply minds_unlink_backup|apply minds_raise; left; reflexivity|eauto].
  - cbn. apply minds_seq; [apply minds_unlink_backup|apply minds_raise; auto|eauto].
Qed.

(** A backup has the bytes it was given, under a name that was free; it never
    takes the place of another. *)
Lemma write_backup_runs data b w : runs (write_backup data b) (fun r w' => kept_file none (eq b) w w' /\
  (is_Some (backups w !! b) -> backups w' !! b = backups w !! b) /\
  match r with Ok _ => backups w !! b = None /\ backups w' !! b = Some data | Err e => ends_well no_backup e w end) w.
Proof.
  unfold write_backup. pose proof (kept_any none (eq b)) as KA.
  assert (Stop : forall e w', kept_file none none w w' -> ends_well no_backup e w -> kept_file none (eq b) w w' /\
    (is_Some (backups w !! b) -> backups w' !! b = backups w !! b) /\ ends_well no_backup e w).
  { intros e w' K H. split; [apply KA, K|]. split; [|exact H]. intros _. apply (k_backups _ _ (kf_kept _ _ K)). unfold none. auto. }
  apply runs_bind, (minds_runs none none no_backup _ any w w); [apply minds_ensure_open; right; reflexivity|reflexivity| |auto].
  intros _ w1 _ K1 _. apply runs_bind. unfold runs at 1. cbn [fst snd].
  assert (B1 : backups w1 !! b = backups w !! b) by (apply (k_backups _ _ (kf_kept _ _ K1)); unfold none; auto).
  destruct (bool_decide_reflect (is_Some (backups w1 !! b))) as [X|X].
  - apply runs_bind, (minds_runs none none no_backup _ any w w1); [|exact K1| |auto].
    + apply (minds_os_any os_error); [apply minds_look|apply minds_raise_any; left; reflexivity|apply os_caught].
    + intros _ w2 _ K2 _. apply Stop; [exact K2|]. left. left. reflexivity.
  - rewrite B1 in X. assert (Stop2 : forall e w', kept_file none (eq b) w w' -> ends_well no_backup e w -> kept_file none (eq b) w w' /\
      (is_Some (backups w !! b) -> backups w' !! b = backups w !! b) /\ ends_well no_backup e w) by tauto.
    apply runs_bind, (minds_runs none (eq b) no_backup _ any w w1); [|apply KA, K1| |auto].
    + apply (minds_os_any os_error); [apply minds_sys_any, own_create_backup|apply minds_raise_any; left; reflexivity|apply os_caught].
    + intros _ w2 _ K2 _. apply (minds_runs none (eq b) no_backup _ _ w w2 _ (minds_fill_backup data b)); [exact K2| |auto].
      intros _ w3 _ K3 E3. split; [exact K3|]. split; [tauto|]. split; [apply eq_None_not_Some, X|exact E3].
Qed.

(** *** When nothing fails and nobody edits *)

Definition calm (w : world) : Prop := Forall (fun e => edit e = None /\ result e = Done) (script w).

Record same (w w' : world) : Prop := {
  s_calm : calm w';
  s_file : file_ w' = file_ w;
  s_temps : temps w' = temps w;
  s_backups : backups w' = backups w;
  s_queries : queried (runtimes_ w) (runtimes_ w');
  s_closed : store_closed w' = store_closed w;
  s_token : next_token w' = next_token w;
}.

Lemma same_refl w : calm w -> same w w.
Proof. intros C. split; auto; reflexivity. Qed.

Lemma same_through w w1 w2 : same w w1 -> same w1 w2 -> same w w2.
Proof. intros [] []. split; try congruence; auto. etransitivity; eassumption. Qed.

(** The run succeeds, with such a value. *)
Definition good {A} (m : run A) (V : A -> world -> Prop) (w : world) : Prop :=
  runs m (fun r w' => match r with Ok a => V a w' | Err _ => False end) w.

Lemma good_bind {A C} (m : run A) (f : A -> run C) V w : good m (fun a w1 => good (f a) V w1) w -> good (m ≫= f) V w.
Proof. unfold good, runs, mbind, st_bind. destruct (m w) as [[a|e] w1]; cbn; tauto. Qed.

Lemma good_mono {A} (m : run A) (V U : A -> world -> Prop) w : good m V w -> (forall a w', V a w' -> U a w') -> good m U w.
Proof. unfold good, runs. destruct (m w) as [[a|e] w1]; cbn; auto. Qed.

Lemma good_ret {A} (a : A) (V : A -> world -> Prop) w : V a w -> good (mret a) V w.
Proof. exact id. Qed.

Lemma good_try {A} (m : run A) h V w : good m V w -> good (try_with m h) V w.
Proof. unfold good, runs, try_with. destruct (m w) as [[a|e] w']; cbn; tauto. Qed.

Lemma good_os {A} (m h : run A) V w : good m V w -> good (on_os_error m h) V w.
Proof. apply good_try. Qed.

Lemma good_sys effect V w : calm w -> (forall w1, same w w1 -> V tt (effect w1)) -> good (sys effect) V w.
Proof.
  intros C H. unfold good, runs, sys. assert (X : edit (hd nothing (script w)) = None /\ result (hd nothing (script w)) = Done /\ Forall (fun e => edit e = None /\ result e = Done) (tl (script w))).
  { unfold calm in C. destruct (script w) as [|e l]; cbn; [auto|]. inversion C; subst. tauto. }
  destruct X as (X1 & X2 & X3). rewrite X2. cbn [performed fst snd]. apply H. split; cbn; auto.
  - rewrite X1. reflexivity.
  - eexists. reflexivity.
Qed.

Lemma good_look V w : calm w -> (forall w1, same w w1 -> V tt w1) -> good look V w.
Proof. intros C H. apply good_sys; assumption. Qed.

(** Runs that leave all as it was. *)
Definition idle {A} (m : run A) (V : A -> world -> Prop) : Prop := forall w, calm w -> store_closed w = false -> good m (fun a w' => same w w' /\ V a w) w.

Lemma idle_bind {A C} (m : run A) (f : A -> run C) V U : idle m V -> (forall a w, V a w -> forall w1, same w w1 -> calm w1 -> store_closed w1 = false -> good (f a) (fun c w' => same w1 w' /\ U c w) w1) ->
  idle (m ≫= f) U.
Proof.
  intros M F w Cw S. apply good_bind. apply (good_mono _ _ _ _ (M w Cw S)). intros a w1 [S1 H].
  apply (good_mono _ _ _ _ (F a w H w1 S1 (s_calm _ _ S1) ltac:(rewrite (s_closed _ _ S1); exact S))).
  intros c w2 [S2 H2]. split; [exact (same_through _ _ _ S1 S2)|exact H2].
Qed.

Lemma idle_seq {C} (m : run unit) (f : run C) V : idle m (fun _ _ => True) -> idle f V ->
  (forall c w w1, same w w1 -> V c w1 -> V c w) -> idle (m;; f) V.
Proof.
  intros M F T. apply (idle_bind _ _ _ _ M). intros _ w _ w1 S1 C1 O1. apply (good_mono _ _ _ _ (F w1 C1 O1)). intros c w2 [S2 H2]. eauto.
Qed.

Lemma idle_look : idle look (fun _ _ => True).
Proof. intros w C _. apply good_look; auto. Qed.

Lemma idle_ret {A} (a : A) (V : A -> world -> Prop) : (forall w, V a w) -> idle (mret a) V.
Proof. intros H w C _. apply good_ret. split; [apply same_refl, C|apply H]. Qed.

Lemma idle_try {A} (m : run A) h V : idle m V -> idle (try_with m h) V.
Proof. intros M w C S. apply good_try, M; assumption. Qed.

Lemma idle_ensure_open : idle ensure_open (fun _ _ => True).
Proof. intros w C S. unfold good, runs, ensure_open. rewrite S. cbn. split; [apply same_refl, C|exact I]. Qed.

Lemma idle_read_all : idle read_all (fun d w => d = file_ w).
Proof.
  unfold read_all. apply (idle_bind _ _ (fun x w => x = Some (file_ w))).
  - apply idle_try. apply idle_seq; [apply idle_look| |intros c w w1 S ->; rewrite (s_file _ _ S); reflexivity].
    intros w C S. apply good_bind. unfold content, good, runs. cbn. split; [apply same_refl, C|reflexivity].
  - intros x w -> w1 S1 C1 O1. apply good_bind, good_os, good_bind, good_look; [exact C1|]. intros w2 S2. apply good_ret, good_ret. auto.
Qed.

Lemma idle_snapshot : idle (read_snapshot digest_bytes) (fun s w => s = {| snapshot_data := file_ w; snapshot_digest := digest_bytes (file_ w) |}).
Proof.
  unfold read_snapshot.
  assert (T : forall c w w1, same w w1 -> c = {| snapshot_data := file_ w1; snapshot_digest := digest_bytes (file_ w1) |} ->
    c = {| snapshot_data := file_ w; snapshot_digest := digest_bytes (file_ w) |}) by (intros c w w1 S ->; rewrite (s_file _ _ S); reflexivity).
  apply idle_seq; [apply idle_ensure_open| |exact T]. apply idle_seq; [apply idle_try, idle_look| |exact T].
  apply idle_seq; [apply idle_try, idle_look| |exact T].
  apply idle_seq; [unfold open_validated_regular; apply idle_seq; [apply idle_try, idle_look|apply idle_try, idle_look|auto]| |exact T].
  apply (idle_bind _ _ _ _ idle_read_all). intros d w -> w1 S1 C1 O1. apply good_ret. split; [apply same_refl, C1|reflexivity].
Qed.

Lemma good_verify d w : calm w -> store_closed w = false -> digest_bytes (file_ w) = d -> good (verify_digest digest_bytes d) (fun _ w' => same w w') w.
Proof.
  intros C S D. unfold verify_digest. apply good_bind. apply (good_mono _ _ _ _ (idle_snapshot w C S)). intros s w1 [S1 ->]. cbn.
  rewrite bool_decide_true by exact D. apply good_ret, S1.
Qed.

Lemma good_effect effect w : (forall w1, same w w1 -> same (effect w) (effect w1)) -> calm w -> good (sys effect) (fun _ w' => same (effect w) w') w.
Proof. intros H C. apply good_sys; assumption. Qed.

Lemma same_with_temps f w w1 : same w w1 -> same (w <| temps ::= f |>) (w1 <| temps ::= f |>).
Proof. intros []. split; cbn; auto. congruence. Qed.

Lemma same_replace t w w1 : same w w1 -> same (replace_at t w) (replace_at t w1).
Proof. intros []. split; cbn; auto; congruence. Qed.

Lemma good_look_same w0 w : same w0 w -> good look (fun _ w' => same w0 w') w.
Proof. intros S. apply good_look; [apply S|]. intros w1 S1. exact (same_through _ _ _ S S1). Qed.

Lemma good_create_temp t w : calm w -> good (create_temp t) (fun _ w' => same (create_temp_at t w) w') w.
Proof.
  intros C. unfold create_temp. apply good_bind, good_os. apply good_sys; [exact C|]. intros w1 S1. apply good_os, good_look_same, same_with_temps, S1.
Qed.

Lemma good_write_temp t data w : calm w -> good (write_and_sync_temp t data) (fun ok w' => ok = true /\ same (write_temp_at t data w) w') w.
Proof.
  intros C. unfold write_and_sync_temp. apply good_os, good_bind, good_sys; [exact C|]. intros w1 S1.
  apply good_bind. apply (good_mono _ _ _ _ (good_look_same _ _ (same_with_temps (<[t:=data]>) _ _ S1))). intros _ w2 S2.
  apply good_bind. apply (good_mono _ _ _ _ (good_look_same _ _ S2)). intros _ w3 S3. apply good_ret. auto.
Qed.

Lemma good_replace t w : calm w -> good (replace t) (fun ok w' => ok = true /\ same (replace_at t w) w') w.
Proof.
  intros C. unfold replace. apply good_os, good_bind, good_sys; [exact C|]. intros w1 S1. apply good_ret. split; [reflexivity|]. apply same_replace, S1.
Qed.

Lemma good_sync w : calm w -> good sync_parent_directory (fun ok w' => ok = true /\ same w w') w.
Proof.
  intros C. unfold sync_parent_directory. apply good_bind, good_os, good_bind.
  apply (good_mono _ _ _ _ (good_look_same _ _ (same_refl w C))). intros _ w1 S1. apply good_ret. cbn [negb]. apply good_bind, good_try, good_bind.
  apply (good_mono _ _ _ _ (good_look_same _ _ S1)). intros _ w2 S2. apply good_bind.
  apply (good_mono _ _ _ _ (good_look_same _ _ S2)). intros _ w3 S3. apply good_ret, good_bind, good_os.
  apply (good_mono _ _ _ _ (good_look_same _ _ S3)). intros _ w4 S4. apply good_ret. auto.
Qed.

(** The file that was written, and nothing else changed. *)
Record landed (data : list byte) (w w' : world) : Prop := {
  l_calm : calm w';
  l_file : file_ w' = data;
  l_temps : temps w' = delete (next_token w) (temps w);
  l_backups : backups w' = backups w;
  l_queries : queried (runtimes_ w) (runtimes_ w');
  l_closed : store_closed w' = store_closed w;
}.

Lemma landed_same data w w1 w2 : same w w1 ->
  same (replace_at (next_token w) (write_temp_at (next_token w) data (create_temp_at (next_token w) (w1 <| next_token := S (next_token w) |>)))) w2 ->
  landed data w w2.
Proof.
  intros [A1 A2 A3 A4 A5 A6 A7] [B1 B2 B3 B4 B5 B6 B7]. split; cbn in *; try congruence.
  - rewrite B2, lookup_insert_eq. reflexivity.
  - rewrite B3, A3, insert_insert_eq, delete_insert_eq. reflexivity.
  - etransitivity; eassumption.
Qed.

Lemma good_token V w : V (next_token w) (w <| next_token := S (next_token w) |>) -> good new_temp_path V w.
Proof. exact id. Qed.

(** When nothing fails and nobody edits, the new contents are in place. *)
Lemma write_atomic_good data d w : calm w -> store_closed w = false -> digest_bytes (file_ w) = d ->
  good (write_atomic digest_bytes posix data d) (fun x w' => x = {| written_digest := digest_bytes data; directory_fsync_performed := posix |} /\ landed data w w') w.
Proof.
  intros C O D. unfold write_atomic. apply good_bind. apply (good_mono _ _ _ _ (idle_ensure_open w C O)). intros _ w1 [S1 _].
  apply good_bind. eapply good_mono; [apply (good_verify d w1); [apply S1|rewrite (s_closed _ _ S1); exact O|rewrite (s_file _ _ S1); exact D]|].
  intros u2 w2 S2. pose proof (same_through _ _ _ S1 S2) as S02. apply good_bind, good_token.
  rewrite (s_token _ _ S02). set (t := next_token w). set (w3 := w2 <| next_token := S t |>).
  assert (C3 : calm w3) by apply (s_calm _ _ S02).
  apply good_bind. apply (good_mono _ _ _ _ (good_create_temp t w3 C3)). intros u4 w4 S4.
  apply good_bind. apply (good_mono _ _ _ _ (good_write_temp t data w4 (s_calm _ _ S4))). intros ok w5 [-> S5]. cbn [negb].
  pose proof (same_through _ _ _ (same_with_temps (<[t := data]>) _ _ S4) S5) as S35.
  apply good_bind, good_try. eapply good_mono; [apply (good_verify d w5); [apply S5| |]|].
  - rewrite (s_closed _ _ S35). cbn. rewrite (s_closed _ _ S02). exact O.
  - rewrite (s_file _ _ S35). cbn. rewrite (s_file _ _ S02). exact D.
  - intros u6 w6 S6. apply good_bind. apply (good_mono _ _ _ _ (good_replace t w6 (s_calm _ _ S6))). intros ok w7 [-> S7]. cbn [negb]. cbv zeta.
    pose proof (same_through _ _ _ (same_replace t _ _ (same_through _ _ _ S35 S6)) S7) as S37. destruct posix.
    + apply good_bind. apply (good_mono _ _ _ _ (good_sync w7 (s_calm _ _ S7))). intros ok w8 [-> S8]. cbn [negb]. apply good_ret.
      split; [reflexivity|]. apply (landed_same data w w2 w8 S02). exact (same_through _ _ _ S37 S8).
    + apply good_ret. split; [reflexivity|]. apply (landed_same data w w2 w7 S02 S37).
Qed.

Lemma same_write_backup b data w w1 : same w w1 -> same (write_backup_at b data w) (write_backup_at b data w1).
Proof. intros []. split; cbn; auto. congruence. Qed.

Lemma same_create_backup b w w1 : backups w !! b = None -> same w w1 -> same (w <| backups ::= <[b := []]> |>) (create_backup_at b w1).
Proof.
  intros B [A1 A2 A3 A4 A5 A6 A7]. unfold create_backup_at. rewrite A4, B. split; cbn; auto. congruence.
Qed.

Lemma write_backup_good data b w : calm w -> store_closed w = false -> backups w !! b = None ->
  good (write_backup data b) (fun _ w' => same (write_backup_at b data w) w') w.
Proof.
  intros C O B. unfold write_backup. apply good_bind. apply (good_mono _ _ _ _ (idle_ensure_open w C O)). intros u1 w1 [S1 _].
  apply good_bind. unfold good at 1. unfold runs at 1. cbn [fst snd]. rewrite (s_backups _ _ S1), B, bool_decide_false by (intros [? [=]]).
  apply good_bind, good_os, good_sys; [apply S1|]. intros w2 S2.
  apply good_try, good_bind. apply (good_mono _ _ _ _ (good_look_same _ _ (same_create_backup b _ _ B (same_through _ _ _ S1 S2)))). intros u3 w3 S3.
  apply good_bind, good_sys; [apply S3|]. intros w4 S4. pose proof (same_write_backup b data _ _ (same_through _ _ _ S3 S4)) as S5.
  apply good_bind. apply (good_mono _ _ _ _ (good_look_same _ _ S5)). intros u6 w6 S6.
  apply (good_mono _ _ _ _ (good_look_same _ _ S6)). intros u7 w7 S7.
  destruct S7 as [A1 A2 A3 A4 A5 A6 A7]. split; cbn in *; auto. rewrite A4, insert_insert_eq. reflexivity.
Qed.

End Writing.

(** ** Properties *)

Section Properties.
Context (digest_bytes : list byte -> pystr) (posix : bool).

(** These contents the file had, or an editor gave it during the run. *)
Definition at_some_time (w : world) (contents : list byte) : Prop := contents = file_ w \/ edited_to w contents.

(** The file was read at a moment of the run and had that digest; the two calls
    that followed closed it and put the new contents in its place, where they
    are still unless an edit came later.  One that came with these two calls is
    lost. *)
Definition took_place (d : pystr) (data : list byte) (w w' : world) : Prop :=
  exists x, script x `suffix_of` script w /\ at_some_time w (file_ x) /\ digest_bytes (file_ x) = d /\
    script w' `suffix_of` drop 2 (script x) /\ (file_ w' = data \/ exists e, e ∈ drop 2 (script x) /\ edit e = Some (file_ w')).

Lemma installed_took_place d data w w' : installed digest_bytes d data w w' -> took_place d data w w'.
Proof.
  intros (w1 & w2 & K1 & Dg & F & S & K2). exists w1. split; [apply (k_script _ _ (kf_kept _ _ K1))|]. split; [apply (kf_file _ _ K1)|].
  split; [exact Dg|]. rewrite <- S. split; [exact (k_script _ _ (kf_kept _ _ K2))|]. destruct (kf_file _ _ K2) as [E|E]; [left; congruence|right; exact E].
Qed.

(** [write_atomic] is all or nothing, whatever the other programs do to
    the file and however each of its system calls ends.  A success, and the
    error of durability, say that the new contents took the place of a
    file that had the expected digest, and are still there unless somebody has
    edited them; after any other error the file is as it was, save for what
    others wrote themselves, unless the process died, was interrupted, or a
    call reported a failure after having had its effect.  The temporary files
    of others and the backups are not touched. *)
Theorem atomic_write_all_or_nothing data expected w :
  let '(r, w') := write_atomic digest_bytes posix data expected w in
  (forall t, (t < next_token w)%nat -> temps w' !! t = temps w !! t) /\ backups w' = backups w /\
  match r with
  | Ok _ | Err (Raised (ConfigDurability _)) => took_place expected data w w'
  | Err _ => at_some_time w (file_ w') \/ spoiled w /\ file_ w' = data
  end.
Proof.
  pose proof (write_atomic_runs digest_bytes posix data expected w) as R. unfold runs in R. destruct (write_atomic _ _ _ _ w) as [r w'].
  cbn [fst snd] in R. destruct R as [K R]. split; [intros t L; apply (k_temps _ _ K); lia|].
  split; [apply map_eq; intros b; apply (k_backups _ _ K); unfold none; auto|].
  pose proof (installed_took_place expected data w w') as I.
  assert (F : kept_file (le (next_token w)) none w w' \/ spoiled w /\ installed digest_bytes expected data w w' ->
    at_some_time w (file_ w') \/ spoiled w /\ file_ w' = data).
  { intros [H|[S H]]; [left; apply (kf_file _ _ H)|]. destruct (installed_file _ _ _ _ _ H) as [E|E]; [right; auto|left; right; exact E]. }
  destruct r as [x|[e|]]; [apply I, R| |apply F, R]. destruct e; try (apply F, R). apply I, R.
Qed.

(** When no call fails and nobody edits, [write_atomic] succeeds on a file
    with the expected digest: the new contents are in place, their digest is
    returned, the directory was synchronized where it can be, and no temporary
    file is left, whatever queries ran meanwhile. *)
Theorem atomic_write_succeeds data w : calm w -> store_closed w = false -> temps w !! next_token w = None ->
  exists w', write_atomic digest_bytes posix data (digest_bytes (file_ w)) w =
    (Ok {| written_digest := digest_bytes data; directory_fsync_performed := posix |}, w') /\
  file_ w' = data /\ temps w' = temps w /\ backups w' = backups w.
Proof.
  intros C O T. pose proof (write_atomic_good digest_bytes posix data _ w C O eq_refl) as G. unfold good, runs in G.
  destruct (write_atomic _ _ _ _ w) as [[x|e] w']; cbn [fst snd] in G; [|contradiction]. destruct G as [-> L]. exists w'.
  split; [reflexivity|]. split; [apply L|]. split; [|apply L]. rewrite (l_temps _ _ _ L). apply delete_id, T.
Qed.
End Properties.

(** ** Witnesses *)

Definition toy_digest (data : list byte) : pystr := map (fun b => Z.of_N (Byte.to_N b)) data.

Definition quiet_world : world :=
  {| file_ := [Byte.x61]; temps := {[ 0%nat := [] ]}; backups := ∅; runtimes_ := Registry.initial_system 0 1;
     script := [nothing; {| edit := None; queries := [Acquires]; result := Done |}]; next_token := 1; store_closed := false |}.

Lemma atomic_write_succeeds_witness :
  exists w', write_atomic toy_digest true [Byte.x62] [97%Z] quiet_world =
    (Ok {| written_digest := [98%Z]; directory_fsync_performed := true |}, w') /\ file_ w' = [Byte.x62] /\ temps w' = {[ 0%nat := [] ]} /\ backups w' = ∅.
Proof.
  apply (atomic_write_succeeds toy_digest true [Byte.x62] quiet_world).
  - repeat constructor.
  - reflexivity.
  - reflexivity.
Defined.

(** The window between the second check and the replacement: an edit made
    there is lost, and the writing reports a success. *)
Example edit_in_the_window_is_lost :
  let w := {| file_ := [Byte.x61]; temps := ∅; backups := ∅; runtimes_ := Registry.initial_system 0 1;
              script := replicate 17 nothing ++ [{| edit := Some [Byte.x63]; queries := []; result := Done |}]; next_token := 0; store_closed := false |} in
  let '(r, w') := write_atomic toy_digest true [Byte.x62] [97%Z] w in
  r = Ok {| written_digest := [98%Z]; directory_fsync_performed := true |} /\ file_ w' = [Byte.x62] /\ script w' = [].
Proof. vm_compute. auto. Qed.
