(* ===== verification/AdminService.v ===== *)
(** * AdminService: the administrative critical section

    Models [admin/service.py], with [admin/document.py] and the error values of
    [admin/errors.py]: one administrative operation, in its eleven steps, on
    the file of [ConfigFile], the registry of [Registry] and the configuration
    of [Config].  An operation holds the administrative lock from end to end;
    what may happen during it, other programs editing the file, queries taking
    and releasing runtimes, calls failing, being interrupted or killing the
    process, happens at its system calls and at the calls of the mutation, the
    serialization and the adapter, as [ConfigFile]'s events say.  An adapter is
    named by the number of its runtime. *)

From S2P Require Import Prelude Bytes Unicode Canonical Transformers Masking Sql Config ConfigFile.
From S2P Require Registry.
From stdpp Require Import functions.
From coqutil Require Import Datatypes.RecordSettersUsingExistingGetters.

Local Open Scope Z_scope.

(** ** Errors, [errors.py] *)

Inductive AdminErrorCategory :=
| CONFIG_INVALID | CONFIG_RELOAD_ERROR | CONFIG_WRITE_ERROR | CONFIG_DURABILITY_ERROR
| CONFIG_OUT_OF_SYNC | CONFIG_NOT_ADOPTED | CONFIG_ALREADY_ADOPTED | REVISION_CONFLICT
| RELOAD_BUSY | IMMUTABLE_FIELD | INTERNAL_ERROR
| UNAUTHORIZED | NOT_FOUND | SCHEMA_INVALID | METHOD_NOT_ALLOWED | HOST_NOT_ALLOWED
| CROSS_ORIGIN_REJECTED | UNSUPPORTED_MEDIA_TYPE | PAYLOAD_TOO_LARGE.

#[export] Instance AdminErrorCategory_eq_dec : EqDecision AdminErrorCategory.
Proof. solve_decision. Defined.

Record AdminError := { category : AdminErrorCategory; current_revision : option Z }.

Definition APPLIED_CATEGORIES : list AdminErrorCategory := [CONFIG_DURABILITY_ERROR].

(** [AdminError.applied]. *)
Definition error_applied (e : AdminError) : bool := bool_decide (category e ∈ APPLIED_CATEGORIES).

(** ** State *)

(** The contents of a [Runtime], which never change; the engine is the policy
    it was built from. *)
Record Runtime := {
  rt_revision : Z;
  rt_file_config : MaskingFileConfig;
  rt_config : GatewayConfig;
  rt_engine : MaskingPolicy;
}.

Record AdminAuditProbe := { revision_before : option Z; revision_after : option Z }.

(** Runtimes are numbered in the order they are built.  [discarded] are the
    adapters the operations closed themselves. *)
Record service := {
  world_ : world;
  contents : nat -> Runtime;
  next_runtime : nat;
  discarded : list nat;
  reference_digest : pystr;
  operations_total : Z;
  service_closed : bool;
  audit_probe : AdminAuditProbe;
}.

(** What leaves a step: an [AdminError], another exception, or nothing any
    more. *)
Inductive ending := Refused (e : AdminError) | Unforeseen (e : fs_exn) | RegistryRefused (e : Registry.registry_error) | Dead.

Abbreviation op := (st service ending).

Definition fail {A} (c : AdminErrorCategory) : op A := raise_st (Refused {| category := c; current_revision := None |}).

(** A run of the file store, in the service. *)
Definition lift {A} (m : run A) : op A := fun s =>
  match m (world_ s) with
  | (Ok a, w) => (Ok a, s <| world_ := w |>)
  | (Err (Raised e), w) => (Err (Unforeseen e), s <| world_ := w |>)
  | (Err Died, w) => (Err Dead, s <| world_ := w |>)
  end.

(** [try: m except BaseException as e: handler(e)]. *)
Definition except {A} (m : op A) (handler : ending -> op A) : op A := fun s =>
  match m s with
  | (Err Dead, s) => (Err Dead, s)
  | (Err e, s) => handler e s
  | result => result
  end.

(** [try: x = m() except BaseException: x = None]. *)
Definition attempt {A} (m : op A) : op (option A) := except (x ← m; mret (Some x)) (fun _ => mret None).

(** A pure computation that may raise; what it raises is caught by kind. *)
Definition computed {A} (m : option A) : op A :=
  match m with Some a => mret a | None => raise_st (Unforeseen OSError) end.

Definition registry (s : service) : Registry.registry := Registry.reg_state (runtimes_ (world_ s)).
Definition published (s : service) : nat := Registry.current (registry s).
Definition published_revision (s : service) : Z := rt_revision (contents s (published s)).

Inductive AdminOperation := WRITE | ADOPT.

#[export] Instance AdminOperation_eq_dec : EqDecision AdminOperation.
Proof. solve_decision. Defined.

(** [ConfigMutation]: the candidate, or an [AdminError] ([Some]), or another
    exception. *)
Definition ConfigMutation : Type := MaskingFileConfig -> res (option AdminError) MaskingFileConfig.

Record RenderedDocument := { rendered_data : list byte; rendered_document : MaskingFileConfig }.
Record Persisted := { persisted_digest : pystr; durable : bool; persisted_fsync : bool }.
Record AdminWriteResult := { result_revision : Z; result_fsync : bool; result_applied : bool }.
Record AdminSnapshot := { snapshot_revision : Z; snapshot_document : MaskingFileConfig; snapshot_policy : SqlPolicy }.

(** [AdminSnapshot.adopted]. *)
Definition snapshot_adopted (s : AdminSnapshot) : bool := negb (snapshot_revision s =? UNADOPTED_REVISION).

(** [digest_bytes]. *)
Definition digest_bytes {L : PyLib} (data : list byte) : pystr := hexdigest (digest SHA256 data).

Section Service.
Context {L : PyLib} (posix : bool).
(** [yaml.safe_dump] of [model_dump], [yaml.safe_load] with pydantic's
    conversion, pydantic's equality of models, the secrets and the clock. *)
Context (safe_dump : MaskingFileConfig -> option pystr) (safe_load : pystr -> option MaskingFileConfig)
  (model_eq : MaskingFileConfig -> MaskingFileConfig -> bool) (secrets : secret_provider) (clock : world -> Z).

(** ** The document, [document.py] *)

Definition parse_document (data : list byte) : option MaskingFileConfig :=
  text ← utf8_decode data;
  raw ← safe_load text;
  match validate_file_config raw with Ok c => Some c | Err _ => None end.

Definition render_document (document : MaskingFileConfig) : option RenderedDocument :=
  text ← safe_dump document;
  data ← utf8_encode text;
  reparsed ← parse_document data;
  if model_eq reparsed document then Some {| rendered_data := data; rendered_document := reparsed |} else None.

(** ** Reading *)

(** [snapshot()]: one reading of the published runtime. *)
Definition snapshot (s : service) : AdminSnapshot :=
  let r := contents s (published s) in
  {| snapshot_revision := rt_revision r; snapshot_document := rt_file_config r; snapshot_policy := gateway_sql (rt_config r) |}.

(** ** The steps *)

Definition require_open : op unit := s ← get_st; if service_closed s then fail INTERNAL_ERROR else mret tt.

(** Step 1. *)
Definition check_adoption (current : Z) (operation : AdminOperation) : op unit :=
  let adopted := negb (current =? UNADOPTED_REVISION) in
  match operation with
  | ADOPT => if adopted then fail CONFIG_ALREADY_ADOPTED else mret tt
  | WRITE => if negb adopted then fail CONFIG_NOT_ADOPTED else mret tt
  end.

(** Step 2. *)
Definition check_revision (current expected : Z) : op unit :=
  if negb (expected =? current) then raise_st (Refused {| category := REVISION_CONFLICT; current_revision := Some current |})
  else mret tt.

(** Step 3. *)
Definition check_disk_matches_reference : op ConfigSnapshot :=
  disk ← attempt (lift (read_snapshot digest_bytes));
  match disk with
  | None => fail CONFIG_WRITE_ERROR
  | Some d => s ← get_st; if bool_decide (snapshot_digest d = reference_digest s) then mret d else fail CONFIG_OUT_OF_SYNC
  end.

(** Step 4. *)
Definition check_reload_capacity : op unit :=
  s ← get_st;
  match Registry.check_can_swap (registry s) with
  | (Ok _, _) => mret tt
  | (Err _, _) => fail RELOAD_BUSY
  end.

(** [proposed["revision"] = revision]. *)
Definition with_revision (revision : Z) (c : MaskingFileConfig) : MaskingFileConfig :=
  {| Config.revision := revision; masking := masking c; file_exceptions := file_exceptions c; database := database c; sql := sql c |}.

(** Step 5. *)
Definition next_document (current : MaskingFileConfig) (mutation : ConfigMutation) (revision : Z) : op MaskingFileConfig :=
  except
    (lift look;;
     proposed ← match mutation current with
                | Ok c => mret c
                | Err (Some e) => raise_st (Refused e)
                | Err None => raise_st (Unforeseen OSError)
                end;
     computed (match validate_file_config (with_revision revision proposed) with Ok c => Some c | Err _ => None end))
    (fun e => match e with Refused e => raise_st (Refused e) | _ => fail CONFIG_INVALID end).

Definition render (document : MaskingFileConfig) : op RenderedDocument :=
  rendered ← attempt (lift look;; computed (render_document document));
  match rendered with Some r => mret r | None => fail CONFIG_INVALID end.

(** An adapter closed: the call is made, and an error of the database's is
    suppressed. *)
Definition close_adapter (r : nat) : op unit :=
  s ← get_st; put_st (s <| discarded ::= cons r |>);; lift (suppress look).

(** [compile_policy] and [build_gateway_config]. *)
Definition compile (document : MaskingFileConfig) : option (MaskingPolicy * GatewayConfig) :=
  match build_default_registry with
  | Ok transformers =>
      match compile_policy transformers secrets document with
      | Ok policy => Some (policy, build_gateway_config document policy)
      | Err _ => None
      end
  | Err _ => None
  end.

(** The adapter's factory; the number is the new adapter's. *)
Definition create_adapter : op nat :=
  lift look;; s ← get_st; put_st (s <| next_runtime := S (next_runtime s) |>);; mret (next_runtime s).

(** Step 6. *)
Definition build_candidate (document : MaskingFileConfig) (revision : Z) : op nat :=
  made ← attempt (
    lift look;;
    compiled ← computed (compile document);
    adapter ← create_adapter;
    mret (compiled, adapter));
  match made with
  | None => fail CONFIG_RELOAD_ERROR
  | Some ((policy, config), adapter) =>
      except
        (lift look;;
         s ← get_st;
         put_st (s <| contents := <[adapter := {| rt_revision := revision; rt_file_config := document; rt_config := config; rt_engine := policy |}]> (contents s) |>);;
         mret adapter)
        (fun _ => close_adapter adapter;; fail CONFIG_RELOAD_ERROR)
  end.

(** Step 7: [connect], which raises or not. *)
Definition connect_candidate (candidate : nat) : op unit :=
  connected ← attempt (lift look);
  match connected with Some _ => mret tt | None => fail CONFIG_RELOAD_ERROR end.

Definition write_adoption_backup (original : list byte) : op unit :=
  s ← get_st;
  written ← attempt (lift (write_backup original (clock (world_ s))));
  match written with Some _ => mret tt | None => fail CONFIG_WRITE_ERROR end.

(** Steps 8 and 9. *)
Definition persist (data : list byte) : op Persisted :=
  s ← get_st;
  except
    (x ← lift (write_atomic digest_bytes posix data (reference_digest s));
     mret {| persisted_digest := written_digest x; durable := true; persisted_fsync := directory_fsync_performed x |})
    (fun e => match e with
              | Unforeseen (ConfigDurability d) => mret {| persisted_digest := d; durable := false; persisted_fsync := false |}
              | Unforeseen ConfigOutOfSync => fail CONFIG_OUT_OF_SYNC
              | _ => fail CONFIG_WRITE_ERROR
              end).

(** The retired runtime's adapter, closed by the one who was given it. *)
Definition closes (r : nat) (y : Registry.system) : Registry.system := query_run (Closes r) y.

(** Steps 10 and 11. *)
Definition publish (candidate : nat) (digest : pystr) : op unit :=
  s ← get_st;
  let y := runtimes_ (world_ s) in
  match Registry.swap candidate (Registry.set_runtime candidate Registry.fresh_runtime (Registry.reg_state y)) with
  | (Err e, _) => raise_st (RegistryRefused e)
  | (Ok retired, g) =>
      let y := {| Registry.reg_state := g; Registry.held := Registry.held y; Registry.to_close := option_list retired ++ Registry.to_close y;
                  Registry.adapters_closed := Registry.adapters_closed y; Registry.shut := Registry.shut y |} in
      let y := match retired with Some r => closes r y | None => y end in
      put_st (s <| world_ ::= (fun w => w <| runtimes_ := y |>) |> <| reference_digest := digest |>);;
      match retired with Some _ => lift (suppress look) | None => mret tt end
  end.

(** ** The operation *)

(** [_execute] from the candidate on. *)
Definition install (operation : AdminOperation) (disk : ConfigSnapshot) (rendered : RenderedDocument) (revision : Z) (candidate : nat) : op AdminWriteResult :=
  persisted ← except
    (connect_candidate candidate;;
     (if decide (operation = ADOPT) then write_adoption_backup (snapshot_data disk) else mret tt);;
     persist (rendered_data rendered))
    (fun e => close_adapter candidate;; raise_st e);
  except (publish candidate (persisted_digest persisted))
    (fun e => s ← get_st;
              (if decide (published s = candidate) then mret tt else close_adapter candidate);;
              raise_st e);;
  s ← get_st;
  put_st (s <| audit_probe ::= (fun p => {| revision_before := revision_before p; revision_after := Some revision |}) |>);;
  if negb (durable persisted) then raise_st (Refused {| category := CONFIG_DURABILITY_ERROR; current_revision := Some revision |})
  else mret {| result_revision := revision; result_fsync := persisted_fsync persisted; result_applied := true |}.

(** [_execute]. *)
Definition execute (mutation : ConfigMutation) (expected : Z) (operation : AdminOperation) : op AdminWriteResult :=
  require_open;;
  s ← get_st;
  let runtime := contents s (published s) in
  let current := rt_revision runtime in
  put_st (s <| audit_probe := {| revision_before := Some current; revision_after := None |} |>);;
  check_adoption current operation;;
  check_revision current expected;;
  disk ← check_disk_matches_reference;
  check_reload_capacity;;
  let revision := current + 1 in
  document ← next_document (rt_file_config runtime) mutation revision;
  rendered ← render document;
  candidate ← build_candidate (rendered_document rendered) revision;
  install operation disk rendered revision candidate.

(** What the caller of [apply] sees: a result, an [AdminError]; [None] when
    the process is dead. *)
Definition answer (r : res ending AdminWriteResult) : option (res AdminError AdminWriteResult) :=
  match r with
  | Ok x => Some (Ok x)
  | Err (Refused e) => Some (Err e)
  | Err Dead => None
  | Err _ => Some (Err {| category := INTERNAL_ERROR; current_revision := None |})
  end.

(** [apply], with a fresh probe. *)
Definition apply (mutation : ConfigMutation) (expected : Z) (operation : AdminOperation) (s : service)
    : option (res AdminError AdminWriteResult) * service :=
  let '(r, s) := execute mutation expected operation
    (s <| operations_total ::= Z.add 1 |> <| audit_probe := {| revision_before := None; revision_after := None |} |>) in
  (answer r, s).

(** [close]. *)
Definition close_service (s : service) : service := s <| service_closed := true |>.

End Service.
