(* ===== verification/AdminSteps.v ===== *)
(** * AdminSteps: what each step of an administrative operation keeps

    The lemmas of [AdminService]: what queries leave of the registry and when
    a swap succeeds; a calculus of steps that touch the world alone, their
    errors and values ([frames]); how the building of the candidate, the
    writing and the publication end, whatever happens meanwhile; and, put
    together, how an operation ends ([execute_runs]). *)

From S2P Require Import Prelude Bytes Unicode Canonical Transformers Masking Sql Config ConfigFile AdminService.
From S2P Require Registry.
From stdpp Require Import functions.
From coqutil Require Import Datatypes.RecordSettersUsingExistingGetters.

Local Open Scope Z_scope.

(** ** The registry meanwhile *)

(** What queries leave of the registry: the published runtime, the runtimes
    there are, and no more retired ones than there were. *)
Record served (y y' : Registry.system) : Prop := {
  sv_current : Registry.current (Registry.reg_state y') = Registry.current (Registry.reg_state y);
  sv_max : Registry.max_retired (Registry.reg_state y') = Registry.max_retired (Registry.reg_state y);
  sv_retired : (length (Registry.retired_list (Registry.reg_state y')) <= length (Registry.retired_list (Registry.reg_state y)))%nat;
  sv_shut : Registry.shut y' = Registry.shut y;
  sv_known r : is_Some (Registry.runtimes (Registry.reg_state y') !! r) <-> is_Some (Registry.runtimes (Registry.reg_state y) !! r);
}.

#[export] Instance served_preorder : PreOrder served.
Proof.
  split; [intros y; split; auto; reflexivity|]. intros y y1 y2 [A1 A2 A3 A4 A5] [B1 B2 B3 B4 B5].
  split; try congruence; [lia|]. intros r. rewrite B5. apply A5.
Qed.

Lemma known_insert (m : gmap nat Registry.runtime) k x r : is_Some (m !! k) -> is_Some (<[k := x]> m !! r) <-> is_Some (m !! r).
Proof. intros H. rewrite lookup_insert_is_Some'. split; [intros [->|E]; assumption|auto]. Qed.

Lemma taken_served k g c g' : Registry.take_closable k g = (Ok c, g') -> is_Some (Registry.runtimes g !! k) ->
  Registry.current g' = Registry.current g /\ Registry.max_retired g' = Registry.max_retired g /\
  (length (Registry.retired_list g') <= length (Registry.retired_list g))%nat /\
  forall r, is_Some (Registry.runtimes g' !! r) <-> is_Some (Registry.runtimes g !! r).
Proof.
  intros [(-> & -> & _)|(-> & _ & _ & _ & ->)]%Registry.take_closable_cases K; [repeat split; auto|].
  cbn. repeat split; [apply length_remove_first| |]; apply (known_insert _ _ _ _ K).
Qed.

Lemma query_served q y : is_Some (Registry.runtimes (Registry.reg_state y) !! Registry.current (Registry.reg_state y)) -> served y (query_run q y).
Proof.
  intros K. destruct q as [|r|r]; cbn.
  - destruct (Registry.acquire _) as [[r|e] g] eqn:E; [|reflexivity]. apply Registry.acquire_cases in E as (-> & _ & _ & ->).
    split; cbn; auto. intros r. apply known_insert, K.
  - destruct (bool_decide _); [|reflexivity]. destruct (Registry.release r _) as [[c|e] g] eqn:E; [|reflexivity].
    unfold Registry.release in E. cbv zeta in E. destruct (Registry.refcount (Registry.runtime_of (Registry.reg_state y) r)) eqn:C; [discriminate|].
    assert (Kr : is_Some (Registry.runtimes (Registry.reg_state y) !! r)).
    { unfold Registry.runtime_of in C. destruct (_ !! r); [eauto|discriminate]. }
    apply taken_served in E as (E1 & E2 & E3 & E4); [|apply lookup_insert_is_Some; auto]. split; cbn; auto.
    intros r'. rewrite E4. apply known_insert, Kr.
  - destruct (bool_decide _); [|reflexivity]. split; cbn; auto; reflexivity.
Qed.

Lemma queried_served y y' : is_Some (Registry.runtimes (Registry.reg_state y) !! Registry.current (Registry.reg_state y)) -> queried y y' -> served y y'.
Proof.
  intros K [l ->]. revert y K. induction l as [|q l IH]; intros y K; [reflexivity|]. cbn. pose proof (query_served q y K) as S.
  etransitivity; [exact S|]. apply IH. rewrite (sv_current _ _ S). apply (sv_known _ _ S), K.
Qed.

Lemma queried_invariant y y' : Registry.invariant y -> queried y y' -> Registry.invariant y'.
Proof.
  intros I [l ->]. revert y I. induction l as [|q l IH]; intros y I; [exact I|]. cbn. apply IH.
  pose proof (query_run_steps q y) as R. induction R as [|a b c S _ IHR]; [exact I|]. apply IHR, (Registry.step_invariant _ _ I S).
Qed.

(** A swap that there is room for succeeds, and publishes. *)
Lemma swap_succeeds new g : (length (Registry.retired_list g) < Registry.max_retired g)%nat -> Registry.current g <> new ->
  exists c g', Registry.swap new g = (Ok c, g') /\ Registry.current g' = new /\ Registry.max_retired g' = Registry.max_retired g /\
    forall r, is_Some (Registry.runtimes g' !! r) <-> r = Registry.current g \/ is_Some (Registry.runtimes g !! r).
Proof.
  intros L N. unfold Registry.swap, Registry.check_can_swap. run_st. destruct (Nat.leb_spec (Registry.max_retired g) (length (Registry.retired_list g))); [lia|].
  destruct (Nat.eqb_spec (Registry.current g) new); [contradiction|]. cbn beta iota.
  set (g1 := Registry.set_current _ _). assert (K1 : is_Some (Registry.runtimes g1 !! Registry.current g)) by (cbn; rewrite lookup_insert_eq; eauto).
  assert (T : exists c g', Registry.take_closable (Registry.current g) g1 = (Ok c, g')).
  { unfold Registry.take_closable. cbv zeta. repeat (match goal with |- context [if ?b then _ else _] => destruct b end); eauto. }
  destruct T as (c & g' & T). exists c, g'. apply taken_served in T as E; [|exact K1]. destruct E as (E1 & E2 & _ & E4).
  split; [exact T|]. split; [exact E1|]. split; [exact E2|]. intros r. rewrite E4. cbn. rewrite lookup_insert_is_Some'.
  split; (intros [->|H']; auto).
Qed.

(** ** What the steps before the publication keep *)

Section Frames.
Context {L : PyLib} (w0 : world).

(** The world as the operation that began at [w0] may change it: its own
    temporary files, and backups under names that were free. *)
Definition tended : world -> world -> Prop := kept_file (le (next_token w0)) (fun b => backups w0 !! b = None).

#[export] Instance tended_preorder : PreOrder tended.
Proof. apply kept_file_preorder. Qed.

Record frame (s s' : service) : Prop := {
  f_world : tended (world_ s) (world_ s');
  f_contents : contents s' = contents s;
  f_next : next_runtime s' = next_runtime s;
  f_discarded : discarded s' = discarded s;
  f_digest : reference_digest s' = reference_digest s;
  f_closed : service_closed s' = service_closed s;
  f_total : operations_total s' = operations_total s;
}.

#[export] Instance frame_preorder : PreOrder frame.
Proof.
  split; [intros s; split; auto; reflexivity|]. intros s s1 s2 [] []. split; try congruence. etransitivity; eassumption.
Qed.

(** A step that keeps the frame: its errors are such, its value is such, and
    the process dies by accident only. *)
Definition frames {A} (E : ending -> Prop) (m : op A) (V : A -> service -> service -> Prop) : Prop := forall s,
  runs m (fun r s' => frame s s' /\ match r with Ok a => V a s s' | Err Dead => spoiled (world_ s) | Err e => E e end) s.

Definition whatever {A} (a : A) (s s' : service) : Prop := True.
Definition anything (e : ending) : Prop := True.

(** An [AdminError] that does not say that the change was applied. *)
Definition unapplied (e : AdminError) : Prop := error_applied e = false.
Definition foreign (e : ending) : Prop := match e with Unforeseen _ => True | _ => False end.
Definition polite (e : ending) : Prop := match e with Refused x => unapplied x | _ => False end.

Lemma frame_spoiled s s' : frame s s' -> spoiled (world_ s') -> spoiled (world_ s).
Proof. intros F. apply spoiled_suffix, (k_script _ _ (kf_kept _ _ (f_world _ _ F))). Qed.

Lemma frames_ret {A} E (a : A) V : (forall s, V a s s) -> frames E (mret a) V.
Proof. intros H s. apply runs_ret. split; [reflexivity|apply H]. Qed.

Lemma frames_raise {A} (E : ending -> Prop) e (V : A -> service -> service -> Prop) : E e -> e <> Dead -> frames E (raise_st e) V.
Proof. intros H N s. apply runs_raise. split; [reflexivity|]. destruct e; congruence || exact H. Qed.

Lemma frames_fail {A} c (V : A -> service -> service -> Prop) : c <> CONFIG_DURABILITY_ERROR -> frames polite (fail c) V.
Proof.
  intros N. apply frames_raise; [|discriminate]. cbn. apply bool_decide_false. cbn. intros H. apply N. apply list_elem_of_singleton in H. exact H.
Qed.

Lemma frames_bind {A B} E (m : op A) (f : A -> op B) V U : frames E m V ->
  (forall a, frames E (f a) (fun b s1 s2 => forall s, frame s s1 -> V a s s1 -> U b s s2)) -> frames E (m ≫= f) U.
Proof.
  intros M F s. apply runs_bind. apply (runs_mono _ _ _ _ (M s)). intros [a|e] s1 [K H]; [|auto].
  apply (runs_mono _ _ _ _ (F a s1)). intros [b|e] s2 [K2 H2]; (split; [etransitivity; eassumption|]); [auto|].
  destruct e; auto. exact (frame_spoiled _ _ K H2).
Qed.

Lemma frames_seq {A B} E (m : op A) (f : op B) U : frames E m whatever -> frames E f U -> (forall b s s1 s2, frame s s1 -> U b s1 s2 -> U b s s2) ->
  frames E (m;; f) U.
Proof.
  intros M F T. apply (frames_bind E _ _ whatever _ M). intros a s. apply (runs_mono _ _ _ _ (F s)). intros [b|e] s1 [K H]; (split; [exact K|]); eauto.
Qed.

Lemma frames_mono {A} (E E' : ending -> Prop) (m : op A) (V V' : A -> service -> service -> Prop) : frames E m V -> (forall e, E e -> E' e) ->
  (forall a s s', V a s s' -> V' a s s') -> frames E' m V'.
Proof. intros M H1 H2 s. apply (runs_mono _ _ _ _ (M s)). intros [a|e] s1 [K H]; (split; [exact K|]); [auto|]. destruct e; auto. Qed.

Lemma frames_except {A} (E F : ending -> Prop) (m : op A) h V : frames E m V ->
  (forall e, E e -> e <> Dead -> frames F (h e) (fun a s1 s2 => forall s, frame s s1 -> V a s s2)) -> frames F (except m h) V.
Proof.
  intros M H s. specialize (M s). unfold runs, except in M |- *. destruct (m s) as [[a|e] s1]; cbn [fst snd] in M |- *; [exact M|]. destruct M as [K M].
  assert (G : forall x, E x -> x <> Dead -> runs (h x) (fun r s' => frame s s' /\ match r with Ok a => V a s s' | Err Dead => spoiled (world_ s) | Err e => F e end) s1).
  { intros x Ex N. apply (runs_mono _ _ _ _ (H x Ex N s1)). intros [a|y] s2 [K2 X]; (split; [etransitivity; eassumption|]); [auto|].
    destruct y; auto. exact (frame_spoiled _ _ K X). }
  destruct e; [apply (G _ M); discriminate..|]. split; [exact K|exact M].
Qed.

(** The attempts: no exception leaves them. *)
Lemma frames_attempt {A} (E F : ending -> Prop) (m : op A) V : frames E m V ->
  frames F (attempt m) (fun o s s' => match o with Some a => V a s s' | None => True end).
Proof.
  intros M. unfold attempt. apply (frames_except E).
  - apply (frames_bind E _ _ V _ M). intros a. apply frames_ret. auto.
  - intros e _ _. apply frames_ret. auto.
Qed.

(** A run of the file store that keeps to what is its own. *)
Lemma frames_lift {A} mine mine_b (Ex : fs_exn -> Prop) (m : run A) V : minds mine mine_b Ex m V ->
  (forall w w', kept_file mine mine_b w w' -> tended w w') -> frames foreign (lift m) (fun a s s' => V a (world_ s) (world_ s')).
Proof.
  intros M T s. specialize (M (world_ s)). unfold runs, lift in M |- *. destruct (m (world_ s)) as [[a|[e|]] w']; cbn [fst snd] in M |- *; destruct M as [K M];
    (split; [split; try reflexivity; apply T, K|]); cbn in *; auto.
Qed.

Lemma tended_none w w' : kept_file none none w w' -> tended w w'.
Proof. apply kept_any. Qed.

Lemma frames_look (E : ending -> Prop) : (forall x, E (Unforeseen x)) -> frames E (lift look) whatever.
Proof.
  intros H. apply (frames_mono foreign E _ _ _ (frames_lift _ _ _ _ _ (minds_look (mine := none) (mine_b := none)) tended_none)); [|unfold whatever; auto].
  intros [| | |] F; (contradiction || apply H).
Qed.

Lemma frames_get E : frames E get_st (fun a s s' => a = s /\ s' = s).
Proof. intros s. apply runs_get. split; [reflexivity|auto]. Qed.

Lemma frames_computed {A} (E : ending -> Prop) (m : option A) : (forall x, E (Unforeseen x)) -> frames E (computed m) (fun a _ _ => m = Some a).
Proof. intros H. destruct m as [a|]; [apply frames_ret; reflexivity|apply frames_raise; [apply H|discriminate]]. Qed.

(** *** The steps *)

(** How a step that publishes nothing may end. *)
Definition quits (e : ending) (s : service) : Prop := match e with Refused x => unapplied x | _ => spoiled (world_ s) end.

Lemma frames_runs {A} (m : op A) V s0 s Q : frames polite m V -> frame s0 s ->
  (forall a s', frame s s' -> frame s0 s' -> V a s s' -> Q (Ok a) s') ->
  (forall e s', frame s0 s' -> quits e s0 -> Q (Err e) s') -> runs m Q s.
Proof.
  intros M K H1 H2. apply (runs_mono _ _ _ _ (M s)). intros [a|e] s' [K' R]; [apply H1; auto; etransitivity; eassumption|].
  apply H2; [etransitivity; eassumption|]. destruct e; try exact R; [contradiction..|exact (frame_spoiled _ _ K R)].
Qed.

Lemma frames_require_open : frames polite require_open (fun _ s _ => service_closed s = false).
Proof.
  unfold require_open. apply (frames_bind _ _ _ (fun a s s' => a = s /\ s' = s)); [apply frames_get|]. intros x.
  destruct (service_closed x) eqn:C; [apply frames_fail; discriminate|]. apply frames_ret. intros s s1 _ [-> ->]. exact C.
Qed.

Lemma frames_check_adoption current operation : frames polite (check_adoption current operation)
  (fun _ _ _ => match operation with ADOPT => current = UNADOPTED_REVISION | WRITE => current <> UNADOPTED_REVISION end).
Proof.
  unfold check_adoption. destruct operation, (Z.eqb_spec current UNADOPTED_REVISION); cbn [negb];
    (apply frames_ret; auto) || (apply frames_fail; discriminate).
Qed.

Lemma frames_check_revision current expected : frames polite (check_revision current expected) (fun _ _ _ => expected = current).
Proof.
  unfold check_revision. destruct (Z.eqb_spec expected current); cbn [negb]; [apply frames_ret; auto|]. apply frames_raise; [reflexivity|discriminate].
Qed.

Lemma frames_check_disk : frames polite check_disk_matches_reference
  (fun d s _ => snapshot_digest d = reference_digest s /\ snapshot_digest d = digest_bytes (snapshot_data d)).
Proof.
  unfold check_disk_matches_reference. eapply frames_bind.
  - apply (frames_attempt foreign). apply (frames_lift _ _ _ _ _ (minds_snapshot digest_bytes none none) tended_none).
  - intros [d|]; [|apply frames_fail; discriminate]. eapply frames_bind; [apply frames_get|]. intros x. cbn beta.
    destruct (bool_decide_reflect (snapshot_digest d = reference_digest x)) as [D|]; [|apply frames_fail; discriminate].
    apply frames_ret. intros s1 s2 _ [-> ->] s F [_ H]. rewrite <- (f_digest _ _ F). auto.
Qed.

Definition room (s : service) : Prop := (length (Registry.retired_list (registry s)) < Registry.max_retired (registry s))%nat.

Lemma frames_check_capacity : frames polite check_reload_capacity (fun _ s _ => room s).
Proof.
  unfold check_reload_capacity. eapply frames_bind; [apply frames_get|]. intros x. unfold Registry.check_can_swap.
  destruct (Nat.leb_spec (Registry.max_retired (registry x)) (length (Registry.retired_list (registry x)))); [apply frames_fail; discriminate|].
  apply frames_ret. intros s1 s _ [-> ->]. assumption.
Qed.

Lemma validates_same raw c : validate_file_config raw = Ok c -> c = raw.
Proof.
  unfold validate_file_config, model_validate, adopted_requires_ids, refuse_if. destruct (negb _); [discriminate|]. cbn.
  destruct (_ =? _); [intros [= ->]; reflexivity|]. destruct (missing_ids _ _ ++ _); [|discriminate].
  destruct (_ || _); cbn; [discriminate|intros [= ->]; reflexivity].
Qed.

(** What the mutations promise: an error of theirs does not say that the
    change was applied. *)
Definition modest (mutation : ConfigMutation) : Prop := forall c e, mutation c = Err (Some e) -> unapplied e.

Lemma frames_next_document current mutation revision : modest mutation ->
  frames polite (next_document current mutation revision) (fun c _ _ =>
    exists proposed, mutation current = Ok proposed /\ c = with_revision revision proposed /\ validate_file_config c = Ok c).
Proof.
  intros M. unfold next_document. apply (frames_except (fun e => match e with Refused x => unapplied x | _ => True end)).
  - apply frames_seq; [apply frames_look; auto| |eauto].
    apply (frames_bind _ _ _ (fun p _ _ => mutation current = Ok p)).
    + destruct (mutation current) as [p|[x|]] eqn:E; [apply frames_ret; reflexivity|apply frames_raise; [exact (M _ _ E)|discriminate]|
        apply frames_raise; [exact I|discriminate]].
    + intros p. eapply (frames_mono foreign); [apply frames_computed; exact (fun _ => I)|intros [| | |]; cbn; tauto|]. cbn beta. intros c s s' H s1 _ P.
      destruct (validate_file_config (with_revision revision p)) as [c'|] eqn:V; [|discriminate]. injection H as <-. exists p.
      split; [exact P|]. pose proof (validates_same _ _ V) as ->. auto.
  - intros e He N. destruct e as [x| | |]; [apply frames_raise; [exact He|discriminate]|apply frames_fail; discriminate..].
Qed.

Context (safe_dump : MaskingFileConfig -> option pystr) (safe_load : pystr -> option MaskingFileConfig)
  (model_eq : MaskingFileConfig -> MaskingFileConfig -> bool).

Lemma frames_render document : frames polite (render safe_dump safe_load model_eq document)
  (fun r _ _ => render_document safe_dump safe_load model_eq document = Some r).
Proof.
  unfold render. eapply frames_bind.
  - apply (frames_attempt anything). apply frames_seq; [apply frames_look; exact (fun _ => I)|apply frames_computed; exact (fun _ => I)|eauto].
  - intros [r|]; [|apply frames_fail; discriminate]. apply frames_ret. auto.
Qed.

Lemma frames_connect candidate : frames polite (connect_candidate candidate) whatever.
Proof.
  unfold connect_candidate. eapply frames_bind; [apply (frames_attempt anything), frames_look; exact (fun _ => I)|].
  intros [u|]; [apply frames_ret; unfold whatever; auto|apply frames_fail; discriminate].
Qed.

(** *** The candidate *)

Context (secrets : secret_provider).

Lemma lift_runs {A} (Ex : fs_exn -> Prop) (m : run A) V s : minds none none Ex m V ->
  runs (lift m) (fun r s' => frame s s' /\ match r with
    | Ok a => V a (world_ s) (world_ s')
    | Err (Unforeseen e) => Ex e \/ e = Interrupted /\ spoiled (world_ s)
    | Err Dead => spoiled (world_ s)
    | Err _ => False
    end) s.
Proof.
  intros M. specialize (M (world_ s)). unfold runs, lift in M |- *. destruct (m (world_ s)) as [[a|[e|]] w']; cbn [fst snd] in M |- *; destruct M as [K M];
    (split; [split; try reflexivity; apply tended_none, K|]); exact M.
Qed.

(** The closing of an adapter is counted; only an interruption leaves it. *)
Lemma close_adapter_runs r s : runs (close_adapter r) (fun x s' => frame (s <| discarded ::= cons r |>) s' /\
  match x with Ok _ => True | Err (Unforeseen _) | Err Dead => spoiled (world_ s) | Err _ => False end) s.
Proof.
  unfold close_adapter. apply runs_bind, runs_get, runs_bind. unfold put_st, runs at 1. cbn [fst snd].
  apply (runs_mono _ _ _ _ (lift_runs never _ any (s <| discarded ::= cons r |>) (minds_suppress never look minds_look))).
  intros [u|[e|e|e|]] s' [F H]; (split; [exact F|]); try exact H. destruct H as [[]|[_ H]]. exact H.
Qed.

(** Nothing is published; the runtimes there were are as they were. *)
Record behind (s s' : service) : Prop := {
  h_kept : kept (le (next_token w0)) (fun b => backups w0 !! b = None) (world_ s) (world_ s');
  h_contents r : (r < next_runtime s)%nat -> contents s' r = contents s r;
  h_next : (next_runtime s <= next_runtime s')%nat;
  h_digest : reference_digest s' = reference_digest s;
  h_closed : service_closed s' = service_closed s;
  h_total : operations_total s' = operations_total s;
}.

#[export] Instance behind_preorder : PreOrder behind.
Proof.
  split; [intros s; split; auto; reflexivity|]. intros s s1 s2 [A1 A2 A3 A4 A5 A6] [B1 B2 B3 B4 B5 B6].
  split; try congruence; [etransitivity; eassumption| |lia]. intros r L0. rewrite B2 by lia. apply A2, L0.
Qed.

Lemma frame_behind s s' : frame s s' -> behind s s'.
Proof. intros []. split; try congruence; [apply f_world0|lia]. Qed.

(** The adapter of a candidate that was built is closed, once. *)
Definition settled (s s' : service) : Prop :=
  next_runtime s' = next_runtime s /\ discarded s' = discarded s \/
  next_runtime s' = S (next_runtime s) /\ discarded s' = next_runtime s :: discarded s.

(** The candidate, built from that document and not closed. *)
Definition alive (document : MaskingFileConfig) (revision : Z) (c : nat) (s s' : service) : Prop :=
  c = next_runtime s /\ next_runtime s' = S c /\ discarded s' = discarded s /\
  exists policy config, compile secrets document = Some (policy, config) /\
    contents s' c = {| rt_revision := revision; rt_file_config := document; rt_config := config; rt_engine := policy |}.

Lemma alive_frame document revision c s s1 s2 : alive document revision c s s1 -> frame s1 s2 -> alive document revision c s s2.
Proof.
  intros (A1 & A2 & A3 & p & g & A4 & A5) []. unfold alive. rewrite f_next0, f_discarded0, f_contents0. eauto 8.
Qed.

Lemma settled_frame s s1 s2 : settled s s1 -> frame s1 s2 -> settled s s2.
Proof. intros H []. unfold settled. rewrite f_next0, f_discarded0. exact H. Qed.

(** How the building of a candidate ends. *)
Definition built document revision (s : service) (r : res ending nat) (s' : service) : Prop :=
  behind s s' /\ tended (world_ s) (world_ s') /\
  match r with
  | Ok c => alive document revision c s s'
  | Err e => quits e s /\ (e <> Dead -> settled s s')
  end.

Lemma adapter_runs document s : runs (attempt (lift look;; compiled ← computed (compile secrets document); adapter ← create_adapter; mret (compiled, adapter)))
  (fun r s' => exists s1, frame s s1 /\ match r with
    | Ok (Some (compiled, c)) => compile secrets document = Some compiled /\ c = next_runtime s /\ s' = s1 <| next_runtime := S (next_runtime s1) |>
    | Ok None => s' = s1
    | Err e => s' = s1 /\ e = Dead /\ spoiled (world_ s)
    end) s.
Proof.
  pose proof (frames_look anything (fun _ => I)) as Lk.
  assert (P : frames anything (lift look;; compiled ← computed (compile secrets document); lift look;; mret compiled)
    (fun x _ _ => compile secrets document = Some x)).
  { apply frames_seq; [exact Lk| |eauto]. eapply frames_bind; [apply frames_computed; exact (fun _ => I)|].
    intros x. apply frames_seq; [exact Lk|apply frames_ret; auto|eauto]. }
  specialize (P s). unfold attempt, except, create_adapter, runs in *. unfold mbind, st_bind, mret, st_ret, get_st, put_st in *.
  destruct (lift look s) as [[u|e] s1]; cbn [fst snd] in P |- *.
  2: { destruct P as [F P]. exists s1. destruct e; cbn [fst snd]; auto. }
  destruct (computed (compile secrets document) s1) as [[x|e] s2]; cbn [fst snd] in P |- *.
  2: { destruct P as [F P]. exists s2. destruct e; cbn [fst snd]; auto. }
  destruct (lift look s2) as [[u2|e] s3]; cbn [fst snd] in P |- *; destruct P as [F P]; exists s3.
  - split; [exact F|]. split; [exact P|]. split; [apply (f_next _ _ F)|reflexivity].
  - destruct e; cbn [fst snd]; auto.
Qed.

Lemma fail_quits c s : c <> CONFIG_DURABILITY_ERROR -> quits (Refused {| category := c; current_revision := None |}) s.
Proof. intros N. cbn. apply bool_decide_false. intros H. apply N. apply list_elem_of_singleton in H. exact H. Qed.

(** After a new number was taken for the adapter. *)
Lemma taken_behind s s1 : frame s s1 -> behind s (s1 <| next_runtime := S (next_runtime s1) |>) /\ tended (world_ s) (world_ s1).
Proof.
  intros [F1 F2 F3 F4 F5 F6 F7]. split; [|exact F1]. split; cbn; auto; [apply F1|intros r _; rewrite F2; reflexivity|unfold const; lia].
Qed.

(** The candidate's adapter closed, and the error on its way. *)
Lemma close_candidate_runs {A} (e : ending) (W : world -> Prop) s0 s : behind s0 s -> (forall w, tended (world_ s) w -> W w) ->
  next_runtime s = S (next_runtime s0) -> discarded s = discarded s0 -> quits e s0 -> e <> Dead ->
  runs (close_adapter (next_runtime s0);; raise_st e : op A) (fun r s' => behind s0 s' /\ W (world_ s') /\
    match r with Ok _ => False | Err e' => quits e' s0 /\ (e' <> Dead -> settled s0 s') end) s.
Proof.
  intros B T N D Q ND. apply runs_bind. apply (runs_mono _ _ _ _ (close_adapter_runs (next_runtime s0) s)). intros r s1 [F H].
  assert (B1 : behind s0 s1) by (etransitivity; [exact B|]; apply frame_behind in F; destruct F; split; assumption).
  assert (T1 : W (world_ s1)) by (apply T, (f_world _ _ F)).
  assert (St : settled s0 s1).
  { right. rewrite (f_next _ _ F), (f_discarded _ _ F). cbn. rewrite D. auto. }
  assert (Sp : spoiled (world_ s) -> spoiled (world_ s0)) by apply spoiled_suffix, (k_script _ _ (h_kept _ _ B)).
  destruct r as [u|x]; [apply runs_raise; auto|]. split; [exact B1|]. split; [exact T1|]. destruct x; cbn; try contradiction; auto.
Qed.

Lemma build_candidate_runs document revision s : runs (build_candidate secrets document revision) (built document revision s) s.
Proof.
  unfold build_candidate. apply runs_bind. apply (runs_mono _ _ _ _ (adapter_runs document s)). intros r s1 (s2 & F & H).
  destruct r as [[[[policy config] c]|]|e].
  - destruct H as (C & -> & ->). pose proof (taken_behind _ _ F) as [B T]. set (s3 := s2 <| next_runtime := _ |>) in *.
    assert (N3 : next_runtime s3 = S (next_runtime s)) by (cbn; unfold const; rewrite (f_next _ _ F); reflexivity).
    assert (Lk : runs (lift look) (fun r s' => frame s3 s' /\ match r with Ok _ => True | Err e => e <> Dead \/ e = Dead /\ spoiled (world_ s) end) s3).
    { apply (runs_mono _ _ _ _ (frames_look anything (fun _ => I) s3)). intros [u|e] s4 [F4 H4]; (split; [exact F4|]); [exact I|].
      destruct e; [left; discriminate..|right]. split; [reflexivity|]. apply (frame_spoiled s s2 F), H4. }
    assert (G : forall s4, frame s3 s4 -> behind s s4 /\ tended (world_ s) (world_ s4) /\ next_runtime s4 = S (next_runtime s) /\ discarded s4 = discarded s).
    { intros s4 F4. split; [etransitivity; [exact B|apply frame_behind, F4]|]. split; [etransitivity; [exact T|apply (f_world _ _ F4)]|].
      split; [rewrite (f_next _ _ F4); exact N3|]. rewrite (f_discarded _ _ F4). apply (f_discarded _ _ F). }
    unfold runs, except, mbind, st_bind in Lk |- *. destruct (lift look s3) as [[u|e] s4]; cbn [fst snd] in Lk |- *; destruct Lk as [F4 H4];
      destruct (G s4 F4) as (B4 & T4 & N4 & D4).
    + split; [|split; [exact T4|]].
      * destruct B4. split; auto. intros r Hr. cbn. unfold const, insert, fn_insert. rewrite decide_False by lia. auto.
      * split; [reflexivity|]. split; [exact N4|]. split; [exact D4|]. exists policy, config. split; [exact C|]. cbn. unfold const, insert, fn_insert. rewrite decide_True by reflexivity. reflexivity.
    + assert (X : e <> Dead -> runs (close_adapter (next_runtime s);; fail CONFIG_RELOAD_ERROR) (built document revision s) s4).
      { intros ND. eapply runs_mono; [apply (close_candidate_runs (A := nat) _ (tended (world_ s)) s s4 B4 (fun w => transitivity T4) N4 D4
          (fail_quits CONFIG_RELOAD_ERROR s ltac:(discriminate))); discriminate|].
        intros [a|x] s5 (B5 & T5 & H5); [contradiction|]. split; [exact B5|]. split; [exact T5|exact H5]. }
      destruct e; [apply X; discriminate..|]. cbn. split; [exact B4|]. split; [exact T4|]. destruct H4 as [H4|[_ H4]]; [congruence|].
      split; [exact H4|congruence].
  - subst s1. apply runs_raise. split; [apply frame_behind, F|]. split; [apply (f_world _ _ F)|]. split; [apply fail_quits; discriminate|].
    intros _. left. split; [apply (f_next _ _ F)|apply (f_discarded _ _ F)].
  - destruct H as (-> & -> & Sp). split; [apply frame_behind, F|]. split; [apply (f_world _ _ F)|]. split; [exact Sp|congruence].
Qed.

(** *** The writing *)

Context (posix : bool) (clock : world -> Z).

(** Only the world changed, in what is the operation's own. *)
Record still (s s' : service) : Prop := {
  t_kept : kept (le (next_token w0)) (fun b => backups w0 !! b = None) (world_ s) (world_ s');
  t_contents : contents s' = contents s;
  t_next : next_runtime s' = next_runtime s;
  t_discarded : discarded s' = discarded s;
  t_digest : reference_digest s' = reference_digest s;
  t_closed : service_closed s' = service_closed s;
  t_total : operations_total s' = operations_total s;
}.

#[export] Instance still_preorder : PreOrder still.
Proof.
  split; [intros s; split; auto; reflexivity|]. intros s s1 s2 [] []. split; try congruence. etransitivity; eassumption.
Qed.

Lemma frame_still s s' : frame s s' -> still s s'.
Proof. intros []. split; auto. apply f_world0. Qed.

Lemma still_behind s s' : still s s' -> behind s s'.
Proof. intros [A1 A2 A3 A4 A5 A6 A7]. split; auto; [|lia]. intros r _. rewrite A2. reflexivity. Qed.

(** The file is left alone, or an accident put the new contents there. *)
Definition aside (data : list byte) (w w' : world) : Prop :=
  at_some_time w (file_ w') \/ spoiled w /\ file_ w' = data.

Lemma at_some_time_before w w1 c : tended w w1 -> at_some_time w1 c -> at_some_time w c.
Proof.
  intros [K F] [->|E]; [exact F|right]. apply (edited_to_suffix w w1); [apply K|exact E].
Qed.

Lemma aside_before data w w1 w2 : tended w w1 -> aside data w1 w2 -> aside data w w2.
Proof.
  intros T [H|[S H]]; [left; exact (at_some_time_before _ _ _ T H)|right]. split; [|exact H]. apply (spoiled_suffix w w1 (k_script _ _ (kf_kept _ _ T)) S).
Qed.

Lemma aside_after data w w1 w2 : script w1 `suffix_of` script w -> aside data w w1 -> tended w1 w2 -> aside data w w2.
Proof.
  intros Su H [K F]. destruct F as [F|F]; [unfold aside; rewrite F; exact H|]. left. right. exact (edited_to_suffix _ _ _ Su F).
Qed.

Lemma took_place_before d data w w1 w2 : tended w w1 -> took_place digest_bytes d data w1 w2 -> took_place digest_bytes d data w w2.
Proof.
  intros T (x & Sx & Ax & H). exists x. split; [etransitivity; [exact Sx|apply (k_script _ _ (kf_kept _ _ T))]|].
  split; [exact (at_some_time_before _ _ _ T Ax)|exact H].
Qed.

Lemma took_place_after d data w w1 w2 : took_place digest_bytes d data w w1 -> tended w1 w2 -> took_place digest_bytes d data w w2.
Proof.
  intros (x & Sx & Ax & Dx & S1 & F1) [K F]. pose proof (k_script _ _ K) as S2. exists x. split; [exact Sx|]. split; [exact Ax|]. split; [exact Dx|].
  split; [etransitivity; eassumption|]. destruct F as [F|(e & I & E)]; [rewrite F; exact F1|right]. exists e. split; [|exact E].
  destruct S1 as [l ->]. apply elem_of_app. auto.
Qed.

Lemma tended_at_some_time w w' : tended w w' -> at_some_time w (file_ w').
Proof. intros [_ F]. exact F. Qed.

Lemma installed_aside d data w w' : spoiled w -> installed digest_bytes d data w w' -> aside data w w'.
Proof. intros S H. destruct (installed_file _ _ _ _ _ H) as [E|E]; [right; auto|left; right; exact E]. Qed.

Lemma persist_runs data s : tended w0 (world_ s) -> runs (persist posix data) (fun r s' =>
  (still s s' /\ forall b, backups (world_ s') !! b = backups (world_ s) !! b) /\ match r with
  | Ok p => took_place digest_bytes (reference_digest s) data (world_ s) (world_ s') /\ persisted_digest p = digest_bytes data /\ (durable p = true -> persisted_fsync p = posix)
  | Err e => quits e s /\ aside data (world_ s) (world_ s')
  end) s.
Proof.
  intros T. unfold persist. apply runs_bind, runs_get. pose proof (write_atomic_runs digest_bytes posix data (reference_digest s) (world_ s)) as W.
  unfold runs, except, lift, mbind, st_bind in W |- *. destruct (write_atomic _ _ _ _ (world_ s)) as [r w']. cbn [fst snd] in W. destruct W as [K W].
  assert (St : still s (s <| world_ := w' |>) /\ forall b, backups (world_ (s <| world_ := w' |>)) !! b = backups (world_ s) !! b).
  { split; [|intros b; apply (k_backups _ _ K b); unfold none; auto]. split; cbn; try reflexivity. apply (kept_weaken (le (next_token (world_ s))) _ none _); [|unfold none; tauto|exact K].
    pose proof (k_token _ _ (kf_kept _ _ T)). intros t. lia. }
  assert (A : kept_file (le (next_token (world_ s))) none (world_ s) w' \/ spoiled (world_ s) /\ installed digest_bytes (reference_digest s) data (world_ s) w' ->
    aside data (world_ s) w').
  { intros [H|[S H]]; [left; apply (kf_file _ _ H)|exact (installed_aside _ _ _ _ S H)]. }
  destruct r as [x|[e|]]; [|destruct e|]; cbn [fst snd mret st_ret fail raise_st]; (split; [exact St|]);
    try (split; [apply fail_quits; discriminate|apply A, W]).
  - destruct W as (W1 & W2 & W3). cbn. split; [apply installed_took_place, W3|]. auto.
  - destruct W as (W1 & W2). cbn. split; [apply installed_took_place, W2|]. split; [exact W1|discriminate].
  - split; [apply W|apply A, W].
Qed.

Lemma backup_runs original s : tended w0 (world_ s) -> runs (write_adoption_backup clock original) (fun r s' => frame s s' /\ match r with
  | Ok _ => exists b, backups w0 !! b = None /\ backups (world_ s') !! b = Some original
  | Err e => quits e s
  end) s.
Proof.
  intros T. unfold write_adoption_backup. apply runs_bind, runs_get. set (b := clock (world_ s)). pose proof (write_backup_runs digest_bytes original b (world_ s)) as W.
  unfold runs, attempt, except, lift, mbind, st_bind in W |- *. destruct (write_backup _ _ (world_ s)) as [r w']. cbn [fst snd] in W. destruct W as (K & O & W).
  assert (F : frame s (s <| world_ := w' |>)).
  { split; cbn; try reflexivity. destruct K as [K1 K2]. split; [|exact K2]. destruct K1 as [B1 B2 B3 B4 B5 B6]. split; auto.
    intros b' N. destruct (decide (b = b')) as [Eb|Ne]; [subst b'|exact (B6 b' Ne)]. apply O.
      pose proof (k_backups _ _ (kf_kept _ _ T) b N) as E. rewrite E. apply not_eq_None_Some, N. }
  destruct r as [u|[e|]]; cbn [fst snd mret st_ret fail raise_st]; (split; [exact F|]); [|apply fail_quits; discriminate|exact W].
  exists b. split; [|apply W]. destruct (backups w0 !! b) eqn:E; [exfalso|reflexivity].
  rewrite <- (k_backups _ _ (kf_kept _ _ T) b) in E; [|congruence]. destruct W as [W _]. congruence.
Qed.

(** *** The publication *)

(** The registry once the candidate is published; the adapter of the one it
    retired, when nobody uses it, is closed. *)
Definition swapped (c : nat) (y y' : Registry.system) : Prop := exists retired g,
  Registry.swap c (Registry.set_runtime c Registry.fresh_runtime (Registry.reg_state y)) = (Ok retired, g) /\
  let z := {| Registry.reg_state := g; Registry.held := Registry.held y; Registry.to_close := option_list retired ++ Registry.to_close y;
              Registry.adapters_closed := Registry.adapters_closed y; Registry.shut := Registry.shut y |} in
  y' = match retired with Some r => closes r z | None => z end.

Lemma swapped_facts c y y' : Registry.invariant y -> Registry.runtimes (Registry.reg_state y) !! c = None -> swapped c y y' ->
  Registry.invariant y' /\ Registry.current (Registry.reg_state y') = c /\ Registry.max_retired (Registry.reg_state y') = Registry.max_retired (Registry.reg_state y) /\
  Registry.shut y' = Registry.shut y /\ forall r, is_Some (Registry.runtimes (Registry.reg_state y') !! r) <-> r = c \/ is_Some (Registry.runtimes (Registry.reg_state y) !! r).
Proof.
  intros I N (ret & g & S & E). pose proof (Registry.inv_known _ _ I) as Kn.
  assert (Ne : Registry.current (Registry.reg_state y) <> c) by (intros <-; rewrite N in Kn; destruct Kn; discriminate).
  assert (Rm : (length (Registry.retired_list (Registry.reg_state y)) < Registry.max_retired (Registry.reg_state y))%nat).
  { destruct (le_lt_dec (Registry.max_retired (Registry.reg_state y)) (length (Registry.retired_list (Registry.reg_state y)))) as [H|H]; [exfalso|exact H].
    unfold Registry.swap, Registry.check_can_swap in S. revert S. run_st. cbn [Registry.max_retired Registry.retired_list Registry.set_runtime].
    rewrite (proj2 (Nat.leb_le _ _) H). discriminate. }
  destruct (swap_succeeds c (Registry.set_runtime c Registry.fresh_runtime (Registry.reg_state y)) Rm Ne) as (x & g' & S' & C1 & C2 & C3).
  rewrite S in S'. injection S' as <- <-. cbv zeta in E. set (z := {| Registry.reg_state := g |}) in E.
  pose proof (Registry.step_invariant _ z I (Registry.step_swap y c ret g N S)) as Iz.
  assert (V : served z y').
  { destruct ret as [r|]; subst y'; [|reflexivity]. apply query_served. apply Iz. }
  assert (Iy : Registry.invariant y').
  { destruct ret as [r|]; subst y'; [|exact Iz]. apply (queried_invariant z); [exact Iz|]. exists [Closes r]. reflexivity. }
  split; [exact Iy|]. split; [rewrite (sv_current _ _ V); exact C1|]. split; [rewrite (sv_max _ _ V); exact C2|]. split; [apply (sv_shut _ _ V)|].
  intros r. rewrite (sv_known _ _ V). cbn. rewrite C3. cbn. rewrite lookup_insert_is_Some'.
  split; [intros [->|[->|H]]; auto|intros [->|H]; auto].
Qed.

(** How a publication there is room for ends. *)
Definition moved (c : nat) (d : pystr) (s s' : service) : Prop :=
  exists y, swapped c (runtimes_ (world_ s)) y /\ tended ((world_ s) <| runtimes_ := y |>) (world_ s') /\
    (forall b, backups (world_ s') !! b = backups (world_ s) !! b) /\
    reference_digest s' = d /\ contents s' = contents s /\ next_runtime s' = next_runtime s /\ discarded s' = discarded s /\
    service_closed s' = service_closed s /\ operations_total s' = operations_total s.

Lemma publish_runs c d s : room s -> published s <> c -> runs (publish c d) (fun r s' => moved c d s s' /\
  match r with Ok _ => True | Err (Unforeseen _) | Err Dead => spoiled (world_ s) | Err _ => False end) s.
Proof.
  intros Rm Ne. unfold publish. apply runs_bind, runs_get. cbv zeta.
  destruct (swap_succeeds c (Registry.set_runtime c Registry.fresh_runtime (registry s)) Rm Ne) as (ret & g & S & _).
  unfold registry in S. rewrite S. apply runs_bind. unfold put_st, runs at 1. cbn [fst snd].
  set (y := match ret with Some r => closes r _ | None => _ end). set (s1 := s <| world_ ::= _ |> <| reference_digest := d |>).
  assert (Sw : swapped c (runtimes_ (world_ s)) y) by (exists ret, g; auto).
  assert (M : forall w', kept_file none none ((world_ s) <| runtimes_ := y |>) w' -> moved c d s (s1 <| world_ := w' |>)).
  { intros w' K. exists y. split; [exact Sw|]. split; [apply tended_none, K|].
    split; [|repeat split]. intros b. apply (k_backups _ _ (kf_kept _ _ K) b). unfold none. auto. }
  destruct ret as [r|]; [|apply runs_ret; split; [apply (M ((world_ s) <| runtimes_ := y |>)); reflexivity|exact I]].
  pose proof (minds_suppress (mine := none) (mine_b := none) never look minds_look ((world_ s) <| runtimes_ := y |>)) as H.
  unfold runs, lift in H |- *. change (world_ s1) with ((world_ s) <| runtimes_ := y |>).
  destruct (suppress look ((world_ s) <| runtimes_ := y |>)) as [[u|[e|]] w']; cbn [fst snd] in H |- *; destruct H as [K H]; (split; [apply M, K|]).
  - exact I.
  - destruct H as [[]|[_ H]]. exact H.
  - exact H.
Qed.

(** *** The installation *)

Definition backed_up (operation : AdminOperation) (original : list byte) (w' : world) : Prop :=
  operation = ADOPT -> exists b, backups w0 !! b = None /\ backups w' !! b = Some original.

Lemma quits_before s s1 e : script (world_ s1) `suffix_of` script (world_ s) -> quits e s1 -> quits e s.
Proof. intros Su. destruct e; cbn; auto; apply spoiled_suffix, Su. Qed.

Lemma writing_runs operation original data c s : tended w0 (world_ s) ->
  runs (connect_candidate c;; (if decide (operation = ADOPT) then write_adoption_backup clock original else mret tt);; persist posix data)
    (fun r s' => still s s' /\ match r with
      | Ok p => took_place digest_bytes (reference_digest s) data (world_ s) (world_ s') /\ persisted_digest p = digest_bytes data /\
          (durable p = true -> persisted_fsync p = posix) /\ backed_up operation original (world_ s')
      | Err e => quits e s /\ aside data (world_ s) (world_ s')
      end) s.
Proof.
  intros T. apply runs_bind, (frames_runs (connect_candidate c) whatever s s); [apply frames_connect|reflexivity| |].
  2: { intros e s1 F Q. split; [apply frame_still, F|]. split; [exact Q|]. left. apply tended_at_some_time, F. }
  intros _ s1 _ F1 _. assert (T1 : tended w0 (world_ s1)) by (etransitivity; [exact T|apply F1]).
  assert (Su : script (world_ s1) `suffix_of` script (world_ s)) by apply (k_script _ _ (kf_kept _ _ (f_world _ _ F1))).
  assert (B : runs (if decide (operation = ADOPT) then write_adoption_backup clock original else mret tt) (fun r s2 => frame s1 s2 /\
    match r with Ok _ => backed_up operation original (world_ s2) | Err e => quits e s1 end) s1).
  { destruct (decide (operation = ADOPT)) as [E|E]; [|apply runs_ret; split; [reflexivity|intros X; contradiction]].
    apply (runs_mono _ _ _ _ (backup_runs original s1 T1)). intros [u|e] s2 [F H]; (split; [exact F|]); [intros _; exact H|exact H]. }
  apply runs_bind. apply (runs_mono _ _ _ _ B). intros r s2 [F2 H2]. assert (F : frame s s2) by (etransitivity; eassumption).
  destruct r as [u|e].
  2: { split; [apply frame_still, F|]. split; [exact (quits_before _ _ _ Su H2)|]. left. apply tended_at_some_time, F. }
  assert (T2 : tended w0 (world_ s2)) by (etransitivity; [exact T1|apply F2]).
  assert (Su2 : script (world_ s2) `suffix_of` script (world_ s)) by apply (k_script _ _ (kf_kept _ _ (f_world _ _ F))).
  apply (runs_mono _ _ _ _ (persist_runs data s2 T2)). intros r s3 [[St Bk] H3].
  split; [etransitivity; [apply frame_still, F|exact St]|]. destruct r as [p|e].
  - destruct H3 as (P & D & Du). rewrite <- (f_digest _ _ F). split; [exact (took_place_before _ _ _ _ _ (f_world _ _ F) P)|]. split; [exact D|]. split; [exact Du|].
    intros E. destruct (H2 E) as (b & N & V). exists b. split; [exact N|]. rewrite Bk. exact V.
  - split; [exact (quits_before _ _ _ Su2 (proj1 H3))|]. exact (aside_before _ _ _ _ (f_world _ _ F) (proj2 H3)).
Qed.

(** The candidate is published: what it was built from is in the file. *)
Record posted (document : MaskingFileConfig) (revision : Z) (data : list byte) (operation : AdminOperation) (original : list byte) (s s' : service) : Prop := {
  n_registry : exists y0 y1, queried (runtimes_ (world_ s)) y0 /\ swapped (next_runtime s) y0 y1 /\ queried y1 (runtimes_ (world_ s'));
  n_file : took_place digest_bytes (reference_digest s) data (world_ s) (world_ s');
  n_digest : reference_digest s' = digest_bytes data;
  n_next : next_runtime s' = S (next_runtime s);
  n_discarded : discarded s' = discarded s;
  n_old r : (r < next_runtime s)%nat -> contents s' r = contents s r;
  n_new : exists policy config, compile secrets document = Some (policy, config) /\
    contents s' (next_runtime s) = {| rt_revision := revision; rt_file_config := document; rt_config := config; rt_engine := policy |};
  n_closed : service_closed s' = service_closed s;
  n_total : operations_total s' = operations_total s;
  n_backup : backed_up operation original (world_ s');
}.

(** Nothing was published. *)
Definition unposted (data : list byte) (s s' : service) (e : ending) : Prop :=
  behind s s' /\ aside data (world_ s) (world_ s') /\ quits e s /\ (e <> Dead -> settled s s').

Definition decided document revision data operation original (s : service) (r : res ending AdminWriteResult) (s' : service) : Prop :=
  match r with
  | Ok x => posted document revision data operation original s s' /\ x = {| result_revision := revision; result_fsync := posix; result_applied := true |}
  | Err e => unposted data s s' e \/ posted document revision data operation original s s' /\
      (e = Refused {| category := CONFIG_DURABILITY_ERROR; current_revision := Some revision |} \/ spoiled (world_ s) /\ match e with Unforeseen _ | Dead => True | _ => False end)
  end.

Lemma room_behind s0 s : Registry.invariant (runtimes_ (world_ s0)) -> behind s0 s ->
  Registry.invariant (runtimes_ (world_ s)) /\ served (runtimes_ (world_ s0)) (runtimes_ (world_ s)) /\ (room s0 -> room s).
Proof.
  intros I B. pose proof (k_queries _ _ (h_kept _ _ B)) as Q. pose proof (queried_served _ _ (Registry.inv_known _ _ I) Q) as V.
  split; [exact (queried_invariant _ _ I Q)|]. split; [exact V|]. intros Rm. unfold room, registry in *. rewrite (sv_max _ _ V). pose proof (sv_retired _ _ V). lia.
Qed.

(** The runtimes of the registry are among those built. *)
Definition numbered (s : service) : Prop := forall r, is_Some (Registry.runtimes (registry s) !! r) -> (r < next_runtime s)%nat.

Lemma posted_after document revision data operation original s0 s s' p : behind s0 s -> next_runtime s = S (next_runtime s0) -> discarded s = discarded s0 ->
  (exists policy config, compile secrets document = Some (policy, config) /\
    contents s (next_runtime s0) = {| rt_revision := revision; rt_file_config := document; rt_config := config; rt_engine := policy |}) ->
  took_place digest_bytes (reference_digest s0) data (world_ s0) (world_ s) -> backed_up operation original (world_ s) -> p = digest_bytes data ->
  moved (next_runtime s0) p s s' -> posted document revision data operation original s0 s'.
Proof.
  intros B N D C P Bk -> (y & Sw & T & M1 & M2 & M3 & M4 & M5 & M6 & M7). split.
  - exists (runtimes_ (world_ s)), y. split; [apply (k_queries _ _ (h_kept _ _ B))|]. split; [exact Sw|]. apply (k_queries _ _ (kf_kept _ _ T)).
  - refine (took_place_after _ _ _ _ _ _ T). exact P.
  - exact M2.
  - congruence.
  - congruence.
  - intros r L0. rewrite M3. apply (h_contents _ _ B), L0.
  - destruct C as (policy & config & C1 & C2). exists policy, config. split; [exact C1|]. rewrite M3. exact C2.
  - rewrite M6. apply (h_closed _ _ B).
  - rewrite M7. apply (h_total _ _ B).
  - intros E. destruct (Bk E) as (b & Nb & V). exists b. split; [exact Nb|]. rewrite M1. exact V.
Qed.

Lemma runs_except {A} (m : op A) h (Q : res ending A -> service -> Prop) s :
  runs m (fun r s1 => match r with Ok a => Q (Ok a) s1 | Err Dead => Q (Err Dead) s1 | Err e => runs (h e) Q s1 end) s -> runs (except m h) Q s.
Proof. unfold runs, except. destruct (m s) as [[a|[]] s1]; auto. Qed.

(** The steps before the publication, the candidate's adapter closed when one
    fails. *)
Lemma try_writing_runs operation original data s0 s : tended w0 (world_ s0) -> behind s0 s -> tended (world_ s0) (world_ s) ->
  next_runtime s = S (next_runtime s0) -> discarded s = discarded s0 ->
  runs (except (connect_candidate (next_runtime s0);; (if decide (operation = ADOPT) then write_adoption_backup clock original else mret tt);; persist posix data)
          (fun e => close_adapter (next_runtime s0);; raise_st e))
    (fun r s' => match r with
      | Ok p => still s s' /\ took_place digest_bytes (reference_digest s0) data (world_ s0) (world_ s') /\ persisted_digest p = digest_bytes data /\
          (durable p = true -> persisted_fsync p = posix) /\ backed_up operation original (world_ s')
      | Err e => unposted data s0 s' e
      end) s.
Proof.
  intros T0 B T N D. assert (Tw : tended w0 (world_ s)) by (etransitivity; eassumption).
  assert (Su : script (world_ s) `suffix_of` script (world_ s0)) by apply (k_script _ _ (h_kept _ _ B)).
  apply runs_except. eapply runs_mono; [exact (writing_runs operation original data (next_runtime s0) s Tw)|]. intros [p|e] s1 [St W].
  - destruct W as (P & W). rewrite (h_digest _ _ B) in P. split; [exact St|]. split; [exact (took_place_before _ _ _ _ _ T P)|exact W].
  - destruct W as [Q As]. apply (aside_before _ _ _ _ T) in As. apply (quits_before _ _ _ Su) in Q.
    assert (B1 : behind s0 s1) by (etransitivity; [exact B|apply still_behind, St]).
    assert (X : e <> Dead -> runs (close_adapter (next_runtime s0);; raise_st e : op Persisted) (fun r s' => match r with Ok _ => False | Err e' => unposted data s0 s' e' end) s1).
    { intros ND. eapply runs_mono; [apply (close_candidate_runs e (aside data (world_ s0)) s0 s1 B1)|].
      - intros w K. exact (aside_after _ _ _ _ (k_script _ _ (h_kept _ _ B1)) As K).
      - rewrite (t_next _ _ St). exact N.
      - rewrite (t_discarded _ _ St). exact D.
      - exact Q.
      - exact ND.
      - intros [x|e'] s2 (B2 & A2 & H2); [exact H2|]. split; [exact B2|]. split; [exact A2|]. exact H2. }
    assert (Y : forall m : op Persisted, runs m (fun r s' => match r with Ok _ => False | Err e' => unposted data s0 s' e' end) s1 ->
      runs m (fun r s' => match r with Ok p => still s s' /\ took_place digest_bytes (reference_digest s0) data (world_ s0) (world_ s') /\ persisted_digest p = digest_bytes data /\
          (durable p = true -> persisted_fsync p = posix) /\ backed_up operation original (world_ s') | Err e => unposted data s0 s' e end) s1)
      by (intros m H; eapply runs_mono; [exact H|]; intros [x|x] s2; [contradiction|auto]).
    destruct e; [apply Y, X; discriminate..|]. split; [exact B1|]. split; [exact As|]. split; [exact Q|congruence].
Qed.

Lemma install_runs operation disk rendered revision c s0 s : Registry.invariant (runtimes_ (world_ s0)) -> numbered s0 -> room s ->
  tended w0 (world_ s0) -> behind s0 s -> tended (world_ s0) (world_ s) -> alive (rendered_document rendered) revision c s0 s ->
  runs (install posix clock operation disk rendered revision c)
    (decided (rendered_document rendered) revision (rendered_data rendered) operation (snapshot_data disk) s0) s.
Proof.
  intros I Nu Rm T0 B T (-> & N & D & C). unfold install. set (c := next_runtime s0). apply runs_bind.
  eapply runs_mono; [exact (try_writing_runs operation (snapshot_data disk) (rendered_data rendered) s0 s T0 B T N D)|]. intros [p|e] s1 H; [|left; exact H].
  destruct H as (St & P & Dg & Du & Bk). assert (B1 : behind s0 s1) by (etransitivity; [exact B|apply still_behind, St]).
  destruct (room_behind s0 s1 I B1) as (I1 & V1 & _). destruct (room_behind s0 s I B) as (Is & _).
  destruct (room_behind s s1 Is (still_behind _ _ St)) as (_ & _ & Rm1). specialize (Rm1 Rm).
  assert (Ne : published s1 <> c).
  { unfold published, registry. rewrite (sv_current _ _ V1). intros E. pose proof (Nu _ (Registry.inv_known _ _ I)) as X. unfold registry in X. subst c. lia. }
  assert (Sp : spoiled (world_ s1) -> spoiled (world_ s0)) by apply spoiled_suffix, (k_script _ _ (h_kept _ _ B1)).
  assert (G : forall s2, moved c (persisted_digest p) s1 s2 -> posted (rendered_document rendered) revision (rendered_data rendered) operation (snapshot_data disk) s0 s2 /\ published s2 = c).
  { intros s2 M. split.
    - apply (posted_after _ _ _ _ _ s0 s1 s2 (persisted_digest p)); [exact B1|rewrite (t_next _ _ St); exact N|rewrite (t_discarded _ _ St); exact D|
        rewrite (t_contents _ _ St); exact C|exact P|exact Bk|exact Dg|exact M].
    - destruct M as (y & Sw & Ty & _). assert (Nk : Registry.runtimes (registry s1) !! c = None).
      { apply eq_None_not_Some. intros X. apply (sv_known _ _ V1), Nu in X. subst c. lia. }
      destruct (swapped_facts c _ y I1 Nk Sw) as (Iy & Cy & _).
      unfold published, registry. rewrite (sv_current y _ (queried_served y _ (Registry.inv_known _ _ Iy) (k_queries _ _ (kf_kept _ _ Ty)))). exact Cy. }
  apply runs_bind, runs_except. eapply runs_mono; [exact (publish_runs c (persisted_digest p) s1 Rm1 Ne)|]. intros r s2 [M H]. destruct (G s2 M) as [Po Cu].
  assert (Z : forall e, spoiled (world_ s1) -> match e with Unforeseen _ | Dead => True | _ => False end ->
    decided (rendered_document rendered) revision (rendered_data rendered) operation (snapshot_data disk) s0 (Err e) s2)
    by (intros e S1 X; right; split; [exact Po|right; auto]).
  destruct r as [u|[e|e|e|]]; try contradiction.
  - apply runs_bind, runs_get, runs_bind. unfold put_st, runs at 1. cbn [fst snd]. set (s3 := s2 <| audit_probe ::= _ |>).
    assert (P3 : posted (rendered_document rendered) revision (rendered_data rendered) operation (snapshot_data disk) s0 s3) by (destruct Po; split; assumption).
    destruct (durable p); cbn [negb]; [apply runs_ret|apply runs_raise; right; auto]. split; [exact P3|]. rewrite Du by reflexivity. reflexivity.
  - apply runs_bind, runs_get, runs_bind. rewrite decide_True by exact Cu. apply runs_ret, runs_raise, Z; auto.
  - apply Z; auto.
Qed.

(** *** The operation *)

(** Contents from which a runtime can be built. *)
Definition loadable (data : list byte) : Prop := exists document,
  parse_document safe_load data = Some document /\ is_Some (compile secrets document).

(** The operation published nothing: the registry is as the queries left it;
    the file is as it was or as its editors left it, unless an accident put
    there contents that a runtime can be built from. *)
Record retreat (e : ending) (s s' : service) : Prop := {
  r_behind : behind s s';
  r_file : at_some_time (world_ s) (file_ (world_ s')) \/ spoiled (world_ s) /\ loadable (file_ (world_ s'));
  r_quits : quits e s;
  r_settled : e <> Dead -> settled s s';
}.

Lemma render_loadable document r : render_document safe_dump safe_load model_eq document = Some r ->
  parse_document safe_load (rendered_data r) = Some (rendered_document r) /\ model_eq (rendered_document r) document = true.
Proof.
  unfold render_document. destruct (safe_dump document) as [text|]; [|discriminate]. cbn [mbind option_bind].
  destruct (utf8_encode text) as [data|]; [|discriminate]. cbn [mbind option_bind]. destruct (parse_document safe_load data) as [d|] eqn:P; [|discriminate].
  cbn [mbind option_bind]. destruct (model_eq d document) eqn:E; [|discriminate]. intros [= <-]. auto.
Qed.

Lemma frame_retreat e s s' : frame s s' -> quits e s -> retreat e s s'.
Proof.
  intros F Q. split; [apply frame_behind, F|left; apply tended_at_some_time, F|exact Q|]. intros _. left.
  split; [apply (f_next _ _ F)|apply (f_discarded _ _ F)].
Qed.

Lemma unposted_retreat e document r s s' : render_document safe_dump safe_load model_eq document = Some r -> is_Some (compile secrets (rendered_document r)) ->
  unposted (rendered_data r) s s' e -> retreat e s s'.
Proof.
  intros R C (B & A & Q & St). split; auto. destruct A as [A|[S A]]; [auto|right]. split; [exact S|]. rewrite A.
  exists (rendered_document r). split; [apply (render_loadable _ _ R)|exact C].
Qed.

(** What an operation that was not refused had before it. *)
Record granted (mutation : ConfigMutation) (expected : Z) (operation : AdminOperation) (s : service) (r : RenderedDocument) (original : list byte) : Prop := {
  g_open : service_closed s = false;
  g_expected : expected = published_revision s;
  g_adoption : match operation with ADOPT => expected = UNADOPTED_REVISION | WRITE => expected <> UNADOPTED_REVISION end;
  g_disk : digest_bytes original = reference_digest s;
  g_mutation : exists proposed, mutation (rt_file_config (contents s (published s))) = Ok proposed /\
    validate_file_config (with_revision (expected + 1) proposed) = Ok (with_revision (expected + 1) proposed) /\
    render_document safe_dump safe_load model_eq (with_revision (expected + 1) proposed) = Some r;
}.

(** How an operation ends. *)
Definition concluded mutation expected operation (s : service) (r : res ending AdminWriteResult) (s' : service) : Prop :=
  (exists e, r = Err e /\ retreat e s s') \/
  exists rendered original, granted mutation expected operation s rendered original /\
    posted (rendered_document rendered) (expected + 1) (rendered_data rendered) operation original s s' /\
    match r with
    | Ok x => x = {| result_revision := expected + 1; result_fsync := posix; result_applied := true |}
    | Err e => e = Refused {| category := CONFIG_DURABILITY_ERROR; current_revision := Some (expected + 1) |} \/
        spoiled (world_ s) /\ match e with Unforeseen _ | Dead => True | _ => False end
    end.

Lemma execute_runs mutation expected operation s : modest mutation -> Registry.invariant (runtimes_ (world_ s)) -> numbered s -> tended w0 (world_ s) ->
  runs (execute posix safe_dump safe_load model_eq secrets clock mutation expected operation) (concluded mutation expected operation s) s.
Proof.
  intros M I Nu T0. assert (Stop : forall e s', frame s s' -> quits e s -> concluded mutation expected operation s (Err e) s')
    by (intros e s' F Q; left; exists e; split; [reflexivity|apply frame_retreat; assumption]).
  unfold execute. apply runs_bind, (frames_runs _ _ s s _ frames_require_open); [reflexivity| |exact Stop]. intros _ s1 _ F1 Op.
  apply runs_bind, runs_get, runs_bind. unfold put_st, runs at 1. cbn [fst snd]. set (s2 := s1 <| audit_probe := _ |>).
  assert (V1 : served (runtimes_ (world_ s)) (runtimes_ (world_ s1))) by apply (queried_served _ _ (Registry.inv_known _ _ I)), (k_queries _ _ (kf_kept _ _ (f_world _ _ F1))).
  assert (Pu : contents s1 (published s1) = contents s (published s)).
  { unfold published, registry. rewrite (f_contents _ _ F1), (sv_current _ _ V1). reflexivity. }
  rewrite Pu. change (rt_revision (contents s (published s))) with (published_revision s).
  assert (F2 : frame s s2) by (destruct F1; split; assumption).
  apply runs_bind, (frames_runs _ _ s s2 _ (frames_check_adoption _ _)); [exact F2| |exact Stop]. intros _ s3 _ F3 Ad.
  apply runs_bind, (frames_runs _ _ s s3 _ (frames_check_revision _ _)); [exact F3| |exact Stop]. intros _ s4 _ F4 Ex.
  apply runs_bind, (frames_runs _ _ s s4 _ frames_check_disk); [exact F4| |exact Stop]. intros disk s5 _ F5 [D1 D2].
  apply runs_bind, (frames_runs _ _ s s5 _ frames_check_capacity); [exact F5| |exact Stop]. intros _ s6 F56 F6 Rm. cbv zeta.
  rewrite <- Ex in Ad |- *.
  apply runs_bind, (frames_runs _ _ s s6 _ (frames_next_document _ _ _ M)); [exact F6| |exact Stop]. intros document s7 F67 F7 (p & P1 & -> & P3).
  apply runs_bind, (frames_runs _ _ s s7 _ (frames_render _)); [exact F7| |exact Stop]. intros r s8 F78 F8 R.
  assert (Rm8 : room s8).
  { destruct (room_behind s s5 I (frame_behind _ _ F5)) as (I5 & _). assert (B58 : behind s5 s8).
    { etransitivity; [apply frame_behind, F56|]. etransitivity; [apply frame_behind, F67|apply frame_behind, F78]. }
    apply (room_behind s5 s8 I5 B58), Rm. }
  apply runs_bind. eapply runs_mono; [apply build_candidate_runs|]. intros [c|e] s9 (B9 & T9 & H9).
  - assert (B : behind s s9) by (etransitivity; [apply frame_behind, F8|exact B9]).
    assert (C : is_Some (compile secrets (rendered_document r))) by (destruct H9 as (_ & _ & _ & po & co & E & _); eauto).
    eapply runs_mono; [apply (install_runs operation disk r (expected + 1) c s s9 I Nu)|].
    + destruct (room_behind s s8 I (frame_behind _ _ F8)) as (I8 & _). apply (room_behind s8 s9 I8 B9), Rm8.
    + exact T0.
    + exact B.
    + etransitivity; [apply (f_world _ _ F8)|exact T9].
    + destruct H9 as (H1 & H2 & H3 & H4). split; [rewrite H1; apply (f_next _ _ F8)|]. split; [exact H2|]. split; [|exact H4].
      rewrite H3. apply (f_discarded _ _ F8).
    + assert (Gr : granted mutation expected operation s r (snapshot_data disk)).
      { split; [rewrite <- Op; reflexivity|exact Ex|exact Ad| |exists p; auto]. rewrite <- D2, D1. apply (f_digest _ _ F4). }
      intros [x|e] s10 H; cbn in H.
      * right. exists r, (snapshot_data disk). destruct H as [H ->]. auto.
      * destruct H as [H|[H E]]; [left; exists e; split; [reflexivity|exact (unposted_retreat _ _ _ _ _ R C H)]|].
        right. exists r, (snapshot_data disk). auto.
  - left. exists e. split; [reflexivity|]. destruct H9 as [Q St].
    assert (Su : script (world_ s8) `suffix_of` script (world_ s)) by apply (k_script _ _ (kf_kept _ _ (f_world _ _ F8))).
    split; [etransitivity; [apply frame_behind, F8|exact B9]| |exact (quits_before _ _ _ Su Q)|].
    + left. apply (at_some_time_before _ _ _ (f_world _ _ F8)), tended_at_some_time, T9.
    + intros ND. specialize (St ND). unfold settled in *. rewrite <- (f_next _ _ F8), <- (f_discarded _ _ F8). exact St.
Qed.

End Frames.
