(* ===== verification/AdminCalm.v ===== *)
(** * AdminCalm: an administrative operation when nothing fails

    The steps of [AdminService] in a world where no call fails and nobody
    edits the file: each succeeds, whatever queries run meanwhile. *)

From S2P Require Import Prelude Bytes Unicode Canonical Transformers Masking Sql Config ConfigFile AdminService AdminSteps.
From S2P Require Registry.
From coqutil Require Import Datatypes.RecordSettersUsingExistingGetters.

Local Open Scope Z_scope.

(** ** When nothing fails and nobody edits *)

Section Calm.
Context {L : PyLib} (posix : bool).
Context (safe_dump : MaskingFileConfig -> option pystr) (safe_load : pystr -> option MaskingFileConfig)
  (model_eq : MaskingFileConfig -> MaskingFileConfig -> bool) (secrets : secret_provider) (clock : world -> Z).

(** The step succeeds, with such a value. *)
Definition fine {A} (m : op A) (V : A -> service -> Prop) (s : service) : Prop :=
  runs m (fun r s' => match r with Ok a => V a s' | Err _ => False end) s.

Lemma fine_bind {A B} (m : op A) (f : A -> op B) V s : fine m (fun a s1 => fine (f a) V s1) s -> fine (m ≫= f) V s.
Proof. unfold fine, runs, mbind, st_bind. destruct (m s) as [[a|e] s1]; cbn; tauto. Qed.

Lemma fine_mono {A} (m : op A) (V U : A -> service -> Prop) s : fine m V s -> (forall a s', V a s' -> U a s') -> fine m U s.
Proof. unfold fine, runs. destruct (m s) as [[a|e] s1]; cbn; auto. Qed.

Lemma fine_ret {A} (a : A) (V : A -> service -> Prop) s : V a s -> fine (mret a) V s.
Proof. exact id. Qed.

Lemma fine_get (V : service -> service -> Prop) s : V s s -> fine get_st V s.
Proof. exact id. Qed.

Lemma fine_put (V : unit -> service -> Prop) s s1 : V tt s1 -> fine (put_st s1) V s.
Proof. exact id. Qed.

Lemma fine_except {A} (m : op A) h V s : fine m V s -> fine (except m h) V s.
Proof. unfold fine, runs, except. destruct (m s) as [[a|e] s1]; cbn; tauto. Qed.

Lemma fine_attempt {A} (m : op A) (V : option A -> service -> Prop) s : fine m (fun a s' => V (Some a) s') s -> fine (attempt m) V s.
Proof. intros H. apply fine_except, fine_bind, (fine_mono _ _ _ _ H). auto. Qed.

Lemma fine_computed {A} (m : option A) a (V : A -> service -> Prop) s : m = Some a -> V a s -> fine (computed m) V s.
Proof. intros -> H. exact H. Qed.

Lemma fine_lift {A} (m : run A) (V : A -> world -> Prop) (U : A -> service -> Prop) s : good m V (world_ s) ->
  (forall a w', V a w' -> U a (s <| world_ := w' |>)) -> fine (lift m) U s.
Proof.
  unfold fine, good, runs, lift. destruct (m (world_ s)) as [[a|[e|]] w']; cbn; auto.
Qed.

(** The queries alone moved. *)
Record quiet (s s' : service) : Prop := {
  q_world : same (world_ s) (world_ s');
  q_contents : contents s' = contents s;
  q_next : next_runtime s' = next_runtime s;
  q_digest : reference_digest s' = reference_digest s;
}.

Lemma quiet_trans s s1 s2 : quiet s s1 -> quiet s1 s2 -> quiet s s2.
Proof. intros [] []. split; try congruence. exact (same_through _ _ _ q_world0 q_world1). Qed.

Lemma quiet_refl s : calm (world_ s) -> quiet s s.
Proof. intros C. split; auto. exact (same_refl _ C). Qed.

Lemma fine_look (V : unit -> service -> Prop) s : calm (world_ s) -> (forall s', quiet s s' -> V tt s') -> fine (lift look) V s.
Proof.
  intros C H. apply (fine_lift look (fun _ w' => same (world_ s) w')); [apply good_look; auto|].
  intros [] w' S. apply H. split; auto.
Qed.

Lemma quiet_calm s s' : quiet s s' -> calm (world_ s').
Proof. intros Q. apply (s_calm _ _ (q_world _ _ Q)). Qed.

Lemma fine_check_disk (V : ConfigSnapshot -> service -> Prop) s : calm (world_ s) -> store_closed (world_ s) = false ->
  digest_bytes (file_ (world_ s)) = reference_digest s ->
  (forall s', quiet s s' -> V {| snapshot_data := file_ (world_ s); snapshot_digest := digest_bytes (file_ (world_ s)) |} s') -> fine check_disk_matches_reference V s.
Proof.
  intros C O D H. apply fine_bind, fine_attempt.
  apply (fine_lift _ (fun d w' => same (world_ s) w' /\ d = {| snapshot_data := file_ (world_ s); snapshot_digest := digest_bytes (file_ (world_ s)) |})).
  - apply (idle_snapshot digest_bytes (world_ s) C O).
  - intros d w' [S ->]. apply fine_bind, fine_get. cbn [snapshot_digest reference_digest]. rewrite bool_decide_true by exact D. apply fine_ret, H. split; auto.
Qed.

Lemma fine_next_document current mutation revision proposed (V : MaskingFileConfig -> service -> Prop) s : calm (world_ s) -> mutation current = Ok proposed ->
  validate_file_config (with_revision revision proposed) = Ok (with_revision revision proposed) ->
  (forall s', quiet s s' -> V (with_revision revision proposed) s') -> fine (next_document current mutation revision) V s.
Proof.
  intros C M W H. apply fine_except, fine_bind, fine_look; [exact C|]. intros s1 Q. apply fine_bind. rewrite M. apply fine_ret.
  rewrite W. apply (fine_computed _ (with_revision revision proposed)); [reflexivity|]. apply H, Q.
Qed.

Lemma fine_render document r (V : RenderedDocument -> service -> Prop) s : calm (world_ s) -> render_document safe_dump safe_load model_eq document = Some r ->
  (forall s', quiet s s' -> V r s') -> fine (render safe_dump safe_load model_eq document) V s.
Proof.
  intros C R H. apply fine_bind, fine_attempt, fine_bind, fine_look; [exact C|]. intros s1 Q. apply (fine_computed _ r _ _ R), fine_ret, H, Q.
Qed.

Lemma fine_build document revision compiled (V : nat -> service -> Prop) s : calm (world_ s) -> compile secrets document = Some compiled ->
  (forall s', same (world_ s) (world_ s') -> next_runtime s' = S (next_runtime s) -> reference_digest s' = reference_digest s -> V (next_runtime s) s') ->
  fine (build_candidate secrets document revision) V s.
Proof.
  intros C Co H. apply fine_bind, fine_attempt, fine_bind, fine_look; [exact C|]. intros s1 Q1.
  apply fine_bind. apply (fine_computed _ compiled _ _ Co). apply fine_bind, fine_bind, fine_look; [exact (quiet_calm _ _ Q1)|]. intros s2 Q2.
  pose proof (quiet_trans _ _ _ Q1 Q2) as Q. apply fine_bind, fine_get, fine_bind, fine_put, fine_ret, fine_ret. destruct compiled as [policy config].
  apply fine_except, fine_bind, fine_look; [exact (quiet_calm _ _ Q)|]. intros s3 Q3. apply fine_bind, fine_get, fine_bind, fine_put, fine_ret.
  rewrite (q_next _ _ Q). apply H; cbn.
  - exact (same_through _ _ _ (q_world _ _ Q) (q_world _ _ Q3)).
  - rewrite (q_next _ _ Q3). cbn. rewrite (q_next _ _ Q). reflexivity.
  - rewrite (q_digest _ _ Q3). apply (q_digest _ _ Q).
Qed.

Lemma fine_backup original (V : unit -> service -> Prop) s : calm (world_ s) -> store_closed (world_ s) = false -> backups (world_ s) !! clock (world_ s) = None ->
  (forall w', calm w' -> store_closed w' = false -> file_ w' = file_ (world_ s) -> queried (runtimes_ (world_ s)) (runtimes_ w') -> V tt (s <| world_ := w' |>)) ->
  fine (write_adoption_backup clock original) V s.
Proof.
  intros C O B H. apply fine_bind, fine_get, fine_bind, fine_attempt.
  apply (fine_lift _ _ _ _ (write_backup_good original (clock (world_ s)) (world_ s) C O B)). intros [] w' []. apply fine_ret, H; cbn in *; auto.
  congruence.
Qed.

Lemma fine_persist data (V : Persisted -> service -> Prop) s : calm (world_ s) -> store_closed (world_ s) = false -> digest_bytes (file_ (world_ s)) = reference_digest s ->
  (forall w', calm w' -> queried (runtimes_ (world_ s)) (runtimes_ w') ->
    V {| persisted_digest := digest_bytes data; durable := true; persisted_fsync := posix |} (s <| world_ := w' |>)) -> fine (persist posix data) V s.
Proof.
  intros C O D H. apply fine_bind, fine_get, fine_except, fine_bind.
  apply (fine_lift _ _ _ _ (write_atomic_good digest_bytes posix data _ (world_ s) C O D)). intros x w' [-> []]. apply fine_ret, H; assumption.
Qed.

Lemma fine_publish c d (V : unit -> service -> Prop) s : calm (world_ s) -> room s -> published s <> c -> (forall s', V tt s') -> fine (publish c d) V s.
Proof.
  intros C Rm Ne H. unfold publish. apply fine_bind, fine_get. cbv zeta.
  destruct (swap_succeeds c (Registry.set_runtime c Registry.fresh_runtime (registry s)) Rm Ne) as (ret & g & S & _).
  unfold registry in S. rewrite S. apply fine_bind, fine_put. destruct ret as [r|]; [|apply fine_ret, H].
  set (s1 := s <| world_ ::= _ |> <| reference_digest := d |>).
  apply (fine_lift _ (fun _ w' => True)); [|intros [] w' _; apply H]. apply good_os, good_look; [exact C|auto].
Qed.

(** The world of a service in which the registry, alone, may have moved. *)
Record settled_world (w w' : world) : Prop := {
  sw_calm : calm w';
  sw_open : store_closed w' = store_closed w;
  sw_file : file_ w' = file_ w;
  sw_queries : queried (runtimes_ w) (runtimes_ w');
}.

Lemma same_settled w w' : same w w' -> settled_world w w'.
Proof. intros []. split; assumption. Qed.

Lemma fine_install operation disk rendered revision c (V : AdminWriteResult -> service -> Prop) s : calm (world_ s) -> store_closed (world_ s) = false ->
  digest_bytes (file_ (world_ s)) = reference_digest s -> (operation = ADOPT -> forall w, same (world_ s) w -> backups w !! clock w = None) ->
  Registry.invariant (runtimes_ (world_ s)) -> room s -> published s <> c ->
  (forall x s', V x s') -> fine (install posix clock operation disk rendered revision c) V s.
Proof.
  intros C O D B I Rm Ne H. unfold install. apply fine_bind, fine_except, fine_bind, fine_bind, fine_attempt, fine_look; [exact C|]. intros s1 Q1.
  apply fine_ret. assert (W1 : settled_world (world_ s) (world_ s1)) by apply same_settled, Q1.
  assert (P : forall w', settled_world (world_ s) w' -> fine (persist posix (rendered_data rendered)) (fun p s2 =>
      p = {| persisted_digest := digest_bytes (rendered_data rendered); durable := true; persisted_fsync := posix |} /\
      calm (world_ s2) /\ queried (runtimes_ (world_ s)) (runtimes_ (world_ s2))) (s1 <| world_ := w' |>)).
  { intros w' []. apply fine_persist; [assumption|exact (eq_trans sw_open0 O)|
      exact (eq_trans (f_equal digest_bytes sw_file0) (eq_trans D (eq_sym (q_digest _ _ Q1))))|].
    intros w2 C2 K2. split; [reflexivity|]. split; [exact C2|]. etransitivity; eassumption. }
  assert (R : fine (_ ← (if decide (operation = ADOPT) then write_adoption_backup clock (snapshot_data disk) else mret tt); persist posix (rendered_data rendered)) (fun p s2 =>
      p = {| persisted_digest := digest_bytes (rendered_data rendered); durable := true; persisted_fsync := posix |} /\
      calm (world_ s2) /\ queried (runtimes_ (world_ s)) (runtimes_ (world_ s2))) s1).
  { apply fine_bind. destruct (decide (operation = ADOPT)) as [E|E]; [|apply fine_ret; exact (P (world_ s1) W1)].
    apply fine_backup; [apply W1|rewrite (sw_open _ _ W1); exact O|apply (B E), Q1|].
    intros w' C' O' F' K'. apply P. split; [exact C'|congruence|rewrite F'; apply W1|]. etransitivity; [apply W1|exact K']. }
  apply (fine_mono _ _ _ _ R). intros p s2 (-> & C2 & K2). pose proof (queried_served _ _ (Registry.inv_known _ _ I) K2) as V2.
  apply fine_bind, fine_except, fine_publish; [exact C2| | |].
  - unfold room, registry in *. rewrite (sv_max _ _ V2). pose proof (sv_retired _ _ V2). lia.
  - unfold published, registry in *. rewrite (sv_current _ _ V2). exact Ne.
  - intros s3. apply fine_bind, fine_get, fine_bind, fine_put. cbn [durable negb]. apply fine_ret, H.
Qed.

Lemma fine_execute mutation operation proposed rendered compiled s : calm (world_ s) -> service_closed s = false -> store_closed (world_ s) = false ->
  digest_bytes (file_ (world_ s)) = reference_digest s ->
  match operation with
  | WRITE => published_revision s <> UNADOPTED_REVISION
  | ADOPT => published_revision s = UNADOPTED_REVISION /\ forall w, backups w = backups (world_ s) -> backups w !! clock w = None
  end ->
  Registry.invariant (runtimes_ (world_ s)) -> numbered s -> room s ->
  mutation (rt_file_config (contents s (published s))) = Ok proposed ->
  validate_file_config (with_revision (published_revision s + 1) proposed) = Ok (with_revision (published_revision s + 1) proposed) ->
  render_document safe_dump safe_load model_eq (with_revision (published_revision s + 1) proposed) = Some rendered ->
  compile secrets (rendered_document rendered) = Some compiled ->
  fine (execute posix safe_dump safe_load model_eq secrets clock mutation (published_revision s) operation) (fun _ _ => True) s.
Proof.
  intros C Op O D Ad I Nu Rm M W R Co. unfold execute. apply fine_bind, fine_bind, fine_get. rewrite Op. apply fine_ret, fine_bind, fine_get. cbv zeta.
  change (rt_revision (contents s (published s))) with (published_revision s). apply fine_bind, fine_put. set (s1 := s <| audit_probe := _ |>).
  apply fine_bind. assert (A : fine (check_adoption (published_revision s) operation) (fun _ s' => s' = s1) s1).
  { unfold check_adoption. destruct operation; [rewrite (proj2 (Z.eqb_neq _ _) Ad)|rewrite (proj2 (Z.eqb_eq _ _) (proj1 Ad))]; reflexivity. }
  apply (fine_mono _ _ _ _ A). intros _ s2 ->. apply fine_bind. unfold check_revision. rewrite Z.eqb_refl. cbn [negb]. apply fine_ret.
  apply fine_bind, fine_check_disk; [exact C|exact O|exact D|]. intros s3 Q3.
  assert (V3 : served (runtimes_ (world_ s)) (runtimes_ (world_ s3))) by apply (queried_served _ _ (Registry.inv_known _ _ I)), (s_queries _ _ (q_world _ _ Q3)).
  assert (Rm3 : room s3) by (unfold room, registry in *; rewrite (sv_max _ _ V3); pose proof (sv_retired _ _ V3); lia).
  apply fine_bind, fine_bind, fine_get. unfold Registry.check_can_swap. rewrite (proj2 (Nat.leb_gt _ _) Rm3). apply fine_ret.
  apply fine_bind, (fine_next_document _ _ _ _ _ _ (quiet_calm _ _ Q3) M W). intros s4 Q4.
  apply fine_bind, (fine_render _ _ _ _ (quiet_calm _ _ Q4) R). intros s5 Q5.
  apply fine_bind, (fine_build _ _ _ _ _ (quiet_calm _ _ Q5) Co). intros s6 S6 N6 D6.
  pose proof (quiet_trans _ _ _ Q3 (quiet_trans _ _ _ Q4 Q5)) as Q. pose proof (same_through _ _ _ (q_world _ _ Q) S6) as S.
  change (world_ s1) with (world_ s) in S.
  pose proof (queried_served _ _ (Registry.inv_known _ _ I) (s_queries _ _ S)) as V6.
  apply fine_install; [apply S|rewrite (s_closed _ _ S); exact O|rewrite (s_file _ _ S), D6, (q_digest _ _ Q); exact D| | | | |auto].
  - intros -> w Sw. apply Ad. rewrite (s_backups _ _ Sw). apply (s_backups _ _ S).
  - exact (queried_invariant _ _ I (s_queries _ _ S)).
  - unfold room, registry in *. rewrite (sv_max _ _ V6). pose proof (sv_retired _ _ V6). lia.
  - unfold published, registry. rewrite (sv_current _ _ V6), (q_next _ _ Q). intros E. pose proof (Nu _ (Registry.inv_known _ _ I)) as X. rewrite E in X. cbn in X. lia.
Qed.

End Calm.
