(* ===== verification/Administration.v ===== *)
(** * Administration: what the administrative operations promise

    The invariant of the service of [AdminService], over any sequence of
    operations and of what happens between them, and the properties of an
    operation: all or nothing, no lost update, success when nothing fails. *)

From S2P Require Import Prelude Bytes Unicode Canonical Transformers Masking Sql Config ConfigFile AdminService AdminSteps AdminCalm.
From S2P Require Registry.
From coqutil Require Import Datatypes.RecordSettersUsingExistingGetters.

Local Open Scope Z_scope.

(** ** The invariant *)

Section Invariant.
Context {L : PyLib} (posix : bool).
Context (safe_dump : MaskingFileConfig -> option pystr) (safe_load : pystr -> option MaskingFileConfig)
  (model_eq : MaskingFileConfig -> MaskingFileConfig -> bool) (secrets : secret_provider) (clock : world -> Z).

(** Documents that pydantic calls equal have the same revision. *)
Definition eq_revision : Prop := forall a b, model_eq a b = true -> Config.revision a = Config.revision b.

(** The published runtime is what the bytes with the reference digest describe. *)
Definition faithful (s : service) : Prop := let r := contents s (published s) in exists data,
  digest_bytes data = reference_digest s /\ parse_document safe_load data = Some (rt_file_config r) /\
  compile secrets (rt_file_config r) = Some (rt_engine r, rt_config r) /\ rt_revision r = Config.revision (rt_file_config r).

(** Every adapter ever made is in the registry's care, or was closed once. *)
Definition accounted (s : service) : Prop := forall n, (n < next_runtime s)%nat ->
  is_Some (Registry.runtimes (registry s) !! n) /\ Registry.occurrences n (discarded s) = 0%nat \/
  Registry.runtimes (registry s) !! n = None /\ Registry.occurrences n (discarded s) = 1%nat.

Record service_ok (s : service) : Prop := {
  ok_registry : Registry.invariant (runtimes_ (world_ s));
  ok_numbered : numbered s;
  ok_discarded n : n ∈ discarded s -> (n < next_runtime s)%nat;
  ok_accounted : accounted s;
  ok_faithful : faithful s;
}.

(** What happens between operations: queries, edits, the closing of the service. *)
Record meanwhile (s s' : service) : Prop := {
  m_queries : queried (runtimes_ (world_ s)) (runtimes_ (world_ s'));
  m_contents : contents s' = contents s;
  m_next : next_runtime s' = next_runtime s;
  m_discarded : discarded s' = discarded s;
  m_digest : reference_digest s' = reference_digest s;
}.

Lemma ok_served s s' : service_ok s -> queried (runtimes_ (world_ s)) (runtimes_ (world_ s')) ->
  Registry.invariant (runtimes_ (world_ s')) /\ published s' = published s /\
  forall r, is_Some (Registry.runtimes (registry s') !! r) <-> is_Some (Registry.runtimes (registry s) !! r).
Proof.
  intros O Q. pose proof (queried_served _ _ (Registry.inv_known _ _ (ok_registry _ O)) Q) as V.
  split; [exact (queried_invariant _ _ (ok_registry _ O) Q)|]. split; [apply (sv_current _ _ V)|apply (sv_known _ _ V)].
Qed.

Lemma published_known s : service_ok s -> (published s < next_runtime s)%nat.
Proof. intros O. apply (ok_numbered _ O), (Registry.inv_known _ _ (ok_registry _ O)). Qed.

Lemma none_iff {A} (x y : option A) : (is_Some x <-> is_Some y) -> y = None -> x = None.
Proof. intros H E. apply eq_None_not_Some. rewrite H, E. apply is_Some_None. Qed.

(** No publication: the published runtime and its file stay together. *)
Lemma ok_kept s s' : service_ok s -> queried (runtimes_ (world_ s)) (runtimes_ (world_ s')) -> (forall r, (r < next_runtime s)%nat -> contents s' r = contents s r) ->
  reference_digest s' = reference_digest s -> settled s s' -> service_ok s'.
Proof.
  intros O Q C D St. destruct (ok_served s s' O Q) as (I & P & K). pose proof (published_known s O) as Pk. split.
  - exact I.
  - intros r H%K%(ok_numbered _ O). destruct St as [[-> _]|[-> _]]; lia.
  - intros n. destruct St as [[-> ->]|[-> ->]]; [apply (ok_discarded _ O)|]. intros [->|H]%elem_of_cons; [lia|]. pose proof (ok_discarded _ O n H). lia.
  - intros n Hn. assert (Out : Registry.occurrences (next_runtime s) (discarded s) = 0%nat).
    { destruct (Registry.occurrences (next_runtime s) (discarded s)) eqn:E; [reflexivity|]. exfalso. pose proof (ok_discarded _ O (next_runtime s)) as X.
      rewrite Registry.occurrences_elem in X. lia. }
    assert (Same : (n < next_runtime s)%nat -> is_Some (Registry.runtimes (registry s') !! n) /\ Registry.occurrences n (discarded s) = 0%nat \/
      Registry.runtimes (registry s') !! n = None /\ Registry.occurrences n (discarded s) = 1%nat).
    { intros H. destruct (ok_accounted _ O n H) as [[A B]|[A B]]; [left; rewrite K; auto|right]. split; [exact (none_iff _ _ (K n) A)|exact B]. }
    destruct St as [[E ->]|[E ->]]; rewrite E in Hn; [auto|]. rewrite Registry.occurrences_cons. destruct (decide (next_runtime s = n)) as [<-|Ne].
    + right. rewrite Out. split; [|reflexivity]. apply eq_None_not_Some. intros X%K%(ok_numbered _ O). lia.
    + apply Same. lia.
  - unfold faithful. cbv zeta. rewrite P, (C _ Pk), D. apply (ok_faithful _ O).
Qed.

Lemma ok_meanwhile s s' : service_ok s -> meanwhile s s' -> service_ok s'.
Proof.
  intros O []. apply (ok_kept s); [exact O|assumption| |assumption|left; auto]. intros r _. rewrite m_contents0. reflexivity.
Qed.

(** A publication. *)
Lemma posted_registry document revision data operation original s s' w : service_ok s ->
  posted w secrets document revision data operation original s s' ->
  Registry.invariant (runtimes_ (world_ s')) /\ published s' = next_runtime s /\
  forall r, is_Some (Registry.runtimes (registry s') !! r) <-> r = next_runtime s \/ is_Some (Registry.runtimes (registry s) !! r).
Proof.
  intros O [(y0 & y1 & Q0 & Sw & Q1) _ _ _ _ _ _ _ _ _].
  pose proof (queried_served _ _ (Registry.inv_known _ _ (ok_registry _ O)) Q0) as V0.
  assert (N0 : Registry.runtimes (Registry.reg_state y0) !! next_runtime s = None).
  { apply eq_None_not_Some. intros X%(sv_known _ _ V0)%(ok_numbered _ O). lia. }
  destruct (swapped_facts _ y0 y1 (queried_invariant _ _ (ok_registry _ O) Q0) N0 Sw) as (I1 & C1 & _ & _ & K1).
  pose proof (queried_served _ _ (Registry.inv_known _ _ I1) Q1) as V1. split; [exact (queried_invariant _ _ I1 Q1)|]. split.
  - unfold published, registry. rewrite (sv_current _ _ V1). exact C1.
  - intros r. rewrite <- (sv_known _ _ V0), <- K1. apply (sv_known _ _ V1).
Qed.

Lemma ok_posted document revision data operation original s s' w : service_ok s -> parse_document safe_load data = Some document ->
  Config.revision document = revision -> posted w secrets document revision data operation original s s' -> service_ok s'.
Proof.
  intros O Pd Rv Po. destruct (posted_registry _ _ _ _ _ _ _ _ O Po) as (I & Pc & K).
  destruct Po as [_ Fi Dg Nx Di Old (po & co & Co & New) _ _ _]. split.
  - exact I.
  - intros r. rewrite K, Nx. intros [->|H]; [lia|]. pose proof (ok_numbered _ O r H). lia.
  - intros n. rewrite Di, Nx. intros H. pose proof (ok_discarded _ O n H). lia.
  - intros n. rewrite Nx, Di. intros Hn. destruct (decide (n = next_runtime s)) as [->|Ne].
    + left. rewrite K. split; [auto|]. destruct (Registry.occurrences (next_runtime s) (discarded s)) eqn:E; [reflexivity|]. exfalso.
      pose proof (ok_discarded _ O (next_runtime s)) as X. rewrite Registry.occurrences_elem in X. lia.
    + assert (Hs : (n < next_runtime s)%nat) by lia. destruct (ok_accounted _ O n Hs) as [[A B]|[A B]]; [left; rewrite K; auto|right].
      split; [|exact B]. apply eq_None_not_Some. rewrite K. intros [X|X]; [contradiction|]. rewrite A in X. destruct X. discriminate.
  - unfold faithful. cbv zeta. rewrite Pc, New. cbn. exists data. auto.
Qed.

Abbreviation administer := (apply posix safe_dump safe_load model_eq secrets clock).

(** A service, from one that has just started: operations one after another,
    and what happens between them. *)
Inductive administered (s0 : service) : service -> Prop :=
| adm_start : administered s0 s0
| adm_operation s mutation expected operation r s' : administered s0 s -> modest mutation ->
    administer mutation expected operation s = (Some r, s') -> administered s0 s'
| adm_meanwhile s s' : administered s0 s -> meanwhile s s' -> administered s0 s'.

(** An operation as [apply] starts it. *)
Definition begun (s : service) : service :=
  s <| operations_total ::= Z.add 1 |> <| audit_probe := {| revision_before := None; revision_after := None |} |>.

Lemma ok_begun s : service_ok s -> service_ok (begun s).
Proof. intros [A B C D E]. split; assumption. Qed.

(** The end of an operation, in the words of its caller. *)
Lemma apply_runs mutation expected operation s : service_ok s -> modest mutation ->
  exists r, (administer mutation expected operation s).1 = answer r /\
    concluded (world_ s) safe_dump safe_load model_eq secrets posix mutation expected operation (begun s) r (administer mutation expected operation s).2.
Proof.
  intros O M. pose proof (ok_begun s O) as O'.
  pose proof (execute_runs (world_ s) safe_dump safe_load model_eq secrets posix clock mutation expected operation (begun s) M (ok_registry _ O') (ok_numbered _ O')
    (reflexivity _)) as R.
  unfold runs in R. unfold apply. fold (begun s). destruct (execute _ _ _ _ _ _ _ _ _ (begun s)) as [r s']. exists r. auto.
Qed.

Lemma answer_alive r a : answer r = Some a -> match r with Err Dead => False | _ => True end.
Proof. destruct r as [x|[]]; cbn; auto. discriminate. Qed.

Lemma ok_concluded mutation expected operation s r s' : service_ok s -> eq_revision ->
  concluded (world_ s) safe_dump safe_load model_eq secrets posix mutation expected operation s r s' -> r <> Err Dead -> service_ok s'.
Proof.
  intros O Eq [(e & -> & R)|(rd & original & G & P & _)] ND.
  - apply (ok_kept s); [exact O|apply (k_queries _ _ (h_kept _ _ _ (r_behind _ _ _ _ _ _ R)))|apply (h_contents _ _ _ (r_behind _ _ _ _ _ _ R))|
      apply (h_digest _ _ _ (r_behind _ _ _ _ _ _ R))|apply (r_settled _ _ _ _ _ _ R); congruence].
  - destruct (g_mutation _ _ _ _ _ _ _ _ _ G) as (p & _ & _ & Rd). pose proof (render_loadable _ _ _ _ _ Rd) as [Pd E].
    exact (ok_posted _ _ _ _ _ _ _ _ O Pd (Eq _ _ E) P).
Qed.

(** The published revision never goes back. *)
Lemma ok_operation mutation expected operation s r s' : eq_revision -> service_ok s -> modest mutation ->
  administer mutation expected operation s = (Some r, s') ->
  service_ok s' /\ (published_revision s' = published_revision s \/ published_revision s' = published_revision s + 1).
Proof.
  intros Eq O M E. destruct (apply_runs mutation expected operation s O M) as (x & An & C). rewrite E in An, C. cbn [fst snd] in An, C.
  split; [apply (ok_concluded mutation expected operation (begun s) x s' (ok_begun s O) Eq C); intros ->; discriminate|].
  destruct C as [(e & -> & [B _ _ _])|(rd & original & G & P & _)]; [left|right].
  - destruct (ok_served _ s' (ok_begun s O) (k_queries _ _ (h_kept _ _ _ B))) as (_ & Pb & _). unfold published_revision.
    rewrite Pb. change (published (begun s)) with (published s). rewrite (h_contents _ _ _ B _ (published_known s O)). reflexivity.
  - pose proof (g_expected _ _ _ _ _ _ _ _ _ G) as Ex. destruct (posted_registry _ _ _ _ _ _ _ _ (ok_begun s O) P) as (_ & Pc & _).
    unfold published_revision at 1. rewrite Pc. destruct (n_new _ _ _ _ _ _ _ _ _ P) as (po & co & _ & ->). cbn [rt_revision].
    rewrite Ex. reflexivity.
Qed.

Lemma ok_administered s0 s : eq_revision -> service_ok s0 -> administered s0 s -> service_ok s /\ published_revision s0 <= published_revision s.
Proof.
  intros Eq O A. induction A as [|s m x o r s' _ IH M E|s s' _ [IH Le] B].
  - split; [exact O|reflexivity].
  - destruct IH as [IH Le]. destruct (ok_operation m x o s r s' Eq IH M E) as [O' H]. split; [exact O'|lia].
  - split; [exact (ok_meanwhile s s' IH B)|]. destruct (ok_served s s' IH (m_queries _ _ B)) as (_ & Pb & _).
    unfold published_revision in *. rewrite Pb, (m_contents _ _ B). exact Le.
Qed.

(** ** Properties *)

(** C10: the invariant of the administration: after any operations, whatever
    happened during and between them short of the death of the process, the
    published runtime is what the bytes with the reference digest describe,
    compiled, under their revision; the registry's own invariant holds; and
    every adapter an operation ever made is either in the registry's care or
    was closed by the operation exactly once. *)
Theorem administration_invariant s0 s : eq_revision -> service_ok s0 -> administered s0 s -> service_ok s.
Proof. intros Eq O A. exact (proj1 (ok_administered s0 s Eq O A)). Qed.


Lemma stale_refused mutation expected operation s : published_revision s <> UNADOPTED_REVISION -> expected <> published_revision s ->
  exists e s', administer mutation expected operation s = (Some (Err e), s') /\ error_applied e = false /\
    category e = (if service_closed s then INTERNAL_ERROR
                  else match operation with ADOPT => CONFIG_ALREADY_ADOPTED | WRITE => REVISION_CONFLICT end) /\
    world_ s' = world_ s /\ contents s' = contents s /\ reference_digest s' = reference_digest s /\ discarded s' = discarded s.
Proof.
  intros A N. unfold apply. fold (begun s). unfold execute, require_open, get_st, mbind, st_bind.
  change (service_closed (begun s)) with (service_closed s). destruct (service_closed s); [eexists _, _; split; [reflexivity|]; repeat split|].
  cbn beta iota zeta delta [mret st_ret put_st].
  change (rt_revision (contents (begun s) (published (begun s)))) with (published_revision s).
  unfold check_adoption, check_revision. rewrite (proj2 (Z.eqb_neq _ _) A), (proj2 (Z.eqb_neq _ _) N).
  destruct operation; (eexists _, _; split; [reflexivity|]; repeat split).
Qed.

Lemma revision_nonnegative s : faithful s -> 0 <= published_revision s.
Proof.
  intros (data & _ & P & _ & R). unfold published_revision. rewrite R. unfold parse_document in P. destruct (utf8_decode data) as [t|]; [|discriminate].
  cbn [mbind option_bind] in P. destruct (safe_load t) as [raw|]; [|discriminate]. cbn [mbind option_bind] in P.
  destruct (validate_file_config raw) as [c|] eqn:V; [|discriminate]. injection P as <-. pose proof (validates_same _ _ V) as ->.
  unfold validate_file_config, model_validate in V. destruct (file_fields raw) eqn:F; [|discriminate].
  unfold file_fields in F. rewrite !andb_true_iff in F. lia.
Qed.

(** Whether an answer says that the change was made. *)
Definition answer_applied (r : res AdminError AdminWriteResult) : bool :=
  match r with Ok x => result_applied x | Err e => error_applied e end.

(** C11: no update is lost: of two operations with the same expected revision,
    whatever they propose, the second is refused when the first was applied,
    whatever happens between them short of the death of the process: other
    operations, queries, edits of the file, the closing of the service. It does
    nothing then: the registry, the file and the digest are untouched. *)
Theorem no_lost_update m1 m2 expected o1 o2 s s1 s2 r : eq_revision -> service_ok s -> modest m1 ->
  administer m1 expected o1 s = (Some r, s1) -> answer_applied r = true -> administered s1 s2 ->
  exists e s3, administer m2 expected o2 s2 = (Some (Err e), s3) /\ error_applied e = false /\
    category e = (if service_closed s2 then INTERNAL_ERROR
                  else match o2 with ADOPT => CONFIG_ALREADY_ADOPTED | WRITE => REVISION_CONFLICT end) /\
    world_ s3 = world_ s2 /\ contents s3 = contents s2 /\ reference_digest s3 = reference_digest s2 /\ discarded s3 = discarded s2.
Proof.
  intros Eq O M E Ap Ad. destruct (apply_runs m1 expected o1 s O M) as (x & An & C).
  pose proof (proj1 (ok_operation _ _ _ _ _ _ Eq O M E)) as O1. rewrite E in An, C. cbn [fst snd] in An, C.
  destruct C as [(e & -> & [_ _ Q _])|(rd & original & G & P & _)].
  { exfalso. destruct e as [e|e|e|]; try discriminate An; injection An as ->; cbn in Q, Ap; [unfold unapplied in Q; congruence|discriminate..]. }
  pose proof (g_expected _ _ _ _ _ _ _ _ _ G) as Ex. change (published_revision (begun s)) with (published_revision s) in Ex.
  pose proof (revision_nonnegative s (ok_faithful _ O)) as Nn.
  destruct (posted_registry _ _ _ _ _ _ _ _ (ok_begun s O) P) as (_ & Pc & _).
  assert (Rv : published_revision s1 = expected + 1).
  { unfold published_revision. rewrite Pc. destruct (n_new _ _ _ _ _ _ _ _ _ P) as (po & co & _ & ->). reflexivity. }
  pose proof (proj2 (ok_administered s1 s2 Eq O1 Ad)) as Le.
  apply stale_refused; [unfold UNADOPTED_REVISION; lia|lia].
Qed.

(** C12: when nothing fails and nobody edits, a request that is in order is
    carried out, whatever queries run meanwhile: the service is open, the
    expected revision is the published one, the file has the reference digest,
    no more runtimes are retired than may be, the proposal validates, renders
    and compiles, and an adoption's backup has a free name.  The answer is the
    success with the next revision, the file holds the rendered bytes, and the
    runtime built from what they describe is published. *)
Theorem apply_succeeds mutation operation proposed rendered compiled s : service_ok s -> modest mutation ->
  calm (world_ s) -> service_closed s = false -> store_closed (world_ s) = false -> room s -> digest_bytes (file_ (world_ s)) = reference_digest s ->
  match operation with
  | WRITE => published_revision s <> UNADOPTED_REVISION
  | ADOPT => published_revision s = UNADOPTED_REVISION /\ forall w, backups w = backups (world_ s) -> backups w !! clock w = None
  end ->
  mutation (rt_file_config (contents s (published s))) = Ok proposed ->
  validate_file_config (with_revision (published_revision s + 1) proposed) = Ok (with_revision (published_revision s + 1) proposed) ->
  render_document safe_dump safe_load model_eq (with_revision (published_revision s + 1) proposed) = Some rendered ->
  compile secrets (rendered_document rendered) = Some compiled ->
  exists s', administer mutation (published_revision s) operation s =
      (Some (Ok {| result_revision := published_revision s + 1; result_fsync := posix; result_applied := true |}), s') /\
    published s' = next_runtime s /\ file_ (world_ s') = rendered_data rendered /\ reference_digest s' = digest_bytes (rendered_data rendered) /\
    rt_file_config (contents s' (published s')) = rendered_document rendered.
Proof.
  intros O M C Op So Rm D Ad Mu Va Re Co.
  pose proof (fine_execute posix safe_dump safe_load model_eq secrets clock mutation operation proposed rendered compiled (begun s) C Op So D Ad
    (ok_registry _ O) (ok_numbered _ O) Rm Mu Va Re Co) as F.
  destruct (apply_runs mutation (published_revision s) operation s O M) as (r & An & Cn).
  unfold fine, runs in F. unfold apply in An, Cn |- *. fold (begun s) in An, Cn |- *. change (published_revision (begun s)) with (published_revision s) in F.
  destruct (execute _ _ _ _ _ _ _ _ _ (begun s)) as [r' s']. cbn [fst snd] in F, An, Cn. destruct r' as [x|e]; [|contradiction].
  assert (r = Ok x) as -> by (destruct r as [y|[]]; cbn in An; congruence). exists s'.
  destruct Cn as [(e & [=] & _)|(rd & original & G & P & ->)]. split; [reflexivity|].
  destruct (g_mutation _ _ _ _ _ _ _ _ _ G) as (p & Mp & _ & Rp). change (contents (begun s) (published (begun s))) with (contents s (published s)) in Mp.
  rewrite Mu in Mp. injection Mp as <-. rewrite Re in Rp. injection Rp as <-.
  destruct (posted_registry _ _ _ _ _ _ _ _ (ok_begun s O) P) as (_ & Pc & _). split; [exact Pc|].
  split; [|split; [apply (n_digest _ _ _ _ _ _ _ _ _ P)|]].
  - destruct (n_file _ _ _ _ _ _ _ _ _ P) as (x & Sx & _ & _ & _ & [E|(ev & I & E)]); [exact E|]. exfalso.
    unfold calm in C. rewrite Forall_forall in C. destruct (C ev) as [X _]; [|congruence].
    apply (elem_of_suffix (script x)); [apply (elem_of_suffix (drop 2 (script x))); [exact I|apply suffix_drop]|exact Sx].
  - rewrite Pc. destruct (n_new _ _ _ _ _ _ _ _ _ P) as (po & co & _ & ->). reflexivity.
Qed.

End Invariant.

(** ** Witnesses *)

(** A serialization that keeps the revision alone, of the sample file. *)
Definition toy_dump (c : MaskingFileConfig) : option pystr := Some [65 + Config.revision c].
Definition toy_load (text : pystr) : option MaskingFileConfig :=
  match text with [c] => Some (with_revision (c - 65) sample_file) | _ => None end.
Definition toy_eq (a b : MaskingFileConfig) : bool := Config.revision a =? Config.revision b.
Definition no_secrets : secret_provider := fun _ => None.
Definition toy_clock (w : world) : Z := 7.
Definition touch : ConfigMutation := Ok.

Definition sample_compiled : MaskingPolicy * GatewayConfig :=
  match compile (L := sample_lib) no_secrets sample_file with
  | Some compiled => compiled
  | None => ({| exceptions := []; rules := [] |}, build_gateway_config sample_file {| exceptions := []; rules := [] |})
  end.

(** Runtime 0 published, in the middle of the operation a query takes it. *)
Definition sample_service : service :=
  {| world_ := {| file_ := [Byte.x44]; temps := ∅; backups := ∅; runtimes_ := Registry.initial_system 0 1;
                  script := [nothing; {| edit := None; queries := [Acquires]; result := Done |}]; next_token := 0; store_closed := false |};
     contents := fun _ => {| rt_revision := 3; rt_file_config := sample_file; rt_config := sample_compiled.2; rt_engine := sample_compiled.1 |};
     next_runtime := 1; discarded := []; reference_digest := digest_bytes (L := sample_lib) [Byte.x44]; operations_total := 0;
     service_closed := false; audit_probe := {| revision_before := None; revision_after := None |} |}.

Abbreviation sample_admin := (apply (L := sample_lib) true toy_dump toy_load toy_eq no_secrets toy_clock).
Abbreviation sample_after := (sample_admin touch 3 WRITE sample_service).2.

Lemma sample_ok : service_ok (L := sample_lib) toy_load no_secrets sample_service.
Proof.
  destruct (Registry.reachable_invariant 0 1 _ (Registry.reach_start 0 1)) as [I _]. split.
  - exact I.
  - intros r. cbn. intros [x H%lookup_singleton_Some]. destruct H as [<- _]. lia.
  - intros n H. inversion H.
  - intros n Hn. cbn in Hn. left. assert (n = 0%nat) as -> by lia. split; [eexists; reflexivity|reflexivity].
  - exists [Byte.x44]. split; [reflexivity|]. split; [vm_compute; reflexivity|]. split; [vm_compute; reflexivity|reflexivity].
Qed.

Lemma touch_modest : modest touch.
Proof. intros c e [=]. Qed.

Lemma toy_eq_revision : eq_revision toy_eq.
Proof. intros a b H%Z.eqb_eq. exact H. Qed.

Lemma sample_answer : sample_admin touch 3 WRITE sample_service =
  (Some (Ok {| result_revision := 4; result_fsync := true; result_applied := true |}), sample_after).
Proof.
  assert (E : (sample_admin touch 3 WRITE sample_service).1 = Some (Ok {| result_revision := 4; result_fsync := true; result_applied := true |}))
    by (vm_compute; reflexivity).
  rewrite <- E. apply surjective_pairing.
Qed.

Lemma administration_invariant_witness : service_ok (L := sample_lib) toy_load no_secrets sample_after.
Proof.
  apply (administration_invariant (L := sample_lib) true toy_dump toy_load toy_eq no_secrets toy_clock sample_service);
    [exact toy_eq_revision|exact sample_ok|].
  apply (adm_operation _ _ _ _ _ _ sample_service sample_service touch 3 WRITE _ _ (adm_start _ _ _ _ _ _ _) touch_modest sample_answer).
Defined.


(** The query gives the first runtime back, and a second operation, on the next
    revision, is carried out. *)
Definition freed (s : service) : service :=
  s <| world_ ::= (fun w => w <| runtimes_ ::= (fun y => query_run (Closes 0) (query_run (Releases 0) y)) |>) |>.

Lemma freed_meanwhile s : meanwhile s (freed s).
Proof. split; [exists [Releases 0; Closes 0]; reflexivity|reflexivity..]. Qed.

Definition sample_later : service := (sample_admin touch 4 WRITE (freed sample_after)).2.

Lemma no_lost_update_witness : exists e s3,
  sample_admin touch 3 WRITE sample_later = (Some (Err e), s3) /\ category e = REVISION_CONFLICT /\
  world_ s3 = world_ sample_later /\ published_revision sample_later = 5.
Proof.
  destruct (no_lost_update (L := sample_lib) true toy_dump toy_load toy_eq no_secrets toy_clock touch touch 3 WRITE WRITE sample_service sample_after
    sample_later _ toy_eq_revision sample_ok touch_modest sample_answer eq_refl) as (e & s3 & E & _ & C & W & _).
  - apply (adm_operation _ _ _ _ _ _ sample_after (freed sample_after) touch 4 WRITE
      (Ok {| result_revision := 5; result_fsync := true; result_applied := true |})); [|exact touch_modest|].
    { apply (adm_meanwhile _ _ _ _ _ _ sample_after sample_after); [apply adm_start|apply freed_meanwhile]. }
    assert (R : (sample_admin touch 4 WRITE (freed sample_after)).1 = Some (Ok {| result_revision := 5; result_fsync := true; result_applied := true |}))
      by (vm_compute; reflexivity).
    rewrite <- R. apply surjective_pairing.
  - exists e, s3. split; [exact E|]. split; [exact C|]. split; [exact W|vm_compute; reflexivity].
Defined.

Lemma apply_succeeds_witness : exists s',
  sample_admin touch 3 WRITE sample_service = (Some (Ok {| result_revision := 4; result_fsync := true; result_applied := true |}), s') /\
  published s' = 1%nat /\ file_ (world_ s') = [Byte.x45].
Proof.
  destruct (apply_succeeds (L := sample_lib) true toy_dump toy_load toy_eq no_secrets toy_clock touch WRITE sample_file
    {| rendered_data := [Byte.x45]; rendered_document := with_revision 4 sample_file |} sample_compiled sample_service sample_ok touch_modest)
    as (s' & E & P & F & _).
  - repeat constructor.
  - reflexivity.
  - reflexivity.
  - unfold room. cbn. lia.
  - reflexivity.
  - discriminate.
  - reflexivity.
  - vm_compute. reflexivity.
  - vm_compute. reflexivity.
  - vm_compute. reflexivity.
  - exists s'. auto.
Defined.

(** An interruption once the file is replaced: the answer says that the
    previous file is unchanged, and the new one is in its place. *)
Example interrupted_after_the_replacement :
  let s := sample_service <| world_ ::= (fun w => w <| script := replicate 30 nothing ++ [{| edit := None; queries := []; result := Interrupts false |}] |>) |> in
  let '(a, s') := sample_admin touch 3 WRITE s in
  a = Some (Err {| category := CONFIG_WRITE_ERROR; current_revision := None |}) /\ file_ (world_ s') = [Byte.x45] /\ published s' = 0%nat /\
  discarded s' = [1%nat].
Proof. vm_compute. auto. Qed.
