(* ===== verification/Candidate.v ===== *)
(** * Candidate: the runtime of a datasource, built and verified

    Models [runtime/candidate.py]: a candidate is resolved and pinned, its
    policy compiled, its limits reduced to the stricter of the two, its target
    bound to the addresses that were accepted, and the connection verified and
    closed.  Nothing is published.  The verification runs on [Adapter]; what
    [psycopg.conninfo] and pydantic make of the values are arguments.  The
    snapshot of a compilation, which no operational caller asks for, is left
    out. *)

From S2P Require Import Prelude Canonical Transformers Json Datasource Destination.
From S2P Require Masking Sql Config Adapter Pipeline.

Local Open Scope Z_scope.

Definition CONNECT_TIMEOUT_SECONDS : Z := 10.
Definition DEFAULT_BATCH_SIZE : Z := 500.

Inductive CandidateFailure := DESTINATION | POLICY | CONNECTION | CAPABILITY.

(** [DatasourceCandidateError]; an exception the source names nowhere; an
    interruption of the process. *)
Inductive candidate_exn := DatasourceCandidateError (f : CandidateFailure) | Escaped | Interrupted.

Abbreviation candidate := (res candidate_exn).

Record CandidateSpec := {
  host : pystr;
  port : Z;
  database : pystr;
  username : pystr;
  tls : TlsSettings;
  policy : DatasourcePolicy;
  limits : DatasourceLimits;
  destination_policy : DestinationPolicy;
  expected_addresses : option (list pystr);
  secret : pystr;
}.

(** [CandidateSpec.from_record]: the persisted addresses are required. *)
Definition from_record (r : DatasourceRecord) (s : pystr) : CandidateSpec :=
  let d := draft r in
  {| host := d_host d; port := d_port d; database := d_database d; username := d_username d; tls := d_tls d;
     policy := d_policy d; limits := d_limits d; destination_policy := d_destination_policy d;
     expected_addresses := Some (d_resolved_addresses d); secret := s |}.

(** [CandidateSpec.from_draft]: only if the draft brings addresses. *)
Definition from_draft (d : DatasourceDraft) (s : pystr) : CandidateSpec :=
  {| host := d_host d; port := d_port d; database := d_database d; username := d_username d; tls := d_tls d;
     policy := d_policy d; limits := d_limits d; destination_policy := d_destination_policy d;
     expected_addresses := match d_resolved_addresses d with [] => None | l => Some l end; secret := s |}.

(** [PreparedRuntime]; the engine is the policy it was built from, and the
    adapter's factory the default one. *)
Record PreparedRuntime := {
  file_config : Config.MaskingFileConfig;
  config : Config.GatewayConfig;
  p_conninfo : pystr;
  p_addresses : list pystr;
  p_max_sessions : Z;
}.

(** [new_adapter] with [default_adapter_factory]; the target has no options of
    its own, as [build_conninfo] gives it none. *)
Definition new_adapter (p : PreparedRuntime) : Adapter.adapter_config :=
  {| Adapter.policy := Config.gateway_masking (config p);
     Adapter.settings := Config.gateway_database (config p);
     Adapter.sql_policy := Config.gateway_sql (config p);
     Adapter.batch_size := DEFAULT_BATCH_SIZE;
     Adapter.verify_capabilities := true;
     Adapter.conninfo_options := None |}.

Definition fresh_adapter : Adapter.adapter :=
  {| Adapter.connection := None; Adapter.provenance := None; Adapter.now := 0; Adapter.drawn := 0 |}.

(** [verify_target]. *)
Definition verify_target (p : PreparedRuntime) : pystr * Z :=
  (p_conninfo p, Config.statement_timeout_ms (Config.gateway_database (config p))).

(** [effective_database_settings]. *)
Definition effective_database_settings (c : Config.MaskingFileConfig) (l : DatasourceLimits) : Config.DatabaseSettings :=
  {| Config.statement_timeout_ms := Z.min (Config.cfg_statement_timeout_ms (Config.database c)) (statement_timeout_ms l);
     Config.max_rows := Z.min (Config.cfg_max_rows (Config.database c)) (max_rows l) |}.

(** [sep.join(texts)]. *)
Fixpoint join (sep : pystr) (texts : list pystr) : pystr :=
  match texts with
  | [] => []
  | [t] => t
  | t :: texts => t ++ sep ++ join sep texts
  end.

(** What [build_conninfo] hands to [make_conninfo]. *)
Definition conninfo_fields (spec : CandidateSpec) (addresses : list pystr) : list (pystr * pystr) :=
  let name := default (host spec) (server_name (tls spec)) in
  [(py "host", join (py ",") (map (fun _ => name) addresses));
   (py "hostaddr", join (py ",") addresses);
   (py "port", str_int (port spec));
   (py "dbname", database spec);
   (py "user", username spec);
   (py "password", secret spec);
   (py "sslmode", mode (tls spec));
   (py "connect_timeout", str_int CONNECT_TIMEOUT_SECONDS)].

(** [verify_adapter]: connected, checked and closed, whatever happens. *)
Definition verify_adapter {Srv : Adapter.Server} (cfg : Adapter.adapter_config) (a : Adapter.adapter)
    : candidate unit * Adapter.adapter :=
  let '(r, a) := Adapter.connect cfg a in
  (match r with
   | Ok _ => Ok tt
   | Err (Adapter.Raised (Adapter.Capability _)) => Err (DatasourceCandidateError CAPABILITY)
   | Err _ => Err (DatasourceCandidateError CONNECTION)
   end, Adapter.close a).

(** [verify_prepared]. *)
Definition verify_prepared {Srv : Adapter.Server} (p : PreparedRuntime) : candidate unit :=
  (verify_adapter (new_adapter p) fresh_adapter).1.

Section candidate.
Context {L : PyLib} {D : DatasourceLib} {A : AddressLib}.
(** [psycopg.conninfo.make_conninfo] of these fields, which may refuse them;
    [MaskingFileConfig.model_validate]'s conversion of a mapping; the secrets. *)
Context (make_conninfo : list (pystr * pystr) -> option pystr)
  (conversion : pyval -> option Config.MaskingFileConfig) (secrets : secret_provider).

(** [_compile]: [parse_config_bundle], with the effective settings. *)
Definition compile (p : DatasourcePolicy) (l : DatasourceLimits)
    : option (Config.MaskingFileConfig * Config.GatewayConfig) :=
  raw ← conversion (policy_to_mapping p);
  match Config.validate_file_config raw with
  | Err _ => None
  | Ok parsed =>
      match build_default_registry with
      | Err _ => None
      | Ok transformers =>
          match Config.compile_policy transformers secrets parsed with
          | Err _ => None
          | Ok compiled =>
              Some (parsed, {| Config.gateway_masking := compiled;
                               Config.gateway_database := effective_database_settings parsed l;
                               Config.gateway_sql :=
                                 Config.gateway_sql (Config.build_gateway_config parsed compiled) |})
          end
      end
  end.

(** [verify_policy]. *)
Definition verify_policy (p : DatasourcePolicy) (l : DatasourceLimits) : candidate unit :=
  match compile p l with
  | Some _ => Ok tt
  | None => Err (DatasourceCandidateError POLICY)
  end.

(** The first step of [build_candidate]; the [ValueError] of an address read a
    second time is not among those it catches. *)
Definition candidate_addresses (spec : CandidateSpec) (resolver : Resolver) : candidate (list pystr) :=
  match resolve_destination (host spec) (port spec) (destination_policy spec) resolver (expected_addresses spec) with
  | Ok d => Ok (r_addresses d)
  | Err InvalidAddress => Err Escaped
  | Err _ => Err (DatasourceCandidateError DESTINATION)
  end.

(** [build_candidate], without a snapshot. *)
Definition build_candidate (spec : CandidateSpec) (resolver : Resolver) (verifier : PreparedRuntime -> candidate unit)
    : candidate PreparedRuntime :=
  addresses ← candidate_addresses spec resolver;
  match compile (policy spec) (limits spec) with
  | None => Err (DatasourceCandidateError POLICY)
  | Some (parsed, compiled) =>
      match make_conninfo (conninfo_fields spec addresses) with
      | None => Err Escaped
      | Some target =>
          let prepared := {| file_config := parsed; config := compiled; p_conninfo := target;
                             p_addresses := addresses; p_max_sessions := max_sessions (limits spec) |} in
          verifier prepared;;
          Ok prepared
      end
  end.

(** ** What a candidate is *)

Lemma compile_Some p l parsed compiled : compile p l = Some (parsed, compiled) ->
  Config.gateway_database compiled = effective_database_settings parsed l /\
  exists raw, conversion (policy_to_mapping p) = Some raw /\ Config.validate_file_config raw = Ok parsed /\
    Config.compile_policy default_registry secrets parsed = Ok (Config.gateway_masking compiled).
Proof.
  unfold compile. rewrite build_default_registry_eq. destruct (conversion _) as [raw|]; cbn; [|discriminate].
  destruct (Config.validate_file_config raw) as [c|] eqn:Ev; [|discriminate].
  destruct (Config.compile_policy _ secrets c) as [m|] eqn:Ec; [|discriminate].
  intros [= <- <-]. cbn. split; [reflexivity|]. exists raw. auto.
Qed.

Lemma candidate_addresses_Ok spec resolver l : candidate_addresses spec resolver = Ok l ->
  Forall (fun text => exists ip, effective_address text = Some ip /\ address_allowed (destination_policy spec) (host spec) ip) l /\
  match expected_addresses spec with None => True | Some k => canonical_addresses k = Ok l end.
Proof.
  unfold candidate_addresses. destruct (resolve_destination _ _ _ _ _) as [d|e] eqn:E; [|destruct e; discriminate].
  intros [= <-]. destruct (resolve_destination_Ok _ _ _ _ _ _ E) as (_ & _ & _ & _ & _ & _ & _ & F & X). auto.
Qed.

Lemma build_candidate_Ok spec resolver verifier p : build_candidate spec resolver verifier = Ok p ->
  candidate_addresses spec resolver = Ok (p_addresses p) /\
  compile (policy spec) (limits spec) = Some (file_config p, config p) /\
  make_conninfo (conninfo_fields spec (p_addresses p)) = Some (p_conninfo p) /\
  p_max_sessions p = max_sessions (limits spec) /\ verifier p = Ok tt.
Proof.
  unfold build_candidate. intros H. apply bind_Ok in H as (l & A1 & H).
  destruct (compile _ _) as [[parsed compiled]|]; [|discriminate]. destruct (make_conninfo _) as [t|] eqn:M; [|discriminate].
  apply bind_Ok in H as ([] & V & H). injection H as <-. auto.
Qed.
End candidate.

(** A candidate that is built connects only where the datasource's policy
    admits it, to the addresses it was pinned with if it was, and its target is
    made of those addresses alone; its policy compiled; it exceeds neither the
    limits of the policy nor those of the datasource; and, verified by a
    connection of its own, a server with its target answered that a session is
    read-only and ends a statement within the stricter of the two timeouts. *)
Theorem candidate_sound {L : PyLib} {D : DatasourceLib} {A : AddressLib}
    (server_at : pystr -> Adapter.Server) make_conninfo conversion secrets spec resolver p :
  build_candidate make_conninfo conversion secrets spec resolver
    (fun p => verify_prepared (Srv := server_at (p_conninfo p)) p) = Ok p ->
  let settings := Config.gateway_database (config p) in
  Forall (fun text => exists ip, effective_address text = Some ip /\
            address_allowed (destination_policy spec) (host spec) ip) (p_addresses p) /\
  match expected_addresses spec with None => True | Some k => canonical_addresses k = Ok (p_addresses p) end /\
  make_conninfo (conninfo_fields spec (p_addresses p)) = Some (p_conninfo p) /\
  (exists raw, conversion (policy_to_mapping (policy spec)) = Some raw /\
     Config.validate_file_config raw = Ok (file_config p) /\
     Config.compile_policy default_registry secrets (file_config p) = Ok (Config.gateway_masking (config p))) /\
  Config.statement_timeout_ms settings <= statement_timeout_ms (limits spec) /\
  Config.statement_timeout_ms settings <= Config.cfg_statement_timeout_ms (Config.database (file_config p)) /\
  Config.max_rows settings <= max_rows (limits spec) /\
  Config.max_rows settings <= Config.cfg_max_rows (Config.database (file_config p)) /\
  exists t l, Adapter.server_settings (Server := server_at (p_conninfo p)) t = Ok l /\
    Adapter.setting l (py "default_transaction_read_only") = Some (py "on") /\
    Adapter.setting l (py "statement_timeout") = Some (str_int (Config.statement_timeout_ms settings)).
Proof.
  intros H settings. apply build_candidate_Ok in H as (Ha & Hc & Hm & _ & Hv).
  apply candidate_addresses_Ok in Ha as [F X]. apply compile_Some in Hc as [Es Ec]. subst settings. rewrite Es.
  cbn [Config.statement_timeout_ms Config.max_rows effective_database_settings].
  do 4 (split; [assumption|]). do 4 (split; [lia|]).
  unfold verify_prepared, verify_adapter in Hv. destruct (Adapter.connect _ _) as [r a] eqn:C.
  apply Pipeline.connect_verified in C; [|reflexivity]. destruct r as [u|e].
  - destruct C as (_ & _ & t & l & S & R & T). exists t, l. split; [exact S|]. split; [exact R|].
    cbn in T. rewrite Es in T. exact T.
  - destruct e as [e|[]|]; discriminate.
Qed.
