(* ===== verification/ServiceRegistry.v ===== *)
(** * ServiceRegistry: what the coordinator's calls do to the registry

    No code of its own: the lemmas on [DatasourceRegistry]'s publication,
    withdrawal and status that the coordinator's theorems use, in terms of what
    is served: which alias leads to which datasource, at which revision. *)

From S2P Require Import Prelude DatasourceRegistry DatasourceDrain DatasourceShutdown.
From coqutil Require Import Datatypes.RecordSettersUsingExistingGetters.

Local Open Scope Z_scope.

(** An alias under which a datasource is published, at a revision. *)
Definition served (r : registry) (a i : pystr) (rev : Z) : Prop :=
  exists n g, published r !! a = Some n /\ generations r !! n = Some g /\ g_datasource g = i /\ g_record_revision g = rev.

(** ** The other threads *)

(** A step of a thread that is not the coordinator: a session's, a test's, the
    shutdown's.  It publishes and withdraws nothing, unless the shutdown
    closes the registry, and makes and touches no reservation to publish. *)
Definition same_reservations (y y' : system) : Prop := forall v x, v_publish x = true ->
  reservations (reg_of y) !! v = Some x <-> reservations (reg_of y') !! v = Some x.

Definition background (y y' : system) : Prop :=
  any_step y y' /\
  (published (reg_of y') = published (reg_of y) \/ closed (reg_of y') = true) /\
  same_reservations y y'.

(** What such steps leave. *)
Record undisturbed (y y' : system) : Prop := {
  el_closed : closed (reg_of y) = true -> closed (reg_of y') = true;
  el_published : closed (reg_of y') = false -> published (reg_of y') = published (reg_of y);
  el_generation n g : generations (reg_of y) !! n = Some g ->
    exists g', generations (reg_of y') !! n = Some g' /\ same_content g g';
}.

#[export] Instance undisturbed_preorder : PreOrder undisturbed.
Proof.
  split.
  - intros y. split; auto. intros n g G. exists g. split; [exact G|repeat split].
  - intros y y1 y2 [A1 A2 A3] [B1 B2 B3]. split; auto.
    + intros C. rewrite (B2 C). apply A2. destruct (closed (reg_of y1)); [|reflexivity]. rewrite B1 in C by reflexivity. discriminate.
    + intros n g G. destruct (A3 n g G) as (g1 & G1 & E1 & E2 & E3 & E4). destruct (B3 n g1 G1) as (g2 & G2 & F1 & F2 & F3 & F4).
      exists g2. split; [exact G2|]. repeat split; congruence.
Qed.

Lemma step_done k y y' : step k y y' -> closer y = Done -> closer y' = Done.
Proof. intros St C. destruct St; cbn [closer at_registry at_lease disposing] in *; congruence. Qed.

Lemma background_undisturbed lim y y' : system_ok lim y -> background y y' -> undisturbed y y' /\ system_ok lim y'.
Proof.
  intros O ((k & St) & P & _). pose proof (step_ok lim k y y' St O) as O'. split; [|exact O']. split.
  - intros C. apply (ok_closed _ _ O'). apply (ok_closed _ _ O) in C. exact (step_done k y y' St C).
  - intros C. destruct P as [P|P]; congruence.
  - intros n g G. destruct (lt_generation _ _ _ (step_later lim k y y' O St) n g G) as (g' & G' & E & _). exists g'. split; [exact G'|apply E].
Qed.

Lemma backgrounds_undisturbed lim y y' : system_ok lim y -> rtc background y y' -> undisturbed y y' /\ system_ok lim y'.
Proof.
  intros O R. induction R as [y|y y1 y2 B _ IH]; [split; [reflexivity|exact O]|].
  destruct (background_undisturbed lim y y1 O B) as [E O1]. destruct (IH O1) as [E2 O2]. split; [etransitivity; eassumption|exact O2].
Qed.

Lemma backgrounds_reservations y y' : rtc background y y' -> same_reservations y y'.
Proof. intros R v x P. induction R as [y|y y1 y2 (_ & _ & B) _ IH]; [reflexivity|]. rewrite (B v x P). exact IH. Qed.

(** A test's reservation, made and released. *)
Lemma background_reserve lim key j v r y : system_ok lim y -> reserve key j false (reg_of y) = (Ok v, r) ->
  background y (at_registry r y) /\ (forall x, reservations r !! v = Some x -> v_publish x = false).
Proof.
  intros O H. pose proof (step_reserve y key j false v r H) as St. apply reserve_Ok in H as (_ & _ & _ & -> & slot & ->).
  assert (E : exists x0, v_publish x0 = false /\
    reservations (reserved key j false slot (reg_of y)) = <[next_reservation (reg_of y) := x0]> (reservations (reg_of y))).
  { eexists {| v_key := key; v_datasource := j; v_publish := false; v_released := false; v_slot := slot |}.
    split; [reflexivity|]. destruct slot; reflexivity. }
  destruct E as (x0 & P0 & E). split; [split; [eexists; exact St|split; [left; destruct slot; reflexivity|]]|].
  - intros v x P. cbn [reg_of at_registry]. rewrite E. destruct (decide (v = next_reservation (reg_of y))) as [->|Ne].
    + rewrite lookup_insert_eq. split; [|intros [= ->]; congruence]. intros V. apply (co_fresh _ (ok_candidates _ _ O)) in V. lia.
    + rewrite lookup_insert_ne by congruence. reflexivity.
  - intros x. rewrite E, lookup_insert_eq. intros [= ->]. exact P0.
Qed.

Lemma background_release v x r y : reservations (reg_of y) !! v = Some x -> v_publish x = false ->
  release_reservation v (reg_of y) = (Ok tt, r) -> background y (at_registry r y).
Proof.
  intros V P H. pose proof (step_release_reservation y v x r V H) as St. rewrite (release_reservation_run v x _ V) in H. injection H as <-.
  split; [eexists; exact St|]. destruct (v_released x); [split; [left; reflexivity|intros w z _; reflexivity]|].
  split; [left; unfold unreserved; destruct (v_slot x); reflexivity|]. intros w z Pz. cbn [reg_of at_registry].
  replace (reservations (unreserved v x (reg_of y))) with (<[v := x <| v_released := true |> <| v_slot := false |>]> (reservations (reg_of y)))
    by (unfold unreserved; destruct (v_slot x); reflexivity).
  destruct (decide (w = v)) as [->|Ne]; [|rewrite lookup_insert_ne by congruence; reflexivity].
  rewrite lookup_insert_eq. split; [intros Z; congruence|]. intros [= <-]. change (v_publish x = true) in Pz. congruence.
Qed.

Section registry.
Context (lim : RegistryLimits) (y : system) (O : system_ok lim y).

Local Abbreviation r := (reg_of y).

Lemma published_generation_of a n : published r !! a = Some n -> exists g, generations r !! n = Some g /\ g_alias g = a.
Proof. intros P. destruct (go_published _ _ _ (ok_generations _ _ O) a n P) as (g & G & A & _). eauto. Qed.

(** A datasource is served under one alias, and an alias serves one. *)
Lemma served_one a a' i i' rev rev' : served r a i rev -> served r a' i' rev' -> (a = a' <-> i = i').
Proof.
  intros (n & g & P & G & D & _) (n' & g' & P' & G' & D' & _). split.
  - intros ->. congruence.
  - intros ->. apply (go_one _ _ _ (ok_generations _ _ O) a a' n n' g g'); congruence.
Qed.

Lemma served_undisturbed y' a i rev : undisturbed y y' -> closed (reg_of y') = false ->
  served (reg_of y') a i rev <-> served r a i rev.
Proof.
  intros [E1 E2 E3] C. unfold served. rewrite (E2 C). split.
  - intros (n & g' & P & G' & D & R). destruct (published_generation_of a n P) as (g & G & _).
    destruct (E3 n g G) as (g2 & G2 & S1 & S2 & S3 & S4). exists n, g. repeat split; congruence.
  - intros (n & g & P & G & D & R). destruct (E3 n g G) as (g2 & G2 & S1 & S2 & S3 & S4). exists n, g2. repeat split; congruence.
Qed.

(** A reservation not released keeps the registry from closing. *)
Lemma reserved_open v x : reservations r !! v = Some x -> v_released x = false -> closed r = false.
Proof.
  intros V Rl. destruct (closed r) eqn:C; [|reflexivity]. apply (ok_closed _ _ O) in C. pose proof (ok_closer _ _ O) as W. rewrite C in W.
  destruct W as (_ & W & _). rewrite (co_count _ (ok_candidates _ _ O)), <- (insert_delete_id _ v x V), total_new in W by apply lookup_delete_eq.
  unfold in_flight at 1 in W. rewrite Rl in W. pose proof (total_nonneg in_flight (delete v (reservations r))). cbn in W. lia.
Qed.

(** The slot a reservation takes: for the generation it will retire. *)
Lemma reserve_slot key i w v r' : reserve key i w r = (Ok v, r') -> exists x,
  r' = reserved key i w (v_slot x) r /\ reservations r' !! v = Some x /\ v_publish x = w /\ v_released x = false /\
  (w = true -> forall j, i = Some j -> v_slot x = false -> published_for j r = None).
Proof.
  unfold reserve, check_retired_capacity. run_reg. destruct (closing r); cbn beta iota; [discriminate|].
  destruct (_ <=? count (ds_candidates r) key); cbn beta iota; [discriminate|]. destruct (_ <=? candidates r); cbn beta iota; [discriminate|].
  set (x b := {| v_key := key; v_datasource := i; v_publish := w; v_released := false; v_slot := b |}).
  assert (F : forall b, reservations (reserved key i w b r) !! next_reservation r = Some (x b)).
  { intros b. unfold reserved. destruct b; apply lookup_insert_eq. }
  destruct i as [i|]; cbn beta iota.
  - destruct (w && _) eqn:E; cbn beta iota.
    + destruct (_ <=? count (ds_retired r) i); cbn beta iota; [discriminate|]. destruct (_ <=? _ + _); cbn beta iota; [discriminate|].
      intros [= <- <-]. exists (x true). split; [reflexivity|]. split; [apply (F true)|]. split; [reflexivity|]. split; [reflexivity|]. discriminate.
    + intros [= <- <-]. exists (x false). split; [reflexivity|]. split; [apply (F false)|]. split; [reflexivity|]. split; [reflexivity|].
      intros -> j [= <-] _. cbn in E. apply bool_decide_eq_false, dec_stable in E. exact E.
  - intros [= <- <-]. exists (x false). split; [reflexivity|]. split; [apply (F false)|]. split; [reflexivity|]. split; [reflexivity|]. discriminate.
Qed.

Lemma retire_frame n r0 c r' : retire n r0 = (Ok c, r') -> published r' = published r0 /\ closed r' = closed r0.
Proof.
  intros H. destruct (generations r0 !! n) as [g|] eqn:G.
  2:{ revert H. unfold retire, the_generation. run_reg. rewrite G. discriminate. }
  rewrite (retire_run n g r0 G) in H. revert H. unfold take_closable, the_generation. run_reg.
  replace (generations (retired_generation n g r0) !! n) with (Some (g <| g_retired := true |>)) by (symmetry; apply lookup_insert_eq).
  cbn beta iota. destruct (negb _ || _ || _); cbn beta iota; [intros [= _ <-]; split; reflexivity|].
  destruct (negb (bool_decide _)); cbn beta iota; [discriminate|]. intros [= _ <-]. split; reflexivity.
Qed.

Lemma served_by b n : published r !! b = Some n ->
  exists g, generations r !! n = Some g /\ served r b (g_datasource g) (g_record_revision g).
Proof. intros P. destruct (published_generation_of b n P) as (g & G & _). exists g. split; [exact G|]. exists n, g. auto. Qed.

(** A publication, where the alias and the datasource belong together and a
    slot was taken for the generation to retire, is done. *)
Lemma publication_runs v x i a rev limit : reservations r !! v = Some x -> v_publish x = true -> v_released x = false ->
  (forall a' i' rev', served r a' i' rev' -> (a' = a <-> i' = i)) ->
  (v_slot x = false -> forall i' rev', ~ served r a i' rev') ->
  exists c r', publish v i a rev limit r = (Ok (next_generation r, c), r').
Proof.
  intros V Pb Rl T Sl. pose proof (reserved_open v x V Rl) as Cl. unfold publish, the_reservation. run_reg.
  rewrite V. cbn beta iota. rewrite Pb, Rl. cbn [negb orb]. rewrite Cl. cbn beta iota.
  destruct (match published r !! a with Some m => negb (bool_decide _) | None => false end) eqn:E3; cbn beta iota.
  { exfalso. destruct (published r !! a) as [m|] eqn:Pa; [|discriminate]. apply negb_true_iff, bool_decide_eq_false in E3. apply E3.
    destruct (served_by a m Pa) as (g & G & S). rewrite G. cbn. f_equal. apply (proj1 (T _ _ _ S) eq_refl). }
  destruct (existsb _ _) eqn:E4; cbn beta iota.
  { exfalso. apply existsb_exists in E4 as ([b m] & Hin & E4). apply list_elem_of_In, elem_of_map_to_list in Hin. cbn in E4.
    apply andb_true_iff in E4 as [E4 E5]. apply bool_decide_eq_true in E4. apply negb_true_iff, bool_decide_eq_false in E5. apply E5.
    destruct (served_by b m Hin) as (g & G & S). rewrite G in E4. injection E4 as Di. apply (proj2 (T _ _ _ S) Di). }
  destruct (published r !! a) as [o|] eqn:Pa; [|eexists _, _; reflexivity].
  destruct (served_by a o Pa) as (g & G & S). destruct (v_slot x) eqn:Sx; [|destruct (Sl eq_refl _ _ S)].
  pose proof (ok_slot_used lim y v x O V) as O'. rewrite Sx in O'.
  destruct (swap_runs lim _ i a rev limit o O' Pa) as (c1 & r1 & R1).
  { unfold of_datasource. cbn. rewrite G. apply bool_decide_eq_true_2. apply (proj1 (T _ _ _ S) eq_refl). }
  cbn beta iota. match goal with |- context [retire o ?r0] =>
    change r0 with (published_generation i a rev limit (slot_used v x r)) end.
  cbn [reg_of at_registry] in R1. rewrite R1. eexists _, _. reflexivity.
Qed.

(** What is served after a publication. *)
Lemma publish_serves v i a rev limit n c r' : publish v i a rev limit r = (Ok (n, c), r') ->
  forall a' i' rev', served r' a' i' rev' <-> (a' = a /\ i' = i /\ rev' = rev) \/ (a' <> a /\ served r a' i' rev').
Proof.
  intros H. pose proof (publish_later (fun _ => True) lim y v i a rev limit n c r' O H) as La.
  apply publish_Ok in H as (x & _ & _ & _ & _ & -> & _ & H). set (n := next_generation r) in *.
  pose proof (fresh_generation _ _ _ (ok_generations _ _ O)) as Fr. fold n in Fr.
  assert (N : exists g, generations r' !! n = Some g /\ g_datasource g = i /\ g_record_revision g = rev /\
                        published r' = <[a := n]> (published r)).
  { assert (K : forall r0, published r0 = published r -> next_generation r0 = n ->
      generations (published_generation i a rev limit r0) !! n = Some (new_generation i a rev limit) /\
      published (published_generation i a rev limit r0) = <[a := n]> (published r)).
    { intros r0 E1 E2. unfold published_generation. rewrite E2. split; [apply lookup_insert_eq|]. cbn. rewrite E1. reflexivity. }
    destruct (published r !! a) as [o|].
    - destruct H as (_ & _ & H). destruct x as [xk xd xp xr xs]. cbn [v_slot] in H.
      set (r0 := if xs then slot_used v _ r else r) in H. destruct (K r0) as [K1 K2]; [subst r0; destruct xs; reflexivity..|].
      rewrite (proj1 (retire_frame _ _ _ _ H)), K2. apply (retire_later (fun _ => True)) in H.
      destruct (lt_generation _ _ _ H n _ K1) as (g & G & [(E1 & E2 & E3 & E4) _ _ _] & _). exists g. auto.
    - destruct H as [_ ->]. destruct (K r eq_refl eq_refl) as [K1 K2]. exists (new_generation i a rev limit). auto. }
  destruct N as (g & G & Di & Rv & P'). intros a' i' rev'. unfold served. rewrite P'. destruct (decide (a' = a)) as [->|Ne].
  - rewrite lookup_insert_eq. split.
    + intros (m & h & [= <-] & Gh & Dh & Rh). left. split; [reflexivity|]. split; congruence.
    + intros [(_ & -> & ->)|[X _]]; [exists n, g; auto|contradiction].
  - rewrite lookup_insert_ne by congruence. split.
    + intros (m & h & P & Gh & Dh & Rh). right. split; [exact Ne|]. destruct (published_generation_of a' m P) as (h0 & G0 & _).
      destruct (lt_generation _ _ _ La m h0 G0) as (h1 & G1 & [(E1 & E2 & E3 & E4) _ _ _] & _). exists m, h0. repeat split; congruence.
    + intros [(X & _)|(_ & m & h0 & P & G0 & D0 & R0)]; [contradiction|].
      destruct (lt_generation _ _ _ La m h0 G0) as (h1 & G1 & [(E1 & E2 & E3 & E4) _ _ _] & _). exists m, h1. repeat split; congruence.
Qed.

(** A publication is made in an open registry, and leaves it open. *)
Lemma publish_open v i a rev limit n c r' : publish v i a rev limit r = (Ok (n, c), r') -> closed r = false /\ closed r' = false.
Proof.
  intros H. apply publish_Ok in H as (x & _ & _ & _ & C & _ & _ & H). split; [exact C|].
  destruct (published r !! a) as [o|]; [|destruct H as [_ ->]; exact C]. destruct H as (_ & _ & H). apply retire_frame in H as [_ ->].
  destruct (v_slot x); exact C.
Qed.

(** What is served after a withdrawal, which is never refused. *)
Lemma withdraw_serves i : exists b c r', withdraw i r = (Ok (b, c), r') /\ system_ok lim (disposing c r' y) /\ closed r' = closed r /\
  forall a' i' rev', served r' a' i' rev' <-> i' <> i /\ served r a' i' rev'.
Proof.
  destruct (withdraw_runs lim y i O) as (b & c & r' & E & No). exists b, c, r'. split; [exact E|].
  split; [exact (ok_withdraw lim y i b c r' O E)|].
  apply withdraw_Ok in E as [(_ & _ & -> & F)|(_ & a & n & F & E)].
  - split; [reflexivity|]. intros a' i' rev'. split; [|tauto]. intros S. split; [|exact S]. destruct S as (m & h & P & G & D & _). intros ->. exact (No a' m h P G D).
  - apply published_for_Some in F as (Pa & g & G & Di). destruct (retire_frame _ _ _ _ E) as [P' C'].
    change (published r' = delete a (published r)) in P'. change (closed r' = closed r) in C'. apply (retire_later (fun _ => True)) in E.
    split; [exact C'|]. intros a' i' rev'. unfold served. rewrite P'. split.
    + intros (m & h & P & Gh & Dh & Rh). split; [intros ->; apply (No a' m h); [rewrite P'; exact P|exact Gh|exact Dh]|].
      apply lookup_delete_Some in P as [Ne P]. destruct (published_generation_of a' m P) as (h0 & G0 & _).
      destruct (lt_generation _ _ _ E m h0 G0) as (h1 & G1 & [(E1 & E2 & E3 & E4) _ _ _] & _). exists m, h0. repeat split; congruence.
    + intros (Ne & m & h0 & P & G0 & D0 & R0).
      destruct (lt_generation _ _ _ E m h0 G0) as (h1 & G1 & [(E1 & E2 & E3 & E4) _ _ _] & _). exists m, h1.
      split; [|repeat split; congruence]. rewrite lookup_delete_ne; [exact P|]. intros <-. congruence.
Qed.

(** The status is read whole, and lists what is published. *)
Lemma mapM_reads {B C} (f : B -> reg C) (l : list B) (Q : B -> C -> Prop) : (forall b, b ∈ l -> exists c, f b r = (Ok c, r) /\ Q b c) ->
  exists k, mapM_st f l r = (Ok k, r) /\ Forall2 Q l k.
Proof.
  induction l as [|b l IH]; intros H; [exists []; split; [reflexivity|constructor]|].
  destruct (H b ltac:(left)) as (c & E & Qc). destruct (IH ltac:(intros b' Hb; apply H; right; exact Hb)) as (k & Ek & Qk).
  exists (c :: k). split; [|constructor; assumption]. cbn [mapM_st]. unfold mbind, st_bind. rewrite E, Ek. reflexivity.
Qed.

Lemma status_reads : exists z, status r = (Ok z, r) /\ forall a i n rev,
  (exists k, {| s_alias := a; s_datasource := i; s_generation := n; s_revision := rev; s_sessions := k |} ∈ status_published z) <->
  published r !! a = Some n /\ exists g, generations r !! n = Some g /\ g_datasource g = i /\ g_record_revision g = rev.
Proof.
  set (entry := fun (an : pystr * nat) (x : GenerationStatus) => published r !! an.1 = Some an.2 /\
         exists g, generations r !! an.2 = Some g /\
         x = {| s_alias := an.1; s_datasource := g_datasource g; s_generation := an.2; s_revision := g_record_revision g; s_sessions := g_sessions g |}).
  set (l := merge_sort alias_le (map_to_list (published r))).
  assert (Hl : forall an, an ∈ l <-> published r !! an.1 = Some an.2).
  { intros [a n]. unfold l. rewrite merge_sort_Permutation, elem_of_map_to_list. reflexivity. }
  destruct (mapM_reads (fun an : pystr * nat => g ← the_generation an.2;
      mret {| s_alias := g_alias g; s_datasource := g_datasource g; s_generation := an.2; s_revision := g_record_revision g; s_sessions := g_sessions g |})
      l entry) as (k & E & F).
  { intros [a n] P%Hl. cbn in P. destruct (published_generation_of a n P) as (g & G & Al). unfold the_generation. run_reg. cbn [fst snd]. rewrite G.
    eexists. split; [reflexivity|]. split; [exact P|]. exists g. split; [exact G|]. rewrite Al. reflexivity. }
  eexists. split; [unfold status, mbind, st_bind, get_st, mret, st_ret; cbn beta iota; fold l; unfold mbind, st_bind, mret, st_ret in E; rewrite E; reflexivity|].
  cbn [status_published]. intros a i n rev. split.
  - intros (ns & Hin). apply list_elem_of_lookup in Hin as [j Hj]. destruct (Forall2_lookup_r _ _ _ _ _ F Hj) as ([a' n'] & _ & P & g & G & X).
    injection X as -> -> -> -> ->. eauto.
  - intros (P & g & G & <- & <-). assert (Hin : (a, n) ∈ l) by (apply Hl; exact P). apply list_elem_of_lookup in Hin as [j Hj].
    destruct (Forall2_lookup_l _ _ _ _ _ F Hj) as (x & Hx & _ & g' & G' & ->). cbn in G'. exists (g_sessions g').
    replace g with g' by congruence. eapply list_elem_of_lookup_2. exact Hx.
Qed.
End registry.
