(* ===== verification/CatalogApi.v ===== *)
(** * CatalogApi: what the catalog promises to its coordinator

    [runtime/datasource_service.py] uses the datasource store through a few
    operations.  [CatalogApi] is that interface and [CatalogApiLaws] what it
    promises: reading changes nothing
    and leaves no outcome uncertain, a write that returns has replaced the
    catalog by the one that was asked for, at the next revision, and a write
    that raises leaves the catalog in memory as it was and, when its outcome is
    uncertain, the object unusable.  The store of [CatalogStore] is an instance
    of both. *)

From S2P Require Import Prelude Canonical Json Datasource Destination CatalogFormat CatalogDisk CatalogStore CatalogCrash.

Local Open Scope Z_scope.

(** What the store holds in memory: the revision, the records, the digest. *)
Abbreviation contents := (Z * list DatasourceRecord * pystr)%type.

Class CatalogApi (S : Type) := {
  memory : S -> contents;
  is_closed : S -> bool;
  requires_reopen : S -> bool;
  api_snapshot : st S stop contents;
  api_revision : st S stop Z;
  api_read_secret : pystr -> st S stop pystr;
  api_create : DatasourceDraft -> pystr -> Z -> Resolver -> nat -> st S stop DatasourceRecord;
  api_update : pystr -> DatasourceDraft -> Z -> Resolver -> nat -> st S stop DatasourceRecord;
  api_rotate_secret : pystr -> pystr -> Z -> nat -> st S stop DatasourceRecord;
  api_remove : pystr -> Z -> st S stop unit;
}.

Section api.
Context {S : Type} `{CatalogApi S}.

Definition records (s : S) : list DatasourceRecord := (memory s).1.2.
Definition catalog_revision (s : S) : Z := (memory s).1.1.

(** Neither closed nor in need of being reopened. *)
Definition live (s : S) : Prop := is_closed s = false /\ requires_reopen s = false.

(** The answer of a read. *)
Definition reading {A} (f : S -> A) (s : S) : res stop A :=
  if is_closed s then Err (Raised CatalogStoreError)
  else if requires_reopen s then Err (Raised CatalogWriteError)
  else Ok (f s).

(** What a write that raised leaves. *)
Record failed (e : catalog_exn) (s s' : S) : Prop := {
  fa_memory : memory s' = memory s;
  fa_closed : is_closed s' = is_closed s;
  fa_poisoned : requires_reopen s = true -> requires_reopen s' = true;
  fa_uncertain : e = CatalogOutcomeUncertainError -> requires_reopen s' = true;
}.

(** What a write that returned has done. *)
Record committed (expected : Z) (l : list DatasourceRecord) (s s' : S) : Prop := {
  cm_before : live s;
  cm_after : live s';
  cm_expected : expected = catalog_revision s;
  cm_revision : catalog_revision s' = catalog_revision s + 1;
  cm_records : records s' ≡ₚ l;
}.

(** The end of a write. *)
Definition written {A} (Q : A -> Prop) (expected : Z) (l : A -> list DatasourceRecord) (s : S) (r : res stop A) (s' : S) : Prop :=
  match r with
  | Ok a => Q a /\ committed expected (l a) s s'
  | Err (Raised e) => failed e s s'
  | Err Died => True
  end.

(** A record of a draft, its addresses apart. *)
Record drawn_from (d : DatasourceDraft) (r : DatasourceRecord) : Prop := {
  df_draft : draft r = with_addresses d (d_resolved_addresses (draft r));
}.
End api.

Class CatalogApiLaws {D : DatasourceLib} (S : Type) `{CatalogApi S} : Prop := {
  law_snapshot s : api_snapshot s = (reading memory s, s);
  law_revision s : api_revision s = (reading catalog_revision s, s);
  law_secret i s : (api_read_secret i s).2 = s /\ (api_read_secret i s).1 <> Err (Raised CatalogOutcomeUncertainError);
  law_create d secret expected resolver moment s r s' :
    api_create d secret expected resolver moment s = (r, s') ->
    written (fun x => drawn_from d x /\ revision x = 1 /\ id_ x = new_datasource_id moment /\ d_alias d ∉ aliases (records s))
      expected (fun x => records s ++ [x]) s r s';
  law_update i d expected resolver moment s r s' :
    api_update i d expected resolver moment s = (r, s') ->
    written (fun x => drawn_from d x /\ exists current, find_record i (records s) = Some current /\ id_ x = id_ current /\
                      revision x = revision current + 1)
      expected (fun x => replaced x (records s)) s r s';
  law_rotate_secret i secret expected moment s r s' :
    api_rotate_secret i secret expected moment s = (r, s') ->
    written (fun x => exists current, find_record i (records s) = Some current /\ draft x = draft current /\
                      id_ x = id_ current /\ revision x = revision current + 1)
      expected (fun x => replaced x (records s)) s r s';
  law_remove i expected s r s' :
    api_remove i expected s = (r, s') ->
    written (fun _ => True) expected (fun _ => filter (fun x => id_ x <> i) (records s)) s r s';
}.

(** ** The store is one *)

Section store.
Context {F : PyFloat} {D : DatasourceLib} {L : PyLib} {A : AddressLib}.

#[export] Instance store_api : CatalogApi Store := {
  memory s := (revision_ (object s), records_ (object s), digest_ (object s));
  is_closed s := closed (object s);
  requires_reopen s := poisoned (object s);
  api_snapshot := snapshot;
  api_revision := get_revision;
  api_read_secret := read_upstream_secret;
  api_create d secret expected := create d secret (Some expected);
  api_update := update;
  api_rotate_secret := rotate_secret;
  api_remove := remove;
}.

(** A computation that does not touch the store, and leaves no outcome
    uncertain. *)
Definition pure {B} (m : st Store stop B) : Prop :=
  forall s, (m s).2 = s /\ (m s).1 <> Err (Raised CatalogOutcomeUncertainError).

Lemma pure_ret {B} (b : B) : pure (mret b).
Proof. intros s. split; [reflexivity|discriminate]. Qed.

Lemma pure_self : pure self.
Proof. intros s. split; [reflexivity|discriminate]. Qed.

Lemma pure_fault {B} e : e <> CatalogOutcomeUncertainError -> pure (fault e : st Store stop B).
Proof. intros N s. split; [reflexivity|]. cbn. congruence. Qed.

Lemma pure_checked {B} (m : catalog B) : m <> Err CatalogOutcomeUncertainError -> pure (checked_ m).
Proof. intros N [o w]. unfold checked_, on_world, from. destruct m; split; cbn; congruence. Qed.

Lemma pure_bind {B C} (m : st Store stop B) (k : B -> st Store stop C) : pure m -> (forall b, pure (k b)) -> pure (m ≫= k).
Proof.
  intros M K s. destruct (M s) as [E N]. unfold mbind, st_bind. destruct (m s) as [[b|e] s1]; cbn in *; subst s1; [apply K|].
  split; [reflexivity|congruence].
Qed.

Lemma pure_ensure : pure ensure_open.
Proof.
  apply pure_bind; [apply pure_self|]. intros c. destruct (closed c); [apply pure_fault; discriminate|].
  destruct (poisoned c); [apply pure_fault; discriminate|apply pure_ret].
Qed.

Lemma pure_check expected : pure (check_revision expected).
Proof.
  apply pure_bind; [apply pure_self|]. intros c. destruct expected as [r|]; [|apply pure_ret].
  destruct (r =? revision_ c); [apply pure_ret|apply pure_fault; discriminate].
Qed.

Lemma pure_get i : pure (get_record i).
Proof.
  apply pure_bind; [apply pure_self|]. intros c. destruct (negb (valid_datasource_id i)); [apply pure_fault; discriminate|].
  destruct (find_record i (records_ c)); [apply pure_ret|apply pure_fault; discriminate].
Qed.

Lemma pure_leak {B} (m : crypto B) : pure (checked_ (leak m)).
Proof. apply pure_checked. destruct m; discriminate. Qed.

Lemma pure_secret r : pure (secret_of r).
Proof.
  apply pure_bind; [apply pure_self|]. intros c. apply pure_checked. unfold value_error. destruct (open_secret _ _ _ _ _) as [x|[]]; discriminate.
Qed.

Lemma pure_destination d resolver : pure (checked_ (destination_of d resolver)).
Proof. apply pure_checked. unfold destination_of, of_destination. destruct (resolve_destination _ _ _ _ _) as [x|[]]; discriminate. Qed.

Lemma pure_record r : pure (checked_ (of_checked (datasource_record r))).
Proof. apply pure_checked. unfold of_checked. destruct (datasource_record r); discriminate. Qed.

(** Any postcondition of a write that allows it to be refused. *)
Lemma after_pure {B C} (m : st Store stop B) (k : B -> st Store stop C) Q s : pure m ->
  (forall e, e <> CatalogOutcomeUncertainError -> Q (Err (Raised e)) s) -> Q (Err Died) s ->
  (forall b, m s = (Ok b, s) -> runs (k b) Q s) -> runs (m ≫= k) Q s.
Proof.
  intros M He Hd K. destruct (M s) as [E N]. unfold runs, mbind, st_bind. destruct (m s) as [[b|[e|]] s1]; cbn in *; subst s1.
  - apply K. reflexivity.
  - apply He. congruence.
  - exact Hd.
Qed.

Lemma failed_same e s : e <> CatalogOutcomeUncertainError -> failed e s s.
Proof. intros N. split; auto; congruence. Qed.

(** [_commit], past its check of the revision. *)
Lemma commit_written l expected s : live s -> runs (commit l expected None) (written (fun _ => True) expected (fun _ => l) s) s.
Proof.
  intros Li. unfold commit. apply after_pure; [apply pure_self|intros e N; apply failed_same, N|exact I|]. intros c [= <-].
  destruct (Z.eqb_spec expected (revision_ (object s))) as [->|Ne]; cbn [negb].
  2:{ apply failed_same. discriminate. }
  assert (St : forall B (m : st Store stop B) (k : B -> st Store stop unit), pure m ->
            (forall b, runs (k b) (written (fun _ => True) (revision_ (object s)) (fun _ => l) s) s) ->
            runs (m ≫= k) (written (fun _ => True) (revision_ (object s)) (fun _ => l) s) s).
  { intros B m k M K. apply after_pure; [exact M|intros e N; apply failed_same, N|exact I|auto]. }
  apply St; [apply pure_leak|]. intros data. apply St; [apply pure_leak|]. intros dg. apply St; [apply pure_leak|]. intros j. clear St.
  unfold runs, poisoning, on_world, mbind, st_bind. destruct Li as [L1 L2]. destruct (transaction _ _ _ _ _ _) as [[u|[e|]] w].
  - cbn [world object]. pose proof (cleanup_calm StoreDirectory w) as Ca. destruct (cleanup_managed StoreDirectory w) as [[u1|e] w1].
    + split; [exact I|]. split; [split; assumption|split; assumption|reflexivity|reflexivity|]. apply merge_sort_Permutation.
    + destruct e as [e|]; [|exact I]. cbn in Ca. subst e. split; auto. discriminate.
  - split; try reflexivity; auto.
  - exact I.
Qed.

Lemma serialized_runs {B} (m : st Store stop B) Q s : (forall e, e <> CatalogOutcomeUncertainError -> Q (Err (Raised e)) s) ->
  Q (Err Died) s -> (live s -> runs m Q s) -> runs (serialized m) Q s.
Proof.
  intros He Hd K. unfold serialized. apply after_pure; [apply pure_ensure|exact He|exact Hd|]. intros [] E. apply K.
  unfold ensure_open, mbind, st_bind, self in E. split; cbn.
  - destruct (closed (object s)); [discriminate|reflexivity].
  - destruct (closed (object s)); [discriminate|]. destruct (poisoned (object s)); [discriminate|reflexivity].
Qed.

(** The end of a write that draws its record first. *)
Lemma commit_then {B} (P : B -> Prop) l expected (x : B) s : live s -> P x ->
  runs (commit (l x) expected None;; mret x) (written P expected l s) s.
Proof.
  intros Li Hx. apply runs_bind. eapply runs_mono; [apply (commit_written (l x) expected s Li)|].
  intros [u|[e|]] s1; cbn; [|auto|auto]. intros [_ C]. split; assumption.
Qed.

(** One step of a write that cannot change anything yet. *)
Ltac step tac := apply after_pure; [tac|intros ? ?; apply failed_same; assumption|exact I|].

Lemma check_revision_Ok expected s : check_revision (Some expected) s = (Ok tt, s) -> expected = revision_ (object s).
Proof.
  unfold check_revision, self, mbind, st_bind. destruct (Z.eqb_spec expected (revision_ (object s))); [auto|discriminate].
Qed.

Lemma get_record_Ok i s r : get_record i s = (Ok r, s) -> find_record i (records_ (object s)) = Some r.
Proof.
  unfold get_record, self, mbind, st_bind. destruct (negb _); [discriminate|].
  destruct (find_record i (records_ (object s))); [intros [= <-]; reflexivity|discriminate].
Qed.

Lemma record_Ok r s x : checked_ (of_checked (datasource_record r)) s = (Ok x, s) -> x = r.
Proof.
  destruct s as [o w]. unfold checked_, on_world, from, of_checked. destruct (datasource_record r) as [y|] eqn:E; [|discriminate].
  intros [= <-]. unfold datasource_record in E. inv_ok. reflexivity.
Qed.

Lemma create_written d secret expected resolver moment s :
  runs (create d secret (Some expected) resolver moment)
    (written (fun x => drawn_from d x /\ revision x = 1 /\ id_ x = new_datasource_id moment /\ d_alias d ∉ aliases (records s))
       expected (fun x => records s ++ [x]) s) s.
Proof.
  apply serialized_runs; [intros e N; apply failed_same, N|exact I|]. intros Li. step ltac:(apply pure_ensure). intros _ _.
  step ltac:(apply pure_check). intros [] ->%check_revision_Ok. step ltac:(apply pure_self). intros c [= <-].
  destruct (bool_decide _) eqn:Al; [apply failed_same; discriminate|]. apply bool_decide_eq_false in Al.
  step ltac:(apply pure_destination). intros de _. step ltac:(apply pure_leak). intros en _.
  step ltac:(apply pure_record). intros r ->%record_Ok.
  apply (commit_then _ (fun x => records_ (object s) ++ [x])); [exact Li|]. split; [|auto]. split. reflexivity.
Qed.

Lemma update_written i d expected resolver moment s :
  runs (update i d expected resolver moment)
    (written (fun x => drawn_from d x /\ exists current, find_record i (records s) = Some current /\ id_ x = id_ current /\
                       revision x = revision current + 1)
       expected (fun x => replaced x (records s)) s) s.
Proof.
  apply serialized_runs; [intros e N; apply failed_same, N|exact I|]. intros Li. step ltac:(apply pure_ensure). intros _ _.
  step ltac:(apply pure_check). intros [] ->%check_revision_Ok. step ltac:(apply pure_get). intros cur Cu%get_record_Ok.
  step ltac:(apply pure_self). intros c [= <-]. destruct (existsb _ _); [apply failed_same; discriminate|].
  step ltac:(apply pure_destination). intros de _. step ltac:(apply pure_secret). intros se _. step ltac:(apply pure_leak). intros en _.
  step ltac:(apply pure_record). intros r ->%record_Ok.
  apply (commit_then _ (fun x => replaced x (records_ (object s)))); [exact Li|]. split; [split; reflexivity|]. exists cur. auto.
Qed.

Lemma rotate_written i secret expected moment s :
  runs (rotate_secret i secret expected moment)
    (written (fun x => exists current, find_record i (records s) = Some current /\ draft x = draft current /\
                       id_ x = id_ current /\ revision x = revision current + 1)
       expected (fun x => replaced x (records s)) s) s.
Proof.
  apply serialized_runs; [intros e N; apply failed_same, N|exact I|]. intros Li. step ltac:(apply pure_ensure). intros _ _.
  step ltac:(apply pure_check). intros [] ->%check_revision_Ok. step ltac:(apply pure_get). intros cur Cu%get_record_Ok.
  step ltac:(apply pure_self). intros c [= <-]. step ltac:(apply pure_leak). intros en _.
  step ltac:(apply pure_record). intros r ->%record_Ok.
  apply (commit_then _ (fun x => replaced x (records_ (object s)))); [exact Li|]. exists cur. auto.
Qed.

Lemma remove_written i expected s :
  runs (remove i expected) (written (fun _ => True) expected (fun _ => filter (fun x => id_ x <> i) (records s)) s) s.
Proof.
  apply serialized_runs; [intros e N; apply failed_same, N|exact I|]. intros Li.
  step ltac:(apply pure_check). intros [] ->%check_revision_Ok. step ltac:(apply pure_get). intros cur Cu%get_record_Ok.
  step ltac:(apply pure_self). intros c [= <-]. apply (commit_written _ _ _ Li).
Qed.

Lemma serialized_reads {B} (f : Catalog -> B) s : serialized (c ← self; mret (f c)) s = (reading (fun s => f (object s)) s, s).
Proof.
  unfold serialized, ensure_open, reading, mbind, st_bind, self, mret, st_ret. cbn [is_closed requires_reopen store_api].
  destruct (closed (object s)); [reflexivity|]. destruct (poisoned (object s)); reflexivity.
Qed.

(** The store keeps the promise. *)
#[export] Instance store_laws : CatalogApiLaws Store.
Proof.
  split; try (intros * E; eapply runs_eq; [|exact E]).
  - intros s. exact (serialized_reads (fun c => (revision_ c, records_ c, digest_ c)) s).
  - intros s. exact (serialized_reads (fun c => revision_ c) s).
  - intros i s. cbn [api_read_secret store_api]. unfold read_upstream_secret, serialized.
    apply pure_bind; [apply pure_ensure|]. intros _. apply pure_bind; [apply pure_get|apply pure_secret].
  - apply create_written.
  - apply update_written.
  - apply rotate_written.
  - apply remove_written.
Qed.
End store.
