(* ===== verification/DatasourceService.v ===== *)
(** * DatasourceService: candidate, persistence, publication

    Models [runtime/datasource_service.py]: the coordinator that writes the
    datasources.  A write holds the coordinator's lock from end to end: it
    checks the revision, reserves a candidate in the registry
    ([DatasourceRegistry]), builds and verifies it ([Candidate]), persists the
    record in the catalog ([CatalogApi]) and publishes the new generation or
    withdraws the old one.  What readers see is a sealed view, remade at the
    end of a write, and taken away for good with the right to write when the
    state is no longer known.

    The other threads, sessions coming and going, tests of candidates, the
    shutdown, take their turns where the code calls something, when the body
    of a write has returned and when the view is exchanged ([tick]); there the
    process may also be interrupted.  An interruption between two other
    statements, as between the store's return and the note that it has
    persisted, is left out. *)

From S2P Require Import Prelude Canonical Transformers Json Datasource Destination CatalogFormat CatalogDisk CatalogApi Candidate.
From S2P Require Config CatalogStore DatasourceRegistry DatasourceDrain.
From coqutil Require Import Datatypes.RecordSettersUsingExistingGetters.

Local Open Scope Z_scope.

Abbreviation system := DatasourceDrain.system.
Abbreviation registry_error := DatasourceRegistry.registry_error.

(** ** Errors *)

Inductive service_exn :=
| DatasourceServiceClosedError
| DatasourceServiceBlockedError
| DatasourceRenameError
| DatasourceNotFoundError
| DatasourceAliasConflictError
| DatasourceRevisionConflictError (current_revision : Z)
| DatasourceDisabledError
| DatasourceViewSealError
| CandidateRaised (e : candidate_exn)
| RegistryRaised (e : registry_error)
| StoreRaised (e : catalog_exn)
| CallerRaised
| InvalidCall
| KeyboardInterrupt.

(** What leaves a call: an exception, or nothing any more. *)
Inductive ending := Raises (e : service_exn) | Dead.

(** [CatalogOutcomeUncertainError] and its subclass. *)
Definition is_uncertain (e : service_exn) : bool :=
  match e with DatasourceViewSealError | StoreRaised CatalogOutcomeUncertainError => true | _ => false end.

(** What [except Exception] lets through. *)
Definition is_interrupt (e : service_exn) : bool :=
  match e with KeyboardInterrupt | StoreRaised CatalogFormat.Interrupted | CandidateRaised Candidate.Interrupted => true | _ => false end.

(** ** State *)

Record PublishedIdentity := { pi_alias : pystr; pi_datasource : pystr; pi_generation : nat; pi_revision : Z }.

Record CatalogView := {
  view_revision : Z;
  view_datasources : list DatasourceRecord;
  view_digest : pystr;
  view_published : list PublishedIdentity;
}.

(** [DatasourceWriteProbe]. *)
Record DatasourceWriteProbe := { catalog_revision_before : option Z; catalog_revision_after : option Z }.

Inductive stage := STAGE_NONE | STAGE_PERSISTING | STAGE_PERSISTED.

(** A store, the registry with its sessions, and the coordinator's own state;
    [moment] counts the calls. *)
Record service (S : Type) := {
  store : S;
  runtimes : system;
  moment : nat;
  closed : bool;
  blocked : bool;
  withdrawn : bool;
  the_stage : stage;
  view : option CatalogView;
  write_probe : DatasourceWriteProbe;
}.
Arguments store {S} _.
Arguments runtimes {S} _.
Arguments moment {S} _.
Arguments closed {S} _.
Arguments blocked {S} _.
Arguments withdrawn {S} _.
Arguments the_stage {S} _.
Arguments view {S} _.
Arguments write_probe {S} _.

Definition reg_of {S} (s : service S) : DatasourceRegistry.registry := DatasourceDrain.reg_of (runtimes s).

(** [draft_from_record]. *)
Definition draft_from_record (r : DatasourceRecord) (enabled : option bool) : DatasourceDraft :=
  let d := draft r in
  {| d_alias := d_alias d; d_display_name := d_display_name d; d_host := d_host d; d_port := d_port d;
     d_database := d_database d; d_username := d_username d; d_enabled := default (d_enabled d) enabled;
     d_tls := d_tls d; d_policy := d_policy d; d_limits := d_limits d;
     d_destination_policy := d_destination_policy d; d_resolved_addresses := d_resolved_addresses d |}.

(** [replace(draft, resolved_addresses=...)]. *)
Definition pinned (d : DatasourceDraft) (l : list pystr) : DatasourceDraft := CatalogStore.with_addresses d l.

(** [DraftSource]; a function of the caller's may raise. *)
Inductive DraftSource := Fixed (d : DatasourceDraft) | Derived (f : DatasourceRecord -> option DatasourceDraft).

(** The revision a write expects: of the catalog, or of the datasource. *)
Inductive expectation := OfCatalog (r : Z) | OfDatasource (r : Z).

(** The two optional arguments; exactly one is given. *)
Definition expecting (of_catalog of_datasource : option Z) : option expectation :=
  match of_catalog, of_datasource with
  | Some r, None => Some (OfCatalog r)
  | None, Some r => Some (OfDatasource r)
  | _, _ => None
  end.

(** [_NEW_KEY_PREFIX]. *)
Definition new_key (alias : pystr) : pystr := py "alias:" ++ alias.

Section Service.
Context {S : Type} `{CatalogApi S} {L : PyLib} {D : DatasourceLib} {A : AddressLib}.

(** The collaborators: what [Candidate] takes, the resolver and the verifier
    at each moment, and the equality of two policies. *)
Context (make_conninfo : list (pystr * pystr) -> option pystr)
  (conversion : pyval -> option Config.MaskingFileConfig) (secrets : secret_provider)
  (resolver : nat -> Resolver) (verifier : nat -> PreparedRuntime -> candidate unit)
  (policy_eq : DatasourcePolicy -> DatasourcePolicy -> bool).

(** What the other threads do at a moment, and whether the process is then
    interrupted. *)
Context (others : nat -> service S -> service S) (interrupts : nat -> bool).

Abbreviation op := (st (service S) ending).

Definition raises {B} (e : service_exn) : op B := raise_st (Raises e).
Definition guard (test : bool) (e : service_exn) : op unit := guard_st test (Raises e).
Definition modify (f : service S -> service S) : op unit := fun s => (Ok tt, f s).

(** A moment at which the others run and the process may be interrupted. *)
Definition tick : op unit := fun s =>
  (if interrupts (moment s) then Err (Raises KeyboardInterrupt) else Ok tt,
   (others (moment s) s) <| moment := Datatypes.S (moment s) |>).

Definition now : op nat := s ← get_st; mret (moment s).

(** [try: m except BaseException as e: handler(e); raise]. *)
Definition on_exception {B} (m : op B) (handler : service_exn -> op unit) : op B := fun s =>
  match m s with
  | (Err (Raises e), s) => match handler e s with (Ok _, s) => (Err (Raises e), s) | (Err x, s) => (Err x, s) end
  | result => result
  end.

(** [try: m finally: last]. *)
Definition finally {B} (m : op B) (last : op unit) : op B := fun s =>
  match m s with
  | (Err Dead, s) => (Err Dead, s)
  | (r, s) => match last s with (Ok _, s) => (r, s) | (Err x, s) => (Err x, s) end
  end.

(** ** The collaborators *)

Definition on_store {B} (m : st S stop B) : op B := fun s =>
  match m (store s) with
  | (Ok b, c) => (Ok b, s <| store := c |>)
  | (Err (Raised e), c) => (Err (Raises (StoreRaised e)), s <| store := c |>)
  | (Err Died, c) => (Err Dead, s <| store := c |>)
  end.

(** A critical section of the registry; [f] adds its generation to dispose. *)
Definition on_registry {B C} (m : st DatasourceRegistry.registry registry_error B)
    (f : B -> DatasourceRegistry.registry -> system -> system * C) : op C := fun s =>
  match m (reg_of s) with
  | (Ok b, r) => let '(y, c) := f b r (runtimes s) in (Ok c, s <| runtimes := y |>)
  | (Err e, r) => (Err (Raises (RegistryRaised e)), s <| runtimes := DatasourceDrain.at_registry r (runtimes s) |>)
  end.

Definition simply {B} (b : B) (r : DatasourceRegistry.registry) (y : system) : system * B :=
  (DatasourceDrain.at_registry r y, b).

(** The disposal of the generation a publication or a withdrawal closed, by
    the thread that closed it. *)
Definition dispose (c : option nat) : op unit :=
  match c with
  | None => mret tt
  | Some n =>
      on_registry (DatasourceRegistry.dispose n) (fun _ r y =>
        ({| DatasourceDrain.reg_of := r; DatasourceDrain.closer := DatasourceDrain.closer y;
            DatasourceDrain.to_dispose := remove_first n (DatasourceDrain.to_dispose y) |}, tt))
  end.

(** [CandidateReservation.publish]. *)
Definition publish (v : nat) (r : DatasourceRecord) (p : PreparedRuntime) : op unit :=
  tick;;
  nc ← on_registry (DatasourceRegistry.publish v (id_ r) (d_alias (draft r)) (revision r) (p_max_sessions p))
         (fun nc r y => (DatasourceDrain.disposing nc.2 r y, nc.2));
  dispose nc.

(** [DatasourceRegistry.withdraw]. *)
Definition withdraw (i : pystr) : op unit :=
  c ← on_registry (DatasourceRegistry.withdraw i) (fun bc r y => (DatasourceDrain.disposing bc.2 r y, bc.2));
  dispose c.

(** [with self._registry.reserve(...) as reservation: body]. *)
Definition with_reservation {B} (key : pystr) (datasource : option pystr) (publish : bool) (body : nat -> op B) : op B :=
  tick;;
  v ← on_registry (DatasourceRegistry.reserve key datasource publish) simply;
  finally (body v) (on_registry (DatasourceRegistry.release_reservation v) simply).

(** [_build], [verify_policy]. *)
Definition lift_candidate {B} (m : candidate B) : op B :=
  match m with Ok b => mret b | Err e => raises (CandidateRaised e) end.

Definition build (spec : CandidateSpec) : op PreparedRuntime :=
  tick;;
  n ← now;
  lift_candidate (build_candidate make_conninfo conversion secrets spec (resolver n) (verifier n)).

Definition check_policy (d : DatasourceDraft) : op unit :=
  tick;; lift_candidate (verify_policy conversion secrets (d_policy d) (d_limits d)).

(** ** The seal *)

(** [_block]. *)
Definition block : op unit := modify (fun s => s <| blocked := true |> <| withdrawn := true |> <| view := None |>).

(** [_seal]. *)
Definition seal : op CatalogView :=
  tick;;
  c ← on_store api_snapshot;
  tick;;
  y ← on_registry DatasourceRegistry.status simply;
  mret {| view_revision := c.1.1; view_datasources := c.1.2; view_digest := c.2;
          view_published := map (fun g => {| pi_alias := DatasourceRegistry.s_alias g;
                                             pi_datasource := DatasourceRegistry.s_datasource g;
                                             pi_generation := DatasourceRegistry.s_generation g;
                                             pi_revision := DatasourceRegistry.s_revision g |})
                              (DatasourceRegistry.status_published y) |}.

Definition set_stage (x : stage) : op unit := modify (fun s => s <| the_stage := x |>).

(** [_transition]: what follows the body when it raised, and when it returned. *)
Definition after_failure : op unit :=
  s ← get_st;
  set_stage STAGE_NONE;;
  match the_stage s with
  | STAGE_NONE => mret tt
  | STAGE_PERSISTING => if requires_reopen (store s) then block else mret tt
  | STAGE_PERSISTED => block
  end.

(** [try: view = seal() except Exception: view = None except BaseException: block; raise]. *)
Definition try_seal : op (option CatalogView) := fun s =>
  match seal s with
  | (Ok v, s) => (Ok (Some v), s)
  | (Err (Raises e), s) => if is_interrupt e then (block;; raises e) s else (Ok None, s)
  | (Err Dead, s) => (Err Dead, s)
  end.

Definition reseal : op unit :=
  v ← try_seal;
  match v with
  | None => block;; raises DatasourceViewSealError
  | Some v =>
      tick;;
      s ← get_st;
      if withdrawn s then raises DatasourceViewSealError
      else modify (fun s => s <| view := Some v |>)
  end.

Definition transition {B} (body : op B) : op B :=
  set_stage STAGE_NONE;;
  b ← on_exception body (fun _ => after_failure);
  tick;;
  s ← get_st;
  set_stage STAGE_NONE;;
  match the_stage s with
  | STAGE_NONE => mret b
  | _ => reseal;; mret b
  end.

(** ** Guards *)

(** [_ensure_open]. *)
Definition ensure_open (allow_blocked : bool) : op unit :=
  tick;;
  s ← get_st;
  guard (closed s) DatasourceServiceClosedError;;
  guard (blocked s && negb allow_blocked) DatasourceServiceBlockedError.

Definition get_revision : op Z := tick;; on_store api_revision.

(** [_check_revision]. *)
Definition check_revision (expected : Z) : op unit :=
  current ← get_revision;
  guard (negb (expected =? current)) (DatasourceRevisionConflictError current).

(** [_get]. *)
Definition get (i : pystr) : op DatasourceRecord :=
  tick;;
  c ← on_store api_snapshot;
  match CatalogStore.find_record i c.1.2 with
  | Some r => mret r
  | None => raises DatasourceNotFoundError
  end.

(** [_observe_before] and [_observe_after]; the store's revision is read only
    for a probe. *)
Definition observe_before (probed : bool) (r : Z) : op unit :=
  if probed then modify (fun s => s <| write_probe := {| catalog_revision_before := Some r;
                                                   catalog_revision_after := catalog_revision_after (write_probe s) |} |>)
  else mret tt.

Definition observe_after (probed : bool) : op unit :=
  if probed then
    r ← get_revision;
    modify (fun s => s <| write_probe := {| catalog_revision_before := catalog_revision_before (write_probe s);
                                      catalog_revision_after := Some r |} |>)
  else mret tt.

(** [_guard]. *)
Definition guard_write (i : pystr) (expected : option expectation) (probed : bool) : op Z :=
  match expected with
  | None => raises InvalidCall
  | Some (OfCatalog r) =>
      check_revision r;;
      observe_before probed r;;
      mret r
  | Some (OfDatasource r) =>
      current ← get i;
      guard (negb (revision current =? r)) (DatasourceRevisionConflictError (revision current));;
      c ← get_revision;
      observe_before probed c;;
      mret c
  end.

(** ** Persistence *)

(** [_persist]: it is the store that says whether it can go on. *)
Definition persist {B} (write : op B) : op B :=
  set_stage STAGE_PERSISTING;;
  result ← on_exception (tick;; write) (fun _ => s ← get_st; if requires_reopen (store s) then block else mret tt);
  set_stage STAGE_PERSISTED;;
  mret result.

(** [_persist_withdrawal]. *)
Definition persist_withdrawal {B} (i : pystr) (write : op B) : op B :=
  result ← on_exception (persist write) (fun e => if is_uncertain e then withdraw i else mret tt);
  tick;;
  withdraw i;;
  mret result.

Definition store_create (d : DatasourceDraft) (secret : pystr) (expected : Z) : op DatasourceRecord :=
  n ← now; on_store (api_create d secret expected (resolver n) n).

Definition store_update (i : pystr) (d : DatasourceDraft) (expected : Z) (known : option (list pystr)) : op DatasourceRecord :=
  n ← now;
  on_store (api_update i d expected (match known with Some l => fun _ _ => Some l | None => resolver n end) n).

Definition store_rotate (i secret : pystr) (expected : Z) : op DatasourceRecord :=
  n ← now; on_store (api_rotate_secret i secret expected n).

Definition read_secret (i : pystr) : op pystr := tick;; on_store (api_read_secret i).

(** ** Tests of candidates *)

Definition test_draft (d : DatasourceDraft) (secret : pystr) : op unit :=
  ensure_open true;;
  with_reservation (new_key (d_alias d)) None false (fun _ => build (from_draft d secret);; mret tt).

Definition test_datasource (i : pystr) : op unit :=
  ensure_open true;;
  r ← get i;
  guard (negb (d_enabled (draft r))) DatasourceDisabledError;;
  secret ← read_secret i;
  with_reservation i None false (fun _ => build (from_record r secret);; mret tt).

(** ** Writes, each under the coordinator's lock *)

Definition create (d : DatasourceDraft) (secret : pystr) (expected : Z) (probed : bool) : op DatasourceRecord := transition (
  ensure_open false;;
  check_revision expected;;
  observe_before probed expected;;
  tick;;
  c ← on_store api_snapshot;
  guard (bool_decide (d_alias d ∈ aliases c.1.2)) DatasourceAliasConflictError;;
  if negb (d_enabled d) then
    check_policy d;;
    created ← persist (store_create d secret expected);
    observe_after probed;;
    mret created
  else
    with_reservation (new_key (d_alias d)) None true (fun v =>
      prepared ← build (from_draft d secret);
      r ← persist (store_create (pinned d (p_addresses prepared)) secret expected);
      observe_after probed;;
      publish v r prepared;;
      mret r)).

(** [_update_locked]. *)
Definition update_locked (i : pystr) (d : DatasourceDraft) (expected : Z) : op DatasourceRecord :=
  current ← get i;
  guard (negb (bool_decide (d_alias d = d_alias (draft current)))) DatasourceRenameError;;
  if negb (d_enabled d) then
    (if policy_eq (d_policy d) (d_policy (draft current)) then mret tt else check_policy d);;
    let same_destination := bool_decide (d_host d = d_host (draft current)) && (d_port d =? d_port (draft current)) in
    persist_withdrawal i
      (store_update i d expected (if same_destination then Some (d_resolved_addresses (draft current)) else None))
  else
    secret ← read_secret i;
    with_reservation i (Some i) true (fun v =>
      prepared ← build (from_draft d secret);
      r ← persist (store_update i (pinned d (p_addresses prepared)) expected None);
      publish v r prepared;;
      mret r).

Definition update (i : pystr) (d : DraftSource) (expected : option expectation) (probed : bool) : op DatasourceRecord := transition (
  ensure_open false;;
  rev ← guard_write i expected probed;
  resolved ← match d with
             | Fixed d => mret d
             | Derived f => current ← get i; match f current with Some d => mret d | None => raises CallerRaised end
             end;
  r ← update_locked i resolved rev;
  observe_after probed;;
  mret r).

Definition set_enabled (i : pystr) (enabled : bool) (expected : option expectation) (probed : bool) : op DatasourceRecord := transition (
  ensure_open false;;
  rev ← guard_write i expected probed;
  current ← get i;
  if eqb (d_enabled (draft current)) enabled then
    observe_after probed;;
    mret current
  else
    r ← update_locked i (draft_from_record current (Some enabled)) rev;
    observe_after probed;;
    mret r).

Definition rotate_secret (i secret : pystr) (expected : option expectation) (probed : bool) : op DatasourceRecord := transition (
  ensure_open false;;
  rev ← guard_write i expected probed;
  current ← get i;
  if negb (d_enabled (draft current)) then
    rotated ← persist (store_rotate i secret rev);
    observe_after probed;;
    mret rotated
  else
    with_reservation i (Some i) true (fun v =>
      prepared ← build (from_record current secret);
      r ← persist (store_rotate i secret rev);
      observe_after probed;;
      publish v r prepared;;
      mret r)).

(** [confirm] may refuse the removal. *)
Definition remove (i : pystr) (confirm : DatasourceRecord -> bool) (expected : option expectation) (probed : bool) : op unit := transition (
  ensure_open false;;
  rev ← guard_write i expected probed;
  current ← get i;
  guard (negb (confirm current)) CallerRaised;;
  persist_withdrawal i (on_store (api_remove i rev));;
  observe_after probed).

(** [close], of the coordinator, and [block_unknown]. *)
Definition close_service (s : service S) : service S := s <| closed := true |>.
Definition block_unknown : op unit := block.

(** ** Startup *)

(** One turn of [open_datasource_runtime]'s loop. *)
Definition start_record (r : DatasourceRecord) : op unit :=
  if negb (d_enabled (draft r)) then mret tt
  else
    secret ← read_secret (id_ r);
    with_reservation (id_ r) (Some (id_ r)) true (fun v =>
      prepared ← build (from_record r secret);
      publish v r prepared).

Definition new_service (c : S) (l : DatasourceRegistry.RegistryLimits) : service S :=
  {| store := c; runtimes := DatasourceDrain.initial_system l; moment := 0; closed := false; blocked := false;
     withdrawn := false; the_stage := STAGE_NONE; view := None;
     write_probe := {| catalog_revision_before := None; catalog_revision_after := None |} |}.

(** The flags of a coordinator just constructed, which nobody else knows yet. *)
Definition constructed (v : CatalogView) (s : service S) : service S :=
  s <| closed := false |> <| blocked := false |> <| withdrawn := false |> <| the_stage := STAGE_NONE |> <| view := Some v |>.

(** [open_datasource_runtime], with the store open; what was opened is closed
    again if it raises. *)
Definition open_runtime (c : S) (l : DatasourceRegistry.RegistryLimits) : res ending (service S) :=
  let '(r, s) := (
    snapshot ← on_store api_snapshot;
    iterM_st start_record snapshot.1.2;;
    v ← seal;
    modify (constructed v)) (new_service c l) in
  match r with Ok _ => Ok s | Err e => Err e end.

(** ** The coordinator's calls *)

Inductive call :=
| Create (d : DatasourceDraft) (secret : pystr) (expected : Z) (probed : bool)
| Update (i : pystr) (d : DraftSource) (expected : option expectation) (probed : bool)
| SetEnabled (i : pystr) (enabled : bool) (expected : option expectation) (probed : bool)
| RotateSecret (i secret : pystr) (expected : option expectation) (probed : bool)
| Remove (i : pystr) (confirm : DatasourceRecord -> bool) (expected : option expectation) (probed : bool)
| TestDraft (d : DatasourceDraft) (secret : pystr)
| TestDatasource (i : pystr)
| BlockUnknown
| Close.

Definition run_call (k : call) : op unit :=
  match k with
  | Create d secret expected probed => create d secret expected probed;; mret tt
  | Update i d expected probed => update i d expected probed;; mret tt
  | SetEnabled i enabled expected probed => set_enabled i enabled expected probed;; mret tt
  | RotateSecret i secret expected probed => rotate_secret i secret expected probed;; mret tt
  | Remove i confirm expected probed => remove i confirm expected probed
  | TestDraft d secret => test_draft d secret
  | TestDatasource i => test_datasource i
  | BlockUnknown => block_unknown
  | Close => modify close_service
  end.

(** Whether a write was interrupted after it had changed the catalog, and none
    has returned since: the view may then be outdated. *)
Definition overtaken (before : bool) (s : service S) (r : res ending unit) (s' : service S) : bool :=
  if catalog_revision (store s') =? catalog_revision (store s) then before
  else match r with
       | Ok _ => false
       | Err (Raises KeyboardInterrupt) => true
       | Err _ => before
       end.

(** The states of a coordinator's life, with what [overtaken] says of them:
    [others] and [interrupts] are the schedule of the whole of it, [quiet] what
    the other threads do between two calls. *)
Inductive reached (quiet : service S -> service S -> Prop) (starts : S -> Prop) (l : DatasourceRegistry.RegistryLimits) : bool -> service S -> Prop :=
| reached_open c s : starts c -> open_runtime c l = Ok s -> reached quiet starts l false s
| reached_call b k s r s' : reached quiet starts l b s -> run_call k s = (r, s') -> r <> Err Dead ->
    reached quiet starts l (overtaken b s r s') s'
| reached_quiet b s s' : reached quiet starts l b s -> quiet s s' -> reached quiet starts l b s'.
End Service.
