(* ===== verification/ServiceLaws.v ===== *)
(** * ServiceLaws: the catalog, the runtime and what readers see agree

    The theorems on [DatasourceService], proved for any catalog that keeps the
    promise of [CatalogApi].  A state is kept when the registry serves exactly
    the enabled records of the catalog, each at its revision, unless the
    coordinator is blocked, and a sealed view, if there is one, shows that
    state, or is known to be of an earlier one.  [ends] is the logic of a
    call's runs; [looks] are its steps before it writes, [committed_as] what
    holds once the catalog is written, and [ends_transition] what
    [_transition] makes of either.  Then each operation, the startup and the
    tests are taken through, and at the end stand the theorems on a
    coordinator's whole life, with a concrete one over the store of
    [CatalogCrash], and the runs in which an interruption leaves an outdated
    view ([old_view_stays]). *)

From S2P Require Import Prelude Canonical Transformers Json Datasource Destination CatalogFormat CatalogDisk CatalogApi Candidate.
From S2P Require Import DatasourceService ServiceRegistry.
From S2P Require CatalogCrash CatalogLaws Config CatalogStore DatasourceRegistry DatasourceDrain DatasourceShutdown.
From coqutil Require Import Datatypes.RecordSettersUsingExistingGetters.

Local Open Scope Z_scope.

(** An enabled record of the catalog, as a generation shows it. *)
Definition listed (l : list DatasourceRecord) (a i : pystr) (rev : Z) : Prop :=
  exists x, x ∈ l /\ d_enabled (draft x) = true /\ d_alias (draft x) = a /\ id_ x = i /\ revision x = rev.

(** A registry that serves exactly the enabled records, until it is closed. *)
Definition agree (l : list DatasourceRecord) (y : system) : Prop :=
  DatasourceRegistry.closed (DatasourceDrain.reg_of y) = false ->
  forall a i rev, served (DatasourceDrain.reg_of y) a i rev <-> listed l a i rev.

Definition well_kept (l : list DatasourceRecord) : Prop := NoDup (ids l) /\ NoDup (aliases l).

Lemma listed_perm l l' a i rev : l ≡ₚ l' -> listed l a i rev <-> listed l' a i rev.
Proof. intros P. unfold listed. split; intros (x & Hx & R); exists x; (split; [|exact R]); [rewrite <- P|rewrite P]; exact Hx. Qed.

Lemma agree_perm l l' y : l ≡ₚ l' -> agree l y -> agree l' y.
Proof. intros P Ag C a i rev. rewrite (Ag C a i rev). apply listed_perm, P. Qed.

Lemma well_kept_perm l l' : l ≡ₚ l' -> well_kept l -> well_kept l'.
Proof. intros P [N1 N2]. unfold well_kept, ids, aliases in *. rewrite <- P. auto. Qed.

(** The members of a catalog of distinct names are found by each of them. *)
Lemma same_id l x x' : NoDup (ids l) -> x ∈ l -> x' ∈ l -> id_ x = id_ x' -> x = x'.
Proof.
  intros N Hx Hx' E. apply list_elem_of_lookup in Hx as [j Hj], Hx' as [j' Hj']. unfold ids in N.
  assert (j = j'); [|congruence]. apply (NoDup_lookup _ _ _ (id_ x) N); rewrite list_lookup_fmap; [rewrite Hj|rewrite Hj', E]; reflexivity.
Qed.

Lemma same_alias l x x' : NoDup (aliases l) -> x ∈ l -> x' ∈ l -> d_alias (draft x) = d_alias (draft x') -> x = x'.
Proof.
  intros N Hx Hx' E. apply list_elem_of_lookup in Hx as [j Hj], Hx' as [j' Hj']. unfold aliases in N.
  assert (j = j'); [|congruence]. apply (NoDup_lookup _ _ _ (d_alias (draft x)) N); rewrite list_lookup_fmap; [rewrite Hj|rewrite Hj', E]; reflexivity.
Qed.

Lemma find_record_Some i l x : CatalogStore.find_record i l = Some x -> x ∈ l /\ id_ x = i.
Proof.
  unfold CatalogStore.find_record. destruct (list_find _ l) as [[j y]|] eqn:E; [|discriminate]. intros [= <-].
  apply list_find_Some in E as (E & P & _). split; [exact (list_elem_of_lookup_2 _ _ _ E)|exact P].
Qed.

Section Laws.
Context {S : Type} `{Api : CatalogApi S} {L : PyLib} {D : DatasourceLib} {A : AddressLib} {Laws : CatalogApiLaws S}.
Context (make_conninfo : list (pystr * pystr) -> option pystr)
  (conversion : pyval -> option Config.MaskingFileConfig) (secrets : secret_provider)
  (resolver : nat -> Resolver) (verifier : nat -> PreparedRuntime -> candidate unit)
  (policy_eq : DatasourcePolicy -> DatasourcePolicy -> bool).
Context (others : nat -> service S -> service S) (interrupts : nat -> bool).
Context (lim : DatasourceRegistry.RegistryLimits).

Implicit Types (s : service S).

(** ** The other threads *)

(** They do not write the catalog; in the registry they take steps of their
    own; and one may block the coordinator, or close it. *)
Record quiet (s s' : service S) : Prop := {
  q_store : store s' = store s;
  q_stage : the_stage s' = the_stage s;
  q_moment : (moment s <= moment s')%nat;
  q_steps : rtc background (runtimes s) (runtimes s');
  q_view : (blocked s' = blocked s /\ withdrawn s' = withdrawn s /\ view s' = view s) \/
           (blocked s' = true /\ withdrawn s' = true /\ view s' = None);
}.

Hypothesis Others : forall n s, quiet s (others n s).

(** No id is drawn twice; one is drawn after a moment without interruption. *)
Hypothesis Ids : forall m n, interrupts m = false -> interrupts n = false ->
  new_datasource_id (Datatypes.S m) = new_datasource_id (Datatypes.S n) -> m = n.

(** ** What holds of a state *)

Record sound (s : service S) : Prop := {
  so_system : DatasourceDrain.system_ok lim (runtimes s);
  so_kept : well_kept (records (store s));
  so_blocked : withdrawn s = blocked s;
  so_view : blocked s = true -> view s = None;
  so_seen v : view s = Some v -> view_revision v <= catalog_revision (store s);
  so_passed v : the_stage s = STAGE_PERSISTED -> view s = Some v -> view_revision v < catalog_revision (store s);
  so_fresh x n : x ∈ records (store s) -> (moment s <= n)%nat -> interrupts n = false -> id_ x <> new_datasource_id (Datatypes.S n);
}.

Definition in_step (s : service S) : Prop := blocked s = false -> agree (records (store s)) (runtimes s).

(** A view that shows the catalog, and what is published until the registry
    is closed. *)
Definition shows (v : CatalogView) (s : service S) : Prop :=
  (view_revision v, view_datasources v, view_digest v) = memory (store s) /\
  (DatasourceRegistry.closed (reg_of s) = false -> forall a i n rev,
     {| pi_alias := a; pi_datasource := i; pi_generation := n; pi_revision := rev |} ∈ view_published v <->
     DatasourceRegistry.published (reg_of s) !! a = Some n /\
     exists g, DatasourceRegistry.generations (reg_of s) !! n = Some g /\
       DatasourceRegistry.g_datasource g = i /\ DatasourceRegistry.g_record_revision g = rev).

(** A state whose view, if it can be read, shows it, or is of an earlier
    revision, where [known] says that this may be. *)
Record kept (known : Prop) (s : service S) : Prop := {
  cl_sound : sound s;
  cl_agree : in_step s;
  cl_view v : view s = Some v -> shows v s \/ (known /\ view_revision v < catalog_revision (store s));
}.

Arguments cl_sound {known} s _.
Arguments cl_agree {known} s _.
Arguments cl_view {known} s _.

(** A state with no view. *)
Lemma kept_unseen (p q : Prop) s : kept p s -> view s = None -> kept q s.
Proof. intros [C1 C2 _] V. split; [exact C1|exact C2|congruence]. Qed.

Abbreviation the_create := (create make_conninfo conversion secrets resolver verifier others interrupts).
Abbreviation the_update := (update make_conninfo conversion secrets resolver verifier policy_eq others interrupts).
Abbreviation the_set_enabled := (set_enabled make_conninfo conversion secrets resolver verifier policy_eq others interrupts).
Abbreviation the_rotate := (rotate_secret make_conninfo conversion secrets resolver verifier others interrupts).
Abbreviation the_remove := (remove others interrupts).
Abbreviation run := (run_call make_conninfo conversion secrets resolver verifier policy_eq others interrupts).

Section Calls.
(** What a call starts with: whether its view may be outdated. *)
Context (late : Prop).
Abbreviation clear := (kept late).

Lemma kept_known (p q : Prop) s : (p -> q) -> kept p s -> kept q s.
Proof. intros H [C1 C2 C3]. split; [exact C1|exact C2|]. intros v V. destruct (C3 v V) as [Sh|[K R]]; auto. Qed.

Lemma shows_revision v s : shows v s -> view_revision v = catalog_revision (store s).
Proof. intros [M _]. unfold catalog_revision. rewrite <- M. reflexivity. Qed.

(** The view exchanged for one that shows the state. *)
Lemma kept_shown v s : sound s -> in_step s -> blocked s = false -> the_stage s <> STAGE_PERSISTED -> shows v s -> kept False (s <| view := Some v |>).
Proof.
  intros [C1 C2 C3 C4 Ca Cp Cf] Is B St Sh. split; [split; try assumption|exact Is|].
  - intros B1. change (blocked s = true) in B1. congruence.
  - intros w [= <-]. apply Z.eq_le_incl. exact (shows_revision v s Sh).
  - intros w P. contradiction.
  - intros w [= <-]. left. exact Sh.
Qed.

Definition stable (P : service S -> Prop) : Prop := forall s s', quiet s s' -> P s -> P s'.

Lemma sound_stable : stable sound.
Proof.
  intros s s' [Q1 Q2 Qm Q3 Q4] [S1 S2 S3 S4 Sa Sp S5]. destruct (backgrounds_undisturbed lim _ _ S1 Q3) as [_ O]. split.
  - exact O.
  - rewrite Q1. exact S2.
  - destruct Q4 as [(-> & -> & _)|(-> & -> & _)]; auto.
  - destruct Q4 as [(-> & _ & ->)|(_ & _ & ->)]; auto.
  - intros v. rewrite Q1. destruct Q4 as [(_ & _ & ->)|(_ & _ & ->)]; [auto|discriminate].
  - intros v. rewrite Q1, Q2. destruct Q4 as [(_ & _ & ->)|(_ & _ & ->)]; [auto|discriminate].
  - intros x n. rewrite Q1. intros X N. apply (S5 x n X). lia.
Qed.

Lemma agree_undisturbed l y y' : DatasourceDrain.system_ok lim y -> undisturbed y y' -> agree l y -> agree l y'.
Proof.
  intros O U Ag C a i rev. rewrite (served_undisturbed lim y O y' a i rev U C). apply Ag.
  destruct (DatasourceRegistry.closed (DatasourceDrain.reg_of y)) eqn:E; [|reflexivity]. rewrite (el_closed _ _ U E) in C. discriminate.
Qed.

Lemma shows_undisturbed v s s' : DatasourceDrain.system_ok lim (runtimes s) -> store s' = store s ->
  undisturbed (runtimes s) (runtimes s') -> shows v s -> shows v s'.
Proof.
  intros O E U [M P]. split; [rewrite E; exact M|]. unfold reg_of in *. intros C a i n rev.
  assert (C0 : DatasourceRegistry.closed (DatasourceDrain.reg_of (runtimes s)) = false).
  { destruct (DatasourceRegistry.closed _) eqn:E0; [|reflexivity]. rewrite (el_closed _ _ U E0) in C. discriminate. }
  rewrite (P C0), (el_published _ _ U C). split; intros (Pa & g & G & D1 & R1); (split; [exact Pa|]).
  - destruct (el_generation _ _ U n g G) as (g' & G' & E1 & E2 & E3 & E4). exists g'. repeat split; congruence.
  - destruct (published_generation_of lim _ O a n Pa) as (g0 & G0 & _).
    destruct (el_generation _ _ U n g0 G0) as (g' & G' & E1 & E2 & E3 & E4). exists g0. repeat split; congruence.
Qed.

Lemma kept_stable p : stable (kept p).
Proof.
  intros s s' Q [C1 C2 C3]. pose proof (so_system _ C1) as O. destruct (backgrounds_undisturbed lim _ _ O (q_steps _ _ Q)) as [U _]. split.
  - exact (sound_stable s s' Q C1).
  - intros B. rewrite (q_store _ _ Q). apply (agree_undisturbed _ _ _ O U), C2.
    destruct (q_view _ _ Q) as [(E & _)|(E & _)]; congruence.
  - intros v V. assert (V0 : view s = Some v) by (destruct (q_view _ _ Q) as [(_ & _ & E)|(_ & _ & E)]; congruence).
    rewrite (q_store _ _ Q). destruct (C3 v V0) as [Sh|R]; [left|right; exact R].
    exact (shows_undisturbed v s s' O (q_store _ _ Q) U Sh).
Qed.

(** ** Runs of a call *)

(** [ends m Q X s]: run from [s], [m] returns in [Q] or raises in [X]; the
    dead have no state. *)
Definition ends {B} (m : st (service S) ending B) (Q : B -> service S -> Prop) (X : service_exn -> service S -> Prop)
    (s : service S) : Prop :=
  match m s with
  | (Ok b, s') => Q b s'
  | (Err (Raises e), s') => X e s'
  | (Err Dead, _) => True
  end.

Lemma ends_ret {B} (b : B) Q X s : Q b s -> ends (mret b) Q X s.
Proof. exact id. Qed.

Lemma ends_raise {B} e (Q : B -> _) X s : X e s -> ends (raises e) Q X s.
Proof. exact id. Qed.

Lemma ends_bind {B C} (m : st (service S) ending B) (f : B -> st (service S) ending C) Q X s :
  ends m (fun b => ends (f b) Q X) X s -> ends (m ≫= f) Q X s.
Proof. unfold ends, mbind, st_bind. destruct (m s) as [[b|[e|]] s1]; auto. Qed.

Lemma ends_mono {B} (m : st (service S) ending B) (Q Q' : B -> service S -> Prop) (X X' : service_exn -> service S -> Prop) s :
  ends m Q X s -> (forall b s1, Q b s1 -> Q' b s1) -> (forall e s1, X e s1 -> X' e s1) -> ends m Q' X' s.
Proof. unfold ends. intros H HQ HX. destruct (m s) as [[b|[e|]] s1]; auto. Qed.

Lemma ends_get Q X s : Q s s -> ends get_st Q X s.
Proof. exact id. Qed.

Lemma ends_modify f Q X s : Q tt (f s) -> ends (modify f) Q X s.
Proof. exact id. Qed.

Lemma ends_guard test e Q X s : (test = true -> X e s) -> (test = false -> Q tt s) -> ends (guard test e) Q X s.
Proof. unfold ends, guard, guard_st. destruct test; cbn; auto. Qed.

Lemma ends_exception {B} (m : st (service S) ending B) h Q X s :
  ends m Q (fun e => ends (h e) (fun _ => X e) X) s -> ends (on_exception m h) Q X s.
Proof.
  unfold ends, on_exception. destruct (m s) as [[b|[e|]] s1]; auto. destruct (h e s1) as [[u|[e'|]] s2]; auto.
Qed.

Lemma ends_finally {B} (m : st (service S) ending B) last Q X s :
  ends m (fun b => ends last (fun _ => Q b) X) (fun e => ends last (fun _ => X e) X) s -> ends (finally m last) Q X s.
Proof.
  unfold ends, finally. destruct (m s) as [[b|[e|]] s1]; auto; destruct (last s1) as [[u|[e'|]] s2]; auto.
Qed.

(** A moment, to what no other thread changes. *)
Definition later_moment (s : service S) : service S := (others (moment s) s) <| moment := Datatypes.S (moment s) |>.

Lemma quiet_moment s : quiet s (later_moment s).
Proof. destruct (Others (moment s) s) as [Q1 Q2 Qm Q3 Q4]. split; [exact Q1|exact Q2| |exact Q3|exact Q4]. apply Nat.le_succ_diag_r. Qed.

Lemma ends_tick (P : service S -> Prop) Q (X : service_exn -> service S -> Prop) s : stable P -> P s -> (forall s1, P s1 -> Q tt s1) ->
  (forall s1, P s1 -> X KeyboardInterrupt s1) -> ends (tick others interrupts) Q X s.
Proof.
  intros St H K KX. pose proof (St s _ (quiet_moment s) H) as H1. unfold ends, tick. destruct (interrupts (moment s)); [apply KX|apply K]; exact H1.
Qed.

(** A read of the catalog. *)
Lemma ends_read {B} (m : st S stop B) Q X s : (m (store s)).2 = store s ->
  (forall b, (m (store s)).1 = Ok b -> Q b s) -> (forall e, (m (store s)).1 = Err (Raised e) -> X (StoreRaised e) s) -> ends (on_store m) Q X s.
Proof.
  intros E K KX. unfold ends, on_store. destruct (m (store s)) as [[b|[e|]] c]; cbn in *; subst c.
  - destruct s. apply (K b eq_refl).
  - destruct s. apply (KX e eq_refl).
  - exact I.
Qed.

Lemma snapshot_same c : (api_snapshot c).2 = c.
Proof. rewrite law_snapshot. reflexivity. Qed.

Lemma revision_same c : (api_revision c).2 = c.
Proof. rewrite law_revision. reflexivity. Qed.

Lemma snapshot_Ok c m : (api_snapshot c).1 = Ok m -> m = memory c.
Proof. rewrite law_snapshot. cbn. unfold reading. destruct (is_closed c), (requires_reopen c); congruence. Qed.

Lemma revision_Ok c m : (api_revision c).1 = Ok m -> m = catalog_revision c.
Proof. rewrite law_revision. cbn. unfold reading. destruct (is_closed c), (requires_reopen c); congruence. Qed.

Lemma snapshot_certain c : (api_snapshot c).1 <> Err (Raised CatalogOutcomeUncertainError).
Proof. rewrite law_snapshot. cbn. unfold reading. destruct (is_closed c), (requires_reopen c); discriminate. Qed.

Lemma revision_certain c : (api_revision c).1 <> Err (Raised CatalogOutcomeUncertainError).
Proof. rewrite law_revision. cbn. unfold reading. destruct (is_closed c), (requires_reopen c); discriminate. Qed.

(** ** Before the catalog is written *)

(** A property of the registry that the other threads do not change. *)
Definition framed (F : system -> Prop) : Prop :=
  forall y y', DatasourceDrain.system_ok lim y -> rtc background y y' -> F y -> F y'.

(** Nothing is written yet, and the catalog is the one the call found; [F] is
    what is known of the registry besides. *)
Definition unwritten (c : contents) (F : system -> Prop) (s : service S) : Prop :=
  clear s /\ the_stage s = STAGE_NONE /\ memory (store s) = c /\ F (runtimes s).

(** What a call may leave: a clear state, unless it has written. *)
Definition settled (s : service S) : Prop :=
  match the_stage s with STAGE_PERSISTED => sound s | _ => clear s end.

Lemma unwritten_stable c F : framed F -> stable (unwritten c F).
Proof.
  intros Fr s s' Q (H1 & H2 & H3 & H4). split; [exact (kept_stable late s s' Q H1)|]. split; [rewrite (q_stage _ _ Q); exact H2|].
  split; [rewrite (q_store _ _ Q); exact H3|]. exact (Fr _ _ (so_system _ (cl_sound _ H1)) (q_steps _ _ Q) H4).
Qed.

Lemma unwritten_settled c F s : unwritten c F s -> settled s.
Proof. intros (H1 & H2 & _). unfold settled. rewrite H2. exact H1. Qed.

(** An error of the call before it writes, which is certain. *)
Definition refused (e : service_exn) (s : service S) : Prop := settled s /\ is_uncertain e = false.

(** A step of the call that only looks. *)
Definition looks {B} (m : st (service S) ending B) (V : contents -> B -> Prop) : Prop :=
  forall c F s (Q : B -> service S -> Prop), framed F -> unwritten c F s ->
    (forall b s1, unwritten c F s1 -> V c b -> Q b s1) -> ends m Q refused s.

Lemma looks_bind {B C} (m : st (service S) ending B) (f : B -> st (service S) ending C) V W :
  looks m V -> (forall b, looks (f b) (fun c x => V c b -> W c x)) -> looks (m ≫= f) W.
Proof.
  intros M K c F s Q Fr U H. apply ends_bind, (M c F s _ Fr U). intros b s1 U1 Vb. apply (K b c F s1 Q Fr U1).
  intros x s2 U2 Wx. apply H; auto.
Qed.

Lemma looks_mono {B} (m : st (service S) ending B) (V W : contents -> B -> Prop) : looks m V -> (forall c b, V c b -> W c b) -> looks m W.
Proof. intros M VW c F s Q Fr U K. apply (M c F s Q Fr U). auto. Qed.

Lemma looks_tick : looks (tick others interrupts) (fun _ _ => True).
Proof.
  intros c F s Q Fr U K. apply (ends_tick (unwritten c F)); [apply unwritten_stable, Fr|exact U|auto|].
  intros s1 U1. split; [exact (unwritten_settled _ _ _ U1)|reflexivity].
Qed.

Lemma looks_ret {B} (b : B) : looks (mret b) (fun _ x => x = b).
Proof. intros c F s Q Fr U K. apply ends_ret, K; auto. Qed.

Lemma looks_raise {B} e : is_uncertain e = false -> looks (raises e : st (service S) ending B) (fun _ _ => False).
Proof. intros N c F s Q Fr U K. apply ends_raise. split; [apply (unwritten_settled c F), U|exact N]. Qed.

Lemma looks_guard test e : is_uncertain e = false -> looks (guard test e) (fun _ _ => test = false).
Proof. intros N c F s Q Fr U K. apply ends_guard; [intros _; split; [apply (unwritten_settled c F), U|exact N]|auto]. Qed.

Lemma looks_get : looks get_st (fun c s => memory (store s) = c).
Proof. intros c F s Q Fr U K. apply ends_get, K; [exact U|apply U]. Qed.

Lemma looks_probe f : (forall s, (f s) = s <| write_probe := write_probe (f s) |>) -> looks (modify f) (fun _ _ => True).
Proof.
  intros E c F s Q Fr (C & St & M & H) K. apply ends_modify, K; [|exact I]. rewrite (E s). destruct C as [[] C5 C6].
  split; [split; [split; assumption|exact C5|exact C6]|auto].
Qed.

Lemma looks_read {B} (m : st S stop B) (V : contents -> B -> Prop) : (forall c, (m c).2 = c) ->
  (forall c, (m c).1 <> Err (Raised CatalogOutcomeUncertainError)) -> (forall c b, (m c).1 = Ok b -> V (memory c) b) -> looks (on_store m) V.
Proof.
  intros Sm Ce H c F s Q Fr U K. apply ends_read; [apply Sm|..].
  - intros b E. apply K; [exact U|]. destruct U as (_ & _ & <- & _). exact (H _ b E).
  - intros e E. split; [exact (unwritten_settled _ _ _ U)|]. specialize (Ce (store s)). destruct e; try reflexivity. congruence.
Qed.

Lemma looks_snapshot : looks (on_store api_snapshot) (fun c m => m = c).
Proof. apply looks_read; [apply snapshot_same|apply snapshot_certain|apply snapshot_Ok]. Qed.

Lemma looks_revision : looks (on_store api_revision) (fun c m => m = c.1.1).
Proof. apply looks_read; [apply revision_same|apply revision_certain|apply revision_Ok]. Qed.

Lemma looks_secret i : looks (on_store (api_read_secret i)) (fun _ _ => True).
Proof. apply looks_read; [intros c; apply law_secret|intros c; apply law_secret|auto]. Qed.

Lemma looks_candidate {B} (m : candidate B) : looks (lift_candidate m) (fun _ b => m = Ok b).
Proof.
  destruct m as [b|e]; [apply (looks_mono _ _ _ (looks_ret b)); congruence|].
  apply (looks_mono _ _ _ (looks_raise (CandidateRaised e) eq_refl)). contradiction.
Qed.

Abbreviation the_open := (ensure_open others interrupts).
Abbreviation the_get := (get others interrupts).

Lemma looks_open b : looks (the_open b) (fun _ _ => True).
Proof.
  eapply looks_bind; [apply looks_tick|]. intros ?. eapply looks_bind; [apply looks_get|]. intros s.
  eapply looks_bind; [apply looks_guard; reflexivity|]. intros ?. eapply looks_mono; [apply looks_guard; reflexivity|]. auto.
Qed.

Lemma looks_get_revision : looks (get_revision others interrupts) (fun c r => r = c.1.1).
Proof. eapply looks_bind; [apply looks_tick|]. intros ?. eapply looks_mono; [apply looks_revision|]. auto. Qed.

Lemma looks_check_revision r : looks (check_revision others interrupts r) (fun c _ => r = c.1.1).
Proof.
  eapply looks_bind; [apply looks_get_revision|]. intros x. eapply looks_mono; [apply looks_guard; reflexivity|].
  intros c _ E ->. apply negb_false_iff, Z.eqb_eq in E. exact E.
Qed.

Lemma looks_find i : looks (the_get i) (fun c r => CatalogStore.find_record i c.1.2 = Some r).
Proof.
  eapply looks_bind; [apply looks_tick|]. intros ?. eapply looks_bind; [apply looks_snapshot|]. intros m.
  destruct (CatalogStore.find_record i m.1.2) as [r|] eqn:E.
  - eapply looks_mono; [apply looks_ret|]. intros c0 x0 -> <- _. exact E.
  - eapply looks_mono; [apply looks_raise; reflexivity|]. contradiction.
Qed.

Lemma looks_before probed r : looks (observe_before probed r) (fun _ _ => True).
Proof. destruct probed; [apply looks_probe; reflexivity|eapply looks_mono; [apply looks_ret|auto]]. Qed.

(** The revision a write expects, of the catalog or of the datasource, is the
    present one. *)
Definition met (i : pystr) (e : option expectation) (c : contents) : Prop :=
  match e with
  | None => False
  | Some (OfCatalog r) => r = c.1.1
  | Some (OfDatasource r) => exists x, CatalogStore.find_record i c.1.2 = Some x /\ revision x = r
  end.

Lemma looks_guard_write i e probed : looks (guard_write others interrupts i e probed) (fun c r => r = c.1.1 /\ met i e c).
Proof.
  destruct e as [[r|r]|]; [| |eapply looks_mono; [apply looks_raise; reflexivity|contradiction]].
  - eapply looks_bind; [apply looks_check_revision|]. intros []. eapply looks_bind; [apply looks_before|]. intros ?.
    eapply looks_mono; [apply looks_ret|]. intros c0 x0 -> _ E. split; exact E.
  - eapply looks_bind; [apply looks_find|]. intros x. eapply looks_bind; [apply looks_guard; reflexivity|]. intros ?.
    eapply looks_bind; [apply looks_get_revision|]. intros y. eapply looks_bind; [apply looks_before|]. intros ?.
    eapply looks_mono; [apply looks_ret|]. intros c0 x0 -> _ E N Fi. split; [exact E|]. exists x. split; [exact Fi|].
    apply negb_false_iff, Z.eqb_eq in N. exact N.
Qed.

Lemma looks_policy d : looks (check_policy conversion secrets others interrupts d) (fun _ _ => True).
Proof. eapply looks_bind; [apply looks_tick|]. intros ?. eapply looks_mono; [apply looks_candidate|]. auto. Qed.

Lemma looks_read_secret i : looks (read_secret others interrupts i) (fun _ _ => True).
Proof. eapply looks_bind; [apply looks_tick|]. intros ?. eapply looks_mono; [apply looks_secret|]. auto. Qed.

Abbreviation the_build := (build make_conninfo conversion secrets resolver verifier others interrupts).

Lemma looks_now : looks now (fun _ _ => True).
Proof. eapply looks_bind; [apply looks_get|]. intros s. eapply looks_mono; [apply looks_ret|]. auto. Qed.

(** ** The catalog written *)

(** What the write of a catalog [l] leaves in the store. *)
Definition applied (c : contents) (l : list DatasourceRecord) (s : service S) : Prop :=
  the_stage s = STAGE_PERSISTED /\ catalog_revision (store s) = c.1.1 + 1 /\ records (store s) ≡ₚ l.

(** The catalog is written, as [l], and the registry still serves the one the
    call found. *)
Definition committed_as (c : contents) (l : list DatasourceRecord) (F : system -> Prop) (s : service S) : Prop :=
  sound s /\ applied c l s /\ (blocked s = false -> agree c.1.2 (runtimes s)) /\ F (runtimes s).

(** A write that failed: the catalog in memory is as it was; the coordinator
    is blocked if the store is no longer usable, and so if the outcome is
    uncertain. *)
Definition unsaved (c : contents) (e : service_exn) (s : service S) : Prop :=
  clear s /\ the_stage s = STAGE_PERSISTING /\ memory (store s) = c /\ (is_uncertain e = true -> blocked s = true).

Lemma unsaved_settled c e s : unsaved c e s -> settled s.
Proof. intros (C & St & _). unfold settled. rewrite St. exact C. Qed.

Lemma committed_settled c l F s : committed_as c l F s -> settled s.
Proof. intros (C & (St & _) & _). unfold settled. rewrite St. exact C. Qed.

Lemma applied_stable c l : stable (applied c l).
Proof. intros s s' Q. unfold applied. rewrite (q_stage _ _ Q), (q_store _ _ Q). exact id. Qed.

Lemma committed_stable c l F : framed F -> stable (committed_as c l F).
Proof.
  intros Fr s s' Q (H1 & H2 & H3 & H4). pose proof (so_system _ H1) as O.
  destruct (backgrounds_undisturbed lim _ _ O (q_steps _ _ Q)) as [U _].
  split; [exact (sound_stable s s' Q H1)|]. split; [exact (applied_stable c l s s' Q H2)|].
  split; [|exact (Fr _ _ O (q_steps _ _ Q) H4)].
  intros B. apply (agree_undisturbed _ _ _ O U), H3. destruct (q_view _ _ Q) as [(E & _)|(E & _)]; congruence.
Qed.

Lemma sound_stage x s : x <> STAGE_PERSISTED -> sound s -> sound (s <| the_stage := x |>).
Proof. intros N []. split; try assumption. intros v P. contradiction. Qed.

Lemma kept_stage p x s : x <> STAGE_PERSISTED -> kept p s -> kept p (s <| the_stage := x |>).
Proof. intros N [C1 C2 C3]. split; [exact (sound_stage x s N C1)|exact C2|exact C3]. Qed.

(** A store that kept its memory. *)
Lemma clear_store c' s : clear s -> memory c' = memory (store s) -> clear (s <| store := c' |>).
Proof.
  intros [[C1 C2 C3 C4 Ca Cp Cf] C5 C6] M. assert (R : records c' = records (store s)) by (unfold records; rewrite M; reflexivity).
  assert (Rv : catalog_revision c' = catalog_revision (store s)) by (unfold catalog_revision; rewrite M; reflexivity).
  split; [split; cbn [store runtimes withdrawn blocked view the_stage]; auto|..].
  - change (well_kept (records c')). rewrite R. exact C2.
  - intros v V. change (view_revision v <= catalog_revision c'). rewrite Rv. exact (Ca v V).
  - intros v P V. change (view_revision v < catalog_revision c'). rewrite Rv. exact (Cp v P V).
  - intros x n. change (x ∈ records c' -> (moment s <= n)%nat -> interrupts n = false -> id_ x <> new_datasource_id (Datatypes.S n)).
    rewrite R. apply Cf.
  - unfold in_step in *. change (blocked s = false -> agree (records c') (runtimes s)). rewrite R. exact C5.
  - intros v V. change (store (s <| store := c' |>)) with c'. rewrite Rv. destruct (C6 v V) as [[V1 V2]|Lt]; [left|right; exact Lt].
    split; [|exact V2]. change ((view_revision v, view_datasources v, view_digest v) = memory c'). rewrite M. exact V1.
Qed.

Lemma clear_block p s : sound s -> kept p (s <| blocked := true |> <| withdrawn := true |> <| view := None |>).
Proof. intros []. split; [split; auto; discriminate|discriminate|discriminate]. Qed.

(** The moments of a write before the store answers. *)
Definition writing (c : contents) (F : system -> Prop) (s : service S) : Prop :=
  clear s /\ the_stage s = STAGE_PERSISTING /\ memory (store s) = c /\ F (runtimes s).

Lemma writing_stable c F : framed F -> stable (writing c F).
Proof.
  intros Fr s s' Q (H1 & H2 & H3 & H4). split; [exact (kept_stable late s s' Q H1)|]. split; [rewrite (q_stage _ _ Q); exact H2|].
  split; [rewrite (q_store _ _ Q); exact H3|]. exact (Fr _ _ (so_system _ (cl_sound _ H1)) (q_steps _ _ Q) H4).
Qed.

(** What [_persist] does when the write raised. *)
Lemma ends_unsaved c F e s (X : service_exn -> service S -> Prop) : writing c F s ->
  (is_uncertain e = true -> requires_reopen (store s) = true) -> (forall s1, unsaved c e s1 -> X e s1) ->
  ends (s ← get_st; if requires_reopen (store s) then block else mret tt) (fun _ => X e) X s.
Proof.
  intros (C & St & M & _) U K. apply ends_bind, ends_get. destruct (requires_reopen (store s)) eqn:R.
  - apply ends_modify, K. split; [apply clear_block, C|]. auto.
  - apply ends_ret, K. split; [exact C|]. split; [exact St|]. split; [exact M|]. intros E. discriminate (U E).
Qed.

(** A moment without interruption has passed, and its id, as the later ones,
    is not in the catalog. *)
Definition drawing (c : contents) (s : service S) : Prop := exists m, moment s = Datatypes.S m /\ interrupts m = false /\
  forall n, (m <= n)%nat -> interrupts n = false -> new_datasource_id (Datatypes.S n) ∉ ids c.1.2.

Lemma ends_tick_writing c F s Q X : framed F -> writing c F s -> (forall s1, writing c F s1 -> drawing c s1 -> Q tt s1) ->
  (forall s1, writing c F s1 -> X KeyboardInterrupt s1) -> ends (tick others interrupts) Q X s.
Proof.
  intros Fr W K KX. pose proof (writing_stable c F Fr s _ (quiet_moment s) W) as W1.
  unfold ends, tick. change ((others (moment s) s) <| moment := Datatypes.S (moment s) |>) with (later_moment s).
  destruct (interrupts (moment s)) eqn:E; [apply KX, W1|apply K; [exact W1|]]. exists (moment s). split; [reflexivity|]. split; [exact E|].
  destruct W as (C & _ & M & _). intros n N Nn (x & I & X1)%list_elem_of_fmap.
  apply (so_fresh _ (cl_sound _ C) x n); [unfold records; rewrite M; exact X1|exact N|exact Nn|congruence].
Qed.

(** The catalog that a write makes: its ids were there, or are just drawn. *)
Definition renewed (n : nat) (old l : list DatasourceRecord) : Prop :=
  well_kept l /\ forall x, x ∈ l -> id_ x ∈ ids old \/ id_ x = new_datasource_id n.

Lemma fresh_renewed c l s s1 : renewed (moment s) c.1.2 l -> drawing c s -> records (store s1) ≡ₚ l -> moment s1 = moment s ->
  forall x n, x ∈ records (store s1) -> (moment s1 <= n)%nat -> interrupts n = false -> id_ x <> new_datasource_id (Datatypes.S n).
Proof.
  intros [_ R] (m & M & Im & U) P E x n X N Nn I. rewrite P in X. destruct (R x X) as [H|H].
  - apply (U n); [lia|exact Nn|]. rewrite <- I. exact H.
  - rewrite H, M in I. apply Ids in I; [lia|exact Im|exact Nn].
Qed.

(** A write of the catalog's interface, run by [_persist]. *)
Lemma ends_persist {B} (w : nat -> st S stop B) (P : nat -> B -> Prop) (expected : Z) l c F s (Q : B -> service S -> Prop) X :
  framed F -> unwritten c F s ->
  (forall n c0 r c1, memory c0 = c -> w n c0 = (r, c1) -> written (P n) expected l c0 r c1) ->
  (forall n b, P n b -> new_datasource_id n ∉ ids c.1.2 -> renewed n c.1.2 (l b)) ->
  (forall n b s1, P n b -> expected = c.1.1 -> committed_as c (l b) F s1 -> Q b s1) ->
  (forall e s1, unsaved c e s1 -> X e s1) ->
  ends (persist others interrupts (n ← now; on_store (w n))) Q X s.
Proof.
  intros Fr (C & St & M & H) W K Post KX. apply ends_bind, ends_modify, ends_bind, ends_exception.
  assert (Wr : writing c F (s <| the_stage := STAGE_PERSISTING |>)) by (split; [apply kept_stage; [discriminate|apply C]|auto]).
  apply ends_bind, (ends_tick_writing c F); [exact Fr|exact Wr| |].
  2:{ intros s1 W1. apply (ends_unsaved c F); [exact W1|discriminate|apply KX]. }
  clear s C St M H Wr. intros s W1 U. apply ends_bind, ends_bind, ends_get, ends_ret. destruct W1 as (C & St & M & H).
  unfold ends, on_store. destruct (w (moment s) (store s)) as [r c1] eqn:E. specialize (W _ _ _ _ M E).
  destruct r as [b|[e|]]; [| |exact I].
  - destruct W as [Pb [_ _ Ex Rv Rc]]. assert (Er : catalog_revision (store s) = c.1.1) by (unfold catalog_revision; rewrite M; reflexivity).
    assert (El : records (store s) = c.1.2) by (unfold records; rewrite M; reflexivity). rewrite Er in Ex, Rv.
    assert (N : new_datasource_id (moment s) ∉ ids c.1.2) by (destruct U as (m & -> & Im & U); exact (U m (Nat.le_refl _) Im)).
    specialize (K _ b Pb N).
    apply ends_bind, ends_modify, ends_ret, (Post (moment s) b); [exact Pb|exact Ex|]. destruct C as [[C1 C2 C3 C4 Ca Cp Cf] C5 C6].
    assert (Ov : forall v, view s = Some v -> view_revision v < catalog_revision c1) by (intros v V; specialize (Ca v V); lia).
    split; [|split; [split; [reflexivity|split; [exact Rv|exact Rc]]|split; [|exact H]]].
    + split; [exact C1| |exact C3|exact C4|intros v V; apply Z.lt_le_incl, Ov, V|intros v _; apply Ov|apply (fresh_renewed c (l b) s); [exact K|exact U|exact Rc|reflexivity]].
      apply (well_kept_perm (l b)); [symmetry; exact Rc|apply K].
    + intros Bl. rewrite <- El. exact (C5 Bl).
  - destruct W as [F1 F2 F3 F4]. apply (ends_unsaved c F).
    + split; [apply clear_store; [exact C|rewrite F1; reflexivity]|]. split; [exact St|]. split; [|exact H]. change (memory c1 = c). congruence.
    + intros Un. apply F4. destruct e; try discriminate Un. reflexivity.
    + apply KX.
Qed.

(** ** The registry's critical sections *)

Lemma ends_registry {B C} (m : st DatasourceRegistry.registry registry_error B) (f : B -> DatasourceRegistry.registry -> system -> system * C)
    (Q : C -> service S -> Prop) X s :
  (forall b r, m (reg_of s) = (Ok b, r) -> Q (f b r (runtimes s)).2 (s <| runtimes := (f b r (runtimes s)).1 |>)) ->
  (forall e r, m (reg_of s) = (Err e, r) -> X (RegistryRaised e) (s <| runtimes := DatasourceDrain.at_registry r (runtimes s) |>)) ->
  ends (on_registry m f) Q X s.
Proof.
  intros K KX. unfold ends, on_registry. destruct (m (reg_of s)) as [[b|e] r]; [|apply KX; reflexivity].
  specialize (K b r eq_refl). destruct (f b r (runtimes s)). exact K.
Qed.

(** Preserved by what leaves the served generations as they are. *)
Definition calm (P : service S -> Prop) : Prop := forall s y,
  DatasourceDrain.system_ok lim (runtimes s) -> DatasourceDrain.system_ok lim y -> undisturbed (runtimes s) y -> P s -> P (s <| runtimes := y |>).

Lemma calm_sound : calm sound.
Proof. intros s y _ O _ []. split; assumption. Qed.

Lemma calm_clear : calm clear.
Proof.
  intros s y O O' U [C1 C2 C3]. split; [exact (calm_sound s y O O' U C1)|..].
  - intros B. apply (agree_undisturbed _ _ _ O U), C2, B.
  - intros v V. destruct (C3 v V) as [Sh|R]; [left|right; exact R].
    apply (shows_undisturbed v s); [exact O|reflexivity|exact U|exact Sh].
Qed.

Lemma calm_settled : calm settled.
Proof. intros s y O O' U. unfold settled. change (the_stage (s <| runtimes := y |>)) with (the_stage s). destruct (the_stage s); intros H; [exact (calm_clear s y O O' U H)|exact (calm_clear s y O O' U H)|exact (calm_sound s y O O' U H)]. Qed.

Lemma settled_sound s : settled s -> sound s.
Proof. unfold settled. destruct (the_stage s); [apply cl_sound|apply cl_sound|exact id]. Qed.

Lemma same_runtimes s : s <| runtimes := DatasourceDrain.at_registry (reg_of s) (runtimes s) |> = s.
Proof. destruct s as [c [r k d]]. reflexivity. Qed.

Lemma undisturbed_same y r : DatasourceRegistry.closed r = DatasourceRegistry.closed (DatasourceDrain.reg_of y) ->
  DatasourceRegistry.published r = DatasourceRegistry.published (DatasourceDrain.reg_of y) ->
  DatasourceRegistry.generations r = DatasourceRegistry.generations (DatasourceDrain.reg_of y) ->
  undisturbed y (DatasourceDrain.at_registry r y).
Proof.
  intros E1 E2 E3. split; cbn [DatasourceDrain.reg_of DatasourceDrain.at_registry]; [congruence|auto|].
  intros n g G. exists g. rewrite E3. split; [exact G|repeat split].
Qed.

Lemma undisturbed_disposed y n r : DatasourceRegistry.dispose n (DatasourceDrain.reg_of y) = (Ok tt, r) -> forall d,
  undisturbed y {| DatasourceDrain.reg_of := r; DatasourceDrain.closer := DatasourceDrain.closer y; DatasourceDrain.to_dispose := d |}.
Proof.
  unfold DatasourceRegistry.dispose, DatasourceRegistry.the_generation, mbind, st_bind.
  destruct (DatasourceRegistry.generations (DatasourceDrain.reg_of y) !! n) as [g|] eqn:G; [|discriminate].
  intros [= <-] d. split; [auto|auto|]. intros m h H. cbn [DatasourceDrain.reg_of].
  change (DatasourceRegistry.generations (DatasourceRegistry.set_generation n ?h ?r)) with (<[n := h]> (DatasourceRegistry.generations r)).
  destruct (decide (m = n)) as [->|Ne].
  - rewrite lookup_insert_eq. eexists. split; [reflexivity|]. replace h with g by congruence. repeat split.
  - rewrite lookup_insert_ne by congruence. exists h. split; [exact H|repeat split].
Qed.

Lemma ends_dispose c (P : service S -> Prop) (Q : unit -> service S -> Prop) (X : service_exn -> service S -> Prop) s : calm P ->
  DatasourceDrain.system_ok lim (runtimes s) -> (forall n, c = Some n -> exists l, DatasourceDrain.to_dispose (runtimes s) = n :: l) -> P s ->
  (forall s1, P s1 -> Q tt s1) -> (forall e s1, P s1 -> X e s1) -> ends (dispose c) Q X s.
Proof.
  intros Ca O Dq H K KX. destruct c as [n|]; [|apply ends_ret, K, H]. destruct (Dq n eq_refl) as (l & E). apply ends_registry.
  - intros [] r R. cbn [fst snd]. apply K, Ca; [exact O| |exact (undisturbed_disposed _ _ _ R _)|exact H].
    rewrite E. cbn [remove_first]. rewrite Nat.eqb_refl. exact (DatasourceDrain.ok_dispose lim (runtimes s) n [] l r O E R).
  - intros e r R. apply KX. replace r with (reg_of s); [rewrite same_runtimes; exact H|]. revert R.
    unfold DatasourceRegistry.dispose, DatasourceRegistry.the_generation, mbind, st_bind.
    destruct (DatasourceRegistry.generations (reg_of s) !! n); [discriminate|]. intros [= _ <-]. reflexivity.
Qed.

(** A release, which may find nothing to release. *)
Lemma ends_release v (P : service S -> Prop) (Q : unit -> service S -> Prop) (X : service_exn -> service S -> Prop) s : calm P ->
  DatasourceDrain.system_ok lim (runtimes s) -> P s -> (forall s1, P s1 -> Q tt s1) -> (forall e s1, P s1 -> X e s1) ->
  ends (on_registry (DatasourceRegistry.release_reservation v) simply) Q X s.
Proof.
  intros Ca O H K KX. destruct (DatasourceRegistry.reservations (reg_of s) !! v) as [x|] eqn:V.
  - pose proof (DatasourceRegistry.release_reservation_run v x (reg_of s) V) as R. apply ends_registry; [|rewrite R; discriminate].
    intros [] r E. cbn [fst snd simply]. apply K, Ca; [exact O|exact (DatasourceDrain.ok_release_reservation lim _ v x r O V E)| |exact H].
    rewrite R in E. injection E as <-. unfold DatasourceRegistry.unreserved.
    apply undisturbed_same; destruct (DatasourceRegistry.v_released x); try reflexivity; destruct (DatasourceRegistry.v_slot x); reflexivity.
  - assert (R : DatasourceRegistry.release_reservation v (reg_of s) = (Err DatasourceRegistry.KeyError, reg_of s)).
    { unfold DatasourceRegistry.release_reservation, DatasourceRegistry.the_reservation, mbind, st_bind. rewrite V. reflexivity. }
    apply ends_registry; rewrite R; [discriminate|]. intros e r [= <- <-]. rewrite same_runtimes. apply KX, H.
Qed.

(** A reservation to publish: the generation it will retire has a slot. *)
Definition holds_slot (j : option pystr) (v : nat) (y : system) : Prop :=
  exists x, DatasourceRegistry.reservations (DatasourceDrain.reg_of y) !! v = Some x /\ DatasourceRegistry.v_publish x = true /\ DatasourceRegistry.v_released x = false /\
    (DatasourceRegistry.v_slot x = false -> forall i, j = Some i -> forall a rev, ~ served (DatasourceDrain.reg_of y) a i rev).

Lemma framed_slot (w : bool) j v : framed (fun y => w = true -> holds_slot j v y).
Proof.
  intros y y' O R H W. destruct (H W) as (x & V & P & Rl & Sl). destruct (backgrounds_undisturbed lim _ _ O R) as [U O'].
  pose proof (proj1 (backgrounds_reservations _ _ R v x P) V) as V'. exists x. split; [exact V'|]. split; [exact P|]. split; [exact Rl|].
  intros E i J a rev. rewrite (served_undisturbed lim y O y' a i rev U); [exact (Sl E i J a rev)|].
  exact (reserved_open lim y' O' v x V' Rl).
Qed.

Lemma framed_true : framed (fun _ => True).
Proof. intros y y' _ _ _. exact I. Qed.

Lemma unwritten_calm c (F F' : system -> Prop) s y : unwritten c F s -> DatasourceDrain.system_ok lim y -> undisturbed (runtimes s) y -> F' y ->
  unwritten c F' (s <| runtimes := y |>).
Proof.
  intros (H1 & H2 & H3 & _) O U H. split; [exact (calm_clear s y (so_system _ (cl_sound _ H1)) O U H1)|].
  split; [exact H2|]. split; [exact H3|exact H].
Qed.

(** [with self._registry.reserve(...)]. *)
Lemma ends_reserved {B} key j w (body : nat -> st (service S) ending B) c s (Q : B -> service S -> Prop) :
  (forall b, calm (Q b)) -> (forall b s1, Q b s1 -> settled s1) -> unwritten c (fun _ => True) s ->
  (forall v s1, unwritten c (fun y => w = true -> holds_slot j v y) s1 -> ends (body v) Q (fun _ => settled) s1) ->
  ends (with_reservation others interrupts key j w body) Q (fun _ => settled) s.
Proof.
  intros Ca Fin U K. apply ends_bind. refine (ends_mono _ _ _ _ _ _ (looks_tick c (fun _ => True) s _ framed_true U (fun _ s1 U1 _ => U1)) _ (fun e s1 H => proj1 H)).
  clear s U. intros [] s1 U1.
  pose proof (so_system _ (cl_sound _ (proj1 U1))) as O. apply ends_bind, ends_registry.
  2:{ intros e r R. apply DatasourceShutdown.reserve_Err in R as [-> _]. rewrite same_runtimes. exact (unwritten_settled _ _ _ U1). }
  intros v r R. cbn [fst snd simply]. pose proof (DatasourceDrain.ok_reserve lim _ _ _ _ _ _ O R) as O'.
  destruct (reserve_slot (runtimes s1) _ _ _ _ _ R) as (x & E & V & Pb & Rl & Sl). apply ends_finally.
  set (s2 := s1 <| runtimes := DatasourceDrain.at_registry r (runtimes s1) |>).
  assert (U2 : unwritten c (fun y => w = true -> holds_slot j v y) s2).
  { apply (unwritten_calm c (fun _ => True)); [exact U1|exact O'|apply undisturbed_same; rewrite E; unfold DatasourceRegistry.reserved; destruct (DatasourceRegistry.v_slot x); reflexivity|].
    intros ->. exists x. split; [exact V|]. split; [exact Pb|]. split; [exact Rl|]. intros Sx i Ej a rev (n & g & P & G & Di & _).
    cbn [DatasourceDrain.reg_of DatasourceDrain.at_registry] in P, G. rewrite E in P, G. specialize (Sl eq_refl i Ej Sx).
    assert (P0 : DatasourceRegistry.published (reg_of s1) !! a = Some n) by (revert P; unfold DatasourceRegistry.reserved; rewrite Sx; exact id).
    assert (G0 : DatasourceRegistry.generations (reg_of s1) !! n = Some g) by (revert G; unfold DatasourceRegistry.reserved; rewrite Sx; exact id).
    exact (DatasourceRegistry.published_for_None _ _ Sl _ _ _ P0 G0 Di). }
  apply (ends_mono _ Q _ (fun _ => settled)); [exact (K v s2 U2)| |].
  - intros b s3 H3. apply (ends_release v (Q b)); [apply Ca|apply so_system, settled_sound, (Fin b), H3|exact H3|auto|]. intros _ s4. apply Fin.
  - intros _ s3 H3. apply (ends_release v settled); [apply calm_settled|apply so_system, settled_sound, H3|exact H3|auto|auto].
Qed.

(** ** Publication and withdrawal *)

(** What a call that wrote may leave when it returns. *)
Definition finished (s : service S) : Prop := settled s /\ in_step s.

Lemma calm_finished : calm finished.
Proof.
  intros s y O O' U [H I]. split; [exact (calm_settled s y O O' U H)|]. intros B. apply (agree_undisturbed _ _ _ O U), I, B.
Qed.

Lemma clear_finished s : clear s -> the_stage s <> STAGE_PERSISTED -> finished s.
Proof. intros C N. split; [unfold settled; destruct (the_stage s); [exact C|exact C|contradiction]|apply C]. Qed.

Lemma committed_finished c l F s : committed_as c l F s -> (forall a i rev, listed l a i rev <-> listed c.1.2 a i rev) -> finished s.
Proof.
  intros C N. split; [exact (committed_settled _ _ _ _ C)|]. destruct C as (_ & (_ & _ & P) & Ag & _). intros B Cl a i rev.
  rewrite (Ag B Cl), <- N. apply listed_perm. symmetry. exact P.
Qed.

(** The records after one is put in, for a datasource that had none or whose
    alias stays. *)
Definition puts (old new : list DatasourceRecord) (a i : pystr) (rev : Z) : Prop :=
  (forall a' i' rev', listed old a' i' rev' -> (a' = a <-> i' = i)) /\
  forall a' i' rev', listed new a' i' rev' <-> (a' = a /\ i' = i /\ rev' = rev) \/ (a' <> a /\ listed old a' i' rev').

Lemma agree_put lim' old new y v i a rev limit n c r : DatasourceDrain.system_ok lim' y -> agree old y -> puts old new a i rev ->
  DatasourceRegistry.publish v i a rev limit (DatasourceDrain.reg_of y) = (Ok (n, c), r) -> agree new (DatasourceDrain.disposing c r y).
Proof.
  intros O Ag (_ & New) H _ a' i' rev'. destruct (publish_open _ _ _ _ _ _ _ _ _ H) as [Cl _].
  change (DatasourceDrain.reg_of (DatasourceDrain.disposing c r y)) with r.
  rewrite (publish_serves lim' y O v i a rev limit n c r H), New. rewrite (Ag Cl). reflexivity.
Qed.

Lemma ends_publish v r p c new j (Q : unit -> service S -> Prop) s : committed_as c new (holds_slot j v) s ->
  puts c.1.2 new (d_alias (draft r)) (id_ r) (revision r) -> (forall s1, finished s1 -> applied c new s1 -> Q tt s1) ->
  ends (publish others interrupts v r p) Q (fun _ => settled) s.
Proof.
  intros C P K. apply ends_bind, (ends_tick (committed_as c new (holds_slot j v))).
  1:{ apply committed_stable. intros y y' O R H. exact (framed_slot true j v y y' O R (fun _ => H) eq_refl). }
  1: exact C.
  2:{ intros s1. apply committed_settled. }
  clear s C. intros s C. pose proof (committed_settled _ _ _ _ C) as St. destruct C as (So & Ap & Ag & H).
  pose proof (so_system _ So) as O. apply ends_bind, ends_registry.
  2:{ intros e r' R. destruct H as (x & V & _). apply (DatasourceShutdown.publish_Err lim _ v x _ _ _ _ _ _ O V) in R as [-> _].
      change (DatasourceDrain.reg_of (runtimes s)) with (reg_of s). rewrite same_runtimes. exact St. }
  intros [n cl] r' R. cbn [fst snd]. set (s1 := s <| runtimes := DatasourceDrain.disposing cl r' (runtimes s) |>).
  pose proof (DatasourceDrain.ok_publish lim _ _ _ _ _ _ _ _ _ O R) as O'.
  assert (So1 : sound s1) by (destruct So; split; assumption).
  assert (F1 : finished s1 /\ applied c new s1).
  { split; [split|exact Ap]; [unfold settled; change (the_stage s1) with (the_stage s); rewrite (proj1 Ap); exact So1|].
    intros B. apply (agree_perm new); [symmetry; apply Ap|]. exact (agree_put lim _ _ _ _ _ _ _ _ _ _ _ O (Ag B) P R). }
  apply (ends_dispose cl (fun s => finished s /\ applied c new s)).
  - intros s2 y O2 O3 U [F2 G2]. split; [exact (calm_finished s2 y O2 O3 U F2)|exact G2].
  - exact O'.
  - intros m ->. exists (DatasourceDrain.to_dispose (runtimes s)). reflexivity.
  - exact F1.
  - intros s2 [F2 G2]. exact (K s2 F2 G2).
  - intros e s2 [[F2 _] _]. exact F2.
Qed.

(** The registry without a datasource's generation. *)
Definition without (i : pystr) (y y1 : system) : Prop := DatasourceRegistry.closed (DatasourceDrain.reg_of y1) = false ->
  DatasourceRegistry.closed (DatasourceDrain.reg_of y) = false /\
  forall a' i' rev', served (DatasourceDrain.reg_of y1) a' i' rev' <-> i' <> i /\ served (DatasourceDrain.reg_of y) a' i' rev'.

Lemma without_undisturbed i y y1 y2 : DatasourceDrain.system_ok lim y1 -> undisturbed y1 y2 -> without i y y1 -> without i y y2.
Proof.
  intros O U W C. assert (C1 : DatasourceRegistry.closed (DatasourceDrain.reg_of y1) = false).
  { destruct (DatasourceRegistry.closed (DatasourceDrain.reg_of y1)) eqn:E; [|reflexivity]. rewrite (el_closed _ _ U E) in C. discriminate. }
  destruct (W C1) as [C0 Sv]. split; [exact C0|]. intros a' i' rev'. rewrite (served_undisturbed lim y1 O y2 _ _ _ U C). apply Sv.
Qed.

Definition withdrew (i : pystr) (s s1 : service S) : Prop := exists y, s1 = s <| runtimes := y |> /\
  DatasourceDrain.system_ok lim y /\ without i (runtimes s) y.

(** A withdrawal is never refused; only its disposal may be, after it. *)
Lemma ends_withdraw i (Q : unit -> service S -> Prop) (X : service_exn -> service S -> Prop) s : sound s ->
  (forall s1, withdrew i s s1 -> Q tt s1) -> (forall e s1, withdrew i s s1 -> X e s1) -> ends (withdraw i) Q X s.
Proof.
  intros So K KX. pose proof (so_system _ So) as O. destruct (withdraw_serves lim _ O i) as (b & c & r & R & O' & Cl & Sv).
  apply ends_bind, ends_registry; [|change (reg_of s) with (DatasourceDrain.reg_of (runtimes s)); rewrite R; discriminate].
  intros bc r1 R1. change (DatasourceRegistry.withdraw i (DatasourceDrain.reg_of (runtimes s)) = (Ok bc, r1)) in R1.
  rewrite R in R1. injection R1 as <- <-. cbn [fst snd].
  apply (ends_dispose c (withdrew i s)); [|exact O'|intros m ->; eexists; reflexivity| |auto|auto].
  - intros s2 y O2 O3 U (y2 & -> & _ & W). exists y. split; [destruct s; reflexivity|]. split; [exact O3|].
    exact (without_undisturbed i (runtimes s) y2 y O2 U W).
  - eexists. split; [reflexivity|]. split; [exact O'|]. intros C. split; [|exact Sv].
    change (DatasourceRegistry.closed r = false) in C. rewrite <- Cl. exact C.
Qed.

(** Once its records are no longer listed, a withdrawal brings the registry in
    step. *)
Lemma agree_without old new i y y1 : agree old y -> without i y y1 ->
  (forall a' i' rev', listed new a' i' rev' <-> i' <> i /\ listed old a' i' rev') -> agree new y1.
Proof. intros Ag W N C a' i' rev'. destruct (W C) as [C0 Sv]. rewrite Sv, N, (Ag C0). reflexivity. Qed.

(** A datasource that is served no more, unless the registry is closed. *)
Definition gone (i : pystr) (y : system) : Prop :=
  DatasourceRegistry.closed (DatasourceDrain.reg_of y) = false -> forall a rev, ~ served (DatasourceDrain.reg_of y) a i rev.

Lemma gone_without i y y1 : without i y y1 -> gone i y1.
Proof. intros W C a rev H. apply (proj2 (W C)) in H as [N _]. contradiction. Qed.

Lemma framed_gone i : framed (gone i).
Proof.
  intros y y' O R G C a rev. destruct (backgrounds_undisturbed lim _ _ O R) as [U _].
  rewrite (served_undisturbed lim _ O _ _ _ _ U C). apply G. revert C.
  destruct (DatasourceRegistry.closed (DatasourceDrain.reg_of y)) eqn:E; [|auto]. rewrite (el_closed _ _ U E). discriminate.
Qed.

(** ** The seal and the transition *)

Lemma in_step_stable s s' : sound s -> quiet s s' -> in_step s -> in_step s'.
Proof.
  intros So Q I B. destruct (backgrounds_undisturbed lim _ _ (so_system _ So) (q_steps _ _ Q)) as [U _]. rewrite (q_store _ _ Q).
  apply (agree_undisturbed _ _ _ (so_system _ So) U), I. destruct (q_view _ _ Q) as [(E & _)|(E & _)]; congruence.
Qed.

(** What the other threads do not change of a sound state. *)
Definition persistent (G : service S -> Prop) : Prop := forall s s', sound s -> quiet s s' -> G s -> G s'.

Lemma persistent_framed F : framed F -> persistent (fun s => F (runtimes s)).
Proof. intros Fr s s' So Q. exact (Fr _ _ (so_system _ So) (q_steps _ _ Q)). Qed.

(** A state to seal: the view may be outdated. *)
Definition sealable (c : contents) (G : service S -> Prop) (s : service S) : Prop :=
  sound s /\ in_step s /\ memory (store s) = c /\ G s.

Lemma sealable_stable c G : persistent G -> stable (sealable c G).
Proof.
  intros Pe s s' Q (So & I & M & H). split; [exact (sound_stable s s' Q So)|]. split; [exact (in_step_stable s s' So Q I)|].
  split; [rewrite (q_store _ _ Q); exact M|exact (Pe s s' So Q H)].
Qed.

(** What is known of a coordinator that seals after a write: of the registry,
    [F]; and the view it has may be of the revision before. *)
Definition written_over (F : system -> Prop) (s : service S) : Prop := the_stage s = STAGE_NONE /\ kept True s /\ F (runtimes s).

Lemma persistent_over F : framed F -> persistent (written_over F).
Proof.
  intros Fr s s' So Q (St & Ke & H). split; [rewrite (q_stage _ _ Q); exact St|]. split; [exact (kept_stable True s s' Q Ke)|exact (persistent_framed F Fr s s' So Q H)].
Qed.

Lemma shows_stable v s s' : sound s -> quiet s s' -> shows v s -> shows v s'.
Proof.
  intros So Q. destruct (backgrounds_undisturbed lim _ _ (so_system _ So) (q_steps _ _ Q)) as [U _].
  apply shows_undisturbed; [apply So|apply (q_store _ _ Q)|exact U].
Qed.

Lemma status_shows c s z : memory (store s) = c ->
  (forall a i n rev, (exists k, {| DatasourceRegistry.s_alias := a; DatasourceRegistry.s_datasource := i; DatasourceRegistry.s_generation := n;
      DatasourceRegistry.s_revision := rev; DatasourceRegistry.s_sessions := k |} ∈ DatasourceRegistry.status_published z) <->
    DatasourceRegistry.published (reg_of s) !! a = Some n /\ exists g, DatasourceRegistry.generations (reg_of s) !! n = Some g /\
      DatasourceRegistry.g_datasource g = i /\ DatasourceRegistry.g_record_revision g = rev) ->
  shows {| view_revision := c.1.1; view_datasources := c.1.2; view_digest := c.2;
           view_published := map (fun g => {| pi_alias := DatasourceRegistry.s_alias g; pi_datasource := DatasourceRegistry.s_datasource g;
             pi_generation := DatasourceRegistry.s_generation g; pi_revision := DatasourceRegistry.s_revision g |})
             (DatasourceRegistry.status_published z) |} s.
Proof.
  intros M H. split; [rewrite M; destruct c as [[] ?]; reflexivity|]. intros _ a i n rev. rewrite <- H. cbn [view_published].
  rewrite list_elem_of_fmap. split.
  - intros ([a1 i1 n1 r1 k] & [= -> -> -> ->] & E). exists k. exact E.
  - intros (k & E). eexists. split; [|exact E]. reflexivity.
Qed.

Abbreviation the_seal := (seal others interrupts).

Lemma ends_seal c G (Q : CatalogView -> service S -> Prop) (X : service_exn -> service S -> Prop) s : persistent G -> sealable c G s ->
  (forall v s1, sealable c G s1 -> shows v s1 -> Q v s1) -> (forall e s1, sealable c G s1 -> X e s1) -> ends the_seal Q X s.
Proof.
  intros Pe H K KX. pose proof (sealable_stable c G Pe) as Sb. apply ends_bind, (ends_tick (sealable c G)); [exact Sb|exact H| |intros s1; apply KX].
  clear s H. intros s H. apply ends_bind, ends_read; [apply snapshot_same| |intros e _; apply KX, H]. intros m E%snapshot_Ok.
  rewrite (proj1 (proj2 (proj2 H))) in E. subst m.
  apply ends_bind, (ends_tick (sealable c G)); [exact Sb|exact H| |intros s1; apply KX]. clear s H. intros s H.
  destruct (status_reads lim (runtimes s) (so_system _ (proj1 H))) as (z & R & Z). apply ends_bind, ends_registry.
  2:{ change (reg_of s) with (DatasourceDrain.reg_of (runtimes s)). rewrite R. discriminate. }
  intros z' r R'. change (reg_of s) with (DatasourceDrain.reg_of (runtimes s)) in R'. rewrite R in R'. injection R' as <- <-. cbn [fst snd simply].
  change (DatasourceDrain.reg_of (runtimes s)) with (reg_of s). rewrite same_runtimes. apply ends_ret, K; [exact H|].
  apply status_shows; [apply H|exact Z].
Qed.

(** What a call that wrote leaves when it raises: a clear state, except where
    the exchange of the view was interrupted. *)
Definition leaves (c : contents) (e : service_exn) (s : service S) : Prop :=
  clear s \/ (e = KeyboardInterrupt /\ kept True s /\ catalog_revision (store s) <> c.1.1).

Lemma finished_stable s s' : finished s -> quiet s s' -> finished s'.
Proof.
  intros [St Is] Q. split; [|exact (in_step_stable s s' (settled_sound s St) Q Is)]. unfold settled in *. rewrite (q_stage _ _ Q).
  destruct (the_stage s); [exact (kept_stable late s s' Q St)|exact (kept_stable late s s' Q St)|exact (sound_stable s s' Q St)].
Qed.

Lemma finished_kept s : finished s -> kept True s.
Proof.
  intros [St Is]. unfold settled in St. destruct (the_stage s) eqn:E; [apply (kept_known late); auto|apply (kept_known late); auto|].
  split; [exact St|exact Is|]. intros v V. right. split; [exact I|exact (so_passed _ St v E V)].
Qed.

Abbreviation resealing c F := (sealable c (written_over F)).

Lemma finished_resealing F s : finished s -> F (runtimes s) -> resealing (memory (store s)) F (s <| the_stage := STAGE_NONE |>).
Proof.
  intros Fi H. pose proof (finished_kept s Fi) as Ke. split; [apply sound_stage; [discriminate|apply Ke]|]. split; [apply Fi|].
  split; [reflexivity|]. split; [reflexivity|]. split; [apply kept_stage; [discriminate|exact Ke]|exact H].
Qed.

(** The seal a call that wrote tries to make. *)
Lemma ends_try_seal c F (X : service_exn -> service S -> Prop) s : framed F -> resealing c F s ->
  (forall e s1, clear s1 -> F (runtimes s1) -> X e s1) ->
  ends (try_seal others interrupts) (fun v s1 => resealing c F s1 /\ forall w, v = Some w -> shows w s1) X s.
Proof.
  intros Fr H KX. assert (R : ends the_seal (fun v s1 => resealing c F s1 /\ shows v s1) (fun _ => resealing c F) s)
    by (apply (ends_seal c (written_over F)); [apply persistent_over, Fr|exact H|auto|auto]).
  unfold ends, try_seal in *. destruct (the_seal s) as [[v|[e|]] s1]; [| |exact I].
  - destruct R as [R V]. split; [exact R|]. intros w [= <-]. exact V.
  - destruct (is_interrupt e); [|split; [exact R|discriminate]].
    apply (ends_bind (block : st (service S) ending unit) (fun _ => raises e : st (service S) ending unit) (fun _ _ => True) X s1).
    apply ends_modify, ends_raise, KX; [apply clear_block, R|apply R].
Qed.

(** A call that wrote ends with a new seal, or blocked, or interrupted between
    the two. *)
Lemma ends_reseal c F (Q : unit -> service S -> Prop) (X : service_exn -> service S -> Prop) s : framed F -> resealing c F s ->
  (forall s1, kept False s1 -> memory (store s1) = c -> F (runtimes s1) -> blocked s1 = false /\ (exists v, view s1 = Some v) -> Q tt s1) ->
  (forall e s1, clear s1 -> F (runtimes s1) -> X e s1) ->
  (forall s1, resealing c F s1 -> X KeyboardInterrupt s1) -> ends (reseal others interrupts) Q X s.
Proof.
  intros Fr H K KX KI. apply ends_bind. refine (ends_mono _ _ _ _ _ _ (ends_try_seal c F X s Fr H KX) _ (fun _ _ Hx => Hx)).
  clear s H. intros [v|] s [H V].
  - apply ends_bind, (ends_tick (fun s1 => resealing c F s1 /\ shows v s1)); [|split; [exact H|exact (V v eq_refl)]| |intros s1 [H1 _]; exact (KI s1 H1)].
    { intros s1 s2 Qs [H1 V1]. split; [|exact (shows_stable v s1 s2 (proj1 H1) Qs V1)].
      exact (sealable_stable c _ (persistent_over F Fr) s1 s2 Qs H1). }
    clear s H V. intros s [(So & Is & M & St & Ke & Hf) V]. apply ends_bind, ends_get. destruct (withdrawn s) eqn:W; rewrite (so_blocked _ So) in W.
    + apply ends_raise, KX; [|exact Hf]. apply (kept_unseen True); [exact Ke|exact (so_view _ So W)].
    + apply ends_modify, K; [|exact M|exact Hf|split; [exact W|exists v; reflexivity]]. exact (kept_shown v s So Is W ltac:(congruence) V).
  - apply ends_bind, ends_modify, ends_raise, KX; [apply clear_block, H|apply H].
Qed.

(** What follows a body that raised. *)
Lemma ends_after_failure (Xb : service_exn -> system -> Prop) (X : service_exn -> service S -> Prop) e s : settled s -> Xb e (runtimes s) ->
  (forall s1, clear s1 -> Xb e (runtimes s1) -> X e s1) -> ends after_failure (fun _ => X e) X s.
Proof.
  intros St H K. apply ends_bind, ends_get, ends_bind, ends_modify. unfold settled in St. destruct (the_stage s).
  - apply ends_ret, K; [apply kept_stage; [discriminate|apply St]|exact H].
  - destruct (requires_reopen (store s)).
    + apply ends_modify, K; [apply clear_block, sound_stage; [discriminate|apply St]|exact H].
    + apply ends_ret, K; [apply kept_stage; [discriminate|apply St]|exact H].
  - apply ends_modify, K; [apply clear_block, sound_stage; [discriminate|apply St]|exact H].
Qed.

(** [_transition]: [F] is known of the registry when the body has written and
    returns, [Xb] when it raises. *)
Lemma ends_transition {B} (body : st (service S) ending B) s F (Xb : service_exn -> system -> Prop) (P : B -> service S -> Prop)
    (Q : B -> service S -> Prop) (X : service_exn -> service S -> Prop) : framed F -> clear s ->
  (forall s1, unwritten (memory (store s)) (fun _ => True) s1 ->
     ends body (fun b s2 => finished s2 /\ P b s2 /\ (the_stage s2 <> STAGE_NONE -> F (runtimes s2)))
       (fun e s2 => settled s2 /\ Xb e (runtimes s2)) s1) ->
  (forall b, stable (P b)) -> (forall b s1, P b s1 -> the_stage s1 <> STAGE_NONE -> catalog_revision (store s1) <> catalog_revision (store s)) ->
  (forall b s1 s2, P b s1 -> memory (store s2) = memory (store s1) ->
     (the_stage s1 = STAGE_NONE /\ clear s2) \/
     (the_stage s1 <> STAGE_NONE /\ kept False s2 /\ blocked s2 = false /\ exists v, view s2 = Some v) -> Q b s2) ->
  (forall e s1, leaves (memory (store s)) e s1 -> Xb e (runtimes s1) \/ F (runtimes s1) \/ e = KeyboardInterrupt -> X e s1) ->
  ends (transition others interrupts body) Q X s.
Proof.
  intros Fr C Bd Ps Pr K KX. apply ends_bind, ends_modify, ends_bind, ends_exception.
  assert (U : unwritten (memory (store s)) (fun _ => True) (s <| the_stage := STAGE_NONE |>)) by (split; [apply kept_stage; [discriminate|apply C]|auto]).
  refine (ends_mono _ _ _ _ _ _ (Bd _ U) _ _); clear C Bd U.
  - intros b s1 ([St Is] & Pb & Hf).
    pose (R := fun s2 => finished s2 /\ P b s2 /\ (the_stage s2 <> STAGE_NONE -> F (runtimes s2))).
    apply ends_bind, (ends_tick R).
    + intros s2 s3 Q3 (F2 & P2 & H2). split; [exact (finished_stable s2 s3 F2 Q3)|]. split; [exact (Ps b s2 s3 Q3 P2)|].
      rewrite (q_stage _ _ Q3). intros N. apply (persistent_framed F Fr s2 s3); [apply settled_sound, F2|exact Q3|exact (H2 N)].
    + split; [split; assumption|split; assumption].
    + clear s1 St Is Pb Hf. intros s1 (Fi & Pb & Hf). apply ends_bind, ends_get, ends_bind, ends_modify.
      destruct (the_stage s1) eqn:E.
      1:{ apply ends_ret, (K b s1); [exact Pb|reflexivity|left]. split; [exact E|]. apply kept_stage; [discriminate|].
          destruct Fi as [St _]. unfold settled in St. rewrite E in St. exact St. }
      all: apply ends_bind, (ends_reseal (memory (store s1)) F); [exact Fr|apply (finished_resealing F s1 Fi); apply Hf; discriminate| | |].
      all: try (intros s2 C2 M2 H2 V2; apply ends_ret, (K b s1); [exact Pb|exact M2|right; split; [congruence|auto]]).
      all: try (intros e s2 C2 H2; apply KX; [left; exact C2|auto]).
      all: intros s2 (_ & _ & M2 & _ & Ke & H2); apply KX; [right|auto]; split; [reflexivity|]; split; [exact Ke|].
      all: unfold catalog_revision; rewrite M2; apply (Pr b); [exact Pb|congruence].
    + intros s2 (F2 & P2 & H2). apply KX; [|auto]. destruct (the_stage s2) eqn:E.
      1,2: left; destruct F2 as [St2 _]; unfold settled in St2; rewrite E in St2; exact St2.
      right. split; [reflexivity|]. split; [exact (finished_kept s2 F2)|]. apply (Pr b); [exact P2|congruence].
  - intros e s1 [St H]. apply (ends_after_failure Xb); [exact St|exact H|]. intros s2 C2 H2. apply KX; [left; exact C2|auto].
Qed.

(** ** The catalogs that the writes make *)

Lemma well_kept_added l x : well_kept l -> id_ x ∉ ids l -> d_alias (draft x) ∉ aliases l -> well_kept (l ++ [x]).
Proof.
  intros [N1 N2] I J. unfold well_kept, ids, aliases in *. rewrite !map_app. cbn [map].
  split; apply NoDup_app; (split; [assumption|split; [|apply NoDup_singleton]]); intros y Y ->%list_elem_of_singleton; contradiction.
Qed.

Lemma listed_added l x a i rev : listed (l ++ [x]) a i rev <->
  listed l a i rev \/ (d_enabled (draft x) = true /\ d_alias (draft x) = a /\ id_ x = i /\ revision x = rev).
Proof.
  unfold listed. setoid_rewrite elem_of_app. setoid_rewrite list_elem_of_singleton. split.
  - intros (y & [Y| ->] & H); [left; eauto|right; exact H].
  - intros [(y & Y & H)|H]; eauto.
Qed.

Lemma listed_names l a i rev : listed l a i rev -> a ∈ aliases l /\ i ∈ ids l.
Proof. intros (x & X & _ & <- & <- & _). split; apply list_elem_of_fmap; eauto. Qed.

Lemma puts_added l x : id_ x ∉ ids l -> d_alias (draft x) ∉ aliases l -> d_enabled (draft x) = true ->
  puts l (l ++ [x]) (d_alias (draft x)) (id_ x) (revision x).
Proof.
  intros I J E. split.
  - intros a i rev [Ha Hi]%listed_names. split; intros ->; contradiction.
  - intros a i rev. rewrite listed_added. split.
    + intros [H|(_ & <- & <- & <-)]; [right|left; auto]. split; [|exact H]. intros ->. apply J, (listed_names _ _ _ _ H).
    + intros [(-> & -> & ->)|[_ H]]; auto.
Qed.

Lemma elem_of_replaced x l y : y ∈ CatalogStore.replaced x l <-> (y = x /\ id_ x ∈ ids l) \/ (y ∈ l /\ id_ y <> id_ x).
Proof.
  unfold CatalogStore.replaced, ids. rewrite list_elem_of_fmap. setoid_rewrite list_elem_of_fmap. split.
  - intros (z & -> & Z). destruct (bool_decide_reflect (id_ z = id_ x)) as [E|N]; [left|right; auto]. split; [reflexivity|]. eauto.
  - intros [(-> & z & E & Z)|[Y N]].
    + exists z. rewrite bool_decide_true by congruence. auto.
    + exists y. rewrite bool_decide_false by exact N. auto.
Qed.

Section replacement.
Context (l : list DatasourceRecord) (x current : DatasourceRecord).
Hypothesis W : well_kept l.
Hypothesis I : current ∈ l.
Hypothesis E : id_ x = id_ current.

Lemma id_replaced : id_ x ∈ ids l.
Proof. rewrite E. apply list_elem_of_fmap. eauto. Qed.

Lemma ids_replaced : ids (CatalogStore.replaced x l) = ids l.
Proof.
  unfold ids, CatalogStore.replaced. rewrite map_map. apply map_ext. intros y. destruct (bool_decide_reflect (id_ y = id_ x)); congruence.
Qed.

Lemma aliases_replaced : d_alias (draft x) = d_alias (draft current) -> aliases (CatalogStore.replaced x l) = aliases l.
Proof.
  intros Al. unfold aliases, CatalogStore.replaced. rewrite map_map. apply map_ext_in. intros y Y%list_elem_of_In.
  destruct (bool_decide_reflect (id_ y = id_ x)) as [N|N]; [|reflexivity].
  replace y with current by (symmetry; apply (same_id l); [apply W|exact Y|exact I|congruence]). exact Al.
Qed.

Lemma renewed_replaced n : d_alias (draft x) = d_alias (draft current) -> renewed n l (CatalogStore.replaced x l).
Proof.
  intros Al. split.
  - unfold well_kept. rewrite ids_replaced, aliases_replaced by exact Al. exact W.
  - intros y Y. left. rewrite <- ids_replaced. apply list_elem_of_fmap. eauto.
Qed.

(** Where the record is enabled, it is the one listed. *)
Lemma puts_replaced : d_alias (draft x) = d_alias (draft current) -> d_enabled (draft x) = true ->
  puts l (CatalogStore.replaced x l) (d_alias (draft x)) (id_ x) (revision x).
Proof.
  intros Al En. assert (T : forall y, y ∈ l -> d_alias (draft y) = d_alias (draft x) <-> id_ y = id_ x).
  { intros y Y. rewrite Al, E. split; intros H; [rewrite (same_alias l y current)|rewrite (same_id l y current)]; auto; apply W. }
  split.
  - intros a i rev (y & Y & _ & <- & <- & _). apply T, Y.
  - intros a i rev. split.
    + intros (y & [[-> _]|[Y N]]%elem_of_replaced & H); [left; intuition congruence|right]. split; [|exists y; auto].
      destruct H as (_ & <- & _). rewrite T by exact Y. exact N.
    + intros [(-> & -> & ->)|[N (y & Y & H)]].
      * exists x. split; [apply elem_of_replaced; left; split; [reflexivity|exact id_replaced]|auto].
      * exists y. split; [|exact H]. apply elem_of_replaced. right. split; [exact Y|]. rewrite <- T by exact Y. destruct H as (_ & <- & _). exact N.
Qed.

(** Where it is not, the datasource is no longer listed. *)
Lemma listed_replaced a i rev : d_enabled (draft x) = false ->
  listed (CatalogStore.replaced x l) a i rev <-> i <> id_ x /\ listed l a i rev.
Proof.
  intros Di. split.
  - intros (y & [[-> _]|[Y N]]%elem_of_replaced & H); [destruct H; congruence|]. destruct H as (En & Ha & <- & Hr). split; [exact N|].
    exists y. auto.
  - intros [N (y & Y & En & Ha & <- & Hr)]. exists y. split; [apply elem_of_replaced; right; auto|auto].
Qed.

Lemma listed_rotated a i rev : d_enabled (draft x) = false -> d_enabled (draft current) = false ->
  listed (CatalogStore.replaced x l) a i rev <-> listed l a i rev.
Proof.
  intros Dx Dc. rewrite listed_replaced by exact Dx. split; [tauto|]. intros H. split; [|exact H]. intros ->.
  destruct H as (y & Y & En & _ & Ey & _). rewrite (same_id l y current) in En; [congruence|apply W|exact Y|exact I|congruence].
Qed.
End replacement.

Lemma sublist_map {B C} (f : B -> C) (l1 l2 : list B) : l1 `sublist_of` l2 -> map f l1 `sublist_of` map f l2.
Proof. induction 1; cbn; constructor; assumption. Qed.

Lemma renewed_removed n i l : well_kept l -> renewed n l (filter (fun x => id_ x <> i) l).
Proof.
  intros [N1 N2]. assert (Sb : filter (fun x => id_ x <> i) l `sublist_of` l) by apply sublist_filter. split.
  - split; [apply (sublist_NoDup _ _ N1)|apply (sublist_NoDup _ _ N2)]; apply sublist_map, Sb.
  - intros x [_ X]%list_elem_of_filter. left. apply list_elem_of_fmap. eauto.
Qed.

Lemma listed_removed l i a i' rev : listed (filter (fun x => id_ x <> i) l) a i' rev <-> i' <> i /\ listed l a i' rev.
Proof.
  unfold listed. setoid_rewrite list_elem_of_filter. split.
  - intros (x & [N X] & En & Ha & <- & Hr). eauto 10.
  - intros [N (x & X & En & Ha & <- & Hr)]. eauto 10.
Qed.

(** ** The writes *)

Lemma ends_after probed (P : service S -> Prop) (Q : unit -> service S -> Prop) (X : service_exn -> service S -> Prop) s : stable P ->
  (forall s1 p, P s1 -> P (s1 <| write_probe := p |>)) -> P s -> (forall s1, P s1 -> Q tt s1) -> (forall e s1, P s1 -> X e s1) ->
  ends (observe_after others interrupts probed) Q X s.
Proof.
  intros St Pr H K KX. destruct probed; [|apply ends_ret, K, H]. apply ends_bind, ends_bind, (ends_tick P); [exact St|exact H| |intros s1; apply KX].
  intros s1 H1. apply ends_read; [apply revision_same| |intros e _; apply KX, H1]. intros r _. apply ends_modify, K, Pr, H1.
Qed.

Lemma unwritten_kept c F s : unwritten c F s -> well_kept c.1.2.
Proof. intros (C & _ & <- & _). exact (so_kept _ (cl_sound _ C)). Qed.

Lemma memory_records c c0 : memory c0 = c -> records c0 = c.1.2.
Proof. intros <-. reflexivity. Qed.

Lemma ends_write_create d secret expected c F s (Q : DatasourceRecord -> service S -> Prop) X : framed F -> unwritten c F s ->
  (forall x s1, drawn_from d x -> revision x = 1 -> id_ x ∉ ids c.1.2 -> d_alias d ∉ aliases c.1.2 -> expected = c.1.1 ->
     committed_as c (c.1.2 ++ [x]) F s1 -> Q x s1) ->
  (forall e s1, unsaved c e s1 -> X e s1) ->
  ends (persist others interrupts (store_create resolver d secret expected)) Q X s.
Proof.
  intros Fr U K KX. apply (ends_persist (fun n => api_create d secret expected (resolver n) n)
    (fun n x => drawn_from d x /\ revision x = 1 /\ id_ x = new_datasource_id n /\ d_alias d ∉ aliases c.1.2) expected (fun x => c.1.2 ++ [x]) c F);
    [exact Fr|exact U| | | |exact KX].
  - intros n c0 r c1 M W%law_create. rewrite (memory_records c c0 M) in W. exact W.
  - intros n x ([Dr] & _ & I & Al) N. split.
    + apply well_kept_added; [apply (unwritten_kept _ _ _ U)|congruence|]. rewrite Dr. exact Al.
    + intros y [Y|Y%list_elem_of_singleton]%elem_of_app; [left; apply list_elem_of_fmap; eauto|right; congruence].
  - intros n x s1 (Dr & Rv & I & Al) Ex C. apply K; auto. destruct C as (So & (_ & _ & P) & _). pose proof (so_kept _ So) as [N _].
    unfold ids in N. rewrite P, map_app in N. apply NoDup_app in N as (_ & N & _). intros H. apply (N _ H). left.
Qed.

Lemma ends_write_update i d expected addresses current c F s (Q : DatasourceRecord -> service S -> Prop) X : framed F -> unwritten c F s ->
  CatalogStore.find_record i c.1.2 = Some current -> d_alias d = d_alias (draft current) ->
  (forall x s1, drawn_from d x -> id_ x = id_ current -> revision x = revision current + 1 -> expected = c.1.1 ->
     committed_as c (CatalogStore.replaced x c.1.2) F s1 -> Q x s1) ->
  (forall e s1, unsaved c e s1 -> X e s1) ->
  ends (persist others interrupts (store_update resolver i d expected addresses)) Q X s.
Proof.
  intros Fr U Fi Al K KX.
  apply (ends_persist (fun n => api_update i d expected (match addresses with Some l => fun _ _ => Some l | None => resolver n end) n)
    (fun _ x => drawn_from d x /\ id_ x = id_ current /\ revision x = revision current + 1) expected (fun x => CatalogStore.replaced x c.1.2) c F);
    [exact Fr|exact U| | | |exact KX].
  - intros n c0 r c1 M W%law_update. rewrite (memory_records c c0 M) in W. destruct r as [x|[e|]]; [|exact W|exact W].
    destruct W as [(Dr & cur & Fi' & I & Rv) W]. assert (cur = current) as -> by congruence. split; [auto|exact W].
  - intros n x ([Dr] & I & _) _. apply find_record_Some in Fi as [In _]. apply (renewed_replaced _ x current);
      [apply (unwritten_kept _ _ _ U)|exact In|exact I|]. rewrite Dr. exact Al.
  - intros n x s1 (Dr & I & Rv) Ex C. apply K; auto.
Qed.

Lemma ends_write_rotate i secret expected current c F s (Q : DatasourceRecord -> service S -> Prop) X : framed F -> unwritten c F s ->
  CatalogStore.find_record i c.1.2 = Some current ->
  (forall x s1, draft x = draft current -> id_ x = id_ current -> revision x = revision current + 1 -> expected = c.1.1 ->
     committed_as c (CatalogStore.replaced x c.1.2) F s1 -> Q x s1) ->
  (forall e s1, unsaved c e s1 -> X e s1) ->
  ends (persist others interrupts (store_rotate i secret expected)) Q X s.
Proof.
  intros Fr U Fi K KX. apply (ends_persist (fun n => api_rotate_secret i secret expected n)
    (fun _ x => draft x = draft current /\ id_ x = id_ current /\ revision x = revision current + 1) expected (fun x => CatalogStore.replaced x c.1.2) c F);
    [exact Fr|exact U| | | |exact KX].
  - intros n c0 r c1 M W%law_rotate_secret. rewrite (memory_records c c0 M) in W. destruct r as [x|[e|]]; [|exact W|exact W].
    destruct W as [(cur & Fi' & Dr & I & Rv) W]. assert (cur = current) as -> by congruence. split; [auto|exact W].
  - intros n x (Dr & I & _) _. apply find_record_Some in Fi as [In _]. apply (renewed_replaced _ x current);
      [apply (unwritten_kept _ _ _ U)|exact In|exact I|congruence].
  - intros n x s1 (Dr & I & Rv) Ex C. apply K; auto.
Qed.

Lemma ends_write_remove i expected c F s (Q : unit -> service S -> Prop) X : framed F -> unwritten c F s ->
  (forall s1, expected = c.1.1 -> committed_as c (filter (fun x => id_ x <> i) c.1.2) F s1 -> Q tt s1) ->
  (forall e s1, unsaved c e s1 -> X e s1) ->
  ends (persist others interrupts (on_store (api_remove i expected))) Q X s.
Proof.
  intros Fr U K KX.
  pose proof (ends_persist (fun _ => api_remove i expected) (fun _ _ => True) expected (fun _ => filter (fun x => id_ x <> i) c.1.2) c F s Q X) as H.
  unfold ends in *. unfold persist, now in *. apply H; [exact Fr|exact U| | | |exact KX].
  - intros n c0 r c1 M W%law_remove. rewrite (memory_records c c0 M) in W. exact W.
  - intros n [] _ _. apply renewed_removed, (unwritten_kept _ _ _ U).
  - intros n [] s1 _. apply K.
Qed.

(** What an operation that wrote leaves: the new catalog, sealed. *)
Record answered (c : contents) (l : list DatasourceRecord) (s : service S) : Prop := {
  an_clear : kept False s;
  an_open : blocked s = false;
  an_sealed : exists v, view s = Some v /\ shows v s;
  an_revision : catalog_revision (store s) = c.1.1 + 1;
  an_records : records (store s) ≡ₚ l;
}.

(** What [ends_transition] tells of a call that returned. *)
Definition concluded (s1 s2 : service S) : Prop :=
  (the_stage s1 = STAGE_NONE /\ clear s2) \/
  (the_stage s1 <> STAGE_NONE /\ kept False s2 /\ blocked s2 = false /\ exists v, view s2 = Some v).

Lemma applied_answered c l s1 s2 : applied c l s1 -> memory (store s2) = memory (store s1) -> concluded s1 s2 -> answered c l s2.
Proof.
  intros (St & Rv & P) M [[N _]|(_ & Ke & B & v & V)]; [congruence|]. split; [exact Ke|exact B|..].
  - exists v. split; [exact V|]. destruct (cl_view _ Ke v V) as [Sh|[[] _]]. exact Sh.
  - unfold catalog_revision in *. rewrite M. exact Rv.
  - unfold records in *. rewrite M. exact P.
Qed.

Lemma stable_and (K : Prop) P : stable P -> stable (fun s => K /\ P s).
Proof. intros St s s' Q [HK H]. split; [exact HK|exact (St s s' Q H)]. Qed.

Lemma applied_revision c l s : applied c l s -> catalog_revision (store s) <> c.1.1.
Proof. intros (_ & -> & _). lia. Qed.

(** A withdrawal that the catalog [l b] asks for. *)
Lemma ends_withdrawal {B} i (write : st (service S) ending B) l (P : B -> Prop) c s :
  unwritten c (fun _ => True) s ->
  (forall (Q : B -> service S -> Prop) X, (forall b s1, P b -> committed_as c (l b) (fun _ => True) s1 -> Q b s1) ->
     (forall e s1, unsaved c e s1 -> X e s1) -> ends (persist others interrupts write) Q X s) ->
  (forall b a i' rev, P b -> listed (l b) a i' rev <-> i' <> i /\ listed c.1.2 a i' rev) ->
  ends (persist_withdrawal others interrupts i write) (fun b s1 => P b /\ finished s1 /\ applied c (l b) s1 /\ gone i (runtimes s1))
    (fun e s1 => settled s1 /\ (is_uncertain e = true -> gone i (runtimes s1))) s.
Proof.
  intros U W N. apply ends_bind, ends_exception, W; clear s U W.
  - intros b s Pb C. apply ends_bind, (ends_tick (committed_as c (l b) (fun _ => True))); [apply committed_stable, framed_true|exact C| |].
    2:{ intros s1 C1. split; [exact (committed_settled _ _ _ _ C1)|discriminate]. }
    clear s C. intros s C. destruct C as (So & Ap & Ag & _).
    assert (H : forall s1, withdrew i s s1 -> settled s1 /\ in_step s1 /\ applied c (l b) s1 /\ gone i (runtimes s1)).
    { intros s1 (y & -> & O & Wy). assert (So1 : sound (s <| runtimes := y |>)) by (destruct So; split; assumption).
      split; [unfold settled; change (the_stage (s <| runtimes := y |>)) with (the_stage s); rewrite (proj1 Ap); exact So1|].
      split; [|split; [exact Ap|exact (gone_without _ _ _ Wy)]].
      intros B1. apply (agree_perm (l b)); [symmetry; apply Ap|]. apply (agree_without _ _ _ _ _ (Ag B1) Wy). intros a i' rev. apply N, Pb. }
    apply ends_bind, ends_withdraw; [exact So| |].
    + intros s1 (S1 & I1 & A1 & G1)%H. apply ends_ret. split; [exact Pb|]. split; [split; assumption|]. split; assumption.
    + intros e s1 (S1 & I1 & A1 & G1)%H. auto.
  - intros e s (C & St & M & Bl). destruct (is_uncertain e) eqn:Un.
    + assert (H : forall s1, withdrew i s s1 -> settled s1 /\ gone i (runtimes s1)).
      { intros s1 (y & -> & O & Wy). split; [|exact (gone_without _ _ _ Wy)]. unfold settled.
        change (the_stage (s <| runtimes := y |>)) with (the_stage s). rewrite St. destruct C as [So _ _].
        pose proof (so_view _ So (Bl eq_refl)) as V. specialize (Bl eq_refl). split; [destruct So; split; assumption|intros B1..].
        - change (blocked s = false) in B1. congruence.
        - intros V1. change (view s = Some B1) in V1. congruence. }
      apply ends_withdraw; [apply C| |]; intros; [split; [|intros _]|split; [|intros _]]; eapply H; eassumption.
    + apply ends_ret. split; [|discriminate]. unfold settled. rewrite St. exact C.
Qed.

(** ** The operations *)

Abbreviation nothing := (fun _ : system => True).

Lemma ends_look {B} (m : st (service S) ending B) V c s (Q : B -> service S -> Prop) (X : service_exn -> service S -> Prop) :
  looks m V -> unwritten c nothing s -> (forall e s1, refused e s1 -> X e s1) ->
  (forall b s1, unwritten c nothing s1 -> V c b -> Q b s1) -> ends m Q X s.
Proof. intros H U KX K. apply (ends_mono _ _ _ _ _ _ (H c nothing s Q framed_true U K)); auto. Qed.

Lemma ends_look_reserved {B} (m : st (service S) ending B) V c F s (Q : B -> service S -> Prop) :
  looks m V -> framed F -> unwritten c F s -> (forall b s1, unwritten c F s1 -> V c b -> Q b s1) -> ends m Q (fun _ => settled) s.
Proof. intros H Fr U K. apply (ends_mono _ _ _ _ _ _ (H c F s Q Fr U K)); [auto|]. intros e s1 [St _]. exact St. Qed.

(** A step that looks, whatever it sees. *)
Ltac looking L := apply ends_bind; eapply (ends_look _ _ _ _ _ _ L); [eassumption|..].

Lemma finished_unwritten c F s : unwritten c F s -> finished s.
Proof. intros (C & St & _). apply clear_finished; [exact C|congruence]. Qed.

Lemma looks_build spec : looks (the_build spec) (fun _ _ => True).
Proof.
  eapply looks_bind; [apply looks_tick|]. intros ?. eapply looks_bind; [apply looks_now|]. intros n.
  eapply looks_mono; [apply looks_candidate|]. auto.
Qed.

(** With a reservation to publish, a candidate is built, the catalog written
    and the candidate published. *)
Lemma ends_replacement {B} key j spec (write : PreparedRuntime -> st (service S) ending DatasourceRecord)
    (rest : nat -> PreparedRuntime -> DatasourceRecord -> st (service S) ending B) l (P : DatasourceRecord -> Prop) c s
    (Q : B -> service S -> Prop) :
  unwritten c nothing s -> (forall b, calm (Q b)) -> (forall b s1, Q b s1 -> settled s1) ->
  (forall p F s1 (Q1 : DatasourceRecord -> service S -> Prop), framed F -> unwritten c F s1 ->
     (forall x s2, P x -> committed_as c (l x) F s2 -> Q1 x s2) -> ends (write p) Q1 (fun _ => settled) s1) ->
  (forall v p x s1, P x -> committed_as c (l x) (fun y => true = true -> holds_slot j v y) s1 -> ends (rest v p x) Q (fun _ => settled) s1) ->
  ends (with_reservation others interrupts key j true (fun v => the_build spec ≫= fun p => write p ≫= fun r => rest v p r))
    Q (fun _ => settled) s.
Proof.
  intros U Ca Fin W R. apply (ends_reserved _ _ _ _ c); [exact Ca|exact Fin|exact U|]. intros v s1 U1.
  apply ends_bind, (ends_look_reserved _ _ _ _ _ _ (looks_build spec) (framed_slot true j v) U1). intros p s2 U2 _.
  apply ends_bind, (W p _ s2 _ (framed_slot true j v) U2). intros x s3 Px C. exact (R v p x s3 Px C).
Qed.

Lemma committed_slot c l j v s : committed_as c l (fun y => true = true -> holds_slot j v y) s -> committed_as c l (holds_slot j v) s.
Proof. intros (H1 & H2 & H3 & H4). split; [exact H1|]. split; [exact H2|]. split; [exact H3|exact (H4 eq_refl)]. Qed.

(** What follows the write: the observation of the revision and the publication. *)
Lemma ends_published {B} v x p c l j (b : B) probed s (Q : B -> service S -> Prop) : committed_as c l (holds_slot j v) s ->
  puts c.1.2 l (d_alias (draft x)) (id_ x) (revision x) -> (forall s1, finished s1 -> applied c l s1 -> Q b s1) ->
  ends (observe_after others interrupts probed;; publish others interrupts v x p;; mret b) Q (fun _ => settled) s.
Proof.
  intros C Pu K. apply ends_bind, (ends_after probed (committed_as c l (holds_slot j v))).
  - apply committed_stable. intros y y' O R H. exact (framed_slot true j v y y' O R (fun _ => H) eq_refl).
  - intros s1 pr ([C1 C2 C3 C4 Cf] & H). split; [split; assumption|exact H].
  - exact C.
  - intros s1 C1. apply ends_bind, (ends_publish v x p c l j _ s1 C1 Pu). intros s2 F2 A2. apply ends_ret, K; assumption.
  - intros _ s1. apply committed_settled.
Qed.

Lemma ends_observed {B} (b : B) probed (P : service S -> Prop) (Q : B -> service S -> Prop) (X : service_exn -> service S -> Prop) s :
  stable P -> (forall s1 p, P s1 -> P (s1 <| write_probe := p |>)) -> P s -> (forall s1, P s1 -> Q b s1) -> (forall e s1, P s1 -> X e s1) ->
  ends (observe_after others interrupts probed;; mret b) Q X s.
Proof. intros St Pr H K KX. apply ends_bind, (ends_after probed P); auto. Qed.

(** What is known when a body has written. *)
Definition done (c : contents) (l : list DatasourceRecord) (F : system -> Prop) (s : service S) : Prop :=
  finished s /\ applied c l s /\ F (runtimes s).

Lemma done_stable c l F : framed F -> stable (done c l F).
Proof.
  intros Fr s s' Q ([St Is] & Ap & H). unfold settled in St. rewrite (proj1 Ap) in St. split; [split|].
  - unfold settled. rewrite (q_stage _ _ Q), (proj1 Ap). exact (sound_stable s s' Q St).
  - exact (in_step_stable s s' St Q Is).
  - split; [exact (applied_stable c l s s' Q Ap)|exact (Fr _ _ (so_system _ St) (q_steps _ _ Q) H)].
Qed.

Lemma done_probe c l F s p : done c l F s -> done c l F (s <| write_probe := p |>).
Proof.
  intros ([St Is] & Ap & H). split; [|split; [exact Ap|exact H]]. split; [|exact Is]. unfold settled in *.
  change (the_stage (s <| write_probe := p |>)) with (the_stage s). rewrite (proj1 Ap) in *. destruct St; split; assumption.
Qed.

Lemma done_settled c l F s : done c l F s -> settled s.
Proof. intros [[St _] _]. exact St. Qed.

Lemma done_calm c l : calm (done c l nothing).
Proof. intros s y O O' U ([H I] & A1 & _). split; [exact (calm_finished s y O O' U (conj H I))|split; [exact A1|auto]]. Qed.

Lemma created_finished c x s : committed_as c (c.1.2 ++ [x]) nothing s -> d_enabled (draft x) = false -> finished s.
Proof.
  intros C Di. apply (committed_finished c _ _ _ C). intros a i rev. rewrite listed_added. split; [|auto].
  intros [H|(En & _)]; [exact H|congruence].
Qed.

(** ** Create *)

Definition created (c : contents) (d : DatasourceDraft) (expected : Z) (x : DatasourceRecord) : Prop :=
  drawn_from d x /\ revision x = 1 /\ (id_ x ∉ ids c.1.2) /\ (d_alias d ∉ aliases c.1.2) /\ expected = c.1.1.

Lemma drawn_alias d x : drawn_from d x -> d_alias (draft x) = d_alias d /\ d_enabled (draft x) = d_enabled d.
Proof. intros [->]. split; reflexivity. Qed.

Lemma drawn_pinned d l x : drawn_from (pinned d l) x -> drawn_from d x.
Proof. intros [E]. split. exact E. Qed.

Lemma ends_create_disabled d secret expected probed c s : unwritten c nothing s -> d_enabled d = false ->
  ends (check_policy conversion secrets others interrupts d;;
        created ← persist others interrupts (store_create resolver d secret expected);
        observe_after others interrupts probed;; mret created)
    (fun x s2 => created c d expected x /\ done c (c.1.2 ++ [x]) nothing s2) (fun _ => settled) s.
Proof.
  intros U En. looking (looks_policy d); [intros e s1 H; apply H|]. clear s U. intros _ s U _.
  apply ends_bind, (ends_write_create _ _ _ c nothing); [exact framed_true|exact U| |intros e s1; apply unsaved_settled].
  intros x s1 Dr Rv Id Al Ex C. pose proof (proj2 (drawn_alias d x Dr)) as Ex2. rewrite En in Ex2.
  apply (ends_observed x probed (done c (c.1.2 ++ [x]) nothing)).
  - apply done_stable, framed_true.
  - intros s2 p. apply done_probe.
  - split; [exact (created_finished c x s1 C Ex2)|]. split; [apply C|exact I].
  - intros s2 H2. split; [split; auto|exact H2].
  - intros _ s2. apply done_settled.
Qed.

Lemma ends_create_enabled key d secret expected probed c s : unwritten c nothing s -> d_enabled d = true ->
  ends (with_reservation others interrupts key None true (fun v =>
      prepared ← (the_build (from_draft d secret));
      r ← (persist others interrupts (store_create resolver (pinned d (p_addresses prepared)) secret expected));
      observe_after others interrupts probed;; publish others interrupts v r prepared;; mret r))
    (fun x s2 => created c d expected x /\ done c (c.1.2 ++ [x]) nothing s2) (fun _ => settled) s.
Proof.
  intros U En. apply (ends_replacement _ None _
    (fun prepared => persist others interrupts (store_create resolver (pinned d (p_addresses prepared)) secret expected))
    (fun v prepared r => observe_after others interrupts probed;; publish others interrupts v r prepared;; mret r)
    (fun x => c.1.2 ++ [x]) (created c d expected) c); [exact U|..].
  - intros x s1 y O O' Un [H1 H2]. split; [exact H1|]. exact (done_calm c _ s1 y O O' Un H2).
  - intros x s1 [_ H]. exact (done_settled _ _ _ _ H).
  - intros p F s1 Q1 Fr U1 K. apply (ends_write_create _ _ _ c F); [exact Fr|exact U1| |intros e s2; apply unsaved_settled].
    intros x s2 Dr Rv Id Al Ex C. apply K; [|exact C]. split; [exact (drawn_pinned _ _ _ Dr)|auto].
  - intros v p x s1 Cr C. apply (ends_published v x p c (c.1.2 ++ [x]) None); [apply committed_slot, C| |].
    + destruct Cr as (Dr & _ & Id & Al & _). destruct (drawn_alias d x Dr) as [E1 E2]. apply puts_added; congruence.
    + intros s2 F2 A2. split; [exact Cr|]. split; [exact F2|]. split; [exact A2|exact I].
Qed.

(** A creation that returns has added the record, and what it added is served
    and sealed; whatever it raises leaves a clear state. *)
Lemma ends_create d secret expected probed s : clear s ->
  ends (the_create d secret expected probed)
    (fun x s2 => created (memory (store s)) d expected x /\ answered (memory (store s)) (records (store s) ++ [x]) s2)
    (leaves (memory (store s))) s.
Proof.
  intros C. set (c := memory (store s)).
  apply (ends_transition _ s nothing (fun _ _ => True) (fun x s1 => created c d expected x /\ applied c (c.1.2 ++ [x]) s1)).
  - exact framed_true.
  - exact C.
  - intros s1 U. apply (ends_mono _ (fun x s2 => created c d expected x /\ done c (c.1.2 ++ [x]) nothing s2) _ (fun _ => settled));
      [|intros x s2 (H1 & H2 & H3 & _); auto|auto]. looking (looks_open false); [intros e s2 H; apply H|]. clear s1 U. intros _ s1 U _.
    looking (looks_check_revision expected); [intros e s2 H; apply H|]. clear s1 U. intros _ s1 U _.
    looking (looks_before probed expected); [intros e s2 H; apply H|]. clear s1 U. intros _ s1 U _.
    looking looks_tick; [intros e s2 H; apply H|]. clear s1 U. intros _ s1 U _.
    looking looks_snapshot; [intros e s2 H; apply H|]. clear s1 U. intros m s1 U _.
    looking (looks_guard (bool_decide (d_alias d ∈ aliases m.1.2)) DatasourceAliasConflictError eq_refl); [intros e s2 H; apply H|].
    clear s1 U. intros _ s1 U _. destruct (d_enabled d) eqn:En; [apply ends_create_enabled|apply ends_create_disabled]; assumption.
  - intros x. apply stable_and, applied_stable.
  - intros x s1 [_ H] _. exact (applied_revision _ _ _ H).
  - intros x s1 s2 [H1 H2] M V. split; [exact H1|]. exact (applied_answered c _ s1 s2 H2 M V).
  - intros e s1 C1 _. exact C1.
Qed.

(** ** Update, enable, disable *)

(** The record that replaces [current]. *)
Definition updated (c : contents) (i : pystr) (current : DatasourceRecord) (expected : Z) (x : DatasourceRecord) : Prop :=
  CatalogStore.find_record i c.1.2 = Some current /\ id_ x = i /\ d_alias (draft x) = d_alias (draft current) /\
  revision x = revision current + 1 /\ expected = c.1.1.

Abbreviation the_update_locked := (update_locked make_conninfo conversion secrets resolver verifier policy_eq others interrupts).

(** A datasource that a draft disables. *)
Definition disabled_gone (d : DatasourceDraft) (i : pystr) (y : system) : Prop := d_enabled d = false -> gone i y.

Lemma framed_disabled d i : framed (disabled_gone d i).
Proof. intros y y' O R H En. exact (framed_gone i y y' O R (H En)). Qed.

Lemma ends_update_disabled i d expected current c s addresses : unwritten c nothing s -> CatalogStore.find_record i c.1.2 = Some current ->
  d_alias d = d_alias (draft current) -> d_enabled d = false ->
  ends (persist_withdrawal others interrupts i (store_update resolver i d expected addresses))
    (fun x s2 => (updated c i current expected x /\ drawn_from d x) /\ done c (CatalogStore.replaced x c.1.2) (gone i) s2)
    (fun e s2 => settled s2 /\ (is_uncertain e = true -> gone i (runtimes s2))) s.
Proof.
  intros U Fi Al En. pose proof (find_record_Some _ _ _ Fi) as [In Ei].
  refine (ends_mono _ _ _ _ _ _ (ends_withdrawal i _ (fun x => CatalogStore.replaced x c.1.2)
    (fun x => updated c i current expected x /\ drawn_from d x) c s U _ _) _ (fun e s1 H => H)).
  - intros Q X K KX. apply (ends_write_update _ _ _ _ current c nothing); [exact framed_true|exact U|exact Fi|exact Al| |exact KX].
    intros x s1 Dr Id Rv Ex C. apply K; [|exact C]. split; [|exact Dr]. destruct (drawn_alias d x Dr) as [E1 _].
    split; [exact Fi|]. split; [congruence|]. split; [congruence|]. split; [exact Rv|exact Ex].
  - intros x a i' rev [(_ & Id & _) Dr]. destruct (drawn_alias d x Dr) as [_ E2]. rewrite (listed_replaced c.1.2 x); [|congruence].
    rewrite Id. reflexivity.
  - intros x s1 (H1 & H2 & H3 & H4). split; [exact H1|]. split; [exact H2|]. split; [exact H3|exact H4].
Qed.

Lemma ends_update_enabled i d secret expected current c s : unwritten c nothing s -> CatalogStore.find_record i c.1.2 = Some current ->
  d_alias d = d_alias (draft current) -> d_enabled d = true ->
  ends (with_reservation others interrupts i (Some i) true (fun v =>
      prepared ← (the_build (from_draft d secret));
      r ← (persist others interrupts (store_update resolver i (pinned d (p_addresses prepared)) expected None));
      publish others interrupts v r prepared;; mret r))
    (fun x s2 => (updated c i current expected x /\ drawn_from d x) /\ done c (CatalogStore.replaced x c.1.2) nothing s2) (fun _ => settled) s.
Proof.
  intros U Fi Al En. pose proof (find_record_Some _ _ _ Fi) as [In Ei].
  apply (ends_replacement _ (Some i) _
    (fun prepared => persist others interrupts (store_update resolver i (pinned d (p_addresses prepared)) expected None))
    (fun v prepared r => publish others interrupts v r prepared;; mret r)
    (fun x => CatalogStore.replaced x c.1.2) (fun x => updated c i current expected x /\ drawn_from d x) c); [exact U|..].
  - intros x s1 y O O' Un [H1 H2]. split; [exact H1|]. exact (done_calm c _ s1 y O O' Un H2).
  - intros x s1 [_ H]. exact (done_settled _ _ _ _ H).
  - intros p F s1 Q1 Fr U1 K. apply (ends_write_update _ _ _ _ current c F); [exact Fr|exact U1|exact Fi|exact Al| |intros e s2; apply unsaved_settled].
    intros x s2 Dr%drawn_pinned Id Rv Ex C. apply K; [|exact C]. split; [|exact Dr]. destruct (drawn_alias d x Dr) as [E1 _].
    split; [exact Fi|]. split; [congruence|]. split; [congruence|]. split; [exact Rv|exact Ex].
  - intros v p x s1 Up C. apply ends_bind, (ends_publish v x p c (CatalogStore.replaced x c.1.2) (Some i)); [apply committed_slot, C| |].
    + destruct Up as [(_ & Id & E1 & _) Dr]. destruct (drawn_alias d x Dr) as [_ E2].
      apply (puts_replaced _ x current); [exact (unwritten_kept _ _ _ U)|exact In|congruence|exact E1|congruence].
    + intros s2 F2 A2. apply ends_ret. split; [exact Up|]. split; [exact F2|]. split; [exact A2|exact I].
Qed.

(** [_update_locked]. *)
Lemma ends_update_locked i d expected c s : unwritten c nothing s ->
  ends (the_update_locked i d expected)
    (fun x s2 => (exists current, updated c i current expected x) /\ drawn_from d x /\
                 done c (CatalogStore.replaced x c.1.2) (disabled_gone d i) s2)
    (fun e s2 => settled s2 /\ (d_enabled d = false -> is_uncertain e = true -> gone i (runtimes s2))) s.
Proof.
  intros U. assert (Rf : forall e s1, refused e s1 -> settled s1 /\ (d_enabled d = false -> is_uncertain e = true -> gone i (runtimes s1))).
  { intros e s1 [St Un]. split; [exact St|congruence]. }
  looking (looks_find i); [exact Rf|]. clear s U. intros current s U Fi.
  looking (looks_guard (negb (bool_decide (d_alias d = d_alias (draft current)))) DatasourceRenameError eq_refl); [exact Rf|].
  clear s U. intros _ s U Al%negb_false_iff%bool_decide_eq_true. destruct (d_enabled d) eqn:En.
  - looking (looks_read_secret i); [intros e s1 [St _]; split; [exact St|discriminate]|]. clear s U. intros secret s U _.
    refine (ends_mono _ _ _ _ _ _ (ends_update_enabled i d secret expected current c s U Fi Al En) _ _).
    + intros x s1 ((Up & Dr) & H1 & H2 & _). split; [eauto|]. split; [exact Dr|]. split; [exact H1|]. split; [exact H2|].
      intros E. congruence.
    + intros e s1 St. split; [exact St|discriminate].
  - apply ends_bind. eapply (ends_look _ (fun _ _ => True)); [|exact U|exact Rf|].
    { destruct (policy_eq _ _); [eapply looks_mono; [apply looks_ret|auto]|apply looks_policy]. }
    clear s U. intros _ s U _.
    refine (ends_mono _ _ _ _ _ _ (ends_update_disabled i d expected current c s _ U Fi Al En) _ _).
    + intros x s1 ((Up & Dr) & H1 & H2 & H3). split; [eauto|]. split; [exact Dr|]. split; [exact H1|]. split; [exact H2|]. intros _. exact H3.
    + intros e s1 [St H]. auto.
Qed.

(** The draft that an update asks for. *)
Definition asked (d : DraftSource) (c : contents) (i : pystr) (d' : DatasourceDraft) : Prop :=
  match d with
  | Fixed d => d' = d
  | Derived f => exists current, CatalogStore.find_record i c.1.2 = Some current /\ f current = Some d'
  end.

Definition disables (d : DraftSource) : Prop :=
  match d with
  | Fixed d => d_enabled d = false
  | Derived f => forall current d', f current = Some d' -> d_enabled d' = false
  end.

Lemma asked_disabled d c i d' : asked d c i d' -> disables d -> d_enabled d' = false.
Proof. destruct d as [d|f]; [intros ->; exact id|]. intros (current & _ & E) Di. exact (Di current d' E). Qed.

Lemma looks_asked i d : looks
  (match d with
   | Fixed d => mret d
   | Derived f => current ← the_get i; match f current with Some d => mret d | None => raises CallerRaised end
   end : st (service S) ending DatasourceDraft)
  (fun c d' => asked d c i d').
Proof.
  destruct d as [d|f]; [eapply looks_mono; [apply looks_ret|]; intros c d' ->; reflexivity|].
  eapply looks_bind; [apply looks_find|]. intros r. destruct (f r) as [d|] eqn:E.
  - eapply looks_mono; [apply looks_ret|]. intros c d' -> Fi. exists r. split; [exact Fi|exact E].
  - eapply looks_mono; [apply looks_raise; reflexivity|]. contradiction.
Qed.

(** An update that returns has replaced the record by what was asked for, and
    an update that disables, if it raises without saying whether it was saved,
    has withdrawn the datasource. *)
Lemma ends_update i d expected probed s : clear s ->
  ends (the_update i d expected probed)
    (fun x s2 => exists current d', updated (memory (store s)) i current (memory (store s)).1.1 x /\ met i expected (memory (store s)) /\
       asked d (memory (store s)) i d' /\ drawn_from d' x /\ answered (memory (store s)) (CatalogStore.replaced x (records (store s))) s2)
    (fun e s2 => leaves (memory (store s)) e s2 /\ (disables d -> is_uncertain e = true -> gone i (runtimes s2))) s.
Proof.
  intros C. set (c := memory (store s)). set (F := fun y => disables d -> gone i y).
  assert (Fr : framed F) by (intros y y' O R H Di; exact (framed_gone i y y' O R (H Di))).
  set (Xb := fun e y => disables d -> is_uncertain e = true -> gone i y).
  apply (ends_transition _ s F Xb (fun x s1 => (exists current d', updated c i current c.1.1 x /\ met i expected c /\ asked d c i d' /\
    drawn_from d' x) /\ applied c (CatalogStore.replaced x c.1.2) s1)).
  - exact Fr.
  - exact C.
  - intros s1 U. assert (Rf : forall e s1, refused e s1 -> settled s1 /\ Xb e (runtimes s1)) by (intros e s2 [St Un]; split; [exact St|intros _; congruence]).
    looking (looks_open false); [exact Rf|]. clear s1 U. intros _ s1 U _.
    looking (looks_guard_write i expected probed); [exact Rf|]. clear s1 U. intros rev s1 U [-> Me].
    looking (looks_asked i d); [exact Rf|]. clear s1 U. intros d' s1 U As. pose proof (asked_disabled d c i d' As) as Ad.
    apply ends_bind. refine (ends_mono _ _ _ _ _ _ (ends_update_locked i d' c.1.1 c s1 U) _ _); clear s1 U.
    + intros x s1 ((current & Up) & Dr & H). apply (ends_observed x probed (done c (CatalogStore.replaced x c.1.2) (disabled_gone d' i))).
      * apply done_stable, framed_disabled.
      * intros s2 p. apply done_probe.
      * exact H.
      * intros s2 (F2 & A2 & G2). split; [exact F2|]. split; [split; [exists current, d'; auto|exact A2]|]. intros _ Di. exact (G2 (Ad Di)).
      * intros e s2 H2. split; [exact (done_settled _ _ _ _ H2)|]. intros Di _. apply H2, Ad, Di.
    + intros e s2 [St G2]. split; [exact St|]. intros Di. exact (G2 (Ad Di)).
  - intros x. apply stable_and, applied_stable.
  - intros x s1 [_ H] _. exact (applied_revision _ _ _ H).
  - intros x s1 s2 [(current & d' & H1 & H2 & H3 & H4) H] M V. exists current, d'. split; [exact H1|]. split; [exact H2|]. split; [exact H3|].
    split; [exact H4|]. exact (applied_answered c _ s1 s2 H M V).
  - intros e s1 C1 [H|[H|E]]; (split; [exact C1|]); [exact H|intros Di _; exact (H Di)|intros _ Un; subst e; discriminate].
Qed.

Lemma looks_after probed : looks (observe_after others interrupts probed) (fun _ _ => True).
Proof.
  destruct probed; [|eapply looks_mono; [apply looks_ret|auto]]. eapply looks_bind; [apply looks_get_revision|]. intros r.
  eapply looks_mono; [apply looks_probe; reflexivity|auto].
Qed.

(** Enabling and disabling: nothing is written if the record is already so. *)
Lemma ends_set_enabled i enabled expected probed s : clear s ->
  ends (the_set_enabled i enabled expected probed)
    (fun x s2 => exists current, CatalogStore.find_record i (records (store s)) = Some current /\ met i expected (memory (store s)) /\
       d_enabled (draft x) = enabled /\
       ((d_enabled (draft current) = enabled /\ x = current /\ clear s2 /\ memory (store s2) = memory (store s)) \/
        (d_enabled (draft current) <> enabled /\ updated (memory (store s)) i current (memory (store s)).1.1 x /\
         drawn_from (draft_from_record current (Some enabled)) x /\
         answered (memory (store s)) (CatalogStore.replaced x (records (store s))) s2)))
    (fun e s2 => leaves (memory (store s)) e s2 /\ (enabled = false -> is_uncertain e = true -> gone i (runtimes s2))) s.
Proof.
  intros C. set (c := memory (store s)). set (F := fun y => enabled = false -> gone i y).
  assert (Fr : framed F) by (intros y y' O R H Di; exact (framed_gone i y y' O R (H Di))).
  set (Xb := fun e y => enabled = false -> is_uncertain e = true -> gone i y).
  apply (ends_transition _ s F Xb (fun x s1 => exists current, CatalogStore.find_record i c.1.2 = Some current /\ met i expected c /\
    d_enabled (draft x) = enabled /\ ((d_enabled (draft current) = enabled /\ x = current /\ the_stage s1 = STAGE_NONE /\ memory (store s1) = c) \/
     (d_enabled (draft current) <> enabled /\ updated c i current c.1.1 x /\ drawn_from (draft_from_record current (Some enabled)) x /\
      applied c (CatalogStore.replaced x c.1.2) s1)))).
  - exact Fr.
  - exact C.
  - intros s1 U. assert (Rf : forall e s1, refused e s1 -> settled s1 /\ Xb e (runtimes s1)) by (intros e s2 [St Un]; split; [exact St|intros _; congruence]).
    looking (looks_open false); [exact Rf|]. clear s1 U. intros _ s1 U _.
    looking (looks_guard_write i expected probed); [exact Rf|]. clear s1 U. intros rev s1 U [-> Me].
    looking (looks_find i); [exact Rf|]. clear s1 U. intros current s1 U Fi. destruct (eqb (d_enabled (draft current)) enabled) eqn:En.
    + apply eqb_prop in En. looking (looks_after probed); [exact Rf|]. clear s1 U. intros _ s1 U _. apply ends_ret.
      split; [exact (finished_unwritten _ _ _ U)|]. destruct U as (_ & St & M & _). split; [|congruence].
      exists current. split; [exact Fi|]. split; [exact Me|]. split; [exact En|]. left. auto.
    + apply eqb_false_iff in En. set (d := draft_from_record current (Some enabled)). change (d_enabled d = false) with (enabled = false) in *.
      apply ends_bind. refine (ends_mono _ _ _ _ _ _ (ends_update_locked i d c.1.1 c s1 U) _ _); clear s1 U.
      * intros x s1 ((r & Up) & Dr & H). assert (Some r = Some current) as [= ->] by exact (eq_trans (eq_sym (proj1 Up)) Fi).
        apply (ends_observed x probed (done c (CatalogStore.replaced x c.1.2) (disabled_gone d i))).
        -- apply done_stable, framed_disabled.
        -- intros s2 p. apply done_probe.
        -- exact H.
        -- intros s2 (F2 & A2 & G2). split; [exact F2|]. split; [|intros _ Di; exact (G2 Di)]. exists current. split; [exact Fi|].
           split; [exact Me|]. split; [exact (proj2 (drawn_alias d x Dr))|]. right. auto.
        -- intros e s2 H2. split; [exact (done_settled _ _ _ _ H2)|]. intros Di _. exact (proj2 (proj2 H2) Di).
      * intros e s2 [St G2]. split; [exact St|exact G2].
  - intros x s1 s2 Q (current & H1 & H2 & H3 & H). exists current. split; [exact H1|]. split; [exact H2|]. split; [exact H3|].
    rewrite (q_stage _ _ Q), (q_store _ _ Q). destruct H as [H|(N & Up & Dr & H)]; [left; exact H|right].
    split; [exact N|]. split; [exact Up|]. split; [exact Dr|exact (applied_stable c _ s1 s2 Q H)].
  - intros x s1 (current & _ & _ & _ & [(_ & _ & E & _)|(_ & _ & _ & H)]) N; [contradiction|exact (applied_revision _ _ _ H)].
  - intros x s1 s2 (current & H1 & H2 & H3 & H) M V. exists current. split; [exact H1|]. split; [exact H2|]. split; [exact H3|].
    destruct H as [(E & -> & St & M1)|(N & Up & Dr & H)]; [left; split; [exact E|split; [reflexivity|split; [|exact (eq_trans M M1)]]]|right].
    + destruct V as [[_ C2]|[N _]]; [exact C2|contradiction].
    + split; [exact N|]. split; [exact Up|]. split; [exact Dr|]. exact (applied_answered c _ s1 s2 H M V).
  - intros e s1 C1 [H|[H|E]]; (split; [exact C1|]); [exact H|intros Di _; exact (H Di)|intros _ Un; subst e; discriminate].
Qed.

(** ** Rotation and removal *)

(** The record whose secret is rotated. *)
Definition rotated (c : contents) (i : pystr) (current x : DatasourceRecord) : Prop :=
  CatalogStore.find_record i c.1.2 = Some current /\ draft x = draft current /\ id_ x = i /\ revision x = revision current + 1.

Lemma ends_rotate_disabled i secret current probed c s : unwritten c nothing s -> CatalogStore.find_record i c.1.2 = Some current ->
  d_enabled (draft current) = false ->
  ends (rotated ← persist others interrupts (store_rotate i secret c.1.1); observe_after others interrupts probed;; mret rotated)
    (fun x s2 => rotated c i current x /\ done c (CatalogStore.replaced x c.1.2) nothing s2) (fun _ => settled) s.
Proof.
  intros U Fi En. pose proof (find_record_Some _ _ _ Fi) as [In Ei]. pose proof (unwritten_kept _ _ _ U) as W.
  apply ends_bind, (ends_write_rotate _ _ _ current c nothing); [exact framed_true|exact U|exact Fi| |intros e s1; apply unsaved_settled].
  intros x s1 Dr Id Rv _ C. apply (ends_observed x probed (done c (CatalogStore.replaced x c.1.2) nothing)).
  - apply done_stable, framed_true.
  - intros s2 p. apply done_probe.
  - split; [|split; [apply C|exact I]]. apply (committed_finished c _ _ _ C). intros a i' rev.
    apply (listed_rotated c.1.2 x current W In Id); congruence.
  - intros s2 H2. split; [|exact H2]. split; [exact Fi|]. split; [exact Dr|]. split; [congruence|exact Rv].
  - intros _ s2. apply done_settled.
Qed.

Lemma ends_rotate_enabled i secret current probed c s : unwritten c nothing s -> CatalogStore.find_record i c.1.2 = Some current ->
  d_enabled (draft current) = true ->
  ends (with_reservation others interrupts i (Some i) true (fun v =>
      prepared ← (the_build (from_record current secret));
      r ← (persist others interrupts (store_rotate i secret c.1.1));
      observe_after others interrupts probed;; publish others interrupts v r prepared;; mret r))
    (fun x s2 => rotated c i current x /\ done c (CatalogStore.replaced x c.1.2) nothing s2) (fun _ => settled) s.
Proof.
  intros U Fi En. pose proof (find_record_Some _ _ _ Fi) as [In Ei].
  apply (ends_replacement _ (Some i) _ (fun prepared => persist others interrupts (store_rotate i secret c.1.1))
    (fun v prepared r => observe_after others interrupts probed;; publish others interrupts v r prepared;; mret r)
    (fun x => CatalogStore.replaced x c.1.2) (rotated c i current) c); [exact U|..].
  - intros x s1 y O O' Un [H1 H2]. split; [exact H1|]. exact (done_calm c _ s1 y O O' Un H2).
  - intros x s1 [_ H]. exact (done_settled _ _ _ _ H).
  - intros p F s1 Q1 Fr U1 K. apply (ends_write_rotate _ _ _ current c F); [exact Fr|exact U1|exact Fi| |intros e s2; apply unsaved_settled].
    intros x s2 Dr Id Rv _ C. apply K; [|exact C]. split; [exact Fi|]. split; [exact Dr|]. split; [congruence|exact Rv].
  - intros v p x s1 Ro C. apply (ends_published v x p c (CatalogStore.replaced x c.1.2) (Some i)); [apply committed_slot, C| |].
    + destruct Ro as (_ & Dr & Id & _). apply (puts_replaced _ x current); [exact (unwritten_kept _ _ _ U)|exact In|congruence|congruence|congruence].
    + intros s2 F2 A2. split; [exact Ro|]. split; [exact F2|]. split; [exact A2|exact I].
Qed.

Lemma ends_rotate i secret expected probed s : clear s ->
  ends (the_rotate i secret expected probed)
    (fun x s2 => exists current, rotated (memory (store s)) i current x /\ met i expected (memory (store s)) /\
       answered (memory (store s)) (CatalogStore.replaced x (records (store s))) s2) (leaves (memory (store s))) s.
Proof.
  intros C. set (c := memory (store s)).
  apply (ends_transition _ s nothing (fun _ _ => True)
    (fun x s1 => (exists current, rotated c i current x /\ met i expected c) /\ applied c (CatalogStore.replaced x c.1.2) s1)).
  - exact framed_true.
  - exact C.
  - intros s1 U. assert (Rf : forall e s1, refused e s1 -> settled s1 /\ True) by (intros e s2 [St _]; auto).
    looking (looks_open false); [exact Rf|]. clear s1 U. intros _ s1 U _.
    looking (looks_guard_write i expected probed); [exact Rf|]. clear s1 U. intros rev s1 U [-> Me].
    looking (looks_find i); [exact Rf|]. clear s1 U. intros current s1 U Fi.
    apply (ends_mono _ (fun x s2 => rotated c i current x /\ done c (CatalogStore.replaced x c.1.2) nothing s2) _ (fun _ => settled)).
    + destruct (d_enabled (draft current)) eqn:En; [apply ends_rotate_enabled|apply ends_rotate_disabled]; assumption.
    + intros x s2 (Ro & F2 & A2 & _). split; [exact F2|]. split; [split; [eauto|exact A2]|]. intros _. exact I.
    + auto.
  - intros x. apply stable_and, applied_stable.
  - intros x s1 [_ H] _. exact (applied_revision _ _ _ H).
  - intros x s1 s2 [(current & Ro & Me) H] M V. exists current. split; [exact Ro|]. split; [exact Me|].
    exact (applied_answered c _ s1 s2 H M V).
  - intros e s1 C1 _. exact C1.
Qed.

Lemma ends_remove i confirm expected probed s : clear s ->
  ends (the_remove i confirm expected probed)
    (fun _ s2 => (exists current, CatalogStore.find_record i (records (store s)) = Some current /\ confirm current = true) /\
       met i expected (memory (store s)) /\ answered (memory (store s)) (filter (fun x => id_ x <> i) (records (store s))) s2)
    (fun e s2 => leaves (memory (store s)) e s2 /\ (is_uncertain e = true -> gone i (runtimes s2))) s.
Proof.
  intros C. set (c := memory (store s)). set (l := filter (fun x => id_ x <> i) c.1.2).
  apply (ends_transition _ s (gone i) (fun e y => is_uncertain e = true -> gone i y)
    (fun _ s1 => ((exists current, CatalogStore.find_record i c.1.2 = Some current /\ confirm current = true) /\ met i expected c) /\ applied c l s1)).
  - exact (framed_gone i).
  - exact C.
  - intros s1 U. assert (Rf : forall e s1, refused e s1 -> settled s1 /\ (is_uncertain e = true -> gone i (runtimes s1))).
    { intros e s2 [St Un]. split; [exact St|congruence]. }
    looking (looks_open false); [exact Rf|]. clear s1 U. intros _ s1 U _.
    looking (looks_guard_write i expected probed); [exact Rf|]. clear s1 U. intros rev s1 U [-> Me].
    looking (looks_find i); [exact Rf|]. clear s1 U. intros current s1 U Fi.
    looking (looks_guard (negb (confirm current)) CallerRaised eq_refl); [exact Rf|]. clear s1 U. intros _ s1 U Cf%negb_false_iff.
    apply ends_bind. refine (ends_mono _ _ _ _ _ _ (ends_withdrawal i _ (fun _ => l) (fun _ => True) c s1 U _ _) _ _).
    + intros Q X K KX. apply (ends_write_remove _ _ c nothing); [exact framed_true|exact U|auto|exact KX].
    + intros _ a i' rev _. apply listed_removed.
    + clear s1 U. intros _ s1 (_ & F1 & A1 & G1). apply (ends_after probed (done c l (gone i))).
      * apply done_stable, framed_gone.
      * intros s2 p. apply done_probe.
      * split; [exact F1|split; assumption].
      * intros s2 (F2 & A2 & G2). split; [exact F2|]. split; [split; [split; [eauto|exact Me]|exact A2]|]. intros _. exact G2.
      * intros e s2 H2. split; [exact (done_settled _ _ _ _ H2)|]. intros _. apply H2.
    + auto.
  - intros _. apply stable_and, applied_stable.
  - intros _ s1 [_ H] _. exact (applied_revision _ _ _ H).
  - intros _ s1 s2 [[H1 H2] H] M V. split; [exact H1|]. split; [exact H2|]. exact (applied_answered c _ s1 s2 H M V).
  - intros e s1 C1 [H|[H|E]]; (split; [exact C1|]); [exact H|intros _; exact H|intros Un; subst e; discriminate].
Qed.

(** ** Startup *)

(** The coordinator is not known to anybody yet; [l] are the records already
    started. *)
Definition starting (c : contents) (l : list DatasourceRecord) (s : service S) : Prop :=
  sound s /\ memory (store s) = c /\ agree l (runtimes s).

Lemma starting_stable c l : stable (starting c l).
Proof.
  intros s s' Q (So & M & Ag). destruct (backgrounds_undisturbed lim _ _ (so_system _ So) (q_steps _ _ Q)) as [U _].
  split; [exact (sound_stable s s' Q So)|]. split; [rewrite (q_store _ _ Q); exact M|].
  exact (agree_undisturbed _ _ _ (so_system _ So) U Ag).
Qed.

Lemma starting_calm c l : calm (starting c l).
Proof.
  intros s y O O' U (So & M & Ag). split; [exact (calm_sound s y O O' U So)|]. split; [exact M|].
  exact (agree_undisturbed _ _ _ O U Ag).
Qed.

(** A startup that raises leaves nothing. *)
Abbreviation starts m Q s := (ends m Q (fun _ _ => True) s).

Lemma starts_publish c l new v r p s (Q : unit -> service S -> Prop) : starting c l s -> puts l new (d_alias (draft r)) (id_ r) (revision r) ->
  (forall s1, starting c new s1 -> Q tt s1) -> starts (publish others interrupts v r p) Q s.
Proof.
  intros H P K. apply ends_bind, (ends_tick (starting c l)); [apply starting_stable|exact H| |auto]. clear s H. intros s (So & M & Ag).
  pose proof (so_system _ So) as O. apply ends_bind, ends_registry; [|auto]. intros [n cl] r' R. cbn [fst snd].
  pose proof (DatasourceDrain.ok_publish lim _ _ _ _ _ _ _ _ _ O R) as O'.
  apply (ends_dispose cl (starting c new)); [apply starting_calm|exact O'|intros m ->; eexists; reflexivity| |exact K|auto].
  split; [destruct So; split; assumption|]. split; [exact M|]. exact (agree_put lim _ _ _ _ _ _ _ _ _ _ _ O Ag P R).
Qed.

Abbreviation the_start := (start_record make_conninfo conversion secrets resolver verifier others interrupts).

Lemma starts_build c l spec s (Q : PreparedRuntime -> service S -> Prop) : starting c l s -> (forall p s1, starting c l s1 -> Q p s1) ->
  starts (the_build spec) Q s.
Proof.
  intros H K. apply ends_bind, (ends_tick (starting c l)); [apply starting_stable|exact H| |auto]. intros s1 H1.
  apply ends_bind, ends_bind, ends_get, ends_ret. destruct (build_candidate _ _ _ _ _ _); [apply ends_ret, K, H1|apply ends_raise; exact I].
Qed.

Lemma starts_record c l x s : starting c l s -> id_ x ∉ ids l -> d_alias (draft x) ∉ aliases l ->
  starts (the_start x) (fun _ => starting c (l ++ [x])) s.
Proof.
  intros H Ni Na. unfold start_record. destruct (d_enabled (draft x)) eqn:En; cbn [negb].
  - apply ends_bind, ends_bind, (ends_tick (starting c l)); [apply starting_stable|exact H| |auto]. clear s H. intros s H.
    apply ends_read; [apply law_secret| |auto]. intros secret _.
    apply ends_bind, (ends_tick (starting c l)); [apply starting_stable|exact H| |auto]. clear s H. intros s H.
    pose proof (so_system _ (proj1 H)) as O. apply ends_bind, ends_registry; [|auto]. intros v r R. cbn [fst snd simply].
    apply ends_finally. refine (ends_mono _ (fun _ => starting c (l ++ [x])) _ (fun _ _ => True) _ _ _ _ _).
    + assert (H1 : starting c l (s <| runtimes := DatasourceDrain.at_registry r (runtimes s) |>)).
      { apply (starting_calm c l); [exact O|exact (DatasourceDrain.ok_reserve lim _ _ _ _ _ _ O R)| |exact H].
        destruct (reserve_slot (runtimes s) _ _ _ _ _ R) as (y & E & _). apply undisturbed_same; rewrite E; unfold DatasourceRegistry.reserved;
          destruct (DatasourceRegistry.v_slot y); reflexivity. }
      apply ends_bind, (starts_build c l); [exact H1|]. intros p s1 H2. apply (starts_publish c l (l ++ [x])); [exact H2| |auto].
      apply puts_added; assumption.
    + intros _ s1 H1. apply (ends_release v (starting c (l ++ [x]))); [apply starting_calm|apply H1|exact H1|auto|auto].
    + intros e s1 _. unfold ends. destruct (on_registry _ _ s1) as [[[]|[|]] ?]; exact I.
  - apply ends_ret. destruct H as (So & M & Ag). split; [exact So|]. split; [exact M|]. intros C a i rev. rewrite (Ag C), listed_added.
    split; [auto|]. intros [H|(E & _)]; [exact H|congruence].
Qed.

Lemma starts_records c todo : forall l s, starting c l s -> well_kept (l ++ todo) ->
  starts (iterM_st the_start todo) (fun _ => starting c (l ++ todo)) s.
Proof.
  induction todo as [|x todo IH]; intros l s H W.
  - rewrite app_nil_r. exact H.
  - assert (N : (id_ x ∉ ids l) /\ (d_alias (draft x) ∉ aliases l)).
    { destruct W as [W1 W2]. unfold ids, aliases in *. rewrite map_app in W1, W2. apply NoDup_app in W1 as (_ & W1 & _), W2 as (_ & W2 & _).
      split; [intros X; apply (W1 _ X); left|intros X; apply (W2 _ X); left]. }
    apply ends_bind. refine (ends_mono _ _ _ _ _ _ (starts_record c l x s H (proj1 N) (proj2 N)) _ (fun _ _ _ => I)).
    intros _ s1 H1. replace (l ++ x :: todo) with ((l ++ [x]) ++ todo) in * by (rewrite <- app_assoc; reflexivity). apply IH; assumption.
Qed.

(** A catalog to start from. *)
Record startable (c : S) : Prop := {
  st_kept : well_kept (records c);
  st_fresh x n : x ∈ records c -> interrupts n = false -> id_ x <> new_datasource_id (Datatypes.S n);
}.

Abbreviation the_opening := (open_runtime make_conninfo conversion secrets resolver verifier others interrupts).

Lemma opened c s : DatasourceRegistry.registry_limits lim = Some lim -> startable c -> the_opening c lim = Ok s ->
  kept False s.
Proof.
  intros Li [W Fr]. unfold open_runtime. match goal with |- (let '(_, _) := ?m ?s0 in _) = _ -> _ =>
    assert (H : starts m (fun _ => kept False) s0) end.
  2:{ unfold ends in H. match goal with |- (let '(_, _) := ?m in _) = _ -> _ => destruct m as [[u|e] s1] end; [|discriminate].
      intros [= <-]. exact H. }
  pose proof (DatasourceDrain.initial_ok lim Li) as O.
  assert (H : starting (memory c) [] (new_service c lim)).
  { split; [split; [exact O|exact W|reflexivity|discriminate|discriminate|discriminate|]|split; [reflexivity|]].
    - intros x n X _. exact (Fr x n X).
    - intros _ a i rev. split; [intros (n & g & P & _)|intros (x & X & _); inversion X].
      change (DatasourceRegistry.published (DatasourceDrain.reg_of (runtimes (new_service c lim)))) with (∅ : gmap pystr nat) in P.
      rewrite lookup_empty in P. discriminate. }
  apply ends_bind, ends_read; [apply snapshot_same| |auto]. intros m ->%snapshot_Ok. apply ends_bind.
  refine (ends_mono _ _ _ _ _ _ (starts_records (memory c) (memory c).1.2 [] _ H W) _ (fun _ _ _ => I)). clear H. intros _ s1 (So & M & Ag).
  assert (Fa : framed (agree (memory c).1.2)).
  { intros y y' Oy R A1. destruct (backgrounds_undisturbed lim _ _ Oy R) as [U _]. exact (agree_undisturbed _ _ _ Oy U A1). }
  apply ends_bind, (ends_seal (memory c) (fun s => agree (memory c).1.2 (runtimes s))); [apply persistent_framed, Fa| | |auto].
  - split; [exact So|]. split; [|split; [exact M|exact Ag]]. intros _. unfold records. rewrite M. exact Ag.
  - clear s1 So M Ag. intros v s1 (So & _ & M & Ag) V. apply ends_modify. destruct So as [C1 C2 _ _ _ _ Cf].
    split; [split; [exact C1|exact C2|reflexivity|discriminate| |discriminate|exact Cf]|..].
    + intros w [= <-]. apply Z.eq_le_incl. exact (shows_revision v s1 V).
    + intros _. change (agree (records (store s1)) (runtimes s1)). unfold records. rewrite M. exact Ag.
    + intros w [= <-]. left. exact V.
Qed.

(** ** Tests of candidates *)

Lemma quiet_self s : quiet s s.
Proof. split; [reflexivity|reflexivity|reflexivity|reflexivity|left; auto]. Qed.

Lemma quiet_then s s1 s2 : quiet s s1 -> quiet s1 s2 -> quiet s s2.
Proof.
  intros [A1 A2 A3 A4 A5] [B1 B2 B3 B4 B5]. split; [congruence|congruence|lia|etransitivity; eassumption|].
  destruct B5 as [(E1 & E2 & E3)|H]; [|right; exact H]. rewrite E1, E2, E3. exact A5.
Qed.

(** What a test leaves, whatever its outcome. *)
Abbreviation tests m s0 s := (ends m (fun _ => quiet s0) (fun _ => quiet s0) s).

Lemma tests_bind {B C} (m : st (service S) ending B) (f : B -> st (service S) ending C) s0 s :
  tests m s0 s -> (forall b s1, quiet s0 s1 -> tests (f b) s0 s1) -> tests (m ≫= f) s0 s.
Proof. intros H K. apply ends_bind. refine (ends_mono _ _ _ _ _ _ H _ _); [exact K|auto]. Qed.

Lemma tests_tick s0 s : quiet s0 s -> tests (tick others interrupts) s0 s.
Proof. intros Q. apply (ends_tick (quiet s0)); auto. intros s1 s2 Q2 Q1. exact (quiet_then _ _ _ Q1 Q2). Qed.

Lemma tests_read {B} (m : st S stop B) s0 s : (m (store s)).2 = store s -> quiet s0 s -> tests (on_store m) s0 s.
Proof. intros E Q. apply ends_read; auto. Qed.

Lemma tests_candidate {B} (m : candidate B) s0 s : quiet s0 s -> tests (lift_candidate m) s0 s.
Proof. destruct m; exact id. Qed.

Lemma tests_open b s0 s : quiet s0 s -> tests (the_open b) s0 s.
Proof.
  intros Q. apply tests_bind; [apply tests_tick, Q|]. intros _ s1 Q1. apply ends_bind, ends_get.
  apply ends_bind, ends_guard; [intros _; exact Q1|intros _]. apply ends_guard; intros _; exact Q1.
Qed.

Lemma tests_build spec s0 s : quiet s0 s -> tests (the_build spec) s0 s.
Proof.
  intros Q. apply tests_bind; [apply tests_tick, Q|]. intros _ s1 Q1. apply ends_bind, ends_bind, ends_get, ends_ret, tests_candidate, Q1.
Qed.

Lemma quiet_registry s0 s y : quiet s0 s -> background (runtimes s) y -> quiet s0 (s <| runtimes := y |>).
Proof.
  intros Q B. apply (quiet_then _ _ _ Q). split; [reflexivity|reflexivity|reflexivity|apply rtc_once, B|left; auto].
Qed.

(** A reservation that is not one to publish stays so. *)
Lemma unpublishable y y' v : rtc background y y' ->
  (forall x, DatasourceRegistry.reservations (DatasourceDrain.reg_of y) !! v = Some x -> DatasourceRegistry.v_publish x = false) ->
  forall x, DatasourceRegistry.reservations (DatasourceDrain.reg_of y') !! v = Some x -> DatasourceRegistry.v_publish x = false.
Proof.
  intros R H x V. destruct (DatasourceRegistry.v_publish x) eqn:P; [|reflexivity].
  apply (backgrounds_reservations _ _ R v x P) in V. rewrite (H x V) in P. discriminate.
Qed.

Lemma tests_reserved key j spec s0 s : DatasourceDrain.system_ok lim (runtimes s0) -> quiet s0 s ->
  tests (with_reservation others interrupts key j false (fun _ => the_build spec;; mret tt)) s0 s.
Proof.
  intros O0 Q. apply tests_bind; [apply tests_tick, Q|]. clear s Q. intros _ s Q.
  destruct (backgrounds_undisturbed lim _ _ O0 (q_steps _ _ Q)) as [_ O]. apply ends_bind, ends_registry.
  2:{ intros e r R. apply DatasourceShutdown.reserve_Err in R as [-> _]. rewrite same_runtimes. exact Q. }
  intros v r R. cbn [fst snd simply]. destruct (background_reserve lim key j v r (runtimes s) O R) as [Bg Np].
  set (s1 := s <| runtimes := DatasourceDrain.at_registry r (runtimes s) |>). pose proof (quiet_registry s0 s _ Q Bg) as Q1.
  apply ends_finally. assert (Rel : forall s2, quiet s0 s2 -> quiet s1 s2 ->
    tests (on_registry (DatasourceRegistry.release_reservation v) simply) s0 s2).
  { intros s2 Q2 Q12. pose proof (unpublishable _ _ v (q_steps _ _ Q12) Np) as Np2. apply ends_registry.
    - intros [] r2 R2. cbn [fst snd simply]. apply quiet_registry; [exact Q2|].
      destruct (DatasourceRegistry.reservations (DatasourceDrain.reg_of (runtimes s2)) !! v) as [x|] eqn:V.
      + exact (background_release v x r2 _ V (Np2 x eq_refl) R2).
      + revert R2. unfold DatasourceRegistry.release_reservation, DatasourceRegistry.the_reservation, mbind, st_bind, reg_of. rewrite V. discriminate.
    - intros e r2 R2. replace r2 with (reg_of s2); [rewrite same_runtimes; exact Q2|]. revert R2.
      destruct (DatasourceRegistry.reservations (reg_of s2) !! v) as [x|] eqn:V.
      + rewrite (DatasourceRegistry.release_reservation_run v x _ V). discriminate.
      + unfold DatasourceRegistry.release_reservation, DatasourceRegistry.the_reservation, mbind, st_bind. rewrite V. intros [= _ <-]. reflexivity. }
  refine (ends_mono _ (fun _ s2 => quiet s0 s2 /\ quiet s1 s2) _ (fun _ s2 => quiet s0 s2 /\ quiet s1 s2) _ _ _ _ _).
  - assert (T : tests (the_build spec;; mret tt) s1 s1).
    { apply tests_bind; [apply tests_build, quiet_self|]. intros _ s2 Q2. exact Q2. }
    refine (ends_mono _ _ _ _ _ _ T _ _); intros _ s2 Q2; split; [exact (quiet_then _ _ _ Q1 Q2)|exact Q2|exact (quiet_then _ _ _ Q1 Q2)|exact Q2].
  - intros _ s2 [Q2 Q12]. exact (Rel s2 Q2 Q12).
  - intros _ s2 [Q2 Q12]. exact (Rel s2 Q2 Q12).
Qed.

Abbreviation the_test_draft := (test_draft make_conninfo conversion secrets resolver verifier others interrupts).
Abbreviation the_test_datasource := (test_datasource make_conninfo conversion secrets resolver verifier others interrupts).

Lemma tests_draft d secret s : DatasourceDrain.system_ok lim (runtimes s) -> tests (the_test_draft d secret) s s.
Proof.
  intros O. apply tests_bind; [apply tests_open, quiet_self|]. intros _ s1 Q1. apply tests_reserved; assumption.
Qed.

Lemma tests_datasource i s : DatasourceDrain.system_ok lim (runtimes s) -> tests (the_test_datasource i) s s.
Proof.
  intros O. apply tests_bind; [apply tests_open, quiet_self|]. intros _ s1 Q1. apply tests_bind.
  { apply tests_bind; [apply tests_tick, Q1|]. intros _ s2 Q2. apply tests_bind; [apply tests_read; [apply snapshot_same|exact Q2]|].
    intros m s3 Q3. destruct (CatalogStore.find_record i m.1.2); exact Q3. }
  clear s1 Q1. intros r s1 Q1. apply tests_bind; [apply ends_guard; intros _; exact Q1|]. clear s1 Q1. intros _ s1 Q1. apply tests_bind.
  { apply tests_bind; [apply tests_tick, Q1|]. intros _ s2 Q2. apply tests_read; [apply law_secret|exact Q2]. }
  clear s1 Q1. intros secret s1 Q1. apply tests_reserved; assumption.
Qed.

(** ** A coordinator's life *)

(** What a call returns with, when it began with the catalog [c]: what it has
    written is shown, or it has written nothing. *)
Definition returns (c : contents) (s : service S) : Prop :=
  (catalog_revision (store s) <> c.1.1 /\ kept False s) \/ (catalog_revision (store s) = c.1.1 /\ clear s).

Lemma answered_returns c l s : answered c l s -> returns c s.
Proof. intros [C _ _ R _]. left. split; [lia|exact C]. Qed.

Lemma quiet_returns s s' : clear s -> quiet s s' -> returns (memory (store s)) s'.
Proof. intros C Q. right. split; [rewrite (q_store _ _ Q); reflexivity|exact (kept_stable late s s' Q C)]. Qed.

Lemma call_ends k s : clear s -> ends (run k) (fun _ => returns (memory (store s))) (leaves (memory (store s))) s.
Proof.
  intros C. pose proof (so_system _ (cl_sound _ C)) as O.
  assert (T : forall s1, quiet s s1 -> returns (memory (store s)) s1) by (intros s1; exact (quiet_returns s s1 C)).
  assert (TX : forall e s1, quiet s s1 -> leaves (memory (store s)) e s1) by (intros e s1 Q; left; exact (kept_stable late s s1 Q C)).
  destruct k; cbn [run_call].
  - apply ends_bind. refine (ends_mono _ _ _ _ _ _ (ends_create d secret expected probed s C) _ (fun _ _ H => H)).
    intros x s1 [_ H]. exact (answered_returns _ _ _ H).
  - apply ends_bind. refine (ends_mono _ _ _ _ _ _ (ends_update i d expected probed s C) _ (fun _ _ H => proj1 H)).
    intros x s1 (c & d' & _ & _ & _ & _ & H). exact (answered_returns _ _ _ H).
  - apply ends_bind. refine (ends_mono _ _ _ _ _ _ (ends_set_enabled i enabled expected probed s C) _ (fun _ _ H => proj1 H)).
    intros x s1 (c & _ & _ & _ & [(_ & _ & H & M)|(_ & _ & _ & H)]); [right|exact (answered_returns _ _ _ H)].
    split; [unfold catalog_revision; rewrite M; reflexivity|exact H].
  - apply ends_bind. refine (ends_mono _ _ _ _ _ _ (ends_rotate i secret expected probed s C) _ (fun _ _ H => H)).
    intros x s1 (c & _ & _ & H). exact (answered_returns _ _ _ H).
  - refine (ends_mono _ _ _ _ _ _ (ends_remove i confirm expected probed s C) _ (fun _ _ H => proj1 H)).
    intros x s1 (_ & _ & H). exact (answered_returns _ _ _ H).
  - refine (ends_mono _ _ _ _ _ _ (tests_draft d secret s O) (fun _ => T) TX).
  - refine (ends_mono _ _ _ _ _ _ (tests_datasource i s O) (fun _ => T) TX).
  - apply ends_modify. right. split; [reflexivity|apply clear_block, C].
  - apply ends_modify. right. split; [reflexivity|]. destruct C as [[] C5 C6]. split; [split; assumption|exact C5|exact C6].
Qed.
End Calls.

Abbreviation life := (reached make_conninfo conversion secrets resolver verifier policy_eq others interrupts quiet startable lim).

Lemma call_kept b k s r s' : kept (b = true) s -> run k s = (r, s') -> r <> Err Dead -> kept (overtaken b s r s' = true) s'.
Proof.
  intros C E N. pose proof (call_ends _ k s C) as H. unfold ends in H. rewrite E in H. unfold overtaken.
  change (catalog_revision (store s)) with (memory (store s)).1.1.
  destruct (Z.eqb_spec (catalog_revision (store s')) (memory (store s)).1.1) as [Eq|Ne]; destruct r as [u|[e|]]; try congruence.
  - destruct H as [[Ne _]|[_ H]]; [contradiction|exact H].
  - destruct H as [H|(_ & _ & Ne)]; [exact H|contradiction].
  - destruct H as [[_ H]|[Eq _]]; [|contradiction]. exact (kept_known False _ _ (False_ind _) H).
  - destruct H as [H|(-> & H & _)]; [|exact (kept_known True _ _ (fun _ => eq_refl) H)].
    apply (kept_known (b = true)); [|exact H]. destruct e; auto.
Qed.

Lemma life_kept b s : DatasourceRegistry.registry_limits lim = Some lim -> life b s -> kept (b = true) s.
Proof.
  intros Li H. induction H as [c s St Op|b k s r s' _ IH E N|b s s' _ IH Q].
  - exact (kept_known False _ _ (False_ind _) (opened c s Li St Op)).
  - exact (call_kept b k s r s' IH E N).
  - exact (kept_stable _ s s' Q IH).
Qed.

(** ** What the coordinator guarantees *)

(** C6: The catalog, the runtime and the sealed view agree. Whatever calls are made of the coordinator of the datasources, whatever fails in them, whatever other threads do and wherever the process is interrupted at the calls the coordinator makes of its collaborators, between the body of a write and its seal, or at the exchange of the view: unless the coordinator is blocked, the registry, until it is closed, serves exactly the enabled records of the catalog as the store holds it in memory, each under its alias and at its revision. A view that can be read belongs to a coordinator that is not blocked, and it shows that catalog, and exactly what is published. The one exception is a write that is interrupted after it has written and before its new view takes the place of the old: until a write that changes the catalog returns, the view may be the outdated one, whose revision is then smaller than the catalog's. *)
Theorem catalog_and_runtime_agree late s : DatasourceRegistry.registry_limits lim = Some lim -> life late s ->
  (blocked s = false -> DatasourceRegistry.closed (reg_of s) = false ->
     forall a i rev, served (reg_of s) a i rev <-> listed (records (store s)) a i rev) /\
  (forall v, view s = Some v -> blocked s = false /\ (shows v s \/ (late = true /\ view_revision v < catalog_revision (store s)))).
Proof.
  intros Li H. destruct (life_kept late s Li H) as [So Ag V]. split; [intros B C; exact (Ag B C)|]. intros v E. split; [|exact (V v E)].
  destruct (blocked s) eqn:B; [|reflexivity]. rewrite (so_view _ So B) in E. discriminate.
Qed.

Lemma ends_Ok {B} (m : st (service S) ending B) Q X s b s' : ends m Q X s -> m s = (Ok b, s') -> Q b s'.
Proof. unfold ends. intros H E. rewrite E in H. exact H. Qed.

Lemma ends_Err {B} (m : st (service S) ending B) Q X s e s' : ends m Q X s -> m s = (Err (Raises e), s') -> X e s'.
Proof. unfold ends. intros H E. rewrite E in H. exact H. Qed.

(** C7: A write that returns has done what it says, once, and shows it. Of a catalog whose revision is the expected one (or whose record is at the expected revision), a creation adds one record drawn from the draft, under an id and an alias that were free, at revision 1; an update, and an enabling or disabling that changes anything, replace the record of that id by one drawn from the draft that was asked for, with the alias it had, at the next revision; a rotation changes nothing of the record but its revision and its secret; a removal takes the record out; the catalog's revision is the next one, the other records are as they were, the coordinator is not blocked, and the sealed view shows the new state. *)
Theorem writes_answer_truly late s : DatasourceRegistry.registry_limits lim = Some lim -> life late s ->
  let c := memory (store s) in
  (forall d secret e p x s', the_create d secret e p s = (Ok x, s') -> created c d e x /\ answered c (c.1.2 ++ [x]) s') /\
  (forall i d e p x s', the_update i d e p s = (Ok x, s') -> exists current d',
     updated c i current c.1.1 x /\ met i e c /\ asked d c i d' /\ drawn_from d' x /\ answered c (CatalogStore.replaced x c.1.2) s') /\
  (forall i b e p x s', the_set_enabled i b e p s = (Ok x, s') -> exists current,
     CatalogStore.find_record i c.1.2 = Some current /\ met i e c /\ d_enabled (draft x) = b /\
     ((d_enabled (draft current) = b /\ x = current /\ memory (store s') = c) \/
      (d_enabled (draft current) <> b /\ updated c i current c.1.1 x /\ drawn_from (draft_from_record current (Some b)) x /\
       answered c (CatalogStore.replaced x c.1.2) s'))) /\
  (forall i secret e p x s', the_rotate i secret e p s = (Ok x, s') -> exists current,
     rotated c i current x /\ met i e c /\ answered c (CatalogStore.replaced x c.1.2) s') /\
  (forall i confirm e p u s', the_remove i confirm e p s = (Ok u, s') ->
     (exists current, CatalogStore.find_record i c.1.2 = Some current /\ confirm current = true) /\ met i e c /\
     answered c (filter (fun x => id_ x <> i) c.1.2) s').
Proof.
  intros Li H. pose proof (life_kept late s Li H) as C. split; [|split; [|split; [|split]]]; intros.
  - refine (ends_Ok _ _ _ _ _ _ (ends_create _ _ _ _ _ _ C) _). eassumption.
  - refine (ends_Ok _ _ _ _ _ _ (ends_update _ _ _ _ _ _ C) _). eassumption.
  - destruct (ends_Ok _ _ _ _ _ _ (ends_set_enabled _ _ _ _ _ _ C) H0) as (r & H1 & H2 & H3 & [(H4 & H5 & _ & H6)|H4]); exists r; auto 10.
  - refine (ends_Ok _ _ _ _ _ _ (ends_rotate _ _ _ _ _ _ C) _). eassumption.
  - refine (ends_Ok _ _ _ _ _ _ (ends_remove _ _ _ _ _ _ C) _). eassumption.
Qed.

(** A call that returned, or could not say whether it had effect. *)
Definition perhaps_done {B} (r : res ending B) : Prop :=
  match r with Ok _ => True | Err (Raises e) => is_uncertain e = true | Err Dead => False end.

Lemma ends_perhaps {B} (m : st (service S) ending B) Q X s r s' (P : Prop) : ends m Q X s -> m s = (r, s') -> perhaps_done r ->
  (forall b, r = Ok b -> Q b s' -> P) -> (forall e, is_uncertain e = true -> X e s' -> P) -> P.
Proof. unfold ends, perhaps_done. intros H E D0 K KX. rewrite E in H. destruct r as [b|[e|]]; [eauto|eauto|contradiction]. Qed.

(** The registry in step with a catalog that does not list the datasource. *)
Lemma answered_gone c l i s : answered c l s -> (forall a rev, ~ listed l a i rev) -> gone i (runtimes s).
Proof.
  intros [[_ Ag _] B _ _ P] N Cl a rev H. apply (Ag B Cl) in H. apply (N a rev). apply (listed_perm _ l) in H; [exact H|exact P].
Qed.

Lemma disabled_unlisted l x current : well_kept l -> current ∈ l -> id_ x = id_ current -> d_enabled (draft x) = false ->
  forall a rev, ~ listed (CatalogStore.replaced x l) a (id_ x) rev.
Proof. intros W In E En a rev H. apply (listed_replaced l x) in H; [tauto|exact En]. Qed.

(** C8: A withdrawal is certain. When the removal of a datasource, its disabling or an update that disables it returns, and also when it raises an error that leaves open whether the catalog on disk was changed, the datasource is no longer served: no alias leads to it, so no session can be opened on it, until the process ends or a later call publishes it. (Only a call that found the record disabled already and wrote nothing says no more than the coordinator's state does: nothing is served unless it is blocked.) *)
Theorem withdrawal_certain late s i : DatasourceRegistry.registry_limits lim = Some lim -> life late s ->
  (forall confirm e p r s', the_remove i confirm e p s = (r, s') -> perhaps_done r -> gone i (runtimes s')) /\
  (forall d e p r s', disables d -> the_update i d e p s = (r, s') -> perhaps_done r -> gone i (runtimes s')) /\
  (forall e p r s', the_set_enabled i false e p s = (r, s') -> perhaps_done r -> blocked s' = false \/ (exists x, r = Err x) ->
     gone i (runtimes s')).
Proof.
  intros Li H. pose proof (life_kept late s Li H) as C. pose proof (so_kept _ (cl_sound _ C)) as W. split; [|split].
  - intros confirm e p r s' E Pd. apply (ends_perhaps _ _ _ _ _ _ _ (ends_remove _ i confirm e p s C) E Pd).
    + intros u _ (_ & _ & An). apply (answered_gone _ _ i _ An). intros a rev [N _]%listed_removed. congruence.
    + intros x Un [_ G]. exact (G Un).
  - intros d e p r s' Di E Pd. apply (ends_perhaps _ _ _ _ _ _ _ (ends_update _ i d e p s C) E Pd).
    + intros x _ (current & d' & (Fi & Id & _) & _ & As & Dr & An). apply find_record_Some in Fi as [In Ei].
      rewrite <- Id. apply (answered_gone _ _ _ _ An), (disabled_unlisted _ x current W In); [congruence|].
      rewrite (proj2 (drawn_alias d' x Dr)). exact (asked_disabled _ _ _ _ As Di).
    + intros x Un [_ G]. exact (G Di Un).
  - intros e p r s' E Pd Bl. apply (ends_perhaps _ _ _ _ _ _ _ (ends_set_enabled _ i false e p s C) E Pd).
    + intros x -> (current & Fi & _ & En & Alt). apply find_record_Some in Fi as [In Ei].
      destruct Alt as [(Ec & -> & C' & M)|(_ & (_ & Id & _) & Dr & An)].
      * destruct Bl as [Bl|(y & Y)]; [|discriminate]. intros Cl a rev Sv. apply (cl_agree _ C' Bl Cl) in Sv.
        change (records (store s')) with (memory (store s')).1.2 in Sv. rewrite M in Sv. destruct Sv as (y & Y & Ey & _ & Iy & _).
        rewrite (same_id _ y current (proj1 W) Y In) in Ey by congruence. congruence.
      * rewrite <- Id. apply (answered_gone _ _ _ _ An), (disabled_unlisted _ x current W In); [congruence|exact En].
    + intros x Un [_ G]. exact (G eq_refl Un).
Qed.
End Laws.

(** ** A concrete coordinator *)

#[local] Existing Instance CatalogLaws.toy_datasource_lib.
#[local] Existing Instance CatalogLaws.toy_float.
#[local] Existing Instance CatalogLaws.toy_lib.
#[local] Existing Instance Destination.toy_addresses.

(** Over the store of two enabled datasources; nobody interferes, and the
    process is interrupted from its hundredth moment on. *)
Definition toy_others (n : nat) (s : service CatalogStore.Store) : service CatalogStore.Store := s.
Definition toy_interrupts (n : nat) : bool := (100 <=? n)%nat.
Definition toy_resolver (n : nat) : Resolver := fun _ _ => Some [py "10.0.0.7"].
Definition toy_conninfo (fields : list (pystr * pystr)) : option pystr := Some (py "host=db.example.com").
Definition toy_conversion (v : pyval) : option Config.MaskingFileConfig := Some Config.sample_file.
Definition toy_verifier (n : nat) (p : PreparedRuntime) : candidate unit := Ok tt.
Definition toy_same_policy (p q : DatasourcePolicy) : bool := true.
Definition no_secret : secret_provider := fun _ => None.

Definition toy_opened : res ending (service CatalogStore.Store) :=
  open_runtime toy_conninfo toy_conversion no_secret toy_resolver toy_verifier toy_others toy_interrupts
    (CatalogCrash.toy_store []) DatasourceRegistry.default_limits.

Definition toy_state (r : res ending (service CatalogStore.Store)) : service CatalogStore.Store :=
  match r with Ok s => s | Err _ => new_service (CatalogCrash.toy_store []) DatasourceRegistry.default_limits end.

Definition toy_service : service CatalogStore.Store := toy_state toy_opened.

Lemma toy_quiet n s : quiet s (toy_others n s).
Proof. split; [reflexivity|reflexivity|reflexivity|reflexivity|left; auto]. Qed.

Lemma toy_ids m n : toy_interrupts m = false -> toy_interrupts n = false ->
  new_datasource_id (Datatypes.S m) = new_datasource_id (Datatypes.S n) -> m = n.
Proof.
  unfold toy_interrupts. intros M%Nat.leb_gt N%Nat.leb_gt E.
  assert (H : NoDup (map (fun n => new_datasource_id (Datatypes.S n)) (seq 0 100))) by (apply (bool_decide_unpack _); vm_compute; exact I).
  apply (NoDup_lookup _ m n (new_datasource_id (Datatypes.S m)) H); rewrite list_lookup_fmap, lookup_seq_lt by assumption; [reflexivity|].
  rewrite E. reflexivity.
Qed.

Lemma toy_startable : startable toy_interrupts (CatalogCrash.toy_store []).
Proof.
  split.
  - split; apply (bool_decide_unpack _); vm_compute; exact I.
  - intros x n X N E. unfold toy_interrupts in N. apply Nat.leb_gt in N.
    assert (H : forallb (fun n => bool_decide (new_datasource_id (Datatypes.S n) ∉ ids (records (CatalogCrash.toy_store [])))) (seq 0 100) = true)
      by (vm_compute; reflexivity).
    rewrite forallb_forall in H. specialize (H n). rewrite in_seq in H. specialize (H ltac:(lia)). apply bool_decide_eq_true in H.
    apply H. rewrite <- E. apply list_elem_of_fmap. eauto.
Qed.

Abbreviation toy_life :=
  (reached toy_conninfo toy_conversion no_secret toy_resolver toy_verifier toy_same_policy toy_others toy_interrupts quiet
     (startable toy_interrupts) DatasourceRegistry.default_limits).

Lemma toy_reached : toy_life false toy_service.
Proof.
  apply (reached_open _ _ _ _ _ _ _ _ _ _ _ (CatalogCrash.toy_store [])); [exact toy_startable|].
  unfold toy_service. assert (O : match toy_opened with Ok _ => true | Err _ => false end = true) by (vm_compute; reflexivity).
  change (toy_opened = Ok (toy_state toy_opened)). destruct toy_opened; [reflexivity|discriminate].
Qed.

(** After the creation of a third datasource. *)
Definition toy_created : service CatalogStore.Store :=
  (run_call toy_conninfo toy_conversion no_secret toy_resolver toy_verifier toy_same_policy toy_others toy_interrupts
     (Create (CatalogLaws.toy_draft (py "hr")) (py "pw") 3 false) toy_service).2.

(** The same creation, interrupted at a moment: when its body has returned, or
    at the exchange of the view, it leaves the catalog written, the coordinator
    open and the view of the revision before. *)
Definition toy_interrupted (k : nat) : res ending unit * service CatalogStore.Store :=
  run_call toy_conninfo toy_conversion no_secret toy_resolver toy_verifier toy_same_policy toy_others (fun n => bool_decide (n = k))
    (Create (CatalogLaws.toy_draft (py "hr")) (py "pw") 3 false) toy_service.

Lemma old_view_stays k : k = 17%nat \/ k = 20%nat ->
  (toy_interrupted k).1 = Err (Raises KeyboardInterrupt) /\ blocked (toy_interrupted k).2 = false /\
  option_map view_revision (view (toy_interrupted k).2) = Some 3 /\ catalog_revision (store (toy_interrupted k).2) = 4 /\
  overtaken false toy_service (toy_interrupted k).1 (toy_interrupted k).2 = true.
Proof. intros [->| ->]; vm_compute; auto. Qed.

Definition the_id (a : pystr) (s : service CatalogStore.Store) : list (pystr * Z) :=
  map (fun x => (id_ x, revision x)) (filter (fun x => d_alias (draft x) = a) (records (store s))).

Lemma catalog_and_runtime_agree_witness :
  length (records (store toy_created)) = 3%nat /\ blocked toy_created = false /\
  (exists v, view toy_created = Some v /\ shows v toy_created) /\
  Forall (fun e => served (reg_of toy_created) (py "hr") e.1 e.2) (the_id (py "hr") toy_created) /\
  the_id (py "hr") toy_created <> [].
Proof.
  assert (L : toy_life false toy_created).
  { replace false with (overtaken false toy_service (Ok tt) toy_created) by (vm_compute; reflexivity).
    apply (reached_call _ _ _ _ _ _ _ _ _ _ _ false (Create (CatalogLaws.toy_draft (py "hr")) (py "pw") 3 false) toy_service (Ok tt));
      [exact toy_reached| |discriminate]. unfold toy_created.
    match goal with |- ?m = _ => assert (E : m.1 = Ok tt) by (vm_compute; reflexivity); destruct m; cbn in E |- *; congruence end. }
  destruct (catalog_and_runtime_agree toy_conninfo toy_conversion no_secret toy_resolver toy_verifier toy_same_policy toy_others toy_interrupts
    DatasourceRegistry.default_limits toy_quiet toy_ids false toy_created ltac:(vm_compute; reflexivity) L) as [Ag V].
  assert (B : blocked toy_created = false) by (vm_compute; reflexivity).
  assert (C : DatasourceRegistry.closed (reg_of toy_created) = false) by (vm_compute; reflexivity).
  split; [vm_compute; reflexivity|]. split; [exact B|]. split; [|split].
  - destruct (view toy_created) as [v|] eqn:E; [exists v; split; [reflexivity|]; destruct (proj2 (V v eq_refl)) as [Sh|[N _]]; [exact Sh|discriminate]|].
    exfalso. assert (N : match view toy_created with Some _ => true | None => false end = true) by (vm_compute; reflexivity).
    rewrite E in N. discriminate.
  - assert (F : Forall (fun x => d_enabled (draft x) = true) (records (store toy_created)))
      by (apply (bool_decide_unpack _); vm_compute; exact I).
    rewrite Forall_forall in F. apply Forall_fmap, Forall_forall. intros x [Al X]%list_elem_of_filter.
    apply (Ag B C). exists x. auto.
  - vm_compute. discriminate.
Defined.

Lemma writes_answer_truly_witness : exists x s', answered toy_interrupts DatasourceRegistry.default_limits (memory (store toy_service)) (records (store toy_service) ++ [x]) s' /\
  created (memory (store toy_service)) (CatalogLaws.toy_draft (py "hr")) 3 x /\ revision x = 1.
Proof.
  destruct (create toy_conninfo toy_conversion no_secret toy_resolver toy_verifier toy_others toy_interrupts
    (CatalogLaws.toy_draft (py "hr")) (py "pw") 3 false toy_service) as [[x|e] s'] eqn:E.
  - destruct (proj1 (writes_answer_truly toy_conninfo toy_conversion no_secret toy_resolver toy_verifier toy_same_policy toy_others toy_interrupts
      DatasourceRegistry.default_limits toy_quiet toy_ids false toy_service ltac:(vm_compute; reflexivity) toy_reached) _ _ _ _ _ _ E) as [Cr An].
    exists x, s'. split; [exact An|]. split; [exact Cr|apply Cr].
  - exfalso. assert (N : match (create toy_conninfo toy_conversion no_secret toy_resolver toy_verifier toy_others toy_interrupts
      (CatalogLaws.toy_draft (py "hr")) (py "pw") 3 false toy_service).1 with Ok _ => true | Err _ => false end = true) by (vm_compute; reflexivity).
    rewrite E in N. discriminate.
Defined.

Lemma withdrawal_certain_witness : exists r s',
  remove toy_others toy_interrupts (CatalogLaws.toy_id 97) (fun _ => true) (Some (OfDatasource 1)) true toy_service = (r, s') /\
  r = Ok tt /\ DatasourceRegistry.closed (reg_of s') = false /\ forall a rev, ~ served (reg_of s') a (CatalogLaws.toy_id 97) rev.
Proof.
  destruct (remove toy_others toy_interrupts (CatalogLaws.toy_id 97) (fun _ => true) (Some (OfDatasource 1)) true toy_service) as [r s'] eqn:E.
  assert (R : (remove toy_others toy_interrupts (CatalogLaws.toy_id 97) (fun _ => true) (Some (OfDatasource 1)) true toy_service).1 = Ok tt)
    by (vm_compute; reflexivity).
  assert (C : DatasourceRegistry.closed (reg_of (remove toy_others toy_interrupts (CatalogLaws.toy_id 97) (fun _ => true)
    (Some (OfDatasource 1)) true toy_service).2) = false) by (vm_compute; reflexivity).
  rewrite E in R, C. cbn in R, C. subst r. exists (Ok tt), s'. split; [reflexivity|]. split; [reflexivity|]. split; [exact C|].
  refine (proj1 (withdrawal_certain toy_conninfo toy_conversion no_secret toy_resolver toy_verifier toy_same_policy toy_others toy_interrupts
    DatasourceRegistry.default_limits toy_quiet toy_ids false toy_service (CatalogLaws.toy_id 97) ltac:(vm_compute; reflexivity) toy_reached)
    _ _ _ _ _ E I C).
Defined.
