(* ===== verification/Mutations.v ===== *)
(** * Mutations: the edits of the administrative routes

    Models [admin/http/mutations.py], the proposals an administrative write
    makes from the current document inside the critical section of
    [AdminService], and the contents of the requests ([admin/http/schemas.py])
    they read.  A document is [Config]'s [MaskingFileConfig]: the dump to a
    dictionary and back is pydantic's.  New ids are drawn from a supply of
    random tokens, in the order the code asks for them. *)

From S2P Require Import Prelude Bytes Unicode Canonical Transformers Masking Sql Config AdminService.

Local Open Scope Z_scope.

(** ** Requests *)

Record RuleContent := { content_match : MatchConfig; content_transformer : pystr; content_config : config }.

(** An exception's content is its match. *)
Abbreviation ExceptionContent := MatchConfig.

(** What [PUT /config] carries; [present] is [allowed_pg_functions_present]. *)
Record ConfigReplaceRequest := {
  replace_masking : list (option pystr * RuleContent);
  replace_exceptions : list (option pystr * ExceptionContent);
  replace_database_limits : DatabaseConfig;
  replace_denied_functions : list pystr;
  replace_allowed_present : bool;
}.

(** ** Helpers *)

(** A mutation that draws ids: the number of tokens drawn so far. *)
Abbreviation drawing := (st nat (option AdminError)).

Definition refuse {A} (c : AdminErrorCategory) : drawing A := raise_st (Some {| category := c; current_revision := None |}).

(** [_rule_dict] under an id, and [_exception_dict]. *)
Definition rule_dict (id : pystr) (r : RuleContent) : RuleConfig :=
  {| rule_match := content_match r; rule_build := content_transformer r; rule_params := content_config r; rule_id := Some id |}.
Definition exception_dict (id : pystr) (e : ExceptionContent) : ExceptionConfig := {| exc_match := e; exc_id := Some id |}.

Definition with_masking (rules : list RuleConfig) (c : MaskingFileConfig) : MaskingFileConfig :=
  {| Config.revision := Config.revision c; masking := rules; file_exceptions := file_exceptions c; database := database c; sql := sql c |}.
Definition with_exceptions (excs : list ExceptionConfig) (c : MaskingFileConfig) : MaskingFileConfig :=
  {| Config.revision := Config.revision c; masking := masking c; file_exceptions := excs; database := database c; sql := sql c |}.
Definition with_database (d : DatabaseConfig) (c : MaskingFileConfig) : MaskingFileConfig :=
  {| Config.revision := Config.revision c; masking := masking c; file_exceptions := file_exceptions c; database := d; sql := sql c |}.
Definition with_denied (names : list pystr) (c : MaskingFileConfig) : MaskingFileConfig :=
  {| Config.revision := Config.revision c; masking := masking c; file_exceptions := file_exceptions c; database := database c;
     sql := {| cfg_allowed_pg_functions := cfg_allowed_pg_functions (sql c); cfg_denied_functions := names |} |}.

(** [_current_rule_ids]. *)
Definition current_rule_ids (c : MaskingFileConfig) : list pystr := omap rule_id (masking c).
Definition current_exception_ids (c : MaskingFileConfig) : list pystr := omap exc_id (file_exceptions c).

(** [_index_of_id], of a list of ids. *)
Fixpoint index_of_id (ids : list (option pystr)) (target : pystr) : option nat :=
  match ids with
  | [] => None
  | id :: ids => if decide (id = Some target) then Some O else S <$> index_of_id ids target
  end.

(** The loop of [_merge_denied]. *)
Fixpoint merge_new (seen : list pystr) (names : list pystr) : list pystr :=
  match names with
  | [] => []
  | name :: names =>
      let key := canonical_function_name name in
      if bool_decide (key = []) || bool_decide (key ∈ seen) then merge_new seen names
      else name :: merge_new (key :: seen) names
  end.

Definition merge_denied (existing added : list pystr) : list pystr := merge_new [] (existing ++ added).

Section Mutations.
(** The n-th sixteen bytes of [secrets.token_hex(16)]. *)
Context (token : nat -> list Byte.byte).

Definition draw_id (prefix : pystr) : drawing pystr := n ← get_st; put_st (S n);; mret (new_id prefix (token n)).
Definition new_rule_id : drawing pystr := draw_id RULE_ID_PREFIX.
Definition new_exception_id : drawing pystr := draw_id EXCEPTION_ID_PREFIX.

(** ** Adoption *)

Definition adopt (c : MaskingFileConfig) : drawing MaskingFileConfig :=
  rules ← mapM_st (fun r => id ← new_rule_id;
                            mret {| rule_match := rule_match r; rule_build := rule_build r; rule_params := rule_params r; rule_id := Some id |}) (masking c);
  excs ← mapM_st (fun e => id ← new_exception_id; mret {| exc_match := exc_match e; exc_id := Some id |}) (file_exceptions c);
  mret (with_exceptions excs (with_masking rules c)).

(** ** Rules *)

(** [POST /rules]: the id is drawn before the position is examined. *)
Definition create_rule (rule : RuleContent) (position : option Z) (c : MaskingFileConfig) : drawing MaskingFileConfig :=
  id ← new_rule_id;
  let rules := masking c in
  let index := match position with Some p => p | None => Z.of_nat (length rules) end in
  if (index <? 0) || (Z.of_nat (length rules) <? index) then refuse CONFIG_INVALID
  else mret (with_masking (take (Z.to_nat index) rules ++ rule_dict id rule :: drop (Z.to_nat index) rules) c).

Definition replace_rule (id : pystr) (rule : RuleContent) (c : MaskingFileConfig) : drawing MaskingFileConfig :=
  match index_of_id (map rule_id (masking c)) id with
  | None => refuse NOT_FOUND
  | Some i => mret (with_masking (<[i := rule_dict id rule]> (masking c)) c)
  end.

Definition delete_rule (id : pystr) (c : MaskingFileConfig) : drawing MaskingFileConfig :=
  match index_of_id (map rule_id (masking c)) id with
  | None => refuse NOT_FOUND
  | Some i => mret (with_masking (take i (masking c) ++ drop (S i) (masking c)) c)
  end.

(** [{rule["id"]: rule for rule in rules}[id]]: the last of that id. *)
Definition by_id (rules : list RuleConfig) (id : pystr) : option RuleConfig :=
  foldl (fun found r => if decide (rule_id r = Some id) then Some r else found) None rules.

(** [POST /rules:reorder]; [sorted] raises [TypeError] on ids that are absent,
    when it has two to compare. *)
Definition reorder_rules (rule_ids : list pystr) (c : MaskingFileConfig) : drawing MaskingFileConfig :=
  let rules := masking c in
  if negb (length rule_ids =? length rules)%nat then refuse CONFIG_INVALID
  else match mapM rule_id rules with
       | None => if (length rules <? 2)%nat then refuse CONFIG_INVALID else raise_st None
       | Some current =>
           if negb (bool_decide (py_sorted rule_ids = py_sorted current)) then refuse CONFIG_INVALID
           else match mapM (by_id rules) rule_ids with
                | Some rules => mret (with_masking rules c)
                | None => raise_st None
                end
       end.

(** ** Exceptions *)

Definition create_exception (e : ExceptionContent) (c : MaskingFileConfig) : drawing MaskingFileConfig :=
  id ← new_exception_id; mret (with_exceptions (file_exceptions c ++ [exception_dict id e]) c).

Definition replace_exception (id : pystr) (e : ExceptionContent) (c : MaskingFileConfig) : drawing MaskingFileConfig :=
  match index_of_id (map exc_id (file_exceptions c)) id with
  | None => refuse NOT_FOUND
  | Some i => mret (with_exceptions (<[i := exception_dict id e]> (file_exceptions c)) c)
  end.

Definition delete_exception (id : pystr) (c : MaskingFileConfig) : drawing MaskingFileConfig :=
  match index_of_id (map exc_id (file_exceptions c)) id with
  | None => refuse NOT_FOUND
  | Some i => mret (with_exceptions (take i (file_exceptions c) ++ drop (S i) (file_exceptions c)) c)
  end.

(** ** Limits and functions *)

Definition replace_database (d : DatabaseConfig) (c : MaskingFileConfig) : drawing MaskingFileConfig := mret (with_database d c).

Definition replace_sql (allowed_present : bool) (denied : list pystr) (c : MaskingFileConfig) : drawing MaskingFileConfig :=
  if allowed_present then refuse IMMUTABLE_FIELD
  else mret (with_denied (merge_denied (cfg_denied_functions (sql c)) denied) c).

(** ** The whole configuration *)

Definition resolve_id (provided : option pystr) (current : list pystr) (generator : drawing pystr) : drawing pystr :=
  match provided with
  | None => generator
  | Some id => if decide (id ∈ current) then mret id else refuse IMMUTABLE_FIELD
  end.

Definition replace_config (q : ConfigReplaceRequest) (c : MaskingFileConfig) : drawing MaskingFileConfig :=
  if replace_allowed_present q then refuse IMMUTABLE_FIELD
  else
    rules ← mapM_st (fun x => id ← resolve_id x.1 (current_rule_ids c) new_rule_id; mret (rule_dict id x.2)) (replace_masking q);
    excs ← mapM_st (fun x => id ← resolve_id x.1 (current_exception_ids c) new_exception_id; mret (exception_dict id x.2)) (replace_exceptions q);
    mret {| Config.revision := Config.revision c; masking := rules; file_exceptions := excs; database := replace_database_limits q;
            sql := {| cfg_allowed_pg_functions := cfg_allowed_pg_functions (sql c); cfg_denied_functions := replace_denied_functions q |} |}.

(** ** The routes *)

Inductive request :=
| Adopt
| CreateRule (rule : RuleContent) (position : option Z)
| ReplaceRule (id : pystr) (rule : RuleContent)
| DeleteRule (id : pystr)
| ReorderRules (rule_ids : list pystr)
| CreateException (e : ExceptionContent)
| ReplaceException (id : pystr) (e : ExceptionContent)
| DeleteException (id : pystr)
| ReplaceDatabase (d : DatabaseConfig)
| ReplaceSql (allowed_present : bool) (denied : list pystr)
| ReplaceConfig (q : ConfigReplaceRequest).

Definition mutate (q : request) : MaskingFileConfig -> drawing MaskingFileConfig :=
  match q with
  | Adopt => adopt
  | CreateRule rule position => create_rule rule position
  | ReplaceRule id rule => replace_rule id rule
  | DeleteRule id => delete_rule id
  | ReorderRules ids => reorder_rules ids
  | CreateException e => create_exception e
  | ReplaceException id e => replace_exception id e
  | DeleteException id => delete_exception id
  | ReplaceDatabase d => replace_database d
  | ReplaceSql present denied => replace_sql present denied
  | ReplaceConfig q => replace_config q
  end.

(** The mutation the service runs, with the tokens from the n-th on. *)
Definition mutation_of (n : nat) (q : request) : ConfigMutation := fun c => (mutate q c n).1.

End Mutations.
