(* ===== verification/MutationLaws.v ===== *)
(** * MutationLaws: what the administrative edits promise

    The abstract document of an administrator, collections of items in an
    order under their ids, and [edit], what each route of [Mutations] does to
    it; the lemmas that relate the two; and the properties: refinement,
    validity, no route opens a function, adoption changes no decision. *)

From S2P Require Import Prelude Bytes Unicode Canonical Transformers Masking Sql Config ConfigFile AdminService AdminSteps Mutations.

Local Open Scope Z_scope.

(** ** Ordered collections under keys *)

(** What a document is to its administrators: items under their ids, in an
    order. *)
Record keyed (A : Type) := { order : list pystr; items : gmap pystr A }.
Arguments order {A} k.
Arguments items {A} k.
Arguments Build_keyed {A} order items.

Section Keyed.
Context {A : Type}.

Definition insert_at (i : nat) (k : pystr) (a : A) (K : keyed A) : keyed A :=
  {| order := take i (order K) ++ k :: drop i (order K); items := <[k := a]> (items K) |}.
Definition put (k : pystr) (a : A) (K : keyed A) : keyed A := {| order := order K; items := <[k := a]> (items K) |}.
Definition remove_key (k : pystr) (K : keyed A) : keyed A := {| order := filter (fun x => x <> k) (order K); items := delete k (items K) |}.
Definition arrange (l : list pystr) (K : keyed A) : keyed A := {| order := l; items := items K |}.

(** The collection of an association list. *)
Definition keyed_of (l : list (pystr * A)) : keyed A := {| order := l.*1; items := list_to_map l |}.

Lemma index_of_None ids k : index_of_id ids k = None <-> Some k ∉ ids.
Proof.
  induction ids as [|id ids IH]; cbn; [split; [intros _ H; inversion H|reflexivity]|]. rewrite not_elem_of_cons.
  destruct (decide (id = Some k)) as [E|E]; [split; [discriminate|intros [H _]; congruence]|].
  destruct (index_of_id ids k); cbn; [split; [discriminate|]|]; intuition (try congruence).
Qed.

Lemma index_of_Some ids k i : index_of_id ids k = Some i -> ids !! i = Some (Some k).
Proof.
  revert i. induction ids as [|id ids IH]; intros i; cbn; [discriminate|]. destruct (decide (id = Some k)) as [->|E]; [intros [= <-]; reflexivity|].
  destruct (index_of_id ids k) as [j|] eqn:F; [|discriminate]. intros [= <-]. apply IH. reflexivity.
Qed.

Lemma keyed_put l i k a b : l !! i = Some (k, b) -> NoDup l.*1 -> keyed_of (<[i := (k, a)]> l) = put k a (keyed_of l).
Proof.
  intros H N. unfold keyed_of, put. cbn. f_equal.
  - rewrite list_fmap_insert. apply list_insert_id. rewrite list_lookup_fmap, H. reflexivity.
  - apply map_eq. intros x. rewrite lookup_insert. revert i H N. induction l as [|[k' c] l IH]; intros [|i] H N; cbn in *; try discriminate.
    + injection H as -> ->. destruct (decide (k = x)) as [->|E]; [rewrite lookup_insert_eq; reflexivity|]. rewrite !lookup_insert_ne by assumption. reflexivity.
    + inversion N as [|? ? N1 N2]; subst. assert (k <> k').
      { intros ->. apply N1. apply list_elem_of_fmap. exists (k', b). split; [reflexivity|]. apply list_elem_of_lookup. eauto. }
      rewrite !lookup_insert. destruct (decide (k' = x)) as [->|E]; [rewrite decide_False by congruence; reflexivity|]. apply IH; assumption.
Qed.

Lemma filter_remove (k : pystr) (l : list pystr) : k ∉ l -> filter (fun x => x <> k) (k :: l) = l.
Proof.
  intros N. rewrite filter_cons_False by tauto. induction l as [|x l IH]; [reflexivity|]. rewrite not_elem_of_cons in N. destruct N as [N1 N2].
  rewrite filter_cons_True by congruence. rewrite IH by exact N2. reflexivity.
Qed.

Lemma keyed_remove l i k b : l !! i = Some (k, b) -> NoDup l.*1 -> keyed_of (take i l ++ drop (S i) l) = remove_key k (keyed_of l).
Proof.
  intros H N. assert (G : (take i l ++ drop (S i) l).*1 = filter (fun x => x <> k) l.*1 /\
    list_to_map (M := gmap pystr A) (take i l ++ drop (S i) l) = delete k (list_to_map l)).
  2: { unfold keyed_of, remove_key. cbn [order items]. destruct G as [-> ->]. reflexivity. }
  revert i H N. induction l as [|[k' c] l IH]; intros [|i] H N; try discriminate; rewrite fmap_cons in N; apply NoDup_cons in N as [N1 N2]; cbn [fst] in N1.
  - injection H as -> ->. cbn [take drop app]. rewrite drop_0, fmap_cons. cbn [fst]. rewrite filter_remove by exact N1. split; [reflexivity|].
    cbn. rewrite delete_insert_id; [reflexivity|]. apply not_elem_of_list_to_map_1, N1.
  - assert (k' <> k).
    { intros ->. apply N1. apply list_elem_of_fmap. exists (k, b). split; [reflexivity|]. apply list_elem_of_lookup. eauto. }
    destruct (IH i H N2) as [E1 E2]. cbn [take drop app]. rewrite !fmap_cons. cbn [fst]. rewrite filter_cons_True by assumption.
    rewrite E1. split; [reflexivity|]. cbn. rewrite delete_insert_ne by congruence. cbn in E2. rewrite E2. reflexivity.
Qed.

Lemma list_to_map_middle (u v : list (pystr * A)) k a : k ∉ u.*1 ->
  list_to_map (M := gmap pystr A) (u ++ (k, a) :: v) = <[k := a]> (list_to_map (u ++ v)).
Proof.
  induction u as [|[x c] u IH]; intros N; [reflexivity|]. rewrite fmap_cons, not_elem_of_cons in N. destruct N as [N1 N2]. cbn [fst] in N1.
  cbn. cbn in IH. rewrite (IH N2). apply insert_insert_ne. congruence.
Qed.

Lemma keyed_insert l i k a : k ∉ l.*1 -> keyed_of (take i l ++ (k, a) :: drop i l) = insert_at i k a (keyed_of l).
Proof.
  intros N. unfold keyed_of, insert_at. cbn [order items]. f_equal.
  - rewrite fmap_app, fmap_cons, fmap_take, fmap_drop. reflexivity.
  - rewrite list_to_map_middle; [rewrite take_drop; reflexivity|]. intros H. apply N. rewrite <- (take_drop i l), fmap_app, elem_of_app. auto.
Qed.

(** The items of those keys, in their order. *)
Lemma keyed_arrange l ks : NoDup l.*1 -> ks ≡ₚ l.*1 -> exists l', l' ≡ₚ l /\ l'.*1 = ks /\ keyed_of l' = arrange ks (keyed_of l).
Proof.
  intros N P. destruct (Permutation_map_inv fst l P) as (l' & E & P'). exists l'.
  change (ks = l'.*1) in E. split; [symmetry; exact P'|]. split; [auto|]. unfold keyed_of, arrange. cbn. rewrite <- E. f_equal.
  apply list_to_map_proper; [rewrite <- E, P; exact N|symmetry; exact P'].
Qed.
End Keyed.

(** ** What the routes promise *)

Record keyed_document := {
  kd_rules : keyed RuleContent;
  kd_exceptions : keyed ExceptionContent;
  kd_database : DatabaseConfig;
  kd_sql : SqlConfig;
}.

Definition rule_content (r : RuleConfig) : RuleContent :=
  {| content_match := rule_match r; content_transformer := rule_build r; content_config := rule_params r |}.

Definition rule_items (rules : list RuleConfig) : list (pystr * RuleContent) := omap (fun r => (fun k => (k, rule_content r)) <$> rule_id r) rules.
Definition exception_items (excs : list ExceptionConfig) : list (pystr * ExceptionContent) := omap (fun e => (fun k => (k, exc_match e)) <$> exc_id e) excs.

Definition document_of (c : MaskingFileConfig) : keyed_document :=
  {| kd_rules := keyed_of (rule_items (masking c)); kd_exceptions := keyed_of (exception_items (file_exceptions c));
     kd_database := database c; kd_sql := sql c |}.

Definition on_rules (f : keyed RuleContent -> keyed RuleContent) (d : keyed_document) : keyed_document :=
  {| kd_rules := f (kd_rules d); kd_exceptions := kd_exceptions d; kd_database := kd_database d; kd_sql := kd_sql d |}.
Definition on_exceptions (f : keyed ExceptionContent -> keyed ExceptionContent) (d : keyed_document) : keyed_document :=
  {| kd_rules := kd_rules d; kd_exceptions := f (kd_exceptions d); kd_database := kd_database d; kd_sql := kd_sql d |}.

(** What an edit of one item, of the limits or of the denied functions does;
    [id] is the id it draws. *)
Definition edit (id : pystr) (q : request) (d : keyed_document) : res AdminErrorCategory keyed_document :=
  match q with
  | CreateRule rule position =>
      let n := Z.of_nat (length (order (kd_rules d))) in
      let i := default n position in
      if decide (0 <= i <= n) then Ok (on_rules (insert_at (Z.to_nat i) id rule) d) else Err CONFIG_INVALID
  | ReplaceRule k rule => if decide (k ∈ order (kd_rules d)) then Ok (on_rules (put k rule) d) else Err NOT_FOUND
  | DeleteRule k => if decide (k ∈ order (kd_rules d)) then Ok (on_rules (remove_key k) d) else Err NOT_FOUND
  | ReorderRules ks => if decide (ks ≡ₚ order (kd_rules d)) then Ok (on_rules (arrange ks) d) else Err CONFIG_INVALID
  | CreateException e => Ok (on_exceptions (insert_at (length (order (kd_exceptions d))) id e) d)
  | ReplaceException k e => if decide (k ∈ order (kd_exceptions d)) then Ok (on_exceptions (put k e) d) else Err NOT_FOUND
  | DeleteException k => if decide (k ∈ order (kd_exceptions d)) then Ok (on_exceptions (remove_key k) d) else Err NOT_FOUND
  | ReplaceDatabase l => Ok {| kd_rules := kd_rules d; kd_exceptions := kd_exceptions d; kd_database := l; kd_sql := kd_sql d |}
  | ReplaceSql true _ => Err IMMUTABLE_FIELD
  | ReplaceSql false denied =>
      Ok {| kd_rules := kd_rules d; kd_exceptions := kd_exceptions d; kd_database := kd_database d;
            kd_sql := {| cfg_allowed_pg_functions := cfg_allowed_pg_functions (kd_sql d);
                         cfg_denied_functions := merge_denied (cfg_denied_functions (kd_sql d)) denied |} |}
  | Adopt | ReplaceConfig _ => Ok d
  end.

Definition granular (q : request) : Prop := match q with Adopt | ReplaceConfig _ => False | _ => True end.

Definition new_id_of (token : nat -> list Byte.byte) (q : request) (n : nat) : pystr :=
  new_id (match q with CreateException _ => EXCEPTION_ID_PREFIX | _ => RULE_ID_PREFIX end) (token n).

(** ** Documents whose items have ids *)

Abbreviation rule_of x := (rule_dict x.1 x.2).
Abbreviation exception_of x := (exception_dict x.1 x.2).

(** Every item has an id, and each id names one rule and one exception. *)
Definition identified (c : MaskingFileConfig) : Prop := exists rules excs,
  NoDup rules.*1 /\ NoDup excs.*1 /\ masking c = map (fun x => rule_of x) rules /\ file_exceptions c = map (fun x => exception_of x) excs.

Lemma rule_items_of rules : rule_items (map (fun x => rule_of x) rules) = rules.
Proof. induction rules as [|[k [m t p]] l IH]; [reflexivity|]. cbn. cbn in IH. f_equal. exact IH. Qed.

Lemma exception_items_of excs : exception_items (map (fun x => exception_of x) excs) = excs.
Proof. induction excs as [|[k e] l IH]; [reflexivity|]. cbn. cbn in IH. f_equal. exact IH. Qed.

Lemma rule_ids_of rules : map rule_id (map (fun x => rule_of x) rules) = Some <$> rules.*1.
Proof. induction rules as [|[k r] l IH]; [reflexivity|]. cbn. cbn in IH. f_equal. exact IH. Qed.

Lemma exception_ids_of excs : map exc_id (map (fun x => exception_of x) excs) = Some <$> excs.*1.
Proof. induction excs as [|[k r] l IH]; [reflexivity|]. cbn. cbn in IH. f_equal. exact IH. Qed.

Lemma mapM_rule_id rules : mapM rule_id (map (fun x => rule_of x) rules) = Some rules.*1.
Proof. induction rules as [|[k r] l IH]; [reflexivity|]. cbn. cbn in IH. rewrite IH. reflexivity. Qed.

(** The index of an id, or that there is none. *)
Lemma index_cases {A} (l : list (pystr * A)) k : (exists i a, index_of_id (Some <$> l.*1) k = Some i /\ l !! i = Some (k, a) /\ k ∈ l.*1) \/
  index_of_id (Some <$> l.*1) k = None /\ k ∉ l.*1.
Proof.
  destruct (index_of_id (Some <$> l.*1) k) as [i|] eqn:E.
  - left. apply index_of_Some in E. rewrite !list_lookup_fmap in E. destruct (l !! i) as [[x a]|] eqn:F; [|discriminate]. cbn in E. injection E as ->.
    exists i, a. split; [reflexivity|]. split; [exact F|]. apply list_elem_of_fmap. exists (k, a). split; [reflexivity|]. apply list_elem_of_lookup. eauto.
  - right. split; [reflexivity|]. apply index_of_None in E. intros H. apply E. apply list_elem_of_fmap. eauto.
Qed.

Lemma by_id_of rules k r : NoDup rules.*1 -> (k, r) ∈ rules -> by_id (map (fun x => rule_of x) rules) k = Some (rule_dict k r).
Proof.
  intros N H. unfold by_id. assert (G : forall found, foldl (fun found r => if decide (rule_id r = Some k) then Some r else found) found (map (fun x => rule_of x) rules) = Some (rule_dict k r)).
  2: { apply G. }
  induction rules as [|[x s] l IH]; [inversion H|]. rewrite fmap_cons in N. apply NoDup_cons in N as [N1 N2]. intros found. cbn.
  apply elem_of_cons in H as [[= <- <-]|H].
  - rewrite decide_True by reflexivity. assert (Nk : k ∉ l.*1) by exact N1. clear -Nk.
    generalize (Some (rule_dict k r)). induction l as [|[y t] l IH]; intros o; [reflexivity|]. rewrite fmap_cons, not_elem_of_cons in Nk. destruct Nk as [N1 N2].
    cbn. rewrite decide_False by (cbn in N1; congruence). apply IH, N2.
  - apply IH; assumption.
Qed.

Lemma mapM_by_id rules l : NoDup rules.*1 -> l ⊆ rules -> mapM (by_id (map (fun x => rule_of x) rules)) l.*1 = Some (map (fun x => rule_of x) l).
Proof.
  intros N S. induction l as [|[k r] l IH]; [reflexivity|]. cbn. rewrite (by_id_of rules k r N) by (apply S; left). cbn.
  cbn in IH. rewrite IH by (intros x H; apply S; right; exact H). reflexivity.
Qed.

Lemma sorted_permutation (l k : list pystr) : py_sorted l = py_sorted k <-> l ≡ₚ k.
Proof.
  unfold py_sorted. split.
  - intros E. rewrite <- (merge_sort_Permutation pystr_le l), E. apply merge_sort_Permutation.
  - intros P. apply (StronglySorted_unique_strong pystr_le); [|apply StronglySorted_merge_sort; apply _|apply StronglySorted_merge_sort; apply _|].
    + intros a b _ _. apply pystr_le_antisym.
    + rewrite !merge_sort_Permutation. exact P.
Qed.

(** ** Edits *)

Section Edits.
Context (token : nat -> list Byte.byte).

Lemma map_insert {A B} (f : A -> B) l i x : map f (<[i := x]> l) = <[i := f x]> (map f l).
Proof. exact (list_fmap_insert f l i x). Qed.

Lemma insert_map {A B} (f : A -> B) l i x : take i (map f l) ++ f x :: drop i (map f l) = map f (take i l ++ x :: drop i l).
Proof. rewrite firstn_map, skipn_map, map_app. reflexivity. Qed.

Lemma remove_map {A B} (f : A -> B) l i : take i (map f l) ++ drop (S i) (map f l) = map f (take i l ++ drop (S i) l).
Proof. rewrite firstn_map, skipn_map, map_app. reflexivity. Qed.

Lemma insert_position {A} (l : list A) z : 0 <= z <= Z.of_nat (length l) <-> ((z <? 0) || (Z.of_nat (length l) <? z)) = false.
Proof. rewrite orb_false_iff, !Z.ltb_ge. tauto. Qed.

(** What a route does to an identified document, seen as keyed collections,
    and that the document stays identified when the id drawn is new. *)
Definition follows (q : request) (c : MaskingFileConfig) (n : nat) (r : res (option AdminError) MaskingFileConfig) : Prop :=
  match r with
  | Ok c' => edit (new_id_of token q n) q (document_of c) = Ok (document_of c') /\ identified c'
  | Err (Some e) => edit (new_id_of token q n) q (document_of c) = Err (category e) /\ current_revision e = None
  | Err None => False
  end.

Lemma rules_follow rules excs rules' q c n (f : keyed RuleContent -> keyed RuleContent) : NoDup excs.*1 -> file_exceptions c = map (fun x => exception_of x) excs ->
  masking c = map (fun x => rule_of x) rules -> NoDup rules'.*1 -> f (keyed_of rules) = keyed_of rules' ->
  edit (new_id_of token q n) q (document_of c) = Ok (on_rules f (document_of c)) ->
  follows q c n (Ok (with_masking (map (fun x => rule_of x) rules') c)).
Proof.
  intros Ne Ee Er Nr F E. split.
  - rewrite E. f_equal. unfold on_rules, document_of. cbn [kd_rules kd_exceptions kd_database kd_sql masking file_exceptions database sql with_masking].
    rewrite Er, !rule_items_of, F. reflexivity.
  - exists rules', excs. auto.
Qed.

Lemma exceptions_follow rules excs excs' q c n (f : keyed ExceptionContent -> keyed ExceptionContent) : NoDup rules.*1 -> masking c = map (fun x => rule_of x) rules ->
  file_exceptions c = map (fun x => exception_of x) excs -> NoDup excs'.*1 -> f (keyed_of excs) = keyed_of excs' ->
  edit (new_id_of token q n) q (document_of c) = Ok (on_exceptions f (document_of c)) ->
  follows q c n (Ok (with_exceptions (map (fun x => exception_of x) excs') c)).
Proof.
  intros Ne Ee Er Nr F E. split.
  - rewrite E. f_equal. unfold on_exceptions, document_of. cbn [kd_rules kd_exceptions kd_database kd_sql masking file_exceptions database sql with_exceptions].
    rewrite Er, !exception_items_of, F. reflexivity.
  - exists rules, excs'. auto.
Qed.

Lemma order_rules c rules : masking c = map (fun x => rule_of x) rules -> kd_rules (document_of c) = keyed_of rules.
Proof. intros E. unfold document_of. cbn. rewrite E, rule_items_of. reflexivity. Qed.

Lemma order_exceptions c excs : file_exceptions c = map (fun x => exception_of x) excs -> kd_exceptions (document_of c) = keyed_of excs.
Proof. intros E. unfold document_of. cbn. rewrite E, exception_items_of. reflexivity. Qed.

Lemma keys_insert {A} (l : list (pystr * A)) i k a : NoDup l.*1 -> k ∉ l.*1 -> NoDup (take i l ++ (k, a) :: drop i l).*1.
Proof.
  intros N K. assert (P : (take i l ++ (k, a) :: drop i l).*1 ≡ₚ k :: l.*1).
  { rewrite <- (take_drop i l) at 3. rewrite fmap_app, fmap_cons, fmap_app. cbn. symmetry. apply Permutation_middle. }
  rewrite P. constructor; assumption.
Qed.

Lemma keys_put {A} (l : list (pystr * A)) i k a b : l !! i = Some (k, b) -> NoDup l.*1 -> NoDup (<[i := (k, a)]> l).*1.
Proof. intros H N. rewrite list_fmap_insert. cbn. rewrite list_insert_id; [exact N|]. rewrite list_lookup_fmap, H. reflexivity. Qed.

Lemma keys_remove {A} (l : list (pystr * A)) i : NoDup l.*1 -> NoDup (take i l ++ drop (S i) l).*1.
Proof.
  intros N. rewrite <- delete_take_drop. eapply sublist_NoDup; [exact N|]. apply fmap_sublist, sublist_delete.
Qed.

Lemma create_rule_follows rule position c n : identified c -> new_id_of token (CreateRule rule position) n ∉ order (kd_rules (document_of c)) ->
  follows (CreateRule rule position) c n (create_rule token rule position c n).1.
Proof.
  intros (rules & excs & Nr & Ne & Er & Ee) Fr. rewrite (order_rules c rules Er) in Fr. unfold create_rule, new_rule_id, draw_id, mbind, st_bind, get_st, put_st, mret, st_ret. cbn beta iota zeta.
  replace (match position with Some p => p | None => Z.of_nat (length (masking c)) end) with (default (Z.of_nat (length (masking c))) position) by (destruct position; reflexivity).
  set (i := default _ position). assert (Ln : length (masking c) = length (order (kd_rules (document_of c)))).
  { rewrite (order_rules c rules Er), Er. cbn. rewrite length_fmap, length_map. reflexivity. }
  destruct ((i <? 0) || (Z.of_nat (length (masking c)) <? i)) eqn:B.
  - assert (E : edit (new_id_of token (CreateRule rule position) n) (CreateRule rule position) (document_of c) = Err CONFIG_INVALID); [|exact (conj E eq_refl)].
    cbn [edit]. rewrite <- Ln. fold i. rewrite decide_False; [reflexivity|]. rewrite (insert_position (masking c) i). congruence.
  - cbn [fst]. rewrite Er. pose proof (insert_map (fun x => rule_of x) rules (Z.to_nat i) (new_id RULE_ID_PREFIX (token n), rule)) as M. cbn [fst snd] in M. rewrite M.
    apply (rules_follow rules excs _ _ _ _ (insert_at (Z.to_nat i) (new_id RULE_ID_PREFIX (token n)) rule)); [exact Ne|exact Ee|exact Er|apply keys_insert; assumption|symmetry; apply keyed_insert, Fr|].
    cbn [edit]. rewrite <- Ln. fold i. rewrite decide_True by (apply insert_position; exact B). reflexivity.
Qed.

Lemma replace_rule_follows id rule c n : identified c -> follows (ReplaceRule id rule) c n (replace_rule id rule c n).1.
Proof.
  intros (rules & excs & Nr & Ne & Er & Ee). unfold replace_rule. rewrite Er, rule_ids_of. cbn [edit].
  destruct (index_cases rules id) as [(i & a & -> & H & K)|[-> K]].
  - cbn [fst mret st_ret]. pose proof (map_insert (fun x => rule_of x) rules i (id, rule)) as M. cbn [fst snd] in M. rewrite <- M.
    apply (rules_follow rules excs _ _ _ _ (put id rule)); [exact Ne|exact Ee|exact Er|exact (keys_put _ _ _ _ _ H Nr)|symmetry; exact (keyed_put _ _ _ _ _ H Nr)|].
    cbn [edit]. rewrite (order_rules c rules Er). cbn. rewrite decide_True by exact K. reflexivity.
  - cbn. rewrite Er, rule_items_of, decide_False by exact K. auto.
Qed.

Lemma delete_rule_follows id c n : identified c -> follows (DeleteRule id) c n (delete_rule id c n).1.
Proof.
  intros (rules & excs & Nr & Ne & Er & Ee). unfold delete_rule. rewrite Er, rule_ids_of.
  destruct (index_cases rules id) as [(i & a & -> & H & K)|[-> K]].
  - cbn [fst mret st_ret]. rewrite (remove_map (fun x => rule_of x)).
    apply (rules_follow rules excs _ _ _ _ (remove_key id)); [exact Ne|exact Ee|exact Er|exact (keys_remove _ _ Nr)|symmetry; exact (keyed_remove _ _ _ _ H Nr)|].
    cbn [edit]. rewrite (order_rules c rules Er). cbn. rewrite decide_True by exact K. reflexivity.
  - cbn. rewrite Er, rule_items_of, decide_False by exact K. auto.
Qed.

Lemma reorder_rules_follows ids c n : identified c -> follows (ReorderRules ids) c n (reorder_rules ids c n).1.
Proof.
  intros (rules & excs & Nr & Ne & Er & Ee). unfold reorder_rules. rewrite Er, mapM_rule_id, length_map. cbn zeta.
  assert (Refuse : ~ ids ≡ₚ rules.*1 -> follows (ReorderRules ids) c n (Err (Some {| category := CONFIG_INVALID; current_revision := None |}))).
  { intros H. cbn. rewrite Er, rule_items_of, decide_False by exact H. auto. }
  destruct (Nat.eqb_spec (length ids) (length rules)) as [E|E]; cbn [negb].
  2: { apply Refuse. intros P. apply E. rewrite P, length_fmap. reflexivity. }
  destruct (bool_decide_reflect (py_sorted ids = py_sorted rules.*1)) as [P|P]; cbn [negb]; rewrite sorted_permutation in P; [|apply Refuse, P].
  destruct (keyed_arrange rules ids Nr P) as (l & Pl & Kl & E'). rewrite <- Kl, mapM_by_id; [|exact Nr|intros x H; rewrite <- Pl; exact H].
  cbn [fst mret st_ret]. apply (rules_follow rules excs _ _ _ _ (arrange ids)); [exact Ne|exact Ee|exact Er| |rewrite E'; reflexivity|].
  - rewrite Kl, P. exact Nr.
  - rewrite Kl. cbn [edit]. rewrite (order_rules c rules Er). cbn. rewrite decide_True by exact P. reflexivity.
Qed.

Lemma create_exception_follows e c n : identified c -> new_id_of token (CreateException e) n ∉ order (kd_exceptions (document_of c)) ->
  follows (CreateException e) c n (create_exception token e c n).1.
Proof.
  intros (rules & excs & Nr & Ne & Er & Ee) Fr. rewrite (order_exceptions c excs Ee) in Fr. unfold create_exception, new_exception_id, draw_id, mbind, st_bind, get_st, put_st, mret, st_ret. cbn beta iota zeta.
  cbn [fst]. rewrite Ee. pose proof (map_app (fun x => exception_of x) excs [(new_id EXCEPTION_ID_PREFIX (token n), e)]) as M. cbn [map fst snd] in M. rewrite <- M.
  assert (S : excs ++ [(new_id EXCEPTION_ID_PREFIX (token n), e)] = take (length excs) excs ++ (new_id EXCEPTION_ID_PREFIX (token n), e) :: drop (length excs) excs)
    by (rewrite take_ge, drop_ge by lia; reflexivity).
  apply (exceptions_follow rules excs _ _ _ _ (insert_at (length excs) (new_id EXCEPTION_ID_PREFIX (token n)) e)); [exact Nr|exact Er|exact Ee| | |].
  - rewrite S. apply keys_insert; assumption.
  - rewrite S. symmetry. apply keyed_insert, Fr.
  - cbn [edit]. rewrite (order_exceptions c excs Ee). cbn. rewrite length_fmap. reflexivity.
Qed.

Lemma replace_exception_follows id e c n : identified c -> follows (ReplaceException id e) c n (replace_exception id e c n).1.
Proof.
  intros (rules & excs & Nr & Ne & Er & Ee). unfold replace_exception. rewrite Ee, exception_ids_of.
  destruct (index_cases excs id) as [(i & a & -> & H & K)|[-> K]].
  - cbn [fst mret st_ret]. pose proof (map_insert (fun x => exception_of x) excs i (id, e)) as M. cbn [fst snd] in M. rewrite <- M.
    apply (exceptions_follow rules excs _ _ _ _ (put id e)); [exact Nr|exact Er|exact Ee|exact (keys_put _ _ _ _ _ H Ne)|symmetry; exact (keyed_put _ _ _ _ _ H Ne)|].
    cbn [edit]. rewrite (order_exceptions c excs Ee). cbn. rewrite decide_True by exact K. reflexivity.
  - cbn. rewrite Ee, exception_items_of, decide_False by exact K. auto.
Qed.

Lemma delete_exception_follows id c n : identified c -> follows (DeleteException id) c n (delete_exception id c n).1.
Proof.
  intros (rules & excs & Nr & Ne & Er & Ee). unfold delete_exception. rewrite Ee, exception_ids_of.
  destruct (index_cases excs id) as [(i & a & -> & H & K)|[-> K]].
  - cbn [fst mret st_ret]. rewrite (remove_map (fun x => exception_of x)).
    apply (exceptions_follow rules excs _ _ _ _ (remove_key id)); [exact Nr|exact Er|exact Ee|exact (keys_remove _ _ Ne)|symmetry; exact (keyed_remove _ _ _ _ H Ne)|].
    cbn [edit]. rewrite (order_exceptions c excs Ee). cbn. rewrite decide_True by exact K. reflexivity.
  - cbn. rewrite Ee, exception_items_of, decide_False by exact K. auto.
Qed.

(** What the id a request draws must not be. *)
Definition fresh_for (q : request) (n : nat) (c : MaskingFileConfig) : Prop :=
  match q with
  | CreateRule _ _ => new_id_of token q n ∉ order (kd_rules (document_of c))
  | CreateException _ => new_id_of token q n ∉ order (kd_exceptions (document_of c))
  | _ => True
  end.

Lemma granular_follows q c n : granular q -> identified c -> fresh_for q n c -> follows q c n (mutate token q c n).1.
Proof.
  intros G I F. destruct q; try contradiction; cbn [mutate].
  - apply create_rule_follows; assumption.
  - apply replace_rule_follows, I.
  - apply delete_rule_follows, I.
  - apply reorder_rules_follows, I.
  - apply create_exception_follows; assumption.
  - apply replace_exception_follows, I.
  - apply delete_exception_follows, I.
  - split; [reflexivity|exact I].
  - destruct allowed_present; [split; reflexivity|split; [reflexivity|exact I]].
Qed.

(** ** Valid documents *)

Lemma Forall_identified (rules : list RuleConfig) : (forall r, r ∈ rules -> is_Some (rule_id r)) -> exists l, rules = map (fun x => rule_of x) l /\ l.*1 = omap rule_id rules.
Proof.
  induction rules as [|r rules IH]; intros H; [exists []; auto|]. destruct IH as (l & -> & E); [intros x Hx; apply H; right; exact Hx|].
  destruct (H r) as [k Hk]; [left|]. exists ((k, rule_content r) :: l). split; [destruct r; cbn in *; subst; reflexivity|]. cbn. rewrite Hk, E. reflexivity.
Qed.

Lemma Forall_identified_exceptions (excs : list ExceptionConfig) : (forall e, e ∈ excs -> is_Some (exc_id e)) -> exists l, excs = map (fun x => exception_of x) l /\ l.*1 = omap exc_id excs.
Proof.
  induction excs as [|r excs IH]; intros H; [exists []; auto|]. destruct IH as (l & -> & E); [intros x Hx; apply H; right; exact Hx|].
  destruct (H r) as [k Hk]; [left|]. exists ((k, exc_match r) :: l). split; [destruct r; cbn in *; subst; reflexivity|]. cbn. rewrite Hk, E. reflexivity.
Qed.

Lemma NoDup_positions {X} (id_of : X -> option pystr) (l : list X) :
  (forall i j r s k, l !! i = Some r -> l !! j = Some s -> id_of r = Some k -> id_of s = Some k -> i = j) -> NoDup (omap id_of l).
Proof.
  induction l as [|r l IH]; intros H; [constructor|]. cbn. assert (T : NoDup (omap id_of l)).
  { apply IH. intros i j a b k Ha Hb Ka Kb. specialize (H (S i) (S j) a b k Ha Hb Ka Kb). lia. }
  destruct (id_of r) as [k|] eqn:K; [|exact T]. constructor; [|exact T]. intros X0. apply list_elem_of_omap in X0 as (s & Hs & Ks).
  apply list_elem_of_lookup in Hs as [j Hj]. specialize (H 0%nat (S j) r s k eq_refl Hj K Ks). discriminate.
Qed.

(** An adopted document that validates is identified. *)
Lemma adopted_identified c : model_validate c = Ok c -> Config.revision c <> UNADOPTED_REVISION -> identified c.
Proof.
  intros V R. destruct (adopted_ids_unambiguous c c V R) as (_ & H1 & H2 & H3 & H4 & _).
  destruct (Forall_identified (masking c)) as (l & El & Kl); [intros r Hr; destruct (H1 r Hr) as (k & Hk & _); eauto|].
  destruct (Forall_identified_exceptions (file_exceptions c) H2) as (m & Em & Km).
  exists l, m. rewrite Kl, Km. split; [apply NoDup_positions, H3|]. split; [apply NoDup_positions, H4|]. auto.
Qed.

(** And an identified document validates, when its fields do. *)
Lemma identified_valid c r : identified c -> file_fields (with_revision r c) = true -> model_validate (with_revision r c) = Ok (with_revision r c).
Proof.
  intros (rules & excs & Nr & Ne & Er & Ee) F. unfold model_validate, adopted_requires_ids. rewrite F. cbn [negb refuse_if mbind res_bind].
  destruct (_ =? _); [reflexivity|]. cbn [with_revision masking file_exceptions]. rewrite Er, Ee, rule_ids_of, exception_ids_of.
  assert (M : forall name (l : list pystr), missing_ids name (Some <$> l) = []).
  { intros name l. apply missing_ids_nil, Forall_fmap, Forall_true. intros x. cbn. eauto. }
  assert (O : forall l : list pystr, NoDup l -> repeated (Some <$> l) = false).
  { intros l N. unfold repeated. apply negb_false_iff, bool_decide_eq_true. assert (E : omap id (Some <$> l) = l) by (clear; induction l; cbn; congruence). rewrite E. exact N. }
  rewrite !M, !O by assumption. reflexivity.
Qed.

(** The ids the server draws have the administrative shape. *)
Lemma new_id_matches prefix n : length (token n) = 16%nat -> id_matches prefix (new_id prefix (token n)) = true.
Proof.
  intros H. unfold id_matches, new_id. rewrite !andb_true_iff. split; [split|].
  - apply startswith_spec. eauto.
  - rewrite length_app, hexdigest_length, H. apply Nat.eqb_refl.
  - rewrite drop_app_length. apply forallb_forall. intros c Hc%list_elem_of_In. pose proof (hexdigest_chars (token n)) as F.
    rewrite Forall_forall in F. specialize (F c Hc). unfold hex_char in F. unfold is_hex. lia.
Qed.

(** What the schemas of the requests check of the contents they carry. *)
Definition content_ok (r : RuleContent) : Prop := nonempty (cfg_match (content_match r)) = true /\ nonempty (content_transformer r) = true.
Definition exception_ok (e : ExceptionContent) : Prop := nonempty (cfg_match e) = true.

Definition request_ok (q : request) : Prop :=
  match q with
  | CreateRule r _ | ReplaceRule _ r => content_ok r
  | CreateException e | ReplaceException _ e => exception_ok e
  | ReplaceDatabase d => database_fields d = true
  | ReplaceConfig q => Forall (fun x => content_ok x.2) (replace_masking q) /\ Forall (fun x => exception_ok x.2) (replace_exceptions q) /\
      database_fields (replace_database_limits q) = true
  | _ => True
  end.

Lemma rule_dict_fields k r : content_ok r -> id_matches RULE_ID_PREFIX k = true -> rule_fields (rule_dict k r) = true.
Proof. intros [H1 H2] K. unfold rule_fields. cbn [rule_match rule_build rule_id id_field rule_dict]. rewrite H1, H2, K. reflexivity. Qed.

Lemma exception_dict_fields k e : exception_ok e -> id_matches EXCEPTION_ID_PREFIX k = true -> exception_fields (exception_dict k e) = true.
Proof. intros H K. unfold exception_fields. cbn [exc_match exc_id id_field exception_dict]. unfold exception_ok in H. rewrite H, K. reflexivity. Qed.

Lemma forallb_Forall {A} (f : A -> bool) l : forallb f l = true <-> Forall (fun x => f x = true) l.
Proof. induction l as [|x l IH]; cbn; [split; auto|]. rewrite andb_true_iff, Forall_cons, IH. reflexivity. Qed.

Lemma file_fields_iff c : file_fields c = true <-> 0 <= Config.revision c /\ Forall (fun r => rule_fields r = true) (masking c) /\
  Forall (fun e => exception_fields e = true) (file_exceptions c) /\ database_fields (database c) = true.
Proof. unfold file_fields. rewrite !andb_true_iff, Z.leb_le, !forallb_Forall. tauto. Qed.

Lemma index_matches {A} (f : A -> option pystr) l k i : index_of_id (map f l) k = Some i -> exists x, l !! i = Some x /\ f x = Some k.
Proof.
  intros H%index_of_Some. change (map f l) with (f <$> l) in H. rewrite list_lookup_fmap in H. destruct (l !! i) as [x|]; [|discriminate].
  injection H as H. eauto.
Qed.

Lemma mapM_elem {A B} (f : A -> option B) l k y : mapM f l = Some k -> y ∈ k -> exists x, x ∈ l /\ f x = Some y.
Proof. intros H%mapM_Some Y. apply list_elem_of_lookup in Y as [i Y]. destruct (Forall2_lookup_r _ _ _ _ _ H Y) as (x & X & F). exists x. split; [apply list_elem_of_lookup; eauto|exact F]. Qed.

Lemma by_id_elem rules k r : by_id rules k = Some r -> r ∈ rules.
Proof.
  unfold by_id. assert (G : forall o, foldl (fun found r => if decide (rule_id r = Some k) then Some r else found) o rules = Some r -> o = Some r \/ r ∈ rules).
  { induction rules as [|x l IH]; intros o H; cbn in H; [auto|]. apply IH in H as [H|H]; [|right; right; exact H].
    destruct (decide _); [injection H as ->; right; left|auto]. }
  intros H. destruct (G None H) as [X|X]; [discriminate|exact X].
Qed.

(** The parts of a document that was changed. *)
Ltac open_document := cbn [Config.revision masking file_exceptions database sql with_masking with_exceptions with_database with_denied].

(** The fields stay within their constraints. *)
Lemma mutate_fields q c n c' : granular q -> request_ok q -> length (token n) = 16%nat -> file_fields c = true -> (mutate token q c n).1 = Ok c' -> file_fields c' = true.
Proof.
  intros G Rq T F. rewrite file_fields_iff in F |- *. destruct F as (F0 & F1 & F2 & F3). destruct q; try contradiction; cbn [mutate request_ok] in Rq |- *.
  - unfold create_rule, new_rule_id, draw_id, mbind, st_bind, get_st, put_st, mret, st_ret. cbn beta iota zeta.
    destruct (_ || _); [discriminate|]. cbn [fst]. intros [= <-]. open_document. split; [exact F0|]. split; [|auto].
    apply Forall_app. split; [apply Forall_take, F1|]. constructor; [|apply Forall_drop, F1]. apply rule_dict_fields, new_id_matches, T. exact Rq.
  - unfold replace_rule. destruct (index_of_id _ _) as [i|] eqn:E; [|discriminate]. cbn [fst mret st_ret]. intros [= <-]. open_document. split; [exact F0|]. split; [|auto].
    destruct (index_matches _ _ _ _ E) as (x & X & K). apply Forall_insert; [exact F1|]. apply rule_dict_fields; [exact Rq|].
    rewrite Forall_lookup in F1. specialize (F1 i x X). unfold rule_fields in F1. rewrite !andb_true_iff in F1. unfold id_field in F1. rewrite K in F1. apply F1.
  - unfold delete_rule. destruct (index_of_id _ _) as [i|]; [|discriminate]. cbn [fst mret st_ret]. intros [= <-]. open_document. split; [exact F0|]. split; [|auto].
    apply Forall_app. split; [apply Forall_take, F1|apply Forall_drop, F1].
  - unfold reorder_rules. destruct (negb _); [discriminate|]. cbn zeta. destruct (mapM rule_id _); [|destruct (_ <? _)%nat; discriminate].
    destruct (negb _); [discriminate|]. destruct (mapM (by_id _) _) as [rs|] eqn:M; [|discriminate]. cbn [fst mret st_ret]. intros [= <-]. open_document. split; [exact F0|]. split; [|auto].
    rewrite Forall_forall in F1 |- *. intros r Hr. destruct (mapM_elem _ _ _ _ M Hr) as (k & _ & B). apply F1, (by_id_elem _ _ _ B).
  - unfold create_exception, new_exception_id, draw_id, mbind, st_bind, get_st, put_st, mret, st_ret. cbn beta iota zeta. cbn [fst]. intros [= <-]. open_document. split; [exact F0|]. split; [exact F1|]. split; [|exact F3].
    apply Forall_app. split; [exact F2|]. constructor; [|constructor]. apply exception_dict_fields, new_id_matches, T. exact Rq.
  - unfold replace_exception. destruct (index_of_id _ _) as [i|] eqn:E; [|discriminate]. cbn [fst mret st_ret]. intros [= <-]. open_document. split; [exact F0|]. split; [exact F1|]. split; [|exact F3].
    destruct (index_matches _ _ _ _ E) as (x & X & K). apply Forall_insert; [exact F2|]. apply exception_dict_fields; [exact Rq|].
    rewrite Forall_lookup in F2. specialize (F2 i x X). unfold exception_fields in F2. rewrite !andb_true_iff in F2. unfold id_field in F2. rewrite K in F2. apply F2.
  - unfold delete_exception. destruct (index_of_id _ _) as [i|]; [|discriminate]. cbn [fst mret st_ret]. intros [= <-]. open_document. split; [exact F0|]. split; [exact F1|]. split; [|exact F3].
    apply Forall_app. split; [apply Forall_take, F2|apply Forall_drop, F2].
  - cbn. intros [= <-]. auto.
  - unfold replace_sql. destruct allowed_present; [discriminate|]. cbn. intros [= <-]. auto.
Qed.

End Edits.

(** ** Function names *)

Lemma casefold_char_nonempty c : casefold_char c <> [].
Proof.
  unfold casefold_char. destruct (lookup_multi c fold_multi) as [f|] eqn:E; [|destruct (lookup_run c fold_runs); discriminate].
  assert (A : forallb (fun x => negb (bool_decide (x.2 = []))) fold_multi = true) by (vm_compute; reflexivity).
  revert E A. generalize fold_multi. induction l as [|[d g] l IH]; [discriminate|]. cbn [lookup_multi forallb snd]. rewrite andb_true_iff.
  destruct (c =? d); [|intros H [_ A]; apply IH; assumption]. intros [= ->] [A _]. apply negb_true_iff, bool_decide_eq_false in A. exact A.
Qed.

Lemma canonical_empty m : canonical_function_name m = [] <-> strip m = [].
Proof.
  unfold canonical_function_name. split; [|intros ->; reflexivity]. destruct (strip m) as [|c s]; [reflexivity|]. cbn [casefold].
  unfold casefold. cbn. intros H. apply app_eq_nil in H as [H _]. destruct (casefold_char_nonempty c H).
Qed.

(** The names with a key already seen, or blank, are those left out. *)
Lemma merge_new_keys seen names name : name ∈ names -> canonical_function_name name <> [] ->
  canonical_function_name name ∈ seen \/ exists m, m ∈ merge_new seen names /\ canonical_function_name m = canonical_function_name name.
Proof.
  revert seen. induction names as [|x names IH]; intros seen H K; [inversion H|]. cbn [merge_new]. cbv zeta.
  destruct (bool_decide_reflect (canonical_function_name x = [])) as [E|E]; cbn [orb].
  { apply elem_of_cons in H as [->|H]; [contradiction|apply IH; assumption]. }
  destruct (bool_decide_reflect (canonical_function_name x ∈ seen)) as [S|S].
  { apply elem_of_cons in H as [->|H]; [auto|apply IH; assumption]. }
  apply elem_of_cons in H as [->|H]; [right; exists x; split; [left|reflexivity]|].
  destruct (IH (canonical_function_name x :: seen) H K) as [Hs|(m & Hm & E')].
  - apply elem_of_cons in Hs as [Hs|Hs]; [right; exists x; split; [left|congruence]|auto].
  - right. exists m. split; [right; exact Hm|exact E'].
Qed.

Lemma merge_new_elem seen names m : m ∈ merge_new seen names -> m ∈ names /\ canonical_function_name m <> [] /\ canonical_function_name m ∉ seen.
Proof.
  revert seen. induction names as [|x names IH]; intros seen H; [inversion H|]. cbn [merge_new] in H. cbv zeta in H.
  destruct (bool_decide_reflect (canonical_function_name x = [])) as [E|E]; cbn [orb] in H.
  { destruct (IH seen H) as (A & B). split; [right; exact A|exact B]. }
  destruct (bool_decide_reflect (canonical_function_name x ∈ seen)) as [S|S].
  { destruct (IH seen H) as (A & B). split; [right; exact A|exact B]. }
  apply elem_of_cons in H as [->|H]; [split; [left|auto]|]. destruct (IH _ H) as (A & B & C). rewrite not_elem_of_cons in C. split; [right; exact A|tauto].
Qed.

Lemma merge_new_none seen names : (forall m, m ∈ names -> canonical_function_name m = [] \/ canonical_function_name m ∈ seen) -> merge_new seen names = [].
Proof.
  intros H. destruct (merge_new seen names) as [|m l] eqn:E; [reflexivity|]. exfalso. destruct (merge_new_elem seen names m) as (A & B & C); [rewrite E; left|].
  destruct (H m A); contradiction.
Qed.

(** Merging again what was merged adds nothing. *)
Lemma merge_new_again seen names added : (forall m, m ∈ added -> canonical_function_name m = [] \/ canonical_function_name m ∈ seen \/
    exists x, x ∈ merge_new seen names /\ canonical_function_name x = canonical_function_name m) ->
  merge_new seen (merge_new seen names ++ added) = merge_new seen names.
Proof.
  revert seen. induction names as [|x names IH]; intros seen H; cbn [merge_new] in H |- *; cbv zeta in H |- *.
  - apply merge_new_none. intros m Hm. destruct (H m Hm) as [A|[A|(y & A & _)]]; [auto|auto|inversion A].
  - destruct (_ || _) eqn:B; [apply IH, H|]. cbn [app merge_new]. cbv zeta. rewrite B. f_equal. apply IH.
    intros m Hm. destruct (H m Hm) as [A|[A|(y & A & E)]]; [auto|right; left; right; exact A|].
    apply elem_of_cons in A as [->|A]; [right; left; rewrite <- E; left|right; right; eauto].
Qed.

Lemma merge_denied_idempotent existing added : merge_denied (merge_denied existing added) added = merge_denied existing added.
Proof.
  unfold merge_denied. apply merge_new_again. intros m Hm. destruct (decide (canonical_function_name m = [])) as [E|E]; [auto|].
  destruct (merge_new_keys [] (existing ++ added) m) as [H|H]; [apply elem_of_app; auto|exact E|inversion H|auto].
Qed.

(** What was denied, and what is denied now, stay so. *)
Lemma normalize_merge existing added n : n ∈ normalize_names (existing ++ added) -> n ∈ normalize_names (merge_denied existing added).
Proof.
  rewrite !normalize_names_spec. intros (m & Hm & S & ->). assert (K : canonical_function_name m <> []) by (rewrite canonical_empty; exact S).
  destruct (merge_new_keys [] _ m Hm K) as [H|(x & Hx & E)]; [inversion H|]. exists x. split; [exact Hx|]. split; [|auto].
  rewrite <- canonical_empty, E. exact K.
Qed.

Lemma denial_grows allowed denied denied' f : (forall n, n ∈ normalize_names denied -> n ∈ normalize_names denied') ->
  allows (build_sql_policy allowed denied') f = true -> allows (build_sql_policy allowed denied) f = true.
Proof.
  intros S. unfold allows. cbn [Sql.allowed_pg_functions Sql.denied_functions Sql.denied_prefixes build_sql_policy].
  destruct (name_in (casefold f) (DEFAULT_DENIED_FUNCTIONS ++ normalize_names denied)) eqn:D; [|destruct (name_in _ (_ ++ normalize_names denied')); [discriminate|auto]].
  assert (D' : name_in (casefold f) (DEFAULT_DENIED_FUNCTIONS ++ normalize_names denied') = true).
  { rewrite name_in_true, elem_of_app in D |- *. destruct D; auto. }
  rewrite D'. discriminate.
Qed.

(** ** Errors and adoption *)

Section Routes.
Context (token : nat -> list Byte.byte).

(** The errors a mutation raises itself. *)
Definition mild {A} (m : drawing A) : Prop := forall n, match (m n).1 with
  | Err (Some e) => category e ∈ [NOT_FOUND; IMMUTABLE_FIELD; CONFIG_INVALID] /\ current_revision e = None
  | _ => True
  end.

Lemma mild_ret {A} (a : A) : mild (mret a).
Proof. intros n. exact I. Qed.

Lemma mild_refuse {A} c : c ∈ [NOT_FOUND; IMMUTABLE_FIELD; CONFIG_INVALID] -> mild (refuse c : drawing A).
Proof. intros H n. split; [exact H|reflexivity]. Qed.

Lemma mild_bind {A B} (m : drawing A) (f : A -> drawing B) : mild m -> (forall a, mild (f a)) -> mild (m ≫= f).
Proof.
  intros M F n. specialize (M n). unfold mbind, st_bind. destruct (m n) as [[a|e] k]; [apply F|exact M].
Qed.

Lemma mild_draw prefix : mild (draw_id token prefix).
Proof. intros n. exact I. Qed.

Lemma mild_mapM {A B} (f : A -> drawing B) l : (forall a, mild (f a)) -> mild (mapM_st f l).
Proof. intros F. induction l as [|x l IH]; [apply mild_ret|]. apply mild_bind; [apply F|]. intros y. apply mild_bind; [exact IH|]. intros ys. apply mild_ret. Qed.

Lemma mild_resolve provided ids g : mild g -> mild (resolve_id provided ids g).
Proof. intros G. destruct provided as [id|]; [|exact G]. cbn. destruct (decide _); [apply mild_ret|apply mild_refuse; set_solver]. Qed.

Ltac mild := repeat first [apply mild_ret | apply mild_refuse; set_solver | apply mild_draw | apply mild_mapM; intros ? | apply mild_resolve | apply mild_bind; [|intros ?]
  | match goal with |- mild (match ?x with _ => _ end) => destruct x end | match goal with |- mild (if ?b then _ else _) => destruct b end | intros ?; exact I].

Lemma mutate_mild q c : mild (mutate token q c).
Proof.
  destruct q; cbn [mutate]; unfold adopt, create_rule, replace_rule, delete_rule, reorder_rules, create_exception, replace_exception, delete_exception,
    replace_database, replace_sql, replace_config, new_rule_id, new_exception_id; mild.
Qed.

Lemma mutation_modest n q : modest (mutation_of token n q).
Proof.
  intros c e H. pose proof (mutate_mild q c n) as M. unfold mutation_of in H. rewrite H in M. destruct M as [M _].
  unfold unapplied, error_applied. apply bool_decide_false. intros X%list_elem_of_singleton. rewrite X in M. rewrite !elem_of_cons, elem_of_nil in M. destruct M as [M|[M|[M|[]]]]; discriminate M.
Qed.

(** The policy of functions a document describes. *)
Definition policy_of (c : MaskingFileConfig) : SqlPolicy := build_sql_policy (cfg_allowed_pg_functions (sql c)) (cfg_denied_functions (sql c)).

(** The routes that leave the section of functions alone. *)
Lemma sql_untouched q c n c' : (mutate token q c n).1 = Ok c' -> match q with ReplaceSql _ _ | ReplaceConfig _ => True | _ => sql c' = sql c end.
Proof.
  destruct q; cbn [mutate]; auto; intros H.
  - unfold adopt in H. revert H. unfold mbind, st_bind. destruct (mapM_st _ _ n) as [[rs|] k]; [|discriminate].
    destruct (mapM_st _ _ k) as [[es|] k']; [|discriminate]. intros [= <-]. reflexivity.
  - unfold create_rule, new_rule_id, draw_id, mbind, st_bind, get_st, put_st, mret, st_ret in H. cbn beta iota zeta in H.
    destruct (_ || _); [discriminate|]. injection H as <-. reflexivity.
  - unfold replace_rule in H. destruct (index_of_id _ _); [|discriminate]. injection H as <-. reflexivity.
  - unfold delete_rule in H. destruct (index_of_id _ _); [|discriminate]. injection H as <-. reflexivity.
  - unfold reorder_rules in H. cbn zeta in H. destruct (negb _); [discriminate|]. destruct (mapM rule_id _); [|destruct (_ <? _)%nat; discriminate].
    destruct (negb _); [discriminate|]. destruct (mapM (by_id _) _); [|discriminate]. injection H as <-. reflexivity.
  - unfold create_exception, new_exception_id, draw_id, mbind, st_bind, get_st, put_st, mret, st_ret in H. cbn beta iota zeta in H.
    injection H as <-. reflexivity.
  - unfold replace_exception in H. destruct (index_of_id _ _); [|discriminate]. injection H as <-. reflexivity.
  - unfold delete_exception in H. destruct (index_of_id _ _); [|discriminate]. injection H as <-. reflexivity.
  - injection H as <-. reflexivity.
Qed.

(** The items of an adopted document: the same, under the ids drawn. *)
Lemma mapM_draw {A B} prefix (f : pystr -> A -> B) l n :
  mapM_st (fun x => id ← draw_id token prefix; mret (f id x)) l n = (Ok (imap (fun i x => f (new_id prefix (token (n + i)%nat)) x) l), (n + length l)%nat).
Proof.
  revert n. induction l as [|x l IH]; intros n; [cbn; rewrite Nat.add_0_r; reflexivity|].
  cbn [mapM_st]. unfold mbind at 1. unfold st_bind at 1. unfold draw_id at 1. unfold mbind at 1 2 3, st_bind at 1 2 3, get_st, put_st, mret at 1 2, st_ret at 1 2.
  cbn beta iota zeta. unfold mbind at 1, st_bind at 1. rewrite (IH (S n)). unfold mret, st_ret. cbn [imap length].
  rewrite Nat.add_0_r, Nat.add_succ_r. cbn [plus]. do 3 f_equal. apply imap_ext. intros i y _. cbn. rewrite Nat.add_succ_r. reflexivity.
Qed.

Lemma adopt_runs c n : adopt token c n =
  (Ok (with_exceptions (imap (fun i e => {| exc_match := exc_match e; exc_id := Some (new_id EXCEPTION_ID_PREFIX (token (n + length (masking c) + i)%nat)) |}) (file_exceptions c))
     (with_masking (imap (fun i r => {| rule_match := rule_match r; rule_build := rule_build r; rule_params := rule_params r;
                                        rule_id := Some (new_id RULE_ID_PREFIX (token (n + i)%nat)) |}) (masking c)) c)),
   (n + length (masking c) + length (file_exceptions c))%nat).
Proof.
  unfold adopt. unfold mbind at 1, st_bind at 1. unfold new_rule_id.
  rewrite (mapM_draw RULE_ID_PREFIX (fun id r => {| rule_match := rule_match r; rule_build := rule_build r; rule_params := rule_params r; rule_id := Some id |})).
  unfold mbind at 1, st_bind at 1. unfold new_exception_id.
  rewrite (mapM_draw EXCEPTION_ID_PREFIX (fun id e => {| exc_match := exc_match e; exc_id := Some id |})). reflexivity.
Qed.

(** Compilation does not look at ids. *)
Lemma compile_rules_same transformers secrets (rules rules' : list RuleConfig) :
  length rules' = length rules -> (forall i r r', rules !! i = Some r -> rules' !! i = Some r' -> rule_content r' = rule_content r) ->
  mapM_res (compile_rule transformers secrets) (imap pair rules') = mapM_res (compile_rule transformers secrets) (imap pair rules).
Proof.
  assert (G : forall k, length rules' = length rules -> (forall i r r', rules !! i = Some r -> rules' !! i = Some r' -> rule_content r' = rule_content r) ->
    mapM_res (compile_rule transformers secrets) (imap (fun i x => ((k + i)%nat, x)) rules') = mapM_res (compile_rule transformers secrets) (imap (fun i x => ((k + i)%nat, x)) rules)).
  2: { intros Ln H. exact (G 0%nat Ln H). }
  revert rules'. induction rules as [|r rules IH]; intros [|r' rules'] k Ln H; try discriminate; [reflexivity|]. cbn [imap mapM_res].
  assert (E : compile_rule transformers secrets ((k + 0)%nat, r') = compile_rule transformers secrets ((k + 0)%nat, r)).
  { specialize (H 0%nat r r' eq_refl eq_refl). unfold rule_content in H. injection H as H1 H2 H3. unfold compile_rule. cbn [fst snd]. rewrite H1, H2, H3. reflexivity. }
  rewrite E. clear E. destruct (compile_rule transformers secrets ((k + 0)%nat, r)); [|reflexivity]. cbn [mbind res_bind].
  assert (X : forall l : list RuleConfig, imap ((fun i x => ((k + i)%nat, x)) ∘ S) l = imap (fun i x => ((S k + i)%nat, x)) l).
  { intros l. apply imap_ext. intros i x _. cbn. f_equal. lia. }
  rewrite !X, (IH rules' (S k)); [reflexivity|cbn in Ln; lia|]. intros i s s' Hs Hs'. exact (H (S i) s s' Hs Hs').
Qed.

Section same_contents.
Context {L : PyLib} (secrets : secret_provider) (c c' : MaskingFileConfig).
Hypothesis Rules : length (masking c') = length (masking c).
Hypothesis Same_rules : forall i r r', masking c !! i = Some r -> masking c' !! i = Some r' -> rule_content r' = rule_content r.
Hypothesis Exceptions : length (file_exceptions c') = length (file_exceptions c).
Hypothesis Same_exceptions : forall i e e', file_exceptions c !! i = Some e -> file_exceptions c' !! i = Some e' -> exc_match e' = exc_match e.

Lemma same_policy transformers : compile_policy transformers secrets c' = compile_policy transformers secrets c.
Proof.
  unfold compile_policy. rewrite (compile_rules_same transformers secrets (masking c) (masking c') Rules Same_rules).
  destruct (mapM_res _ _) as [rs|]; [|reflexivity]. cbn [mbind res_bind]. do 2 f_equal.
  apply list_eq. intros i. change (map ?f ?l) with (f <$> l). rewrite !list_lookup_fmap, !list_lookup_imap.
  destruct (file_exceptions c' !! i) as [e'|] eqn:E'; destruct (file_exceptions c !! i) as [e|] eqn:E; try reflexivity.
  - specialize (Same_exceptions i e e' E E'). cbn. unfold compile_exception. cbn. rewrite Same_exceptions. reflexivity.
  - apply lookup_lt_Some in E'. apply lookup_ge_None in E. lia.
  - apply lookup_lt_Some in E. apply lookup_ge_None in E'. lia.
Qed.

Lemma same_compiled : database c' = database c -> sql c' = sql c -> compile secrets c' = compile secrets c.
Proof.
  intros Ed Es. unfold compile. destruct build_default_registry as [ts|]; [|reflexivity]. rewrite same_policy.
  destruct (compile_policy ts secrets c); [|reflexivity]. unfold build_gateway_config. rewrite Ed, Es. reflexivity.
Qed.
End same_contents.

Lemma NoDup_imap {A B} (ids : nat -> pystr) (f : A -> B) (l : list A) : (forall i j, (i < length l)%nat -> (j < length l)%nat -> ids i = ids j -> i = j) ->
  NoDup (imap (fun i x => (ids i, f x)) l).*1.
Proof.
  intros H. apply NoDup_alt. intros i j k. rewrite !list_lookup_fmap, !list_lookup_imap.
  destruct (l !! i) as [x|] eqn:E; [|discriminate]. destruct (l !! j) as [y|] eqn:F; [|discriminate]. cbn. intros [= <-] [= E'].
  apply H; [exact (lookup_lt_Some _ _ _ E)|exact (lookup_lt_Some _ _ _ F)|congruence].
Qed.

Lemma adopted_exactly c n : (adopt token c n).1 = Ok (with_exceptions
    (map (fun x => exception_of x) (imap (fun i e => (new_id EXCEPTION_ID_PREFIX (token (n + length (masking c) + i)%nat), exc_match e)) (file_exceptions c)))
    (with_masking (map (fun x => rule_of x) (imap (fun i r => (new_id RULE_ID_PREFIX (token (n + i)%nat), rule_content r)) (masking c))) c)).
Proof.
  rewrite adopt_runs. cbn [fst]. f_equal. f_equal; [|f_equal]; change (map ?f ?l) with (f <$> l); rewrite fmap_imap; reflexivity.
Qed.

(** ** Properties *)

(** C13: the routes edit one item by its identity.  On an adopted document that
    validates, seen as rules and exceptions in an order under their ids, an
    edit of a rule, of an exception, of the order, of the limits or of the
    denied functions does exactly what [edit] says of those collections, and
    an edit refused is refused with the category [edit] gives: an insertion at
    a position out of range, an id that is not there, an order that is not a
    permutation, an attempt on the allowed functions.  In particular no other
    item, and no id, changes; and the document keeps one item per id. *)
Theorem edits_refine_document q c n : model_validate c = Ok c -> Config.revision c <> UNADOPTED_REVISION -> granular q -> fresh_for token q n c ->
  match mutation_of token n q c with
  | Ok c' => edit (new_id_of token q n) q (document_of c) = Ok (document_of c') /\ identified c'
  | Err (Some e) => edit (new_id_of token q n) q (document_of c) = Err (category e)
  | Err None => False
  end.
Proof.
  intros V R G F. pose proof (granular_follows token q c n G (adopted_identified c V R) F) as H. unfold mutation_of.
  destruct (mutate token q c n).1 as [c'|[e|]]; [exact H|apply H|exact H].
Qed.

(** An edit whose request passed its schema leaves a document that
    validates, under whatever revision the service gives it: the ids drawn
    have their shape and no item loses its own. *)
Theorem edits_stay_valid q c n c' revision : model_validate c = Ok c -> Config.revision c <> UNADOPTED_REVISION -> granular q -> fresh_for token q n c ->
  request_ok q -> length (token n) = 16%nat -> 0 <= revision -> mutation_of token n q c = Ok c' ->
  validate_file_config (with_revision revision c') = Ok (with_revision revision c').
Proof.
  intros V R G F Rq T Rv H. unfold mutation_of in H.
  pose proof (granular_follows token q c n G (adopted_identified c V R) F) as X. rewrite H in X. destruct X as [_ I].
  assert (Fc : file_fields c = true) by (unfold model_validate in V; destruct (file_fields c); [reflexivity|discriminate]).
  pose proof (mutate_fields token q c n c' G Rq T Fc H) as F'. unfold validate_file_config. rewrite (identified_valid c' revision I); [reflexivity|].
  rewrite file_fields_iff in F' |- *. destruct F' as (_ & F'). split; [exact Rv|exact F'].
Qed.

(** C14: no route opens a function.  The list of allowed functions is never
    changed; every function that the policy allows after an adoption or an
    edit was allowed before it, and every relation that it refuses was refused;
    after a write of denied functions those are denied, and writing them again
    changes nothing; a replacement of the whole configuration, which may
    withdraw denials, cannot allow a [pg_] function that the list does not
    allow.  And a mutation never says of its error that it was applied. *)
Theorem no_route_opens_functions q c n c' name : mutation_of token n q c = Ok c' ->
  modest (mutation_of token n q) /\ cfg_allowed_pg_functions (sql c') = cfg_allowed_pg_functions (sql c) /\
  allows_relation (policy_of c') name = allows_relation (policy_of c) name /\
  match q with
  | ReplaceConfig _ => startswith PG_PREFIX (casefold name) = true -> allows (policy_of c') name = true ->
      name_in (casefold name) (Sql.allowed_pg_functions (policy_of c)) = true
  | ReplaceSql _ denied => (allows (policy_of c') name = true -> allows (policy_of c) name = true) /\
      (forall d, d ∈ denied -> strip d <> [] -> casefold name = canonical_function_name d -> allows (policy_of c') name = false) /\
      mutation_of token n q c' = Ok c'
  | _ => allows (policy_of c') name = true -> allows (policy_of c) name = true
  end.
Proof.
  intros H. unfold mutation_of in H. split; [apply mutation_modest|]. pose proof (sql_untouched q c n c' H) as S.
  destruct q; try (unfold policy_of; rewrite S; auto; fail).
  - cbn [mutate] in H. unfold replace_sql in H. destruct allowed_present eqn:P; [discriminate|]. injection H as <-. split; [reflexivity|]. split; [reflexivity|].
    split; [|split].
    + apply denial_grows. intros m Hm. apply normalize_merge, normalize_names_spec. apply normalize_names_spec in Hm as (x & Hx & E). exists x.
      split; [apply elem_of_app; auto|exact E].
    + intros d Hd Sd E. unfold policy_of, allows. cbn [Sql.denied_functions build_sql_policy]. rewrite (proj2 (name_in_true _ _)); [reflexivity|].
      apply elem_of_app. right. apply normalize_merge, normalize_names_spec. exists d. split; [apply elem_of_app; auto|auto].
    + unfold mutation_of. cbn [mutate replace_sql with_denied sql cfg_denied_functions fst mret st_ret]. rewrite merge_denied_idempotent. reflexivity.
  - cbn [mutate] in H. unfold replace_config in H. destruct (replace_allowed_present q); [discriminate|]. unfold mbind, st_bind in H.
    destruct (mapM_st _ _ n) as [[rs|] k]; [|discriminate]. destruct (mapM_st _ _ k) as [[es|] k']; [|discriminate]. injection H as <-.
    split; [reflexivity|]. split; [reflexivity|]. intros Pg. unfold policy_of, allows. cbn [sql Sql.denied_functions Sql.denied_prefixes Sql.allowed_pg_functions build_sql_policy cfg_allowed_pg_functions].
    destruct (name_in _ _); [discriminate|]. destruct (existsb _ _); [discriminate|]. rewrite Pg. auto.
Qed.

Lemma adopted_rules n (l : list RuleConfig) i r r' : l !! i = Some r ->
  map (fun x => rule_of x) (imap (fun i r => (new_id RULE_ID_PREFIX (token (n + i)%nat), rule_content r)) l) !! i = Some r' ->
  rule_content r' = rule_content r.
Proof.
  intros H H'. change (map ?f ?l) with (f <$> l) in H'. rewrite list_lookup_fmap, list_lookup_imap, H in H'. injection H' as <-. destruct r; reflexivity.
Qed.

Lemma adopted_exceptions n (l : list ExceptionConfig) i e e' : l !! i = Some e ->
  map (fun x => exception_of x) (imap (fun i e => (new_id EXCEPTION_ID_PREFIX (token (n + i)%nat), exc_match e)) l) !! i = Some e' ->
  exc_match e' = exc_match e.
Proof.
  intros H H'. change (map ?f ?l) with (f <$> l) in H'. rewrite list_lookup_fmap, list_lookup_imap, H in H'. injection H' as <-. reflexivity.
Qed.

(** C15: adoption changes no decision: it always gives a document, one that
    compiles, with any set of transformers, to the same policy, or fails to
    with the same error, of the same rule with the same pattern and cause; so
    that the runtime the administration builds of it has the same policy and
    limits; and when the document validates and the ids drawn are distinct tokens of
    sixteen bytes, the adopted document validates as the first revision, with
    one item per id. *)
Theorem adoption_keeps_decisions {L : PyLib} secrets c n : exists c', mutation_of token n Adopt c = Ok c' /\
  (forall transformers, compile_policy transformers secrets c' = compile_policy transformers secrets c) /\
  compile secrets c' = compile secrets c /\
  (model_validate c = Ok c ->
   let m := (n + length (masking c) + length (file_exceptions c))%nat in
   (forall i, (n <= i < m)%nat -> length (token i) = 16%nat) ->
   (forall i j, (n <= i < m)%nat -> (n <= j < m)%nat -> hexdigest (token i) = hexdigest (token j) -> i = j) ->
   validate_file_config (with_revision 1 c') = Ok (with_revision 1 c') /\ identified c').
Proof.
  unfold mutation_of. cbn [mutate]. rewrite adopted_exactly. eexists. split; [reflexivity|].
  assert (Rl : forall l : list RuleConfig, length (map (fun x => rule_of x) (imap (fun i r => (new_id RULE_ID_PREFIX (token (n + i)%nat), rule_content r)) l)) = length l)
    by (intros l; rewrite length_map, length_imap; reflexivity).
  split; [|split]; [intros transformers; apply same_policy|apply same_compiled; try reflexivity|];
    cbn [masking file_exceptions with_exceptions with_masking].
  1,5: apply Rl.
  1,4: apply adopted_rules.
  1,3: rewrite length_map, length_imap; reflexivity.
  1,2: apply adopted_exceptions.
  - intros V T D. set (c' := with_exceptions _ _). assert (I : identified c').
    { exists (imap (fun i r => (new_id RULE_ID_PREFIX (token (n + i)%nat), rule_content r)) (masking c)),
        (imap (fun i e => (new_id EXCEPTION_ID_PREFIX (token (n + length (masking c) + i)%nat), exc_match e)) (file_exceptions c)).
      split; [|split; [|split; reflexivity]].
      - apply (NoDup_imap (fun i => new_id RULE_ID_PREFIX (token (n + i)%nat)) rule_content). intros i j Hi Hj E. unfold new_id in E. apply app_inv_head, D in E; lia.
      - apply (NoDup_imap (fun i => new_id EXCEPTION_ID_PREFIX (token (n + length (masking c) + i)%nat)) exc_match). intros i j Hi Hj E. unfold new_id in E. apply app_inv_head, D in E; lia. }
    split; [|exact I]. assert (Fc : file_fields c = true) by (unfold model_validate in V; destruct (file_fields c); [reflexivity|discriminate]).
    unfold validate_file_config. rewrite (identified_valid c' 1 I); [reflexivity|]. rewrite file_fields_iff in Fc |- *. destruct Fc as (_ & F1 & F2 & F3).
    subst c'. cbn [Config.revision with_revision masking file_exceptions database with_exceptions with_masking]. split; [lia|]. split; [|split; [|exact F3]].
    + rewrite Forall_map. apply Forall_lookup. intros i x. rewrite list_lookup_imap. destruct (masking c !! i) as [r|] eqn:E; [|discriminate]. intros Hx. injection Hx as <-. cbn [fst snd].
      apply rule_dict_fields; [|apply new_id_matches, T; apply lookup_lt_Some in E; lia].
      rewrite Forall_lookup in F1. specialize (F1 i r E). unfold rule_fields in F1. rewrite !andb_true_iff in F1. split; apply F1.
    + rewrite Forall_map. apply Forall_lookup. intros i x. rewrite list_lookup_imap. destruct (file_exceptions c !! i) as [r|] eqn:E; [|discriminate]. intros Hx. injection Hx as <-. cbn [fst snd].
      apply exception_dict_fields; [|apply new_id_matches, T; apply lookup_lt_Some in E; lia].
      rewrite Forall_lookup in F2. specialize (F2 i r E). unfold exception_fields in F2. rewrite !andb_true_iff in F2. apply F2.
Qed.

End Routes.

(** ** Witnesses *)

Definition toy_token (n : nat) : list Byte.byte := replicate 15 Byte.x00 ++ [z2b (Z.of_nat n)].

Lemma sample_file_valid : model_validate sample_file = Ok sample_file.
Proof. vm_compute. reflexivity. Qed.

Definition sample_content : RuleContent :=
  {| content_match := {| cfg_match := py "cpf"; cfg_mode := EXACT; cfg_case_sensitive := false |}; content_transformer := py "sha256"; content_config := ∅ |}.

Lemma edits_refine_document_witness :
  match mutation_of toy_token 0 (CreateRule sample_content (Some 0)) sample_file with
  | Ok c' => edit (new_id_of toy_token (CreateRule sample_content (Some 0)) 0) (CreateRule sample_content (Some 0)) (document_of sample_file) = Ok (document_of c') /\ identified c'
  | Err (Some e) => edit (new_id_of toy_token (CreateRule sample_content (Some 0)) 0) (CreateRule sample_content (Some 0)) (document_of sample_file) = Err (category e)
  | Err None => False
  end.
Proof.
  apply (edits_refine_document toy_token); [exact sample_file_valid|discriminate|exact I|].
  cbn [fresh_for]. apply (bool_decide_eq_false_1 _). vm_compute. reflexivity.
Defined.

Lemma edits_stay_valid_witness : exists c', mutation_of toy_token 0 (CreateRule sample_content None) sample_file = Ok c' /\
  validate_file_config (with_revision 4 c') = Ok (with_revision 4 c').
Proof.
  eexists. split; [reflexivity|].
  apply (edits_stay_valid toy_token (CreateRule sample_content None) sample_file 0); [exact sample_file_valid|discriminate|exact I| |split; reflexivity|reflexivity|lia|reflexivity].
  cbn [fresh_for]. apply (bool_decide_eq_false_1 _). vm_compute. reflexivity.
Defined.

Lemma no_route_opens_functions_witness : exists c', mutation_of toy_token 0 (ReplaceSql false [py " Sleep "]) sample_file = Ok c' /\
  allows (policy_of c') (py "SLEEP") = false.
Proof.
  eexists. split; [reflexivity|].
  destruct (no_route_opens_functions toy_token (ReplaceSql false [py " Sleep "]) sample_file 0 _ (py "SLEEP") eq_refl) as (_ & _ & _ & _ & H & _).
  apply (H (py " Sleep ")); [left|vm_compute; discriminate|vm_compute; reflexivity].
Defined.

(** The sample file before its adoption. *)
Definition unadopted_file : MaskingFileConfig :=
  {| Config.revision := 0; masking := map (fun r => {| rule_match := rule_match r; rule_build := rule_build r; rule_params := rule_params r; rule_id := None |}) (masking sample_file);
     file_exceptions := map (fun e => {| exc_match := exc_match e; exc_id := None |}) (file_exceptions sample_file);
     database := database sample_file; sql := sql sample_file |}.

Lemma adoption_keeps_decisions_witness : exists c', mutation_of toy_token 0 Adopt unadopted_file = Ok c' /\
  validate_file_config (with_revision 1 c') = Ok (with_revision 1 c').
Proof.
  destruct (adoption_keeps_decisions toy_token (L := sample_lib) (fun _ => None) unadopted_file 0) as (c' & M & _ & _ & H). exists c'. split; [exact M|].
  apply H.
  - vm_compute. reflexivity.
  - intros i Hi. reflexivity.
  - intros i j Hi Hj. cbn in Hi, Hj. assert (i = 0 \/ i = 1)%nat as [-> | ->] by lia; assert (j = 0 \/ j = 1)%nat as [-> | ->] by lia;
      try reflexivity; intros E; vm_compute in E; discriminate.
Defined.
